(* ===== verification/_CoqProject ===== *)
-Q . S2P
Prelude.v
Roles.v
Permissions.v
AuthRoles.v
LocalCache.v
Points.v
Engine.v
Ports.v
PortsImpl.v
Qa.v
QaPoints.v
Events.v
Wiring.v
Outbox.v
Worker.v
Limiter.v
Breaker.v
Cache.v
SnapCache.v
Accounts.v
Sessions.v
Login.v
Cursor.v
Feed.v
Fanout.v
Exam.v
Files.v
Boards.v
Content.v
Follow.v
Blog.v
BlogGit.v
Bloom.v
Articles.v
Treehole.v
Starhope.v
Columns.v
Notification.v
Credentials.v
Recovery.v
AdminSessions.v
Registration.v
