(* ===== verification/Prelude.v ===== *)
(** * LKM Service: a verification library

    The repository is a FastAPI service in two processes groups (the business
    application under [src/app] and the account service under [src/auth]) over a
    shared [src/core]: PostgreSQL through SQLAlchemy, Redis as a cache and for
    limits, and a message bus fed by a transactional outbox. This library models
    the parts that carry its logic and proves what makes them correct.

    ** How the code is read

    - A handler is a program [prog W err A] (below): it takes the world of its
      component, and returns a value or raises, with the mutations made so far.
      [transaction] (Points, Qa) is [core/db/session.py]: commit, or roll back.
    - A table is a list of rows (when order, duplicates or unique constraints
      matter) or a finite map by primary key. Integer columns are 32 bits wide
      and an expression outside raises [DataError].
    - A clock reading, a fresh id, a random number or an answer of Redis is an
      argument, or a field of the world. Redis itself is a finite map whose
      entries have deadlines.
    - Interleaving: each statement that locks or commits is one step of a
      relation (Outbox, Worker, Qa), or the others' operations are a list run at
      the place where the code awaits (Cache, SnapCache).
    - Python's strings are [string]; code points beyond ASCII do not occur in
      the identifiers the models compare.

    ** The files

    - Prelude: errors, programs and their weakest preconditions, sorted sets,
      UUIDs, dates, lists, 32-bit integers, invariants of transition systems.
    - Roles, Permissions, AuthRoles: [core/rbac_roles.py],
      [app/modules/rbac/*.py], [auth/service_roles.py]. The hierarchy check and
      the closure terminate within the fuel they are given (the number of roles
      and edges of the literal tables), the closure is the reachable set,
      sessions satisfy both separations of duty, the three ways of asking for a
      permission agree, and assigning a role keeps the constraints.
    - LocalCache, Cache, SnapCache: [core/local_cache.py], [core/cache.py],
      [core/user_cache.py]. A bounded LRU with TTLs, the read-through cache and
      the user snapshots: what was invalidated while it was loaded is not
      written.
    - Points, Engine: [app/modules/points]. The ledger and its books, transfers,
      rewards under an idempotency key, statistics, achievements, daily tasks,
      the check-in.
    - Ports, PortsImpl, Qa, QaPoints: the interface of the ledger other modules
      use ([core/ports/points.py], [app/bootstrap.py]) as a class with laws; its
      implementation; the bounties of [app/modules/qa] proved against the class;
      and their composition.
    - Events, Wiring, Outbox, Worker: [core/bus], [core/event_contract.py],
      [core/task_registry.py], [core/db/outbox.py], [core/outbox_relay.py],
      [core/worker.py]. The contracts of the messages and that every message a
      module emits is accepted, has a handler and fits it; the outbox under
      interleaved relays, crashes and lost acknowledgements; the ledger of
      processed events.
    - Limiter, Breaker: [core/redis_limiter.py], [core/throttle.py],
      [auth/circuit_breaker.py].
    - Accounts, Sessions, Login: [auth/account_state.py], [auth/admission.py],
      [auth/service_authz.py], [auth/service_auth.py], [auth/service_2fa.py],
      [auth/deps.py], [auth/token_revocation.py]. Locks and upgrades, issuing and
      rotating tokens, the two deciders and where they agree, the password login
      and the second factor, each request with its transaction; ended sessions
      stay dead under any sequence of requests.
    - Cursor, Feed, Fanout: [app/modules/feed], [app/contracts/feed.py]. Cursors
      are read back; the pages of a timeline cover its sources exactly; a timeline
      written ahead reads as the live one does once the fan-out has caught up,
      but for posts of boards that only the fan-out knows; the fan-out misses
      nothing.
    - Exam: [app/modules/exam]. Certificates are earned and announced once, and
      what an exam unlocks is what the account has afterwards.
    - Files: [app/modules/files]. What the library lists it has, whatever the
      object store refuses, unless a commit fails after objects were removed or
      an upload is overwritten while it is checked; the versions of a document
      are a chain; the list shows what a reader may open; approvals are rewarded once;
      the clean-up of uploads misses nothing.
    - Boards: the boards of [app/modules/content] with the optimistic lock of
      [core/db/repository.py]: no update is lost, applications are decided
      fairly.
    - Content: items, comments, likes, favourites and views ([app/modules/content],
      [app/modules/comment], [app/modules/interaction]) and the counters derived
      from them ([content/counters.py], [core/counters.py]), on the forum of Boards
      and the timelines of Feed. Counters are exact in both of their modes, in
      the one that holds counts back as long as Redis answers and commits
      succeed; the reconciliation repairs any state and ends, what is deleted is
      gone for good, and who posts may do so.
    - Follow: following users and boards ([app/modules/interaction]), the cached
      lists and the timelines of Fanout. A timeline holds what its reader follows,
      but for readers whose invalidation Redis missed.
    - Blog, BlogGit: [app/modules/blog]. Series with their bare repositories, trees
      of comments, files and the file tree, publishing on Content; then git over
      HTTP, the files that follow a push, and the weekly job. Comments are listed
      as trees, versions tell texts apart, only the owner pushes, and the weekly
      job leaves exactly the repositories that are needed, but for a series whose
      deletion did not commit. Git is a class of what its commands answer.
    - Bloom: [core/bloom.py], [auth/bloom_seed.py]. When the filter of user
      identifiers refuses a user that exists, and that the nightly scan covers
      everybody.
    - Articles: [app/modules/content/articles]. Articles, categories, comments,
      likes and tags stay consistent.
    - Treehole, Starhope, Columns: [app/modules/treehole], [app/modules/starhope],
      [app/modules/columns]. Conversations and their sides; pushes of devices in
      any order converge, where their changes can be told apart; columns are
      earned by applications.
    - Notification: [app/modules/notification], [app/ws/broker.py] and the digest of
      [app/modules/admin]. An event notifies exactly those it concerns, on the
      business data of Qa, Content and comments that the handler reads through
      their ports.
    - Credentials, Recovery, AdminSessions, Registration:
      [auth/service_verify.py], [auth/service_2fa.py],
      [auth/service_recovery.py], [auth/admin_router.py],
      [auth/service_auth.py], [auth/service_oauth.py],
      [auth/service_passkey.py], [auth/router_settings.py] and their routers, on
      Accounts, Sessions and Login. Each stage adds tables and requests to the one
      before: codes, links and second factors are used once; a recovery proves the
      contact and the second factor for itself; and over every request that
      issues or ends a session, creates an account or changes what belongs to it,
      names stay unique and only an unlocked account gets a session, and only an
      admitted one outside the back office.

    ** Bounds and fuel

    The loops of the code that are not structural recursions carry fuel, and a
    theorem says that what the code can run is enough: [closure_loop] and
    [visit] in Roles, [relay_poll] in Outbox (the batch size), the expiry job in
    Qa (the number of due questions), [cas_loop] in SnapCache (the code's own
    retry limit), [scan] in Feed (the number of rows the code itself
    allows a request to look at), [cleanup_loop] in Files (the number of upload
    sessions and one), [reconcile_loop] in Content (the number of items and one),
    [comment_tree] and [render] in Blog (the number of comments and one),
    [scan_loop] in Bloom (the number of users and one), [comment_tree] in
    Articles (the number of comments), [free_suffix] in Registration (the number
    of accounts and one).

    ** Not modelled

    Cryptography, HTTP, e-mail, the search index and the clients of Redis, of the
    object store and of the bus are third-party code or pure I/O; what the models
    need of them is an argument, a finite map or a call that may fail; so are the
    OAuth provider and the WebAuthn library. The rotation of the signing keys is
    files and cryptography. Of the account service, profile texts, onboarding,
    the audit sink, bot tickets and the listings of the administration are out;
    projects are CRUD around the other components. Of the files, the media of the bot, thumbnails and the extraction of texts are out; of
    the content, reports, tags and the statistics for the administration. Routers only translate requests and errors. Listing
    and serialisation of rows, logging, metrics and tracing change no state.
    Scheduling inside one process is modelled only where it matters: statements
    between two awaits run as one step. *)

From stdpp Require Export base tactics countable gmap sets list strings sorting fin_maps.
From Stdlib Require Export ZArith Lia Ascii.

(** ** Errors

    [err] lists the exceptions the modelled code raises: the business codes of
    [core/err.py] and of the per-module [errors.py], Python's own [ValueError]
    and [AssertionError], and the database's refusal of an integer outside its
    column ([DataError]) or of a duplicate key ([IntegrityError]). *)
Inductive err :=
  | FORBIDDEN | NOT_FOUND | INVALID_INPUT | CONFLICT
  | INSUFFICIENT_BALANCE | DUPLICATE_REWARD | INVALID_PERIOD
  | QUESTION_NOT_FOUND | ANSWER_NOT_FOUND | NOT_ASKER | QUESTION_NOT_OPEN
  | BOUNTY_EXPIRED | BOUNTY_EXHAUSTED | SELF_ANSWER_FORBIDDEN | SELF_ACCEPT_FORBIDDEN
  | ACCOUNT_LOCKED
  | INVALID_CREDENTIALS | TOKEN_INVALID | TOKEN_EXPIRED | USER_NOT_FOUND | ACCOUNT_LEVEL_INSUFFICIENT
  | ALREADY_REGISTERED | ADMISSION_PENDING | ADMISSION_REJECTED | MFA_REQUIRED | TOTP_CODE_INVALID
  | TOTP_NOT_ENABLED | VERIFICATION_CODE_RATE_LIMIT
  | EXAM_NOT_FOUND | EXAM_NOT_PUBLISHED | EXAM_NOT_OPEN | EXAM_ALREADY_PASSED
  | ATTEMPT_NOT_FOUND | ATTEMPT_ALREADY_SUBMITTED
  | CONTENT_NOT_FOUND
  | STORE_ERROR | TOO_LARGE | INVALID_STATUS | NOT_PENDING | NOT_APPROVED | UPLOAD_NOT_FOUND | UPLOAD_EXPIRED
  | NOT_OWNER | INVALID_PROJECT | UNSAFE_CONTENT | SCAN_UNAVAILABLE | PREVIEW_UNAVAILABLE
  | BOARD_NOT_FOUND | SLUG_CONFLICT | NOT_BOARD_OWNER | ALREADY_BANNED | VERSION_CONFLICT
  | APPLICATION_PENDING_EXISTS | APPLICATION_COOLDOWN | APPLICATION_NOT_FOUND | APPLICATION_ALREADY_REVIEWED
  | BOARD_INACTIVE | BOARD_NOT_PUBLIC | BOARD_BANNED | CERTIFICATION_REQUIRED | DAILY_POST_LIMIT_REACHED
  | UNSUPPORTED_TYPE | COLUMN_NOT_FOUND | SLUG_TAKEN | COMMENT_NOT_FOUND
  | CANNOT_FOLLOW_SELF | TARGET_NOT_FOUND
  | SERIES_NOT_FOUND | FILE_NOT_FOUND | GIT_ERROR | REPO_NAME_TAKEN | UNAUTHORIZED | TIMEOUT
  | CATEGORY_NOT_FOUND | COMMENT_PARENT_MISMATCH | INVALID_STATUS_TRANSITION | CANNOT_HARD_DELETE_PUBLISHED
  | POST_NOT_FOUND | INVALID_TYPE | BAD_REQUEST | PROJECT_NOT_FOUND | DUPLICATE_APPLICATION | MEMBER_USER_NOT_FOUND
  | INVALID_ENTITY | RECOVERY_NOT_SUPPORTED | RECOVERY_METHOD_UNAVAILABLE | VERIFICATION_CODE_INVALID
  | VERIFICATION_CODE_EXPIRED | REPORT_NOT_FOUND | OAUTH_EMAIL_TAKEN | OAUTH_PROVIDER_ERROR
  | PASSKEY_REGISTRATION_FAILED | PASSKEY_VERIFICATION_FAILED
  | RECOVERY_CODE_INVALID | TOTP_ALREADY_ENABLED | TOTP_SETUP_REQUIRED | OAUTH_EMAIL_ALREADY_REGISTERED | OAUTH_CANCELED | KeyError | TypeError
  | ValueError
  | AssertionError
  | DataError | IntegrityError
  | RuntimeError.

#[export] Instance err_eq_dec : EqDecision err.
Proof. unfold EqDecision, Decision. decide equality. Defined.

(** ** Programs

    A program takes the world and either returns a value or raises; the world
    is threaded through in both cases, since a Python exception leaves the
    mutations made before it in place until somebody rolls them back. *)
Inductive outcome (E A : Type) :=
  | Ok (a : A)
  | Raise (e : E).
Arguments Ok {E A} a.
Arguments Raise {E A} e.

(** Functions that raise without touching any state. *)
#[export] Instance outcome_ret {E} : MRet (outcome E) := λ A a, Ok a.
#[export] Instance outcome_bind {E} : MBind (outcome E) := λ A B f m,
  match m with Ok a => f a | Raise e => Raise e end.

Lemma outcome_bind_Ok {E A B} (m : outcome E A) (f : A → outcome E B) b :
  m ≫= f = Ok b ↔ ∃ a, m = Ok a ∧ f a = Ok b.
Proof. destruct m as [a|e]; simpl; naive_solver. Qed.

Definition prog (W E A : Type) : Type := W → outcome E A * W.

Section prog.
Context {W E : Type}.

#[export] Instance prog_ret : MRet (prog W E) := λ A a w, (Ok a, w).

#[export] Instance prog_bind : MBind (prog W E) := λ A B f m w,
    match m w with
    | (Ok a, w') => f a w'
    | (Raise e, w') => (Raise e, w')
    end.

Definition raise {A} (e : E) : prog W E A := λ w, (Raise e, w).
Definition gets {A} (f : W → A) : prog W E A := λ w, (Ok (f w), w).
Definition get_state : prog W E W := λ w, (Ok w, w).
Definition modify (f : W → W) : prog W E () := λ w, (Ok tt, f w).

  (** [if c: raise e] *)
Definition raise_when (c : bool) (e : E) : prog W E () :=
    if c then raise e else mret tt.

  (** [x = ...; if x is None: raise e] *)
Definition get_or_raise {A} (o : option A) (e : E) : prog W E A :=
    match o with Some a => mret a | None => raise e end.

  (** [for x in xs: body(x)] *)
Fixpoint for_each {A} (xs : list A) (body : A → prog W E ()) : prog W E () :=
    match xs with
    | [] => mret tt
    | x :: xs => body x ≫= λ _, for_each xs body
    end.

  (** Weakest precondition: [Q] of the returned value, [R] of the exception. *)
Definition wp {A} (m : prog W E A) (Q : A → W → Prop) (R : E → W → Prop) (w : W) : Prop :=
    match m w with
    | (Ok a, w') => Q a w'
    | (Raise e, w') => R e w'
    end.

Lemma bind_left_id {A B} (a : A) (f : A → prog W E B) w : (mret a ≫= f) w = f a w.
  Proof. reflexivity. Qed.

Lemma bind_ok {A B} (m : prog W E A) (f : A → prog W E B) w a w' :
  m w = (Ok a, w') → (m ≫= f) w = f a w'.
Proof. unfold mbind, prog_bind. by intros ->. Qed.

Lemma bind_err {A B} (m : prog W E A) (f : A → prog W E B) w e w' :
  m w = (Raise e, w') → (m ≫= f) w = (Raise e, w').
Proof. unfold mbind, prog_bind. by intros ->. Qed.

Lemma run_raise {A B} (e : E) (f : A → prog W E B) w : (raise e ≫= f) w = (Raise e, w).
Proof. reflexivity. Qed.

Lemma run_gets {A B} (g : W → A) (f : A → prog W E B) w : (gets g ≫= f) w = f (g w) w.
Proof. reflexivity. Qed.

Lemma run_get_state {B} (f : W → prog W E B) w : (get_state ≫= f) w = f w w.
Proof. reflexivity. Qed.

Lemma run_modify {B} (g : W → W) (f : () → prog W E B) w : (modify g ≫= f) w = f tt (g w).
Proof. reflexivity. Qed.

Lemma run_raise_when {B} (c : bool) e (f : () → prog W E B) w :
  (raise_when c e ≫= f) w = if c then (Raise e, w) else f tt w.
Proof. by destruct c. Qed.

Lemma run_get_or_raise {A B} (o : option A) e (f : A → prog W E B) w :
  (get_or_raise o e ≫= f) w = match o with Some a => f a w | None => (Raise e, w) end.
Proof. by destruct o. Qed.

Lemma bind_right_id {A} (m : prog W E A) w : (m ≫= mret) w = m w.
  Proof. unfold mbind, prog_bind. by destruct (m w) as [[]]. Qed.

Lemma bind_assoc {A B C} (m : prog W E A) (f : A → prog W E B) (g : B → prog W E C) w :
    ((m ≫= f) ≫= g) w = (m ≫= λ a, f a ≫= g) w.
  Proof. unfold mbind, prog_bind. by destruct (m w) as [[]]. Qed.

Lemma wp_bind {A B} (m : prog W E A) (f : A → prog W E B) Q R w :
    wp m (λ a, wp (f a) Q R) R w → wp (m ≫= f) Q R w.
  Proof. unfold wp, mbind, prog_bind. by destruct (m w) as [[]]. Qed.

Lemma wp_ret {A} (a : A) Q R w : Q a w → wp (mret a) Q R w.
  Proof. done. Qed.

Lemma wp_raise {A} (e : E) (Q : A → W → Prop) R w : R e w → wp (raise e) Q R w.
  Proof. done. Qed.

Lemma wp_gets {A} (f : W → A) Q R w : Q (f w) w → wp (gets f) Q R w.
  Proof. done. Qed.

Lemma wp_get_state (Q : W → W → Prop) R w : Q w w → wp get_state Q R w.
  Proof. done. Qed.

Lemma wp_modify f Q R w : Q tt (f w) → wp (modify f) Q R w.
  Proof. done. Qed.

Lemma wp_raise_when (c : bool) e Q R w :
    (c = true → R e w) → (c = false → Q tt w) → wp (raise_when c e) Q R w.
  Proof. unfold wp, raise_when. destruct c; simpl; auto. Qed.

Lemma wp_get_or_raise {A} (o : option A) e Q R w :
    (o = None → R e w) → (∀ a, o = Some a → Q a w) → wp (get_or_raise o e) Q R w.
  Proof. unfold wp, get_or_raise. destruct o; simpl; auto. Qed.

Lemma wp_mono {A} (m : prog W E A) (Q Q' : A → W → Prop) (R R' : E → W → Prop) w :
    wp m Q R w → (∀ a w', Q a w' → Q' a w') → (∀ e w', R e w' → R' e w') → wp m Q' R' w.
  Proof. unfold wp. destruct (m w) as [[]]; auto. Qed.

Lemma wp_and {A} (m : prog W E A) (Q Q' : A → W → Prop) (R R' : E → W → Prop) w :
    wp m Q R w → wp m Q' R' w → wp m (λ a w, Q a w ∧ Q' a w) (λ e w, R e w ∧ R' e w) w.
  Proof. unfold wp. destruct (m w) as [[]]; auto. Qed.

  (** A loop keeps what every iteration keeps. *)
Lemma wp_for_each {A} (xs : list A) body (I : W → Prop) (R : E → W → Prop) w :
    (∀ x w, x ∈ xs → I w → wp (body x) (λ _, I) R w) →
    I w → wp (for_each xs body) (λ _, I) R w.
  Proof.
    revert w. induction xs as [|x xs IH]; intros w Hb Hw; simpl; [done|].
    apply wp_bind. eapply wp_mono; [apply Hb; [set_solver|done]| |done].
    intros [] w' Hw'. apply IH; [|done]. intros y v Hy. apply Hb; set_solver.
  Qed.

Lemma wp_run {A} (m : prog W E A) (Q : A → W → Prop) R w a w' :
    wp m Q R w → m w = (Ok a, w') → Q a w'.
  Proof. unfold wp. intros H Heq. by rewrite Heq in H. Qed.

Lemma wp_run_err {A} (m : prog W E A) (Q : A → W → Prop) R w e w' :
    wp m Q R w → m w = (Raise e, w') → R e w'.
  Proof. unfold wp. intros H Heq. by rewrite Heq in H. Qed.
End prog.

Arguments raise_when : simpl never.
Arguments get_or_raise : simpl never.
Arguments wp : simpl never.


(** ** Programs that respect a relation

    [respects R m]: whatever [m] does, successful or not, [R] relates the world
    before to the world after. *)
Section respects.
Context {W E : Type} (R : relation W) `{!PreOrder R}.

Definition respects {A} (m : prog W E A) : Prop := ∀ w, R w (m w).2.

Lemma respects_ret {A} (a : A) : respects (mret a).
Proof. by intros w. Qed.

Lemma respects_raise {A} e : respects (A:=A) (raise e).
Proof. by intros w. Qed.

Lemma respects_gets {A} (f : W → A) : respects (gets f).
Proof. by intros w. Qed.

Lemma respects_get_state : respects get_state.
Proof. by intros w. Qed.

Lemma respects_modify f : (∀ w, R w (f w)) → respects (modify f).
Proof. intros H w. apply H. Qed.

Lemma respects_raise_when c e : respects (raise_when c e).
Proof. intros w. by destruct c. Qed.

Lemma respects_get_or_raise {A} (o : option A) e : respects (get_or_raise o e).
Proof. intros w. by destruct o. Qed.

Lemma respects_bind {A B} (m : prog W E A) (f : A → prog W E B) :
  respects m → (∀ a, respects (f a)) → respects (m ≫= f).
Proof.
  intros Hm Hf w. unfold mbind, prog_bind. specialize (Hm w). destruct (m w) as [[a|e] w']; [|done].
  simpl in Hm. etrans; [done|]. apply Hf.
Qed.

(** A step that looks at the state it modifies. *)
Lemma respects_state {A} (f : W → prog W E A) : (∀ w, R w (f w w).2) → respects (get_state ≫= f).
Proof. intros H w. apply H. Qed.

Lemma respects_run {A} (m : prog W E A) w o w' : respects m → m w = (o, w') → R w w'.
Proof. intros H Hm. specialize (H w). by rewrite Hm in H. Qed.
End respects.

(** One step of a proof that a program respects a relation. *)
Ltac respects_step :=
  cbv beta;
  lazymatch goal with
  | |- respects _ (mbind _ _) => apply respects_bind; [apply _| |intros ?]
  | |- respects _ (mret _) => apply respects_ret; apply _
  | |- respects _ (raise _) => apply respects_raise; apply _
  | |- respects _ (gets _) => apply respects_gets; apply _
  | |- respects _ get_state => apply respects_get_state; apply _
  | |- respects _ (raise_when _ _) => apply respects_raise_when; apply _
  | |- respects _ (get_or_raise _ _) => apply respects_get_or_raise; apply _
  | |- respects _ (match ?x with _ => _ end) => destruct x
  end.
Create HintDb respects.
Ltac respects := repeat (respects_step || (solve [auto with respects])).

(** [leads R m]: when [m] succeeds, [R] relates the world before to the world
    after; what raises may have done anything, since its request is rolled back. *)
Section leads.
Context {W E : Type} (R : relation W) `{!PreOrder R}.

Definition leads {A} (m : prog W E A) : Prop := ∀ w, wp m (λ _ w', R w w') (λ _ _, True) w.

Lemma leads_respects {A} (m : prog W E A) : respects R m → leads m.
Proof. intros H w. specialize (H w). unfold wp. by destruct (m w) as [[]]. Qed.

Lemma leads_ret {A} (a : A) : leads (mret a).
Proof. intros w. by apply wp_ret. Qed.

Lemma leads_raise {A} e : leads (A:=A) (raise e).
Proof. intros w. by apply wp_raise. Qed.

Lemma leads_gets {A} (f : W → A) : leads (gets f).
Proof. intros w. by apply wp_gets. Qed.

Lemma leads_get_state : leads get_state.
Proof. intros w. by apply wp_get_state. Qed.

Lemma leads_modify f : (∀ w, R w (f w)) → leads (modify f).
Proof. intros H w. by apply wp_modify. Qed.

Lemma leads_raise_when c e : leads (raise_when c e).
Proof. intros w. by apply wp_raise_when. Qed.

Lemma leads_get_or_raise {A} (o : option A) e : leads (get_or_raise o e).
Proof. intros w. by apply wp_get_or_raise. Qed.

Lemma leads_bind {A B} (m : prog W E A) (f : A → prog W E B) : leads m → (∀ a, leads (f a)) → leads (m ≫= f).
Proof.
  intros Hm Hf w. apply wp_bind. eapply wp_mono; [apply Hm| |done]. intros a w' H1.
  eapply wp_mono; [apply Hf| |done]. intros b w2 H2. simpl in *. by etrans.
Qed.

(** What raises in the end. *)
Lemma leads_refusal {A B} (m : prog W E A) e : leads (A:=B) (m ≫= λ _, raise e).
Proof. intros w. unfold wp, mbind, prog_bind. by destruct (m w) as [[]]. Qed.

Lemma leads_for_each {A} (xs : list A) (body : A → prog W E ()) : (∀ a, leads (body a)) → leads (for_each xs body).
Proof. intros Hb. induction xs as [|x xs IH]; simpl; [apply leads_ret|]. by apply leads_bind. Qed.

Lemma leads_run {A} (m : prog W E A) w a w' : leads m → m w = (Ok a, w') → R w w'.
Proof. intros H Hm. specialize (H w). unfold wp in H. by rewrite Hm in H. Qed.
End leads.

Ltac leads_step :=
  cbv beta;
  lazymatch goal with
  | |- leads _ (mbind (λ _, raise _) _) => apply leads_refusal
  | |- leads _ (mbind _ _) => apply leads_bind; [apply _| |intros ?]
  | |- leads _ (mret _) => apply leads_ret; apply _
  | |- leads _ (raise _) => apply leads_raise
  | |- leads _ (gets _) => apply leads_gets; apply _
  | |- leads _ get_state => apply leads_get_state; apply _
  | |- leads _ (raise_when _ _) => apply leads_raise_when; apply _
  | |- leads _ (get_or_raise _ _) => apply leads_get_or_raise; apply _
  | |- leads _ (for_each _ _) => apply leads_for_each; [apply _|intros ?]
  | |- leads _ (match ?x with _ => _ end) => destruct x
  end.
Create HintDb leads.
Ltac leads := repeat (leads_step || (solve [auto with leads])).

(** Running a program of a component on the part of a larger world that the
    component owns. *)
Section zoom.
Context {W V E : Type} (getV : W → V) (setV : V → W → W).

Definition zoom {A} (m : prog V E A) : prog W E A := λ w,
    match m (getV w) with (o, v) => (o, setV v w) end.

Lemma wp_zoom {A} (m : prog V E A) Q R w :
    wp m (λ a v, Q a (setV v w)) (λ e v, R e (setV v w)) (getV w) → wp (zoom m) Q R w.
  Proof. unfold wp, zoom. by destruct (m (getV w)) as [[]]. Qed.

Lemma leads_zoom {A} (R : relation V) (Q : relation W) (m : prog V E A) :
  leads R m → (∀ w v, R (getV w) v → Q w (setV v w)) → leads Q (zoom m).
Proof.
  intros Hm HR w. apply wp_zoom. eapply wp_mono; [apply Hm| |done]. intros a v. apply HR.
Qed.
End zoom.

(** Running a program forwards by rewriting. *)
Create Rewrite HintDb run.
#[export] Hint Rewrite @bind_left_id @run_raise @run_gets @run_get_state @run_modify @run_raise_when
  @run_get_or_raise @bind_assoc : run.

(** One proof step through a program. *)
Ltac wp_step :=
  cbv beta;
  lazymatch goal with
  | |- wp (mbind _ _) _ _ _ => apply wp_bind
  | |- wp (mret _) _ _ _ => apply wp_ret
  | |- wp (raise _) _ _ _ => apply wp_raise
  | |- wp (gets _) _ _ _ => apply wp_gets
  | |- wp get_state _ _ _ => apply wp_get_state
  | |- wp (modify _) _ _ _ => apply wp_modify
  | |- wp (raise_when _ _) _ _ _ => apply wp_raise_when; intros ?
  | |- wp (get_or_raise _ _) _ _ _ => apply wp_get_or_raise; [intros ?|intros ? ?]
  | |- wp (zoom _ _ _) _ _ _ => apply wp_zoom
  | |- wp (match ?x with _ => _ end) _ _ _ => destruct x eqn:?
  end.
Ltac wp_steps := repeat (wp_step; simpl).

(** ** Sorted, duplicate-free tuples of strings

    [tuple(sorted(some_set))]: Python compares strings by code point, which is
    [String.le] on the ASCII identifiers of the code. *)
Definition sorted_set (X : gset string) : list string := merge_sort String.le (elements X).

Definition set_of (l : list string) : gset string := list_to_set l.

Lemma elem_of_sorted_set X x : x ∈ sorted_set X ↔ x ∈ X.
Proof. unfold sorted_set. by rewrite merge_sort_Permutation, elem_of_elements. Qed.

Lemma NoDup_sorted_set X : NoDup (sorted_set X).
Proof. unfold sorted_set. rewrite merge_sort_Permutation. apply NoDup_elements. Qed.

Lemma Sorted_sorted_set X : Sorted String.le (sorted_set X).
Proof. apply Sorted_merge_sort. apply _. Qed.

Lemma elem_of_set_of l x : x ∈ set_of l ↔ x ∈ l.
Proof. unfold set_of. apply elem_of_list_to_set. Qed.

Lemma set_of_sorted_set X : set_of (sorted_set X) = X.
Proof. apply set_eq. intros x. by rewrite elem_of_set_of, elem_of_sorted_set. Qed.

(** A sorted duplicate-free list is determined by its elements. *)
Lemma sorted_set_canonical l :
  NoDup l → Sorted String.le l → sorted_set (set_of l) = l.
Proof.
  intros Hnd Hs. apply (Sorted_unique String.le).
  - apply Sorted_sorted_set.
  - done.
  - apply NoDup_Permutation; [apply NoDup_sorted_set|done|].
    intros x. by rewrite elem_of_sorted_set, elem_of_set_of.
Qed.

Lemma sorted_set_ext X Y : (∀ x, x ∈ X ↔ x ∈ Y) → sorted_set X = sorted_set Y.
Proof. intros H. f_equal. by apply set_eq. Qed.

Create HintDb lkm.
Create Rewrite HintDb lkm.
#[export] Hint Rewrite elem_of_sorted_set elem_of_set_of set_of_sorted_set : lkm.
#[export] Hint Resolve NoDup_sorted_set Sorted_sorted_set : lkm.

(** ** Strings

    Python's [s.startswith(p)] and [s.split(":", 1)]. *)
Abbreviation startswith p s := (String.prefix p s).

Fixpoint split_colon (s : string) : string * option string :=
  match s with
  | EmptyString => (EmptyString, None)
  | String c rest =>
      if decide (c = ":"%char) then (EmptyString, Some rest)
      else let '(a, b) := split_colon rest in (String c a, b)
  end.

(** [s.split(":", 1)[0]] *)
Definition before_colon (s : string) : string := fst (split_colon s).

(** [s.strip()] is [rstrip (lstrip s)]. *)
Definition is_space (c : ascii) : bool :=
  let n := N_of_ascii c in bool_decide (n = 32 ∨ 9 ≤ n ≤ 13 ∨ 28 ≤ n ≤ 31)%N.

Fixpoint lstrip (s : string) : string :=
  match s with
  | String c r => if is_space c then lstrip r else s
  | EmptyString => EmptyString
  end.

Fixpoint rstrip (s : string) : string :=
  match s with
  | EmptyString => EmptyString
  | String c r =>
      match rstrip r with
      | EmptyString => if is_space c then EmptyString else String c EmptyString
      | r' => String c r'
      end
  end.

Definition strip (s : string) : string := rstrip (lstrip s).

Lemma append_inj (a b c d : string) :
  String.length a = String.length c → (a +:+ b = c +:+ d)%string → a = c ∧ b = d.
Proof.
  revert c. induction a as [|x a IH]; intros [|y c]; simpl; intros Hl H; try discriminate; [done|].
  injection H as -> H. destruct (IH c) as [-> ->]; auto with lia.
Qed.

Lemma string_length_app (a b : string) :
  String.length (a +:+ b) = String.length a + String.length b.
Proof. induction a as [|c a IH]; simpl; [done|]. by rewrite IH. Qed.

Lemma append_cons c (a b : string) : (String c a +:+ b)%string = String c (a +:+ b).
Proof. reflexivity. Qed.

Lemma string_app_assoc (a b c : string) : (a +:+ b +:+ c = (a +:+ b) +:+ c)%string.
Proof. induction a as [|x a IH]; [done|]. rewrite !append_cons. by rewrite IH. Qed.

Lemma prefix_app_inv p s : startswith p s = true → ∃ t, s = (p +:+ t)%string.
Proof.
  revert s. induction p as [|c p IH]; intros s H; [by exists s|].
  destruct s as [|c' s]; [done|]. simpl in H. destruct (ascii_dec c c') as [->|]; [|done].
  destruct (IH s H) as [t ->]. by exists t.
Qed.

Lemma prefix_app p t : startswith p (p +:+ t)%string = true.
Proof.
  induction p as [|c p IH]; [by destruct t|]. rewrite append_cons. simpl.
  by destruct (ascii_dec c c).
Qed.

Fixpoint no_colon (s : string) : bool :=
  match s with
  | EmptyString => true
  | String c s => bool_decide (c ≠ ":"%char) && no_colon s
  end.

(** With one colon on the right, the part before the first colon is unique. *)
Lemma colon_split_inj (level t a b : string) :
  no_colon a = true → no_colon b = true →
  (level +:+ ":" +:+ t = a +:+ ":" +:+ b)%string → level = a ∧ t = b.
Proof.
  revert a. induction level as [|c level IH]; intros [|c' a] Ha Hb H; simpl in Ha.
  - split; [done|]. by apply (append_inj ":" t ":" b).
  - apply andb_true_iff in Ha as [Hc%bool_decide_eq_true _].
    change (String ":" t = String c' (a +:+ ":" +:+ b)) in H. injection H as <- _. done.
  - change (String c (level +:+ ":" +:+ t) = String ":" b) in H. injection H as -> H.
    exfalso. subst b. clear IH. induction level as [|x l IH]; [done|].
    rewrite append_cons in Hb. simpl in Hb. apply andb_true_iff in Hb as [_ Hb]. by apply IH.
  - apply andb_true_iff in Ha as [_ Ha].
    change (String c (level +:+ ":" +:+ t) = String c' (a +:+ ":" +:+ b)) in H. injection H as -> H.
    destruct (IH a Ha Hb H) as [-> ->]. done.
Qed.

(** ** UUIDs

    A [uuid.UUID] is its 128-bit integer; comparison of UUIDs is comparison of
    the integers, and [str(u)] is the 8-4-4-4-12 hexadecimal form. *)
Definition uuid : Type := { n : N | bool_decide (n < 2 ^ 128)%N }.
#[export] Instance uuid_eq_dec : EqDecision uuid := _.
#[export] Instance uuid_countable : Countable uuid := _.

Definition uuid_int (u : uuid) : N := proj1_sig u.

Lemma uuid_int_bound u : (uuid_int u < 2 ^ 128)%N.
Proof. destruct u as [n Hn]. simpl. by apply bool_decide_unpack in Hn. Qed.

Lemma uuid_int_inj u v : uuid_int u = uuid_int v → u = v.
Proof. intros H. apply (sig_eq_pi (λ n, bool_decide (n < 2 ^ 128)%N)). exact H. Qed.

Definition uuid_of_N (n : N) : uuid :=
  match decide (bool_decide (n < 2 ^ 128)%N) with
  | left H => n ↾ H
  | right _ => 0%N ↾ I
  end.

Definition hex_digit (d : N) : ascii :=
  match d with
  | 0 => "0" | 1 => "1" | 2 => "2" | 3 => "3" | 4 => "4" | 5 => "5" | 6 => "6" | 7 => "7"
  | 8 => "8" | 9 => "9" | 10 => "a" | 11 => "b" | 12 => "c" | 13 => "d" | 14 => "e" | _ => "f"
  end%N%char.

Fixpoint hex (w : nat) (n : N) : string :=
  match w with
  | O => EmptyString
  | S w' => hex w' (n / 16)%N +:+ String (hex_digit (n mod 16)) EmptyString
  end.

Definition uuid_str (u : uuid) : string :=
  let n := uuid_int u in
  (hex 8 (n / 2 ^ 96) +:+ "-" +:+ hex 4 (n / 2 ^ 80) +:+ "-" +:+ hex 4 (n / 2 ^ 64)
   +:+ "-" +:+ hex 4 (n / 2 ^ 48) +:+ "-" +:+ hex 12 n)%N%string.

Lemma hex_length w n : String.length (hex w n) = w.
Proof. revert n. induction w as [|w IH]; intros n; simpl; [done|]. rewrite string_length_app, IH. simpl. lia. Qed.

Lemma hex_digit_inj a b : (a < 16 → b < 16 → hex_digit a = hex_digit b → a = b)%N.
Proof.
  intros Ha Hb.
  assert (Hin : ∀ x, (x < 16)%N → x ∈ (N.of_nat <$> seq 0 16)).
  { intros x Hx. apply list_elem_of_fmap. exists (N.to_nat x). rewrite elem_of_seq. split; lia. }
  apply Hin in Ha. apply Hin in Hb. simpl in Ha, Hb.
  repeat (apply elem_of_cons in Ha as [->|Ha]; [|try (apply elem_of_nil in Ha; destruct Ha)]);
  repeat (apply elem_of_cons in Hb as [->|Hb]; [|try (apply elem_of_nil in Hb; destruct Hb)]);
  vm_compute; congruence.
Qed.

Lemma hex_inj w m n : hex w m = hex w n → (m mod 16 ^ N.of_nat w = n mod 16 ^ N.of_nat w)%N.
Proof.
  revert m n. induction w as [|w IH]; intros m n H.
  { by rewrite !N.mod_1_r. }
  simpl hex in H. apply append_inj in H as [H1 H2]; [|by rewrite !hex_length].
  injection H2 as H2. apply hex_digit_inj in H2; try (apply N.mod_lt; lia).
  apply IH in H1. rewrite Nat2N.inj_succ, N.pow_succ_r'.
  rewrite !N.Div0.mod_mul_r. by rewrite H1, H2.
Qed.

Lemma mod_div_join (k m n : N) :
  (k ≠ 0 → m / k = n / k → m mod k = n mod k → m = n)%N.
Proof. intros Hk Hd Hm. rewrite (N.div_mod m k), (N.div_mod n k) by done. by rewrite Hd, Hm. Qed.

Lemma hex_append_inj w m n a b :
  (hex w m +:+ a = hex w n +:+ b)%string →
  (m mod 16 ^ N.of_nat w = n mod 16 ^ N.of_nat w)%N ∧ a = b.
Proof.
  intros H. apply append_inj in H as [H ->]; [|by rewrite !hex_length].
  by apply hex_inj in H.
Qed.

Lemma dash_inj (a b : string) : ("-" +:+ a = "-" +:+ b)%string → a = b.
Proof. intros H. by injection H. Qed.

Lemma uuid_str_inj u v : uuid_str u = uuid_str v → u = v.
Proof.
  pose proof (uuid_int_bound u) as Hu. pose proof (uuid_int_bound v) as Hv.
  unfold uuid_str. intros H. apply uuid_int_inj.
  set (m := uuid_int u) in *. set (n := uuid_int v) in *.
  apply hex_append_inj in H as [H1 H]. apply dash_inj in H.
  apply hex_append_inj in H as [H2 H]. apply dash_inj in H.
  apply hex_append_inj in H as [H3 H]. apply dash_inj in H.
  apply hex_append_inj in H as [H4 H]. apply dash_inj, hex_inj in H.
  change (16 ^ N.of_nat 8)%N with (2 ^ 32)%N in H1.
  change (16 ^ N.of_nat 4)%N with (2 ^ 16)%N in *.
  change (16 ^ N.of_nat 12)%N with (2 ^ 48)%N in H.
  rewrite !N.mod_small in H1 by (apply N.Div0.div_lt_upper_bound; exact Hu || exact Hv).
  assert (J : ∀ k : N, (m / 2 ^ (k + 16) = n / 2 ^ (k + 16) →
              (m / 2 ^ k) mod 2 ^ 16 = (n / 2 ^ k) mod 2 ^ 16 → m / 2 ^ k = n / 2 ^ k)%N).
  { intros k Hd Hm. apply (mod_div_join (2 ^ 16)); [done| |done].
    by rewrite !N.Div0.div_div, <-N.pow_add_r. }
  apply (J 80%N) in H2; [|done]. apply (J 64%N) in H3; [|done]. apply (J 48%N) in H4; [|done].
  by apply (mod_div_join (2 ^ 48)).
Qed.

Lemma uuid_str_length u : String.length (uuid_str u) = 36.
Proof. unfold uuid_str. by rewrite !string_length_app, !hex_length. Qed.

(** [f"{a}:{b}"] for two UUIDs. *)
Definition uuid_pair_str (a b : uuid) : string := (uuid_str a +:+ ":" +:+ uuid_str b)%string.

Lemma uuid_pair_str_inj a b c d : uuid_pair_str a b = uuid_pair_str c d → a = c ∧ b = d.
Proof.
  unfold uuid_pair_str. intros H.
  apply append_inj in H as [H1 H2]; [|by rewrite !uuid_str_length].
  apply (append_inj ":" _ ":" _) in H2 as [_ H2]; [|done].
  eauto using uuid_str_inj.
Qed.

(** ** Dates

    A [datetime.date] and its [isoformat()]: [YYYY-MM-DD]. *)
Record date := Date { year : N; month : N; day : N }.

#[export] Instance date_eq_dec : EqDecision date.
Proof. unfold EqDecision, Decision. decide equality; apply N.eq_dec. Defined.

Definition leap (y : N) : bool :=
  bool_decide (y mod 4 = 0)%N && (bool_decide (y mod 100 ≠ 0)%N || bool_decide (y mod 400 = 0)%N).

Definition days_in_month (y m : N) : N :=
  match m with
  | 2 => if leap y then 29 else 28
  | 4 | 6 | 9 | 11 => 30
  | _ => 31
  end%N.

Definition valid_date (d : date) : bool :=
  bool_decide (1 ≤ year d ≤ 9999 ∧ 1 ≤ month d ≤ 12 ∧ 1 ≤ day d ≤ days_in_month (year d) (month d))%N.

(** [d - timedelta(days=1)] *)
Definition prev_day (d : date) : date :=
  if decide (1 < day d)%N then Date (year d) (month d) (day d - 1)
  else if decide (1 < month d)%N then Date (year d) (month d - 1) (days_in_month (year d) (month d - 1))
  else Date (year d - 1) 12 31.

Fixpoint dec (w : nat) (n : N) : string :=
  match w with
  | O => EmptyString
  | S w' => dec w' (n / 10)%N +:+ String (ascii_of_N (48 + n mod 10)) EmptyString
  end.

Definition isoformat (d : date) : string :=
  (dec 4 (year d) +:+ "-" +:+ dec 2 (month d) +:+ "-" +:+ dec 2 (day d))%string.

Lemma dec_length w n : String.length (dec w n) = w.
Proof. revert n. induction w as [|w IH]; intros n; simpl; [done|]. rewrite string_length_app, IH. simpl. lia. Qed.

Lemma dec_inj w m n : (m < 10 ^ N.of_nat w → n < 10 ^ N.of_nat w → dec w m = dec w n → m = n)%N.
Proof.
  revert m n. induction w as [|w IH]; intros m n Hm Hn H.
  { change (10 ^ N.of_nat 0)%N with 1%N in *. lia. }
  simpl dec in H. apply append_inj in H as [H1 H2]; [|by rewrite !dec_length].
  rewrite Nat2N.inj_succ, N.pow_succ_r' in Hm, Hn.
  assert (Hd : ∀ k, (k mod 10 < 10)%N) by (intros k; apply N.mod_lt; lia).
  injection H2 as H2. apply (f_equal N_of_ascii) in H2.
  pose proof (Hd m). pose proof (Hd n). rewrite !N_ascii_embedding in H2 by lia.
  apply (mod_div_join 10); [done| |lia].
  apply IH; [apply N.Div0.div_lt_upper_bound; lia|apply N.Div0.div_lt_upper_bound; lia|done].
Qed.

Lemma isoformat_inj d e : valid_date d = true → valid_date e = true → isoformat d = isoformat e → d = e.
Proof.
  unfold valid_date. rewrite !bool_decide_eq_true. intros (Hy & Hm & Hd) (Hy' & Hm' & Hd') H.
  assert (Hdim : ∀ y m, (days_in_month y m ≤ 31)%N).
  { intros y m. unfold days_in_month. destruct (leap y);
    repeat match goal with |- context [match ?x with _ => _ end] => is_var x; destruct x end; lia. }
  pose proof (Hdim (year d) (month d)). pose proof (Hdim (year e) (month e)).
  unfold isoformat in H.
  apply append_inj in H as [Ey H]; [|by rewrite !dec_length]. apply dash_inj in H.
  apply append_inj in H as [Em Ed]; [|by rewrite !dec_length]. apply dash_inj in Ed.
  apply dec_inj in Ey; [|simpl; lia..]. apply dec_inj in Em; [|simpl; lia..].
  apply dec_inj in Ed; [|simpl; lia..].
  destruct d, e. simpl in *. by subst.
Qed.

Lemma isoformat_length d : String.length (isoformat d) = 10.
Proof. unfold isoformat. by rewrite !string_length_app, !dec_length. Qed.

Lemma prev_day_valid d :
  valid_date d = true → d ≠ Date 1 1 1 → valid_date (prev_day d) = true ∧ prev_day d ≠ d.
Proof.
  unfold valid_date, prev_day. rewrite !bool_decide_eq_true. intros (Hy & Hm & Hd) Hne.
  assert (Hdim : ∀ y m, (28 ≤ days_in_month y m)%N).
  { intros y m. unfold days_in_month. destruct (leap y);
    repeat match goal with |- context [match ?x with _ => _ end] => is_var x; destruct x end; lia. }
  destruct d as [y m d]; simpl in *. repeat case_decide; simpl.
  - split; [lia|]. intros [=]. lia.
  - pose proof (Hdim y (m - 1)%N). split; [lia|]. intros [=]. lia.
  - assert (d = 1%N) as -> by lia. assert (m = 1%N) as -> by lia.
    assert (y ≠ 1%N) by (intros ->; done). split; [simpl; lia|]. intros [=].
Qed.

(** ** Lists *)

(** [d.get(k)] for a literal dictionary. *)
Definition dict_get {A} (k : string) (d : list (string * A)) : option A :=
  snd <$> List.find (λ e, bool_decide (e.1 = k)) d.

Lemma dict_get_elem {A} k (d : list (string * A)) v : dict_get k d = Some v → (k, v) ∈ d.
Proof.
  unfold dict_get. destruct (List.find _ d) as [[k' v']|] eqn:Hf; [|done]. simpl. intros [= ->].
  apply List.find_some in Hf as [Hin Hk%bool_decide_eq_true]. simpl in Hk. subst. by apply list_elem_of_In.
Qed.

(** The sum of a column over the rows of a table. *)
Definition sumZ {A} (f : A → Z) (l : list A) : Z := foldr (λ a s, (f a + s)%Z) 0%Z l.

Lemma sumZ_app {A} (f : A → Z) l1 l2 : sumZ f (l1 ++ l2) = (sumZ f l1 + sumZ f l2)%Z.
Proof. induction l1 as [|a l1 IH]; simpl; [done|]. rewrite IH. lia. Qed.

Lemma sumZ_ext {A} (f g : A → Z) l : (∀ a, a ∈ l → f a = g a) → sumZ f l = sumZ g l.
Proof.
  induction l as [|a l IH]; intros H; simpl; [done|].
  rewrite H, IH; [done| |]; intros; try apply H; set_solver.
Qed.

Lemma sumZ_nonneg {A} (f : A → Z) l : (∀ a, a ∈ l → 0 ≤ f a)%Z → (0 ≤ sumZ f l)%Z.
Proof.
  induction l as [|a l IH]; intros H; simpl; [lia|].
  pose proof (H a (list_elem_of_here a l)). assert (0 ≤ sumZ f l)%Z; [|lia].
  apply IH. intros b Hb. apply H. by apply list_elem_of_further.
Qed.

(** The sum of the values of a map. *)
Definition sum_map `{Countable K} (m : gmap K Z) : Z := map_fold (λ _ v s, (v + s)%Z) 0%Z m.

Lemma sum_map_insert_new `{Countable K} (m : gmap K Z) k v :
  m !! k = None → sum_map (<[k := v]> m) = (v + sum_map m)%Z.
Proof. intros Hk. unfold sum_map. rewrite map_fold_insert_L; [done|intros; lia|done]. Qed.

Lemma sum_map_delete `{Countable K} (m : gmap K Z) k :
  sum_map m = (default 0 (m !! k) + sum_map (delete k m))%Z.
Proof.
  destruct (m !! k) as [v|] eqn:Hk; simpl.
  - rewrite <-(insert_delete_id m k v Hk) at 1. apply sum_map_insert_new, lookup_delete_eq.
  - by rewrite delete_id.
Qed.

Lemma sum_map_insert `{Countable K} (m : gmap K Z) k v :
  sum_map (<[k := v]> m) = (v - default 0 (m !! k) + sum_map m)%Z.
Proof.
  rewrite (sum_map_delete m k), <-insert_delete_eq, sum_map_insert_new by apply lookup_delete_eq. lia.
Qed.

Lemma alter_as_insert `{Countable K} {A} (f : A → A) (m : gmap K A) k a :
  m !! k = Some a → alter f k m = <[k := f a]> m.
Proof.
  intros Hk. apply map_eq. intros j. destruct (decide (j = k)) as [->|Hj].
  - by rewrite lookup_alter_eq, lookup_insert_eq, Hk.
  - by rewrite lookup_alter_ne, lookup_insert_ne.
Qed.

(** The largest of a list of numbers from one on. *)
Lemma max_ge l x : x ∈ l → (x ≤ foldr Z.max 0 l)%Z.
Proof. induction l as [|y l IH]; [by intros ?%elem_of_nil|]. rewrite elem_of_cons. cbn. intros [->|?%IH]; lia. Qed.

Lemma max_elem l : (0 < foldr Z.max 0 l)%Z → foldr Z.max 0%Z l ∈ l.
Proof.
  induction l as [|y l IH]; cbn; [lia|]. intros Hl. destruct (Z.max_spec y (foldr Z.max 0%Z l)) as [[? ->]|[? ->]]; [right|left].
  apply IH. lia.
Qed.

(** Different numbers from one to [m] are at most [m]. *)
Lemma NoDup_range_length (l : list Z) m : NoDup l → (∀ x, x ∈ l → 1 ≤ x ≤ m)%Z → (Z.of_nat (length l) ≤ Z.max 0 m)%Z.
Proof.
  intros Hn Hr. assert (Hs : l ⊆+ seqZ 1 m).
  { apply NoDup_submseteq; [done|]. intros x Hx. apply elem_of_seqZ. specialize (Hr x Hx). lia. }
  apply submseteq_length in Hs. rewrite length_seqZ in Hs. lia.
Qed.

Lemma find_Some_elem {A} (p : A → bool) l x :
  List.find p l = Some x → x ∈ l ∧ p x = true.
Proof. intros H. apply List.find_some in H. by rewrite list_elem_of_In. Qed.

Lemma find_None_elem {A} (p : A → bool) l x :
  List.find p l = None → x ∈ l → p x = false.
Proof. intros H Hx. apply (List.find_none p l H). by apply list_elem_of_In. Qed.

Lemma find_app {A} (p : A → bool) l1 l2 :
  List.find p (l1 ++ l2) = match List.find p l1 with Some x => Some x | None => List.find p l2 end.
Proof. induction l1 as [|a l1 IH]; simpl; [done|]. by destruct (p a). Qed.

(** ** Machine integers

    An [Integer] column, and every integer expression the database computes
    over one, is a signed 32-bit integer; a value outside is an error. *)
Definition int32 (z : Z) : bool := bool_decide (- 2 ^ 31 ≤ z < 2 ^ 31)%Z.

Lemma int32_spec z : int32 z = true ↔ (- 2 ^ 31 ≤ z < 2 ^ 31)%Z.
Proof. unfold int32. by rewrite bool_decide_eq_true. Qed.

(** ** Reachability *)
Abbreviation reachable := rtc (only parsing).

(** An invariant of the initial states kept by every step holds in every
    reachable state. *)
Lemma invariant_reachable {S} (step : S → S → Prop) (I : S → Prop) s s' :
  I s → (∀ a b, I a → step a b → I b) → rtc step s s' → I s'.
Proof. intros Hs Hstep Hr. induction Hr; eauto. Qed.
