(* ===== verification/Roles.v ===== *)
(** * RBAC role hierarchy and separation of duty

    Model of [core/rbac_roles.py]: the known roles and their inheritance, the
    validation of the hierarchy by depth-first search, the authorized closure
    of a set of roles, static and dynamic separation constraints (loaded from
    the deployment's JSON policy) and the choice of a session's active roles. *)

From S2P Require Import Prelude.

(** ** The role table *)
Definition KNOWN_ROLES : gset string := set_of
  [ "local:member"; "normal:member"; "normal:columnist"; "normal:author";
    "admin:incubated_member"; "admin:org_member"; "admin:content_reviewer";
    "admin:content_publisher"; "admin:super_admin" ].

(** senior -> directly inherited juniors *)
Definition ROLE_INHERITANCE : gmap string (gset string) := list_to_map
  [ ("normal:columnist", {[ "normal:member" ]});
    ("normal:author", {[ "normal:columnist" ]});
    ("admin:org_member", {[ "admin:incubated_member" ]});
    ("admin:super_admin", {[ "admin:org_member" ]}) ].

(** The tables are compared by name in proofs and evaluated by [vm_compute]. *)
#[global] Opaque KNOWN_ROLES ROLE_INHERITANCE.

(** ** Graph algorithms

    Both algorithms of the module are stated for any set of known roles and
    any inheritance map, and used on the table above. *)
Section hierarchy.
Context (known : gset string) (inheritance : gmap string (gset string)).

  (** [ROLE_INHERITANCE.get(role, ())] *)
Definition juniors (role : string) : gset string := default ∅ (inheritance !! role).

Definition junior (a b : string) : Prop := b ∈ juniors a.

  (** *** [_validate_hierarchy]

      State: the sets [visiting] and [visited]. The answer [None] is running
      out of fuel, which [validate_total] excludes. *)
Record dfs := Dfs { visiting : gset string; visited : gset string }.

  (** The loop of [visit] over the juniors of [role]. *)
Fixpoint visit_juniors (visit : string → dfs → option (outcome err dfs)) (role : string)
      (js : list string) (st : dfs) : option (outcome err dfs) :=
    match js with
    | [] => Some (Ok st)
    | j :: js =>
        if decide (role ∉ known ∨ j ∉ known) then Some (Raise ValueError)
        else if decide (before_colon role ≠ before_colon j) then Some (Raise ValueError)
        else match visit j st with
             | Some (Ok st') => visit_juniors visit role js st'
             | r => r
             end
    end.

Fixpoint visit (fuel : nat) (role : string) (st : dfs) : option (outcome err dfs) :=
    match fuel with
    | O => None
    | S fuel =>
        if decide (role ∈ visiting st) then Some (Raise ValueError)
        else if decide (role ∈ visited st) then Some (Ok st)
        else
          match visit_juniors (visit fuel) role (elements (juniors role))
                  (Dfs ({[role]} ∪ visiting st) (visited st)) with
          | Some (Ok st') => Some (Ok (Dfs (visiting st' ∖ {[role]}) ({[role]} ∪ visited st')))
          | r => r
          end
    end.

Fixpoint visit_all (fuel : nat) (roles : list string) (st : dfs) : option (outcome err ()) :=
    match roles with
    | [] => Some (Ok ())
    | role :: roles =>
        match visit fuel role st with
        | Some (Ok st') => visit_all fuel roles st'
        | Some (Raise e) => Some (Raise e)
        | None => None
        end
    end.

  (** Recursion enters known roles only, after the top one. *)
Definition visit_fuel : nat := 2 + size known.

Definition validate_hierarchy : option (outcome err ()) :=
    visit_all visit_fuel (elements (dom inheritance)) (Dfs ∅ ∅).

  (** *** [role_closure]

      The Python list [pending] is used as a stack; here its top is the head. *)
Fixpoint closure_loop (fuel : nat) (pending : list string) (result : gset string)
      : option (gset string) :=
    match pending with
    | [] => Some result
    | role :: pending =>
        match fuel with
        | O => None
        | S fuel =>
            if decide (role ∈ result) then closure_loop fuel pending result
            else closure_loop fuel (elements (juniors role) ++ pending) ({[role]} ∪ result)
        end
    end.

  (** Every iteration pops; an edge is pushed at most once. *)
Definition edges_left (result : gset string) : nat :=
    sum_list_with (λ r, size (juniors r)) (elements (dom inheritance ∖ result)).

Definition closure (roles : list string) : gset string :=
    let pending := reverse (filter (λ r, r ∈ known) roles) in
    default ∅ (closure_loop (length pending + edges_left ∅) pending ∅).
End hierarchy.

Definition role_closure (roles : list string) : list string :=
  sorted_set (closure KNOWN_ROLES ROLE_INHERITANCE roles).

(** ** Separation constraints *)
Record SeparationConstraint := {
  roles : gset string;
  max_roles : Z
}.

(** The values [json.loads] produces; an object is the list of its pairs, the
    last one of a repeated key wins. *)
Inductive json :=
  | JNull
  | JBool (b : bool)
  | JInt (z : Z)
  | JFloat (lexeme : string)
  | JString (s : string)
  | JList (items : list json)
  | JObject (pairs : list (string * json)).

Definition obj (pairs : list (string * json)) : gmap string json := list_to_map (reverse pairs).

(** [isinstance(role, str)] for every member *)
Fixpoint all_strings (items : list json) : option (list string) :=
  match items with
  | [] => Some []
  | JString s :: items => (s ::.) <$> all_strings items
  | _ :: _ => None
  end.

Definition load_constraint (item : json) : outcome err SeparationConstraint :=
  match item with
  | JObject pairs =>
      let o := obj pairs in
      if decide (dom o = {[ "roles"; "max_roles" ]}) then
        match o !! "roles", o !! "max_roles" with
        | Some (JList rs), Some (JInt maximum) =>
            match all_strings rs with
            | Some rs =>
                if decide (NoDup rs ∧ set_of rs ⊆ KNOWN_ROLES
                           ∧ (0 < maximum < Z.of_nat (length rs))%Z)
                then Ok {| roles := set_of rs; max_roles := maximum |}
                else Raise ValueError
            | None => Raise ValueError
            end
        | _, _ => Raise ValueError
        end
      else Raise ValueError
  | _ => Raise ValueError
  end.

Fixpoint load_items (items : list json) : outcome err (list SeparationConstraint) :=
  match items with
  | [] => Ok []
  | item :: items =>
      c ← load_constraint item;
      cs ← load_items items;
      mret (c :: cs)
  end.

(** [parsed] is [json.loads(raw)], [None] when that raises. *)
Definition load_constraints (parsed : option json) : outcome err (list SeparationConstraint) :=
  match parsed with
  | Some (JList items) => load_items items
  | _ => Raise ValueError
  end.

(** The test of [satisfies_constraints] on one item, and its opposite for the
    loaded policy. *)
Definition malformed (c : SeparationConstraint) : bool :=
  negb (bool_decide (roles c ⊆ KNOWN_ROLES)
        && bool_decide (0 < max_roles c < Z.of_nat (size (roles c)))%Z).

Fixpoint check_items (cl : gset string) (constraints : list SeparationConstraint)
    : outcome err bool :=
  match constraints with
  | [] => Ok true
  | item :: constraints =>
      if malformed item then Raise ValueError
      else if decide (max_roles item < Z.of_nat (size (cl ∩ roles item)))%Z then Ok false
      else check_items cl constraints
  end.

Definition satisfies_constraints (rs : list string) (constraints : list SeparationConstraint)
    : outcome err bool :=
  check_items (set_of (role_closure rs)) constraints.

(** ** Roles of an account and of a session *)
Definition composite_role (account_level role : string) : string :=
  (account_level +:+ ":" +:+ role)%string.

(** The optional [active_roles] claim of a token; [None] when the token has none. *)
Definition session_roles_claim (value : json) : outcome err (option (list string)) :=
  match value with
  | JNull => Ok None
  | JList items =>
      match all_strings items with
      | Some rs => Ok (Some rs)
      | None => Raise ValueError
      end
  | _ => Raise ValueError
  end.

Definition assigned_roles (account_level primary_role : string) (extra : list string)
    : list string :=
  let prefix := (account_level +:+ ":")%string in
  sorted_set ({[ composite_role account_level primary_role ]}
    ∪ set_of (filter (λ r, startswith prefix r = true ∧ r ∈ KNOWN_ROLES) extra)).

Definition authorized_roles (account_level primary_role : string) (extra : list string)
    : list string :=
  role_closure (assigned_roles account_level primary_role extra).

Section activation.
  (** The policies loaded from the settings. *)
Context (SSD DSD : list SeparationConstraint).

  (** The loop over the candidates of a session without an explicit choice. *)
Fixpoint choose (candidates chosen : list string) : outcome err (list string) :=
    match candidates with
    | [] => Ok chosen
    | role :: candidates =>
        if decide (role ∈ role_closure chosen) then choose candidates chosen
        else
          ok ← satisfies_constraints (chosen ++ [role]) DSD;
          choose candidates (if ok : bool then chosen ++ [role] else chosen)
    end.

Definition activated_roles (account_level primary_role : string) (extra : list string)
      (selected_roles : option (list string)) : outcome err (list string) :=
    let direct := assigned_roles account_level primary_role extra in
    let available := role_closure direct in
    ssd ← satisfies_constraints available SSD;
    if negb ssd then Raise ValueError
    else
      selected ←
        match selected_roles with
        | None =>
            chosen ← choose (composite_role account_level primary_role :: direct ++ available) [];
            mret (merge_sort String.le chosen)
        | Some sel =>
            if decide (¬ NoDup sel ∨ ¬ (set_of sel ⊆ set_of available)) then Raise ValueError
            else mret (merge_sort String.le sel)
        end;
      dsd ← satisfies_constraints selected DSD;
      if negb dsd then Raise ValueError else mret selected.
End activation.

(** ** The closure loop computes reachability *)
Section closure_proofs.
Context (known : gset string) (inheritance : gmap string (gset string)).
#[local] Abbreviation juniors := (juniors inheritance).
#[local] Abbreviation junior := (junior inheritance).
#[local] Abbreviation edges_left := (edges_left inheritance).

Lemma edges_left_new role result :
    role ∉ result → size (juniors role) + edges_left ({[role]} ∪ result) = edges_left result.
  Proof.
    intros Hr. unfold Roles.edges_left. destruct (decide (role ∈ dom inheritance)) as [Hd|Hd].
    - replace (dom inheritance ∖ result)
        with ({[role]} ∪ (dom inheritance ∖ ({[role]} ∪ result))).
      + rewrite elements_union_singleton by set_solver. done.
      + apply set_eq. intros x. destruct (decide (x = role)); set_solver.
    - replace (dom inheritance ∖ ({[role]} ∪ result)) with (dom inheritance ∖ result) by set_solver.
      apply not_elem_of_dom in Hd. unfold Roles.juniors. rewrite Hd. done.
  Qed.

Lemma closed_reach (result : gset string) (pending : list string) (a x : string) :
    (∀ a b, a ∈ result → junior a b → b ∈ result ∨ b ∈ pending) →
    a ∈ result → rtc junior a x → x ∈ result ∨ ∃ r, r ∈ pending ∧ rtc junior r x.
  Proof.
    intros Hcl Ha Hr. revert Ha. induction Hr as [a|a b x Hab Hbx IH]; intros Ha; [by left|].
    destruct (Hcl a b Ha Hab) as [Hb|Hb]; [by apply IH|right; eauto].
  Qed.

Lemma closure_loop_spec fuel pending result :
    length pending + edges_left result ≤ fuel →
    (∀ a b, a ∈ result → junior a b → b ∈ result ∨ b ∈ pending) →
    ∃ X, closure_loop inheritance fuel pending result = Some X ∧
         ∀ x, x ∈ X ↔ x ∈ result ∨ ∃ r, r ∈ pending ∧ rtc junior r x.
  Proof.
    revert pending result. induction fuel as [|fuel IH]; intros [|role pending] result Hf Hcl; simpl in *.
    1,3: exists result; split; [done|set_solver].
    { lia. }
    case_decide as Hr.
    - destruct (IH pending result) as (X & HX & Hs); [lia|set_solver|].
      exists X. split; [done|]. intros x. rewrite Hs. split; [set_solver|].
      intros [?|(r & [->|Hr']%elem_of_cons & Hx)]; [by left| |by eauto].
      eapply closed_reach; [|exact Hr|done]. set_solver.
    - destruct (IH (elements (juniors role) ++ pending) ({[role]} ∪ result)) as (X & HX & Hs).
      + rewrite length_app. pose proof (edges_left_new role result Hr) as He.
        unfold size, set_size in He. simpl in He. lia.
      + intros a b. unfold Roles.junior. set_solver.
      + exists X. split; [done|]. intros x. rewrite Hs. clear IH HX Hs Hcl. split.
        * intros [[->%elem_of_singleton|Hx]%elem_of_union|(r & [Hj|Hj]%elem_of_app & Hx)].
          -- right. exists role. split; [set_solver|done].
          -- by left.
          -- right. exists role. split; [set_solver|]. eapply rtc_l; [|done].
             unfold Roles.junior. set_solver.
          -- right. exists r. set_solver.
        * intros [Hx|(r & [->|Hj]%elem_of_cons & Hx)]; [set_solver| |].
          -- destruct Hx as [role|role y x Hy Hx]; [set_solver|].
             right. exists y. split; [|done]. unfold Roles.junior in Hy. set_solver.
          -- right. exists r. set_solver.
  Qed.

Lemma closure_elem rs x :
    x ∈ closure known inheritance rs ↔ ∃ r, r ∈ rs ∧ r ∈ known ∧ rtc junior r x.
  Proof.
    unfold closure.
    destruct (closure_loop_spec
      (length (reverse (filter (λ r, r ∈ known) rs)) + edges_left ∅)
      (reverse (filter (λ r, r ∈ known) rs)) ∅) as (X & -> & Hs); [lia|set_solver|].
    simpl. rewrite Hs. setoid_rewrite elem_of_reverse. setoid_rewrite list_elem_of_filter.
    set_solver.
  Qed.
End closure_proofs.

(** ** The depth-first validation

    [valid_edges]: every edge joins known roles of one account level;
    [acyclic]: no role is among its own proper juniors. *)
Section validate_proofs.
Context (known : gset string) (inheritance : gmap string (gset string)).
#[local] Abbreviation juniors := (juniors inheritance).
#[local] Abbreviation junior := (junior inheritance).

Definition valid_edge (a b : string) : Prop :=
    a ∈ known ∧ b ∈ known ∧ before_colon a = before_colon b.

Definition acyclic : Prop := ∀ a, ¬ tc junior a a.

  (** What [visited] means: closed under juniors, valid and well-founded. *)
Definition finished (V : gset string) : Prop :=
    ∀ a, a ∈ V → Acc (flip junior) a ∧ ∀ b, junior a b → b ∈ V ∧ valid_edge a b.

Lemma tc_inv_l (a c : string) : tc junior a c → ∃ b, junior a b ∧ (b = c ∨ tc junior b c).
  Proof. intros H. inversion H; subst; eauto. Qed.

Lemma Acc_no_cycle a : Acc (flip junior) a → ¬ tc junior a a.
  Proof.
    induction 1 as [a _ IH]. intros Hc.
    destruct (tc_inv_l _ _ Hc) as (b & Hab & [->|Hba]); [by eapply IH; [exact Hab|apply tc_once]|].
    apply (IH b Hab). eapply tc_transitive; [exact Hba|by apply tc_once].
  Qed.

  (** Soundness: what [visit] marks as visited is finished. *)
Definition marks (visit : string → dfs → option (outcome err dfs)) : Prop :=
    ∀ role st st', finished (visited st) → visit role st = Some (Ok st') →
      finished (visited st') ∧ visited st ⊆ visited st' ∧ role ∈ visited st'.

Lemma visit_juniors_marks vis role js st st' :
    marks vis → finished (visited st) →
    visit_juniors known vis role js st = Some (Ok st') →
    finished (visited st') ∧ visited st ⊆ visited st'
    ∧ ∀ j, j ∈ js → j ∈ visited st' ∧ valid_edge role j.
  Proof.
    intros Hm. revert st. induction js as [|j js IH]; intros st Hfin H; simpl in H.
    { simplify_eq. split_and!; [done|done|set_solver]. }
    case_decide as Hk; [done|]. case_decide as Hl; [done|].
    destruct (vis j st) as [[st1|]|] eqn:Hv; simplify_eq.
    destruct (Hm _ _ _ Hfin Hv) as (Hfin1 & Hsub & Hj).
    destruct (IH st1 Hfin1 H) as (Hfin' & Hsub' & Hjs).
    split_and!; [done|by etrans|]. intros k [->|Hin]%elem_of_cons; [|by apply Hjs].
    split; [by apply Hsub'|]. split_and!; apply dec_stable; tauto.
  Qed.

Lemma visit_marks fuel : marks (visit known inheritance fuel).
  Proof.
    induction fuel as [|fuel IH]; intros role st st' Hfin H; simpl in H; [done|].
    case_decide; [done|]. case_decide; [by simplify_eq|].
    destruct (visit_juniors _ _ _ _ _) as [[st1|]|] eqn:Hv; simplify_eq. simpl.
    destruct (visit_juniors_marks _ _ _ (Dfs _ (visited st)) _ IH Hfin Hv) as (Hfin1 & Hsub & Hjs). simpl in Hsub.
    split_and!; [|set_solver|set_solver].
    intros a [->%elem_of_singleton|Ha]%elem_of_union.
    - split.
      + constructor. intros b Hb. apply Hfin1, Hjs. unfold flip, Roles.junior in Hb. set_solver.
      + intros b Hb. destruct (Hjs b); [unfold Roles.junior in Hb; set_solver|]. set_solver.
    - destruct (Hfin1 a Ha) as [Hacc Hcl]. split; [done|]. intros b Hb. destruct (Hcl b Hb). set_solver.
  Qed.

Lemma visit_all_marks fuel rs st u :
    finished (visited st) → visit_all known inheritance fuel rs st = Some (Ok u) →
    ∃ V, finished V ∧ ∀ r, r ∈ rs → r ∈ V.
  Proof.
    cut (∀ V, finished (visited st) → V ⊆ visited st →
         visit_all known inheritance fuel rs st = Some (Ok u) →
         ∃ V', finished V' ∧ V ⊆ V' ∧ ∀ r, r ∈ rs → r ∈ V').
    { intros Hc Hf H. destruct (Hc ∅ Hf ltac:(set_solver) H) as (V' & ? & _ & ?). eauto. }
    revert st. induction rs as [|r rs IH]; intros st V Hfin HV H; simpl in H.
    { exists (visited st). split_and!; [done|done|set_solver]. }
    destruct (visit _ _ _ _ _) as [[st1|]|] eqn:Hv; simplify_eq.
    destruct (visit_marks _ _ _ _ Hfin Hv) as (Hfin1 & Hsub & Hr).
    destruct (IH st1 ({[r]} ∪ V) Hfin1 ltac:(set_solver) H) as (V' & HV1 & HV2 & HV3).
    exists V'. clear - HV1 HV2 HV3. split_and!; [done|set_solver|].
    intros r' [->|Hr']%elem_of_cons; [set_solver|eauto].
  Qed.

  (** Termination and completeness: enough fuel for the known roles not yet on
      the path, and no error on a valid acyclic graph. *)
Definition valid_graph : Prop := (∀ a b, junior a b → valid_edge a b) ∧ acyclic.

Definition left_known (role : string) (st : dfs) : nat :=
    size (({[role]} ∪ known) ∖ visiting st).

Definition runs (role : string) (st : dfs) (r : option (outcome err dfs)) : Prop :=
    ∃ o, r = Some o ∧ (∀ st', o = Ok st' → visiting st' = visiting st)
      ∧ (valid_graph → (∀ v, v ∈ visiting st → tc junior v role) → ∃ st', o = Ok st').

Lemma visit_juniors_runs vis role js st :
    (∀ j st', j ∈ known → visiting st' = visiting st → runs j st' (vis j st')) →
    role ∈ visiting st → (∀ j, j ∈ js → junior role j) →
    ∃ o, visit_juniors known vis role js st = Some o
      ∧ (∀ st', o = Ok st' → visiting st' = visiting st)
      ∧ (valid_graph → (∀ v, v ∈ visiting st → v = role ∨ tc junior v role) → ∃ st', o = Ok st').
  Proof.
    revert st. induction js as [|j js IH]; intros st Hvis Hrole Hjs; simpl.
    { exists (Ok st). naive_solver. }
    case_decide as Hk.
    { exists (Raise ValueError). split_and!; [done|done|]. intros [Hv _].
      destruct (Hv role j) as (? & ? & _); [apply Hjs; set_solver|]. tauto. }
    case_decide as Hl.
    { exists (Raise ValueError). split_and!; [done|done|]. intros [Hv _].
      destruct (Hv role j) as (_ & _ & ?); [apply Hjs; set_solver|]. done. }
    destruct (Hvis j st) as (o & -> & Hsame & Hok); [apply dec_stable; tauto|done|].
    destruct o as [st1|e].
    - specialize (Hsame st1 eq_refl). rewrite <-Hsame in *. apply IH; [done|done|set_solver].
    - exists (Raise e). split_and!; [done|done|]. intros Hg Hpath. destruct Hok as [? ?]; [done| |done].
      intros v Hv. assert (junior role j) as Hj by (apply Hjs; set_solver).
      destruct (Hpath v Hv) as [->|Ht]; [by apply tc_once|]. eapply tc_r; eauto.
  Qed.

Lemma path_shrinks role j (V : gset string) :
    j ∈ known → role ∉ V →
    size (({[j]} ∪ known) ∖ ({[role]} ∪ V)) < size (({[role]} ∪ known) ∖ V).
  Proof.
    intros Hj Hr. apply subset_size. split; [set_solver|].
    intros H. specialize (H role). set_solver.
  Qed.

Lemma visit_runs fuel role st :
    left_known role st < fuel → runs role st (visit known inheritance fuel role st).
  Proof.
    revert role st. induction fuel as [|fuel IH]; intros role st Hf; [lia|]. simpl.
    case_decide as Hv.
    { exists (Raise ValueError). split_and!; [done|done|]. intros [_ Hac] Hp.
      by destruct (Hac role (Hp role Hv)). }
    case_decide as Hd.
    { exists (Ok st). naive_solver. }
    set (st0 := Dfs ({[role]} ∪ visiting st) (visited st)).
    destruct (visit_juniors_runs (visit known inheritance fuel) role (elements (juniors role)) st0)
      as (o & Ho & Hsame & Hok).
    - intros j st' Hj Hst'. apply IH. unfold left_known in *. rewrite Hst'. simpl.
      pose proof (path_shrinks role j (visiting st) Hj Hv). lia.
    - set_solver.
    - intros j Hj. unfold Roles.junior. set_solver.
    - rewrite Ho. destruct o as [st1|e].
      + eexists. split_and!; [done| |by eauto]. intros st' [= <-]. simpl.
        rewrite (Hsame st1 eq_refl). simpl. set_solver.
      + exists (Raise e). split_and!; [done|done|]. intros Hg Hp.
        destruct Hok as [? ?]; [done| |done]. simpl.
        intros v [->%elem_of_singleton|Hv']%elem_of_union; eauto.
  Qed.

Lemma visit_all_runs fuel rs st :
    visiting st = ∅ → (∀ r, size ({[r]} ∪ known) < fuel) →
    ∃ o, visit_all known inheritance fuel rs st = Some o ∧ (valid_graph → o = Ok ()).
  Proof.
    intros Hst Hf. revert st Hst. induction rs as [|r rs IH]; intros st Hst; simpl; [by eauto|].
    destruct (visit_runs fuel r st) as (o & -> & Hsame & Hok).
    { unfold left_known. rewrite Hst, difference_empty_L. apply Hf. }
    destruct o as [st1|e]; [apply IH; by rewrite (Hsame st1 eq_refl)|].
    exists (Raise e). split; [done|]. intros Hg. destruct Hok as [? ?]; [done|set_solver|done].
  Qed.

Lemma validate_runs :
    ∃ o, validate_hierarchy known inheritance = Some o ∧ (valid_graph → o = Ok ()).
  Proof.
    apply visit_all_runs; [done|]. intros r. unfold visit_fuel.
    pose proof (size_union_alt {[r]} known) as Hs. rewrite size_singleton in Hs.
    pose proof (subseteq_size (known ∖ {[r]}) known) as Hd. rewrite Hs. 
    enough (size (known ∖ {[r]}) ≤ size known) by lia. apply Hd. set_solver.
  Qed.

Lemma validate_valid :
    validate_hierarchy known inheritance = Some (Ok ()) → valid_graph.
  Proof.
    intros H. destruct (visit_all_marks (visit_fuel known) (elements (dom inheritance)) (Dfs ∅ ∅) ())
      as (V & Hfin & Hin); [intros a Ha; set_solver|done|].
    assert (Hdom : ∀ a b, junior a b → a ∈ V).
    { intros a b Hab. apply Hin, elem_of_elements, elem_of_dom.
      unfold Roles.junior, Roles.juniors in Hab. destruct (inheritance !! a); [done|set_solver]. }
    split.
    - intros a b Hab. by apply (Hfin a (Hdom a b Hab)).
    - intros a Hc. destruct (tc_inv_l _ _ Hc) as (b & Hab & _).
      by apply (Acc_no_cycle a); [apply Hfin; eauto|].
  Qed.
End validate_proofs.

(** ** The shipped table *)
Abbreviation junior_role := (junior ROLE_INHERITANCE).

Lemma shipped_hierarchy_valid : valid_graph KNOWN_ROLES ROLE_INHERITANCE.
Proof. apply validate_valid. vm_compute. reflexivity. Qed.

Lemma elem_of_role_closure rs x :
  x ∈ role_closure rs ↔ ∃ r, r ∈ rs ∧ r ∈ KNOWN_ROLES ∧ rtc junior_role r x.
Proof. unfold role_closure. by rewrite elem_of_sorted_set, closure_elem. Qed.

Lemma junior_known r x :
  rtc junior_role r x → r ∈ KNOWN_ROLES → x ∈ KNOWN_ROLES ∧ before_colon x = before_colon r.
Proof.
  induction 1 as [|a b c Hab _ IH]; intros Ha; [exact (conj Ha eq_refl)|].
  destruct (proj1 shipped_hierarchy_valid a b Hab) as (_ & Hb & Hl).
  destruct (IH Hb) as [Hc ->]. exact (conj Hc (eq_sym Hl)).
Qed.

Lemma role_closure_known rs x :
  x ∈ role_closure rs → x ∈ KNOWN_ROLES ∧ ∃ r, r ∈ rs ∧ before_colon x = before_colon r.
Proof. rewrite elem_of_role_closure. intros (r & Hr & Hk & Hx). destruct (junior_known r x); eauto. Qed.

Lemma role_closure_mono rs1 rs2 :
  (∀ r, r ∈ rs1 → r ∈ KNOWN_ROLES → r ∈ role_closure rs2) →
  ∀ x, x ∈ role_closure rs1 → x ∈ role_closure rs2.
Proof.
  intros H x. rewrite elem_of_role_closure. intros (r & Hr & Hk & Hx).
  apply H, elem_of_role_closure in Hr as (s & Hs & Hks & Hsr); [|done].
  apply elem_of_role_closure. exists s. split_and!; [done..|by etrans].
Qed.

Lemma role_closure_self rs r : r ∈ rs → r ∈ KNOWN_ROLES → r ∈ role_closure rs.
Proof. intros Hr Hk. apply elem_of_role_closure. exists r. exact (conj Hr (conj Hk (rtc_refl _ r))). Qed.

Lemma role_closure_ext rs1 rs2 :
  (∀ r, r ∈ rs1 ↔ r ∈ rs2) → role_closure rs1 = role_closure rs2.
Proof.
  intros H. unfold role_closure. apply sorted_set_ext. intros x. rewrite !closure_elem.
  setoid_rewrite H. done.
Qed.

Lemma role_closure_idem rs : role_closure (role_closure rs) = role_closure rs.
Proof.
  unfold role_closure at 1 3. apply sorted_set_ext. intros x.
  rewrite <-!elem_of_sorted_set. change (x ∈ role_closure (role_closure rs) ↔ x ∈ role_closure rs).
  split; [by apply role_closure_mono|]. intros Hx. apply role_closure_self; [done|].
  by apply (role_closure_known rs).
Qed.
#[export] Hint Rewrite role_closure_idem : lkm.

(** ** Constraints *)
Definition wf_policy (cs : list SeparationConstraint) : Prop := Forall (λ c, malformed c = false) cs.

(** The declarative reading: at most [max_roles] roles of each item. *)
Definition within (cl : list string) (cs : list SeparationConstraint) : Prop :=
  ∀ c, c ∈ cs → (Z.of_nat (size (set_of cl ∩ roles c)) ≤ max_roles c)%Z.

Lemma check_items_spec cl cs :
  wf_policy cs →
  ∃ b, check_items (set_of cl) cs = Ok b ∧ (b = true ↔ within cl cs).
Proof.
  unfold within. induction 1 as [|c cs Hc _ (b & Hb & Hs)]; simpl.
  { exists true. split; [done|]. set_solver. }
  rewrite Hc. case_decide as Hd.
  - exists false. split; [done|]. split; [done|]. intros H. specialize (H c ltac:(set_solver)). lia.
  - exists b. split; [done|]. rewrite Hs. split; [|set_solver].
    intros H c' [->|?]%elem_of_cons; [lia|eauto].
Qed.

Lemma satisfies_spec rs cs :
  wf_policy cs →
  ∃ b, satisfies_constraints rs cs = Ok b ∧ (b = true ↔ within (role_closure rs) cs).
Proof. apply check_items_spec. Qed.

Lemma within_mono cl1 cl2 cs :
  (∀ x, x ∈ cl1 → x ∈ cl2) → within cl2 cs → within cl1 cs.
Proof.
  intros Hsub H c Hc. specialize (H c Hc).
  assert (size (set_of cl1 ∩ roles c) ≤ size (set_of cl2 ∩ roles c)); [|lia].
  apply subseteq_size. intros x. rewrite !elem_of_intersection, !elem_of_set_of. naive_solver.
Qed.

Lemma load_items_wf items cs : load_items items = Ok cs → wf_policy cs.
Proof.
  revert cs. induction items as [|i items IH]; intros cs H; simpl in H.
  { simplify_eq. constructor. }
  apply outcome_bind_Ok in H as (c & Hc & H). apply outcome_bind_Ok in H as (cs' & Hcs & [= <-]).
  constructor; [|by apply IH]. clear IH Hcs.
  destruct i as [| | | | | |pairs]; simpl in Hc; try done.
  case_decide as Ho; [|done]. repeat (case_match; try done). simplify_eq.
  destruct_and!. unfold malformed. simpl.
  rewrite !bool_decide_true; [done| |done].
  unfold set_of. rewrite size_list_to_set by done. lia.
Qed.

(** ** Choosing the active roles *)
Lemma choose_spec DSD cands chosen :
  wf_policy DSD → within (role_closure chosen) DSD →
  ∃ out, choose DSD cands chosen = Ok out
    ∧ within (role_closure out) DSD
    ∧ (∀ r, r ∈ chosen → r ∈ out) ∧ (∀ r, r ∈ out → r ∈ chosen ∨ r ∈ cands)
    ∧ ((∀ r, r ∈ cands → r ∈ KNOWN_ROLES) → NoDup chosen → NoDup out)
    ∧ ∀ r, r ∈ cands → r ∈ role_closure out ∨ r ∈ out ∨ ¬ within (role_closure (out ++ [r])) DSD.
Proof.
  intros Hwf. revert chosen. induction cands as [|r cands IH]; intros chosen Hw; simpl.
  { exists chosen. split_and!; [done..|by left|done|intros r []%elem_of_nil]. }
  case_decide as Hin.
  - destruct (IH chosen Hw) as (out & -> & H1 & H2 & H3 & Hnd & H4). exists out.
    split_and!; [reflexivity|exact H1|exact H2|set_solver +H3| |].
    { intros Hk. apply Hnd. intros x Hx. apply Hk. by right. }
    intros r' [->|Hr']%elem_of_cons; [|by apply H4].
    left. eapply role_closure_mono; [|exact Hin]. eauto using role_closure_self.
  - destruct (satisfies_spec (chosen ++ [r]) DSD Hwf) as (b & -> & Hb). simpl.
    destruct b.
    + destruct (IH (chosen ++ [r])) as (out & -> & H1 & H2 & H3 & Hnd & H4); [by apply Hb|]. exists out.
      split_and!; [reflexivity|exact H1|set_solver +H2|set_solver +H3| |].
      { intros Hk Hch. apply Hnd; [intros x Hx; apply Hk; by right|].
        apply NoDup_app. split_and!; [exact Hch| |apply NoDup_singleton].
        intros x Hx ->%list_elem_of_singleton. apply Hin, role_closure_self; [exact Hx|].
        apply Hk. by left. }
      intros r' [->|Hr']%elem_of_cons; [|by apply H4]. right; left. apply H2. set_solver +.
    + destruct (IH chosen Hw) as (out & -> & H1 & H2 & H3 & Hnd & H4). exists out.
      split_and!; [reflexivity|exact H1|exact H2|set_solver +H3| |].
      { intros Hk. apply Hnd. intros x Hx. apply Hk. by right. }
      intros r' [->|Hr']%elem_of_cons; [|by apply H4].
      right; right. intros Hc. assert (false = true) as [=]. apply Hb.
      eapply within_mono; [|exact Hc]. apply role_closure_mono. intros x Hx Hk.
      apply role_closure_self; [|exact Hk]. set_solver +Hx H2.
Qed.

Lemma within_empty cs : wf_policy cs → within [] cs.
Proof.
  intros Hwf c Hc. eapply Forall_forall in Hwf; [|exact Hc]. unfold malformed in Hwf.
  apply negb_false_iff, andb_true_iff in Hwf as [_ Hm%bool_decide_eq_true].
  assert (set_of [] ∩ roles c = ∅) as -> by set_solver +. rewrite size_empty. lia.
Qed.

Lemma role_closure_nil : role_closure [] = [].
Proof. vm_compute. reflexivity. Qed.

Lemma assigned_elem level primary extra r :
  r ∈ assigned_roles level primary extra ↔
  r = composite_role level primary
  ∨ r ∈ extra ∧ startswith (level +:+ ":") r = true ∧ r ∈ KNOWN_ROLES.
Proof.
  unfold assigned_roles. rewrite elem_of_sorted_set, elem_of_union, elem_of_singleton,
    elem_of_set_of, list_elem_of_filter. tauto.
Qed.

Lemma authorized_closed level primary extra :
  role_closure (authorized_roles level primary extra) = authorized_roles level primary extra.
Proof. apply role_closure_idem. Qed.

Lemma choose_default_spec DSD level primary extra :
  wf_policy DSD →
  let available := authorized_roles level primary extra in
  ∃ chosen, choose DSD (composite_role level primary :: assigned_roles level primary extra ++ available) []
              = Ok chosen
    ∧ let out := merge_sort String.le chosen in
      role_closure out = role_closure chosen
      ∧ within (role_closure out) DSD
      ∧ (∀ r, r ∈ out → r ∈ assigned_roles level primary extra ∨ r ∈ available)
      ∧ (composite_role level primary ∈ KNOWN_ROLES → NoDup out)
      ∧ (∀ r, r ∈ available → r ∈ role_closure out ∨ ¬ within (role_closure (out ++ [r])) DSD).
Proof.
  intros Hwf available.
  destruct (choose_spec DSD (composite_role level primary :: assigned_roles level primary extra ++ available) [])
    as (chosen & Hch & Hw & _ & Hsub & Hnd & Hmax); [done|rewrite role_closure_nil; by apply within_empty|].
  exists chosen. split; [exact Hch|]. intros out.
  assert (Hel : ∀ r, r ∈ out ↔ r ∈ chosen).
  { intros r. subst out. by rewrite merge_sort_Permutation. }
  assert (Hcl : role_closure out = role_closure chosen) by (by apply role_closure_ext).
  split_and!; [exact Hcl|by rewrite Hcl| | |].
  - intros r Hr. apply Hel, Hsub in Hr as [[]%elem_of_nil|[->|[Hr|Hr]%elem_of_app]%elem_of_cons];
      [left; apply assigned_elem; by left|by left|by right].
  - intros Hk. subst out. rewrite merge_sort_Permutation. apply Hnd; [|apply NoDup_nil_2].
    intros r [->|[Hr|Hr]%elem_of_app]%elem_of_cons; [exact Hk| |].
    + apply assigned_elem in Hr as [->|(_ & _ & ?)]; [exact Hk|assumption].
    + by apply (role_closure_known (assigned_roles level primary extra)).
  - intros r Hr. rewrite Hcl.
    replace (role_closure (out ++ [r])) with (role_closure (chosen ++ [r])).
    2:{ apply role_closure_ext. intros x. rewrite !elem_of_app, Hel. tauto. }
    destruct (Hmax r) as [?|[?|?]]; [|by left| |by right].
    + apply elem_of_cons; right. apply elem_of_app. by right.
    + left. apply role_closure_self; [done|]. by apply (role_closure_known (assigned_roles level primary extra)).
Qed.

#[global] Arguments choose : simpl never.

(** ** Properties of the component *)

(** [role_closure] terminates within its pop bound and returns, sorted and
    without duplicates, exactly the roles reachable from the known roles of its
    argument along [ROLE_INHERITANCE] (RBAC1). *)
Theorem role_closure_correct (rs : list string) :
  let pending := reverse (filter (λ r, r ∈ KNOWN_ROLES) rs) in
  (∃ X, closure_loop ROLE_INHERITANCE (length pending + edges_left ROLE_INHERITANCE ∅) pending ∅
          = Some X
        ∧ role_closure rs = sorted_set X)
  ∧ Sorted String.le (role_closure rs) ∧ NoDup (role_closure rs)
  ∧ ∀ x, x ∈ role_closure rs ↔ ∃ r, r ∈ rs ∧ r ∈ KNOWN_ROLES ∧ rtc junior_role r x.
Proof.
  intros pending. split_and!; [|apply Sorted_sorted_set|apply NoDup_sorted_set|apply elem_of_role_closure].
  destruct (closure_loop_spec ROLE_INHERITANCE (length pending + edges_left ROLE_INHERITANCE ∅) pending ∅)
    as (X & HX & _); [lia|set_solver +|].
  exists X. split; [exact HX|]. unfold role_closure, closure, pending in *. by rewrite HX.
Qed.

(** The start-up validation of a hierarchy terminates, and accepts it
    exactly when every edge joins two known roles of one account level and no
    role inherits itself, directly or through others. *)
Theorem validate_hierarchy_correct (known : gset string) (inheritance : gmap string (gset string)) :
  (∃ o, validate_hierarchy known inheritance = Some o)
  ∧ (validate_hierarchy known inheritance = Some (Ok ()) ↔
     (∀ a b, b ∈ juniors inheritance a →
        a ∈ known ∧ b ∈ known ∧ before_colon a = before_colon b)
     ∧ ∀ a, ¬ tc (junior inheritance) a a).
Proof.
  destruct (validate_runs known inheritance) as (o & Ho & Hok).
  split; [by exists o|]. split; [apply validate_valid|]. intros Hg. by rewrite Ho, (Hok Hg).
Qed.

(** Every role of a session is of the level of its account. *)
Lemma before_colon_app a t : no_colon a = true → before_colon (a +:+ ":" +:+ t)%string = a.
Proof.
  unfold before_colon. induction a as [|c a IH]; [done|]. simpl. intros [Hc%bool_decide_eq_true Ha]%andb_true_iff.
  rewrite append_cons. simpl. rewrite decide_False by done. specialize (IH Ha). destruct (split_colon _) as [x y]. simpl in *. by rewrite IH.
Qed.

Lemma assigned_level level primary extra r :
  no_colon level = true → r ∈ assigned_roles level primary extra → before_colon r = level.
Proof.
  intros Hl [->|(_ & Hp & _)]%assigned_elem; [by apply before_colon_app|].
  apply prefix_app_inv in Hp as [t ->]. rewrite <- string_app_assoc. by apply before_colon_app.
Qed.

Lemma authorized_level level primary extra r :
  no_colon level = true → r ∈ authorized_roles level primary extra → before_colon r = level.
Proof. intros Hl (_ & s & Hs & ->)%role_closure_known. by apply (assigned_level level primary extra). Qed.


(** Without an explicit choice, an account that satisfies SSD always gets a
    session, and it is maximal: an authorized role the session does not have
    would violate DSD; when the account as a whole satisfies DSD the session
    has every authorized role. *)
Theorem activated_roles_default (SSD DSD : list SeparationConstraint)
    (level primary : string) (extra : list string)
    (HS : wf_policy SSD) (HD : wf_policy DSD)
    (Hssd : within (authorized_roles level primary extra) SSD) :
  ∃ out, activated_roles SSD DSD level primary extra None = Ok out
    ∧ (∀ r, r ∈ authorized_roles level primary extra →
         r ∈ role_closure out ∨ ¬ within (role_closure (out ++ [r])) DSD)
    ∧ (within (authorized_roles level primary extra) DSD →
       role_closure out = authorized_roles level primary extra).
Proof.
  unfold activated_roles. cbv zeta. change (role_closure (assigned_roles level primary extra))
    with (authorized_roles level primary extra).
  destruct (satisfies_spec (authorized_roles level primary extra) SSD HS) as (b & -> & Hbs).
  rewrite authorized_closed in Hbs.
  rewrite (proj2 Hbs Hssd). simpl.
  destruct (choose_default_spec DSD level primary extra HD) as (ch & -> & Hcl & Hw & Hsub & _ & Hmax). simpl.
  destruct (satisfies_spec (merge_sort String.le ch) DSD HD) as (d & -> & Hds).
  rewrite (proj2 Hds Hw). simpl. eexists. split; [reflexivity|]. split; [exact Hmax|].
  intros Hall. unfold role_closure, authorized_roles in *. apply sorted_set_ext.
  intros x. rewrite <-!elem_of_sorted_set. split.
  - apply role_closure_mono. intros r Hr Hk. destruct (Hsub r Hr); [|done]. by apply role_closure_self.
  - intros Hx. destruct (Hmax x Hx) as [?|Hno]; [done|]. destruct Hno.
    eapply within_mono; [|exact Hall]. intros y. apply role_closure_mono.
    intros r [Hr| ->%list_elem_of_singleton]%elem_of_app Hk; [|done].
    destruct (Hsub r Hr); [|done]. by apply role_closure_self.
Qed.

(** A policy the loader accepts never makes a check raise, and the check is
    the declarative cardinality bound on the inherited closure; so dropping
    roles from a compliant set keeps it compliant. *)
Theorem loaded_policy_checks (parsed : option json) (cs : list SeparationConstraint)
    (Hload : load_constraints parsed = Ok cs) :
  (∀ rs, ∃ b, satisfies_constraints rs cs = Ok b ∧ (b = true ↔ within (role_closure rs) cs))
  ∧ ∀ rs rs', (∀ r, r ∈ rs' → r ∈ rs) →
      satisfies_constraints rs cs = Ok true → satisfies_constraints rs' cs = Ok true.
Proof.
  assert (Hwf : wf_policy cs).
  { destruct parsed as [[]|]; simpl in Hload; try discriminate. by eapply load_items_wf. }
  split; [intros rs; by apply satisfies_spec|]. intros rs rs' Hsub Hs.
  destruct (satisfies_spec rs cs Hwf) as (b & Hb & Hbs), (satisfies_spec rs' cs Hwf) as (b' & -> & Hbs').
  rewrite Hb in Hs. injection Hs as ->. f_equal. apply Hbs'.
  eapply within_mono; [|by apply Hbs]. apply role_closure_mono. intros r Hr Hk.
  apply role_closure_self; auto.
Qed.

(** ** Witnesses: a DSD policy that separates reviewing from publishing *)
Definition review_publish : SeparationConstraint :=
  {| roles := set_of ["admin:content_reviewer"; "admin:content_publisher"]; max_roles := 1 |}.

Definition review_publish_json : option json := Some (JList [ JObject
  [ ("roles", JList [JString "admin:content_reviewer"; JString "admin:content_publisher"]);
    ("max_roles", JInt 1) ] ]).

Lemma review_publish_wf : wf_policy [review_publish].
Proof. constructor; [vm_compute; reflexivity|constructor]. Qed.

Definition two_duties : list string := ["admin:content_reviewer"; "admin:content_publisher"].

Definition two_duties_session : list string :=
  ["admin:content_publisher"; "admin:org_member"].


Lemma activated_roles_default_witness :
  ∃ out, activated_roles [] [review_publish] "admin" "org_member" two_duties None = Ok out.
Proof.
  pose proof (activated_roles_default [] [review_publish] "admin" "org_member" two_duties) as H.
  destruct H as (out & Hout & _); [constructor|exact review_publish_wf|intros c Hc; inversion Hc|].
  exists out. exact Hout.
Defined.

Lemma loaded_policy_checks_witness :
  ∃ b, satisfies_constraints two_duties [review_publish] = Ok b.
Proof.
  destruct (loaded_policy_checks review_publish_json [review_publish]) as [H _]; [vm_compute; reflexivity|].
  destruct (H two_duties) as (b & Hb & _). exists b. exact Hb.
Defined.
