(* ===== verification/Permissions.v ===== *)
(** * Permissions of roles and of sessions

    Model of [app/modules/rbac/]: the permission points and default grants
    ([permissions.py]), the [role_permissions] table and its queries
    ([repository.py]), the start-up seed ([seed.py]), the session checks
    ([service.py]) and the route guard ([deps.py]). *)

From S2P Require Import Prelude Roles.

(** ** Permission points *)
Inductive Permission :=
  | comment_create | avatar_update | content_create | content_comment_create | content_like
  | content_forward | interaction_favorite | interaction_history | notification_read |
  notification_manage | boards_create_application | boards_review_application |
  boards_manage | articles_publish | articles_review | articles_category_manage |
  columns_application_create | columns_application_review | columns_publish | files_upload |
  files_download | files_review | projects_application_create | projects_application_review
  | projects_create | projects_review | admin_dashboard | admin_reports_view |
  admin_users_manage | admin_users_review | admin_content_review | admin_moderation_manage |
  admin_analytics_view | admin_events_manage | admin_bot_panel | article_owner_publish |
  article_owner_comment_delete | column_owner_publish | board_owner_manage |
  content_owner_delete | file_owner_delete | file_owner_update | project_owner_update.

Definition value (p : Permission) : string :=
  match p with
  | comment_create => "member.comment_create"
  | avatar_update => "member.avatar_update"
  | content_create => "content.create"
  | content_comment_create => "content.comment_create"
  | content_like => "content.like"
  | content_forward => "content.forward"
  | interaction_favorite => "interaction.favorite"
  | interaction_history => "interaction.history"
  | notification_read => "notification.read"
  | notification_manage => "notification.manage"
  | boards_create_application => "boards.create_application"
  | boards_review_application => "boards.review_application"
  | boards_manage => "boards.manage"
  | articles_publish => "articles.publish"
  | articles_review => "articles.review"
  | articles_category_manage => "articles.category_manage"
  | columns_application_create => "columns.application_create"
  | columns_application_review => "columns.application_review"
  | columns_publish => "columns.publish"
  | files_upload => "files.upload"
  | files_download => "files.download"
  | files_review => "files.review"
  | projects_application_create => "projects.application_create"
  | projects_application_review => "projects.application_review"
  | projects_create => "projects.create"
  | projects_review => "projects.review"
  | admin_dashboard => "admin.dashboard"
  | admin_reports_view => "admin.reports_view"
  | admin_users_manage => "admin.users_manage"
  | admin_users_review => "admin.users_review"
  | admin_content_review => "admin.content_review"
  | admin_moderation_manage => "admin.moderation_manage"
  | admin_analytics_view => "admin.analytics_view"
  | admin_events_manage => "admin.events_manage"
  | admin_bot_panel => "admin.bot_panel"
  | article_owner_publish => "article.owner_publish"
  | article_owner_comment_delete => "article.owner_comment_delete"
  | column_owner_publish => "column.owner_publish"
  | board_owner_manage => "board.owner_manage"
  | content_owner_delete => "content.owner_delete"
  | file_owner_delete => "file.owner_delete"
  | file_owner_update => "file.owner_update"
  | project_owner_update => "project.owner_update"
  end.

(** ** Default grants *)
Inductive Result := GRANTED.

Record Grant := { permission : Permission; result : Result }.

Definition grant (p : Permission) : Grant := {| permission := p; result := GRANTED |}.

Definition DEFAULT_GRANTS : list (string * list Grant) :=
  [ ("local:member", grant <$>
      [avatar_update]);
    ("normal:member", grant <$>
      [comment_create; avatar_update; content_create; content_comment_create; content_like;
      content_forward; boards_create_application; columns_application_create; files_upload;
      files_download; interaction_favorite; interaction_history; notification_read;
      notification_manage; projects_application_create]);
    ("normal:columnist", grant <$>
      [comment_create; avatar_update; content_create; content_comment_create; content_like;
      content_forward; boards_create_application; columns_application_create;
      columns_publish; files_upload; files_download; interaction_favorite;
      interaction_history; notification_read; notification_manage;
      projects_application_create]);
    ("normal:author", grant <$>
      [comment_create; avatar_update; content_create; content_comment_create; content_like;
      content_forward; boards_create_application; columns_application_create;
      columns_publish; files_upload; files_download; projects_application_create;
      projects_create; interaction_favorite; interaction_history; notification_read;
      notification_manage]);
    ("admin:incubated_member", grant <$>
      [comment_create; avatar_update; content_create; content_comment_create; content_like;
      content_forward; boards_create_application; columns_application_create; files_upload;
      files_download; interaction_favorite; interaction_history; notification_read;
      notification_manage; projects_application_create]);
    ("admin:org_member", grant <$>
      [comment_create; avatar_update; content_create; content_comment_create; content_like;
      content_forward; boards_create_application; columns_application_create; files_upload;
      files_download; projects_application_create; interaction_favorite;
      interaction_history; notification_read; notification_manage; admin_dashboard;
      admin_reports_view]);
    ("admin:content_reviewer", grant <$>
      [articles_review]);
    ("admin:content_publisher", grant <$>
      [articles_publish]);
    ("admin:super_admin", grant <$>
      [comment_create; avatar_update; content_create; content_comment_create; content_like;
      content_forward; files_upload; files_download; interaction_favorite;
      interaction_history; notification_read; notification_manage;
      boards_create_application; columns_application_create; columns_publish;
      projects_application_create; projects_create; articles_publish; articles_review;
      articles_category_manage; columns_application_review; boards_review_application;
      boards_manage; files_review; projects_application_review; projects_review;
      admin_dashboard; admin_reports_view; admin_users_manage; admin_users_review;
      admin_content_review; admin_moderation_manage; admin_analytics_view;
      admin_events_manage; admin_bot_panel; board_owner_manage; article_owner_publish;
      article_owner_comment_delete; column_owner_publish; content_owner_delete;
      file_owner_delete; file_owner_update; project_owner_update]) ].

Definition composible_role (account_level role : string) : string :=
  composite_role account_level role.

(** ** The [role_permissions] table

    Rows are unique on (role_name, permission); the value is [enabled]. *)
Abbreviation role_permissions := (gmap (string * string) bool).

(** [enabled IS true] for the row, if there is one *)
Definition enabled_row (t : role_permissions) (role_name permission : string) : bool :=
  default false (t !! (role_name, permission)).

Definition has_permission (t : role_permissions) (role_name permission : string) : bool :=
  enabled_row t role_name permission.

Definition has_any_permission (t : role_permissions) (role_names : list string)
    (permission : string) : bool :=
  match role_names with
  | [] => false
  | _ => existsb (λ r, enabled_row t r permission) role_names
  end.

(** The union of the enabled grants, sorted. *)
Definition permissions_of (t : role_permissions) (role_names : list string) : list string :=
  match role_names with
  | [] => []
  | _ => sorted_set (set_of ((λ row, row.1.2) <$>
           filter (λ row, row.1.1 ∈ role_names ∧ row.2 = true) (map_to_list t)))
  end.

(** [INSERT .. ON CONFLICT DO UPDATE .. WHERE enabled IS DISTINCT FROM ..]; the
    answer is the row count as a truth value. *)
Definition set_permission (role_name permission : string) (enabled : bool)
    (t : role_permissions) : bool * role_permissions :=
  match t !! (role_name, permission) with
  | Some old => if bool_decide (old = enabled) then (false, t)
                else (true, <[(role_name, permission) := enabled]> t)
  | None => (true, <[(role_name, permission) := enabled]> t)
  end.

(** ** Seed *)
Definition _rows : list (string * string) :=
  '(role_name, grants) ← DEFAULT_GRANTS;
  g ← grants;
  [(role_name, value (permission g))].

(** One row of [INSERT .. ON CONFLICT DO NOTHING]; a new row is enabled (the
    column's default). *)
Definition insert_or_ignore (t : role_permissions) (k : string * string) : role_permissions :=
  match t !! k with Some _ => t | None => <[k := true]> t end.

(** The number of inserted rows, and the table after the statement. *)
Definition seed_rbac (t : role_permissions) : nat * role_permissions :=
  let t' := foldl insert_or_ignore t _rows in
  (size t' - size t, t').

(** ** The service *)
Record CurrentUser := {
  id : uuid;
  account_level : string;
  role : string;
  active_roles : option (list string)
}.

Definition role_has_permission (t : role_permissions) (role_name : string) (p : Permission) : bool :=
  has_permission t role_name (value p).

Definition valid_roles (cur : CurrentUser) : list string :=
  let rs := match active_roles cur with
            | Some rs => rs
            | None => [composite_role (account_level cur) (role cur)]
            end in
  let prefix := (account_level cur +:+ ":")%string in
  filter (λ r, startswith prefix r = true) (role_closure rs).

Definition user_has_permission (t : role_permissions) (cur : CurrentUser) (p : Permission) : bool :=
  match valid_roles cur with
  | [r] => role_has_permission t r p
  | rs => has_any_permission t rs (value p)
  end.

Definition user_permissions (t : role_permissions) (cur : CurrentUser) : list string :=
  permissions_of t (valid_roles cur).

Definition set_role_permission (role_name : string) (p : Permission) (enabled : bool)
    (t : role_permissions) : bool * role_permissions :=
  set_permission role_name (value p) enabled t.

Definition check_owner_id (t : role_permissions) (cur : CurrentUser) (owner_id : uuid)
    (p : Permission) : outcome err bool :=
  if decide (owner_id = id cur) then Ok false
  else if user_has_permission t cur p then Ok true
  else Raise FORBIDDEN.

(** A resource row as the owner query sees it: its owner column and whether the
    model has a [deleted_at] column with a value. *)
Record resource := { owner : uuid; deleted : bool }.

Definition get_owner_row (rows : gmap uuid resource) (obj_id : uuid) : option uuid :=
  match rows !! obj_id with
  | Some r => if deleted r then None else Some (owner r)
  | None => None
  end.

Definition check_owner (t : role_permissions) (cur : CurrentUser) (obj_id : uuid)
    (rows : gmap uuid resource) (p : Permission) : outcome err bool :=
  match get_owner_row rows obj_id with
  | None => Raise FORBIDDEN
  | Some o => check_owner_id t cur o p
  end.

(** The dependency of [RequirePermission]: the request goes on with its user or
    fails. *)
Definition RequirePermission (t : role_permissions) (p : Permission) (cur : CurrentUser)
    : outcome err CurrentUser :=
  if user_has_permission t cur p then Ok cur else Raise FORBIDDEN.

#[global] Opaque DEFAULT_GRANTS _rows.

(** ** Lemmas *)
Lemma has_any_spec t rs p :
  has_any_permission t rs p = true ↔ ∃ r, r ∈ rs ∧ t !! (r, p) = Some true.
Proof.
  assert (has_any_permission t rs p = existsb (λ r, enabled_row t r p) rs) as -> by by destruct rs.
  rewrite List.existsb_exists. unfold enabled_row. setoid_rewrite <-list_elem_of_In.
  split; intros (r & Hr & H); exists r; (split; [done|]); [|by rewrite H].
  by destruct (t !! (r, p)) as [[]|].
Qed.

Lemma permissions_of_spec t rs p :
  p ∈ permissions_of t rs ↔ ∃ r, r ∈ rs ∧ t !! (r, p) = Some true.
Proof.
  destruct rs as [|r0 rs0] eqn:Hrs.
  { split; [intros []%elem_of_nil|intros (r & []%elem_of_nil & _)]. }
  unfold permissions_of. rewrite <-Hrs.
  rewrite elem_of_sorted_set, elem_of_set_of, list_elem_of_fmap. split.
  - intros ([[r q] b] & -> & [[Hr Hb] Hin]%list_elem_of_filter). simpl in *. subst b.
    apply elem_of_map_to_list in Hin. eauto.
  - intros (r & Hr & Hrow). exists (r, p, true). split; [done|].
    apply list_elem_of_filter. split; [done|]. by apply elem_of_map_to_list.
Qed.

Lemma user_has_permission_spec t cur p :
  user_has_permission t cur p = true ↔
  ∃ r, r ∈ valid_roles cur ∧ t !! (r, value p) = Some true.
Proof.
  rewrite <-has_any_spec. unfold user_has_permission.
  destruct (valid_roles cur) as [|r [|r' rs]] eqn:Hv; [done| |done].
  simpl. unfold role_has_permission, has_permission. by rewrite orb_false_r.
Qed.

Lemma insert_or_ignore_lookup t k k' :
  insert_or_ignore t k !! k' =
  match t !! k' with Some b => Some b | None => if decide (k' = k) then Some true else None end.
Proof.
  unfold insert_or_ignore. destruct (t !! k) as [b|] eqn:Hk.
  - destruct (t !! k') eqn:Hk'; [done|]. case_decide; congruence.
  - destruct (decide (k' = k)) as [->|Hne]; [by rewrite lookup_insert_eq, Hk|].
    rewrite lookup_insert_ne by congruence. by destruct (t !! k').
Qed.

Lemma seed_lookup rows t k :
  foldl insert_or_ignore t rows !! k =
  match t !! k with Some b => Some b | None => if decide (k ∈ rows) then Some true else None end.
Proof.
  revert t. induction rows as [|r rows IH]; intros t; simpl.
  - by destruct (t !! k).
  - rewrite IH, insert_or_ignore_lookup. destruct (t !! k); [done|].
    repeat case_decide; try done; set_solver.
Qed.

Lemma seed_idem rows t :
  foldl insert_or_ignore (foldl insert_or_ignore t rows) rows = foldl insert_or_ignore t rows.
Proof.
  apply map_eq. intros k. rewrite !seed_lookup. destruct (t !! k); [done|]. by case_decide.
Qed.

Lemma seeds_keep n t k b :
  t !! k = Some b → Nat.iter n (λ t, (seed_rbac t).2) t !! k = Some b.
Proof.
  intros H. induction n as [|n IH]; [done|]. rewrite Nat.iter_succ.
  unfold seed_rbac at 1. cbn [snd]. by rewrite seed_lookup, IH.
Qed.

Lemma set_permission_lookup rn p b t :
  (set_permission rn p b t).2 = <[(rn, p) := b]> t
  ∧ ((set_permission rn p b t).1 = true ↔ t !! (rn, p) ≠ Some b).
Proof.
  unfold set_permission. destruct (t !! (rn, p)) as [old|] eqn:Ho; [|naive_solver].
  case_bool_decide; subst; simpl; [by rewrite insert_id|]. naive_solver.
Qed.

(** ** Properties *)

(** The permission check of a request, the permission list sent to the
    front end and the route guard agree: each holds exactly when some role in
    the closure of the session's roles, of the account's own level, has an
    enabled row. Everything else is refused. *)
Theorem user_has_permission_correct (t : role_permissions) (cur : CurrentUser) (p : Permission) :
  (user_has_permission t cur p = true ↔
     ∃ r s, s ∈ default [composite_role (account_level cur) (role cur)] (active_roles cur)
       ∧ s ∈ KNOWN_ROLES ∧ rtc junior_role s r
       ∧ startswith (account_level cur +:+ ":") r = true
       ∧ t !! (r, value p) = Some true)
  ∧ (user_has_permission t cur p = true ↔ value p ∈ user_permissions t cur)
  ∧ RequirePermission t p cur =
      (if user_has_permission t cur p then Ok cur else Raise FORBIDDEN).
Proof.
  split_and!; [|by rewrite user_has_permission_spec; unfold user_permissions; rewrite permissions_of_spec|done].
  rewrite user_has_permission_spec. unfold valid_roles.
  setoid_rewrite list_elem_of_filter. setoid_rewrite elem_of_role_closure.
  destruct (active_roles cur); simpl; naive_solver.
Qed.

(** Seeding inserts exactly the default rows that are missing, leaves every
    present row alone (a revoked default stays revoked, extra grants stay) and
    inserts nothing the second time. *)
Theorem seed_rbac_correct (t : role_permissions) :
  let '(n, t') := seed_rbac t in
  (∀ k, t' !! k = match t !! k with
                  | Some b => Some b
                  | None => if decide (k ∈ _rows) then Some true else None
                  end)
  ∧ n + size t = size t'
  ∧ seed_rbac t' = (0, t').
Proof.
  unfold seed_rbac. set (t' := foldl insert_or_ignore t _rows).
  assert (Hl : ∀ k, t' !! k = match t !! k with
                  | Some b => Some b | None => if decide (k ∈ _rows) then Some true else None end).
  { intros k. apply seed_lookup. }
  split_and!; [exact Hl| |].
  - assert (size t ≤ size t'); [|lia].
    rewrite <-!size_dom. apply subseteq_size. intros k Hk.
    apply elem_of_dom. rewrite Hl. apply elem_of_dom in Hk as [b ->]. by exists b.
  - unfold t'. rewrite seed_idem. f_equal. lia.
Qed.

(** An explicit revocation is final until somebody grants again: however
    often the service restarts and seeds, the role does not regain the
    permission, and a session whose only role of the level is that role is
    refused at the route. *)
Theorem revocation_survives_seed (t : role_permissions) (rn : string) (p : Permission) (n : nat)
    (cur : CurrentUser) (Hvalid : valid_roles cur = [rn]) :
  let t' := Nat.iter n (λ t, (seed_rbac t).2) (set_role_permission rn p false t).2 in
  role_has_permission t' rn p = false ∧ RequirePermission t' p cur = Raise FORBIDDEN.
Proof.
  intros t'. assert (Hrow : t' !! (rn, value p) = Some false).
  { apply seeds_keep. unfold set_role_permission.
    rewrite (proj1 (set_permission_lookup rn (value p) false t)). apply lookup_insert_eq. }
  assert (Hno : role_has_permission t' rn p = false).
  { unfold role_has_permission, has_permission, enabled_row. by rewrite Hrow. }
  split; [exact Hno|]. unfold RequirePermission, user_has_permission. by rewrite Hvalid, Hno.
Qed.

(** Object access. A missing or deleted object is refused; its owner passes
    without delegation; anybody else passes, as a delegate, exactly when the
    session has the permission. *)
Theorem check_owner_correct (t : role_permissions) (cur : CurrentUser) (obj_id : uuid)
    (rows : gmap uuid resource) (p : Permission) :
  check_owner t cur obj_id rows p =
  match rows !! obj_id with
  | Some {| owner := o; deleted := false |} =>
      if decide (o = id cur) then Ok false
      else if decide (value p ∈ user_permissions t cur) then Ok true
      else Raise FORBIDDEN
  | _ => Raise FORBIDDEN
  end.
Proof.
  unfold check_owner, get_owner_row. destruct (rows !! obj_id) as [[o []]|]; [done| |done].
  unfold check_owner_id. simpl. case_decide; [done|].
  destruct (user_has_permission t cur p) eqn:Hp; case_decide as Hin; try done;
    unfold user_permissions in Hin; rewrite permissions_of_spec, <-user_has_permission_spec in Hin;
    congruence.
Qed.

(** Every default grant of a junior role is a default grant of its senior, so
    seeding respects the hierarchy. *)
Example default_grants_follow_hierarchy :
  Forall (λ e : string * gset string, ∀ j, j ∈ e.2 →
     ∀ g, (j, g) ∈ _rows → (e.1, g) ∈ _rows) (map_to_list ROLE_INHERITANCE).
Proof.
  assert (H : forallb (λ e : string * gset string,
     forallb (λ j, forallb (λ row : string * string,
        if decide (row.1 = j) then bool_decide ((e.1, row.2) ∈ _rows) else true) _rows)
       (elements e.2)) (map_to_list ROLE_INHERITANCE) = true) by (vm_compute; reflexivity).
  apply Forall_forall. intros e He j Hj g Hg.
  rewrite List.forallb_forall in H. apply list_elem_of_In, H in He.
  rewrite List.forallb_forall in He. apply elem_of_elements, list_elem_of_In, He in Hj.
  rewrite List.forallb_forall in Hj. apply list_elem_of_In, Hj in Hg. simpl in Hg.
  rewrite decide_True in Hg by done. by apply bool_decide_eq_true in Hg.
Qed.

(** ** Witness *)
Definition a_member : CurrentUser :=
  {| id := uuid_of_N 1; account_level := "normal"; role := "member"; active_roles := None |}.

Lemma revocation_survives_seed_witness :
  RequirePermission (Nat.iter 2 (λ t, (seed_rbac t).2)
    (set_role_permission "normal:member" files_upload false ∅).2) files_upload a_member
  = Raise FORBIDDEN.
Proof.
  apply (revocation_survives_seed ∅ "normal:member" files_upload 2 a_member). vm_compute. reflexivity.
Defined.
