(* ===== verification/AuthRoles.v ===== *)
(** * User-role assignment

    Model of [auth/service_roles.py] with [UserRoleRepository] of
    [auth/repository.py]: listing and changing the additional roles of a user,
    and the review of the members of a role. The state is the part of the auth
    database the module touches (users, profiles, user_roles) and the
    notifications it sends. *)

From S2P Require Import Prelude Roles.

(** ** State *)
Record User := { user_level : string; token_version : Z }.

Inductive notification :=
  | UserUpdated (u : uuid)
  | AuditPermissionChange (u : uuid) (detail : string).

Record auth_db := {
  users : gmap uuid User;
  profiles : gmap uuid string;          (** [profiles.role] by user *)
  user_roles : gset (uuid * string);
  notified : list notification
}.

Definition with_user_roles (f : gset (uuid * string) → gset (uuid * string)) (d : auth_db) : auth_db :=
  {| users := users d; profiles := profiles d; user_roles := f (user_roles d); notified := notified d |}.

Definition with_users (f : gmap uuid User → gmap uuid User) (d : auth_db) : auth_db :=
  {| users := f (users d); profiles := profiles d; user_roles := user_roles d; notified := notified d |}.

Definition notify (n : notification) (d : auth_db) : auth_db :=
  {| users := users d; profiles := profiles d; user_roles := user_roles d; notified := notified d ++ [n] |}.

(** ** [UserRoleRepository] *)
Definition list_roles (d : auth_db) (u : uuid) : list string :=
  snd <$> filter (λ ur, ur.1 = u) (elements (user_roles d)).

Definition add_role (u : uuid) (role_name : string) : prog auth_db err bool :=
  had ← gets (λ d, bool_decide ((u, role_name) ∈ user_roles d));
  _ ← modify (with_user_roles (λ R, {[ (u, role_name) ]} ∪ R));
  mret (negb had).

Definition remove_role (u : uuid) (role_name : string) : prog auth_db err bool :=
  had ← gets (λ d, bool_decide ((u, role_name) ∈ user_roles d));
  _ ← modify (with_user_roles (λ R, R ∖ {[ (u, role_name) ]}));
  mret had.

(** ** The service *)

(** [select(User.account_level, Profile.role).outerjoin(..)] with
    [row[1] or "member"]. *)
Definition primary_of (d : auth_db) (u : uuid) : string :=
  match profiles d !! u with
  | None | Some EmptyString => "member"
  | Some r => r
  end.

Definition user_row (d : auth_db) (u : uuid) : option (string * string) :=
  usr ← users d !! u; Some (user_level usr, primary_of d u).

Definition list_user_roles (u : uuid) : prog auth_db err (list string) :=
  row ← gets (λ d, user_row d u);
  '(level, primary) ← get_or_raise row NOT_FOUND;
  extra ← gets (λ d, list_roles d u);
  mret (assigned_roles level primary extra).

(** [role.split(":", 1)[1]] for a role with a colon *)
Definition after_colon (s : string) : string := default EmptyString (snd (split_colon s)).

Definition seniors (role_name : string) : list string :=
  filter (λ r, role_name ∈ role_closure [r]) (elements KNOWN_ROLES).

Definition is_member (d : auth_db) (role_name : string) (u : uuid) (usr : User) : bool :=
  let level := before_colon role_name in
  let senior_names := after_colon <$> seniors role_name in
  bool_decide (user_level usr = level)
  && (match profiles d !! u with
      | Some r => bool_decide (r ∈ senior_names)
      | None => bool_decide ("member" ∈ senior_names)
      end
      || existsb (λ r, bool_decide ((u, r) ∈ user_roles d)) (seniors role_name)).

Definition uuid_le (u v : uuid) : Prop := (uuid_int u ≤ uuid_int v)%N.
#[export] Instance uuid_le_dec : RelDecision uuid_le := λ u v, decide (uuid_int u ≤ uuid_int v)%N.

(** The UNION of the two selects, in id order. *)
Definition members (d : auth_db) (role_name : string) : list uuid :=
  merge_sort uuid_le (fst <$> filter (λ e, is_member d role_name e.1 e.2 = true) (map_to_list (users d))).

Definition list_users_for_role (role_name : string) (limit offset : nat)
    : prog auth_db err (list uuid) :=
  _ ← raise_when (bool_decide (role_name ∉ KNOWN_ROLES)) INVALID_INPUT;
  all ← gets (λ d, members d role_name);
  mret (take limit (drop offset all)).

Section assignment.
Context (SSD : list SeparationConstraint).

Definition bump_token_version (u : uuid) : auth_db → auth_db :=
  with_users (alter (λ usr, {| user_level := user_level usr; token_version := token_version usr + 1 |}) u).

(** A pure check that may raise, run inside a program. *)
Definition lift_outcome {A} (o : outcome err A) : prog auth_db err A := λ d, (o, d).

Definition set_user_role (u : uuid) (role_name : string) (assigned : bool) : prog auth_db err bool :=
  _ ← raise_when (bool_decide (role_name ∉ KNOWN_ROLES)) INVALID_INPUT;
  row ← gets (λ d, user_row d u);
  '(level, primary) ← get_or_raise row NOT_FOUND;
  _ ← raise_when (negb (startswith (level +:+ ":") role_name)) INVALID_INPUT;
  if decide (role_name = composite_role level primary) then
    if assigned then mret false else raise INVALID_INPUT
  else
    _ ← (if assigned then
           current ← gets (λ d, list_roles d u);
           ok ← lift_outcome (satisfies_constraints
                  (authorized_roles level primary (current ++ [role_name])) SSD);
           raise_when (negb ok) INVALID_INPUT
         else mret tt);
    changed ← (if assigned then add_role u role_name else remove_role u role_name);
    if (changed : bool) then
      _ ← modify (bump_token_version u);
      _ ← modify (notify (UserUpdated u));
      _ ← modify (notify (AuditPermissionChange u
             ((if assigned then "assign" else "revoke") +:+ ":" +:+ role_name)));
      mret true
    else mret false.
End assignment.

(** ** Lemmas *)
Definition authorized_of (d : auth_db) (u : uuid) (usr : User) : list string :=
  authorized_roles (user_level usr) (primary_of d u) (list_roles d u).

Lemma elem_of_list_roles d u r : r ∈ list_roles d u ↔ (u, r) ∈ user_roles d.
Proof.
  unfold list_roles. rewrite list_elem_of_fmap. split.
  - intros ([v s] & -> & [? ?%elem_of_elements]%list_elem_of_filter). naive_solver.
  - intros H. exists (u, r). split; [done|]. apply list_elem_of_filter. split; [done|].
    by apply elem_of_elements.
Qed.

Lemma elem_of_authorized level primary extra x :
  x ∈ authorized_roles level primary extra ↔
  ∃ r, r ∈ KNOWN_ROLES ∧ rtc junior_role r x
    ∧ (r = composite_role level primary ∨ r ∈ extra ∧ startswith (level +:+ ":") r = true).
Proof.
  unfold authorized_roles. rewrite elem_of_role_closure. setoid_rewrite assigned_elem.
  split; intros (r & H); exists r; tauto.
Qed.

Lemma authorized_mono level primary e1 e2 x :
  (∀ r, r ∈ e1 → r ∈ e2) →
  x ∈ authorized_roles level primary e1 → x ∈ authorized_roles level primary e2.
Proof. intros Hs. rewrite !elem_of_authorized. intros (r & ? & ? & [?|[? ?]]); exists r; eauto 6. Qed.

(** A table fact: a known role is its level, a colon and its name. *)
Lemma known_role_shape r :
  r ∈ KNOWN_ROLES →
  r = composite_role (before_colon r) (after_colon r)
  ∧ no_colon (before_colon r) = true ∧ no_colon (after_colon r) = true.
Proof.
  assert (H : forallb (λ r, bool_decide (r = composite_role (before_colon r) (after_colon r))
     && (no_colon (before_colon r) && no_colon (after_colon r))) (elements KNOWN_ROLES) = true)
    by (vm_compute; reflexivity).
  intros Hr. rewrite List.forallb_forall in H.
  apply elem_of_elements, list_elem_of_In, H, andb_true_iff in Hr as [H1%bool_decide_eq_true H2].
  apply andb_true_iff in H2. tauto.
Qed.

Lemma composite_known level name r :
  r ∈ KNOWN_ROLES → composite_role level name = r ↔ level = before_colon r ∧ name = after_colon r.
Proof.
  intros Hr. destruct (known_role_shape r Hr) as (Heq & Ha & Hb). split.
  - rewrite Heq at 1. apply colon_split_inj; assumption.
  - intros [-> ->]. by symmetry.
Qed.

Lemma startswith_known level r :
  r ∈ KNOWN_ROLES → startswith (level +:+ ":") r = true ↔ level = before_colon r.
Proof.
  intros Hr. destruct (known_role_shape r Hr) as (Heq & Ha & Hb). split.
  - intros H. apply prefix_app_inv in H as [t Ht]. rewrite Heq in Ht. unfold composite_role in Ht.
    rewrite <-string_app_assoc in Ht. symmetry in Ht. by apply colon_split_inj in Ht as [-> _].
  - intros ->. rewrite Heq at 2. unfold composite_role. rewrite string_app_assoc.
    apply prefix_app.
Qed.

Lemma elem_of_seniors role_name r :
  r ∈ seniors role_name ↔ r ∈ KNOWN_ROLES ∧ rtc junior_role r role_name.
Proof.
  unfold seniors. rewrite list_elem_of_filter, elem_of_elements, elem_of_role_closure.
  setoid_rewrite list_elem_of_singleton. split; [intros [(s & -> & ? & ?) ?]; tauto|].
  intros [? ?]. split; [exists r|]; tauto.
Qed.

Definition profiles_named (d : auth_db) : Prop := ∀ u, profiles d !! u ≠ Some EmptyString.

Lemma primary_named d u :
  profiles_named d → primary_of d u = default "member" (profiles d !! u).
Proof. intros H. specialize (H u). unfold primary_of. by destruct (profiles d !! u) as [[]|]. Qed.

Lemma is_member_spec d role_name u usr :
  profiles_named d →
  is_member d role_name u usr = true ↔ role_name ∈ authorized_of d u usr.
Proof.
  intros Hd. unfold is_member, authorized_of. rewrite elem_of_authorized, primary_named by done.
  rewrite andb_true_iff, orb_true_iff, bool_decide_eq_true.
  assert (Hp : match profiles d !! u with
               | Some r => bool_decide (r ∈ after_colon <$> seniors role_name)
               | None => bool_decide ("member" ∈ after_colon <$> seniors role_name)
               end = bool_decide (default "member" (profiles d !! u) ∈ after_colon <$> seniors role_name))
    by (by destruct (profiles d !! u)).
  rewrite Hp, bool_decide_eq_true. clear Hp. split.
  - intros [Hl [Hn|He]].
    + apply list_elem_of_fmap in Hn as (r & Hn & [Hk Hr]%elem_of_seniors). exists r.
      destruct (junior_known r role_name Hr Hk) as [_ Hlev]. rewrite Hlev in Hl.
      split_and!; [exact Hk|exact Hr|]. left. symmetry. apply composite_known; [exact Hk|exact (conj Hl Hn)].
    + apply List.existsb_exists in He
        as (r & [Hk Hr]%list_elem_of_In%elem_of_seniors & Hu%bool_decide_eq_true). exists r.
      destruct (junior_known r role_name Hr Hk) as [_ Hlev]. rewrite Hlev in Hl.
      split_and!; [exact Hk|exact Hr|]. right.
      split; [by apply elem_of_list_roles|]. by apply startswith_known.
  - intros (r & Hk & Hr & Hor). destruct (junior_known r role_name Hr Hk) as [_ Hlev]. rewrite Hlev.
    assert (Hs : r ∈ seniors role_name) by (apply elem_of_seniors; exact (conj Hk Hr)).
    destruct Hor as [Hc|[Hu%elem_of_list_roles Hst]].
    + symmetry in Hc. apply composite_known in Hc as [Hl Hn]; [|exact Hk].
      split; [exact Hl|]. left. apply list_elem_of_fmap. exists r. exact (conj Hn Hs).
    + split; [by apply startswith_known|]. right. apply List.existsb_exists. exists r.
      split; [by apply list_elem_of_In|]. by apply bool_decide_eq_true.
Qed.

#[local] Instance uuid_le_total : Total uuid_le.
Proof. intros u v. unfold uuid_le. lia. Qed.

Lemma members_spec d role_name :
  Sorted uuid_le (members d role_name) ∧ NoDup (members d role_name)
  ∧ ∀ u, u ∈ members d role_name ↔ ∃ usr, users d !! u = Some usr ∧ is_member d role_name u usr = true.
Proof.
  unfold members. split_and!; [apply Sorted_merge_sort, _| |].
  - rewrite merge_sort_Permutation. eapply sublist_NoDup; [apply (NoDup_fst_map_to_list (users d))|].
    apply fmap_sublist, sublist_filter.
  - intros u. rewrite merge_sort_Permutation, list_elem_of_fmap. split.
    + intros ([v usr] & -> & [Hm Hin%elem_of_map_to_list]%list_elem_of_filter). by exists usr.
    + intros (usr & Hu & Hm). exists (u, usr). split; [done|]. apply list_elem_of_filter.
      split; [done|]. by apply elem_of_map_to_list.
Qed.

(** ** Properties *)
Definition ssd_ok (SSD : list SeparationConstraint) (d : auth_db) : Prop :=
  ∀ u usr, users d !! u = Some usr → within (authorized_of d u usr) SSD.

(** A membership review of a known role returns, in id order and without
    repetition, a page of exactly the existing users whose authorized roles
    (assigned or inherited) contain it; an unknown role is an input error. *)
Theorem list_users_for_role_correct (d : auth_db) (role_name : string) (limit offset : nat)
    (Hnamed : profiles_named d) :
  ∃ ms, list_users_for_role role_name limit offset d =
          (if decide (role_name ∈ KNOWN_ROLES) then Ok (take limit (drop offset ms))
           else Raise INVALID_INPUT, d)
    ∧ Sorted uuid_le ms ∧ NoDup ms
    ∧ ∀ u, u ∈ ms ↔ ∃ usr, users d !! u = Some usr ∧ role_name ∈ authorized_of d u usr.
Proof.
  exists (members d role_name). destruct (members_spec d role_name) as (Hs & Hn & Hm).
  split_and!; [|exact Hs|exact Hn|].
  - unfold list_users_for_role, raise_when. destruct (decide (role_name ∈ KNOWN_ROLES)) as [Hk|Hk].
    + rewrite bool_decide_false by (intros Hno; exact (Hno Hk)). reflexivity.
    + rewrite bool_decide_true by exact Hk. reflexivity.
  - intros u. rewrite Hm. split; intros (usr & Hu & H); exists usr; (split; [exact Hu|]);
      by apply (is_member_spec d role_name u usr Hnamed).
Qed.

Lemma ssd_ok_change SSD u rs d f g :
  ssd_ok SSD d →
  (∀ usr, users d !! u = Some usr →
     within (authorized_roles (user_level usr) (primary_of d u) rs) SSD) →
  (∀ r, (u, r) ∈ f (user_roles d) → r ∈ rs) →
  (∀ v r, v ≠ u → (v, r) ∈ f (user_roles d) → (v, r) ∈ user_roles d) →
  (∀ usr, user_level (g usr) = user_level usr) →
  ∀ d', users d' = alter g u (users d) → profiles d' = profiles d →
    user_roles d' = f (user_roles d) → ssd_ok SSD d'.
Proof.
  intros Hd Hu Hrs Hother Hg d' HU HP HR v usr' Hv.
  assert (Hprim : primary_of d' v = primary_of d v) by (unfold primary_of; by rewrite HP).
  rewrite HU, lookup_alter_Some in Hv. unfold authorized_of. rewrite Hprim.
  destruct Hv as [(<- & usr & Hv & ->)|(Hne & Hv)].
  - rewrite Hg. eapply within_mono; [|apply (Hu usr Hv)]. intros x. apply authorized_mono.
    intros r Hr. apply Hrs. rewrite <-HR. by apply elem_of_list_roles.
  - eapply within_mono; [|apply (Hd v usr' Hv)]. intros x. apply authorized_mono.
    intros r Hr%elem_of_list_roles. apply elem_of_list_roles. apply Hother; [congruence|]. by rewrite <-HR.
Qed.

Definition token_of (d : auth_db) (u : uuid) : option Z := token_version <$> users d !! u.

(** What a call did, given its answer. *)
Definition role_change (u : uuid) (rn : string) (b : bool) (d d' : auth_db) (changed : bool) : Prop :=
  user_roles d' = (if b then if changed then {[ (u, rn) ]} ∪ user_roles d else user_roles d
                   else user_roles d ∖ {[ (u, rn) ]})
  ∧ (changed = true ↔ user_roles d' ≠ user_roles d)
  ∧ token_of d' u = ((λ t, if changed then t + 1 else t)%Z <$> token_of d u)
  ∧ notified d' = notified d ++
      (if changed then [UserUpdated u; AuditPermissionChange u ((if b then "assign" else "revoke") +:+ ":" +:+ rn)%string]
       else []).

Lemma role_change_none u rn (b : bool) d :
  (b = false → (u, rn) ∉ user_roles d) → role_change u rn b d d false.
Proof.
  intros H. unfold role_change. split_and!.
  - destruct b; [done|]. specialize (H eq_refl). set_solver.
  - done.
  - by destruct (token_of d u).
  - by rewrite app_nil_r.
Qed.

Lemma token_alter d u f :
  (token_version <$> alter f u (users d) !! u) = (λ usr, token_version (f usr)) <$> users d !! u.
Proof. rewrite lookup_alter_eq. by destruct (users d !! u). Qed.

(** The database after a change of the additional roles that took effect. *)
Definition changed_db (u : uuid) (rn : string) (b : bool) (d : auth_db) : auth_db :=
  notify (AuditPermissionChange u ((if b then "assign" else "revoke") +:+ ":" +:+ rn))
    (notify (UserUpdated u)
      (bump_token_version u
        (with_user_roles (λ R, if b then {[ (u, rn) ]} ∪ R else R ∖ {[ (u, rn) ]}) d))).

Lemma role_change_done u rn (b : bool) d :
  (if b then (u, rn) ∉ user_roles d else (u, rn) ∈ user_roles d) →
  role_change u rn b d (changed_db u rn b d) true.
Proof.
  intros H. unfold role_change, token_of. simpl. split_and!.
  - by destruct b.
  - split; [|done]. intros _ Heq. destruct b; set_solver.
  - rewrite token_alter. by destruct (users d !! u).
  - by rewrite <-app_assoc.
Qed.

Lemma changed_db_ssd SSD u rn (b : bool) d level primary :
  wf_policy SSD → ssd_ok SSD d → user_row d u = Some (level, primary) →
  (b = true → within (authorized_roles level primary (list_roles d u ++ [rn])) SSD) →
  ssd_ok SSD (changed_db u rn b d).
Proof.
  intros Hwf Hd Hrow Hb. unfold user_row in Hrow.
  destruct (users d !! u) as [usr|] eqn:Hu; [|done]. simpl in Hrow. injection Hrow as <- <-.
  eapply (ssd_ok_change SSD u (if b then list_roles d u ++ [rn] else list_roles d u) d
    (λ R, if b then {[ (u, rn) ]} ∪ R else R ∖ {[ (u, rn) ]})
    (λ usr, {| user_level := user_level usr; token_version := token_version usr + 1 |})).
  - exact Hd.
  - intros usr' Hu'. assert (usr' = usr) as -> by congruence.
    destruct b; [by apply Hb|]. by apply Hd.
  - intros r Hr. destruct b.
    + apply elem_of_app. apply elem_of_union in Hr as [Hr%elem_of_singleton|Hr].
      * right. apply list_elem_of_singleton. congruence.
      * left. by apply elem_of_list_roles.
    + apply elem_of_list_roles. set_solver +Hr.
  - intros v r Hne Hr. destruct b; set_solver +Hne Hr.
  - done.
  - done.
  - done.
  - done.
Qed.

Definition assigned_now (d : auth_db) (u : uuid) (rn : string) : Prop :=
  ∃ level primary, user_row d u = Some (level, primary)
    ∧ rn ∈ assigned_roles level primary (list_roles d u).

Lemma user_row_changed u rn (b : bool) d : user_row (changed_db u rn b d) u = user_row d u.
Proof.
  unfold user_row, primary_of. simpl. rewrite lookup_alter_eq. by destruct (users d !! u).
Qed.

(** The write half of [set_user_role], once the checks have passed. *)
Lemma set_user_role_write (u : uuid) (rn : string) (b : bool) (d : auth_db) :
  ∃ had : bool, had = bool_decide ((u, rn) ∈ user_roles d) ∧
  ((changed ← (if b then add_role u rn else remove_role u rn);
    if (changed : bool) then
      _ ← modify (bump_token_version u);
      _ ← modify (notify (UserUpdated u));
      _ ← modify (notify (AuditPermissionChange u ((if b then "assign" else "revoke") +:+ ":" +:+ rn)));
      mret true
    else mret false) : prog auth_db err bool) d =
  (if Bool.eqb b had then (Ok false, d) else (Ok true, changed_db u rn b d)).
Proof.
  exists (bool_decide ((u, rn) ∈ user_roles d)). split; [done|].
  assert (Hsame : ∀ R, R = user_roles d → with_user_roles (λ _, R) d = d).
  { intros R ->. by destruct d. }
  destruct b; case_bool_decide as Hin; unfold add_role, remove_role, mbind, prog_bind, gets, modify, mret, prog_ret; simpl.
  - rewrite bool_decide_true by exact Hin. simpl. f_equal.
    unfold with_user_roles. transitivity (with_user_roles (λ _, {[(u, rn)]} ∪ user_roles d) d); [done|].
    apply Hsame. set_solver.
  - by rewrite bool_decide_false by exact Hin.
  - by rewrite bool_decide_true by exact Hin.
  - rewrite bool_decide_false by exact Hin. simpl. f_equal.
    transitivity (with_user_roles (λ _, user_roles d ∖ {[(u, rn)]}) d); [done|].
    apply Hsame. set_solver.
Qed.

Lemma set_user_role_cases (SSD : list SeparationConstraint) u rn (b : bool) d :
  wf_policy SSD →
  set_user_role SSD u rn b d = (Raise INVALID_INPUT, d)
  ∨ (user_row d u = None ∧ set_user_role SSD u rn b d = (Raise NOT_FOUND, d))
  ∨ ∃ level primary, user_row d u = Some (level, primary) ∧ rn ∈ KNOWN_ROLES
      ∧ startswith (level +:+ ":") rn = true ∧
      (rn = composite_role level primary ∧ b = true ∧ set_user_role SSD u rn b d = (Ok false, d)
       ∨ rn ≠ composite_role level primary
         ∧ (b = true → within (authorized_roles level primary (list_roles d u ++ [rn])) SSD)
         ∧ ∃ had : bool, had = bool_decide ((u, rn) ∈ user_roles d) ∧
           set_user_role SSD u rn b d =
             (if Bool.eqb b had then (Ok false, d) else (Ok true, changed_db u rn b d))).
Proof.
  intros Hwf. unfold set_user_role. rewrite run_raise_when.
  case_bool_decide as Hk; [by left|].
  rewrite run_gets, run_get_or_raise.
  destruct (user_row d u) as [[level primary]|] eqn:Hrow.
  2:{ right; left. split; reflexivity. }
  rewrite run_raise_when. destruct (startswith (level +:+ ":") rn) eqn:Hst; [|by left]. simpl negb.
  destruct (decide (rn = composite_role level primary)) as [Hc|Hc].
  { destruct b; [|by left]. right; right. exists level, primary.
    split; [reflexivity|]. split; [exact Hk|]. split; [exact Hst|]. left. auto. }
  destruct (satisfies_spec (authorized_roles level primary (list_roles d u ++ [rn])) SSD Hwf)
    as (ok & Hok & Hin). rewrite authorized_closed in Hin.
  destruct (set_user_role_write u rn b d) as (had & Hhad & Hw).
  destruct b.
  - rewrite bind_assoc, run_gets, bind_assoc. unfold mbind at 1, prog_bind at 1, lift_outcome at 1.
    rewrite Hok, run_raise_when.
    destruct ok; [|by left]. right; right. exists level, primary.
    split; [reflexivity|]. split; [exact Hk|]. split; [exact Hst|]. right. split; [exact Hc|].
    split; [by intros _; apply Hin|]. exists had. split; [exact Hhad|]. exact Hw.
  - right; right. exists level, primary.
    split; [reflexivity|]. split; [exact Hk|]. split; [exact Hst|]. right. split; [exact Hc|].
    split; [done|]. exists had. split; [exact Hhad|]. rewrite bind_left_id. exact Hw.
Qed.

(** Changing a user's additional roles. Every account that satisfied SSD
    still does; a call that answers leaves the role assigned or not as asked,
    bumps the user's token version (which ends the sessions) and notifies
    exactly when the assignment changed; a call that fails changes nothing. *)
Theorem set_user_role_correct (SSD : list SeparationConstraint) (u : uuid) (rn : string) (b : bool)
    (d d' : auth_db) (o : outcome err bool)
    (Hwf : wf_policy SSD) (Hssd : ssd_ok SSD d) (Hrun : set_user_role SSD u rn b d = (o, d')) :
  ssd_ok SSD d' ∧
  match o with
  | Ok changed => role_change u rn b d d' changed ∧ (assigned_now d' u rn ↔ b = true)
  | Raise _ => d' = d
  end.
Proof.
  destruct (set_user_role_cases SSD u rn b d Hwf)
    as [Hr|[[_ Hr]|(level & primary & Hrow & Hk & Hst & [(Hc & -> & Hr)|(Hc & Hb & had & Hhad & Hr)])]];
    rewrite Hr in Hrun.
  - injection Hrun as <- <-. split; [exact Hssd|reflexivity].
  - injection Hrun as <- <-. split; [exact Hssd|reflexivity].
  - injection Hrun as <- <-. split; [exact Hssd|]. split; [by apply role_change_none|].
    split; [done|]. intros _. exists level, primary. split; [exact Hrow|].
    apply assigned_elem. by left.
  - assert (Hnow : ∀ d1, user_row d1 u = user_row d u →
      ((u, rn) ∈ user_roles d1 ↔ b = true) → (assigned_now d1 u rn ↔ b = true)).
    { intros d1 Hrow1 <-. unfold assigned_now. rewrite Hrow1, Hrow. split.
      - intros (l & p & [= <- <-] & H). apply assigned_elem in H as [H|[H _]]; [by destruct Hc|].
        by apply elem_of_list_roles.
      - intros H. exists level, primary. split; [reflexivity|]. apply assigned_elem. right.
        split; [by apply elem_of_list_roles|]. exact (conj Hst Hk). }
    case_bool_decide as Hin; subst had; destruct b; simpl in Hrun; injection Hrun as <- <-.
    all: (split; [first [exact Hssd | eapply changed_db_ssd; eassumption]|]).
    all: (split; [first [apply role_change_none; naive_solver | apply role_change_done; exact Hin]|]).
    all: apply Hnow; [first [reflexivity|apply user_row_changed]|]; simpl; set_solver +Hin.
Qed.

(** ** Witnesses *)
Definition alice : uuid := uuid_of_N 1.

Definition small_auth_db : auth_db :=
  {| users := {[ alice := {| user_level := "admin"; token_version := 0 |} ]};
     profiles := {[ alice := "org_member" ]}; user_roles := ∅; notified := [] |}.

Lemma small_named : profiles_named small_auth_db.
Proof.
  intros u. simpl. destruct (decide (alice = u)) as [<-|Hne].
  - rewrite lookup_singleton_eq. discriminate.
  - rewrite lookup_singleton_ne by exact Hne. discriminate.
Qed.

Lemma list_users_for_role_correct_witness :
  ∃ ms, list_users_for_role "admin:incubated_member" 10 0 small_auth_db = (Ok (take 10 (drop 0 ms)), small_auth_db).
Proof.
  destruct (list_users_for_role_correct small_auth_db "admin:incubated_member" 10 0 small_named)
    as (ms & Hms & _). exists ms. rewrite Hms. f_equal.
Defined.

Definition alice_reviews : outcome err bool * auth_db :=
  set_user_role [review_publish] alice "admin:content_reviewer" true small_auth_db.

Lemma small_ssd : ssd_ok [review_publish] small_auth_db.
Proof.
  intros u usr Hu. simpl in Hu. apply lookup_singleton_Some in Hu as [<- <-].
  intros c ->%list_elem_of_singleton. vm_compute. discriminate.
Qed.

Lemma set_user_role_correct_witness :
  alice_reviews.1 = Ok true ∧ ssd_ok [review_publish] alice_reviews.2.
Proof.
  split; [vm_compute; reflexivity|].
  exact (proj1 (set_user_role_correct [review_publish] alice "admin:content_reviewer" true small_auth_db
    alice_reviews.2 alice_reviews.1 review_publish_wf small_ssd (surjective_pairing alice_reviews))).
Defined.
