(* ===== verification/LocalCache.v ===== *)
(** * The in-process (L1) cache

    Model of [core/local_cache.py]: a bounded TTL cache with LRU eviction on an
    [OrderedDict], and the invalidation revision that guards refills across an
    [await]. The clock readings ([time.monotonic()]) are arguments. *)

From S2P Require Import Prelude.

Section cache.
Context {V : Type}.

(** [_data]: key, deadline, value, least recently used first. *)
Record cache := Cache {
  data : list (string * (Z * V));
  maxsize : nat;
  revision : Z
}.

Definition keys (d : list (string * (Z * V))) : list string := fst <$> d.

(** ** [OrderedDict] *)
Definition od_get (k : string) (d : list (string * (Z * V))) : option (Z * V) :=
  snd <$> List.find (λ e, bool_decide (e.1 = k)) d.

Definition od_pop (k : string) (d : list (string * (Z * V))) : list (string * (Z * V)) :=
  filter (λ e, e.1 ≠ k) d.

(** [d[k] = v]: in place for a present key, at the end otherwise. *)
Definition od_set (k : string) (v : Z * V) (d : list (string * (Z * V))) : list (string * (Z * V)) :=
  if decide (k ∈ keys d) then (λ e, if decide (e.1 = k) then (k, v) else e) <$> d
  else d ++ [(k, v)].

Definition od_move_to_end (k : string) (d : list (string * (Z * V))) : list (string * (Z * V)) :=
  match od_get k d with
  | Some v => od_pop k d ++ [(k, v)]
  | None => d
  end.

(** [while len(_data) > _maxsize: _data.popitem(last=False)] *)
Fixpoint evict (n : nat) (d : list (string * (Z * V))) : list (string * (Z * V)) :=
  match d with
  | [] => []
  | e :: rest => if decide (n < length d) then evict n rest else d
  end.

(** ** Operations *)
Definition set_data (d : list (string * (Z * V))) (s : cache) : cache :=
  Cache d (maxsize s) (revision s).

Definition _get (key : string) (now : Z) (s : cache) : option V * cache :=
  match od_get key (data s) with
  | None => (None, s)
  | Some (deadline, value) =>
      if decide (deadline ≤ now)%Z then (None, set_data (od_pop key (data s)) s)
      else (Some value, set_data (od_move_to_end key (data s)) s)
  end.

Definition l1_get (key : string) (now : Z) (s : cache) : option V * cache := _get key now s.

(** One clock reading for all the keys. *)
Fixpoint l1_multi_get (ks : list string) (now : Z) (s : cache) : list (option V) * cache :=
  match ks with
  | [] => ([], s)
  | k :: ks =>
      let '(v, s1) := _get k now s in
      let '(vs, s2) := l1_multi_get ks now s1 in
      (v :: vs, s2)
  end.

Definition l1_invalidation_revision (s : cache) : Z := revision s.

Definition l1_delete (key : string) (s : cache) : cache :=
  Cache (od_pop key (data s)) (maxsize s) (revision s + 1).

Definition l1_set (key : string) (value : option V) (ttl now : Z) (s : cache) : cache :=
  match value with
  | Some v =>
      if decide (ttl ≤ 0)%Z then l1_delete key s
      else set_data (evict (maxsize s) (od_move_to_end key (od_set key (now + ttl, v)%Z (data s)))) s
  | None => l1_delete key s
  end.

(** [now] is read for the lookup and again for the deadline: [now2]. *)
Definition l1_set_if_unchanged (key : string) (value : option V) (ttl rev now now2 : Z) (s : cache)
    : bool * cache :=
  if decide (ttl ≤ 0)%Z then (false, s)
  else match value with
  | None => (false, s)
  | Some _ =>
      if decide (rev ≠ revision s) then (false, s)
      else
        let '(present, s1) := _get key now s in
        match present with
        | Some _ => (false, s1)
        | None => (true, l1_set key value ttl now2 s1)
        end
  end.

Definition l1_clear (s : cache) : cache := Cache [] (maxsize s) (revision s + 1).

Definition l1_size (s : cache) : nat := length (data s).

(** [max(1, maxsize if given else settings.user_snap_l1_maxsize)] *)
Definition reset (configured : Z) (requested : option Z) (s : cache) : cache :=
  Cache [] (Z.to_nat (Z.max 1 (default configured requested))) (revision s + 1).

(** ** One call of the module, and runs of calls *)
Inductive call :=
  | Get (key : string) (now : Z)
  | MultiGet (ks : list string) (now : Z)
  | Set_ (key : string) (value : option V) (ttl now : Z)
  | SetIfUnchanged (key : string) (value : option V) (ttl rev now now2 : Z)
  | Delete (key : string)
  | Clear
  | Reset (configured : Z) (requested : option Z).

Definition run_call (c : call) (s : cache) : cache :=
  match c with
  | Get k now => (l1_get k now s).2
  | MultiGet ks now => (l1_multi_get ks now s).2
  | Set_ k v ttl now => l1_set k v ttl now s
  | SetIfUnchanged k v ttl rev now now2 => (l1_set_if_unchanged k v ttl rev now now2 s).2
  | Delete k => l1_delete k s
  | Clear => l1_clear s
  | Reset c r => reset c r s
  end.

Definition run_calls (cs : list call) (s : cache) : cache := foldl (λ s c, run_call c s) s cs.

(** ** Invariant *)
Definition cache_ok (s : cache) : Prop :=
  NoDup (keys (data s)) ∧ length (data s) ≤ maxsize s ∧ 1 ≤ maxsize s.

(** What a reader at [now] sees of a key. *)
Definition view (s : cache) (now : Z) (k : string) : option V :=
  '(deadline, v) ← od_get k (data s);
  if decide (deadline ≤ now)%Z then None else Some v.

(** ** Lemmas on the dictionary *)
Lemma keys_app d1 d2 : keys (d1 ++ d2) = keys d1 ++ keys d2.
Proof. unfold keys. by rewrite fmap_app. Qed.

Lemma elem_of_keys_pop k k' d : k' ∈ keys (od_pop k d) ↔ k' ∈ keys d ∧ k' ≠ k.
Proof.
  unfold keys, od_pop. rewrite !list_elem_of_fmap. setoid_rewrite list_elem_of_filter. naive_solver.
Qed.

Lemma NoDup_pop k d : NoDup (keys d) → NoDup (keys (od_pop k d)).
Proof.
  intros H. eapply sublist_NoDup; [exact H|]. apply fmap_sublist, sublist_filter.
Qed.

Lemma NoDup_snoc k d : NoDup (keys d) → k ∉ keys d → ∀ v, NoDup (keys (d ++ [(k, v)])).
Proof.
  intros H Hk v. rewrite keys_app. apply NoDup_app. split_and!; [done| |apply NoDup_singleton].
  intros x Hx ->%list_elem_of_singleton. done.
Qed.

Lemma od_get_None k d : od_get k d = None ↔ k ∉ keys d.
Proof.
  unfold od_get, keys. induction d as [|[k' v] d IH]; simpl; [set_solver|].
  case_bool_decide; simpl; [set_solver|]. rewrite IH. set_solver.
Qed.

Lemma od_get_app k d1 d2 :
  od_get k (d1 ++ d2) = match od_get k d1 with Some v => Some v | None => od_get k d2 end.
Proof. unfold od_get. rewrite find_app. by destruct (List.find _ d1). Qed.

Lemma od_get_pop k k' d : od_get k' (od_pop k d) = if decide (k' = k) then None else od_get k' d.
Proof.
  induction d as [|[x v] d IH]; [by case_decide|].
  unfold od_pop. rewrite filter_cons. simpl. fold (od_pop k d). unfold od_get in *. simpl.
  repeat (case_decide || case_bool_decide); simpl; subst; try done;
    repeat case_bool_decide; subst; simpl; congruence.
Qed.

Lemma od_pop_notin k d : k ∉ keys d → od_pop k d = d.
Proof.
  induction d as [|[x v] d IH]; intros Hk; [done|].
  change (keys ((x, v) :: d)) with (x :: keys d) in Hk. apply not_elem_of_cons in Hk as [Hx Hk].
  unfold od_pop in *. rewrite filter_cons, decide_True by (simpl; congruence). f_equal. by apply IH.
Qed.

Lemma od_move_set k v d :
  NoDup (keys d) → od_move_to_end k (od_set k v d) = od_pop k d ++ [(k, v)].
Proof.
  intros Hnd. unfold od_move_to_end, od_set. case_decide as Hin.
  - assert (od_get k ((λ e, if decide (e.1 = k) then (k, v) else e) <$> d) = Some v
            ∧ od_pop k ((λ e, if decide (e.1 = k) then (k, v) else e) <$> d) = od_pop k d) as [-> ->]; [|done].
    clear Hnd. split.
    + revert Hin. induction d as [|[x w] d IH]; intros Hin; [set_solver|]. unfold od_get in *. simpl.
      case_decide; simpl; [by rewrite bool_decide_true|].
      rewrite bool_decide_false by done. apply IH. set_solver.
    + clear Hin. induction d as [|[x w] d IH]; [done|]. unfold od_pop in *. rewrite fmap_cons, !filter_cons.
      simpl. repeat case_decide; simpl in *; try done; try (by rewrite IH); congruence.
  - assert (od_get k (d ++ [(k, v)]) = Some v) as ->.
    { rewrite od_get_app, (proj2 (od_get_None k d) Hin). unfold od_get. simpl. by rewrite bool_decide_true. }
    f_equal. unfold od_pop. rewrite filter_app. simpl.
    rewrite filter_cons, decide_False by naive_solver. by rewrite app_nil_r.
Qed.

Lemma evict_suffix n d : evict n d = drop (length d - n) d.
Proof.
  induction d as [|e d IH]; [by rewrite drop_nil|]. simpl. case_decide as Hd.
  - rewrite IH. replace (S (length d) - n) with (S (length d - n)) by lia. done.
  - by replace (S (length d) - n) with 0 by lia.
Qed.

Lemma length_pop k d : length (od_pop k d) ≤ length d.
Proof. apply length_filter. Qed.

Lemma length_pop_in k d : k ∈ keys d → length (od_pop k d) < length d.
Proof.
  intros Hk. unfold keys in Hk. apply list_elem_of_fmap in Hk as (e & -> & He).
  apply (length_filter_lt _ _ e); [exact He|]. by intros [].
Qed.

(** ** Every call keeps the invariant *)
Lemma set_data_move_ok k d n :
  NoDup (keys d) → length d ≤ n → NoDup (keys (od_move_to_end k d)) ∧ length (od_move_to_end k d) ≤ n.
Proof.
  intros Hnd Hl. unfold od_move_to_end. destruct (od_get k d) as [v|] eqn:Hg; [|done].
  assert (Hin : k ∈ keys d) by (apply dec_stable; rewrite <-od_get_None; congruence).
  split.
  - apply NoDup_snoc; [by apply NoDup_pop|]. rewrite elem_of_keys_pop. naive_solver.
  - rewrite length_app. simpl. pose proof (length_pop_in k d Hin). lia.
Qed.

Lemma get_ok k now s : cache_ok s → cache_ok (_get k now s).2.
Proof.
  intros (H1 & H2 & H3). unfold _get. destruct (od_get k (data s)) as [[dl v]|]; [|done].
  case_decide; unfold cache_ok; simpl.
  - split_and!; [by apply NoDup_pop| |done]. pose proof (length_pop k (data s)). lia.
  - destruct (set_data_move_ok k (data s) (maxsize s) H1 H2). done.
Qed.

Lemma multi_get_ok ks now s : cache_ok s → cache_ok (l1_multi_get ks now s).2.
Proof.
  revert s. induction ks as [|k ks IH]; intros s Hs; simpl; [done|].
  pose proof (get_ok k now s Hs) as H1. destruct (_get k now s) as [v s1]. simpl in H1.
  specialize (IH s1 H1). destruct (l1_multi_get ks now s1). done.
Qed.

Lemma delete_ok k s : cache_ok s → cache_ok (l1_delete k s).
Proof.
  intros (H1 & H2 & H3). unfold cache_ok. simpl. split_and!; [by apply NoDup_pop| |done].
  pose proof (length_pop k (data s)). lia.
Qed.

Lemma set_ok k v ttl now s : cache_ok s → cache_ok (l1_set k v ttl now s).
Proof.
  intros Hs. unfold l1_set. destruct v as [v|]; [|by apply delete_ok].
  case_decide; [by apply delete_ok|]. destruct Hs as (H1 & H2 & H3).
  unfold cache_ok. simpl. rewrite od_move_set, evict_suffix by done. split_and!; [| |done].
  - unfold keys. rewrite fmap_drop. eapply sublist_NoDup; [|apply sublist_drop].
    apply (NoDup_snoc k (od_pop k (data s))); [by apply NoDup_pop|]. rewrite elem_of_keys_pop. naive_solver.
  - rewrite length_drop. lia.
Qed.

Lemma set_if_unchanged_ok k v ttl rev now now2 s :
  cache_ok s → cache_ok (l1_set_if_unchanged k v ttl rev now now2 s).2.
Proof.
  intros Hs. unfold l1_set_if_unchanged. case_decide; [done|]. destruct v as [v|]; [|done].
  case_decide; [done|]. pose proof (get_ok k now s Hs) as H1.
  destruct (_get k now s) as [[w|] s1]; [done|]. by apply set_ok.
Qed.

Lemma run_call_ok c s : cache_ok s → cache_ok (run_call c s).
Proof.
  destruct c; simpl; intros Hs.
  - by apply get_ok.
  - by apply multi_get_ok.
  - by apply set_ok.
  - by apply set_if_unchanged_ok.
  - by apply delete_ok.
  - destruct Hs as (_ & _ & H). unfold cache_ok. simpl. split_and!; [apply NoDup_nil_2|lia|done].
  - unfold cache_ok. simpl. split_and!; [apply NoDup_nil_2|lia|lia].
Qed.

(** ** Views *)
Lemma od_get_move k k' d :
  NoDup (keys d) → od_get k' (od_move_to_end k d) = od_get k' d.
Proof.
  intros Hnd. unfold od_move_to_end. destruct (od_get k d) as [v|] eqn:Hg; [|done].
  rewrite od_get_app, od_get_pop. case_decide as Hk.
  - subst k'. rewrite Hg. unfold od_get. simpl. by rewrite bool_decide_true.
  - destruct (od_get k' d) eqn:Hg'; [done|]. unfold od_get. simpl.
    by rewrite bool_decide_false by congruence.
Qed.

Lemma get_view k now s :
  cache_ok s → (_get k now s).1 = view s now k
    ∧ ∀ k' now', (now ≤ now')%Z → view (_get k now s).2 now' k' = view s now' k'.
Proof.
  intros (Hnd & _). unfold _get, view. destruct (od_get k (data s)) as [[dl v]|] eqn:Hg; [|done].
  simpl. case_decide as Hd; simpl; (split; [done|]); intros k' now' Hle.
  - rewrite od_get_pop. destruct (decide (k' = k)) as [->|]; [|done]. rewrite Hg. simpl.
    by rewrite decide_True by lia.
  - by rewrite od_get_move.
Qed.

Lemma revision_grows c s : (revision s ≤ revision (run_call c s))%Z.
Proof.
  assert (Hg : ∀ k now s, revision (_get k now s).2 = revision s).
  { intros k now s0. unfold _get. destruct (od_get k (data s0)) as [[dl v]|]; [|done]. by case_decide. }
  assert (Hs : ∀ k v ttl now s, (revision s ≤ revision (l1_set k v ttl now s))%Z).
  { intros k v ttl now s0. unfold l1_set. destruct v; [|simpl; lia]. case_decide; simpl; lia. }
  destruct c; simpl; try lia; try apply Hs.
  - unfold l1_get. rewrite Hg. lia.
  - revert s. induction ks as [|k ks IH]; intros s; simpl; [lia|].
    specialize (Hg k now s). destruct (_get k now s) as [v s1]. simpl in Hg.
    specialize (IH s1). destruct (l1_multi_get ks now s1). simpl in *. lia.
  - unfold l1_set_if_unchanged. case_decide; [simpl; lia|]. destruct value; [|simpl; lia].
    case_decide; [simpl; lia|]. specialize (Hg key now s).
    destruct (_get key now s) as [[w|] s1]; cbn [snd] in *; [lia|].
    specialize (Hs key (Some v) ttl now2 s1). rewrite Hg in Hs. exact Hs.
Qed.

Lemma revision_grows_run cs s : (revision s ≤ revision (run_calls cs s))%Z.
Proof.
  revert s. induction cs as [|c cs IH]; intros s; simpl; [lia|].
  pose proof (revision_grows c s). pose proof (IH (run_call c s)). unfold run_calls in *. lia.
Qed.

(** Calls that invalidate: they may remove or outdate an entry on purpose. *)
Definition invalidates (c : call) : bool :=
  match c with
  | Delete _ | Clear | Reset _ _ => true
  | Set_ _ None _ _ => true
  | Set_ _ (Some _) ttl _ => bool_decide (ttl ≤ 0)%Z
  | _ => false
  end.

Lemma invalidates_bumps c s : invalidates c = true → (revision s < revision (run_call c s))%Z.
Proof.
  destruct c as [| |k [v|] ttl now| | | |]; simpl; intros H; try discriminate; try lia.
  apply bool_decide_eq_true in H. rewrite decide_True by done. simpl. lia.
Qed.

(** ** Properties *)

(** C10: whatever calls are made, keys stay unique and the number of entries
    never exceeds the (positive) capacity. *)
Theorem cache_bounded (cs : list call) (s : cache) (Hs : cache_ok s) :
  NoDup (keys (data (run_calls cs s))) ∧ l1_size (run_calls cs s) ≤ maxsize (run_calls cs s)
  ∧ 1 ≤ maxsize (run_calls cs s).
Proof.
  change (cache_ok (run_calls cs s)). revert s Hs.
  induction cs as [|c cs IH]; intros s Hs; [done|]. by apply IH, run_call_ok.
Qed.

(** What a positive write leaves in the dictionary. *)
Lemma set_data_view k v ttl now s k' now' :
  cache_ok s → (0 < ttl)%Z →
  view (l1_set k (Some v) ttl now s) now' k' =
  if decide (k' = k) then (if decide (now + ttl ≤ now')%Z then None else Some v)
  else if decide (length (data s) = maxsize s ∧ (k ∉ keys (data s)) ∧ keys (data s) !! 0 = Some k')
  then None else view s now' k'.
Proof.
  intros (Hnd & Hlen & Hmax) Httl. unfold l1_set, view. rewrite decide_False by lia. simpl.
  rewrite od_move_set, evict_suffix by done. rewrite length_app. simpl.
  assert (Hself : ∀ d, k ∉ keys d → od_get k (d ++ [(k, (now + ttl, v)%Z)]) = Some (now + ttl, v)%Z).
  { intros d Hd. rewrite od_get_app, (proj2 (od_get_None k d) Hd). unfold od_get. simpl.
    by rewrite bool_decide_true. }
  assert (Hother : ∀ d, k' ≠ k → od_get k' (d ++ [(k, (now + ttl, v)%Z)]) = od_get k' d).
  { intros d Hk. rewrite od_get_app. destruct (od_get k' d); [done|]. unfold od_get. simpl.
    by rewrite bool_decide_false by congruence. }
  destruct (decide (k ∈ keys (data s))) as [Hin|Hout].
  - pose proof (length_pop_in k (data s) Hin).
    replace (_ - _) with 0 by lia. rewrite drop_0. case_decide as Hk.
    + subst k'. rewrite Hself by (rewrite elem_of_keys_pop; naive_solver). done.
    + rewrite Hother, od_get_pop, decide_False by done. rewrite decide_False by naive_solver. done.
  - assert (od_pop k (data s) = data s) as ->.
    { apply od_pop_notin, Hout. }
    destruct (decide (length (data s) = maxsize s)) as [Hfull|Hroom].
    + replace (_ - _) with 1 by lia. destruct (data s) as [|[x w] d] eqn:Hd; [simpl in *; lia|].
      cbn [app drop]. rewrite drop_0. change (keys ((x, w) :: d)) with (x :: keys d) in *.
      apply NoDup_cons in Hnd as [Hx Hnd]. case_decide as Hk.
      { subst k'. rewrite Hself by set_solver. done. }
      rewrite Hother by done. destruct (decide (k' = x)) as [->|Hkx].
      * rewrite decide_True by done. by rewrite (proj2 (od_get_None x d) Hx).
      * rewrite decide_False by (intros (_ & _ & [= ->]); done).
        unfold od_get. simpl. by rewrite bool_decide_false by congruence.
    + replace (_ - _) with 0 by lia. rewrite drop_0. case_decide as Hk.
      { subst k'. by rewrite Hself. }
      rewrite Hother by done. by rewrite decide_False by naive_solver.
Qed.

(** Reading returns what was last written while it is fresh, and changes
    no later view; writing with a positive TTL shows the value until its
    deadline and leaves every other key's view as it was, except that a write
    of a new key into a full cache drops exactly the least recently used one. *)
Theorem cache_read_write (s : cache) (k : string) (v : V) (ttl now : Z)
    (Hs : cache_ok s) (Httl : (0 < ttl)%Z) :
  (l1_get k now s).1 = view s now k
  ∧ (∀ k' now', (now ≤ now')%Z → view (l1_get k now s).2 now' k' = view s now' k')
  ∧ (∀ now', view (l1_set k (Some v) ttl now s) now' k =
       if decide (now + ttl ≤ now')%Z then None else Some v)
  ∧ (∀ k' now', k' ≠ k →
       view (l1_set k (Some v) ttl now s) now' k' =
       if decide (length (data s) = maxsize s ∧ (k ∉ keys (data s)) ∧ keys (data s) !! 0 = Some k')
       then None else view s now' k').
Proof.
  destruct (get_view k now s Hs) as [Hg1 Hg2].
  split; [exact Hg1|]. split; [exact Hg2|]. split.
  - intros now'. rewrite set_data_view by done. by rewrite decide_True.
  - intros k' now' Hk. rewrite set_data_view by done. by rewrite decide_False.
Qed.

(** A refill that spans an [await] loses against an invalidation. When
    the revision was captured in state [s] and any of the calls made since
    then deletes, clears, resets or writes a non-cacheable value, the guarded
    write reports [False] and leaves the cache untouched; without an
    intervening change of revision it writes exactly when nobody else has
    refilled the key, and never replaces a live entry. *)
Theorem refill_guard (cs : list call) (s : cache) (key : string) (v : V) (ttl now now2 : Z) :
  let s' := run_calls cs s in
  let refill := l1_set_if_unchanged key (Some v) ttl (l1_invalidation_revision s) now now2 s' in
  (existsb invalidates cs = true → refill = (false, s'))
  ∧ (refill.1 = true ↔
      (0 < ttl)%Z ∧ revision s' = revision s ∧ view s' now key = None)
  ∧ (refill.1 = false → cache_ok s' →
      ∀ k' now', (now ≤ now')%Z → view refill.2 now' k' = view s' now' k').
Proof.
  cbv zeta. split_and!.
  - intros Hinv. unfold l1_set_if_unchanged. case_decide; [done|].
    rewrite decide_True; [done|]. unfold l1_invalidation_revision.
    assert (revision s < revision (run_calls cs s))%Z; [|lia].
    revert s Hinv. induction cs as [|c cs IH]; intros s Hinv; simpl in *; [done|].
    pose proof (revision_grows c s). apply orb_true_iff in Hinv as [Hc|Hcs].
    + pose proof (invalidates_bumps c s Hc). pose proof (revision_grows_run cs (run_call c s)).
      unfold run_calls in *. lia.
    + specialize (IH (run_call c s) Hcs). unfold run_calls in *. lia.
  - set (s' := run_calls cs s). unfold l1_set_if_unchanged, l1_invalidation_revision.
    assert (Hv : (_get key now s').1 = view s' now key).
    { unfold _get, view. destruct (od_get key (data s')) as [[dl w]|]; [|done]. simpl. by case_decide. }
    case_decide; [simpl; split; [done|lia]|]. case_decide as Hr; [simpl; split; [done|]; intros (_ & ? & _); congruence|].
    destruct (_get key now s') as [[w|] s1]; simpl in *.
    + split; [done|]. intros (_ & _ & Hn). congruence.
    + split; [|done]. intros _. split_and!; [lia|done|congruence].
  - intros Hf Hok k' now' Hle. revert Hf. set (s' := run_calls cs s) in *.
    unfold l1_set_if_unchanged. case_decide; [done|]. case_decide; [done|].
    destruct (get_view key now s' Hok) as [_ Hv].
    destruct (_get key now s') as [[w|] s1]; [|done]. intros _. by apply Hv.
Qed.
End cache.

Arguments cache : clear implicits.
Arguments call : clear implicits.

(** ** Witnesses *)

(** A full two-entry cache. *)
Definition demo : cache nat := Cache [("a"%string, (10%Z, 1)); ("b"%string, (20%Z, 2))] 2 0.

Lemma demo_ok : cache_ok demo.
Proof. unfold cache_ok. simpl. split_and!; [|lia|lia]. apply (bool_decide_unpack _). reflexivity. Qed.

Lemma cache_bounded_witness :
  NoDup (keys (data (run_calls [Set_ "c" (Some 3) 5 0; Get "b" 1; Set_ "d" (Some 4) 5 2] demo)))
  ∧ data (run_calls [Set_ "c" (Some 3) 5 0; Get "b" 1; Set_ "d" (Some 4) 5 2] demo)
    = [("b"%string, (20%Z, 2)); ("d"%string, (7%Z, 4))].
Proof.
  split; [|reflexivity].
  exact (proj1 (cache_bounded [Set_ "c" (Some 3) 5 0; Get "b" 1; Set_ "d" (Some 4) 5 2] demo demo_ok)).
Defined.

Lemma cache_read_write_witness :
  view (l1_set "c" (Some 3) 5 0 demo) 4 "c" = Some 3
  ∧ view (l1_set "c" (Some 3) 5 0 demo) 4 "a" = None
  ∧ view (l1_set "c" (Some 3) 5 0 demo) 4 "b" = Some 2.
Proof.
  destruct (cache_read_write demo "c" 3 5 0 demo_ok eq_refl) as (_ & _ & Hk & Ho).
  split_and!; [exact (Hk 4%Z)| |].
  - rewrite (Ho "a"%string 4%Z) by discriminate. reflexivity.
  - rewrite (Ho "b"%string 4%Z) by discriminate. reflexivity.
Defined.

Lemma refill_guard_witness :
  l1_set_if_unchanged "a" (Some 7) 5 (l1_invalidation_revision demo) 3 3
    (run_calls [Get "b" 1; Delete "a"] demo)
  = (false, run_calls [Get "b" 1; Delete "a"] demo).
Proof. exact (proj1 (refill_guard [Get "b" 1; Delete "a"] demo "a" 7 5 3 3) eq_refl). Defined.
