(* ===== verification/Points.v ===== *)
(** * The points ledger

    Model of [app/modules/points/models.py], of the repositories of
    [app/modules/points/repository.py] and of the money-moving half of
    [app/modules/points/service.py]: [ensure_balance], [reward], [spend],
    [transfer]. [core/db/session.py] gives the transaction around them.

    The tables are one record, threaded as the state of a program that may
    raise. Row locks and cache notifications are recorded on a trace, since
    they have no other effect on the tables. Two columns nothing reads back
    ([updated_at] and the widths of the string columns) are left out. *)

From S2P Require Import Prelude.

(** ** Tables ([models.py]) *)

(** [id] is a uuid7, which grows with creation time: a counter here. *)
Record PointsLedger := Ledger {
  id : Z;
  user_id : uuid;
  delta : Z;
  balance_after : Z;
  reason : string;
  ref_type : string;
  ref_id : string;
  created_at : Z
}.

(** [stats] is a JSON object: the integer counters, and under the reserved key
    [processed_events] the set of events already consumed. *)
Record UserBehaviorStat := Stat {
  stats : gmap string Z;
  processed_events : gset string;
  last_checkin_date : option string;
  checkin_streak : Z
}.

Record Achievement := Ach {
  ach_id : uuid;
  ach_key : string;
  ach_type : string;
  threshold : Z;
  ach_reward_points : Z;
  ach_sort_order : Z
}.

Record UserAchievement := UserAch {
  progress : Z;
  unlocked : bool;
  unlocked_at : option Z
}.

Record Task := TaskDef {
  task_id : uuid;
  task_key : string;
  category : string;
  requirement_count : Z;
  reward_points : Z;
  task_sort_order : Z
}.

Record UserTaskProgress := Progress {
  task_progress : Z;
  completed : bool;
  rewarded : bool
}.

Record tables := Tables {
  balances : gmap uuid Z;
  ledger : list PointsLedger;
  behavior : gmap uuid UserBehaviorStat;
  achievements : list Achievement;
  user_achievements : gmap (uuid * uuid) UserAchievement;
  tasks : list Task;
  user_tasks : gmap (uuid * uuid * string) UserTaskProgress
}.

(** What a call does outside its tables, in order. *)
Inductive effect :=
  | LockBalance (u : uuid)
  | LockStat (u : uuid)
  | BumpCollection (name : string)
  | InvalidateBalance (u : uuid).

(** [clock] is what [now_iso()] reads, [today] what [datetime.date.today()]
    reads; both stand still during an operation. *)
Record world := World {
  db : tables;
  next_id : Z;
  clock : Z;
  today : date;
  trace : list effect
}.

Abbreviation M := (prog world err).

(** ** State primitives *)
Definition set_balances (f : gmap uuid Z → gmap uuid Z) (w : world) : world :=
  let d := db w in
  World (Tables (f (balances d)) (ledger d) (behavior d) (achievements d)
           (user_achievements d) (tasks d) (user_tasks d)) (next_id w) (clock w) (today w) (trace w).

Definition set_ledger (f : list PointsLedger → list PointsLedger) (w : world) : world :=
  let d := db w in
  World (Tables (balances d) (f (ledger d)) (behavior d) (achievements d)
           (user_achievements d) (tasks d) (user_tasks d)) (next_id w) (clock w) (today w) (trace w).

Definition emit (e : effect) (w : world) : world :=
  World (db w) (next_id w) (clock w) (today w) (trace w ++ [e]).

Definition tick_id (w : world) : world := World (db w) (next_id w + 1) (clock w) (today w) (trace w).

(** ** [UserBalanceRepository] *)
Definition get_value (u : uuid) (w : world) : option Z := balances (db w) !! u.

(** [INSERT ... ON CONFLICT (user_id) DO NOTHING] *)
Definition insert_balance (u : uuid) (w : world) : world :=
  match balances (db w) !! u with
  | Some _ => w
  | None => set_balances <[u := 0%Z]> w
  end.

(** [SELECT ... FOR UPDATE]: a row that does not exist cannot be locked. *)
Definition lock_for_update (u : uuid) : M () :=
  modify (λ w, match get_value u w with Some _ => emit (LockBalance u) w | None => w end).

(** The balance returned is the one just written. The code reads it back through
    the session, and a session that still holds the object it loaded before the
    lock answers from that object: the same as long as no other transaction
    writes the row between that load and the lock. Transactions run one at a
    time here. *)
Definition repo_apply_delta (u : uuid) (d : Z) (allow_negative : bool) : M (option Z) :=
  raise_when (negb (int32 d)) DataError;;
  row ← gets (get_value u);
  match row with
  | None => mret None
  | Some b =>
      raise_when (negb (int32 (b + d))) DataError;;
      if allow_negative || bool_decide (0 ≤ b + d)%Z
      then modify (set_balances <[u := (b + d)%Z]>);; mret (Some (b + d)%Z)
      else mret None
  end.

(** ** [PointsLedgerRepository] *)
Definition has_ref (u : uuid) (rt ri : string) (e : PointsLedger) : bool :=
  bool_decide (user_id e = u) && bool_decide (ref_type e = rt) && bool_decide (ref_id e = ri).

(** [get_one] returns the first row; rows are kept in insertion order. *)
Definition get_by_ref (u : uuid) (rt ri : string) (w : world) : option PointsLedger :=
  List.find (has_ref u rt ri) (ledger (db w)).

(** The constraint [uq_points_ledger_ref]: the key includes [created_at]. *)
Definition conflicts (e : PointsLedger) (l : list PointsLedger) : bool :=
  existsb (λ e', has_ref (user_id e) (ref_type e) (ref_id e) e'
                 && bool_decide (created_at e' = created_at e)) l.

Definition new_row (u : uuid) (d after : Z) (r rt ri : string) (w : world) : PointsLedger :=
  Ledger (next_id w) u d after r rt ri (clock w).

(** [pg_upsert(..., constraint="uq_points_ledger_ref", do_nothing=True)] *)
Definition upsert_ledger (u : uuid) (d after : Z) (r rt ri : string) : M () :=
  e ← gets (new_row u d after r rt ri);
  modify tick_id;;
  modify (λ w, if conflicts e (ledger (db w)) then w else set_ledger (λ l, l ++ [e]) w).

(** One row of [add_all]: a plain [INSERT]. *)
Definition add_ledger (u : uuid) (d after : Z) (r rt ri : string) : M PointsLedger :=
  e ← gets (new_row u d after r rt ri);
  modify tick_id;;
  dup ← gets (λ w, conflicts e (ledger (db w)));
  raise_when dup IntegrityError;;
  modify (set_ledger (λ l, l ++ [e]));;
  mret e.

(** ** [service.py] *)
Definition ensure_balance (u : uuid) : M Z :=
  row ← gets (get_value u);
  match row with
  | Some b => mret b
  | None =>
      modify (insert_balance u);;
      row ← gets (get_value u);
      get_or_raise row AssertionError
  end.

Definition _apply_delta (u : uuid) (d : Z) (allow_negative : bool) : M Z :=
  new_balance ← repo_apply_delta u d allow_negative;
  get_or_raise new_balance INSUFFICIENT_BALANCE.

(** The [LedgerEntry] that is returned holds the row's own columns. *)
Definition reward (u : uuid) (d : Z) (r rt ri : string) (allow_negative : bool) : M PointsLedger :=
  ensure_balance u;;
  lock_for_update u;;
  existing ← gets (get_by_ref u rt ri);
  match existing with
  | Some e => if decide (delta e = d) then mret e else raise DUPLICATE_REWARD
  | None =>
      after ← _apply_delta u d allow_negative;
      upsert_ledger u d after r rt ri;;
      entry ← gets (get_by_ref u rt ri);
      match entry with
      | None => raise DUPLICATE_REWARD
      | Some e =>
          raise_when (bool_decide (delta e ≠ d)) DUPLICATE_REWARD;;
          modify (emit (BumpCollection "points"));;
          modify (emit (InvalidateBalance u));;
          mret e
      end
  end.

Definition spend (u : uuid) (amount : Z) (r rt ri : string) : M PointsLedger :=
  raise_when (bool_decide (amount ≤ 0)%Z) INVALID_INPUT;;
  reward u (- amount) r rt ri false.

(** [sorted((from_id, to_id))] *)
Definition sorted2 (a b : uuid) : list uuid :=
  if decide (uuid_int a ≤ uuid_int b)%N then [a; b] else [b; a].

(** [transfer], from the first [_apply_delta] on. *)
Definition transfer_fresh (from_id to_id : uuid) (amount : Z) (rt ri : string)
    : M (PointsLedger * PointsLedger) :=
  from_after ← _apply_delta from_id (- amount) false;
  to_after ← _apply_delta to_id amount true;
  out_entry ← add_ledger from_id (- amount) from_after "transfer_out" rt ri;
  in_entry ← add_ledger to_id amount to_after "transfer_in" rt ri;
  modify (emit (BumpCollection "points"));;
  modify (emit (InvalidateBalance from_id));;
  modify (emit (InvalidateBalance to_id));;
  mret (out_entry, in_entry).

Definition transfer (from_id to_id : uuid) (amount : Z) (r rt ri : string)
    : M (PointsLedger * PointsLedger) :=
  raise_when (bool_decide (amount ≤ 0)%Z) INVALID_INPUT;;
  raise_when (bool_decide (from_id = to_id)) INVALID_INPUT;;
  ensure_balance from_id;;
  ensure_balance to_id;;
  for_each (sorted2 from_id to_id) lock_for_update;;
  existing_out ← gets (get_by_ref from_id rt ri);
  match existing_out with
  | Some out =>
      existing_in ← gets (get_by_ref to_id rt ri);
      match existing_in with
      | Some inn =>
          if decide (delta out = - amount ∧ delta inn = amount)%Z then mret (out, inn)
          else raise DUPLICATE_REWARD
      | None => raise DUPLICATE_REWARD
      end
  | None => transfer_fresh from_id to_id amount rt ri
  end.

(** ** [get_session]: commit, or roll the tables back and re-raise

    A unique violation surfaces as the business error [CONFLICT]. Ids already
    drawn and notifications already sent stay. *)
Definition transaction {A} (m : M A) : M A := λ w,
  match m w with
  | (Ok a, w') => (Ok a, w')
  | (Raise e, w') =>
      (Raise (if decide (e = IntegrityError) then CONFLICT else e),
       World (db w) (next_id w') (clock w') (today w') (trace w'))
  end.

(** ** Running the operations *)
Definition balance_of (w : world) (u : uuid) : Z := default 0%Z (get_value u w).

(** The tables and the trace once a user's row exists and is locked. *)
Definition locked (u : uuid) (w : world) : world := emit (LockBalance u) (insert_balance u w).

(** A posting: the balance moves and the ledger records it. *)
Definition post (u : uuid) (d : Z) (r rt ri : string) (w : world) : world :=
  let after := (balance_of w u + d)%Z in
  set_ledger (λ l, l ++ [new_row u d after r rt ri w])
    (tick_id (set_balances <[u := after]> w)).

Definition announce (us : list uuid) (w : world) : world :=
  foldl (λ w u, emit (InvalidateBalance u) w) (emit (BumpCollection "points") w) us.

Lemma world_eta w : World (db w) (next_id w) (clock w) (today w) (trace w) = w.
Proof. by destruct w. Qed.

Lemma get_value_insert u v w :
  get_value v (insert_balance u w) =
  if decide (v = u) then Some (balance_of w u) else get_value v w.
Proof.
  unfold insert_balance, balance_of, get_value. destruct (balances (db w) !! u) as [b|] eqn:Hb.
  - case_decide; [by subst|done].
  - simpl. case_decide as Hv; [subst; by rewrite lookup_insert_eq|by rewrite lookup_insert_ne].
Qed.

Lemma balance_of_insert u v w : balance_of (insert_balance u w) v = balance_of w v.
Proof. unfold balance_of at 1. rewrite get_value_insert. case_decide; [by subst|done]. Qed.

Lemma ledger_insert u w : ledger (db (insert_balance u w)) = ledger (db w).
Proof. unfold insert_balance. by destruct (balances (db w) !! u). Qed.

Lemma next_id_insert u w : next_id (insert_balance u w) = next_id w.
Proof. unfold insert_balance. by destruct (balances (db w) !! u). Qed.

Lemma clock_insert u w : clock (insert_balance u w) = clock w.
Proof. unfold insert_balance. by destruct (balances (db w) !! u). Qed.

Lemma trace_insert u w : trace (insert_balance u w) = trace w.
Proof. unfold insert_balance. by destruct (balances (db w) !! u). Qed.

Lemma ensure_balance_run u w : ensure_balance u w = (Ok (balance_of w u), insert_balance u w).
Proof.
  unfold ensure_balance. rewrite run_gets. destruct (get_value u w) as [b|] eqn:Hb.
  - unfold insert_balance, balance_of, get_value in *. by rewrite Hb.
  - rewrite run_modify, run_gets, get_value_insert, decide_True by done. done.
Qed.

Lemma lock_for_update_run u w :
  is_Some (get_value u w) → lock_for_update u w = (Ok tt, emit (LockBalance u) w).
Proof. intros [b Hb]. unfold lock_for_update, modify. by rewrite Hb. Qed.

Lemma ensure_lock_run {B} u (f : () → M B) w :
  (ensure_balance u ≫= λ _, lock_for_update u ≫= f) w = f tt (locked u w).
Proof.
  unfold mbind at 1, prog_bind at 1. rewrite ensure_balance_run.
  unfold mbind, prog_bind. rewrite lock_for_update_run; [done|].
  rewrite get_value_insert, decide_True by done. eauto.
Qed.

Lemma get_by_ref_find u rt ri w : get_by_ref u rt ri w = List.find (has_ref u rt ri) (ledger (db w)).
Proof. done. Qed.

Lemma get_by_ref_ledger u rt ri w w' :
  ledger (db w) = ledger (db w') → get_by_ref u rt ri w = get_by_ref u rt ri w'.
Proof. unfold get_by_ref. by intros ->. Qed.

Lemma has_ref_true u rt ri e :
  has_ref u rt ri e = true ↔ user_id e = u ∧ ref_type e = rt ∧ ref_id e = ri.
Proof. unfold has_ref. rewrite !andb_true_iff, !bool_decide_eq_true. tauto. Qed.

Lemma has_ref_self e : has_ref (user_id e) (ref_type e) (ref_id e) e = true.
Proof. by apply has_ref_true. Qed.

Lemma no_ref_no_conflict e l :
  List.find (has_ref (user_id e) (ref_type e) (ref_id e)) l = None → conflicts e l = false.
Proof.
  intros H. unfold conflicts. apply not_true_is_false. rewrite existsb_exists.
  intros (x & Hx & [Hr _]%andb_true_iff). apply (find_None_elem _ _ x) in H; [congruence|].
  by apply list_elem_of_In.
Qed.

Lemma find_app_None {A} (p : A → bool) l x :
  List.find p l = None → p x = true → List.find p (l ++ [x]) = Some x.
Proof. intros H Hx. rewrite find_app, H. simpl. by rewrite Hx. Qed.

Lemma _apply_delta_run u d an b w :
  get_value u w = Some b →
  _apply_delta u d an w =
  if negb (int32 d) || negb (int32 (b + d)) then (Raise DataError, w)
  else if an || bool_decide (0 ≤ b + d)%Z
  then (Ok (b + d)%Z, set_balances <[u := (b + d)%Z]> w)
  else (Raise INSUFFICIENT_BALANCE, w).
Proof.
  intros Hb. unfold _apply_delta, repo_apply_delta.
  autorewrite with run. destruct (negb (int32 d)); [done|]. autorewrite with run.
  rewrite Hb. autorewrite with run. destruct (negb (int32 (b + d))); [done|]. simpl.
  by destruct (an || bool_decide (0 ≤ b + d)%Z).
Qed.

Lemma reward_run u d r rt ri an w :
  reward u d r rt ri an w =
  match get_by_ref u rt ri w with
  | Some e => (if decide (delta e = d) then Ok e else Raise DUPLICATE_REWARD, locked u w)
  | None =>
      if negb (int32 d) || negb (int32 (balance_of w u + d)) then (Raise DataError, locked u w)
      else if an || bool_decide (0 ≤ balance_of w u + d)%Z
      then (Ok (new_row u d (balance_of w u + d) r rt ri w), announce [u] (post u d r rt ri (locked u w)))
      else (Raise INSUFFICIENT_BALANCE, locked u w)
  end.
Proof.
  unfold reward. rewrite ensure_lock_run. rewrite run_gets.
  assert (get_by_ref u rt ri (locked u w) = get_by_ref u rt ri w) as ->.
  { apply get_by_ref_ledger. apply ledger_insert. }
  destruct (get_by_ref u rt ri w) as [e|] eqn:Href; [by case_decide|].
  unfold mbind at 1, prog_bind at 1.
  rewrite (_apply_delta_run u d an (balance_of w u)); [|unfold locked, get_value; simpl;
    fold (get_value u (insert_balance u w)); rewrite get_value_insert; by rewrite decide_True].
  destruct (_ || _); [done|]. destruct (an || _); [|done].
  set (w2 := set_balances _ _).
  assert (Hl : ledger (db w2) = ledger (db w)) by apply ledger_insert.
  unfold upsert_ledger. rewrite bind_assoc, run_gets, bind_assoc, !run_modify.
  assert (Hrow : new_row u d (balance_of w u + d) r rt ri w2 = new_row u d (balance_of w u + d) r rt ri w).
  { unfold new_row, w2, locked. simpl. by rewrite next_id_insert, clock_insert. }
  rewrite Hrow. set (row := new_row u d _ r rt ri w) in *.
  assert (Hc : conflicts row (ledger (db w)) = false) by (by apply no_ref_no_conflict).
  change (ledger (db (tick_id w2))) with (ledger (db w2)). rewrite Hl, Hc.
  rewrite run_gets. unfold get_by_ref at 1.
  change (ledger (db (set_ledger _ _))) with (ledger (db w2) ++ [row]). rewrite Hl.
  rewrite (find_app_None _ _ row); [|done|apply (has_ref_self row)].
  rewrite run_raise_when, bool_decide_false by (intros Hne; by apply Hne).
  autorewrite with run. assert (balance_of (locked u w) u = balance_of w u) as Hbal.
  { unfold locked. apply (balance_of_insert u u w). }
  unfold post, w2. rewrite Hbal.
  assert (new_row u d (balance_of w u + d) r rt ri (locked u w) = row) as ->; [|reflexivity].
  unfold row, new_row, locked. simpl. by rewrite next_id_insert, clock_insert.
Qed.

Lemma reward_replay u d r rt ri an w e :
  get_by_ref u rt ri w = Some e → delta e = d → reward u d r rt ri an w = (Ok e, locked u w).
Proof. intros Hr Hd. by rewrite reward_run, Hr, decide_True. Qed.

(** *** [transfer] *)
Definition prepared (f t : uuid) (w : world) : world :=
  foldl (λ w u, emit (LockBalance u) w) (insert_balance t (insert_balance f w)) (sorted2 f t).

Lemma for_each_lock us w :
  (∀ u, u ∈ us → is_Some (get_value u w)) →
  for_each us lock_for_update w = (Ok tt, foldl (λ w u, emit (LockBalance u) w) w us).
Proof.
  revert w. induction us as [|u us IH]; intros w H; [done|]. simpl.
  unfold mbind, prog_bind. rewrite lock_for_update_run by (apply H; set_solver). apply IH.
  intros v Hv. apply H. set_solver.
Qed.

Lemma elem_of_sorted2 f t u : u ∈ sorted2 f t ↔ u = f ∨ u = t.
Proof. unfold sorted2. case_decide; set_solver. Qed.

Lemma lock_all_fields w us :
  let w' := foldl (λ w u, emit (LockBalance u) w) w us in
  db w' = db w ∧ next_id w' = next_id w ∧ clock w' = clock w ∧ trace w' = trace w ++ (LockBalance <$> us).
Proof.
  cbv zeta. revert w. induction us as [|u us IH]; intros w; simpl; [by rewrite app_nil_r|].
  destruct (IH (emit (LockBalance u) w)) as (-> & -> & -> & ->). simpl.
  by rewrite <-app_assoc.
Qed.

Lemma prepared_fields f t w :
  ledger (db (prepared f t w)) = ledger (db w) ∧ next_id (prepared f t w) = next_id w
  ∧ clock (prepared f t w) = clock w
  ∧ trace (prepared f t w) = trace w ++ (LockBalance <$> sorted2 f t).
Proof.
  unfold prepared. destruct (lock_all_fields (insert_balance t (insert_balance f w)) (sorted2 f t))
    as (-> & -> & -> & ->).
  by rewrite !ledger_insert, !next_id_insert, !clock_insert, !trace_insert.
Qed.

Lemma prepared_value f t w u :
  get_value u (prepared f t w) = if decide (u = f ∨ u = t) then Some (balance_of w u) else get_value u w.
Proof.
  unfold prepared. destruct (lock_all_fields (insert_balance t (insert_balance f w)) (sorted2 f t))
    as (Hdb & _). unfold get_value at 1. rewrite Hdb. fold (get_value u (insert_balance t (insert_balance f w))).
  rewrite get_value_insert, balance_of_insert, get_value_insert.
  repeat case_decide; subst; try done; naive_solver.
Qed.

Lemma prepared_ref f t w u rt ri : get_by_ref u rt ri (prepared f t w) = get_by_ref u rt ri w.
Proof. apply get_by_ref_ledger, prepared_fields. Qed.

(** The two postings of a transfer. *)
Definition moved (f t : uuid) (a : Z) (rt ri : string) (w : world) : world :=
  post t a "transfer_in" rt ri (post f (- a) "transfer_out" rt ri w).

Lemma find_snoc_other u rt ri l e :
  user_id e ≠ u → List.find (has_ref u rt ri) (l ++ [e]) = List.find (has_ref u rt ri) l.
Proof.
  intros Hu. rewrite find_app. destruct (List.find _ l); [done|]. simpl.
  destruct (has_ref u rt ri e) eqn:He; [|done]. by apply has_ref_true in He as [? _].
Qed.

Lemma conflicts_snoc_other e l x :
  user_id x ≠ user_id e → conflicts e (l ++ [x]) = conflicts e l.
Proof.
  intros Hu. unfold conflicts. rewrite existsb_app. simpl.
  destruct (has_ref (user_id e) (ref_type e) (ref_id e) x) eqn:He; [by apply has_ref_true in He as [? _]|].
  by rewrite !orb_false_r.
Qed.

Lemma add_ledger_run u d after r rt ri w :
  add_ledger u d after r rt ri w =
  let e := new_row u d after r rt ri w in
  if conflicts e (ledger (db w)) then (Raise IntegrityError, tick_id w)
  else (Ok e, set_ledger (λ l, l ++ [e]) (tick_id w)).
Proof.
  unfold add_ledger. autorewrite with run. change (ledger (db (tick_id w))) with (ledger (db w)).
  cbv zeta. by destruct (conflicts _ _).
Qed.

Lemma balance_of_post u d r rt ri w v :
  balance_of (post u d r rt ri w) v = (balance_of w v + if decide (v = u) then d else 0)%Z.
Proof.
  unfold balance_of at 1, get_value. simpl. case_decide as Hv.
  - subst. rewrite lookup_insert_eq. done.
  - rewrite lookup_insert_ne by done. fold (get_value v w) (balance_of w v). lia.
Qed.

Lemma ledger_post u d r rt ri w :
  ledger (db (post u d r rt ri w)) = ledger (db w) ++ [new_row u d (balance_of w u + d) r rt ri w].
Proof. reflexivity. Qed.

Lemma balance_of_prepared f t w u : balance_of (prepared f t w) u = balance_of w u.
Proof. unfold balance_of at 1. rewrite prepared_value. by case_decide. Qed.

(** What [transfer_fresh] refuses, in the order of its checks. *)
Definition fresh_verdict (f t : uuid) (a : Z) (rt ri : string) (w : world) : option err :=
  if negb (int32 (- a)) || negb (int32 (balance_of w f + - a)) then Some DataError
  else if decide (balance_of w f < a)%Z then Some INSUFFICIENT_BALANCE
  else if negb (int32 a) || negb (int32 (balance_of w t + a)) then Some DataError
  else if conflicts (new_row t a (balance_of w t + a) "transfer_in" rt ri w) (ledger (db w))
  then Some IntegrityError
  else None.

Definition transfer_verdict (f t : uuid) (a : Z) (rt ri : string) (w : world)
    : outcome err (option (PointsLedger * PointsLedger)) :=
  if decide (a ≤ 0)%Z then Raise INVALID_INPUT
  else if decide (f = t) then Raise INVALID_INPUT
  else match get_by_ref f rt ri w, get_by_ref t rt ri w with
  | Some out, Some inn =>
      if decide (delta out = - a ∧ delta inn = a)%Z then Ok (Some (out, inn)) else Raise DUPLICATE_REWARD
  | Some _, None => Raise DUPLICATE_REWARD
  | None, _ => match fresh_verdict f t a rt ri w with Some e => Raise e | None => Ok None end
  end.

Lemma moved_order f t a rt ri w w1 :
  f ≠ t → w1 = prepared f t w →
  moved f t a rt ri w1 =
  set_ledger (λ l, l ++ [new_row t a (balance_of w t + a) "transfer_in" rt ri (tick_id w)])
    (tick_id (set_ledger (λ l, l ++ [new_row f (- a) (balance_of w f + - a) "transfer_out" rt ri w])
      (tick_id (set_balances <[t := (balance_of w t + a)%Z]>
        (set_balances <[f := (balance_of w f + - a)%Z]> w1))))).
Proof.
  intros Hft ->. destruct (prepared_fields f t w) as (_ & Hid & Hck & _).
  unfold moved. unfold post at 1. rewrite balance_of_post, decide_False by congruence.
  rewrite Z.add_0_r. unfold post. rewrite !balance_of_prepared.
  unfold tick_id, set_ledger, set_balances, new_row. simpl. by rewrite Hid, Hck.
Qed.

Lemma transfer_fresh_run f t a rt ri w :
  f ≠ t → get_by_ref f rt ri w = None →
  match fresh_verdict f t a rt ri w with
  | Some e => ∃ w', transfer_fresh f t a rt ri (prepared f t w) = (Raise e, w')
  | None =>
      transfer_fresh f t a rt ri (prepared f t w) =
      (Ok (new_row f (- a) (balance_of w f + - a) "transfer_out" rt ri w,
           new_row t a (balance_of w t + a) "transfer_in" rt ri (tick_id w)),
       announce [f; t] (moved f t a rt ri (prepared f t w)))
  end.
Proof.
  intros Hft Hout. destruct (prepared_fields f t w) as (Hl & Hid & Hck & _).
  rewrite (moved_order f t a rt ri w _ Hft eq_refl).
  assert (Hv1 : ∀ u, u = f ∨ u = t → get_value u (prepared f t w) = Some (balance_of w u)).
  { intros u Hu. rewrite prepared_value. by rewrite decide_True. }
  set (w1 := prepared f t w) in *. unfold fresh_verdict, transfer_fresh.
  pose proof (_apply_delta_run f (- a) false (balance_of w f) w1 (Hv1 f (or_introl eq_refl))) as H1.
  destruct (negb (int32 (- a)) || _); [eexists; apply (bind_err _ _ _ _ _ H1)|].
  rewrite orb_false_l in H1.
  destruct (decide (balance_of w f < a)%Z) as [Hlt|Hge].
  { rewrite bool_decide_false in H1 by lia. eexists. apply (bind_err _ _ _ _ _ H1). }
  rewrite bool_decide_true in H1 by lia. rewrite (bind_ok _ _ _ _ _ H1).
  set (w2 := set_balances _ w1) in *.
  assert (Hv2 : get_value t w2 = Some (balance_of w t)).
  { unfold w2, get_value. simpl. rewrite lookup_insert_ne by done. fold (get_value t w1). auto. }
  pose proof (_apply_delta_run t a true _ w2 Hv2) as H2.
  destruct (negb (int32 a) || _); [eexists; apply (bind_err _ _ _ _ _ H2)|].
  rewrite orb_true_l in H2. rewrite (bind_ok _ _ _ _ _ H2). set (w3 := set_balances _ w2) in *.
  assert (Hrow : ∀ r, new_row f (- a) (balance_of w f + - a) r rt ri w3 = new_row f (- a) (balance_of w f + - a) r rt ri w).
  { intros r. unfold new_row. change (next_id w3) with (next_id w1). change (clock w3) with (clock w1).
    by rewrite Hid, Hck. }
  pose proof (add_ledger_run f (- a) (balance_of w f + - a) "transfer_out" rt ri w3) as H3.
  cbv zeta in H3. change (ledger (db w3)) with (ledger (db w1)) in H3. rewrite Hrow, Hl in H3.
  rewrite (no_ref_no_conflict (new_row f _ _ _ _ _ _)) in H3 by exact Hout.
  rewrite (bind_ok _ _ _ _ _ H3). set (w4 := set_ledger _ _) in *.
  pose proof (add_ledger_run t a (balance_of w t + a) "transfer_in" rt ri w4) as H4. cbv zeta in H4.
  assert (new_row t a (balance_of w t + a) "transfer_in" rt ri w4 =
          new_row t a (balance_of w t + a) "transfer_in" rt ri (tick_id w)) as Hr4.
  { unfold new_row. change (next_id w4) with (next_id w1 + 1)%Z. change (clock w4) with (clock w1).
    by rewrite Hid, Hck. }
  rewrite Hr4 in H4. change (ledger (db w4)) with (ledger (db w1) ++ [new_row f (- a) (balance_of w f + - a) "transfer_out" rt ri w]) in H4.
  rewrite Hl, conflicts_snoc_other in H4 by (simpl; congruence).
  change (conflicts (new_row t a (balance_of w t + a) "transfer_in" rt ri (tick_id w)) (ledger (db w)))
    with (conflicts (new_row t a (balance_of w t + a) "transfer_in" rt ri w) (ledger (db w))) in H4.
  destruct (conflicts _ _); [eexists; apply (bind_err _ _ _ _ _ H4)|].
  rewrite (bind_ok _ _ _ _ _ H4). reflexivity.
Qed.

Lemma transfer_run f t a r rt ri w :
  match transfer_verdict f t a rt ri w with
  | Raise e => ∃ w', transfer f t a r rt ri w = (Raise e, w')
  | Ok (Some p) => transfer f t a r rt ri w = (Ok p, prepared f t w)
  | Ok None =>
      transfer f t a r rt ri w =
      (Ok (new_row f (- a) (balance_of w f + - a) "transfer_out" rt ri w,
           new_row t a (balance_of w t + a) "transfer_in" rt ri (tick_id w)),
       announce [f; t] (moved f t a rt ri (prepared f t w)))
  end.
Proof.
  unfold transfer_verdict, transfer. rewrite run_raise_when.
  case_decide as Ha; [rewrite bool_decide_true by done; eauto|rewrite bool_decide_false by done].
  rewrite run_raise_when.
  case_decide as Hft; [rewrite bool_decide_true by done; eauto|rewrite bool_decide_false by done].
  rewrite (bind_ok _ _ _ _ _ (ensure_balance_run f w)), (bind_ok _ _ _ _ _ (ensure_balance_run t _)).
  erewrite bind_ok by (apply for_each_lock; intros u Hu%elem_of_sorted2;
    rewrite get_value_insert, balance_of_insert, get_value_insert;
    destruct Hu; subst; repeat case_decide; subst; eauto; done).
  fold (prepared f t w). rewrite run_gets, prepared_ref.
  destruct (get_by_ref f rt ri w) as [out|] eqn:Hout.
  { rewrite run_gets, prepared_ref. destruct (get_by_ref t rt ri w) as [inn|]; [case_decide; eauto|eauto]. }
  pose proof (transfer_fresh_run f t a rt ri w Hft Hout) as H.
  destruct (get_by_ref t rt ri w); by destruct (fresh_verdict f t a rt ri w).
Qed.

(** ** The books *)

(** Two states that agree on every balance and on the ledger. *)
Definition same_money (w w' : world) : Prop :=
  (∀ u, balance_of w' u = balance_of w u) ∧ ledger (db w') = ledger (db w).

#[export] Instance same_money_refl : Reflexive same_money.
Proof. by intros w. Qed.

#[export] Instance same_money_trans : Transitive same_money.
Proof. intros a b c [H1 H2] [H3 H4]. split; [intros u; by rewrite H3|congruence]. Qed.

Lemma same_money_locked u w : same_money w (locked u w).
Proof. split; [intros v; apply (balance_of_insert u v w)|apply ledger_insert]. Qed.

Lemma same_money_prepared f t w : same_money w (prepared f t w).
Proof. split; [intros v; apply balance_of_prepared|apply prepared_fields]. Qed.

Lemma announce_db us w : db (announce us w) = db w.
Proof.
  unfold announce. change (db w) with (db (emit (BumpCollection "points") w)).
  generalize (emit (BumpCollection "points") w). induction us as [|u us IH]; intros w'; simpl; [done|].
  by rewrite IH.
Qed.

Lemma same_money_announce us w : same_money w (announce us w).
Proof.
  pose proof (announce_db us w) as H.
  split; [|by rewrite H]. intros u. unfold balance_of, get_value. by rewrite H.
Qed.

#[export] Hint Resolve same_money_locked same_money_prepared same_money_announce : lkm.

(** A user's entries, and what they add up to. *)
Definition entries_of (u : uuid) (l : list PointsLedger) : list PointsLedger :=
  filter (λ e, user_id e = u) l.

Definition ledger_sum (u : uuid) (l : list PointsLedger) : Z := sumZ delta (entries_of u l).

Definition ref_of (e : PointsLedger) : uuid * string * string := (user_id e, ref_type e, ref_id e).

(** Every balance is the sum of its owner's ledger; every row's
    [balance_after] is the running sum at that row; balances fit the column. *)
Record books_ok (w : world) : Prop := {
  books_balance : ∀ u, balance_of w u = ledger_sum u (ledger (db w));
  books_running : ∀ i e, ledger (db w) !! i = Some e →
    balance_after e = ledger_sum (user_id e) (take (S i) (ledger (db w)));
  books_range : ∀ u, int32 (balance_of w u) = true
}.

(** No user is in debt. *)
Definition solvent (w : world) : Prop := ∀ u, (0 ≤ balance_of w u)%Z.

(** At most one row per idempotency key. *)
Definition refs_unique (w : world) : Prop := NoDup (ref_of <$> ledger (db w)).

Lemma ledger_sum_snoc u l e :
  ledger_sum u (l ++ [e]) = (ledger_sum u l + if decide (u = user_id e) then delta e else 0)%Z.
Proof.
  unfold ledger_sum, entries_of. rewrite filter_app, sumZ_app, filter_cons, filter_nil.
  repeat case_decide; simpl; subst; try done; lia.
Qed.

Lemma no_ref_fresh u rt ri w :
  get_by_ref u rt ri w = None ↔ (u, rt, ri) ∉ ref_of <$> ledger (db w).
Proof.
  unfold get_by_ref. rewrite list_elem_of_fmap. split.
  - intros H (e & Heq & He). apply (find_None_elem _ _ e) in H; [|done].
    unfold ref_of in Heq. injection Heq as -> -> ->. by rewrite has_ref_self in H.
  - intros H. destruct (List.find _ _) as [e|] eqn:Hf; [|done]. apply find_Some_elem in Hf as [He Hr].
    apply has_ref_true in Hr as (<- & <- & <-). exfalso. apply H. eauto.
Qed.

Lemma books_ok_same w w' : same_money w w' → books_ok w → books_ok w'.
Proof. intros [Hb Hl] []. split; rewrite ?Hl; try done; intros u; by rewrite Hb. Qed.

Lemma solvent_same w w' : same_money w w' → solvent w → solvent w'.
Proof. intros [Hb _] H u. by rewrite Hb. Qed.

Lemma refs_unique_same w w' : same_money w w' → refs_unique w → refs_unique w'.
Proof. intros [_ Hl] H. unfold refs_unique. by rewrite Hl. Qed.

Lemma books_ok_post u d r rt ri w :
  int32 (balance_of w u + d) = true → books_ok w → books_ok (post u d r rt ri w).
Proof.
  intros Hint [Hb Hr Hi]. split.
  - intros v. rewrite balance_of_post, ledger_post, ledger_sum_snoc, Hb. done.
  - intros i e. rewrite ledger_post, lookup_app_Some. intros [He|[Hlen He]].
    + rewrite take_app_le; [by apply Hr|]. by apply lookup_lt_Some in He.
    + apply list_lookup_singleton_Some in He as [Hi' <-].
      rewrite take_ge by (rewrite length_app; simpl; lia).
      rewrite ledger_sum_snoc, <-Hb, decide_True by done. done.
  - intros v. rewrite balance_of_post. case_decide; [by subst|]. by rewrite Z.add_0_r.
Qed.

Lemma solvent_post u d r rt ri w :
  (0 ≤ balance_of w u + d)%Z → solvent w → solvent (post u d r rt ri w).
Proof. intros Hd H v. rewrite balance_of_post. case_decide; [by subst|]. specialize (H v). lia. Qed.

Lemma refs_unique_post u d r rt ri w :
  get_by_ref u rt ri w = None → refs_unique w → refs_unique (post u d r rt ri w).
Proof.
  intros Hn H. unfold refs_unique. rewrite ledger_post, fmap_app. apply NoDup_app. split_and!; [done| |].
  - intros x Hx ->%list_elem_of_singleton. apply no_ref_fresh in Hn. by apply Hn.
  - apply NoDup_singleton.
Qed.

(** A property of the money only, kept by postings that pass [reward]'s checks
    (or [transfer]'s), is kept by [reward]. *)
Lemma reward_keeps (I : world → Prop) u d r rt ri an w :
  (∀ a b, same_money a b → I a → I b) →
  (∀ a, I a → get_by_ref u rt ri a = None → int32 (balance_of a u + d) = true →
        (an = false → 0 ≤ balance_of a u + d)%Z → I (post u d r rt ri a)) →
  I w → wp (reward u d r rt ri an) (λ _, I) (λ _, I) w.
Proof.
  intros Hsame Hpost HI. unfold wp. rewrite reward_run.
  assert (HL : I (locked u w)) by (eapply Hsame; [apply same_money_locked|done]).
  destruct (get_by_ref u rt ri w) as [e|] eqn:Hr; [by case_decide|].
  destruct (negb (int32 d) || negb (int32 (balance_of w u + d))) eqn:Hint; [done|].
  apply orb_false_iff in Hint as [_ Hint%negb_false_iff].
  destruct (an || bool_decide _) eqn:Hneg; [|done].
  eapply Hsame; [apply same_money_announce|]. destruct (same_money_locked u w) as [Hb Hl].
  apply Hpost; [done| |by rewrite Hb|].
  - rewrite <-Hr. by apply get_by_ref_ledger.
  - intros ->. rewrite Hb. by apply bool_decide_eq_true in Hneg.
Qed.

(** What money operations never touch. *)
Definition rest_of (w : world) :=
  (behavior (db w), achievements (db w), user_achievements (db w), tasks (db w), user_tasks (db w),
   clock w, today w).

Lemma rest_insert u w : rest_of (insert_balance u w) = rest_of w.
Proof. unfold insert_balance. by destruct (balances (db w) !! u). Qed.

Lemma rest_locked u w : rest_of (locked u w) = rest_of w.
Proof. apply (rest_insert u w). Qed.

Lemma reward_rest u d r rt ri an w : rest_of (reward u d r rt ri an w).2 = rest_of w.
Proof.
  rewrite reward_run. pose proof (rest_locked u w) as HL.
  destruct (get_by_ref u rt ri w) as [e|]; [by case_decide|]. do 2 (case_match; [done|]). done.
Qed.

(** The same for a committed [transfer]; the credit may meet an existing
    reference of the receiver. *)
Lemma transfer_keeps (I : world → Prop) f t a r rt ri w :
  (∀ a b, same_money a b → I a → I b) →
  (∀ u d r w, I w → int32 (balance_of w u + d) = true →
        (get_by_ref u rt ri w = None ∧ 0 ≤ balance_of w u + d ∨ 0 < d)%Z → I (post u d r rt ri w)) →
  I w → wp (transfer f t a r rt ri) (λ _, I) (λ _ _, True) w.
Proof.
  intros Hsame Hpost HI. unfold wp. pose proof (transfer_run f t a r rt ri w) as H.
  destruct (transfer_verdict f t a rt ri w) as [[p|]|e] eqn:Hv.
  - rewrite H. eapply Hsame; [apply same_money_prepared|done].
  - rewrite H. eapply Hsame; [apply same_money_announce|]. unfold moved.
    unfold transfer_verdict in Hv. do 2 (case_decide; [done|]).
    assert (Hn : get_by_ref f rt ri w = None).
    { destruct (get_by_ref f rt ri w); [|done]. destruct (get_by_ref t rt ri w); [by case_decide|done]. }
    rewrite Hn in Hv. unfold fresh_verdict in Hv.
    destruct (negb (int32 (- a)) || _) eqn:E1; [by destruct (get_by_ref t rt ri w)|].
    apply orb_false_iff in E1 as [_ E1%negb_false_iff].
    case_decide as Hfunds; [by destruct (get_by_ref t rt ri w)|].
    destruct (negb (int32 a) || _) eqn:E2; [by destruct (get_by_ref t rt ri w)|].
    apply orb_false_iff in E2 as [_ E2%negb_false_iff].
    assert (HP : I (prepared f t w)) by (eapply Hsame; [apply same_money_prepared|done]).
    apply Hpost.
    + apply Hpost; rewrite ?balance_of_prepared; [done|done|left]. rewrite prepared_ref. split; [done|lia].
    + rewrite balance_of_post, decide_False, balance_of_prepared by congruence. by rewrite Z.add_0_r.
    + right. lia.
  - destruct H as [w' ->]. done.
Qed.

Lemma sorted2_ascending f t :
  f ≠ t → ∃ lo hi, (LockBalance <$> sorted2 f t) = [LockBalance lo; LockBalance hi]
                   ∧ (uuid_int lo < uuid_int hi)%N.
Proof.
  intros Hft. assert (uuid_int f ≠ uuid_int t) by (intros He; by apply Hft, uuid_int_inj).
  unfold sorted2. case_decide; [exists f, t|exists t, f]; split; try done; lia.
Qed.

(** An empty account adds nothing to the total. *)
Lemma supply_insert u w : sum_map (balances (db (insert_balance u w))) = sum_map (balances (db w)).
Proof.
  unfold insert_balance. destruct (balances (db w) !! u) eqn:Hu; [done|]. simpl.
  rewrite sum_map_insert_new by done. lia.
Qed.

Lemma announce_trace us w :
  trace (announce us w) = trace w ++ BumpCollection "points" :: (InvalidateBalance <$> us).
Proof.
  assert (H : ∀ w', trace (foldl (λ w u, emit (InvalidateBalance u) w) w' us)
                    = trace w' ++ (InvalidateBalance <$> us)).
  { induction us as [|u us IH]; intros w'; simpl; [by rewrite app_nil_r|]. rewrite IH. simpl. by rewrite <-app_assoc. }
  unfold announce. rewrite H. simpl. by rewrite <-app_assoc.
Qed.

Lemma post_trace u d r rt ri w : trace (post u d r rt ri w) = trace w.
Proof. reflexivity. Qed.

Lemma supply_post u d r rt ri w :
  sum_map (balances (db (post u d r rt ri w))) = (sum_map (balances (db w)) + d)%Z.
Proof.
  change (balances (db (post u d r rt ri w))) with (<[u := (balance_of w u + d)%Z]> (balances (db w))).
  rewrite sum_map_insert. unfold balance_of, get_value. lia.
Qed.

Lemma supply_prepared f t w : sum_map (balances (db (prepared f t w))) = sum_map (balances (db w)).
Proof.
  unfold prepared. destruct (lock_all_fields (insert_balance t (insert_balance f w)) (sorted2 f t)) as (-> & _).
  by rewrite !supply_insert.
Qed.

Lemma moved_ledger f t a rt ri w :
  f ≠ t →
  ledger (db (moved f t a rt ri (prepared f t w))) =
  ledger (db w) ++ [new_row f (- a) (balance_of w f + - a) "transfer_out" rt ri w;
                    new_row t a (balance_of w t + a) "transfer_in" rt ri (tick_id w)].
Proof.
  intros Hft. rewrite (moved_order f t a rt ri w _ Hft eq_refl). simpl.
  destruct (prepared_fields f t w) as (-> & _). by rewrite <-app_assoc.
Qed.

Lemma rest_announce us w : rest_of (announce us w) = rest_of w.
Proof.
  unfold announce. change (rest_of w) with (rest_of (emit (BumpCollection "points") w)).
  generalize (emit (BumpCollection "points") w). induction us as [|u us IH]; intros w'; simpl; [done|].
  by rewrite IH.
Qed.

Lemma rest_prepared f t w : rest_of (prepared f t w) = rest_of w.
Proof.
  unfold prepared. transitivity (rest_of (insert_balance t (insert_balance f w))); [|by rewrite !rest_insert].
  generalize (insert_balance t (insert_balance f w)). induction (sorted2 f t) as [|u us IH]; intros w'; simpl; [done|].
  by rewrite IH.
Qed.

Lemma transfer_rest f t a r rt ri w p w' :
  transfer f t a r rt ri w = (Ok p, w') → rest_of w' = rest_of w.
Proof.
  pose proof (transfer_run f t a r rt ri w) as H. intros Hrun.
  destruct (transfer_verdict f t a rt ri w) as [[q|]|e]; [| |destruct H as [w1 H]]; rewrite H in Hrun; try done.
  - injection Hrun as <- <-. apply rest_prepared.
  - injection Hrun as <- <-. rewrite rest_announce. apply (rest_prepared f t w).
Qed.

(** ** Properties *)

(** [reward] on every branch. A reference already posted to this user
    returns the existing row when the amount agrees and [DUPLICATE_REWARD]
    otherwise, and moves nothing. A new one is refused with [DataError] exactly
    when the amount or the new balance leaves the integer column, else with
    [INSUFFICIENT_BALANCE] exactly when debts are not allowed and the balance
    would become negative; refusals move nothing. Otherwise this user's balance
    changes by the amount, nobody else's does, and one row recording amount,
    reason, reference and the new balance is appended. In every case the user's
    row is locked before the reference is looked up. *)
Theorem reward_correct (u : uuid) (d : Z) (r rt ri : string) (an : bool) (w : world) :
  let '(o, w') := reward u d r rt ri an w in
  (∃ rest, trace w' = trace w ++ LockBalance u :: rest)
  ∧ match get_by_ref u rt ri w with
    | Some e => o = (if decide (delta e = d) then Ok e else Raise DUPLICATE_REWARD) ∧ same_money w w'
    | None =>
        match o with
        | Raise e =>
            same_money w w'
            ∧ (e = DataError ∧ (int32 d = false ∨ int32 (balance_of w u + d) = false)
               ∨ e = INSUFFICIENT_BALANCE ∧ int32 d = true ∧ int32 (balance_of w u + d) = true
                 ∧ an = false ∧ (balance_of w u + d < 0)%Z)
        | Ok e =>
            ref_of e = (u, rt, ri) ∧ delta e = d ∧ reason e = r
            ∧ balance_after e = (balance_of w u + d)%Z
            ∧ int32 (balance_after e) = true ∧ (an = true ∨ 0 ≤ balance_after e)%Z
            ∧ (∀ v, balance_of w' v = balance_of w v + if decide (v = u) then d else 0)%Z
            ∧ ledger (db w') = ledger (db w) ++ [e]
            ∧ get_by_ref u rt ri w' = Some e
        end
    end.
Proof.
  rewrite reward_run. destruct (same_money_locked u w) as [Hb Hl].
  assert (Ht : ∃ rest, trace (locked u w) = trace w ++ LockBalance u :: rest).
  { exists []. unfold locked. simpl. by rewrite trace_insert. }
  destruct (get_by_ref u rt ri w) as [e|] eqn:Hr; [split; [done|split; [done|by split]]|].
  destruct (int32 d) eqn:Hd; [|simpl; split; [done|split; [by split|left; tauto]]].
  destruct (int32 (balance_of w u + d)) eqn:Hs; [|simpl; split; [done|split; [by split|left; tauto]]].
  simpl negb. rewrite orb_false_l. cbv iota.
  destruct (an || bool_decide _) eqn:Hneg.
  - split. { destruct Ht as [rest Ht]. exists (rest ++ [BumpCollection "points"; InvalidateBalance u]).
      cbn [announce foldl emit trace post set_ledger tick_id set_balances].
      rewrite Ht. by rewrite <-!app_assoc. }
    destruct (same_money_announce [u] (post u d r rt ri (locked u w))) as [Hb2 Hl2].
    assert (Hrow : new_row u d (balance_of w u + d) r rt ri (locked u w)
                   = new_row u d (balance_of w u + d) r rt ri w).
    { unfold new_row, locked. simpl. by rewrite next_id_insert, clock_insert. }
    assert (Hl3 : ledger (db (announce [u] (post u d r rt ri (locked u w))))
              = ledger (db w) ++ [new_row u d (balance_of w u + d) r rt ri w]).
    { rewrite Hl2, ledger_post, Hb, Hl, Hrow. done. }
    split_and!; try done.
    + apply orb_true_iff in Hneg as [->|Hn%bool_decide_eq_true]; [by left|by right].
    + intros v. by rewrite Hb2, balance_of_post, Hb.
    + unfold get_by_ref. rewrite Hl3. apply find_app_None; [exact Hr|].
      apply (has_ref_self (new_row u d (balance_of w u + d) r rt ri w)).
  - apply orb_false_iff in Hneg as [-> Hn%bool_decide_eq_false].
    split; [done|]. split; [by split|]. right. split_and!; try done. lia.
Qed.

(** C5: a committed [transfer]. Success means a positive amount between two
    different users, and either both rows were there already with the right
    amounts and nothing moves (a replay), or the sender could afford it, exactly
    the amount went from one balance to the other, two rows with the reference
    were appended, and the total of all balances is unchanged. Any failure
    leaves every table as it was. Locks are taken in ascending user order. *)
Theorem transfer_correct (f t : uuid) (a : Z) (r rt ri : string) (w : world) :
  let '(o, w') := transaction (transfer f t a r rt ri) w in
  match o with
  | Raise e => db w' = db w
  | Ok (out, inn) =>
      (0 < a)%Z ∧ f ≠ t ∧ delta out = (- a)%Z ∧ delta inn = a
      ∧ ref_of out = (f, rt, ri) ∧ ref_of inn = (t, rt, ri)
      ∧ (∃ lo hi rest, trace w' = trace w ++ LockBalance lo :: LockBalance hi :: rest
           ∧ (uuid_int lo < uuid_int hi)%N ∧ (∀ u, LockBalance u ∉ rest))
      ∧ (get_by_ref f rt ri w = Some out ∧ get_by_ref t rt ri w = Some inn ∧ same_money w w'
         ∨ get_by_ref f rt ri w = None ∧ (a ≤ balance_of w f)%Z
           ∧ (∀ u, balance_of w' u = balance_of w u + (if decide (u = f) then - a else 0)
                                     + if decide (u = t) then a else 0)%Z
           ∧ ledger (db w') = ledger (db w) ++ [out; inn]
           ∧ sum_map (balances (db w')) = sum_map (balances (db w)))
  end.
Proof.
  unfold transaction. pose proof (transfer_run f t a r rt ri w) as H.
  destruct (transfer_verdict f t a rt ri w) as [[[out inn]|]|e] eqn:Hv; [| |by destruct H as [w' ->]].
  all: rewrite H; unfold transfer_verdict in Hv.
  all: destruct (decide (a ≤ 0)%Z) as [|Ha]; [done|]; destruct (decide (f = t)) as [|Hft]; [done|].
  all: destruct (sorted2_ascending f t Hft) as (lo & hi & Hlocks & Hlt); destruct (prepared_fields f t w) as (Hl & Hid & Hck & Htr);
       rewrite Hlocks in Htr.
  - destruct (get_by_ref f rt ri w) as [out'|] eqn:Hout; [|by destruct (fresh_verdict f t a rt ri w)].
    destruct (get_by_ref t rt ri w) as [inn'|] eqn:Hin; [|done].
    case_decide as Hd; [|done]. injection Hv as -> ->.
    rewrite get_by_ref_find in Hout, Hin.
    apply find_Some_elem in Hout as [_ Ho%has_ref_true]. apply find_Some_elem in Hin as [_ Hi%has_ref_true].
    destruct Ho as (Ho1 & Ho2 & Ho3), Hi as (Hi1 & Hi2 & Hi3), Hd as [Hd1 Hd2].
    split_and!; [lia|done|done|done|unfold ref_of; congruence|unfold ref_of; congruence| |].
    + exists lo, hi, []. split_and!; [done|done|set_solver].
    + left. split_and!; [done|done|apply same_money_prepared].
  - assert (Hout : get_by_ref f rt ri w = None).
    { destruct (get_by_ref f rt ri w); [|done]. destruct (get_by_ref t rt ri w); [by case_decide|done]. }
    rewrite Hout in Hv. unfold fresh_verdict in Hv.
    destruct (negb (int32 (- a)) || _); [by destruct (get_by_ref t rt ri w)|].
    case_decide as Hfunds; [by destruct (get_by_ref t rt ri w)|].
    destruct (same_money_announce [f; t] (moved f t a rt ri (prepared f t w))) as [Hb2 Hl2].
    split_and!; [lia|exact Hft|reflexivity|reflexivity|reflexivity|reflexivity| |].
    + exists lo, hi, [BumpCollection "points"; InvalidateBalance f; InvalidateBalance t].
      split_and!; [|done|set_solver]. rewrite announce_trace. unfold moved.
      rewrite !post_trace, Htr. by rewrite <-!app_assoc.
    + right. split_and!; [exact Hout|lia| | |].
      * intros u. rewrite Hb2. unfold moved. by rewrite !balance_of_post, balance_of_prepared.
      * rewrite Hl2. by apply moved_ledger.
      * rewrite announce_db. unfold moved. rewrite !supply_post, supply_prepared. lia.
Qed.

(** The receiver's side of a transfer is not checked for the reference: two
    senders using one reference leave two rows under the receiver's key, as
    soon as the clock has moved between them. *)
Definition alice : uuid := uuid_of_N 1.
Definition bob : uuid := uuid_of_N 2.
Definition carol : uuid := uuid_of_N 3.

Definition empty_world (now : Z) : world := World (Tables ∅ [] ∅ [] ∅ [] ∅) 0 now (Date 2025 1 1) [].

Definition advance (dt : Z) (w : world) : world := World (db w) (next_id w) (clock w + dt) (today w) (trace w).

Definition twice_transferred : world :=
  let w := (reward alice 10 "seed" "seed" "a" false (empty_world 0)).2 in
  let w := (reward bob 10 "seed" "seed" "b" false w).2 in
  let w := (transaction (transfer alice carol 4 "gift" "gift" "g1") w).2 in
  (transaction (transfer bob carol 4 "gift" "gift" "g1") (advance 1 w)).2.

Lemma transfer_duplicate_ref :
  length (filter (λ e, has_ref carol "gift" "g1" e = true) (ledger (db twice_transferred))) = 2
  ∧ balance_of twice_transferred carol = 8%Z.
Proof. split; vm_compute; reflexivity. Qed.
