(* ===== verification/Engine.v ===== *)
(** * Counting behaviour: achievements, daily tasks, check-in

    Model of [app/modules/points/engine.py], of [do_checkin] in
    [app/modules/points/service.py] and of the queue handlers in
    [app/modules/points/tasks.py]. Everything that moves points goes through
    [Points.reward]. A row object that the code mutates is updated in place in
    its table, which is what the session's identity map gives the code. *)

From S2P Require Import Prelude Points.

(** ** Tables of constants *)
Definition RULE_DELTAS : list (string * Z) :=
  [("post", 10); ("comment", 2); ("like", 1); ("file_approved", 15);
   ("answer_accepted", 0); ("checkin", 5); ("competition", 50)]%Z%string.

Definition EVENT_STAT_KEY : list (string * string) :=
  [("post", "post"); ("comment", "comment"); ("like", "like"); ("file_approved", "file_approved");
   ("answer_accepted", "answer_accepted"); ("competition", "competition")]%string.

Definition STAT_TO_ACHIEVEMENT_TYPE : list (string * string) :=
  [("post", "post_count"); ("like", "like_count"); ("file_approved", "approved_files");
   ("answer_accepted", "accepted_answers"); ("checkin_streak", "checkin_streak");
   ("competition", "competition_count")]%string.

Definition EVENT_TASK_KEY : list (string * string) :=
  [("post", "post"); ("answer_accepted", "answer"); ("like", "like"); ("file_approved", "file_upload");
   ("checkin", "checkin"); ("competition", "competition")]%string.

(** The dictionary inside [_progress_for] (and [service._ACH_TYPE_TO_STAT]). *)
Definition _ACH_TYPE_TO_STAT : list (string * string) :=
  [("post_count", "post"); ("featured_count", "featured_count"); ("accepted_answers", "answer_accepted");
   ("approved_files", "file_approved"); ("checkin_streak", "checkin_streak");
   ("project_count", "project_count"); ("column_articles", "column_articles"); ("like_count", "like");
   ("competition_count", "competition"); ("onboarding", "onboarding")]%string.

(** ** Rows mutated in place *)
Definition set_behavior (f : gmap uuid UserBehaviorStat → gmap uuid UserBehaviorStat) (w : world) : world :=
  let d := db w in
  World (Tables (balances d) (ledger d) (f (behavior d)) (achievements d)
           (user_achievements d) (tasks d) (user_tasks d)) (next_id w) (clock w) (today w) (trace w).

Definition set_user_achievements (f : gmap (uuid * uuid) UserAchievement → gmap (uuid * uuid) UserAchievement)
    (w : world) : world :=
  let d := db w in
  World (Tables (balances d) (ledger d) (behavior d) (achievements d)
           (f (user_achievements d)) (tasks d) (user_tasks d)) (next_id w) (clock w) (today w) (trace w).

Definition set_user_tasks
    (f : gmap (uuid * uuid * string) UserTaskProgress → gmap (uuid * uuid * string) UserTaskProgress)
    (w : world) : world :=
  let d := db w in
  World (Tables (balances d) (ledger d) (behavior d) (achievements d)
           (user_achievements d) (tasks d) (f (user_tasks d))) (next_id w) (clock w) (today w) (trace w).

Definition stat_row (u : uuid) (w : world) : option UserBehaviorStat := behavior (db w) !! u.

Definition new_stat : UserBehaviorStat := Stat ∅ ∅ None 0.

(** [INSERT] of a missing row; an existing one is kept. *)
Definition insert_stat (u : uuid) (w : world) : world :=
  match stat_row u w with Some _ => w | None => set_behavior <[u := new_stat]> w end.

Definition update_stat (u : uuid) (f : UserBehaviorStat → UserBehaviorStat) : M () :=
  modify (set_behavior (alter f u)).

Definition lock_stat (u : uuid) : M () :=
  modify (λ w, match stat_row u w with Some _ => emit (LockStat u) w | None => w end).

(** ** [engine.py] *)
Definition _get_or_create_stats (u : uuid) (for_update : bool) : M UserBehaviorStat :=
  (if for_update then lock_stat u else mret tt);;
  row ← gets (stat_row u);
  match row with
  | Some stat => mret stat
  | None =>
      modify (insert_stat u);;
      row ← gets (stat_row u);
      get_or_raise row AssertionError
  end.

Definition counter (key : string) (s : UserBehaviorStat) : Z := default 0%Z (stats s !! key).

Definition _bump_count (u : uuid) (key : string) : M Z :=
  stat ← _get_or_create_stats u true;
  update_stat u (λ s, Stat (<[key := (counter key s + 1)%Z]> (stats s)) (processed_events s)
                        (last_checkin_date s) (checkin_streak s));;
  mret (counter key stat + 1)%Z.

(** [f"{namespace}:{event}:{ref_id}"] *)
Definition event_key (namespace event ref : string) : string :=
  (namespace +:+ ":" +:+ event +:+ ":" +:+ ref)%string.

Definition _already_processed (u : uuid) (event ref namespace : string) : M bool :=
  stat ← _get_or_create_stats u true;
  mret (bool_decide (event_key namespace event ref ∈ processed_events stat)).

Definition _mark_processed (u : uuid) (event ref namespace : string) : M () :=
  _get_or_create_stats u true;;
  update_stat u (λ s, Stat (stats s) ({[event_key namespace event ref]} ∪ processed_events s)
                        (last_checkin_date s) (checkin_streak s)).

Definition _progress_for (u : uuid) (type_ : string) : M Z :=
  stat ← _get_or_create_stats u false;
  mret match dict_get type_ _ACH_TYPE_TO_STAT with
       | Some key => counter key stat
       | None => 0%Z
       end.

(** The body of the loop over the achievements of one type. *)
Definition recheck_one (u : uuid) (p : Z) (ach : Achievement) : M () :=
  let k := (u, ach_id ach) in
  modify (λ w, match user_achievements (db w) !! k with
               | Some _ => w
               | None => set_user_achievements <[k := UserAch 0 false None]> w
               end);;
  modify (λ w, set_user_achievements (alter (λ ua,
    let ua := UserAch (Z.min p (threshold ach)) (unlocked ua) (unlocked_at ua) in
    if negb (unlocked ua) && bool_decide (threshold ach ≤ p)%Z
    then UserAch (progress ua) true (Some (clock w))
    else ua) k) w).

Definition _recheck_achievements (u : uuid) (stat_key : string) : M () :=
  match dict_get stat_key STAT_TO_ACHIEVEMENT_TYPE with
  | None => mret tt
  | Some type_ =>
      achs ← gets (λ w, filter (λ a, ach_type a = type_) (achievements (db w)));
      p ← _progress_for u type_;
      for_each achs (recheck_one u p)
  end.

Definition task_row (k : uuid * uuid * string) (w : world) : option UserTaskProgress :=
  user_tasks (db w) !! k.

(** [INSERT ... ON CONFLICT DO NOTHING] *)
Definition insert_task (k : uuid * uuid * string) (w : world) : world :=
  match task_row k w with
  | Some _ => w
  | None => set_user_tasks <[k := Progress 0 false false]> w
  end.

Definition update_task (k : uuid * uuid * string) (f : UserTaskProgress → UserTaskProgress) : M () :=
  modify (set_user_tasks (alter f k)).

(** The body of the loop over the tasks of one category. *)
Definition advance_one (u : uuid) (event today : string) (t : Task) : M () :=
  let k := (u, task_id t, today) in
  modify (insert_task k);;
  update_task k (λ up, Progress (Z.min (task_progress up + 1) (requirement_count t))
                         (completed up) (rewarded up));;
  (if bool_decide (requirement_count t = 1)%Z && bool_decide (event = "checkin"%string)
   then update_task k (λ up, Progress 1 (completed up) (rewarded up))
   else mret tt);;
  row ← gets (task_row k);
  up ← get_or_raise row AssertionError;
  if bool_decide (0 < requirement_count t)%Z && negb (completed up)
     && bool_decide (requirement_count t ≤ task_progress up)%Z
  then
    update_task k (λ up, Progress (task_progress up) true (rewarded up));;
    if negb (rewarded up) then
      reward u (reward_points t) "daily_task" "task" (task_key t +:+ ":" +:+ today) false;;
      update_task k (λ up, Progress (task_progress up) (completed up) true)
    else mret tt
  else mret tt.

Definition _advance_tasks (u : uuid) (event today : string) : M () :=
  match dict_get event EVENT_TASK_KEY with
  | None => mret tt
  | Some cat =>
      ts ← gets (λ w, filter (λ t, category t = cat) (tasks (db w)));
      for_each ts (advance_one u event today)
  end.

(** [today or _today()]: an empty string counts as absent. *)
Definition or_today (injected : option string) (w : world) : string :=
  match injected with
  | Some (String _ _ as t) => t
  | _ => isoformat (today w)
  end.

Definition apply_event_side_effects (u : uuid) (event ref : string) (injected : option string) : M () :=
  let stat_key := dict_get event EVENT_STAT_KEY in
  let task_key := dict_get event EVENT_TASK_KEY in
  match stat_key, task_key with
  | None, None => mret tt
  | _, _ =>
      seen ← _already_processed u event ref "legacy";
      if (seen : bool) then mret tt
      else
        _mark_processed u event ref "legacy";;
        tday ← gets (or_today injected);
        match stat_key with
        | Some key => _bump_count u key;; _recheck_achievements u key
        | None => mret tt
        end;;
        _advance_tasks u event tday
  end.

Definition apply_stats_side_effects (u : uuid) (event ref : string) : M () :=
  match dict_get event EVENT_STAT_KEY with
  | None => mret tt
  | Some key =>
      seen ← _already_processed u event ref "stats";
      if (seen : bool) then mret tt
      else
        _mark_processed u event ref "stats";;
        _bump_count u key;;
        _recheck_achievements u key
  end.

Definition apply_task_side_effects (u : uuid) (event ref : string) (injected : option string) : M () :=
  match dict_get event EVENT_TASK_KEY with
  | None => mret tt
  | Some _ =>
      seen ← _already_processed u event ref "tasks";
      if (seen : bool) then mret tt
      else
        _mark_processed u event ref "tasks";;
        tday ← gets (or_today injected);
        _advance_tasks u event tday
  end.

(** ** [service.do_checkin] *)
Record checkin_result := Checkin {
  earned : Z;
  streak : Z;
  today_checked : bool
}.

Definition do_checkin (u : uuid) : M checkin_result :=
  today ← gets (λ w, isoformat (today w));
  yesterday ← gets (λ w, isoformat (prev_day (Points.today w)));
  lock_stat u;;
  row ← gets (stat_row u);
  match row with
  | Some _ => mret tt
  | None => modify (insert_stat u);; lock_stat u
  end;;
  row ← gets (stat_row u);
  stat ← get_or_raise row AssertionError;
  if decide (last_checkin_date stat = Some today)
  then mret (Checkin 0 (checkin_streak stat) true)
  else
    update_stat u (λ s, Stat (stats s) (processed_events s) (Some today)
      (if decide (last_checkin_date s = Some yesterday) then checkin_streak s + 1 else 1)%Z);;
    let reward_delta := default 0%Z (dict_get "checkin" RULE_DELTAS) in
    reward u reward_delta "checkin" "checkin" (uuid_str u +:+ ":" +:+ today) false;;
    update_stat u (λ s, Stat (<["checkin_streak" := checkin_streak s]> (stats s)) (processed_events s)
      (last_checkin_date s) (checkin_streak s));;
    _recheck_achievements u "checkin_streak";;
    _advance_tasks u "checkin" today;;
    row ← gets (stat_row u);
    stat ← get_or_raise row AssertionError;
    mret (Checkin reward_delta (checkin_streak stat) false).

(** ** [tasks.py]: the three subscribers of a points event *)
Definition apply_point_reward (u : uuid) (event ref : string) : M () :=
  transaction
    (let delta := default 0%Z (dict_get event RULE_DELTAS) in
     if decide (0 < delta)%Z then reward u delta event event ref false;; mret tt else mret tt).

Definition apply_point_stats (u : uuid) (event ref : string) : M () :=
  transaction (apply_stats_side_effects u event ref).

Definition apply_point_daily_tasks (u : uuid) (event ref : string) : M () :=
  transaction (apply_task_side_effects u event ref None).

(** ** What no step ever undoes *)
Definition processed_of (u : uuid) (w : world) : gset string := from_option processed_events ∅ (stat_row u w).

Definition is_unlocked (k : uuid * uuid) (w : world) : Prop :=
  ∃ ua, user_achievements (db w) !! k = Some ua ∧ unlocked ua = true.

(** Predicates on the money that the postings keep. A strict posting has a
    fresh reference and leaves no debt; a credit by [transfer] is only known
    to be positive. *)
Record money_inv (strict : bool) (I : world → Prop) : Prop := {
  inv_same : ∀ a b, same_money a b → I a → I b;
  inv_post : ∀ u d r rt ri a, I a → int32 (balance_of a u + d) = true →
    (get_by_ref u rt ri a = None ∧ 0 ≤ balance_of a u + d ∨ strict = false ∧ 0 < d)%Z →
    I (post u d r rt ri a)
}.

(** The second state is a later one: money invariants carried over, consumed
    events still consumed, unlocked achievements still unlocked. *)
Record advances (strict : bool) (w w' : world) : Prop := {
  adv_money : ∀ I, money_inv strict I → I w → I w';
  adv_processed : ∀ u, processed_of u w ⊆ processed_of u w';
  adv_unlocked : ∀ k, is_unlocked k w → is_unlocked k w'
}.

#[export] Instance advances_preorder s : PreOrder (advances s).
Proof.
  split; [by intros w|]. intros a b c [H1 H2 H3] [G1 G2 G3]. split.
  - intros I HI Ha. apply (G1 I HI), (H1 I HI), Ha.
  - intros u. by transitivity (processed_of u b).
  - intros k Hk. apply G3, H3, Hk.
Qed.

Lemma money_inv_strict I : money_inv false I → money_inv true I.
Proof. intros [H1 H2]. split; [done|]. intros u d r rt ri a HI Hi [Hc|[Hc _]]; [|done]. apply H2; auto. Qed.

Lemma advances_weaken w w' : advances true w w' → advances false w w'.
Proof. intros [H1 H2 H3]. split; [intros I HI; apply H1, money_inv_strict, HI|done|done]. Qed.

Definition keeps {A} (m : M A) : Prop := ∀ w, advances true w (m w).2.

Section keeps.
Context {A B : Type}.

Lemma keeps_ret (a : A) : keeps (mret a).
Proof. by intros w. Qed.

Lemma keeps_raise e : keeps (raise (A:=A) e).
Proof. by intros w. Qed.

Lemma keeps_gets (f : world → A) : keeps (gets f).
Proof. by intros w. Qed.

Lemma keeps_bind (m : M A) (f : A → M B) : keeps m → (∀ a, keeps (f a)) → keeps (m ≫= f).
Proof.
  intros Hm Hf w. unfold mbind, prog_bind. specialize (Hm w). destruct (m w) as [[a|e] w1]; [|done].
  etransitivity; [done|]. apply Hf.
Qed.

Lemma keeps_get_or_raise (o : option A) e : keeps (get_or_raise o e).
Proof. by destruct o. Qed.

Lemma keeps_modify f : (∀ w, advances true w (f w)) → keeps (modify f).
Proof. intros H w. apply H. Qed.

Lemma keeps_for_each (xs : list A) body : (∀ x, keeps (body x)) → keeps (for_each xs body).
Proof.
  intros H. induction xs as [|x xs IH]; simpl; [by intros w|].
  intros w. unfold mbind, prog_bind. specialize (H x w). destruct (body x w) as [[a|e] w1]; [|done].
  etransitivity; [done|]. apply IH.
Qed.
End keeps.

Lemma advances_same_money w w' :
  same_money w w' → behavior (db w') = behavior (db w) →
  (∀ k, is_unlocked k w → is_unlocked k w') → advances true w w'.
Proof.
  intros Hm Hb Hu. split; [intros I [HI _]; by apply HI| |done].
  intros u. unfold processed_of, stat_row. by rewrite Hb.
Qed.

Lemma keeps_reward u d r rt ri : keeps (reward u d r rt ri false).
Proof.
  intros w. pose proof (reward_rest u d r rt ri false w) as Hrest. unfold rest_of in Hrest. split.
  - intros I HI Hw. pose proof (reward_keeps I u d r rt ri false w) as H. unfold wp in H.
    destruct (reward u d r rt ri false w) as [[a|e] w1]; simpl; (apply H; [apply HI| |done]);
      intros; apply (inv_post true I HI); auto.
  - intros v. unfold processed_of, stat_row. by replace (behavior (db (reward u d r rt ri false w).2)) with (behavior (db w)) by congruence.
  - intros k. unfold is_unlocked.
    by replace (user_achievements (db (reward u d r rt ri false w).2)) with (user_achievements (db w)) by congruence.
Qed.

Lemma keeps_lock_stat u : keeps (lock_stat u).
Proof.
  apply keeps_modify. intros w. destruct (stat_row u w); [|done]. by apply advances_same_money.
Qed.

Lemma same_money_behavior f w : same_money w (set_behavior f w).
Proof. by split. Qed.

Lemma advances_insert_stat u w : advances true w (insert_stat u w).
Proof.
  unfold insert_stat. destruct (stat_row u w) as [s|] eqn:Hs; [done|]. split; [intros I [HI _]; apply HI, same_money_behavior| |done].
  intros v. unfold processed_of, stat_row in *. simpl. destruct (decide (v = u)) as [->|].
  - rewrite Hs. simpl. set_solver.
  - by rewrite lookup_insert_ne.
Qed.

Lemma keeps_update_stat u f :
  (∀ s, processed_events s ⊆ processed_events (f s)) → keeps (update_stat u f).
Proof.
  intros Hf. apply keeps_modify. intros w. split; [intros I [HI _]; apply HI, same_money_behavior| |done].
  intros v. unfold processed_of, stat_row. simpl. destruct (decide (v = u)) as [->|].
  - rewrite lookup_alter_eq. destruct (behavior (db w) !! u); simpl; [apply Hf|done].
  - by rewrite lookup_alter_ne.
Qed.

Lemma keeps_update_task k f : keeps (update_task k f).
Proof. apply keeps_modify. intros w. by apply advances_same_money. Qed.

Lemma keeps_insert_task k :
  keeps (modify (insert_task k)).
Proof.
  apply keeps_modify. intros w. unfold insert_task. destruct (task_row k w); [done|].
  by apply advances_same_money.
Qed.

Lemma keeps_recheck_one u p ach : keeps (recheck_one u p ach).
Proof.
  apply keeps_bind; [|intros _]; apply keeps_modify; intros w.
  - destruct (user_achievements (db w) !! _) eqn:Hk; [done|]. apply advances_same_money; [done|done|].
    intros k (ua & Hua & Hun). exists ua. simpl. rewrite lookup_insert_ne by congruence. done.
  - apply advances_same_money; [done|done|]. intros k (ua & Hua & Hun). unfold is_unlocked. simpl.
    destruct (decide (k = (u, ach_id ach))) as [->|]; [|rewrite lookup_alter_ne by congruence; eauto].
    rewrite lookup_alter_eq, Hua. simpl. rewrite Hun. simpl. eauto.
Qed.

Create HintDb keeps.
#[export] Hint Resolve keeps_ret keeps_raise keeps_gets keeps_get_or_raise keeps_reward keeps_lock_stat
  keeps_update_task keeps_insert_task keeps_recheck_one : keeps.

Ltac keeps :=
  repeat match goal with
  | |- keeps (_ ≫= _) => apply keeps_bind; [|intros ?]
  | |- keeps (for_each _ _) => apply keeps_for_each; intros ?
  | |- keeps (match ?x with _ => _ end) => destruct x
  | |- keeps (update_stat _ _) => apply keeps_update_stat; intros ?; simpl; set_solver
  | |- keeps (modify (insert_stat _)) => apply keeps_modify, advances_insert_stat
  | |- keeps _ => solve [auto with keeps]
  end.

Lemma keeps_get_or_create u b : keeps (_get_or_create_stats u b).
Proof. unfold _get_or_create_stats. keeps. Qed.
#[export] Hint Resolve keeps_get_or_create : keeps.

Lemma keeps_bump_count u k : keeps (_bump_count u k).
Proof. unfold _bump_count. keeps. Qed.

Lemma keeps_already u e r n : keeps (_already_processed u e r n).
Proof. unfold _already_processed. keeps. Qed.

Lemma keeps_mark u e r n : keeps (_mark_processed u e r n).
Proof. unfold _mark_processed. keeps. Qed.

Lemma keeps_progress_for u t : keeps (_progress_for u t).
Proof. unfold _progress_for. keeps. Qed.
#[export] Hint Resolve keeps_bump_count keeps_already keeps_mark keeps_progress_for : keeps.

Lemma keeps_recheck u k : keeps (_recheck_achievements u k).
Proof. unfold _recheck_achievements. keeps. Qed.

Lemma keeps_advance_one u e d t : keeps (advance_one u e d t).
Proof. unfold advance_one. keeps. Qed.
#[export] Hint Resolve keeps_recheck keeps_advance_one : keeps.

Lemma keeps_advance_tasks u e d : keeps (_advance_tasks u e d).
Proof. unfold _advance_tasks. keeps. Qed.
#[export] Hint Resolve keeps_advance_tasks : keeps.

Lemma keeps_event u e r i : keeps (apply_event_side_effects u e r i).
Proof. unfold apply_event_side_effects. keeps. Qed.

Lemma keeps_stats u e r : keeps (apply_stats_side_effects u e r).
Proof. unfold apply_stats_side_effects. keeps. Qed.

Lemma keeps_tasks u e r i : keeps (apply_task_side_effects u e r i).
Proof. unfold apply_task_side_effects. keeps. Qed.

Lemma keeps_checkin u : keeps (do_checkin u).
Proof. unfold do_checkin. cbv zeta. keeps. Qed.
#[export] Hint Resolve keeps_event keeps_stats keeps_tasks keeps_checkin : keeps.

Lemma keeps_transaction {A} (m : M A) : keeps m → keeps (transaction m).
Proof.
  intros H w. unfold transaction. specialize (H w). destruct (m w) as [[a|e] w1]; [done|].
  apply advances_same_money; [by split|done|done].
Qed.

(** ** Histories

    Everything that writes the points tables, one committed or rolled-back
    transaction each. No caller of [reward] allows debts. *)
Inductive op :=
  | Reward (u : uuid) (d : Z) (r rt ri : string)
  | Spend (u : uuid) (a : Z) (r rt ri : string)
  | Transfer (f t : uuid) (a : Z) (r rt ri : string)
  | CheckIn (u : uuid)
  | PointReward (u : uuid) (event ref : string)
  | PointStats (u : uuid) (event ref : string)
  | PointTasks (u : uuid) (event ref : string)
  | LegacyEvent (u : uuid) (event ref : string) (injected : option string)
  | Tick (dt : Z) (d : date).

Definition run_op (o : op) (w : world) : world :=
  match o with
  | Reward u d r rt ri => (transaction (reward u d r rt ri false) w).2
  | Spend u a r rt ri => (transaction (spend u a r rt ri) w).2
  | Transfer f t a r rt ri => (transaction (transfer f t a r rt ri) w).2
  | CheckIn u => (transaction (do_checkin u) w).2
  | PointReward u e r => (apply_point_reward u e r w).2
  | PointStats u e r => (apply_point_stats u e r w).2
  | PointTasks u e r => (apply_point_daily_tasks u e r w).2
  | LegacyEvent u e r i => (transaction (apply_event_side_effects u e r i) w).2
  | Tick dt d => World (db w) (next_id w) (clock w + Z.max 0 dt) d (trace w)
  end.

Definition run_ops (os : list op) (w : world) : world := foldl (λ w o, run_op o w) w os.

Definition is_transfer (o : op) : bool := match o with Transfer _ _ _ _ _ _ => true | _ => false end.

Lemma run_op_strict o w : is_transfer o = false → advances true w (run_op o w).
Proof.
  destruct o; intros Ho; try discriminate; simpl.
  - apply keeps_transaction; auto with keeps.
  - apply keeps_transaction. unfold spend, raise_when. destruct (bool_decide _); keeps.
  - apply keeps_transaction; auto with keeps.
  - apply keeps_transaction. cbv zeta. case_decide; keeps.
  - apply keeps_transaction; auto with keeps.
  - apply keeps_transaction; auto with keeps.
  - apply keeps_transaction; auto with keeps.
  - by apply advances_same_money.
Qed.

Lemma advances_transfer f t a r rt ri w : advances false w (transaction (transfer f t a r rt ri) w).2.
Proof.
  unfold transaction. destruct (transfer f t a r rt ri w) as [[p|e] w1] eqn:Hrun; simpl.
  - pose proof (transfer_rest _ _ _ _ _ _ _ _ _ Hrun) as Hrest. unfold rest_of in Hrest. split.
    + intros I HI Hw. pose proof (transfer_keeps I f t a r rt ri w) as H. unfold wp in H. rewrite Hrun in H.
      apply H; [apply HI| |done]. intros u d r' v Hv Hi Hc. apply (inv_post false I HI); tauto.
    + intros u. unfold processed_of, stat_row. by replace (behavior (db w1)) with (behavior (db w)) by congruence.
    + intros k. unfold is_unlocked.
      by replace (user_achievements (db w1)) with (user_achievements (db w)) by congruence.
  - apply advances_weaken. apply advances_same_money; [by split|done|done].
Qed.

Lemma run_op_advances o w : advances false w (run_op o w).
Proof.
  destruct (is_transfer o) eqn:Ho; [|by apply advances_weaken, run_op_strict].
  destruct o; try discriminate. apply advances_transfer.
Qed.

Lemma run_ops_advances os w : advances false w (run_ops os w).
Proof.
  revert w. induction os as [|o os IH]; intros w; simpl; [done|].
  etransitivity; [apply run_op_advances|apply IH].
Qed.

Lemma run_ops_strict os w : existsb is_transfer os = false → advances true w (run_ops os w).
Proof.
  revert w. induction os as [|o os IH]; intros w H; simpl in *; [done|].
  apply orb_false_iff in H as [Ho Hos]. etransitivity; [by apply run_op_strict|by apply IH].
Qed.

(** ** Money invariants *)
Lemma books_inv s : money_inv s books_ok.
Proof. split; [apply books_ok_same|]. intros. by apply books_ok_post. Qed.

Lemma solvent_inv s : money_inv s solvent.
Proof.
  split; [apply solvent_same|]. intros u d r rt ri a Ha _ Hc. apply solvent_post; [|done].
  specialize (Ha u). lia.
Qed.

Lemma refs_unique_inv : money_inv true refs_unique.
Proof.
  split; [apply refs_unique_same|]. intros u d r rt ri a Ha _ [[Hn _]|[? _]]; [|done]. by apply refs_unique_post.
Qed.

Lemma prefix_inv s l : money_inv s (λ w, l `prefix_of` ledger (db w)).
Proof.
  split; [intros a b [_ ->]; done|]. intros u d r rt ri a Ha _ _. rewrite ledger_post.
  by apply prefix_app_r.
Qed.

Lemma ref_inv s u rt ri e : money_inv s (λ w, get_by_ref u rt ri w = Some e).
Proof.
  split; [intros a b [_ Hl]; unfold get_by_ref; by rewrite Hl|]. intros v d r rt' ri' a Ha _ _.
  unfold get_by_ref. rewrite ledger_post, find_app. unfold get_by_ref in Ha. by rewrite Ha.
Qed.

(** ** The counters *)
Definition stat_of (u : uuid) (w : world) : UserBehaviorStat := default new_stat (stat_row u w).

Definition logged (tr : list effect) (w : world) : world :=
  World (db w) (next_id w) (clock w) (today w) (trace w ++ tr).

Lemma stat_of_insert u v w : stat_of v (insert_stat u w) = stat_of v w.
Proof.
  unfold stat_of, insert_stat. destruct (stat_row u w) as [s|] eqn:Hs; [done|].
  unfold stat_row in *. simpl. destruct (decide (v = u)) as [->|]; [by rewrite lookup_insert_eq, Hs|].
  by rewrite lookup_insert_ne.
Qed.

Lemma stat_row_insert u w : stat_row u (insert_stat u w) = Some (stat_of u w).
Proof.
  unfold stat_of, insert_stat. destruct (stat_row u w) as [s|] eqn:Hs; [done|].
  unfold stat_row. simpl. by rewrite lookup_insert_eq.
Qed.

Lemma stat_of_update u f v w s :
  stat_row u w = Some s → stat_of v (set_behavior (alter f u) w) = if decide (v = u) then f s else stat_of v w.
Proof.
  unfold stat_of, stat_row. intros Hs. simpl. case_decide as Hv.
  - subst. by rewrite lookup_alter_eq, Hs.
  - by rewrite lookup_alter_ne.
Qed.

Lemma stat_row_update u f w s :
  stat_row u w = Some s → stat_row u (set_behavior (alter f u) w) = Some (f s).
Proof. unfold stat_row. intros Hs. simpl. by rewrite lookup_alter_eq, Hs. Qed.

Lemma get_or_create_run u b w :
  ∃ tr, _get_or_create_stats u b w = (Ok (stat_of u w), logged tr (insert_stat u w)).
Proof.
  assert (Hlog : ∃ tr, (if b then lock_stat u else mret tt) w = (Ok tt, logged tr w) : Prop).
  { assert (Hnil : logged [] w = w) by (destruct w; unfold logged; simpl; by rewrite app_nil_r).
    destruct b; [|exists []; by rewrite Hnil]. unfold lock_stat, modify.
    destruct (stat_row u w); [by exists [LockStat u]|exists []; by rewrite Hnil]. }
  destruct Hlog as [tr Hlog]. exists tr. unfold _get_or_create_stats.
  rewrite (bind_ok _ _ _ _ _ Hlog), run_gets. unfold stat_of, insert_stat.
  change (stat_row u (logged tr w)) with (stat_row u w). destruct (stat_row u w) as [s|] eqn:Hs; [done|].
  rewrite run_modify, run_gets. unfold insert_stat.
  change (stat_row u (logged tr w)) with (stat_row u w). rewrite Hs.
  unfold stat_row at 1. simpl. by rewrite lookup_insert_eq.
Qed.

Definition same_stats (w w' : world) : Prop := (∀ v, stat_of v w' = stat_of v w) ∧ today w' = today w.

#[export] Instance same_stats_preorder : PreOrder same_stats.
Proof. split; [by intros w|]. intros a b c [H1 H2] [H3 H4]. split; [intros v; by rewrite H3|congruence]. Qed.

(** The row is there, locked, and everybody's statistics are as they were. *)
Lemma wp_get_or_create u b Q R w :
  (∀ w', stat_row u w' = Some (stat_of u w) → same_stats w w' → Q (stat_of u w) w') →
  wp (_get_or_create_stats u b) Q R w.
Proof.
  intros H. destruct (get_or_create_run u b w) as [tr Hrun]. unfold wp. rewrite Hrun. apply H.
  - apply (stat_row_insert u w).
  - split; [intros v; apply (stat_of_insert u v w)|]. simpl. unfold insert_stat. by destruct (stat_row u w).
Qed.

Lemma wp_recheck u k w :
  wp (_recheck_achievements u k) (λ _ w', same_stats w w') (λ _ _, False) w.
Proof.
  unfold _recheck_achievements. destruct (dict_get k _) as [ty|]; [|by apply wp_ret].
  repeat wp_step. unfold _progress_for. repeat wp_step. apply wp_get_or_create.
  intros w' _ Hs. wp_step. apply (wp_for_each _ _ (λ w', same_stats w w')); [|done].
  intros ach w1 _ Hw1. unfold recheck_one. repeat wp_step. etransitivity; [exact Hw1|].
  unfold same_stats, stat_of, stat_row. simpl. by destruct (user_achievements _ !! _).
Qed.

(** What one delivery to [points-stats] does to the statistics. *)
Lemma wp_stats u event ref key w :
  dict_get event EVENT_STAT_KEY = Some key →
  let seen := bool_decide (event_key "stats" event ref ∈ processed_events (stat_of u w)) in
  wp (apply_stats_side_effects u event ref)
    (λ _ w', (∀ v, v ≠ u → stat_of v w' = stat_of v w)
      ∧ stat_of u w' =
        if seen : bool then stat_of u w
        else Stat (<[key := (counter key (stat_of u w) + 1)%Z]> (stats (stat_of u w)))
               ({[event_key "stats" event ref]} ∪ processed_events (stat_of u w))
               (last_checkin_date (stat_of u w)) (checkin_streak (stat_of u w)))
    (λ _ _, False) w.
Proof.
  intros Hkey. cbv zeta. unfold apply_stats_side_effects. rewrite Hkey.
  wp_step. unfold _already_processed. repeat wp_step. apply wp_get_or_create. intros w1 Hr1 [Hs1 _]. wp_step.
  case_bool_decide as Hseen; [wp_step; split; [by intros|done]|].
  wp_step. unfold _mark_processed. repeat wp_step. apply wp_get_or_create. intros w2 Hr2 [Hs2 _].
  unfold update_stat at 1. repeat wp_step. rewrite Hs1 in Hr2.
  unfold _bump_count. repeat wp_step. apply wp_get_or_create. intros w3 Hr3 [Hs3 _].
  unfold update_stat. repeat wp_step. eapply wp_mono; [apply wp_recheck| |done]. intros [] w4 [Hs4 _]. simpl.
  pose proof (λ v, stat_of_update u (λ s, Stat (stats s) ({[event_key "stats" event ref]} ∪ processed_events s)
     (last_checkin_date s) (checkin_streak s)) v w2 _ Hr2) as Hu2.
  rewrite Hu2, decide_True in Hr3 by done.
  split.
  - intros v Hv. rewrite Hs4, (stat_of_update _ _ _ _ _ Hr3), decide_False by done.
    by rewrite Hs3, Hu2, decide_False, Hs2, Hs1.
  - by rewrite Hs4, (stat_of_update _ _ _ _ _ Hr3), decide_True.
Qed.

Lemma unseen_stays_seen u k w w' : advances false w w' → k ∈ processed_events (stat_of u w) →
  k ∈ processed_events (stat_of u w').
Proof.
  intros [_ H _] Hk. specialize (H u k). unfold processed_of in H. unfold stat_of in *.
  destruct (stat_row u w) as [s|]; simpl in *; [|set_solver].
  specialize (H Hk). destruct (stat_row u w'); simpl in *; [done|set_solver].
Qed.

(** ** Check-in *)
Definition reward_error (e : err) : Prop := e = DUPLICATE_REWARD ∨ e = DataError ∨ e = INSUFFICIENT_BALANCE.

Lemma keeps_wp {A} (m : M A) w :
  keeps m → wp m (λ _ w', advances true w w') (λ _ w', advances true w w') w.
Proof. intros H. specialize (H w). unfold wp. by destruct (m w) as [[a|e] w1]. Qed.

Lemma wp_reward_stats u d r rt ri an w :
  wp (reward u d r rt ri an)
    (λ e w', same_stats w w' ∧ get_by_ref u rt ri w' = Some e ∧ delta e = d) (λ e _, reward_error e) w.
Proof.
  unfold wp. pose proof (reward_correct u d r rt ri an w) as H.
  pose proof (reward_rest u d r rt ri an w) as Hrest. unfold rest_of in Hrest.
  destruct (reward u d r rt ri an w) as [o w1]. destruct H as [_ H]. simpl in Hrest.
  assert (Hs : same_stats w w1).
  { split; [|congruence]. intros v. unfold stat_of, stat_row. by replace (behavior (db w1)) with (behavior (db w)) by congruence. }
  destruct (get_by_ref u rt ri w) as [e|] eqn:He.
  - destruct H as [-> [_ Hl]]. case_decide; [|by left]. split_and!; [done| |done].
    rewrite <-He. by apply get_by_ref_ledger.
  - destruct o as [e|e]; [naive_solver|]. destruct H as [_ [[-> _]|[-> _]]]; unfold reward_error; tauto.
Qed.

Lemma task_row_update k f w : is_Some (task_row k w) → is_Some (task_row k (set_user_tasks (alter f k) w)).
Proof. intros [t Ht]. unfold task_row in *. simpl. rewrite lookup_alter_eq, Ht. eauto. Qed.

Lemma wp_advance_one u event d t w :
  wp (advance_one u event d t) (λ _ w', same_stats w w') (λ e _, reward_error e) w.
Proof.
  unfold advance_one. cbv zeta. set (k := (u, task_id t, d)). wp_step. wp_step. set (w1 := insert_task k w).
  assert (same_stats w w1 ∧ is_Some (task_row k w1)) as [H1 Hr1].
  { unfold w1, insert_task. destruct (task_row k w) eqn:Hk; [by rewrite Hk|]. split; [done|].
    unfold task_row. simpl. rewrite lookup_insert_eq. eauto. }
  clearbody w1. unfold update_task. wp_step. wp_step. set (w2 := set_user_tasks _ w1).
  assert (Hr2 : is_Some (task_row k w2)) by (by apply task_row_update).
  assert (H2 : same_stats w w2) by exact H1. clearbody w2. wp_step.
  apply (wp_mono _ (λ _ w3, same_stats w w3 ∧ is_Some (task_row k w3)) _ (λ _ _, False)); [|intros [] w3 [H3 Hr3]|done].
  { destruct (_ && _); wp_step; [|done]. split; [exact H2|by apply task_row_update]. }
  repeat wp_step; [by destruct Hr3 as [? ?]; simplify_eq| |exact H3|exact H3].
  eapply wp_mono; [apply wp_reward_stats| |done]. intros e w5 (H5 & _ & _). wp_step.
  etransitivity; [exact H3|]. exact H5.
Qed.

Lemma wp_advance_tasks u event d w :
  wp (_advance_tasks u event d) (λ _ w', same_stats w w') (λ e _, reward_error e) w.
Proof.
  unfold _advance_tasks. destruct (dict_get event _) as [c|]; [|by wp_step]. wp_step. wp_step.
  apply (wp_for_each _ _ (λ w', same_stats w w')); [|done]. intros t w1 _ H1.
  eapply wp_mono; [apply wp_advance_one| |done]. intros [] w2 H2. by etransitivity.
Qed.

(** ** Properties *)

(** C4: the books through any history of operations, retries and failures
    included: every balance stays the sum of its owner's ledger rows, every
    row's [balance_after] the running sum at that row, balances stay within
    the integer column and nobody falls into debt; the ledger is append-only;
    and as long as no transfer happens, no idempotency key gets two rows. *)
Theorem history_keeps_books (os : list op) (w : world) (Hb : books_ok w) (Hs : solvent w) :
  let w' := run_ops os w in
  books_ok w' ∧ solvent w' ∧ ledger (db w) `prefix_of` ledger (db w')
  ∧ (existsb is_transfer os = false → refs_unique w → refs_unique w').
Proof.
  cbv zeta. destruct (run_ops_advances os w) as [HI _ _]. split_and!.
  - apply HI; [apply books_inv|done].
  - apply HI; [apply solvent_inv|done].
  - apply (HI _ (prefix_inv false (ledger (db w)))). done.
  - intros Hos Hu. destruct (run_ops_strict os w Hos) as [HI' _ _].
    apply HI'; [apply refs_unique_inv|done].
Qed.

(** A reward happens once. After a committed [reward], and whatever
    happens in between, asking again with the same user, amount and reference
    returns the row of the first time and moves nothing, and asking with
    another amount is refused. *)
Theorem reward_exactly_once (os : list op) (u : uuid) (d : Z) (r rt ri : string) (e : PointsLedger) (w w1 : world)
    (H1 : transaction (reward u d r rt ri false) w = (Ok e, w1)) (d' : Z) (r' : string) (an : bool) :
  let w2 := run_ops os w1 in
  let '(o, w3) := reward u d' r' rt ri an w2 in
  same_money w2 w3 ∧ o = if decide (d' = d) then Ok e else Raise DUPLICATE_REWARD.
Proof.
  cbv zeta. assert (get_by_ref u rt ri w1 = Some e ∧ delta e = d) as [Href Hd].
  { pose proof (reward_correct u d r rt ri false w) as H. unfold transaction in H1.
    destruct (reward u d r rt ri false w) as [[e'|?] w']; [|done]. injection H1 as -> ->.
    destruct H as [_ H]. destruct (get_by_ref u rt ri w) as [e0|] eqn:H0; [|naive_solver].
    destruct H as [Ho [_ Hl]]. case_decide as Hd; [|done]. injection Ho as ->. split; [|done].
    rewrite <-H0. by apply get_by_ref_ledger. }
  destruct (run_ops_advances os w1) as [HI _ _]. pose proof (HI _ (ref_inv false u rt ri e) Href) as H2.
  rewrite reward_run, H2. split; [apply same_money_locked|]. rewrite Hd.
  repeat case_decide; congruence.
Qed.

(** One delivery of an event to [points-stats] counts once, however often
    it is redelivered. A delivery never fails; it adds one to the event's
    counter if this (user, event, reference) was not consumed before, and
    changes nothing otherwise; nobody else's statistics change. And whatever
    happens afterwards, delivering the same event again leaves every table as
    it is. *)
Theorem stats_exactly_once (os : list op) (u : uuid) (event ref : string) (w : world) :
  ∃ w1, apply_point_stats u event ref w = (Ok tt, w1)
  ∧ (∀ v, v ≠ u → stat_of v w1 = stat_of v w)
  ∧ (∀ key, dict_get event EVENT_STAT_KEY = Some key → ∀ k,
       counter k (stat_of u w1) = counter k (stat_of u w)
         + if decide (k = key ∧ event_key "stats" event ref ∉ processed_events (stat_of u w)) then 1 else 0)%Z
  ∧ ∃ w3, apply_point_stats u event ref (run_ops os w1) = (Ok tt, w3) ∧ db w3 = db (run_ops os w1).
Proof.
  unfold apply_point_stats, transaction. destruct (dict_get event EVENT_STAT_KEY) as [key|] eqn:Hkey.
  2:{ unfold apply_stats_side_effects. rewrite Hkey. exists w. split_and!; try done. by eexists. }
  pose proof (wp_stats u event ref key w Hkey) as H. cbv zeta in H. unfold wp in H.
  destruct (apply_stats_side_effects u event ref w) as [[[]|e] w1]; [|done]. destruct H as [Hv Hu].
  exists w1. split_and!; [done|done| |].
  - intros key' [= <-] k. rewrite Hu. case_bool_decide as Hseen.
    + rewrite decide_False by tauto. lia.
    + unfold counter. simpl. case_decide as Hk.
      * destruct Hk as [-> _]. by rewrite lookup_insert_eq.
      * rewrite lookup_insert_ne by (intros ->; tauto). lia.
  - assert (Hin : event_key "stats" event ref ∈ processed_events (stat_of u w1)).
    { rewrite Hu. case_bool_decide; [done|]. simpl. set_solver +. }
    apply (unseen_stays_seen _ _ _ _ (run_ops_advances os w1)) in Hin. set (w2 := run_ops os w1) in *.
    unfold apply_stats_side_effects. rewrite Hkey. unfold _already_processed.
    destruct (get_or_create_run u true w2) as [tr Hrun]. rewrite bind_assoc, (bind_ok _ _ _ _ _ Hrun).
    rewrite bind_left_id, bool_decide_true by done. eexists. split; [reflexivity|]. simpl.
    unfold insert_stat. unfold stat_of in Hin. destruct (stat_row u w2); [done|set_solver +Hin].
Qed.

Lemma row_of_checkin u w d : last_checkin_date (stat_of u w) = Some d → stat_row u w = Some (stat_of u w).
Proof. unfold stat_of. by destruct (stat_row u w). Qed.

(** The row [do_checkin] reads after creating and locking it. *)
Lemma wp_checkin_row {A} u (K : () → M A) Q R w :
  (∀ w', stat_row u w' = Some (stat_of u w) → same_stats w w' →
     (is_Some (stat_row u w) → db w' = db w) → advances true w w' → wp (K tt) Q R w') →
  wp (lock_stat u ≫= λ _, gets (stat_row u) ≫= λ row,
      match row with Some _ => mret tt | None => modify (insert_stat u);; lock_stat u end ≫= K) Q R w.
Proof.
  intros H. wp_step. unfold lock_stat at 1. wp_step.
  destruct (stat_row u w) as [s|] eqn:Hs; wp_step; wp_step; wp_step.
  - change (stat_row u (emit (LockStat u) w)) with (stat_row u w). rewrite Hs. wp_step.
    apply H; [unfold stat_of; by rewrite Hs|done|done|by apply advances_same_money].
  - rewrite Hs. wp_step. wp_step. unfold lock_stat. wp_step. rewrite stat_row_insert.
    assert (Ha : advances true w (emit (LockStat u) (insert_stat u w))).
    { etransitivity; [apply advances_insert_stat|]. by apply advances_same_money. }
    apply H; [apply (stat_row_insert u w)| |by intros [? ?]|exact Ha].
    split; [intros v; apply (stat_of_insert u v w)|]. simpl. unfold insert_stat. by rewrite Hs.
Qed.

Lemma wp_keeps {A} (m : M A) (Q : A → world → Prop) R w :
  keeps m → wp m Q R w → wp m (λ a w', Q a w' ∧ advances true w w') R w.
Proof. intros H. specialize (H w). unfold wp. destruct (m w) as [[a|e] w1]; simpl in *; auto. Qed.

(** The two loops after the reward leave all statistics alone. *)
Lemma wp_checkin_loops {A} u day (K : M A) (Q : A → world → Prop) w :
  (∀ w', same_stats w w' → advances true w w' → wp K Q (λ e _, reward_error e) w') →
  wp (_recheck_achievements u "checkin_streak" ≫= λ _, _advance_tasks u "checkin" day ≫= λ _, K)
    Q (λ e _, reward_error e) w.
Proof.
  intros HK. wp_step. eapply wp_mono; [apply wp_keeps, wp_recheck; auto with keeps| |done].
  intros [] w1 [H1 G1]. wp_step.
  eapply wp_mono; [apply wp_keeps, wp_advance_tasks; auto with keeps| |done].
  intros [] w2 [H2 G2]. apply HK; by etransitivity.
Qed.

(** The daily check-in. On a day already checked in it earns nothing,
    reports the streak and changes no table. Otherwise it earns 5 points,
    posted once under the reference of this user and day, the streak grows by
    one if yesterday was checked in and restarts at one if not, and the day,
    the streak and the streak counter are recorded; the statistics of others
    do not change. Only the refusals of [reward] can make it fail. *)
Theorem checkin_correct (u : uuid) (w : world) :
  let s := stat_of u w in
  let day := isoformat (today w) in
  let yesterday := isoformat (prev_day (today w)) in
  wp (do_checkin u)
    (λ r w', today w' = today w ∧
      if decide (last_checkin_date s = Some day)
      then r = Checkin 0 (checkin_streak s) true ∧ db w' = db w
      else
        r = Checkin 5 (if decide (last_checkin_date s = Some yesterday) then checkin_streak s + 1 else 1)%Z false
        ∧ stat_of u w' = Stat (<["checkin_streak"%string := streak r]> (stats s)) (processed_events s)
                           (Some day) (streak r)
        ∧ (∀ v, v ≠ u → stat_of v w' = stat_of v w)
        ∧ ∃ e, get_by_ref u "checkin" (uuid_str u +:+ ":" +:+ day) w' = Some e ∧ delta e = 5%Z)
    (λ e _, reward_error e) w.
Proof.
  cbv zeta. unfold do_checkin. cbv zeta. do 4 wp_step. apply wp_checkin_row. intros w1 Hr1 [Hs1 Ht1] Hdb _.
  do 4 wp_step; [congruence|]. rewrite Hr1 in *. simplify_eq. case_decide as Hday.
  { wp_step. split; [done|]. split; [done|]. apply Hdb. rewrite (row_of_checkin _ _ _ Hday). eauto. }
  set (day := isoformat (today w)) in *.
  unfold update_stat. do 2 wp_step. set (w2 := set_behavior _ w1).
  assert (Hu2 : ∀ v, stat_of v w2 = if decide (v = u) then _ else stat_of v w1)
    by (intros v; apply (stat_of_update u _ v w1 _ Hr1)). simpl in Hu2.
  assert (Ht2 : today w2 = today w) by exact Ht1. clearbody w2.
  wp_step. eapply wp_mono; [apply wp_reward_stats| |done]. intros e w3 ([Hs3 Ht3] & He & Hd).
  assert (Hr3 : stat_row u w3 = Some (stat_of u w3)).
  { apply (row_of_checkin u w3 day). by rewrite Hs3, Hu2, decide_True. }
  rewrite Hs3, Hu2, decide_True in Hr3 by done.
  wp_step. wp_step. set (w4 := set_behavior _ w3).
  assert (Hu4 : ∀ v, stat_of v w4 = if decide (v = u) then _ else stat_of v w3)
    by (intros v; apply (stat_of_update u _ v w3 _ Hr3)). simpl in Hu4.
  assert (Href : get_by_ref u "checkin" (uuid_str u +:+ ":" +:+ day) w4 = Some e) by exact He.
  assert (Ht4 : today w4 = today w) by (unfold w4; simpl; congruence). clearbody w4.
  apply wp_checkin_loops. intros w5 [Hs5 Ht5] [Ha5 _ _].
  assert (Hr5 : stat_row u w5 = Some (stat_of u w5)).
  { apply (row_of_checkin u w5 day). by rewrite Hs5, Hu4, decide_True. }
  do 4 wp_step; [congruence|]. wp_step. rewrite Hr5 in *. simplify_eq.
  rewrite Hs5, Hu4, decide_True by done. simpl. split_and!; [congruence|done|done| |].
  - intros v Hv. by rewrite Hs5, Hu4, decide_False, Hs3, Hu2, decide_False, Hs1 by done.
  - exists e. split; [|done]. apply (Ha5 _ (ref_inv true u _ _ e)), Href.
Qed.

Lemma task_row_alter k k' f w :
  task_row k' (set_user_tasks (alter f k) w) = if decide (k' = k) then f <$> task_row k w else task_row k' w.
Proof.
  unfold task_row. simpl. case_decide as Hk; [subst; by rewrite lookup_alter_eq|by rewrite lookup_alter_ne].
Qed.

Lemma task_row_insert k k' w :
  task_row k' (insert_task k w) =
  if decide (k' = k) then Some (default (Progress 0 false false) (task_row k w)) else task_row k' w.
Proof.
  unfold insert_task. destruct (task_row k w) as [up|] eqn:Hk; [case_decide; [by subst|done]|].
  unfold task_row. simpl. case_decide as Hk'; [subst; by rewrite lookup_insert_eq|by rewrite lookup_insert_ne].
Qed.

Lemma wp_reward_task u d r rt ri w (Q : PointsLedger → world → Prop) R :
  (∀ e w', (∀ k, task_row k w' = task_row k w) → get_by_ref u rt ri w' = Some e → delta e = d → Q e w') →
  (∀ e w', reward_error e → R e w') →
  wp (reward u d r rt ri false) Q R w.
Proof.
  intros HQ HR. pose proof (wp_reward_stats u d r rt ri false w) as H.
  pose proof (reward_rest u d r rt ri false w) as Hrest. unfold rest_of in Hrest. unfold wp in *.
  destruct (reward u d r rt ri false w) as [[e|e] w1]; [|by apply HR]. simpl in Hrest.
  destruct H as (_ & He & Hd). apply HQ; [|done|done]. intros k. unfold task_row. congruence.
Qed.

(** Where a day's progress stands after one more event. *)
Definition next_progress (t : Task) (event : string) (up : UserTaskProgress) : Z :=
  if bool_decide (requirement_count t = 1)%Z && bool_decide (event = "checkin"%string) then 1
  else Z.min (task_progress up + 1) (requirement_count t).

(** One event moves one task of the day by one step, capped at its
    requirement. The task is completed exactly when a positive requirement is
    reached for the first time; then, and only then, and only if the day's
    reward was not given yet, the reward is posted under the reference
    "task:day" and the row marked rewarded. Other rows do not change, and
    without a reward no balance does. *)
Theorem advance_task_correct (u : uuid) (event d : string) (t : Task) (w : world) :
  let k := (u, task_id t, d) in
  let up := default (Progress 0 false false) (task_row k w) in
  let p := next_progress t event up in
  let reached := bool_decide (0 < requirement_count t)%Z && negb (completed up)
                 && bool_decide (requirement_count t ≤ p)%Z in
  wp (advance_one u event d t)
    (λ _ w', task_row k w' = Some (Progress p (completed up || reached) (rewarded up || reached))
      ∧ (∀ k', k' ≠ k → task_row k' w' = task_row k' w)
      ∧ if reached && negb (rewarded up)
        then ∃ e, get_by_ref u "task" (task_key t +:+ ":" +:+ d) w' = Some e ∧ delta e = reward_points t
        else same_money w w')
    (λ e _, reward_error e ∧ reached = true ∧ rewarded up = false) w.
Proof.
  cbv zeta. unfold advance_one, update_task. cbv zeta. set (k := (u, task_id t, d)).
  set (up := default (Progress 0 false false) (task_row k w)).
  wp_step. wp_step. assert (H1 : ∀ k', task_row k' (insert_task k w) = if decide (k' = k) then Some up else task_row k' w)
    by (intros; apply task_row_insert).
  assert (M1 : same_money w (insert_task k w)) by (unfold insert_task; by destruct (task_row k w)).
  set (w1 := insert_task k w) in *. clearbody w1. wp_step. wp_step. set (w2 := set_user_tasks _ w1).
  assert (H2 : ∀ k', task_row k' w2 = if decide (k' = k) then Some (Progress (Z.min (task_progress up + 1) (requirement_count t)) (completed up) (rewarded up)) else task_row k' w).
  { intros k'. unfold w2. rewrite task_row_alter, !H1. destruct (decide (k' = k)) as [->|]; [by rewrite ?decide_True|done]. }
  assert (M2 : same_money w w2) by exact M1. clearbody w2. clear w1 H1 M1. wp_step.
  apply (wp_mono _ (λ _ w3, (∀ k', task_row k' w3 = if decide (k' = k) then Some (Progress (next_progress t event up) (completed up) (rewarded up)) else task_row k' w)
    ∧ same_money w w3) _ (λ _ _, False)); [|intros [] w3 [H3 M3]|done].
  { unfold next_progress. destruct (_ && _); wp_step; [|done]. split; [|exact M2].
    intros k'. rewrite task_row_alter, !H2. destruct (decide (k' = k)) as [->|]; [by rewrite ?decide_True|done]. }
  clear w2 H2 M2. set (p := next_progress t event up) in *. wp_step. wp_step. rewrite H3, decide_True by done.
  wp_step. wp_step; [done|]. simplify_eq. cbn [task_progress completed rewarded].
  destruct (bool_decide (0 < requirement_count t)%Z && negb (completed up) && bool_decide (requirement_count t ≤ p)%Z) eqn:Hreach.
  2:{ wp_step. rewrite !orb_false_r. split_and!; [by rewrite H3, decide_True| |done].
      intros k' Hk'. by rewrite H3, decide_False. }
  rewrite !orb_true_r. wp_step. wp_step. set (w4 := set_user_tasks _ w3).
  assert (H4 : ∀ k', task_row k' w4 = if decide (k' = k) then Some (Progress p true (rewarded up)) else task_row k' w).
  { intros k'. unfold w4. rewrite task_row_alter, !H3. destruct (decide (k' = k)) as [->|]; [by rewrite ?decide_True|done]. }
  assert (M4 : same_money w w4) by exact M3. clearbody w4. clear w3 H3 M3.
  destruct (rewarded up) eqn:Hrew; cbn [negb andb].
  { wp_step. split_and!; [by rewrite H4, decide_True| |done]. intros k' Hk'. by rewrite H4, decide_False. }
  wp_step. apply wp_reward_task; [|done]. intros e w5 H5 He Hd. wp_step.
  split_and!.
  - rewrite task_row_alter, decide_True, H5, H4, decide_True by done. done.
  - intros k' Hk'. by rewrite task_row_alter, decide_False, H5, H4, decide_False by done.
  - by exists e.
Qed.

(** ** Witnesses *)
Lemma empty_books : books_ok (empty_world 0).
Proof.
  split; [done|done|]. intros u. reflexivity.
Qed.

Lemma empty_solvent : solvent (empty_world 0).
Proof. intros u. unfold balance_of, get_value. simpl. by rewrite lookup_empty. Qed.

Definition day_one : list op :=
  [Reward alice 10 "welcome" "welcome" "1"; CheckIn alice; PointReward alice "post" "p1"; PointReward alice "post" "p1";
   Spend alice 100 "shop" "shop" "s1"; Spend alice 20 "shop" "shop" "s2"; Tick 5 (Date 2025 1 2); CheckIn alice].

Lemma history_keeps_books_witness :
  books_ok (run_ops day_one (empty_world 0))
  ∧ balance_of (run_ops day_one (empty_world 0)) alice = 10%Z
  ∧ checkin_streak (stat_of alice (run_ops day_one (empty_world 0))) = 2%Z.
Proof.
  split; [exact (proj1 (history_keeps_books day_one (empty_world 0) empty_books empty_solvent))|].
  split; vm_compute; reflexivity.
Defined.

Definition rewarded_world : world := (transaction (reward alice 10 "welcome" "welcome" "1" false) (empty_world 0)).2.
Definition rewarded_row : PointsLedger := Ledger 0 alice 10 10 "welcome" "welcome" "1" 0.

Lemma rewarded_run :
  transaction (reward alice 10 "welcome" "welcome" "1" false) (empty_world 0) = (Ok rewarded_row, rewarded_world).
Proof. unfold rewarded_world, transaction. rewrite reward_run. reflexivity. Qed.

Lemma reward_exactly_once_witness :
  (reward alice 10 "again" "welcome" "1" true (run_ops day_one rewarded_world)).1 = Ok rewarded_row.
Proof.
  pose proof (reward_exactly_once day_one alice 10 "welcome" "welcome" "1" rewarded_row (empty_world 0)
    rewarded_world rewarded_run 10 "again" true) as H. cbv zeta in H.
  destruct (reward alice 10 "again" "welcome" "1" true (run_ops day_one rewarded_world)) as [o w3].
  exact (proj2 H).
Defined.
