(* ===== verification/Ports.v ===== *)
(** * Ports: what components promise to one another

    Model of [core/ports/points.py]: the modules that award points (QA, exam,
    content) see the points component only through these functions, called
    inside their own transaction. The class below is the port; the class of
    its laws is what a caller may rely on. [Points] discharges the laws in
    [PortsImpl.v], and the QA development is proved against them. *)

From S2P Require Import Prelude.

(** [core/ports/points.py]: [reward], [spend]. The operations act on the
    points component's own state [P]. *)
Class PointsPort (P : Type) := {
  port_reward : uuid → Z → string → string → string → prog P err ();
  port_spend : uuid → Z → string → string → string → prog P err ();
  (** Observations. *)
  balance : P → uuid → Z;
  posted : P → uuid → string → string → option Z
}.

(** Nothing observable has changed. *)
Definition same_points `{PointsPort P} (p p' : P) : Prop :=
  (∀ u, balance p' u = balance p u) ∧ (∀ u rt ri, posted p' u rt ri = posted p u rt ri).

(** One posting of [d] to [u] under a reference that was free. *)
Definition posting `{PointsPort P} (u : uuid) (d : Z) (rt ri : string) (p p' : P) : Prop :=
  posted p u rt ri = None
  ∧ (∀ v, balance p' v = balance p v + if decide (v = u) then d else 0)%Z
  ∧ (∀ v rt' ri', posted p' v rt' ri' =
       if decide (v = u ∧ rt' = rt ∧ ri' = ri) then Some d else posted p v rt' ri').

Class PointsLaws (P : Type) `{PointsPort P} := {
  (** A success posts once per reference; a refusal changes nothing. *)
  law_reward u d r rt ri p :
    match port_reward u d r rt ri p with
    | (Ok _, p') => posted p u rt ri = Some d ∧ same_points p p'
                    ∨ posting u d rt ri p p' ∧ (0 ≤ balance p' u)%Z
    | (Raise _, p') => same_points p p'
    end;
  (** A credit is never refused for lack of funds. *)
  law_reward_funds u d r rt ri p p' :
    (0 ≤ balance p u)%Z → (0 ≤ d)%Z → port_reward u d r rt ri p ≠ (Raise INSUFFICIENT_BALANCE, p');
  law_spend u a r rt ri p :
    port_spend u a r rt ri p =
    if decide (a ≤ 0)%Z then (Raise INVALID_INPUT, p) else port_reward u (- a) r rt ri p
}.

Section points.
Context `{PointsLaws P}.

#[export] Instance same_points_preorder : PreOrder same_points.
Proof. split; [by intros p|]. intros a b c [H1 H2] [H3 H4]. split; intros; by rewrite ?H3, ?H4. Qed.

Lemma posting_other u d rt ri p p' v rt' ri' :
  posting u d rt ri p p' → (v ≠ u ∨ rt' ≠ rt ∨ ri' ≠ ri) → posted p' v rt' ri' = posted p v rt' ri'.
Proof. intros (_ & _ & Hp) Hne. rewrite Hp, decide_False; [done|]. tauto. Qed.

Lemma posting_self u d rt ri p p' : posting u d rt ri p p' → posted p' u rt ri = Some d.
Proof. intros (_ & _ & Hp). by rewrite Hp, decide_True. Qed.

Lemma posting_balance u d rt ri p p' v :
  posting u d rt ri p p' → balance p' v = (balance p v + if decide (v = u) then d else 0)%Z.
Proof. intros (_ & Hb & _). apply Hb. Qed.

Lemma wp_port_reward u d r rt ri (Q : () → P → Prop) (R : err → P → Prop) p :
  (∀ p', posted p u rt ri = Some d → same_points p p' → Q tt p') →
  (∀ p', posting u d rt ri p p' → (0 ≤ balance p' u)%Z → Q tt p') →
  (∀ e p', same_points p p' → R e p') →
  wp (port_reward u d r rt ri) Q R p.
Proof.
  intros H1 H2 H3. unfold wp. pose proof (law_reward u d r rt ri p) as HL.
  destruct (port_reward u d r rt ri p) as [[[]|e] p']; [|auto]. destruct HL as [[? ?]|[? ?]]; auto.
Qed.
End points.
