(* ===== verification/PortsImpl.v ===== *)
(** * The points component implements its port

    [app/bootstrap.py] installs [points.service.reward] and [.spend] behind
    [core/ports/points.py] ([allow_negative] stays at its default). *)

From S2P Require Import Prelude Points Ports.

#[export] Instance points_port : PointsPort world := {
  port_reward u d r rt ri := reward u d r rt ri false ≫= λ _, mret tt;
  port_spend u a r rt ri := spend u a r rt ri ≫= λ _, mret tt;
  balance := balance_of;
  posted w u rt ri := delta <$> get_by_ref u rt ri w
}.

Lemma same_money_same_points (w w' : world) : same_money w w' → same_points w w'.
Proof.
  intros [Hb Hl]. split; [exact Hb|]. intros u rt ri. simpl. by rewrite (get_by_ref_ledger u rt ri w' w Hl).
Qed.

Lemma posting_ledger u d rt ri e (w w' : world) :
  get_by_ref u rt ri w = None → ref_of e = (u, rt, ri) → delta e = d →
  (∀ v, balance_of w' v = balance_of w v + if decide (v = u) then d else 0)%Z →
  ledger (db w') = ledger (db w) ++ [e] → posting u d rt ri w w'.
Proof.
  intros Hn Href Hd Hb Hl. split; [simpl; by rewrite Hn|]. split; [exact Hb|].
  intros v rt' ri'. simpl. unfold get_by_ref at 1. rewrite Hl, find_app.
  unfold ref_of in Href. injection Href as <- <- <-. unfold get_by_ref in *.
  destruct (List.find (has_ref v rt' ri') (ledger (db w))) as [e'|] eqn:He'.
  - rewrite decide_False; [done|]. intros (-> & -> & ->). congruence.
  - simpl. destruct (has_ref v rt' ri' e) eqn:Hh; simpl.
    + apply has_ref_true in Hh as (<- & <- & <-). by rewrite decide_True, Hd.
    + rewrite decide_False; [done|]. intros (-> & -> & ->). by rewrite has_ref_self in Hh.
Qed.

#[export] Instance points_laws : PointsLaws world.
Proof.
  split.
  - intros u d r rt ri w. simpl. unfold mbind, prog_bind.
    pose proof (reward_correct u d r rt ri false w) as H.
    destruct (reward u d r rt ri false w) as [o w']. destruct H as [_ H].
    destruct (get_by_ref u rt ri w) as [e|] eqn:Hr.
    + destruct H as [-> H]. apply same_money_same_points in H. case_decide; [left|done].
      split; [simpl; congruence|done].
    + destruct o as [e|e]; [|apply same_money_same_points, (proj1 H)].
      destruct H as (Href & Hd & _ & Ha & _ & Hn & Hb & Hl & _). right. split; [by eapply posting_ledger|].
      simpl. rewrite Hb, decide_True by done. rewrite <-Ha. destruct Hn; [done|lia].
  - intros u d r rt ri w w' Hw Hd. simpl. unfold mbind, prog_bind.
    pose proof (reward_correct u d r rt ri false w) as H. simpl in Hw.
    destruct (reward u d r rt ri false w) as [o w1]. destruct H as [_ H].
    destruct o as [e|e]; [done|]. intros [= -> ->].
    destruct (get_by_ref u rt ri w); [destruct H as [H _]; by case_decide|].
    destruct H as [_ [[? _]|(_ & _ & _ & _ & ?)]]; [done|]. lia.
  - intros u a r rt ri w. simpl. unfold spend. rewrite bind_assoc. unfold raise_when.
    case_decide; [rewrite bool_decide_true by done|rewrite bool_decide_false by done]; reflexivity.
Qed.
