(* ===== verification/Qa.v ===== *)
(** * Questions with a bounty

    Model of [app/modules/qa]: [models.py], [schemas.py], [repository.py],
    [service.py] and [tasks.py]. Asking locks the whole bounty (the points are
    spent), accepting an answer pays one share, closing or expiring refunds
    what was not paid. Points move only through the port of [Ports.v].

    Ids of new rows (uuid7, drawn by the database layer) are arguments; an id
    already in use is an [IntegrityError]. Publishing the question in the
    forum, queueing points events and bumping the list cache are recorded as
    events. *)

From S2P Require Import Prelude Ports.

(** ** Tables *)
Inductive question_status := Open | Accepted | Closed.

#[export] Instance question_status_eq_dec : EqDecision question_status.
Proof. unfold EqDecision, Decision. decide equality. Defined.

Record QAQuestion := Question {
  author_id : uuid;
  title : string;
  situation : string;
  content : string;
  category : string;
  bounty_people : Z;
  bounty_per_person : Z;
  bounty_total : Z;
  bounty_distributed : Z;
  bounty_expires_at : option Z;
  urgent : bool;
  status : question_status;
  accepted_answer_id : option uuid;
  created_at : Z
}.

Record QAAnswer := Answer {
  question_id : uuid;
  answer_author : uuid;
  answer_content : string;
  is_accepted : bool;
  answered_at : Z
}.

(** ** Requests ([schemas.py]) *)
Record QuestionCreate := NewQuestion {
  new_title : string;
  new_situation : string;
  new_content : string;
  new_category : string;
  new_people : Z;
  new_per_person : Z;
  new_days : Z;
  new_urgent : bool;
  new_images : list string
}.

Definition MAX_BOUNTY_POINTS : Z := 1000.

Definition length_between (lo hi : Z) (s : string) : bool :=
  bool_decide (lo ≤ Z.of_nat (String.length s) ≤ hi)%Z.

(** Field constraints, then [check_bounty]. *)
Definition valid_question (i : QuestionCreate) : bool :=
  length_between 1 200 (new_title i) && length_between 1 5000 (new_situation i)
  && length_between 1 20000 (new_content i)
  && bool_decide (new_category i = "help" ∨ new_category i = "volunteer")%string
  && bool_decide (1 ≤ new_people i ≤ 10)%Z
  && bool_decide (0 ≤ new_per_person i ≤ MAX_BOUNTY_POINTS)%Z
  && bool_decide (7 ≤ new_days i ≤ 90)%Z
  && bool_decide (new_images i = [])
  && bool_decide (new_people i * new_per_person i ≤ MAX_BOUNTY_POINTS)%Z
  && negb (new_urgent i && (bool_decide (new_per_person i = 0)%Z || bool_decide (new_days i ≠ 7)%Z)).

(** ** [_qa_plain]: whitespace collapsed, cut at [limit] characters *)
(** [re.sub(r"\s+", " ", s)]; [inside] is true within a run of spaces. *)
Fixpoint squeeze (inside : bool) (s : string) : string :=
  match s with
  | EmptyString => EmptyString
  | String c r =>
      if is_space c then (if inside then squeeze true r else String " " (squeeze true r))
      else String c (squeeze false r)
  end.

Definition _qa_plain (text : string) (limit : nat) : string :=
  let t := squeeze false (rstrip (lstrip text)) in
  (rstrip (String.substring 0 limit t) +:+ (if decide (limit < String.length t) then "..." else ""))%string.

Section qa.
Context {P : Type} `{Port : PointsPort P} `{Laws : !PointsLaws P}.

Inductive event :=
  | PublishItem (author question : uuid) (title content excerpt : string)
  | PointsEvent (user : uuid) (kind ref : string)
  | BumpQa.

Record qa_world := World {
  questions : gmap uuid QAQuestion;
  answers : gmap uuid QAAnswer;
  points : P;
  clock : Z;
  events : list event
}.

Abbreviation M := (prog qa_world err).

Definition set_questions (f : gmap uuid QAQuestion → gmap uuid QAQuestion) (w : qa_world) : qa_world :=
  World (f (questions w)) (answers w) (points w) (clock w) (events w).

Definition set_answers (f : gmap uuid QAAnswer → gmap uuid QAAnswer) (w : qa_world) : qa_world :=
  World (questions w) (f (answers w)) (points w) (clock w) (events w).

Definition set_points (p : P) (w : qa_world) : qa_world :=
  World (questions w) (answers w) p (clock w) (events w).

Definition emit (e : event) : M () :=
  modify (λ w, World (questions w) (answers w) (points w) (clock w) (events w ++ [e])).

(** A call through the points port, on the caller's own transaction. *)
Definition via_port (m : prog P err ()) : M () := zoom points set_points m.

(** ** Repositories *)
Definition get_question_row (qid : uuid) (w : qa_world) : option QAQuestion := questions w !! qid.

Definition add_question (qid : uuid) (q : QAQuestion) : M () :=
  dup ← gets (get_question_row qid);
  raise_when (bool_decide (is_Some dup)) IntegrityError;;
  modify (set_questions <[qid := q]>).

Definition update_question (qid : uuid) (f : QAQuestion → QAQuestion) : M () :=
  modify (set_questions (alter f qid)).

(** The answer with this id, if it answers this question. *)
Definition get_answer (aid qid : uuid) (w : qa_world) : option QAAnswer :=
  a ← answers w !! aid; if decide (question_id a = qid) then Some a else None.

Definition accepted_in (qid : uuid) (l : gmap uuid QAAnswer) : gmap uuid QAAnswer :=
  filter (λ p, question_id p.2 = qid ∧ is_accepted p.2 = true) l.

Definition count_accepted (qid : uuid) (w : qa_world) : Z := Z.of_nat (size (accepted_in qid (answers w))).

Definition is_due (now : Z) (q : QAQuestion) : bool :=
  bool_decide (status q = Open) &&
  match bounty_expires_at q with Some t => bool_decide (t ≤ now)%Z | None => false end.

Definition due_before (a b : uuid * QAQuestion) : Prop :=
  (default 0 (bounty_expires_at a.2) < default 0 (bounty_expires_at b.2))%Z
  ∨ default 0%Z (bounty_expires_at a.2) = default 0%Z (bounty_expires_at b.2)
    ∧ (uuid_int a.1 ≤ uuid_int b.1)%N.

#[export] Instance due_before_dec a b : Decision (due_before a b).
Proof. unfold due_before. apply _. Defined.

(** [ORDER BY bounty_expires_at, id LIMIT limit]; nobody else holds locks. *)
Definition expired_for_update (now : Z) (limit : nat) (w : qa_world) : list (uuid * QAQuestion) :=
  take limit (merge_sort due_before (map_to_list (filter (λ p, is_due now p.2 = true) (questions w)))).

(** ** [service.py] *)
Definition expired (q : QAQuestion) (now : Z) : bool :=
  match bounty_expires_at q with Some t => bool_decide (t ≤ now)%Z | None => false end.

Definition days (n : Z) : Z := n * 24 * 60 * 60 * 1000000.

Definition _sync_question_content_item (author qid : uuid) (q : QAQuestion) : M () :=
  emit (PublishItem author qid (title q) (content q)
    (_qa_plain (if decide (content q = ""%string) then situation q else content q) 150)).

Definition create_question (qid author : uuid) (i : QuestionCreate) : M QAQuestion :=
  let total := (new_people i * new_per_person i)%Z in
  now ← gets clock;
  let q := Question author (new_title i) (new_situation i) (new_content i) (new_category i)
             (new_people i) (new_per_person i) total 0
             (if decide (0 < total)%Z then Some (now + days (new_days i))%Z else None)
             (new_urgent i) Open None now in
  add_question qid q;;
  (if decide (0 < total)%Z
   then via_port (port_spend author total "qa_escrow" "qa_question" (uuid_str qid))
   else mret tt);;
  _sync_question_content_item author qid q;;
  emit BumpQa;;
  mret q.

Definition create_answer (aid qid author : uuid) (text : string) : M QAAnswer :=
  row ← gets (get_question_row qid);
  q ← get_or_raise row QUESTION_NOT_FOUND;
  raise_when (bool_decide (author_id q = author)) SELF_ANSWER_FORBIDDEN;;
  raise_when (bool_decide (status q ≠ Open)) QUESTION_NOT_OPEN;;
  now ← gets clock;
  raise_when (expired q now) BOUNTY_EXPIRED;;
  dup ← gets (λ w, answers w !! aid);
  raise_when (bool_decide (is_Some dup)) IntegrityError;;
  let a := Answer qid author text false now in
  modify (set_answers <[aid := a]>);;
  emit BumpQa;;
  mret a.

Definition mark_accepted (a : QAAnswer) : QAAnswer :=
  Answer (question_id a) (answer_author a) (answer_content a) true (answered_at a).

Definition pay_share (q : QAQuestion) : QAQuestion :=
  Question (author_id q) (title q) (situation q) (content q) (category q) (bounty_people q)
    (bounty_per_person q) (bounty_total q) (bounty_distributed q + bounty_per_person q)
    (bounty_expires_at q) (urgent q) (status q) (accepted_answer_id q) (created_at q).

Definition set_accepted (aid : uuid) (q : QAQuestion) : QAQuestion :=
  Question (author_id q) (title q) (situation q) (content q) (category q) (bounty_people q)
    (bounty_per_person q) (bounty_total q) (bounty_distributed q)
    (bounty_expires_at q) (urgent q) (status q) (Some aid) (created_at q).

Definition set_status (s : question_status) (q : QAQuestion) : QAQuestion :=
  Question (author_id q) (title q) (situation q) (content q) (category q) (bounty_people q)
    (bounty_per_person q) (bounty_total q) (bounty_distributed q)
    (bounty_expires_at q) (urgent q) s (accepted_answer_id q) (created_at q).

Definition accept_answer (qid aid asker : uuid) : M QAAnswer :=
  row ← gets (get_question_row qid);
  q ← get_or_raise row QUESTION_NOT_FOUND;
  raise_when (bool_decide (author_id q ≠ asker)) NOT_ASKER;;
  raise_when (bool_decide (status q ≠ Open)) QUESTION_NOT_OPEN;;
  now ← gets clock;
  raise_when (expired q now) BOUNTY_EXPIRED;;
  arow ← gets (get_answer aid qid);
  a ← get_or_raise arow ANSWER_NOT_FOUND;
  if is_accepted a then mret a else
  raise_when (bool_decide (answer_author a = author_id q)) SELF_ACCEPT_FORBIDDEN;;
  accepted_count ← gets (count_accepted qid);
  raise_when (bool_decide (bounty_people q ≤ accepted_count)%Z) BOUNTY_EXHAUSTED;;
  (if decide (0 < bounty_per_person q)%Z
   then via_port (port_reward (answer_author a) (bounty_per_person q) "qa_accept" "qa_accept"
                    (uuid_pair_str qid aid));;
        update_question qid pay_share
   else mret tt);;
  modify (set_answers (alter mark_accepted aid));;
  update_question qid (set_accepted aid);;
  emit (PointsEvent (answer_author a) "answer_accepted" ("answer:" +:+ uuid_str aid));;
  emit (PointsEvent (author_id q) "qa_accept_notice" ("answer:" +:+ uuid_str aid));;
  emit BumpQa;;
  mret (mark_accepted a).

Definition _settle_question (qid : uuid) (q : QAQuestion) : M () :=
  let refund := (bounty_total q - bounty_distributed q)%Z in
  (if decide (0 < refund)%Z
   then via_port (port_reward (author_id q) refund "qa_refund" "qa_refund" (uuid_str qid))
   else mret tt);;
  update_question qid
    (λ q, set_status (match accepted_answer_id q with Some _ => Accepted | None => Closed end) q).

Definition close_question (qid asker : uuid) (accepted : option uuid) : M QAQuestion :=
  row ← gets (get_question_row qid);
  q ← get_or_raise row QUESTION_NOT_FOUND;
  raise_when (bool_decide (author_id q ≠ asker)) NOT_ASKER;;
  raise_when (bool_decide (status q ≠ Open)) QUESTION_NOT_OPEN;;
  q ← match accepted with
      | Some aid =>
          if decide (accepted ≠ accepted_answer_id q)
          then accept_answer qid aid asker;;
               row ← gets (get_question_row qid);
               get_or_raise row QUESTION_NOT_FOUND
          else mret q
      | None => mret q
      end;
  _settle_question qid q;;
  emit BumpQa;;
  row ← gets (get_question_row qid);
  get_or_raise row QUESTION_NOT_FOUND.

Definition expire_due_questions (limit : nat) : M nat :=
  now ← gets clock;
  due ← gets (expired_for_update now limit);
  for_each due (λ p, _settle_question p.1 p.2);;
  (if bool_decide (due ≠ []) then emit BumpQa else mret tt);;
  mret (length due).

(** The session around a request or a batch: roll back on any exception. The
    events of a failed transaction are dropped with it. *)
Definition transaction {A} (m : M A) : M A := λ w,
  match m w with
  | (Ok a, w') => (Ok a, w')
  | (Raise e, w') => (Raise (if decide (e = IntegrityError) then CONFLICT else e), w)
  end.

(** ** [tasks.py]: [while True], one transaction per batch of 100 *)
Fixpoint expire_qa_bounties (fuel : nat) : M bool :=
  match fuel with
  | O => mret false
  | S fuel =>
      count ← transaction (expire_due_questions 100);
      if decide (count < 100) then mret true else expire_qa_bounties fuel
  end.

(** ** Invariant *)

(** What is still locked for [u] by its open questions, and what [u] owns. *)
Definition held_of (u : uuid) (q : QAQuestion) : Z :=
  if decide (author_id q = u ∧ status q = Open) then bounty_total q - bounty_distributed q else 0.

Definition held (w : qa_world) (u : uuid) : Z := sum_map (held_of u <$> questions w).

Definition wealth (w : qa_world) (u : uuid) : Z := balance (points w) u + held w u.

(** One question is consistent with the answers and with the points posted. *)
Record question_ok (w : qa_world) (qid : uuid) (q : QAQuestion) : Prop := {
  q_terms : (1 ≤ bounty_people q ∧ 0 ≤ bounty_per_person q ∧ bounty_total q = bounty_people q * bounty_per_person q)%Z;
  q_paid : bounty_distributed q = (bounty_per_person q * count_accepted qid w)%Z;
  q_count : (count_accepted qid w ≤ bounty_people q)%Z;
  q_accepted : ∀ aid, accepted_answer_id q = Some aid → ∃ a, answers w !! aid = Some a
                 ∧ question_id a = qid ∧ is_accepted a = true;
  q_status : status q = Open ∨ (status q = Accepted ↔ is_Some (accepted_answer_id q));
  q_refund : posted (points w) (author_id q) "qa_refund" (uuid_str qid) =
               if decide (status q ≠ Open ∧ 0 < bounty_total q - bounty_distributed q)%Z
               then Some (bounty_total q - bounty_distributed q)%Z else None
}.

Record answer_ok (w : qa_world) (aid : uuid) (a : QAAnswer) : Prop := {
  a_question : ∃ q, questions w !! question_id a = Some q ∧ author_id q ≠ answer_author a;
  a_unpaid : is_accepted a = false →
    posted (points w) (answer_author a) "qa_accept" (uuid_pair_str (question_id a) aid) = None
}.

Record qa_ok (w : qa_world) : Prop := {
  ok_questions : ∀ qid q, questions w !! qid = Some q → question_ok w qid q;
  ok_answers : ∀ aid a, answers w !! aid = Some a → answer_ok w aid a;
  ok_new_question : ∀ qid u, questions w !! qid = None →
    posted (points w) u "qa_question" (uuid_str qid) = None
    ∧ posted (points w) u "qa_refund" (uuid_str qid) = None;
  ok_new_answer : ∀ aid qid u, answers w !! aid = None →
    posted (points w) u "qa_accept" (uuid_pair_str qid aid) = None;
  ok_solvent : ∀ u, (0 ≤ balance (points w) u)%Z
}.

(** ** Sums and counts *)
Lemma held_insert w u qid q :
  held (set_questions <[qid := q]> w) u =
  (held w u - from_option (held_of u) 0%Z (questions w !! qid) + held_of u q)%Z.
Proof.
  unfold held. simpl. rewrite fmap_insert, sum_map_insert, lookup_fmap.
  destruct (questions w !! qid); simpl; lia.
Qed.

Lemma accepted_insert_unaccepted qid aid a l :
  l !! aid = None → is_accepted a = false → accepted_in qid (<[aid := a]> l) = accepted_in qid l.
Proof.
  intros Hl Ha. unfold accepted_in. apply map_filter_insert_not'; [intros [_ ?]; simpl in *; congruence|].
  intros y Hy. congruence.
Qed.

Lemma size_accepted_mark qid aid a l :
  l !! aid = Some a → is_accepted a = false →
  Z.of_nat (size (accepted_in qid (<[aid := mark_accepted a]> l))) =
  (Z.of_nat (size (accepted_in qid l)) + if decide (question_id a = qid) then 1 else 0)%Z.
Proof.
  intros Hl Ha. unfold accepted_in. case_decide as Hq.
  - rewrite map_filter_insert_True by done. rewrite map_size_insert_None; [lia|].
    apply map_lookup_filter_None. right. intros a' Ha' [_ Hacc]. simpl in *. congruence.
  - rewrite map_filter_insert_not'; [lia|by intros [? _]|]. intros y Hy [? _]. simpl in *. congruence.
Qed.

(** A question does not notice changes elsewhere. *)
Lemma question_ok_frame w w' qid q :
  count_accepted qid w' = count_accepted qid w →
  (∀ aid a, answers w !! aid = Some a → ∃ a', answers w' !! aid = Some a'
     ∧ question_id a' = question_id a ∧ (is_accepted a = true → is_accepted a' = true)) →
  posted (points w') (author_id q) "qa_refund" (uuid_str qid) = posted (points w) (author_id q) "qa_refund" (uuid_str qid) →
  question_ok w qid q → question_ok w' qid q.
Proof.
  intros Hc Ha Hp []. split; rewrite ?Hc, ?Hp; try done.
  intros aid Haid. destruct (q_accepted0 aid Haid) as (a & Hl & Hq & Hacc).
  destruct (Ha aid a Hl) as (a' & Hl' & Hq' & Hacc'). exists a'. split_and!; [done|congruence|auto].
Qed.

(** ** The four transitions *)

(** *** Asking *)
Definition asked (qid : uuid) (q : QAQuestion) (p : P) (w : qa_world) : qa_world :=
  set_points p (set_questions <[qid := q]> w).

Lemma asked_ok qid q p' w :
  qa_ok w → questions w !! qid = None →
  (1 ≤ bounty_people q ∧ 0 ≤ bounty_per_person q ∧ bounty_total q = bounty_people q * bounty_per_person q)%Z →
  bounty_distributed q = 0%Z → status q = Open → accepted_answer_id q = None →
  (bounty_total q = 0%Z ∧ p' = points w
   ∨ posting (author_id q) (- bounty_total q) "qa_question" (uuid_str qid) (points w) p'
     ∧ (0 ≤ balance p' (author_id q))%Z) →
  qa_ok (asked qid q p' w) ∧ (∀ u, wealth (asked qid q p' w) u = wealth w u).
Proof.
  intros [Hq Ha Hnq Hna Hs] Hnew Hterms Hdist Hopen Hacc Hp.
  assert (Hpost : ∀ v rt ri, rt ≠ "qa_question"%string → posted p' v rt ri = posted (points w) v rt ri).
  { intros v rt ri Hrt. destruct Hp as [[_ ->]|[Hp _]]; [done|]. eapply posting_other; [exact Hp|auto]. }
  assert (Hno : ∀ aid a, answers w !! aid = Some a → question_id a ≠ qid).
  { intros aid a Haid Heq. destruct (Ha aid a Haid) as [(q0 & Hq0 & _) _]. congruence. }
  assert (Hzero : count_accepted qid w = 0%Z).
  { unfold count_accepted, accepted_in. rewrite map_empty_filter_2; [by rewrite map_size_empty|].
    intros aid a Haid [Hqa _]. by apply (Hno aid a). }
  split; [split|].
  - intros qid' q'. simpl. destruct (decide (qid' = qid)) as [->|Hne].
    + rewrite lookup_insert_eq. intros [= <-]. split; simpl; try tauto.
      * change (count_accepted qid (asked qid q p' w)) with (count_accepted qid w). rewrite Hzero. lia.
      * change (count_accepted qid (asked qid q p' w)) with (count_accepted qid w). lia.
      * by rewrite Hacc.
      * rewrite Hpost, decide_False by (done || tauto). apply (Hnq qid), Hnew.
    + rewrite lookup_insert_ne by done. intros Hq'. apply (question_ok_frame w); [done|eauto|by apply Hpost|by apply Hq].
  - intros aid a Haid. destruct (Ha aid a Haid) as [(q0 & Hq0 & Hau) Hun]. split; simpl.
    + exists q0. rewrite lookup_insert_ne; [done|]. intros ->. by apply (Hno aid a).
    + intros Hf. rewrite Hpost by done. auto.
  - intros qid' u. simpl. intros [Hl Hne]%lookup_insert_None. split; [|rewrite Hpost by done; by apply Hnq].
    destruct Hp as [[_ ->]|[Hp _]]; [by apply Hnq|].
    rewrite (posting_other _ _ _ _ _ _ _ _ _ Hp); [by apply Hnq|]. right. right. intros Heq. by apply uuid_str_inj in Heq.
  - intros aid qid' u Haid. simpl. rewrite Hpost by done. by apply Hna.
  - intros u. simpl. destruct Hp as [[_ ->]|[Hp Hb]]; [apply Hs|]. specialize (Hs u).
    rewrite (posting_balance _ _ _ _ _ _ u Hp). rewrite (posting_balance _ _ _ _ _ _ _ Hp) in Hb.
    destruct (decide (u = author_id q)) as [->|]; [by rewrite decide_True in Hb|lia].
  - intros u. unfold wealth. change (held (asked qid q p' w) u) with (held (set_questions <[qid := q]> w) u).
    rewrite held_insert, Hnew. simpl. unfold held_of. rewrite Hdist.
    destruct Hp as [[Ht ->]|[Hp _]]; [|rewrite (posting_balance _ _ _ _ _ _ _ Hp)];
      destruct (decide (author_id q = u)) as [<-|Hau].
    + rewrite decide_True by done. lia.
    + rewrite decide_False by tauto. lia.
    + rewrite !decide_True by done. lia.
    + rewrite !decide_False by (done || tauto || congruence). lia.
Qed.

(** *** Answering *)
Definition answered (aid : uuid) (a : QAAnswer) (w : qa_world) : qa_world := set_answers <[aid := a]> w.

Lemma answered_ok aid a q w :
  qa_ok w → answers w !! aid = None → questions w !! question_id a = Some q → author_id q ≠ answer_author a →
  is_accepted a = false → qa_ok (answered aid a w) ∧ (∀ u, wealth (answered aid a w) u = wealth w u).
Proof.
  intros [Hq Ha Hnq Hna Hs] Hnew Hql Hau Hf. split; [split|done].
  - intros qid q' Hq'. apply (question_ok_frame w); [|intros aid' a' Ha'|done|by apply Hq].
    + unfold count_accepted. simpl. by rewrite accepted_insert_unaccepted.
    + exists a'. simpl. rewrite lookup_insert_ne by congruence. done.
  - intros aid' a'. simpl. destruct (decide (aid' = aid)) as [->|Hne].
    + rewrite lookup_insert_eq. intros [= <-]. split; [eauto|]. intros _. by apply Hna.
    + rewrite lookup_insert_ne by done. intros Ha'. destruct (Ha aid' a' Ha') as [? ?]. by split.
  - done.
  - intros aid' qid u. simpl. intros [Hl _]%lookup_insert_None. by apply Hna.
  - done.
Qed.

(** *** Accepting *)
Definition paid (q : QAQuestion) : QAQuestion := if decide (0 < bounty_per_person q)%Z then pay_share q else q.

Definition accepted_world (qid : uuid) (q : QAQuestion) (aid : uuid) (a : QAAnswer) (p : P) (w : qa_world) : qa_world :=
  World (<[qid := set_accepted aid (paid q)]> (questions w)) (<[aid := mark_accepted a]> (answers w))
    p (clock w) (events w).

Lemma paid_fields q :
  (0 ≤ bounty_per_person q)%Z →
  author_id (paid q) = author_id q ∧ status (paid q) = status q ∧ bounty_people (paid q) = bounty_people q
  ∧ bounty_per_person (paid q) = bounty_per_person q ∧ bounty_total (paid q) = bounty_total q
  ∧ bounty_distributed (paid q) = (bounty_distributed q + bounty_per_person q)%Z.
Proof. intros Hnn. unfold paid. case_decide; simpl; split_and!; try done. lia. Qed.

Lemma count_accepted_world qid q aid a p w qid' :
  answers w !! aid = Some a → is_accepted a = false →
  count_accepted qid' (accepted_world qid q aid a p w) =
  (count_accepted qid' w + if decide (question_id a = qid') then 1 else 0)%Z.
Proof. intros. unfold count_accepted. simpl. by rewrite size_accepted_mark. Qed.

Lemma accepted_ok qid q aid a p' w :
  qa_ok w → questions w !! qid = Some q → answers w !! aid = Some a → question_id a = qid →
  is_accepted a = false → status q = Open → (count_accepted qid w < bounty_people q)%Z →
  (bounty_per_person q = 0%Z ∧ p' = points w
   ∨ posting (answer_author a) (bounty_per_person q) "qa_accept" (uuid_pair_str qid aid) (points w) p'
     ∧ (0 ≤ balance p' (answer_author a))%Z) →
  qa_ok (accepted_world qid q aid a p' w)
  ∧ (∀ u, wealth (accepted_world qid q aid a p' w) u =
       wealth w u + (if decide (u = answer_author a) then bounty_per_person q else 0)
                  - (if decide (u = author_id q) then bounty_per_person q else 0))%Z.
Proof.
  intros [Hq Ha Hnq Hna Hs] Hql Hal Hqa Hf Hopen Hroom Hp.
  destruct (Hq qid q Hql) as [Hterms Hpaid Hcount Hacc Hst Href].
  destruct (paid_fields q (proj1 (proj2 Hterms))) as (Fa & Fs & Fp & Fpp & Ft & Fd).
  assert (Hpost : ∀ v rt ri, rt ≠ "qa_accept"%string → posted p' v rt ri = posted (points w) v rt ri).
  { intros v rt ri Hrt. destruct Hp as [[_ ->]|[Hp _]]; [done|]. eapply posting_other; [exact Hp|auto]. }
  assert (Hpost2 : ∀ v qid2 aid2, aid2 ≠ aid → posted p' v "qa_accept" (uuid_pair_str qid2 aid2)
                     = posted (points w) v "qa_accept" (uuid_pair_str qid2 aid2)).
  { intros v qid2 aid2 Hne. destruct Hp as [[_ ->]|[Hp _]]; [done|]. eapply posting_other; [exact Hp|].
    right. right. intros Heq. by apply uuid_pair_str_inj in Heq as [_ ?]. }
  assert (Hbal : ∀ u, (balance p' u = balance (points w) u + if decide (u = answer_author a) then bounty_per_person q else 0)%Z).
  { intros u. destruct Hp as [[Hz ->]|[Hp _]]; [destruct (decide (u = answer_author a)); lia|]. by rewrite (posting_balance _ _ _ _ _ _ u Hp). }
  split; [split|].
  - intros qid' q'. simpl. destruct (decide (qid' = qid)) as [->|Hne].
    + rewrite lookup_insert_eq. intros [= <-].
      split; cbn [set_accepted author_id status bounty_people bounty_per_person bounty_total bounty_distributed accepted_answer_id];
        rewrite ?Fa, ?Fs, ?Fp, ?Fpp, ?Ft, ?Fd, ?(count_accepted_world qid q aid a p' w qid Hal Hf), ?decide_True by done;
        try lia.
      * intros aid' [= <-]. exists (mark_accepted a). simpl. by rewrite lookup_insert_eq.
      * by left.
      * simpl. rewrite Hpost, Href, !decide_False by (done || tauto). done.
    + rewrite lookup_insert_ne by done. intros Hq'. apply (question_ok_frame w); [| |by apply Hpost|by apply Hq].
      * rewrite (count_accepted_world qid q aid a p' w qid' Hal Hf), decide_False by congruence. lia.
      * intros aid' a' Ha'. simpl. destruct (decide (aid' = aid)) as [->|].
        -- exists (mark_accepted a). rewrite lookup_insert_eq. simplify_eq. done.
        -- exists a'. by rewrite lookup_insert_ne.
  - intros aid' a'. simpl. destruct (decide (aid' = aid)) as [->|Hne].
    + rewrite lookup_insert_eq. intros [= <-]. split; [|done]. destruct (Ha aid a Hal) as [(q0 & Hq0 & Hau) _].
      simpl. exists (set_accepted aid (paid q)). rewrite Hqa, lookup_insert_eq. split; [done|].
      simpl. rewrite Fa. congruence.
    + rewrite lookup_insert_ne by done. intros Ha'. destruct (Ha aid' a' Ha') as [(q0 & Hq0 & Hau) Hun].
      split; simpl; [|intros; rewrite Hpost2 by done; auto].
      destruct (decide (question_id a' = qid)) as [Heq|].
      * exists (set_accepted aid (paid q)). rewrite Heq, lookup_insert_eq. split; [done|]. simpl. rewrite Fa. congruence.
      * exists q0. by rewrite lookup_insert_ne.
  - intros qid' u. simpl. intros [Hl _]%lookup_insert_None. rewrite !Hpost by done. by apply Hnq.
  - intros aid' qid' u. simpl. intros [Hl Hne]%lookup_insert_None. rewrite Hpost2 by done. by apply Hna.
  - intros u. simpl. rewrite Hbal. specialize (Hs u). destruct Hterms as (_ & ? & _).
    destruct (decide (u = answer_author a)); lia.
  - intros u. unfold wealth. simpl. rewrite Hbal.
    change (held (accepted_world qid q aid a p' w) u) with (held (set_questions <[qid := set_accepted aid (paid q)]> w) u).
    rewrite held_insert, Hql. simpl. unfold held_of. simpl. rewrite Fa, Fs, Ft, Fd.
    destruct (decide (author_id q = u)) as [<-|Hau].
    + rewrite !(decide_True (P:=author_id q = author_id q ∧ _)) by done.
      rewrite (decide_True (P:=author_id q = author_id q)) by done.
      destruct (decide (author_id q = answer_author a)); lia.
    + rewrite !(decide_False (P:=author_id q = u ∧ _)) by tauto. rewrite (decide_False (P:=u = author_id q)) by congruence. lia.
Qed.

(** *** Settling *)
Definition final_status (q : QAQuestion) : question_status :=
  match accepted_answer_id q with Some _ => Accepted | None => Closed end.

Definition settled (qid : uuid) (q : QAQuestion) (p : P) (w : qa_world) : qa_world :=
  set_points p (set_questions <[qid := set_status (final_status q) q]> w).

Lemma settled_ok qid q p' w :
  qa_ok w → questions w !! qid = Some q → status q = Open →
  (bounty_total q - bounty_distributed q = 0 ∧ p' = points w
   ∨ 0 < bounty_total q - bounty_distributed q
     ∧ posting (author_id q) (bounty_total q - bounty_distributed q) "qa_refund" (uuid_str qid) (points w) p')%Z →
  qa_ok (settled qid q p' w) ∧ (∀ u, wealth (settled qid q p' w) u = wealth w u).
Proof.
  intros [Hq Ha Hnq Hna Hs] Hql Hopen Hp.
  destruct (Hq qid q Hql) as [Hterms Hpaid Hcount Hacc Hst Href].
  assert (Hpost : ∀ v rt ri, (rt ≠ "qa_refund" ∨ ri ≠ uuid_str qid)%string → posted p' v rt ri = posted (points w) v rt ri).
  { intros v rt ri Hrt. destruct Hp as [[_ ->]|[_ Hp]]; [done|]. eapply posting_other; [exact Hp|auto]. }
  assert (Hother : ∀ qid', qid' ≠ qid → uuid_str qid' ≠ uuid_str qid) by (intros ? Hne Heq; by apply Hne, uuid_str_inj).
  assert (Hbal : ∀ u, (balance p' u = balance (points w) u + if decide (u = author_id q) then bounty_total q - bounty_distributed q else 0)%Z).
  { intros u. destruct Hp as [[Hz ->]|[_ Hp]]; [destruct (decide (u = author_id q)); lia|]. by rewrite (posting_balance _ _ _ _ _ _ u Hp). }
  assert (Hfinal : final_status q ≠ Open) by (unfold final_status; by destruct (accepted_answer_id q)).
  split; [split|].
  - intros qid' q'. simpl. destruct (decide (qid' = qid)) as [->|Hne].
    + rewrite lookup_insert_eq. intros [= <-].
      split; try done; simpl.
      * right. unfold final_status. destruct (accepted_answer_id q); split; try done; intros [? ?]; done.
      * destruct Hp as [[Hz ->]|[Hz Hp]].
        -- rewrite decide_False by lia. rewrite Href, decide_False by tauto. done.
        -- by rewrite (posting_self _ _ _ _ _ _ Hp), decide_True.
    + rewrite lookup_insert_ne by done. intros Hq'. apply (question_ok_frame w); [done|eauto| |by apply Hq].
      apply Hpost. auto.
  - intros aid a. simpl. intros Hal. destruct (Ha aid a Hal) as [(q0 & Hq0 & Hau) Hun]. split; simpl.
    + destruct (decide (question_id a = qid)) as [Heq|].
      * exists (set_status (final_status q) q). rewrite Heq, lookup_insert_eq. split; [done|]. simpl. congruence.
      * exists q0. by rewrite lookup_insert_ne.
    + intros Hf. rewrite Hpost by (by left). auto.
  - intros qid' u. simpl. intros [Hl Hne]%lookup_insert_None. rewrite !Hpost by auto. by apply Hnq.
  - intros aid qid' u Haid. simpl. rewrite Hpost by (by left). by apply Hna.
  - intros u. simpl. rewrite Hbal. specialize (Hs u). destruct Hp as [[Hz _]|[Hz _]]; destruct (decide (u = author_id q)); lia.
  - intros u. unfold wealth. simpl. rewrite Hbal.
    change (held (settled qid q p' w) u) with (held (set_questions <[qid := set_status (final_status q) q]> w) u).
    rewrite held_insert, Hql. simpl. unfold held_of. simpl.
    destruct (decide (author_id q = u)) as [<-|Hau].
    + rewrite (decide_True (P:=author_id q = author_id q ∧ _)) by done.
      rewrite (decide_True (P:=author_id q = author_id q)) by done. rewrite decide_False by tauto. lia.
    + rewrite !(decide_False (P:=author_id q = u ∧ _)) by tauto. rewrite decide_False by congruence. lia.
Qed.
(** ** The operations *)
Definition same_core (w w' : qa_world) : Prop :=
  questions w' = questions w ∧ answers w' = answers w ∧ points w' = points w.

Lemma qa_ok_core w w' : same_core w w' → qa_ok w → qa_ok w'.
Proof.
  destruct w, w'. intros (Eq & Ea & Ep) [Hq Ha Hnq Hna Hs]. simpl in *. subst.
  split; [|intros aid a Hl; destruct (Ha aid a Hl) as [? ?]; by split|done|done|done].
  intros qid q Hl. destruct (Hq qid q Hl) as [? ? ? ? ? ?]. by split.
Qed.

Lemma wealth_core w w' u : same_core w w' → wealth w' u = wealth w u.
Proof. intros (Eq & _ & Ep). unfold wealth, held. by rewrite Eq, Ep. Qed.

(** The state is consistent and everybody's wealth has changed by [g]. *)
Definition gains (w : qa_world) (g : uuid → Z) (w' : qa_world) : Prop :=
  qa_ok w' ∧ ∀ u, wealth w' u = (wealth w u + g u)%Z.

Lemma gains_core w g w1 w2 : same_core w1 w2 → gains w g w1 → gains w g w2.
Proof. intros Hc [Hok Hw]. split; [by eapply qa_ok_core|]. intros u. by rewrite (wealth_core _ _ u Hc). Qed.

Definition nobody : uuid → Z := λ _, 0%Z.

(** [share] goes from [payer] to [payee]. *)
Definition moves (payer payee : uuid) (share : Z) : uuid → Z := λ u,
  ((if decide (u = payee) then share else 0) - (if decide (u = payer) then share else 0))%Z.

Lemma wp_emit {A} e (K : M A) Q R w :
  (∀ w', same_core w w' → clock w' = clock w → wp K Q R w') → wp (emit e ≫= λ _, K) Q R w.
Proof. intros HK. unfold emit. wp_step. wp_step. by apply HK. Qed.

Lemma wp_via_reward u d r rt ri (Q : () → qa_world → Prop) R w :
  (∀ p', posted (points w) u rt ri = Some d → same_points (points w) p' → Q tt (set_points p' w)) →
  (∀ p', posting u d rt ri (points w) p' → (0 ≤ balance p' u)%Z → Q tt (set_points p' w)) →
  (∀ e p', same_points (points w) p' → R e (set_points p' w)) →
  wp (via_port (port_reward u d r rt ri)) Q R w.
Proof. intros H1 H2 H3. unfold via_port. wp_step. by apply wp_port_reward. Qed.

Lemma valid_question_terms i :
  valid_question i = true →
  (1 ≤ new_people i ≤ 10 ∧ 0 ≤ new_per_person i ∧ new_people i * new_per_person i ≤ 1000)%Z.
Proof.
  unfold valid_question, MAX_BOUNTY_POINTS. rewrite !andb_true_iff, !bool_decide_eq_true. tauto.
Qed.

Lemma create_question_ok qid author i w :
  qa_ok w → valid_question i = true →
  wp (create_question qid author i)
    (λ q w', gains w nobody w' ∧ questions w' !! qid = Some q ∧ status q = Open
       ∧ bounty_total q = (new_people i * new_per_person i)%Z) (λ _ _, True) w.
Proof.
  intros Hok Hv. apply valid_question_terms in Hv as (Hp1 & Hp2 & _).
  unfold create_question. cbv zeta. wp_step. wp_step. set (q := Question author _ _ _ _ _ _ _ _ _ _ _ _ _).
  unfold add_question. do 4 wp_step. wp_step; [done|].
  assert (Hnew : questions w !! qid = None).
  { unfold get_question_row in *. destruct (questions w !! qid); [|done].
    match goal with Hb : bool_decide _ = false |- _ => apply bool_decide_eq_false in Hb; exfalso; apply Hb; eauto end. }
  wp_step. wp_step. set (w1 := set_questions _ w).
  assert (Hterms : (1 ≤ bounty_people q ∧ 0 ≤ bounty_per_person q ∧ bounty_total q = bounty_people q * bounty_per_person q)%Z)
    by (simpl; lia).
  apply (wp_mono _ (λ _ w2, gains w nobody w2 ∧ questions w2 !! qid = Some q) _ (λ _ _, True)); [|intros [] w2 [Hg Hl]|done].
  - assert (Hend : ∀ p', (bounty_total q = 0%Z ∧ p' = points w
      ∨ posting author (- bounty_total q) "qa_question" (uuid_str qid) (points w) p' ∧ (0 ≤ balance p' author)%Z) →
      gains w nobody (set_points p' w1) ∧ questions (set_points p' w1) !! qid = Some q).
    { intros p' Hp. destruct (asked_ok qid q p' w Hok Hnew Hterms eq_refl eq_refl eq_refl Hp) as [H1 H2].
      split; [split; [exact H1|]|simpl; by rewrite lookup_insert_eq]. intros u. unfold nobody. rewrite Z.add_0_r. apply H2. }
    case_decide as Ht.
    + unfold via_port. wp_step. unfold wp. rewrite law_spend, decide_False by lia.
      apply (wp_port_reward author _ _ _ _ _ (λ _ _, True)); [|intros p' Hp Hb|done].
      * intros p' Hposted _. exfalso. destruct (ok_new_question _ Hok qid author Hnew) as [Hn _].
        by pose proof (eq_trans (eq_sym Hn) Hposted).
      * apply Hend. right. by split.
    + wp_step. destruct (Hend (points w)) as [Hg Hl]; [left; simpl in *; split; [lia|done]|]. by destruct w.
  - unfold _sync_question_content_item. apply wp_emit. intros w3 Hc3 _. apply wp_emit. intros w4 Hc4 _. wp_step.
    assert (Hc : same_core w2 w4) by (unfold same_core in *; intuition congruence).
    split_and!; [by eapply gains_core|destruct Hc as [-> _]; done|done|done].
Qed.

Lemma create_answer_ok aid qid author text w :
  qa_ok w → wp (create_answer aid qid author text) (λ _ w', gains w nobody w') (λ _ w', w' = w) w.
Proof.
  intros Hok. unfold create_answer. do 2 wp_step. wp_step. wp_step; [done|]. wp_step. wp_step; [done|].
  wp_step. wp_step; [done|]. wp_step. wp_step. wp_step. wp_step; [done|]. wp_step. wp_step. wp_step. wp_step; [done|].
  cbv zeta. wp_step. wp_step. apply wp_emit. intros w2 Hc _. wp_step.
  repeat match goal with Hb : bool_decide _ = false |- _ => apply bool_decide_eq_false in Hb end.
  eapply gains_core; [exact Hc|]. split.
  - eapply answered_ok; [done| |simpl; eassumption|simpl; congruence|done].
    destruct (answers w !! aid); [|done]. exfalso. eauto.
  - intros u. unfold nobody. rewrite Z.add_0_r. reflexivity.
Qed.

Lemma get_answer_Some aid qid w a :
  get_answer aid qid w = Some a ↔ answers w !! aid = Some a ∧ question_id a = qid.
Proof.
  unfold get_answer. rewrite bind_Some. split.
  - intros (a' & Hl & Hif). case_decide; naive_solver.
  - intros [Hl Hq]. exists a. split; [done|]. by rewrite decide_True.
Qed.

(** A newly accepted answer: one share has moved, the row is marked. *)
Definition newly_accepted (qid aid : uuid) (q : QAQuestion) (a : QAAnswer) (w w' : qa_world) : Prop :=
  gains w (moves (author_id q) (answer_author a) (bounty_per_person q)) w'
  ∧ questions w' !! qid = Some (set_accepted aid (paid q))
  ∧ answers w' !! aid = Some (mark_accepted a)
  ∧ count_accepted qid w' = (count_accepted qid w + 1)%Z.

Lemma newly_accepted_world qid aid q a p' w w' :
  qa_ok w → questions w !! qid = Some q → answers w !! aid = Some a → question_id a = qid →
  is_accepted a = false → status q = Open → (count_accepted qid w < bounty_people q)%Z →
  (bounty_per_person q = 0%Z ∧ p' = points w
   ∨ posting (answer_author a) (bounty_per_person q) "qa_accept" (uuid_pair_str qid aid) (points w) p'
     ∧ (0 ≤ balance p' (answer_author a))%Z) →
  same_core (accepted_world qid q aid a p' w) w' →
  newly_accepted qid aid q a w w'.
Proof.
  intros Hok Hql Hal Hqa Hf Hopen Hroom Hp Hc.
  destruct (accepted_ok qid q aid a p' w Hok Hql Hal Hqa Hf Hopen Hroom Hp) as [H1 H2].
  split_and!.
  - eapply gains_core; [exact Hc|]. split; [exact H1|]. intros u. rewrite H2. unfold moves. lia.
  - destruct Hc as [-> _]. simpl. by rewrite lookup_insert_eq.
  - destruct Hc as (_ & -> & _). simpl. by rewrite lookup_insert_eq.
  - pose proof (count_accepted_world qid q aid a p' w qid Hal Hf) as Hcnt.
    rewrite decide_True in Hcnt by done. unfold count_accepted in *. destruct Hc as (_ & -> & _). done.
Qed.

(** [accept_answer] past its guards. *)
Lemma wp_accept_body qid aid q a (Q : QAAnswer → qa_world → Prop) R w :
  qa_ok w → questions w !! qid = Some q → answers w !! aid = Some a → question_id a = qid →
  is_accepted a = false → status q = Open → (count_accepted qid w < bounty_people q)%Z →
  (∀ w', newly_accepted qid aid q a w w' → clock w' = clock w → Q (mark_accepted a) w') →
  (∀ e w', (∃ p', port_reward (answer_author a) (bounty_per_person q) "qa_accept" "qa_accept"
                    (uuid_pair_str qid aid) (points w) = (Raise e, p')) → R e w') →
  wp ((if decide (0 < bounty_per_person q)%Z
       then via_port (port_reward (answer_author a) (bounty_per_person q) "qa_accept" "qa_accept"
                        (uuid_pair_str qid aid));;
            update_question qid pay_share
       else mret tt);;
      modify (set_answers (alter mark_accepted aid));;
      update_question qid (set_accepted aid);;
      emit (PointsEvent (answer_author a) "answer_accepted" ("answer:" +:+ uuid_str aid));;
      emit (PointsEvent (author_id q) "qa_accept_notice" ("answer:" +:+ uuid_str aid));;
      emit BumpQa;;
      mret (mark_accepted a)) Q R w.
Proof.
  intros Hok Hql Hal Hqa Hf Hopen Hroom HQ HR. wp_step.
  apply (wp_mono _ (λ _ w1, clock w1 = clock w ∧ ∃ p', same_core (set_points p' (set_questions <[qid := paid q]> w)) w1
    ∧ (bounty_per_person q = 0%Z ∧ p' = points w
       ∨ posting (answer_author a) (bounty_per_person q) "qa_accept" (uuid_pair_str qid aid) (points w) p'
         ∧ (0 ≤ balance p' (answer_author a))%Z)) _ (λ e _, ∃ p', port_reward (answer_author a) (bounty_per_person q) "qa_accept" "qa_accept"
                    (uuid_pair_str qid aid) (points w) = (Raise e, p'))).
  - unfold paid. case_decide as Hpp.
    + wp_step. unfold via_port. wp_step. unfold wp.
      pose proof (law_reward (answer_author a) (bounty_per_person q) "qa_accept" "qa_accept" (uuid_pair_str qid aid) (points w)) as HL.
      destruct (port_reward _ _ _ _ _ _) as [[[]|e] p']; [|by exists p'].
      destruct HL as [[Hposted _]|HL].
      * exfalso. destruct (ok_answers _ Hok aid a Hal) as [_ Hun]. rewrite Hqa in Hun.
        by pose proof (eq_trans (eq_sym (Hun Hf)) Hposted).
      * unfold update_question, modify. simpl. split; [done|]. exists p'. split; [|by right].
        unfold same_core, set_questions, set_points. simpl. by rewrite (alter_as_insert pay_share _ _ q Hql).
    + wp_step. split; [done|]. exists (points w). destruct (q_terms _ _ _ (ok_questions _ Hok qid q Hql)) as (_ & ? & _).
      split; [|left; split; [lia|done]]. unfold same_core. simpl. by rewrite insert_id.
  - intros [] w1 (Hck & p' & Hc & Hp). wp_step. wp_step. unfold update_question. wp_step. wp_step.
    apply wp_emit. intros w2 Hc2 Hk2. apply wp_emit. intros w3 Hc3 Hk3. apply wp_emit. intros w4 Hc4 Hk4. wp_step.
    apply HQ; [|rewrite Hk4, Hk3, Hk2; exact Hck].
    apply (newly_accepted_world qid aid q a p' w); try done.
    destruct Hc as (E1 & E2 & E3), Hc2 as (F1 & F2 & F3), Hc3 as (G1 & G2 & G3), Hc4 as (J1 & J2 & J3).
    unfold same_core. rewrite J1, J2, J3, G1, G2, G3, F1, F2, F3. simpl. rewrite E1, E2, E3. simpl. split_and!; [|by rewrite (alter_as_insert _ _ _ a)|done].
    rewrite (alter_as_insert _ _ _ (paid q)) by (by rewrite lookup_insert_eq). by rewrite insert_insert_eq.
  - intros e w1 He. by apply HR.
Qed.

(** Why [accept_answer] refuses. *)
Definition accept_refused (qid aid asker : uuid) (w : qa_world) (e : err) : Prop :=
  match questions w !! qid with
  | None => e = QUESTION_NOT_FOUND
  | Some q =>
      (e = NOT_ASKER ∧ author_id q ≠ asker)
      ∨ (author_id q = asker ∧
         (e = QUESTION_NOT_OPEN ∧ status q ≠ Open
          ∨ e = BOUNTY_EXPIRED ∧ expired q (clock w) = true
          ∨ e = ANSWER_NOT_FOUND ∧ get_answer aid qid w = None
          ∨ ∃ a, get_answer aid qid w = Some a ∧ is_accepted a = false ∧
              (e = SELF_ACCEPT_FORBIDDEN ∧ answer_author a = asker
               ∨ e = BOUNTY_EXHAUSTED ∧ count_accepted qid w = bounty_people q
               ∨ ∃ p', port_reward (answer_author a) (bounty_per_person q) "qa_accept" "qa_accept"
                         (uuid_pair_str qid aid) (points w) = (Raise e, p'))))
  end.

(** Lemma behind the acceptance property, with the clock for later use. *)
Lemma wp_accept qid aid asker w :
  qa_ok w →
  wp (accept_answer qid aid asker)
    (λ a w', ∃ q, questions w !! qid = Some q ∧ author_id q = asker ∧ status q = Open
       ∧ expired q (clock w) = false ∧ clock w' = clock w
       ∧ (get_answer aid qid w = Some a ∧ is_accepted a = true ∧ w' = w
          ∨ ∃ a0, get_answer aid qid w = Some a0 ∧ is_accepted a0 = false ∧ a = mark_accepted a0
              ∧ answer_author a0 ≠ asker ∧ (count_accepted qid w < bounty_people q)%Z
              ∧ newly_accepted qid aid q a0 w w'))
    (λ e _, accept_refused qid aid asker w e) w.
Proof.
  intros Hok. unfold accept_answer, accept_refused, get_question_row. do 3 wp_step.
  apply wp_get_or_raise; [intros Hql; by rewrite Hql|intros q Hql]. rewrite Hql. wp_step.
  apply wp_raise_when; intros Hg; [apply bool_decide_eq_true in Hg; by left|apply bool_decide_eq_false in Hg].
  apply dec_stable in Hg. wp_step.
  apply wp_raise_when; intros Hopen; [apply bool_decide_eq_true in Hopen; tauto|apply bool_decide_eq_false in Hopen].
  apply dec_stable in Hopen. do 3 wp_step.
  apply wp_raise_when; intros Hexp; [tauto|]. do 3 wp_step.
  apply wp_get_or_raise; [intros Hn; tauto|intros a Hal]. destruct (is_accepted a) eqn:Hf.
  { wp_step. exists q. split_and!; try done. by left. }
  wp_step. apply wp_raise_when; intros Hself.
  { apply bool_decide_eq_true in Hself. right. split; [done|]. do 3 right. exists a. split_and!; try done.
    left. split; [done|congruence]. }
  apply bool_decide_eq_false in Hself. do 3 wp_step.
  apply get_answer_Some in Hal as Hal'. destruct Hal' as [Hal' Hqa].
  apply wp_raise_when; intros Hroom.
  { apply bool_decide_eq_true in Hroom. right. split; [done|]. do 3 right. exists a. split_and!; try done.
    right. left. split; [done|]. pose proof (q_count _ _ _ (ok_questions _ Hok qid q Hql)). lia. }
  apply bool_decide_eq_false in Hroom.
  apply (wp_accept_body qid aid q a); try done; [lia| |].
  - intros w' Hnew Hck. exists q. split_and!; try done. right. exists a. split_and!; try done; [congruence|lia].
  - intros e w' Hport. right. split; [done|]. do 3 right. exists a. split_and!; try done. by do 2 right.
Qed.

(** *** Settling *)
Lemma wp_settle qid q (Q : () → qa_world → Prop) R w :
  qa_ok w → questions w !! qid = Some q → status q = Open →
  (∀ w' p', w' = settled qid q p' w → gains w nobody w' → Q tt w') → (∀ e w', R e w') →
  wp (_settle_question qid q) Q R w.
Proof.
  intros Hok Hql Hopen HQ HR. unfold _settle_question. cbv zeta.
  assert (Hend : ∀ p', (bounty_total q - bounty_distributed q = 0 ∧ p' = points w
     ∨ 0 < bounty_total q - bounty_distributed q
       ∧ posting (author_id q) (bounty_total q - bounty_distributed q) "qa_refund" (uuid_str qid) (points w) p')%Z →
     Q tt (settled qid q p' w)).
  { intros p' Hp. destruct (settled_ok qid q p' w Hok Hql Hopen Hp) as [H1 H2].
    apply (HQ _ p' eq_refl). split; [exact H1|]. intros u. rewrite H2. unfold nobody. lia. }
  assert (Hupd : ∀ p', wp (update_question qid (λ q, set_status (final_status q) q)) Q R (set_points p' w) ↔ Q tt (settled qid q p' w)).
  { intros p'. unfold wp, update_question, modify, settled, set_questions, set_points. simpl.
    by rewrite (alter_as_insert (λ q, set_status (final_status q) q) _ _ q Hql). }
  assert (Hw : set_points (points w) w = w) by (by destruct w).
  assert (Hnn : (0 ≤ bounty_total q - bounty_distributed q)%Z).
  { destruct (ok_questions _ Hok qid q Hql) as [(_ & ? & ->) -> ? _ _ _]. nia. }
  wp_step. case_decide as Hpos.
  - apply wp_via_reward; [| |auto].
    + intros p' Hposted _. exfalso. pose proof (q_refund _ _ _ (ok_questions _ Hok qid q Hql)) as Hr.
      rewrite decide_False in Hr by tauto. by pose proof (eq_trans (eq_sym Hr) Hposted).
    + intros p' Hp _. apply Hupd, Hend. right. by split.
  - wp_step. rewrite <-Hw at 1. apply Hupd, Hend. left. split; [lia|done].
Qed.

Lemma gains_then w g w1 w2 : gains w g w1 → gains w1 nobody w2 → gains w g w2.
Proof.
  intros [_ H1] [Hok H2]. split; [done|]. intros u. rewrite H2, H1. unfold nobody. lia.
Qed.

Lemma gains_refl w : qa_ok w → gains w nobody w.
Proof. intros Hok. split; [done|]. intros u. unfold nobody. lia. Qed.

(** Closing, from the state in which the question is about to be settled. *)
Lemma wp_close_tail qid q g w0 w (Q : QAQuestion → qa_world → Prop) R :
  gains w0 g w → questions w !! qid = Some q → status q = Open →
  (∀ q' w', gains w0 g w' → questions w' !! qid = Some q' → status q' ≠ Open → answers w' = answers w → Q q' w') →
  (∀ e w', R e w') →
  wp (_settle_question qid q ≫= λ _, emit BumpQa ≫= λ _, gets (get_question_row qid) ≫= λ row,
      get_or_raise row QUESTION_NOT_FOUND) Q R w.
Proof.
  intros Hg Hql Hopen HQ HR. wp_step. apply (wp_settle qid q); [apply Hg|done|done| |done].
  intros w1 p' Hw1 Hg1. apply wp_emit. intros w2 Hc Hk. wp_step. wp_step.
  assert (Hq2 : questions w2 !! qid = Some (set_status (final_status q) q)).
  { destruct Hc as [-> _]. rewrite Hw1. simpl. by rewrite lookup_insert_eq. }
  unfold get_question_row. rewrite Hq2. apply HQ; [|done| |].
  - eapply gains_core; [exact Hc|]. by eapply gains_then.
  - simpl. unfold final_status. by destruct (accepted_answer_id q).
  - destruct Hc as (_ & -> & _). by rewrite Hw1.
Qed.

Lemma wp_close qid asker acc w :
  qa_ok w →
  wp (close_question qid asker acc)
    (λ q' w', ∃ q, questions w !! qid = Some q ∧ author_id q = asker ∧ status q = Open
       ∧ questions w' !! qid = Some q' ∧ status q' ≠ Open
       ∧ (gains w nobody w' ∧ answers w' = answers w
          ∨ ∃ aid a, acc = Some aid ∧ get_answer aid qid w = Some a ∧ is_accepted a = false
              ∧ gains w (moves asker (answer_author a) (bounty_per_person q)) w'
              ∧ answers w' !! aid = Some (mark_accepted a)))
    (λ _ _, True) w.
Proof.
  intros Hok. unfold close_question, get_question_row at 1. do 3 wp_step.
  apply wp_get_or_raise; [done|intros q Hql]. change (questions w !! qid = Some q) in Hql. wp_step.
  apply wp_raise_when; intros Hg; [done|]. apply bool_decide_eq_false, dec_stable in Hg. wp_step.
  apply wp_raise_when; intros Hopen; [done|]. apply bool_decide_eq_false, dec_stable in Hopen.
  assert (Hplain : wp (_settle_question qid q ≫= λ _, emit BumpQa ≫= λ _, gets (get_question_row qid) ≫= λ row,
      get_or_raise row QUESTION_NOT_FOUND) (λ q' w', ∃ q, questions w !! qid = Some q ∧ author_id q = asker ∧ status q = Open
       ∧ questions w' !! qid = Some q' ∧ status q' ≠ Open
       ∧ (gains w nobody w' ∧ answers w' = answers w
          ∨ ∃ aid a, acc = Some aid ∧ get_answer aid qid w = Some a ∧ is_accepted a = false
              ∧ gains w (moves asker (answer_author a) (bounty_per_person q)) w'
              ∧ answers w' !! aid = Some (mark_accepted a))) (λ _ _, True) w).
  { apply (wp_close_tail qid q nobody w); [by apply gains_refl|done|done| |done].
    intros q' w' Hg' Hq' Hst Ha. exists q. split_and!; try done. by left. }
  wp_step. destruct acc as [aid|]; [|wp_step; exact Hplain]. case_decide as Hacc; [|wp_step; exact Hplain].
  clear Hplain. wp_step. eapply wp_mono; [by apply wp_accept| |done].
  intros a w1 (q0 & Hq0 & _ & _ & _ & _ & Hcase). assert (q0 = q) as -> by congruence. wp_step. wp_step.
  apply wp_get_or_raise; [done|intros q1 Hq1]. change (questions w1 !! qid = Some q1) in Hq1.
  destruct Hcase as [(_ & _ & ->)|(a0 & Ha0 & Hf & -> & Hself & _ & (Hgain & Hq1' & Ha1 & _))].
  - assert (q1 = q) as -> by congruence.
    apply (wp_close_tail qid q nobody w); [by apply gains_refl|done|done| |done].
    intros q' w' Hg' Hq' Hst Ha. exists q. split_and!; try done. by left.
  - assert (q1 = set_accepted aid (paid q)) as -> by congruence.
    pose proof (q_terms _ _ _ (ok_questions _ Hok qid q Hql)) as (_ & Hnn & _).
    destruct (paid_fields q Hnn) as (Fa & Fs & _).
    apply (wp_close_tail qid _ (moves (author_id q) (answer_author a0) (bounty_per_person q)) w w1);
      [done|done|simpl; congruence| |done].
    intros q' w' Hg' Hq' Hst Ha. exists q. split_and!; try done. right. exists aid, a0. split_and!; try done.
    + by rewrite <-Hg.
    + by rewrite Ha.
Qed.

(** *** Expiring *)
Definition due (w : qa_world) : gmap uuid QAQuestion := filter (λ p, is_due (clock w) p.2 = true) (questions w).

Lemma is_due_spec now q :
  is_due now q = true ↔ status q = Open ∧ ∃ t, bounty_expires_at q = Some t ∧ (t ≤ now)%Z.
Proof.
  unfold is_due. rewrite andb_true_iff, bool_decide_eq_true. destruct (bounty_expires_at q) as [t|].
  - rewrite bool_decide_eq_true. naive_solver.
  - naive_solver.
Qed.

Lemma due_settled qid q p w :
  questions w !! qid = Some q → is_due (clock w) q = true →
  due (settled qid q p w) = delete qid (due w).
Proof.
  intros Hql Hdue. unfold due. simpl. rewrite map_filter_insert_False; [by rewrite map_filter_delete|].
  simpl. rewrite is_due_spec. simpl. unfold final_status. destruct (accepted_answer_id q); naive_solver.
Qed.

Lemma wp_settle_all l w :
  qa_ok w → NoDup l.*1 → (∀ qid q, (qid, q) ∈ l → questions w !! qid = Some q ∧ is_due (clock w) q = true) →
  wp (for_each l (λ p, _settle_question p.1 p.2))
    (λ _ w', gains w nobody w' ∧ clock w' = clock w ∧ answers w' = answers w
       ∧ size (due w) = size (due w') + length l
       ∧ (∀ qid q, (qid, q) ∈ l → ∃ q', questions w' !! qid = Some q' ∧ status q' ≠ Open)
       ∧ (∀ qid, qid ∉ l.*1 → questions w' !! qid = questions w !! qid)) (λ _ _, True) w.
Proof.
  revert w. induction l as [|[qid q] l IH]; intros w Hok Hnd Hl; simpl.
  { wp_step. split_and!; [by apply gains_refl|done|done|lia| |done]. intros ? ? Hin. by apply not_elem_of_nil in Hin. }
  destruct (Hl qid q (list_elem_of_here _ _)) as [Hql Hdue]. apply is_due_spec in Hdue as Hdue'.
  destruct Hdue' as [Hopen _]. apply NoDup_cons in Hnd as [Hnotin Hnd].
  wp_step. apply (wp_settle qid q); [done|done|done| |done]. intros w1 p' -> Hg1. cbv beta.
  eapply wp_mono; [apply IH; [apply Hg1|exact Hnd|]| |done].
  - intros qid2 q2 Hin. destruct (Hl qid2 q2 (list_elem_of_further _ _ _ Hin)) as [Hq2 Hd2]. split; [|exact Hd2].
    simpl. rewrite lookup_insert_ne; [done|]. intros ->. apply Hnotin. apply list_elem_of_fmap. by exists (qid2, q2).
  - intros [] w2 (Hg2 & Hk2 & Ha2 & Hs2 & Hst & Hkeep).
    split_and!; [by eapply gains_then|by rewrite Hk2|by rewrite Ha2| | |].
    + rewrite (due_settled qid q p' w Hql Hdue) in Hs2.
      assert (Hin : due w !! qid = Some q) by (by apply map_lookup_filter_Some).
      rewrite map_size_delete_Some in Hs2 by eauto.
      assert (size (due w) ≠ 0); [|lia]. intros Hz%map_size_empty_inv. rewrite Hz in Hin. by rewrite lookup_empty in Hin.
    + intros qid2 q2 [[= -> ->]|Hin]%elem_of_cons; [|by eapply Hst].
      exists (set_status (final_status q) q). rewrite Hkeep by done. simpl. rewrite lookup_insert_eq.
      split; [done|]. simpl. unfold final_status. by destruct (accepted_answer_id q).
    + intros qid2 Hne. simpl in Hne. apply not_elem_of_cons in Hne as [Hne Hne'].
      rewrite Hkeep by done. simpl. by rewrite lookup_insert_ne.
Qed.

Lemma expired_for_update_spec limit w :
  let l := expired_for_update (clock w) limit w in
  NoDup l.*1 ∧ (∀ qid q, (qid, q) ∈ l → questions w !! qid = Some q ∧ is_due (clock w) q = true)
  ∧ length l = Nat.min limit (size (due w)).
Proof.
  cbv zeta. unfold expired_for_update. fold (due w).
  set (s := merge_sort due_before (map_to_list (due w))).
  assert (Hs : s ≡ₚ map_to_list (due w)) by apply merge_sort_Permutation. split_and!.
  - eapply sublist_NoDup; [|apply fmap_sublist, sublist_take]. rewrite Hs. apply NoDup_fst_map_to_list.
  - intros qid q Hin. assert (Hin' : (qid, q) ∈ s) by (eapply elem_of_sublist; [exact Hin|apply sublist_take]).
    rewrite Hs in Hin'. by apply elem_of_map_to_list, map_lookup_filter_Some in Hin'.
  - rewrite length_take. f_equal. by rewrite Hs, length_map_to_list.
Qed.

Lemma wp_expire limit w :
  qa_ok w →
  wp (expire_due_questions limit)
    (λ n w', gains w nobody w' ∧ clock w' = clock w ∧ answers w' = answers w
       ∧ n = Nat.min limit (size (due w)) ∧ size (due w) = size (due w') + n) (λ _ _, True) w.
Proof.
  intros Hok. unfold expire_due_questions. do 4 wp_step.
  destruct (expired_for_update_spec limit w) as (Hnd & Hin & Hlen). set (l := expired_for_update _ _ _) in *.
  wp_step. eapply wp_mono; [by apply wp_settle_all| |done]. intros [] w1 (Hg & Hk & Ha & Hs & _).
  wp_step. apply (wp_mono _ (λ _ w2, same_core w1 w2 ∧ clock w2 = clock w1) _ (λ _ _, True)); [| |done].
  - destruct (bool_decide _); [|by wp_step]. unfold emit. by wp_step.
  - intros [] w2 [Hc Hk2]. wp_step. split_and!; [by eapply gains_core|congruence| |done|].
    + destruct Hc as (_ & -> & _). done.
    + unfold due in *. destruct Hc as (-> & _). rewrite Hk2. exact Hs.
Qed.

(** ** Histories *)
Inductive qa_op :=
  | Ask (qid author : uuid) (i : QuestionCreate)
  | Reply (aid qid author : uuid) (text : string)
  | AcceptAnswer (qid aid asker : uuid)
  | CloseQuestion (qid asker : uuid) (accepted : option uuid)
  | ExpireDue (limit : nat).

(** The router only passes on requests that validate. *)
Definition op_valid (o : qa_op) : bool :=
  match o with Ask _ _ i => valid_question i | _ => true end.

Definition run_op (o : qa_op) (w : qa_world) : qa_world :=
  match o with
  | Ask qid author i => (transaction (create_question qid author i) w).2
  | Reply aid qid author text => (transaction (create_answer aid qid author text) w).2
  | AcceptAnswer qid aid asker => (transaction (accept_answer qid aid asker) w).2
  | CloseQuestion qid asker acc => (transaction (close_question qid asker acc) w).2
  | ExpireDue limit => (transaction (expire_due_questions limit) w).2
  end.

(** Time passes, and other components move points under their own references. *)
Inductive qa_step : qa_world → qa_world → Prop :=
  | step_op o w : op_valid o = true → qa_step w (run_op o w)
  | step_time t w : qa_step w (World (questions w) (answers w) (points w) t (events w))
  | step_points p' w :
      (∀ u rt ri, (rt = "qa_question" ∨ rt = "qa_refund" ∨ rt = "qa_accept")%string →
         posted p' u rt ri = posted (points w) u rt ri) →
      (∀ u, 0 ≤ balance p' u)%Z →
      qa_step w (set_points p' w).

Lemma transaction_case {A} (m : M A) (Q : A → qa_world → Prop) (I : qa_world → Prop) w :
  wp m Q (λ _ _, True) w → (∀ a w', Q a w' → I w') → I w → I (transaction m w).2.
Proof. unfold wp, transaction. destruct (m w) as [[a|e] w']; simpl; eauto. Qed.

(** What one committed or rolled-back operation does to everybody's wealth. *)
Definition op_gains (w : qa_world) (g : uuid → Z) (w' : qa_world) : Prop :=
  gains w nobody w' ∧ (∀ u, g u = 0%Z)
  ∨ gains w g w' ∧ ∃ qid q aid a, questions w !! qid = Some q ∧ get_answer aid qid w = Some a ∧ is_accepted a = false
      ∧ status q = Open ∧ answers w' !! aid = Some (mark_accepted a)
      ∧ g = moves (author_id q) (answer_author a) (bounty_per_person q).

Lemma run_op_gains o w : qa_ok w → op_valid o = true → ∃ g, op_gains w g (run_op o w).
Proof.
  intros Hok Hv. assert (Hnone : ∀ w', gains w nobody w' → ∃ g, op_gains w g w').
  { intros w' Hg. exists nobody. left. by split. }
  pose proof (Hnone w (gains_refl w Hok)) as Hrefl.
  destruct o as [qid author i|aid qid author text|qid aid asker|qid asker acc|limit]; cbn [run_op].
  - eapply (transaction_case _ _ (λ w', ∃ g, op_gains w g w')); [by apply create_question_ok| |done].
    intros q w' (Hg & _). auto.
  - eapply (transaction_case _ _ (λ w', ∃ g, op_gains w g w')); [eapply wp_mono; [by apply create_answer_ok| |done]| |done];
      [intros a w' Hg; exact Hg|auto].
  - eapply (transaction_case _ _ (λ w', ∃ g, op_gains w g w')); [eapply wp_mono; [by apply wp_accept| |done]| |done];
      [intros a w' Hg; exact Hg|].
    intros a w' (q & Hql & <- & Hopen & _ & _ & [(_ & _ & ->)|(a0 & Hl & Hf & -> & _ & _ & Hg & _ & Ha & _)]); [done|].
    exists (moves (author_id q) (answer_author a0) (bounty_per_person q)). right. split; [done|].
    by exists qid, q, aid, a0.
  - eapply (transaction_case _ _ (λ w', ∃ g, op_gains w g w')); [by apply wp_close| |done].
    intros q' w' (q & Hql & <- & Hopen & _ & _ & [[Hg _]|(aid & a & _ & Hl & Hf & Hg & Ha)]); [auto|].
    exists (moves (author_id q) (answer_author a) (bounty_per_person q)). right. split; [done|].
    by exists qid, q, aid, a.
  - eapply (transaction_case _ _ (λ w', ∃ g, op_gains w g w')); [by apply wp_expire| |done].
    intros n w' (Hg & _). auto.
Qed.

Lemma qa_step_ok w w' : qa_ok w → qa_step w w' → qa_ok w'.
Proof.
  intros Hok Hs. revert Hok. destruct Hs as [o w0 Hv|t w0|p' w0 Hp Hb]; intros Hok.
  - destruct (run_op_gains o w0 Hok Hv) as (g & [[[H _] _]|[[H _] _]]); exact H.
  - by apply (qa_ok_core w0).
  - destruct Hok as [Hq Ha Hnq Hna Hs]. split; simpl.
    + intros qid q Hl. apply (question_ok_frame w0); [done|eauto|apply Hp; tauto|by apply Hq].
    + intros aid a Hl. destruct (Ha aid a Hl) as [Hqa Hun]. split; [done|]. intros Hf. simpl. rewrite Hp by tauto. auto.
    + intros qid u Hl. rewrite !Hp by tauto. auto.
    + intros aid qid u Hl. rewrite Hp by tauto. auto.
    + done.
Qed.

(** ** Properties *)

(** C3: in every reachable state each question has paid exactly its share
    times the answers accepted, never for more people nor more points than it
    promised; its accepted answer is one of its own, written by somebody else;
    a question that is no longer open has had exactly its unpaid rest refunded
    to its asker, an open one nothing; and nobody is in debt. *)
Theorem bounty_invariant (w w' : qa_world) (Hok : qa_ok w) (Hr : rtc qa_step w w') (qid : uuid) (q : QAQuestion)
    (Hq : questions w' !! qid = Some q) :
  bounty_distributed q = (bounty_per_person q * count_accepted qid w')%Z
  ∧ (count_accepted qid w' ≤ bounty_people q)%Z
  ∧ (0 ≤ bounty_distributed q ≤ bounty_total q)%Z
  ∧ (∀ aid, accepted_answer_id q = Some aid → ∃ a, answers w' !! aid = Some a
       ∧ question_id a = qid ∧ is_accepted a = true ∧ answer_author a ≠ author_id q)
  ∧ posted (points w') (author_id q) "qa_refund" (uuid_str qid) =
      (if decide (status q ≠ Open ∧ bounty_distributed q < bounty_total q)%Z
       then Some (bounty_total q - bounty_distributed q)%Z else None)
  ∧ (∀ u, 0 ≤ balance (points w') u)%Z.
Proof.
  assert (Hok' : qa_ok w') by (eapply invariant_reachable; [exact Hok| |exact Hr]; intros; by eapply qa_step_ok).
  destruct (ok_questions _ Hok' qid q Hq) as [(H1 & H2 & H3) H4 H5 H6 H7 H8].
  split_and!; [done|done| | | | |apply Hok'].
  - rewrite H4. unfold count_accepted. nia.
  - rewrite H4, H3. nia.
  - intros aid Haid. destruct (H6 aid Haid) as (a & Hl & Hqa & Hacc). exists a. split_and!; try done.
    destruct (ok_answers _ Hok' aid a Hl) as [(q0 & Hq0 & Hne) _]. rewrite Hqa in Hq0. congruence.
  - rewrite H8. apply decide_ext. split; intros [? ?]; (split; [done|lia]).
Qed.

(** C2: no operation creates or destroys points. Counting what a user's open
    questions hold as theirs, asking, answering, closing, expiring and every
    failure leave each user's wealth as it was; accepting a new answer moves
    exactly one share from the asker to the answerer, and nothing else does. *)
Theorem escrow_conserved (o : qa_op) (w : qa_world) (Hok : qa_ok w) (Hv : op_valid o = true) :
  let w' := run_op o w in
  (∀ u, wealth w' u = wealth w u)
  ∨ ∃ qid q aid a,
      questions w !! qid = Some q ∧ status q = Open
      ∧ get_answer aid qid w = Some a ∧ is_accepted a = false ∧ answers w' !! aid = Some (mark_accepted a)
      ∧ ∀ u, wealth w' u = (wealth w u + (if decide (u = answer_author a) then bounty_per_person q else 0)
                             - (if decide (u = author_id q) then bounty_per_person q else 0))%Z.
Proof.
  cbv zeta. destruct (run_op_gains o w Hok Hv) as (g & [[[_ Hw] _]|[[_ Hw] (qid & q & aid & a & Hq & Ha & Hf & Hopen & Ha' & ->)]]).
  - left. intros u. rewrite Hw. unfold nobody. lia.
  - right. exists qid, q, aid, a. split_and!; try done. intros u. rewrite Hw. unfold moves. lia.
Qed.

(** Accepting an answer, on every branch. It succeeds only for the asker
    of an open, unexpired question and an answer to it; an answer accepted
    before is returned unchanged, another one is marked, recorded as the
    accepted one, counted, and paid its share. Every refusal is one of the
    listed ones under the listed condition, in that order, or a refusal of the
    points component itself. *)
Theorem accept_answer_correct (qid aid asker : uuid) (w : qa_world) (Hok : qa_ok w) :
  wp (accept_answer qid aid asker)
    (λ a w', ∃ q, questions w !! qid = Some q ∧ author_id q = asker ∧ status q = Open
       ∧ expired q (clock w) = false
       ∧ (get_answer aid qid w = Some a ∧ is_accepted a = true ∧ w' = w
          ∨ ∃ a0, get_answer aid qid w = Some a0 ∧ is_accepted a0 = false ∧ a = mark_accepted a0
              ∧ answer_author a0 ≠ asker ∧ (count_accepted qid w < bounty_people q)%Z
              ∧ answers w' !! aid = Some a
              ∧ questions w' !! qid = Some (set_accepted aid (paid q))
              ∧ count_accepted qid w' = (count_accepted qid w + 1)%Z))
    (λ e _, accept_refused qid aid asker w e) w.
Proof.
  eapply wp_mono; [by apply wp_accept| |done]. intros a w' (q & H1 & H2 & H3 & H4 & _ & H5). exists q.
  split_and!; try done. destruct H5 as [?|(a0 & G1 & G2 & -> & G3 & G4 & _ & G5 & G6 & G7)]; [by left|right].
  by exists a0.
Qed.

Lemma wp_expire_all fuel w :
  qa_ok w → size (due w) < fuel →
  wp (expire_qa_bounties fuel) (λ done w', done = true ∧ due w' = ∅ ∧ gains w nobody w' ∧ answers w' = answers w)
    (λ _ w', gains w nobody w') w.
Proof.
  revert w. induction fuel as [|fuel IH]; intros w Hok Hf; [lia|]. simpl. wp_step.
  apply (wp_mono _ (λ n w', gains w nobody w' ∧ clock w' = clock w ∧ answers w' = answers w
       ∧ n = Nat.min 100 (size (due w)) ∧ size (due w) = size (due w') + n) _ (λ _ w', w' = w)).
  - pose proof (wp_expire 100 w Hok) as H. unfold wp, transaction in *.
    destruct (expire_due_questions 100 w) as [[n|e] w']; [exact H|done].
  - intros n w1 (Hg & Hk & Ha & Hn & Hs). case_decide as Hlt.
    + wp_step. split_and!; [done| |done|done]. apply map_size_empty_inv. lia.
    + eapply wp_mono; [apply IH; [apply Hg|lia]| |].
      * intros b w2 (-> & Hd & Hg2 & Ha2). split_and!; [done|done|by eapply gains_then|congruence].
      * intros e w2 Hg2. by eapply gains_then.
  - intros e w1 ->. by apply gains_refl.
Qed.

(** C9: the expiry job stops. With one more round than there are due
    questions it never runs out of rounds: unless the points component refuses
    a refund, it ends with no due question left, having changed nobody's
    wealth and no answer; and if a refund is refused, the batches committed so
    far have not changed anybody's wealth either. *)
Theorem expire_job_terminates (fuel : nat) (w : qa_world) (Hok : qa_ok w) (Hf : size (due w) < fuel) :
  match expire_qa_bounties fuel w with
  | (Ok finished, w') => finished = true ∧ due w' = ∅ ∧ (∀ u, wealth w' u = wealth w u) ∧ answers w' = answers w
  | (Raise _, w') => ∀ u, wealth w' u = wealth w u
  end.
Proof.
  pose proof (wp_expire_all fuel w Hok Hf) as H. unfold wp in H.
  destruct (expire_qa_bounties fuel w) as [[b|e] w'].
  - destruct H as (-> & Hd & [_ Hw] & Ha). split_and!; try done. intros u. rewrite Hw. unfold nobody. lia.
  - destruct H as [_ Hw]. intros u. rewrite Hw. unfold nobody. lia.
Qed.
End qa.

Arguments qa_world P : clear implicits.
