(* ===== verification/QaPoints.v ===== *)
(** * Questions on the real points ledger

    The QA development is generic in the points component; here it runs on
    [Points], through the port of [PortsImpl.v]. The file holds the concrete
    inputs at which the QA properties are checked. *)

From S2P Require Import Prelude Points Ports PortsImpl Qa.

(** Alice has 100 points; nobody has asked anything. *)
Definition funded : Points.world := (Points.transaction (reward alice 100 "welcome" "welcome" "1" false) (empty_world 0)).2.

Definition start : qa_world Points.world := Qa.World ∅ ∅ funded 0 [].

Lemma funded_money :
  (∀ u, balance funded u = if decide (u = alice) then 100 else 0)%Z
  ∧ (∀ u rt ri, rt ≠ "welcome"%string → posted funded u rt ri = None).
Proof.
  unfold funded, Points.transaction. rewrite reward_run.
  assert (get_by_ref alice "welcome" "1" (empty_world 0) = None) as -> by reflexivity.
  assert (negb (int32 100) || negb (int32 (balance_of (empty_world 0) alice + 100)) = false) as -> by reflexivity.
  assert (false || bool_decide (0 ≤ balance_of (empty_world 0) alice + 100)%Z = true) as -> by reflexivity.
  cbn [snd]. set (w := locked alice (empty_world 0)). split.
  - intros u. destruct (same_money_announce [alice] (post alice 100 "welcome" "welcome" "1" w)) as [Hb _].
    cbn [balance points_port]. rewrite Hb, balance_of_post.
    destruct (same_money_locked alice (empty_world 0)) as [Hl _]. unfold w. rewrite Hl.
    unfold balance_of, get_value. simpl. rewrite lookup_empty. simpl. by case_decide.
  - intros u rt ri Hrt. cbn [posted points_port].
    destruct (same_money_announce [alice] (post alice 100 "welcome" "welcome" "1" w)) as [_ Hl].
    rewrite (get_by_ref_ledger u rt ri _ _ Hl). unfold get_by_ref. rewrite ledger_post. unfold w.
    destruct (same_money_locked alice (empty_world 0)) as [_ ->]. simpl.
    destruct (has_ref u rt ri _) eqn:Hh; [|done]. apply has_ref_true in Hh as (_ & Hr & _). by simpl in Hr.
Qed.

Lemma start_ok : qa_ok start.
Proof.
  destruct funded_money as [Hb Hp]. split; simpl.
  - intros qid q. by rewrite lookup_empty.
  - intros aid a. by rewrite lookup_empty.
  - intros qid u _. split; by apply Hp.
  - intros aid qid u _. by apply Hp.
  - intros u. specialize (Hb u). cbn [balance points_port] in Hb. rewrite Hb. case_decide; lia.
Qed.

Definition question_one : uuid := uuid_of_N 100.
Definition answer_one : uuid := uuid_of_N 200.

(** Two helpers at 15 points each, for a week. *)
Definition request : QuestionCreate :=
  NewQuestion "Which tyre?" "commuting" "Which tyre  for winter?" "help" 2 15 7 false [].

Lemma request_valid : valid_question request = true.
Proof. vm_compute. reflexivity. Qed.

Definition after_ask := run_op (Ask question_one alice request) start.
Definition after_reply := run_op (Reply answer_one question_one bob "Wide ones.") after_ask.
Definition after_accept := run_op (AcceptAnswer question_one answer_one alice) after_reply.
Definition after_close := run_op (CloseQuestion question_one alice None) after_accept.

Lemma after_reply_ok : qa_ok after_reply.
Proof.
  apply (qa_step_ok after_ask); [apply (qa_step_ok start _ start_ok)|].
  - apply step_op. exact request_valid.
  - apply step_op. reflexivity.
Qed.

Lemma reach_close : rtc qa_step start after_close.
Proof.
  apply (rtc_l _ _ after_ask); [apply step_op; exact request_valid|].
  apply (rtc_l _ _ after_reply); [apply step_op; reflexivity|].
  apply (rtc_l _ _ after_accept); [apply step_op; reflexivity|].
  apply rtc_once, step_op. reflexivity.
Qed.

Definition blank : QAQuestion := Question alice "" "" "" "" 0 0 0 0 None false Open None 0.

Lemma some_default {A} (d : A) (o : option A) : match o with Some _ => true | None => false end = true → o = Some (default d o).
Proof. by destruct o. Qed.

Definition closed_question : QAQuestion := default blank (questions after_close !! question_one).

Lemma closed_found : questions after_close !! question_one = Some closed_question.
Proof. apply some_default. vm_compute. reflexivity. Qed.

(** One share paid, the other refunded. *)
Lemma bounty_invariant_witness :
  bounty_distributed closed_question = (bounty_per_person closed_question * count_accepted question_one after_close)%Z
  ∧ bounty_distributed closed_question = 15%Z
  ∧ balance (Qa.points after_close) alice = 85%Z ∧ balance (Qa.points after_close) bob = 15%Z.
Proof.
  split; [exact (proj1 (bounty_invariant start after_close start_ok reach_close question_one closed_question closed_found))|].
  split_and!; vm_compute; reflexivity.
Defined.

Lemma escrow_conserved_witness :
  ((∀ u, wealth after_ask u = wealth start u)
   ∨ ∃ qid q aid a, questions start !! qid = Some q ∧ status q = Open
      ∧ get_answer aid qid start = Some a ∧ is_accepted a = false ∧ answers after_ask !! aid = Some (mark_accepted a)
      ∧ ∀ u, wealth after_ask u = (wealth start u + (if decide (u = answer_author a) then bounty_per_person q else 0)
                             - (if decide (u = author_id q) then bounty_per_person q else 0))%Z)
  ∧ balance (Qa.points after_ask) alice = 70%Z ∧ wealth after_ask alice = 100%Z.
Proof.
  split; [exact (escrow_conserved (Ask question_one alice request) start start_ok request_valid)|].
  split; vm_compute; reflexivity.
Defined.

Lemma accept_answer_correct_witness :
  wp (accept_answer question_one answer_one alice)
    (λ a _, is_accepted a = true) (λ _ _, False) after_reply.
Proof.
  pose proof (accept_answer_correct question_one answer_one alice after_reply after_reply_ok) as H.
  assert (Hrun : match (accept_answer question_one answer_one alice after_reply).1 with Ok _ => true | Raise _ => false end = true)
    by (vm_compute; reflexivity).
  unfold wp in *. destruct (accept_answer question_one answer_one alice after_reply) as [[a|e] w']; [|discriminate Hrun].
  destruct H as (q & _ & _ & _ & _ & [(_ & Ha & _)|(a0 & _ & _ & Ha & _)]); [exact Ha|rewrite Ha; reflexivity].
Defined.

(** A week and a moment later the question is due; the job refunds it. *)
Definition week_later : qa_world Points.world :=
  Qa.World (questions after_reply) (answers after_reply) (Qa.points after_reply) (days 7 + 1) (events after_reply).

Lemma week_later_ok : qa_ok week_later.
Proof. apply (qa_step_ok after_reply); [exact after_reply_ok|]. exact (step_time (days 7 + 1) after_reply). Qed.

Lemma week_later_due : size (due week_later) < 2.
Proof. apply (bool_decide_unpack _). vm_compute. exact I. Qed.

Lemma expire_job_terminates_witness :
  match expire_qa_bounties 2 week_later with
  | (Ok finished, w') => finished = true ∧ due w' = ∅ ∧ (∀ u, wealth w' u = wealth week_later u)
                         ∧ answers w' = answers week_later
  | (Raise _, w') => ∀ u, wealth w' u = wealth week_later u
  end
  ∧ size (due week_later) = 1
  ∧ balance (Qa.points (expire_qa_bounties 2 week_later).2) alice = 100%Z.
Proof.
  split; [exact (expire_job_terminates 2 week_later week_later_ok week_later_due)|].
  split; vm_compute; reflexivity.
Defined.
