(* ===== verification/Events.v ===== *)
(** * Events: topics, payloads and their contract

    Model of [core/bus/topics.py] (routing keys, topics, subscriptions and the
    namespace check made at start-up), [core/event_contract.py] (the table of
    event contracts and the check of one envelope), [core/bus/contracts.py] and
    [core/bus/schema.py] (which publications can never succeed), [_jsonable] of
    [core/db/outbox.py], and the payloads the modules of the repository emit.

    A Python object placed in a payload is a [value]; [VOther] stands for the
    objects JSON cannot encode. Messages are values of a type of problems
    rather than strings. *)

From S2P Require Import Prelude.

(** ** Values *)
Inductive value :=
  | VNone
  | VBool (b : bool)
  | VInt (z : Z)
  | VFloat (lexeme : string)
  | VStr (s : string)
  | VList (l : list value)
  | VTuple (l : list value)
  | VDict (d : list (string * value))
  | VUuid (u : uuid)
  | VOther.

Section value_ind.
Variable Q : value → Prop.
Hypothesis HNone : Q VNone.
Hypothesis HBool : ∀ b, Q (VBool b).
Hypothesis HInt : ∀ z, Q (VInt z).
Hypothesis HFloat : ∀ s, Q (VFloat s).
Hypothesis HStr : ∀ s, Q (VStr s).
Hypothesis HList : ∀ l, Forall Q l → Q (VList l).
Hypothesis HTuple : ∀ l, Forall Q l → Q (VTuple l).
Hypothesis HDict : ∀ d, Forall (λ p, Q p.2) d → Q (VDict d).
Hypothesis HUuid : ∀ u, Q (VUuid u).
Hypothesis HOther : Q VOther.

(** Induction through the lists and dictionaries. *)
Fixpoint value_ind' (v : value) : Q v :=
  let fix go (l : list value) : Forall Q l :=
    match l with [] => Forall_nil_2 _ | x :: l => Forall_cons_2 _ _ _ (value_ind' x) (go l) end in
  let fix god (d : list (string * value)) : Forall (λ p, Q p.2) d :=
    match d with [] => Forall_nil_2 _ | p :: d => Forall_cons_2 _ p _ (value_ind' p.2) (god d) end in
  match v with
  | VNone => HNone
  | VBool b => HBool b
  | VInt z => HInt z
  | VFloat s => HFloat s
  | VStr s => HStr s
  | VList l => HList l (go l)
  | VTuple l => HTuple l (go l)
  | VDict d => HDict d (god d)
  | VUuid u => HUuid u
  | VOther => HOther
  end.
End value_ind.

(** [_jsonable] *)
Fixpoint _jsonable (v : value) : value :=
  match v with
  | VUuid u => VStr (uuid_str u)
  | VDict d => VDict (map (λ p, (p.1, _jsonable p.2)) d)
  | VList l => VList (map _jsonable l)
  | VTuple l => VList (map _jsonable l)
  | _ => v
  end.

(** [json.loads(_encode_event(v))]: what arrives on the wire, or the
    [TypeError] of [json.dumps]. *)
Fixpoint on_wire (v : value) : option value :=
  match v with
  | VUuid _ | VOther => None
  | VList l | VTuple l =>
      VList <$> foldr (λ x acc, w ← on_wire x; ws ← acc; Some (w :: ws)) (Some []) l
  | VDict d =>
      VDict <$> foldr (λ p acc, w ← on_wire p.2; ws ← acc; Some ((p.1, w) :: ws)) (Some []) d
  | _ => Some v
  end.

(** ** Topics ([core/bus/topics.py]) *)

(** A module-level constant: a call that must not raise at import time. *)
Definition constant (o : outcome err string) : string := match o with Ok s => s | Raise _ => "" end.

Definition NAMESPACES : list string := ["auth"; "biz"; "system"]%string.

Fixpoint no_slash (s : string) : bool :=
  match s with
  | EmptyString => true
  | String c s => bool_decide (c ≠ "/"%char) && no_slash s
  end.

(** [s.split("/")] *)
Fixpoint split_slash (s : string) : list string :=
  match s with
  | EmptyString => [EmptyString]
  | String c r =>
      if decide (c = "/"%char) then EmptyString :: split_slash r
      else match split_slash r with
           | p :: ps => String c p :: ps
           | [] => [String c EmptyString]
           end
  end.

(** [parts[3]] of a well-formed topic. *)
Definition namespace_of (topic : string) : outcome err string :=
  match split_slash topic with
  | p0 :: p1 :: _ :: p3 :: _ :: _ =>
      if decide (p0 = "persistent:"%string ∧ p1 = EmptyString) then Ok p3 else Raise ValueError
  | _ => Raise ValueError
  end.

Section topics.
(** [settings.pulsar_tenant] *)
Variable tenant : string.

Definition topic_name (namespace name : string) : string :=
  ("persistent://" +:+ tenant +:+ "/" +:+ namespace +:+ "/" +:+ name)%string.

Definition _topic (namespace name : string) : outcome err string :=
  if decide (namespace ∈ NAMESPACES) then Ok (topic_name namespace name) else Raise ValueError.

Definition TOPIC_EMAIL := constant (_topic "auth" "email").
Definition TOPIC_USER_EVENTS := constant (_topic "auth" "user.events").
Definition TOPIC_AUDIT_LOGIN_FAIL := constant (_topic "auth" "audit.login_fail").
Definition TOPIC_AUDIT_PERMISSION_CHANGE := constant (_topic "auth" "audit.permission_change").
Definition TOPIC_NOTIFY := constant (_topic "biz" "notify.upload").
Definition TOPIC_POINTS := constant (_topic "biz" "points.apply").
Definition TOPIC_CONTENT := constant (_topic "biz" "content.events").
Definition TOPIC_CRON := constant (_topic "system" "cron").
Definition TOPIC_DLQ := constant (_topic "system" "dlq").

Definition ROUTING_KEY_TOPICS : list (string * string) :=
  [("event.send_code", TOPIC_EMAIL); ("event.send_magic_link", TOPIC_EMAIL);
   ("event.user.updated", TOPIC_USER_EVENTS); ("event.user.banned", TOPIC_USER_EVENTS);
   ("event.user.session_revoke", TOPIC_USER_EVENTS);
   ("audit.login_fail", TOPIC_AUDIT_LOGIN_FAIL);
   ("audit.permission_change", TOPIC_AUDIT_PERMISSION_CHANGE);
   ("event.notify_upload", TOPIC_NOTIFY); ("event.apply_point", TOPIC_POINTS);
   ("event.content.published", TOPIC_CONTENT); ("event.content.updated", TOPIC_CONTENT);
   ("event.content.deleted", TOPIC_CONTENT); ("event.file.changed", TOPIC_CONTENT);
   ("cron.cleanup", TOPIC_CRON); ("cron.reconcile", TOPIC_CRON); ("cron.analytics_export", TOPIC_CRON);
   ("cron.ops_daily", TOPIC_CRON); ("cron.bloom_seed", TOPIC_CRON); ("cron.review_digest", TOPIC_CRON)]%string.

Record Subscription := Sub { sub_name : string; sub_topic : string; sub_keys : list string }.

Definition SUBSCRIPTIONS : list Subscription :=
  [Sub "send" TOPIC_EMAIL ["event.send_code"; "event.send_magic_link"];
   Sub "notify" TOPIC_NOTIFY ["event.notify_upload"];
   Sub "points-reward" TOPIC_POINTS ["event.apply_point"];
   Sub "points-stats" TOPIC_POINTS ["event.apply_point"];
   Sub "points-tasks" TOPIC_POINTS ["event.apply_point"];
   Sub "notification" TOPIC_POINTS ["event.apply_point"];
   Sub "user-invalidate" TOPIC_USER_EVENTS
     ["event.user.updated"; "event.user.banned"; "event.user.session_revoke"];
   Sub "jobs" TOPIC_CRON ["cron.cleanup"; "cron.reconcile"; "cron.analytics_export"; "cron.ops_daily";
                          "cron.bloom_seed"; "cron.review_digest"];
   Sub "content-index" TOPIC_CONTENT ["event.content.published"; "event.content.updated";
                                      "event.content.deleted"; "event.file.changed"];
   Sub "audit" TOPIC_AUDIT_LOGIN_FAIL ["audit.login_fail"];
   Sub "audit-permission" TOPIC_AUDIT_PERMISSION_CHANGE ["audit.permission_change"];
   Sub "dlq-persist" TOPIC_DLQ []]%string.

Definition assert_that (c : bool) : outcome err () := if c then Ok tt else Raise ValueError.

Fixpoint check_all {A} (f : A → outcome err ()) (l : list A) : outcome err () :=
  match l with [] => Ok tt | x :: l => f x ≫= λ _, check_all f l end.

Definition check_subscription (sub : Subscription) : outcome err () :=
  sub_ns ← namespace_of (sub_topic sub);
  assert_that (bool_decide (sub_ns ∈ NAMESPACES)) ≫= λ _,
  check_all (λ rk,
    match dict_get rk ROUTING_KEY_TOPICS with
    | None => Raise ValueError
    | Some topic =>
        ns ← namespace_of topic;
        assert_that (bool_decide (ns = sub_ns)) ≫= λ _,
        assert_that (bool_decide (topic = sub_topic sub))
    end) (sub_keys sub).

Definition _validate_namespace_isolation : outcome err () :=
  check_all (λ p : string * string,
    ns ← namespace_of p.2; assert_that (bool_decide (ns ∈ NAMESPACES))) ROUTING_KEY_TOPICS ≫= λ _,
  check_all check_subscription SUBSCRIPTIONS.
End topics.

(** ** Contracts ([core/event_contract.py]) *)
Record Arg := MkArg { arg_name : string; kind : string; nullable : bool; optional : bool }.

Record EventContract := Contract { fn : string; routing_keys : list string; args : list Arg }.

Definition required (c : EventContract) : nat := length (filter (λ a, optional a = false) (args c)).
Definition maximum (c : EventContract) : nat := length (args c).

Definition str_arg (name : string) : Arg := MkArg name "str" false false.

Definition _cron (f rk : string) : EventContract := Contract f [rk] [].

Definition EVENT_CONTRACTS : list (string * EventContract) :=
  (λ c, (fn c, c)) <$>
  [Contract "send_code" ["event.send_code"] [str_arg "channel_key"; str_arg "contact"; str_arg "code"];
   Contract "send_magic_link" ["event.send_magic_link"] [str_arg "email"; str_arg "link"];
   Contract "invalidate_user_snap" ["event.user.updated"; "event.user.banned"; "event.user.session_revoke"]
     [str_arg "user_id"];
   Contract "record_audit_event" ["audit.login_fail"; "audit.permission_change"]
     [MkArg "user_id" "str" true false; str_arg "action"; MkArg "detail" "str" false true];
   Contract "notify_upload" ["event.notify_upload"] [str_arg "upload_id"];
   Contract "apply_point_event" ["event.apply_point"] [str_arg "user_id"; str_arg "event"; str_arg "ref_id"];
   Contract "apply_content_event" ["event.content.published"; "event.content.updated"; "event.content.deleted"]
     [str_arg "item_id"; str_arg "action"];
   Contract "apply_file_event" ["event.file.changed"] [str_arg "file_id"];
   _cron "cleanup_expired_uploads" "cron.cleanup"; _cron "archive_cold_files" "cron.cleanup";
   _cron "backup_approved_files" "cron.cleanup"; _cron "flush_content_counters" "cron.cleanup";
   _cron "purge_revoked_access_tokens" "cron.cleanup"; _cron "purge_stale_view_logs" "cron.cleanup";
   _cron "fanout_feed_items" "cron.reconcile"; _cron "reconcile_blog_repos" "cron.reconcile";
   _cron "reconcile_content_counts" "cron.reconcile"; _cron "reconcile_content_counts_full" "cron.reconcile";
   _cron "expire_qa_bounties" "cron.cleanup"; _cron "reconcile_user_dim" "cron.reconcile";
   _cron "export_analytics_clickhouse" "cron.analytics_export"; _cron "run_ops_daily" "cron.ops_daily";
   _cron "seed_user_id_bloom" "cron.bloom_seed"; _cron "send_review_digest" "cron.review_digest"]%string.

(** [EVENT_CONTRACTS.get(fn)] *)
Definition contract_of (f : string) : option EventContract := dict_get f EVENT_CONTRACTS.

Definition _WIRE_KINDS : list string := ["str"; "int"; "float"; "bool"; "list"; "dict"]%string.

(** Required arguments come first. *)
Fixpoint optional_last (seen : bool) (l : list Arg) : bool :=
  match l with
  | [] => true
  | a :: l => bool_decide (kind a ∈ _WIRE_KINDS)
              && (if optional a then optional_last true l else negb seen && optional_last seen l)
  end.

Definition _validate_registry (contracts : list (string * EventContract)) : outcome err () :=
  check_all (λ '(f, c),
    assert_that (bool_decide (f = fn c)) ≫= λ _,
    assert_that (bool_decide (routing_keys c ≠ [])) ≫= λ _,
    check_all (λ rk, assert_that (bool_decide (is_Some (dict_get rk (ROUTING_KEY_TOPICS ""))))) (routing_keys c) ≫= λ _,
    assert_that (optional_last false (args c))) contracts.

Definition _value_matches (v : value) (a : Arg) : bool :=
  match v with
  | VNone => nullable a
  | _ =>
      if decide (kind a = "str"%string) then match v with VStr _ => true | _ => false end
      else if decide (kind a = "int"%string) then match v with VInt _ => true | _ => false end
      else if decide (kind a = "float"%string) then match v with VInt _ | VFloat _ => true | _ => false end
      else if decide (kind a = "bool"%string) then match v with VBool _ => true | _ => false end
      else if decide (kind a = "list"%string) then match v with VList _ => true | _ => false end
      else match v with VDict _ => true | _ => false end
  end.

Inductive problem :=
  | NotAMapping
  | UnknownKeys (ks : list string)
  | BadFn
  | UnregisteredFn (f : string)
  | WrongRoutingKey (f rk : string)
  | ArgsNotAList
  | TooFewArgs (n : nat)
  | TooManyArgs (n : nat)
  | ArgMismatch (index : nat) (a : Arg)
  | BadEventId.

Definition _ENVELOPE_KEYS : list string := ["fn"; "args"; "event_id"]%string.

(** [d.get(k)]; the keys of a dictionary are unique. *)
Definition get_key (k : string) (d : list (string * value)) : option value := dict_get k d.

Fixpoint mismatches (i : nat) (vs : list value) (l : list Arg) : list problem :=
  match vs, l with
  | v :: vs, a :: l =>
      (if _value_matches v a then [] else [ArgMismatch i a]) ++ mismatches (S i) vs l
  | _, _ => []
  end.

Definition arg_problems (c : EventContract) (vs : list value) : list problem :=
  if decide (length vs < required c) then [TooFewArgs (length vs)]
  else if decide (maximum c < length vs) then [TooManyArgs (length vs)]
  else mismatches 0 vs (args c).

Definition event_id_problems (d : list (string * value)) : list problem :=
  match get_key "event_id" d with
  | None | Some VNone | Some (VStr _) => []
  | Some _ => [BadEventId]
  end.

Definition payload_violations (payload : value) (routing_key : option string) : list problem :=
  match payload with
  | VDict d =>
      let extra := filter (λ k, k ∉ _ENVELOPE_KEYS) d.*1 in
      (if decide (extra = []) then [] else [UnknownKeys extra]) ++
      match get_key "fn" d with
      | Some (VStr (String _ _ as f)) =>
          match contract_of f with
          | None => [UnregisteredFn f]
          | Some c =>
              match routing_key with
              | Some rk => if decide (rk ∈ routing_keys c) then [] else [WrongRoutingKey f rk]
              | None => []
              end ++
              match default (VList []) (get_key "args" d) with
              | VList vs => arg_problems c vs ++ event_id_problems d
              | _ => [ArgsNotAList]
              end
          end
      | _ => [BadFn]
      end
  | _ => [NotAMapping]
  end.

(** ** [core/bus/contracts.py] *)
Inductive reason :=
  | UnknownRoutingKey (rk : string)
  | NotEncodable
  | ContractViolation (problems : list problem)
  | Exhausted.

Definition contract_violations (rk : string) (payload : value) : list problem :=
  match on_wire payload with
  | None => []
  | Some wire => payload_violations wire (Some rk)
  end.

Definition permanent_failure_reason (rk : string) (payload : value) : option reason :=
  match dict_get rk (ROUTING_KEY_TOPICS "") with
  | None => Some (UnknownRoutingKey rk)
  | Some _ =>
      match on_wire payload with
      | None => Some NotEncodable
      | Some _ =>
          match contract_violations rk payload with
          | [] => None
          | problems => Some (ContractViolation problems)
          end
      end
  end.

(** [{**payload, "event_id": eid}] *)
Definition with_event_id (eid : string) (d : list (string * value)) : list (string * value) :=
  if decide ("event_id"%string ∈ d.*1)
  then (λ p, if decide (p.1 = "event_id"%string) then ("event_id"%string, VStr eid) else p) <$> d
  else d ++ [("event_id"%string, VStr eid)].

(** ** What the modules emit *)
Definition call (f : string) (vs : list value) : list (string * value) :=
  [("fn", VStr f); ("args", VList vs)]%string.

(** [points/rules.py: enqueue_points_event] *)
Definition points_event (u : uuid) (event ref : string) : string * list (string * value) :=
  ("event.apply_point", call "apply_point_event" [VUuid u; VStr event; VStr ref])%string.

(** [auth/events.py] *)
Definition notify_user_updated (u : uuid) := ("event.user.updated", call "invalidate_user_snap" [VUuid u])%string.
Definition notify_user_session_revoke (u : uuid) :=
  ("event.user.session_revoke", call "invalidate_user_snap" [VUuid u])%string.
Definition notify_user_banned (u : uuid) := ("event.user.banned", call "invalidate_user_snap" [VUuid u])%string.
Definition notify_audit_permission_change (u : uuid) (detail : string) :=
  ("audit.permission_change", call "record_audit_event"
     [VStr (uuid_str u); VStr "audit.permission_change"; VStr detail])%string.
Definition notify_audit_login_fail (u : option uuid) (why ip : string) :=
  let detail := if decide (ip = ""%string) then why else (why +:+ " ip=" +:+ ip)%string in
  ("audit.login_fail", call "record_audit_event"
     [match u with Some u => VStr (uuid_str u) | None => VNone end; VStr "audit.login_fail"; VStr detail])%string.

(** [content/events.py: enqueue_content_event], once the action is resolved. *)
Definition _ACTION_RKEYS : list (string * string) :=
  [("published", "event.content.published"); ("updated", "event.content.updated");
   ("deleted", "event.content.deleted")]%string.

Definition content_event (item : uuid) (action : string) : outcome err (string * list (string * value)) :=
  match dict_get action _ACTION_RKEYS with
  | Some rk => Ok (rk, call "apply_content_event" [VUuid item; VStr action])
  | None => Raise ValueError
  end.

(** [core/scheduler.py: _fire]; the payload already carries its event id. *)
Definition cron_message (f eid : string) : list (string * value) :=
  [("fn", VStr f); ("event_id", VStr eid)]%string.

(** [core/jobs.py] *)
Definition send_code (channel_key contact code : string) :=
  ("event.send_code", call "send_code" [VStr channel_key; VStr contact; VStr code])%string.
Definition send_magic_link (email link : string) :=
  ("event.send_magic_link", call "send_magic_link" [VStr email; VStr link])%string.

(** [files/service.py], [files/notify.py] *)
Definition file_event (file : uuid) := ("event.file.changed", call "apply_file_event" [VStr (uuid_str file)])%string.
Definition upload_event (upload : string) := ("event.notify_upload", call "notify_upload" [VStr upload])%string.

(** The payload as the outbox stores it. *)
Definition stored (d : list (string * value)) : list (string * value) :=
  (λ p, (p.1, _jsonable p.2)) <$> d.

(** ** Registration of handlers ([core/task_registry.py]) *)

(** The positional signature of a handler. *)
Record Handler := MkHandler { h_required : nat; h_positional : nat; h_varargs : bool }.

Inductive registration_error :=
  | NoContract | NeedsTooMany | TakesTooFew | UnknownSubscription | NeverCarried | CronWithArgs | CronWrongKey.

Definition handler_violation (f : string) (h : Handler) : option registration_error :=
  match contract_of f with
  | None => Some NoContract
  | Some c =>
      if h_varargs h then None
      else if decide (required c < h_required h) then Some NeedsTooMany
      else if decide (h_positional h < maximum c) then Some TakesTooFew
      else None
  end.

Definition _assert_subscription_carries (sub f : string) : option registration_error :=
  match List.find (λ s, bool_decide (sub_name s = sub)) (SUBSCRIPTIONS "") with
  | None => Some UnknownSubscription
  | Some s =>
      match contract_of f with
      | None => Some NoContract
      | Some c => if decide (Exists (λ rk, rk ∈ sub_keys s) (routing_keys c)) then None else Some NeverCarried
      end
  end.

(** [_TASK_HANDLERS]: subscription, fn, handler; a later entry overrides. *)
Definition registry := gmap (string * string) Handler.

Definition register_task (sub f : string) (h : Handler) (r : registry) : outcome registration_error registry :=
  match handler_violation f h with
  | Some e => Raise e
  | None =>
      match _assert_subscription_carries sub f with
      | Some e => Raise e
      | None => Ok (<[(sub, f) := h]> r)
      end
  end.

(** A cron declaration. *)
Record CronJob := Job { job_id : string; job_cron : string; job_key : string; job_fn : string; job_enabled : bool }.

Definition check_cron_job (rk f : string) : option registration_error :=
  match contract_of f with
  | None => Some NoContract
  | Some c =>
      match args c with
      | [] => if decide (rk ∈ routing_keys c) then None else Some CronWrongKey
      | _ => Some CronWithArgs
      end
  end.

(** A declaration with a known id replaces the earlier one in its place. *)
Definition register_cron_job (job : CronJob) (jobs : list CronJob) : outcome registration_error (list CronJob) :=
  match check_cron_job (job_key job) (job_fn job) with
  | Some e => Raise e
  | None =>
      if decide (Exists (λ j, job_id j = job_id job) jobs)
      then Ok ((λ j, if decide (job_id j = job_id job) then job else j) <$> jobs)
      else Ok (jobs ++ [job])
  end.

(** ** Lemmas *)
Lemma split_slash_app a b :
  no_slash a = true → split_slash (a +:+ "/" +:+ b) = a :: split_slash b.
Proof.
  induction a as [|c a IH]; intros Ha; [reflexivity|].
  simpl in Ha. apply andb_true_iff in Ha as [Hc%bool_decide_eq_true Ha].
  change (String c a +:+ "/" +:+ b)%string with (String c (a +:+ "/" +:+ b)). simpl.
  rewrite decide_False by done. by rewrite (IH Ha).
Qed.

Lemma namespace_of_topic tenant ns name :
  no_slash tenant = true → no_slash ns = true → namespace_of (topic_name tenant ns name) = Ok ns.
Proof.
  intros Ht Hn. unfold namespace_of, topic_name.
  assert (Hs : split_slash ("persistent://" +:+ tenant +:+ "/" +:+ ns +:+ "/" +:+ name) =
               "persistent:"%string :: ""%string :: tenant :: ns :: split_slash name).
  { change ("persistent://" +:+ tenant +:+ "/" +:+ ns +:+ "/" +:+ name)%string
      with ("persistent:" +:+ "/" +:+ ("" +:+ "/" +:+ (tenant +:+ "/" +:+ ns +:+ "/" +:+ name)))%string.
    rewrite !split_slash_app by done. done. }
  rewrite Hs. destruct (split_slash name) as [|p ps] eqn:Hp; [|by rewrite decide_True].
  exfalso. clear -Hp. destruct name as [|c r]; simpl in Hp; [done|]. case_decide; [done|].
  by destruct (split_slash r).
Qed.

Lemma mismatches_nil i vs l :
  mismatches i vs l = [] ↔ Forall2 (λ v a, _value_matches v a = true) (take (length l) vs) (take (length vs) l).
Proof.
  revert i l. induction vs as [|v vs IH]; intros i [|a l]; simpl; try (split; [constructor|done]).
  destruct (_value_matches v a) eqn:Hm; simpl.
  - rewrite IH. split; [by constructor|]. by intros [_ ?]%Forall2_cons.
  - split; [done|]. intros [? _]%Forall2_cons. congruence.
Qed.

(** What it means for an envelope to respect its contract. *)
Definition conforms (d : list (string * value)) (rk : option string) : Prop :=
  (∀ k, k ∈ d.*1 → k ∈ _ENVELOPE_KEYS)
  ∧ (∀ v, get_key "event_id" d = Some v → v = VNone ∨ ∃ e, v = VStr e)
  ∧ ∃ f c vs, get_key "fn" d = Some (VStr f) ∧ f ≠ ""%string ∧ contract_of f = Some c
      ∧ (∀ k, rk = Some k → k ∈ routing_keys c)
      ∧ default (VList []) (get_key "args" d) = VList vs
      ∧ required c ≤ length vs ≤ maximum c
      ∧ Forall2 (λ v a, _value_matches v a = true) vs (take (length vs) (args c)).

Lemma arg_problems_nil c vs :
  arg_problems c vs = [] ↔
  required c ≤ length vs ≤ maximum c ∧ Forall2 (λ v a, _value_matches v a = true) vs (take (length vs) (args c)).
Proof.
  unfold arg_problems. case_decide; [split; [done|lia]|]. case_decide; [split; [done|lia]|].
  rewrite mismatches_nil. unfold maximum in *. rewrite (take_ge vs) by lia. intuition lia.
Qed.

Lemma event_id_problems_nil d :
  event_id_problems d = [] ↔ ∀ v, get_key "event_id" d = Some v → v = VNone ∨ ∃ e, v = VStr e.
Proof.
  unfold event_id_problems. destruct (get_key "event_id" d) as [[]|]; naive_solver.
Qed.

Lemma check_all_ok {A} (f : A → outcome err ()) l : check_all f l = Ok tt ↔ Forall (λ x, f x = Ok tt) l.
Proof.
  induction l as [|x l IH]; simpl; [split; [constructor|done]|]. rewrite Forall_cons, <-IH.
  destruct (f x) as [[]|e]; simpl; naive_solver.
Qed.

(** A topic constant lives in the namespace it was declared in. *)
Lemma namespace_of_constant tenant ns name :
  no_slash tenant = true → ns ∈ NAMESPACES → namespace_of (constant (_topic tenant ns name)) = Ok ns.
Proof.
  intros Ht Hn. unfold _topic. rewrite decide_True by done. simpl. apply namespace_of_topic; [done|].
  apply list_elem_of_In in Hn. simpl in Hn. intuition (subst; reflexivity).
Qed.

Lemma assert_ok (Q : Prop) `{!Decision Q} : Q → assert_that (bool_decide Q) = Ok tt.
Proof. intros HQ. by rewrite bool_decide_true. Qed.

Lemma bind_assert {A} (Q : Prop) `{!Decision Q} (k : () → outcome err A) r :
  Q → k tt = r → (assert_that (bool_decide Q) ≫= k) = r.
Proof. intros HQ Hk. by rewrite assert_ok. Qed.

(** Evaluates the namespace of a topic constant and the guard that follows. *)
Ltac topic_step HT :=
  unfold TOPIC_EMAIL, TOPIC_NOTIFY, TOPIC_POINTS, TOPIC_USER_EVENTS, TOPIC_CRON,
    TOPIC_CONTENT, TOPIC_AUDIT_LOGIN_FAIL, TOPIC_AUDIT_PERMISSION_CHANGE, TOPIC_DLQ;
  rewrite HT by (apply (bool_decide_unpack _); reflexivity); cbn [mbind outcome_bind];
  first [apply bind_assert; [apply (bool_decide_unpack _); reflexivity|]
        |apply assert_ok; apply (bool_decide_unpack _); reflexivity].

(** ** Properties *)

(** The topology is sound for any tenant name without a slash: the
    start-up check of the namespaces passes, every routing key leads to a topic
    of its subscribers' namespace, and every routing key that can be published
    has a subscription consuming it from exactly that topic. *)
Theorem topology_consistent (tenant : string) (Ht : no_slash tenant = true) :
  _validate_namespace_isolation tenant = Ok tt
  ∧ ∀ rk topic, (rk, topic) ∈ ROUTING_KEY_TOPICS tenant →
      ∃ sub, sub ∈ SUBSCRIPTIONS tenant ∧ rk ∈ sub_keys sub ∧ sub_topic sub = topic.
Proof.
  pose proof (namespace_of_constant tenant) as HT. assert (HT' := λ ns name, HT ns name Ht).
  split.
  - assert (HR : check_all (λ p : string * string,
      ns ← namespace_of p.2; assert_that (bool_decide (ns ∈ NAMESPACES))) (ROUTING_KEY_TOPICS tenant) = Ok tt).
    { apply check_all_ok. unfold ROUTING_KEY_TOPICS. repeat apply Forall_cons_2; try apply Forall_nil_2; cbn [snd];
        topic_step HT'. }
    unfold _validate_namespace_isolation. rewrite HR. cbn [mbind outcome_bind].
    apply check_all_ok. unfold SUBSCRIPTIONS. repeat apply Forall_cons_2; try apply Forall_nil_2;
      unfold check_subscription; cbn [sub_topic sub_keys]; topic_step HT';
      apply check_all_ok; repeat apply Forall_cons_2; try apply Forall_nil_2;
      lazymatch goal with |- context [dict_get ?k (ROUTING_KEY_TOPICS tenant)] =>
        let v := eval hnf in (dict_get k (ROUTING_KEY_TOPICS tenant)) in
        change (dict_get k (ROUTING_KEY_TOPICS tenant)) with v end; cbn [snd];
      topic_step HT'; by apply assert_ok.
  - assert (HF : Forall (λ p, Exists (λ sub, p.1 ∈ sub_keys sub ∧ sub_topic sub = p.2) (SUBSCRIPTIONS tenant))
                   (ROUTING_KEY_TOPICS tenant)).
    { unfold ROUTING_KEY_TOPICS, SUBSCRIPTIONS. repeat apply Forall_cons_2; [..|constructor]; cbn [fst snd];
        repeat first [apply Exists_cons_hd; cbn [sub_keys sub_topic]; split; [apply (bool_decide_unpack _); reflexivity|reflexivity]
                     |apply Exists_cons_tl]. }
    intros rk topic Hin. rewrite Forall_forall in HF. specialize (HF _ Hin).
    apply Exists_exists in HF as (sub & Hsub & Hk & Htop). eauto.
Qed.

Lemma topology_consistent_witness : _validate_namespace_isolation "lkm" = Ok tt.
Proof. apply (topology_consistent "lkm"). reflexivity. Defined.

(** The check of an envelope reports no problem exactly when the envelope
    respects the contract of its function: known keys only, a registered
    function, carried by an allowed routing key, between the required and the
    maximal number of arguments, each of the declared wire type, and an event
    id that is a string or null. *)
Theorem payload_violations_correct (d : list (string * value)) (rk : option string) :
  payload_violations (VDict d) rk = [] ↔ conforms d rk.
Proof.
  unfold payload_violations, conforms. rewrite app_nil.
  assert (Hextra : (if decide (filter (λ k, k ∉ _ENVELOPE_KEYS) d.*1 = []) then []
                    else [UnknownKeys (filter (λ k, k ∉ _ENVELOPE_KEYS) d.*1)]) = []
                   ↔ ∀ k, k ∈ d.*1 → k ∈ _ENVELOPE_KEYS).
  { case_decide as He.
    - split; [|done]. intros _ k Hk. destruct (decide (k ∈ _ENVELOPE_KEYS)) as [|Hn]; [done|].
      assert (k ∈ filter (λ k, k ∉ _ENVELOPE_KEYS) d.*1) as Hf by (by apply list_elem_of_filter).
      rewrite He in Hf. by apply elem_of_nil in Hf.
    - split; [done|]. intros Hk. exfalso. apply He. 
      destruct (filter (λ k, k ∉ _ENVELOPE_KEYS) d.*1) as [|k ks] eqn:Hf; [done|].
      assert (k ∈ filter (λ k, k ∉ _ENVELOPE_KEYS) d.*1) as Hin by (rewrite Hf; apply list_elem_of_here).
      apply list_elem_of_filter in Hin as [Hn Hin]. exfalso. by apply Hn, Hk. }
  rewrite Hextra. clear Hextra. apply and_iff_compat_l.
  destruct (get_key "fn" d) as [[| | | |f| | | | |]|];
    try (split; [done|intros (_ & f' & ? & ? & Hf & _); discriminate]).
  destruct f as [|ch f]; [split; [done|intros (_ & f' & ? & ? & [= <-] & Hne & _); done]|].
  destruct (contract_of (String ch f)) as [c|] eqn:Hc;
    [|split; [done|intros (_ & f' & ? & ? & [= <-] & _ & Hf & _); congruence]].
  rewrite app_nil. destruct (default (VList []) (get_key "args" d)) as [| | | | |vs| | | |] eqn:Ha;
    try (split; [by intros [_ ?]|intros (_ & f' & ? & ? & _ & _ & _ & _ & Hl & _); congruence]).
  rewrite app_nil, arg_problems_nil, event_id_problems_nil. split.
  - intros (Hrk & Harg & He). split; [done|]. exists (String ch f), c, vs. split_and!; try done; try apply Harg.
    intros k ->. by case_decide.
  - intros (He & f' & c' & vs' & [= <-] & _ & Hc' & Hrk & [= <-] & Harg). simplify_eq. split_and!; try done; try apply Harg.
    destruct rk as [k|]; [|done]. by rewrite decide_True by auto.
Qed.

(** The values the outbox stores are the ones the wire carries. *)
Fixpoint plain (v : value) : bool :=
  match v with
  | VOther => false
  | VList l | VTuple l => forallb plain l
  | VDict d => forallb (λ p, plain p.2) d
  | _ => true
  end.

Lemma foldr_wire {A} (f : A → option value) (g : A → value) l :
  Forall (λ x, f x = Some (g x)) l →
  foldr (λ x acc, w ← f x; ws ← acc; Some (w :: ws)) (Some []) l = Some (map g l).
Proof. induction 1 as [|x l Hx Hl IH]; simpl; [done|]. by rewrite Hx, IH. Qed.

Lemma jsonable_list_on_wire l :
  Forall (λ v, plain v = true → on_wire (_jsonable v) = Some (_jsonable v)) l → forallb plain l = true →
  foldr (λ x acc, w ← on_wire x; ws ← acc; Some (w :: ws)) (Some []) (map _jsonable l) = Some (map _jsonable l).
Proof.
  intros IH Hp. rewrite forallb_forall in Hp. rewrite (foldr_wire _ id); [by rewrite map_id|].
  apply Forall_forall. intros x Hx. apply list_elem_of_In, in_map_iff in Hx as (y & <- & Hy).
  rewrite Forall_forall in IH. apply IH; [by apply list_elem_of_In|auto].
Qed.

Lemma jsonable_on_wire v : plain v = true → on_wire (_jsonable v) = Some (_jsonable v).
Proof.
  induction v as [| | | | |l IH|l IH|d IH| |] using value_ind'; simpl; intros Hp; try done.
  - by rewrite jsonable_list_on_wire.
  - by rewrite jsonable_list_on_wire.
  - assert (Hd : foldr (λ p acc, w ← on_wire p.2; ws ← acc; Some ((p.1, w) :: ws)) (Some [])
              (map (λ p, (p.1, _jsonable p.2)) d) = Some (map (λ p, (p.1, _jsonable p.2)) d)); [|by rewrite Hd].
    rewrite forallb_forall in Hp. induction IH as [|[k w] d Hw Hd IHd]; [done|]. simpl in *.
    rewrite Hw by (apply (Hp (k, w)); by left). simpl. rewrite IHd by auto. done.
Qed.

(** Envelopes built by [call] and completed by the relay conform when their
    arguments do. *)
Lemma failure_reason_none rk d topic :
  dict_get rk (ROUTING_KEY_TOPICS "") = Some topic →
  on_wire (VDict d) = Some (VDict d) → payload_violations (VDict d) (Some rk) = [] →
  permanent_failure_reason rk (VDict d) = None.
Proof.
  intros Hrk Hw Hv. unfold permanent_failure_reason, contract_violations. by rewrite Hrk, Hw, Hv.
Qed.

Ltac conforming :=
  eapply failure_reason_none; [reflexivity|reflexivity|];
  repeat match goal with |- context [uuid_str ?u] => generalize (uuid_str u); intro end; reflexivity.

Lemma registry_valid : _validate_registry EVENT_CONTRACTS = Ok tt.
Proof. vm_compute. reflexivity. Qed.

Lemma registered_keys_known f c rk :
  contract_of f = Some c → rk ∈ routing_keys c → is_Some (dict_get rk (ROUTING_KEY_TOPICS "")).
Proof.
  intros Hc Hrk. apply dict_get_elem in Hc.
  pose proof (proj1 (check_all_ok _ _) registry_valid) as Hv. rewrite Forall_forall in Hv.
  specialize (Hv _ Hc). simpl in Hv.
  apply outcome_bind_Ok in Hv as ([] & _ & Hv). apply outcome_bind_Ok in Hv as ([] & _ & Hv).
  apply outcome_bind_Ok in Hv as ([] & Hk & _). rewrite check_all_ok, Forall_forall in Hk.
  specialize (Hk _ Hrk). unfold assert_that in Hk. by case_bool_decide.
Qed.

Lemma cron_conforms rk f eid :
  check_cron_job rk f = None → permanent_failure_reason rk (VDict (cron_message f eid)) = None.
Proof.
  unfold check_cron_job. destruct (contract_of f) as [c|] eqn:Hc; [|done].
  destruct (args c) eqn:Ha; [|done]. case_decide as Hk; [|done]. intros _.
  destruct (registered_keys_known f c rk Hc Hk) as [topic Ht].
  apply (failure_reason_none rk _ topic Ht); [reflexivity|].
  destruct f as [|ch f]; [discriminate Hc|].
  change (payload_violations (VDict (cron_message (String ch f) eid)) (Some rk)) with
    (match contract_of (String ch f) with
     | None => [UnregisteredFn (String ch f)]
     | Some c => (if decide (rk ∈ routing_keys c) then [] else [WrongRoutingKey (String ch f) rk])
                 ++ arg_problems c [] ++ []
     end).
  rewrite Hc, decide_True by done. simpl. unfold arg_problems, required, maximum. rewrite Ha. reflexivity.
Qed.

(** C12: nothing the modules emit is refused by the relay: whatever the
    identifiers and texts, the message of every producer, with the event id
    added, has no permanent failure: its routing key is known, it can be
    encoded, and it respects the contract of its function. A cron job whose
    registration was accepted is published without a permanent failure. *)
Theorem producers_conform (eid : string) :
  let accepted (m : string * list (string * value)) :=
    permanent_failure_reason m.1 (VDict (with_event_id eid (stored m.2))) = None in
  (∀ u event ref, accepted (points_event u event ref))
  ∧ (∀ u, accepted (notify_user_updated u) ∧ accepted (notify_user_session_revoke u)
          ∧ accepted (notify_user_banned u))
  ∧ (∀ u detail, accepted (notify_audit_permission_change u detail))
  ∧ (∀ u why ip, accepted (notify_audit_login_fail u why ip))
  ∧ (∀ item action m, content_event item action = Ok m → accepted m)
  ∧ (∀ f, accepted (file_event f))
  ∧ (∀ upload, accepted (upload_event upload))
  ∧ (∀ ch contact code, accepted (send_code ch contact code))
  ∧ (∀ email link, accepted (send_magic_link email link))
  ∧ (∀ rk f, check_cron_job rk f = None → permanent_failure_reason rk (VDict (cron_message f eid)) = None).
Proof.
  cbv zeta. split_and!; intros; unfold points_event, notify_user_updated, notify_user_session_revoke,
    notify_user_banned, notify_audit_permission_change, notify_audit_login_fail, file_event, upload_event,
    send_code, send_magic_link, call; try conforming.
  - split_and!; conforming.
  - destruct u; conforming.
  - unfold content_event in H. destruct (dict_get action _ACTION_RKEYS) as [rk|] eqn:Ha; [|done].
    injection H as <-. apply dict_get_elem, list_elem_of_In in Ha. simpl in Ha. destruct_or! Ha; simplify_eq; conforming.
  - by apply cron_conforms.
Qed.
