(* ===== verification/Wiring.v ===== *)
(** * Wiring: the handlers and cron jobs of the repository

    Every [tasks.py] registers its handlers and cron jobs when it is imported
    ([core/task_registry.py]); the worker of a subscription looks a message's
    [fn] up in that registry ([core/worker.py: _on_payload]), and a Prefect
    deployment fires a job ([core/scheduler.py]). This file holds the calls the
    modules make, in the order of the files, with the positional signature of
    each handler. *)

From S2P Require Import Prelude Events.

(** A call [register_task(subscription, fn, handler)]. *)
Record Registration := Reg { r_sub : string; r_fn : string; r_handler : Handler }.

(** A handler that takes exactly [n] positional arguments. *)
Definition takes (n : nat) : Handler := MkHandler n n false.

Definition auth_tasks : list Registration :=
  [Reg "send" "send_code" (takes 3);
   Reg "send" "send_magic_link" (takes 2);
   Reg "user-invalidate" "invalidate_user_snap" (takes 1);
   Reg "jobs" "reconcile_user_dim" (takes 0);
   Reg "jobs" "export_analytics_clickhouse" (takes 0);
   Reg "jobs" "run_ops_daily" (takes 0);
   Reg "jobs" "seed_user_id_bloom" (takes 0);
   Reg "jobs" "purge_revoked_access_tokens" (takes 0);
   Reg "audit" "record_audit_event" (MkHandler 2 3 false);
   Reg "audit-permission" "record_audit_event" (MkHandler 2 3 false)]%string.

Definition auth_jobs : list CronJob :=
  [Job "reconcile_user_dim" "10 3 * * *" "cron.reconcile" "reconcile_user_dim" true;
   Job "analytics_export" "30 3 * * *" "cron.analytics_export" "export_analytics_clickhouse" true;
   Job "ops_daily" "40 3 * * *" "cron.ops_daily" "run_ops_daily" true;
   Job "seed_user_id_bloom" "50 3 * * *" "cron.bloom_seed" "seed_user_id_bloom" true;
   Job "purge_revoked_access_tokens" "0 4 * * *" "cron.cleanup" "purge_revoked_access_tokens" true]%string.

Definition admin_tasks : list Registration := [Reg "jobs" "send_review_digest" (takes 0)]%string.
Definition admin_jobs : list CronJob :=
  [Job "send_review_digest" "0 12 * * *" "cron.review_digest" "send_review_digest" true]%string.

Definition interaction_tasks : list Registration := [Reg "jobs" "purge_stale_view_logs" (takes 0)]%string.
Definition interaction_jobs : list CronJob :=
  [Job "purge_stale_view_logs" "0 3 * * *" "cron.cleanup" "purge_stale_view_logs" true]%string.

Definition notification_tasks : list Registration :=
  [Reg "notification" "apply_point_event" (takes 3)]%string.

Definition blog_tasks : list Registration := [Reg "jobs" "reconcile_blog_repos" (takes 0)]%string.
Definition blog_jobs : list CronJob :=
  [Job "reconcile_blog_repos" "0 4 * * 4" "cron.reconcile" "reconcile_blog_repos" true]%string.

Definition search_tasks : list Registration :=
  [Reg "content-index" "apply_content_event" (takes 2); Reg "content-index" "apply_file_event" (takes 1)]%string.

Definition content_tasks : list Registration :=
  [Reg "jobs" "flush_content_counters" (takes 0); Reg "jobs" "reconcile_content_counts" (takes 0);
   Reg "jobs" "reconcile_content_counts_full" (takes 0)]%string.

Section jobs.
(** [settings.counters_write_through] *)
Variable counters_write_through : bool.

Definition content_jobs : list CronJob :=
  [Job "flush_content_counters" "* * * * *" "cron.cleanup" "flush_content_counters" (negb counters_write_through);
   Job "reconcile_content_counts" "*/15 * * * *" "cron.reconcile" "reconcile_content_counts" true;
   Job "reconcile_content_counts_full" "0 4 * * *" "cron.reconcile" "reconcile_content_counts_full" true]%string.

Definition qa_tasks : list Registration := [Reg "jobs" "expire_qa_bounties" (takes 0)]%string.
Definition qa_jobs : list CronJob :=
  [Job "expire_qa_bounties" "0 * * * *" "cron.cleanup" "expire_qa_bounties" true]%string.

Definition files_tasks : list Registration :=
  [Reg "notify" "notify_upload" (takes 1); Reg "jobs" "cleanup_expired_uploads" (takes 0);
   Reg "jobs" "archive_cold_files" (takes 0); Reg "jobs" "backup_approved_files" (takes 0)]%string.
Definition files_jobs : list CronJob :=
  [Job "cleanup_expired_uploads" "0 * * * *" "cron.cleanup" "cleanup_expired_uploads" true;
   Job "archive_cold_files" "0 3 * * *" "cron.cleanup" "archive_cold_files" true;
   Job "backup_approved_files" "30 2 * * *" "cron.cleanup" "backup_approved_files" true]%string.

Definition points_tasks : list Registration :=
  [Reg "points-reward" "apply_point_event" (takes 3); Reg "points-stats" "apply_point_event" (takes 3);
   Reg "points-tasks" "apply_point_event" (takes 3)]%string.

Definition feed_tasks : list Registration := [Reg "jobs" "fanout_feed_items" (takes 0)]%string.
Definition feed_jobs : list CronJob :=
  [Job "fanout_feed_items" "*/2 * * * *" "cron.reconcile" "fanout_feed_items" true]%string.

Definition REGISTRATIONS : list Registration :=
  auth_tasks ++ admin_tasks ++ interaction_tasks ++ notification_tasks ++ blog_tasks ++ search_tasks
  ++ content_tasks ++ qa_tasks ++ files_tasks ++ points_tasks ++ feed_tasks.

Definition CRON_DECLARATIONS : list CronJob :=
  auth_jobs ++ admin_jobs ++ interaction_jobs ++ blog_jobs ++ content_jobs ++ qa_jobs ++ files_jobs ++ feed_jobs.

(** [import_task_modules]: the calls run one after the other; the first refusal
    stops the process. *)
Fixpoint register_all (regs : list Registration) (r : registry) : outcome registration_error registry :=
  match regs with
  | [] => Ok r
  | Reg sub f h :: regs => register_task sub f h r ≫= register_all regs
  end.

Fixpoint register_jobs (jobs acc : list CronJob) : outcome registration_error (list CronJob) :=
  match jobs with
  | [] => Ok acc
  | j :: jobs => register_cron_job j acc ≫= register_jobs jobs
  end.

(** [fire_cron_job]: the routing key and the message of a job. *)
Definition fire_cron_job (jobs : list CronJob) (eid id : string) : outcome err (string * list (string * value)) :=
  match List.find (λ j, bool_decide (job_id j = id)) jobs with
  | None => Raise ValueError
  | Some j => if job_enabled j then Ok (job_key j, cron_message (job_fn j) eid) else Raise ValueError
  end.
End jobs.

(** [_fire]: up to [_PUBLISH_ATTEMPTS] publications of the same message;
    [publish i] is the answer of the bus to attempt [i]. Returns how many
    attempts were made. *)
Definition _PUBLISH_ATTEMPTS : nat := 3.

Fixpoint fire_loop (publish : nat → bool) (attempt remaining : nat) : outcome err nat :=
  match remaining with
  | O => Raise RuntimeError
  | S remaining => if publish attempt then Ok attempt else fire_loop publish (S attempt) remaining
  end.

Definition _fire (publish : nat → bool) : outcome err nat := fire_loop publish 1 _PUBLISH_ATTEMPTS.

(** [_on_payload] of [core/worker.py] up to the dispatch: the handler that will
    run on a message of a subscription, and its arguments. *)
Definition on_payload (r : registry) (sub : string) (payload : value) (routing_key : option string)
  : outcome err (Handler * list value) :=
  match payload_violations payload routing_key with
  | _ :: _ => Raise ValueError
  | [] =>
      match payload with
      | VDict d =>
          match get_key "fn" d with
          | Some (VStr f) =>
              match r !! (sub, f) with
              | None => Raise ValueError
              | Some h =>
                  match default (VList []) (get_key "args" d) with VList vs => Ok (h, vs) | _ => Raise ValueError end
              end
          | _ => Raise ValueError
          end
      | _ => Raise ValueError
      end
  end.

(** A call of a handler with [n] positional arguments does not fail on its
    arity. *)
Definition accepts (h : Handler) (n : nat) : Prop :=
  h_required h ≤ n ∧ (h_varargs h = true ∨ n ≤ h_positional h).

(** ** Lemmas *)

(** Every subscription has, for every contract it can receive, a handler whose
    arity covers the contract's. *)
Definition covered (r : registry) : bool :=
  forallb (λ s, forallb (λ rk, forallb (λ fc,
    if decide (rk ∈ routing_keys fc.2) then
      match r !! (sub_name s, fc.1) with
      | Some h => bool_decide (h_required h ≤ required fc.2) && bool_decide (maximum fc.2 ≤ h_positional h)
      | None => false
      end
    else true) EVENT_CONTRACTS) (sub_keys s)) (SUBSCRIPTIONS "").

Lemma covered_spec r s rk f c :
  covered r = true → s ∈ SUBSCRIPTIONS "" → rk ∈ sub_keys s → contract_of f = Some c → rk ∈ routing_keys c →
  ∃ h, r !! (sub_name s, f) = Some h ∧ h_required h ≤ required c ∧ maximum c ≤ h_positional h.
Proof.
  unfold covered. rewrite forallb_forall. intros H Hs Hrk Hc Hk.
  specialize (H s). rewrite list_elem_of_In in Hs. specialize (H Hs). rewrite forallb_forall in H.
  specialize (H rk). rewrite list_elem_of_In in Hrk. specialize (H Hrk). rewrite forallb_forall in H.
  apply dict_get_elem, list_elem_of_In in Hc. specialize (H _ Hc). simpl in H.
  rewrite decide_True in H by done. destruct (r !! (sub_name s, f)) as [h|]; [|done].
  apply andb_true_iff in H as [H1%bool_decide_eq_true H2%bool_decide_eq_true]. eauto.
Qed.

Definition the_registry : registry :=
  match register_all REGISTRATIONS ∅ with Ok r => r | Raise _ => ∅ end.

Lemma registrations_run : register_all REGISTRATIONS ∅ = Ok the_registry.
Proof.
  unfold the_registry.
  assert (H : match register_all REGISTRATIONS ∅ with Ok _ => true | Raise _ => false end = true)
    by (vm_compute; reflexivity).
  by destruct (register_all REGISTRATIONS ∅).
Qed.

Lemma registry_covers : covered the_registry = true.
Proof. vm_compute. reflexivity. Qed.

Lemma conforming_parts d rk :
  payload_violations (VDict d) rk = [] →
  ∃ f c vs, get_key "fn" d = Some (VStr f) ∧ contract_of f = Some c
    ∧ (∀ k, rk = Some k → k ∈ routing_keys c)
    ∧ default (VList []) (get_key "args" d) = VList vs ∧ required c ≤ length vs ≤ maximum c.
Proof.
  unfold payload_violations. rewrite app_nil. intros [_ H].
  destruct (get_key "fn" d) as [[| | | |f| | | | |]|]; try done. destruct f as [|ch f]; [done|].
  destruct (contract_of (String ch f)) as [c|] eqn:Hc; [|done].
  rewrite app_nil in H. destruct H as [Hrk H].
  destruct (default (VList []) (get_key "args" d)) as [| | | | |vs| | | |] eqn:Ha; try done.
  rewrite app_nil, arg_problems_nil in H. destruct H as [[Hn _] _].
  exists (String ch f), c, vs. split_and!; try done; try lia.
  intros k ->. by case_decide.
Qed.

(** ** Properties *)

(** C11: the wiring is complete. The registrations of the repository all pass
    the start-up checks, and so do its cron declarations; and then a message
    that respects its contract on a routing key of a subscription never falls
    into the dead letters for want of a handler: the worker of the subscription
    finds a handler and calls it with a number of arguments it accepts. *)
Theorem delivery_is_handled (sub : Subscription) (rk : string) (d : list (string * value))
    (Hsub : sub ∈ SUBSCRIPTIONS "") (Hrk : rk ∈ sub_keys sub)
    (Hd : payload_violations (VDict d) (Some rk) = []) :
  ∃ r h vs, register_all REGISTRATIONS ∅ = Ok r
    ∧ on_payload r (sub_name sub) (VDict d) (Some rk) = Ok (h, vs)
    ∧ default (VList []) (get_key "args" d) = VList vs
    ∧ accepts h (length vs).
Proof.
  destruct (conforming_parts d (Some rk) Hd) as (f & c & vs & Hf & Hc & Hk & Ha & Hn).
  destruct (covered_spec the_registry sub rk f c registry_covers Hsub Hrk Hc (Hk _ eq_refl)) as (h & Hh & Hr & Hp).
  exists the_registry, h, vs. split_and!; [apply registrations_run| |done|].
  - unfold on_payload. by rewrite Hd, Hf, Hh, Ha.
  - split; [lia|right; lia].
Qed.

Lemma delivery_is_handled_witness :
  let sub := Sub "points-reward" (TOPIC_POINTS "") ["event.apply_point"%string] in
  let d := (call "apply_point_event" [VStr "u"; VStr "post_created"; VStr "r"])%string in
  ∃ r h vs, register_all REGISTRATIONS ∅ = Ok r
    ∧ on_payload r (sub_name sub) (VDict d) (Some "event.apply_point"%string) = Ok (h, vs)
    ∧ default (VList []) (get_key "args" d) = VList vs
    ∧ accepts h (length vs).
Proof.
  intros sub d. apply (delivery_is_handled sub "event.apply_point"%string d).
  - subst sub. unfold SUBSCRIPTIONS. do 2 apply list_elem_of_further. apply list_elem_of_here.
  - apply list_elem_of_here.
  - reflexivity.
Defined.

(** Every cron declaration of the repository is accepted; firing a job by
    its id publishes its message on its own routing key, where it respects its
    contract and the jobs subscription carries it; a paused job and an unknown
    id are refused; and a firing makes at most three attempts, failing only when
    the bus refused all three. *)
Theorem cron_jobs_correct (wt : bool) (eid id : string) :
  register_jobs (CRON_DECLARATIONS wt) [] = Ok (CRON_DECLARATIONS wt)
  ∧ match fire_cron_job (CRON_DECLARATIONS wt) eid id with
    | Ok (rk, body) =>
        permanent_failure_reason rk (VDict body) = None
        ∧ _assert_subscription_carries "jobs" (default ""%string (job_fn <$> List.find (λ j, bool_decide (job_id j = id)) (CRON_DECLARATIONS wt))) = None
    | Raise e => e = ValueError
        ∧ ∀ j, j ∈ CRON_DECLARATIONS wt → job_id j = id → job_enabled j = false
    end
  ∧ ∀ publish, _fire publish =
      (if publish 1 then Ok 1 else if publish 2 then Ok 2 else if publish 3 then Ok 3 else Raise RuntimeError).
Proof.
  split_and!.
  - destruct wt; reflexivity.
  - assert (Hall : Forall (λ j, check_cron_job (job_key j) (job_fn j) = None
                    ∧ _assert_subscription_carries "jobs" (job_fn j) = None) (CRON_DECLARATIONS wt))
      by (destruct wt; repeat constructor).
    assert (Huniq : NoDup (job_id <$> CRON_DECLARATIONS wt)) by (destruct wt; apply (bool_decide_unpack _); reflexivity).
    unfold fire_cron_job. destruct (List.find _ _) as [j|] eqn:Hj.
    + apply find_Some_elem in Hj as [Hin Hid%bool_decide_eq_true]. rewrite Forall_forall in Hall.
      destruct (Hall j Hin) as [Hc Hs]. destruct (job_enabled j) eqn:He.
      * split; [by apply cron_conforms|done].
      * split; [done|]. intros j' Hj' Hid'.
        assert (j' = j) as ->; [|done].
        apply list_elem_of_lookup in Hin as [a Ha]. apply list_elem_of_lookup in Hj' as [b Hb].
        rewrite (NoDup_alt (job_id <$> _)) in Huniq.
        assert (a = b) as ->; [|congruence].
        apply (Huniq a b id); rewrite list_lookup_fmap; [rewrite Ha|rewrite Hb]; simpl; congruence.
    + split; [done|]. intros j Hin Hid. apply (find_None_elem _ _ _ Hj) in Hin. by apply bool_decide_eq_false in Hin.
  - intros publish. unfold _fire. simpl. done.
Qed.
