(* ===== verification/Outbox.v ===== *)
(** * Outbox: reliable events from the database to the bus

    Model of [core/db/outbox.py] (the tables and [enqueue_outbox]),
    [core/outbox_relay.py] (claiming, publishing, settling and archiving rows),
    [core/db/outbox_archive.py], [core/db/event_failure.py] (failures and their
    replay) and [core/worker_dlq.py: requeue].

    Every function below is one database transaction of the code. The relay's
    transactions are interleaved freely by the relation [step], with crashes
    between any two of them. Times are seconds since an epoch; the value of
    [datetime.now] in a transaction, a fresh UUID and a claim token are
    arguments. *)

From S2P Require Import Prelude Events.

(** ** Tables *)
Inductive outbox_status := OUTBOX_PENDING | OUTBOX_PUBLISHED.
#[export] Instance outbox_status_eq_dec : EqDecision outbox_status.
Proof. unfold EqDecision, Decision. decide equality. Defined.

(** A claim token, [f"{_INSTANCE_ID}:{uuid4().hex}"]. *)
Definition token := positive.

Definition body := list (string * value).

Record OutboxMessage := Row {
  event_id : string;
  routing_key : string;
  payload_json : body;
  status : outbox_status;
  attempt_count : Z;
  created_at : Z;
  next_retry_at : Z;
  published_at : option Z;
  locked_at : option Z;
  locked_by : option token
}.

Record OutboxArchived := Archived {
  a_event_id : string; a_routing_key : string; a_payload : body;
  a_attempt_count : Z; a_created_at : Z; a_published_at : option Z; archived_at : Z
}.

Record EventFailure := Failure {
  f_event_id : string; f_routing_key : string; f_payload : body;
  f_attempt_count : Z; f_reason : reason; folded_at : Z; replayed_at : option Z
}.

Inductive dlq_status := DLQ_PENDING | DLQ_REQUEUED.

Record DlqMessage := Dlq {
  d_routing_key : string; d_payload : value; d_status : dlq_status; d_requeued_at : option Z
}.

Record db := Db {
  keys : gset string;                    (* outbox_event_keys *)
  outbox : gmap uuid OutboxMessage;      (* outbox_events *)
  archived : list OutboxArchived;        (* outbox_archived *)
  failures : gmap uuid EventFailure;     (* event_failures *)
  dlq : gmap uuid DlqMessage             (* dlq_messages *)
}.

Definition set_keys f d := Db (f (keys d)) (outbox d) (archived d) (failures d) (dlq d).
Definition set_outbox f d := Db (keys d) (f (outbox d)) (archived d) (failures d) (dlq d).
Definition set_archived f d := Db (keys d) (outbox d) (f (archived d)) (failures d) (dlq d).
Definition set_failures f d := Db (keys d) (outbox d) (archived d) (f (failures d)) (dlq d).
Definition set_dlq f d := Db (keys d) (outbox d) (archived d) (failures d) (f (dlq d)).

Definition MAX_TRIES : Z := 5.
Definition _BACKOFF_CAP_S : Z := 3600.

Definition _backoff_seconds (attempt : Z) : Z := Z.min (2 ^ attempt) _BACKOFF_CAP_S.

(** [settings], as far as the outbox reads it, and what makes the text of a reason
    too long for [event_failures.reason], a [String(255)]: the texts themselves
    quote keys, names and messages of the JSON library, and are not modelled. *)
Record Settings := MkSettings {
  message_bus_enabled : bool;
  outbox_lock_ttl_s : Z;
  pulsar_operation_timeout_s : Z;
  outbox_archive_retention_s : Z;
  outbox_archive_batch : nat;
  overlong : reason → bool
}.

(** ** Enqueueing *)
Definition in_outbox (e : string) (d : db) : bool :=
  existsb (λ p, bool_decide (event_id p.2 = e)) (map_to_list (outbox d)).
Definition in_archive (e : string) (d : db) : bool :=
  existsb (λ a, bool_decide (a_event_id a = e)) (archived d).
Definition in_failures (e : string) (d : db) : bool :=
  existsb (λ p, bool_decide (f_event_id p.2 = e)) (map_to_list (failures d)).

Definition _legacy_event_exists (e : string) (d : db) : bool :=
  in_outbox e d || in_archive e d || in_failures e d.

(** [select OutboxMessage.id where event_id = e and status = pending] *)
Definition active (e : string) (d : db) : bool :=
  existsb (λ p, bool_decide (event_id p.2 = e ∧ status p.2 = OUTBOX_PENDING)) (map_to_list (outbox d)).

Definition new_row (now : Z) (eid rk : string) (payload : body) : OutboxMessage :=
  Row eid rk (stored payload) OUTBOX_PENDING 0 now now None None None.

Section operations.
Variable settings : Settings.

(** [hex] is [uuid4().hex], [row_id] the row's new primary key. The columns
    hold 36 and 64 characters. *)
Definition enqueue_outbox (now : Z) (hex : string) (row_id : uuid)
    (rk : string) (payload : body) (event_id : option string) (replay : bool) : prog db err bool :=
  if negb (message_bus_enabled settings) then mret false else
  let eid := match event_id with Some (String _ _ as e) => e | _ => hex end in
  raise_when (replay && bool_decide (event_id = None)) ValueError ≫= λ _,
  raise_when (bool_decide (36 < String.length eid)) DataError ≫= λ _,
  d ← gets (λ d, d);
  let inserted := bool_decide (eid ∉ keys d) in
  modify (set_keys (λ ks, {[ eid ]} ∪ ks)) ≫= λ _,
  if negb inserted && negb replay then mret false else
  if inserted && bool_decide (is_Some event_id) && negb replay && _legacy_event_exists eid d then mret false else
  if replay && active eid d then mret false else
  raise_when (bool_decide (64 < String.length rk)) DataError ≫= λ _,
  modify (set_outbox <[row_id := new_row now eid rk payload]>) ≫= λ _,
  mret true.

(** ** The relay *)
Definition _claimable (now : Z) (m : OutboxMessage) : bool :=
  let stale_before := (now - Z.max (outbox_lock_ttl_s settings) (pulsar_operation_timeout_s settings + 10))%Z in
  bool_decide (status m = OUTBOX_PENDING) && bool_decide (next_retry_at m ≤ now)%Z
  && match locked_at m with None => true | Some t => bool_decide (t < stale_before)%Z end.

Definition _clear_lock (m : OutboxMessage) : OutboxMessage :=
  Row (event_id m) (routing_key m) (payload_json m) (status m) (attempt_count m) (created_at m)
      (next_retry_at m) (published_at m) None None.

Definition lock_row (now : Z) (t : token) (m : OutboxMessage) : OutboxMessage :=
  Row (event_id m) (routing_key m) (payload_json m) (status m) (attempt_count m) (created_at m)
      (next_retry_at m) (published_at m) (Some now) (Some t).

(** [ORDER BY attempt_count, id LIMIT 1] *)
Definition before (p q : uuid * OutboxMessage) : bool :=
  bool_decide (attempt_count p.2 < attempt_count q.2)%Z
  || (bool_decide (attempt_count p.2 = attempt_count q.2) && bool_decide (uuid_int p.1 < uuid_int q.1)%N).

Fixpoint first_row (l : list (uuid * OutboxMessage)) : option (uuid * OutboxMessage) :=
  match l with
  | [] => None
  | p :: l => match first_row l with
              | Some q => if before q p then Some q else Some p
              | None => Some p
              end
  end.

Definition claimable_rows (now : Z) (busy : gset uuid) (d : db) : list (uuid * OutboxMessage) :=
  filter (λ p, (p.1 ∉ busy) ∧ _claimable now p.2 = true) (map_to_list (outbox d)).

(** The claim of one row, committed. [busy] are the rows other transactions
    hold a row lock on, which [SKIP LOCKED] passes over. *)
Definition claim (now : Z) (busy : gset uuid) (t : token) (d : db) : option (uuid * OutboxMessage) * db :=
  match first_row (claimable_rows now busy d) with
  | None => (None, d)
  | Some (i, m) => (Some (i, lock_row now t m), set_outbox <[i := lock_row now t m]> d)
  end.

(** The second look at [can_publish]: the lease was lost after the claim. *)
Definition abandon (i : uuid) (t : token) (d : db) : db :=
  match outbox d !! i with
  | Some m => if decide (locked_by m = Some t) then set_outbox <[i := _clear_lock m]> d else d
  | None => d
  end.

(** What is handed to the bus. *)
Definition message_of (m : OutboxMessage) : body := with_event_id (event_id m) (payload_json m).

Definition reason_of (m : OutboxMessage) : option reason :=
  permanent_failure_reason (routing_key m) (VDict (message_of m)).

Definition fold_row (i fid : uuid) (now attempts : Z) (why : reason) (m : OutboxMessage) (d : db) : db :=
  set_outbox (delete i)
    (set_failures <[fid := Failure (event_id m) (routing_key m) (payload_json m) attempts why now None]> d).

Definition publish_row (now : Z) (m : OutboxMessage) : OutboxMessage :=
  Row (event_id m) (routing_key m) (payload_json m) OUTBOX_PUBLISHED (attempt_count m) (created_at m)
      (next_retry_at m) (Some now) None None.

Definition retry_row (now : Z) (m : OutboxMessage) : OutboxMessage :=
  let n := (attempt_count m + 1)%Z in
  Row (event_id m) (routing_key m) (payload_json m) (status m) n (created_at m)
      (now + _backoff_seconds n) (published_at m) None None.

(** The last transaction of an iteration: [why] and [ok] are the verdict on the
    payload and the answer of the bus. Returns whether a row was published. The
    text of a permanent failure goes into its column as it is: when it is too long
    the commit fails, the transaction is rolled back and the claim stays. *)
Definition settle (now : Z) (i : uuid) (t : token) (why : option reason) (ok : bool) (fid : uuid) (d : db)
  : outcome err bool * db :=
  match outbox d !! i with
  | None => (Ok false, d)
  | Some m =>
      if decide (locked_by m = Some t) then
        match why with
        | Some r => if overlong settings r then (Raise DataError, d) else (Ok false, fold_row i fid now (attempt_count m) r m d)
        | None =>
            if ok then (Ok true, set_outbox <[i := publish_row now m]> d)
            else if decide (MAX_TRIES ≤ attempt_count m + 1)%Z
            then (Ok false, fold_row i fid now (attempt_count m + 1) Exhausted m d)
            else (Ok false, set_outbox <[i := retry_row now m]> d)
        end
      else (Ok false, d)
  end.

(** ** Archiving *)
Definition archivable (now : Z) (m : OutboxMessage) : bool :=
  bool_decide (status m = OUTBOX_PUBLISHED)
  && match published_at m with
     | Some p => bool_decide (p < now - outbox_archive_retention_s settings)%Z
     | None => false
     end.

Definition archive_row (now : Z) (m : OutboxMessage) : OutboxArchived :=
  Archived (event_id m) (routing_key m) (payload_json m) (attempt_count m) (created_at m) (published_at m) now.

(** [ORDER BY id LIMIT n] *)
Definition id_le (p q : uuid * OutboxMessage) : Prop := (uuid_int p.1 ≤ uuid_int q.1)%N.
#[local] Instance id_le_dec p q : Decision (id_le p q).
Proof. unfold id_le. apply _. Defined.

Definition archive_published (now : Z) (busy : gset uuid) (d : db) : nat * db :=
  let rows := take (outbox_archive_batch settings)
                (merge_sort id_le (filter (λ p, (p.1 ∉ busy) ∧ archivable now p.2 = true) (map_to_list (outbox d)))) in
  (length rows,
   foldl (λ d p, set_outbox (delete p.1) (set_archived (λ a, a ++ [archive_row now p.2]) d)) d rows).

(** ** Manual replay *)
Definition mark_replayed (now : Z) (f : EventFailure) : EventFailure :=
  Failure (f_event_id f) (f_routing_key f) (f_payload f) (f_attempt_count f) (f_reason f) (folded_at f) (Some now).

Definition replay_failure (now : Z) (hex : string) (row_id fid : uuid)
    (routing_key : option string) (payload : option body) : prog db err bool :=
  d ← gets (λ d, d);
  match failures d !! fid with
  | None => mret false
  | Some f =>
      if bool_decide (is_Some (replayed_at f)) then mret false else
      if negb (message_bus_enabled settings) then mret false else
      let rk := default (f_routing_key f) routing_key in
      let b := default (f_payload f) payload in
      match permanent_failure_reason rk (VDict (with_event_id (f_event_id f) b)) with
      | Some _ => mret false
      | None =>
          queued ← enqueue_outbox now hex row_id rk b (Some (f_event_id f)) true;
          d ← gets (λ d, d);
          if negb queued && negb (active (f_event_id f) d) then mret false else
          modify (set_failures <[fid := mark_replayed now f]>) ≫= λ _,
          mret true
      end
  end.

(** [dlq_id.hex] is given as [id_hex]. *)
Definition requeue (now : Z) (hex : string) (row_id dlq_id : uuid) (id_hex : string)
    (routing_key : option string) (payload : option value) : prog db err bool :=
  d ← gets (λ d, d);
  match dlq d !! dlq_id with
  | Some (Dlq d_rk d_body DLQ_PENDING _) =>
      match default d_body payload with
      | VDict parsed =>
          if negb (message_bus_enabled settings) then mret false else
          let rk := default d_rk routing_key in
          match permanent_failure_reason rk (VDict parsed) with
          | Some _ => mret false
          | None =>
              let eid := match get_key "event_id" parsed with
                         | Some (VStr (String _ _ as e)) => e
                         | _ => id_hex
                         end in
              queued ← enqueue_outbox now hex row_id rk parsed (Some eid) true;
              d ← gets (λ d, d);
              if negb queued && negb (active eid d) then mret false else
              modify (set_dlq <[dlq_id := Dlq d_rk d_body DLQ_REQUEUED (Some now)]>) ≫= λ _,
              mret true
          end
      | _ => mret false
      end
  | _ => mret false
  end.

(** ** One round of the relay

    What the environment answers during one iteration of [relay_poll]: the two
    looks at [can_publish], the clock and the token of the claim, the rows
    locked by others, the answer of the bus (a lost acknowledgement is a
    publication the broker has accepted and the client counts as failed), the
    clock of the last transaction and the id of a possible failure row. *)
Inductive answer := Acked | LostAck | Refused.

Record Round := MkRound {
  can_publish1 : bool; can_publish2 : bool;
  claim_time : Z; claim_busy : gset uuid; claim_token : token;
  bus_answer : answer;
  settle_time : Z; failure_id : uuid
}.

(** [messaging.publish] under [wait_for]. *)
Definition publish (m : OutboxMessage) (a : answer) (bus : list (string * body)) : bool * list (string * body) :=
  match a with
  | Acked => (true, bus ++ [(routing_key m, message_of m)])
  | LostAck => (false, bus ++ [(routing_key m, message_of m)])
  | Refused => (false, bus)
  end.

Definition attempt (m : OutboxMessage) (a : answer) (bus : list (string * body)) : bool * list (string * body) :=
  match reason_of m with
  | Some _ => (false, bus)
  | None => publish m a bus
  end.

(** [relay_poll] with [batch] the number of rounds. A commit that fails ends it. *)
Fixpoint relay_poll (rounds : list Round) (succeeded : nat) (s : db * list (string * body))
  : outcome err nat * (db * list (string * body)) :=
  match rounds with
  | [] => (Ok succeeded, s)
  | r :: rounds =>
      if negb (can_publish1 r) then (Ok succeeded, s) else
      match claim (claim_time r) (claim_busy r) (claim_token r) s.1 with
      | (None, d) => (Ok succeeded, (d, s.2))
      | (Some (i, m), d) =>
          if negb (can_publish2 r) then (Ok succeeded, (abandon i (claim_token r) d, s.2)) else
          let '(ok, bus) := attempt m (bus_answer r) s.2 in
          match settle (settle_time r) i (claim_token r) (reason_of m) ok (failure_id r) d with
          | (Ok done, d') => relay_poll rounds (if (done : bool) then S succeeded else succeeded) (d', bus)
          | (Raise e, d') => (Raise e, (d', bus))
          end
      end
  end.

(** ** Interleavings *)

(** Where a relay stands between two of its transactions. *)
Inductive progress :=
  | Holding (i : uuid) (m : OutboxMessage) (t : token)
  | Sent (i : uuid) (m : OutboxMessage) (t : token) (why : option reason) (ok : bool).

Definition row_of (c : progress) := match c with Holding i _ _ | Sent i _ _ _ _ => i end.
Definition msg_of (c : progress) := match c with Holding _ m _ | Sent _ m _ _ _ => m end.
Definition tok_of (c : progress) := match c with Holding _ _ t | Sent _ _ t _ _ => t end.

Record world := World {
  w_db : db;
  w_bus : list (string * body);         (* what the broker has accepted *)
  w_relays : gmap nat progress;         (* relays in the middle of an iteration *)
  w_tokens : gset token                 (* every token ever drawn *)
}.

Definition set_db d w := World d (w_bus w) (w_relays w) (w_tokens w).

Definition empty_db : db := Db ∅ ∅ [] ∅ ∅.
Definition empty_world : world := World empty_db [] ∅ ∅.

Inductive step : world → world → Prop :=
  | step_enqueue w now hex row rk p e replay b d' :
      outbox (w_db w) !! row = None →
      enqueue_outbox now hex row rk p e replay (w_db w) = (Ok b, d') →
      step w (set_db d' w)
  | step_replay w now hex row fid rk p b d' :
      outbox (w_db w) !! row = None →
      replay_failure now hex row fid rk p (w_db w) = (Ok b, d') →
      step w (set_db d' w)
  | step_requeue w now hex row id idhex rk p b d' :
      outbox (w_db w) !! row = None →
      requeue now hex row id idhex rk p (w_db w) = (Ok b, d') →
      step w (set_db d' w)
  | step_dead_letter w id rk p :
      dlq (w_db w) !! id = None →
      step w (set_db (set_dlq <[id := Dlq rk p DLQ_PENDING None]> (w_db w)) w)
  | step_claim w r now busy t i m d' :
      w_relays w !! r = None → t ∉ w_tokens w →
      claim now busy t (w_db w) = (Some (i, m), d') →
      step w (World d' (w_bus w) (<[r := Holding i m t]> (w_relays w)) ({[ t ]} ∪ w_tokens w))
  | step_abandon w r i m t :
      w_relays w !! r = Some (Holding i m t) →
      step w (World (abandon i t (w_db w)) (w_bus w) (delete r (w_relays w)) (w_tokens w))
  | step_publish w r i m t a :
      w_relays w !! r = Some (Holding i m t) →
      step w (World (w_db w) (attempt m a (w_bus w)).2
                (<[r := Sent i m t (reason_of m) (attempt m a (w_bus w)).1]> (w_relays w)) (w_tokens w))
  | step_settle w r i m t why ok now fid :
      w_relays w !! r = Some (Sent i m t why ok) → failures (w_db w) !! fid = None →
      step w (World (settle now i t why ok fid (w_db w)).2 (w_bus w) (delete r (w_relays w)) (w_tokens w))
  | step_archive w now busy :
      step w (set_db (archive_published now busy (w_db w)).2 w)
  | step_crash w r :
      step w (World (w_db w) (w_bus w) (delete r (w_relays w)) (w_tokens w)).

(** The event [e] with routing key [rk] and payload [p] is on record. *)
Definition recorded (d : db) (e rk : string) (p : body) : Prop :=
  (∃ i m, outbox d !! i = Some m ∧ event_id m = e ∧ routing_key m = rk ∧ payload_json m = p)
  ∨ (∃ a, a ∈ archived d ∧ a_event_id a = e ∧ a_routing_key a = rk ∧ a_payload a = p)
  ∨ (∃ i f, failures d !! i = Some f ∧ f_event_id f = e ∧ f_routing_key f = rk ∧ f_payload f = p).

Definition delivered (w : world) (e rk : string) (p : body) : Prop := (rk, with_event_id e p) ∈ w_bus w.

Record row_ok (w : world) (m : OutboxMessage) : Prop := {
  ok_key : event_id m ∈ keys (w_db w);
  ok_attempts : (0 ≤ attempt_count m < MAX_TRIES)%Z;
  ok_published : status m = OUTBOX_PUBLISHED → delivered w (event_id m) (routing_key m) (payload_json m);
  ok_token : ∀ t, locked_by m = Some t → t ∈ w_tokens w
}.

Record progress_ok (w : world) (c : progress) : Prop := {
  ok_drawn : tok_of c ∈ w_tokens w;
  ok_row : ∀ j m', outbox (w_db w) !! j = Some m' → locked_by m' = Some (tok_of c) → j = row_of c ∧ m' = msg_of c;
  ok_sent : ∀ i m t why, c = Sent i m t why true →
      why = None ∧ delivered w (event_id m) (routing_key m) (payload_json m);
  ok_why : ∀ i m t why ok, c = Sent i m t why ok → why ≠ Some Exhausted
}.

Record inv (w : world) : Prop := {
  inv_rows : ∀ i m, outbox (w_db w) !! i = Some m → row_ok w m;
  inv_archived : ∀ a, a ∈ archived (w_db w) →
      a_event_id a ∈ keys (w_db w) ∧ delivered w (a_event_id a) (a_routing_key a) (a_payload a);
  inv_failures : ∀ i f, failures (w_db w) !! i = Some f →
      f_event_id f ∈ keys (w_db w) ∧ (0 ≤ f_attempt_count f ≤ MAX_TRIES)%Z
      ∧ (f_reason f = Exhausted ↔ f_attempt_count f = MAX_TRIES);
  inv_keys : ∀ e, e ∈ keys (w_db w) → ∃ rk p, recorded (w_db w) e rk p;
  inv_active : ∀ i j m n, outbox (w_db w) !! i = Some m → outbox (w_db w) !! j = Some n →
      status m = OUTBOX_PENDING → status n = OUTBOX_PENDING → event_id m = event_id n → i = j;
  inv_relays : ∀ r c, w_relays w !! r = Some c → progress_ok w c;
  inv_tokens : ∀ r s c c', w_relays w !! r = Some c → w_relays w !! s = Some c' → tok_of c = tok_of c' → r = s
}.

(** ** Lemmas *)
Lemma existsb_spec {A} (f : A → bool) l : existsb f l = true ↔ ∃ x, x ∈ l ∧ f x = true.
Proof. rewrite existsb_exists. split; intros (x & Hx & H); exists x; (split; [by apply list_elem_of_In|done]). Qed.

Lemma active_spec e d :
  active e d = true ↔ ∃ i m, outbox d !! i = Some m ∧ event_id m = e ∧ status m = OUTBOX_PENDING.
Proof.
  unfold active. rewrite existsb_spec. split.
  - intros ([i m] & Hin & [He Hs]%bool_decide_eq_true). apply elem_of_map_to_list in Hin. eauto.
  - intros (i & m & Hi & He & Hs). exists (i, m). split; [by apply elem_of_map_to_list|by apply bool_decide_eq_true].
Qed.

Lemma active_false e d i m :
  active e d = false → outbox d !! i = Some m → status m = OUTBOX_PENDING → event_id m ≠ e.
Proof.
  intros Ha Hi Hs He. assert (active e d = true); [|congruence]. apply active_spec. eauto.
Qed.

Lemma legacy_recorded e d : _legacy_event_exists e d = true → ∃ rk p, recorded d e rk p.
Proof.
  unfold _legacy_event_exists, in_outbox, in_archive, in_failures.
  rewrite !orb_true_iff, !existsb_spec. intros [[H|H]|H].
  - destruct H as ([i m] & Hin & He%bool_decide_eq_true). apply elem_of_map_to_list in Hin.
    exists (routing_key m), (payload_json m). left. eauto 10.
  - destruct H as (a & Hin & He%bool_decide_eq_true).
    exists (a_routing_key a), (a_payload a). right. left. eauto 10.
  - destruct H as ([i f] & Hin & He%bool_decide_eq_true). apply elem_of_map_to_list in Hin.
    exists (f_routing_key f), (f_payload f). right. right. eauto 10.
Qed.

(** What [enqueue_outbox] does when it returns. *)
Inductive enqueued (d : db) (now : Z) (row : uuid) (rk : string) (p : body) (replay : bool) (eid : string)
  : bool → db → Prop :=
  | enqueued_off : enqueued d now row rk p replay eid false d
  | enqueued_known : (eid ∈ keys d ∨ _legacy_event_exists eid d = true ∨ active eid d = true) →
      enqueued d now row rk p replay eid false (set_keys (λ ks, {[ eid ]} ∪ ks) d)
  | enqueued_new : (if replay then active eid d = false else eid ∉ keys d) →
      enqueued d now row rk p replay eid true
        (set_outbox <[row := new_row now eid rk p]> (set_keys (λ ks, {[ eid ]} ∪ ks) d)).

Definition event_key (e : option string) (hex : string) : string :=
  match e with Some (String _ _ as e) => e | _ => hex end.

Lemma enqueue_outcome now hex row rk p e replay d b d' :
  enqueue_outbox now hex row rk p e replay d = (Ok b, d') →
  enqueued d now row rk p replay (event_key e hex) b d'.
Proof.
  unfold enqueue_outbox. fold (event_key e hex). destruct (message_bus_enabled settings); simpl; [|intros [= <- <-]; constructor].
  rewrite run_raise_when. destruct (replay && bool_decide (e = None)); [done|].
  rewrite run_raise_when. case_bool_decide; [done|].
  rewrite run_gets, run_modify.
  destruct (decide (event_key e hex ∈ keys d)) as [Hk|Hk].
  - rewrite (bool_decide_false (_ ∉ _)) by (intros H'; by apply H'). simpl.
    destruct replay; simpl; [|intros [= <- <-]; constructor; by left].
    destruct (active (event_key e hex) d) eqn:Ha; [intros [= <- <-]; constructor; auto|].
    rewrite run_raise_when. case_bool_decide; [done|]. rewrite run_modify. intros [= <- <-]. by constructor.
  - rewrite (bool_decide_true (_ ∉ _)) by done. simpl.
    destruct replay; simpl.
    + rewrite andb_false_r. simpl.
      destruct (active (event_key e hex) d) eqn:Ha; [intros [= <- <-]; constructor; auto|].
      rewrite run_raise_when. case_bool_decide; [done|]. rewrite run_modify. intros [= <- <-]. by constructor.
    + destruct (bool_decide (is_Some e) && true && _legacy_event_exists (event_key e hex) d) eqn:Hl.
      * apply andb_true_iff in Hl as [_ Hl]. intros [= <- <-]. constructor. auto.
      * clear Hl. rewrite run_raise_when. case_bool_decide; [done|]. rewrite run_modify. intros [= <- <-]. by constructor.
Qed.

Lemma reason_not_exhausted rk v : permanent_failure_reason rk v ≠ Some Exhausted.
Proof.
  unfold permanent_failure_reason. destruct (dict_get _ _); [|done]. destruct (on_wire v); [|done].
  by destruct (contract_violations rk v).
Qed.

(** *** The event stays on record *)
Lemma recorded_row d i m m' e rk p :
  outbox d !! i = Some m → event_id m' = event_id m → routing_key m' = routing_key m →
  payload_json m' = payload_json m → recorded d e rk p → recorded (set_outbox <[i := m']> d) e rk p.
Proof.
  intros Hi He Hr Hp [(j & n & Hj & H)|[H|H]]; [|by right; left|by right; right]. left.
  destruct (decide (j = i)) as [->|Hne].
  - exists i, m'. simpl. rewrite lookup_insert_eq. simplify_eq. naive_solver congruence.
  - exists j, n. simpl. by rewrite lookup_insert_ne.
Qed.

Lemma recorded_new d i m e rk p :
  outbox d !! i = None → recorded d e rk p → recorded (set_outbox <[i := m]> d) e rk p.
Proof.
  intros Hi [(j & n & Hj & H)|[H|H]]; [|by right; left|by right; right]. left.
  exists j, n. simpl. rewrite lookup_insert_ne by congruence. done.
Qed.

Lemma recorded_fold d i fid now n why m e rk p :
  outbox d !! i = Some m → failures d !! fid = None → recorded d e rk p → recorded (fold_row i fid now n why m d) e rk p.
Proof.
  intros Hi Hf [(j & x & Hj & H)|[H|(j & x & Hj & H)]].
  - destruct (decide (j = i)) as [->|Hne].
    + right. right. eexists fid, _. simpl. rewrite lookup_insert_eq. simplify_eq. split; [done|]. done.
    + left. exists j, x. simpl. by rewrite lookup_delete_ne.
  - by right; left.
  - right. right. exists j, x. simpl. rewrite lookup_insert_ne by congruence. done.
Qed.

Lemma recorded_keys d f e rk p : recorded d e rk p → recorded (set_keys f d) e rk p.
Proof. done. Qed.

Lemma recorded_failure d i f f' e rk p :
  failures d !! i = Some f → f_event_id f' = f_event_id f → f_routing_key f' = f_routing_key f →
  f_payload f' = f_payload f → recorded d e rk p → recorded (set_failures <[i := f']> d) e rk p.
Proof.
  intros Hi He Hr Hp [H|[H|(j & n & Hj & H)]]; [by left|by right; left|]. right. right.
  destruct (decide (j = i)) as [->|Hne].
  - exists i, f'. simpl. rewrite lookup_insert_eq. simplify_eq. naive_solver congruence.
  - exists j, n. simpl. by rewrite lookup_insert_ne.
Qed.

Definition move_to_archive (now : Z) (d : db) (q : uuid * OutboxMessage) : db :=
  set_outbox (delete q.1) (set_archived (λ a, a ++ [archive_row now q.2]) d).

Lemma recorded_move d now i m e rk p :
  outbox d !! i = Some m → recorded d e rk p → recorded (move_to_archive now d (i, m)) e rk p.
Proof.
  intros Hi [(j & x & Hj & H)|[(a & Ha & H)|H]].
  - destruct (decide (j = i)) as [->|Hne].
    + right. left. exists (archive_row now m). simpl. split; [set_solver|]. simplify_eq. done.
    + left. exists j, x. simpl. by rewrite lookup_delete_ne.
  - right. left. exists a. simpl. split; [set_solver|done].
  - by right; right.
Qed.

(** *** The rows picked by the archiver *)
Lemma archive_rows now busy d :
  ∃ rows, (archive_published now busy d).2 = foldl (move_to_archive now) d rows
    ∧ NoDup rows.*1 ∧ ∀ i m, (i, m) ∈ rows → outbox d !! i = Some m ∧ archivable now m = true.
Proof.
  unfold archive_published.
  set (l := filter _ (map_to_list (outbox d))). set (rows := take _ _).
  exists rows. split_and!; [done| |].
  - unfold rows. apply (sublist_NoDup _ ((merge_sort id_le l).*1)); [|apply fmap_sublist, sublist_take].
    rewrite (merge_sort_Permutation id_le l).
    subst l. apply (sublist_NoDup _ ((map_to_list (outbox d)).*1)); [apply NoDup_fst_map_to_list|].
    apply fmap_sublist, sublist_filter.
  - intros i m Hin. subst rows. apply elem_of_take in Hin as (k & Hk & _).
    apply list_elem_of_lookup_2 in Hk. rewrite (merge_sort_Permutation id_le l) in Hk.
    subst l. apply list_elem_of_filter in Hk as [[_ Ha] Hin]. by apply elem_of_map_to_list in Hin.
Qed.

(** Induction over the moves of the archiver. *)
Lemma archive_ind (Q : db → Prop) now busy d :
  Q d →
  (∀ d' i m, Q d' → outbox d' !! i = Some m → archivable now m = true → Q (move_to_archive now d' (i, m))) →
  Q (archive_published now busy d).2.
Proof.
  intros Hd Hstep. destruct (archive_rows now busy d) as (rows & -> & Hnd & Hrows).
  revert d Hd Hrows Hnd. induction rows as [|[i m] rows IH]; intros d Hd Hrows Hnd; [done|].
  destruct (Hrows i m (list_elem_of_here _ _)) as [Hi Ha]. simpl in Hnd. apply NoDup_cons in Hnd as [Hni Hnd].
  simpl. apply IH; [by apply Hstep| |done].
  intros j n Hj. destruct (Hrows j n (list_elem_of_further _ _ _ Hj)) as [Hjn Hna]. split; [|done].
  simpl. rewrite lookup_delete_ne; [done|]. intros ->. apply Hni. apply list_elem_of_fmap. by exists (j, n).
Qed.

(** *** The invariant *)
Record grows (w w' : world) : Prop := {
  grow_keys : keys (w_db w) ⊆ keys (w_db w');
  grow_bus : ∀ x, x ∈ w_bus w → x ∈ w_bus w';
  grow_tokens : w_tokens w ⊆ w_tokens w'
}.

Lemma row_ok_grows w w' m : grows w w' → row_ok w m → row_ok w' m.
Proof.
  intros [Hk Hb Ht] [H1 H2 H3 H4]. split; [set_solver|done| |set_solver]. intros Hs. apply Hb. by apply H3.
Qed.

Lemma fewer_relays w rs : rs ⊆ w_relays w → inv w → inv (World (w_db w) (w_bus w) rs (w_tokens w)).
Proof.
  intros Hs [H1 H2 H3 H4 H5 H6 H7]. split; try done.
  - intros i m Hi. destruct (H1 i m Hi). by split.
  - intros r c Hr. apply (lookup_weaken _ _ _ _ Hr) in Hs. destruct (H6 r c Hs). by split.
  - intros r s c c' Hr Hs' Ht. eapply H7; [eapply lookup_weaken..|]; done.
Qed.

(** A row replaced by one with the same event and no lock. *)
Lemma inv_row w i m m' :
  inv w → outbox (w_db w) !! i = Some m →
  event_id m' = event_id m → routing_key m' = routing_key m → payload_json m' = payload_json m →
  locked_by m' = None → (status m' = OUTBOX_PENDING → status m = OUTBOX_PENDING) → row_ok w m' →
  inv (set_db (set_outbox <[i := m']> (w_db w)) w).
Proof.
  intros [H1 H2 H3 H4 H5 H6 H7] Hi He Hr Hp Hl Hst Hok. split; simpl; try done.
  - intros j n Hj. apply (row_ok_grows w); [by split|].
    apply lookup_insert_Some in Hj as [[_ <-]|[_ Hj]]; eauto.
  - intros e Hk. destruct (H4 e Hk) as (rk & p & Hrec). exists rk, p. by eapply recorded_row.
  - intros j k a b Hj Hk Ha Hb Hab.
    apply lookup_insert_Some in Hj as [[<- <-]|[? Hj]]; apply lookup_insert_Some in Hk as [[<- <-]|[? Hk]];
      [done|eapply (H5 i k); eauto; congruence|symmetry; eapply (H5 i j); eauto; congruence|eauto].
  - intros r c Hrc. destruct (H6 r c Hrc) as [G1 G2 G3 G4]. split; try done. simpl. intros j n Hj Ht.
    apply lookup_insert_Some in Hj as [[_ <-]|[_ Hj]]; [congruence|eauto].
Qed.

Lemma inv_fold w i m fid now n why :
  inv w → outbox (w_db w) !! i = Some m → failures (w_db w) !! fid = None →
  (0 ≤ n ≤ MAX_TRIES)%Z → (why = Exhausted ↔ n = MAX_TRIES) →
  inv (set_db (fold_row i fid now n why m (w_db w)) w).
Proof.
  intros [H1 H2 H3 H4 H5 H6 H7] Hi Hf Hn Hw. split; simpl; try done.
  - intros j x Hj. apply lookup_delete_Some in Hj as [_ Hj]. apply (row_ok_grows w); [by split|eauto].
  - intros j f Hj. apply lookup_insert_Some in Hj as [[<- <-]|[_ Hj]]; [|eauto].
    simpl. split_and!; [apply (H1 i m Hi)|lia..|done].
  - intros e Hk. destruct (H4 e Hk) as (rk & p & Hrec). exists rk, p. by apply recorded_fold.
  - intros j k a b Hj Hk. apply lookup_delete_Some in Hj as [_ Hj]. apply lookup_delete_Some in Hk as [_ Hk]. eauto.
  - intros r c Hrc. destruct (H6 r c Hrc) as [G1 G2 G3 G4]. split; try done. simpl. intros j x Hj.
    apply lookup_delete_Some in Hj as [_ Hj]. eauto.
Qed.

Lemma inv_move w now i m :
  inv w → outbox (w_db w) !! i = Some m → archivable now m = true →
  inv (set_db (move_to_archive now (w_db w) (i, m)) w).
Proof.
  intros [H1 H2 H3 H4 H5 H6 H7] Hi Ha. split; simpl; try done.
  - intros j x Hj. apply lookup_delete_Some in Hj as [_ Hj]. apply (row_ok_grows w); [by split|eauto].
  - intros a Hin. apply elem_of_app in Hin as [Hin|Hin%list_elem_of_singleton]; [by apply H2|]. subst a. simpl.
    destruct (H1 i m Hi) as [G1 _ G3 _]. split; [done|]. apply G3.
    unfold archivable in Ha. apply andb_true_iff in Ha as [Ha _]. by apply bool_decide_eq_true in Ha.
  - intros e Hk. destruct (H4 e Hk) as (rk & p & Hrec). exists rk, p. by apply recorded_move.
  - intros j k a b Hj Hk. apply lookup_delete_Some in Hj as [_ Hj]. apply lookup_delete_Some in Hk as [_ Hk]. eauto.
  - intros r c Hrc. destruct (H6 r c Hrc) as [G1 G2 G3 G4]. split; try done. simpl. intros j x Hj.
    apply lookup_delete_Some in Hj as [_ Hj]. eauto.
Qed.

Lemma inv_key w eid :
  inv w → (∃ rk p, recorded (w_db w) eid rk p) → inv (set_db (set_keys (λ ks, {[ eid ]} ∪ ks) (w_db w)) w).
Proof.
  intros [H1 H2 H3 H4 H5 H6 H7] Hrec.
  assert (Hg : grows w (set_db (set_keys (λ ks, {[ eid ]} ∪ ks) (w_db w)) w)) by (split; simpl; set_solver).
  split; simpl.
  - intros i m Hi. by apply (row_ok_grows w), (H1 i).
  - intros a Ha. destruct (H2 a Ha). split; [set_solver|done].
  - intros i f Hf. destruct (H3 i f Hf) as (? & ? & ?). split_and!; [set_solver|lia..|done].
  - intros e [->%elem_of_singleton|Hk]%elem_of_union; [done|by apply H4].
  - done.
  - intros r c Hrc. destruct (H6 r c Hrc) as [G1 G2 G3 G4]. by split.
  - done.
Qed.

Lemma inv_new_row w now row eid rk p :
  inv w → outbox (w_db w) !! row = None → active eid (w_db w) = false →
  inv (set_db (set_outbox <[row := new_row now eid rk p]> (set_keys (λ ks, {[ eid ]} ∪ ks) (w_db w))) w).
Proof.
  intros [H1 H2 H3 H4 H5 H6 H7] Hrow Hact.
  set (w' := set_db _ w). assert (Hg : grows w w') by (split; simpl; set_solver).
  split; simpl.
  - intros i m [[_ <-]|[_ Hi]]%lookup_insert_Some; [|by apply (row_ok_grows w), (H1 i)].
    split; simpl; [set_solver|unfold MAX_TRIES; lia|done|done].
  - intros a Ha. destruct (H2 a Ha). split; [set_solver|done].
  - intros i f Hf. destruct (H3 i f Hf) as (? & ? & ?). split_and!; [set_solver|lia..|done].
  - intros e [->%elem_of_singleton|Hk]%elem_of_union.
    + exists rk, (stored p). left. exists row, (new_row now eid rk p). simpl. by rewrite lookup_insert_eq.
    + destruct (H4 e Hk) as (rk' & p' & Hrec). exists rk', p'. by apply recorded_new.
  - intros j k a b Hj Hk Ha Hb Hab.
    apply lookup_insert_Some in Hj as [[<- <-]|[? Hj]]; apply lookup_insert_Some in Hk as [[<- <-]|[? Hk]];
      [done| | |eauto].
    + exfalso. by apply (active_false _ _ _ _ Hact Hk Hb).
    + exfalso. by apply (active_false _ _ _ _ Hact Hj Ha).
  - intros r c Hrc. destruct (H6 r c Hrc) as [G1 G2 G3 G4]. split; try done. simpl. intros j n Hj Ht.
    apply lookup_insert_Some in Hj as [[_ <-]|[_ Hj]]; [done|eauto].
  - done.
Qed.

Lemma known_key_recorded w eid : inv w → (∃ rk p, recorded (w_db w) eid rk p) → eid ∈ keys (w_db w).
Proof.
  intros Hw (rk & p & [(i & m & Hi & <- & _)|[(a & Ha & <- & _)|(i & f & Hf & <- & _)]]).
  - by apply (ok_key w), (inv_rows w Hw i).
  - by apply (inv_archived w Hw a).
  - by apply (inv_failures w Hw i).
Qed.

Lemma inv_enqueued w now row rk p replay eid b d' :
  inv w → outbox (w_db w) !! row = None → enqueued (w_db w) now row rk p replay eid b d' → inv (set_db d' w).
Proof.
  intros Hw Hrow He. destruct He as [|Hk|Hnew].
  - by destruct w.
  - apply inv_key; [done|]. destruct Hk as [Hk|[Hl|Ha]].
    + by apply (inv_keys w).
    + by apply legacy_recorded.
    + apply active_spec in Ha as (i & m & Hi & <- & _). exists (routing_key m), (payload_json m). left. eauto 10.
  - apply inv_new_row; [done|done|]. destruct replay; [done|].
    destruct (active eid (w_db w)) eqn:Ha; [|done]. exfalso. apply Hnew.
    apply active_spec in Ha as (i & m & Hi & <- & _). by apply (ok_key w), (inv_rows w Hw i).
Qed.

Lemma inv_failure w i f f' :
  inv w → failures (w_db w) !! i = Some f → f_event_id f' = f_event_id f → f_routing_key f' = f_routing_key f →
  f_payload f' = f_payload f → f_attempt_count f' = f_attempt_count f → f_reason f' = f_reason f →
  inv (set_db (set_failures <[i := f']> (w_db w)) w).
Proof.
  intros [H1 H2 H3 H4 H5 H6 H7] Hi He Hr Hp Hn Hw. split; simpl; try done.
  - intros j m Hj. apply (row_ok_grows w); [by split|eauto].
  - intros j x [[_ <-]|[_ Hj]]%lookup_insert_Some; [|eauto]. rewrite He, Hn, Hw. by apply (H3 i).
  - intros e Hk. destruct (H4 e Hk) as (rk & p & Hrec). exists rk, p. by eapply recorded_failure.
  - intros r c Hrc. destruct (H6 r c Hrc) as [G1 G2 G3 G4]. by split.
Qed.

Lemma inv_dlq w f : inv w → inv (set_db (set_dlq f (w_db w)) w).
Proof.
  intros [H1 H2 H3 H4 H5 H6 H7]. split; simpl; try done.
  - intros i m Hi. destruct (H1 i m Hi). by split.
  - intros r c Hrc. destruct (H6 r c Hrc). by split.
Qed.

(** A replay either changes nothing but the enqueueing, or marks the failure. *)
Lemma replay_outcome now hex row fid rk p d b d' :
  replay_failure now hex row fid rk p d = (Ok b, d') →
  (b = false ∧ d' = d)
  ∨ ∃ f q dq, failures d !! fid = Some f ∧ replayed_at f = None
      ∧ enqueue_outbox now hex row (default (f_routing_key f) rk) (default (f_payload f) p)
          (Some (f_event_id f)) true d = (Ok q, dq)
      ∧ d' = if b then set_failures <[fid := mark_replayed now f]> dq else dq.
Proof.
  unfold replay_failure. rewrite run_gets. destruct (failures d !! fid) as [f|] eqn:Hf; [|intros [= <- <-]; by left].
  case_bool_decide as Hr; [intros [= <- <-]; by left|].
  destruct (negb (message_bus_enabled settings)); [intros [= <- <-]; by left|].
  destruct (permanent_failure_reason _ _); [intros [= <- <-]; by left|].
  set (m := enqueue_outbox _ _ _ _ _ _ _). destruct (m d) as [[q|e] dq] eqn:He; [|by erewrite bind_err by done].
  erewrite bind_ok by done. rewrite run_gets. intros Hb. right. exists f, q, dq.
  split_and!; [done|by destruct (replayed_at f); [exfalso; apply Hr|]|done|].
  destruct (negb q && negb _); [|rewrite run_modify in Hb]; by injection Hb as <- <-.
Qed.

Lemma requeue_outcome now hex row id idhex rk p d b d' :
  requeue now hex row id idhex rk p d = (Ok b, d') →
  (b = false ∧ d' = d)
  ∨ ∃ x q dq rk' p' e, dlq d !! id = Some x ∧ d_status x = DLQ_PENDING
      ∧ enqueue_outbox now hex row rk' p' (Some e) true d = (Ok q, dq)
      ∧ d' = if b then set_dlq <[id := Dlq (d_routing_key x) (d_payload x) DLQ_REQUEUED (Some now)]> dq else dq.
Proof.
  unfold requeue. rewrite run_gets.
  destruct (dlq d !! id) as [[xrk xp [] xt]|] eqn:Hx; [|intros [= <- <-]; by left..].
  destruct (default xp p) as [| | | | | | |parsed| |]; try (intros [= <- <-]; by left).
  destruct (negb (message_bus_enabled settings)); [intros [= <- <-]; by left|].
  destruct (permanent_failure_reason _ _); [intros [= <- <-]; by left|].
  set (eid := match get_key "event_id" parsed with Some (VStr (String _ _ as e)) => e | _ => idhex end).
  set (m := enqueue_outbox _ _ _ _ _ _ _). destruct (m d) as [[q|e] dq] eqn:He; [|by erewrite bind_err by done].
  erewrite bind_ok by done. rewrite run_gets. intros Hb. right.
  eexists _, q, dq, _, _, _. split_and!; [done|done|exact He|].
  destruct (negb q && negb _); [|rewrite run_modify in Hb]; by injection Hb as <- <-.
Qed.

Lemma enqueued_failures d now row rk p r e b d' : enqueued d now row rk p r e b d' → failures d' = failures d.
Proof. by destruct 1. Qed.

(** *** Claims *)
Lemma first_row_elem l p : first_row l = Some p → p ∈ l.
Proof.
  revert p. induction l as [|q l IH]; intros p H; simpl in H; [done|].
  destruct (first_row l) as [r|]; [|injection H as <-; apply list_elem_of_here].
  destruct (before r q); injection H as <-; [apply list_elem_of_further; auto|apply list_elem_of_here].
Qed.

Lemma first_row_None l : first_row l = None → l = [].
Proof. destruct l as [|q l]; [done|]. simpl. destruct (first_row l); [by destruct (before _ _)|done]. Qed.

Lemma claim_Some now busy t d i m d' :
  claim now busy t d = (Some (i, m), d') →
  ∃ m0, outbox d !! i = Some m0 ∧ (i ∉ busy) ∧ _claimable now m0 = true ∧ m = lock_row now t m0
        ∧ d' = set_outbox <[i := m]> d.
Proof.
  unfold claim. destruct (first_row _) as [[j n]|] eqn:Hf; [|done]. intros [= <- <- <-].
  apply first_row_elem, list_elem_of_filter in Hf as [[Hb Hc] Hin]. apply elem_of_map_to_list in Hin.
  by exists n.
Qed.

Lemma claimable_pending now m : _claimable now m = true → status m = OUTBOX_PENDING.
Proof.
  unfold _claimable. rewrite !andb_true_iff. intros [[H _] _]. by apply bool_decide_eq_true in H.
Qed.

Lemma inv_claim w r now busy t i m d' :
  inv w → w_relays w !! r = None → t ∉ w_tokens w → claim now busy t (w_db w) = (Some (i, m), d') →
  inv (World d' (w_bus w) (<[r := Holding i m t]> (w_relays w)) ({[ t ]} ∪ w_tokens w)).
Proof.
  intros [H1 H2 H3 H4 H5 H6 H7] Hr Ht (m0 & Hi & _ & Hc & -> & ->)%claim_Some.
  set (w' := World _ _ _ _). assert (Hg : grows w w') by (split; simpl; set_solver).
  pose proof (claimable_pending _ _ Hc) as Hp. destruct (H1 i m0 Hi) as [K1 K2 K3 K4].
  split; simpl; try done.
  - intros j n [[_ <-]|[_ Hj]]%lookup_insert_Some; [|by apply (row_ok_grows w), (H1 j)].
    split; simpl; [done|done|congruence|]. intros u [= <-]. set_solver.
  - intros e Hk. destruct (H4 e Hk) as (rk & p & Hrec). exists rk, p. by eapply recorded_row.
  - intros j k a b Hj Hk Ha Hb Hab.
    apply lookup_insert_Some in Hj as [[<- <-]|[? Hj]]; apply lookup_insert_Some in Hk as [[<- <-]|[? Hk]];
      [done|eapply (H5 i k); eauto|symmetry; eapply (H5 i j); eauto|eauto].
  - intros s c [[<- <-]|[Hs Hc']]%lookup_insert_Some.
    + split; simpl; [set_solver| |done|done].
      intros j n Hj Hl. simpl in Hj. apply lookup_insert_Some in Hj as [[<- <-]|[_ Hj]]; [done|]. exfalso.
      apply Ht. by apply (ok_token w n); [apply (H1 j)|].
    + destruct (H6 s c Hc') as [G1 G2 G3 G4]. split; [simpl; set_solver| |done|done].
      intros j n Hj Hl. simpl in Hj. apply lookup_insert_Some in Hj as [[<- <-]|[_ Hj]]; [|eauto]. simpl in Hl. exfalso. apply Ht. congruence.
  - intros s u c c' Hs Hu Hcc.
    apply lookup_insert_Some in Hs as [[<- <-]|[? Hs]]; apply lookup_insert_Some in Hu as [[<- <-]|[? Hu]]; eauto; exfalso;
      simpl in Hcc; apply Ht; [rewrite Hcc; by apply (H6 _ _ Hu)|rewrite <-Hcc; by apply (H6 _ _ Hs)].
Qed.

Lemma attempt_bus m a bus x : x ∈ bus → x ∈ (attempt m a bus).2.
Proof. unfold attempt. destruct (reason_of m); [done|]. destruct a; simpl; [set_solver..|done]. Qed.

Lemma attempt_ok m a bus :
  (attempt m a bus).1 = true → reason_of m = None ∧ (routing_key m, message_of m) ∈ (attempt m a bus).2.
Proof. unfold attempt. destruct (reason_of m); [done|]. destruct a; simpl; try done. intros _. set_solver. Qed.

Lemma inv_publish w r i m t a :
  inv w → w_relays w !! r = Some (Holding i m t) →
  inv (World (w_db w) (attempt m a (w_bus w)).2
         (<[r := Sent i m t (reason_of m) (attempt m a (w_bus w)).1]> (w_relays w)) (w_tokens w)).
Proof.
  intros [H1 H2 H3 H4 H5 H6 H7] Hr. set (w' := World _ _ _ _).
  assert (Hg : grows w w') by (split; simpl; [done|apply attempt_bus|done]).
  split; simpl; try done.
  - intros j n Hj. by apply (row_ok_grows w), (H1 j).
  - intros x Hx. destruct (H2 x Hx) as [Hk Hd]. split; [done|]. by apply attempt_bus.
  - intros s c [[<- <-]|[_ Hc]]%lookup_insert_Some.
    + destruct (H6 r _ Hr) as [G1 G2 G3 G4]. split; simpl; [done|done| |].
      * intros j n u why [= <- <- <- <- Hok]. by apply attempt_ok.
      * intros j n u why ok [= <- <- <- <- <-]. apply reason_not_exhausted.
    + destruct (H6 s c Hc) as [G1 G2 G3 G4]. split; [done|done| |done].
      intros j n u why Hcc. destruct (G3 j n u why Hcc). split; [done|]. by apply attempt_bus.
  - intros s u c c' Hs Hu Hcc.
    apply lookup_insert_Some in Hs as [[<- <-]|[? Hs]]; apply lookup_insert_Some in Hu as [[<- <-]|[? Hu]]; eauto.
Qed.

Lemma inv_settle w r i m t why ok now fid :
  inv w → w_relays w !! r = Some (Sent i m t why ok) → failures (w_db w) !! fid = None →
  inv (set_db (settle now i t why ok fid (w_db w)).2 w).
Proof.
  intros Hw Hr Hf. destruct (inv_relays w Hw r _ Hr) as [G1 G2 G3 G4].
  unfold settle. destruct (outbox (w_db w) !! i) as [n|] eqn:Hi; [|by destruct w].
  destruct (decide (locked_by n = Some t)) as [Hl|]; [|by destruct w].
  destruct (G2 i n Hi Hl) as [_ ->]. simpl in *. destruct (inv_rows w Hw i m Hi) as [K1 K2 K3 K4].
  destruct why as [why|].
  - destruct (overlong settings why); [by destruct w|]. apply inv_fold; [done..|lia|]. split; [intros ->; by destruct (G4 _ _ _ _ _ eq_refl)|lia].
  - destruct ok; simpl.
    + apply (inv_row _ _ m); try done. split; simpl; [done|lia| |done]. intros _. by eapply G3.
    + case_decide; [apply inv_fold; [done..|lia|]; split; [intros _; lia|done]|].
      apply (inv_row _ _ m); try done. split; simpl; [done|lia|done|done].
Qed.

Lemma inv_step w w' : inv w → step w w' → inv w'.
Proof.
  intros Hw Hs. destruct Hs as [w now hex row rk p e replay b d' Hrow He|w now hex row fid rk p b d' Hrow He
    |w now hex row id idhex rk p b d' Hrow He|w id rk p Hid|w r now busy t i m d' Hr Ht Hc|w r i m t Hr
    |w r i m t a Hr|w r i m t why ok now fid Hr Hf|w now busy|w r].
  - apply enqueue_outcome in He. by eapply inv_enqueued.
  - apply replay_outcome in He as [[-> ->]|(f & q & dq & Hf & Hn & He & ->)]; [by destruct w|].
    apply enqueue_outcome in He. pose proof (enqueued_failures _ _ _ _ _ _ _ _ _ He) as Hfs.
    apply (inv_enqueued w) in He; [|done|done]. destruct b; [|done].
    apply (inv_failure (set_db dq w) fid f (mark_replayed now f)); [done|simpl; congruence|done..].
  - apply requeue_outcome in He as [[-> ->]|(x & q & dq & rk' & p' & e & _ & _ & He & ->)]; [by destruct w|].
    apply enqueue_outcome in He. apply (inv_enqueued w) in He; [|done|done]. destruct b; [|done].
    by apply (inv_dlq (set_db dq w)).
  - by apply inv_dlq.
  - by eapply inv_claim.
  - apply (fewer_relays (set_db (abandon i t (w_db w)) w)); [apply delete_subseteq|].
    unfold abandon. destruct (outbox (w_db w) !! i) as [n|] eqn:Hi; [|by destruct w].
    case_decide; [|by destruct w]. destruct (inv_rows w Hw i n Hi) as [K1 K2 K3 K4].
    apply (inv_row _ _ n); try done.
  - by apply inv_publish.
  - apply (fewer_relays (set_db (settle now i t why ok fid (w_db w)).2 w)); [apply delete_subseteq|].
    by eapply inv_settle.
  - apply (archive_ind (λ d, inv (set_db d w))); [by destruct w|].
    intros d' i m Hd Hi Ha. by apply (inv_move (set_db d' w)).
  - apply fewer_relays; [apply delete_subseteq|done].
Qed.

Lemma inv_empty : inv empty_world.
Proof. split; simpl; try done; set_solver. Qed.

Lemma inv_reachable w : rtc step empty_world w → inv w.
Proof. intros Hr. eapply (invariant_reachable step); [apply inv_empty|apply inv_step|done]. Qed.

(** *** What is recorded stays recorded *)
Lemma recorded_enqueued d now row rk p r eid b d' e rk' p' :
  outbox d !! row = None → enqueued d now row rk p r eid b d' → recorded d e rk' p' → recorded d' e rk' p'.
Proof. intros Hrow He Hrec. destruct He; [done|done|]. by apply recorded_new. Qed.

Lemma recorded_step w w' e rk p : inv w → step w w' → recorded (w_db w) e rk p → recorded (w_db w') e rk p.
Proof.
  intros Hw Hs Hrec. destruct Hs as [w now hex row rk1 p1 e1 replay b d' Hrow He|w now hex row fid rk1 p1 b d' Hrow He
    |w now hex row id idhex rk1 p1 b d' Hrow He|w id rk1 p1 Hid|w r now busy t i m d' Hr Ht Hc|w r i m t Hr
    |w r i m t a Hr|w r i m t why ok now fid Hr Hf|w now busy|w r]; simpl; try done.
  - apply enqueue_outcome in He. by eapply recorded_enqueued.
  - apply replay_outcome in He as [[-> ->]|(f & q & dq & Hf & Hn & He & ->)]; [done|].
    apply enqueue_outcome in He. pose proof (enqueued_failures _ _ _ _ _ _ _ _ _ He) as Hfs.
    assert (recorded dq e rk p) by (by eapply recorded_enqueued). destruct b; [|done].
    apply (recorded_failure _ _ f); [congruence|done..].
  - apply requeue_outcome in He as [[-> ->]|(x & q & dq & rk' & p' & e' & _ & _ & He & ->)]; [done|].
    apply enqueue_outcome in He. assert (recorded dq e rk p) by (by eapply recorded_enqueued). by destruct b.
  - apply claim_Some in Hc as (m0 & Hi & _ & _ & -> & ->). by eapply recorded_row.
  - unfold abandon. destruct (outbox (w_db w) !! i) as [n|] eqn:Hi; [|done].
    case_decide; [|done]. by eapply recorded_row.
  - unfold settle. destruct (outbox (w_db w) !! i) as [n|] eqn:Hi; [|done].
    destruct (decide (locked_by n = Some t)); [|done]. destruct why as [why|]; [by destruct (overlong settings why); [|apply recorded_fold]|].
    destruct ok; simpl; [by eapply recorded_row|]. case_decide; [by apply recorded_fold|by eapply recorded_row].
  - apply (archive_ind (λ d, recorded d e rk p)); [done|]. intros d' i m Hd Hi _. by apply recorded_move.
Qed.

Lemma recorded_steps w w' e rk p : inv w → rtc step w w' → recorded (w_db w) e rk p → inv w' ∧ recorded (w_db w') e rk p.
Proof.
  intros Hw Hs. induction Hs as [w|w w1 w2 Hs Hr IH]; intros Hrec; [done|].
  apply IH; [by eapply inv_step|by eapply recorded_step].
Qed.

(** *** Draining *)
Definition due (now : Z) (d : db) : list (uuid * OutboxMessage) := claimable_rows now ∅ d.

Lemma due_elem now d i m : (i, m) ∈ due now d ↔ outbox d !! i = Some m ∧ _claimable now m = true.
Proof.
  unfold due, claimable_rows. rewrite list_elem_of_filter, elem_of_map_to_list. set_solver.
Qed.

Lemma due_remove now d d' i m :
  outbox d !! i = Some m → _claimable now m = true →
  (outbox d' = delete i (outbox d) ∨ ∃ m', outbox d' = <[i := m']> (outbox d) ∧ _claimable now m' = false) →
  due now d ≡ₚ (i, m) :: due now d'.
Proof.
  intros Hi Hc Hd. unfold due, claimable_rows. rewrite <-(insert_delete_id (outbox d) i m Hi) at 1.
  rewrite map_to_list_insert by apply lookup_delete_eq. rewrite filter_cons_True by (split; [set_solver|done]).
  f_equiv. destruct Hd as [->|(m' & -> & Hm')]; [done|].
  rewrite <-insert_delete_eq, map_to_list_insert by apply lookup_delete_eq.
  rewrite filter_cons_False; [done|]. simpl. intros [_ ?]. congruence.
Qed.

(** The reason of a row, if it has one, fits its column. *)
Definition fits (m : OutboxMessage) : Prop := ∀ r, reason_of m = Some r → overlong settings r = false.

Definition all_fit (d : db) : Prop := ∀ i m, outbox d !! i = Some m → fits m.

(** One iteration on a row that is due: what it leaves. *)
Lemma iterate_row now t i m0 d why ok fid settle_at :
  (∀ r, why = Some r → overlong settings r = false) →
  outbox d !! i = Some m0 → (0 ≤ attempt_count m0)%Z → (now ≤ settle_at)%Z → _claimable now m0 = true →
  let d1 := set_outbox <[i := lock_row now t m0]> d in
  let d2 := (settle settle_at i t why ok fid d1).2 in
  (outbox d2 = delete i (outbox d)
   ∨ ∃ m', outbox d2 = <[i := m']> (outbox d) ∧ _claimable now m' = false ∧ (0 ≤ attempt_count m')%Z
           ∧ reason_of m' = reason_of m0 ∧ (why = None → ok = true → m' = publish_row settle_at m0))
  ∧ (why = None → ok = true → ∃ m', outbox d2 = <[i := m']> (outbox d) ∧ status m' = OUTBOX_PUBLISHED)
  ∧ (settle settle_at i t why ok fid d1).1 = Ok (match why with None => ok | Some _ => false end).
Proof.
  intros Hfit Hi Ha Hs Hc. cbv zeta. unfold settle. simpl. rewrite lookup_insert_eq. simpl.
  rewrite decide_True by done. destruct why as [r|]; simpl.
  { rewrite (Hfit r eq_refl). simpl. split_and!; [|done|done]. left. by rewrite delete_insert_eq. }
  destruct ok; simpl.
  { rewrite insert_insert_eq. split_and!; [right| |done]; eexists; (split; [done|]); [|done]. done. }
  assert (Hret : _claimable now (retry_row settle_at (lock_row now t m0)) = false).
  { unfold _claimable, retry_row, _backoff_seconds, _BACKOFF_CAP_S. simpl. apply andb_false_iff. left.
    apply andb_false_iff. right. apply bool_decide_eq_false.
    assert (0 < 2 ^ (attempt_count m0 + 1))%Z by (apply Z.pow_pos_nonneg; lia). lia. }
  case_decide; simpl; (split_and!; [|done|done]).
  - left. by rewrite delete_insert_eq.
  - right. exists (retry_row settle_at (lock_row now t m0)). rewrite insert_insert_eq. split_and!; try done. simpl. lia.
Qed.

Definition willing (now : Z) (r : Round) : Prop :=
  can_publish1 r = true ∧ can_publish2 r = true ∧ claim_time r = now ∧ claim_busy r = ∅ ∧ (now ≤ settle_time r)%Z.

Definition deliverable (m : OutboxMessage) : bool := match reason_of m with None => true | Some _ => false end.

Definition attempts_ok (d : db) : Prop := ∀ i m, outbox d !! i = Some m → (0 ≤ attempt_count m)%Z.

(** One iteration of a relay that keeps its lease: nothing is due and it stops,
    or one due row is taken care of. *)
Lemma relay_iteration now r rounds n d bus :
  willing now r → attempts_ok d → all_fit d →
  (due now d = [] ∧ relay_poll (r :: rounds) n (d, bus) = (Ok n, (d, bus)))
  ∨ ∃ i m d' bus', outbox d !! i = Some m ∧ _claimable now m = true
      ∧ due now d ≡ₚ (i, m) :: due now d' ∧ (attempts_ok d' ∧ all_fit d')
      ∧ (∀ j, j ≠ i → outbox d' !! j = outbox d !! j)
      ∧ (∀ x, x ∈ bus → x ∈ bus')
      ∧ (bus_answer r = Acked → deliverable m = true →
          (∃ s, outbox d' !! i = Some (publish_row s m)) ∧ (routing_key m, message_of m) ∈ bus')
      ∧ (bus_answer r = Acked → relay_poll (r :: rounds) n (d, bus)
          = relay_poll rounds (if deliverable m then S n else n) (d', bus'))
      ∧ ∃ n', relay_poll (r :: rounds) n (d, bus) = relay_poll rounds n' (d', bus').
Proof.
  intros (H1 & H2 & H3 & H4 & H5) Hatt Hfits. simpl. rewrite H1, H2, H3, H4. simpl. unfold claim. fold (due now d).
  destruct (first_row (due now d)) as [[i m]|] eqn:Hf; [|left; split; [by apply first_row_None|done]].
  right. apply first_row_elem, due_elem in Hf as [Hi Hc]. simpl.
  change (reason_of (lock_row now (claim_token r) m)) with (reason_of m).
  pose proof (iterate_row now (claim_token r) i m d (reason_of m)
    (attempt (lock_row now (claim_token r) m) (bus_answer r) bus).1 (failure_id r) (settle_time r)
    (Hfits i m Hi) Hi (Hatt i m Hi) H5 Hc) as (Hout & Hpub & Hdone). cbv zeta in Hout, Hpub, Hdone.
  destruct (attempt (lock_row now (claim_token r) m) (bus_answer r) bus) as [ok bus'] eqn:Hat. simpl in *.
  destruct (settle _ _ _ _ _ _ _) as [done d'] eqn:Hset. simpl in *. subst done.
  exists i, m, d', bus'. split_and!; [done|done| | | | | | | |eauto].
  - apply due_remove; [done|done|]. destruct Hout as [?|(m' & ? & ? & _)]; eauto.
  - intros j x Hj. destruct Hout as [He|(m' & He & _ & Hm' & _)]; rewrite He in Hj.
    + apply lookup_delete_Some in Hj as [_ Hj]. eauto.
    + apply lookup_insert_Some in Hj as [[_ <-]|[_ Hj]]; eauto.
  - intros j x Hj. destruct Hout as [He|(m' & He & _ & _ & Hr' & _)]; rewrite He in Hj.
    + apply lookup_delete_Some in Hj as [_ Hj]. eauto.
    + apply lookup_insert_Some in Hj as [[_ <-]|[_ Hj]]; [|eauto]. unfold fits. rewrite Hr'. by apply (Hfits i).
  - intros j Hj. destruct Hout as [->|(m' & -> & _)]; [by rewrite lookup_delete_ne|by rewrite lookup_insert_ne].
  - intros x Hx. replace bus' with (ok, bus').2 by done. rewrite <-Hat. by apply attempt_bus.
  - intros Hack. unfold deliverable. destruct (reason_of m) eqn:Hr; [done|]. intros _.
    unfold attempt in Hat. change (reason_of (lock_row now (claim_token r) m)) with (reason_of m) in Hat.
    rewrite Hr, Hack in Hat. simpl in Hat. injection Hat as <- <-. split; [|simpl; set_solver].
    exists (settle_time r). destruct (Hpub eq_refl eq_refl) as (m' & He & Hs). rewrite He, lookup_insert_eq.
    destruct Hout as [Hdel|(m'' & He' & _ & _ & _ & Heq)].
    + exfalso. rewrite Hdel in He. apply (f_equal (.!! i)) in He. by rewrite lookup_delete_eq, lookup_insert_eq in He.
    + rewrite (Heq eq_refl eq_refl) in He'. rewrite He in He'.
      apply (f_equal (.!! i)) in He'. by rewrite !lookup_insert_eq in He'.
  - intros Hack. unfold deliverable. unfold attempt in Hat.
    change (reason_of (lock_row now (claim_token r) m)) with (reason_of m) in Hat.
    destruct (reason_of m); [done|]. rewrite Hack in Hat. simpl in Hat. by injection Hat as <- _.
Qed.

(** A row that is not due is left alone, and the bus only grows. *)
Lemma relay_poll_frame now rounds n d bus j x :
  Forall (willing now) rounds → attempts_ok d → all_fit d → outbox d !! j = Some x → _claimable now x = false →
  outbox (relay_poll rounds n (d, bus)).2.1 !! j = Some x
  ∧ ∀ y, y ∈ bus → y ∈ (relay_poll rounds n (d, bus)).2.2.
Proof.
  intros Hr. revert n d bus. induction Hr as [|r rounds Hr Hrs IH]; intros n d bus Ha Hfit Hj Hx; [done|].
  destruct (relay_iteration now r rounds n d bus Hr Ha Hfit)
    as [[_ ->]|(i & m & d' & bus' & Hi & Hc & _ & [Ha' Hfit'] & Hfr & Hbus & _ & _ & n' & ->)]; [done|].
  destruct (IH n' d' bus' Ha' Hfit') as [IH1 IH2]; [|done|].
  - rewrite Hfr; [done|]. intros ->. congruence.
  - split; [done|]. intros y Hy. by apply IH2, Hbus.
Qed.

Lemma relay_poll_empties now rounds n d bus :
  Forall (willing now) rounds → attempts_ok d → all_fit d → length (due now d) ≤ length rounds →
  due now (relay_poll rounds n (d, bus)).2.1 = [] ∧ ∃ k, (relay_poll rounds n (d, bus)).1 = Ok k.
Proof.
  intros Hr. revert n d bus. induction Hr as [|r rounds Hr Hrs IH]; intros n d bus Ha Hfit Hlen.
  { simpl in *. split; [apply nil_length_inv; lia|by exists n]. }
  destruct (relay_iteration now r rounds n d bus Hr Ha Hfit)
    as [[He ->]|(i & m & d' & bus' & Hi & Hc & Hperm & [Ha' Hfit'] & _ & _ & _ & _ & n' & ->)]; [split; [done|by exists n]|].
  apply IH; [done|done|]. rewrite Hperm in Hlen. simpl in Hlen. lia.
Qed.

Lemma relay_poll_publishes now rounds n d bus :
  Forall (willing now) rounds → Forall (λ r, bus_answer r = Acked) rounds → attempts_ok d → all_fit d →
  length (due now d) ≤ length rounds →
  (relay_poll rounds n (d, bus)).1 = Ok (n + length (filter (λ p, deliverable p.2 = true) (due now d)))
  ∧ ∀ i m, outbox d !! i = Some m → _claimable now m = true → deliverable m = true →
      (∃ s, outbox (relay_poll rounds n (d, bus)).2.1 !! i = Some (publish_row s m))
      ∧ (routing_key m, message_of m) ∈ (relay_poll rounds n (d, bus)).2.2.
Proof.
  intros Hr Hack. revert n d bus. induction Hr as [|r rounds Hr Hrs IH]; intros n d bus Ha Hfit Hlen.
  { simpl in *. assert (He : due now d = []) by (apply nil_length_inv; lia). rewrite He. simpl.
    split; [f_equal; lia|]. intros i m Hi Hc. assert (Hin : (i, m) ∈ due now d) by by apply due_elem.
    rewrite He in Hin. by apply elem_of_nil in Hin. }
  apply Forall_cons in Hack as [Hack Hacks].
  destruct (relay_iteration now r rounds n d bus Hr Ha Hfit)
    as [[He Hrun]|(i & m & d' & bus' & Hi & Hc & Hperm & [Ha' Hfit'] & Hfr & _ & Hdel & Hrun & _)].
  { rewrite He, Hrun. simpl. split; [f_equal; lia|]. intros j x Hj Hx. assert (Hin : (j, x) ∈ due now d) by by apply due_elem.
    rewrite He in Hin. by apply elem_of_nil in Hin. }
  rewrite (Hrun Hack). rewrite Hperm in Hlen. simpl in Hlen.
  destruct (IH Hacks (if deliverable m then S n else n) d' bus' Ha' Hfit') as [IH1 IH2]; [lia|].
  split.
  - rewrite IH1. rewrite Hperm. destruct (deliverable m) eqn:Hm.
    + rewrite filter_cons_True by done. simpl. f_equal. lia.
    + rewrite filter_cons_False by (simpl; congruence). done.
  - intros j x Hj Hx Hdx. destruct (decide (j = i)) as [->|Hji]; [|apply IH2; [by rewrite Hfr|done..]].
    simplify_eq. destruct (Hdel Hack Hdx) as [[s Hs] Hin].
    destruct (relay_poll_frame now rounds (if deliverable m then S n else n) d' bus' i (publish_row s m)
                Hrs Ha' Hfit' Hs eq_refl) as [Hk Hb].
    split; [by exists s|by apply Hb].
Qed.

(** A reason that does not fit stops the poll. *)
Lemma relay_poll_stuck now rounds n d bus i m :
  Forall (willing now) rounds → length (due now d) ≤ length rounds →
  first_row (due now d) = Some (i, m) → ¬ fits m →
  (relay_poll rounds n (d, bus)).1 = Raise DataError ∧ (relay_poll rounds n (d, bus)).2.2 = bus
  ∧ ∃ t, (relay_poll rounds n (d, bus)).2.1 = set_outbox <[i := lock_row now t m]> d
      ∧ ∀ later, (now ≤ later)%Z → (now + Z.max (outbox_lock_ttl_s settings) (pulsar_operation_timeout_s settings + 10) < later)%Z →
          _claimable later (lock_row now t m) = true.
Proof.
  intros Hr Hn Hf Hm. pose proof (first_row_elem _ _ Hf) as Hin. destruct rounds as [|r rounds].
  { exfalso. destruct (due now d); [by apply elem_of_nil in Hin|]. simpl in Hn. lia. }
  apply Forall_cons in Hr as [(H1 & H2 & H3 & H4 & H5) _].
  simpl. rewrite H1, H2, H3, H4. simpl. unfold claim. fold (due now d). rewrite Hf. simpl.
  change (reason_of (lock_row now (claim_token r) m)) with (reason_of m).
  assert (Hex : ∃ x, reason_of m = Some x ∧ overlong settings x = true).
  { destruct (reason_of m) as [x|] eqn:E; [|exfalso; apply Hm; intros x Hx; congruence]. exists x. split; [done|].
    destruct (overlong settings x) eqn:Eo; [done|]. exfalso. apply Hm. intros y Hy. congruence. }
  destruct Hex as (x & Hx & Ho). unfold attempt. change (reason_of (lock_row now (claim_token r) m)) with (reason_of m). rewrite Hx.
  simpl. unfold settle. simpl. rewrite lookup_insert_eq. simpl. rewrite decide_True by done. rewrite Ho. simpl.
  split_and!; [done|done|]. exists (claim_token r). split; [done|]. intros later Hle Hl.
  apply due_elem in Hin as [_ Hc]. unfold _claimable in *. apply andb_true_iff in Hc as [Hc _]. apply andb_true_iff in Hc as [Hc1 Hc2].
  apply bool_decide_eq_true in Hc2. simpl. apply andb_true_iff. split; [apply andb_true_iff; split; [exact Hc1|]|]; apply bool_decide_eq_true; lia.
Qed.
End operations.

(** ** Properties *)

(** C1: no committed event is lost. Once [enqueue_outbox] has answered true and
    its transaction has committed, then in every later state of the outbox, of
    any number of relays and of the operators, whatever crashes and lost
    acknowledgements occur, the event is on record with its routing key and its
    payload; and as long as the bus has not accepted it, it is a pending row,
    which the relay will still try, or a failure kept for replay. *)
Theorem event_never_lost (st : Settings) (w w' : world) now hex row rk p e d'
    (Hw : rtc (step st) empty_world w) (Hrow : outbox (w_db w) !! row = None)
    (He : enqueue_outbox st now hex row rk p e false (w_db w) = (Ok true, d'))
    (Hw' : rtc (step st) (set_db d' w) w') :
  let eid := event_key e hex in
  recorded (w_db w') eid rk (stored p)
  ∧ (¬ delivered w' eid rk (stored p) →
      (∃ i m, outbox (w_db w') !! i = Some m ∧ status m = OUTBOX_PENDING
              ∧ event_id m = eid ∧ routing_key m = rk ∧ payload_json m = stored p)
      ∨ (∃ i f, failures (w_db w') !! i = Some f
              ∧ f_event_id f = eid ∧ f_routing_key f = rk ∧ f_payload f = stored p)).
Proof.
  cbv zeta. pose proof (inv_reachable st w Hw) as Hinv. apply enqueue_outcome in He.
  assert (Hrec : recorded d' (event_key e hex) rk (stored p)).
  { inversion He; subst. left. exists row, (new_row now (event_key e hex) rk p). simpl. by rewrite lookup_insert_eq. }
  apply (inv_enqueued w) in He; [|done|done].
  destruct (recorded_steps st _ w' _ _ _ He Hw' Hrec) as [Hinv' Hrec']. split; [done|].
  intros Hnd. destruct Hrec' as [(i & m & Hi & H1 & H2 & H3)|[(a & Ha & H1 & H2 & H3)|H]]; [| |by right].
  - left. exists i, m. split_and!; try done. destruct (status m) eqn:Hs; [done|].
    exfalso. apply Hnd. rewrite <-H1, <-H2, <-H3. by apply (ok_published w' m (inv_rows w' Hinv' i m Hi)).
  - exfalso. apply Hnd. rewrite <-H1, <-H2, <-H3. by apply (inv_archived w' Hinv').
Qed.

Definition example_settings : Settings := MkSettings true 300 30 604800 500 (λ _, false).
Definition example_row : uuid := uuid_of_N 1.

Lemma event_never_lost_witness :
  let d' := (enqueue_outbox example_settings 0 "h" example_row "event.notify_upload"
               (call "notify_upload" [VStr "u"]) None false empty_db).2 in
  recorded d' "h" "event.notify_upload" (stored (call "notify_upload" [VStr "u"])).
Proof.
  intros d'.
  apply (event_never_lost example_settings empty_world (set_db d' empty_world) 0 "h" example_row
    "event.notify_upload" (call "notify_upload" [VStr "u"]) None d').
  - constructor.
  - reflexivity.
  - reflexivity.
  - constructor.
Defined.

(** A claim fences the row. When a relay comes to settle the row it
    claimed and still holds the claim, the row is the one it published, no
    other relay holds a claim on it, and the transaction does exactly what the
    outcome calls for: a message that can never be sent becomes a failure
    without using up an attempt, unless its reason does not fit; a sent one becomes published, unlocked; a
    refused one is retried [2^n] seconds later, unlocked, with one more attempt,
    or at the fifth attempt becomes a failure. A relay that lost its claim
    changes nothing. *)
Theorem settle_fenced (st : Settings) (w : world) r i m t why ok now fid
    (Hw : rtc (step st) empty_world w) (Hr : w_relays w !! r = Some (Sent i m t why ok)) :
  let d := w_db w in
  let '(n, d') := settle st now i t why ok fid d in
  match outbox d !! i with
  | Some m' =>
      if decide (locked_by m' = Some t) then
        m' = m
        ∧ (∀ s c, w_relays w !! s = Some c → locked_by m' = Some (tok_of c) → s = r)
        ∧ match why with
          | Some reason =>
              if overlong st reason then n = Raise DataError ∧ d' = d
              else n = Ok false ∧ outbox d' = delete i (outbox d)
              ∧ failures d' = <[fid := Failure (event_id m) (routing_key m) (payload_json m)
                                         (attempt_count m) reason now None]> (failures d)
          | None =>
              n = Ok ok ∧ if ok then
                outbox d' = <[i := publish_row now m]> (outbox d) ∧ failures d' = failures d
                ∧ delivered w (event_id m) (routing_key m) (payload_json m)
              else if decide (attempt_count m = 4)%Z then
                outbox d' = delete i (outbox d)
                ∧ failures d' = <[fid := Failure (event_id m) (routing_key m) (payload_json m)
                                           5 Exhausted now None]> (failures d)
              else
                failures d' = failures d
                ∧ ∃ m2, outbox d' = <[i := m2]> (outbox d) ∧ status m2 = status m
                    ∧ attempt_count m2 = (attempt_count m + 1)%Z ∧ locked_by m2 = None ∧ locked_at m2 = None
                    ∧ next_retry_at m2 = (now + 2 ^ (attempt_count m + 1))%Z
          end
      else n = Ok false ∧ d' = d ∧ abandon i t d = d
  | None => n = Ok false ∧ d' = d ∧ abandon i t d = d
  end.
Proof.
  cbv zeta. pose proof (inv_reachable st w Hw) as Hinv.
  destruct (inv_relays w Hinv r _ Hr) as [_ G2 G3 _]. simpl in G2.
  unfold settle, abandon. destruct (outbox (w_db w) !! i) as [x|] eqn:Hi; [|done].
  destruct (decide (locked_by x = Some t)) as [Hl|]; [|done].
  destruct (G2 i x Hi Hl) as [_ ->].
  destruct (inv_rows w Hinv i m Hi) as [_ K2 _ _]. unfold MAX_TRIES in *.
  assert (Hother : ∀ s c, w_relays w !! s = Some c → locked_by m = Some (tok_of c) → s = r).
  { intros s c Hc Hlc. apply (inv_tokens w Hinv s r c _ Hc Hr). simpl. congruence. }
  destruct why as [why|]; [by destruct (overlong st why)|].
  destruct ok; [split_and!; try done; by eapply G3|].
  destruct (decide (attempt_count m = 4)%Z) as [H4|H4].
  - rewrite decide_True by lia. rewrite H4. done.
  - rewrite decide_False by lia. split_and!; try done. eexists. split_and!; [done..|].
    simpl. unfold _backoff_seconds, _BACKOFF_CAP_S. f_equal. apply Z.min_l.
    transitivity (2 ^ 4)%Z; [apply Z.pow_le_mono_r; lia|lia].
Qed.

(** The world of an event enqueued, claimed by relay 0 and published. *)
Definition example_db : db :=
  (enqueue_outbox example_settings 0 "h" example_row "event.notify_upload"
     (call "notify_upload" [VStr "u"]) None false empty_db).2.
Definition example_msg : OutboxMessage :=
  lock_row 5 1%positive (new_row 0 "h" "event.notify_upload" (call "notify_upload" [VStr "u"])).
Definition claimed_world : world :=
  World (claim example_settings 5 ∅ 1%positive example_db).2 []
    {[ 0 := Holding example_row example_msg 1%positive ]} {[ 1%positive ]}.
Definition sent_world : world :=
  World (w_db claimed_world) (attempt example_msg Acked []).2
    {[ 0 := Sent example_row example_msg 1%positive None true ]} {[ 1%positive ]}.

Definition enqueued_world : world := set_db example_db empty_world.

Lemma enqueued_world_step : step example_settings empty_world enqueued_world.
Proof.
  apply (step_enqueue _ empty_world 0 "h" example_row "event.notify_upload"
           (call "notify_upload" [VStr "u"]) None false true example_db); reflexivity.
Qed.

Lemma first_claim st d now t i m d' :
  claim st now ∅ t d = (Some (i, m), d') →
  step st (set_db d empty_world) (World d' [] {[ 0 := Holding i m t ]} {[ t ]}).
Proof.
  intros Hc. pose proof (step_claim st (set_db d empty_world) 0 now ∅ t i m d' eq_refl (not_elem_of_empty t) Hc) as Hs.
  simpl in Hs. rewrite insert_empty, union_empty_r_L in Hs. exact Hs.
Qed.

Lemma claimed_world_step : step example_settings enqueued_world claimed_world.
Proof.
  assert (H1 : (prod_map uuid_int id <$> (claim example_settings 5 ∅ 1%positive example_db).1) = Some (1%N, example_msg))
    by (vm_compute; reflexivity).
  unfold claimed_world, enqueued_world.
  destruct (claim example_settings 5 ∅ 1%positive example_db) as [[[i m]|] d'] eqn:Hc; [|done].
  injection H1 as Hi ->. assert (i = example_row) as -> by (apply uuid_int_inj; exact Hi).
  apply (first_claim _ _ _ _ _ _ _ Hc).
Qed.

Lemma first_publish st d i m t a :
  step st (World d [] {[ 0 := Holding i m t ]} {[ t ]})
    (World d (attempt m a []).2 {[ 0 := Sent i m t (reason_of m) (attempt m a []).1 ]} {[ t ]}).
Proof.
  pose proof (step_publish st (World d [] {[ 0 := Holding i m t ]} {[ t ]}) 0 i m t a (lookup_singleton_eq 0 _)) as Hs.
  simpl in Hs. rewrite insert_singleton_eq in Hs. exact Hs.
Qed.

Lemma sent_world_step : step example_settings claimed_world sent_world.
Proof. apply (first_publish _ _ example_row example_msg 1%positive Acked). Qed.

Lemma sent_world_reachable : rtc (step example_settings) empty_world sent_world.
Proof.
  eapply rtc_l; [apply enqueued_world_step|]. eapply rtc_l; [apply claimed_world_step|].
  eapply rtc_l; [apply sent_world_step|]. constructor.
Qed.

Lemma settle_fenced_witness :
  let d := w_db sent_world in
  let '(n, d') := settle example_settings 9 example_row 1%positive None true example_row d in
  match outbox d !! example_row with Some m' => m' = example_msg | None => False end.
Proof.
  pose proof (settle_fenced example_settings sent_world 0 example_row example_msg 1%positive None true 9 example_row
                sent_world_reachable (lookup_singleton_eq 0 _)) as H.
  cbv zeta in *. destruct (settle example_settings 9 example_row 1%positive None true example_row (w_db sent_world)) as [n d'].
  assert (Hm : outbox (w_db sent_world) !! example_row = Some example_msg) by (vm_compute; reflexivity).
  rewrite Hm in H |- *. rewrite decide_True in H by reflexivity. apply H.
Defined.

(** What every reachable state of the outbox satisfies, whatever the
    interleaving: every event key has its event on record and conversely; at
    most one pending row exists per event, also after replays; a pending row has
    used fewer than [MAX_TRIES] attempts; a row or an archived copy that counts
    as published has been accepted by the bus; and a failure is an exhausted one
    exactly when it used all its attempts. *)
Theorem outbox_consistent (st : Settings) (w : world) (Hw : rtc (step st) empty_world w) :
  let d := w_db w in
  (∀ e, e ∈ keys d ↔ ∃ rk p, recorded d e rk p)
  ∧ (∀ i j m n, outbox d !! i = Some m → outbox d !! j = Some n →
       status m = OUTBOX_PENDING → status n = OUTBOX_PENDING → event_id m = event_id n → i = j)
  ∧ (∀ i m, outbox d !! i = Some m → (0 ≤ attempt_count m < MAX_TRIES)%Z
       ∧ (status m = OUTBOX_PUBLISHED → delivered w (event_id m) (routing_key m) (payload_json m)))
  ∧ (∀ a, a ∈ archived d → delivered w (a_event_id a) (a_routing_key a) (a_payload a))
  ∧ (∀ i f, failures d !! i = Some f → (0 ≤ f_attempt_count f ≤ MAX_TRIES)%Z
       ∧ (f_reason f = Exhausted ↔ f_attempt_count f = MAX_TRIES)).
Proof.
  cbv zeta. pose proof (inv_reachable st w Hw) as Hinv. split_and!.
  - intros e. split; [apply (inv_keys w Hinv)|]. intros H. by apply (known_key_recorded w).
  - apply (inv_active w Hinv).
  - intros i m Hi. destruct (inv_rows w Hinv i m Hi). done.
  - intros a Ha. by apply (inv_archived w Hinv).
  - intros i f Hi. by apply (inv_failures w Hinv i).
Qed.

Lemma outbox_consistent_witness :
  delivered sent_world "h" "event.notify_upload" (payload_json example_msg)
  ∧ ∀ i m, outbox (w_db sent_world) !! i = Some m → (0 ≤ attempt_count m < MAX_TRIES)%Z.
Proof.
  pose proof (outbox_consistent example_settings sent_world sent_world_reachable) as (_ & _ & H & _).
  split; [apply list_elem_of_here|]. intros i m Hi. by apply (H i m).
Defined.


Lemma example_attempts : attempts_ok example_db.
Proof.
  intros i m Hi. change (outbox example_db) with (<[example_row := new_row 0 "h" "event.notify_upload"
    (call "notify_upload" [VStr "u"])]> (∅ : gmap uuid OutboxMessage)) in Hi.
  apply lookup_insert_Some in Hi as [[_ <-]|[_ Hi]]; [done|]. by rewrite lookup_empty in Hi.
Qed.


(** An operator replays a failure at most once. A replay that answers true
    found the failure not yet replayed, and its corrected message acceptable;
    it leaves a pending row of the same event — the one already there, untouched,
    or else a new one with the corrected content —, marks the failure with the
    time and keeps everything else of it; and repeated on the result it answers
    false and changes nothing. *)
Theorem replay_once (st : Settings) now hex row fid rk p d d'
    (He : replay_failure st now hex row fid rk p d = (Ok true, d'))
    (Hid : ∀ f, failures d !! fid = Some f → f_event_id f ≠ ""%string) :
  (∃ f, failures d !! fid = Some f ∧ replayed_at f = None
    ∧ (let b := default (f_payload f) p in let k := default (f_routing_key f) rk in
       permanent_failure_reason k (VDict (with_event_id (f_event_id f) b)) = None
       ∧ failures d' = <[fid := mark_replayed now f]> (failures d)
       ∧ outbox d' = (if active (f_event_id f) d then outbox d
                      else <[row := new_row now (f_event_id f) k b]> (outbox d))
       ∧ active (f_event_id f) d' = true))
  ∧ ∀ now' hex' row' rk' p', replay_failure st now' hex' row' fid rk' p' d' = (Ok false, d').
Proof.
  revert He. unfold replay_failure at 1. rewrite run_gets.
  destruct (failures d !! fid) as [f|] eqn:Hf; [|done].
  case_bool_decide as Hr; [done|]. destruct (negb (message_bus_enabled st)) eqn:Hbus; [done|].
  destruct (permanent_failure_reason _ _) eqn:Hp; [done|].
  set (m := enqueue_outbox _ _ _ _ _ _ _ _).
  destruct (m d) as [[q|e] dq] eqn:Hq; [|by erewrite bind_err by done].
  erewrite bind_ok by done. rewrite run_gets.
  apply enqueue_outcome in Hq. pose proof (enqueued_failures _ _ _ _ _ _ _ _ _ Hq) as Hfs.
  assert (Hkey : event_key (Some (f_event_id f)) hex = f_event_id f).
  { specialize (Hid f eq_refl). unfold event_key. by destruct (f_event_id f). }
  rewrite Hkey in Hq. intros Hb.
  assert (Hact : q = true ∨ active (f_event_id f) dq = true).
  { destruct q; [by left|]. right. by destruct (active _ dq). }
  assert (d' = set_failures <[fid := mark_replayed now f]> dq) as ->.
  { destruct q; simpl in Hb; [rewrite run_modify in Hb; by injection Hb|].
    destruct (active _ dq); [|done]. simpl in Hb. rewrite run_modify in Hb. by injection Hb. }
  clear Hb. split.
  - exists f. simpl. rewrite <-Hfs. split_and!; [done|by destruct (replayed_at f); [exfalso; apply Hr|]|done|done| |].
    + inversion Hq; subst; simpl in *; [|rename H into Hk|by rewrite H].
      * destruct Hact as [?|Ha]; [done|by rewrite Ha].
      * destruct Hact as [?|Ha]; [done|]. change (active (f_event_id f) (set_keys (λ ks, {[f_event_id f]} ∪ ks) d))
          with (active (f_event_id f) d) in Ha. by rewrite Ha.
    + inversion Hq; subst; simpl in *; [| |clear Hact].
      * destruct Hact as [?|Ha]; [done|exact Ha].
      * destruct Hact as [?|Ha]; [done|exact Ha].
      * apply active_spec. exists row. eexists. simpl. rewrite lookup_insert_eq. done.
  - intros now' hex' row' rk' p'. unfold replay_failure. rewrite run_gets. simpl. rewrite lookup_insert_eq.
    by rewrite bool_decide_true.
Qed.

Definition failed_db : db :=
  Db {[ "h"%string ]} ∅ []
    {[ example_row := Failure "h" "event.notify_upload" (call "notify_upload" [VStr "u"]) 5 Exhausted 0 None ]} ∅.

Lemma replay_once_witness :
  let d' := (replay_failure example_settings 7 "x" example_row example_row None None failed_db).2 in
  replay_failure example_settings 8 "y" example_row example_row None None d' = (Ok false, d').
Proof.
  intros d'. apply (replay_once example_settings 7 "x" example_row example_row None None failed_db d').
  - assert (H : (replay_failure example_settings 7 "x" example_row example_row None None failed_db).1 = Ok true)
      by (vm_compute; reflexivity).
    rewrite <-H. apply surjective_pairing.
  - intros f Hf. unfold failed_db in Hf. simpl in Hf. rewrite lookup_singleton_eq in Hf. by injection Hf as <-.
Defined.
