(* ===== verification/Worker.v ===== *)
(** * Worker: consuming a subscription exactly once

    Model of [core/db/event_processed.py] and [core/worker.py]: the ledger of
    processed events and the dispatch of a delivered message. The broker
    delivers a message at least once, in any order; a worker may crash between
    the end of its handler and the record in the ledger. Two deliveries of one
    event to one scope are serialised by an advisory lock, so a delivery is one
    step. *)

From S2P Require Import Prelude Events Wiring.

(** How a delivery ends when it is not acknowledged. *)
Inductive fault := Failed (e : err) | Crashed.

Section worker.
(** The state the handlers work on. *)
Context {T : Type}.

Record worker := MkWorker {
  app : T;
  processed : gset (string * string);      (* event_processed: (scope, event_id) *)
  completed : list (string * string)       (* ghost: the handler runs that returned *)
}.

Abbreviation job := (prog worker fault).

(** [already_processed] *)
Definition already_processed (eid scope : string) : job bool :=
  gets (λ w, bool_decide ((scope, eid) ∈ processed w)).

(** [record_processed]: the columns hold 64 and 36 characters; a record that is
    there already is left alone. *)
Definition record_processed (eid scope : string) : job bool :=
  raise_when (bool_decide (64 < String.length scope) || bool_decide (36 < String.length eid)) (Failed DataError) ≫= λ _,
  known ← already_processed eid scope;
  modify (λ w, MkWorker (app w) ({[ (scope, eid) ]} ∪ processed w) (completed w)) ≫= λ _,
  mret (negb known).

(** [await handler( *args)]; a run that returns is noted. *)
Definition run_handler (key : option (string * string)) (handler : prog T err ()) : job () := λ w,
  match handler (app w) with
  | (Ok _, s) => (Ok tt, MkWorker s (processed w) (match key with Some k => k :: completed w | None => completed w end))
  | (Raise e, s) => (Raise (Failed e), MkWorker s (processed w) (completed w))
  end.

Definition event_id_of (payload : list (string * value)) : option string :=
  match get_key "event_id" payload with
  | Some (VStr (String _ _ as e)) => Some e
  | _ => None
  end.

(** [crash]: the process dies before the record is committed. *)
Definition _dispatch_with_dedup (payload : list (string * value)) (handler : prog T err ()) (scope : string)
    (crash : bool) : job () :=
  match event_id_of payload with
  | None => run_handler None handler
  | Some eid =>
      known ← already_processed eid scope;
      if (known : bool) then mret tt else
      run_handler (Some (scope, eid)) handler ≫= λ _,
      raise_when crash Crashed ≫= λ _,
      _ ← record_processed eid scope;
      mret tt
  end.

(** [_on_payload] of the worker of a subscription; [call_handler] runs a
    registered handler on its arguments. *)
Definition _on_payload (call_handler : Handler → list value → prog T err ()) (r : registry) (sub : string)
    (payload : list (string * value)) (routing_key : option string) (crash : bool) : job () :=
  match on_payload r sub (VDict payload) routing_key with
  | Raise e => raise (Failed e)
  | Ok (h, vs) => _dispatch_with_dedup payload (call_handler h vs) sub crash
  end.

(** A delivery of an event, and a run of the workers on any sequence of them. *)
Record Delivery := Deliver {
  dl_scope : string; dl_payload : list (string * value); dl_handler : prog T err (); dl_crash : bool
}.

Definition deliver (dl : Delivery) : job () :=
  _dispatch_with_dedup (dl_payload dl) (dl_handler dl) (dl_scope dl) (dl_crash dl).

Fixpoint deliver_all (dls : list Delivery) (w : worker) : worker :=
  match dls with [] => w | dl :: dls => deliver_all dls (deliver dl w).2 end.

Definition is_event (scope eid : string) (dl : Delivery) : bool :=
  bool_decide (dl_scope dl = scope) && bool_decide (event_id_of (dl_payload dl) = Some eid).

Definition runs (scope eid : string) (w : worker) : nat :=
  length (filter (λ k, k = (scope, eid)) (completed w)).

Definition crashes (scope eid : string) (dls : list Delivery) : nat :=
  length (filter (λ dl, is_event scope eid dl && dl_crash dl = true) dls).

(** ** Lemmas *)

(** The key fits the columns of the ledger. *)
Definition fits (scope eid : string) : Prop := String.length scope ≤ 64 ∧ String.length eid ≤ 36.

(** The outcomes of one delivery of an event. *)
Lemma deliver_cases dl w eid :
  event_id_of (dl_payload dl) = Some eid → fits (dl_scope dl) eid →
  let k := (dl_scope dl, eid) in
  (k ∈ processed w ∧ deliver dl w = (Ok tt, w))
  ∨ ((k ∉ processed w) ∧ ∃ e s, dl_handler dl (app w) = (Raise e, s)
       ∧ deliver dl w = (Raise (Failed e), MkWorker s (processed w) (completed w)))
  ∨ ((k ∉ processed w) ∧ ∃ s, dl_handler dl (app w) = (Ok tt, s)
       ∧ deliver dl w =
         if dl_crash dl then (Raise Crashed, MkWorker s (processed w) (k :: completed w))
         else (Ok tt, MkWorker s ({[ k ]} ∪ processed w) (k :: completed w))).
Proof.
  intros He [Hl1 Hl2]. cbv zeta.
  destruct (decide ((dl_scope dl, eid) ∈ processed w)) as [Hk|Hk]; [left|right].
  - split; [done|]. unfold deliver, _dispatch_with_dedup, already_processed. rewrite He, run_gets.
    by rewrite bool_decide_true.
  - assert (Hd : deliver dl w = (run_handler (Some (dl_scope dl, eid)) (dl_handler dl) ≫= λ _,
              raise_when (dl_crash dl) Crashed ≫= λ _, _ ← record_processed eid (dl_scope dl); mret tt) w).
    { unfold deliver, _dispatch_with_dedup, already_processed. rewrite He, run_gets. by rewrite bool_decide_false. }
    rewrite Hd. destruct (dl_handler dl (app w)) as [[[]|e] s] eqn:Hh; [right|left].
    + split; [done|]. exists s. split; [done|].
      erewrite bind_ok by (unfold run_handler; rewrite Hh; done). rewrite run_raise_when.
      destruct (dl_crash dl); [done|]. unfold record_processed. rewrite bind_assoc, run_raise_when.
      rewrite !bool_decide_false by lia. done.
    + split; [done|]. exists e, s. split; [done|]. by erewrite bind_err by (unfold run_handler; rewrite Hh; done).
Qed.

Lemma deliver_other_completed dl w scope eid :
  is_event scope eid dl = false → (∀ e, event_id_of (dl_payload dl) = Some e → fits (dl_scope dl) e) →
  runs scope eid (deliver dl w).2 = runs scope eid w
  ∧ ((scope, eid) ∈ processed (deliver dl w).2 ↔ (scope, eid) ∈ processed w).
Proof.
  unfold is_event. intros Hne Hf. destruct (event_id_of (dl_payload dl)) as [e|] eqn:He.
  - assert (Hk : (dl_scope dl, e) ≠ (scope, eid)).
    { intros [= H1 H2]. subst. by rewrite !bool_decide_true in Hne. }
    destruct (deliver_cases dl w e He (Hf e eq_refl)) as [[_ ->]|[(_ & x & s & _ & ->)|(_ & s & _ & ->)]]; [done..|].
    destruct (dl_crash dl); unfold runs; simpl; rewrite filter_cons_False by done; (split; [done|set_solver]).
  - unfold deliver, _dispatch_with_dedup, run_handler. rewrite He.
    by destruct (dl_handler dl (app w)) as [[] s].
Qed.

(** The deliveries of one event, seen from the ledger: [credit] is how many runs
    can still complete. *)
Lemma deliver_counts dl w scope eid :
  is_event scope eid dl = true → fits scope eid →
  ((scope, eid) ∈ processed w → deliver dl w = (Ok tt, w))
  ∧ (if decide ((scope, eid) ∈ processed w) then True else
     (runs scope eid (deliver dl w).2 = runs scope eid w ∧ (scope, eid) ∉ processed (deliver dl w).2)
     ∨ runs scope eid (deliver dl w).2 = S (runs scope eid w)
       ∧ (if dl_crash dl then (scope, eid) ∉ processed (deliver dl w).2 else (scope, eid) ∈ processed (deliver dl w).2)).
Proof.
  unfold is_event. intros [Hs%bool_decide_eq_true He%bool_decide_eq_true]%andb_true_iff Hf. subst scope.
  destruct (deliver_cases dl w eid He Hf) as [[Hk ->]|[(Hk & x & s & _ & ->)|(Hk & s & _ & ->)]].
  - split; [done|]. by rewrite decide_True.
  - split; [done|]. rewrite decide_False by done. left. done.
  - split; [done|]. rewrite decide_False by done. right.
    destruct (dl_crash dl); unfold runs; simpl; rewrite filter_cons_True by done; (split; [done|set_solver]).
Qed.

Definition all_fit (dls : list Delivery) : Prop :=
  ∀ dl e, dl ∈ dls → event_id_of (dl_payload dl) = Some e → fits (dl_scope dl) e.

(** Once recorded, an event is never run again. *)
Lemma recorded_frozen dls w scope eid :
  all_fit dls → fits scope eid → (scope, eid) ∈ processed w →
  runs scope eid (deliver_all dls w) = runs scope eid w ∧ (scope, eid) ∈ processed (deliver_all dls w).
Proof.
  revert w. induction dls as [|dl dls IH]; intros w Hfs Hf Hp; [done|]. simpl.
  assert (Hfs' : all_fit dls) by (intros x e Hx; apply Hfs; by apply list_elem_of_further).
  destruct (is_event scope eid dl) eqn:He.
  - destruct (deliver_counts dl w scope eid He Hf) as [Hd _]. rewrite (Hd Hp). by apply IH.
  - destruct (deliver_other_completed dl w scope eid He) as [<- Hiff].
    { intros e. apply Hfs, list_elem_of_here. }
    apply IH; [done|done|]. by apply Hiff.
Qed.

Lemma runs_bounded dls w scope eid :
  all_fit dls → fits scope eid → (scope, eid) ∉ processed w →
  runs scope eid (deliver_all dls w) ≤ runs scope eid w + crashes scope eid dls
    + (if decide ((scope, eid) ∈ processed (deliver_all dls w)) then 1 else 0).
Proof.
  revert w. induction dls as [|dl dls IH]; intros w Hfs Hf Hp; simpl; [lia|].
  assert (Hfs' : all_fit dls) by (intros x e Hx; apply Hfs; by apply list_elem_of_further).
  unfold crashes. destruct (is_event scope eid dl) eqn:He.
  - destruct (deliver_counts dl w scope eid He Hf) as [_ Hc]. rewrite decide_False in Hc by done.
    destruct Hc as [[Hr Hn]|[Hr Hc]].
    + pose proof (IH (deliver dl w).2 Hfs' Hf Hn) as H. rewrite Hr in H. unfold crashes in H.
      destruct (decide (is_event scope eid dl && dl_crash dl = true)) as [Hcr|Hcr];
        [rewrite filter_cons_True by done|rewrite filter_cons_False by done]; simpl; lia.
    + destruct (dl_crash dl) eqn:Hcr.
      * rewrite filter_cons_True by (by rewrite He, Hcr). simpl.
        pose proof (IH (deliver dl w).2 Hfs' Hf Hc) as H. rewrite Hr in H. unfold crashes in H. lia.
      * destruct (recorded_frozen dls _ scope eid Hfs' Hf Hc) as [H1 H2].
        rewrite H1, Hr. rewrite decide_True by done. lia.
  - rewrite filter_cons_False by (by rewrite He). destruct (deliver_other_completed dl w scope eid He) as [Hr Hiff].
    { intros e. apply Hfs, list_elem_of_here. }
    pose proof (IH (deliver dl w).2 Hfs' Hf) as H. rewrite Hr in H. apply H. by rewrite Hiff.
Qed.

(** Every recorded event has had a run that returned. *)
Definition ledger_ok (w : worker) : Prop := ∀ scope eid, (scope, eid) ∈ processed w → 1 ≤ runs scope eid w.

Lemma ledger_ok_deliver dl w :
  (∀ e, event_id_of (dl_payload dl) = Some e → fits (dl_scope dl) e) → ledger_ok w → ledger_ok (deliver dl w).2.
Proof.
  intros Hf Hok scope eid Hp. destruct (is_event scope eid dl) eqn:He.
  - pose proof He as He'. unfold is_event in He'. apply andb_true_iff in He' as [Hs%bool_decide_eq_true Hid%bool_decide_eq_true].
    subst scope. destruct (deliver_counts dl w _ eid He (Hf eid Hid)) as [Hin Hc].
    destruct (decide ((dl_scope dl, eid) ∈ processed w)) as [Hw|Hw].
    + rewrite (Hin Hw). by apply Hok.
    + destruct Hc as [[_ Hn]|[-> _]]; [done|lia].
  - destruct (deliver_other_completed dl w scope eid He Hf) as [-> Hiff]. by apply Hok, Hiff.
Qed.

Lemma ledger_ok_all dls w : all_fit dls → ledger_ok w → ledger_ok (deliver_all dls w).
Proof.
  revert w. induction dls as [|dl dls IH]; intros w Hf Hok; simpl; [done|]. apply IH.
  - intros x e Hx. apply Hf. by apply list_elem_of_further.
  - apply ledger_ok_deliver; [|done]. intros e. apply Hf, list_elem_of_here.
Qed.
End worker.
Arguments worker : clear implicits.
Arguments Delivery : clear implicits.

(** ** Properties *)

(** C6: the ledger makes at-least-once delivery take effect once per scope.
    Starting from an empty ledger, whatever messages the broker delivers, in
    whatever order and however often, and whichever of their handlers fail: the
    handler of an event completes in a scope at most once more than the number
    of crashes between its end and the record; once the event is recorded,
    further deliveries are acknowledged without touching anything; a delivery is
    acknowledged only after its handler has completed and the event is recorded;
    and other scopes are served independently. *)
Theorem processed_once {T} (dls : list (Delivery T)) (s : T) (scope eid : string)
    (Hdls : all_fit dls) (Hf : fits scope eid) :
  let w := deliver_all dls (MkWorker s ∅ []) in
  runs scope eid w ≤ crashes scope eid dls + (if decide ((scope, eid) ∈ processed w) then 1 else 0)
  ∧ ((scope, eid) ∈ processed w → 1 ≤ runs scope eid w)
  ∧ ∀ dl, is_event scope eid dl = true →
      let '(o, w') := deliver dl w in
      ((scope, eid) ∈ processed w → o = Ok tt ∧ w' = w)
      ∧ (o = Ok tt → (scope, eid) ∈ processed w' ∧ 1 ≤ runs scope eid w')
      ∧ ∀ scope' eid', (scope', eid') ≠ (scope, eid) → runs scope' eid' w' = runs scope' eid' w.
Proof.
  cbv zeta. assert (Hok : ledger_ok (deliver_all dls (MkWorker s ∅ []))).
  { apply ledger_ok_all; [done|]. intros k e Hk. simpl in Hk. set_solver. }
  split_and!.
  - pose proof (runs_bounded dls (MkWorker s ∅ []) scope eid Hdls Hf (not_elem_of_empty _)) as H. simpl in H. exact H.
  - apply Hok.
  - intros dl He. set (w := deliver_all dls _) in *. pose proof He as He'. unfold is_event in He'.
    apply andb_true_iff in He' as [Hs%bool_decide_eq_true Hid%bool_decide_eq_true]. subst scope.
    destruct (deliver_cases dl w eid Hid Hf) as [[Hk ->]|[(Hk & x & t & _ & ->)|(Hk & t & _ & ->)]].
    + split_and!; [done|auto|done].
    + split_and!; [done|done|done].
    + destruct (dl_crash dl); unfold runs; simpl; (split_and!; [done| |intros k' e' Hne; by rewrite filter_cons_False by done]).
      * done.
      * intros _. rewrite filter_cons_True by done. simpl. split; [set_solver|lia].
Qed.

Lemma processed_once_witness :
  let tick : prog nat err () := modify S in
  let dl := Deliver "points-reward" [("event_id", VStr "e1")] tick false in
  let w := deliver_all [dl; dl] (MkWorker 0 ∅ []) in
  runs "points-reward" "e1" w ≤ 1.
Proof.
  intros tick dl w.
  assert (Hall : all_fit [dl; dl]).
  { intros x e Hx He. apply list_elem_of_In in Hx. simpl in Hx. destruct Hx as [<-|[<-|[]]];
      injection He as <-; split; simpl; lia. }
  assert (Hf : fits "points-reward" "e1") by (split; simpl; lia).
  pose proof (processed_once [dl; dl] 0 "points-reward" "e1" Hall Hf) as (H & _). fold w in H.
  assert (Hc : crashes "points-reward" "e1" [dl; dl] = 0) by reflexivity.
  rewrite Hc in H. destruct (decide _) in H; lia.
Defined.
