(* ===== verification/Limiter.v ===== *)
(** * Rate limits

    Model of [core/redis_limiter.py] — the sliding-window script and the
    fail-open or fail-closed wrapper around it — and of [core/throttle.py], the
    limit on password logins.

    Times are microseconds of the Redis server's clock, which the script reads
    itself; the script's arithmetic on them is exact in the code's doubles up to
    that resolution. A window is given in microseconds. *)

From S2P Require Import Prelude.

(** ** The sorted set of one key *)

(** The entries (score, member) and the time the key expires at. A key that
    does not exist is the empty bucket. *)
Record bucket := Bucket { entries : list (Z * string); expire_at : Z }.

Definition no_bucket : bucket := Bucket [] 0.

(** Redis drops an expired key. *)
Definition live (now : Z) (b : bucket) : bucket :=
  if decide (expire_at b ≤ now)%Z then no_bucket else b.

Definition seconds : Z := 1000000.

(** [math.ceil(window)], in seconds *)
Definition ceil_seconds (window : Z) : Z := ((window + (seconds - 1)) / seconds)%Z.

(** [_LUA_ALLOW_SCRIPT] *)
Definition allow_script (now window max_count : Z) (member : string) (b : bucket) : Z * bucket :=
  let b := live now b in
  let kept := filter (λ e, ¬ (0 ≤ e.1 ≤ now - window)%Z) (entries b) in
  if decide (max_count ≤ Z.of_nat (length kept))%Z then (0%Z, Bucket kept (expire_at b))
  else (1%Z, Bucket ((now, member) :: filter (λ e, e.2 ≠ member) kept) (now + ceil_seconds window * seconds)).

(** ** [RedisRateLimiter] *)

(** All keys of the server. *)
Definition buckets := gmap string bucket.

Definition bucket_of (key : string) (bs : buckets) : bucket := default no_bucket (bs !! key).

(** What a call to [evalsha] meets: the script runs, the script cache was
    flushed, or anything else fails. *)
Inductive response := Answers | NoScript | Breaks.

(** The server as one call sees it: no client, or a client with the response of
    the first and the second attempt. *)
Inductive backend := NoRedis | Client (first second : response).

Definition _eval (now window max_count : Z) (member key : string) (first second : response) (bs : buckets)
  : option bool * buckets :=
  let run :=
    let '(answer, b) := allow_script now window max_count member (bucket_of key bs) in
    (Some (bool_decide (answer = 1%Z)), <[key := b]> bs) in
  match first with
  | Answers => run
  | NoScript => match second with Answers => run | _ => (None, bs) end
  | Breaks => (None, bs)
  end.

Definition check (be : backend) (now window max_count : Z) (member key : string) (fail_open : bool) (bs : buckets)
  : bool * buckets :=
  match be with
  | NoRedis => (fail_open, bs)
  | Client first second =>
      match _eval now window max_count member key first second bs with
      | (Some answer, bs) => (answer, bs)
      | (None, bs) => (fail_open, bs)
      end
  end.

Definition reset (reachable : bool) (key : string) (bs : buckets) : buckets :=
  if reachable then delete key bs else bs.

(** ** [check_password_login_rate_limit] *)
Record LoginSettings := MkLogin {
  redis_url : string;
  login_ip_max_per_min : Z;
  login_global_max_per_min : Z;
  login_window : Z
}.

Definition limit (be : backend) (now window max_count : Z) (member key : string) : prog buckets err () :=
  ok ← (λ bs, let '(ok, bs) := check be now window max_count member key false bs in (Ok ok, bs));
  raise_when (negb ok) ACCOUNT_LOCKED.

Definition check_password_login_rate_limit (st : LoginSettings) (be1 be2 : backend) (now1 now2 : Z)
    (member1 member2 ip_address : string) : prog buckets err () :=
  if decide (redis_url st = ""%string) then mret tt else
  (if decide (ip_address = ""%string) then mret tt
   else limit be1 now1 (login_window st) (login_ip_max_per_min st) member1 ("ip:" +:+ ip_address)) ≫= λ _,
  limit be2 now2 (login_window st) (login_global_max_per_min st) member2 "__global__".

(** ** A history of checks on one key *)
Record attempt := Attempt { at_time : Z; at_member : string }.

(** The answers, and the times of the accepted attempts, latest first. *)
Fixpoint run_checks (window max_count : Z) (l : list attempt) (b : bucket) (accepted : list Z)
  : list bool * (bucket * list Z) :=
  match l with
  | [] => ([], (b, accepted))
  | a :: l =>
      let '(answer, b) := allow_script (at_time a) window max_count (at_member a) b in
      let ok := bool_decide (answer = 1%Z) in
      let '(oks, r) := run_checks window max_count l b (if ok then at_time a :: accepted else accepted) in
      (ok :: oks, r)
  end.

(** The reference: how many of the accepted times lie in the window that ends
    now. *)
Definition in_window (window now : Z) (accepted : list Z) : nat :=
  length (filter (λ t, now - window < t ≤ now)%Z accepted).

Fixpoint reference (window max_count : Z) (l : list attempt) (accepted : list Z) : list bool * list Z :=
  match l with
  | [] => ([], accepted)
  | a :: l =>
      let ok := bool_decide (Z.of_nat (in_window window (at_time a) accepted) < max_count)%Z in
      let '(oks, acc) := reference window max_count l (if ok then at_time a :: accepted else accepted) in
      (ok :: oks, acc)
  end.

(** ** Lemmas *)

(** The bucket holds the accepted times of the window ending at [now], perhaps
    with older ones. *)
Record tracks (window now : Z) (b : bucket) (accepted : list Z) : Prop := {
  track_scores : filter (λ t, now - window < t)%Z ((entries (live now b)).*1) = filter (λ t, now - window < t)%Z accepted;
  track_times : Forall (λ t, 0 ≤ t ≤ now)%Z accepted;
  track_entries : Forall (λ e : Z * string, 0 ≤ e.1)%Z (entries b);
  track_expiry : Forall (λ e : Z * string, e.1 + window ≤ expire_at b)%Z (entries b)
}.

Lemma ceil_seconds_le window : (window ≤ ceil_seconds window * seconds)%Z.
Proof.
  unfold ceil_seconds, seconds.
  pose proof (Z.div_mod (window + 999999) 1000000). pose proof (Z.mod_pos_bound (window + 999999) 1000000).
  change (1000000 - 1)%Z with 999999%Z. lia.
Qed.

Lemma filter_weaken {A} (P Q : A → Prop) `{∀ x, Decision (P x), ∀ x, Decision (Q x)} (l l' : list A) :
  (∀ x, Q x → P x) → filter P l = filter P l' → filter Q l = filter Q l'.
Proof.
  intros HQP Hl.
  assert (Hf : ∀ k : list A, filter Q k = filter Q (filter P k)).
  { intros k. rewrite list_filter_filter. apply list_filter_iff. naive_solver. }
  by rewrite (Hf l), (Hf l'), Hl.
Qed.

(** Time passing keeps the bucket faithful. *)
Lemma tracks_later window now now' b accepted :
  (now ≤ now')%Z → tracks window now b accepted → tracks window now' b accepted.
Proof.
  intros Hle [H1 H2 H3 H4]. split; [|eapply Forall_impl; [exact H2|]; simpl; lia|done|done].
  assert (H1' : filter (λ t, now' - window < t)%Z ((entries (live now b)).*1) = filter (λ t, now' - window < t)%Z accepted).
  { eapply filter_weaken; [|exact H1]. simpl. lia. }
  rewrite <-H1'. unfold live. destruct (decide (expire_at b ≤ now')%Z) as [He|He]; destruct (decide (expire_at b ≤ now)%Z); try done; [|lia].
  simpl. symmetry.
  assert (Forall (λ t, ¬ (now' - window < t)%Z) (entries b).*1).
  { apply Forall_fmap. eapply Forall_impl; [exact H4|]. simpl. lia. }
  clear -H. induction H as [|t l Ht Hl IH]; [done|]. by rewrite filter_cons_False.
Qed.

(** What the script keeps. *)
Lemma script_keeps window now b accepted :
  (0 ≤ now)%Z → tracks window now b accepted →
  (filter (λ e : Z * string, ¬ (0 ≤ e.1 ≤ now - window)%Z) (entries (live now b))).*1
    = filter (λ t, now - window < t)%Z accepted.
Proof.
  intros Hn [H1 H2 H3 H4]. rewrite <-H1.
  assert (Hl : Forall (λ e : Z * string, 0 ≤ e.1)%Z (entries (live now b))).
  { unfold live. by destruct (decide _); [constructor|]. }
  clear -Hl. induction Hl as [|[t m] l Ht Hl IH]; [done|]. simpl in *.
  destruct (decide (now - window < t)%Z).
  - rewrite filter_cons_True by (simpl; lia). rewrite (filter_cons_True (λ t, now - window < t)%Z) by done.
    rewrite fmap_cons. f_equal. exact IH.
  - rewrite filter_cons_False by (simpl; lia). rewrite (filter_cons_False (λ t, now - window < t)%Z) by done. exact IH.
Qed.

Lemma in_window_all window now accepted :
  Forall (λ t, 0 ≤ t ≤ now)%Z accepted →
  in_window window now accepted = length (filter (λ t, now - window < t)%Z accepted).
Proof.
  intros H. unfold in_window. f_equal. induction H as [|t l Ht Hl IH]; [done|].
  destruct (decide (now - window < t)%Z).
  - rewrite !filter_cons_True by lia. by rewrite IH.
  - rewrite !filter_cons_False by lia. done.
Qed.

Lemma filter_other_members (P : Z * string → Prop) `{∀ e, Decision (P e)} m (l : list (Z * string)) :
  m ∉ l.*2 → filter (λ e, e.2 ≠ m) (filter P l) = filter P l.
Proof.
  intros Hm. induction l as [|[t n] l IH]; [done|]. simpl in Hm. apply not_elem_of_cons in Hm as [Hne Hm].
  destruct (decide (P (t, n))).
  - rewrite !(filter_cons_True P) by done. rewrite filter_cons_True by (simpl; congruence). by rewrite IH.
  - rewrite !(filter_cons_False P) by done. by rewrite IH.
Qed.

(** One check answers as the reference does, and the bucket stays faithful. *)
Lemma script_correct window max_count a b accepted :
  (0 ≤ window)%Z → (0 ≤ at_time a)%Z → tracks window (at_time a) b accepted → at_member a ∉ (entries b).*2 →
  let ok := bool_decide (Z.of_nat (in_window window (at_time a) accepted) < max_count)%Z in
  let '(answer, b') := allow_script (at_time a) window max_count (at_member a) b in
  bool_decide (answer = 1%Z) = ok
  ∧ tracks window (at_time a) b' (if ok then at_time a :: accepted else accepted)
  ∧ (∀ m, m ∈ (entries b').*2 → m = at_member a ∨ m ∈ (entries b).*2).
Proof.
  intros Hw Hn Ht Hm. cbv zeta. unfold allow_script. pose proof (script_keeps window (at_time a) b accepted Hn Ht) as Hk.
  set (now := at_time a) in *. set (kept := filter _ (entries (live now b))) in *.
  rewrite in_window_all by apply Ht. rewrite <-Hk, length_fmap.
  assert (Hsub : ∀ e, e ∈ kept → e ∈ entries b).
  { intros e He. apply list_elem_of_filter in He as [_ He]. unfold live in He. destruct (decide _); [|done]. by apply elem_of_nil in He. }
  assert (Hge : Forall (λ e : Z * string, 0 ≤ e.1)%Z kept).
  { apply Forall_forall. intros e He. apply Hsub in He. pose proof (track_entries _ _ _ _ Ht) as H.
    rewrite Forall_forall in H. by apply H. }
  assert (Hlive : (expire_at (live now b) ≤ now)%Z → kept = []).
  { intros He. unfold kept, live in *. destruct (decide _); [done|]. lia. }
  assert (Hex : Forall (λ e : Z * string, e.1 + window ≤ expire_at (live now b))%Z kept).
  { apply Forall_forall. intros e He. unfold live. destruct (decide _) as [Hd|].
    - unfold kept, live in He. rewrite decide_True in He by done. by apply elem_of_nil in He.
    - apply Hsub in He. pose proof (track_expiry _ _ _ _ Ht) as H. rewrite Forall_forall in H. by apply H. }
  assert (Hin : ∀ e, e ∈ kept → (now - window < e.1)%Z).
  { intros e He. rewrite Forall_forall in Hge. specialize (Hge e He).
    apply list_elem_of_filter in He as [He _]. lia. }
  assert (Hall : filter (λ t, now - window < t)%Z (kept.*1) = kept.*1).
  { clear -Hin. induction kept as [|e l IH]; [done|]. simpl.
    rewrite filter_cons_True by (apply Hin, list_elem_of_here). f_equal. apply IH. intros x Hx. apply Hin.
    by apply list_elem_of_further. }
  assert (Htimes : Forall (λ e : Z * string, e.1 ≤ now)%Z kept).
  { apply Forall_forall. intros e He.
    assert (He1 : e.1 ∈ kept.*1) by (apply list_elem_of_fmap; by exists e). rewrite Hk in He1.
    apply list_elem_of_filter in He1 as [_ He1]. pose proof (track_times _ _ _ _ Ht) as H.
    rewrite Forall_forall in H. by apply H. }
  destruct (decide (max_count ≤ Z.of_nat (length kept))%Z) as [Hfull|Hroom].
  - rewrite (bool_decide_false (_ < _)%Z) by lia. split_and!; [done| |].
    + split; [|apply Ht|exact Hge|exact Hex]. unfold live at 1. simpl.
      destruct (decide (expire_at (live now b) ≤ now)%Z) as [He|He]; simpl.
      * by rewrite <-Hk, (Hlive He).
      * by rewrite Hall, Hk.
    + intros m (e & -> & He)%list_elem_of_fmap. right. apply list_elem_of_fmap. exists e. auto.
  - rewrite (bool_decide_true (_ < _)%Z) by lia.
    assert (Hno : filter (λ e : Z * string, e.2 ≠ at_member a) kept = kept).
    { unfold kept, live. destruct (decide _); [done|]. by apply filter_other_members. }
    rewrite Hno. pose proof (ceil_seconds_le window) as Hc.
    split_and!; [done| |].
    + split; cbn [entries expire_at].
      * unfold live. cbn [expire_at]. destruct (decide _) as [He|He]; cbn [entries]; rewrite ?fmap_cons; cbn [fst].
        -- assert (window = 0)%Z as -> by lia. cbn [no_bucket entries fmap list_fmap]. rewrite filter_cons_False by lia.
           rewrite <-Hk. assert (kept = []) as ->; [|done].
           destruct kept as [|e l] eqn:Hkept; [done|]. exfalso.
           pose proof (Hin e (list_elem_of_here _ _)). apply Forall_cons in Htimes as [? _]. lia.
        -- destruct (decide (now - window < now)%Z).
           ++ rewrite !filter_cons_True by done. by rewrite Hall, Hk.
           ++ rewrite !filter_cons_False by done. by rewrite Hall, Hk.
      * constructor; [lia|apply Ht].
      * constructor; [done|done].
      * constructor; [simpl; lia|]. eapply Forall_impl; [exact Htimes|]. simpl. lia.
    + intros m [->|Hm']%elem_of_cons; [by left|]. right. apply list_elem_of_fmap in Hm' as (e & -> & He).
      apply list_elem_of_fmap. exists e. auto.
Qed.

(** Attempts in the order of the server's clock, with fresh members. *)
Fixpoint in_order (from : Z) (l : list attempt) : Prop :=
  match l with [] => True | a :: l => (from ≤ at_time a)%Z ∧ in_order (at_time a) l end.

Lemma run_checks_reference window max_count l from b accepted :
  (0 ≤ window)%Z → (0 ≤ from)%Z → in_order from l → tracks window from b accepted →
  NoDup (at_member <$> l) → (∀ m, m ∈ (entries b).*2 → m ∉ at_member <$> l) →
  let '(oks, (b', acc)) := run_checks window max_count l b accepted in
  (oks, acc) = reference window max_count l accepted.
Proof.
  intros Hw. revert from b accepted. induction l as [|a l IH]; intros from b accepted Hf Hord Ht Hnd Hfresh; [done|].
  destruct Hord as [Hle Hord]. apply NoDup_cons in Hnd as [Hni Hnd]. simpl.
  assert (Hta : tracks window (at_time a) b accepted) by (by apply (tracks_later window from)).
  pose proof (script_correct window max_count a b accepted Hw ltac:(lia) Hta) as Hs.
  assert (Hm : at_member a ∉ (entries b).*2).
  { intros Hin. apply (Hfresh _ Hin). rewrite fmap_cons. apply list_elem_of_here. }
  specialize (Hs Hm). cbv zeta in Hs.
  destruct (allow_script (at_time a) window max_count (at_member a) b) as [answer b1].
  destruct Hs as (-> & Ht1 & Hmem).
  specialize (IH (at_time a) b1 _ ltac:(lia) Hord Ht1 Hnd).
  destruct (run_checks window max_count l b1 _) as [oks [b2 acc]].
  rewrite <-IH; [done|].
  intros m Hin. destruct (Hmem m Hin) as [->|Hin']; [done|].
  intros Hl. apply (Hfresh m Hin'). rewrite fmap_cons. by apply list_elem_of_further.
Qed.

(** Accepted times, latest first: each had room in its window. *)
Fixpoint admissible (window max_count : Z) (acc : list Z) : Prop :=
  match acc with
  | [] => True
  | t :: acc => Forall (λ x, x ≤ t)%Z acc ∧ (Z.of_nat (in_window window t acc) < max_count)%Z
                ∧ admissible window max_count acc
  end.

Lemma reference_admissible window max_count l from accepted :
  in_order from l → Forall (λ x, x ≤ from)%Z accepted → admissible window max_count accepted →
  admissible window max_count (reference window max_count l accepted).2.
Proof.
  revert from accepted. induction l as [|a l IH]; intros from accepted Hord Hle Hadm; [done|].
  destruct Hord as [Hfrom Hord]. simpl.
  assert (Hle' : Forall (λ x, x ≤ at_time a)%Z accepted) by (eapply Forall_impl; [exact Hle|]; simpl; lia).
  specialize (IH (at_time a)). case_bool_decide as Hroom.
  - specialize (IH (at_time a :: accepted) Hord). destruct (reference _ _ _ _). apply IH; [by constructor|done].
  - specialize (IH accepted Hord). destruct (reference _ _ _ _). by apply IH.
Qed.

Lemma in_window_le window t T acc :
  (t ≤ T)%Z → Forall (λ x, x ≤ t)%Z acc → in_window window T acc ≤ in_window window t acc.
Proof.
  intros Hle Hall. unfold in_window. induction Hall as [|x l Hx Hl IH]; [done|]. cbv beta in Hx.
  destruct (decide (T - window < x ≤ T)%Z).
  - rewrite (filter_cons_True (λ y, T - window < y ≤ T)%Z) by done.
    rewrite (filter_cons_True (λ y, t - window < y ≤ t)%Z) by lia. simpl. lia.
  - rewrite (filter_cons_False (λ t, T - window < t ≤ T)%Z) by done. rewrite IH.
    destruct (decide (t - window < x ≤ t)%Z); [rewrite filter_cons_True by done; simpl; lia|by rewrite filter_cons_False].
Qed.

Lemma admissible_bound window max_count acc T :
  admissible window max_count acc → (Z.of_nat (in_window window T acc) ≤ Z.max 0 max_count)%Z.
Proof.
  induction acc as [|t acc IH]; simpl; [change (Z.of_nat (in_window window T [])) with 0%Z; lia|]. intros (Hle & Hroom & Hadm). specialize (IH Hadm).
  unfold in_window at 1. destruct (decide (T - window < t ≤ T)%Z).
  - rewrite filter_cons_True by done. cbn [length]. fold (in_window window T acc).
    pose proof (in_window_le window t T acc ltac:(lia) Hle). lia.
  - rewrite filter_cons_False by done. fold (in_window window T acc). lia.
Qed.

(** ** Properties *)

(** C13: the limiter is an exact sliding window. On a fresh key, for attempts in
    the order of the server's clock with distinct members, the answers are those
    of the reference that remembers every accepted time forever: an attempt is
    accepted exactly when fewer than [max_count] accepted ones lie in the window
    that ends with it; dropping old entries and letting the key expire never
    show. So no window of that length, wherever it ends, ever holds more than
    [max_count] accepted attempts. *)
Theorem limiter_exact (window max_count : Z) (l : list attempt)
    (Hw : (0 ≤ window)%Z) (Hord : in_order 0 l) (Hm : NoDup (at_member <$> l)) :
  let '(oks, (_, acc)) := run_checks window max_count l no_bucket [] in
  (oks, acc) = reference window max_count l []
  ∧ ∀ T, (Z.of_nat (in_window window T acc) ≤ Z.max 0 max_count)%Z.
Proof.
  assert (Ht : tracks window 0 no_bucket []) by (split; constructor).
  pose proof (run_checks_reference window max_count l 0 no_bucket [] Hw ltac:(lia) Hord Ht Hm) as Hr.
  destruct (run_checks window max_count l no_bucket []) as [oks [b acc]].
  assert (Heq : (oks, acc) = reference window max_count l []).
  { apply Hr. intros m Hin. by apply elem_of_nil in Hin. }
  split; [done|]. intros T. replace acc with (oks, acc).2 by done. rewrite Heq.
  apply admissible_bound. by apply (reference_admissible _ _ _ 0).
Qed.

Lemma limiter_exact_witness :
  let l := [Attempt 0 "a"; Attempt 1000000 "b"; Attempt 2000000 "c"; Attempt 61000000 "d"] in
  let '(oks, (_, acc)) := run_checks 60000000 2 l no_bucket [] in
  oks = [true; true; false; true] ∧ (Z.of_nat (in_window 60000000 30000000 acc) ≤ 2)%Z.
Proof.
  intros l.
  assert (Hord : in_order 0 l) by (simpl; lia).
  assert (Hm : NoDup (at_member <$> l)) by (apply (bool_decide_unpack _); reflexivity).
  pose proof (limiter_exact 60000000 2 l ltac:(lia) Hord Hm) as H.
  assert (Href : (reference 60000000 2 l []).1 = [true; true; false; true]) by (vm_compute; reflexivity).
  destruct (run_checks 60000000 2 l no_bucket []) as [oks [b acc]]. destruct H as [H1 H2].
  rewrite <-H1 in Href. split; [exact Href|apply H2].
Defined.

(** The limit on password logins. Without Redis configured it lets
    everything through; configured but unreachable or failing, it refuses. A
    login is let through exactly when the address's bucket (if the address is
    known) and then the global bucket have room; and an attempt its address's
    bucket refuses never touches the global bucket, so one address cannot use up
    everybody's quota. *)
Theorem login_limit_correct (st : LoginSettings) (be1 be2 : backend) (now1 now2 : Z)
    (m1 m2 ip : string) (bs : buckets) :
  let key := ("ip:" +:+ ip)%string in
  let '(o, bs') := check_password_login_rate_limit st be1 be2 now1 now2 m1 m2 ip bs in
  (redis_url st = ""%string → o = Ok tt ∧ bs' = bs)
  ∧ (redis_url st ≠ ""%string → ip ≠ ""%string →
      let '(ok1, bs1) := check be1 now1 (login_window st) (login_ip_max_per_min st) m1 key false bs in
      (ok1 = false → o = Raise ACCOUNT_LOCKED ∧ bs' !! "__global__"%string = bs !! "__global__"%string)
      ∧ (ok1 = true →
          let '(ok2, bs2) := check be2 now2 (login_window st) (login_global_max_per_min st) m2 "__global__" false bs1 in
          bs' = bs2 ∧ (o = Ok tt ↔ ok2 = true) ∧ (ok2 = false → o = Raise ACCOUNT_LOCKED)))
  ∧ (redis_url st ≠ ""%string → be2 = NoRedis ∨ (∃ r, be2 = Client Breaks r) → o = Raise ACCOUNT_LOCKED).
Proof.
  cbv zeta. unfold check_password_login_rate_limit, limit.
  destruct (decide (redis_url st = ""%string)) as [Hu|Hu]; [split_and!; [done|done|done]|].
  set (c1 := check be1 now1 _ _ _ _ _ bs).
  assert (Hglobal : c1.2 !! "__global__"%string = bs !! "__global__"%string).
  { unfold c1, check. destruct be1 as [|r1 r2]; [done|]. unfold _eval.
    destruct (allow_script _ _ _ _ _) as [x b].
    assert (<[("ip:" +:+ ip)%string := b]> bs !! "__global__"%string = bs !! "__global__"%string)
      by (apply lookup_insert_ne; discriminate).
    destruct r1; [done| |done]. by destruct r2. }
  destruct (decide (ip = ""%string)) as [Hip|Hip].
  - rewrite bind_left_id. unfold mbind at 1, prog_bind at 1.
    destruct (check be2 now2 _ _ _ _ _ bs) as [ok2 bs2] eqn:H2. destruct ok2; simpl.
    + split_and!; [done|done|]. intros _ [->|[r ->]]; by injection H2.
    + split_and!; done.
  - unfold mbind at 1, prog_bind at 1. unfold mbind at 1, prog_bind at 1. fold c1. destruct c1 as [ok1 bs1] eqn:Hc1.
    destruct ok1; simpl.
    + unfold mbind at 1, prog_bind at 1. destruct (check be2 now2 _ _ _ _ _ bs1) as [ok2 bs2] eqn:H2. destruct ok2; simpl.
      * split_and!; [done|done|]. intros _ [->|[r ->]]; by injection H2.
      * split_and!; done.
    + split_and!; [done| |done]. intros _ _. split; [|done]. intros _. split; [done|]. exact Hglobal.
Qed.
