(* ===== verification/Breaker.v ===== *)
(** * The circuit breaker in front of the AUTH process

    Model of [auth/circuit_breaker.py]. The lock makes every method one step;
    clock readings ([time.monotonic()]) and the settings are arguments, in
    milliseconds. *)

From S2P Require Import Prelude.

Inductive state := CLOSED | OPEN | HALF_OPEN.

#[export] Instance state_eq_dec : EqDecision state.
Proof. unfold EqDecision, Decision. decide equality. Defined.

Record CircuitBreaker := Breaker {
  _state : state;
  _failures : Z;
  _opened_at : Z;
  _probing : bool
}.

Definition initial : CircuitBreaker := Breaker CLOSED 0 0 false.

Section breaker.
(** [settings.auth_http_circuit_failures] and [auth_http_circuit_reset_s] *)
Variables auth_http_circuit_failures auth_http_circuit_reset : Z.

Definition _failure_threshold : Z := Z.max 1 auth_http_circuit_failures.
Definition _reset_seconds : Z := Z.max 0 auth_http_circuit_reset.

Definition reset (_ : CircuitBreaker) : CircuitBreaker := Breaker CLOSED 0 0 false.

Definition allow (now : Z) (b : CircuitBreaker) : bool * CircuitBreaker :=
  match _state b with
  | CLOSED => (true, b)
  | OPEN =>
      if decide (_reset_seconds ≤ now - _opened_at b)%Z
      then (true, Breaker HALF_OPEN (_failures b) (_opened_at b) true)
      else (false, b)
  | HALF_OPEN =>
      if _probing b then (false, b)
      else (true, Breaker HALF_OPEN (_failures b) (_opened_at b) true)
  end.

Definition record_success (_ : CircuitBreaker) : CircuitBreaker := Breaker CLOSED 0 0 false.

Definition record_failure (now : Z) (b : CircuitBreaker) : CircuitBreaker :=
  match _state b with
  | HALF_OPEN => Breaker OPEN (_failures b) now false
  | _ =>
      let n := (_failures b + 1)%Z in
      if decide (_failure_threshold ≤ n)%Z then Breaker OPEN n now (_probing b)
      else Breaker (_state b) n (_opened_at b) (_probing b)
  end.

(** ** Histories *)
Inductive op := Allow (now : Z) | Success | Failure (now : Z) | Reset.

Definition run_op (o : op) (b : CircuitBreaker) : CircuitBreaker :=
  match o with
  | Allow now => (allow now b).2
  | Success => record_success b
  | Failure now => record_failure now b
  | Reset => reset b
  end.

Fixpoint run_ops (os : list op) (b : CircuitBreaker) : CircuitBreaker :=
  match os with [] => b | o :: os => run_ops os (run_op o b) end.

(** The answers to a series of requests nobody reports on. *)
Fixpoint asks (times : list Z) (b : CircuitBreaker) : list bool * CircuitBreaker :=
  match times with
  | [] => ([], b)
  | t :: times =>
      let '(ok, b) := allow t b in
      let '(oks, b) := asks times b in
      (ok :: oks, b)
  end.

(** What the states mean. *)
Definition breaker_ok (b : CircuitBreaker) : Prop :=
  match _state b with
  | CLOSED => (0 ≤ _failures b < _failure_threshold)%Z ∧ _probing b = false
  | OPEN => (_failure_threshold ≤ _failures b)%Z ∧ _probing b = false
  | HALF_OPEN => (_failure_threshold ≤ _failures b)%Z ∧ _probing b = true
  end.

(** ** [auth/user_http.py: _request]

    What happens to one outgoing call: the breaker refuses it, the transport
    fails, an answer arrives with a status, or the call is abandoned — the task
    is cancelled, or an exception outside [httpx.HTTPError] escapes — in which
    case nothing is recorded. *)
Inductive fate := HttpError | Status (code : Z) | Abandoned.
Inductive reply := Unavailable | Response (code : Z) | Escaped.

Definition _request (asked answered : Z) (f : fate) (b : CircuitBreaker) : reply * CircuitBreaker :=
  let '(ok, b) := allow asked b in
  if negb ok then (Unavailable, b) else
  match f with
  | HttpError => (Unavailable, record_failure answered b)
  | Status code => (Response code, if decide (500 ≤ code)%Z then record_failure answered b else record_success b)
  | Abandoned => (Escaped, b)
  end.

(** ** Lemmas *)
Lemma breaker_ok_op o b : breaker_ok b → breaker_ok (run_op o b).
Proof.
  assert (H1 : (1 ≤ _failure_threshold)%Z) by apply Z.le_max_l.
  destruct b as [s f t p]. unfold breaker_ok.
  destruct o as [now| |now|]; unfold run_op, allow, record_success, record_failure, reset;
    destruct s, p; cbn; try destruct (decide _); cbn; intros [? ?]; (split; [lia|done]) || done.
Qed.

Lemma breaker_ok_ops os b : breaker_ok b → breaker_ok (run_ops os b).
Proof. revert b. induction os as [|o os IH]; intros b Hb; simpl; [done|]. by apply IH, breaker_ok_op. Qed.

Lemma breaker_ok_initial : breaker_ok initial.
Proof. unfold breaker_ok, initial, _failure_threshold. simpl. split; [lia|done]. Qed.

Lemma asks_probing times b : _state b = HALF_OPEN → _probing b = true → asks times b = (replicate (length times) false, b).
Proof.
  intros Hs Hp. induction times as [|t times IH]; simpl; [done|].
  unfold allow. rewrite Hs, Hp. by rewrite IH.
Qed.

Lemma asks_closed times b : _state b = CLOSED → asks times b = (replicate (length times) true, b).
Proof.
  intros Hs. induction times as [|t times IH]; simpl; [done|]. unfold allow. rewrite Hs. by rewrite IH.
Qed.

Lemma asks_cooling times rest b :
  _state b = OPEN → Forall (λ t, t < _opened_at b + _reset_seconds)%Z times →
  asks (times ++ rest) b = let '(oks, b') := asks rest b in (replicate (length times) false ++ oks, b').
Proof.
  intros Hs H. induction H as [|t times Ht H IH]; simpl; [by destruct (asks rest b)|].
  unfold allow. rewrite Hs. rewrite decide_False by lia. rewrite IH. by destruct (asks rest b).
Qed.

(** Consecutive failures. *)
Lemma failures_count times b :
  _state b = CLOSED → (0 ≤ _failures b)%Z → (_failures b + Z.of_nat (length times) < _failure_threshold)%Z →
  run_ops (Failure <$> times) b = Breaker CLOSED (_failures b + Z.of_nat (length times)) (_opened_at b) (_probing b).
Proof.
  revert b. induction times as [|t times IH]; intros b Hs H0 Hlt; simpl.
  { destruct b. simpl in *. subst. f_equal. lia. }
  unfold record_failure. rewrite Hs. cbn [length] in Hlt. rewrite decide_False by lia.
  rewrite IH; simpl; [f_equal; lia|done|lia|lia].
Qed.

End breaker.

(** ** Properties *)

(** The circuit breaker. Starting closed, it lets every request through
    until [threshold] failures in a row have been reported, and the one that
    reaches the threshold opens it; whatever history led there, an open breaker
    refuses every request before the cooldown has passed, and then lets exactly
    one through however many ask, all others being refused until an outcome is
    reported; a reported success closes it and clears the count, and a reported
    failure of the probe starts a new cooldown. *)
Theorem breaker_correct (failures cooldown : Z) (os : list op) :
  let threshold := _failure_threshold failures in
  let b := run_ops failures cooldown os initial in
  (∀ times t, (Z.of_nat (length times) + 1 = threshold)%Z →
     let b' := run_ops failures cooldown (Failure <$> times) initial in
     _state b' = CLOSED ∧ (∀ ts, asks cooldown ts b' = (replicate (length ts) true, b'))
     ∧ record_failure failures t b' = Breaker OPEN threshold t false)
  ∧ (_state b = OPEN → ∀ early t late,
       Forall (λ x, x < _opened_at b + _reset_seconds cooldown)%Z early → (_opened_at b + _reset_seconds cooldown ≤ t)%Z →
       (asks cooldown (early ++ t :: late) b).1
         = replicate (length early) false ++ true :: replicate (length late) false
       ∧ let b' := (asks cooldown (early ++ t :: late) b).2 in
         record_success b' = initial
         ∧ ∀ t', record_failure failures t' b' = Breaker OPEN (_failures b) t' false)
  ∧ (_state b = CLOSED ∧ (_failures b < threshold)%Z ∧ _probing b = false
     ∨ _state b = OPEN ∧ (threshold ≤ _failures b)%Z ∧ _probing b = false
     ∨ _state b = HALF_OPEN ∧ (threshold ≤ _failures b)%Z ∧ _probing b = true).
Proof.
  cbv zeta. split_and!.
  - intros times t Hn. rewrite (failures_count failures cooldown times initial) by (simpl; lia || done).
    split_and!; [done|intros ts; by apply asks_closed|].
    unfold record_failure. simpl. rewrite decide_True by lia. f_equal. lia.
  - intros Hs early t late He Ht. set (b := run_ops _ _ os initial) in *.
    rewrite (asks_cooling cooldown early (t :: late) b Hs He). simpl.
    unfold allow. rewrite Hs. rewrite decide_True by lia. rewrite asks_probing by done. simpl. done.
  - pose proof (breaker_ok_ops failures cooldown os initial (breaker_ok_initial failures)) as H.
    unfold breaker_ok in H. destruct (_state _); tauto.
Qed.

(** A probe whose outcome is never reported leaves the breaker shut for good:
    [_request] records nothing when its call is abandoned, and then refuses
    every later call, however long after the cooldown. *)
Lemma abandoned_probe_blocks_forever :
  let b := run_ops 1 1000 [Failure 0] initial in
  let b' := (_request 1 1000 1000 1000 Abandoned b).2 in
  ∀ asked answered f, (_request 1 1000 asked answered f b') = (Unavailable, b').
Proof. reflexivity. Qed.
