(* ===== verification/Cache.v ===== *)
(** * The read-through cache

    Model of [core/cache.py]: keys, TTLs, guarded refills and invalidation, and
    [cached_read] with the outcome of the lock of [core/cache_lock.py]. Calls
    that find an entry never reach the loader; calls that do not share one
    loader run inside a process ([core/singleflight.py]), so one call stands
    for all of them.

    Redis is a map from keys to values with an expiry time, in milliseconds. A
    stored value is what [json.loads] makes of it. What other processes do
    while the lock is awaited or the loader runs is a list of timed operations. *)

From S2P Require Import Prelude.

(** ** Keys *)

(** [s.replace("%", "%25").replace("|", "%7C")] *)
Fixpoint replace_char (c : ascii) (by_ : string) (s : string) : string :=
  match s with
  | EmptyString => EmptyString
  | String d s => if decide (d = c) then (by_ +:+ replace_char c by_ s)%string else String d (replace_char c by_ s)
  end.

Definition _escape_seg (seg : string) : string :=
  replace_char "|" "%7C" (replace_char "%" "%25" seg).

(** ["|".join(seg)] *)
Fixpoint join_bar (l : list string) : string :=
  match l with
  | [] => ""
  | [s] => s
  | s :: l => (s +:+ "|" +:+ join_bar l)%string
  end.

(** [settings.env or "dev"] *)
Definition _cache_env (env : string) : string := if decide (env = ""%string) then "dev" else env.

Definition make_key (env prefix : string) (parts : list (option string)) : string :=
  ("lkm:" +:+ _cache_env env +:+ ":" +:+ prefix +:+ ":"
   +:+ join_bar ((λ p, _escape_seg (default "" p)) <$> parts))%string.

Definition _invalidation_key (key : string) : string := ("lkm:cache:invalidated:" +:+ key)%string.

(** ** TTLs

    [random.random()] is [r / 2^53]; the product is taken exactly. *)
Definition _TTL_JITTER_RATIO_tenths : Z := 3.

Definition jitter_ttl (base_seconds : Z) (lower_only : bool) (r : Z) : Z :=
  if decide (base_seconds ≤ 0)%Z then 1%Z else
  let j := _TTL_JITTER_RATIO_tenths in
  let factor := (if lower_only then 10 * 2 ^ 53 - j * r else (10 - j) * 2 ^ 53 + 2 * j * r)%Z in
  Z.max 1 (base_seconds * factor / (10 * 2 ^ 53)).

Definition _INVALIDATION_GUARD_TTL : Z := 60000.

(** ** Redis *)
Section cache.
Context {V : Type} `{!EqDecision V}.
(** [_NULL_MARKER] *)
Variable null_marker : V.

(** What a key holds: a JSON document, the JSON [null], something that is not
    JSON, or an invalidation token. *)
Inductive raw := Json (v : V) | JsonNull | Malformed | Token (t : string).

#[local] Instance raw_eq_dec : EqDecision raw.
Proof. unfold EqDecision, Decision. decide equality; apply decide; apply _. Defined.

Abbreviation redis := (gmap string (raw * Z)).

(** [GET] *)
Definition get (now : Z) (key : string) (s : redis) : option raw :=
  match s !! key with
  | Some (v, deadline) => if decide (now < deadline)%Z then Some v else None
  | None => None
  end.

(** [json.loads]; [None] for [null] and for an exception. *)
Definition loads (r : raw) : option V := match r with Json v => Some v | _ => None end.

Definition cache_get (now : Z) (key : string) (s : redis) : option V := get now key s ≫= loads.

Definition set_raw (now : Z) (key : string) (v : raw) (ttl_s : Z) (s : redis) : redis :=
  <[key := (v, (now + 1000 * ttl_s)%Z)]> s.

(** [ttl_s] is already jittered. *)
Definition cache_set (now : Z) (key : string) (v : V) (ttl_s : Z) (s : redis) : redis :=
  set_raw now key (Json v) ttl_s s.

(** One transaction per backend; the tokens are [uuid4().hex]. *)
Definition cache_invalidate (now : Z) (keys : list (string * string)) (s : redis) : redis :=
  foldl (λ s k, delete k s)
    (foldl (λ s p, <[_invalidation_key p.1 := (Token p.2, (now + _INVALIDATION_GUARD_TTL)%Z)]> s) s keys) keys.*1.

(** [token] is what the guard read; [checked_at] the clock when the elapsed time
    is looked at, [now] the time of the transaction, [conflict] whether [WATCH]
    fails it. *)
Definition _set_if_not_invalidated (key : string) (value : V) (ttl_s : Z) (token : option raw)
    (started_at checked_at now : Z) (conflict : bool) (s : redis) : redis :=
  if decide (_INVALIDATION_GUARD_TTL ≤ checked_at - started_at)%Z then s else
  if decide (get now (_invalidation_key key) s ≠ token) then s else
  match cache_get now key s with
  | Some _ => s
  | None => if conflict then s else set_raw now key (Json value) ttl_s s
  end.

(** ** Other processes *)
Inductive other :=
  | OSet (key : string) (v : V) (ttl_s : Z)
  | OInvalidate (keys : list (string * string))
  | ODelete (key : string).               (* an expiry or an eviction of a cache entry *)

Definition run_other (now : Z) (o : other) (s : redis) : redis :=
  match o with
  | OSet key v ttl_s => cache_set now key v ttl_s s
  | OInvalidate keys => cache_invalidate now keys s
  | ODelete key => delete key s
  end.

Fixpoint run_others (l : list (Z * other)) (s : redis) : redis :=
  match l with [] => s | (now, o) :: l => run_others l (run_other now o s) end.

(** ** [cached_read]

    The circumstances of one call: whether Redis is reachable for the key, the
    lock's outcome and setting, whether the guard could be read, the clock at
    each step and what the others do in between. *)
Record Circumstances := MkCircumstances {
  reachable : bool; held : bool; cache_lock_enabled : bool; guard_ok : bool;
  read_at : Z; others_waiting : list (Z * other); reread_at : Z; guard_at : Z; started_at : Z;
  others_loading : list (Z * other); checked_at : Z; filled_at : Z; conflict : bool; jitter : Z
}.

Definition answer (v : V) : option V := if decide (v = null_marker) then None else Some v.

Definition cached_read (c : Circumstances) (key : string) (ttl_seconds : Z) (loaded : option V)
    (null_ttl : option Z) (s : redis) : option V * redis :=
  let read now s := if reachable c then cache_get now key s else None in
  match read (read_at c) s with
  | Some v => (answer v, s)
  | None =>
      let s := run_others (others_waiting c) s in
      match read (reread_at c) s with
      | Some v => (answer v, run_others (others_loading c) s)
      | None =>
          let can_fill := (held c || negb (cache_lock_enabled c)) && reachable c in
          let token := get (guard_at c) (_invalidation_key key) s in
          let s := run_others (others_loading c) s in
          let fill v ttl := _set_if_not_invalidated key v (jitter_ttl ttl false (jitter c)) token
                              (started_at c) (checked_at c) (filled_at c) (conflict c) s in
          (loaded,
           if can_fill && guard_ok c then
             match loaded, null_ttl with
             | Some v, _ => fill v ttl_seconds
             | None, Some ttl => fill null_marker ttl
             | None, None => s
             end
           else s)
      end
  end.

(** ** Lemmas *)
Lemma invalidation_key_inj k1 k2 : _invalidation_key k1 = _invalidation_key k2 → k1 = k2.
Proof. intros H. by apply (append_inj "lkm:cache:invalidated:" _ "lkm:cache:invalidated:" _) in H as [_ ->]. Qed.

(** The keys an operation writes as cache entries. *)
Definition touched (o : other) : list string :=
  match o with OSet k _ _ | ODelete k => [k] | OInvalidate ks => ks.*1 end.

Definition tokens_for (key : string) (o : other) : list string :=
  match o with OInvalidate ks => (filter (λ p, p.1 = key) ks).*2 | _ => [] end.

Lemma get_delete_ne now k j s : k ≠ j → get now k (delete j s) = get now k s.
Proof. intros Hne. unfold get. by rewrite lookup_delete_ne. Qed.

Lemma lookup_deletes (ks : list string) (s : redis) k :
  k ∉ ks → foldl (λ s j, delete j s) s ks !! k = s !! k.
Proof.
  revert s. induction ks as [|j ks IH]; intros s Hk; simpl; [done|].
  apply not_elem_of_cons in Hk as [Hne Hk]. rewrite IH by done. by apply lookup_delete_ne.
Qed.

Lemma guards_set now (l : list (string * string)) (s : redis) key :
  foldl (λ s p, <[_invalidation_key p.1 := (Token p.2, (now + _INVALIDATION_GUARD_TTL)%Z)]> s) s l !! _invalidation_key key
  = match last (filter (λ p, p.1 = key) l) with
    | Some p => Some (Token p.2, (now + _INVALIDATION_GUARD_TTL)%Z)
    | None => s !! _invalidation_key key
    end.
Proof.
  induction l as [|[k t] l IH] using rev_ind; [done|]. rewrite foldl_app, filter_app. simpl.
  destruct (decide (k = key)) as [->|Hk].
  - rewrite filter_cons_True by done. change (filter _ []) with (@nil (string * string)). rewrite last_snoc. apply lookup_insert_eq.
  - rewrite filter_cons_False by done. change (filter _ []) with (@nil (string * string)). rewrite app_nil_r, <-IH. apply lookup_insert_ne.
    intros H. by apply invalidation_key_inj in H.
Qed.

(** After an invalidation the guard holds one of its tokens; otherwise an
    operation on cache entries leaves it alone. *)
Lemma run_other_guard now o (s : redis) key :
  (∀ k, k ∈ touched o → k ≠ _invalidation_key key) →
  run_other now o s !! _invalidation_key key = s !! _invalidation_key key ∧ tokens_for key o = []
  ∨ ∃ t, t ∈ tokens_for key o
      ∧ run_other now o s !! _invalidation_key key = Some (Token t, (now + _INVALIDATION_GUARD_TTL)%Z).
Proof.
  intros Hne. destruct o as [k v ttl|ks|k]; simpl in *.
  - left. split; [|done]. apply lookup_insert_ne, Hne, list_elem_of_here.
  - unfold cache_invalidate. rewrite lookup_deletes by (intros H; by apply (Hne _ H)).
    rewrite guards_set. destruct (last (filter (λ p, p.1 = key) ks)) as [p|] eqn:Hl.
    + right. exists p.2. split; [|done]. apply list_elem_of_fmap. exists p. split; [done|]. by apply last_Some_elem_of.
    + left. split; [done|]. apply last_None in Hl. by rewrite Hl.
  - left. split; [|done]. apply lookup_delete_ne, Hne, list_elem_of_here.
Qed.

(** The others' operations happen in a span of time, on cache entries. *)
Definition within (from to_ : Z) (key : string) (l : list (Z * other)) : Prop :=
  Forall (λ p, (from ≤ p.1 ≤ to_)%Z ∧ ∀ k, k ∈ touched p.2 → k ≠ _invalidation_key key) l.

Definition invalidated (key : string) (l : list (Z * other)) : list string := l ≫= λ p, tokens_for key p.2.

Lemma guard_stays from to_ key l (s : redis) (ts : list string) :
  within from to_ key l → (∀ t, t ∈ invalidated key l → t ∈ ts) →
  (∃ t d, t ∈ ts ∧ s !! _invalidation_key key = Some (Token t, d) ∧ (from + _INVALIDATION_GUARD_TTL ≤ d)%Z)
  ∨ invalidated key l ≠ [] →
  ∃ t d, t ∈ ts ∧ run_others l s !! _invalidation_key key = Some (Token t, d) ∧ (from + _INVALIDATION_GUARD_TTL ≤ d)%Z.
Proof.
  intros Hw. revert s. induction Hw as [|[now o] l [Ht Hne] Hw IH]; intros s Hts H; simpl.
  { by destruct H. }
  apply IH; [intros t Hin; apply Hts; apply elem_of_app; by right|].
  destruct (run_other_guard now o s key Hne) as [[He Hnil]|(t & Hin & He)].
  - unfold invalidated in H. simpl in H. rewrite Hnil in H. destruct H as [H|H]; [left; by rewrite He|by right].
  - left. exists t, (now + _INVALIDATION_GUARD_TTL)%Z. split_and!; [apply Hts, elem_of_app; by left|done|]. simpl in Ht. lia.
Qed.

(** A refill that spans an invalidation is not written. *)
Lemma fill_refused key v ttl token started checked now conf (s : redis) t d :
  s !! _invalidation_key key = Some (Token t, d) → (now < d)%Z → token ≠ Some (Token t) →
  _set_if_not_invalidated key v ttl token started checked now conf s = s.
Proof.
  intros Hs Hd Ht. unfold _set_if_not_invalidated. destruct (decide _); [done|].
  rewrite decide_True; [done|]. unfold get. rewrite Hs, decide_True by done. congruence.
Qed.

End cache.
Arguments raw : clear implicits.
Arguments other : clear implicits.
Arguments Circumstances : clear implicits.

(** *** Keys *)

(** One character at a time, the escape is a code. *)
Definition code (c : ascii) : string :=
  if decide (c = "%"%char) then "%25" else if decide (c = "|"%char) then "%7C" else String c "".

Lemma escape_cons c s : _escape_seg (String c s) = (code c +:+ _escape_seg s)%string.
Proof.
  unfold _escape_seg, code. simpl. destruct (decide (c = "%"%char)) as [->|H1]; [reflexivity|].
  cbn [replace_char]. by destruct (decide (c = "|"%char)).
Qed.

Fixpoint no_bar (s : string) : bool :=
  match s with EmptyString => true | String c s => bool_decide (c ≠ "|"%char) && no_bar s end.

Lemma no_bar_app a b : no_bar (a +:+ b) = no_bar a && no_bar b.
Proof.
  induction a as [|c a IH]; [done|]. rewrite append_cons. simpl. by rewrite IH, andb_assoc.
Qed.

Lemma escape_no_bar s : no_bar (_escape_seg s) = true.
Proof.
  induction s as [|c s IH]; [done|]. rewrite escape_cons, no_bar_app, IH, andb_true_r. unfold code.
  destruct (decide (c = "%"%char)); [done|]. destruct (decide (c = "|"%char)); [done|].
  simpl. by rewrite bool_decide_true.
Qed.

Lemma code_inj c d a b : (code c +:+ a = code d +:+ b)%string → c = d ∧ a = b.
Proof.
  unfold code. destruct (decide (c = "%"%char)) as [->|H1]; destruct (decide (d = "%"%char)) as [->|H2].
  - intros H. by injection H.
  - destruct (decide (d = "|"%char)) as [->|H3]; intros H; [by injection H|]. injection H. congruence.
  - destruct (decide (c = "|"%char)) as [->|H3]; intros H; [by injection H|]. injection H. congruence.
  - destruct (decide (c = "|"%char)) as [->|H3]; destruct (decide (d = "|"%char)) as [->|H4]; intros H.
    + by injection H.
    + injection H. congruence.
    + injection H. congruence.
    + by injection H.
Qed.

Lemma code_cons c a : ∃ d e, (code c +:+ a)%string = String d e.
Proof. unfold code. destruct (decide _); [eexists _, _; reflexivity|]. destruct (decide _); eexists _, _; reflexivity. Qed.

Lemma escape_inj s t : _escape_seg s = _escape_seg t → s = t.
Proof.
  revert t. induction s as [|c s IH]; intros [|d t] H; [done| | |].
  - rewrite escape_cons in H. destruct (code_cons d (_escape_seg t)) as (x & y & He). rewrite He in H. done.
  - rewrite escape_cons in H. destruct (code_cons c (_escape_seg s)) as (x & y & He). rewrite He in H. done.
  - rewrite !escape_cons in H. apply code_inj in H as [-> H]. f_equal. auto.
Qed.

Lemma bar_split a b x y :
  no_bar a = true → no_bar b = true → (a +:+ "|" +:+ x = b +:+ "|" +:+ y)%string → a = b ∧ x = y.
Proof.
  revert b. induction a as [|c a IH]; intros [|d b] Ha Hb H; simpl in Ha, Hb.
  - split; [done|]. by injection H.
  - apply andb_true_iff in Hb as [Hd%bool_decide_eq_true _]. rewrite append_cons in H. injection H. congruence.
  - apply andb_true_iff in Ha as [Hc%bool_decide_eq_true _]. rewrite append_cons in H. injection H. congruence.
  - apply andb_true_iff in Ha as [_ Ha]. apply andb_true_iff in Hb as [_ Hb]. rewrite !append_cons in H.
    injection H as -> H. destruct (IH b Ha Hb H) as [-> ->]. done.
Qed.

Lemma bar_none a b x : no_bar a = true → (a = b +:+ "|" +:+ x)%string → False.
Proof.
  intros Ha ->. rewrite !no_bar_app in Ha. simpl in Ha. by rewrite andb_false_r in Ha.
Qed.

Lemma join_bar_inj l1 l2 :
  l1 ≠ [] → l2 ≠ [] → Forall (λ s, no_bar s = true) l1 → Forall (λ s, no_bar s = true) l2 →
  join_bar l1 = join_bar l2 → l1 = l2.
Proof.
  intros Hn1 Hn2 H1. revert l2 Hn2. induction H1 as [|a l1 Ha H1 IH]; intros l2 Hn2 H2 H; [done|].
  destruct H2 as [|b l2 Hb H2]; [done|].
  destruct l1 as [|a' l1], l2 as [|b' l2].
  - simpl in H. by subst.
  - exfalso. exact (bar_none a b _ Ha H).
  - exfalso. exact (bar_none b a _ Hb (eq_sym H)).
  - change (a +:+ "|" +:+ join_bar (a' :: l1) = b +:+ "|" +:+ join_bar (b' :: l2))%string in H.
    apply bar_split in H as [-> H]; [|done|done]. f_equal. by apply IH.
Qed.

(** ** Properties *)

(** A refill never brings back what was invalidated while it was loading.
    Suppose a call of [cached_read] misses, reads the guard and loads, and while
    it loads somebody invalidates the key (with a token never used before).
    Then, provided its write comes less than the guard's lifetime after it read
    the guard, the call leaves Redis exactly as the others made it, whatever the
    lock, the conflicts and the jitter; and it still returns what it loaded. *)
Theorem stale_load_not_cached {V} `{!EqDecision V} (null_marker : V) (c : Circumstances V) (key : string)
    (ttl : Z) (loaded : option V) (null_ttl : option Z) (s : gmap string (raw V * Z))
    (Hmiss1 : cache_get (read_at c) key s = None)
    (Hmiss2 : cache_get (reread_at c) key (run_others (others_waiting c) s) = None)
    (Hothers : within (guard_at c) (filled_at c) key (others_loading c))
    (Hinv : invalidated key (others_loading c) ≠ [])
    (Hfresh : ∀ t, t ∈ invalidated key (others_loading c) →
        get (guard_at c) (_invalidation_key key) (run_others (others_waiting c) s) ≠ Some (Token t))
    (Htime : (filled_at c < guard_at c + _INVALIDATION_GUARD_TTL)%Z) :
  cached_read null_marker c key ttl loaded null_ttl s
    = (loaded, run_others (others_loading c) (run_others (others_waiting c) s)).
Proof.
  assert (Hg := guard_stays (guard_at c) (filled_at c) key (others_loading c) (run_others (others_waiting c) s) _
                  Hothers (λ t H, H) (or_intror Hinv)).
  destruct Hg as (t & d & Ht & Hd & Hle).
  assert (Hfill : ∀ v n, _set_if_not_invalidated key v (jitter_ttl n false (jitter c))
      (get (guard_at c) (_invalidation_key key) (run_others (others_waiting c) s))
      (started_at c) (checked_at c) (filled_at c) (conflict c) (run_others (others_loading c) (run_others (others_waiting c) s))
      = run_others (others_loading c) (run_others (others_waiting c) s)).
  { intros v n. eapply fill_refused; [exact Hd|lia|by apply Hfresh]. }
  unfold cached_read. destruct (reachable c); rewrite ?Hmiss1, ?Hmiss2.
  - destruct (_ && guard_ok c); [|done]. destruct loaded as [v|]; [by rewrite Hfill|].
    destruct null_ttl; [by rewrite Hfill|done].
  - by rewrite andb_false_r.
Qed.

Definition quiet : Circumstances nat :=
  MkCircumstances true true true true 0 [] 0 0 0 [(1%Z, OInvalidate [("k", "t")])] 10 20 false 0.

Lemma stale_load_not_cached_witness :
  cached_read 99 quiet "k" 300 (Some 7) None ∅ = (Some 7, run_others (others_loading quiet) ∅).
Proof.
  apply (stale_load_not_cached 99 quiet "k" 300 (Some 7) None ∅).
  - reflexivity.
  - reflexivity.
  - constructor; [|constructor]. split; [simpl; lia|]. intros k Hk. apply list_elem_of_singleton in Hk. subst. done.
  - done.
  - intros t _. discriminate.
  - simpl. unfold _INVALIDATION_GUARD_TTL. lia.
Defined.

(** The bound on the time is needed: the code takes its start after reading the
    guard and looks at the elapsed time before reading it again, so a load of
    just under a minute can outlive the token of an invalidation. *)
Lemma late_fill_brings_back_stale :
  let c := MkCircumstances true true true true 0 [] 0 0 5 [(1%Z, OInvalidate [("k", "t")])] 60004 60010 false 0 in
  let s := (cached_read 99 c "k" 300 (Some 7) None ∅).2 in
  (checked_at c - started_at c < _INVALIDATION_GUARD_TTL)%Z ∧ cache_get 60011 "k" s = Some 7.
Proof. split; reflexivity. Qed.

(** Cache keys do not collide. With at least one part, two keys of one
    namespace are equal exactly when their parts are, position by position and
    whatever characters they contain, [None] counting as the empty string. *)
Theorem make_key_injective (env prefix : string) (l1 l2 : list (option string)) (H1 : l1 ≠ []) (H2 : l2 ≠ []) :
  make_key env prefix l1 = make_key env prefix l2 ↔ default ""%string <$> l1 = default ""%string <$> l2.
Proof.
  assert (Hm : ∀ l, make_key env prefix l = (("lkm:" +:+ _cache_env env +:+ ":" +:+ prefix +:+ ":")
      +:+ join_bar (_escape_seg <$> (default "" <$> l)))%string).
  { intros l. unfold make_key. rewrite <-list_fmap_compose. by rewrite !string_app_assoc. }
  rewrite !Hm. split; [|by intros ->].
  intros H. apply append_inj in H as [_ H]; [|done].
  assert (Hno : ∀ l : list string, Forall (λ s, no_bar s = true) (_escape_seg <$> l)).
  { intros l. apply Forall_fmap, Forall_true. intros s. apply escape_no_bar. }
  apply join_bar_inj in H; [|by destruct l1|by destruct l2|apply Hno|apply Hno].
  revert H. generalize (default ""%string <$> l1) (default ""%string <$> l2). clear.
  intros k1. induction k1 as [|a k1 IH]; intros [|b k2] H; try done. simpl in H. injection H as Ha H.
  f_equal; [by apply escape_inj|by apply IH].
Qed.

Lemma make_key_injective_witness :
  make_key "prod" "list" [Some "a|b"; Some "c"] ≠ make_key "prod" "list" [Some "a"; Some "b|c"].
Proof.
  intros H. apply (make_key_injective "prod" "list" [Some "a|b"; Some "c"] [Some "a"; Some "b|c"]) in H; [discriminate|done|done].
Defined.
