(* ===== verification/SnapCache.v ===== *)
(** * User snapshots in Redis and their epochs

    Model of the Redis side of [core/user_cache.py]: the snapshot of one user,
    its invalidation epoch, the compare-and-set refill and the negative entry.
    The in-process mirror is [LocalCache]. Times are microseconds.

    A refill runs in three steps that others interleave with: it reads the epoch
    ([current_epoch]), reads the database, and writes ([write_if_newer]). What
    the others do, restarts of Redis included, is a list of operations. *)

From S2P Require Import Prelude.

Section snap.
(** The fields of a snapshot. *)
Context {D : Type}.

(** The JSON document under the snapshot's key. *)
Record snapshot := Snap { sv : option Z; data : option D; neg : bool }.

(** The two keys of a user; a snapshot with its deadline. *)
Record keys := Keys { snap : option (snapshot * Z); epoch : option Z }.

Definition empty_keys : keys := Keys None None.

Definition _EPOCH_ABSENT : Z := 0.
Definition _MAX_CAS_RETRY : nat := 8.
Definition _NEG_SV : Z := 0.
Definition _NEG_TTL_S : Z := 30.

(** [_to_int(await pipe.get(ekey))] *)
Definition epoch_value (s : keys) : Z := default _EPOCH_ABSENT (epoch s).

(** [up]: Redis answers. *)
Definition current_epoch (up : bool) (now : Z) (s : keys) : Z * keys :=
  if negb up then (_EPOCH_ABSENT, s) else
  match epoch s with
  | Some e => (e, s)
  | None => (now, Keys (snap s) (Some now))
  end.

Definition get_snap (now : Z) (s : keys) : option snapshot :=
  match snap s with
  | Some (x, deadline) => if decide (now < deadline)%Z then Some x else None
  | None => None
  end.

(** [invalidate_user_snap]: INCR and DEL in one transaction. *)
Definition invalidate_user_snap (up : bool) (s : keys) : keys :=
  if up then Keys None (Some (epoch_value s + 1)%Z) else s.

(** One attempt of the compare-and-set: the two guards under [WATCH]. *)
Definition may_write (now source_version expected_epoch : Z) (s : keys) : bool :=
  match get_snap now s with
  | Some x => match sv x with Some v => bool_decide (v ≤ source_version)%Z | None => true end
  | None => true
  end && bool_decide (epoch_value s = expected_epoch).

Definition write_snap (now ttl_seconds source_version : Z) (d : option D) (negative : bool) (s : keys) : keys :=
  Keys (Some (Snap (Some source_version) d negative, (now + 1000000 * ttl_seconds)%Z)) (epoch s).

(** ** The others *)
Inductive other :=
  | Invalidate
  | Epoch (now : Z)                                  (* somebody's [current_epoch] *)
  | Write (now ttl version expected : Z) (d : option D) (negative : bool)   (* an attempt of another refill *)
  | Expire                                           (* the snapshot's TTL runs out, or it is evicted *)
  | Restart.                                         (* Redis loses everything *)

Definition run_other (o : other) (s : keys) : keys :=
  match o with
  | Invalidate => invalidate_user_snap true s
  | Epoch now => (current_epoch true now s).2
  | Write now ttl v e d n => if may_write now v e s then write_snap now ttl v d n s else s
  | Expire => Keys None (epoch s)
  | Restart => empty_keys
  end.

Fixpoint run_others (l : list other) (s : keys) : keys :=
  match l with [] => s | o :: l => run_others l (run_other o s) end.

(** [write_if_newer]: [conflicts] is what the others do between the reads and
    the execution of each attempt that fails with [WatchError]. *)
Fixpoint cas_loop (retries : nat) (conflicts : list (list other)) (now ttl v e : Z) (d : option D) (negative : bool)
    (s : keys) : bool * keys :=
  match retries with
  | O => (false, s)
  | S retries =>
      if negb (may_write now v e s) then (false, s) else
      match conflicts with
      | [] => (true, write_snap now ttl v d negative s)
      | l :: conflicts => cas_loop retries conflicts now ttl v e d negative (run_others l s)
      end
  end.

(** [ttl] is already jittered. *)
Definition write_if_newer (up : bool) (conflicts : list (list other)) (now ttl v e : Z) (d : option D) (negative : bool)
    (s : keys) : bool * keys :=
  if up then cas_loop _MAX_CAS_RETRY conflicts now ttl v e d negative s else (false, s).

Definition write_negative (up : bool) (conflicts : list (list other)) (now ttl e : Z) (s : keys) : bool * keys :=
  write_if_newer up conflicts now ttl _NEG_SV e None true s.

(** [read_snap_state] without the in-process mirror: a known absence, the data
    of a hit, or a miss. [bloom] is the answer of the Bloom filter. *)
Definition read_snap_state (up bloom_absent : bool) (now : Z) (s : keys) : bool * option D :=
  if negb up then (false, None) else
  match get_snap now s with
  | None => (bloom_absent, None)
  | Some x => if neg x then (true, None) else (false, data x)
  end.

(** ** Lemmas *)
Definition no_restart (l : list other) : Prop := Forall (λ o, o ≠ Restart) l.

Lemma run_others_app l1 l2 s : run_others (l1 ++ l2) s = run_others l2 (run_others l1 s).
Proof. revert s. induction l1 as [|o l1 IH]; intros s; simpl; [done|apply IH]. Qed.

(** Without a restart an epoch that exists only grows, and grows strictly with
    each invalidation. *)
Fixpoint invalidations (l : list other) : Z :=
  match l with
  | [] => 0
  | Invalidate :: l => 1 + invalidations l
  | _ :: l => invalidations l
  end.

Lemma invalidations_nonneg l : (0 ≤ invalidations l)%Z.
Proof. induction l as [|[] l IH]; simpl; lia. Qed.

Lemma invalidations_pos l : Invalidate ∈ l → (0 < invalidations l)%Z.
Proof.
  induction l as [|o l IH]; intros Hin; [by apply elem_of_nil in Hin|].
  pose proof (invalidations_nonneg l).
  apply elem_of_cons in Hin as [<-|Hin]; [simpl; lia|]. specialize (IH Hin). destruct o; simpl; lia.
Qed.

Lemma epoch_grows l s e :
  no_restart l → epoch s = Some e → epoch (run_others l s) = Some (e + invalidations l)%Z.
Proof.
  intros Hl. revert s e. induction Hl as [|o l Ho Hl IH]; intros s e He; simpl.
  { rewrite He. f_equal. lia. }
  destruct o as [|now|now ttl v x d n| |]; simpl; try done.
  - rewrite (IH _ (e + 1)%Z); [f_equal; lia|]. unfold invalidate_user_snap, epoch_value. simpl. by rewrite He.
  - apply IH. unfold current_epoch. simpl. by rewrite He.
  - apply IH. by destruct (may_write now v x s).
  - by apply IH.
Qed.

Lemma may_write_epoch now v e s : may_write now v e s = true → epoch_value s = e.
Proof. unfold may_write. rewrite andb_true_iff. intros [_ H]. by apply bool_decide_eq_true in H. Qed.

(** A refill whose epoch is out of date does not write. *)
Lemma cas_refused up conflicts now ttl v e d n s :
  epoch_value s ≠ e → write_if_newer up conflicts now ttl v e d n s = (false, s).
Proof.
  intros Hne. unfold write_if_newer. destruct up; [|done]. simpl.
  destruct (may_write now v e s) eqn:Hm; [|done]. by apply may_write_epoch in Hm.
Qed.

End snap.
Arguments snapshot : clear implicits.
Arguments keys : clear implicits.
Arguments other : clear implicits.

(** ** Properties *)

(** A refill never revives an invalidated snapshot, as long as the epoch it
    read is a real one. Whoever read the epoch [e] from Redis, and whatever the
    others did afterwards: if the user was invalidated in between and Redis did
    not restart, the refill is refused and leaves Redis alone; the same if Redis
    restarted and the first to touch the epoch afterwards was a reader, whose
    clock is past [e]. A refill that is accepted does not replace a newer
    version, and what it leaves carries its own version. *)
Theorem stale_snapshot_refused {D} (now_r : Z) (s0 : keys D) (l : list (other D))
    (conflicts : list (list (other D))) (now ttl v : Z) (d : option D) (n : bool) :
  let '(e, s1) := current_epoch true now_r s0 in
  let s := run_others l s1 in
  (no_restart l ∧ Invalidate ∈ l
   ∨ (∃ l1 t l2, l = l1 ++ Restart :: Epoch t :: l2 ∧ no_restart l2 ∧ (e < t)%Z) →
   write_if_newer true conflicts now ttl v e d n s = (false, s))
  ∧ ∀ s', write_if_newer true [] now ttl v e d n s = (true, s') →
      get_snap now s' = (if decide (0 < ttl)%Z then Some (Snap (Some v) d n) else None)
      ∧ epoch s' = epoch s
      ∧ ∀ x v', get_snap now s = Some x → sv x = Some v' → (v' ≤ v)%Z.
Proof.
  assert (He : ∃ e, epoch (current_epoch true now_r s0).2 = Some e ∧ (current_epoch true now_r s0).1 = e).
  { unfold current_epoch. simpl. destruct (epoch s0) as [e|] eqn:He; eauto. }
  destruct (current_epoch true now_r s0) as [e s1]. destruct He as (e' & He & <-). simpl in He. cbv zeta. split.
  - intros [[Hl Hin]|(l1 & t & l2 & -> & Hl & Ht)]; apply cas_refused.
    + pose proof (invalidations_pos l Hin). unfold epoch_value. rewrite (epoch_grows l s1 e Hl He). simpl. lia.
    + rewrite run_others_app. pose proof (invalidations_nonneg l2). unfold epoch_value. simpl.
      rewrite (epoch_grows l2 _ t Hl) by done. simpl. lia.
  - intros s' Hw. unfold write_if_newer in Hw. simpl in Hw.
    destruct (may_write now v e (run_others l s1)) eqn:Hm; [|done]. injection Hw as <-. split_and!.
    + unfold get_snap, write_snap. simpl. destruct (decide (0 < ttl)%Z).
      * by rewrite decide_True by lia.
      * by rewrite decide_False by lia.
    + done.
    + intros x v' Hx Hv. unfold may_write in Hm. rewrite Hx, Hv in Hm. apply andb_true_iff in Hm as [Hm _].
      by apply bool_decide_eq_true in Hm.
Qed.

(** The comment of [current_epoch] promises start values that never repeat. An
    epoch recreated by [INCR] starts at 1 again, and a failed read counts as the
    epoch 0 of an absent key; so a refill that read the database before an
    invalidation can be accepted after a restart. *)
Lemma restarted_epoch_accepts_stale :
  let old : option string := Some "old name" in
  let before := run_others [Invalidate] empty_keys in
  let '(e, s) := current_epoch true 1000 before in
  let later := run_others [Restart; Invalidate] s in
  (write_if_newer true [] 2000 300 7 e old false later).1 = true.
Proof. reflexivity. Qed.

Lemma failed_epoch_accepts_stale :
  let old : option string := Some "old name" in
  let '(e, s) := current_epoch false 1000 (Keys None (Some 1000%Z)) in
  let later := run_others [Invalidate; Restart] s in
  (write_if_newer true [] 2000 300 7 e old false later).1 = true.
Proof. reflexivity. Qed.
