(* ===== verification/Accounts.v ===== *)
(** * Accounts

    Model of the account state of the auth service: locks ([auth/account_state.py]),
    admission ([auth/admission.py], [auth/service_admission.py]), the counter of
    failed logins and the token version ([UserRepository] of
    [auth/repository.py]), and one-way upgrades ([auth/service_authz.py]).

    Times are microseconds since the epoch; a request reads one clock. Every
    [UPDATE] of a row of [users] sets [updated_at] ([onupdate=now_iso]). *)

From S2P Require Import Prelude Roles Limiter.

(** ** Tables *)
Record User := MkUser {
  username : string;
  email : option string;
  phone : option string;
  hashed_password : string;
  account_level : string;
  is_locked : bool;
  locked_until : option Z;
  failed_login_attempts : Z;
  token_version : Z;
  admission_status : string;
  reviewed : option (Z * uuid);            (* admission_reviewed_at, admission_reviewed_by *)
  reject_reason : option string;
  last_rejected_at : option Z;
  updated_at : Z
}.

Record TOTP := MkTotp { secret : string; enabled : bool; failed_attempts : Z; last_counter : option Z }.

Record RefreshToken := MkRefresh {
  rt_user : uuid;
  kind : string;
  rt_mfa_verified : bool;
  rt_mfa_at : option Z;
  rt_active_roles : json;
  expires_at : Z;
  revoked_at : option Z
}.

Record tables := Tables {
  users : gmap uuid User;
  profiles : gmap uuid string;                 (* role *)
  user_roles : gset (uuid * string);
  totp : gmap uuid TOTP;
  refresh_tokens : gmap string RefreshToken;   (* by token_hash, which is unique *)
  revoked_jtis : gmap string Z;                (* RevokedAccessToken *)
  audit : list (uuid * string)
}.

(** What [auth/events.py] sends. *)
Inductive event :=
  | UserUpdated (u : uuid)
  | UserBanned (u : uuid)
  | UserSessionRevoke (u : uuid)
  | AuditLoginFail (u : uuid) (why ip : string)
  | AuditPermissionChange (u : uuid) (detail : string).

(** The auth database, and what a rollback does not undo: the events (own
    transactions), the second-level cache and the limiter's buckets. *)
Record world := World {
  db : tables;
  sent : list event;
  jti_block : gmap string Z;                   (* deadline *)
  tv_min : gmap uuid (Z * Z);                  (* version, deadline *)
  limiter : buckets;
  clock : Z
}.

Definition set_db (f : tables → tables) (w : world) : world :=
  World (f (db w)) (sent w) (jti_block w) (tv_min w) (limiter w) (clock w).

Definition set_users (f : gmap uuid User → gmap uuid User) : world → world :=
  set_db (λ d, Tables (f (users d)) (profiles d) (user_roles d) (totp d) (refresh_tokens d) (revoked_jtis d) (audit d)).

Definition set_profiles (f : gmap uuid string → gmap uuid string) : world → world :=
  set_db (λ d, Tables (users d) (f (profiles d)) (user_roles d) (totp d) (refresh_tokens d) (revoked_jtis d) (audit d)).

Definition set_totp (f : gmap uuid TOTP → gmap uuid TOTP) : world → world :=
  set_db (λ d, Tables (users d) (profiles d) (user_roles d) (f (totp d)) (refresh_tokens d) (revoked_jtis d) (audit d)).

Definition set_refresh (f : gmap string RefreshToken → gmap string RefreshToken) : world → world :=
  set_db (λ d, Tables (users d) (profiles d) (user_roles d) (totp d) (f (refresh_tokens d)) (revoked_jtis d) (audit d)).

Definition set_limiter (bs : buckets) (w : world) : world :=
  World (db w) (sent w) (jti_block w) (tv_min w) bs (clock w).

Abbreviation M := (prog world err).

Definition emit (e : event) : M () :=
  modify (λ w, World (db w) (sent w ++ [e]) (jti_block w) (tv_min w) (limiter w) (clock w)).

Definition log_audit (u : uuid) (action : string) : M () :=
  modify (set_db (λ d, Tables (users d) (profiles d) (user_roles d) (totp d) (refresh_tokens d) (revoked_jtis d)
                         (audit d ++ [(u, action)]))).

(** [get_auth_session]: commit, or roll the database back. *)
Definition transaction {A} (m : M A) : M A := λ w,
  match m w with
  | (Ok a, w') => (Ok a, w')
  | (Raise e, w') => (Raise e, set_db (λ _, db w) w')
  end.

Definition user_of (u : uuid) (w : world) : option User := users (db w) !! u.

(** ** Updates of a row of [users] *)
Definition touch (now : Z) (x : User) : User :=
  MkUser (username x) (email x) (phone x) (hashed_password x) (account_level x) (is_locked x) (locked_until x)
    (failed_login_attempts x) (token_version x) (admission_status x) (reviewed x) (reject_reason x)
    (last_rejected_at x) now.

Definition set_lock (l : bool) (until : option Z) (n : Z) (x : User) : User :=
  MkUser (username x) (email x) (phone x) (hashed_password x) (account_level x) l until n (token_version x)
    (admission_status x) (reviewed x) (reject_reason x) (last_rejected_at x) (updated_at x).

Definition set_level (level : string) (x : User) : User :=
  MkUser (username x) (email x) (phone x) (hashed_password x) level (is_locked x) (locked_until x)
    (failed_login_attempts x) (token_version x) (admission_status x) (reviewed x) (reject_reason x)
    (last_rejected_at x) (updated_at x).

Definition set_version (v : Z) (x : User) : User :=
  MkUser (username x) (email x) (phone x) (hashed_password x) (account_level x) (is_locked x) (locked_until x)
    (failed_login_attempts x) v (admission_status x) (reviewed x) (reject_reason x) (last_rejected_at x) (updated_at x).

Definition set_password (h : string) (x : User) : User :=
  MkUser (username x) (email x) (phone x) h (account_level x) (is_locked x) (locked_until x)
    (failed_login_attempts x) (token_version x) (admission_status x) (reviewed x) (reject_reason x)
    (last_rejected_at x) (updated_at x).

Definition update_user (u : uuid) (f : User → User) : M () :=
  modify (λ w, set_users (alter (λ x, touch (clock w) (f x)) u) w).

(** ** Locks *)
Definition lock_is_active (now : Z) (x : User) : bool :=
  is_locked x && match locked_until x with None => true | Some t => bool_decide (now < t)%Z end.

Definition clear_expired_lock (u : uuid) : M () :=
  w ← get_state;
  match user_of u w with
  | Some x =>
      match is_locked x, locked_until x with
      | true, Some t => if decide (clock w < t)%Z then mret tt else update_user u (set_lock false None 0)
      | _, _ => mret tt
      end
  | None => mret tt
  end.

(** [_check_account_locked]; the dummy hash only takes time. *)
Definition _check_account_locked (u : uuid) : M () :=
  w ← get_state;
  x ← get_or_raise (user_of u w) USER_NOT_FOUND;
  if negb (is_locked x) then mret tt else
  raise_when (lock_is_active (clock w) x) INVALID_CREDENTIALS ≫= λ _,
  clear_expired_lock u.

Definition _FAIL_LOCK_THRESHOLD : Z := 5.
Definition _FAIL_LOCK_MINUTES : Z := 15.
Definition minutes : Z := 60000000.

(** One [UPDATE]: every column reference is the old value. *)
Definition failed_login_stmt (now threshold lock_minutes : Z) (x : User) : User :=
  let locks := bool_decide (threshold - 1 ≤ failed_login_attempts x)%Z in
  set_lock locks (if locks then Some (now + lock_minutes * minutes)%Z else locked_until x)
    (failed_login_attempts x + 1) x.

Definition reset_login_failures_stmt (x : User) : User := set_lock false None 0 x.

(** [isolated_update] of one row: a savepoint of the caller's transaction. An
    integer outside its column is not one of the errors it swallows. *)
Definition _record_failed_attempt (u : uuid) : M bool :=
  w ← get_state;
  x ← get_or_raise (user_of u w) USER_NOT_FOUND;
  raise_when (negb (int32 (failed_login_attempts x + 1))) DataError ≫= λ _,
  update_user u (failed_login_stmt (clock w) _FAIL_LOCK_THRESHOLD _FAIL_LOCK_MINUTES) ≫= λ _,
  w ← get_state;
  x ← get_or_raise (user_of u w) USER_NOT_FOUND;
  mret (bool_decide (_FAIL_LOCK_THRESHOLD ≤ failed_login_attempts x)%Z).

(** ** Admission *)
Definition ACTIVE : string := "active".
Definition PENDING : string := "pending".
Definition REJECTED : string := "rejected".

Definition admission_status_of (x : User) : string :=
  if decide (admission_status x = ""%string) then ACTIVE else admission_status x.

Definition admission_is_active (x : User) : bool := bool_decide (admission_status_of x = ACTIVE).

Definition assert_admission_allowed (x : User) : M () :=
  raise_when (bool_decide (admission_status_of x = PENDING)) ADMISSION_PENDING ≫= λ _,
  raise_when (bool_decide (admission_status_of x = REJECTED)) ADMISSION_REJECTED.

(** ** Sessions of a user *)
Definition _MAX_TTL_S : Z := 900.
Definition second : Z := 1000000.

(** [set_token_version]: [cache] is the TTL after jitter, [None] when the write fails. *)
Definition set_token_version (u : uuid) (v : Z) (cache : option Z) : M () :=
  modify (λ w, match cache with
               | Some ttl => World (db w) (sent w) (jti_block w) (<[u := (v, clock w + ttl * second)%Z]> (tv_min w))
                               (limiter w) (clock w)
               | None => w
               end).

Definition bump_token_version (u : uuid) (cache : option Z) : M Z :=
  row ← gets (user_of u);
  match row with
  | None => mret 0%Z
  | Some x =>
      raise_when (negb (int32 (token_version x + 1))) DataError ≫= λ _,
      update_user u (λ x, set_version (token_version x + 1) x) ≫= λ _,
      set_token_version u (token_version x + 1) cache ≫= λ _,
      mret (token_version x + 1)%Z
  end.

Definition revoke_token (now : Z) (u : uuid) (t : RefreshToken) : RefreshToken :=
  if decide (rt_user t = u ∧ revoked_at t = None)
  then MkRefresh (rt_user t) (kind t) (rt_mfa_verified t) (rt_mfa_at t) (rt_active_roles t) (expires_at t) (Some now)
  else t.

Definition revoke_all_for_user (u : uuid) : M () :=
  modify (λ w, set_refresh (fmap (revoke_token (clock w) u)) w).

Definition revoke_all_refresh_tokens (u : uuid) (cache : option Z) : M () :=
  revoke_all_for_user u ≫= λ _,
  _ ← bump_token_version u cache;
  mret tt.

Inductive decision := Approve | Reject.

Definition review (now : Z) (by_ : uuid) (x : User) : User :=
  MkUser (username x) (email x) (phone x) (hashed_password x) (account_level x) (is_locked x) (locked_until x)
    (failed_login_attempts x) (token_version x) (admission_status x) (Some (now, by_)) (reject_reason x)
    (last_rejected_at x) (updated_at x).

Definition set_admission (status : string) (why : option string) (rejected : option Z) (x : User) : User :=
  MkUser (username x) (email x) (phone x) (hashed_password x) (account_level x) (is_locked x) (locked_until x)
    (failed_login_attempts x) (token_version x) status (reviewed x) why rejected (updated_at x).

Definition decide_admission (u reviewer : uuid) (action : decision) (why : string) (cache : option Z) : M () :=
  w ← get_state;
  x ← get_or_raise (user_of u w) USER_NOT_FOUND;
  raise_when (bool_decide (admission_status_of x ≠ PENDING)) CONFLICT ≫= λ _,
  let now := clock w in
  update_user u (review now reviewer) ≫= λ _,
  (match action with
   | Approve => update_user u (λ x, set_admission ACTIVE None (last_rejected_at x) x)
   | Reject =>
       let text := if decide (strip why = ""%string) then "管理员拒绝"%string else strip why in
       update_user u (set_admission REJECTED (Some text) (Some now)) ≫= λ _,
       _ ← bump_token_version u cache;
       revoke_all_for_user u
   end) ≫= λ _,
  log_audit u (match action with Approve => "admission_approved" | Reject => "admission_rejected" end).

(** ** Upgrades *)
Definition list_roles (u : uuid) (w : world) : list string :=
  snd <$> filter (λ ur, ur.1 = u) (elements (user_roles (db w))).

Definition profile_role (u : uuid) (w : world) : string :=
  default "member"%string (profiles (db w) !! u).

(** [_rank_of(_LEVEL_RANK, level)] *)
Definition _LEVEL_RANK (level : string) : Z :=
  default (-1)%Z (dict_get level [("local", 0); ("normal", 1); ("admin", 2)]%Z%string).

Definition _ROLE_RANK (role : string) : Z :=
  default (-1)%Z (dict_get role
    [("member", 0); ("columnist", 1); ("author", 2); ("incubated_member", 3); ("org_member", 4);
     ("admin", 5); ("super_admin", 6)]%Z%string).

(** [(account_level, Profile.role)]; [row[1] or "member"]. *)
Definition get_level_and_role (u : uuid) (w : world) : option (string * string) :=
  x ← user_of u w;
  Some (account_level x, match profiles (db w) !! u with None | Some EmptyString => "member"%string | Some r => r end).

Definition set_role (u : uuid) (role : string) : M () :=
  modify (set_profiles (alter (λ _, role) u)).

Definition lift_outcome {A} (o : outcome err A) : M A := λ w, (o, w).

Section upgrades.
Context (SSD : list SeparationConstraint).

Definition finish_upgrade (u : uuid) (level role why : string) (cache : option Z) : M Z :=
  extra ← gets (list_roles u);
  ok ← lift_outcome (satisfies_constraints (authorized_roles level role extra) SSD);
  raise_when (negb ok) INVALID_INPUT ≫= λ _,
  _ ← bump_token_version u cache;
  emit (UserUpdated u) ≫= λ _,
  emit (AuditPermissionChange u why) ≫= λ _,
  mret 1%Z.

Definition raises_level (unlock_level : option string) (level : string) : bool :=
  match unlock_level with Some l => bool_decide (_LEVEL_RANK level < _LEVEL_RANK l)%Z | None => false end.

Definition raises_role (unlock_role : option string) (role : string) : bool :=
  match unlock_role with
  | Some r => bool_decide (0 ≤ _ROLE_RANK role)%Z && bool_decide (_ROLE_RANK role < _ROLE_RANK r)%Z
  | None => false
  end.

Definition _apply_upgrades (u : uuid) (unlock_level unlock_role : option string) (why : string) (cache : option Z)
  : M Z :=
  row ← gets (get_level_and_role u);
  match row with
  | None => mret 0%Z
  | Some (level, role) =>
      let up_level := raises_level unlock_level level in
      let up_role := raises_role unlock_role role in
      (if up_level then update_user u (set_level (default level unlock_level)) else mret tt) ≫= λ _,
      (if up_role then set_role u (default role unlock_role) else mret tt) ≫= λ _,
      if up_level || up_role
      then finish_upgrade u (if up_level then default level unlock_level else level)
             (if up_role then default role unlock_role else role) why cache
      else mret 0%Z
  end.

(** [not unlock_level]: absent or empty. *)
Definition truthy (s : option string) : bool := match s with None | Some EmptyString => false | _ => true end.

Definition grant_exam_unlock (u : uuid) (unlock_level unlock_role : option string) (cache : option Z) : M Z :=
  if negb (truthy unlock_level) && negb (truthy unlock_role) then mret 0%Z
  else _apply_upgrades u unlock_level unlock_role "grant_exam_unlock" cache.

Definition grant_incubation (u : uuid) (cache : option Z) : M Z :=
  row ← gets (get_level_and_role u);
  match row with
  | None => mret 0%Z
  | Some (level, role) =>
      let up_level := bool_decide (level ≠ "admin"%string) in
      let up_role := bool_decide (role = "member"%string) in
      (if up_level then update_user u (set_level "admin") else mret tt) ≫= λ _,
      (if up_role then set_role u "incubated_member" else mret tt) ≫= λ _,
      if up_level || up_role
      then finish_upgrade u "admin" (if up_role then "incubated_member" else role) "grant_incubation" cache
      else mret 0%Z
  end.
End upgrades.

(** ** What never goes back

    Accounts and refresh tokens stay, versions and the clock do not go back, and
    a refresh token keeps its terms and its revocation. *)
Definition terms (t : RefreshToken) := (rt_user t, kind t, rt_mfa_verified t, rt_mfa_at t, rt_active_roles t, expires_at t).

Definition same_token (t t' : RefreshToken) : Prop :=
  terms t' = terms t ∧ (is_Some (revoked_at t) → revoked_at t' = revoked_at t).

Record later (w w' : world) : Prop := {
  later_clock : (clock w ≤ clock w')%Z;
  later_users u x : user_of u w = Some x → ∃ x', user_of u w' = Some x' ∧ (token_version x ≤ token_version x')%Z;
  later_tokens h t : refresh_tokens (db w) !! h = Some t →
    ∃ t', refresh_tokens (db w') !! h = Some t' ∧ same_token t t'
}.

#[export] Instance later_preorder : PreOrder later.
Proof.
  split.
  - intros w. split; [done|eauto with lia|]. intros h t Ht. exists t. by repeat split.
  - intros a b c [C1 U1 T1] [C2 U2 T2]. split; [lia| |].
    + intros u x Hx. destruct (U1 u x Hx) as (y & Hy & ?). destruct (U2 u y Hy) as (z & Hz & ?). exists z. split; [done|lia].
    + intros h t Ht. destruct (T1 h t Ht) as (t' & Ht' & H1 & H2). destruct (T2 h t' Ht') as (t'' & Ht'' & H3 & H4).
      exists t''. split; [done|]. split; [congruence|]. intros Hr. rewrite H4, H2; [done|done|]. by rewrite H2.
Qed.

(** Enough for [later]: the parts it looks at. *)
Lemma later_same (w w' : world) :
  clock w' = clock w → users (db w') = users (db w) → refresh_tokens (db w') = refresh_tokens (db w) → later w w'.
Proof.
  intros Hc Hu Ht. split; [lia| |].
  - intros u x. unfold user_of. rewrite Hu. eauto with lia.
  - intros h t. rewrite Ht. intros H. exists t. by repeat split.
Qed.

Lemma later_update (w : world) u f :
  (∀ x, token_version x ≤ token_version (f x))%Z → later w (set_users (alter f u) w).
Proof.
  intros Hf. split; [done| |].
  - intros v x Hx. unfold user_of in *. cbn. destruct (decide (v = u)) as [->|Hne].
    + rewrite lookup_alter_eq, Hx. simpl. eauto.
    + rewrite lookup_alter_ne by done. eauto with lia.
  - intros h t Ht. exists t. by repeat split.
Qed.

Lemma later_fmap_tokens (w : world) f : (∀ t, same_token t (f t)) → later w (set_refresh (fmap f) w).
Proof.
  intros Hf. split; [done|eauto with lia|]. intros h t Ht. exists (f t). cbn. by rewrite lookup_fmap, Ht.
Qed.

Lemma later_alter_token (w : world) f h : (∀ t, same_token t (f t)) → later w (set_refresh (alter f h) w).
Proof.
  intros Hf. split; [done|eauto with lia|]. intros k t Ht. cbn. destruct (decide (k = h)) as [->|Hne].
  - rewrite lookup_alter_eq, Ht. simpl. eauto.
  - rewrite lookup_alter_ne by done. exists t. by repeat split.
Qed.

Lemma later_new_token (w : world) h t : refresh_tokens (db w) !! h = None → later w (set_refresh <[h := t]> w).
Proof.
  intros Hn. split; [done|eauto with lia|]. intros k x Hx. exists x. cbn. rewrite lookup_insert_ne by congruence.
  by repeat split.
Qed.

Lemma revoke_token_same now u t : same_token t (revoke_token now u t).
Proof.
  unfold revoke_token. destruct (decide _) as [[_ Hn]|]; [|by repeat split]. split; [done|]. rewrite Hn. by intros [? ?].
Qed.

Lemma respects_emit e : respects later (emit e).
Proof. apply respects_modify. intros w. by apply later_same. Qed.

Lemma respects_audit u a : respects later (log_audit u a).
Proof. apply respects_modify. intros w. by apply later_same. Qed.

Lemma respects_update_user u f : (∀ x, token_version x ≤ token_version (f x))%Z → respects later (update_user u f).
Proof. intros Hf. apply respects_modify. intros w. apply later_update. intros x. apply Hf. Qed.

Lemma respects_set_role u r : respects later (set_role u r).
Proof. apply respects_modify. intros w. by apply later_same. Qed.

Lemma respects_lift {A} (o : outcome err A) : respects later (lift_outcome o).
Proof. by intros w. Qed.

Lemma respects_cache u v c : respects later (set_token_version u v c).
Proof. apply respects_modify. intros w. destruct c; [by apply later_same|done]. Qed.

Lemma respects_revoke_all u : respects later (revoke_all_for_user u).
Proof. apply respects_modify. intros w. apply later_fmap_tokens. intros t. apply revoke_token_same. Qed.

#[export] Hint Resolve respects_emit respects_audit respects_set_role respects_lift respects_cache respects_revoke_all
  : respects.
#[export] Hint Extern 2 (respects later (update_user _ _)) => apply respects_update_user; intros ?; simpl; lia : respects.

Lemma respects_bump u c : respects later (bump_token_version u c).
Proof. unfold bump_token_version. respects. Qed.

Lemma respects_clear u : respects later (clear_expired_lock u).
Proof. unfold clear_expired_lock. respects. Qed.
#[export] Hint Resolve respects_bump respects_clear : respects.

Lemma respects_check_locked u : respects later (_check_account_locked u).
Proof. unfold _check_account_locked. respects. Qed.

Lemma respects_failed u : respects later (_record_failed_attempt u).
Proof. unfold _record_failed_attempt. respects. Qed.

Lemma respects_admission x : respects later (assert_admission_allowed x).
Proof. unfold assert_admission_allowed. respects. Qed.

Lemma respects_revoke_refresh u c : respects later (revoke_all_refresh_tokens u c).
Proof. unfold revoke_all_refresh_tokens. respects. Qed.

Lemma respects_decide u r a why c : respects later (decide_admission u r a why c).
Proof. unfold decide_admission. respects. Qed.
#[export] Hint Resolve respects_check_locked respects_failed respects_admission respects_revoke_refresh respects_decide
  : respects.

Lemma respects_finish SSD u l r why c : respects later (finish_upgrade SSD u l r why c).
Proof. unfold finish_upgrade. respects. Qed.
#[export] Hint Resolve respects_finish : respects.

Lemma respects_exam_unlock SSD u l r c : respects later (grant_exam_unlock SSD u l r c).
Proof. unfold grant_exam_unlock, _apply_upgrades. respects. Qed.

Lemma respects_incubation SSD u c : respects later (grant_incubation SSD u c).
Proof. unfold grant_incubation. respects. Qed.
#[export] Hint Resolve respects_exam_unlock respects_incubation : respects.

Lemma respects_transaction {A} (m : M A) : respects later m → respects later (transaction m).
Proof.
  intros Hm w. specialize (Hm w). unfold transaction. destruct (m w) as [[a|e] w'] eqn:He; simpl in *; [done|].
  destruct Hm as [Hc _ _]. split; [done|eauto with lia|]. intros h t Ht. exists t. by repeat split.
Qed.

(** ** The lock of an account *)
Definition unlocked_user (now : Z) (x : User) : User :=
  if is_locked x then touch now (set_lock false None 0 x) else x.

Definition unlocked (u : uuid) (x : User) (w : world) : world :=
  if is_locked x then set_users (alter (λ x, touch (clock w) (set_lock false None 0 x)) u) w else w.

Lemma check_locked_run u (w : world) x :
  user_of u w = Some x →
  _check_account_locked u w = if lock_is_active (clock w) x then (Raise INVALID_CREDENTIALS, w) else (Ok tt, unlocked u x w).
Proof.
  intros Hx. unfold _check_account_locked. rewrite run_get_state. rewrite run_get_or_raise, Hx.
  unfold unlocked, lock_is_active. destruct (is_locked x) eqn:Hl; cbn [negb andb]; [|done].
  rewrite run_raise_when. unfold clear_expired_lock. destruct (locked_until x) as [t|] eqn:Ht; [|done].
  case_bool_decide; [done|]. rewrite run_get_state, Hx, Hl, Ht. by rewrite decide_False.
Qed.

Lemma unlocked_self u (w : world) x : user_of u w = Some x → user_of u (unlocked u x w) = Some (unlocked_user (clock w) x).
Proof.
  intros Hx. unfold unlocked, unlocked_user. destruct (is_locked x); [|done]. unfold user_of in *. cbn.
  by rewrite lookup_alter_eq, Hx.
Qed.

Lemma unlocked_other u v (w : world) x : v ≠ u → user_of v (unlocked u x w) = user_of v w.
Proof. intros Hv. unfold unlocked. destruct (is_locked x); [|done]. unfold user_of. cbn. by rewrite lookup_alter_ne. Qed.

Lemma unlocked_rest u x (w : world) :
  refresh_tokens (db (unlocked u x w)) = refresh_tokens (db w) ∧ profiles (db (unlocked u x w)) = profiles (db w)
  ∧ user_roles (db (unlocked u x w)) = user_roles (db w) ∧ totp (db (unlocked u x w)) = totp (db w)
  ∧ clock (unlocked u x w) = clock w.
Proof. unfold unlocked. by destruct (is_locked x). Qed.

Lemma unlocked_unlocked now x : is_locked (unlocked_user now x) = false.
Proof. unfold unlocked_user. by destruct (is_locked x) eqn:Hl. Qed.

Lemma unlocked_idle now (x : User) : is_locked x = false → unlocked_user now x = x.
Proof. intros Hl. unfold unlocked_user. by rewrite Hl. Qed.

Lemma unlocked_facts now x :
  token_version (unlocked_user now x) = token_version x ∧ account_level (unlocked_user now x) = account_level x
  ∧ admission_status (unlocked_user now x) = admission_status x ∧ hashed_password (unlocked_user now x) = hashed_password x.
Proof. unfold unlocked_user. by destruct (is_locked x). Qed.

(** An account without a lock goes straight on. *)
Lemma check_locked_idle {B} u (f : () → M B) (w : world) x :
  user_of u w = Some x → is_locked x = false → (_check_account_locked u ≫= f) w = f tt w.
Proof.
  intros Hx Hl. assert (H : _check_account_locked u w = (Ok tt, w)).
  { rewrite (check_locked_run u w x Hx). unfold lock_is_active, unlocked. by rewrite Hl. }
  by rewrite (bind_ok _ _ _ _ _ H).
Qed.

(** Admission: what lets an account through. *)
Definition admitted (x : User) : Prop := admission_status_of x ≠ PENDING ∧ admission_status_of x ≠ REJECTED.

Lemma assert_admission_run {B} (x : User) (f : () → M B) w :
  admitted x → (assert_admission_allowed x ≫= f) w = f tt w.
Proof.
  intros [H1 H2]. unfold assert_admission_allowed. rewrite bind_assoc. rewrite run_raise_when.
  rewrite bool_decide_false by done. rewrite run_raise_when. by rewrite bool_decide_false.
Qed.

(** ** Upgrades never lower anything *)
Lemma user_update_self u f (w : world) x :
  user_of u w = Some x → user_of u (set_users (alter f u) w) = Some (f x).
Proof. intros Hx. unfold user_of in *. cbn. by rewrite lookup_alter_eq, Hx. Qed.

Lemma bump_run u c (w : world) x :
  user_of u w = Some x → int32 (token_version x + 1) = true →
  ∃ w', bump_token_version u c w = (Ok (token_version x + 1)%Z, w')
    ∧ user_of u w' = Some (touch (clock w) (set_version (token_version x + 1) x))
    ∧ (∀ v, v ≠ u → user_of v w' = user_of v w)
    ∧ profiles (db w') = profiles (db w) ∧ user_roles (db w') = user_roles (db w)
    ∧ refresh_tokens (db w') = refresh_tokens (db w) ∧ clock w' = clock w.
Proof.
  intros Hx Hi. unfold bump_token_version. rewrite run_gets, Hx. rewrite run_raise_when, Hi. simpl negb. cbv iota.
  unfold update_user. rewrite run_modify. unfold set_token_version. rewrite run_modify.
  eexists. split; [reflexivity|].
  assert (Hs : ∀ w1 : world, (∀ v, user_of v (match c with
     | Some ttl => World (db w1) (sent w1) (jti_block w1) (<[u := ((token_version x + 1)%Z, (clock w1 + ttl * second)%Z)]> (tv_min w1)) (limiter w1) (clock w1)
     | None => w1 end) = user_of v w1)) by (intros w1 v; by destruct c).
  split_and!; try by destruct c.
  - rewrite Hs. by apply (user_update_self u (λ x0, touch (clock w) (set_version (token_version x0 + 1) x0))).
  - intros v Hv. rewrite Hs. unfold user_of. cbn. by rewrite lookup_alter_ne.
Qed.

(** What an upgrade leaves: at least the old level and role. *)
Definition role_of (u : uuid) (w : world) : string :=
  match profiles (db w) !! u with None | Some EmptyString => "member"%string | Some r => r end.

Lemma level_and_role u (w : world) x : user_of u w = Some x → get_level_and_role u w = Some (account_level x, role_of u w).
Proof. intros Hx. unfold get_level_and_role. by rewrite Hx. Qed.

Section upgrade_facts.
Context (SSD : list SeparationConstraint).

(** The end of both upgrades: the new level and role satisfy the policy. *)
Lemma finish_cases u level role why c (w : world) x :
  user_of u w = Some x →
  match finish_upgrade SSD u level role why c w with
  | (Ok n, w') => n = 1%Z ∧ satisfies_constraints (authorized_roles level role (list_roles u w)) SSD = Ok true
      ∧ user_of u w' = Some (touch (clock w) (set_version (token_version x + 1) x))
      ∧ (∀ v, v ≠ u → user_of v w' = user_of v w)
      ∧ profiles (db w') = profiles (db w) ∧ user_roles (db w') = user_roles (db w)
  | (Raise _, _) => True
  end.
Proof.
  intros Hx. unfold finish_upgrade. rewrite run_gets. unfold lift_outcome at 1, mbind at 1, prog_bind at 1.
  destruct (satisfies_constraints (authorized_roles level role (list_roles u w)) SSD) as [[]|e]; [|done|done].
  rewrite run_raise_when. simpl negb. cbv iota.
  destruct (int32 (token_version x + 1)) eqn:Hi.
  - destruct (bump_run u c w x Hx Hi) as (w' & Hb & H1 & H2 & H3 & H4 & _). rewrite (bind_ok _ _ _ _ _ Hb).
    unfold emit. rewrite !run_modify. simpl. split_and!; done.
  - unfold bump_token_version. rewrite bind_assoc. rewrite run_gets, Hx. rewrite bind_assoc. rewrite run_raise_when, Hi. done.
Qed.
End upgrade_facts.

Lemma level_rank_le l : (_LEVEL_RANK l ≤ 2)%Z.
Proof.
  unfold _LEVEL_RANK. destruct (dict_get l _) as [z|] eqn:H; simpl; [|lia].
  apply dict_get_elem in H. repeat (apply elem_of_cons in H as [[= _ ->]|H]; [lia|]). by apply elem_of_nil in H.
Qed.

Lemma admin_rank l : l ≠ "admin"%string → (_LEVEL_RANK l < _LEVEL_RANK "admin")%Z.
Proof.
  intros Hl. change (_LEVEL_RANK "admin") with 2%Z. unfold _LEVEL_RANK.
  destruct (dict_get l _) as [z|] eqn:H; simpl; [|lia].
  apply dict_get_elem in H. repeat (apply elem_of_cons in H as [[= Hk ->]|H]; [lia || congruence|]). by apply elem_of_nil in H.
Qed.

Lemma role_of_set u r (w : world) :
  is_Some (profiles (db w) !! u) → r ≠ ""%string → role_of u (set_profiles (alter (λ _, r) u) w) = r.
Proof.
  intros [p Hp] Hr. unfold role_of. cbn. rewrite lookup_alter_eq, Hp. simpl. by destruct r.
Qed.

(** The common form of the two upgrades. *)
Definition upgrade (SSD : list SeparationConstraint) (u : uuid) (up_level up_role : bool) (level role new_level new_role why : string)
    (c : option Z) : M Z :=
  (if up_level then update_user u (set_level new_level) else mret tt) ≫= λ _,
  (if up_role then set_role u new_role else mret tt) ≫= λ _,
  if up_level || up_role
  then finish_upgrade SSD u (if up_level then new_level else level) (if up_role then new_role else role) why c
  else mret 0%Z.

Definition upgraded (SSD : list SeparationConstraint) (u : uuid) (w : world) (x : User) (n : Z) (w' : world) : Prop :=
  ∃ x', user_of u w' = Some x'
    ∧ (_LEVEL_RANK (account_level x) ≤ _LEVEL_RANK (account_level x'))%Z
    ∧ (_ROLE_RANK (role_of u w) ≤ _ROLE_RANK (role_of u w'))%Z
    ∧ (n = 0%Z ∧ w' = w
       ∨ n = 1%Z ∧ (account_level x', role_of u w') ≠ (account_level x, role_of u w)
         ∧ token_version x' = (token_version x + 1)%Z
         ∧ satisfies_constraints (authorized_roles (account_level x') (role_of u w') (list_roles u w')) SSD = Ok true)
    ∧ is_locked x' = is_locked x ∧ locked_until x' = locked_until x ∧ admission_status x' = admission_status x
    ∧ ∀ v, v ≠ u → user_of v w' = user_of v w ∧ profiles (db w') !! v = profiles (db w) !! v.

(** What an upgrade leaves, exactly. *)
Lemma upgrade_result SSD u (up_level up_role : bool) L R why c (w : world) x :
  user_of u w = Some x → is_Some (profiles (db w) !! u) → (up_role = true → R ≠ ""%string) →
  match upgrade SSD u up_level up_role (account_level x) (role_of u w) L R why c w with
  | (Ok n, w') =>
      ∃ x', user_of u w' = Some x' ∧ account_level x' = (if up_level then L else account_level x)
        ∧ role_of u w' = (if up_role then R else role_of u w)
        ∧ (if up_level || up_role
           then n = 1%Z ∧ token_version x' = (token_version x + 1)%Z
             ∧ satisfies_constraints (authorized_roles (account_level x') (role_of u w') (list_roles u w')) SSD = Ok true
           else n = 0%Z ∧ w' = w)
        ∧ is_locked x' = is_locked x ∧ locked_until x' = locked_until x ∧ admission_status x' = admission_status x
        ∧ ∀ v, v ≠ u → user_of v w' = user_of v w ∧ profiles (db w') !! v = profiles (db w) !! v
  | (Raise _, _) => True
  end.
Proof.
  intros Hx Hp HR0. unfold upgrade.
  set (w1 := if up_level then set_users (alter (λ x0, touch (clock w) (set_level L x0)) u) w else w).
  set (w2 := if up_role then set_profiles (alter (λ _, R) u) w1 else w1).
  assert (Hrun : ((if up_level then update_user u (set_level L) else mret tt) ≫= λ _,
    (if up_role then set_role u R else mret tt) ≫= λ _,
    if up_level || up_role then finish_upgrade SSD u (if up_level then L else account_level x) (if up_role then R else role_of u w) why c
    else mret 0%Z) w
    = (if up_level || up_role then finish_upgrade SSD u (if up_level then L else account_level x) (if up_role then R else role_of u w) why c
       else mret 0%Z) w2).
  { unfold w2, w1. by destruct up_level, up_role. }
  rewrite Hrun. destruct (up_level || up_role) eqn:Hup.
  2: { apply orb_false_iff in Hup as [-> ->]. exists x. by split_and!. }
  assert (Hx1 : ∃ x1, user_of u w2 = Some x1 ∧ account_level x1 = (if up_level then L else account_level x)
      ∧ token_version x1 = token_version x ∧ is_locked x1 = is_locked x ∧ locked_until x1 = locked_until x
      ∧ admission_status x1 = admission_status x).
  { assert (Hu2 : user_of u w2 = user_of u w1) by (unfold w2; by destruct up_role).
    rewrite Hu2. unfold w1. destruct up_level; [|by exists x].
    eexists. split; [by apply user_update_self|done]. }
  destruct Hx1 as (x1 & Hx1 & Hl1 & Hv1 & Hk1 & Hk2 & Ha1).
  assert (Hr2 : role_of u w2 = if up_role then R else role_of u w).
  { unfold w2, w1. destruct up_role; [apply role_of_set; [by destruct up_level|auto]|by destruct up_level]. }
  pose proof (finish_cases SSD u (if up_level then L else account_level x) (if up_role then R else role_of u w) why c w2 x1 Hx1) as Hf.
  destruct (finish_upgrade _ _ _ _ _ _ w2) as [[n|e] w']; [|done].
  destruct Hf as (-> & Hsat & Hu & Hothers & Hprof & Hroles).
  assert (Hr' : role_of u w' = role_of u w2) by (unfold role_of; by rewrite Hprof).
  assert (Hls : list_roles u w' = list_roles u w2) by (unfold list_roles; by rewrite Hroles).
  eexists. split; [exact Hu|]. rewrite Hr', Hr2, Hls.
  cbn [touch set_version account_level token_version is_locked locked_until admission_status].
  rewrite Hl1, Hv1. split_and!; try done.
  intros v Hv. rewrite (Hothers v Hv), Hprof. unfold w2, w1. unfold user_of.
  destruct up_role, up_level; cbn; split; rewrite ?lookup_alter_ne by done; done.
Qed.

Lemma upgrade_cases SSD u (up_level up_role : bool) L R why c (w : world) x :
  user_of u w = Some x → is_Some (profiles (db w) !! u) →
  (up_level = true → _LEVEL_RANK (account_level x) < _LEVEL_RANK L)%Z →
  (up_role = true → 0 ≤ _ROLE_RANK (role_of u w) < _ROLE_RANK R)%Z →
  match upgrade SSD u up_level up_role (account_level x) (role_of u w) L R why c w with
  | (Ok n, w') => upgraded SSD u w x n w'
  | (Raise _, _) => True
  end.
Proof.
  intros Hx Hp HL HR.
  assert (HR0 : up_role = true → R ≠ ""%string).
  { intros Hu ->. specialize (HR Hu). change (_ROLE_RANK "") with (-1)%Z in HR. lia. }
  pose proof (upgrade_result SSD u up_level up_role L R why c w x Hx Hp HR0) as H.
  destruct (upgrade _ _ _ _ _ _ _ _ _ _ w) as [[n|e] w']; [|done].
  destruct H as (x' & Hx' & Hl & Hr & Hn & Hrest). exists x'. split; [done|]. rewrite Hl, Hr. split_and!; [| | |apply Hrest..].
  - destruct up_level; [|lia]. specialize (HL eq_refl). lia.
  - destruct up_role; [|lia]. specialize (HR eq_refl). lia.
  - destruct (up_level || up_role) eqn:Hup; [right|by left]. rewrite Hl, Hr in Hn. destruct Hn as (-> & Hv & Hsat).
    split_and!; [done| |done|done].
    intros He. assert (He1 := f_equal fst He). assert (He2 := f_equal snd He). cbn [fst snd] in He1, He2.
    destruct up_level; [specialize (HL eq_refl); rewrite He1 in HL; lia|].
    destruct up_role; [|done]. specialize (HR eq_refl). rewrite He2 in HR. lia.
Qed.

Lemma level_rank_ge l : (-1 ≤ _LEVEL_RANK l)%Z.
Proof.
  unfold _LEVEL_RANK. destruct (dict_get l _) as [z|] eqn:H; simpl; [|lia].
  apply dict_get_elem in H. repeat (apply elem_of_cons in H as [[= _ ->]|H]; [lia|]). by apply elem_of_nil in H.
Qed.

(** What is unlocked is reached: the account ends at the level asked for or
    above it, and so does its role when it is one of the ranked ones. *)
Definition reached (u : uuid) (ul ur : option string) (w w' : world) : Prop :=
  ∃ x', user_of u w' = Some x'
    ∧ (∀ l, ul = Some l → (_LEVEL_RANK l ≤ _LEVEL_RANK (account_level x'))%Z)
    ∧ (∀ r, ur = Some r → (0 ≤ _ROLE_RANK (role_of u w))%Z → (_ROLE_RANK r ≤ _ROLE_RANK (role_of u w'))%Z).

Lemma unlock_reached SSD u ul ur c (w : world) x :
  user_of u w = Some x → is_Some (profiles (db w) !! u) →
  match grant_exam_unlock SSD u ul ur c w with (Ok _, w') => reached u ul ur w w' | (Raise _, _) => True end.
Proof.
  intros Hx Hp. unfold grant_exam_unlock. destruct (negb (truthy ul) && negb (truthy ur)) eqn:Ht.
  - apply andb_true_iff in Ht as [H1 H2]. exists x. split; [done|]. split.
    + intros l ->. destruct l; [|done]. apply level_rank_ge.
    + intros r ->. destruct r; [|done]. change (_ROLE_RANK "") with (-1)%Z. lia.
  - unfold _apply_upgrades. rewrite run_gets, (level_and_role u w x Hx).
    pose proof (upgrade_result SSD u (raises_level ul (account_level x)) (raises_role ur (role_of u w))
      (default (account_level x) ul) (default (role_of u w) ur) "grant_exam_unlock" c w x Hx Hp) as H.
    unfold upgrade in H. cbv zeta.
    assert (HR : raises_role ur (role_of u w) = true → default (role_of u w) ur ≠ ""%string).
    { unfold raises_role. destruct ur as [r|]; [|done]. intros [H1 H2]%andb_true_iff Hr. apply bool_decide_eq_true in H1, H2.
      change (default (role_of u w) (Some r)) with r in Hr. subst r. change (_ROLE_RANK "") with (-1)%Z in H2. lia. }
    specialize (H HR).
    lazymatch goal with |- match ?t with _ => _ end => destruct t as [[n|e] w'] end; [|done]. destruct H as (x' & Hx' & Hl & Hr & _).
    exists x'. split; [done|]. split.
    + intros l ->. rewrite Hl. unfold raises_level. case_bool_decide; simpl; lia.
    + intros r ->. intros H0. rewrite Hr. unfold raises_role. rewrite (bool_decide_true _ H0). cbn [andb].
      case_bool_decide; simpl; lia.
Qed.

(** Upgrades are one-way. Unlocking by an exam and incubation, run in a
    request's transaction on an account with a profile, never lower the rank of
    its level or of its role, and touch no other account, lock or admission.
    They report 1 exactly when level or role really changed; then the token
    version has been bumped, so that older sessions must log in again, and the
    new roles satisfy separation of duty. If they fail, nothing has changed. *)
Theorem upgrades_only_raise (SSD : list SeparationConstraint) (u : uuid) (m : M Z) (w : world) (x : User)
    (Hm : (∃ ul ur c, m = grant_exam_unlock SSD u ul ur c) ∨ (∃ c, m = grant_incubation SSD u c))
    (Hx : user_of u w = Some x) (Hp : is_Some (profiles (db w) !! u)) :
  match transaction m w with
  | (Ok n, w') => upgraded SSD u w x n w'
  | (Raise _, w') => db w' = db w
  end.
Proof.
  assert (H : match m w with (Ok n, w') => upgraded SSD u w x n w' | (Raise _, _) => True end).
  { destruct Hm as [(ul & ur & c & ->)|(c & ->)].
    - unfold grant_exam_unlock. destruct (negb _ && _).
      + exists x. split_and!; try done; try lia. by left.
      + unfold _apply_upgrades. rewrite run_gets, (level_and_role u w x Hx).
        apply (upgrade_cases SSD u (raises_level ul (account_level x)) (raises_role ur (role_of u w))); [done|done| |].
        * unfold raises_level. destruct ul as [l|]; [|done]. simpl. intros H. by apply bool_decide_eq_true in H.
        * unfold raises_role. destruct ur as [r|]; [|done]. simpl. rewrite andb_true_iff, !bool_decide_eq_true. done.
    - unfold grant_incubation. rewrite run_gets, (level_and_role u w x Hx).
      pose proof (upgrade_cases SSD u (bool_decide (account_level x ≠ "admin"%string)) (bool_decide (role_of u w = "member"%string))
        "admin" "incubated_member" "grant_incubation" c w x Hx Hp) as H. unfold upgrade in H.
      assert (Hl : (if bool_decide (account_level x ≠ "admin"%string) then "admin" else account_level x)%string = "admin"%string).
      { destruct (bool_decide _) eqn:Hb; [done|]. apply bool_decide_eq_false in Hb. by destruct (decide (account_level x = "admin"%string)). }
      rewrite Hl in H. apply H.
      + intros Hb. apply bool_decide_eq_true in Hb. by apply admin_rank.
      + intros Hb. apply bool_decide_eq_true in Hb. rewrite Hb. done. }
  unfold transaction. by destruct (m w) as [[n|e] w'].
Qed.

Definition one_user : uuid := uuid_of_N 1.

Definition fresh_user : User :=
  MkUser "ada" None None "" "local" false None 0 7 "active" None None None 0.

Definition one_account : world :=
  World (Tables {[ one_user := fresh_user ]} {[ one_user := "member"%string ]} ∅ ∅ ∅ ∅ []) [] ∅ ∅ ∅ 1000.

(** Passing an exam raises a local member to a normal author. *)
Lemma upgrades_only_raise_witness :
  match transaction (grant_exam_unlock [] one_user (Some "normal") (Some "author") None) one_account with
  | (Ok n, w') => upgraded [] one_user one_account fresh_user n w'
  | (Raise _, w') => db w' = db one_account
  end
  ∧ match (transaction (grant_exam_unlock [] one_user (Some "normal") (Some "author") None) one_account).1 with
    | Ok n => n = 1%Z
    | Raise _ => False
    end.
Proof.
  split.
  - apply (upgrades_only_raise [] one_user _ one_account fresh_user); [left; by eauto|reflexivity|by eexists].
  - vm_compute. reflexivity.
Defined.
