(* ===== verification/Sessions.v ===== *)
(** * Sessions

    Model of the tokens of the auth service: issuing and rotating them
    ([auth/service_auth.py], [auth/security.py]), the fast revocation checks
    ([auth/token_revocation.py]), and the decision whether a token still stands
    for a user, made on the spot ([auth/deps.py]) or through the seam
    ([auth/service_authz.py]). The signature of a token and SHA-256 are the
    parameters: a signed token decodes to its claims while it is valid. *)

From S2P Require Import Prelude Roles Permissions Accounts.

(** The claims of an access token; instants are seconds. *)
Record Claims := MkClaims {
  c_user : uuid;
  c_level : string;
  c_role : string;
  c_trust_device : bool;
  c_type : string;
  c_token_version : Z;
  jti : string;
  mfa : bool;
  mfa_at : option Z;
  aud : string;
  iat : Z;
  exp : Z;
  c_active_roles : option (list string);
  rt_hash : string
}.

Record Settings := MkSettings {
  access_token_expire_minutes : Z;
  refresh_token_expire_days : Z;
  SSD : list SeparationConstraint;
  DSD : list SeparationConstraint
}.

Definition _AUD_WEB : string := "lkm:web".
Definition _ACCESS_TYPE : string := "access".

(** [int(t.timestamp())] *)
Definition seconds_of (t : Z) : Z := (t / second)%Z.

Section sessions.
Context {T : Type} (jwt_encode : Claims → T) (jwt_decode : string → Z → T → option Claims)
  (sha256 : string → string) (st : Settings).

(** ** Issuing *)
Definition create_access_token (now : Z) (u : uuid) (level role : string) (trust_device : bool) (version : Z)
    (mfa_verified : bool) (mfa_time : option Z) (roles : option (list string)) (session_end : option Z)
    (jti_hex refresh_hash : string) : T :=
  let iat := seconds_of now in
  let exp := (iat + access_token_expire_minutes st * 60)%Z in
  jwt_encode (MkClaims u level role trust_device _ACCESS_TYPE version jti_hex mfa_verified
    (if mfa_verified then Some (default iat mfa_time) else None) _AUD_WEB iat
    (match session_end with Some e => Z.min exp e | None => exp end) roles refresh_hash).

Definition decode_access_token (now : Z) (t : T) : outcome err Claims :=
  match jwt_decode _AUD_WEB now t with
  | Some c => if decide (c_type c = _ACCESS_TYPE) then Ok c else Raise TOKEN_INVALID
  | None => Raise TOKEN_INVALID
  end.

(** The column [active_roles]. *)
Definition roles_json (rs : option (list string)) : json :=
  match rs with Some l => JList (JString <$> l) | None => JNull end.

Definition day : Z := 86400000000.

Definition store_refresh_token (u : uuid) (raw : string) (mfa_verified : bool) (mfa_time : option Z)
    (rs : option (list string)) (session_end : option Z) : M () :=
  w ← get_state;
  let h := sha256 raw in
  raise_when (bool_decide (is_Some (refresh_tokens (db w) !! h))) IntegrityError ≫= λ _,
  modify (set_refresh <[h := MkRefresh u "web" mfa_verified mfa_time (roles_json rs)
                               (default (clock w + refresh_token_expire_days st * day)%Z session_end) None]>).

(** The role selection of the session, checked against the account. *)
Definition session_roles (u : uuid) (level role : string) (selected : option (list string))
  : M (option (list string)) :=
  match selected with
  | None => mret None
  | Some sel =>
      extra ← gets (list_roles u);
      match activated_roles (SSD st) (DSD st) level role extra (Some sel) with
      | Ok rs => mret (Some rs)
      | Raise _ => raise TOKEN_INVALID
      end
  end.

(** [raw] and [jti_hex] are the fresh random values. *)
Definition issue_session_tokens (u : uuid) (trust_device mfa_verified : bool) (mfa_time : option Z)
    (selected : option (list string)) (session_end : option Z) (raw jti_hex : string) : M (T * string) :=
  _check_account_locked u ≫= λ _,
  w ← get_state;
  x ← get_or_raise (user_of u w) USER_NOT_FOUND;
  assert_admission_allowed x ≫= λ _,
  let role := profile_role u w in
  rs ← session_roles u (account_level x) role selected;
  let verified_at := default (clock w) mfa_time in
  let access := create_access_token (clock w) u (account_level x) role trust_device (token_version x) mfa_verified
      (if mfa_verified then Some (seconds_of verified_at) else None) rs (seconds_of <$> session_end)
      jti_hex (sha256 raw) in
  store_refresh_token u raw mfa_verified (if mfa_verified then Some verified_at else None) rs session_end ≫= λ _,
  mret (access, raw).

(** ** Rotating *)
Definition valid_refresh_token (raw : string) : bool :=
  bool_decide (0 < String.length raw ≤ 128).

Definition consumable (t : RefreshToken) : bool :=
  bool_decide (revoked_at t = None) && bool_decide (kind t = "web"%string).

Definition revoke_now (now : Z) (t : RefreshToken) : RefreshToken :=
  MkRefresh (rt_user t) (kind t) (rt_mfa_verified t) (rt_mfa_at t) (rt_active_roles t) (expires_at t) (Some now).

(** [consume_once] with [consume_conditions]. *)
Definition consume_refresh (h : string) : M bool :=
  w ← get_state;
  match refresh_tokens (db w) !! h with
  | Some t =>
      if consumable t then modify (set_refresh (alter (revoke_now (clock w)) h)) ≫= λ _, mret true
      else mret false
  | None => mret false
  end.

Definition refresh_access_token (raw new_raw jti_hex : string) : M (T * string) :=
  raise_when (negb (valid_refresh_token raw)) TOKEN_INVALID ≫= λ _,
  consumed ← consume_refresh (sha256 raw);
  raise_when (negb consumed) TOKEN_INVALID ≫= λ _,
  w ← get_state;
  stored ← get_or_raise (refresh_tokens (db w) !! sha256 raw) TOKEN_INVALID;
  raise_when (bool_decide (expires_at stored ≤ clock w)%Z) TOKEN_EXPIRED ≫= λ _,
  x ← get_or_raise (user_of (rt_user stored) w) USER_NOT_FOUND;
  raise_when (lock_is_active (clock w) x) ACCOUNT_LOCKED ≫= λ _,
  raise_when (negb (admission_is_active x)) ACCOUNT_LOCKED ≫= λ _,
  match session_roles_claim (rt_active_roles stored) with
  | Raise _ => raise TOKEN_INVALID
  | Ok selected =>
      issue_session_tokens (rt_user stored) false (rt_mfa_verified stored && bool_decide (is_Some (rt_mfa_at stored)))
        (rt_mfa_at stored) selected (Some (expires_at stored)) new_raw jti_hex
  end.

(** ** Revoking single tokens *)
(** [set_jti cache]: the TTL after jitter, [None] when the write fails. *)
Definition block_jti (j : string) (cache : option Z) : M bool :=
  match j, cache with
  | EmptyString, _ => mret false
  | _, None => mret false
  | _, Some ttl =>
      modify (λ w, World (db w) (sent w) (<[j := (clock w + ttl * second)%Z]> (jti_block w)) (tv_min w) (limiter w)
                     (clock w)) ≫= λ _,
      mret true
  end.

(** [up]: Redis answers. *)
Definition is_jti_blocked (up : bool) (j : string) (w : world) : bool :=
  up && match jti_block w !! j with Some deadline => bool_decide (clock w < deadline)%Z | None => false end.

Definition token_version_is_stale (up : bool) (u : uuid) (version : Z) (w : world) : bool :=
  up && match tv_min w !! u with
        | Some (v, deadline) => bool_decide (clock w < deadline)%Z && bool_decide (version < v)%Z
        | None => false
        end.

(** [logout_route]; the caller holds the token. *)
Definition logout_route (u : uuid) (t : T) (tv_cache jti_cache : option Z) : M () :=
  revoke_all_refresh_tokens u tv_cache ≫= λ _,
  w ← get_state;
  match decode_access_token (clock w) t with
  | Ok c => _ ← block_jti (jti c) jti_cache; mret tt
  | Raise _ => mret tt
  end.

Definition _reset_password (u : uuid) (hashed : string) (cache : option Z) : M () :=
  update_user u (λ x, set_lock false None 0 (set_password hashed x)) ≫= λ _,
  revoke_all_refresh_tokens u cache ≫= λ _,
  log_audit u "password_reset" ≫= λ _,
  emit (UserSessionRevoke u).

(** ** Deciding *)
Definition tolerance : Z := 5000000.

(** The role part of both deciders. *)
Definition current_roles (u : uuid) (level role : string) (selected : option (list string)) (w : world)
  : outcome err (list string) :=
  let extra := list_roles u w in
  ok ← satisfies_constraints (authorized_roles level role extra) (SSD st);
  if negb ok then Raise ValueError else activated_roles (SSD st) (DSD st) level role extra selected.

(** Without the seam. *)
Definition resolve_locally (c : Claims) (w : world) : outcome err CurrentUser :=
  match user_of (c_user c) w with
  | None => Raise USER_NOT_FOUND
  | Some x =>
      if lock_is_active (clock w) x then Raise ACCOUNT_LOCKED else
      if negb (admission_is_active x) then Raise ACCOUNT_LOCKED else
      if decide (c_token_version c ≠ token_version x) then Raise TOKEN_EXPIRED else
      if decide (tolerance < updated_at x - iat c * second)%Z then Raise TOKEN_EXPIRED else
      let role := profile_role (c_user c) w in
      match current_roles (c_user c) (account_level x) role (c_active_roles c) w with
      | Ok active => Ok {| id := c_user c; Permissions.account_level := account_level x; role := role; active_roles := Some active |}
      | Raise _ => Raise TOKEN_INVALID
      end
  end.

Inductive cause := NotFound | Locked | SessionRevoked | PasswordChanged | NotAdmin.

Definition verdict : Type := (string * string * list string) + cause.

Definition authorize_user (u : uuid) (version : Z) (issued : Z) (require_admin : bool) (j : string)
    (selected : option (list string)) (w : world) : verdict :=
  if bool_decide (j ≠ ""%string) && bool_decide (is_Some (revoked_jtis (db w) !! j)) then inr SessionRevoked else
  match user_of u w with
  | None => inr NotFound
  | Some x =>
      if lock_is_active (clock w) x then inr Locked else
      if negb (admission_is_active x) then inr Locked else
      if decide (version ≠ token_version x) then inr SessionRevoked else
      if decide (tolerance < updated_at x - issued * second)%Z then inr PasswordChanged else
      let role := profile_role u w in
      if require_admin && bool_decide (account_level x ≠ "admin"%string) then inr NotAdmin else
      match current_roles u (account_level x) role selected w with
      | Ok active => inl (account_level x, role, active)
      | Raise _ => inr SessionRevoked
      end
  end.

Definition _fail_current_user (c : cause) : err :=
  match c with
  | Locked => ACCOUNT_LOCKED
  | SessionRevoked => TOKEN_EXPIRED
  | PasswordChanged => TOKEN_EXPIRED
  | NotFound => USER_NOT_FOUND
  | NotAdmin => FORBIDDEN
  end.

(** With the seam; [reply] is [None] when the auth service cannot be reached. *)
Definition _resolve_via_seam (c : Claims) (reply : option verdict) : outcome err CurrentUser :=
  match reply with
  | None => Raise TOKEN_INVALID
  | Some (inr why) => Raise (_fail_current_user why)
  | Some (inl (level, role, active)) =>
      match c_active_roles c with
      | Some sel =>
          if decide (¬ NoDup active ∨ set_of active ≠ set_of sel) then Raise TOKEN_INVALID
          else Ok {| id := c_user c; Permissions.account_level := level;
                     Permissions.role := if decide (role = ""%string) then "member" else role;
                     active_roles := Some active |}
      | None => Ok {| id := c_user c; Permissions.account_level := level;
                      Permissions.role := if decide (role = ""%string) then "member" else role;
                      active_roles := Some active |}
      end
  end.

(** [seam]: [None] when it is off, else whether the auth service answers. *)
Definition _resolve_current_user (up : bool) (seam : option bool) (t : T) (w : world) : outcome err CurrentUser :=
  c ← decode_access_token (clock w) t;
  if is_jti_blocked up (jti c) w then Raise TOKEN_EXPIRED else
  if token_version_is_stale up (c_user c) (c_token_version c) w then Raise TOKEN_EXPIRED else
  match seam with
  | None => resolve_locally c w
  | Some answers =>
      _resolve_via_seam c
        (if answers then Some (authorize_user (c_user c) (c_token_version c) (iat c) false (jti c) (c_active_roles c) w)
         else None)
  end.

Definition MFA_TRUST_SECONDS : Z := 3600.

Definition get_current_user_2fa (up : bool) (seam : option bool) (t : T) (w : world) : outcome err CurrentUser :=
  cur ← _resolve_current_user up seam t w;
  match decode_access_token (clock w) t with
  | Raise _ => Raise MFA_REQUIRED
  | Ok c =>
      if negb (mfa c) then Raise MFA_REQUIRED else
      match mfa_at c with
      | None => Raise MFA_REQUIRED
      | Some at_ => if decide (MFA_TRUST_SECONDS * second < clock w - at_ * second)%Z then Raise MFA_REQUIRED else Ok cur
      end
  end.

End sessions.

(** ** What the operations on sessions keep *)
Section facts.
Context {T : Type} (jwt_encode : Claims → T) (jwt_decode : string → Z → T → option Claims)
  (sha256 : string → string) (st : Settings).

Lemma respects_store u raw m a rs e : respects later (store_refresh_token sha256 st u raw m a rs e).
Proof.
  unfold store_refresh_token. apply respects_state. intros w. rewrite run_raise_when.
  destruct (bool_decide _) eqn:Hd; [done|]. apply later_new_token. apply bool_decide_eq_false in Hd.
  by destruct (refresh_tokens (db w) !! sha256 raw); [destruct Hd|].
Qed.

Lemma respects_session_roles u l r s : respects later (session_roles st u l r s).
Proof. unfold session_roles. respects. Qed.

Lemma respects_consume h : respects later (consume_refresh h).
Proof.
  unfold consume_refresh. apply respects_state. intros w.
  destruct (refresh_tokens (db w) !! h) as [t|] eqn:Ht; [|done]. destruct (consumable t) eqn:Hc; [|done].
  rewrite run_modify. split; [done|eauto with lia|]. intros k x Hx. cbn. destruct (decide (k = h)) as [->|Hne].
  - rewrite lookup_alter_eq, Hx. eexists. split; [done|]. split; [done|].
    unfold consumable in Hc. apply andb_true_iff in Hc as [Hc%bool_decide_eq_true _].
    assert (x = t) as -> by congruence. rewrite Hc. by intros [? ?].
  - rewrite lookup_alter_ne by done. exists x. by repeat split.
Qed.

Lemma respects_block j c : respects later (block_jti j c).
Proof.
  unfold block_jti. destruct j as [|a j]; [apply respects_ret; apply _|]. destruct c; [|apply respects_ret; apply _].
  apply respects_bind; [apply _|apply respects_modify; intros w; by apply later_same|]. intros. apply respects_ret; apply _.
Qed.
#[local] Hint Resolve respects_store respects_session_roles respects_consume respects_block : respects.

Lemma respects_issue u td m a s e raw j : respects later (issue_session_tokens jwt_encode sha256 st u td m a s e raw j).
Proof. unfold issue_session_tokens. cbv zeta. respects. Qed.
#[local] Hint Resolve respects_issue : respects.

Lemma respects_refresh raw n j : respects later (refresh_access_token jwt_encode sha256 st raw n j).
Proof. unfold refresh_access_token. respects. Qed.

Lemma respects_logout u t c1 c2 : respects later (logout_route jwt_decode u t c1 c2).
Proof. unfold logout_route. respects. Qed.

Lemma respects_reset u h c : respects later (_reset_password u h c).
Proof. unfold _reset_password. respects. Qed.

(** A selection that is accepted is used as it is, in order. *)
Lemma selection_kept level role extra sel out :
  activated_roles (SSD st) (DSD st) level role extra (Some sel) = Ok out → NoDup out ∧ set_of out = set_of sel.
Proof.
  unfold activated_roles. cbv zeta. intros H.
  apply outcome_bind_Ok in H as (b & _ & H). destruct (negb b); [done|].
  apply outcome_bind_Ok in H as (selected & Hs & H). apply outcome_bind_Ok in H as (b' & _ & H).
  destruct (negb b'); [done|]. injection H as ->.
  destruct (decide _) as [|Hn] in Hs; [done|]. injection Hs as <-. split.
  - rewrite merge_sort_Permutation. destruct (decide (NoDup sel)); [done|]. exfalso. apply Hn. by left.
  - apply set_eq. intros x. by rewrite !elem_of_set_of, merge_sort_Permutation.
Qed.

(** Issuing to an account without a lock, and without a role selection. *)
Lemma issue_plain u td m a e raw j (w : world) x :
  user_of u w = Some x → is_locked x = false → admitted x →
  issue_session_tokens jwt_encode sha256 st u td m a None e raw j w =
  if bool_decide (is_Some (refresh_tokens (db w) !! sha256 raw)) then (Raise IntegrityError, w)
  else (Ok (create_access_token jwt_encode st (clock w) u (Accounts.account_level x) (profile_role u w) td (token_version x)
               m (if m then Some (seconds_of (default (clock w) a)) else None) None (seconds_of <$> e) j (sha256 raw), raw),
        set_refresh <[sha256 raw := MkRefresh u "web" m (if m then Some (default (clock w) a) else None) JNull
                           (default (clock w + refresh_token_expire_days st * day)%Z e) None]> w).
Proof.
  intros Hx Hl Ha. unfold issue_session_tokens. rewrite (check_locked_idle u _ w x Hx Hl).
  rewrite run_get_state. rewrite run_get_or_raise, Hx. rewrite assert_admission_run by done. cbv zeta.
  unfold session_roles. rewrite bind_left_id. unfold store_refresh_token. rewrite bind_assoc. rewrite run_get_state.
  rewrite bind_assoc. rewrite run_raise_when. destruct (bool_decide _); [done|]. by rewrite run_modify.
Qed.

(** What a successful issue did. *)
Lemma issue_run u td m a s e raw j (w : world) out w' :
  issue_session_tokens jwt_encode sha256 st u td m a s e raw j w = (Ok out, w') →
  ∃ x rs, user_of u w = Some x ∧ lock_is_active (clock w) x = false ∧ admitted x
    ∧ (s = None → rs = None)
    ∧ refresh_tokens (db w) !! sha256 raw = None
    ∧ out = (create_access_token jwt_encode st (clock w) u (Accounts.account_level x) (profile_role u w) td (token_version x)
               m (if m then Some (seconds_of (default (clock w) a)) else None) rs (seconds_of <$> e) j (sha256 raw), raw)
    ∧ w' = set_refresh <[sha256 raw := MkRefresh u "web" m (if m then Some (default (clock w) a) else None) (roles_json rs)
                           (default (clock w + refresh_token_expire_days st * day)%Z e) None]> (unlocked u x w).
Proof.
  intros H. unfold issue_session_tokens in H.
  destruct (user_of u w) as [x|] eqn:Hx.
  2: { unfold _check_account_locked in H. rewrite bind_assoc in H. rewrite run_get_state in H. by rewrite bind_assoc, run_get_or_raise, Hx in H. }
  destruct (lock_is_active (clock w) x) eqn:Hl.
  { pose proof (check_locked_run u w x Hx) as Hc. rewrite Hl in Hc. by rewrite (bind_err _ _ _ _ _ Hc) in H. }
  pose proof (check_locked_run u w x Hx) as Hc. rewrite Hl in Hc. rewrite (bind_ok _ _ _ _ _ Hc) in H.
  destruct (unlocked_rest u x w) as (Hr & Hp & Hur & _ & Hck).
  destruct (unlocked_facts (clock w) x) as (Hv & Hlev & Hadm & _).
  rewrite run_get_state in H. rewrite run_get_or_raise in H. rewrite (unlocked_self u w x Hx) in H.
  assert (Ha : admitted x).
  { assert (Hs : admission_status_of (unlocked_user (clock w) x) = admission_status_of x) by (unfold admission_status_of; by rewrite Hadm).
    unfold assert_admission_allowed in H. rewrite bind_assoc in H. rewrite run_raise_when, Hs in H.
    destruct (bool_decide (admission_status_of x = PENDING)) eqn:H1; [done|]. rewrite run_raise_when in H.
    destruct (bool_decide (admission_status_of x = REJECTED)) eqn:H2; [done|].
    split; [by apply bool_decide_eq_false in H1|by apply bool_decide_eq_false in H2]. }
  rewrite assert_admission_run in H by (unfold admitted, admission_status_of in *; by rewrite Hadm).
  cbv zeta in H. rewrite Hv, Hlev, Hck in H. unfold profile_role in H. rewrite Hp in H.
  assert (Hroles : ∃ rs, session_roles st u (Accounts.account_level x) (default "member"%string (profiles (db w) !! u)) s (unlocked u x w)
      = (Ok rs, unlocked u x w) ∧ (s = None → rs = None)).
  { revert H. unfold session_roles. destruct s as [sel|]; [|intros _; by exists None]. rewrite run_gets. rewrite bind_assoc. rewrite run_gets.
    destruct (activated_roles _ _ _ _ _ _) as [rs|]; [|done]. intros _. by exists (Some rs). }
  destruct Hroles as (rs & Hrs & Hnone). rewrite (bind_ok _ _ _ _ _ Hrs) in H.
  unfold store_refresh_token in H. rewrite bind_assoc in H. rewrite run_get_state in H. rewrite bind_assoc in H. rewrite run_raise_when in H.
  rewrite Hr in H. destruct (bool_decide (is_Some (refresh_tokens (db w) !! sha256 raw))) eqn:Hd; [done|].
  rewrite run_modify in H. injection H as <- <-.
  exists x, rs. split_and!; try done.
  - apply bool_decide_eq_false in Hd. by destruct (refresh_tokens (db w) !! sha256 raw); [destruct Hd|].
  - by rewrite Hck.
Qed.

(** The step-up proof a refresh token carries on. *)
Definition carried_mfa (t : RefreshToken) : bool := rt_mfa_verified t && bool_decide (is_Some (rt_mfa_at t)).

(** What a successful rotation did. *)
Lemma refresh_run raw n j (w : world) out w' :
  refresh_access_token jwt_encode sha256 st raw n j w = (Ok out, w') →
  ∃ t x rs, refresh_tokens (db w) !! sha256 raw = Some t ∧ consumable t = true ∧ (clock w < expires_at t)%Z
    ∧ user_of (rt_user t) w = Some x ∧ lock_is_active (clock w) x = false ∧ admission_is_active x = true
    ∧ (rt_active_roles t = JNull → rs = None)
    ∧ sha256 n ≠ sha256 raw ∧ refresh_tokens (db w) !! sha256 n = None
    ∧ out = (create_access_token jwt_encode st (clock w) (rt_user t) (Accounts.account_level x) (profile_role (rt_user t) w) false
               (token_version x) (carried_mfa t) (if carried_mfa t then seconds_of <$> rt_mfa_at t else None) rs
               (Some (seconds_of (expires_at t))) j (sha256 n), n)
    ∧ refresh_tokens (db w') = <[sha256 n := MkRefresh (rt_user t) "web" (carried_mfa t) (if carried_mfa t then rt_mfa_at t else None)
                                   (roles_json rs) (expires_at t) None]>
                                 (alter (revoke_now (clock w)) (sha256 raw) (refresh_tokens (db w))).
Proof.
  intros H. unfold refresh_access_token in H. rewrite run_raise_when in H. destruct (negb (valid_refresh_token raw)); [done|].
  unfold consume_refresh in H. rewrite bind_assoc in H. rewrite run_get_state in H.
  destruct (refresh_tokens (db w) !! sha256 raw) as [t|] eqn:Ht; [|done]. destruct (consumable t) eqn:Hc; [|done].
  rewrite bind_assoc in H. rewrite run_modify in H. rewrite bind_left_id in H. cbn [negb] in H. rewrite run_raise_when in H.
  set (w1 := set_refresh (alter (revoke_now (clock w)) (sha256 raw)) w) in H.
  assert (Hw1 : refresh_tokens (db w1) = alter (revoke_now (clock w)) (sha256 raw) (refresh_tokens (db w))) by done.
  rewrite run_get_state in H. rewrite run_get_or_raise in H. rewrite Hw1, lookup_alter_eq, Ht in H. cbn [fmap option_fmap option_map] in H.
  rewrite run_raise_when in H. change (clock w1) with (clock w) in H.
  destruct (bool_decide (expires_at (revoke_now (clock w) t) ≤ clock w)%Z) eqn:He; [done|]. apply bool_decide_eq_false in He.
  change (expires_at (revoke_now (clock w) t)) with (expires_at t) in *. change (rt_user (revoke_now (clock w) t)) with (rt_user t) in H.
  rewrite run_get_or_raise in H. change (user_of (rt_user t) w1) with (user_of (rt_user t) w) in H.
  destruct (user_of (rt_user t) w) as [x|] eqn:Hx; [|done].
  rewrite run_raise_when in H. destruct (lock_is_active (clock w) x) eqn:Hl; [done|].
  rewrite run_raise_when in H. destruct (admission_is_active x) eqn:Ha; cbn [negb] in H; [|done].
  destruct (session_roles_claim (rt_active_roles (revoke_now (clock w) t))) as [sel|] eqn:Hsel; [|done].
  apply issue_run in H as (x1 & rs & Hx1 & _ & _ & Hnone & Hfree & Hout & ->).
  change (user_of (rt_user t) w1) with (user_of (rt_user t) w) in Hx1. assert (x1 = x) as -> by congruence.
  destruct (unlocked_rest (rt_user t) x w1) as (Hr & _).
  assert (Hne : sha256 n ≠ sha256 raw).
  { intros Heq. rewrite Heq, Hw1, lookup_alter_eq, Ht in Hfree. done. }
  exists t, x, rs. split_and!; try done.
  - lia.
  - intros Hnull. apply Hnone. change (rt_active_roles (revoke_now (clock w) t)) with (rt_active_roles t) in Hsel. rewrite Hnull in Hsel. simpl in Hsel. congruence.
  - by rewrite Hw1, lookup_alter_ne in Hfree.
  - rewrite Hout. unfold carried_mfa. cbn [rt_mfa_verified rt_mfa_at revoke_now]. change (profile_role (rt_user t) w1) with (profile_role (rt_user t) w).
    destruct (rt_mfa_at t); simpl; [done|]. by rewrite andb_false_r.
  - cbn. rewrite Hr, Hw1. unfold carried_mfa. destruct (rt_mfa_at t); simpl; [done|]. by rewrite andb_false_r.
Qed.
End facts.
#[export] Hint Resolve respects_issue respects_refresh respects_logout respects_reset respects_block : respects.

(** What the code relies on in PyJWT: a signed token decodes to its claims for
    its audience, from [iat] on and before [exp]. *)
Definition signature_ok {T} (jwt_encode : Claims → T) (jwt_decode : string → Z → T → option Claims) : Prop :=
  ∀ a now c, jwt_decode a now (jwt_encode c) =
    if decide (a = aud c ∧ iat c * second ≤ now < exp c * second)%Z then Some c else None.

Lemma seconds_of_le t : (seconds_of t * second ≤ t)%Z.
Proof. unfold seconds_of, second. rewrite Z.mul_comm. by apply Z.mul_div_le. Qed.

(** ** The two deciders *)

(** The token's identifier is in the table of revoked ones, which only the account
    service asks. *)
Definition revoked {T} (jwt_decode : string → Z → T → option Claims) (t : T) (w : world) : Prop :=
  ∃ c, decode_access_token jwt_decode (clock w) t = Ok c ∧ jti c ≠ ""%string ∧ is_Some (revoked_jtis (db w) !! jti c).

(** The roles that the token names, or all that are assigned, can not be activated. *)
Definition roles_fail {T} (jwt_decode : string → Z → T → option Claims) (st : Settings) (t : T) (w : world) : Prop :=
  ∃ c x e, decode_access_token jwt_decode (clock w) t = Ok c ∧ user_of (c_user c) w = Some x
    ∧ current_roles st (c_user c) (Accounts.account_level x) (profile_role (c_user c) w) (c_active_roles c) w = Raise e.

(** [str(verdict.get("role") or "member")] *)
Definition with_default_role (cur : CurrentUser) : CurrentUser :=
  {| id := id cur; Permissions.account_level := Permissions.account_level cur;
     Permissions.role := if decide (Permissions.role cur = ""%string) then "member" else Permissions.role cur;
     active_roles := active_roles cur |}.


(** A signature that is the claims themselves. *)
Definition plain_decode (a : string) (now : Z) (c : Claims) : option Claims :=
  if decide (a = aud c ∧ iat c * second ≤ now < exp c * second)%Z then Some c else None.

Definition some_claims : Claims :=
  MkClaims one_user "local" "member" false "access" 7 "j1" false None "lkm:web" 0 900 None "".

Definition plain_settings : Settings := MkSettings 15 7 [] [].

(** A user with a profile, and one whose token has been revoked by the table. *)
Definition one_revoked : world :=
  World (Tables (users (db one_account)) (profiles (db one_account)) ∅ ∅ ∅ {[ "j1"%string := 0%Z ]} []) [] ∅ ∅ ∅ 1000.

Definition shows_local_member (o : outcome err CurrentUser) : bool :=
  match o with Ok cur => bool_decide (active_roles cur = Some ["local:member"%string] ∧ Permissions.role cur = "member"%string) | Raise _ => false end.

