(* ===== verification/Login.v ===== *)
(** * Logging in, and the life of a session

    Model of the password login of [auth/service_auth.py], of the second factor
    of [auth/service_2fa.py] and [auth/router_2fa.py] (time-based codes only),
    and of what a request commits ([auth/db/session.py]). The second half puts
    the operations on accounts and sessions together and follows a session
    through any sequence of them.

    Parameters: the Argon2 check, the codes of a time-based secret, and those of
    [Sessions]. *)

From S2P Require Import Prelude Roles Permissions Limiter Accounts Sessions.

Record Factors := MkFactors {
  argon2_verify : string → string → bool;        (* password, stored hash *)
  totp_code : string → Z → option string          (* stored secret, time step *)
}.

(** What a request brings along. *)
Record Request := MkRequest {
  ip_address : string;
  redis1 : backend; member1 : string;             (* the limiter's calls *)
  redis2 : backend; member2 : string;
  fresh_token : string; fresh_jti : string
}.

Section login.
Context {T : Type} (jwt_encode : Claims → T) (jwt_decode : string → Z → T → option Claims)
  (sha256 : string → string) (st : Settings) (ls : LoginSettings) (fs : Factors).

Definition PASSWORD_MAX_LENGTH : nat := 1024.

Definition verifypwd (raw stored : string) : bool :=
  if decide (PASSWORD_MAX_LENGTH < String.length raw) then false else argon2_verify fs raw stored.

(** [or_(username ==, email ==, phone ==)]; which of several matches is returned
    is not determined. *)
Definition matches (account : string) (x : User) : bool :=
  bool_decide (username x = account)
  || bool_decide (account ≠ ""%string) && bool_decide (email x = Some account)
  || bool_decide (account ≠ ""%string) && bool_decide (phone x = Some account).

Definition find_by_identity (account : string) (w : world) : option (uuid * User) :=
  List.find (λ e, matches account e.2) (map_to_list (users (db w))).

(** The answer of a login. *)
Inductive AuthResponse :=
  | Tokens (u : uuid) (access : T) (refresh : string)
  | SetupRequired (u : uuid).                    (* a temporary token for enrolling a second factor *)

Definition _create_auth_response (u : uuid) (req : Request) : M AuthResponse :=
  _check_account_locked u ≫= λ _,
  w ← get_state;
  x ← get_or_raise (user_of u w) USER_NOT_FOUND;
  assert_admission_allowed x ≫= λ _,
  '(access, raw) ← issue_session_tokens jwt_encode sha256 st u false false None None None (fresh_token req) (fresh_jti req);
  mret (Tokens u access raw).

Definition totp_enabled (u : uuid) (w : world) : bool :=
  match totp (db w) !! u with Some t => enabled t | None => false end.

Definition finalize_auth_response (u : uuid) (req : Request) : M AuthResponse :=
  _check_account_locked u ≫= λ _,
  w ← get_state;
  x ← get_or_raise (user_of u w) USER_NOT_FOUND;
  assert_admission_allowed x ≫= λ _,
  if bool_decide (account_level x = "admin"%string) && negb (totp_enabled u w)
  then mret (SetupRequired u)
  else _create_auth_response u req.

Definition throttle (req : Request) : M () :=
  if decide (ip_address req = ""%string) then mret tt else
  w ← get_state;
  zoom limiter set_limiter
    (check_password_login_rate_limit ls (redis1 req) (redis2 req) (clock w) (clock w) (member1 req) (member2 req)
       (ip_address req)).

(** [check_code_rate_limit] *)
Definition check_code_rate_limit (req : Request) (key : string) (max_count window : Z) : M () :=
  if decide (redis_url ls = ""%string) then mret tt else
  w ← get_state;
  ok ← zoom limiter set_limiter
         (λ bs, let '(ok, bs) := check (redis1 req) (clock w) window max_count (member1 req) key false bs in (Ok ok, bs));
  raise_when (negb ok) VERIFICATION_CODE_RATE_LIMIT.

(** Counting the failure, and what is sent about it. *)
Definition refuse_password (u : uuid) (ip : string) : M () :=
  locked ← _record_failed_attempt u;
  (if (locked : bool) then log_audit u "account_locked" ≫= λ _, emit (UserBanned u) else mret tt) ≫= λ _,
  emit (AuditLoginFail u "password_mismatch" ip) ≫= λ _,
  raise INVALID_CREDENTIALS.

Definition login_password (account password : string) (req : Request) : M AuthResponse :=
  throttle req ≫= λ _,
  found ← gets (find_by_identity (strip account));
  '(u, x) ← get_or_raise found INVALID_CREDENTIALS;
  _check_account_locked u ≫= λ _,
  if negb (verifypwd password (hashed_password x)) then
    refuse_password u (ip_address req) ≫= λ _, raise INVALID_CREDENTIALS
  else
    assert_admission_allowed x ≫= λ _,
    update_user u reset_login_failures_stmt ≫= λ _,
    (if is_locked x then emit (UserUpdated u) else mret tt) ≫= λ _,
    log_audit u "login_password" ≫= λ _,
    finalize_auth_response u req.

(** ** The second factor *)
Definition _TOTP_STEP : Z := 30.
Definition _TOTP_MAX_FAILED : Z := 3.

(** [for step in range(now - 1, now + 2)] *)
Definition verify_totp (now : Z) (s code : string) : option Z :=
  let t := (seconds_of now / _TOTP_STEP)%Z in
  List.find (λ step, bool_decide (totp_code fs s step = Some code)) [t - 1; t; t + 1]%Z.

Definition update_totp (u : uuid) (f : TOTP → TOTP) : M () := modify (set_totp (alter f u)).

Definition set_failures (n : Z) (t : TOTP) : TOTP := MkTotp (secret t) (enabled t) n (last_counter t).

Definition _verify_totp_guarded (u : uuid) (t : TOTP) (code : string) : M Z :=
  raise_when (bool_decide (_TOTP_MAX_FAILED ≤ failed_attempts t)%Z) TOTP_CODE_INVALID ≫= λ _,
  w ← get_state;
  match verify_totp (clock w) (secret t) code with
  | None =>
      raise_when (negb (int32 (failed_attempts t + 1))) DataError ≫= λ _,
      update_totp u (λ t, set_failures (failed_attempts t + 1) t) ≫= λ _,
      raise TOTP_CODE_INVALID
  | Some counter =>
      (if decide (0 < failed_attempts t)%Z then update_totp u (set_failures 0) else mret tt) ≫= λ _,
      mret counter
  end.

Definition get_enabled_totp (u : uuid) (w : world) : option TOTP :=
  t ← totp (db w) !! u; if enabled t then Some t else None.

(** [verify_second_factor] with a code. *)
Definition verify_second_factor (u : uuid) (code : string) : M () :=
  raise_when (bool_decide (code = ""%string)) TOTP_CODE_INVALID ≫= λ _,
  found ← gets (get_enabled_totp u);
  t ← get_or_raise found TOTP_NOT_ENABLED;
  _ ← _verify_totp_guarded u t code;
  mret tt.

Definition step_up_2fa (cur : CurrentUser) (code : string) (req : Request) : M (T * string) :=
  check_code_rate_limit req ("2fa:stepup:user:" +:+ uuid_str (id cur)) 10 (3600 * second) ≫= λ _,
  verify_second_factor (id cur) code ≫= λ _,
  issue_session_tokens jwt_encode sha256 st (id cur) false true None (active_roles cur) None (fresh_token req) (fresh_jti req).

Definition refresh_access_token_route (raw : string) (req : Request) : M (T * string) :=
  check_code_rate_limit req ("token:refresh:ip:" +:+ ip_address req) 30 (60 * second) ≫= λ _,
  refresh_access_token jwt_encode sha256 st raw (fresh_token req) (fresh_jti req).

(** ** Operations in sequence *)
Inductive op :=
  | LoginPassword (account password : string) (req : Request)
  | StepUp (cur : CurrentUser) (code : string) (req : Request)
  | Refresh (raw : string) (req : Request)
  | Logout (u : uuid) (t : T) (tv_cache jti_cache : option Z)
  | ResetPassword (u : uuid) (hashed : string) (cache : option Z)
  | DecideAdmission (u reviewer : uuid) (action : decision) (why : string) (cache : option Z)
  | GrantExamUnlock (u : uuid) (level role : option string) (cache : option Z)
  | GrantIncubation (u : uuid) (cache : option Z).

Definition ignore {A} (m : M A) : M () := _ ← m; mret tt.

Definition run_op (o : op) : M () :=
  transaction
    match o with
    | LoginPassword a p req => ignore (login_password a p req)
    | StepUp cur code req => ignore (step_up_2fa cur code req)
    | Refresh raw req => ignore (refresh_access_token_route raw req)
    | Logout u t c1 c2 => logout_route jwt_decode u t c1 c2
    | ResetPassword u h c => _reset_password u h c
    | DecideAdmission u r a why c => decide_admission u r a why c
    | GrantExamUnlock u l r c => ignore (grant_exam_unlock (SSD st) u l r c)
    | GrantIncubation u c => ignore (grant_incubation (SSD st) u c)
    end.

Definition at_time (t : Z) (w : world) : world :=
  World (db w) (sent w) (jti_block w) (tv_min w) (limiter w) t.

Inductive step (w : world) : world → Prop :=
  | step_op o : step w (run_op o w).2
  | step_time t : (clock w ≤ t)%Z → step w (at_time t w).
End login.

(** ** Sessions over time *)
Section life.
Context {T : Type} (jwt_encode : Claims → T) (jwt_decode : string → Z → T → option Claims)
  (sha256 : string → string) (st : Settings) (ls : LoginSettings) (fs : Factors).

Abbreviation run := (run_op jwt_encode jwt_decode sha256 st ls fs).
Abbreviation steps := (step jwt_encode jwt_decode sha256 st ls fs).

Lemma respects_zoom_limiter {A} (m : prog buckets err A) : respects later (zoom limiter set_limiter m).
Proof. intros w. unfold zoom. destruct (m (limiter w)) as [o bs]. by apply later_same. Qed.
#[local] Hint Resolve respects_zoom_limiter : respects.

Lemma respects_throttle req : respects later (throttle ls req).
Proof. unfold throttle. respects. Qed.

Lemma respects_rate req k n wd : respects later (check_code_rate_limit ls req k n wd).
Proof. unfold check_code_rate_limit. respects. Qed.

Lemma respects_update_totp u f : respects later (update_totp u f).
Proof. apply respects_modify. intros w. by apply later_same. Qed.
#[local] Hint Resolve respects_throttle respects_rate respects_update_totp : respects.

Lemma respects_login a p req : respects later (login_password jwt_encode sha256 st ls fs a p req).
Proof. unfold login_password, refuse_password, finalize_auth_response, _create_auth_response. respects. Qed.

Lemma respects_step_up cur code req : respects later (step_up_2fa jwt_encode sha256 st ls fs cur code req).
Proof. unfold step_up_2fa, verify_second_factor, _verify_totp_guarded. respects. Qed.

Lemma respects_refresh_route raw req : respects later (refresh_access_token_route jwt_encode sha256 st ls raw req).
Proof. unfold refresh_access_token_route. respects. Qed.
#[local] Hint Resolve respects_login respects_step_up respects_refresh_route : respects.

Lemma respects_ignore {A} (m : M A) : respects later m → respects later (ignore m).
Proof. intros H. unfold ignore. by respects. Qed.

Lemma step_later w w' : steps w w' → later w w'.
Proof.
  intros [o|t Ht].
  - apply (respects_transaction (A:=())). destruct o; auto with respects; apply respects_ignore; auto with respects.
  - split; [done|eauto with lia|]. intros h x Hx. exists x. by repeat split.
Qed.

Lemma reach_later w w' : rtc steps w w' → later w w'.
Proof. induction 1 as [w|w w1 w2 H1 _ IH]; [done|]. etrans; [by apply step_later|done]. Qed.

(** The sessions of a user as of [w0] are dead: the refresh tokens it had are
    revoked, and its token version has moved on. *)
Definition dead (u : uuid) (w0 w : world) : Prop :=
  (∀ h t, refresh_tokens (db w0) !! h = Some t → rt_user t = u →
     ∃ t', refresh_tokens (db w) !! h = Some t' ∧ is_Some (revoked_at t'))
  ∧ ∀ x0, user_of u w0 = Some x0 → ∃ x, user_of u w = Some x ∧ (token_version x0 < token_version x)%Z.

Lemma dead_later u w0 w w' : dead u w0 w → later w w' → dead u w0 w'.
Proof.
  intros [H1 H2] [_ Hu Ht]. split.
  - intros h t Hh Huser. destruct (H1 h t Hh Huser) as (t' & Ht' & Hr). destruct (Ht h t' Ht') as (t'' & Ht'' & _ & Hs).
    exists t''. split; [done|]. by rewrite Hs.
  - intros x0 Hx0. destruct (H2 x0 Hx0) as (x & Hx & Hlt). destruct (Hu u x Hx) as (x' & Hx' & Hle). exists x'. split; [done|lia].
Qed.

Lemma dead_before u w0 w1 w : later w0 w1 → dead u w1 w → dead u w0 w.
Proof.
  intros [_ Hu Ht] [H1 H2]. split.
  - intros h t Hh Huser. destruct (Ht h t Hh) as (t' & Ht' & Hterms & _). apply (H1 h t' Ht').
    injection Hterms. congruence.
  - intros x0 Hx0. destruct (Hu u x0 Hx0) as (x & Hx & Hle). destruct (H2 x Hx) as (x' & Hx' & Hlt). exists x'. split; [done|lia].
Qed.

Lemma revoke_all_dead u c w w' :
  revoke_all_refresh_tokens u c w = (Ok tt, w') → dead u w w'.
Proof.
  unfold revoke_all_refresh_tokens, revoke_all_for_user. rewrite run_modify.
  set (w1 := set_refresh (fmap (revoke_token (clock w) u)) w). intros H.
  assert (Htok : ∀ h t, refresh_tokens (db w) !! h = Some t → rt_user t = u →
    ∃ t', refresh_tokens (db w1) !! h = Some t' ∧ is_Some (revoked_at t')).
  { intros h t Hh Hu. exists (revoke_token (clock w) u t). unfold w1. cbn. rewrite lookup_fmap, Hh. split; [done|].
    unfold revoke_token. destruct (decide (rt_user t = u ∧ revoked_at t = None)) as [|Hn]; [by eexists|].
    destruct (revoked_at t) eqn:Hr; [by eexists|]. exfalso. by apply Hn. }
  assert (Hu1 : user_of u w1 = user_of u w) by done.
  destruct (user_of u w) as [x|] eqn:Hx.
  - destruct (int32 (token_version x + 1)) eqn:Hi.
    + destruct (bump_run u c w1 x Hu1 Hi) as (w2 & Hb & Hself & _ & _ & _ & Hr & _). rewrite (bind_ok _ _ _ _ _ Hb) in H.
      injection H as <-. split.
      * intros h t Hh Huser. rewrite Hr. by apply (Htok h t).
      * intros x0 Hx0. assert (x0 = x) as -> by congruence. eexists. split; [exact Hself|]. simpl. lia.
    + unfold bump_token_version in H. rewrite bind_assoc in H. rewrite run_gets, Hu1 in H. rewrite bind_assoc in H.
      by rewrite run_raise_when, Hi in H.
  - unfold bump_token_version in H. rewrite bind_assoc in H. rewrite run_gets, Hu1 in H. injection H as <-. split.
    + exact Htok.
    + congruence.
Qed.

(** What ends the sessions of a user. *)
Definition ends_sessions (o : op (T:=T)) (u : uuid) : Prop :=
  (∃ t c1 c2, o = Logout u t c1 c2) ∨ (∃ h c, o = ResetPassword u h c) ∨ (∃ r why c, o = DecideAdmission u r Reject why c).

Lemma ending_dead o u w w' : ends_sessions o u → run o w = (Ok tt, w') → dead u w w'.
Proof.
  intros Ho Hrun. unfold run_op, transaction in Hrun.
  destruct Ho as [(t & c1 & c2 & ->)|[(h & c & ->)|(r & why & c & ->)]].
  - destruct (logout_route jwt_decode u t c1 c2 w) as [[[]|e] w1] eqn:Hm; [|done]. injection Hrun as <-.
    unfold logout_route in Hm. destruct (revoke_all_refresh_tokens u c1 w) as [[[]|e] w2] eqn:Hr.
    2: { by rewrite (bind_err _ _ _ _ _ Hr) in Hm. }
    rewrite (bind_ok _ _ _ _ _ Hr) in Hm. apply (dead_later u w w2); [by apply (revoke_all_dead u c1)|].
    eapply (respects_run later (get_state ≫= λ w, match decode_access_token jwt_decode (clock w) t with
              | Ok c => _ ← block_jti (jti c) c2; mret tt | Raise _ => mret tt end)); [|exact Hm]. respects.
  - destruct (_reset_password u h c w) as [[[]|e] w1] eqn:Hm; [|done]. injection Hrun as <-.
    unfold _reset_password, update_user in Hm. rewrite run_modify in Hm.
    set (w0 := set_users _ w) in Hm. destruct (revoke_all_refresh_tokens u c w0) as [[[]|e] w2] eqn:Hr.
    2: { by rewrite (bind_err _ _ _ _ _ Hr) in Hm. }
    rewrite (bind_ok _ _ _ _ _ Hr) in Hm. apply (dead_before u w w0).
    { apply later_update. intros x. simpl. lia. }
    apply (dead_later u w0 w2); [by apply (revoke_all_dead u c)|].
    eapply (respects_run later (log_audit u "password_reset" ≫= λ _, emit (UserSessionRevoke u))); [|exact Hm]. respects.
  - destruct (decide_admission u r Reject why c w) as [[[]|e] w1] eqn:Hm; [|done]. injection Hrun as <-.
    unfold decide_admission in Hm. rewrite run_get_state in Hm. rewrite run_get_or_raise in Hm.
    destruct (user_of u w) as [x|] eqn:Hx; [|done]. rewrite run_raise_when in Hm. destruct (bool_decide _); [done|].
    unfold update_user in Hm. rewrite run_modify in Hm. rewrite bind_assoc in Hm. rewrite run_modify in Hm.
    set (w0 := set_users _ (set_users _ w)) in Hm.
    assert (Hl0 : later w w0).
    { unfold w0. etrans; apply later_update; intros y; simpl; lia. }
    apply (dead_before u w w0); [done|].
    destruct (user_of u w0) as [x0|] eqn:Hx0.
    2: { destruct Hl0 as [_ Hu _]. destruct (Hu u x Hx) as (y & Hy & _). congruence. }
    rewrite bind_assoc in Hm. destruct (int32 (token_version x0 + 1)) eqn:Hi.
    + destruct (bump_run u c w0 x0 Hx0 Hi) as (w2 & Hb & Hself & _ & _ & _ & Hr & Hc). rewrite (bind_ok _ _ _ _ _ Hb) in Hm.
      unfold revoke_all_for_user, log_audit in Hm. rewrite run_modify in Hm. injection Hm as <-. split.
      * intros k t Hk Hu. exists (revoke_token (clock w2) u t). cbn. rewrite lookup_fmap, Hr, Hk. split; [done|].
        unfold revoke_token. destruct (decide (rt_user t = u ∧ revoked_at t = None)) as [|Hn]; [by eexists|].
        destruct (revoked_at t) eqn:Hrv; [by eexists|]. exfalso. by apply Hn.
      * intros y Hy. assert (y = x0) as -> by congruence. eexists. split; [exact Hself|]. simpl. lia.
    + unfold bump_token_version in Hm. rewrite bind_assoc in Hm. rewrite run_gets, Hx0 in Hm. rewrite bind_assoc in Hm.
      by rewrite run_raise_when, Hi in Hm.
Qed.

(** A refresh token that is revoked is refused. *)
Lemma revoked_refused raw n j w t :
  refresh_tokens (db w) !! sha256 raw = Some t → is_Some (revoked_at t) →
  refresh_access_token jwt_encode sha256 st raw n j w = (Raise TOKEN_INVALID, w).
Proof.
  intros Ht [r Hr]. unfold refresh_access_token. rewrite run_raise_when. destruct (negb _); [done|].
  unfold consume_refresh. rewrite bind_assoc. rewrite run_get_state, Ht. unfold consumable. rewrite Hr.
  by rewrite bool_decide_false.
Qed.

Lemma refresh_route_refused raw req w t :
  refresh_tokens (db w) !! sha256 raw = Some t → is_Some (revoked_at t) →
  ∃ e, (refresh_access_token_route jwt_encode sha256 st ls raw req w).1 = Raise e.
Proof.
  intros Ht Hr. unfold refresh_access_token_route.
  assert (Hdb : db (check_code_rate_limit ls req ("token:refresh:ip:" +:+ ip_address req) 30 (60 * second) w).2 = db w).
  { unfold check_code_rate_limit. destruct (decide _); [done|]. rewrite run_get_state.
    unfold zoom, mbind, prog_bind. destruct (check _ _ _ _ _ _ _ _) as [[] bs]; done. }
  destruct (check_code_rate_limit ls req _ 30 (60 * second) w) as [[[]|e] w1] eqn:Hc.
  - rewrite (bind_ok _ _ _ _ _ Hc). rewrite (revoked_refused raw _ _ w1 t); [by eexists| |done]. simpl in Hdb. by rewrite Hdb.
  - rewrite (bind_err _ _ _ _ _ Hc). by eexists.
Qed.

(** A token with an old version is refused by both deciders. *)
Lemma old_version_refused up seam t w c x :
  (∀ c', decode_access_token jwt_decode (clock w) t = Ok c' → c' = c) →
  user_of (c_user c) w = Some x → (c_token_version c < token_version x)%Z →
  ∃ e, _resolve_current_user jwt_decode st up seam t w = Raise e.
Proof.
  intros Hdec Hx Hlt. unfold _resolve_current_user.
  destruct (decode_access_token jwt_decode (clock w) t) as [c'|e]; simpl; [|by eexists].
  rewrite (Hdec c' eq_refl). destruct (is_jti_blocked _ _ _); [by eexists|].
  destruct (token_version_is_stale _ _ _ _); [by eexists|]. destruct seam as [[]|]; simpl.
  - unfold authorize_user. destruct (bool_decide (jti c ≠ ""%string) && _); [by eexists|]. rewrite Hx.
    destruct (lock_is_active _ _); [by eexists|]. destruct (negb _); [by eexists|]. rewrite decide_True by lia. by eexists.
  - by eexists.
  - unfold resolve_locally. rewrite Hx.
    destruct (lock_is_active _ _); [by eexists|]. destruct (negb _); [by eexists|]. rewrite decide_True by lia. by eexists.
Qed.

Lemma rate_limit_db req k n wd w o w' :
  check_code_rate_limit ls req k n wd w = (o, w') → db w' = db w ∧ clock w' = clock w.
Proof.
  unfold check_code_rate_limit. destruct (decide _); [by intros [= _ <-]|]. rewrite run_get_state.
  unfold zoom, mbind, prog_bind. destruct (check _ _ _ _ _ _ _ _) as [ok bs]. unfold raise_when.
  by destruct ok; intros [= _ <-].
Qed.
End life.

(** ** Properties *)

(** C15: ended sessions stay dead. Once a logout, a password reset or the
    rejection of an application has committed for a user, then for ever after,
    whatever anybody does and however time passes: every refresh token the user
    had is refused, and every access token issued to the user before, which
    carries a version the account had reached, is refused by both deciders,
    whether or not Redis answers. *)
Theorem ended_sessions_stay_dead {T} (jwt_encode : Claims → T) (jwt_decode : string → Z → T → option Claims)
    (sha256 : string → string) (st : Settings) (ls : LoginSettings) (fs : Factors)
    (o : op) (u : uuid) (w w1 w2 : world)
    (Hend : ends_sessions o u) (Hrun : run_op jwt_encode jwt_decode sha256 st ls fs o w = (Ok tt, w1))
    (Hlater : rtc (step jwt_encode jwt_decode sha256 st ls fs) w1 w2) :
  (∀ raw req t, refresh_tokens (db w) !! sha256 raw = Some t → rt_user t = u →
     ∃ e, (refresh_access_token_route jwt_encode sha256 st ls raw req w2).1 = Raise e)
  ∧ (∀ up seam token c x, user_of u w = Some x → c_user c = u → (c_token_version c ≤ token_version x)%Z →
     (∀ a now c', jwt_decode a now token = Some c' → c' = c) →
     ∃ e, _resolve_current_user jwt_decode st up seam token w2 = Raise e).
Proof.
  assert (Hd : dead u w w2).
  { apply (dead_later u w w1); [by eapply ending_dead|by eapply reach_later]. }
  destruct Hd as [H1 H2]. split.
  - intros raw req t Ht Hu. destruct (H1 _ t Ht Hu) as (t' & Ht' & Hr). by apply (refresh_route_refused jwt_encode sha256 st ls raw req w2 t').
  - intros up seam token c x Hx Hu Hv Hdec. destruct (H2 x Hx) as (x' & Hx' & Hlt).
    apply (old_version_refused jwt_decode st up seam token w2 c x'); [|by rewrite Hu|lia].
    intros c'. unfold decode_access_token. destruct (jwt_decode _ _ _) as [c0|] eqn:Hc; [|done].
    apply Hdec in Hc as ->. destruct (decide _); [|done]. by intros [= <-].
Qed.

(** Rotation. A refresh token that yields a pair of tokens was unrevoked,
    issued to the web front and unexpired, and never yields again, whatever
    happens afterwards. The new refresh token ends when the old one would have,
    and keeps the moment of the second factor; the access token belongs to the
    same user, is dead when the session ends, and passes the guard of dangerous
    operations only within an hour of that moment. So rotating prolongs neither
    a session nor its step-up. *)
Theorem refresh_rotates {T} (jwt_encode : Claims → T) (jwt_decode : string → Z → T → option Claims)
    (sha256 : string → string) (st : Settings) (ls : LoginSettings) (fs : Factors)
    (raw : string) (req : Request) (w w1 w2 : world) (access : T) (new : string)
    (Hsig : signature_ok jwt_encode jwt_decode)
    (Hrun : transaction (refresh_access_token_route jwt_encode sha256 st ls raw req) w = (Ok (access, new), w1))
    (Hlater : rtc (step jwt_encode jwt_decode sha256 st ls fs) w1 w2) :
  ∃ t, refresh_tokens (db w) !! sha256 raw = Some t ∧ revoked_at t = None ∧ kind t = "web"%string ∧ (clock w < expires_at t)%Z
  ∧ (∀ req', ∃ e, (refresh_access_token_route jwt_encode sha256 st ls raw req' w2).1 = Raise e)
  ∧ (∃ t', refresh_tokens (db w1) !! sha256 new = Some t' ∧ rt_user t' = rt_user t ∧ expires_at t' = expires_at t
       ∧ (rt_mfa_verified t' = true → rt_mfa_verified t = true ∧ rt_mfa_at t' = rt_mfa_at t))
  ∧ (∀ a now c, jwt_decode a now access = Some c → c_user c = rt_user t ∧ (now < expires_at t)%Z)
  ∧ ∀ up seam cur, get_current_user_2fa jwt_decode st up seam access w2 = Ok cur →
      ∃ origin, rt_mfa_at t = Some origin ∧ (clock w2 ≤ origin + MFA_TRUST_SECONDS * second)%Z.
Proof.
  unfold transaction in Hrun. destruct (refresh_access_token_route jwt_encode sha256 st ls raw req w) as [[out|e] w'] eqn:Hr; [|done].
  injection Hrun as -> <-. unfold refresh_access_token_route in Hr.
  destruct (check_code_rate_limit ls req ("token:refresh:ip:" +:+ ip_address req) 30 (60 * second) w) as [[[]|e] w0] eqn:Hc.
  2: { by rewrite (bind_err _ _ _ _ _ Hc) in Hr. }
  rewrite (bind_ok _ _ _ _ _ Hc) in Hr. apply rate_limit_db in Hc as [Hdb Hck].
  apply refresh_run in Hr as (t & x & rs & Ht & Hcons & Hexp & Hx & Hl & Ha & _ & Hne & Hfree & Hout & Htok).
  injection Hout as Hacc Hnew. rewrite Hdb in *. rewrite Hck in *. subst new.
  apply andb_true_iff in Hcons as [Hrev%bool_decide_eq_true Hkind%bool_decide_eq_true].
  set (claims := MkClaims (rt_user t) (Accounts.account_level x) (profile_role (rt_user t) w0) false _ACCESS_TYPE (token_version x)
    (fresh_jti req) (carried_mfa t)
    (if carried_mfa t then Some (default (seconds_of (clock w)) (if carried_mfa t then seconds_of <$> rt_mfa_at t else None)) else None)
    _AUD_WEB (seconds_of (clock w))
    (Z.min (seconds_of (clock w) + access_token_expire_minutes st * 60) (seconds_of (expires_at t))) rs (sha256 (fresh_token req))).
  assert (Hclaims : access = jwt_encode claims) by exact Hacc.
  assert (Hdec : ∀ a now c, jwt_decode a now access = Some c → c = claims ∧ (now < exp claims * second)%Z).
  { intros a now c. rewrite Hclaims, Hsig. destruct (decide _) as [Hd|]; [|done]. intros [= <-]. split; [done|lia]. }
  exists t. split_and!; try done.
  - intros req'. apply reach_later in Hlater. destruct Hlater as [_ _ Htk].
    assert (Hold : refresh_tokens (db w') !! sha256 raw = Some (revoke_now (clock w) t)).
    { rewrite Htok, lookup_insert_ne by done. by rewrite lookup_alter_eq, Ht. }
    destruct (Htk _ _ Hold) as (t2 & Ht2 & _ & Hr2). apply (refresh_route_refused jwt_encode sha256 st ls raw req' w2 t2); [done|].
    rewrite Hr2; by eexists.
  - eexists. split; [by rewrite Htok, lookup_insert_eq|]. cbn. split_and!; try done. intros Hm. rewrite Hm. split; [|done].
    by apply andb_true_iff in Hm as [? _].
  - intros a now c Hd. apply Hdec in Hd as [-> Hlt]. split; [done|].
    pose proof (seconds_of_le (expires_at t)). unfold claims in Hlt. cbn [exp] in Hlt. unfold second in *. lia.
  - intros up seam cur Hg. unfold get_current_user_2fa in Hg. apply outcome_bind_Ok in Hg as (cur' & _ & Hg).
    unfold decode_access_token in Hg. destruct (jwt_decode _AUD_WEB (clock w2) access) as [c|] eqn:Hd; [|done].
    apply Hdec in Hd as [-> _]. destruct (decide _); [|done]. cbn [mfa mfa_at claims] in Hg.
    destruct (carried_mfa t) eqn:Hm; cbn [negb] in Hg; [|done].
    unfold carried_mfa in Hm. apply andb_true_iff in Hm as [_ Hm%bool_decide_eq_true]. destruct Hm as [origin Ho].
    rewrite Ho in Hg. simpl in Hg. destruct (decide _) as [|Hle]; [done|]. exists origin. split; [done|].
    pose proof (seconds_of_le origin). lia.
Qed.

(** ** Logging in *)
Section login_facts.
Context {T : Type} (jwt_encode : Claims → T) (sha256 : string → string) (st : Settings) (ls : LoginSettings) (fs : Factors).

Lemma throttle_run req w : ∃ o bs, throttle ls req w = (o, set_limiter bs w).
Proof.
  unfold throttle. destruct (decide _).
  - exists (Ok tt), (limiter w). by destruct w.
  - rewrite run_get_state. unfold zoom. destruct (check_password_login_rate_limit _ _ _ _ _ _ _ _ _) as [o bs]. by exists o, bs.
Qed.

Lemma find_by_identity_user account w u x :
  find_by_identity account w = Some (u, x) → user_of u w = Some x ∧ matches account x = true.
Proof.
  unfold find_by_identity. intros H. apply find_Some_elem in H as [Hin Hm]. split; [|done].
  by apply elem_of_map_to_list in Hin.
Qed.

Lemma transaction_fails {A} (m : M A) w e : (m w).1 = Raise e → (transaction m w).1 = Raise e ∧ db (transaction m w).2 = db w.
Proof. unfold transaction. destruct (m w) as [[a|e'] w']; [done|]. by intros [= ->]. Qed.

Lemma transaction_runs {A} (m : M A) w a w' : m w = (Ok a, w') → transaction m w = (Ok a, w').
Proof. unfold transaction. by intros ->. Qed.

(** A login behind its throttle. *)
Definition after_throttle (account password : string) (req : Request) : M (AuthResponse (T:=T)) :=
  found ← gets (find_by_identity (strip account));
  '(u, x) ← get_or_raise found INVALID_CREDENTIALS;
  _check_account_locked u ≫= λ _,
  if negb (verifypwd fs password (hashed_password x)) then
    refuse_password u (ip_address req) ≫= λ _, raise INVALID_CREDENTIALS
  else
    assert_admission_allowed x ≫= λ _,
    update_user u reset_login_failures_stmt ≫= λ _,
    (if is_locked x then emit (UserUpdated u) else mret tt) ≫= λ _,
    log_audit u "login_password" ≫= λ _,
    finalize_auth_response jwt_encode sha256 st u req.

Lemma login_throttled account password req w o bs :
  throttle ls req w = (o, set_limiter bs w) →
  login_password jwt_encode sha256 st ls fs account password req w =
  match o with Ok _ => after_throttle account password req (set_limiter bs w) | Raise e => (Raise e, set_limiter bs w) end.
Proof.
  intros H. unfold login_password. destruct o as [[]|e]; [by rewrite (bind_ok _ _ _ _ _ H)|by rewrite (bind_err _ _ _ _ _ H)].
Qed.

(** A wrong password: the failure is counted, then the login refused. *)
Definition counted (u : uuid) (w : world) : world :=
  set_users (alter (λ x, touch (clock w) (failed_login_stmt (clock w) _FAIL_LOCK_THRESHOLD _FAIL_LOCK_MINUTES x)) u) w.

Lemma refuse_run u ip (w : world) x :
  user_of u w = Some x → int32 (failed_login_attempts x + 1) = true →
  ∃ w', refuse_password u ip w = (Raise INVALID_CREDENTIALS, w') ∧ users (db w') = users (db (counted u w)) ∧ clock w' = clock w.
Proof.
  intros Hx Hi. unfold refuse_password.
  assert (Hr : _record_failed_attempt u w = (Ok (bool_decide (_FAIL_LOCK_THRESHOLD ≤ failed_login_attempts x + 1)%Z), counted u w)).
  { unfold _record_failed_attempt. rewrite run_get_state. rewrite run_get_or_raise, Hx. rewrite run_raise_when, Hi. cbn [negb].
    unfold update_user. rewrite run_modify. rewrite run_get_state. rewrite run_get_or_raise.
    unfold user_of in *. cbn. rewrite lookup_alter_eq, Hx. done. }
  rewrite (bind_ok _ _ _ _ _ Hr). destruct (bool_decide _).
  - unfold log_audit, emit. rewrite bind_assoc. rewrite !run_modify. by eexists.
  - rewrite bind_left_id. unfold emit. rewrite run_modify. by eexists.
Qed.

Lemma refuse_overflow u ip (w : world) x :
  user_of u w = Some x → int32 (failed_login_attempts x + 1) = false → refuse_password u ip w = (Raise DataError, w).
Proof.
  intros Hx Hi. unfold refuse_password, _record_failed_attempt. rewrite bind_assoc. rewrite run_get_state.
  rewrite bind_assoc. rewrite run_get_or_raise, Hx. rewrite bind_assoc. by rewrite run_raise_when, Hi.
Qed.

(** What a login leaves of the account. *)
Definition cleared (now : Z) (x : User) : User := touch now (set_lock false None 0 x).

Lemma cleared_unlocked now x : cleared now (unlocked_user now x) = cleared now x.
Proof. unfold unlocked_user. by destruct (is_locked x). Qed.

Lemma finalize_run u req (w : world) x :
  user_of u w = Some x → is_locked x = false → admitted x →
  finalize_auth_response jwt_encode sha256 st u req w =
  if bool_decide (account_level x = "admin"%string) && negb (totp_enabled u w) then (Ok (SetupRequired u), w) else
  if bool_decide (is_Some (refresh_tokens (db w) !! sha256 (fresh_token req))) then (Raise IntegrityError, w) else
  (Ok (Tokens u (create_access_token jwt_encode st (clock w) u (account_level x) (profile_role u w) false (token_version x) false
                   None None None (fresh_jti req) (sha256 (fresh_token req))) (fresh_token req)),
   set_refresh <[sha256 (fresh_token req) :=
     MkRefresh u "web" false None JNull (clock w + refresh_token_expire_days st * day) None]> w).
Proof.
  intros Hx Hl Ha. unfold finalize_auth_response. rewrite (check_locked_idle u _ w x Hx Hl).
  rewrite run_get_state. rewrite run_get_or_raise, Hx. rewrite assert_admission_run by done.
  destruct (_ && _); [done|]. unfold _create_auth_response. rewrite (check_locked_idle u _ w x Hx Hl).
  rewrite run_get_state. rewrite run_get_or_raise, Hx. rewrite assert_admission_run by done.
  pose proof (issue_plain jwt_encode sha256 st u false false None None (fresh_token req) (fresh_jti req) w x Hx Hl Ha) as Hi.
  destruct (bool_decide (is_Some (refresh_tokens (db w) !! sha256 (fresh_token req)))).
  - by rewrite (bind_err _ _ _ _ _ Hi).
  - by rewrite (bind_ok _ _ _ _ _ Hi).
Qed.

(** A login with the right password, by an admitted account. *)
Lemma right_password account password req (w : world) u x :
  find_by_identity (strip account) w = Some (u, x) → lock_is_active (clock w) x = false →
  verifypwd fs password (hashed_password x) = true → admitted x →
  ∃ w', after_throttle account password req w = finalize_auth_response jwt_encode sha256 st u req w'
    ∧ user_of u w' = Some (cleared (clock w) x) ∧ (∀ v, v ≠ u → user_of v w' = user_of v w)
    ∧ clock w' = clock w ∧ refresh_tokens (db w') = refresh_tokens (db w) ∧ totp (db w') = totp (db w)
    ∧ profiles (db w') = profiles (db w).
Proof.
  intros Hf Hl Hp Ha. destruct (find_by_identity_user _ _ _ _ Hf) as [Hx _].
  unfold after_throttle. rewrite run_gets. rewrite run_get_or_raise, Hf.
  pose proof (check_locked_run u w x Hx) as Hc. rewrite Hl in Hc. rewrite (bind_ok _ _ _ _ _ Hc). rewrite Hp. cbn [negb].
  rewrite assert_admission_run by done. unfold update_user. rewrite run_modify.
  destruct (unlocked_rest u x w) as (Hr & Hpr & _ & Ht & Hck). pose proof (unlocked_self u w x Hx) as Hu. rewrite Hck.
  set (w1 := set_users _ (unlocked u x w)).
  assert (Hw1 : user_of u w1 = Some (cleared (clock w) x)).
  { unfold w1, user_of in *. cbn. rewrite lookup_alter_eq, Hu. simpl. f_equal. by apply cleared_unlocked. }
  assert (Ho : ∀ v, v ≠ u → user_of v w1 = user_of v w).
  { intros v Hv. rewrite <-(unlocked_other u v w x Hv). unfold w1, user_of. cbn. by rewrite lookup_alter_ne. }
  unfold log_audit, emit. destruct (is_locked x).
  - rewrite run_modify. rewrite run_modify. eexists. split; [reflexivity|]. by split_and!.
  - rewrite bind_left_id. rewrite run_modify. eexists. split; [reflexivity|]. by split_and!.
Qed.

(** With the wrong one. *)
Lemma wrong_password account password req (w : world) u x :
  find_by_identity (strip account) w = Some (u, x) → lock_is_active (clock w) x = false →
  verifypwd fs password (hashed_password x) = false →
  after_throttle account password req w = (refuse_password u (ip_address req) ≫= λ _, raise INVALID_CREDENTIALS) (unlocked u x w).
Proof.
  intros Hf Hl Hp. destruct (find_by_identity_user _ _ _ _ Hf) as [Hx _].
  unfold after_throttle. rewrite run_gets. rewrite run_get_or_raise, Hf.
  pose proof (check_locked_run u w x Hx) as Hc. rewrite Hl in Hc. rewrite (bind_ok _ _ _ _ _ Hc). by rewrite Hp.
Qed.

Lemma wrong_password_fails account password req (w : world) u x :
  find_by_identity (strip account) w = Some (u, x) → lock_is_active (clock w) x = false →
  verifypwd fs password (hashed_password x) = false →
  (after_throttle account password req w).1
    = Raise (if int32 (failed_login_attempts (unlocked_user (clock w) x) + 1) then INVALID_CREDENTIALS else DataError).
Proof.
  intros Hf Hl Hp. rewrite (wrong_password account password req w u x Hf Hl Hp).
  destruct (find_by_identity_user _ _ _ _ Hf) as [Hx _]. pose proof (unlocked_self u w x Hx) as Hu.
  destruct (int32 _) eqn:Hi.
  - destruct (refuse_run u (ip_address req) _ _ Hu Hi) as (w' & Hr & _). by rewrite (bind_err _ _ _ _ _ Hr).
  - pose proof (refuse_overflow u (ip_address req) _ _ Hu Hi) as Hr. by rewrite (bind_err _ _ _ _ _ Hr).
Qed.

Lemma locked_fails account password req (w : world) u x :
  find_by_identity (strip account) w = Some (u, x) → lock_is_active (clock w) x = true →
  (after_throttle account password req w).1 = Raise INVALID_CREDENTIALS.
Proof.
  intros Hf Hl. destruct (find_by_identity_user _ _ _ _ Hf) as [Hx _].
  unfold after_throttle. rewrite run_gets. rewrite run_get_or_raise, Hf.
  pose proof (check_locked_run u w x Hx) as Hc. rewrite Hl in Hc. by rewrite (bind_err _ _ _ _ _ Hc).
Qed.

Lemma not_admitted_fails account password req (w : world) u x :
  find_by_identity (strip account) w = Some (u, x) → lock_is_active (clock w) x = false →
  verifypwd fs password (hashed_password x) = true →
  (admission_status_of x = PENDING → (after_throttle account password req w).1 = Raise ADMISSION_PENDING)
  ∧ (admission_status_of x = REJECTED → (after_throttle account password req w).1 = Raise ADMISSION_REJECTED).
Proof.
  intros Hf Hl Hp. destruct (find_by_identity_user _ _ _ _ Hf) as [Hx _].
  unfold after_throttle. rewrite run_gets. rewrite run_get_or_raise, Hf.
  pose proof (check_locked_run u w x Hx) as Hc. rewrite Hl in Hc. rewrite (bind_ok _ _ _ _ _ Hc). rewrite Hp. cbn [negb].
  unfold assert_admission_allowed. rewrite bind_assoc. rewrite run_raise_when. split; intros ->.
  - by rewrite bool_decide_true.
  - rewrite bool_decide_false by done. rewrite run_raise_when. by rewrite bool_decide_true.
Qed.
End login_facts.

(** C16: the password login, on every branch. Behind the throttle, an unknown
    account, a locked one and a wrong password all fail with the same code, so
    an answer does not tell whether an account exists; the state of an
    application is only told after the right password. A success clears the
    failures and gives an administrator without a second factor only the right to
    enrol one; everybody else gets an access token with the account's level,
    role and version and a refresh token stored under its hash for the configured
    days. A failure leaves the database as it was. *)
Theorem login_password_correct {T} (jwt_encode : Claims → T) (sha256 : string → string) (st : Settings)
    (ls : LoginSettings) (fs : Factors) (account password : string) (req : Request) (w : world) :
  let '(o, w') := transaction (login_password jwt_encode sha256 st ls fs account password req) w in
  let h := sha256 (fresh_token req) in
  match (throttle ls req w).1 with
  | Raise e => o = Raise e
  | Ok _ =>
      match find_by_identity (strip account) w with
      | None => o = Raise INVALID_CREDENTIALS
      | Some (u, x) =>
          if lock_is_active (clock w) x then o = Raise INVALID_CREDENTIALS else
          if negb (verifypwd fs password (hashed_password x))
          then o = Raise (if int32 (failed_login_attempts (unlocked_user (clock w) x) + 1) then INVALID_CREDENTIALS else DataError) else
          if decide (admission_status_of x = PENDING) then o = Raise ADMISSION_PENDING else
          if decide (admission_status_of x = REJECTED) then o = Raise ADMISSION_REJECTED else
          if bool_decide (account_level x = "admin"%string) && negb (totp_enabled u w)
          then o = Ok (SetupRequired u) ∧ refresh_tokens (db w') = refresh_tokens (db w) else
          if bool_decide (is_Some (refresh_tokens (db w) !! h)) then o = Raise IntegrityError else
          o = Ok (Tokens u (create_access_token jwt_encode st (clock w) u (account_level x) (profile_role u w) false
                              (token_version x) false None None None (fresh_jti req) h) (fresh_token req))
          ∧ refresh_tokens (db w') = <[h := MkRefresh u "web" false None JNull
                                       (clock w + refresh_token_expire_days st * day) None]> (refresh_tokens (db w))
      end
  end
  ∧ match o with
    | Raise _ => db w' = db w
    | Ok _ => ∃ u x, find_by_identity (strip account) w = Some (u, x) ∧ user_of u w' = Some (cleared (clock w) x)
                ∧ ∀ v, v ≠ u → user_of v w' = user_of v w
    end.
Proof.
  destruct (transaction _ w) as [o w'] eqn:Ht. cbv zeta.
  destruct (throttle_run ls req w) as (ot & bs & Hth).
  pose proof (login_throttled jwt_encode sha256 st ls fs account password req w ot bs Hth) as Hlog. rewrite Hth. cbn [fst].
  set (m := login_password jwt_encode sha256 st ls fs account password req) in *.
  assert (Hfail : ∀ e, (m w).1 = Raise e → o = Raise e ∧ db w' = db w).
  { intros e He. apply (transaction_fails m w) in He. by rewrite Ht in He. }
  destruct ot as [[]|e].
  2: { destruct (Hfail e) as [-> Hdb]; [by rewrite Hlog|]. done. }
  set (w0 := set_limiter bs w) in *. change (find_by_identity (strip account) w) with (find_by_identity (strip account) w0).
  change (clock w) with (clock w0). change (totp_enabled) with (totp_enabled).
  destruct (find_by_identity (strip account) w0) as [[u x]|] eqn:Hf.
  2: { destruct (Hfail INVALID_CREDENTIALS) as [-> Hdb]; [|done]. rewrite Hlog. unfold after_throttle. rewrite run_gets.
       by rewrite run_get_or_raise, Hf. }
  destruct (lock_is_active (clock w0) x) eqn:Hl.
  { destruct (Hfail INVALID_CREDENTIALS) as [-> Hdb]; [|done]. rewrite Hlog. by eapply locked_fails. }
  destruct (verifypwd fs password (hashed_password x)) eqn:Hp; cbn [negb].
  2: { eapply (wrong_password_fails jwt_encode sha256 st fs) in Hp; [|done|done]. rewrite <-Hlog in Hp. destruct (Hfail _ Hp) as [-> Hdb]. done. }
  destruct (not_admitted_fails jwt_encode sha256 st fs account password req w0 u x Hf Hl Hp) as [Hpend Hrej].
  destruct (decide (admission_status_of x = PENDING)) as [H1|H1].
  { specialize (Hpend H1). rewrite <-Hlog in Hpend. by destruct (Hfail _ Hpend) as [-> Hdb]. }
  destruct (decide (admission_status_of x = REJECTED)) as [H2|H2].
  { specialize (Hrej H2). rewrite <-Hlog in Hrej. by destruct (Hfail _ Hrej) as [-> Hdb]. }
  destruct (right_password jwt_encode sha256 st fs account password req w0 u x Hf Hl Hp (conj H1 H2))
    as (w1 & Hrun & Hself & Hothers & Hck & Hr & Htot & Hprof).
  rewrite Hrun in Hlog. rewrite (finalize_run jwt_encode sha256 st u req w1 _ Hself) in Hlog by done.
  cbn [cleared touch set_lock account_level token_version] in Hlog. unfold totp_enabled, profile_role in Hlog.
  rewrite Htot, Hr, Hprof, Hck in Hlog.
  change (totp (db w0)) with (totp (db w)) in *. change (refresh_tokens (db w0)) with (refresh_tokens (db w)) in *.
  change (profiles (db w0)) with (profiles (db w)) in *. change (clock w0) with (clock w) in *.
  unfold totp_enabled. destruct (bool_decide (account_level x = "admin"%string) && _).
  { rewrite (transaction_runs m w _ _ Hlog) in Ht. injection Ht as <- <-. split; [by rewrite Hr|]. exists u, x. by split_and!. }
  destruct (bool_decide (is_Some (refresh_tokens (db w) !! sha256 (fresh_token req)))).
  { by destruct (Hfail IntegrityError) as [-> Hdb]; [rewrite Hlog|]. }
  rewrite (transaction_runs m w _ _ Hlog) in Ht. injection Ht as <- <-. split; [|exists u, x; by split_and!].
  split; [done|]. cbn. by rewrite Hr.
Qed.

(** ** Locking out *)
Section lockout.
Context {T : Type} (jwt_encode : Claims → T) (sha256 : string → string) (st : Settings) (ls : LoginSettings) (fs : Factors).

Abbreviation login := (login_password jwt_encode sha256 st ls fs).

(** The account is the only one with this identity. *)
Definition sole (account : string) (u : uuid) (w : world) : Prop :=
  ∀ v y, user_of v w = Some y → matches account y = true → v = u.

Lemma find_sole account u (w : world) x :
  sole account u w → user_of u w = Some x → matches account x = true → find_by_identity account w = Some (u, x).
Proof.
  intros Hs Hx Hm. destruct (find_by_identity account w) as [[v y]|] eqn:Hf.
  - apply find_by_identity_user in Hf as [Hy Hmy]. assert (v = u) as -> by by eapply Hs. congruence.
  - unfold find_by_identity in Hf. apply (find_None_elem _ _ (u, x)) in Hf; [simpl in Hf; congruence|].
    by apply elem_of_map_to_list.
Qed.

Lemma sole_alter account u f (w w' : world) x :
  sole account u w → user_of u w = Some x → matches account x = true → (∀ y, matches account (f y) = matches account y) →
  users (db w') = alter f u (users (db w)) →
  sole account u w' ∧ user_of u w' = Some (f x) ∧ matches account (f x) = true.
Proof.
  intros Hs Hx Hm Hf Hw. assert (Hu : user_of u w' = Some (f x)).
  { unfold user_of in *. by rewrite Hw, lookup_alter_eq, Hx. }
  split_and!; [|done|by rewrite Hf]. intros v y Hy Hmy. destruct (decide (v = u)) as [|Hne]; [done|].
  unfold user_of in Hy. rewrite Hw, lookup_alter_ne in Hy by done. by apply (Hs v y).
Qed.

Lemma no_throttle req (w : world) : redis_url ls = ""%string → throttle ls req w = (Ok tt, set_limiter (limiter w) w).
Proof.
  intros Hr. unfold throttle. destruct (decide _); [by destruct w|]. rewrite run_get_state. unfold zoom.
  unfold check_password_login_rate_limit. by rewrite decide_True.
Qed.

(** One wrong password, before the transaction ends. *)
Lemma one_wrong account password req u (w : world) x :
  redis_url ls = ""%string → sole (strip account) u w → user_of u w = Some x → matches (strip account) x = true →
  is_locked x = false → verifypwd fs password (hashed_password x) = false → (0 ≤ failed_login_attempts x < 5)%Z →
  let w' := (login account password req w).2 in
  users (db w') = alter (λ x, touch (clock w) (failed_login_stmt (clock w) _FAIL_LOCK_THRESHOLD _FAIL_LOCK_MINUTES x)) u (users (db w))
  ∧ clock w' = clock w.
Proof.
  intros Hr Hs Hx Hm Hl Hp Hn. cbv zeta. rewrite (login_throttled _ _ _ _ _ _ _ _ _ _ _ (no_throttle req w Hr)).
  set (w0 := set_limiter (limiter w) w). assert (Hf : find_by_identity (strip account) w0 = Some (u, x)) by by apply find_sole.
  rewrite (wrong_password jwt_encode sha256 st fs account password req w0 u x Hf); [|by unfold lock_is_active; rewrite Hl|done].
  unfold unlocked. rewrite Hl. destruct (refuse_run u (ip_address req) w0 x Hx) as (w' & Hrun & Hu & Hc).
  { apply int32_spec. lia. }
  rewrite (bind_err _ _ _ _ _ Hrun). cbn [snd]. by rewrite Hu, Hc.
Qed.

(** Several of them in one transaction. *)
Definition tries (account password : string) (reqs : list Request) (w : world) : world :=
  foldl (λ w req, (login account password req w).2) w reqs.

(** The same as requests: each with its own transaction. *)
Definition requests (account password : string) (reqs : list Request) (w : world) : world :=
  foldl (λ w req, (transaction (login account password req) w).2) w reqs.

Lemma tries_count account password u reqs (w : world) x :
  redis_url ls = ""%string → sole (strip account) u w → user_of u w = Some x → matches (strip account) x = true →
  is_locked x = false → verifypwd fs password (hashed_password x) = false → (0 ≤ failed_login_attempts x)%Z →
  (failed_login_attempts x + Z.of_nat (length reqs) ≤ 5)%Z → reqs ≠ [] →
  let w' := tries account password reqs w in
  ∃ x', user_of u w' = Some x' ∧ sole (strip account) u w' ∧ matches (strip account) x' = true
    ∧ failed_login_attempts x' = (failed_login_attempts x + Z.of_nat (length reqs))%Z ∧ clock w' = clock w
    ∧ is_locked x' = bool_decide (failed_login_attempts x + Z.of_nat (length reqs) = 5)%Z
    ∧ (is_locked x' = true → locked_until x' = Some (clock w + 15 * minutes)%Z).
Proof.
  intros Hr. revert w x. induction reqs as [|req reqs IH]; [done|].
  intros w x Hs Hx Hm Hl Hp H0 H5 _. cbv zeta. change (tries account password (req :: reqs) w)
    with (tries account password reqs (login account password req w).2).
  cbn [length] in *.
  destruct (one_wrong account password req u w x Hr Hs Hx Hm Hl Hp) as [Hu Hc]; [lia|]. cbv zeta in Hu, Hc.
  set (w1 := (login account password req w).2) in *.
  set (f := λ x, touch (clock w) (failed_login_stmt (clock w) _FAIL_LOCK_THRESHOLD _FAIL_LOCK_MINUTES x)) in *.
  destruct (sole_alter (strip account) u f w w1 x Hs Hx Hm) as (Hs1 & Hx1 & Hm1); [done|done|].
  destruct reqs as [|req' reqs].
  - exists (f x). change (tries account password [] w1) with w1. cbn [f touch failed_login_stmt set_lock failed_login_attempts is_locked locked_until].
    unfold _FAIL_LOCK_THRESHOLD, _FAIL_LOCK_MINUTES. split_and!; try done.
    + simpl. apply bool_decide_ext. simpl. lia.
    + intros Hb. by rewrite Hb.
  - destruct (IH w1 (f x)) as (x' & Hx' & Hs' & Hm' & Hn' & Hc' & Hl' & Hu'); try done.
    + cbn. apply bool_decide_eq_false. unfold _FAIL_LOCK_THRESHOLD. cbn [length] in H5. lia.
    + cbn. lia.
    + cbn [f touch failed_login_stmt set_lock failed_login_attempts] in *. lia.
    + exists x'. rewrite <-Hc. split_and!; try done.
      * rewrite Hn'. cbn [f touch failed_login_stmt set_lock failed_login_attempts length]. lia.
      * rewrite Hl'. apply bool_decide_ext. cbn [f touch failed_login_stmt set_lock failed_login_attempts length]. lia.
Qed.

(** A request with a wrong password commits nothing. *)
Lemma wrong_request account password req u (w : world) x :
  sole (strip account) u w → user_of u w = Some x → matches (strip account) x = true →
  verifypwd fs password (hashed_password x) = false → db (transaction (login account password req) w).2 = db w.
Proof.
  intros Hs Hx Hm Hp. destruct (throttle_run ls req w) as (o & bs & Ht).
  pose proof (login_throttled jwt_encode sha256 st ls fs account password req w o bs Ht) as Hl.
  assert (∃ e, (login account password req w).1 = Raise e) as [e He]; [|by apply transaction_fails in He as [_ ->]].
  rewrite Hl. destruct o as [[]|e]; [|by eexists]. set (w0 := set_limiter bs w).
  assert (Hf : find_by_identity (strip account) w0 = Some (u, x)) by by apply find_sole.
  destruct (lock_is_active (clock w0) x) eqn:Hk.
  - rewrite (locked_fails jwt_encode sha256 st fs account password req w0 u x Hf Hk). by eexists.
  - rewrite (wrong_password_fails jwt_encode sha256 st fs account password req w0 u x Hf Hk Hp). by eexists.
Qed.

Lemma requests_nothing account password reqs u (w : world) x :
  sole (strip account) u w → user_of u w = Some x → matches (strip account) x = true →
  verifypwd fs password (hashed_password x) = false → db (requests account password reqs w) = db w.
Proof.
  intros Hs Hx Hm Hp. revert w Hs Hx. induction reqs as [|req reqs IH]; intros w Hs Hx; [done|].
  change (requests account password (req :: reqs) w) with (requests account password reqs (transaction (login account password req) w).2).
  pose proof (wrong_request account password req u w x Hs Hx Hm Hp) as Hd.
  assert (Hu : ∀ v, user_of v (transaction (login account password req) w).2 = user_of v w).
  { intros v. unfold user_of. by rewrite Hd. }
  rewrite IH; [done| |by rewrite Hu]. intros v y. rewrite Hu. apply Hs.
Qed.
End lockout.

(** The lockout, and what becomes of it. Within one transaction the code
    does what it is meant to: failures are counted, the fifth wrong password
    locks the account for fifteen minutes, and until then every password, the
    right one included, is refused like a wrong one. But a wrong password raises,
    and the request then rolls back: however many requests with a wrong password
    are made, no failure is ever kept and the account is never locked. *)
Theorem lockout {T} (jwt_encode : Claims → T) (sha256 : string → string) (st : Settings) (ls : LoginSettings) (fs : Factors)
    (account wrong : string) (reqs : list Request) (u : uuid) (w : world) (x : User)
    (Hx : user_of u w = Some x) (Hm : matches (strip account) x = true) (Hs : sole (strip account) u w)
    (Hwrong : verifypwd fs wrong (hashed_password x) = false)
    (Hfresh : is_locked x = false ∧ failed_login_attempts x = 0%Z) :
  (redis_url ls = ""%string → 0 < length reqs ≤ 5 →
     let w' := tries jwt_encode sha256 st ls fs account wrong reqs w in
     ∃ x', user_of u w' = Some x' ∧ failed_login_attempts x' = Z.of_nat (length reqs) ∧ is_locked x' = bool_decide (length reqs = 5)
     ∧ (length reqs = 5 → ∀ password req t, (clock w ≤ t < clock w + 15 * minutes)%Z →
          (login_password jwt_encode sha256 st ls fs account password req (at_time t w')).1 = Raise INVALID_CREDENTIALS))
  ∧ db (requests jwt_encode sha256 st ls fs account wrong reqs w) = db w.
Proof.
  destruct Hfresh as [Hl H0]. split.
  2: { by apply (requests_nothing jwt_encode sha256 st ls fs account wrong reqs u w x). }
  intros Hr Hlen. cbv zeta.
  destruct (tries_count jwt_encode sha256 st ls fs account wrong u reqs w x Hr Hs Hx Hm Hl Hwrong) as
    (x' & Hx' & Hs' & Hm' & Hn & Hc & Hk & Hu); [lia|lia|by destruct reqs; simpl in *; [lia|]|].
  exists x'. split_and!; [done|lia|rewrite Hk; apply bool_decide_ext; lia|].
  intros H5 password req t Ht. set (w' := tries _ _ _ _ _ _ _ _ _) in *.
  rewrite (login_throttled _ _ _ _ _ _ _ _ _ _ _ (no_throttle ls req (at_time t w') Hr)).
  apply (locked_fails _ _ _ _ _ _ _ _ u x'); [by apply find_sole|].
  unfold lock_is_active. assert (Hlock : is_locked x' = true) by (rewrite Hk; apply bool_decide_eq_true; lia).
  rewrite Hlock, (Hu Hlock). apply bool_decide_eq_true. unfold minutes in *. simpl. lia.
Qed.

(** ** The second factor *)
Section factor.
Context {T : Type} (jwt_encode : Claims → T) (sha256 : string → string) (st : Settings) (ls : LoginSettings) (fs : Factors).

(** What the second factor leaves. *)
Definition failures_cleared (u : uuid) (t : TOTP) (w : world) : world :=
  if decide (0 < failed_attempts t)%Z then set_totp (alter (set_failures 0) u) w else w.

Lemma second_factor_run u code (w : world) :
  verify_second_factor fs u code w =
  if bool_decide (code = ""%string) then (Raise TOTP_CODE_INVALID, w) else
  match get_enabled_totp u w with
  | None => (Raise TOTP_NOT_ENABLED, w)
  | Some t =>
      if bool_decide (_TOTP_MAX_FAILED ≤ failed_attempts t)%Z then (Raise TOTP_CODE_INVALID, w) else
      match verify_totp fs (clock w) (secret t) code with
      | Some _ => (Ok tt, failures_cleared u t w)
      | None => if int32 (failed_attempts t + 1)
                then (Raise TOTP_CODE_INVALID, set_totp (alter (λ t, set_failures (failed_attempts t + 1) t) u) w)
                else (Raise DataError, w)
      end
  end.
Proof.
  unfold verify_second_factor. rewrite run_raise_when. destruct (bool_decide (code = ""%string)); [done|].
  rewrite run_gets. rewrite run_get_or_raise. destruct (get_enabled_totp u w) as [t|]; [|done].
  unfold _verify_totp_guarded. rewrite bind_assoc. rewrite run_raise_when. destruct (bool_decide _); [done|].
  rewrite bind_assoc. rewrite run_get_state. destruct (verify_totp fs (clock w) (secret t) code).
  - unfold failures_cleared. by destruct (decide _).
  - rewrite bind_assoc. rewrite run_raise_when. by destruct (int32 _).
Qed.

Lemma enabled_after u t (w : world) :
  get_enabled_totp u w = Some t →
  ∃ t', get_enabled_totp u (failures_cleared u t w) = Some t' ∧ secret t' = secret t ∧ failed_attempts t' = Z.min 0 (failed_attempts t).
Proof.
  unfold get_enabled_totp. intros H. apply bind_Some in H as (t0 & Ht & He). destruct (enabled t0) eqn:Hen; [|done].
  injection He as ->. unfold failures_cleared. destruct (decide _).
  - exists (set_failures 0 t). cbn. rewrite lookup_alter_eq, Ht. simpl. rewrite Hen. split_and!; [done..|lia].
  - exists t. rewrite Ht. simpl. rewrite Hen. split_and!; [done..|lia].
Qed.

Lemma verify_totp_spec now s code step :
  verify_totp fs now s code = Some step →
  totp_code fs s step = Some code ∧ (seconds_of now / _TOTP_STEP - 1 ≤ step ≤ seconds_of now / _TOTP_STEP + 1)%Z.
Proof.
  unfold verify_totp. intros H. apply find_Some_elem in H as [Hin Hb%bool_decide_eq_true]. split; [done|].
  rewrite !elem_of_cons, elem_of_nil in Hin. lia.
Qed.

(** A code is accepted exactly if it is one of the three. *)
Lemma verify_totp_none now s code :
  verify_totp fs now s code = None →
  ∀ step, (seconds_of now / _TOTP_STEP - 1 ≤ step ≤ seconds_of now / _TOTP_STEP + 1)%Z → totp_code fs s step ≠ Some code.
Proof.
  intros H step Hs. pose proof (λ k, find_None_elem _ _ k H) as Hn.
  apply (bool_decide_eq_false (totp_code fs s step = Some code)). apply (Hn step). 
  rewrite !elem_of_cons, elem_of_nil. lia.
Qed.
End factor.

(** Stepping up. It succeeds only for a user with an enabled second
    factor, fewer than three failures on record and a code of the current time
    step or a neighbour; the new session then carries the moment of the proof.
    A failure leaves the database as it was, so the failures that would lock the
    factor are never kept. And nothing is remembered about the accepted code: it
    is accepted again, as long as the clock keeps within its three steps. *)
Theorem step_up_correct {T} (jwt_encode : Claims → T) (sha256 : string → string) (st : Settings) (ls : LoginSettings)
    (fs : Factors) (cur : CurrentUser) (code : string) (req : Request) (w : world) :
  let u := id cur in
  match transaction (step_up_2fa jwt_encode sha256 st ls fs cur code req) w with
  | (Ok (_, raw), w') =>
      ∃ t step, get_enabled_totp u w = Some t ∧ (failed_attempts t < _TOTP_MAX_FAILED)%Z
        ∧ totp_code fs (secret t) step = Some code
        ∧ (seconds_of (clock w) / _TOTP_STEP - 1 ≤ step ≤ seconds_of (clock w) / _TOTP_STEP + 1)%Z
        ∧ (∃ s, refresh_tokens (db w') !! sha256 raw = Some s ∧ rt_user s = u ∧ rt_mfa_verified s = true
             ∧ rt_mfa_at s = Some (clock w) ∧ revoked_at s = None)
        ∧ ∀ now, (step - 1 ≤ seconds_of now / _TOTP_STEP ≤ step + 1)%Z →
            (verify_second_factor fs u code (at_time now w')).1 = Ok tt
  | (Raise _, w') => db w' = db w
  end.
Proof.
  cbv zeta. unfold transaction. destruct (step_up_2fa _ _ _ _ _ _ _ _ w) as [[[access raw]|e] w'] eqn:Hs; [|done].
  unfold step_up_2fa in Hs.
  destruct (check_code_rate_limit ls req ("2fa:stepup:user:" +:+ uuid_str (id cur)) 10 (3600 * second) w) as [[[]|e] w0] eqn:Hc.
  2: { by rewrite (bind_err _ _ _ _ _ Hc) in Hs. }
  rewrite (bind_ok _ _ _ _ _ Hc) in Hs. apply rate_limit_db in Hc as [Hdb Hck].
  pose proof (second_factor_run fs (id cur) code w0) as Hf. destruct (bool_decide (code = ""%string)) eqn:Hempty.
  { by rewrite (bind_err _ _ _ _ _ Hf) in Hs. }
  destruct (get_enabled_totp (id cur) w0) as [t|] eqn:Ht; [|by rewrite (bind_err _ _ _ _ _ Hf) in Hs].
  destruct (bool_decide (_TOTP_MAX_FAILED ≤ failed_attempts t)%Z) eqn:Hmax; [by rewrite (bind_err _ _ _ _ _ Hf) in Hs|].
  destruct (verify_totp fs (clock w0) (secret t) code) as [step|] eqn:Hv.
  2: { by destruct (int32 _); rewrite (bind_err _ _ _ _ _ Hf) in Hs. }
  rewrite (bind_ok _ _ _ _ _ Hf) in Hs. apply issue_run in Hs as (x & rs & _ & _ & _ & _ & _ & Hout & ->).
  injection Hout as _ Hraw. subst raw. apply verify_totp_spec in Hv as [Hcode Hstep]. rewrite Hck in Hstep.
  assert (Hck0 : clock (failures_cleared (id cur) t w0) = clock w) by (unfold failures_cleared; by destruct (decide _)).
  apply bool_decide_eq_false in Hmax. exists t, step. split_and!; [|lia|done|lia|lia| |].
  - unfold get_enabled_totp in *. by rewrite <-Hdb.
  - eexists. cbn. rewrite lookup_insert_eq. split; [done|]. cbn. by rewrite Hck0.
  - intros now Hnow. rewrite second_factor_run, Hempty.
    destruct (enabled_after (id cur) t w0 Ht) as (t' & Ht' & Hsec & Hfail).
    set (wf := at_time now _). assert (Htot : get_enabled_totp (id cur) wf = Some t').
    { rewrite <-Ht'. unfold get_enabled_totp, wf. cbn.
      by destruct (unlocked_rest (id cur) x (failures_cleared (id cur) t w0)) as (_ & _ & _ & -> & _). }
    rewrite Htot, Hsec. rewrite bool_decide_false by (unfold _TOTP_MAX_FAILED; lia).
    destruct (verify_totp fs (clock wf) (secret t) code) eqn:Hn; [done|].
    exfalso. eapply verify_totp_none; [exact Hn| |exact Hcode]. unfold wf. simpl. lia.
Qed.

(** ** A login and the sessions before it *)
Definition logged_in {T} (r : AuthResponse (T:=T)) : uuid :=
  match r with Tokens u _ _ => u | SetupRequired u => u end.

Section login_effect.
Context {T : Type} (jwt_encode : Claims → T) (sha256 : string → string) (st : Settings) (ls : LoginSettings) (fs : Factors).

(** What a login that succeeds does to the account. *)
Lemma login_ok account password req (w : world) r w' :
  login_password jwt_encode sha256 st ls fs account password req w = (Ok r, w') →
  ∃ x, user_of (logged_in r) w = Some x ∧ user_of (logged_in r) w' = Some (cleared (clock w) x) ∧ clock w' = clock w.
Proof.
  intros H. destruct (throttle_run ls req w) as (o & bs & Ht).
  rewrite (login_throttled jwt_encode sha256 st ls fs account password req w o bs Ht) in H.
  destruct o as [[]|e]; [|done]. set (w0 := set_limiter bs w) in *.
  destruct (find_by_identity (strip account) w0) as [[u x]|] eqn:Hf.
  2: { unfold after_throttle in H. rewrite run_gets in H. by rewrite run_get_or_raise, Hf in H. }
  assert (Hbad : ∀ e, (after_throttle jwt_encode sha256 st fs account password req w0).1 = Raise e → False).
  { intros e. by rewrite H. }
  destruct (lock_is_active (clock w0) x) eqn:Hl; [exfalso; eapply Hbad; by eapply locked_fails|].
  destruct (verifypwd fs password (hashed_password x)) eqn:Hp.
  2: { exfalso. eapply Hbad. by eapply wrong_password_fails. }
  destruct (not_admitted_fails jwt_encode sha256 st fs account password req w0 u x Hf Hl Hp) as [Hpend Hrej].
  assert (Ha : admitted x) by (split; intros E; eauto).
  destruct (right_password jwt_encode sha256 st fs account password req w0 u x Hf Hl Hp Ha) as (w1 & Hrun & Hself & _ & Hck & _).
  rewrite Hrun in H. rewrite (finalize_run jwt_encode sha256 st u req w1 _ Hself) in H by done.
  apply find_by_identity_user in Hf as [Hx _]. change (clock w0) with (clock w) in *.
  repeat match type of H with (if ?b then _ else _) = _ => destruct b end; try done;
    injection H as Hr Hw; subst r w'; exists x; by split_and!.
Qed.
End login_effect.

(** A login ends the access tokens before it. The deciders refuse a token
    as older than a change of password whenever the account's row has been
    written more than five seconds after the token was issued, and a login
    writes the row to clear the count of failures. So an access token that both
    deciders accept is refused, as expired, as soon as its user logs in once
    more. *)
Theorem login_ends_access {T} (jwt_encode : Claims → T) (jwt_decode : string → Z → T → option Claims) (sha256 : string → string)
    (st : Settings) (ls : LoginSettings) (fs : Factors) (account password : string) (req : Request) (w w' : world)
    (r : AuthResponse) (up : bool) (seam : option bool) (token : T) (cur : CurrentUser) (c : Claims)
    (Hlogin : transaction (login_password jwt_encode sha256 st ls fs account password req) w = (Ok r, w'))
    (Haccepted : _resolve_current_user jwt_decode st up seam token w = Ok cur)
    (Hclaims : decode_access_token jwt_decode (clock w) token = Ok c) (Huser : c_user c = logged_in r)
    (Hage : (iat c * second + tolerance < clock w)%Z) :
  _resolve_current_user jwt_decode st up seam token w' = Raise TOKEN_EXPIRED.
Proof.
  unfold transaction in Hlogin. destruct (login_password _ _ _ _ _ _ _ _ w) as [[r'|e] w1] eqn:Hl; [|done].
  injection Hlogin as -> ->. apply login_ok in Hl as (x & Hx & Hx' & Hck).
  unfold _resolve_current_user in *. rewrite Hclaims in Haccepted. rewrite Hck, Hclaims. simpl in *.
  destruct (is_jti_blocked up (jti c) w); [done|]. destruct (token_version_is_stale up (c_user c) (c_token_version c) w); [done|].
  destruct (is_jti_blocked up (jti c) w'); [done|]. destruct (token_version_is_stale up (c_user c) (c_token_version c) w'); [done|].
  assert (Hlate : (tolerance < clock w - iat c * second)%Z) by lia.
  assert (Hsame : admission_is_active (cleared (clock w) x) = admission_is_active x) by done.
  destruct seam as [[]|]; simpl in *; [|done|].
  - unfold authorize_user in *. destruct (bool_decide (jti c ≠ ""%string) && bool_decide (is_Some (revoked_jtis (db w) !! jti c))); [done|].
    destruct (bool_decide (jti c ≠ ""%string) && _); [done|]. rewrite Huser, Hx in Haccepted. rewrite Huser, Hx'.
    destruct (lock_is_active (clock w) x); [done|]. unfold lock_is_active at 1. cbn [is_locked cleared touch set_lock andb].
    rewrite Hsame. destruct (negb (admission_is_active x)); [done|]. destruct (decide _); [done|].
    cbn [updated_at cleared touch]. by rewrite decide_True.
  - unfold resolve_locally in *. rewrite Huser, Hx in Haccepted. rewrite Huser, Hx'.
    destruct (lock_is_active (clock w) x); [done|]. unfold lock_is_active at 1. cbn [is_locked cleared touch set_lock andb].
    rewrite Hsame. destruct (negb (admission_is_active x)); [done|]. destruct (decide _); [done|].
    cbn [updated_at cleared touch]. by rewrite decide_True.
Qed.

(** ** Witnesses *)
Definition some_factors : Factors :=
  MkFactors (λ password _, bool_decide (password = "open sesame"%string)) (λ _ _, None).

Definition no_redis : LoginSettings := MkLogin "" 10 100 60.

Definition some_request : Request := MkRequest "10.0.0.1" NoRedis "" NoRedis "" "r1" "j2".

(** A session of [one_user], ten seconds after midnight. *)
Definition in_session : world :=
  World (Tables {[ one_user := fresh_user ]} {[ one_user := "member"%string ]} ∅ ∅
           {[ "r0"%string := MkRefresh one_user "web" true (Some 0%Z) JNull (7 * day) None ]} ∅ []) [] ∅ ∅ ∅ (10 * second).

Definition logged_out : world :=
  (run_op (λ c, c) plain_decode (λ s, s) plain_settings no_redis some_factors (Logout one_user some_claims None None) in_session).2.

Lemma with_result {A B} (p : A * B) a : p.1 = a → p = (a, p.2).
Proof. by destruct p; simpl; intros ->. Qed.

Lemma ended_sessions_stay_dead_witness :
  (∃ e, (refresh_access_token_route (λ c, c) (λ s, s) plain_settings no_redis "r0" some_request logged_out).1 = Raise e)
  ∧ (∃ e, _resolve_current_user plain_decode plain_settings false None some_claims logged_out = Raise e).
Proof.
  pose proof (ended_sessions_stay_dead (λ c, c) plain_decode (λ s, s) plain_settings no_redis some_factors
    (Logout one_user some_claims None None) one_user in_session logged_out logged_out) as H.
  destruct H as [H1 H2].
  - left. by exists some_claims, None, None.
  - apply with_result. vm_compute. reflexivity.
  - apply rtc_refl.
  - split.
    + apply (H1 "r0"%string some_request (MkRefresh one_user "web" true (Some 0%Z) JNull (7 * day) None)); [by apply lookup_singleton_eq|reflexivity].
    + apply (H2 false None some_claims some_claims fresh_user); [by apply lookup_singleton_eq|reflexivity|done|].
      intros a now c. unfold plain_decode. destruct (decide _); [by intros [= <-]|done].
Defined.

Definition rotation : outcome err (Claims * string) * world :=
  transaction (refresh_access_token_route (λ c, c) (λ s, s) plain_settings no_redis "r0" some_request) in_session.

Lemma refresh_rotates_witness :
  match rotation.1 with
  | Ok (_, new) =>
      new = "r1"%string
      ∧ ∃ t, refresh_tokens (db in_session) !! "r0"%string = Some t ∧ ∃ t', refresh_tokens (db rotation.2) !! new = Some t'
          ∧ expires_at t' = expires_at t
  | Raise _ => False
  end.
Proof.
  destruct rotation.1 as [[access new]|e] eqn:Hr; [|vm_compute in Hr; discriminate].
  split; [vm_compute in Hr; congruence|].
  pose proof (refresh_rotates (λ c, c) plain_decode (λ s, s) plain_settings no_redis some_factors "r0" some_request
    in_session rotation.2 rotation.2 access new) as H.
  destruct H as (t & Ht & _ & _ & _ & _ & (t' & Ht' & _ & He & _) & _).
  - intros a now c. reflexivity.
  - change (transaction _ in_session) with rotation. by apply with_result.
  - apply rtc_refl.
  - exists t. split; [exact Ht|]. exists t'. by split.
Defined.

(** Five wrong passwords in one transaction, and as five requests. *)
Lemma lockout_witness :
  let reqs := replicate 5 some_request in
  (∃ x, user_of one_user (tries (λ c, c) (λ s, s) plain_settings no_redis some_factors "ada" "guess" reqs in_session) = Some x
     ∧ is_locked x = true)
  ∧ db (requests (λ c, c) (λ s, s) plain_settings no_redis some_factors "ada" "guess" reqs in_session) = db in_session.
Proof.
  cbv zeta.
  pose proof (lockout (λ c, c) (λ s, s) plain_settings no_redis some_factors "ada" "guess" (replicate 5 some_request)
    one_user in_session fresh_user) as H.
  destruct H as [H1 H2].
  - vm_compute; reflexivity.
  - vm_compute; reflexivity.
  - intros v y. unfold user_of, in_session. cbn [users db]. intros Hy _. by apply lookup_singleton_Some in Hy as [<- _].
  - vm_compute; reflexivity.
  - by split.
  - split; [|exact H2]. destruct H1 as (x & Hx & _ & Hl & _); [reflexivity|simpl; lia|]. exists x. by split.
Defined.

Definition second_login : outcome err (AuthResponse (T:=Claims)) * world :=
  transaction (login_password (λ c, c) (λ s, s) plain_settings no_redis some_factors "ada" "open sesame" some_request) in_session.

Lemma login_ends_access_witness :
  (∃ cur, _resolve_current_user plain_decode plain_settings true None some_claims in_session = Ok cur)
  ∧ _resolve_current_user plain_decode plain_settings true None some_claims second_login.2 = Raise TOKEN_EXPIRED.
Proof.
  destruct second_login.1 as [r|e] eqn:Hr; [|vm_compute in Hr; discriminate].
  destruct (_resolve_current_user plain_decode plain_settings true None some_claims in_session) as [cur|e] eqn:Hc;
    [|vm_compute in Hc; discriminate].
  split; [by exists cur|].
  apply (login_ends_access (λ c, c) plain_decode (λ s, s) plain_settings no_redis some_factors "ada" "open sesame" some_request
    in_session second_login.2 r true None some_claims cur some_claims).
  - change (transaction _ in_session) with second_login. by apply with_result.
  - exact Hc.
  - vm_compute; reflexivity.
  - vm_compute in Hr. injection Hr as <-. reflexivity.
  - vm_compute. reflexivity.
Defined.
