(* ===== verification/Cursor.v ===== *)
(** * Cursors of the timeline

    Model of [_encode_cursor] and [_decode_cursor] of
    [app/modules/feed/service.py], with what they use of Python: the URL-safe
    alphabet of [base64], the lenient decoder of [binascii], UTF-8, [rsplit] and
    the parser of [uuid.UUID]. The text form of an instant ([isoformat],
    [fromisoformat]) is an interface with its round trip as a law. Strings are
    byte strings. *)

From S2P Require Import Prelude.

(** ** Base 64 *)
Definition alphabet : string := "ABCDEFGHIJKLMNOPQRSTUVWXYZabcdefghijklmnopqrstuvwxyz0123456789-_".

Definition char64 (n : N) : ascii := default "="%char (String.get (N.to_nat n) alphabet).

(** The value of a character, [+] and [/] included: [urlsafe_b64decode] only
    translates its own two characters to them. *)
Definition value64 (c : ascii) : option N :=
  let n := N_of_ascii c in
  if decide (65 ≤ n ≤ 90)%N then Some (n - 65)%N
  else if decide (97 ≤ n ≤ 122)%N then Some (n - 71)%N
  else if decide (48 ≤ n ≤ 57)%N then Some (n + 4)%N
  else if decide (n = 45 ∨ n = 43)%N then Some 62%N
  else if decide (n = 95 ∨ n = 47)%N then Some 63%N
  else None.

(** [base64.urlsafe_b64encode] *)
Fixpoint urlsafe_b64encode (s : string) : string :=
  match s with
  | EmptyString => EmptyString
  | String a EmptyString =>
      let x := N_of_ascii a in
      String (char64 (x / 4)) (String (char64 (x mod 4 * 16)) "==")
  | String a (String b EmptyString) =>
      let x := N_of_ascii a in let y := N_of_ascii b in
      String (char64 (x / 4)) (String (char64 (x mod 4 * 16 + y / 16)) (String (char64 (y mod 16 * 4)) "="))
  | String a (String b (String c r)) =>
      let x := N_of_ascii a in let y := N_of_ascii b in let z := N_of_ascii c in
      String (char64 (x / 4)) (String (char64 (x mod 4 * 16 + y / 16))
        (String (char64 (y mod 16 * 4 + z / 64)) (String (char64 (z mod 64)) (urlsafe_b64encode r))))
  end.

(** [binascii.a2b_base64], not strict: other characters are skipped, padding
    that completes a group ends the input. [quad] counts the characters of the
    group, [left] holds its bits not yet written, [pads] the padding so far. *)
Fixpoint a2b_base64 (s : string) (quad : nat) (left : N) (pads : nat) : option string :=
  match s with
  | EmptyString => if decide (quad = 0) then Some EmptyString else None
  | String c r =>
      if decide (c = "="%char) then
        if decide (2 ≤ quad ∧ 4 ≤ quad + S pads) then Some EmptyString else a2b_base64 r quad left (S pads)
      else
        match value64 c with
        | None => a2b_base64 r quad left pads
        | Some v =>
            match quad with
            | 0 => a2b_base64 r 1 v 0
            | 1 => String (ascii_of_N (left * 4 + v / 16)) <$> a2b_base64 r 2 (v mod 16)%N 0
            | 2 => String (ascii_of_N (left * 16 + v / 4)) <$> a2b_base64 r 3 (v mod 4)%N 0
            | _ => String (ascii_of_N (left * 64 + v)) <$> a2b_base64 r 0 0%N 0
            end
        end
  end.

Definition urlsafe_b64decode (s : string) : option string := a2b_base64 s 0 0 0.

(** ** UTF-8: what [bytes.decode()] accepts *)
Definition between (lo hi : N) (c : ascii) : bool := bool_decide (lo ≤ N_of_ascii c ≤ hi)%N.
Definition cont (c : ascii) : bool := between 128 191 c.

Fixpoint utf8 (s : string) : bool :=
  match s with
  | EmptyString => true
  | String a r =>
      if between 0 127 a then utf8 r else
      match r with
      | String b r =>
          if between 194 223 a then cont b && utf8 r else
          match r with
          | String c r =>
              if between 224 239 a then
                cont b && cont c && (bool_decide (N_of_ascii a ≠ 224%N) || between 160 191 b)
                && (bool_decide (N_of_ascii a ≠ 237%N) || between 128 159 b) && utf8 r
              else
                match r with
                | String d r =>
                    between 240 244 a && cont b && cont c && cont d
                    && (bool_decide (N_of_ascii a ≠ 240%N) || between 144 191 b)
                    && (bool_decide (N_of_ascii a ≠ 244%N) || between 128 143 b) && utf8 r
                | EmptyString => false
                end
          | EmptyString => false
          end
      | EmptyString => false
      end
  end.

(** ** [s.rsplit("|", 1)], when it has two parts *)
Fixpoint rsplit_bar (s : string) : option (string * string) :=
  match s with
  | EmptyString => None
  | String c r =>
      match rsplit_bar r with
      | Some (a, b) => Some (String c a, b)
      | None => if decide (c = "|"%char) then Some (EmptyString, r) else None
      end
  end.

(** ** [uuid.UUID(s)] *)

(** [s.replace(p, "")]; [skip] characters of a match are still to be dropped. *)
Fixpoint remove (p : string) (skip : nat) (s : string) : string :=
  match s with
  | EmptyString => EmptyString
  | String c r =>
      match skip with
      | S k => remove p k r
      | 0 => if startswith p s then remove p (String.length p - 1) r else String c (remove p 0 r)
      end
  end.

(** [s.strip("{}")] *)
Definition is_brace (c : ascii) : bool := bool_decide (c = "{"%char ∨ c = "}"%char).

Fixpoint lstrip_braces (s : string) : string :=
  match s with
  | String c r => if is_brace c then lstrip_braces r else s
  | EmptyString => EmptyString
  end.

Fixpoint rstrip_braces (s : string) : string :=
  match s with
  | EmptyString => EmptyString
  | String c r =>
      match rstrip_braces r with
      | EmptyString => if is_brace c then EmptyString else String c EmptyString
      | r' => String c r'
      end
  end.

Definition hex_value (c : ascii) : option N :=
  let n := N_of_ascii c in
  if decide (48 ≤ n ≤ 57)%N then Some (n - 48)%N
  else if decide (97 ≤ n ≤ 102)%N then Some (n - 87)%N
  else if decide (65 ≤ n ≤ 70)%N then Some (n - 55)%N
  else None.

(** Digits, with single underscores between them. *)
Fixpoint hex_digits (s : string) (acc : N) : option N :=
  match s with
  | EmptyString => Some acc
  | String c r =>
      match hex_value c with
      | Some d => hex_digits r (acc * 16 + d)%N
      | None =>
          if decide (c = "_"%char) then
            match r with
            | String c' r' => match hex_value c' with Some d => hex_digits r' (acc * 16 + d)%N | None => None end
            | EmptyString => None
            end
          else None
      end
  end.

Definition digits_first (s : string) : option N :=
  match s with
  | String c r => d ← hex_value c; hex_digits r d
  | EmptyString => None
  end.

(** [int(s, 16)] of a string without a minus sign. *)
Definition int16 (s : string) : option N :=
  let s := strip s in
  let s := match s with String "+" r => r | _ => s end in
  match s with
  | String "0" (String "x" r) | String "0" (String "X" r) =>
      match r with String "_" r' => digits_first r' | _ => digits_first r end
  | _ => digits_first s
  end.

Definition UUID (s : string) : option uuid :=
  let h := remove "-" 0 (rstrip_braces (lstrip_braces (remove "uuid:" 0 (remove "urn:" 0 s)))) in
  if decide (String.length h = 32) then uuid_of_N <$> int16 h else None.

(** ** Cursors *)

(** The text form of an instant. *)
Class IsoFormat := {
  isoformat : Z → string;
  fromisoformat : string → option Z
}.

Class IsoFormatLaws `{IsoFormat} := {
  isoformat_ascii t : utf8 (isoformat t) = true;
  fromisoformat_isoformat t : fromisoformat (isoformat t) = Some t
}.

Section cursor.
Context `{IsoFormat}.

Definition _encode_cursor (created_at : Z) (item_id : uuid) : string :=
  urlsafe_b64encode (isoformat created_at +:+ "|" +:+ uuid_str item_id).

(** [None]: both are [None]. *)
Definition _decode_cursor (cursor : option string) : option (Z * uuid) :=
  match cursor with
  | None | Some EmptyString => None
  | Some c =>
      raw ← urlsafe_b64decode c;
      if utf8 raw then
        '(time_s, id_s) ← rsplit_bar raw;
        t ← fromisoformat time_s;
        i ← UUID id_s;
        Some (t, i)
      else None
  end.
End cursor.

(** ** Base 64 loses nothing *)
Lemma char64_ok n : (n < 64)%N → char64 n ≠ "="%char ∧ value64 (char64 n) = Some n.
Proof.
  intros Hn.
  assert (Hall : forallb (λ k, bool_decide (char64 (N.of_nat k) ≠ "="%char ∧ value64 (char64 (N.of_nat k)) = Some (N.of_nat k)))
    (seq 0 64) = true) by (vm_compute; reflexivity).
  rewrite forallb_forall in Hall. specialize (Hall (N.to_nat n)).
  rewrite N2Nat.id in Hall. apply bool_decide_eq_true in Hall; [done|]. apply in_seq. lia.
Qed.

Lemma a2b_step n r quad left pads :
  (n < 64)%N →
  a2b_base64 (String (char64 n) r) quad left pads =
  match quad with
  | 0 => a2b_base64 r 1 n 0
  | 1 => String (ascii_of_N (left * 4 + n / 16)) <$> a2b_base64 r 2 (n mod 16)%N 0
  | 2 => String (ascii_of_N (left * 16 + n / 4)) <$> a2b_base64 r 3 (n mod 4)%N 0
  | _ => String (ascii_of_N (left * 64 + n)) <$> a2b_base64 r 0 0%N 0
  end.
Proof. intros Hn. destruct (char64_ok n Hn) as [Hne Hv]. cbn [a2b_base64]. by rewrite decide_False, Hv. Qed.

Lemma byte_bound (c : ascii) : (N_of_ascii c < 256)%N.
Proof. apply N_ascii_bounded. Qed.

Lemma byte_back x c : x = N_of_ascii c → ascii_of_N x = c.
Proof. intros ->. apply ascii_N_embedding. Qed.

(** The arithmetic of six bits. *)
Lemma six_bits x y : (x < 256 → y < 256 →
  x / 4 < 64 ∧ x mod 4 * 16 + y / 16 < 64 ∧ (x / 4) * 4 + (x mod 4 * 16 + y / 16) / 16 = x
  ∧ (x mod 4 * 16 + y / 16) mod 16 = y / 16)%N.
Proof.
  intros Hx Hy. assert (Hy' : (y / 16 < 16)%N) by (apply N.Div0.div_lt_upper_bound; lia).
  assert (Hx' : (x mod 4 < 4)%N) by (apply N.mod_lt; lia).
  assert (E : ((x mod 4 * 16 + y / 16) / 16 = x mod 4)%N) by (rewrite N.div_add_l, (N.div_small (y / 16)); lia).
  split_and!; [apply N.Div0.div_lt_upper_bound; lia|lia| |].
  - rewrite E. rewrite (N.div_mod x 4) at 3 by lia. lia.
  - rewrite N.add_comm, N.Div0.mod_add. by apply N.mod_small.
Qed.

Lemma six_bits_low y z : (y < 256 → z < 256 →
  y mod 16 * 4 + z / 64 < 64 ∧ y / 16 * 16 + (y mod 16 * 4 + z / 64) / 4 = y
  ∧ (y mod 16 * 4 + z / 64) mod 4 = z / 64 ∧ z mod 64 < 64 ∧ z / 64 * 64 + z mod 64 = z)%N.
Proof.
  intros Hy Hz. assert (Hz' : (z / 64 < 4)%N) by (apply N.Div0.div_lt_upper_bound; lia).
  assert (Hy' : (y mod 16 < 16)%N) by (apply N.mod_lt; lia).
  assert (E : ((y mod 16 * 4 + z / 64) / 4 = y mod 16)%N) by (rewrite N.div_add_l, (N.div_small (z / 64)); lia).
  split_and!.
  - lia.
  - rewrite E. rewrite (N.div_mod y 16) at 3 by lia. lia.
  - rewrite N.add_comm, N.Div0.mod_add. by apply N.mod_small.
  - apply N.mod_lt. lia.
  - rewrite (N.div_mod z 64) at 3 by lia. lia.
Qed.

Lemma b64_roundtrip s : urlsafe_b64decode (urlsafe_b64encode s) = Some s.
Proof.
  unfold urlsafe_b64decode. remember (String.length s) as n eqn:Hn. assert (Hle : String.length s ≤ n) by lia. clear Hn.
  revert s Hle. induction n as [|n IH]; intros s Hle.
  { by destruct s; [|simpl in Hle; lia]. }
  destruct s as [|a [|b [|c r]]]; [done| | |].
  - pose proof (byte_bound a) as Ha. destruct (six_bits (N_of_ascii a) 0 Ha) as (H1 & H2 & H3 & H4); [lia|].
    rewrite N.Div0.div_0_l, N.add_0_r in *. cbn [urlsafe_b64encode].
    rewrite a2b_step by done. rewrite a2b_step by done. rewrite (byte_back _ a) by done. done.
  - pose proof (byte_bound a) as Ha. pose proof (byte_bound b) as Hb.
    destruct (six_bits (N_of_ascii a) (N_of_ascii b) Ha Hb) as (H1 & H2 & H3 & H4).
    destruct (six_bits_low (N_of_ascii b) 0 Hb) as (H5 & H6 & H7 & _); [lia|]. rewrite N.Div0.div_0_l, N.add_0_r in *.
    cbn [urlsafe_b64encode]. rewrite a2b_step by done. rewrite a2b_step by done. rewrite a2b_step by done.
    rewrite (byte_back _ a) by done. rewrite H4, (byte_back _ b) by done. done.
  - pose proof (byte_bound a) as Ha. pose proof (byte_bound b) as Hb. pose proof (byte_bound c) as Hc.
    destruct (six_bits (N_of_ascii a) (N_of_ascii b) Ha Hb) as (H1 & H2 & H3 & H4).
    destruct (six_bits_low (N_of_ascii b) (N_of_ascii c) Hb Hc) as (H5 & H6 & H7 & H8 & H9).
    cbn [urlsafe_b64encode]. rewrite a2b_step by done. rewrite a2b_step by done. rewrite a2b_step by done.
    rewrite a2b_step by done. rewrite (byte_back _ a) by done. rewrite H4, (byte_back _ b) by done.
    rewrite H7, (byte_back _ c) by done. rewrite IH by (simpl in Hle; lia). done.
Qed.

(** ** Splitting at the last bar *)
Fixpoint all_chars (p : ascii → bool) (s : string) : bool :=
  match s with EmptyString => true | String c r => p c && all_chars p r end.

Lemma all_chars_app p a b : all_chars p (a +:+ b) = all_chars p a && all_chars p b.
Proof. induction a as [|c a IH]; [done|]. rewrite append_cons. simpl. by rewrite IH, andb_assoc. Qed.

Lemma all_chars_impl (p q : ascii → bool) s : (∀ c, p c = true → q c = true) → all_chars p s = true → all_chars q s = true.
Proof.
  intros Hpq. induction s as [|c s IH]; [done|]. simpl. rewrite !andb_true_iff. intros [Hc Hs]. auto.
Qed.

Lemma rsplit_none s : all_chars (λ c, bool_decide (c ≠ "|"%char)) s = true → rsplit_bar s = None.
Proof.
  induction s as [|c s IH]; [done|]. simpl. rewrite andb_true_iff. intros [Hc%bool_decide_eq_true Hs]. rewrite IH by done.
  by rewrite decide_False.
Qed.

Lemma rsplit_app a b : all_chars (λ c, bool_decide (c ≠ "|"%char)) b = true → rsplit_bar (a +:+ "|" +:+ b) = Some (a, b).
Proof.
  intros Hb. induction a as [|c a IH].
  - change ("" +:+ "|" +:+ b)%string with (String "|" b). simpl. by rewrite rsplit_none.
  - rewrite append_cons. cbn [rsplit_bar]. by rewrite IH.
Qed.

(** ** The text of a UUID *)
Definition is_hex (c : ascii) : bool := match hex_value c with Some _ => true | None => false end.

Lemma hex_value_digit d : (d < 16)%N → hex_value (hex_digit d) = Some d.
Proof.
  intros Hd. assert (Hall : forallb (λ k, bool_decide (hex_value (hex_digit (N.of_nat k)) = Some (N.of_nat k))) (seq 0 16) = true)
    by (vm_compute; reflexivity).
  rewrite forallb_forall in Hall. specialize (Hall (N.to_nat d)). rewrite N2Nat.id in Hall.
  apply bool_decide_eq_true in Hall; [done|]. apply in_seq. lia.
Qed.

Lemma hex_is_hex w n : all_chars is_hex (hex w n) = true.
Proof.
  revert n. induction w as [|w IH]; intros n; [done|]. simpl. rewrite all_chars_app, IH. cbn [all_chars].
  unfold is_hex. by rewrite hex_value_digit by (apply N.mod_lt; lia).
Qed.

Lemma hex_digits_app a b acc :
  all_chars is_hex a = true → hex_digits (a +:+ b) acc = k ← hex_digits a acc; hex_digits b k.
Proof.
  revert acc. induction a as [|c a IH]; intros acc; [done|]. rewrite append_cons. simpl. unfold is_hex at 1.
  destruct (hex_value c); [|done]. simpl. apply IH.
Qed.

Lemma hex_digits_hex w n acc : hex_digits (hex w n) acc = Some (acc * 16 ^ N.of_nat w + n mod 16 ^ N.of_nat w)%N.
Proof.
  revert n acc. induction w as [|w IH]; intros n acc.
  { simpl hex. cbn [hex_digits]. change (16 ^ N.of_nat 0)%N with 1%N. rewrite N.mod_1_r. f_equal. lia. }
  simpl hex. rewrite hex_digits_app by apply hex_is_hex. rewrite IH. simpl.
  rewrite hex_value_digit by (apply N.mod_lt; lia). f_equal.
  change (N.pos (Pos.of_succ_nat w)) with (N.of_nat (S w)). rewrite Nat2N.inj_succ, N.pow_succ_r'.
  rewrite (N.Div0.mod_mul_r n 16). lia.
Qed.

(** Joining neighbouring hexadecimal fields. *)
Lemma join_field (n k w : N) : ((n / 2 ^ (k + w)) * 2 ^ w + (n / 2 ^ k) mod 2 ^ w = n / 2 ^ k)%N.
Proof.
  rewrite N.pow_add_r, <-N.Div0.div_div. rewrite (N.mul_comm (_ / _)). symmetry. apply N.div_mod. by apply N.pow_nonzero.
Qed.

Lemma remove_absent c p s : all_chars (λ x, bool_decide (x ≠ c)) s = true → remove (String c p) 0 s = s.
Proof.
  induction s as [|x s IH]; [done|]. simpl. rewrite andb_true_iff. intros [Hx%bool_decide_eq_true Hs].
  destruct (ascii_dec c x) as [->|]; [done|]. by rewrite IH.
Qed.

Lemma remove_dash_app a b :
  all_chars (λ x, bool_decide (x ≠ "-"%char)) a = true → remove "-" 0 (a +:+ "-" +:+ b) = (a +:+ remove "-" 0 b)%string.
Proof.
  induction a as [|x a IH]; [by destruct b|]. rewrite (append_cons x a ("-" +:+ b)), (append_cons x a (remove _ _ b)). cbn [all_chars]. rewrite andb_true_iff.
  intros [Hx%bool_decide_eq_true Ha]. cbn [remove String.prefix]. destruct (ascii_dec "-" x) as [<-|]; [done|].
  by rewrite IH.
Qed.

Lemma lstrip_braces_absent s : all_chars (λ c, negb (is_brace c)) s = true → lstrip_braces s = s.
Proof. destruct s as [|c s]; [done|]. simpl. by destruct (is_brace c). Qed.

Lemma rstrip_braces_absent s : all_chars (λ c, negb (is_brace c)) s = true → rstrip_braces s = s.
Proof.
  induction s as [|c s IH]; [done|]. simpl. rewrite andb_true_iff. intros [Hc Hs]. rewrite IH by done.
  destruct s; [|done]. by destruct (is_brace c).
Qed.

Lemma strip_absent s : all_chars (λ c, negb (is_space c)) s = true → strip s = s.
Proof.
  intros Hs. unfold strip. assert (lstrip s = s) as ->.
  { destruct s as [|c s]; [done|]. simpl in *. by destruct (is_space c). }
  induction s as [|c s IH]; [done|]. simpl in *. apply andb_true_iff in Hs as [Hc Hs]. rewrite IH by done.
  destruct s; [|done]. by destruct (is_space c).
Qed.

Lemma hex_chars c : is_hex c = true → c ∈ String.list_ascii_of_string "0123456789abcdefABCDEF".
Proof.
  intros H. assert (Hall : forallb (λ k, implb (is_hex (ascii_of_nat k)) (bool_decide
    (ascii_of_nat k ∈ String.list_ascii_of_string "0123456789abcdefABCDEF"))) (seq 0 256) = true) by (vm_compute; reflexivity).
  rewrite forallb_forall in Hall. specialize (Hall (nat_of_ascii c)). rewrite ascii_nat_embedding in Hall.
  rewrite H in Hall. apply bool_decide_eq_true in Hall; [done|]. apply in_seq. pose proof (nat_ascii_bounded c). lia.
Qed.

(** A property of the hexadecimal digits, by cases. *)
Lemma hex_chars_ind (P : ascii → Prop) :
  Forall P (String.list_ascii_of_string "0123456789abcdefABCDEF") → ∀ c, is_hex c = true → P c.
Proof. intros H c Hc. rewrite Forall_forall in H. apply H. by apply hex_chars. Qed.

Lemma hex_is (p : ascii → bool) s :
  forallb p (String.list_ascii_of_string "0123456789abcdefABCDEF") = true → all_chars is_hex s = true → all_chars p s = true.
Proof.
  intros Hp. apply all_chars_impl. apply hex_chars_ind. rewrite forallb_forall in Hp. apply Forall_forall.
  intros c Hc. apply Hp. by apply list_elem_of_In.
Qed.

Lemma int16_hex s : s ≠ ""%string → all_chars is_hex s = true → int16 s = hex_digits s 0.
Proof.
  intros Hne Hs. unfold int16. rewrite strip_absent by (by apply hex_is; [vm_compute|]).
  destruct s as [|c s]; [done|]. clear Hne. cbn [all_chars] in Hs. apply andb_true_iff in Hs as [Hc Hs].
  revert c Hc. apply hex_chars_ind.
  repeat apply Forall_cons_2; try apply Forall_nil_2; try reflexivity.
  destruct s as [|c s]; [done|]. cbn [all_chars] in Hs. apply andb_true_iff in Hs as [Hc _].
  revert c Hc. apply hex_chars_ind. repeat apply Forall_cons_2; try apply Forall_nil_2; reflexivity.
Qed.

Lemma uuid_of_N_int u : uuid_of_N (uuid_int u) = u.
Proof.
  apply uuid_int_inj. unfold uuid_of_N. pose proof (uuid_int_bound u) as Hu.
  destruct (decide _) as [H|H]; [done|]. by rewrite bool_decide_true in H.
Qed.

Lemma hex_field w n b acc :
  hex_digits (hex w n +:+ b) acc = hex_digits b (acc * 16 ^ N.of_nat w + n mod 16 ^ N.of_nat w)%N.
Proof. rewrite hex_digits_app by apply hex_is_hex. by rewrite hex_digits_hex. Qed.

Lemma uuid_str_chars p u : forallb p (String.list_ascii_of_string "-0123456789abcdefABCDEF") = true → all_chars p (uuid_str u) = true.
Proof.
  intros Hp. cbn in Hp. apply andb_true_iff in Hp as [Hd Hp].
  assert (Hh : ∀ w k, all_chars p (hex w k) = true) by (intros w k; apply hex_is; [done|apply hex_is_hex]).
  unfold uuid_str. rewrite !all_chars_app, !Hh. simpl. by rewrite Hd.
Qed.

Lemma UUID_str u : UUID (uuid_str u) = Some u.
Proof.
  unfold UUID. pose proof (uuid_int_bound u) as Hu. set (n := uuid_int u) in *.
  assert (Hx : ∀ w k, all_chars is_hex (hex w k) = true) by apply hex_is_hex.
  assert (Hchars := λ p, uuid_str_chars p u).
  rewrite (remove_absent "u" "rn:") by (apply Hchars; vm_compute; reflexivity).
  rewrite (remove_absent "u" "uid:") by (apply Hchars; vm_compute; reflexivity).
  rewrite lstrip_braces_absent by (apply Hchars; vm_compute; reflexivity).
  rewrite rstrip_braces_absent by (apply Hchars; vm_compute; reflexivity).
  assert (Hnd : ∀ w k, all_chars (λ x, bool_decide (x ≠ "-"%char)) (hex w k) = true) by (intros w k; apply hex_is; [vm_compute; reflexivity|done]).
  unfold uuid_str. fold n. rewrite !remove_dash_app by done. rewrite remove_absent by done.
  rewrite decide_True by (by rewrite !string_length_app, !hex_length).
  rewrite int16_hex.
  2: { intros H. apply (f_equal String.length) in H. by rewrite !string_length_app, !hex_length in H. }
  2: { by rewrite !all_chars_app, !Hx. }
  rewrite !hex_field, hex_digits_hex. change (uuid_of_N <$> Some ?k) with (Some (uuid_of_N k)).
  f_equal. rewrite <-(uuid_of_N_int u). fold n. f_equal.
  change (16 ^ N.of_nat 8)%N with (2 ^ 32)%N. change (16 ^ N.of_nat 4)%N with (2 ^ 16)%N. change (16 ^ N.of_nat 12)%N with (2 ^ 48)%N.
  rewrite (N.mod_small (n / 2 ^ 96)) by (apply N.Div0.div_lt_upper_bound; exact Hu).
  rewrite N.mul_0_l, N.add_0_l. 
  pose proof (join_field n 80 16) as J1. pose proof (join_field n 64 16) as J2. pose proof (join_field n 48 16) as J3.
  change (80 + 16)%N with 96%N in J1. change (64 + 16)%N with 80%N in J2. change (48 + 16)%N with 64%N in J3.
  rewrite J1, J2, J3.
  rewrite N.mul_comm. symmetry. by apply N.div_mod.
Qed.

(** ** The round trip *)
Lemma utf8_app a b : utf8 a = true → utf8 b = true → utf8 (a +:+ b) = true.
Proof.
  remember (String.length a) as n eqn:Hn. assert (Hle : String.length a ≤ n) by lia. clear Hn. revert a Hle.
  induction n as [|n IH]; intros a Hle Ha Hb; [by destruct a; [|simpl in Hle; lia]|].
  destruct a as [|c1 a]; [done|]. rewrite append_cons. simpl in Hle. cbn [utf8] in *.
  destruct (between 0 127 c1); [apply IH; [lia|done..]|].
  destruct a as [|c2 a]; [done|]. rewrite append_cons. simpl in Hle.
  destruct (between 194 223 c1).
  { rewrite andb_true_iff in *. destruct Ha as [? Ha]. split; [done|]. apply IH; [lia|done..]. }
  destruct a as [|c3 a]; [done|]. rewrite append_cons. simpl in Hle.
  destruct (between 224 239 c1).
  { rewrite !andb_true_iff in *. destruct Ha as [? Ha]. split; [done|]. apply IH; [lia|done..]. }
  destruct a as [|c4 a]; [done|]. rewrite append_cons. simpl in Hle.
  rewrite !andb_true_iff in *. destruct Ha as [? Ha]. split; [done|]. apply IH; [lia|done..].
Qed.

Lemma utf8_ascii s : all_chars (between 0 127) s = true → utf8 s = true.
Proof. induction s as [|c s IH]; [done|]. cbn [all_chars utf8]. rewrite andb_true_iff. intros [-> Hs]. auto. Qed.

Lemma decode_encode_cursor `{IsoFormatLaws} (created_at : Z) (item_id : uuid) :
  _decode_cursor (Some (_encode_cursor created_at item_id)) = Some (created_at, item_id).
Proof.
  unfold _decode_cursor, _encode_cursor. set (raw := (isoformat created_at +:+ "|" +:+ uuid_str item_id)%string).
  assert (Hraw : urlsafe_b64encode raw ≠ ""%string).
  { intros Hn. pose proof (b64_roundtrip raw) as Hr. rewrite Hn in Hr. injection Hr as Hr.
    apply (f_equal String.length) in Hr. unfold raw in Hr. rewrite !string_length_app, uuid_str_length in Hr. change (String.length "|") with 1 in Hr. cbn [String.length] in Hr. lia. }
  destruct (urlsafe_b64encode raw) as [|c r] eqn:He; [done|]. rewrite <-He, b64_roundtrip. simpl.
  assert (utf8 raw = true) as ->.
  { apply utf8_app; [apply isoformat_ascii|]. apply utf8_app; [done|]. apply utf8_ascii. apply uuid_str_chars. vm_compute. reflexivity. }
  unfold raw. rewrite rsplit_app by (apply uuid_str_chars; vm_compute; reflexivity). cbn [mbind option_bind].
  by rewrite fromisoformat_isoformat, UUID_str.
Qed.

(** C20: the round trip of a cursor. What [_encode_cursor] gives a client,
    [_decode_cursor] reads back as the same instant and identifier, so two places
    of the timeline never share a cursor; no cursor at all is the start. *)
Theorem cursor_roundtrip `{IsoFormatLaws} (created_at : Z) (item_id : uuid) :
  _decode_cursor (Some (_encode_cursor created_at item_id)) = Some (created_at, item_id)
  ∧ (∀ t i, _encode_cursor t i = _encode_cursor created_at item_id → t = created_at ∧ i = item_id)
  ∧ _decode_cursor None = None.
Proof.
  split_and!; [apply decode_encode_cursor| |done]. intros t i He.
  pose proof (decode_encode_cursor t i) as Hd. rewrite He, decode_encode_cursor in Hd. by injection Hd as -> ->.
Qed.

(** A text form with the law: the binary digits of a code. *)
Fixpoint bits (p : positive) : string :=
  match p with xH => "" | xO p => String "0" (bits p) | xI p => String "1" (bits p) end.

Fixpoint unbits (s : string) : positive :=
  match s with EmptyString => xH | String "0" s => xO (unbits s) | String _ s => xI (unbits s) end.

#[export] Instance bits_format : IsoFormat := {| isoformat t := bits (encode t); fromisoformat s := decode (unbits s) |}.

#[export] Instance bits_format_laws : IsoFormatLaws.
Proof.
  split.
  - intros t. cbn. induction (encode t) as [p IH|p IH|]; cbn [bits utf8]; done.
  - intros t. cbn. assert (∀ p, unbits (bits p) = p) as ->; [|apply decode_encode].
    intros p. induction p as [p IH|p IH|]; simpl; [by rewrite IH..|done].
Qed.

Lemma cursor_roundtrip_witness :
  _decode_cursor (Some (_encode_cursor 1700000000000000 (uuid_of_N 7))) = Some (1700000000000000%Z, uuid_of_N 7).
Proof. exact (proj1 (cursor_roundtrip 1700000000000000 (uuid_of_N 7))). Defined.
