(* ===== verification/Feed.v ===== *)
(** * The timeline

    Model of [app/modules/feed]: the sources of [feed.py] with the queries the
    content domains build for them ([app/contracts/feed.py], the [feed_api.py]
    files), the pages of [service.py], and the materialised timelines of
    [fanout.py]. Scores and the names of authors decorate the items of a page
    and are left out; the moderation of a text is a parameter. *)

From S2P Require Import Prelude Cursor.

Record FeedItem := MkItem {
  item_type : string;
  item_id : uuid;
  author_id : option uuid;
  board_id : option uuid;
  title : string;
  content_preview : string;
  created_at : Z;
  url : string
}.

(** [(it.item_type, it.id)] *)
Definition item_key (it : FeedItem) : string * uuid := (item_type it, item_id it).

Record FeedResponse := Page { items : list FeedItem; next_cursor : option string }.

Record settings := { feed_fanout_max_followers : nat }.

(** What the timeline reads: the published rows of each source, who follows
    whom and what, and [feed_items] (owner, item). *)
Record tables := Tables {
  published : string → list FeedItem;
  user_follows : list (uuid * uuid);
  board_follows : list (uuid * uuid);
  feed_items : list (uuid * FeedItem);
  fanout_state : gmap string (Z * option uuid)
}.

(** ** Cursor conditions *)
Definition before_conditions (before_time : option Z) (before_id : option uuid) (it : FeedItem) : bool :=
  match before_time, before_id with
  | None, _ => true
  | Some t, None => bool_decide (created_at it < t)%Z
  | Some t, Some i =>
      bool_decide (created_at it < t)%Z
      || bool_decide (created_at it = t) && bool_decide (uuid_int (item_id it) < uuid_int i)%N
  end.

Definition after_conditions (after_time : Z) (after_id : option uuid) (it : FeedItem) : bool :=
  match after_id with
  | None => bool_decide (after_time < created_at it)%Z
  | Some i =>
      bool_decide (after_time < created_at it)%Z
      || bool_decide (created_at it = after_time) && bool_decide (uuid_int i < uuid_int (item_id it))%N
  end.

(** A position: both halves, or neither. *)
Definition before (c : option (Z * uuid)) : FeedItem → bool := before_conditions (fst <$> c) (snd <$> c).

(** [(created_at.desc(), id.desc())] *)
Definition later_first (a b : FeedItem) : Prop :=
  (created_at b < created_at a)%Z ∨ created_at a = created_at b ∧ (uuid_int (item_id b) ≤ uuid_int (item_id a))%N.

#[export] Instance later_first_dec : RelDecision later_first.
Proof. intros a b. unfold later_first. apply _. Defined.

Definition newest_first : list FeedItem → list FeedItem := merge_sort later_first.
Definition oldest_first : list FeedItem → list FeedItem := merge_sort (flip later_first).

(** ** Sources *)
Definition FOLLOW_SOURCES : list string := ["discussion"; "column"; "qa"; "project"; "blog"].
Definition HOT_SOURCES : list string := ["discussion"; "article"; "column"; "qa"; "project"; "blog"].

Definition is_author (author_ids : gset uuid) (it : FeedItem) : bool :=
  match author_id it with Some a => bool_decide (a ∈ author_ids) | None => false end.

Definition on_board (board_ids : option (gset uuid)) (it : FeedItem) : bool :=
  match board_ids, board_id it with Some bs, Some b => bool_decide (b ∈ bs) | _, _ => false end.

(** The conditions on authors and boards; articles have no author. *)
Definition audience_conditions (name : string) (author_ids : option (gset uuid)) (board_ids : option (gset uuid))
    (it : FeedItem) : bool :=
  match author_ids with
  | None => true
  | Some ids =>
      if decide (name = "article"%string) then true
      else if decide (name = "discussion"%string) then is_author ids it || on_board board_ids it
      else is_author ids it
  end.

(** [SOURCES[name](db, author_ids, board_ids, before_time, before_id, limit)] *)
Definition fetch_source (d : tables) (name : string) (author_ids board_ids : option (gset uuid))
    (c : option (Z * uuid)) (limit : nat) : list FeedItem :=
  take limit (newest_first (filter (λ it, audience_conditions name author_ids board_ids it && before c it) (published d name))).

(** [_load_materialized_page] over [list_page]. *)
Definition _load_materialized_page (d : tables) (user : uuid) (c : option (Z * uuid)) (limit : nat) : list FeedItem :=
  take limit (newest_first (filter (λ it, before c it) (snd <$> filter (λ r, r.1 = user) (feed_items d)))).

Definition get_following_ids (d : tables) (user : uuid) : gset uuid :=
  list_to_set (snd <$> filter (λ r, r.1 = user) (user_follows d)).

Definition get_followed_board_ids (d : tables) (user : uuid) : gset uuid :=
  list_to_set (snd <$> filter (λ r, r.1 = user) (board_follows d)).

Definition follower_ids (rel : list (uuid * uuid)) (target : uuid) : list uuid :=
  fst <$> filter (λ r, r.2 = target) rel.

Section timeline.
Context `{IsoFormat} (cfg : settings) (should_hide : string → bool).

Definition hidden (it : FeedItem) : bool := should_hide (title it +:+ " " +:+ content_preview it).

(** [_filter_hidden] *)
Definition _filter_hidden (its : list FeedItem) : list FeedItem := filter (λ it, hidden it = false) its.

(** ** Collecting a page *)
Fixpoint visit (limit : nat) (kept visible : list FeedItem) (seen : gset (string * uuid))
  : list FeedItem * gset (string * uuid) :=
  match kept with
  | [] => (visible, seen)
  | it :: kept =>
      if decide (item_key it ∈ seen) then visit limit kept visible seen else
      let seen := {[ item_key it ]} ∪ seen in
      let visible := visible ++ [it] in
      if decide (limit < length visible) then (visible, seen) else visit limit kept visible seen
  end.

(** The loop: what is visible so far, whether there was any candidate, the
    position, and how many rows have been looked at. *)
Fixpoint scan (fuel : nat) (fetch : option (Z * uuid) → nat → list FeedItem) (limit max_scanned batch_size scanned : nat)
    (visible : list FeedItem) (seen : gset (string * uuid)) (has_candidates : bool)
    (pos last_scanned : option (Z * uuid)) : list FeedItem * bool * option (Z * uuid) * nat :=
  match fuel with
  | 0 => (visible, has_candidates, last_scanned, scanned)
  | S fuel =>
      if decide (length visible ≤ limit ∧ scanned < max_scanned) then
        let size := min batch_size (max_scanned - scanned) in
        let candidates := newest_first (fetch pos size) in
        match last (take size candidates) with
        | None => (visible, has_candidates, last_scanned, scanned)
        | Some lst =>
            let batch := take size candidates in
            let '(visible, seen) := visit limit (_filter_hidden batch) visible seen in
            let pos := Some (created_at lst, item_id lst) in
            let scanned := scanned + length batch in
            if decide (length candidates < size) then (visible, true, pos, scanned)
            else scan fuel fetch limit max_scanned (min (batch_size * 2) 100) scanned visible seen true pos pos
        end
      else (visible, has_candidates, last_scanned, scanned)
  end.

(** Every round looks at one row at least, so [max_scanned] rounds are enough. *)
Definition _collect_page (fetch : option (Z * uuid) → nat → list FeedItem) (c : option (Z * uuid)) (limit : nat)
  : list FeedItem * bool * option (Z * uuid) :=
  let max_scanned := max 200 (limit * 10) in
  let '(visible, has_candidates, last_scanned, scanned) :=
    scan max_scanned fetch limit max_scanned (limit + 1) 0 [] ∅ false c None in
  (visible, has_candidates,
   if decide (max_scanned ≤ scanned ∧ length visible ≤ limit) then last_scanned else None).

Definition encode_position (c : Z * uuid) : string := _encode_cursor c.1 c.2.

Definition _finish_page (visible : list FeedItem) (limit : nat) (continuation : option (Z * uuid)) : FeedResponse :=
  let page := take limit visible in
  match last page with
  | None => Page [] (encode_position <$> continuation)
  | Some lst =>
      Page page (if decide (limit < length visible) then Some (_encode_cursor (created_at lst) (item_id lst))
                 else encode_position <$> continuation)
  end.

(** ** The read paths *)
Definition _realtime_fetch (d : tables) (names : list string) (author_ids board_ids : option (gset uuid))
    (c : option (Z * uuid)) (limit : nat) : list FeedItem :=
  names ≫= λ name,
    fetch_source d name author_ids (if decide (name = "discussion"%string) then board_ids else None) c limit.

Definition _realtime_timeline (d : tables) (user : option uuid) (mode : string) (cursor : option string) (limit : nat)
  : FeedResponse :=
  let c := _decode_cursor cursor in
  let page names author_ids board_ids :=
    let '(visible, _, continuation) := _collect_page (_realtime_fetch d names author_ids board_ids) c limit in
    _finish_page visible limit continuation in
  match user with
  | Some u =>
      if decide (mode = "follow"%string) then
        let following := get_following_ids d u in
        let boards := get_followed_board_ids d u in
        if decide (following = ∅ ∧ boards = ∅) then Page [] None
        else page FOLLOW_SOURCES (Some following) (Some boards)
      else page HOT_SOURCES None None
  | None => page HOT_SOURCES None None
  end.

(** Authors with more followers than the fan-out writes for. *)
Definition bigv_authors (d : tables) : gset uuid :=
  list_to_set (filter (λ a, feed_fanout_max_followers cfg < length (follower_ids (user_follows d) a)) (snd <$> user_follows d)).

Definition _realtime_supplement (d : tables) (author_ids board_ids : gset uuid) (c : option (Z * uuid)) (limit : nat)
  : list FeedItem :=
  FOLLOW_SOURCES ≫= λ name,
    if decide (name ≠ "discussion"%string ∧ author_ids = ∅) then []
    else if decide (name = "discussion"%string ∧ author_ids = ∅ ∧ board_ids = ∅) then []
    else fetch_source d name (Some author_ids) (if decide (name = "discussion"%string) then Some board_ids else None) c limit.

Definition _materialized_fetch (d : tables) (u : uuid) (bigv boards : gset uuid) (c : option (Z * uuid)) (limit : nat)
  : list FeedItem :=
  _load_materialized_page d u c limit
  ++ (if decide (bigv ≠ ∅ ∨ boards ≠ ∅) then _realtime_supplement d bigv boards c limit else []).

Definition _materialized_timeline (d : tables) (u : uuid) (cursor : option string) (limit : nat) : option FeedResponse :=
  let c := _decode_cursor cursor in
  let following := get_following_ids d u in
  let boards := get_followed_board_ids d u in
  if decide (following = ∅ ∧ boards = ∅) then Some (Page [] None) else
  let bigv := bigv_authors d ∩ following in
  let '(visible, has_candidates, continuation) := _collect_page (_materialized_fetch d u bigv boards) c limit in
  if decide (has_candidates = false ∧ c = None) then None
  else Some (_finish_page visible limit continuation).

Definition get_timeline (d : tables) (user : option uuid) (mode : string) (cursor : option string) (limit : nat) : FeedResponse :=
  match user with
  | Some u =>
      if decide (mode = "follow"%string) then
        match _materialized_timeline d u cursor limit with
        | Some page => page
        | None => _realtime_timeline d user mode cursor limit
        end
      else _realtime_timeline d user mode cursor limit
  | None => _realtime_timeline d user mode cursor limit
  end.

(** A client that follows [next_cursor]; the flag says that it came to the end. *)
Fixpoint read_on (fuel : nat) (get : option string → FeedResponse) (cursor : option string) : list FeedItem * bool :=
  match fuel with
  | 0 => ([], false)
  | S fuel =>
      let r := get cursor in
      match next_cursor r with
      | None => (items r, true)
      | Some c => let '(rest, done) := read_on fuel get (Some c) in (items r ++ rest, done)
      end
  end.
End timeline.

(** ** Positions as numbers

    The order of the timeline is that of [rank]. *)
Definition rank_of (t : Z) (i : uuid) : Z := (t * 2 ^ 128 + Z.of_N (uuid_int i))%Z.
Definition rank (it : FeedItem) : Z := rank_of (created_at it) (item_id it).
Definition rank_pos (c : Z * uuid) : Z := rank_of c.1 c.2.

Lemma rank_of_lt t i t' i' :
  (rank_of t i < rank_of t' i')%Z ↔ (t < t')%Z ∨ t = t' ∧ (uuid_int i < uuid_int i')%N.
Proof.
  unfold rank_of. pose proof (uuid_int_bound i). pose proof (uuid_int_bound i'). 
  change (2 ^ 128)%N with 340282366920938463463374607431768211456%N in *.
  change (2 ^ 128)%Z with 340282366920938463463374607431768211456%Z. lia.
Qed.

Lemma rank_of_inj t i t' i' : rank_of t i = rank_of t' i' → t = t' ∧ i = i'.
Proof.
  intros H. pose proof (rank_of_lt t i t' i') as [_ H1]. pose proof (rank_of_lt t' i' t i) as [_ H2].
  assert (t = t') as -> by lia. split; [done|]. apply uuid_int_inj. lia.
Qed.

Lemma later_first_rank a b : later_first a b ↔ (rank b ≤ rank a)%Z.
Proof.
  unfold later_first, rank. pose proof (rank_of_lt (created_at a) (item_id a) (created_at b) (item_id b)) as H. lia.
Qed.

#[export] Instance later_first_trans : Transitive later_first.
Proof. intros a b c. rewrite !later_first_rank. lia. Qed.

#[export] Instance later_first_total : Total later_first.
Proof. intros a b. rewrite !later_first_rank. lia. Qed.

Lemma before_rank c it : before c it = true ↔ match c with Some p => (rank it < rank_pos p)%Z | None => True end.
Proof.
  unfold before, before_conditions. destruct c as [[t i]|]; [|done]. cbn [fmap option_fmap option_map fst snd].
  unfold rank, rank_pos. rewrite rank_of_lt. rewrite orb_true_iff, andb_true_iff, !bool_decide_eq_true. done.
Qed.

Lemma before_item y x : before (Some (created_at y, item_id y)) x = true ↔ (rank x < rank y)%Z.
Proof. by rewrite before_rank. Qed.

Abbreviation descending := (StronglySorted later_first).
Abbreviation strictly := (StronglySorted (λ a b, (rank b < rank a)%Z)).

Lemma newest_first_perm l : newest_first l ≡ₚ l.
Proof. apply merge_sort_Permutation. Qed.

Lemma newest_first_sorted l : descending (newest_first l).
Proof. apply Sorted_StronglySorted; [apply _|]. apply Sorted_merge_sort. apply _. Qed.

(** Where a sorted list is cut. *)
Lemma StronglySorted_cut {A} (R : relation A) l n x y :
  StronglySorted R l → x ∈ take n l → y ∈ drop n l → R x y.
Proof.
  intros Hs. rewrite <-(take_drop n l) in Hs at 1. intros Hx Hy.
  revert Hs Hx. generalize (take n l). intros l1. induction l1 as [|a l1 IH]; [by intros _ ?%elem_of_nil|].
  simpl. intros Hs. inversion Hs as [|? ? Hs' Ha]; subst. intros [->|Hx]%elem_of_cons; [|by apply IH].
  rewrite Forall_forall in Ha. apply Ha. apply elem_of_app. by right.
Qed.

Lemma StronglySorted_take {A} (R : relation A) l n : StronglySorted R l → StronglySorted R (take n l).
Proof.
  intros Hs. revert n. induction Hs as [|a l Hs IH Ha]; intros [|n]; simpl; constructor; [apply IH|].
  apply Forall_forall. intros x Hx. rewrite Forall_forall in Ha. apply Ha. apply elem_of_take in Hx as (i & Hi & _). by eapply list_elem_of_lookup_2.
Qed.

Lemma StronglySorted_kept {A} (R : relation A) (P : A → Prop) `{∀ x, Decision (P x)} l :
  StronglySorted R l → StronglySorted R (filter P l).
Proof.
  induction 1 as [|a l Hs IH Ha]; [constructor|]. destruct (decide (P a)).
  - rewrite filter_cons_True by done. constructor; [done|]. apply Forall_forall. intros x [_ Hx]%list_elem_of_filter.
    rewrite Forall_forall in Ha. by apply Ha.
  - by rewrite filter_cons_False.
Qed.

Lemma StronglySorted_snoc {A} (R : relation A) l x :
  StronglySorted R l → (∀ y, y ∈ l → R y x) → StronglySorted R (l ++ [x]).
Proof.
  intros Hs Hx. induction Hs as [|a l Hs IH Ha]; [by repeat constructor|]. simpl. constructor.
  - apply IH. intros y Hy. apply Hx. by apply elem_of_cons; right.
  - apply Forall_app. split; [done|]. constructor; [|done]. apply Hx. apply elem_of_cons. by left.
Qed.

(** [n] elements above a mark: the first [n] are above it. *)
Lemma sorted_prefix l n r :
  descending l → n ≤ length (filter (λ x, (r ≤ rank x)%Z) l) → Forall (λ x, (r ≤ rank x)%Z) (take n l).
Proof.
  intros Hs. revert n. induction Hs as [|a l Hs IH Ha]; intros [|n] Hn; simpl; try by constructor.
  destruct (decide (r ≤ rank a)%Z) as [Hr|Hr].
  - rewrite filter_cons_True in Hn by done. simpl in Hn. constructor; [done|]. apply IH. lia.
  - rewrite filter_cons_False in Hn by done. exfalso.
    rewrite Forall_forall in Ha. destruct (filter (λ x, (r ≤ rank x)%Z) l) as [|x l'] eqn:Hf; [simpl in Hn; lia|].
    assert (Hx : x ∈ filter (λ x, (r ≤ rank x)%Z) l) by (rewrite Hf; apply elem_of_cons; by left).
    apply list_elem_of_filter in Hx as [Hrx Hx]. apply Ha, later_first_rank in Hx. lia.
Qed.

Lemma last_take_in {A} (l : list A) n x : last (take n l) = Some x → x ∈ take n l.
Proof. intros H. apply last_Some in H as [l' ->]. apply elem_of_app. right. by apply list_elem_of_singleton. Qed.

(** The last of a sorted list is below the others. *)
Lemma last_lowest l y x : descending l → last l = Some y → x ∈ l → (rank y ≤ rank x)%Z.
Proof.
  intros Hs Hl Hx. apply last_Some in Hl as [l' ->]. apply elem_of_app in Hx as [Hx|Hx].
  - apply later_first_rank. apply (StronglySorted_cut _ _ (length l') _ _ Hs).
    + by rewrite take_app_length.
    + rewrite drop_app_length. by apply list_elem_of_singleton.
  - apply list_elem_of_singleton in Hx as ->. done.
Qed.

Lemma filter_all {A} (P : A → Prop) `{∀ x, Decision (P x)} (l : list A) : Forall P l → filter P l = l.
Proof. induction 1 as [|x l Hx _ IH]; [done|]. by rewrite filter_cons_True, IH. Qed.

(** ** A merge of sources loses nothing *)
Definition merge_fetch (ss : list (list FeedItem)) (c : option (Z * uuid)) (n : nat) : list FeedItem :=
  ss ≫= λ rows, take n (newest_first (filter (λ it, before c it) rows)).

(** Items of all sources: copies of an item agree, and no two share an instant
    and an identifier. *)
Record coherent (all : list FeedItem) : Prop := {
  coherent_key a b : a ∈ all → b ∈ all → item_key a = item_key b → a = b;
  coherent_rank a b : a ∈ all → b ∈ all → rank a = rank b → a = b
}.

Section merge.
Context (ss : list (list FeedItem)).
Let all := mjoin ss.
Context (Hall : coherent all).

Lemma in_all rows x : rows ∈ ss → x ∈ rows → x ∈ all.
Proof. intros Hr Hx. apply list_elem_of_join. by exists rows. Qed.

Lemma merge_fetch_in c n x : x ∈ merge_fetch ss c n → x ∈ all ∧ before c x = true.
Proof.
  unfold merge_fetch. intros Hx. apply list_elem_of_bind in Hx as (rows & Hx & Hr).
  apply elem_of_take in Hx as (i & Hi & _). apply list_elem_of_lookup_2 in Hi. rewrite newest_first_perm in Hi.
  apply list_elem_of_filter in Hi as [Hb Hi]. apply Is_true_true in Hb. split; [by eapply in_all|done].
Qed.

(** A candidate is fetched, or its source sent [n] items above it. *)
Lemma merge_fetch_cases c n x :
  x ∈ all → before c x = true →
  x ∈ merge_fetch ss c n ∨ n ≤ length (filter (λ y, (rank x ≤ rank y)%Z) (merge_fetch ss c n)).
Proof.
  intros Hx Hb. apply list_elem_of_join in Hx as (rows & Hx & Hr).
  set (S := newest_first (filter (λ it, before c it) rows)).
  assert (HxS : x ∈ S).
  { unfold S. rewrite newest_first_perm. apply list_elem_of_filter. split; [by apply Is_true_true|done]. }
  assert (Hpart : ∃ l1 l2, merge_fetch ss c n = l1 ++ take n S ++ l2).
  { apply list_elem_of_split in Hr as (s1 & s2 & ->). unfold merge_fetch. rewrite bind_app. simpl. by eexists _, _. }
  destruct Hpart as (l1 & l2 & Heq). rewrite <-(take_drop n S) in HxS. apply elem_of_app in HxS as [Hin|Hout].
  - left. rewrite Heq. set_solver.
  - right. rewrite Heq, !filter_app, !length_app.
    assert (Hlen : length (take n S) = n).
    { apply list_elem_of_lookup_1 in Hout as [i Hi]. rewrite lookup_drop in Hi. apply lookup_lt_Some in Hi. rewrite length_take. lia. }
    assert (filter (λ y, (rank x ≤ rank y)%Z) (take n S) = take n S) as ->; [|lia].
    apply filter_all. apply Forall_forall. intros y Hy. apply later_first_rank.
    apply (StronglySorted_cut _ S n); [apply newest_first_sorted|done|done].
Qed.

(** What the loop looks at in one round. *)
Lemma batch_in c n x : x ∈ take n (newest_first (merge_fetch ss c n)) → x ∈ all ∧ before c x = true.
Proof.
  intros Hx. apply elem_of_take in Hx as (i & Hi & _). apply list_elem_of_lookup_2 in Hi. rewrite newest_first_perm in Hi.
  by apply merge_fetch_in in Hi.
Qed.

Lemma batch_closed c n x y :
  let batch := take n (newest_first (merge_fetch ss c n)) in
  last batch = Some y → x ∈ all → before c x = true → (rank y ≤ rank x)%Z → x ∈ batch.
Proof.
  cbv zeta. set (cand := newest_first (merge_fetch ss c n)). intros Hy Hx Hb Hle.
  assert (Hs : descending cand) by apply newest_first_sorted.
  assert (Hyin : y ∈ take n cand) by by apply last_take_in.
  assert (Hya : y ∈ all) by by apply batch_in in Hyin as [? _].
  assert (Hsame : (rank x ≤ rank y)%Z → x ∈ take n cand).
  { intros Hge. assert (x = y) as ->; [|done]. apply (coherent_rank _ Hall); [done|done|lia]. }
  destruct (merge_fetch_cases c n x Hx Hb) as [Hin|Hmany].
  - assert (Hc : x ∈ cand) by (unfold cand; by rewrite newest_first_perm).
    rewrite <-(take_drop n cand) in Hc. apply elem_of_app in Hc as [|Hc]; [done|]. apply Hsame.
    apply later_first_rank. by apply (StronglySorted_cut _ cand n).
  - apply Hsame. assert (Hf : Forall (λ z, (rank x ≤ rank z)%Z) (take n cand)).
    { apply sorted_prefix; [done|]. unfold cand. by rewrite newest_first_perm. }
    rewrite Forall_forall in Hf. by apply Hf.
Qed.

Lemma batch_complete c n x :
  let cand := newest_first (merge_fetch ss c n) in
  length cand < n → x ∈ all → before c x = true → x ∈ take n cand.
Proof.
  cbv zeta. intros Hlen Hx Hb. rewrite take_ge by lia. rewrite newest_first_perm in *.
  destruct (merge_fetch_cases c n x Hx Hb) as [|Hmany]; [done|].
  pose proof (length_filter (λ y, (rank x ≤ rank y)%Z) (merge_fetch ss c n)). lia.
Qed.
End merge.

(** ** Pages *)
Section pages.
Context (should_hide : string → bool) (ss : list (list FeedItem)).
Let all := mjoin ss.
Context (Hall : coherent all).

Definition visible_in (all : list FeedItem) (it : FeedItem) : Prop := it ∈ all ∧ hidden should_hide it = false.
Abbreviation vis := (visible_in all).

Definition keys (l : list FeedItem) : gset (string * uuid) := list_to_set (item_key <$> l).

Lemma seen_iff l x : (∀ y, y ∈ l → y ∈ all) → x ∈ all → item_key x ∈ keys l ↔ x ∈ l.
Proof.
  intros Hl Hx. unfold keys. rewrite elem_of_list_to_set, list_elem_of_fmap. split.
  - intros (y & Hk & Hy). by rewrite (coherent_key _ Hall x y Hx (Hl y Hy) Hk).
  - intros Hin. by exists x.
Qed.

(** Adding the items of a sorted batch. *)
Lemma visit_spec limit ks acc :
  descending ks → strictly acc → (∀ x, x ∈ acc → x ∈ all) → (∀ x, x ∈ ks → x ∈ all) →
  (∀ a k, a ∈ acc → k ∈ ks → (rank k ≤ rank a)%Z) → length acc ≤ limit →
  ∃ new, visit limit ks acc (keys acc) = (acc ++ new, keys (acc ++ new))
    ∧ strictly (acc ++ new) ∧ (∀ x, x ∈ new → x ∈ ks)
    ∧ (length (acc ++ new) ≤ limit ∧ (∀ k, k ∈ ks → k ∈ acc ++ new)
       ∨ length (acc ++ new) = S limit ∧ ∀ k, k ∈ ks → k ∈ acc ++ new ∨ ∀ a, a ∈ acc ++ new → (rank k < rank a)%Z).
Proof.
  intros Hks. revert acc. induction Hks as [|k ks Hks IH Hk]; intros acc Hs Ha Hin Hle Hlen.
  { exists []. rewrite app_nil_r. split_and!; [done|done|done|]. left. split; [done|]. by intros x ?%elem_of_nil. }
  assert (Hkin : k ∈ all) by (apply Hin; apply elem_of_cons; by left).
  assert (Hks' : ∀ x, x ∈ ks → x ∈ all) by (intros x Hx; apply Hin; apply elem_of_cons; by right).
  rewrite Forall_forall in Hk. cbn [visit]. destruct (decide (item_key k ∈ keys acc)) as [Hseen|Hnew].
  - assert (Hka : k ∈ acc) by by apply seen_iff.
    destruct (IH acc) as (new & Hv & Hstr & Hsub & Hcase); try done.
    { intros a x Hx Hxk. apply Hle; [done|]. apply elem_of_cons. by right. }
    exists new. rewrite Hv. split_and!; try done.
    { intros x Hx. apply elem_of_cons. right. by apply Hsub. }
    destruct Hcase as [[H1 H2]|[H1 H2]]; [left|right]; (split; [done|]); intros x [->|Hx]%elem_of_cons; auto.
    + apply elem_of_app. by left.
    + left. apply elem_of_app. by left.
  - assert (Hkeys : {[item_key k]} ∪ keys acc = keys (acc ++ [k])).
    { unfold keys. rewrite fmap_app, list_to_set_app_L. simpl. set_solver. }
    rewrite Hkeys. assert (Hkn : k ∉ acc) by (intros Hn; by apply Hnew, seen_iff).
    assert (Hlow : ∀ a, a ∈ acc → (rank k < rank a)%Z).
    { intros a Hac. pose proof (Hle a k Hac) as Hr. assert (rank k ≤ rank a)%Z by (apply Hr; apply elem_of_cons; by left).
      destruct (decide (rank k = rank a)) as [He|]; [|lia]. exfalso. apply Hkn.
      by rewrite (coherent_rank _ Hall k a Hkin (Ha a Hac) He). }
    assert (Hs' : strictly (acc ++ [k])) by by apply StronglySorted_snoc.
    destruct (decide (limit < length (acc ++ [k]))) as [Hfull|Hroom].
    + exists [k]. split_and!; [done|done| |].
      { intros x Hx%list_elem_of_singleton. subst. apply elem_of_cons. by left. }
      right. split; [rewrite length_app in *; simpl in *; lia|].
      assert (Hd : ∀ x, x ∈ k :: ks → x = k ∨ (rank x < rank k)%Z).
      { intros x [->|Hx]%elem_of_cons; [by left|]. assert (rank x ≤ rank k)%Z by (apply later_first_rank; by apply Hk).
        destruct (decide (rank x = rank k)) as [He|]; [|right; lia]. left. apply (coherent_rank _ Hall); auto. }
      intros x Hx. destruct (Hd x Hx) as [->|Hlt]; [left; set_solver|]. right.
      intros a [Hac|Hak]%elem_of_app; [pose proof (Hlow a Hac); lia|]. by apply list_elem_of_singleton in Hak as ->.
    + destruct (IH (acc ++ [k])) as (new & Hv & Hstr & Hsub & Hcase); try done.
      { intros x [Hx|Hx%list_elem_of_singleton]%elem_of_app; [auto|by subst]. }
      { intros a x [Hac|Hak%list_elem_of_singleton]%elem_of_app Hx.
        - apply Hle; [done|]. apply elem_of_cons. by right.
        - subst a. apply later_first_rank. by apply Hk. }
      { lia. }
      exists (k :: new). rewrite (app_assoc acc [k] new : acc ++ k :: new = _). rewrite Hv. split_and!; try done.
      { intros x [->|Hx]%elem_of_cons; apply elem_of_cons; [by left|right; by apply Hsub]. }
      assert (Hkm : k ∈ (acc ++ [k]) ++ new) by set_solver.
      destruct Hcase as [[H1 H2]|[H1 H2]]; [left|right]; (split; [done|]); intros x [->|Hx]%elem_of_cons; auto.
Qed.

(** What is collected from the position [c0] on. *)
Section from.
Context (c0 : option (Z * uuid)).

Definition wanted (x : FeedItem) : Prop := vis x ∧ before c0 x = true.

(** A position that an item below [c0] has. *)
Definition reached (p : Z * uuid) : Prop := ∃ y, y ∈ all ∧ before c0 y = true ∧ rank y = rank_pos p.

(** [acc] holds all that is wanted above the position. *)
Record collected (acc : list FeedItem) (pos : option (Z * uuid)) : Prop := {
  col_sorted : strictly acc;
  col_wanted x : x ∈ acc → wanted x ∧ before pos x = false;
  col_all x : wanted x → x ∈ acc ∨ before pos x = true;
  col_below x : before pos x = true → before c0 x = true
}.

(** One item too many: the page is full. *)
Record full (limit : nat) (acc : list FeedItem) : Prop := {
  full_sorted : strictly acc;
  full_wanted x : x ∈ acc → wanted x;
  full_length : length acc = S limit;
  full_all x : wanted x → x ∈ acc ∨ ∀ a, a ∈ acc → (rank x < rank a)%Z
}.

Lemma collected_start : collected [] c0.
Proof. split; [constructor|by intros x ?%elem_of_nil| |done]. intros x [_ Hx]. by right. Qed.

(** One round of the loop. *)
Lemma round_spec limit acc pos n y :
  let batch := take n (newest_first (merge_fetch ss pos n)) in
  collected acc pos → length acc ≤ limit → last batch = Some y →
  ∃ acc', visit limit (_filter_hidden should_hide batch) acc (keys acc) = (acc', keys acc')
    ∧ reached (created_at y, item_id y)
    ∧ (length acc' ≤ limit ∧ collected acc' (Some (created_at y, item_id y)) ∨ full limit acc').
Proof.
  cbv zeta. set (batch := take n _). intros [Hs Hw Hc Hb] Hlen Hy.
  assert (Hin : ∀ x, x ∈ batch → x ∈ all ∧ before pos x = true) by (intros x; apply batch_in).
  assert (Hyb : y ∈ batch) by (apply last_Some in Hy as [l ->]; set_solver).
  assert (Hdesc : descending batch) by (apply StronglySorted_take, newest_first_sorted).
  assert (Hkept : ∀ x, x ∈ _filter_hidden should_hide batch ↔ x ∈ batch ∧ hidden should_hide x = false).
  { intros x. unfold _filter_hidden. rewrite list_elem_of_filter. tauto. }
  assert (Hpos : ∀ x p, before pos x = true → before pos p = false → (rank x < rank p)%Z).
  { intros x p Hx Hp. apply before_rank in Hx. destruct pos as [q|]; [|by destruct p].
    destruct (decide (rank p < rank_pos q)%Z) as [Hlt|]; [|lia]. pose proof (before_rank (Some q) p) as [_ H]. by rewrite H in Hp. }
  assert (Hbel : ∀ x, before (Some (created_at y, item_id y)) x = true ↔ (rank x < rank y)%Z) by (intros x; apply before_item).
  destruct (visit_spec limit (_filter_hidden should_hide batch) acc) as (new & Hv & Hstr & Hsub & Hcase); try done.
  { by apply StronglySorted_kept. }
  { intros x Hx. apply Hw in Hx as [[[]]]; done. }
  { intros x Hx. apply Hkept in Hx as [Hx _]. by apply Hin in Hx as []. }
  { intros a k Ha Hk. apply Hkept in Hk as [Hk _]. apply Hin in Hk as [_ Hk]. apply Hw in Ha as [_ Ha].
    pose proof (Hpos k a Hk Ha). lia. }
  exists (acc ++ new). split; [done|]. split.
  { exists y. apply Hin in Hyb as [? Hyp]. split_and!; [done|by apply Hb|done]. }
  assert (Hnew : ∀ x, x ∈ acc ++ new → wanted x ∧ (x ∈ acc ∨ x ∈ batch)).
  { intros x [Hx|Hx]%elem_of_app; [apply Hw in Hx as Hx'; tauto|]. apply Hsub, Hkept in Hx as [Hx Hh].
    pose proof (Hin x Hx) as [? Hxp]. split; [|by right]. split; [done|]. by apply Hb. }
  assert (Hall_below : ∀ x, wanted x → x ∈ acc ∨ (x ∈ batch ∧ hidden should_hide x = false) ∨ (before pos x = true ∧ (rank x < rank y)%Z)).
  { intros x Hx. destruct (Hc x Hx) as [|Hxp]; [by left|]. right. destruct Hx as [[Hxa Hh] _].
    destruct (decide (rank y ≤ rank x)%Z); [left|right; split; [done|lia]]. split; [|done]. by apply (batch_closed ss Hall pos n x y). }
  destruct Hcase as [[Hlen' Hmem]|[Hlen' Hmem]]; [left; split; [done|]|right].
  - split; [done| | |].
    + intros x Hx. destruct (Hnew x Hx) as [Hwx Hor]. split; [done|].
      apply not_true_iff_false. rewrite Hbel. destruct Hor as [Hxa|Hxb].
      * apply Hw in Hxa as [_ Hxa]. apply Hin in Hyb as [_ Hyp]. pose proof (Hpos y x Hyp Hxa). lia.
      * pose proof (last_lowest batch y x Hdesc Hy Hxb). lia.
    + intros x Hx. rewrite Hbel. destruct (Hall_below x Hx) as [Hxa|[Hxb|[_ Hlt]]]; [left; set_solver| |by right].
      left. apply Hmem. by apply Hkept.
    + intros x. rewrite Hbel. intros Hlt. apply Hb. apply Hin in Hyb as [_ Hyp]. apply before_rank in Hyp. apply before_rank.
      destruct pos; [lia|done].
  - split; [done|intros x Hx; by apply Hnew|done|]. intros x Hx.
    destruct (Hall_below x Hx) as [Hxa|[Hxb|[Hxp Hlt]]]; [left; set_solver|apply Hmem; by apply Hkept|].
    right. intros a Ha. destruct (Hnew a Ha) as [_ [Haa|Hab]].
    + apply Hw in Haa as [_ Haa]. by apply (Hpos x a).
    + pose proof (last_lowest batch y a Hdesc Hy Hab). lia.
Qed.
End from.

Section from2.
Context (c0 : option (Z * uuid)).
Abbreviation wanted0 := (wanted c0).

(** Where the loop stops. *)
Inductive stopped (limit max_scanned : nat) (acc : list FeedItem) (last_scanned : option (Z * uuid)) (scanned : nat) : Prop :=
  | stop_full : full c0 limit acc → stopped limit max_scanned acc last_scanned scanned
  | stop_end : length acc ≤ limit → scanned < max_scanned → strictly acc → (∀ x, x ∈ acc ↔ wanted0 x) →
      stopped limit max_scanned acc last_scanned scanned
  | stop_long p : length acc ≤ limit → max_scanned ≤ scanned → last_scanned = Some p → reached c0 p → collected c0 acc (Some p) →
      stopped limit max_scanned acc last_scanned scanned.

Lemma collected_complete acc pos :
  collected c0 acc pos → (∀ x, x ∈ all → before pos x = true → x ∈ acc) → ∀ x, x ∈ acc ↔ wanted0 x.
Proof.
  intros [_ Hw Hc _] H x. split; [intros Hx; by apply Hw|]. intros Hx. destruct (Hc x Hx) as [|Hp]; [done|].
  apply H; [by destruct Hx as [[]]|done].
Qed.

Lemma collected_end acc pos :
  collected c0 acc pos → (∀ x, x ∈ all → before pos x = false) → ∀ x, x ∈ acc ↔ wanted0 x.
Proof. intros Hcol H. apply (collected_complete _ _ Hcol). intros x Hx. by rewrite H. Qed.

(** The state of the loop. *)
Definition scanning (limit scanned : nat) (acc : list FeedItem) (has : bool) (pos lst : option (Z * uuid)) : Prop :=
  scanned = 0 ∧ has = false ∧ pos = c0 ∧ acc = []
  ∨ 0 < scanned ∧ has = true ∧ ∃ p, lst = Some p ∧ reached c0 p
      ∧ (full c0 limit acc ∨ length acc ≤ limit ∧ pos = Some p ∧ collected c0 acc pos).

Lemma reached_some p : reached c0 p → ∃ y, y ∈ all ∧ before c0 y = true.
Proof. intros (y & Hy & Hb & _). by exists y. Qed.

Lemma scan_stops limit max_scanned scanned acc has pos lst :
  0 < max_scanned → scanning limit scanned acc has pos lst → ¬ (length acc ≤ limit ∧ scanned < max_scanned) →
  stopped limit max_scanned acc lst scanned ∧ (has = true ↔ ∃ y, y ∈ all ∧ before c0 y = true).
Proof.
  intros Hmax [(-> & _ & _ & ->)|(Hs & -> & p & -> & Hr & Hacc)] Hn; [exfalso; apply Hn; simpl; lia|].
  split; [|split; [intros _; by eapply reached_some|done]].
  destruct Hacc as [Hf|(Hl & -> & Hc)]; [by apply stop_full|]. apply (stop_long _ _ _ _ _ p); [done|lia|done|done|done].
Qed.

Lemma scan_spec limit max_scanned fuel batch_size scanned acc has pos lst :
  0 < max_scanned → max_scanned ≤ scanned + fuel → 1 ≤ batch_size → scanning limit scanned acc has pos lst →
  let '(acc', has', lst', scanned') :=
    scan should_hide fuel (merge_fetch ss) limit max_scanned batch_size scanned acc (keys acc) has pos lst in
  stopped limit max_scanned acc' lst' scanned' ∧ (has' = true ↔ ∃ y, y ∈ all ∧ before c0 y = true).
Proof.
  intros Hmax. revert batch_size scanned acc has pos lst.
  induction fuel as [|fuel IH]; intros batch_size scanned acc has pos lst Hfuel Hbatch Hsc; cbn [scan].
  { eapply scan_stops; [done|done|lia]. }
  destruct (decide _) as [[Hlen Hroom]|Hn]; [|by eapply scan_stops].
  set (size := min batch_size (max_scanned - scanned)). set (cand := newest_first (merge_fetch ss pos size)).
  assert (Hsize : 1 ≤ size) by (unfold size; lia).
  assert (Hcol : collected c0 acc pos).
  { destruct Hsc as [(_ & _ & -> & ->)|(_ & _ & p & _ & _ & [[_ _ Hf _]|(_ & _ & Hc)])]; [apply collected_start|lia|done]. }
  destruct (last (take size cand)) as [y|] eqn:Hy.
  - destruct (round_spec c0 limit acc pos size y Hcol Hlen Hy) as (acc' & Hv & Hr & Hnext). fold cand in Hv. rewrite Hv.
    assert (Hb1 : 1 ≤ length (take size cand)) by (apply last_Some in Hy as [l ->]; rewrite length_app; simpl; lia).
    assert (Hsc' : scanning limit (scanned + length (take size cand)) acc' true (Some (created_at y, item_id y)) (Some (created_at y, item_id y))).
    { right. split_and!; [lia|done|]. eexists. split_and!; [done|done|]. destruct Hnext as [[? ?]|]; [right; by split_and!|by left]. }
    destruct (decide (length cand < size)) as [Hshort|Hlong]; [|apply IH; [lia|lia|done]].
    split; [|split; [intros _; by eapply reached_some|done]].
    destruct Hnext as [[Hl Hc]|Hf]; [|by apply stop_full].
    destruct (decide (scanned + length (take size cand) < max_scanned)).
    + apply stop_end; [done|done|apply Hc|]. apply (collected_complete _ _ Hc). intros x Hx Hbx.
      exfalso. destruct Hcol as [_ _ _ Hb]. pose proof (batch_complete ss Hall pos size x) as Hcomp. cbv zeta in Hcomp.
      assert (Hin : x ∈ take size cand).
      { apply Hcomp; [done|done|]. apply before_item in Hbx. apply last_take_in, batch_in in Hy as [_ Hy].
        apply before_rank in Hy. apply before_rank. destruct pos; [lia|done]. }
      apply before_item in Hbx.
      assert (Hd : descending (take size cand)) by (apply StronglySorted_take, newest_first_sorted).
      pose proof (last_lowest _ y x Hd Hy Hin). lia.
    + eapply stop_long; [done|lia|done|done|done].
  - assert (Hnil : take size cand = []) by (destruct (take size cand) as [|? ?] using rev_ind; [done|by rewrite last_snoc in Hy]).
    assert (Hcand : cand = []) by (destruct cand; [done|destruct size; [lia|done]]).
    assert (Hno : ∀ x, x ∈ all → before pos x = false).
    { intros x Hx. apply not_true_iff_false. intros Hbx. pose proof (batch_complete ss Hall pos size x) as Hcomp. cbv zeta in Hcomp.
      fold cand in Hcomp. rewrite Hcand in Hcomp. simpl in Hcomp. apply (elem_of_nil x). rewrite <-(take_nil size). apply Hcomp; [lia|done|done]. }
    split.
    + apply stop_end; [done|done|apply Hcol|]. by apply (collected_end _ pos).
    + destruct Hsc as [(_ & -> & -> & _)|(_ & -> & p & _ & Hr & _)].
      * split; [done|]. intros (y & Hya & Hyb). by rewrite Hno in Hyb.
      * split; [intros _; by eapply reached_some|done].
Qed.
End from2.

Context `{IsoFormatLaws}.

(** A page from [c0] on, and where the next one starts. *)
Definition page_ok (c0 : option (Z * uuid)) (its : list FeedItem) (next : option (Z * uuid)) : Prop :=
  strictly its ∧ (∀ x, x ∈ its → wanted c0 x)
  ∧ match next with
    | None => ∀ x, wanted c0 x → x ∈ its
    | Some p => reached c0 p ∧ collected c0 its (Some p)
    end.

Lemma collect_spec c0 limit :
  let '(acc, has, continuation) := _collect_page should_hide (merge_fetch ss) c0 limit in
  (has = true ↔ ∃ y, y ∈ all ∧ before c0 y = true)
  ∧ (full c0 limit acc ∨ length acc ≤ limit ∧ page_ok c0 acc continuation).
Proof.
  unfold _collect_page. set (mx := max 200 (limit * 10)).
  pose proof (scan_spec c0 limit mx mx (limit + 1) 0 [] false c0 None) as Hs. fold (keys []) in *. change (keys []) with (∅ : gset (string * uuid)) in *.
  destruct (scan should_hide mx (merge_fetch ss) limit mx (limit + 1) 0 [] ∅ false c0 None) as [[[acc has] lst] scanned].
  destruct Hs as [Hstop Hhas]; [lia|lia|lia|by left|]. split; [done|].
  destruct Hstop as [Hf|Hl Hlt Hs Hiff|p Hl Hge -> Hr Hc]; [by left|right|right].
  - split; [done|]. rewrite decide_False by lia. split_and!; [done|intros x; by apply Hiff|intros x; by apply Hiff].
  - split; [done|]. rewrite decide_True by lia. split_and!; [apply Hc|intros x Hx; by apply Hc|done|done].
Qed.

Lemma finish_spec c0 limit acc continuation :
  1 ≤ limit → full c0 limit acc ∨ length acc ≤ limit ∧ page_ok c0 acc continuation →
  ∃ next, next_cursor (_finish_page acc limit continuation) = encode_position <$> next
    ∧ page_ok c0 (items (_finish_page acc limit continuation)) next.
Proof.
  intros Hlim Hacc. unfold _finish_page. destruct (last (take limit acc)) as [y|] eqn:Hy.
  - simpl. destruct Hacc as [[Hs Hw Hlen Hf]|[Hlen Hp]].
    + rewrite decide_True by lia. exists (Some (created_at y, item_id y)). split; [done|].
      assert (Hyin : y ∈ take limit acc) by by apply last_take_in.
      assert (Hin : ∀ x, x ∈ take limit acc → x ∈ acc) by (intros x (i & Hi & _)%elem_of_take; by eapply list_elem_of_lookup_2).
      assert (Hlow : ∀ x, x ∈ take limit acc → (rank y ≤ rank x)%Z).
      { intros x Hx. apply (last_lowest (take limit acc)); [|done|done]. apply StronglySorted_take.
        clear -Hs. induction Hs as [|a l Hs IH Ha]; constructor; [done|]. apply (Forall_impl _ _ _ Ha). intros b Hb.
        apply later_first_rank. lia. }
      assert (Hout : ∀ x, x ∈ drop limit acc → (rank x < rank y)%Z).
      { intros x Hx. by apply (StronglySorted_cut _ _ limit y x Hs). }
      split_and!; [by apply StronglySorted_take|intros x Hx; apply Hw; by apply Hin| |].
      * exists y. apply Hin, Hw in Hyin as [[Hya _] Hyb]. by split_and!.
      * split; [by apply StronglySorted_take| | |].
        -- intros x Hx. split; [by apply Hw, Hin|]. apply not_true_iff_false. rewrite before_item. pose proof (Hlow x Hx). lia.
        -- intros x Hx. rewrite before_item. destruct (Hf x Hx) as [Hxa|Hlt].
           ++ rewrite <-(take_drop limit acc) in Hxa. apply elem_of_app in Hxa as [|Hd]; [by left|right; by apply Hout].
           ++ right. apply Hlt. by apply Hin.
        -- intros x. rewrite before_item. intros Hlt. apply Hin, Hw in Hyin as [_ Hyb]. apply before_rank in Hyb. apply before_rank.
           destruct c0; [lia|done].
    + rewrite decide_False by lia. rewrite take_ge by lia. by exists continuation.
  - simpl. assert (Hnil : acc = []).
    { destruct acc as [|a l]; [done|]. destruct limit as [|n]; [lia|]. by apply last_None in Hy. }
    subst acc. destruct Hacc as [[_ _ Hlen _]|[_ Hp]]; [done|]. by exists continuation.
Qed.

(** How many candidates are left. *)
Definition left_over (c : option (Z * uuid)) : nat := length (filter (λ it, before c it = true) all).

Lemma left_over_lt c p : reached c p → (∀ x, before (Some p) x = true → before c x = true) → left_over (Some p) < left_over c.
Proof.
  intros (y & Hy & Hb & Hr) Hbel. unfold left_over.
  assert (Hny : before (Some p) y = false) by (apply not_true_iff_false; rewrite before_rank; lia).
  clear Hall. induction all as [|a l IH]; [by apply elem_of_nil in Hy|].
  assert (Hmono : length (filter (λ it, before (Some p) it = true) l) ≤ length (filter (λ it, before c it = true) l)).
  { clear -Hbel. induction l as [|b l IH]; [done|]. destruct (before (Some p) b) eqn:Hb.
    - rewrite !filter_cons_True by auto. simpl. lia.
    - rewrite filter_cons_False by congruence. destruct (before c b) eqn:Hc.
      + rewrite filter_cons_True by done. simpl. lia.
      + rewrite filter_cons_False by congruence. done. }
  apply elem_of_cons in Hy as [->|Hy].
  - rewrite filter_cons_False by congruence. rewrite filter_cons_True by done. simpl. lia.
  - destruct (before (Some p) a) eqn:Ha.
    + rewrite !filter_cons_True by auto. simpl. apply IH in Hy. lia.
    + rewrite filter_cons_False by congruence. apply IH in Hy. destruct (before c a) eqn:Hc.
      * rewrite filter_cons_True by done. simpl. lia.
      * by rewrite filter_cons_False by congruence.
Qed.

Lemma strictly_app l1 l2 :
  strictly l1 → strictly l2 → (∀ x y, x ∈ l1 → y ∈ l2 → (rank y < rank x)%Z) → strictly (l1 ++ l2).
Proof.
  intros H1 H2 H3. induction H1 as [|a l H1 IH Ha]; [done|]. simpl. constructor.
  - apply IH. intros x y Hx Hy. apply H3; [|done]. apply elem_of_cons. by right.
  - apply Forall_app. split; [done|]. apply Forall_forall. intros y Hy. apply H3; [|done]. apply elem_of_cons. by left.
Qed.

(** Reading on to the end. *)
Lemma read_on_spec (get : option string → FeedResponse) fuel cursor c :
  _decode_cursor cursor = c →
  (∀ cur, ∃ next, next_cursor (get cur) = encode_position <$> next ∧ page_ok (_decode_cursor cur) (items (get cur)) next) →
  left_over c < fuel →
  let '(l, finished) := read_on fuel get cursor in finished = true ∧ strictly l ∧ ∀ x, x ∈ l ↔ wanted c x.
Proof.
  intros Hc Hget. revert cursor c Hc. induction fuel as [|fuel IH]; intros cursor c Hc Hfuel; [lia|]. cbn [read_on].
  destruct (Hget cursor) as (next & Hn & Hs & Hw & Hnext). rewrite Hc in *. rewrite Hn. destruct next as [p|]; cbn [fmap option_fmap option_map].
  - destruct Hnext as [Hr Hcol]. pose proof (left_over_lt c p Hr (col_below _ _ _ Hcol)) as Hlt.
    specialize (IH (Some (encode_position p)) (Some p)). unfold encode_position in IH at 1. rewrite decode_encode_cursor in IH.
    destruct (read_on fuel get (Some (encode_position p))) as [rest finished].
    destruct IH as (Hd & Hsr & Hrest); [by destruct p|lia|]. split; [done|]. split.
    + apply strictly_app; [done|done|]. intros x y Hx Hy. apply (col_wanted _ _ _ Hcol) in Hx as [_ Hx].
      apply Hrest in Hy as [_ Hy]. apply before_rank in Hy. apply not_true_iff_false in Hx. rewrite before_rank in Hx. lia.
    + intros x. rewrite elem_of_app, Hrest. split.
      * intros [Hx|[Hv Hb]]; [by apply Hw|]. split; [done|]. by apply (col_below _ _ _ Hcol).
      * intros Hx. destruct (col_all _ _ _ Hcol x Hx) as [|Hb]; [by left|]. right. split; [by destruct Hx|done].
  - split; [done|]. split; [done|]. intros x. split; [apply Hw|apply Hnext].
Qed.
End pages.

(** ** The sources of a timeline *)
Lemma filter_twice {A} (p q : A → bool) (l : list A) : filter (λ x, p x && q x) l = filter (λ x, q x) (filter (λ x, p x) l).
Proof.
  induction l as [|x l IH]; [done|]. destruct (p x) eqn:Hp.
  - rewrite (filter_cons_True (λ x, p x)) by by rewrite Hp. destruct (q x) eqn:Hq.
    + rewrite !filter_cons_True by (rewrite ?Hp, ?Hq; done). by rewrite IH.
    + rewrite !filter_cons_False by (rewrite ?Hp, ?Hq; naive_solver). done.
  - rewrite (filter_cons_False (λ x, p x)) by (rewrite Hp; naive_solver).
    rewrite filter_cons_False by (rewrite Hp; naive_solver). done.
Qed.

Definition source_rows (d : tables) (author_ids board_ids : option (gset uuid)) (name : string) : list FeedItem :=
  filter (λ it, audience_conditions name author_ids (if decide (name = "discussion"%string) then board_ids else None) it)
    (published d name).

Definition realtime_sources (d : tables) (names : list string) (author_ids board_ids : option (gset uuid)) : list (list FeedItem) :=
  source_rows d author_ids board_ids <$> names.

Definition own_rows (d : tables) (u : uuid) : list FeedItem := snd <$> filter (λ r, r.1 = u) (feed_items d).

Definition supplement_sources (d : tables) (author_ids board_ids : gset uuid) : list (list FeedItem) :=
  if decide (author_ids ≠ ∅ ∨ board_ids ≠ ∅) then
    FOLLOW_SOURCES ≫= λ name,
      if decide (name ≠ "discussion"%string ∧ author_ids = ∅) then []
      else if decide (name = "discussion"%string ∧ author_ids = ∅ ∧ board_ids = ∅) then []
      else [source_rows d (Some author_ids) (Some board_ids) name]
  else [].

Lemma fetch_source_rows d name author_ids board_ids c n :
  fetch_source d name author_ids (if decide (name = "discussion"%string) then board_ids else None) c n
  = take n (newest_first (filter (λ it, before c it) (source_rows d author_ids board_ids name))).
Proof. unfold fetch_source, source_rows. by rewrite filter_twice. Qed.

Lemma realtime_fetch_merge d names author_ids board_ids c n :
  _realtime_fetch d names author_ids board_ids c n = merge_fetch (realtime_sources d names author_ids board_ids) c n.
Proof.
  unfold _realtime_fetch, merge_fetch, realtime_sources. induction names as [|name names IH]; [done|].
  rewrite fmap_cons, !bind_cons, IH. by rewrite fetch_source_rows.
Qed.

Lemma materialized_fetch_merge d u bigv boards c n :
  _materialized_fetch d u bigv boards c n = merge_fetch (own_rows d u :: supplement_sources d bigv boards) c n.
Proof.
  unfold _materialized_fetch, merge_fetch. rewrite bind_cons. f_equal. unfold supplement_sources.
  destruct (decide (bigv ≠ ∅ ∨ boards ≠ ∅)) as [Hor|]; [|done]. unfold _realtime_supplement.
  induction FOLLOW_SOURCES as [|name names IH]; [done|]. rewrite !bind_cons, bind_app, <-IH. f_equal.
  destruct (decide _); [done|]. destruct (decide _); [done|]. rewrite bind_cons, app_nil_r.
  by rewrite <-(fetch_source_rows d name (Some bigv) (Some boards)).
Qed.

(** What the first page reads. *)
Definition follows_nothing (d : tables) (u : uuid) : Prop := get_following_ids d u = ∅ ∧ get_followed_board_ids d u = ∅.

#[export] Instance follows_nothing_dec d u : Decision (follows_nothing d u).
Proof. unfold follows_nothing. apply _. Defined.

Definition follow_sources (d : tables) (u : uuid) : list (list FeedItem) :=
  realtime_sources d FOLLOW_SOURCES (Some (get_following_ids d u)) (Some (get_followed_board_ids d u)).

Definition materialized_sources (cfg : settings) (d : tables) (u : uuid) : list (list FeedItem) :=
  own_rows d u :: supplement_sources d (bigv_authors cfg d ∩ get_following_ids d u) (get_followed_board_ids d u).

Definition timeline_sources (cfg : settings) (d : tables) (user : option uuid) (mode : string) : list (list FeedItem) :=
  match user with
  | Some u =>
      if decide (mode = "follow"%string) then
        if decide (follows_nothing d u) then [] else materialized_sources cfg d u
      else realtime_sources d HOT_SOURCES None None
  | None => realtime_sources d HOT_SOURCES None None
  end.

(** A user who follows something, without any candidate. *)
Definition falls_back (cfg : settings) (d : tables) (user : option uuid) (mode : string) : Prop :=
  match user with
  | Some u => mode = "follow"%string ∧ ¬ follows_nothing d u ∧ mjoin (materialized_sources cfg d u) = []
  | None => False
  end.

Section timelines.
Context `{IsoFormatLaws} (cfg : settings) (should_hide : string → bool).

Lemma collect_ext f g c limit : (∀ c n, f c n = g c n) → _collect_page should_hide f c limit = _collect_page should_hide g c limit.
Proof.
  intros Hfg. unfold _collect_page. set (mx := max 200 (limit * 10)).
  assert (∀ fuel bs sc acc seen has pos lst, scan should_hide fuel f limit mx bs sc acc seen has pos lst
    = scan should_hide fuel g limit mx bs sc acc seen has pos lst) as ->; [|done].
  intros fuel. induction fuel as [|fuel IH]; intros bs sc acc seen has pos lst; [done|]. cbn [scan]. rewrite Hfg.
  destruct (decide _); [|done]. destruct (last _); [|done]. destruct (visit _ _ _ _) as [acc' seen'].
  destruct (decide _); [done|]. apply IH.
Qed.

(** One page over sources. *)
Lemma page_over_spec ss (get : option string → FeedResponse) limit fetch cursor :
  coherent (mjoin ss) → 1 ≤ limit → (∀ c n, fetch c n = merge_fetch ss c n) →
  get cursor = (let '(acc, _, continuation) := _collect_page should_hide fetch (_decode_cursor cursor) limit in
                _finish_page acc limit continuation) →
  ∃ next, next_cursor (get cursor) = encode_position <$> next ∧ page_ok should_hide ss (_decode_cursor cursor) (items (get cursor)) next.
Proof.
  intros Hcoh Hlim Hf ->. rewrite (collect_ext _ _ _ _ Hf).
  pose proof (collect_spec should_hide ss Hcoh (_decode_cursor cursor) limit) as Hc.
  destruct (_collect_page _ _ _ _) as [[acc has] continuation]. destruct Hc as [_ Hc]. by apply finish_spec.
Qed.

Lemma follow_cases d u cursor limit :
  coherent (mjoin (materialized_sources cfg d u)) → ¬ follows_nothing d u →
  get_timeline cfg should_hide d (Some u) "follow" cursor limit =
  if decide (mjoin (materialized_sources cfg d u) = [] ∧ _decode_cursor cursor = None)
  then _realtime_timeline should_hide d (Some u) "follow" cursor limit
  else let '(acc, _, continuation) := _collect_page should_hide
            (_materialized_fetch d u (bigv_authors cfg d ∩ get_following_ids d u) (get_followed_board_ids d u))
            (_decode_cursor cursor) limit in
       _finish_page acc limit continuation.
Proof.
  intros Hcoh Hn. unfold get_timeline. rewrite decide_True by done. unfold _materialized_timeline.
  destruct (decide (get_following_ids d u = ∅ ∧ get_followed_board_ids d u = ∅)); [done|].
  set (bigv := bigv_authors cfg d ∩ _). set (boards := get_followed_board_ids d u).
  pose proof (collect_spec should_hide (materialized_sources cfg d u) Hcoh (_decode_cursor cursor) limit) as Hc.
  rewrite <-(collect_ext (_materialized_fetch d u bigv boards)) in Hc by apply materialized_fetch_merge.
  destruct (_collect_page should_hide (_materialized_fetch d u bigv boards) (_decode_cursor cursor) limit) as [[acc has] continuation].
  destruct Hc as [Hhas _]. destruct (decide (has = false ∧ _)) as [[-> Hnone]|Hd].
  - rewrite decide_True; [done|]. split; [|done]. destruct (mjoin (materialized_sources cfg d u)) as [|y l] eqn:Hm; [done|].
    exfalso. destruct Hhas as [_ Hh]. discriminate Hh. exists y. rewrite Hnone. split; [apply elem_of_cons; by left|done].
  - rewrite decide_False; [done|]. intros [Hm Hnone]. apply Hd. split; [|done]. destruct has; [|done].
    destruct Hhas as [Hh _]. destruct (Hh eq_refl) as (y & Hy & _). rewrite Hm in Hy. by apply elem_of_nil in Hy.
Qed.
(** Reading on from the start. *)
Lemma read_all ss (get : option string → FeedResponse) :
  coherent (mjoin ss) →
  (∀ cur, ∃ next, next_cursor (get cur) = encode_position <$> next ∧ page_ok should_hide ss (_decode_cursor cur) (items (get cur)) next) →
  ∀ fuel, length (mjoin ss) < fuel →
  let '(l, finished) := read_on fuel get None in
  finished = true ∧ strictly l ∧ ∀ x, x ∈ l ↔ x ∈ mjoin ss ∧ hidden should_hide x = false.
Proof.
  intros Hcoh Hp fuel Hfuel. pose proof (read_on_spec should_hide ss get fuel None None) as Hr.
  destruct (read_on fuel get None) as [l finished]. destruct Hr as (H1 & H2 & H3); [done|done| |].
  { unfold left_over. pose proof (length_filter (λ it, before None it = true) (mjoin ss)). lia. }
  split_and!; [done|done|]. intros x. rewrite H3. unfold wanted, visible_in. split; [by intros [? _]|done].
Qed.

Lemma timeline_page_ok d user mode limit cur :
  1 ≤ limit → coherent (mjoin (timeline_sources cfg d user mode)) → ¬ falls_back cfg d user mode →
  ∃ next, next_cursor (get_timeline cfg should_hide d user mode cur limit) = encode_position <$> next
    ∧ page_ok should_hide (timeline_sources cfg d user mode) (_decode_cursor cur)
        (items (get_timeline cfg should_hide d user mode cur limit)) next.
Proof.
  intros Hlimit Hcoh Hnf. unfold timeline_sources in *. destruct user as [u|].
  - destruct (decide (mode = "follow"%string)) as [->|Hm].
    + destruct (decide (follows_nothing d u)) as [Hn|Hn].
      * exists None. unfold get_timeline. rewrite decide_True by done. unfold _materialized_timeline. rewrite decide_True by done.
        split; [done|]. split_and!; [constructor|by intros x ?%elem_of_nil|]. intros x [[Hx _] _]. by apply elem_of_nil in Hx.
      * assert (Hne : mjoin (materialized_sources cfg d u) ≠ []) by (intros He; apply Hnf; by split_and!).
        apply (page_over_spec _ (λ cur, get_timeline cfg should_hide d (Some u) "follow" cur limit) limit _ cur Hcoh Hlimit
          (materialized_fetch_merge d u _ _)).
        rewrite (follow_cases d u cur limit Hcoh Hn). by rewrite decide_False by tauto.
    + apply (page_over_spec _ (λ cur, get_timeline cfg should_hide d (Some u) mode cur limit) limit _ cur Hcoh Hlimit
        (realtime_fetch_merge d HOT_SOURCES None None)).
      unfold get_timeline, _realtime_timeline. by rewrite !decide_False.
  - apply (page_over_spec _ (λ cur, get_timeline cfg should_hide d None mode cur limit) limit _ cur Hcoh Hlimit
      (realtime_fetch_merge d HOT_SOURCES None None)). done.
Qed.

Lemma realtime_page_ok d u limit cur :
  1 ≤ limit → coherent (mjoin (follow_sources d u)) → ¬ follows_nothing d u →
  ∃ next, next_cursor (_realtime_timeline should_hide d (Some u) "follow" cur limit) = encode_position <$> next
    ∧ page_ok should_hide (follow_sources d u) (_decode_cursor cur) (items (_realtime_timeline should_hide d (Some u) "follow" cur limit)) next.
Proof.
  intros Hlimit Hcoh Hn.
  apply (page_over_spec _ (λ cur, _realtime_timeline should_hide d (Some u) "follow" cur limit) limit _ cur Hcoh Hlimit
    (realtime_fetch_merge d FOLLOW_SOURCES _ _)).
  unfold _realtime_timeline. rewrite decide_True by done. by rewrite decide_False by done.
Qed.
End timelines.

(** C17: the pages of a timeline. A client that follows [next_cursor] over
    sources that do not change comes to an end, and has then seen every item of
    the sources that moderation does not hide, each exactly once, the newest
    first, however the sources overlap and however much is hidden. There is one
    exception: a user who follows something, but for whom no row has been
    written yet, is answered from the live sources on the first page only, and
    gets an empty last page as soon as the cursor of that page comes back. *)
Theorem timeline_pages `{IsoFormatLaws} (cfg : settings) (should_hide : string → bool) (d : tables) (user : option uuid)
    (mode : string) (limit : nat)
    (Hlimit : 1 ≤ limit)
    (Hcoh : coherent (mjoin (timeline_sources cfg d user mode))) :
  let get := λ cursor, get_timeline cfg should_hide d user mode cursor limit in
  let rows := mjoin (timeline_sources cfg d user mode) in
  (¬ falls_back cfg d user mode →
     let '(l, finished) := read_on (S (length rows)) get None in
     finished = true ∧ strictly l ∧ ∀ x, x ∈ l ↔ x ∈ rows ∧ hidden should_hide x = false)
  ∧ (falls_back cfg d user mode →
     let first := _realtime_timeline should_hide d user mode None limit in
     get None = first ∧ ∀ cursor, _decode_cursor cursor ≠ None → get cursor = Page [] None).
Proof.
  cbv zeta. split.
  - intros Hnf. apply (read_all should_hide _ (λ cur, get_timeline cfg should_hide d user mode cur limit)); [done| |lia].
    intros cur. by apply timeline_page_ok.
  - unfold falls_back, timeline_sources in *. destruct user as [u|]; [|done]. intros (-> & Hn & Hm).
    rewrite decide_True, decide_False in Hcoh by done. split.
    + rewrite (follow_cases cfg should_hide d u None limit Hcoh Hn). by rewrite decide_True.
    + intros cursor Hc. rewrite (follow_cases cfg should_hide d u cursor limit Hcoh Hn). rewrite decide_False by tauto.
      pose proof (collect_spec should_hide _ Hcoh (_decode_cursor cursor) limit) as Hcol.
      rewrite <-(collect_ext should_hide (_materialized_fetch d u (bigv_authors cfg d ∩ get_following_ids d u) (get_followed_board_ids d u)))
        in Hcol by apply materialized_fetch_merge.
      destruct (_collect_page should_hide _ _ limit) as [[acc has] continuation]. destruct Hcol as [_ Hcol].
      assert (Hempty : ∀ x, ¬ wanted should_hide (materialized_sources cfg d u) (_decode_cursor cursor) x).
      { intros x [[Hx _] _]. rewrite Hm in Hx. by apply elem_of_nil in Hx. }
      destruct Hcol as [[_ Hw Hlen _]|[_ (_ & Hw & Hnext)]].
      * destruct acc as [|a acc]; [done|]. exfalso. apply (Hempty a), Hw. apply elem_of_cons. by left.
      * destruct acc as [|a acc]; [|exfalso; apply (Hempty a), Hw; apply elem_of_cons; by left].
        destruct continuation as [p|]; [|by destruct limit].
        destruct Hnext as [(y & Hy & _) _]. rewrite Hm in Hy. by apply elem_of_nil in Hy.
Qed.

(** Two discussions, the whole site, one item a page. *)
Definition first_post : FeedItem := MkItem "discussion" (uuid_of_N 1) (Some (uuid_of_N 9)) None "a" "" 10 "".
Definition second_post : FeedItem := MkItem "discussion" (uuid_of_N 2) (Some (uuid_of_N 9)) None "b" "" 20 "".

Definition two_posts : tables :=
  Tables (λ name, if decide (name = "discussion"%string) then [first_post; second_post] else []) [] [] [] ∅.

Lemma coherent_pair a b : item_id a ≠ item_id b → coherent [a; b].
Proof.
  intros Hne. split; intros x y Hx Hy He; rewrite !elem_of_cons, elem_of_nil in Hx, Hy.
  - unfold item_key in He. injection He as _ He. naive_solver.
  - apply rank_of_inj in He as [_ He]. naive_solver.
Qed.

Lemma timeline_pages_witness :
  let '(l, finished) := read_on 3 (λ cursor, get_timeline {| feed_fanout_max_followers := 5 |} (λ _, false) two_posts None "hot" cursor 1) None in
  finished = true ∧ strictly l ∧ ∀ x, x ∈ l ↔ x ∈ [first_post; second_post] ∧ hidden (λ _, false) x = false.
Proof.
  pose proof (timeline_pages {| feed_fanout_max_followers := 5 |} (λ _, false) two_posts None "hot" 1) as H.
  change (mjoin (timeline_sources {| feed_fanout_max_followers := 5 |} two_posts None "hot")) with [first_post; second_post] in H.
  refine (proj1 (H _ _) _); [lia| |by intros []].
  apply coherent_pair. intros He. apply (f_equal uuid_int) in He. vm_compute in He. discriminate.
Defined.
