(* ===== verification/Fanout.v ===== *)
(** * Writing timelines ahead

    Model of [app/modules/feed/fanout.py]: the periodic job that writes new
    content into the timelines of its audience, one watermark per source, and
    what following and unfollowing add and remove. Theorems: the job leaves
    nothing behind, and once it has caught up a written timeline reads as the live
    one does, but for rows it had before and for posts of a board that it also
    writes to those who follow the board, which the live one does not show. *)

From S2P Require Import Prelude Cursor Feed.

Section fanout.
Context (cfg : settings).

(** [_audience]: at most one follower more than the cap is read. *)
Definition _audience (d : tables) (author board : option uuid) : list uuid * list uuid :=
  let limit := feed_fanout_max_followers cfg + 1 in
  (match author with Some a => take limit (follower_ids (user_follows d) a) | None => [] end,
   match board with Some b => take limit (follower_ids (board_follows d) b) | None => [] end).

(** [on_conflict_do_nothing("uq_feed_item")] *)
Definition same_row (r r' : uuid * FeedItem) : Prop := r.1 = r'.1 ∧ item_key r.2 = item_key r'.2.

#[local] Instance same_row_dec r r' : Decision (same_row r r').
Proof. unfold same_row. apply _. Defined.

Definition insert_row (rows : list (uuid * FeedItem)) (r : uuid * FeedItem) : list (uuid * FeedItem) :=
  if decide (Exists (same_row r) rows) then rows else rows ++ [r].

Definition set_rows (f : list (uuid * FeedItem) → list (uuid * FeedItem)) (d : tables) : tables :=
  Tables (published d) (user_follows d) (board_follows d) (f (feed_items d)) (fanout_state d).

Definition insert_values (values : list (uuid * FeedItem)) : tables → tables := set_rows (λ rows, foldl insert_row rows values).

Definition uuid_le (a b : uuid) : Prop := (uuid_int a ≤ uuid_int b)%N.
#[local] Instance uuid_le_dec : RelDecision uuid_le.
Proof. intros a b. unfold uuid_le. apply _. Defined.

Definition _fanout_item (it : FeedItem) (d : tables) : tables :=
  match author_id it, board_id it with
  | None, None => d
  | _, _ =>
      let cap := feed_fanout_max_followers cfg in
      let '(authors, boards) := _audience d (author_id it) (board_id it) in
      let authors := if decide (cap < length authors) then [] else authors in
      let boards := if decide (cap < length boards) then [] else boards in
      let followers : gset uuid := list_to_set authors ∪ list_to_set boards in
      insert_values ((λ u, (u, it)) <$> merge_sort uuid_le (elements followers)) d
  end.

(** [_load_state]: a source without a watermark starts now. *)
Definition _load_state (now : Z) (name : string) (d : tables) : Z * option uuid :=
  default (now, None) (fanout_state d !! name).

Definition set_state (name : string) (w : Z * option uuid) (d : tables) : tables :=
  Tables (published d) (user_follows d) (board_follows d) (feed_items d) (<[name := w]> (fanout_state d)).

(** The rows after the watermark, the oldest first. *)
Definition fetch_after (d : tables) (name : string) (w : Z * option uuid) (limit : nat) : list FeedItem :=
  take limit (oldest_first (filter (λ it, after_conditions w.1 w.2 it) (published d name))).

Definition fanout_source (now : Z) (limit : nat) (name : string) (d : tables) : tables * nat :=
  let w := _load_state now name d in
  let d := set_state name w d in
  let its := fetch_after d name w limit in
  match last its with
  | None => (d, 0)
  | Some lst => (set_state name (created_at lst, Some (item_id lst)) (foldl (flip _fanout_item) d its), length its)
  end.

Definition fanout_batch (now : Z) (per_source_limit : nat) (d : tables) : tables * nat :=
  foldl (λ acc name, let '(d, n) := fanout_source now per_source_limit name acc.1 in (d, acc.2 + n)) (d, 0) FOLLOW_SOURCES.

(** ** Following and unfollowing *)
Definition backfill_author (follower author : uuid) (limit : nat) (d : tables) : tables * nat :=
  if decide (author ∈ bigv_authors cfg d) then (d, 0) else
  let values := FOLLOW_SOURCES ≫= λ name,
    (λ it, (follower, MkItem (item_type it) (item_id it) (Some (default author (author_id it))) (board_id it) (title it)
                        (content_preview it) (created_at it) (url it)))
      <$> fetch_source d name (Some {[author]}) (Some ∅) None limit in
  (insert_values values d, length values).

Definition backfill_board (follower board : uuid) (limit : nat) (d : tables) : tables * nat :=
  let values := (λ it, (follower, it)) <$> fetch_source d "discussion" (Some ∅) (Some {[board]}) None limit in
  (insert_values values d, length values).

Definition by_author (author : uuid) (r : uuid * FeedItem) : bool := bool_decide (author_id r.2 = Some author).
Definition in_board (board : uuid) (r : uuid * FeedItem) : bool := bool_decide (board_id r.2 = Some board).

(** [col IS NULL OR col NOT IN keep]; an empty set adds no condition. *)
Definition not_kept (keep : gset uuid) (col : option uuid) : bool :=
  match col with None => true | Some x => bool_decide (x ∉ keep) end.

Definition delete_rows (p : uuid * FeedItem → bool) (d : tables) : tables * nat :=
  (set_rows (filter (λ r, p r = false)) d, length (filter (λ r, p r = true) (feed_items d))).

Definition remove_author_items (follower author : uuid) (keep_boards : gset uuid) : tables → tables * nat :=
  delete_rows (λ r, bool_decide (r.1 = follower) && by_author author r && not_kept keep_boards (board_id r.2)).

Definition remove_board_items (follower board : uuid) (keep_authors : gset uuid) : tables → tables * nat :=
  delete_rows (λ r, bool_decide (r.1 = follower) && in_board board r && not_kept keep_authors (author_id r.2)).

Definition remove_source_item (source : uuid) : tables → tables * nat :=
  delete_rows (λ r, bool_decide (item_id r.2 = source)).
End fanout.

(** ** A complete timeline *)
Lemma coherent_mono l l' : coherent l' → (∀ x, x ∈ l → x ∈ l') → coherent l.
Proof. intros [H1 H2] Hs. split; intros a b Ha Hb; [apply H1|apply H2]; auto. Qed.

Lemma strictly_unique l1 l2 :
  strictly l1 → strictly l2 → (∀ x, x ∈ l1 ↔ x ∈ l2) → l1 = l2.
Proof.
  intros H1. revert l2. induction H1 as [|a l1 H1 IH Ha]; intros l2 H2 Hin.
  { destruct l2 as [|b l2]; [done|]. exfalso. apply (elem_of_nil b), Hin. apply elem_of_cons. by left. }
  inversion H2 as [|b l2' H2' Hb]; subst.
  { exfalso. apply (elem_of_nil a), Hin. apply elem_of_cons. by left. }
  rewrite Forall_forall in Ha, Hb.
  assert (Hab : a = b).
  { assert (Hal : a ∈ b :: l2') by (apply Hin; apply elem_of_cons; by left).
    assert (Hbl : b ∈ a :: l1) by (apply Hin; apply elem_of_cons; by left).
    apply elem_of_cons in Hal as [|Hal]; [done|]. apply elem_of_cons in Hbl as [|Hbl]; [done|].
    apply Ha in Hbl. apply Hb in Hal. lia. }
  subst b. f_equal. apply IH; [done|]. intros x. split; intros Hx.
  - assert (Hx' : x ∈ a :: l2') by (apply Hin; apply elem_of_cons; by right). apply elem_of_cons in Hx' as [->|]; [|done].
    apply Ha in Hx. lia.
  - assert (Hx' : x ∈ a :: l1) by (apply Hin; apply elem_of_cons; by right). apply elem_of_cons in Hx' as [->|]; [|done].
    apply Hb in Hx. lia.
Qed.

Section complete.
Context (cfg : settings) (d : tables) (u : uuid).

Abbreviation following := (get_following_ids d u).
Abbreviation boards := (get_followed_board_ids d u).
Abbreviation bigv := (bigv_authors cfg d ∩ get_following_ids d u).

Lemma elem_of_source_rows a b name it :
  it ∈ source_rows d a b name ↔
  it ∈ published d name ∧ audience_conditions name a (if decide (name = "discussion"%string) then b else None) it = true.
Proof. unfold source_rows. rewrite list_elem_of_filter, Is_true_true. tauto. Qed.

Lemma elem_of_follow it :
  it ∈ mjoin (follow_sources d u) ↔
  ∃ name, name ∈ FOLLOW_SOURCES ∧ it ∈ published d name
    ∧ (is_author following it = true ∨ name = "discussion"%string ∧ on_board (Some boards) it = true).
Proof.
  unfold follow_sources, realtime_sources. rewrite list_elem_of_join. split.
  - intros (rows & Hit & (name & -> & Hname)%list_elem_of_fmap). apply elem_of_source_rows in Hit as [Hp Ha].
    exists name. split; [done|]. split; [done|]. unfold audience_conditions in Ha.
    destruct (decide (name = "article"%string)) as [->|]; [vm_compute in Hname; set_solver|].
    destruct (decide (name = "discussion"%string)); [|by left]. apply orb_true_iff in Ha as [Ha|Ha]; [by left|right; by split].
  - intros (name & Hname & Hp & Ha). exists (source_rows d (Some following) (Some boards) name). split.
    + apply elem_of_source_rows. split; [done|]. unfold audience_conditions.
      destruct (decide (name = "article"%string)); [done|]. destruct (decide (name = "discussion"%string)) as [->|Hd].
      * apply orb_true_iff. destruct Ha as [|[_ ?]]; [by left|by right].
      * by destruct Ha as [|[? _]].
    + apply list_elem_of_fmap. by exists name.
Qed.

Lemma is_author_mono (a b : gset uuid) it : a ⊆ b → is_author a it = true → is_author b it = true.
Proof. unfold is_author. destruct (author_id it); [|done]. rewrite !bool_decide_eq_true. set_solver. Qed.

Lemma elem_of_supplement it :
  it ∈ mjoin (supplement_sources d bigv boards) ↔
  ∃ name, name ∈ FOLLOW_SOURCES ∧ it ∈ published d name
    ∧ (is_author bigv it = true ∨ name = "discussion"%string ∧ on_board (Some boards) it = true).
Proof.
  assert (Hbv : is_author bigv it = true → bigv ≠ ∅).
  { unfold is_author. destruct (author_id it); [|done]. rewrite bool_decide_eq_true. set_solver. }
  assert (Hbd : on_board (Some boards) it = true → boards ≠ ∅).
  { unfold on_board. destruct (board_id it); [|done]. rewrite bool_decide_eq_true. set_solver. }
  rewrite list_elem_of_join. unfold supplement_sources. split.
  - intros (rows & Hit & Hrows). destruct (decide _); [|by apply elem_of_nil in Hrows].
    apply list_elem_of_bind in Hrows as (name & Hrows & Hname). exists name. split; [done|].
    destruct (decide _); [by apply elem_of_nil in Hrows|]. destruct (decide _); [by apply elem_of_nil in Hrows|].
    apply list_elem_of_singleton in Hrows as ->. apply elem_of_source_rows in Hit as [Hp Ha]. split; [done|].
    unfold audience_conditions in Ha. destruct (decide (name = "article"%string)) as [->|]; [vm_compute in Hname; set_solver|].
    destruct (decide (name = "discussion"%string)); [|by left]. apply orb_true_iff in Ha as [Ha|Ha]; [by left|right; by split].
  - intros (name & Hname & Hp & Ha). exists (source_rows d (Some bigv) (Some boards) name). split.
    + apply elem_of_source_rows. split; [done|]. unfold audience_conditions.
      destruct (decide (name = "article"%string)); [done|]. destruct (decide (name = "discussion"%string)) as [->|Hd].
      * apply orb_true_iff. destruct Ha as [|[_ ?]]; [by left|by right].
      * by destruct Ha as [|[? _]].
    + rewrite decide_True by (destruct Ha as [Ha|[_ Ha]]; [left|right]; auto).
      apply list_elem_of_bind. exists name. split; [|done].
      rewrite decide_False by (intros [Hd He]; destruct Ha as [Ha|[? _]]; [by apply Hbv|done]).
      rewrite decide_False by (intros (Hd & He & Hb); destruct Ha as [Ha|[_ Ha]]; [by apply Hbv|by apply Hbd]).
      by apply list_elem_of_singleton.
Qed.

Lemma elem_of_following a : a ∈ following ↔ (u, a) ∈ user_follows d.
Proof.
  unfold get_following_ids. rewrite elem_of_list_to_set, list_elem_of_fmap. split.
  - intros ([x y] & -> & [Hx Hin]%list_elem_of_filter). simpl in *. by subst.
  - intros Hin. exists (u, a). split; [done|]. by apply list_elem_of_filter.
Qed.

Lemma elem_of_followed_boards b : b ∈ boards ↔ (u, b) ∈ board_follows d.
Proof.
  unfold get_followed_board_ids. rewrite elem_of_list_to_set, list_elem_of_fmap. split.
  - intros ([x y] & -> & [Hx Hin]%list_elem_of_filter). simpl in *. by subst.
  - intros Hin. exists (u, b). split; [done|]. by apply list_elem_of_filter.
Qed.

(** An author who is not left to the read path has few enough followers. *)
Lemma not_bigv a : a ∈ following → a ∉ bigv_authors cfg d →
  length (follower_ids (user_follows d) a) ≤ feed_fanout_max_followers cfg.
Proof.
  intros Ha%elem_of_following Hb. destruct (decide (feed_fanout_max_followers cfg < length (follower_ids (user_follows d) a))); [|lia].
  destruct Hb. unfold bigv_authors. rewrite elem_of_list_to_set, list_elem_of_filter. split; [done|].
  apply list_elem_of_fmap. by exists (u, a).
Qed.

Lemma elem_of_own_rows it : it ∈ own_rows d u ↔ (u, it) ∈ feed_items d.
Proof.
  unfold own_rows. rewrite list_elem_of_fmap. split.
  - intros ([x y] & -> & [Hx Hin]%list_elem_of_filter). simpl in *. by subst.
  - intros Hin. exists (u, it). split; [done|]. by apply list_elem_of_filter.
Qed.

(** What is in the timeline because of its author or its board. *)
Lemma followed_author_live name it a :
  name ∈ FOLLOW_SOURCES → it ∈ published d name → author_id it = Some a → (u, a) ∈ user_follows d →
  it ∈ mjoin (follow_sources d u).
Proof.
  intros Hname Hp Ha Hf. apply elem_of_follow. exists name. split_and!; [done|done|]. left. unfold is_author. rewrite Ha.
  by apply bool_decide_eq_true, elem_of_following.
Qed.

Lemma followed_board_live it b :
  it ∈ published d "discussion" → board_id it = Some b → (u, b) ∈ board_follows d → it ∈ mjoin (follow_sources d u).
Proof.
  intros Hp Hb Hf. apply elem_of_follow. exists "discussion"%string. split_and!; [apply list_elem_of_here|done|]. right. split; [done|].
  unfold on_board. rewrite Hb. by apply bool_decide_eq_true, elem_of_followed_boards.
Qed.

(** When nothing is missing among the rows of the user, nothing is missing in what
    the written timeline is read from. *)
Lemma live_candidates it :
  (∀ name it, name ∈ FOLLOW_SOURCES → it ∈ published d name → is_author following it = true →
     is_author (bigv_authors cfg d) it = false → it ∈ own_rows d u) →
  it ∈ mjoin (follow_sources d u) → it ∈ mjoin (materialized_sources cfg d u).
Proof.
  intros Hc. unfold materialized_sources. change (mjoin (?x :: ?l)) with (x ++ mjoin l). rewrite elem_of_app, elem_of_supplement, elem_of_follow.
  intros (name & Hname & Hp & Ha). destruct Ha as [Ha|Hb]; [|right; exists name; by auto].
  destruct (is_author (bigv_authors cfg d) it) eqn:Hv.
  - right. exists name. split; [done|]. split; [done|]. left. unfold is_author in *. destruct (author_id it); [|done].
    apply bool_decide_eq_true in Hv, Ha. apply bool_decide_eq_true. set_solver.
  - left. by apply (Hc name).
Qed.

Lemma candidates_live it : it ∈ mjoin (materialized_sources cfg d u) → it ∈ own_rows d u ∨ it ∈ mjoin (follow_sources d u).
Proof.
  unfold materialized_sources. change (mjoin (?x :: ?l)) with (x ++ mjoin l). rewrite elem_of_app, elem_of_supplement, elem_of_follow.
  intros [|(name & Hname & Hp & Ha)]; [by left|right]. exists name. split; [done|]. split; [done|].
  destruct Ha as [Ha|]; [|by right]. left. apply (is_author_mono bigv); [set_solver|done].
Qed.
End complete.

(** ** The job *)

(** The watermark as a number. *)
Definition mark (w : Z * option uuid) : Z :=
  match w.2 with Some i => rank_of w.1 i | None => ((w.1 + 1) * 2 ^ 128 - 1)%Z end.

Lemma after_mark w it : after_conditions w.1 w.2 it = true ↔ (mark w < rank it)%Z.
Proof.
  destruct w as [t [i|]]; unfold after_conditions, mark; cbn [fst snd].
  - rewrite orb_true_iff, andb_true_iff, !bool_decide_eq_true. unfold rank. rewrite rank_of_lt.
    split; intros [?|[? ?]]; auto; right; split; auto; congruence.
  - rewrite bool_decide_eq_true. unfold rank, rank_of. pose proof (uuid_int_bound (item_id it)).
    change (2 ^ 128)%N with 340282366920938463463374607431768211456%N in *.
    change (2 ^ 128)%Z with 340282366920938463463374607431768211456%Z. lia.
Qed.

Section job.
Context (cfg : settings).

(** Who a row is to be written for. *)
Definition due (d : tables) (u : uuid) (it : FeedItem) : Prop :=
  (∃ a, author_id it = Some a ∧ (u, a) ∈ user_follows d ∧ length (follower_ids (user_follows d) a) ≤ feed_fanout_max_followers cfg)
  ∨ (∃ b, board_id it = Some b ∧ (u, b) ∈ board_follows d ∧ length (follower_ids (board_follows d) b) ≤ feed_fanout_max_followers cfg).

Definition covered (d : tables) (u : uuid) (it : FeedItem) : Prop := Exists (same_row (u, it)) (feed_items d).

(** What the job may do: add rows that are due. *)
Record grown (d d' : tables) : Prop := {
  grown_published : published d' = published d;
  grown_users : user_follows d' = user_follows d;
  grown_boards : board_follows d' = board_follows d;
  grown_kept r : r ∈ feed_items d → r ∈ feed_items d';
  grown_only r : r ∈ feed_items d' → r ∈ feed_items d ∨ due d r.1 r.2 ∧ ∃ name, name ∈ FOLLOW_SOURCES ∧ r.2 ∈ published d name
}.

#[export] Instance grown_preorder : PreOrder grown.
Proof.
  split.
  - intros d. split; try done. by left.
  - intros a b c [P1 U1 B1 K1 O1] [P2 U2 B2 K2 O2]. split; [congruence..|auto|].
    intros r Hr. destruct (O2 r Hr) as [Hb|[Hd Hp]]; [by apply O1|]. right. unfold due in *. rewrite U1, B1 in Hd. rewrite P1 in Hp. by split.
Qed.

Lemma covered_grown d d' u it : grown d d' → covered d u it → covered d' u it.
Proof.
  intros Hg Hc. apply Exists_exists in Hc as (r & Hr & Hs). apply Exists_exists. exists r. split; [by apply (grown_kept _ _ Hg)|done].
Qed.

Lemma insert_rows_spec values rows :
  (∀ r, r ∈ rows → r ∈ foldl insert_row rows values)
  ∧ (∀ r, r ∈ foldl insert_row rows values → r ∈ rows ∨ r ∈ values)
  ∧ (∀ r, r ∈ values → Exists (same_row r) (foldl insert_row rows values)).
Proof.
  revert rows. induction values as [|v values IH]; intros rows; simpl.
  { split_and!; [done|by left|by intros r ?%elem_of_nil]. }
  destruct (IH (insert_row rows v)) as (K & O & C).
  assert (Hk : ∀ r, r ∈ rows → r ∈ insert_row rows v) by (intros r Hr; unfold insert_row; destruct (decide _); set_solver).
  assert (Ho : ∀ r, r ∈ insert_row rows v → r ∈ rows ∨ r = v) by (intros r; unfold insert_row; destruct (decide _); set_solver).
  assert (Hh : Exists (same_row v) (insert_row rows v)).
  { unfold insert_row. destruct (decide _) as [|]; [done|]. apply Exists_exists. exists v. split; [set_solver|done]. }
  split_and!.
  - auto.
  - intros r Hr. destruct (O r Hr) as [Hi|]; [|right; apply elem_of_cons; by right].
    destruct (Ho r Hi) as [| ->]; [by left|right; apply elem_of_cons; by left].
  - intros r [->|Hr]%elem_of_cons; [|by apply C]. apply Exists_exists in Hh as (x & Hx & Hs). apply Exists_exists. exists x. auto.
Qed.

(** One dimension of the audience, with its cap. *)
Lemma capped_audience (rel : list (uuid * uuid)) cap target u :
  let l := take (cap + 1) (follower_ids rel target) in
  u ∈ (if decide (cap < length l) then [] else l) ↔ (u, target) ∈ rel ∧ length (follower_ids rel target) ≤ cap.
Proof.
  cbv zeta. assert (Hin : u ∈ follower_ids rel target ↔ (u, target) ∈ rel).
  { unfold follower_ids. rewrite list_elem_of_fmap. split.
    - intros ([a b] & -> & Hr). apply list_elem_of_filter in Hr as [Hb Hr]. simpl in *. by subst.
    - intros Hr. exists (u, target). split; [done|]. by apply list_elem_of_filter. }
  rewrite length_take. destruct (decide _) as [Hlt|Hge].
  - split; [by intros ?%elem_of_nil|]. intros [_ ?]. lia.
  - rewrite take_ge by lia. rewrite Hin. split; [intros ?; split; [done|lia]|by intros (? & _)].
Qed.

Lemma fanout_item_spec d name it :
  name ∈ FOLLOW_SOURCES → it ∈ published d name →
  grown d (_fanout_item cfg it d) ∧ fanout_state (_fanout_item cfg it d) = fanout_state d
  ∧ ∀ u, due d u it → covered (_fanout_item cfg it d) u it.
Proof.
  intros Hname Hit.
  assert (Hgoal : ∃ fs : list uuid, (∀ u, u ∈ fs ↔ due d u it) ∧ _fanout_item cfg it d = insert_values ((λ u, (u, it)) <$> fs) d).
  { unfold _fanout_item. destruct (author_id it) as [a|] eqn:Ha, (board_id it) as [b|] eqn:Hb; cbn [_audience].
    4: { exists []. split; [|by destruct d]. intros u. split; [by intros ?%elem_of_nil|]. unfold due. rewrite Ha, Hb. by intros [(? & ? & _)|(? & ? & _)]. }
    all: eexists; (split; [|reflexivity]); intros u; rewrite merge_sort_Permutation, elem_of_elements, elem_of_union, !elem_of_list_to_set;
      rewrite ?capped_audience; unfold due; rewrite Ha, Hb; try (destruct (decide _)); set_solver. }
  destruct Hgoal as (fs & Hfs & Heq). rewrite Heq.
  destruct (insert_rows_spec ((λ u, (u, it)) <$> fs) (feed_items d)) as (K & O & C). split_and!; [|done|].
  - split; try done. intros r Hr. destruct (O r Hr) as [|Hv]; [by left|]. apply list_elem_of_fmap in Hv as (u & -> & Hu).
    right. split; [by apply Hfs|by exists name].
  - intros u Hu. apply (C (u, it)). apply list_elem_of_fmap. exists u. split; [done|by apply Hfs].
Qed.

Lemma fanout_items_spec name its d :
  name ∈ FOLLOW_SOURCES → (∀ it, it ∈ its → it ∈ published d name) →
  let d' := foldl (flip (_fanout_item cfg)) d its in
  grown d d' ∧ fanout_state d' = fanout_state d ∧ ∀ it u, it ∈ its → due d u it → covered d' u it.
Proof.
  intros Hname. revert d. induction its as [|it its IH]; intros d Hin; cbn [foldl].
  { split_and!; [done|done|by intros ? ? ?%elem_of_nil]. }
  destruct (fanout_item_spec d name it Hname) as (G1 & S1 & C1); [apply Hin, elem_of_cons; by left|].
  change (flip (_fanout_item cfg) d it) with (_fanout_item cfg it d).
  destruct (IH (_fanout_item cfg it d)) as (G2 & S2 & C2).
  { intros x Hx. rewrite (grown_published _ _ G1). apply Hin, elem_of_cons. by right. }
  cbv zeta in *. split_and!; [by etrans|congruence|]. intros x u [->|Hx]%elem_of_cons Hu.
  - apply (covered_grown _ _ _ _ G2). by apply C1.
  - apply C2; [done|]. unfold due in *. by rewrite (grown_users _ _ G1), (grown_boards _ _ G1).
Qed.
End job.

Section rounds.
Context (cfg : settings) (limit : nat) (Hlimit : 1 ≤ limit).

#[local] Instance flip_later_first_trans : Transitive (flip later_first).
Proof. intros a b c. unfold flip. rewrite !later_first_rank. lia. Qed.
#[local] Instance flip_later_first_total : Total (flip later_first).
Proof. intros a b. unfold flip. rewrite !later_first_rank. lia. Qed.

(** No two rows of a source share an instant and an identifier. *)
Definition distinct (l : list FeedItem) : Prop := NoDup l ∧ ∀ a b, a ∈ l → b ∈ l → rank a = rank b → a = b.

Definition pending (d : tables) (name : string) (w : Z * option uuid) : list FeedItem :=
  filter (λ it, after_conditions w.1 w.2 it = true) (published d name).

Lemma elem_of_pending d name w it : it ∈ pending d name w ↔ it ∈ published d name ∧ (mark w < rank it)%Z.
Proof. unfold pending. rewrite list_elem_of_filter, after_mark. tauto. Qed.

(** One source in one round. *)
Lemma fanout_source_spec now name d w :
  name ∈ FOLLOW_SOURCES → distinct (published d name) → fanout_state d !! name = Some w →
  let '(d', n) := fanout_source cfg now limit name d in
  grown cfg d d' ∧ (∀ other, other ≠ name → fanout_state d' !! other = fanout_state d !! other)
  ∧ ∃ w', fanout_state d' !! name = Some w' ∧ (mark w ≤ mark w')%Z
    ∧ (∀ it, it ∈ pending d name w → (mark w' < rank it)%Z ∨ ∀ u, due cfg d u it → covered d' u it)
    ∧ length (pending d' name w') ≤ length (pending d name w) - limit
    ∧ (pending d name w = [] → n = 0).
Proof.
  intros Hname [Hnd Hdist] Hw. unfold fanout_source, _load_state. rewrite Hw. change (default (now, None) (Some w)) with w.
  set (d1 := set_state name w d).
  assert (Hd1 : grown cfg d d1) by (split; try done; by left).
  assert (Hp : ∀ S, S = oldest_first (filter (λ it, after_conditions w.1 w.2 it) (published d1 name)) → S ≡ₚ pending d name w).
  { intros S ->. unfold oldest_first. rewrite merge_sort_Permutation. unfold pending. simpl.
    apply reflexive_eq, list_filter_iff. intros x. by rewrite Is_true_true. }
  unfold fetch_after. set (S := oldest_first _) in *. specialize (Hp S eq_refl).
  assert (Hs : StronglySorted (flip later_first) S) by (apply Sorted_StronglySorted; [apply _|]; apply Sorted_merge_sort; apply _).
  assert (HinS : ∀ x, x ∈ take limit S → x ∈ pending d name w).
  { intros x (i & Hi & _)%elem_of_take. rewrite <-Hp. by eapply list_elem_of_lookup_2. }
  destruct (last (take limit S)) as [y|] eqn:Hy.
  - assert (HyS := last_take_in _ _ _ Hy). assert (Hyp := HinS y HyS). apply elem_of_pending in Hyp as [Hyp Hym].
    destruct (fanout_items_spec cfg name (take limit S) d1 Hname) as (G & St & C).
    { intros x Hx. by apply HinS, elem_of_pending in Hx as []. }
    cbv zeta in *. set (d2 := foldl _ d1 _) in *. set (d' := set_state name (created_at y, Some (item_id y)) d2).
    assert (Hd' : grown cfg d d') by (etrans; [exact Hd1|]; etrans; [exact G|]; split; try done; by left).
    split; [done|]. split.
    { intros other Hne. change (fanout_state d') with (<[name := (created_at y, Some (item_id y))]> (fanout_state d2)).
      rewrite lookup_insert_ne by done. rewrite St. unfold d1. cbn. by rewrite lookup_insert_ne. }
    exists (created_at y, Some (item_id y)). assert (Hmy : mark (created_at y, Some (item_id y)) = rank y) by done. rewrite Hmy.
    assert (Hlow : ∀ x, x ∈ take limit S → (rank x ≤ rank y)%Z).
    { intros x Hx. apply last_Some in Hy as [l Hl]. rewrite Hl in Hx.
      apply elem_of_app in Hx as [Hx|Hx]; [|by apply list_elem_of_singleton in Hx as ->].
      apply later_first_rank. assert (Hst : StronglySorted (flip later_first) (l ++ [y])) by (rewrite <-Hl; by apply StronglySorted_take).
      apply (StronglySorted_cut _ _ (length l) x y Hst); [by rewrite take_app_length|rewrite drop_app_length; by apply list_elem_of_singleton]. }
    split_and!.
    + change (fanout_state d') with (<[name := (created_at y, Some (item_id y))]> (fanout_state d2)). by rewrite lookup_insert_eq.
    + lia.
    + intros x Hx. destruct (decide (rank y < rank x)%Z) as [|Hle]; [by left|]. right. intros u Hu.
      assert (Hxt : x ∈ take limit S).
      { assert (HxS : x ∈ S) by by rewrite Hp. rewrite <-(take_drop limit S) in HxS. apply elem_of_app in HxS as [|Hxd]; [done|].
        pose proof (StronglySorted_cut _ _ limit y x Hs HyS Hxd) as Hr. apply later_first_rank in Hr.
        assert (x = y) as ->; [|done]. apply elem_of_pending in Hx as [Hx _]. apply Hdist; [done|done|lia]. }
      apply (covered_grown cfg d2); [split; try done; by left|]. by apply C.
    + transitivity (length (drop limit S)).
      * apply submseteq_length, NoDup_submseteq; [unfold pending; apply NoDup_filter; by rewrite (grown_published _ _ _ Hd')|].
        intros x. rewrite elem_of_pending, (grown_published _ _ _ Hd'), Hmy. intros [Hxp Hxr].
        assert (HxS : x ∈ S) by (rewrite Hp; apply elem_of_pending; split; [done|lia]).
        rewrite <-(take_drop limit S) in HxS. apply elem_of_app in HxS as [Hxt|]; [|done]. pose proof (Hlow x Hxt). lia.
      * rewrite length_drop, Hp. done.
    + intros He. rewrite He in Hp. apply Permutation_nil_r in Hp. by rewrite Hp, take_nil in Hy.
  - apply last_None in Hy. assert (HS : S = []) by (destruct S, limit; [done|done|lia|done]).
    split; [done|]. split; [intros other Hne; cbn; by rewrite lookup_insert_ne|].
    exists w. cbn. rewrite lookup_insert_eq. split_and!; [done|done| | |done].
    2: { assert (Hp0 : length (pending d name w) = 0) by (rewrite <-Hp, HS; done). unfold pending in Hp0 |- *. rewrite Hp0. lia. }
    intros x Hx. left. by apply elem_of_pending in Hx as [].
Qed.

(** The sources [names], one after the other. *)
Definition batch_over (now : Z) (names : list string) (acc : tables * nat) : tables * nat :=
  foldl (λ acc name, let '(d, n) := fanout_source cfg now limit name acc.1 in (d, acc.2 + n)) acc names.

Lemma batch_over_spec now names acc (w : string → Z * option uuid) :
  NoDup names → (∀ name, name ∈ names → name ∈ FOLLOW_SOURCES) →
  (∀ name, name ∈ FOLLOW_SOURCES → distinct (published acc.1 name) ∧ fanout_state acc.1 !! name = Some (w name)) →
  let '(d', n) := batch_over now names acc in
  grown cfg acc.1 d' ∧ (∀ name, name ∉ names → fanout_state d' !! name = fanout_state acc.1 !! name)
  ∧ (∀ name, name ∈ names → ∃ w', fanout_state d' !! name = Some w' ∧ (mark (w name) ≤ mark w')%Z
      ∧ (∀ it, it ∈ pending acc.1 name (w name) → (mark w' < rank it)%Z ∨ ∀ u, due cfg acc.1 u it → covered d' u it)
      ∧ length (pending d' name w') ≤ length (pending acc.1 name (w name)) - limit)
  ∧ ((∀ name, name ∈ names → pending acc.1 name (w name) = []) → n = acc.2).
Proof.
  intros Hnd. revert acc w. induction Hnd as [|name names Hn Hnd IH]; intros [d n] w Hsub Hst; cbn [batch_over foldl fst snd] in *.
  { split_and!; [done|done|by intros ? ?%elem_of_nil|done]. }
  destruct (Hst name) as [Hdist Hw]; [apply Hsub, elem_of_cons; by left|].
  pose proof (fanout_source_spec now name d (w name) (Hsub _ (list_elem_of_here _ _)) Hdist Hw) as Hone.
  destruct (fanout_source cfg now limit name d) as [d1 n1]. destruct Hone as (G1 & O1 & w1 & Hw1 & Hm1 & C1 & L1 & Z1).
  assert (Hst1 : ∀ nm, nm ∈ FOLLOW_SOURCES → distinct (published d1 nm)
    ∧ fanout_state d1 !! nm = Some (if decide (nm = name) then w1 else w nm)).
  { intros nm Hnm. rewrite (grown_published _ _ _ G1). split; [by apply Hst|]. destruct (decide (nm = name)) as [->|]; [done|].
    rewrite O1 by done. by apply Hst. }
  pose proof (IH (d1, n + n1) (λ nm, if decide (nm = name) then w1 else w nm)) as Hrest. cbn [fst snd] in Hrest.
  destruct (batch_over now names (d1, n + n1)) as [d' n'] eqn:Hb. unfold batch_over in Hb. rewrite Hb.
  destruct Hrest as (G2 & O2 & C2 & Z2); [intros nm Hnm; apply Hsub, elem_of_cons; by right|done|].
  assert (Hpend : ∀ nm v, pending d1 nm v = pending d nm v) by (intros nm v; unfold pending; by rewrite (grown_published _ _ _ G1)).
  assert (Hdue : ∀ u it, due cfg d1 u it ↔ due cfg d u it).
  { intros u it. unfold due. by rewrite (grown_users _ _ _ G1), (grown_boards _ _ _ G1). }
  split_and!.
  - by etrans.
  - intros nm [Hne Hnm]%not_elem_of_cons. by rewrite O2, O1.
  - intros nm [->|Hnm]%elem_of_cons.
    + exists w1. rewrite O2 by done. split_and!; [done|done| |].
      * intros it Hit. destruct (C1 it Hit) as [|Hc]; [by left|right]. intros u Hu. apply (covered_grown cfg d1); [done|]. by apply Hc.
      * unfold pending in *. by rewrite (grown_published _ _ _ G2).
    + destruct (C2 nm Hnm) as (w' & Hw' & Hm & Hc & Hl). rewrite decide_False in Hm, Hc, Hl by (intros ->; done).
      exists w'. rewrite Hpend in *. split_and!; [done|done| |done]. intros it Hit. destruct (Hc it Hit) as [|Hcv]; [by left|right].
      intros u Hu. apply Hcv. by apply Hdue.
  - intros Hz. rewrite Z2.
    + rewrite (Z1 (Hz name (list_elem_of_here _ _))). lia.
    + intros nm Hnm. rewrite decide_False by (intros ->; done). rewrite Hpend. apply Hz, elem_of_cons. by right.
Qed.

(** Several rounds. *)
Definition rounds (nows : list Z) (d : tables) : tables := foldl (λ d now, (fanout_batch cfg now limit d).1) d nows.

Lemma rounds_spec nows d (w : string → Z * option uuid) :
  (∀ name, name ∈ FOLLOW_SOURCES → distinct (published d name) ∧ fanout_state d !! name = Some (w name)) →
  grown cfg d (rounds nows d)
  ∧ ∃ w' : string → Z * option uuid, ∀ name, name ∈ FOLLOW_SOURCES →
      fanout_state (rounds nows d) !! name = Some (w' name)
      ∧ (∀ it, it ∈ pending d name (w name) → (mark (w' name) < rank it)%Z ∨ ∀ u, due cfg d u it → covered (rounds nows d) u it)
      ∧ length (pending (rounds nows d) name (w' name)) ≤ length (pending d name (w name)) - length nows * limit.
Proof.
  revert d w. induction nows as [|now nows IH]; intros d w Hst.
  { split; [done|]. exists w. intros name Hname. split_and!; [by apply Hst| |simpl; lia].
    intros it Hit. left. by apply elem_of_pending in Hit as []. }
  assert (Hnd : NoDup FOLLOW_SOURCES) by (apply (bool_decide_unpack _); vm_compute; exact I).
  pose proof (batch_over_spec now FOLLOW_SOURCES (d, 0) w Hnd (λ _ H, H) Hst) as Hone.
  change (rounds (now :: nows) d) with (rounds nows (fanout_batch cfg now limit d).1).
  change (batch_over now FOLLOW_SOURCES (d, 0)) with (fanout_batch cfg now limit d) in Hone.
  destruct (fanout_batch cfg now limit d) as [d1 n1]. destruct Hone as (G1 & _ & C1 & _). cbn [fst snd] in *.
  set (w1 := λ name, default (w name) (fanout_state d1 !! name)).
  assert (Hw1 : ∀ name, name ∈ FOLLOW_SOURCES → fanout_state d1 !! name = Some (w1 name)).
  { intros name Hname. destruct (C1 name Hname) as (w' & Hw' & _). unfold w1. by rewrite Hw'. }
  destruct (IH d1 w1) as (G2 & w2 & H2).
  { intros name Hname. rewrite (grown_published _ _ _ G1). split; [by apply Hst|by apply Hw1]. }
  split; [by etrans|]. exists w2. intros name Hname. destruct (H2 name Hname) as (Hs2 & C2 & L2).
  destruct (C1 name Hname) as (w' & Hw' & Hm & Cw & Lw).
  assert (w' = w1 name) as -> by (specialize (Hw1 name Hname); congruence).
  assert (Hpend : ∀ v, pending d1 name v = pending d name v) by (intros v; unfold pending; by rewrite (grown_published _ _ _ G1)).
  rewrite Hpend in *. split_and!; [done| |simpl; lia].
  intros it Hit. destruct (Cw it Hit) as [Hlt|Hc].
  - destruct (C2 it) as [|Hc2]; [apply elem_of_pending in Hit as [Hit _]; by apply elem_of_pending|by left|]. right.
    intros u Hu. apply Hc2. unfold due in *. by rewrite (grown_users _ _ _ G1), (grown_boards _ _ _ G1).
  - right. intros u Hu. apply (covered_grown cfg d1); [done|]. by apply Hc.
Qed.
End rounds.

(** C19: the fan-out leaves nothing behind. However many rows have piled up
    above the watermarks, enough rounds of the job write each of them into the
    timeline of every follower of its author and of its board, unless these are
    more than the cap; the job only ever adds rows, and only for that audience;
    and when it has caught up, a round finds nothing to do. *)
Theorem fanout_leaves_nothing (cfg : settings) (limit : nat) (now : Z) (nows : list Z) (d : tables) (w : string → Z * option uuid)
    (Hlimit : 1 ≤ limit)
    (Hstate : ∀ name, name ∈ FOLLOW_SOURCES → fanout_state d !! name = Some (w name))
    (Hrows : ∀ name, name ∈ FOLLOW_SOURCES → distinct (published d name))
    (Hrounds : ∀ name, name ∈ FOLLOW_SOURCES → length (published d name) ≤ length nows * limit) :
  let d' := rounds cfg limit nows d in
  (∀ name it u, name ∈ FOLLOW_SOURCES → it ∈ published d name → after_conditions (w name).1 (w name).2 it = true →
     due cfg d u it → covered d' u it)
  ∧ (∀ r, r ∈ feed_items d → r ∈ feed_items d')
  ∧ (∀ r, r ∈ feed_items d' → r ∈ feed_items d ∨ due cfg d r.1 r.2 ∧ ∃ name, name ∈ FOLLOW_SOURCES ∧ r.2 ∈ published d name)
  ∧ (fanout_batch cfg now limit d').2 = 0.
Proof.
  cbv zeta. destruct (rounds_spec cfg limit Hlimit nows d w) as (G & w' & H); [intros name Hname; by auto|].
  set (d' := rounds cfg limit nows d) in *.
  assert (Hempty : ∀ name, name ∈ FOLLOW_SOURCES → pending d' name (w' name) = []).
  { intros name Hname. destruct (H name Hname) as (_ & _ & Hl). apply length_zero_iff_nil.
    assert (length (pending d name (w name)) ≤ length (published d name)) by apply length_filter. specialize (Hrounds name Hname). lia. }
  split_and!; [|apply (grown_kept _ _ _ G)|apply (grown_only _ _ _ G)|].
  - intros name it u Hname Hit Ha Hu. apply after_mark in Ha. destruct (H name Hname) as (_ & Hc & _).
    destruct (Hc it) as [Hlt|Hcov]; [by apply elem_of_pending| |by apply Hcov].
    exfalso. apply (elem_of_nil it). rewrite <-(Hempty name Hname). apply elem_of_pending. by rewrite (grown_published _ _ _ G).
  - assert (Hnd : NoDup FOLLOW_SOURCES) by (apply (bool_decide_unpack _); vm_compute; exact I).
    pose proof (batch_over_spec cfg limit Hlimit now FOLLOW_SOURCES (d', 0) w' Hnd (λ _ H, H)) as Hone.
    change (batch_over cfg limit now FOLLOW_SOURCES (d', 0)) with (fanout_batch cfg now limit d') in Hone.
    destruct (fanout_batch cfg now limit d') as [d1 n1]. destruct Hone as (_ & _ & _ & Hz); [|by apply Hz].
    intros name Hname. cbn [fst]. rewrite (grown_published _ _ _ G). split; [by apply Hrows|]. by destruct (H name Hname) as (? & _).
Qed.

(** ** Reading what is written *)
#[local] Instance FeedItem_eq_dec : EqDecision FeedItem.
Proof. solve_decision. Defined.

(** Both ways of reading, to the end. *)
Lemma both_read_all `{IsoFormatLaws} (cfg : settings) (should_hide : string → bool) (d : tables) (u : uuid) (limit fuel : nat) :
  1 ≤ limit →
  coherent (mjoin (follow_sources d u)) → coherent (mjoin (materialized_sources cfg d u)) →
  (∀ it, it ∈ mjoin (follow_sources d u) → it ∈ mjoin (materialized_sources cfg d u)) →
  length (mjoin (follow_sources d u)) + length (mjoin (materialized_sources cfg d u)) < fuel →
  ¬ follows_nothing d u →
  let '(l1, f1) := read_on fuel (λ cursor, get_timeline cfg should_hide d (Some u) "follow" cursor limit) None in
  let '(l2, f2) := read_on fuel (λ cursor, _realtime_timeline should_hide d (Some u) "follow" cursor limit) None in
  f1 = true ∧ f2 = true ∧ strictly l1 ∧ strictly l2
  ∧ (∀ x, x ∈ l1 ↔ x ∈ mjoin (materialized_sources cfg d u) ∧ hidden should_hide x = false)
  ∧ (∀ x, x ∈ l2 ↔ x ∈ mjoin (follow_sources d u) ∧ hidden should_hide x = false).
Proof.
  intros Hlimit Hcoh Hcoh' Hsub Hfuel Hn.
  assert (Hsrc : timeline_sources cfg d (Some u) "follow" = materialized_sources cfg d u).
  { unfold timeline_sources. rewrite decide_True by done. by rewrite decide_False. }
  pose proof (read_all should_hide (follow_sources d u)
    (λ cursor, _realtime_timeline should_hide d (Some u) "follow" cursor limit) Hcoh) as H2.
  assert (H2' := H2 ltac:(intros cur; by apply realtime_page_ok)). clear H2.
  destruct (decide (mjoin (materialized_sources cfg d u) = [])) as [Hm|Hm].
  - assert (Hf : mjoin (follow_sources d u) = []).
    { destruct (mjoin (follow_sources d u)) as [|x l]; [done|]. specialize (Hsub x (list_elem_of_here _ _)). rewrite Hm in Hsub. by apply elem_of_nil in Hsub. }
    rewrite Hf, Hm in *. destruct fuel as [|fuel]; [simpl in Hfuel; lia|]. specialize (H2' 1 ltac:(simpl; lia)). cbn [read_on] in *.
    rewrite (follow_cases cfg should_hide d u None limit) by (by rewrite ?Hm). rewrite Hm. rewrite decide_True by done.
    destruct (next_cursor (_realtime_timeline should_hide d (Some u) "follow" None limit)); [by destruct H2'|].
    destruct H2' as (_ & Hs & Hin). by split_and!.
  - pose proof (read_all should_hide (materialized_sources cfg d u)
      (λ cursor, get_timeline cfg should_hide d (Some u) "follow" cursor limit) Hcoh') as H1.
    assert (H1' := H1 ltac:(intros cur; rewrite <-Hsrc; apply timeline_page_ok; [done|by rewrite Hsrc|by intros (_ & _ & ?)]) fuel ltac:(lia)).
    specialize (H2' fuel ltac:(lia)).
    destruct (read_on fuel (λ cursor, get_timeline _ _ _ _ _ cursor _) None) as [l1 f1],
    (read_on fuel (λ cursor, _realtime_timeline _ _ _ _ cursor _) None) as [l2 f2].
    destruct H1' as (-> & Hs1 & Hl1), H2' as (-> & Hs2 & Hl2). by split_and!.
Qed.

(** C18: the timelines that the fan-out writes against the live ones. Take any
    tables in which the rows above the watermarks have not been written and all
    the others have, for the authors a user follows who are not too big to be
    written for; let the job run until it has caught up. Then both ways of reading
    come to an end, and what [get_timeline] shows is what [_realtime_timeline]
    shows, in its order, with nothing missing, and besides it only rows that were
    in the written timeline before, and items of the other sources that are
    posted to a board the user follows: the fan-out writes these for the
    followers of the board, the live merge looks for discussions only. Where
    there are no such items, the two are the same. *)
Theorem materialized_refines_realtime `{IsoFormatLaws} (cfg : settings) (should_hide : string → bool) (batch : nat) (nows : list Z)
    (d : tables) (w : string → Z * option uuid) (u : uuid) (limit fuel : nat)
    (Hlimit : 1 ≤ limit) (Hbatch : 1 ≤ batch)
    (Hstate : ∀ name, name ∈ FOLLOW_SOURCES → fanout_state d !! name = Some (w name))
    (Hrows : ∀ name, name ∈ FOLLOW_SOURCES → NoDup (published d name))
    (Hcoh : coherent (own_rows d u ++ (FOLLOW_SOURCES ≫= published d)))
    (Hrounds : ∀ name, name ∈ FOLLOW_SOURCES → length (published d name) ≤ length nows * batch)
    (Hbelow : ∀ name it, name ∈ FOLLOW_SOURCES → it ∈ published d name → is_author (get_following_ids d u) it = true →
       is_author (bigv_authors cfg d) it = false → after_conditions (w name).1 (w name).2 it = false → it ∈ own_rows d u)
    (Hfuel : length (mjoin (follow_sources (rounds cfg batch nows d) u))
             + length (mjoin (materialized_sources cfg (rounds cfg batch nows d) u)) < fuel) :
  let d' := rounds cfg batch nows d in
  let '(written, all_written) := read_on fuel (λ cursor, get_timeline cfg should_hide d' (Some u) "follow" cursor limit) None in
  let '(live, all_live) := read_on fuel (λ cursor, _realtime_timeline should_hide d' (Some u) "follow" cursor limit) None in
  let other it := ∃ name b, name ∈ FOLLOW_SOURCES ∧ name ≠ "discussion"%string ∧ it ∈ published d name
                    ∧ board_id it = Some b ∧ (u, b) ∈ board_follows d in
  all_written = true ∧ all_live = true
  ∧ live = filter (λ it, it ∈ live) written
  ∧ (∀ it, it ∈ written → it ∈ live ∨ it ∈ own_rows d u ∨ other it)
  ∧ ((∀ it, it ∈ own_rows d u → it ∈ mjoin (follow_sources d u)) → (∀ it, ¬ other it) → written = live).
Proof.
  cbv zeta. destruct (rounds_spec cfg batch Hbatch nows d w) as (G & w' & Hw).
  { intros name Hname. split; [|by apply Hstate]. split; [by apply Hrows|]. intros a b Ha Hb. apply (coherent_rank _ Hcoh);
      apply elem_of_app; right; apply list_elem_of_bind; by exists name. }
  set (d' := rounds cfg batch nows d) in *. pose proof (grown_published _ _ _ G) as Gp.
  pose proof (grown_users _ _ _ G) as Gu. pose proof (grown_boards _ _ _ G) as Gb.
  assert (Hfs : follow_sources d' u = follow_sources d u).
  { unfold follow_sources, realtime_sources, source_rows, get_following_ids, get_followed_board_ids. by rewrite Gp, Gu, Gb. }
  assert (Hpub : ∀ name it, name ∈ FOLLOW_SOURCES → it ∈ published d name → it ∈ own_rows d u ++ (FOLLOW_SOURCES ≫= published d)).
  { intros name it Hname Hit. apply elem_of_app. right. apply list_elem_of_bind. by exists name. }
  assert (Hown : ∀ it, it ∈ own_rows d' u → it ∈ own_rows d u ∨ due cfg d u it ∧ ∃ name, name ∈ FOLLOW_SOURCES ∧ it ∈ published d name).
  { intros it Hit. apply elem_of_own_rows in Hit. destruct (grown_only _ _ _ G _ Hit) as [|Hd]; [left; by apply elem_of_own_rows|by right]. }
  assert (Hlive : ∀ it, it ∈ mjoin (follow_sources d u) → it ∈ own_rows d u ++ (FOLLOW_SOURCES ≫= published d)).
  { intros it (name & Hname & Hp & _)%elem_of_follow. by apply (Hpub name). }
  assert (Hcand : ∀ it, it ∈ mjoin (materialized_sources cfg d' u) → it ∈ own_rows d u ++ (FOLLOW_SOURCES ≫= published d)).
  { intros it [Ho|Hl]%candidates_live; [|rewrite Hfs in Hl; by apply Hlive].
    apply Hown in Ho as [Ho|(_ & name & Hname & Hp)]; [apply elem_of_app; by left|by apply (Hpub name)]. }
  assert (Hsub : ∀ it, it ∈ mjoin (follow_sources d' u) → it ∈ mjoin (materialized_sources cfg d' u)).
  { intros it. apply live_candidates. intros name x Hname Hx Ha Hv. rewrite Gp in Hx.
    assert (Hx0 : is_author (get_following_ids d u) x = true) by (unfold get_following_ids in *; by rewrite <-Gu).
    assert (Hv0 : is_author (bigv_authors cfg d) x = false) by (unfold bigv_authors in *; by rewrite <-Gu).
    destruct (after_conditions (w name).1 (w name).2 x) eqn:Haf.
    - destruct (Hw name Hname) as (_ & Hc & Hl). destruct (Hc x) as [Hlt|Hcov].
      + apply elem_of_pending. split; [done|]. by apply after_mark.
      + exfalso. assert (Hp' : pending d' name (w' name) = []).
        { apply length_zero_iff_nil. assert (length (pending d name (w name)) ≤ length (published d name)) by apply length_filter.
          specialize (Hrounds name Hname). lia. }
        apply (elem_of_nil x). rewrite <-Hp'. apply elem_of_pending. by rewrite Gp.
      + assert (Hdue : due cfg d u x).
        { left. unfold is_author in Hx0, Hv0. destruct (author_id x) as [a|]; [|done]. apply bool_decide_eq_true in Hx0.
          apply bool_decide_eq_false in Hv0. exists a. split_and!; [done|by apply elem_of_following|by apply (not_bigv _ d u)]. }
        specialize (Hcov u Hdue). apply Exists_exists in Hcov as ([u0 y] & Hy & Heq1 & Heq2). simpl in Heq1, Heq2. subst u0.
        apply elem_of_own_rows in Hy. assert (x = y) as ->; [|done]. apply (coherent_key _ Hcoh); [by apply (Hpub name)| |done].
        apply Hown in Hy as [Hy|(_ & nm & Hnm & Hy)]; [apply elem_of_app; by left|by apply (Hpub nm)].
    - apply elem_of_own_rows, (grown_kept _ _ _ G), elem_of_own_rows. by apply (Hbelow name). }
  destruct (decide (follows_nothing d' u)) as [Hn|Hn].
  { destruct fuel as [|fuel]; [lia|]. cbn [read_on]. unfold get_timeline, _realtime_timeline, _materialized_timeline.
    rewrite !decide_True by done. split_and!; try done. by intros it ?%elem_of_nil. }
  pose proof (both_read_all cfg should_hide d' u limit fuel Hlimit) as Hboth.
  destruct (read_on fuel (λ cursor, get_timeline _ _ _ _ _ cursor _) None) as [l1 f1],
    (read_on fuel (λ cursor, _realtime_timeline _ _ _ _ cursor _) None) as [l2 f2].
  destruct Hboth as (-> & -> & Hs1 & Hs2 & Hl1 & Hl2); [rewrite Hfs; by apply (coherent_mono _ _ Hcoh)|by apply (coherent_mono _ _ Hcoh)|done..|].
  assert (Hextra : ∀ it, it ∈ l1 → it ∈ l2 ∨ it ∈ own_rows d u ∨ ∃ name b, name ∈ FOLLOW_SOURCES ∧ name ≠ "discussion"%string ∧ it ∈ published d name
                    ∧ board_id it = Some b ∧ (u, b) ∈ board_follows d).
  { intros it [Hm Hh]%Hl1. apply candidates_live in Hm as [Ho|Hl]; [|left; by apply Hl2].
    apply Hown in Ho as [Ho|(Hd & name & Hname & Hp)]; [by right; left|].
    destruct Hd as [(a & Ha & Hf & _)|(b & Hb & Hf & _)].
    - left. apply Hl2. split; [|done]. rewrite Hfs. by apply (followed_author_live _ _ name _ a).
    - destruct (decide (name = "discussion"%string)) as [->|Hd]; [|right; right; by exists name, b].
      left. apply Hl2. split; [|done]. rewrite Hfs. by apply (followed_board_live _ _ _ b). }
  split_and!; [done|done| |done|].
  - apply strictly_unique; [done|by apply StronglySorted_kept|]. intros x. rewrite list_elem_of_filter. split; [|by intros []].
    intros Hx. split; [done|]. apply Hl1. apply Hl2 in Hx as [Hx ?]. split; [by apply Hsub|done].
  - intros Hsound Hno. apply strictly_unique; [done|done|]. intros x. split.
    + intros Hx. destruct (Hextra x Hx) as [|[Ho|Ho]]; [done| |by destruct (Hno x)]. apply Hl2. rewrite Hfs. split; [by apply Hsound|by apply Hl1].
    + intros [Hx ?]%Hl2. apply Hl1. split; [by apply Hsub|done].
Qed.

(** ** Witnesses: a follower of the author of [two_posts] *)
Definition reader : uuid := uuid_of_N 5.

Definition caps : settings := {| feed_fanout_max_followers := 5 |}.

Definition before_fanout : tables :=
  Tables (published two_posts) [(reader, uuid_of_N 9)] [] []
    (list_to_map ((λ name, (name, (0%Z, None))) <$> FOLLOW_SOURCES)).

Lemma published_two name it : it ∈ published two_posts name → it ∈ [first_post; second_post].
Proof. unfold two_posts. cbn [published]. destruct (decide _); [done|by intros ?%elem_of_nil]. Qed.

Lemma coherent_two : coherent [first_post; second_post].
Proof. apply coherent_pair. intros He. apply (f_equal uuid_int) in He. vm_compute in He. discriminate. Qed.

Lemma distinct_two name : distinct (published two_posts name).
Proof.
  split.
  - unfold two_posts. cbn [published]. destruct (decide _); [|constructor].
    apply NoDup_cons. split; [|apply NoDup_singleton]. intros He%list_elem_of_singleton.
    apply (f_equal created_at) in He. vm_compute in He. discriminate.
  - intros a b Ha%published_two Hb%published_two. by apply (coherent_rank _ coherent_two).
Qed.

Lemma fanout_leaves_nothing_witness :
  covered (rounds caps 1 [0%Z; 0%Z] before_fanout) reader first_post
  ∧ (fanout_batch caps 0 1 (rounds caps 1 [0%Z; 0%Z] before_fanout)).2 = 0.
Proof.
  pose proof (fanout_leaves_nothing caps 1 0 [0%Z; 0%Z] before_fanout (λ _, (0%Z, None))) as H. cbv zeta in H.
  destruct H as (H1 & _ & _ & H4).
  - lia.
  - intros name Hname. unfold FOLLOW_SOURCES in Hname.
    repeat (apply elem_of_cons in Hname as [->|Hname]; [reflexivity|]). by apply elem_of_nil in Hname.
  - intros name _. apply distinct_two.
  - intros name _. unfold before_fanout, two_posts. cbn [published]. destruct (decide _); simpl; lia.
  - split; [|exact H4]. apply (H1 "discussion"%string); [apply list_elem_of_here|apply list_elem_of_here|reflexivity|].
    left. exists (uuid_of_N 9). split; [reflexivity|]. split; [apply list_elem_of_here|]. apply Nat.leb_le. vm_compute. reflexivity.
Defined.

Lemma before_fanout_state name : name ∈ FOLLOW_SOURCES → fanout_state before_fanout !! name = Some (0%Z, None).
Proof.
  intros Hname. unfold FOLLOW_SOURCES in Hname. repeat (apply elem_of_cons in Hname as [->|Hname]; [reflexivity|]). by apply elem_of_nil in Hname.
Qed.

Lemma materialized_refines_realtime_witness :
  ∃ fuel, read_on fuel (λ cursor, get_timeline caps (λ _, false) (rounds caps 1 [0%Z; 0%Z] before_fanout) (Some reader) "follow" cursor 1) None
        = read_on fuel (λ cursor, _realtime_timeline (λ _, false) (rounds caps 1 [0%Z; 0%Z] before_fanout) (Some reader) "follow" cursor 1) None.
Proof.
  set (d' := rounds caps 1 [0%Z; 0%Z] before_fanout).
  exists (S (length (mjoin (follow_sources d' reader)) + length (mjoin (materialized_sources caps d' reader)))).
  pose proof (materialized_refines_realtime caps (λ _, false) 1 [0%Z; 0%Z] before_fanout (λ _, (0%Z, None)) reader 1
    (S (length (mjoin (follow_sources d' reader)) + length (mjoin (materialized_sources caps d' reader))))) as H. cbv zeta in H. fold d' in H.
  destruct (read_on _ (λ cursor, get_timeline _ _ _ _ _ cursor _) None) as [l1 f1], (read_on _ (λ cursor, _realtime_timeline _ _ _ _ cursor _) None) as [l2 f2].
  destruct H as (-> & -> & _ & _ & Heq).
  - lia.
  - lia.
  - apply before_fanout_state.
  - intros name _. apply distinct_two.
  - apply (coherent_mono _ _ coherent_two). intros x [Hx|Hx]%elem_of_app; [by apply elem_of_nil in Hx|].
    apply list_elem_of_bind in Hx as (name & Hx & _). by apply (published_two name).
  - intros name _. unfold before_fanout, two_posts. cbn [published]. destruct (decide _); simpl; lia.
  - intros name it _ Hit _ _ Ha. exfalso. apply published_two in Hit. rewrite !elem_of_cons, elem_of_nil in Hit.
    destruct Hit as [->|[->|[]]]; vm_compute in Ha; discriminate.
  - lia.
  - rewrite Heq; [done|by intros it ?%elem_of_nil|]. intros it (name & b & _ & Hd & Hit & _).
    unfold before_fanout, two_posts in Hit. cbn [published] in Hit. rewrite decide_False in Hit by done. by apply elem_of_nil in Hit.
Defined.
