(* ===== verification/Exam.v ===== *)
(** * Exams

    Model of [app/modules/exam]: creating an exam, starting and submitting an
    attempt, the certificate and what follows from it (the unlocking of the
    account through the auth service, the points event), and the leaderboard.

    The account service has its own database and commits before it answers; an
    answer that does not arrive rolls back the exam, not the account. *)

From S2P Require Import Prelude Roles Permissions Events.
From S2P Require Accounts.

Record Question := MkQuestion { q_id : uuid; q_answer : string; q_score : Z; q_order : Z }.

Record Exam := MkExam {
  title : string;
  type_ : string;
  pass_score : Z;
  time_limit_min : Z;
  is_published : bool;
  unlock_level : option string;
  unlock_role : option string;
  starts_at : option Z;
  ends_at : option Z;
  questions : list Question
}.

Record Attempt := MkAttempt {
  a_exam : uuid;
  a_user : uuid;
  submitted : bool;                         (* status: in_progress or submitted *)
  a_answers : gmap uuid string;
  a_score : Z;
  a_passed : bool;
  started_at : Z
}.

Record Certificate := MkCertificate {
  c_id : uuid;
  c_exam : uuid;
  c_user : uuid;
  c_score : Z;
  c_passed : bool;
  cert_no : string;
  issued_at : Z
}.

Record tables := Tables {
  exams : gmap uuid Exam;
  attempts : gmap uuid Attempt;
  certificates : list Certificate;
  outbox : list (uuid * string * string)     (* arguments of enqueue_points_event *)
}.

Record world := World { db : tables; accounts : Accounts.world; clock : Z }.

Abbreviation M := (prog world err).

Definition set_db (f : tables → tables) (w : world) : world := World (f (db w)) (accounts w) (clock w).
Definition set_exams (f : gmap uuid Exam → gmap uuid Exam) : world → world :=
  set_db (λ d, Tables (f (exams d)) (attempts d) (certificates d) (outbox d)).
Definition set_attempts (f : gmap uuid Attempt → gmap uuid Attempt) : world → world :=
  set_db (λ d, Tables (exams d) (f (attempts d)) (certificates d) (outbox d)).
Definition add_certificate (c : Certificate) : world → world :=
  set_db (λ d, Tables (exams d) (attempts d) (certificates d ++ [c]) (outbox d)).
Definition enqueue_event (u : uuid) (event ref : string) : world → world :=
  set_db (λ d, Tables (exams d) (attempts d) (certificates d) (outbox d ++ [(u, event, ref)])).
Definition set_accounts (a : Accounts.world) (w : world) : world := World (db w) a (clock w).

(** [get_session]: commit or roll back, this database only. *)
Definition transaction {A} (m : M A) : M A := λ w,
  match m w with
  | (Ok a, w') => (Ok a, w')
  | (Raise e, w') => (Raise e, set_db (λ _, db w) w')
  end.

(** ** Creating *)
Definition total_score (qs : list Question) : Z := sumZ q_score qs.

(** The validators of [ExamCreate] and [QuestionCreate] on what is modelled. *)
Definition valid_question (q : Question) : bool :=
  bool_decide (1 ≤ String.length (q_answer q) ≤ 200) && bool_decide (1 ≤ q_score q)%Z.

Definition ExamCreate (e : Exam) : bool :=
  bool_decide (type_ e = "exam"%string ∨ type_ e = "competition"%string)
  && bool_decide (1 ≤ pass_score e)%Z && bool_decide (1 ≤ time_limit_min e)%Z
  && match unlock_level e with
     | None => true
     | Some l => bool_decide (l = "local" ∨ l = "normal" ∨ l = "admin")%string
     end
  && match starts_at e, ends_at e with Some s, Some t => bool_decide (s < t)%Z | _, _ => true end
  && bool_decide (questions e ≠ []) && bool_decide (pass_score e ≤ total_score (questions e))%Z
  && forallb valid_question (questions e).

(** The primary keys of [exams] and [exam_questions]. *)
Definition question_ids (d : gmap uuid Exam) : list uuid :=
  map_to_list d ≫= λ ke, q_id <$> questions ke.2.

Definition insert_exam (new : uuid) (e : Exam) : M () :=
  w ← get_state;
  raise_when (bool_decide (is_Some (exams (db w) !! new))) IntegrityError ≫= λ _,
  raise_when (negb (bool_decide (NoDup (q_id <$> questions e)))
              || existsb (λ q, bool_decide (q_id q ∈ question_ids (exams (db w)))) (questions e)) IntegrityError ≫= λ _,
  modify (set_exams <[new := e]>).

(** [sort_order=idx]; [is_published] keeps its default. *)
Definition create_exam_ex (new : uuid) (info : Exam) : M () :=
  raise_when (negb (ExamCreate info)) INVALID_INPUT ≫= λ _,
  raise_when (negb (int32 (pass_score info) && int32 (time_limit_min info) && forallb (λ q, int32 (q_score q)) (questions info)))
    DataError ≫= λ _,
  insert_exam new
    (MkExam (title info) (type_ info) (pass_score info) (time_limit_min info) false (unlock_level info) (unlock_role info)
      (starts_at info) (ends_at info)
      (imap (λ idx q, MkQuestion (q_id q) (q_answer q) (q_score q) (Z.of_nat idx)) (questions info))).

(** ** The seed *)
Record _CertExamSpec := MkSpec {
  s_title : string;
  s_pass_score : Z;
  s_time_limit_min : Z;
  s_unlock_level : option string;
  s_unlock_role : option string;
  s_questions : list (string * Z)            (* answer, score *)
}.

Definition _CERT_EXAMS : list _CertExamSpec :=
  [ MkSpec "初级通识考试" 60 10 (Some "normal") None [("T", 20); ("B", 20); ("F", 20); ("A", 20)];
    MkSpec "专业基础考试（数学）" 60 20 None (Some "columnist") [("B", 20); ("A", 20); ("F", 20)];
    MkSpec "专业深度考试（数学）" 70 30 None (Some "author") [("B", 25); ("A", 25); ("F", 25)] ]%Z%string.

(** The exam of a specification; [sort_order] keeps its default. *)
Definition seeded (s : _CertExamSpec) (qids : nat → uuid) : Exam :=
  MkExam (s_title s) "exam" (s_pass_score s) (s_time_limit_min s) true (s_unlock_level s) (s_unlock_role s) None None
    (imap (λ i q, MkQuestion (qids i) q.1 q.2 0) (s_questions s)).

Definition title_exists (t : string) (d : tables) : bool :=
  existsb (λ ke, bool_decide (title ke.2 = t)) (map_to_list (exams d)).

(** One specification, with the fresh ids of the exam and of its questions. *)
Definition seed_exam (spec : _CertExamSpec) (new : uuid) (qids : nat → uuid) : M () :=
  w ← get_state;
  if title_exists (s_title spec) (db w) then mret tt else insert_exam new (seeded spec qids).

Definition seed_exams (new : nat → uuid) (qids : nat → nat → uuid) : M () :=
  for_each (imap pair _CERT_EXAMS) (λ ispec, seed_exam ispec.2 (new ispec.1) (qids ispec.1)).

(** ** Grading *)
Definition to_upper (c : ascii) : ascii :=
  let n := N_of_ascii c in if decide (97 ≤ n ≤ 122)%N then ascii_of_N (n - 32) else c.

Fixpoint upper (s : string) : string :=
  match s with EmptyString => EmptyString | String c r => String (to_upper c) (upper r) end.

Definition is_correct (answers : gmap uuid string) (q : Question) : bool :=
  match answers !! q_id q with
  | None => false
  | Some a => bool_decide (upper (strip a) = upper (strip (q_answer q)))
  end.

Definition _score_attempt (e : Exam) (answers : gmap uuid string) : Z :=
  sumZ (λ q, if is_correct answers q then q_score q else 0%Z) (questions e).

(** ** Attempts *)
Definition truthy (s : option string) : bool := Accounts.truthy s.
Definition unlocks (e : Exam) : bool := truthy (unlock_level e) || truthy (unlock_role e).

Definition _check_window (e : Exam) : M () :=
  w ← get_state;
  raise_when (match starts_at e with Some s => bool_decide (clock w < s)%Z | None => false end) EXAM_NOT_OPEN ≫= λ _,
  raise_when (match ends_at e with Some t => bool_decide (t < clock w)%Z | None => false end) EXAM_NOT_OPEN.

Definition minutes : Z := 60000000.

Definition _check_attempt_deadline (a : Attempt) (e : Exam) : M () :=
  if bool_decide (time_limit_min e = 0)%Z || bool_decide (is_Some (starts_at e)) || bool_decide (is_Some (ends_at e))
  then mret tt
  else
    w ← get_state;
    raise_when (bool_decide (started_at a + time_limit_min e * minutes < clock w)%Z) EXAM_NOT_OPEN.

Definition passed_exists (exam user : uuid) (d : tables) : bool :=
  existsb (λ c, bool_decide (c_exam c = exam ∧ c_user c = user ∧ c_passed c = true)) (certificates d).

Definition start_attempt (new exam user : uuid) : M uuid :=
  w ← get_state;
  e ← get_or_raise (exams (db w) !! exam) EXAM_NOT_FOUND;
  raise_when (negb (is_published e)) EXAM_NOT_PUBLISHED ≫= λ _,
  _check_window e ≫= λ _,
  raise_when (unlocks e && passed_exists exam user (db w)) EXAM_ALREADY_PASSED ≫= λ _,
  raise_when (bool_decide (is_Some (attempts (db w) !! new))) IntegrityError ≫= λ _,
  modify (λ w, set_attempts <[new := MkAttempt exam user false ∅ 0 false (clock w)]> w) ≫= λ _,
  mret new.

(** The level the route asks for ([RequireLevel("normal")]). *)
Definition _LEVEL_ORDER (l : string) : Z :=
  default 0%Z (dict_get l [("local", 0); ("normal", 1); ("admin", 2)]%Z%string).

Definition start_exam_attempt (new exam : uuid) (cur : CurrentUser) : M uuid :=
  raise_when (bool_decide (_LEVEL_ORDER (account_level cur) < _LEVEL_ORDER "normal")%Z) ACCOUNT_LEVEL_INSUFFICIENT ≫= λ _,
  start_attempt new exam (id cur).

(** [grant_via_seam]: the auth service may not be reached, or its answer may not
    arrive. An error of its own is no answer either. *)
Inductive delivery := Unreached | Reached (answered : bool) (cache : option Z).

Definition grant_via_seam (SSD : list SeparationConstraint) (u : uuid) (level role : option string) (how : delivery) : M () :=
  match how with
  | Unreached => raise RuntimeError
  | Reached answered cache => λ w,
      let '(o, a) := Accounts.transaction (Accounts.grant_exam_unlock SSD u level role cache) (accounts w) in
      let w := set_accounts a w in
      match o with
      | Ok _ => if answered then (Ok tt, w) else (Raise RuntimeError, w)
      | Raise _ => (Raise RuntimeError, w)
      end
  end.

Definition _apply_unlock (SSD : list SeparationConstraint) (e : Exam) (u : uuid) (how : delivery) : M () :=
  if unlocks e then grant_via_seam SSD u (unlock_level e) (unlock_role e) how else mret tt.

(** The fresh values of a submission. *)
Record fresh := MkFresh { new_cert : uuid; new_cert_no : string }.

(** Reading and checking. *)
Definition check_submission (attempt user : uuid) : M (Attempt * Exam) :=
  w ← get_state;
  a ← get_or_raise (attempts (db w) !! attempt) ATTEMPT_NOT_FOUND;
  raise_when (bool_decide (a_user a ≠ user)) FORBIDDEN ≫= λ _,
  raise_when (submitted a) ATTEMPT_ALREADY_SUBMITTED ≫= λ _,
  e ← get_or_raise (exams (db w) !! a_exam a) EXAM_NOT_FOUND;
  _check_window e ≫= λ _,
  _check_attempt_deadline a e ≫= λ _,
  raise_when (unlocks e && passed_exists (a_exam a) user (db w)) EXAM_ALREADY_PASSED ≫= λ _,
  mret (a, e).

Definition certificate_ref (c : uuid) : string := "cert:" +:+ uuid_str c.

(** Grading, recording and what a pass brings. *)
Definition record_submission (SSD : list SeparationConstraint) (attempt user : uuid) (answers : gmap uuid string)
    (f : fresh) (how : delivery) (ae : Attempt * Exam) : M (Z * bool) :=
  let '(a, e) := ae in
  let score := _score_attempt e answers in
  let passed := bool_decide (pass_score e ≤ score)%Z in
  raise_when (negb (int32 score)) DataError ≫= λ _,
  modify (set_attempts (alter (λ a, MkAttempt (a_exam a) (a_user a) true answers score passed (started_at a)) attempt)) ≫= λ _,
  (if passed then
     w ← get_state;
     raise_when (existsb (λ c, bool_decide (c_id c = new_cert f ∨ cert_no c = new_cert_no f)) (certificates (db w)))
       IntegrityError ≫= λ _,
     modify (λ w, add_certificate (MkCertificate (new_cert f) (a_exam a) user score true (new_cert_no f) (clock w)) w) ≫= λ _,
     _apply_unlock SSD e user how ≫= λ _,
     modify (enqueue_event user "competition" (certificate_ref (new_cert f)))
   else mret tt) ≫= λ _,
  mret (score, passed).

Definition submit_attempt (SSD : list SeparationConstraint) (attempt user : uuid) (answers : gmap uuid string)
    (f : fresh) (how : delivery) : M (Z * bool) :=
  check_submission attempt user ≫= record_submission SSD attempt user answers f how.

(** ** The leaderboard *)
Definition by_score (a b : Certificate) : Prop :=
  (c_score b < c_score a)%Z ∨ c_score a = c_score b ∧ (issued_at a ≤ issued_at b)%Z.

#[export] Instance by_score_dec : RelDecision by_score.
Proof. intros a b. unfold by_score. apply _. Defined.

Definition list_for_exam (exam : uuid) (d : tables) : list Certificate :=
  merge_sort by_score (filter (λ c, c_exam c = exam) (certificates d)).

(** The first certificate of each user, in order. *)
Fixpoint first_of_each (seen : gset uuid) (cs : list Certificate) : list Certificate :=
  match cs with
  | [] => []
  | c :: cs => if decide (c_user c ∈ seen) then first_of_each seen cs
               else c :: first_of_each ({[ c_user c ]} ∪ seen) cs
  end.

Definition winners (exam : uuid) (d : tables) : list Certificate :=
  merge_sort by_score (first_of_each ∅ (list_for_exam exam d)).

Definition leaderboard (exam : uuid) (offset limit : nat) : M (list (uuid * Z) * nat) :=
  w ← get_state;
  e ← get_or_raise (exams (db w) !! exam) EXAM_NOT_FOUND;
  if decide (type_ e ≠ "competition"%string) then mret ([], 0) else
  let ws := winners exam (db w) in
  mret ((λ c, (c_user c, c_score c)) <$> take limit (drop offset ws), length ws).

(** [has_normal_certification]: what the content module asks before a post. *)
Definition has_normal_certification (user : uuid) (d : tables) : bool :=
  existsb (λ c, bool_decide (c_user c = user ∧ c_passed c = true)
    && match exams d !! c_exam c with
       | Some e => bool_decide (type_ e = "exam"%string ∧ unlock_level e = Some "normal"%string)
       | None => false
       end) (certificates d).

(** ** Operations in sequence *)
Inductive op :=
  | Seed (new : nat → uuid) (qids : nat → nat → uuid)
  | Create (new : uuid) (info : Exam)
  | Start (new exam : uuid) (cur : CurrentUser)
  | Submit (attempt user : uuid) (answers : gmap uuid string) (f : fresh) (how : delivery).

Definition ignore {A} (m : M A) : M () := _ ← m; mret tt.

Definition run_op (SSD : list SeparationConstraint) (o : op) : M () :=
  transaction
    match o with
    | Seed new qids => seed_exams new qids
    | Create new info => create_exam_ex new info
    | Start new exam cur => ignore (start_exam_attempt new exam cur)
    | Submit attempt user answers f how => ignore (submit_attempt SSD attempt user answers f how)
    end.

Inductive step (SSD : list SeparationConstraint) (w : world) : world → Prop :=
  | step_op o : step SSD w (run_op SSD o w).2
  | step_world a t : (clock w ≤ t)%Z → step SSD w (World (db w) a t).

(** ** Grading *)
Lemma score_bounds e answers :
  (∀ q, q ∈ questions e → 0 ≤ q_score q)%Z → (0 ≤ _score_attempt e answers ≤ total_score (questions e))%Z.
Proof.
  unfold _score_attempt, total_score. induction (questions e) as [|q qs IH]; intros Hq; [simpl; lia|]. simpl.
  assert (0 ≤ q_score q)%Z by (apply Hq; left). specialize (IH (λ x Hx, Hq x (list_elem_of_further _ _ _ Hx))).
  destruct (is_correct answers q); lia.
Qed.

(** The key: every question with its own answer. *)
Definition answer_key (e : Exam) : gmap uuid string := list_to_map ((λ q, (q_id q, q_answer q)) <$> questions e).

Lemma key_scores e : NoDup (q_id <$> questions e) → _score_attempt e (answer_key e) = total_score (questions e).
Proof.
  intros Hn. unfold _score_attempt, total_score. apply sumZ_ext. intros q Hq.
  enough (answer_key e !! q_id q = Some (q_answer q)) as Hk.
  { unfold is_correct. rewrite Hk. by rewrite bool_decide_true. }
  unfold answer_key. apply elem_of_list_to_map.
  - rewrite <- list_fmap_compose. exact Hn.
  - apply list_elem_of_fmap. by exists q.
Qed.

(** ** The books *)
Record wf_exam (e : Exam) : Prop := {
  wf_ids : NoDup (q_id <$> questions e);
  wf_scores : ∀ q, q ∈ questions e → (1 ≤ q_score q)%Z;
  wf_pass : (1 ≤ pass_score e ≤ total_score (questions e))%Z;
  wf_published : is_published e = true → ∃ s qids, s ∈ _CERT_EXAMS ∧ e = seeded s qids
}.

Definition graded (e : Exam) (a : Attempt) : Prop :=
  if submitted a
  then a_score a = _score_attempt e (a_answers a) ∧ a_passed a = bool_decide (pass_score e ≤ a_score a)%Z
  else a_answers a = ∅ ∧ a_score a = 0%Z ∧ a_passed a = false.

Definition passes (m : gmap uuid Attempt) : list (uuid * uuid * Z) :=
  (λ a, (a_exam a, a_user a, a_score a)) <$> filter (λ a, a_passed a = true) (snd <$> map_to_list m).

Definition announcement (c : Certificate) : uuid * string * string :=
  (c_user c, "competition"%string, certificate_ref (c_id c)).

Record books (d : tables) : Prop := {
  b_exams : ∀ k e, exams d !! k = Some e → wf_exam e;
  b_attempts : ∀ k a, attempts d !! k = Some a →
    ∃ e, exams d !! a_exam a = Some e ∧ is_published e = true ∧ graded e a;
  b_earned : (λ c, (c_exam c, c_user c, c_score c)) <$> certificates d ≡ₚ passes (attempts d);
  b_valid : ∀ c, c ∈ certificates d → c_passed c = true;
  b_ids : NoDup (c_id <$> certificates d);
  b_numbers : NoDup (cert_no <$> certificates d);
  b_announced : outbox d = announcement <$> certificates d;
  b_once : ∀ i j c c' e, certificates d !! i = Some c → certificates d !! j = Some c' →
    c_exam c' = c_exam c → c_user c' = c_user c → exams d !! c_exam c = Some e → unlocks e = true → i = j
}.

(** What later operations leave alone. *)
Record evolves (d d' : tables) : Prop := {
  ev_exams : exams d ⊆ exams d';
  ev_certs : certificates d `prefix_of` certificates d';
  ev_outbox : outbox d `prefix_of` outbox d';
  ev_attempts : ∀ k a, attempts d !! k = Some a →
    ∃ a', attempts d' !! k = Some a' ∧ a_exam a' = a_exam a ∧ a_user a' = a_user a ∧ started_at a' = started_at a
      ∧ (submitted a = true → a' = a)
}.

#[export] Instance evolves_preorder : PreOrder evolves.
Proof.
  split.
  - intros d. split; [done|done|done|]. intros k a Ha. by exists a.
  - intros x y z [A1 B1 C1 D1] [A2 B2 C2 D2]. split; [by etrans..|].
    intros k a Ha. destruct (D1 k a Ha) as (a1 & H1 & E1 & U1 & S1 & K1).
    destruct (D2 k a1 H1) as (a2 & H2 & E2 & U2 & S2 & K2). exists a2. split_and!; [done|congruence..|].
    intros Hs. specialize (K1 Hs) as ->. auto.
Qed.

(** A certificate stands for a passed attempt at an exam that exists. *)
Lemma cert_attempt d c :
  books d → c ∈ certificates d →
  ∃ k a e, attempts d !! k = Some a ∧ a_exam a = c_exam c ∧ a_user a = c_user c ∧ a_score a = c_score c
    ∧ a_passed a = true ∧ exams d !! c_exam c = Some e.
Proof.
  intros B Hc.
  assert (Hp : (c_exam c, c_user c, c_score c) ∈ passes (attempts d)).
  { rewrite <- (b_earned d B). apply list_elem_of_fmap. by exists c. }
  apply list_elem_of_fmap in Hp as (a & He & Ha). apply list_elem_of_filter in Ha as [Hpass Ha].
  apply list_elem_of_fmap in Ha as ([k a'] & -> & Ha). apply elem_of_map_to_list in Ha. cbn [snd] in *.
  injection He as H1 H2 H3. destruct (b_attempts d B k a' Ha) as (e & Hx & _ & _).
  exists k, a', e. rewrite <- H1 in Hx. by split_and!.
Qed.

Lemma wf_seeded s qids : s ∈ _CERT_EXAMS → NoDup (q_id <$> questions (seeded s qids)) → wf_exam (seeded s qids).
Proof.
  intros Hs Hn.
  assert (H : (∀ q, q ∈ questions (seeded s qids) → 1 ≤ q_score q)%Z
            ∧ (1 ≤ pass_score (seeded s qids) ≤ total_score (questions (seeded s qids)))%Z).
  { repeat (apply elem_of_cons in Hs as [->|Hs];
      [split; [intros q Hq; cbn in Hq; repeat (apply elem_of_cons in Hq as [->|Hq]; [cbn; lia|]); by apply elem_of_nil in Hq
              |cbn; lia]|]). by apply elem_of_nil in Hs. }
  split; [done|apply H|apply H|]. intros _. by exists s, qids.
Qed.

Lemma books_insert_exam d new e :
  books d → exams d !! new = None → wf_exam e →
  let d' := Tables (<[new := e]> (exams d)) (attempts d) (certificates d) (outbox d) in
  books d' ∧ evolves d d'.
Proof.
  intros B Hn Hw d'. split; [split|split]; unfold d'; cbn [exams attempts certificates outbox]; try apply B.
  - intros k x. destruct (decide (k = new)) as [->|Hk].
    + rewrite lookup_insert_eq. intros [= <-]. done.
    + rewrite lookup_insert_ne by done. apply B.
  - intros k a Ha. destruct (b_attempts d B k a Ha) as (x & Hx & Hp & Hg). exists x. split; [|done].
    rewrite lookup_insert_ne; [done|congruence].
  - intros i j c c' x Hi Hj He Hu. destruct (cert_attempt d c B (list_elem_of_lookup_2 _ _ _ Hi)) as (_ & _ & y & _ & _ & _ & _ & _ & Hy).
    rewrite lookup_insert_ne by congruence. by eapply (b_once d B).
  - by apply insert_subseteq.
  - done.
  - done.
  - intros k a Ha. by exists a.
Qed.

Lemma passes_insert_new (m : gmap uuid Attempt) k a :
  m !! k = None → a_passed a = false → passes (<[k := a]> m) ≡ₚ passes m.
Proof.
  intros Hk Ha. unfold passes. rewrite (map_to_list_insert _ _ _ Hk). cbn [fmap list_fmap snd].
  rewrite filter_cons_False; [done|]. by rewrite Ha.
Qed.

(** A submission: an attempt that had not passed is replaced. *)
Lemma passes_submit (m : gmap uuid Attempt) k a a' :
  m !! k = Some a → a_passed a = false →
  passes (<[k := a']> m) ≡ₚ (if a_passed a' then [(a_exam a', a_user a', a_score a')] else []) ++ passes m.
Proof.
  intros Hk Ha. unfold passes.
  rewrite <- (insert_delete_eq m k a'), (map_to_list_insert _ _ _ (lookup_delete_eq _ _)).
  rewrite <- (insert_delete_id m k a Hk) at 2. rewrite (map_to_list_insert _ _ _ (lookup_delete_eq _ _)).
  cbn [fmap list_fmap snd]. rewrite (filter_cons_False _ a) by (by rewrite Ha).
  rewrite filter_cons. by destruct (a_passed a').
Qed.

(** ** Every operation keeps the books *)
Definition kept (d : tables) (w : world) : Prop := books (db w) ∧ evolves d (db w).

Lemma kept_insert_exam d new e w :
  kept d w → (NoDup (q_id <$> questions e) → wf_exam e) →
  wp (insert_exam new e) (λ _, kept d) (λ _ _, True) w.
Proof.
  intros [B V] Hw. unfold insert_exam. apply wp_bind, wp_get_state. apply wp_bind, wp_raise_when; [done|].
  intros Hn. apply wp_bind, wp_raise_when; [done|]. intros [Hq _]%orb_false_iff.
  apply negb_false_iff, bool_decide_eq_true in Hq. apply bool_decide_eq_false, eq_None_not_Some in Hn.
  apply wp_modify. destruct (books_insert_exam (db w) new e B Hn (Hw Hq)) as [B' V']. split; [done|by etrans].
Qed.

Lemma kept_seed d new qids w : kept d w → wp (seed_exams new qids) (λ _, kept d) (λ _ _, True) w.
Proof.
  intros K. unfold seed_exams. apply (wp_for_each _ _ (kept d)); [|done].
  intros [i s] w1 Hi K1. unfold seed_exam. cbn [fst snd]. apply wp_bind, wp_get_state.
  destruct (title_exists _ _); [by apply wp_ret|].
  apply kept_insert_exam; [done|]. apply wf_seeded. apply elem_of_lookup_imap in Hi as (j & y & [= _ ->] & Hy).
  by apply list_elem_of_lookup_2 in Hy.
Qed.

Lemma imap_order_fmap {A} (f : Question → A) (qs : list Question) :
  (∀ q n, f (MkQuestion (q_id q) (q_answer q) (q_score q) n) = f q) →
  f <$> imap (λ idx q, MkQuestion (q_id q) (q_answer q) (q_score q) (Z.of_nat idx)) qs = f <$> qs.
Proof.
  intros Hf. rewrite fmap_imap. rewrite <- (imap_const f qs). apply imap_ext. intros i q _. apply Hf.
Qed.

Lemma sumZ_fmap {A} (f : A → Z) l : sumZ f l = foldr Z.add 0%Z (f <$> l).
Proof. induction l as [|x l IH]; [done|]. simpl. by rewrite IH. Qed.

Lemma kept_create d new info w : kept d w → wp (create_exam_ex new info) (λ _, kept d) (λ _ _, True) w.
Proof.
  intros K. unfold create_exam_ex. apply wp_bind, wp_raise_when; [done|]. intros Hv%negb_false_iff.
  apply wp_bind, wp_raise_when; [done|]. intros _. apply kept_insert_exam; [done|].
  unfold ExamCreate in Hv. rewrite !andb_true_iff, !bool_decide_eq_true in Hv.
  destruct Hv as [[[[[[[_ Hp] _] _] _] _] Ht] Hq]. rewrite forallb_forall in Hq.
  intros Hn. split; cbn [questions pass_score is_published]; [done| |split; [done|]|done].
  - intros q Hin. assert (Hs : q_score q ∈ q_score <$> questions info).
    { rewrite <- (imap_order_fmap q_score) by done. apply list_elem_of_fmap. by exists q. }
    apply list_elem_of_fmap in Hs as (q0 & -> & H0). specialize (Hq q0 (proj1 (list_elem_of_In _ _) H0)).
    unfold valid_question in Hq. rewrite andb_true_iff, !bool_decide_eq_true in Hq. apply Hq.
  - unfold total_score in *. rewrite sumZ_fmap, imap_order_fmap by done. by rewrite <- sumZ_fmap.
Qed.

(** The two checks of time, as conditions. *)
Definition in_window (now : Z) (e : Exam) : bool :=
  match starts_at e with Some s => bool_decide (s ≤ now)%Z | None => true end
  && match ends_at e with Some t => bool_decide (now ≤ t)%Z | None => true end.

Definition in_time (now : Z) (a : Attempt) (e : Exam) : bool :=
  bool_decide (time_limit_min e = 0)%Z || bool_decide (is_Some (starts_at e)) || bool_decide (is_Some (ends_at e))
  || bool_decide (now ≤ started_at a + time_limit_min e * minutes)%Z.

Lemma check_window_run {B} e (f : () → M B) w :
  (_check_window e ≫= f) w = if in_window (clock w) e then f tt w else (Raise EXAM_NOT_OPEN, w).
Proof.
  unfold _check_window, in_window. rewrite bind_assoc, run_get_state, bind_assoc, run_raise_when.
  destruct (starts_at e) as [s|]; [case_bool_decide; [rewrite bool_decide_false by lia; done|rewrite bool_decide_true by lia]|];
    cbn [andb]; rewrite run_raise_when; (destruct (ends_at e) as [t|];
      [case_bool_decide; [rewrite bool_decide_false by lia|rewrite bool_decide_true by lia]; done|done]).
Qed.

Lemma check_deadline_run {B} a e (f : () → M B) w :
  (_check_attempt_deadline a e ≫= f) w = if in_time (clock w) a e then f tt w else (Raise EXAM_NOT_OPEN, w).
Proof.
  unfold _check_attempt_deadline, in_time. destruct (_ || _ || _); cbn [orb]; [done|].
  rewrite bind_assoc, run_get_state, run_raise_when.
  case_bool_decide; [rewrite bool_decide_false by lia|rewrite bool_decide_true by lia]; done.
Qed.

Lemma wp_check_window {B} e (f : () → M B) Q (R : err → world → Prop) w :
  (∀ x, R x w) → wp (f tt) Q R w → wp (_check_window e ≫= f) Q R w.
Proof. intros HR Hf. unfold wp. rewrite check_window_run. by destruct (in_window _ _). Qed.

Lemma wp_check_deadline {B} a e (f : () → M B) Q (R : err → world → Prop) w :
  (∀ x, R x w) → wp (f tt) Q R w → wp (_check_attempt_deadline a e ≫= f) Q R w.
Proof. intros HR Hf. unfold wp. rewrite check_deadline_run. by destruct (in_time _ _ _). Qed.

Lemma kept_start d new exam user w : kept d w → wp (start_attempt new exam user) (λ _, kept d) (λ _ _, True) w.
Proof.
  intros K. unfold start_attempt. apply wp_bind, wp_get_state. apply wp_bind, wp_get_or_raise; [done|]. intros e He.
  apply wp_bind, wp_raise_when; [done|]. intros Hp%negb_false_iff.
  apply wp_check_window; [done|]. apply wp_bind, wp_raise_when; [done|]. intros _.
  apply wp_bind, wp_raise_when; [done|]. intros Hn%bool_decide_eq_false%eq_None_not_Some.
  apply wp_bind, wp_modify, wp_ret. destruct K as [B V].
  split; [split|split]; cbn; try apply B; try apply V.
  - intros k a. destruct (decide (k = new)) as [->|Hk].
    + rewrite lookup_insert_eq. intros [= <-]. exists e. by split_and!.
    + rewrite lookup_insert_ne by done. apply B.
  - rewrite (b_earned _ B). symmetry. by apply passes_insert_new.
  - intros k a Ha. destruct (ev_attempts _ _ V k a Ha) as (a' & Ha' & H). exists a'. split; [|done].
    rewrite lookup_insert_ne; [done|congruence].
Qed.

(** ** Submitting *)
Definition submittable (w : world) (attempt user : uuid) : outcome err (Attempt * Exam) :=
  match attempts (db w) !! attempt with
  | None => Raise ATTEMPT_NOT_FOUND
  | Some a =>
      if decide (a_user a ≠ user) then Raise FORBIDDEN else
      if submitted a then Raise ATTEMPT_ALREADY_SUBMITTED else
      match exams (db w) !! a_exam a with
      | None => Raise EXAM_NOT_FOUND
      | Some e =>
          if negb (in_window (clock w) e && in_time (clock w) a e) then Raise EXAM_NOT_OPEN else
          if unlocks e && passed_exists (a_exam a) user (db w) then Raise EXAM_ALREADY_PASSED else Ok (a, e)
      end
  end.

Lemma check_submission_run attempt user w : check_submission attempt user w = (submittable w attempt user, w).
Proof.
  unfold check_submission, submittable. rewrite run_get_state, run_get_or_raise.
  destruct (attempts (db w) !! attempt) as [a|]; [|done]. rewrite run_raise_when.
  destruct (decide (a_user a ≠ user)) as [Hu|Hu]; [by rewrite bool_decide_true|]. rewrite bool_decide_false by done.
  rewrite run_raise_when. destruct (submitted a); [done|]. rewrite run_get_or_raise.
  destruct (exams (db w) !! a_exam a) as [e|]; [|done]. rewrite check_window_run.
  destruct (in_window (clock w) e); [|done]. rewrite check_deadline_run. destruct (in_time (clock w) a e); [|done].
  rewrite run_raise_when. by destruct (unlocks e && _).
Qed.

Lemma submittable_ok w attempt user a e :
  submittable w attempt user = Ok (a, e) →
  attempts (db w) !! attempt = Some a ∧ a_user a = user ∧ submitted a = false ∧ exams (db w) !! a_exam a = Some e
  ∧ in_window (clock w) e = true ∧ in_time (clock w) a e = true ∧ unlocks e && passed_exists (a_exam a) user (db w) = false.
Proof.
  unfold submittable. destruct (attempts (db w) !! attempt) as [b|]; [|done].
  destruct (decide _) as [|Hu%dec_stable]; [done|]. destruct (submitted b) eqn:Hs; [done|].
  destruct (exams (db w) !! a_exam b) as [x|] eqn:Hx; [|done]. destruct (negb _) eqn:Ht; [done|].
  apply negb_false_iff, andb_true_iff in Ht as [? ?]. destruct (unlocks x && _) eqn:Hp; [done|]. intros [= -> ->]. done.
Qed.

(** The unlocking touches the accounts only. *)
Definition unlock_done (SSD : list SeparationConstraint) (e : Exam) (u : uuid) (how : delivery) (w w' : world) : Prop :=
  if unlocks e
  then ∃ cache n, how = Reached true cache
       ∧ Accounts.transaction (Accounts.grant_exam_unlock SSD u (unlock_level e) (unlock_role e) cache) (accounts w)
         = (Ok n, accounts w')
  else accounts w' = accounts w.

Definition unlock_refused (SSD : list SeparationConstraint) (e : Exam) (u : uuid) (how : delivery) (w : world) : Prop :=
  unlocks e = true
  ∧ match how with
    | Unreached | Reached false _ => True
    | Reached true cache =>
        ∃ x, (Accounts.transaction (Accounts.grant_exam_unlock SSD u (unlock_level e) (unlock_role e) cache) (accounts w)).1
             = Raise x
    end.

Lemma unlock_run SSD e u how w :
  let '(o, w') := _apply_unlock SSD e u how w in
  db w' = db w ∧ clock w' = clock w
  ∧ match o with Ok _ => unlock_done SSD e u how w w' | Raise x => x = RuntimeError ∧ unlock_refused SSD e u how w end.
Proof.
  unfold _apply_unlock, unlock_done, unlock_refused. destruct (unlocks e); [|done].
  destruct how as [|answered cache]; [done|]. unfold grant_via_seam.
  destruct (Accounts.transaction _ _) as [[n|x] a] eqn:Hg.
  - destruct answered; [|done]. split_and!; [done..|]. by exists cache, n.
  - split_and!; [done..|]. destruct answered; [|done]. by exists x.
Qed.

Section record.
Context (SSD : list SeparationConstraint) (attempt user : uuid) (answers : gmap uuid string) (f : fresh) (how : delivery).

Definition graded_attempt (a : Attempt) (e : Exam) : Attempt :=
  MkAttempt (a_exam a) (a_user a) true answers (_score_attempt e answers)
    (bool_decide (pass_score e ≤ _score_attempt e answers)%Z) (started_at a).

Definition certificate (a : Attempt) (e : Exam) (now : Z) : Certificate :=
  MkCertificate (new_cert f) (a_exam a) user (_score_attempt e answers) true (new_cert_no f) now.

Definition cert_taken (d : tables) : Prop :=
  ∃ c, c ∈ certificates d ∧ (c_id c = new_cert f ∨ cert_no c = new_cert_no f).

(** The tables after a submission. *)
Definition after_submission (a : Attempt) (e : Exam) (w : world) : tables :=
  let d := db w in
  let c := if a_passed (graded_attempt a e) then [certificate a e (clock w)] else [] in
  Tables (exams d) (<[attempt := graded_attempt a e]> (attempts d)) (certificates d ++ c)
    (outbox d ++ (announcement <$> c)).

Lemma record_run (a : Attempt) (e : Exam) (w : world) :
  attempts (db w) !! attempt = Some a →
  let score := _score_attempt e answers in
  let passed := bool_decide (pass_score e ≤ score)%Z in
  match record_submission SSD attempt user answers f how (a, e) w with
  | (Ok r, w') => r = (score, passed) ∧ db w' = after_submission a e w ∧ clock w' = clock w
      ∧ (if passed then ¬ cert_taken (db w) ∧ unlock_done SSD e user how w w' else accounts w' = accounts w)
  | (Raise x, w') =>
      x = DataError ∧ int32 score = false ∨ passed = true ∧ (x = IntegrityError ∧ cert_taken (db w)
      ∨ x = RuntimeError ∧ unlock_refused SSD e user how w)
  end.
Proof.
  intros Ha score passed. unfold record_submission. fold score. fold passed. rewrite run_raise_when.
  destruct (int32 score) eqn:Hi; cbn [negb]; [|by left]. rewrite run_modify.
  set (w1 := set_attempts _ w).
  assert (H1 : attempts (db w1) = <[attempt := graded_attempt a e]> (attempts (db w))).
  { unfold w1. cbn. by rewrite (alter_as_insert _ _ _ a Ha). }
  destruct passed eqn:Hp.
  - unfold passed, score in Hp. rewrite bind_assoc, run_get_state, bind_assoc, run_raise_when. change (certificates (db w1)) with (certificates (db w)).
    destruct (existsb _ _) eqn:Hx.
    { right. split; [done|]. left. split; [done|]. apply existsb_exists in Hx as (c & Hc & Hb).
      apply list_elem_of_In in Hc. apply bool_decide_eq_true in Hb. by exists c. }
    rewrite bind_assoc, run_modify, bind_assoc. set (w2 := add_certificate _ w1).
    pose proof (unlock_run SSD e user how w2) as Hu. unfold mbind at 1, prog_bind at 1.
    destruct (_apply_unlock SSD e user how w2) as [[[]|x] w3]; destruct Hu as (Hd & Hc & Hu).
    + rewrite run_modify. split; [done|]. split; [|split; [done|split]].
      * unfold after_submission. cbn [graded_attempt a_passed]. rewrite Hp. cbn. rewrite Hd. cbn. f_equal; exact H1.
      * intros (c & Hin & Hb). rewrite <- not_true_iff_false in Hx. apply Hx, existsb_exists. exists c.
        split; [by apply list_elem_of_In|]. by apply bool_decide_eq_true.
      * exact Hu.
    + destruct Hu as [-> Hr]. right. split; [done|]. right. split; [done|]. exact Hr.
  - split; [done|]. split; [|done]. unfold after_submission. cbn [graded_attempt a_passed].
    unfold passed, score in Hp. rewrite Hp. cbn.
    rewrite !app_nil_r. f_equal. exact H1.
Qed.
End record.

Lemma passed_exists_true exam user d c :
  c ∈ certificates d → c_exam c = exam → c_user c = user → c_passed c = true → passed_exists exam user d = true.
Proof.
  intros Hc He Hu Hp. apply existsb_exists. exists c. split; [by apply list_elem_of_In|]. by apply bool_decide_eq_true.
Qed.

(** At most one certificate stays so when the new one is the first of its user. *)
Lemma once_snoc d c :
  books d → (∀ e, exams d !! c_exam c = Some e → unlocks e = true → passed_exists (c_exam c) (c_user c) d = false) →
  ∀ i j x y e, (certificates d ++ [c]) !! i = Some x → (certificates d ++ [c]) !! j = Some y →
    c_exam y = c_exam x → c_user y = c_user x → exams d !! c_exam x = Some e → unlocks e = true → i = j.
Proof.
  intros B Hnew i j x y e Hi Hj He Hu Hx Hul.
  assert (Hold : ∀ k z, certificates d !! k = Some z → c_exam z = c_exam c → c_user z = c_user c →
    exams d !! c_exam c = Some e → False).
  { intros k z Hz H1 H2 H3. apply list_elem_of_lookup_2 in Hz.
    specialize (Hnew e H3 Hul). by rewrite (passed_exists_true _ _ d z Hz H1 H2 (b_valid d B z Hz)) in Hnew. }
  apply lookup_app_Some in Hi as [Hi|[Hi1 Hi]], Hj as [Hj|[Hj1 Hj]];
    try (apply list_lookup_singleton_Some in Hi as [? <-]); try (apply list_lookup_singleton_Some in Hj as [? <-]).
  - by eapply (b_once d B).
  - exfalso. apply (Hold i x); [done..|]. by rewrite He.
  - exfalso. by apply (Hold j y).
  - lia.
Qed.

Section after.
Context (attempt user : uuid) (answers : gmap uuid string) (f : fresh).

Lemma books_after (a : Attempt) (e : Exam) (w : world) :
  books (db w) → submittable w attempt user = Ok (a, e) →
  (bool_decide (pass_score e ≤ _score_attempt e answers)%Z = true → ¬ cert_taken f (db w)) →
  books (after_submission attempt user answers f a e w) ∧ evolves (db w) (after_submission attempt user answers f a e w).
Proof.
  intros B Hs Hfresh. destruct (submittable_ok w attempt user a e Hs) as (Ha & Hu & Hsub & He & _ & _ & Hpe).
  assert (Hpa : a_passed a = false).
  { destruct (b_attempts _ B _ _ Ha) as (x & _ & _ & Hg). unfold graded in Hg. rewrite Hsub in Hg. apply Hg. }
  unfold after_submission. set (c := certificate user answers f a e (clock w)). split.
  2: { split; cbn; [done|by apply prefix_app_r|by apply prefix_app_r|]. intros k b Hb.
       destruct (decide (k = attempt)) as [->|Hk].
       - rewrite lookup_insert_eq. exists (graded_attempt answers a e). rewrite Ha in Hb. injection Hb as <-.
         split_and!; [done..|]. intros. congruence.
       - rewrite lookup_insert_ne by done. by exists b. }
  assert (Hdup : a_passed (graded_attempt answers a e) = true →
    (c_id c ∉ (c_id <$> certificates (db w))) ∧ (cert_no c ∉ (cert_no <$> certificates (db w)))).
  { intros Hp. specialize (Hfresh Hp). split; intros (x & Hx & Hin)%list_elem_of_fmap; apply Hfresh; exists x; auto. }
  split; cbn [exams attempts certificates outbox].
  - apply B.
  - intros k b. destruct (decide (k = attempt)) as [->|Hk]; [|rewrite lookup_insert_ne by done; apply B].
    rewrite lookup_insert_eq. intros [= <-]. destruct (b_attempts _ B _ _ Ha) as (x & Hx & Hp & _).
    rewrite He in Hx. injection Hx as <-. exists e. by split_and!.
  - rewrite fmap_app, (b_earned _ B), (passes_submit _ attempt a _ Ha Hpa), Permutation_app_comm.
    apply Permutation_app_tail. destruct (a_passed (graded_attempt answers a e)); [|done]. cbn. by rewrite <- Hu.
  - intros x [Hx|Hx]%elem_of_app; [by apply B|]. destruct (a_passed (graded_attempt answers a e)); set_solver.
  - destruct (a_passed (graded_attempt answers a e)); [|rewrite app_nil_r; apply B]. destruct (Hdup eq_refl) as [H1 _].
    rewrite fmap_app. apply NoDup_app. split_and!; [apply B| |apply NoDup_singleton].
    intros x Hx. cbn. rewrite list_elem_of_singleton. intros ->. done.
  - destruct (a_passed (graded_attempt answers a e)); [|rewrite app_nil_r; apply B]. destruct (Hdup eq_refl) as [_ H1].
    rewrite fmap_app. apply NoDup_app. split_and!; [apply B| |apply NoDup_singleton].
    intros x Hx. cbn. rewrite list_elem_of_singleton. intros ->. done.
  - by rewrite fmap_app, <- (b_announced _ B).
  - destruct (a_passed (graded_attempt answers a e)); [|rewrite app_nil_r; apply B]. apply once_snoc; [done|].
    cbn. intros x Hx Hul. rewrite He in Hx. injection Hx as <-. by rewrite Hul in Hpe.
Qed.

Lemma kept_submit SSD how d w :
  kept d w → wp (submit_attempt SSD attempt user answers f how) (λ _, kept d) (λ _ _, True) w.
Proof.
  intros [B V]. unfold submit_attempt. apply wp_bind. unfold wp at 1. rewrite check_submission_run.
  destruct (submittable w attempt user) as [[a e]|x] eqn:Hs; [|done].
  destruct (submittable_ok w attempt user a e Hs) as (Ha & _).
  unfold wp. pose proof (record_run SSD attempt user answers f how a e w Ha) as H. cbv zeta in H.
  destruct (record_submission _ _ _ _ _ _ _ w) as [[r|x] w']; [|done]. destruct H as (_ & Hd & _ & Hp).
  assert (Hfresh : bool_decide (pass_score e ≤ _score_attempt e answers)%Z = true → ¬ cert_taken f (db w)).
  { intros Hb. rewrite Hb in Hp. apply Hp. }
  destruct (books_after a e w B Hs Hfresh) as [B' V']. unfold kept. rewrite Hd. split; [done|by etrans].
Qed.
End after.

Lemma kept_op SSD o d w : kept d w → kept d (run_op SSD o w).2.
Proof.
  intros K. unfold run_op.
  assert (Htx : ∀ A (m : M A), wp m (λ _, kept d) (λ _ _, True) w → kept d (transaction m w).2).
  { intros A m H. unfold transaction, wp in *. by destruct (m w) as [[v|x] w']. }
  assert (Hig : ∀ A (m : M A), wp m (λ _, kept d) (λ _ _, True) w → wp (ignore m) (λ _, kept d) (λ _ _, True) w).
  { intros A m H. apply wp_bind. eapply wp_mono; [exact H| |done]. done. }
  apply Htx. destruct o as [new qids|new info|new exam cur|attempt user answers f how].
  - by apply kept_seed.
  - by apply kept_create.
  - apply Hig. unfold start_exam_attempt. apply wp_bind, wp_raise_when; [done|]. intros _. by apply kept_start.
  - apply Hig. by apply kept_submit.
Qed.

Lemma kept_step SSD d w w' : kept d w → step SSD w w' → kept d w'.
Proof. intros K [o|a t _]; [by apply kept_op|done]. Qed.

Definition no_tables : tables := Tables ∅ ∅ [] [].

Lemma books_empty : books no_tables.
Proof. split; cbn; try done; try set_solver. all: constructor. Qed.

Lemma normal_certification_spec d user :
  books d →
  has_normal_certification user d = true ↔
  ∃ k a e, attempts d !! k = Some a ∧ a_user a = user ∧ a_passed a = true ∧ exams d !! a_exam a = Some e
    ∧ type_ e = "exam"%string ∧ unlock_level e = Some "normal"%string.
Proof.
  intros B. unfold has_normal_certification. rewrite existsb_exists. split.
  - intros (c & Hc & Hb). apply list_elem_of_In in Hc. apply andb_true_iff in Hb as [[Hu _]%bool_decide_eq_true Hb].
    destruct (cert_attempt d c B Hc) as (k & a & e & Ha & He & Hau & _ & Hp & Hx). rewrite Hx in Hb.
    apply bool_decide_eq_true in Hb as [? ?]. exists k, a, e. rewrite He. split_and!; congruence.
  - intros (k & a & e & Ha & Hu & Hp & He & Ht & Hl).
    assert (Hin : (a_exam a, a_user a, a_score a) ∈ (λ c, (c_exam c, c_user c, c_score c)) <$> certificates d).
    { rewrite (b_earned d B). apply list_elem_of_fmap. exists a. split; [done|]. apply list_elem_of_filter. split; [done|].
      apply list_elem_of_fmap. exists (k, a). split; [done|]. by apply elem_of_map_to_list. }
    apply list_elem_of_fmap in Hin as (c & [= H1 H2 _] & Hc). exists c. split; [by apply list_elem_of_In|].
    rewrite <- H1, He. apply andb_true_iff. split; apply bool_decide_eq_true; [|done]. split; [congruence|]. by apply B.
Qed.

(** C21: Certificates are earned. In every state that seeding, creating,
    starting and submitting reach from empty tables (each committed or rolled
    back): an attempt is at a published exam, and once submitted its score is
    the grade of its answers and it passed exactly when the score reaches the
    pass mark; certificates correspond one to one to passed attempts, with
    distinct ids and numbers; exactly one points event per certificate was
    enqueued, in order; an exam that unlocks something gives a user at most one
    certificate. Nothing of it is taken back later: exams, certificates, events
    and submitted attempts stay as they are. Every exam can be passed, by its
    own answers. [has_normal_certification] holds for exactly the users with a
    passed attempt at an exam that unlocks the normal level. *)
Theorem certificates_are_earned (SSD : list SeparationConstraint) (w0 w w' : world)
    (H0 : db w0 = no_tables) (Hr : rtc (step SSD) w0 w) (Hr' : rtc (step SSD) w w') :
  books (db w) ∧ evolves (db w) (db w')
  ∧ (∀ k e, exams (db w) !! k = Some e →
       (pass_score e ≤ _score_attempt e (answer_key e))%Z
       ∧ ∀ answers, (0 ≤ _score_attempt e answers ≤ _score_attempt e (answer_key e))%Z)
  ∧ ∀ user, has_normal_certification user (db w) = true ↔
       ∃ k a e, attempts (db w) !! k = Some a ∧ a_user a = user ∧ a_passed a = true
         ∧ exams (db w) !! a_exam a = Some e ∧ type_ e = "exam"%string ∧ unlock_level e = Some "normal"%string.
Proof.
  assert (Hinv : ∀ d x y, rtc (step SSD) x y → kept d x → kept d y).
  { intros d x y H. induction H as [|x y z Hs _ IH]; [done|]. intros K. apply IH. by eapply kept_step. }
  assert (B : books (db w)).
  { apply (Hinv (db w0) w0 w Hr). rewrite H0. split; [rewrite H0; apply books_empty|by rewrite H0]. }
  split; [done|]. split; [by apply (Hinv (db w) w w' Hr')|]. split; [|intros; by apply normal_certification_spec].
  intros k e He. pose proof (b_exams _ B k e He) as W. rewrite key_scores by apply W. split; [apply W|].
  intros answers. apply score_bounds. intros q Hq. pose proof (wf_scores e W q Hq). lia.
Qed.

(** ** Refusals and effects of a submission *)

(** Submitting, on every branch. It is refused, leaving everything as it was,
    in this order: unknown attempt, somebody else's, already submitted, exam
    gone, outside the window or the time allowed, already passed an exam that
    unlocks something. Otherwise the answers are graded. A grade outside its
    column, a certificate id or number already taken, or an unlocking that is
    not confirmed roll the exam's tables back. Else the attempt is recorded; and
    exactly when it reaches the pass mark a certificate and its points event are
    added, and, for an exam that unlocks, the account service has committed the
    upgrade: an account with a profile then has at least the level and (among
    the ranked roles) the role that the exam unlocks. *)
Theorem submit_attempt_correct (SSD : list SeparationConstraint) (attempt user : uuid) (answers : gmap uuid string)
    (f : fresh) (how : delivery) (w : world) :
  let r := transaction (submit_attempt SSD attempt user answers f how) w in
  match submittable w attempt user with
  | Raise x => r = (Raise x, w)
  | Ok (a, e) =>
      let score := _score_attempt e answers in
      let passed := bool_decide (pass_score e ≤ score)%Z in
      match r with
      | (Ok res, w') => res = (score, passed) ∧ db w' = after_submission attempt user answers f a e w
          ∧ (if passed
             then ¬ cert_taken f (db w) ∧ unlock_done SSD e user how w w'
               ∧ (unlocks e = true → ∀ x, Accounts.user_of user (accounts w) = Some x →
                    is_Some (Accounts.profiles (Accounts.db (accounts w)) !! user) →
                    Accounts.reached user (unlock_level e) (unlock_role e) (accounts w) (accounts w'))
             else accounts w' = accounts w)
      | (Raise x, w') => db w' = db w
          ∧ (x = DataError ∧ int32 score = false
             ∨ passed = true ∧ (x = IntegrityError ∧ cert_taken f (db w)
             ∨ x = RuntimeError ∧ unlock_refused SSD e user how w))
      end
  end.
Proof.
  cbv zeta. unfold submit_attempt, transaction. unfold mbind, prog_bind. rewrite check_submission_run.
  destruct (submittable w attempt user) as [[a e]|x] eqn:Hs; [|by destruct w].
  destruct (submittable_ok w attempt user a e Hs) as (Ha & _).
  pose proof (record_run SSD attempt user answers f how a e w Ha) as H. cbv zeta in H.
  destruct (record_submission _ _ _ _ _ _ _ w) as [[r|x] w']; [|done].
  destruct H as (-> & Hd & _ & Hp). split; [done|]. split; [done|]. case_bool_decide; [|done].
  destruct Hp as [Hn Hu]. split; [done|]. split; [done|]. intros Hul x Hx Hprof. unfold unlock_done in Hu. rewrite Hul in Hu.
  destruct Hu as (cache & n & _ & Hg).
  pose proof (Accounts.unlock_reached SSD user (unlock_level e) (unlock_role e) cache (accounts w) x Hx Hprof) as Hre.
  unfold Accounts.transaction in Hg. destruct (Accounts.grant_exam_unlock _ _ _ _ _ _) as [[m|y] v]; [|done].
  by injection Hg as _ <-.
Qed.

(** ** The leaderboard *)
#[export] Instance by_score_trans : Transitive by_score.
Proof. intros a b c. unfold by_score. lia. Qed.

#[export] Instance by_score_total : Total by_score.
Proof. intros a b. unfold by_score. lia. Qed.

Lemma first_of_each_elem cs seen c : c ∈ first_of_each seen cs → c ∈ cs ∧ c_user c ∉ seen.
Proof.
  revert seen. induction cs as [|x cs IH]; intros seen; simpl; [by intros ?%elem_of_nil|].
  destruct (decide (c_user x ∈ seen)) as [Hs|Hs].
  - intros [? ?]%IH. split; [by right|done].
  - rewrite elem_of_cons. intros [->|[? ?]%IH]; [split; [left|done]|]. split; [by right|set_solver].
Qed.

Lemma first_of_each_nodup cs seen : NoDup (c_user <$> first_of_each seen cs).
Proof.
  revert seen. induction cs as [|x cs IH]; intros seen; simpl; [constructor|].
  destruct (decide (c_user x ∈ seen)); [apply IH|]. constructor; [|apply IH].
  intros (y & Hy & Hin)%list_elem_of_fmap. apply first_of_each_elem in Hin as [_ Hin]. set_solver.
Qed.

(** In a sorted list the first of each user comes before all of that user's. *)
Lemma first_of_each_best cs seen c :
  StronglySorted by_score cs → c ∈ cs → c_user c ∉ seen →
  ∃ b, b ∈ first_of_each seen cs ∧ c_user b = c_user c ∧ (b = c ∨ by_score b c).
Proof.
  revert seen. induction cs as [|x cs IH]; intros seen Hs; [by intros ?%elem_of_nil|].
  apply StronglySorted_inv in Hs as [Hs Hall]. rewrite elem_of_cons. intros Hc Hu. simpl.
  destruct (decide (c_user x ∈ seen)) as [Hx|Hx].
  - destruct Hc as [->|Hc]; [done|]. by apply IH.
  - destruct (decide (c_user x = c_user c)) as [He|He].
    + exists x. split; [left|]. split; [done|]. destruct Hc as [->|Hc]; [by left|]. right.
      rewrite Forall_forall in Hall. by apply Hall.
    + destruct Hc as [->|Hc]; [done|]. destruct (IH ({[c_user x]} ∪ seen)) as (b & Hb & H); [done|done|set_solver|].
      exists b. split; [by right|done].
Qed.

Definition of_exam (exam : uuid) (d : tables) (c : Certificate) : Prop := c ∈ certificates d ∧ c_exam c = exam.

Lemma elem_of_list_for_exam exam d c : c ∈ list_for_exam exam d ↔ of_exam exam d c.
Proof. unfold list_for_exam, of_exam. rewrite merge_sort_Permutation, list_elem_of_filter. tauto. Qed.

Lemma nodup_same (l : list Certificate) b c :
  NoDup (c_user <$> l) → b ∈ l → c ∈ l → c_user b = c_user c → b = c.
Proof.
  intros Hn Hb Hc Hu. apply list_elem_of_lookup_1 in Hb as [i Hi]. apply list_elem_of_lookup_1 in Hc as [j Hj].
  assert (i = j) as ->; [|congruence].
  eapply (NoDup_lookup _ i j); [exact Hn| |]; rewrite list_lookup_fmap; [by rewrite Hi|by rewrite Hj, Hu].
Qed.

(** The leaderboard of a competition is one list, the same whatever page is
    asked for: every user with a certificate of it exactly once, by a best one
    of theirs (no other has a higher score, nor the same score issued earlier),
    ordered by score and then by date. A page is its slice, the total its
    length. Other exams have an empty board and unknown ones are refused;
    nothing is written. *)
Theorem leaderboard_correct (exam : uuid) (w : world) :
  (exams (db w) !! exam = None → ∀ offset limit, leaderboard exam offset limit w = (Raise EXAM_NOT_FOUND, w))
  ∧ ∀ e, exams (db w) !! exam = Some e →
    if decide (type_ e = "competition"%string)
    then ∃ ws : list Certificate,
      (∀ offset limit, leaderboard exam offset limit w
        = (Ok ((λ c, (c_user c, c_score c)) <$> take limit (drop offset ws), length ws), w))
      ∧ NoDup (c_user <$> ws) ∧ StronglySorted by_score ws
      ∧ (∀ c, of_exam exam (db w) c → ∃ b, b ∈ ws ∧ c_user b = c_user c)
      ∧ (∀ b, b ∈ ws → of_exam exam (db w) b
           ∧ ∀ c, of_exam exam (db w) c → c_user c = c_user b → by_score b c)
    else ∀ offset limit, leaderboard exam offset limit w = (Ok ([], 0), w).
Proof.
  split.
  - intros Hn offset limit. unfold leaderboard. by rewrite run_get_state, run_get_or_raise, Hn.
  - intros e He. assert (Hrun : ∀ offset limit, leaderboard exam offset limit w
      = (if decide (type_ e ≠ "competition"%string) then (Ok ([], 0), w)
         else (Ok ((λ c, (c_user c, c_score c)) <$> take limit (drop offset (winners exam (db w))), length (winners exam (db w))), w))).
    { intros offset limit. unfold leaderboard. rewrite run_get_state, run_get_or_raise, He. by destruct (decide _). }
    destruct (decide (type_ e = _)) as [Ht|Ht].
    2: { intros offset limit. rewrite Hrun. by rewrite decide_True. }
    assert (Hsort : StronglySorted by_score (list_for_exam exam (db w))) by (apply StronglySorted_merge_sort; apply _).
    assert (Hperm : winners exam (db w) ≡ₚ first_of_each ∅ (list_for_exam exam (db w))) by apply merge_sort_Permutation.
    exists (winners exam (db w)). split_and!.
    + intros offset limit. rewrite Hrun. by rewrite decide_False by (intros H; by apply H).
    + rewrite Hperm. apply first_of_each_nodup.
    + (apply StronglySorted_merge_sort; apply _).
    + intros c Hc%elem_of_list_for_exam. destruct (first_of_each_best _ ∅ c Hsort Hc) as (b & Hb & Hu & _); [set_solver|].
      exists b. by rewrite Hperm.
    + intros b. rewrite Hperm. intros Hb. pose proof (first_of_each_elem _ _ _ Hb) as [Hin _].
      split; [by apply elem_of_list_for_exam|]. intros c Hc%elem_of_list_for_exam Hu.
      destruct (first_of_each_best _ ∅ c Hsort Hc) as (b' & Hb' & Hu' & Hbest); [set_solver|].
      assert (b' = b) as ->.
      { apply (nodup_same _ _ _ (first_of_each_nodup _ _) Hb' Hb). congruence. }
      destruct Hbest as [->|?]; [|done]. unfold by_score. lia.
Qed.

(** ** A run *)
Definition run_ops (SSD : list SeparationConstraint) (os : list op) (w : world) : world :=
  fold_left (λ w o, (run_op SSD o w).2) os w.

Lemma run_ops_reach SSD os w : rtc (step SSD) w (run_ops SSD os w).
Proof. revert w. induction os as [|o os IH]; intros w; [done|]. simpl. eapply rtc_l; [apply step_op|apply IH]. Qed.

Definition ada : CurrentUser := Build_CurrentUser Accounts.one_user "normal" "member" None.

Definition first_world : world := World no_tables Accounts.one_account 1000.

Definition a_seed : op := Seed (λ i, uuid_of_N (100 + N.of_nat i)) (λ i j, uuid_of_N (200 + 10 * N.of_nat i + N.of_nat j)).

(** Ada starts the basic exam of mathematics and answers it. *)
Definition a_run : list op :=
  [ a_seed; Start (uuid_of_N 50) (uuid_of_N 101) ada;
    Submit (uuid_of_N 50) Accounts.one_user
      {[ uuid_of_N 210 := "b "%string; uuid_of_N 211 := "A"%string; uuid_of_N 212 := "f"%string ]}
      (MkFresh (uuid_of_N 60) "0123456789abcdef") (Reached true None) ].

Lemma certificates_are_earned_witness :
  (books (db (run_ops [] a_run first_world))
   ∧ evolves (db (run_ops [] a_run first_world)) (db (run_ops [] [a_seed] (run_ops [] a_run first_world)))
   ∧ (∀ k e, exams (db (run_ops [] a_run first_world)) !! k = Some e →
        (pass_score e ≤ _score_attempt e (answer_key e))%Z
        ∧ ∀ answers, (0 ≤ _score_attempt e answers ≤ _score_attempt e (answer_key e))%Z)
   ∧ ∀ user, has_normal_certification user (db (run_ops [] a_run first_world)) = true ↔
        ∃ k a e, attempts (db (run_ops [] a_run first_world)) !! k = Some a ∧ a_user a = user ∧ a_passed a = true
          ∧ exams (db (run_ops [] a_run first_world)) !! a_exam a = Some e ∧ type_ e = "exam"%string
          ∧ unlock_level e = Some "normal"%string)
  ∧ c_score <$> certificates (db (run_ops [] a_run first_world)) = [60%Z]
  ∧ Accounts.profile_role Accounts.one_user (accounts (run_ops [] a_run first_world)) = "columnist"%string.
Proof.
  split; [|split; vm_compute; reflexivity].
  exact (certificates_are_earned [] first_world (run_ops [] a_run first_world) (run_ops [] [a_seed] (run_ops [] a_run first_world))
    eq_refl (run_ops_reach [] a_run first_world) (run_ops_reach [] [a_seed] (run_ops [] a_run first_world))).
Defined.

(** ** What the code does not mean to do *)

(** An exam that was created is not published, nothing publishes it, and so no
    attempt at it can ever be started. *)
Lemma created_exam_never_starts (SSD : list SeparationConstraint) (w w' : world) (exam : uuid) (e : Exam) new cur :
  books (db w) → exams (db w) !! exam = Some e → is_published e = false → rtc (step SSD) w w' →
  (_LEVEL_ORDER "normal" ≤ _LEVEL_ORDER (account_level cur))%Z →
  start_exam_attempt new exam cur w' = (Raise EXAM_NOT_PUBLISHED, w').
Proof.
  intros B He Hp Hr Hl.
  assert (K : kept (db w) w').
  { assert (K0 : kept (db w) w) by done. clear He. revert B K0. generalize (db w) at 2 3. intros d B K0.
    induction Hr as [x|x y z Hs _ IH]; [done|].
    assert (K1 := kept_step SSD d x y K0 Hs). apply IH; [apply K1|done]. }
  destruct K as [_ V]. assert (He' := lookup_weaken _ _ _ _ He (ev_exams _ _ V)).
  unfold start_exam_attempt. rewrite run_raise_when, bool_decide_false by lia.
  unfold start_attempt. rewrite run_get_state, run_get_or_raise, He'. by rewrite run_raise_when, Hp.
Qed.

(** The level that the first exam unlocks is the level the route asks for. *)
Lemma local_users_start_nothing new exam cur w :
  account_level cur = "local"%string → start_exam_attempt new exam cur w = (Raise ACCOUNT_LEVEL_INSUFFICIENT, w).
Proof. intros Hl. unfold start_exam_attempt. by rewrite run_raise_when, Hl. Qed.

(** Two submissions of one attempt that both check before either commits both
    succeed, with two certificates and two points events. *)
Lemma submission_race (SSD : list SeparationConstraint) attempt user answers f g a e (w : world) :
  submittable w attempt user = Ok (a, e) → unlocks e = false →
  (pass_score e ≤ _score_attempt e answers)%Z → int32 (_score_attempt e answers) = true →
  ¬ cert_taken f (db w) → ¬ cert_taken g (db w) → new_cert f ≠ new_cert g → new_cert_no f ≠ new_cert_no g →
  ∃ w1 w2 r,
    transaction (record_submission SSD attempt user answers f Unreached (a, e)) w = (Ok r, w1)
    ∧ transaction (record_submission SSD attempt user answers g Unreached (a, e)) w1 = (Ok r, w2)
    ∧ outbox (db w2) = outbox (db w) ++ [(user, "competition"%string, certificate_ref (new_cert f));
                                       (user, "competition"%string, certificate_ref (new_cert g))].
Proof.
  intros Hs Hul Hpass Hi Hf Hg Hne1 Hne2. destruct (submittable_ok _ _ _ _ _ Hs) as (Ha & _).
  assert (Hrun : ∀ h b (v : world), attempts (db v) !! attempt = Some b →
    ¬ cert_taken h (db v) → ∃ v' r,
      transaction (record_submission SSD attempt user answers h Unreached (a, e)) v = (Ok r, v')
      ∧ r = (_score_attempt e answers, true) ∧ is_Some (attempts (db v') !! attempt)
      ∧ certificates (db v') = certificates (db v) ++ [certificate user answers h a e (clock v)]
      ∧ outbox (db v') = outbox (db v) ++ [(user, "competition"%string, certificate_ref (new_cert h))]).
  { intros h b v Hb Hn. unfold record_submission, transaction. rewrite run_raise_when, Hi. cbn [negb].
    rewrite run_modify. rewrite (bool_decide_true _ Hpass). rewrite bind_assoc, run_get_state, bind_assoc, run_raise_when.
    change (certificates (db (set_attempts _ v))) with (certificates (db v)).
    destruct (existsb _ _) eqn:Hx.
    - exfalso. apply Hn. apply existsb_exists in Hx as (c & Hc & Hd). apply list_elem_of_In in Hc.
      apply bool_decide_eq_true in Hd. by exists c.
    - rewrite bind_assoc, run_modify, bind_assoc. unfold _apply_unlock. rewrite Hul.
      rewrite bind_left_id, run_modify. eexists _, _. split; [reflexivity|]. split; [done|].
      split; [|done]. cbn. rewrite lookup_alter_eq, Hb. by eexists. }
  destruct (Hrun f a w Ha Hf) as (w1 & r & Hr1 & -> & [b Hb] & Hc1 & Ho1).
  assert (Hg1 : ¬ cert_taken g (db w1)).
  { intros (c & Hc & Hd). rewrite Hc1 in Hc. apply elem_of_app in Hc as [Hc|Hc]; [by apply Hg; exists c|].
    apply list_elem_of_singleton in Hc as ->. cbn in Hd. destruct Hd; congruence. }
  destruct (Hrun g b w1 Hb Hg1) as (w2 & r & Hr2 & -> & _ & _ & Ho2).
  exists w1, w2, (_score_attempt e answers, true). split; [done|]. split; [done|]. by rewrite Ho2, Ho1, <- app_assoc.
Qed.
