(* ===== verification/Files.v ===== *)
(** * The file library

    Model of [app/modules/files]: uploading (through the service, and directly
    to the object store with a confirmation), the numbering of documents and
    their versions, review, deletion, serving, and the jobs that back up and
    archive ([service.py], [repository.py], [retention.py], [tasks.py]).

    Content is addressed by its SHA3 hash; rows of the library share one object.
    The rows live in the database, which a failed request rolls back; the object
    store, the archive and the backups are not rolled back. The locks that the
    code takes on a document and on a hash are held until the transaction ends,
    so a request is one step here. Any call of the object store may fail. *)

From S2P Require Import Prelude Roles Permissions.

Inductive FileStatus := PENDING | APPROVED | REJECTED | DELETED.

#[export] Instance FileStatus_eq_dec : EqDecision FileStatus.
Proof. solve_decision. Defined.

(** The text [WL-SYBG-<year>-<number>]. *)
Record DocumentCode := MkCode { dc_year : Z; dc_number : Z }.

#[export] Instance DocumentCode_eq_dec : EqDecision DocumentCode.
Proof. solve_decision. Defined.

Record LibraryFile := MkFile {
  uploader_id : uuid;
  original_name : string;
  sha3_hash : option string;
  ref_count : Z;
  mime_type : string;
  size_ : Z;
  category_id : string;
  document_code : option DocumentCode;
  version : Z;
  root_file_id : option uuid;
  classification : string;
  project_id : option uuid;
  archived : bool;                             (* archive_state: active or archived *)
  backed_up_at : option Z;
  description : string;
  status : FileStatus;
  review_comment : option string;
  download_count : Z;
  view_count : Z;
  created_at : Z
}.

(** [FileCreate]; also the metadata of a direct upload. *)
Record FileCreate := MkCreate {
  c_name : string;
  c_mime : string;
  c_category : string;
  c_description : string;
  c_classification : string;
  c_project : option uuid;
  c_version_of : option uuid
}.

Record UploadSession := MkSession { s_uploader : uuid; storage_key : string; meta : FileCreate; s_created : Z }.

(** What is put into the outbox and into the audit log. *)
Inductive message :=
  | PointsEvent (u : uuid) (event ref : string)
  | FileChanged (f : uuid).

Record tables := Tables {
  files : gmap uuid LibraryFile;
  sessions : gmap string UploadSession;
  outbox : list message;
  audit : list (option uuid * uuid * FileStatus)
}.

Record world := World {
  db : tables;
  objects : gmap string string;                (* the object store, by key *)
  archive : gmap string string;                (* [files_archive_dir], by hash *)
  backups : gmap string string;                (* [files_backup_dir], by hash *)
  applicants : gmap uuid uuid;                 (* [projects.applicant_id] *)
  members : gset (uuid * uuid);                (* [project_members]: project, user *)
  clock : Z
}.

Abbreviation M := (prog world err).

(** SHA3-256 in hexadecimal, and the screening of an upload ([process_upload]:
    the virus scanner, the converter), which may refuse it or make a preview. *)
Class Outside := {
  sha3_256 : string → string;
  process_upload : string → string → string → outcome err (option string)   (* name, description, content *)
}.

Class OutsideLaws `{Outside} : Prop := { sha3_length c : String.length (sha3_256 c) = 64 }.

Record settings := Settings {
  s3 : bool;                                   (* storage_backend == "s3" *)
  max_upload_bytes : Z;
  backup_dir : bool;
  archive_dir : bool;
  archive_after : Z;
  search_sync : bool
}.

(** Which calls of the stores fail during a request. *)
Record faults := Faults {
  f_exists : bool;
  f_save : bool;
  f_preview : bool;
  f_open : bool;
  f_copy : bool;
  f_archive : bool;
  f_backup : bool;
  f_delete : string → bool
}.

Definition no_faults : faults := Faults false false false false false false false (λ _, false).

(** ** Updates *)
Definition set_db (f : tables → tables) (w : world) : world :=
  World (f (db w)) (objects w) (archive w) (backups w) (applicants w) (members w) (clock w).
Definition set_files (f : gmap uuid LibraryFile → gmap uuid LibraryFile) : world → world :=
  set_db (λ d, Tables (f (files d)) (sessions d) (outbox d) (audit d)).
Definition set_sessions (f : gmap string UploadSession → gmap string UploadSession) : world → world :=
  set_db (λ d, Tables (files d) (f (sessions d)) (outbox d) (audit d)).
Definition send (m : message) : world → world :=
  set_db (λ d, Tables (files d) (sessions d) (outbox d ++ [m]) (audit d)).
Definition record_audit (by_ : option uuid) (f : uuid) (st : FileStatus) : world → world :=
  set_db (λ d, Tables (files d) (sessions d) (outbox d) (audit d ++ [(by_, f, st)])).
Definition set_objects (f : gmap string string → gmap string string) (w : world) : world :=
  World (db w) (f (objects w)) (archive w) (backups w) (applicants w) (members w) (clock w).
Definition set_archive (f : gmap string string → gmap string string) (w : world) : world :=
  World (db w) (objects w) (f (archive w)) (backups w) (applicants w) (members w) (clock w).
Definition set_backups (f : gmap string string → gmap string string) (w : world) : world :=
  World (db w) (objects w) (archive w) (f (backups w)) (applicants w) (members w) (clock w).

Definition with_status (st : FileStatus) (why : option string) (f : LibraryFile) : LibraryFile :=
  MkFile (uploader_id f) (original_name f) (sha3_hash f) (ref_count f) (mime_type f) (size_ f) (category_id f)
    (document_code f) (version f) (root_file_id f) (classification f) (project_id f) (archived f) (backed_up_at f)
    (description f) st why (download_count f) (view_count f) (created_at f).
Definition with_refs (n : Z) (f : LibraryFile) : LibraryFile :=
  MkFile (uploader_id f) (original_name f) (sha3_hash f) n (mime_type f) (size_ f) (category_id f)
    (document_code f) (version f) (root_file_id f) (classification f) (project_id f) (archived f) (backed_up_at f)
    (description f) (status f) (review_comment f) (download_count f) (view_count f) (created_at f).
Definition with_backup (t : Z) (f : LibraryFile) : LibraryFile :=
  MkFile (uploader_id f) (original_name f) (sha3_hash f) (ref_count f) (mime_type f) (size_ f) (category_id f)
    (document_code f) (version f) (root_file_id f) (classification f) (project_id f) (archived f) (Some t)
    (description f) (status f) (review_comment f) (download_count f) (view_count f) (created_at f).
Definition as_archived (f : LibraryFile) : LibraryFile :=
  MkFile (uploader_id f) (original_name f) (sha3_hash f) (ref_count f) (mime_type f) (size_ f) (category_id f)
    (document_code f) (version f) (root_file_id f) (classification f) (project_id f) true (backed_up_at f)
    (description f) (status f) (review_comment f) (download_count f) (view_count f) (created_at f).
Definition with_counts (d v : Z) (f : LibraryFile) : LibraryFile :=
  MkFile (uploader_id f) (original_name f) (sha3_hash f) (ref_count f) (mime_type f) (size_ f) (category_id f)
    (document_code f) (version f) (root_file_id f) (classification f) (project_id f) (archived f) (backed_up_at f)
    (description f) (status f) (review_comment f) d v (created_at f).

(** [get_session]: commit, or roll the database back; [commits]: the commit
    itself succeeds. *)
Definition transaction {A} (commits : bool) (m : M A) : M A := λ w,
  match m w with
  | (Ok a, w') => if commits then (Ok a, w') else (Raise RuntimeError, set_db (λ _, db w) w')
  | (Raise e, w') => (Raise e, set_db (λ _, db w) w')
  end.

(** ** The object store *)
Definition _build_bucket_key (content_hash : string) : string :=
  String.substring 0 2 content_hash +:+ "/" +:+ content_hash.

Definition exists_ (F : faults) (key : string) : M bool :=
  raise_when (f_exists F) STORE_ERROR ≫= λ _, gets (λ w, bool_decide (is_Some (objects w !! key))).

Definition save (F : faults) (key content : string) : M () :=
  raise_when (f_save F) STORE_ERROR ≫= λ _, modify (set_objects <[key := content]>).

Definition open (F : faults) (key : string) : M string :=
  raise_when (f_open F) STORE_ERROR ≫= λ _, w ← get_state; get_or_raise (objects w !! key) NOT_FOUND.

Definition copy (F : faults) (src dest : string) : M () :=
  raise_when (f_copy F) STORE_ERROR ≫= λ _,
  w ← get_state;
  content ← get_or_raise (objects w !! src) NOT_FOUND;
  modify (set_objects <[dest := content]>).

Definition delete_ (F : faults) (key : string) : M () :=
  raise_when (f_delete F key) STORE_ERROR ≫= λ _, modify (set_objects (delete key)).

(** [_safe_delete] *)
Definition _safe_delete (F : faults) (key : string) : M () :=
  if f_delete F key then mret tt else modify (set_objects (delete key)).

(** A preview that cannot be saved is only logged. *)
Definition save_preview (F : faults) (key : string) (preview : option string) : M () :=
  match preview with
  | Some p => if f_preview F then mret tt else modify (set_objects <[key +:+ ".preview.pdf" := p]>)
  | None => mret tt
  end.

(** ** [LibraryFileRepository] *)
Definition is_live (h : string) (f : LibraryFile) : bool :=
  bool_decide (sha3_hash f = Some h) && bool_decide (status f = PENDING ∨ status f = APPROVED).

Definition count_live_by_hash (h : string) (d : tables) : Z :=
  Z.of_nat (size (filter (λ kf, is_live h kf.2 = true) (files d))).

Definition sync_ref_count (h : string) : M () :=
  if decide (h = ""%string) then mret tt else
  modify (λ w, set_files (fmap (λ f, if decide (sha3_hash f = Some h) then with_refs (count_live_by_hash h (db w)) f else f)) w).

Definition numbers (year : Z) (d : tables) : list Z :=
  map_to_list (files d) ≫= λ kf,
    match document_code kf.2 with Some c => if decide (dc_year c = year) then [dc_number c] else [] | None => [] end.

Definition next_document_code (year : Z) : M DocumentCode :=
  w ← get_state;
  let number := (foldr Z.max 0 (numbers year (db w)) + 1)%Z in
  raise_when (negb (int32 number)) DataError ≫= λ _,
  mret (MkCode year number).

Definition of_code (c : DocumentCode) (d : tables) : list (uuid * LibraryFile) :=
  filter (λ kf, document_code kf.2 = Some c) (map_to_list (files d)).

Definition next_version (c : DocumentCode) : M Z :=
  w ← get_state;
  let v := (foldr Z.max 0 (version ∘ snd <$> of_code c (db w)) + 1)%Z in
  raise_when (negb (int32 v)) DataError ≫= λ _,
  mret v.

Definition _increment_counter (f : uuid) (d v : Z) : M Z :=
  w ← get_state;
  x ← get_or_raise (files (db w) !! f) NOT_FOUND;
  raise_when (negb (int32 (download_count x + d) && int32 (view_count x + v))) DataError ≫= λ _,
  modify (set_files (alter (λ x, with_counts (download_count x + d) (view_count x + v) x) f)) ≫= λ _,
  mret (if decide (d = 0)%Z then view_count x + v else download_count x + d)%Z.

(** ** Projects ([app/modules/projects/read_api.py]) *)
Definition is_member (project user : uuid) (w : world) : bool := bool_decide ((project, user) ∈ members w).

Definition can_upload_to_project (project user : uuid) (w : world) : bool :=
  match applicants w !! project with
  | None => false
  | Some a => bool_decide (a = user) || is_member project user w
  end.

(** ** Uploading *)
Record identity := Identity {
  i_code : DocumentCode;
  i_version : Z;
  i_root : option uuid;
  i_classification : string;
  i_project : option uuid;
  i_category : string;
  i_description : string
}.

(** [year]: of the clock. *)
Definition _identity_for_upload (year : Z) (uploader : uuid) (info : FileCreate) : M identity :=
  w ← get_state;
  match c_version_of info with
  | Some p =>
      parent ← get_or_raise (files (db w) !! p) NOT_FOUND;
      raise_when (bool_decide (uploader_id parent ≠ uploader)) NOT_OWNER ≫= λ _,
      raise_when (bool_decide (status parent = DELETED ∨ status parent = REJECTED)) INVALID_STATUS ≫= λ _,
      code ← get_or_raise (document_code parent) INVALID_STATUS;
      v ← next_version code;
      mret (Identity code v (Some (default p (root_file_id parent))) (classification parent) (project_id parent)
              (category_id parent)
              (if decide (c_description info = ""%string) then description parent else c_description info))
  | None =>
      raise_when (match c_project info with
                  | Some p => negb (can_upload_to_project p uploader w)
                  | None => false
                  end) INVALID_PROJECT ≫= λ _,
      code ← next_document_code year;
      mret (Identity code 1 None (c_classification info) (c_project info) (c_category info) (c_description info))
  end.

Section files.
Context `{Outside} (cfg : settings).

(** Inserting the row: the keys and the constraint on (code, version), then the
    root of a first version and the count of references. *)
Definition register_row (new : uuid) (uploader : uuid) (info : FileCreate) (i : identity) (h : string) (total : Z) : M () :=
  w ← get_state;
  raise_when (negb (int32 total)) DataError ≫= λ _,
  raise_when (bool_decide (is_Some (files (db w) !! new))
              || existsb (λ kf, bool_decide (version kf.2 = i_version i)) (of_code (i_code i) (db w))) IntegrityError ≫= λ _,
  modify (λ w, set_files <[new :=
    MkFile uploader (c_name info) (Some h) 1 (c_mime info) total (i_category i) (Some (i_code i)) (i_version i)
      (Some (default new (i_root i))) (i_classification i) (i_project i) false None (i_description i) PENDING None 0 0
      (clock w)]> w) ≫= λ _,
  sync_ref_count h.

Definition screen (name text content : string) : M (option string) := λ w, (process_upload name text content, w).

Definition length_of (content : string) : Z := Z.of_nat (String.length content).

Definition create_file (F : faults) (year : Z) (new uploader : uuid) (info : FileCreate) (content : string) : M uuid :=
  raise_when (bool_decide (max_upload_bytes cfg < length_of content)%Z) TOO_LARGE ≫= λ _,
  preview ← screen (c_name info) (c_description info) content;
  i ← _identity_for_upload year uploader info;
  let h := sha3_256 content in
  let key := _build_bucket_key h in
  present ← exists_ F key;
  (if (present : bool) then mret tt else save F key content) ≫= λ _,
  save_preview F key preview ≫= λ _,
  register_row new uploader info i h (length_of content) ≫= λ _,
  mret new.

(** ** Direct uploads *)
Definition upload_key (upload_id : string) : string := "up/" +:+ upload_id.

(** [uuid4().hex] *)
Definition uuid_hex (u : uuid) : string := hex 32 (uuid_int u).

Definition upload_init (fresh : uuid) (info : FileCreate) (cur : CurrentUser) : M (option string) :=
  if negb (s3 cfg) then mret None else
  let upload_id := uuid_hex fresh in
  w ← get_state;
  raise_when (bool_decide (is_Some (sessions (db w) !! upload_id))) IntegrityError ≫= λ _,
  modify (λ w, set_sessions <[upload_id := MkSession (id cur) (upload_key upload_id) info (clock w)]> w) ≫= λ _,
  mret (Some upload_id).

Definition _hash_from_storage (F : faults) (key : string) : M (Z * string) :=
  content ← open F key;
  if decide (max_upload_bytes cfg < length_of content)%Z
  then _safe_delete F key ≫= λ _, raise TOO_LARGE
  else mret (length_of content, sha3_256 content).

Definition _process_storage_upload (F : faults) (key : string) (m : FileCreate) : M (option string) :=
  content ← open F key;
  screen (c_name m) (c_description m) content.

(** What the holder of the upload address puts there meanwhile. *)
Definition client_put (key : string) (content : option string) : M () :=
  match content with Some c => modify (set_objects <[key := c]>) | None => mret tt end.

(** [overwritten]: what is put under the key between the hashing and the copy. *)
Definition _register_from_upload (F : faults) (year : Z) (new uploader : uuid) (key : string) (m : FileCreate)
    (overwritten : option string) : M uuid :=
  present ← exists_ F key;
  raise_when (negb present) UPLOAD_NOT_FOUND ≫= λ _,
  th ← _hash_from_storage F key;
  let '(total, h) := th in
  preview ← _process_storage_upload F key m;
  let hash_key := _build_bucket_key h in
  i ← _identity_for_upload year uploader m;
  client_put key overwritten ≫= λ _,
  known ← exists_ F hash_key;
  (if (known : bool) then mret tt else copy F key hash_key) ≫= λ _,
  save_preview F hash_key preview ≫= λ _,
  register_row new uploader m i h total ≫= λ _,
  _safe_delete F key ≫= λ _,
  mret new.

(** [DELETE ... RETURNING] *)
Definition claim (upload_id : string) (uploader : option uuid) : M (option UploadSession) :=
  w ← get_state;
  match sessions (db w) !! upload_id with
  | Some s =>
      if decide (default (s_uploader s) uploader = s_uploader s)
      then modify (set_sessions (delete upload_id)) ≫= λ _, mret (Some s)
      else mret None
  | None => mret None
  end.

Definition confirm_upload (F : faults) (year : Z) (new : uuid) (upload_id : string) (cur : CurrentUser)
    (overwritten : option string) : M uuid :=
  s ← claim upload_id (Some (id cur));
  s ← get_or_raise s UPLOAD_EXPIRED;
  _register_from_upload F year new (s_uploader s) (storage_key s) (meta s) overwritten.

(** The task of the bucket notification: its savepoint is the whole transaction. *)
Definition notify_upload (F : faults) (year : Z) (new : uuid) (upload_id : string) (overwritten : option string) : M () :=
  s ← claim upload_id None;
  match s with
  | None => mret tt
  | Some s => _ ← _register_from_upload F year new (s_uploader s) (storage_key s) (meta s) overwritten; mret tt
  end.

(** ** Review and deletion *)
Definition _enqueue_file_change (f : uuid) : M () :=
  if search_sync cfg then modify (send (FileChanged f)) else mret tt.

Definition variants : list string := [".thumb.webp"; ".medium.webp"; ".preview.pdf"; ""]%string.

Definition delete_archive (F : faults) (h : string) : M () :=
  if negb (archive_dir cfg) then mret tt else
  raise_when (f_archive F) RuntimeError ≫= λ _, modify (set_archive (delete h)).

Definition _delete_content_variants (F : faults) (h : string) : M () :=
  for_each variants (λ suffix, delete_ F (_build_bucket_key h +:+ suffix)) ≫= λ _,
  delete_archive F h.

(** [_copy_verified] into one of the two directories. *)
Definition _copy_verified (F : faults) (key h : string) (there : world → gmap string string)
    (put : string → world → world) : M () :=
  w ← get_state;
  match there w !! h with
  | Some c => raise_when (bool_decide (sha3_256 c ≠ h)) STORE_ERROR
  | None =>
      content ← open F key;
      raise_when (bool_decide (sha3_256 content ≠ h)) STORE_ERROR ≫= λ _,
      modify (put content)
  end.

Definition backup_file (F : faults) (key h : string) : M () :=
  if negb (backup_dir cfg) then mret tt else
  raise_when (f_backup F) RuntimeError ≫= λ _,
  _copy_verified F key h backups (λ c, set_backups <[h := c]>).

Definition archive_file (F : faults) (key h : string) : M () :=
  if negb (archive_dir cfg) then mret tt else
  raise_when (f_archive F) RuntimeError ≫= λ _,
  _copy_verified F key h archive (λ c, set_archive <[h := c]>).

Definition newer_version (a b : uuid * LibraryFile) : Prop := (version b.2 ≤ version a.2)%Z.

#[export] Instance newer_version_dec : RelDecision newer_version.
Proof. intros a b. unfold newer_version. apply _. Defined.

(** The approved versions of a document other than [f]. *)
Definition superseded (f : uuid) (code : option DocumentCode) (d : tables) : list uuid :=
  match code with
  | None => []
  | Some c => fst <$> filter (λ kf, kf.1 ≠ f ∧ status kf.2 = APPROVED)
                        (merge_sort newer_version (of_code c d))
  end.

Definition announce_change (f : uuid) (code : option DocumentCode) : M () :=
  _enqueue_file_change f ≫= λ _,
  w ← get_state;
  for_each (superseded f code (db w)) _enqueue_file_change.

Definition set_status (f : uuid) (st : FileStatus) (why : option string) : M () :=
  modify (set_files (alter (with_status st why) f)).

Definition file_ref (f : uuid) : string := "file:" +:+ uuid_str f.

Definition review_file (F : faults) (f : uuid) (target : FileStatus) (why : option string) (is_admin : bool)
    (reviewer : option uuid) : M () :=
  raise_when (negb is_admin) STORE_ERROR ≫= λ _,
  raise_when (negb (bool_decide (target = APPROVED ∨ target = REJECTED))) INVALID_STATUS ≫= λ _,
  w ← get_state;
  x ← get_or_raise (files (db w) !! f) NOT_FOUND;
  raise_when (bool_decide (status x ≠ PENDING)) NOT_PENDING ≫= λ _,
  set_status f target why ≫= λ _,
  (match target, sha3_hash x with
   | REJECTED, Some h =>
       if decide (h = ""%string) then mret tt else
       sync_ref_count h ≫= λ _,
       w ← get_state;
       if decide (count_live_by_hash h (db w) = 0)%Z then _delete_content_variants F h else mret tt
   | _, _ => mret tt
   end) ≫= λ _,
  (match target with
   | APPROVED =>
       (match sha3_hash x with
        | Some h =>
            if decide (h = ""%string) then mret tt else
            backup_file F (_build_bucket_key h) h ≫= λ _,
            if backup_dir cfg then modify (λ w, set_files (alter (with_backup (clock w)) f) w) else mret tt
        | None => mret tt
        end) ≫= λ _,
       modify (send (PointsEvent (uploader_id x) "file_approved" (file_ref f))) ≫= λ _,
       announce_change f (document_code x)
   | _ => mret tt
   end) ≫= λ _,
  modify (record_audit reviewer f target).

Definition delete_file (F : faults) (f actor : uuid) (is_admin : bool) : M () :=
  w ← get_state;
  x ← get_or_raise (files (db w) !! f) NOT_FOUND;
  raise_when (negb is_admin && bool_decide (uploader_id x ≠ actor)) STORE_ERROR ≫= λ _,
  if decide (status x = DELETED) then mret tt else
  set_status f DELETED (review_comment x) ≫= λ _,
  announce_change f (document_code x) ≫= λ _,
  match sha3_hash x with
  | Some h =>
      if decide (h = ""%string) then mret tt else
      w ← get_state;
      let remaining := count_live_by_hash h (db w) in
      sync_ref_count h ≫= λ _,
      if decide (remaining ≤ 0)%Z then _delete_content_variants F h else mret tt
  | None => mret tt
  end.

(** ** Reading *)
Definition visible (w : world) (x : LibraryFile) (viewer : option CurrentUser) : bool :=
  match viewer with
  | Some v => bool_decide (account_level v = "admin"%string) || bool_decide (uploader_id x = id v)
  | None => false
  end
  || bool_decide (status x = APPROVED)
     && (bool_decide (classification x = "public"%string)
         || match viewer with
            | None => false
            | Some v => bool_decide (classification x = "internal"%string)
                || match project_id x with Some p => is_member p (id v) w | None => false end
            end).

Definition _require_visible (x : LibraryFile) (viewer : option CurrentUser) : M () :=
  w ← get_state; raise_when (negb (visible w x viewer)) NOT_FOUND.

Definition get_file (f : uuid) (bump : bool) (viewer : option CurrentUser) (enforce : bool) : M LibraryFile :=
  w ← get_state;
  x ← get_or_raise (files (db w) !! f) NOT_FOUND;
  (if enforce then _require_visible x viewer else mret tt) ≫= λ _,
  if bump then n ← _increment_counter f 0 1; mret (with_counts (download_count x) n x) else mret x.

(** [_page_conditions] without the filters on category and status. *)
Definition has_newer_approved (d : tables) (x : LibraryFile) : bool :=
  existsb (λ kf, bool_decide (document_code kf.2 = document_code x ∧ is_Some (document_code x))
                 && bool_decide (version x < version kf.2)%Z && bool_decide (status kf.2 = APPROVED))
    (map_to_list (files d)).

Definition _page_conditions (w : world) (viewer : option CurrentUser) (enforce : bool) (x : LibraryFile) : bool :=
  (bool_decide (status x ≠ APPROVED) || negb (has_newer_approved (db w) x))
  && (if enforce && match viewer with None => true | Some v => bool_decide (account_level v ≠ "admin"%string) end then
        let approved := bool_decide (status x = APPROVED) in
        let public := approved && bool_decide (classification x = "public"%string) in
        match viewer with
        | None => public
        | Some v =>
            public || approved && bool_decide (classification x = "internal"%string)
            || approved && bool_decide (classification x = "confidential"%string)
               && match project_id x with Some p => is_member p (id v) w | None => false end
            || bool_decide (uploader_id x = id v)
        end
      else true).

(** Newest first: [id.desc()]. *)
Definition later_id (a b : uuid * LibraryFile) : Prop := (uuid_int b.1 ≤ uuid_int a.1)%N.

#[export] Instance later_id_dec : RelDecision later_id.
Proof. intros a b. unfold later_id. apply _. Defined.

Definition rows (w : world) (viewer : option CurrentUser) (enforce : bool) : list (uuid * LibraryFile) :=
  merge_sort later_id (filter (λ kf, _page_conditions w viewer enforce kf.2 = true) (map_to_list (files (db w)))).

Definition list_files (page limit : nat) (viewer : option CurrentUser) (enforce : bool) : M (list (uuid * LibraryFile) * nat) :=
  w ← get_state;
  mret (take limit (drop ((page - 1) * limit) (rows w viewer enforce)), length (rows w viewer enforce)).

Inductive disposition := inline | attachment.

Definition to_lower (c : ascii) : ascii :=
  let n := N_of_ascii c in if decide (65 ≤ n ≤ 90)%N then ascii_of_N (n + 32) else c.

Fixpoint lower (s : string) : string :=
  match s with EmptyString => EmptyString | String c r => String (to_lower c) (lower r) end.

(** What follows the last occurrence of a character. *)
Fixpoint after_last (c : ascii) (s : string) : option string :=
  match s with
  | EmptyString => None
  | String d r => match after_last c r with
                  | Some t => Some t
                  | None => if decide (d = c) then Some r else None
                  end
  end.

(** [Path(name).suffix.lower() in _OFFICE_SUFFIXES]; a suffix needs characters on both sides. *)
Definition is_office (name : string) : bool :=
  let last := default name (after_last "/" name) in
  match after_last "." last with
  | Some t => bool_decide (S (String.length t) < String.length last)
              && bool_decide (lower t ∈ ["doc"; "docx"; "ppt"; "pptx"; "odt"; "odp"]%string)
  | None => false
  end.

(** The key of the object that answers, and whether it comes from the archive. *)
Definition serve_content (F : faults) (f : uuid) (how : disposition) (viewer : option CurrentUser) : M (string * bool) :=
  w ← get_state;
  x ← get_or_raise (files (db w) !! f) NOT_FOUND;
  _require_visible x viewer ≫= λ _,
  raise_when (bool_decide (status x ≠ APPROVED)) NOT_APPROVED ≫= λ _,
  h ← get_or_raise (match sha3_hash x with Some EmptyString => None | o => o end) NOT_FOUND;
  let converted := match how with inline => is_office (original_name x) | attachment => false end in
  let key := if converted then _build_bucket_key h +:+ ".preview.pdf" else _build_bucket_key h in
  hot ← exists_ F key;
  let use_archive := negb hot && negb converted && archive_dir cfg && bool_decide (is_Some (archive w !! h)) in
  raise_when (negb hot && negb use_archive) (if converted then PREVIEW_UNAVAILABLE else NOT_FOUND) ≫= λ _,
  (match how with inline => _ ← _increment_counter f 0 1; mret tt | attachment => mret tt end) ≫= λ _,
  mret (if use_archive then h else key, use_archive).

(** [_serve]: the body of the answer. *)
Definition _serve (F : faults) (source : string * bool) : M string :=
  if source.2 then w ← get_state; get_or_raise (archive w !! source.1) NOT_FOUND else open F source.1.

Inductive link := Presigned (key : string) | Backend (f : uuid).

Definition download_url (f : uuid) (cur : CurrentUser) : M link :=
  w ← get_state;
  x ← get_or_raise (files (db w) !! f) NOT_FOUND;
  _require_visible x (Some cur) ≫= λ _,
  raise_when (bool_decide (status x ≠ APPROVED)) NOT_APPROVED ≫= λ _,
  h ← get_or_raise (match sha3_hash x with Some EmptyString => None | o => o end) NOT_FOUND;
  _ ← _increment_counter f 1 0;
  if s3 cfg && negb (archive_dir cfg && bool_decide (is_Some (archive w !! h)))
  then mret (Presigned (_build_bucket_key h)) else mret (Backend f).

(** ** Jobs *)
(** [cleanup_expired_uploads]: one batch after another, by (created_at, upload_id). *)
Definition _UPLOAD_TTL : Z := 3600000000.
Definition _CLEANUP_BATCH : nat := 500.

Definition older (a b : string * UploadSession) : Prop :=
  (s_created a.2 < s_created b.2)%Z ∨ s_created a.2 = s_created b.2 ∧ String.le a.1 b.1.

#[export] Instance older_dec : RelDecision older.
Proof. intros a b. unfold older. apply _. Defined.

Definition after_cursor (cursor : option (Z * string)) (s : string * UploadSession) : Prop :=
  match cursor with
  | None => True
  | Some (t, u) => (t < s_created s.2)%Z ∨ t = s_created s.2 ∧ ¬ String.le s.1 u
  end.

#[export] Instance after_cursor_dec cursor s : Decision (after_cursor cursor s).
Proof. unfold after_cursor. destruct cursor as [[t u]|]; apply _. Defined.

Definition list_expired (before : Z) (cursor : option (Z * string)) (limit : nat) (d : tables) : list (string * UploadSession) :=
  take limit (merge_sort older (filter (λ s, (s_created s.2 < before)%Z ∧ after_cursor cursor s) (map_to_list (sessions d)))).

Definition cleanup_one (F : faults) (s : string * UploadSession) : M () :=
  if f_delete F (storage_key s.2) then mret tt else
  modify (set_objects (delete (storage_key s.2))) ≫= λ _,
  modify (set_sessions (delete s.1)).

Fixpoint cleanup_loop (fuel : nat) (F : faults) (before : Z) (cursor : option (Z * string)) : M () :=
  match fuel with
  | O => mret tt
  | S fuel =>
      w ← get_state;
      let expired := list_expired before cursor _CLEANUP_BATCH (db w) in
      match last expired with
      | None => mret tt
      | Some s => for_each expired (cleanup_one F) ≫= λ _, cleanup_loop fuel F before (Some (s_created s.2, s.1))
      end
  end.

Definition cleanup_expired_uploads (F : faults) : M () :=
  w ← get_state;
  cleanup_loop (S (size (sessions (db w)))) F (clock w - _UPLOAD_TTL) None.

(** [archive_cold_files]: the hashes, and the transaction of each. *)
Definition cold_row (cutoff : Z) (h : string) (x : LibraryFile) : bool :=
  bool_decide (status x = APPROVED) && bool_decide (created_at x < cutoff)%Z
  && (negb (backup_dir cfg) || bool_decide (is_Some (backed_up_at x))).

Definition live_rows (h : string) (d : tables) : list (uuid * LibraryFile) :=
  filter (λ kf, is_live h kf.2 = true) (map_to_list (files d)).

Definition cold_hashes (cutoff : Z) (d : tables) : list string :=
  take 100 (remove_dups (map_to_list (files d) ≫= λ kf,
    match sha3_hash kf.2 with
    | Some h => if cold_row cutoff h kf.2 && negb (archived kf.2) && forallb (λ x, cold_row cutoff h x.2) (live_rows h d)
                then [h] else []
    | None => []
    end)).

Definition archive_one (F : faults) (cutoff : Z) (h : string) : M () :=
  w ← get_state;
  let live := live_rows h (db w) in
  if bool_decide (h = ""%string) || bool_decide (live = []) || negb (forallb (λ x, cold_row cutoff h x.2) live) then mret tt else
  let key := _build_bucket_key h in
  present ← exists_ F key;
  if negb present then mret tt else
  archive_file F key h ≫= λ _,
  modify (set_files (fmap (λ x, if is_live h x then as_archived x else x))) ≫= λ _,
  delete_ F key.

Definition archive_cold_files (F : faults) (commits : string → bool) : M () :=
  if negb (archive_dir cfg) then mret tt else
  w ← get_state;
  let cutoff := (clock w - archive_after cfg)%Z in
  for_each (cold_hashes cutoff (db w)) (λ h, transaction (commits h) (archive_one F cutoff h)).

(** [backup_approved_files]: a failed copy is skipped. *)
Definition backup_hashes (d : tables) : list string :=
  take 100 (remove_dups (map_to_list (files d) ≫= λ kf,
    match sha3_hash kf.2 with
    | Some h => if bool_decide (status kf.2 = APPROVED ∧ backed_up_at kf.2 = None) then [h] else []
    | None => []
    end)).

Definition mark_backed_up (h : string) (w : world) : world :=
  set_files (fmap (λ x, if decide (sha3_hash x = Some h ∧ status x = APPROVED) then with_backup (clock w) x else x)) w.

Definition backup_one (F : faults) (h : string) : M () :=
  if decide (h = ""%string) then mret tt else
  present ← exists_ F (_build_bucket_key h);
  if negb present then mret tt else
  λ w, match backup_file F (_build_bucket_key h) h w with
       | (Ok _, w') => (Ok tt, mark_backed_up h w')
       | (Raise _, w') => (Ok tt, w')
       end.

Definition backup_approved_files (F : faults) : M () :=
  if negb (backup_dir cfg) then mret tt else
  w ← get_state; for_each (backup_hashes (db w)) (backup_one F).
End files.

(** ** Keys *)
Definition hash_like (h : string) : Prop := String.length h = 64.

Lemma substring_length n m s : n + m ≤ String.length s → String.length (String.substring n m s) = m.
Proof.
  revert n m. induction s as [|c s IH]; intros n m; cbn; [intros; destruct n, m; cbn in *; lia|].
  destruct n as [|n]; destruct m as [|m]; cbn; intros H; try done.
  - f_equal. apply (IH 0 m). lia.
  - apply (IH n 0). lia.
  - apply (IH n (S m)). lia.
Qed.

Lemma key_length h : hash_like h → String.length (_build_bucket_key h) = 67.
Proof.
  intros Hh. unfold _build_bucket_key. rewrite !string_length_app, substring_length by (unfold hash_like in Hh; lia).
  unfold hash_like in Hh. rewrite Hh. reflexivity.
Qed.

Lemma key_inj h h' : hash_like h → hash_like h' → _build_bucket_key h = _build_bucket_key h' → h = h'.
Proof.
  intros Hh Hh' He. unfold hash_like in *. unfold _build_bucket_key in He.
  apply append_inj in He as [_ He]; [|by rewrite !substring_length by lia].
  by apply append_inj in He as [_ He].
Qed.

Lemma key_neq_length h k : hash_like h → String.length k ≠ 67 → k ≠ _build_bucket_key h.
Proof. intros Hh Hk ->. by apply Hk, key_length. Qed.

Lemma variant_key h h' suffix :
  hash_like h → hash_like h' → suffix ∈ variants → _build_bucket_key h +:+ suffix = _build_bucket_key h' → suffix = ""%string ∧ h = h'.
Proof.
  intros Hh Hh' Hs He. assert (Hl := f_equal String.length He). rewrite string_length_app, !key_length in Hl by done.
  assert (suffix = ""%string) as ->.
  { unfold variants in Hs. repeat (apply elem_of_cons in Hs as [->|Hs]; [done || (cbn in Hl; lia)|]). by apply elem_of_nil in Hs. }
  split; [done|]. apply key_inj; [done..|].
  rewrite <- He. clear. induction (_build_bucket_key h) as [|c s IH]; [done|]. by rewrite append_cons, <- IH.
Qed.

(** ** What the rows promise *)
(** What has gone wrong: hashes whose content a rejection or a deletion gave up
    without taking effect, and hashes under which other content was put. *)
Record marks := Marks { lost : gset string; poisoned : gset string }.

Section facts.
Context `{Outside, !OutsideLaws} (cfg : settings) (mk : marks).

Lemma sha3_like c : hash_like (sha3_256 c).
Proof. apply sha3_length. Qed.

(** The parts of a row that only its insertion sets. *)
Definition ident (x : LibraryFile) :=
  (uploader_id x, sha3_hash x, document_code x, version x, root_file_id x, classification x, project_id x, category_id x).

Definition same_document (x y : LibraryFile) : Prop :=
  uploader_id x = uploader_id y ∧ classification x = classification y ∧ project_id x = project_id y
  ∧ category_id x = category_id y ∧ root_file_id x = root_file_id y.

(** Documents are chains of versions. *)
Record chains (m : gmap uuid LibraryFile) : Prop := {
  ch_code : ∀ k x, m !! k = Some x → is_Some (document_code x) ∧ (1 ≤ version x)%Z;
  ch_hash : ∀ k x, m !! k = Some x → ∃ h, sha3_hash x = Some h ∧ hash_like h;
  ch_unique : ∀ k l x y, m !! k = Some x → m !! l = Some y → document_code x = document_code y → version x = version y → k = l;
  ch_same : ∀ k l x y, m !! k = Some x → m !! l = Some y → document_code x = document_code y → same_document x y;
  ch_pred : ∀ k x, m !! k = Some x → (1 < version x)%Z →
    ∃ l y, m !! l = Some y ∧ document_code y = document_code x ∧ version y = (version x - 1)%Z;
  ch_root : ∀ k x, m !! k = Some x →
    ∃ r y, root_file_id x = Some r ∧ m !! r = Some y ∧ document_code y = document_code x ∧ version y = 1%Z
}.

Definition refs_exact (m : gmap uuid LibraryFile) : Prop :=
  ∀ k x h, m !! k = Some x → sha3_hash x = Some h →
    ref_count x = Z.of_nat (size (filter (λ kf, is_live h kf.2 = true) m)).

Definition is_points (m : message) : bool := match m with PointsEvent _ _ _ => true | _ => false end.

Record rewards (d : tables) : Prop := {
  rw_once : NoDup (filter (λ m, is_points m = true) (outbox d));
  rw_approved : ∀ k x, files d !! k = Some x → status x = APPROVED →
    PointsEvent (uploader_id x) "file_approved" (file_ref k) ∈ outbox d;
  rw_from : ∀ u ev ref, PointsEvent u ev ref ∈ outbox d →
    ∃ k x, files d !! k = Some x ∧ u = uploader_id x ∧ ev = "file_approved"%string ∧ ref = file_ref k
      ∧ (status x = APPROVED ∨ status x = DELETED)
}.

(** Direct uploads live under keys of their own. *)
Definition sessions_ok (m : gmap string UploadSession) : Prop :=
  ∀ u s, m !! u = Some s → storage_key s = upload_key u ∧ String.length u = 32.

Definition db_ok (d : tables) : Prop := chains (files d) ∧ refs_exact (files d) ∧ rewards d ∧ sessions_ok (sessions d).

(** The object store has what the rows need. *)
Definition available (w : world) (h : string) : Prop :=
  is_Some (objects w !! _build_bucket_key h) ∨ archive_dir cfg = true ∧ is_Some (archive w !! h).

Record store_ok (m : gmap uuid LibraryFile) (w : world) : Prop := {
  st_objects : ∀ h c, hash_like h → h ∉ poisoned mk → objects w !! _build_bucket_key h = Some c → sha3_256 c = h;
  st_archive : ∀ h c, archive w !! h = Some c → sha3_256 c = h;
  st_backups : ∀ h c, backups w !! h = Some c → sha3_256 c = h;
  st_pending : ∀ k x h, m !! k = Some x → sha3_hash x = Some h → h ∉ lost mk → status x = PENDING →
    is_Some (objects w !! _build_bucket_key h);
  st_approved : ∀ k x h, m !! k = Some x → sha3_hash x = Some h → h ∉ lost mk → status x = APPROVED → available w h
}.

Lemma chains_ident m m' : ident <$> m' = ident <$> m → chains m → chains m'.
Proof.
  intros He C.
  assert (Hl : ∀ k x', m' !! k = Some x' → ∃ x, m !! k = Some x ∧ ident x' = ident x).
  { intros k x' Hx. assert (Hk := f_equal (lookup k) He). rewrite !lookup_fmap, Hx in Hk.
    destruct (m !! k) as [x|]; [|done]. exists x. split; [done|]. cbn in Hk. by apply (inj Some) in Hk. }
  assert (Hr : ∀ k x, m !! k = Some x → ∃ x', m' !! k = Some x' ∧ ident x' = ident x).
  { intros k x Hx. assert (Hk := f_equal (lookup k) He). rewrite !lookup_fmap, Hx in Hk.
    destruct (m' !! k) as [x'|]; [|done]. exists x'. split; [done|]. cbn in Hk. by apply (inj Some) in Hk. }
  assert (Hi : ∀ x x', ident x' = ident x → uploader_id x' = uploader_id x ∧ sha3_hash x' = sha3_hash x
    ∧ document_code x' = document_code x ∧ version x' = version x ∧ root_file_id x' = root_file_id x
    ∧ classification x' = classification x ∧ project_id x' = project_id x ∧ category_id x' = category_id x).
  { intros x x' [=]. done. }
  split.
  - intros k x' Hx. destruct (Hl k x' Hx) as (x & Hm & Hix). destruct (Hi x x' Hix) as (_ & _ & -> & -> & _). by apply (ch_code _ C k x).
  - intros k x' Hx. destruct (Hl k x' Hx) as (x & Hm & Hix). destruct (Hi x x' Hix) as (_ & -> & _). by apply (ch_hash _ C k x).
  - intros k l x' y' Hx Hy. destruct (Hl k x' Hx) as (x & Hm & Hix), (Hl l y' Hy) as (y & Hn & Hiy).
    destruct (Hi x x' Hix) as (_ & _ & -> & -> & _), (Hi y y' Hiy) as (_ & _ & -> & -> & _). by apply (ch_unique _ C k l x y).
  - intros k l x' y' Hx Hy. destruct (Hl k x' Hx) as (x & Hm & Hix), (Hl l y' Hy) as (y & Hn & Hiy).
    unfold same_document.
    destruct (Hi x x' Hix) as (-> & _ & -> & _ & -> & -> & -> & ->), (Hi y y' Hiy) as (-> & _ & -> & _ & -> & -> & -> & ->).
    by apply (ch_same _ C k l x y).
  - intros k x' Hx. destruct (Hl k x' Hx) as (x & Hm & Hix). destruct (Hi x x' Hix) as (_ & _ & -> & -> & _). intros Hv.
    destruct (ch_pred _ C k x Hm Hv) as (l & y & Hy & Hc & Hp). destruct (Hr l y Hy) as (y' & Hy' & Hiy).
    destruct (Hi y y' Hiy) as (_ & _ & Hcy & Hvy & _). exists l, y'. by rewrite Hcy, Hvy.
  - intros k x' Hx. destruct (Hl k x' Hx) as (x & Hm & Hix). destruct (Hi x x' Hix) as (_ & _ & -> & _ & -> & _).
    destruct (ch_root _ C k x Hm) as (r & y & Hrt & Hy & Hc & Hv). destruct (Hr r y Hy) as (y' & Hy' & Hiy).
    destruct (Hi y y' Hiy) as (_ & _ & Hcy & Hvy & _). exists r, y'. by rewrite Hcy, Hvy.
Qed.
End facts.

(** ** Codes and versions *)
Lemma elem_of_of_code c d kf : kf ∈ of_code c d ↔ files d !! kf.1 = Some kf.2 ∧ document_code kf.2 = Some c.
Proof. unfold of_code. rewrite list_elem_of_filter. destruct kf as [k x]. rewrite elem_of_map_to_list. cbn. tauto. Qed.

Lemma code_number_fresh d k x year n :
  files d !! k = Some x → document_code x = Some (MkCode year n) → (n ≤ foldr Z.max 0 (numbers year d))%Z.
Proof.
  intros Hk Hc. apply max_ge. unfold numbers. apply list_elem_of_bind. exists (k, x). cbn. rewrite Hc. cbn.
  rewrite decide_True by done. split; [by left|]. by apply elem_of_map_to_list.
Qed.

(** ** Counting the live rows of a hash *)
Definition live_count (h : string) (m : gmap uuid LibraryFile) : Z := Z.of_nat (size (filter (λ kf, is_live h kf.2 = true) m)).

Lemma live_count_ext h (m m' : gmap uuid LibraryFile) :
  (∀ k, (∃ x, m !! k = Some x ∧ is_live h x = true) ↔ (∃ x, m' !! k = Some x ∧ is_live h x = true)) →
  live_count h m = live_count h m'.
Proof.
  intros He. unfold live_count. f_equal. rewrite <- !size_dom. f_equal. apply set_eq. intros k. rewrite !elem_of_dom.
  split; intros [x [Hx Hl]%map_lookup_filter_Some].
  - destruct (proj1 (He k)) as (y & Hy & Hl'); [by exists x|]. exists y. by apply map_lookup_filter_Some.
  - destruct (proj2 (He k)) as (y & Hy & Hl'); [by exists x|]. exists y. by apply map_lookup_filter_Some.
Qed.

Lemma live_count_fmap h f (m : gmap uuid LibraryFile) :
  (∀ x, is_live h (f x) = is_live h x) → live_count h (f <$> m) = live_count h m.
Proof.
  intros Hf. apply live_count_ext. intros k. rewrite lookup_fmap. split.
  - intros (x & Hx & Hl). destruct (m !! k) as [y|]; [|done]. exists y. split; [done|]. injection Hx as <-. by rewrite <- Hf.
  - intros (x & Hx & Hl). exists (f x). rewrite Hx, Hf. done.
Qed.

Lemma live_count_zero h m : live_count h m = 0%Z ↔ ∀ k x, m !! k = Some x → is_live h x = false.
Proof.
  unfold live_count. split.
  - intros Hz k x Hk. destruct (is_live h x) eqn:Hl; [|done]. exfalso.
    assert (He : filter (λ kf, is_live h kf.2 = true) m = ∅) by (apply map_size_empty_iff; lia).
    assert (Hs : filter (λ kf, is_live h kf.2 = true) m !! k = Some x) by (by apply map_lookup_filter_Some).
    by rewrite He, lookup_empty in Hs.
  - intros Hn. assert (filter (λ kf, is_live h kf.2 = true) m = ∅) as ->; [|by rewrite map_size_empty].
    apply map_empty. intros k. apply map_lookup_filter_None. right. intros x Hx. cbn. by rewrite (Hn k x Hx).
Qed.

Lemma is_live_spec h x : is_live h x = true ↔ sha3_hash x = Some h ∧ (status x = PENDING ∨ status x = APPROVED).
Proof. unfold is_live. by rewrite andb_true_iff, !bool_decide_eq_true. Qed.

(** ** [sync_ref_count] *)
Definition refs_except (h : string) (m : gmap uuid LibraryFile) : Prop :=
  ∀ k x g, m !! k = Some x → sha3_hash x = Some g → g ≠ h → ref_count x = live_count g m.

Definition synced (h : string) (m : gmap uuid LibraryFile) : gmap uuid LibraryFile :=
  (λ f, if decide (sha3_hash f = Some h) then with_refs (live_count h m) f else f) <$> m.

Lemma refs_sync h m : refs_except h m → refs_exact (synced h m).
Proof.
  intros R k x g Hx Hg. change (ref_count x = live_count g (synced h m)).
  unfold synced in *. rewrite live_count_fmap by (intros y; by destruct (decide _)).
  rewrite lookup_fmap in Hx. destruct (m !! k) as [y|] eqn:Hy; [|done]. cbn in Hx. injection Hx as <-.
  destruct (decide (sha3_hash y = Some h)) as [Hh|Hh]; cbn in *; [congruence|].
  apply (R k y g Hy Hg). congruence.
Qed.

(** What only touches rows with the hash [h]. *)
Lemma refs_touch h m m' :
  refs_exact m →
  (∀ k x', m' !! k = Some x' → sha3_hash x' ≠ Some h →
     ∃ x, m !! k = Some x ∧ sha3_hash x = sha3_hash x' ∧ ref_count x' = ref_count x) →
  (∀ g k, g ≠ h → (∃ x, m !! k = Some x ∧ is_live g x = true) ↔ (∃ x, m' !! k = Some x ∧ is_live g x = true)) →
  refs_except h m'.
Proof.
  intros R Ht Hl k x' g Hx' Hg Hne. destruct (Ht k x' Hx') as (x & Hx & Hh & ->); [congruence|].
  rewrite <- (live_count_ext g m m') by (intros l; by apply Hl). apply (R k x g Hx). congruence.
Qed.

Lemma refs_insert h m new x : refs_exact m → m !! new = None → sha3_hash x = Some h → refs_except h (<[new := x]> m).
Proof.
  intros R Hn Hh. apply (refs_touch h m); [done| |].
  - intros k x' Hx' Hne. destruct (decide (k = new)) as [->|Hk].
    + rewrite lookup_insert_eq in Hx'. injection Hx' as <-. done.
    + rewrite lookup_insert_ne in Hx' by done. by exists x'.
  - intros g k Hg. destruct (decide (k = new)) as [->|Hk].
    + rewrite Hn, lookup_insert_eq. split; [by intros (? & ? & _)|]. intros (y & [= <-] & Hl). apply is_live_spec in Hl as [? _]. congruence.
    + by rewrite lookup_insert_ne.
Qed.

Lemma refs_status h m k x st why :
  refs_exact m → m !! k = Some x → sha3_hash x = Some h → refs_except h (alter (with_status st why) k m).
Proof.
  intros R Hx Hh. rewrite (alter_as_insert _ _ _ _ Hx). apply (refs_touch h m); [done| |].
  - intros l y Hy Hne. destruct (decide (l = k)) as [->|Hk].
    + rewrite lookup_insert_eq in Hy. injection Hy as <-. done.
    + rewrite lookup_insert_ne in Hy by done. by exists y.
  - intros g l Hg. destruct (decide (l = k)) as [->|Hk]; [|by rewrite lookup_insert_ne].
    rewrite Hx, lookup_insert_eq. split; intros (y & [= <-] & Hl); apply is_live_spec in Hl as [? _]; cbn in *; congruence.
Qed.

(** A change that keeps hash, liveness and count. *)
Lemma refs_keep m m' :
  refs_exact m →
  (∀ k x', m' !! k = Some x' → ∃ x, m !! k = Some x ∧ sha3_hash x' = sha3_hash x ∧ ref_count x' = ref_count x) →
  (∀ g k, (∃ x, m !! k = Some x ∧ is_live g x = true) ↔ (∃ x, m' !! k = Some x ∧ is_live g x = true)) →
  refs_exact m'.
Proof.
  intros R Ht Hl k x' g Hx' Hg. destruct (Ht k x' Hx') as (x & Hx & Hh & ->).
  change (ref_count x = live_count g m'). rewrite <- (live_count_ext g m m') by apply Hl. apply (R k x g Hx). congruence.
Qed.

(** ** A new version joins its chain *)
Lemma chains_insert m new x c :
  chains m → m !! new = None → document_code x = Some c → (∃ h, sha3_hash x = Some h ∧ hash_like h) →
  (∀ l y, m !! l = Some y → document_code y = Some c → version y < version x)%Z →
  (version x = 1%Z ∧ root_file_id x = Some new ∧ (∀ l y, m !! l = Some y → document_code y ≠ Some c)
   ∨ (1 < version x)%Z
     ∧ (∃ l y, m !! l = Some y ∧ document_code y = Some c ∧ same_document x y)
     ∧ ∃ l y, m !! l = Some y ∧ document_code y = Some c ∧ version y = (version x - 1)%Z) →
  chains (<[new := x]> m).
Proof.
  intros C Hn Hc Hh Hlt Hcase.
  assert (Hold : ∀ k y, m !! k = Some y → <[new := x]> m !! k = Some y).
  { intros k y Hy. by rewrite lookup_insert_ne by congruence. }
  assert (Hsplit : ∀ k y, <[new := x]> m !! k = Some y → k = new ∧ y = x ∨ m !! k = Some y ∧ k ≠ new).
  { intros k y Hy. destruct (decide (k = new)) as [->|Hk].
    - rewrite lookup_insert_eq in Hy. injection Hy as <-. by left.
    - rewrite lookup_insert_ne in Hy by done. by right. }
  assert (Hsame : ∀ l y, m !! l = Some y → document_code y = Some c → same_document x y).
  { intros l y Hy Hcy. destruct Hcase as [(_ & _ & Hno)|(_ & (l' & y' & Hy' & Hcy' & Hs) & _)]; [by destruct (Hno l y Hy)|].
    destruct (ch_same _ C l' l y' y Hy' Hy) as (? & ? & ? & ? & ?); [congruence|].
    destruct Hs as (? & ? & ? & ? & ?). repeat split; congruence. }
  split.
  - intros k y [[-> ->]|[Hy _]]%Hsplit; [|by apply (ch_code _ C k y)]. split; [by exists c|]. destruct Hcase as [[? _]|[? _]]; lia.
  - intros k y [[-> ->]|[Hy _]]%Hsplit; [done|by apply (ch_hash _ C k y)].
  - intros k l y z [[-> ->]|[Hy ?]]%Hsplit [[-> ->]|[Hz ?]]%Hsplit Hcode Hv; [done| | |by apply (ch_unique _ C k l y z)].
    + exfalso. specialize (Hlt l z Hz). rewrite <- Hcode in Hlt. specialize (Hlt Hc). lia.
    + exfalso. specialize (Hlt k y Hy). rewrite Hcode in Hlt. specialize (Hlt Hc). lia.
  - intros k l y z [[-> ->]|[Hy ?]]%Hsplit [[-> ->]|[Hz ?]]%Hsplit Hcode; [done| | |by apply (ch_same _ C k l y z)].
    + apply (Hsame l z Hz). congruence.
    + destruct (Hsame k y Hy) as (? & ? & ? & ? & ?); [congruence|]. repeat split; congruence.
  - intros k y [[-> ->]|[Hy _]]%Hsplit Hv.
    + destruct Hcase as [[? _]|(_ & _ & l & z & Hz & Hcz & Hvz)]; [lia|]. exists l, z. rewrite Hc. auto.
    + destruct (ch_pred _ C k y Hy Hv) as (l & z & Hz & H). exists l, z. auto.
  - intros k y [[-> ->]|[Hy _]]%Hsplit.
    + destruct Hcase as [(Hv & Hr & _)|(_ & (l & z & Hz & Hcz & Hs) & _)].
      * exists new, x. by rewrite lookup_insert_eq.
      * destruct (ch_root _ C l z Hz) as (r & t & Hr & Ht & Hct & Hvt). exists r, t. destruct Hs as (_ & _ & _ & _ & ->).
        split; [done|]. split; [auto|]. split; congruence.
    + destruct (ch_root _ C k y Hy) as (r & t & Hr & Ht & H). exists r, t. auto.
Qed.

(** ** Every request keeps the library in order *)
Section specs.
Context `{Outside, !OutsideLaws} (cfg : settings) (mk : marks).

Definition in_order (w : world) : Prop := db_ok (db w) ∧ store_ok cfg mk (files (db w)) w.

Lemma store_ok_ext m w w' :
  objects w' = objects w → archive w' = archive w → backups w' = backups w → store_ok cfg mk m w → store_ok cfg mk m w'.
Proof. intros Ho Ha Hb S. split; unfold available; rewrite ?Ho, ?Ha, ?Hb; apply S. Qed.

(** Statuses only matter for rows that need content. *)
Lemma store_ok_rows m m' w :
  (∀ k x', m' !! k = Some x' → (status x' = PENDING ∨ status x' = APPROVED) →
     ∃ x, m !! k = Some x ∧ sha3_hash x = sha3_hash x' ∧ (status x = status x' ∨ status x = PENDING)) →
  store_ok cfg mk m w → store_ok cfg mk m' w.
Proof.
  intros Hr S. split; try apply S.
  - intros k x' h Hx' Hh Hm Hp. destruct (Hr k x' Hx') as (x & Hx & Hs & Hst); [by left|].
    apply (st_pending _ _ _ _ S k x h Hx); [congruence|done|destruct Hst; congruence].
  - intros k x' h Hx' Hh Hm Hp. destruct (Hr k x' Hx') as (x & Hx & Hs & [Hst|Hst]); [by right| |].
    + apply (st_approved _ _ _ _ S k x h Hx); congruence.
    + left. apply (st_pending _ _ _ _ S k x h Hx); congruence.
Qed.

Lemma store_ok_save m w h c : hash_like h → sha3_256 c = h ∨ h ∈ poisoned mk → store_ok cfg mk m w → store_ok cfg mk m (set_objects <[_build_bucket_key h := c]> w).
Proof.
  intros Hl Hc S. split; cbn; try apply S.
  - intros g d Hg Hm. destruct (decide (g = h)) as [->|Hne].
    + rewrite lookup_insert_eq. destruct Hc; [congruence|done].
    + rewrite lookup_insert_ne by (intros He; by apply key_inj in He). by apply S.
  - intros k x g Hx Hg Hm Hp. destruct (st_pending _ _ _ _ S k x g Hx Hg Hm Hp) as [y Hy].
    destruct (decide (_build_bucket_key h = _build_bucket_key g)) as [->|Hne]; [by rewrite lookup_insert_eq; eexists|].
    rewrite lookup_insert_ne by done. by exists y.
  - intros k x g Hx Hg Hm Hp. destruct (st_approved _ _ _ _ S k x g Hx Hg Hm Hp) as [[y Hy]|Ha]; [left|by right]. cbn.
    destruct (decide (_build_bucket_key h = _build_bucket_key g)) as [->|Hne]; [by rewrite lookup_insert_eq; eexists|].
    rewrite lookup_insert_ne by done. by exists y.
Qed.

(** Keys that are not those of content do not matter. *)
Lemma store_ok_elsewhere m w (f : gmap string string → gmap string string) :
  chains m → (∀ o h, hash_like h → f o !! _build_bucket_key h = o !! _build_bucket_key h) →
  store_ok cfg mk m w → store_ok cfg mk m (set_objects f w).
Proof.
  intros C Hf S. split; cbn; try apply S.
  - intros g d Hg. rewrite Hf by done. by apply S.
  - intros k x g Hx Hg Hm Hp. destruct (ch_hash _ C k x Hx) as (h & Hh & Hl). rewrite Hf by congruence. by apply (st_pending _ _ _ _ S k x).
  - intros k x g Hx Hg Hm Hp. destruct (ch_hash _ C k x Hx) as (h & Hh & Hl).
    unfold available. cbn. rewrite Hf by congruence. by apply (st_approved _ _ _ _ S k x).
Qed.

Lemma preview_elsewhere h c (o : gmap string string) g :
  hash_like h → hash_like g → <[_build_bucket_key h +:+ ".preview.pdf" := c]> o !! _build_bucket_key g = o !! _build_bucket_key g.
Proof.
  intros Hh Hg. rewrite lookup_insert_ne; [done|]. apply key_neq_length; [done|].
  rewrite string_length_app, key_length by done. cbn. lia.
Qed.

Definition good_identity (m : gmap uuid LibraryFile) (u : uuid) (i : identity) : Prop :=
  (∀ l y, m !! l = Some y → document_code y = Some (i_code i) → version y < i_version i)%Z
  ∧ (i_version i = 1%Z ∧ i_root i = None ∧ (∀ l y, m !! l = Some y → document_code y ≠ Some (i_code i))
     ∨ (1 < i_version i)%Z
       ∧ (∃ l y, m !! l = Some y ∧ document_code y = Some (i_code i) ∧ uploader_id y = u
            ∧ i_classification i = classification y ∧ i_project i = project_id y ∧ i_category i = category_id y
            ∧ i_root i = root_file_id y)
       ∧ ∃ l y, m !! l = Some y ∧ document_code y = Some (i_code i) ∧ version y = (i_version i - 1)%Z).

Lemma identity_spec year u info (w : world) :
  chains (files (db w)) →
  wp (_identity_for_upload year u info) (λ i w', w' = w ∧ good_identity (files (db w)) u i) (λ _ w', w' = w) w.
Proof.
  intros C. unfold _identity_for_upload. apply wp_bind, wp_get_state. destruct (c_version_of info) as [p|].
  - apply wp_bind, wp_get_or_raise; [done|]. intros parent Hp.
    apply wp_bind, wp_raise_when; [done|]. intros Hu%bool_decide_eq_false%dec_stable.
    apply wp_bind, wp_raise_when; [done|]. intros _.
    apply wp_bind, wp_get_or_raise; [done|]. intros c Hc.
    unfold next_version. apply wp_bind, wp_bind, wp_get_state, wp_bind, wp_raise_when; [done|]. intros _.
    apply wp_ret, wp_ret. split; [done|]. cbn. set (l := version ∘ snd <$> of_code c (db w)).
    assert (Hin : ∀ k y, files (db w) !! k = Some y → document_code y = Some c → version y ∈ l).
    { intros k y Hy Hcy. apply list_elem_of_fmap. exists (k, y). split; [done|]. by apply elem_of_of_code. }
    assert (Hle : ∀ k y, files (db w) !! k = Some y → document_code y = Some c → (version y ≤ foldr Z.max 0 l)%Z).
    { intros k y Hy Hcy. by apply max_ge, (Hin k y). }
    destruct (ch_code _ C p parent Hp) as [_ Hv1]. pose proof (Hle p parent Hp Hc) as Hge.
    split; cbn.
    + intros k y Hy Hcy. specialize (Hle k y Hy Hcy). lia.
    + right. split; [lia|]. split.
      * exists p, parent. destruct (ch_root _ C p parent Hp) as (r & _ & Hr & _). rewrite Hr. by split_and!.
      * pose proof (max_elem l ltac:(lia)) as Hmax. apply list_elem_of_fmap in Hmax as ([k y] & He & Hk).
        apply elem_of_of_code in Hk as [Hk Hcy]. cbn in *. exists k, y. split_and!; [done|done|]. fold l in He. lia.
  - apply wp_bind, wp_raise_when; [done|]. intros _.
    unfold next_document_code. apply wp_bind, wp_bind, wp_get_state, wp_bind, wp_raise_when; [done|]. intros _.
    apply wp_ret, wp_ret. split; [done|].
    assert (Hno : ∀ l y, files (db w) !! l = Some y → document_code y ≠ Some (MkCode year (foldr Z.max 0 (numbers year (db w)) + 1)%Z)).
    { intros l y Hy Hcy. pose proof (code_number_fresh (db w) l y year _ Hy Hcy). lia. }
    split; cbn; [|left; by split_and!]. intros l y Hy Hcy. by destruct (Hno l y Hy).
Qed.

Lemma with_refs_ident n x : ident (with_refs n x) = ident x.
Proof. done. Qed.

Lemma synced_ident h m : ident <$> synced h m = ident <$> m.
Proof.
  unfold synced. rewrite <- map_fmap_compose. apply map_fmap_ext. intros k x _. cbn. by destruct (decide _).
Qed.

(** The count changes nothing else. *)
Lemma synced_lookup h m k x' :
  synced h m !! k = Some x' → ∃ x, m !! k = Some x ∧ sha3_hash x' = sha3_hash x ∧ status x' = status x ∧ uploader_id x' = uploader_id x.
Proof.
  unfold synced. rewrite lookup_fmap. destruct (m !! k) as [x|]; [|done]. cbn. intros [= <-]. exists x.
  split; [done|]. by destruct (decide _).
Qed.

Lemma synced_lookup_inv h m k x :
  m !! k = Some x → ∃ x', synced h m !! k = Some x' ∧ sha3_hash x' = sha3_hash x ∧ status x' = status x ∧ uploader_id x' = uploader_id x.
Proof.
  intros Hx. unfold synced. rewrite lookup_fmap, Hx. cbn. eexists. split; [done|]. by destruct (decide _).
Qed.

(** Rewards look at statuses and uploaders only. *)
Lemma rewards_rows m m' s s' a a' o :
  rewards (Tables m s o a) →
  (∀ k x', m' !! k = Some x' → status x' = APPROVED →
     ∃ x, m !! k = Some x ∧ uploader_id x' = uploader_id x ∧ status x = APPROVED) →
  (∀ k x, m !! k = Some x → status x = APPROVED ∨ status x = DELETED →
     ∃ x', m' !! k = Some x' ∧ uploader_id x' = uploader_id x ∧ (status x' = APPROVED ∨ status x' = DELETED)) →
  rewards (Tables m' s' o a').
Proof.
  intros R Hb Hf. split; cbn.
  - apply (rw_once _ R).
  - intros k x' Hx' Ha. destruct (Hb k x' Hx' Ha) as (x & Hx & -> & Hst). by apply (rw_approved _ R k x Hx).
  - intros u ev ref He. destruct (rw_from _ R u ev ref He) as (k & x & Hx & -> & -> & -> & Hst). cbn in *.
    destruct (Hf k x Hx Hst) as (x' & Hx' & <- & Hst'). by exists k, x'.
Qed.

Lemma register_spec new u info i h total (w : world) :
  in_order w → hash_like h → is_Some (objects w !! _build_bucket_key h) → good_identity (files (db w)) u i →
  wp (register_row new u info i h total)
     (λ _ w', in_order w' ∧ objects w' = objects w ∧ archive w' = archive w ∧ backups w' = backups w)
     (λ _ w', w' = w) w.
Proof.
  intros [(C & R & W & SS) S] Hl Ho [Hlt Hcase]. unfold register_row.
  apply wp_bind, wp_get_state. apply wp_bind, wp_raise_when; [done|]. intros _.
  apply wp_bind, wp_raise_when; [done|]. intros [Hn _]%orb_false_iff. apply bool_decide_eq_false, eq_None_not_Some in Hn.
  apply wp_bind, wp_modify. unfold sync_ref_count. rewrite decide_False by (intros ->; done). apply wp_modify.
  set (x := MkFile _ _ _ _ _ _ _ _ _ _ _ _ _ _ _ _ _ _ _ _).
  change (in_order (set_files (λ _, synced h (<[new := x]> (files (db w)))) w) ∧ objects w = objects w ∧ archive w = archive w ∧ backups w = backups w).
  split; [|done].
  assert (C1 : chains (<[new := x]> (files (db w)))).
  { apply (chains_insert _ _ _ (i_code i)); [done|done|done|by exists h|exact Hlt|].
    destruct Hcase as [(Hv & Hr & Hno)|(Hv & (l & y & Hy & Hc & Hu & H1 & H2 & H3 & H4) & Hp)].
    - left. cbn. rewrite Hr. by split_and!.
    - right. cbn. split; [done|]. split; [|done]. exists l, y. split; [done|]. split; [done|].
      destruct (ch_root _ C l y Hy) as (r & _ & Hr & _). unfold same_document. cbn. rewrite H4, Hr. cbn. by split_and!. }
  split; [split; [|split; [|split]]|]; cbn [db files set_files set_db].
  - apply (chains_ident (<[new := x]> (files (db w)))); [apply synced_ident|done].
  - apply refs_sync. by apply refs_insert.
  - destruct (db w) as [m s o a] eqn:Hd. cbn in *. apply (rewards_rows m _ s s a a o W).
    + intros k y' Hy' Ha. destruct (synced_lookup _ _ _ _ Hy') as (y & Hy & _ & Hst & Hu).
      destruct (decide (k = new)) as [->|Hk].
      * rewrite lookup_insert_eq in Hy. injection Hy as <-. cbn in Hst. congruence.
      * rewrite lookup_insert_ne in Hy by done. exists y. split_and!; congruence.
    + intros k y Hy Hst. destruct (synced_lookup_inv h (<[new := x]> m) k y) as (y' & Hy' & _ & Hst' & Hu').
      { by rewrite lookup_insert_ne by congruence. }
      exists y'. by rewrite Hst', Hu'.
  - exact SS.
  - apply (store_ok_ext _ w); [done..|]. destruct S as [S1 S2 S3 S4 S5].
    assert (Hrow : ∀ k y' g, synced h (<[new := x]> (files (db w))) !! k = Some y' → sha3_hash y' = Some g →
      k = new ∧ g = h ∨ ∃ y, files (db w) !! k = Some y ∧ sha3_hash y = Some g ∧ status y = status y').
    { intros k y' g Hy' Hg. destruct (synced_lookup _ _ _ _ Hy') as (y & Hy & Hs & Hst & _).
      destruct (decide (k = new)) as [->|Hk].
      - rewrite lookup_insert_eq in Hy. injection Hy as <-. left. cbn in Hs. split; congruence.
      - rewrite lookup_insert_ne in Hy by done. right. exists y. split_and!; congruence. }
    split; try done.
    + intros k y' g Hy' Hg Hm Hp. destruct (Hrow k y' g Hy' Hg) as [[-> ->]|(y & Hy & Hs & Hst)]; [done|].
      apply (S4 k y g Hy Hs Hm). congruence.
    + intros k y' g Hy' Hg Hm Hp. destruct (Hrow k y' g Hy' Hg) as [[-> ->]|(y & Hy & Hs & Hst)]; [by left|].
      apply (S5 k y g Hy Hs Hm). congruence.
Qed.
End specs.

Section requests.
Context `{Outside, !OutsideLaws} (cfg : settings) (mk : marks).

(** A request keeps the library in order if it commits; and whether it raises
    or its commit fails, the store still has what the old rows need. *)
Definition keeps {A} (m : M A) (w : world) : Prop :=
  wp m (λ _ w', in_order cfg mk w' ∧ store_ok cfg mk (files (db w)) w') (λ _ w', store_ok cfg mk (files (db w)) w') w.

(** In the middle of a request that has only added to the store. *)
Definition staged (w0 w : world) : Prop := db w = db w0 ∧ store_ok cfg mk (files (db w0)) w.

Lemma staged_in_order w0 w : in_order cfg mk w0 → staged w0 w → in_order cfg mk w.
Proof. intros [D _] [Hd S]. split; by rewrite Hd. Qed.

Lemma wp_screen {B} name text content (f : option string → M B) Q (R : err → world → Prop) w :
  (∀ e, R e w) → (∀ p, wp (f p) Q R w) → wp (screen name text content ≫= f) Q R w.
Proof. intros HR Hf. apply wp_bind. unfold wp at 1, screen. destruct (process_upload _ _ _) as [p|e]; [apply Hf|apply HR]. Qed.

Lemma wp_exists {B} F key (f : bool → M B) Q (R : err → world → Prop) w :
  (∀ e, R e w) → wp (f (bool_decide (is_Some (objects w !! key)))) Q R w → wp (exists_ F key ≫= f) Q R w.
Proof.
  intros HR Hf. apply wp_bind. unfold exists_. apply wp_bind, wp_raise_when; [auto|]. intros _. by apply wp_gets.
Qed.

Lemma wp_open {B} F key (f : string → M B) Q (R : err → world → Prop) w :
  (∀ e, R e w) → (∀ c, objects w !! key = Some c → wp (f c) Q R w) → wp (open F key ≫= f) Q R w.
Proof.
  intros HR Hf. apply wp_bind. unfold open. apply wp_bind, wp_raise_when; [auto|]. intros _.
  apply wp_bind, wp_get_state, wp_get_or_raise; auto.
Qed.

Lemma wp_identity {B} year u info (f : identity → M B) Q (R : err → world → Prop) w :
  chains (files (db w)) → (∀ e, R e w) → (∀ i, good_identity (files (db w)) u i → wp (f i) Q R w) →
  wp (_identity_for_upload year u info ≫= f) Q R w.
Proof.
  intros C HR Hf. apply wp_bind. eapply wp_mono; [by apply identity_spec| |].
  - intros i w' [-> Hi]. by apply Hf.
  - intros e w' ->. apply HR.
Qed.

(** The preview goes under a key of its own. *)
Lemma wp_save_preview {B} F h p (f : () → M B) Q R w0 w :
  chains (files (db w0)) → hash_like h → staged w0 w → is_Some (objects w !! _build_bucket_key h) →
  (∀ w', staged w0 w' → is_Some (objects w' !! _build_bucket_key h) → wp (f tt) Q R w') →
  wp (save_preview F (_build_bucket_key h) p ≫= f) Q R w.
Proof.
  intros C Hl St Ho Hf. apply wp_bind. unfold save_preview.
  destruct p as [c|]; [|by apply wp_ret, Hf]. destruct (f_preview F); [by apply wp_ret, Hf|].
  apply wp_modify, Hf.
  - split; [apply St|]. apply store_ok_elsewhere; [done| |apply St]. intros o g Hg. by apply preview_elsewhere.
  - cbn. by rewrite preview_elsewhere.
Qed.

(** Registering the row ends a request. *)
Lemma wp_register {B} new u info i h total (f : () → M B) Q (R : err → world → Prop) w0 w :
  in_order cfg mk w0 → staged w0 w → hash_like h → is_Some (objects w !! _build_bucket_key h) →
  good_identity (files (db w)) u i →
  (∀ e, R e w) →
  (∀ w', in_order cfg mk w' → objects w' = objects w → store_ok cfg mk (files (db w0)) w' → wp (f tt) Q R w') →
  wp (register_row new u info i h total ≫= f) Q R w.
Proof.
  intros I St Hl Ho Hi HR Hf. apply wp_bind. eapply wp_mono.
  - apply (register_spec cfg mk new u info i h total w); [by apply (staged_in_order w0)|done..].
  - intros [] w' (I' & Hobj & Ha & Hb). apply Hf; [done..|].
    apply (store_ok_ext cfg mk _ w); [done..|]. apply St.
  - intros e w' ->. apply HR.
Qed.

Lemma create_keeps F year new u info content w : in_order cfg mk w → keeps (create_file cfg F year new u info content) w.
Proof.
  intros I. assert (S0 : staged w w) by (split; [done|apply I]). pose proof (sha3_like content) as Hl.
  destruct I as [(C & RR & W & SS) S]. assert (I : in_order cfg mk w) by (split; [by split_and!|done]).
  unfold keeps, create_file. apply wp_bind, wp_raise_when; [done|]. intros _.
  apply wp_screen; [done|]. intros p. apply wp_identity; [done|done|]. intros i Hi.
  apply wp_exists; [done|]. cbv zeta.
  assert (Hrest : ∀ w1, staged w w1 → is_Some (objects w1 !! _build_bucket_key (sha3_256 content)) →
    wp (save_preview F (_build_bucket_key (sha3_256 content)) p ≫= λ _,
        register_row new u info i (sha3_256 content) (length_of content) ≫= λ _, mret new)
      (λ _ w', in_order cfg mk w' ∧ store_ok cfg mk (files (db w)) w') (λ _ w', store_ok cfg mk (files (db w)) w') w1).
  { intros w1 S1 Ho. apply (wp_save_preview F _ p _ _ _ w); [done..|]. intros w2 S2 Ho2.
    apply (wp_register _ _ _ _ _ _ _ _ _ w); [done..| |by intros; apply S2|].
    - by rewrite (proj1 S2).
    - intros w3 I3 _ S3. by apply wp_ret. }
  case_bool_decide as Hp.
  - apply wp_bind, wp_ret. by apply Hrest.
  - apply wp_bind. unfold save. apply wp_bind, wp_raise_when; [done|]. intros _. apply wp_modify. apply Hrest.
    + split; [done|]. apply store_ok_save; auto.
    + cbn. rewrite lookup_insert_eq. by eexists.
Qed.

(** Sessions point under [up/]. *)
Definition upload_like (key : string) : Prop := ∀ h, hash_like h → key ≠ _build_bucket_key h.

Lemma delete_elsewhere key (o : gmap string string) h :
  upload_like key → hash_like h → delete key o !! _build_bucket_key h = o !! _build_bucket_key h.
Proof. intros Hu Hh. apply lookup_delete_ne. by apply Hu. Qed.

Lemma insert_elsewhere key c (o : gmap string string) h :
  upload_like key → hash_like h → <[key := c]> o !! _build_bucket_key h = o !! _build_bucket_key h.
Proof. intros Hu Hh. apply lookup_insert_ne. by apply Hu. Qed.

Lemma wp_safe_delete {B} F key (f : () → M B) Q R w :
  wp (f tt) Q R w → wp (f tt) Q R (set_objects (delete key) w) → wp (_safe_delete F key ≫= f) Q R w.
Proof. intros H1 H2. apply wp_bind. unfold _safe_delete. destruct (f_delete F key); [by apply wp_ret|by apply wp_modify]. Qed.

Lemma upload_key_like u : String.length u = 32 → upload_like (upload_key u).
Proof. intros Hu h Hh. apply key_neq_length; [done|]. unfold upload_key. rewrite string_length_app, Hu. done. Qed.

(** The hash under which a direct upload is stored whose content is replaced by
    another between its hashing and its copy. *)
Definition swapped (key : string) (overwritten : option string) (w : world) : gset string :=
  match objects w !! key, overwritten with
  | Some c, Some c' =>
      if decide (sha3_256 c' ≠ sha3_256 c ∧ objects w !! _build_bucket_key (sha3_256 c) = None) then {[ sha3_256 c ]} else ∅
  | _, _ => ∅
  end.

(** Registering a direct upload. *)
Lemma from_upload_keeps F year new u key m overwritten w :
  in_order cfg mk w → upload_like key → swapped key overwritten w ⊆ poisoned mk →
  keeps (_register_from_upload cfg F year new u key m overwritten) w.
Proof.
  intros I Hk Hsw. assert (S0 : staged w w) by (split; [done|apply I]).
  pose proof I as [(C & RR & W & SS) S]. unfold keeps, _register_from_upload.
  apply wp_exists; [done|]. apply wp_bind, wp_raise_when; [done|]. intros _.
  assert (Hdel : store_ok cfg mk (files (db w)) (set_objects (delete key) w)).
  { apply store_ok_elsewhere; [done| |done]. intros o h Hh. by apply delete_elsewhere. }
  unfold _hash_from_storage. apply wp_bind, wp_open; [done|]. intros c Hc.
  destruct (decide _).
  { apply wp_safe_delete; by apply wp_raise. }
  apply wp_ret. cbn [fst snd]. unfold _process_storage_upload. apply wp_bind, wp_open; [done|]. intros c' Hc'.
  rewrite Hc in Hc'. injection Hc' as <-. unfold wp at 1, screen. destruct (process_upload _ _ c) as [p|]; [|done].
  pose proof (sha3_like c) as Hl. cbv zeta. apply wp_identity; [done|done|]. intros i Hi.
  set (w' := match overwritten with Some d => set_objects <[key := d]> w | None => w end).
  assert (Hput : ∀ (B : Type) (f : () → M B) Q R, wp (f tt) Q R w' → wp (client_put key overwritten ≫= f) Q R w).
  { intros B f Q R Hf. apply wp_bind. unfold client_put, w' in *. destruct overwritten; [by apply wp_modify|by apply wp_ret]. }
  assert (Hsame : ∀ h, hash_like h → objects w' !! _build_bucket_key h = objects w !! _build_bucket_key h).
  { intros h Hh. unfold w'. destruct overwritten; [|done]. cbn. by apply insert_elsewhere. }
  assert (Sput : staged w w').
  { split; [by unfold w'; destruct overwritten|]. unfold w'. destruct overwritten; [|done]. apply store_ok_elsewhere; [done| |done].
    intros o h Hh. by apply insert_elsewhere. }
  apply Hput. apply wp_exists; [intros _; apply Sput|].
  assert (Hrest : ∀ w1, staged w w1 → is_Some (objects w1 !! _build_bucket_key (sha3_256 c)) →
    wp (save_preview F (_build_bucket_key (sha3_256 c)) p ≫= λ _,
        register_row new u m i (sha3_256 c) (length_of c) ≫= λ _, _safe_delete F key ≫= λ _, mret new)
      (λ _ w', in_order cfg mk w' ∧ store_ok cfg mk (files (db w)) w') (λ _ w', store_ok cfg mk (files (db w)) w') w1).
  { intros w1 S1 Ho. apply (wp_save_preview F _ p _ _ _ w); [done..|]. intros w2 S2 Ho2.
    apply (wp_register _ _ _ _ _ _ _ _ _ w); [done..| |by intros; apply S2|].
    - by rewrite (proj1 S2).
    - intros w3 I3 _ S3. apply wp_safe_delete; apply wp_ret; [done|].
      assert (Hd : ∀ m, chains m → store_ok cfg mk m w3 → store_ok cfg mk m (set_objects (delete key) w3)).
      { intros m3 C3 H3. apply store_ok_elsewhere; [done| |done]. intros o h Hh. by apply delete_elsewhere. }
      split; [|by apply Hd]. destruct I3 as [D3 S3']. split; [done|]. apply Hd; [apply D3|done]. }
  case_bool_decide as Hp.
  - apply wp_bind, wp_ret. by apply Hrest.
  - apply wp_bind. unfold copy. apply wp_bind, wp_raise_when; [intros _; apply Sput|]. intros _. apply wp_bind, wp_get_state.
    apply wp_bind, wp_get_or_raise; [intros _; apply Sput|]. intros c' Hc'.
    apply wp_modify. apply Hrest.
    + split; [apply Sput|]. apply store_ok_save; [done| |apply Sput]. rewrite Hsame in Hp by done.
      unfold w' in Hc'. destruct overwritten as [d|]; [|left; congruence]. cbn in Hc'. rewrite lookup_insert_eq in Hc'. injection Hc' as <-.
      destruct (decide (sha3_256 d = sha3_256 c)) as [|Hne]; [by left|right]. apply Hsw. unfold swapped. rewrite Hc.
      rewrite decide_True; [by apply elem_of_singleton|]. split; [done|]. by apply eq_None_not_Some.
    + cbn. rewrite lookup_insert_eq. by eexists.
Qed.

(** Claiming a session takes its row only. *)
Lemma in_order_sessions f w :
  (∀ u s, f (sessions (db w)) !! u = Some s → sessions (db w) !! u = Some s ∨ storage_key s = upload_key u ∧ String.length u = 32) →
  in_order cfg mk w → in_order cfg mk (set_sessions f w).
Proof.
  intros Hf [(C & RR & W & SS) S]. split; [split_and!|]; cbn; try done.
  - destruct W. by split.
  - intros u s Hs. destruct (Hf u s Hs) as [Hold|?]; [by apply SS|done].
  - by apply (store_ok_ext cfg mk _ w).
Qed.

Lemma init_keeps fresh info cur w : in_order cfg mk w → keeps (upload_init cfg fresh info cur) w.
Proof.
  intros I. pose proof I as [D S]. unfold keeps, upload_init. destruct (negb _); [by apply wp_ret|].
  cbv zeta. apply wp_bind, wp_get_state, wp_bind, wp_raise_when; [done|]. intros _. apply wp_bind, wp_modify, wp_ret.
  split; [|by apply (store_ok_ext cfg mk _ w)]. apply in_order_sessions; [|done]. intros u s Hs. destruct (decide (u = uuid_hex fresh)) as [->|Hne].
  - rewrite lookup_insert_eq in Hs. injection Hs as <-. right.
    split; [done|]. unfold uuid_hex. apply hex_length.
  - rewrite lookup_insert_ne in Hs by done. by left.
Qed.

Lemma claim_cases {B} upload_id who (f : option UploadSession → M B) Q R w :
  wp (f None) Q R w →
  (∀ s, sessions (db w) !! upload_id = Some s → wp (f (Some s)) Q R (set_sessions (delete upload_id) w)) →
  wp (claim upload_id who ≫= f) Q R w.
Proof.
  intros Hn Hs. apply wp_bind. unfold claim. apply wp_bind, wp_get_state.
  destruct (sessions (db w) !! upload_id) as [s|]; [|by apply wp_ret].
  destruct (decide _); [|by apply wp_ret]. apply wp_bind, wp_modify, wp_ret. by apply Hs.
Qed.

(** ... of the session [upload_id]. *)
Definition swapped_upload (upload_id : string) (overwritten : option string) (w : world) : gset string :=
  match sessions (db w) !! upload_id with Some s => swapped (storage_key s) overwritten w | None => ∅ end.

Lemma claimed_keeps F year new upload_id overwritten s w :
  in_order cfg mk w → swapped_upload upload_id overwritten w ⊆ poisoned mk → sessions (db w) !! upload_id = Some s →
  wp (_register_from_upload cfg F year new (s_uploader s) (storage_key s) (meta s) overwritten)
     (λ _ w', in_order cfg mk w' ∧ store_ok cfg mk (files (db w)) w') (λ _ w', store_ok cfg mk (files (db w)) w')
     (set_sessions (delete upload_id) w).
Proof.
  intros I Hsw Hs. pose proof I as [(_ & _ & _ & SS) _]. destruct (SS _ _ Hs) as [Hk Hu]. unfold swapped_upload in Hsw. rewrite Hs in Hsw.
  apply (from_upload_keeps F year new (s_uploader s) (storage_key s) (meta s) overwritten (set_sessions (delete upload_id) w)).
  - apply in_order_sessions; [|done]. intros u t Ht. left. by apply lookup_delete_Some in Ht as [_ ?].
  - rewrite Hk. by apply upload_key_like.
  - exact Hsw.
Qed.

Lemma confirm_keeps F year new upload_id cur overwritten w :
  in_order cfg mk w → swapped_upload upload_id overwritten w ⊆ poisoned mk →
  keeps (confirm_upload cfg F year new upload_id cur overwritten) w.
Proof.
  intros I Hsw. unfold keeps, confirm_upload. apply claim_cases.
  - apply wp_bind, wp_get_or_raise; [|done]. intros _. apply I.
  - intros s Hs. apply wp_bind, wp_get_or_raise; [done|]. intros t [= <-]. by apply claimed_keeps.
Qed.

Lemma notify_keeps F year new upload_id overwritten w :
  in_order cfg mk w → swapped_upload upload_id overwritten w ⊆ poisoned mk →
  keeps (notify_upload cfg F year new upload_id overwritten) w.
Proof.
  intros I Hsw. unfold keeps, notify_upload. apply claim_cases.
  - apply wp_ret. split; [done|apply I].
  - intros s Hs. apply wp_bind. eapply wp_mono; [by apply claimed_keeps| |done]. intros n w' Hw. by apply wp_ret.
Qed.
End requests.

(** ** Review and deletion, which give content up *)
Section reclaiming.
Context `{Outside, !OutsideLaws} (cfg : settings) (mk : marks).

(** At most the content of the hash [gone] has been given up. *)
Record shrunk (gone : option string) (w0 w : world) : Prop := {
  sh_objects : objects w ⊆ objects w0;
  sh_archive : archive w ⊆ archive w0;
  sh_backups : ∀ h c, backups w !! h = Some c → sha3_256 c = h;
  sh_others : ∀ g, hash_like g → gone ≠ Some g →
    objects w !! _build_bucket_key g = objects w0 !! _build_bucket_key g ∧ archive w !! g = archive w0 !! g
}.

Definition hash_of (f : uuid) (w : world) : option string := files (db w) !! f ≫= sha3_hash.

Definition reclaims {A} (f : uuid) (m : M A) (w : world) : Prop :=
  wp m (λ _ w', in_order cfg mk w' ∧ shrunk (hash_of f w) w w') (λ _ w', shrunk (hash_of f w) w w') w.

Definition no_live (h : string) (m : gmap uuid LibraryFile) : Prop := ∀ k x, m !! k = Some x → is_live h x = false.

Lemma no_live_pending h m k x : no_live h m → m !! k = Some x → sha3_hash x = Some h → status x ≠ PENDING ∧ status x ≠ APPROVED.
Proof.
  intros Hn Hx Hh. specialize (Hn k x Hx). split; intros Hs; apply not_true_iff_false in Hn; apply Hn, is_live_spec; auto.
Qed.

Lemma store_ok_reclaim m w h suffix :
  chains m → hash_like h → no_live h m → suffix ∈ variants → store_ok cfg mk m w →
  store_ok cfg mk m (set_objects (delete (_build_bucket_key h +:+ suffix)) w).
Proof.
  intros C Hl Hn Hs S.
  assert (Hne : ∀ k x g, m !! k = Some x → sha3_hash x = Some g → status x = PENDING ∨ status x = APPROVED →
    _build_bucket_key h +:+ suffix ≠ _build_bucket_key g).
  { intros k x g Hx Hg Hst He. destruct (ch_hash _ C k x Hx) as (g' & Hg' & Hlg).
    apply variant_key in He as [_ ->]; [|done|congruence|done].
    destruct (no_live_pending _ _ _ _ Hn Hx Hg). tauto. }
  split; cbn; try apply S.
  - intros g c Hg Hm Hc. apply lookup_delete_Some in Hc as [_ Hc]. by apply (st_objects _ _ _ _ S).
  - intros k x g Hx Hg Hm Hp. rewrite lookup_delete_ne by (apply (Hne k x g); auto). by apply (st_pending _ _ _ _ S k x).
  - intros k x g Hx Hg Hm Hp. unfold available. cbn. rewrite lookup_delete_ne by (apply (Hne k x g); auto).
    by apply (st_approved _ _ _ _ S k x).
Qed.

Lemma store_ok_unarchive m w h : no_live h m → store_ok cfg mk m w → store_ok cfg mk m (set_archive (delete h) w).
Proof.
  intros Hn S. split; cbn; try apply S.
  - intros g c Hc. apply lookup_delete_Some in Hc as [_ Hc]. by apply (st_archive _ _ _ _ S).
  - intros k x g Hx Hg Hm Hp. destruct (st_approved _ _ _ _ S k x g Hx Hg Hm Hp) as [?|[Ha [y Hy]]]; [by left|]. right. split; [done|]. cbn.
    destruct (decide (g = h)) as [->|Hne]; [|rewrite lookup_delete_ne by done; by exists y].
    destruct (no_live_pending _ _ _ _ Hn Hx Hg). done.
Qed.

Lemma shrunk_objects h w0 w suffix :
  hash_like h → suffix ∈ variants → shrunk (Some h) w0 w → shrunk (Some h) w0 (set_objects (delete (_build_bucket_key h +:+ suffix)) w).
Proof.
  intros Hl Hs [Ho Ha Hb Hn]. split; cbn; [etrans; [apply delete_subseteq|done]|done..|]. intros g Hg Hne. rewrite lookup_delete_ne; [by apply Hn|].
  intros He. apply variant_key in He as [_ ->]; [done..].
Qed.

Lemma shrunk_archive h w0 w : shrunk (Some h) w0 w → shrunk (Some h) w0 (set_archive (delete h) w).
Proof.
  intros [Ho Ha Hb Hn]. split; cbn; [done|etrans; [apply delete_subseteq|done]|done|]. intros g Hg Hne.
  rewrite lookup_delete_ne by congruence. by apply Hn.
Qed.

(** What has the same stores has shrunk as much. *)
Lemma shrunk_same gone w0 w w' :
  objects w' = objects w → archive w' = archive w → (∀ h c, backups w' !! h = Some c → sha3_256 c = h) →
  shrunk gone w0 w → shrunk gone w0 w'.
Proof. intros Ho Ha Hb [So Sa _ Sn]. split; rewrite ?Ho, ?Ha; done. Qed.

Lemma variants_spec F h w0 w :
  chains (files (db w)) → hash_like h → no_live h (files (db w)) → store_ok cfg mk (files (db w)) w → shrunk (Some h) w0 w →
  let good w' := db w' = db w ∧ store_ok cfg mk (files (db w)) w' ∧ shrunk (Some h) w0 w' in
  wp (_delete_content_variants cfg F h) (λ _, good) (λ _, good) w.
Proof.
  intros C Hl Hn S Sh good. unfold _delete_content_variants. apply wp_bind. eapply wp_mono.
  - apply (wp_for_each _ _ good (λ _, good)); [|by unfold good].
    intros suffix w1 Hs (Hd & S1 & Sh1). unfold delete_. apply wp_bind, wp_raise_when; [by unfold good|]. intros _.
    apply wp_modify. split; [done|]. split; [by apply store_ok_reclaim|by apply shrunk_objects].
  - intros [] w1 (Hd & S1 & Sh1). unfold delete_archive. destruct (negb _); [by apply wp_ret|].
    apply wp_bind, wp_raise_when; [by unfold good|]. intros _. apply wp_modify. split; [done|].
    split; [by apply store_ok_unarchive|by apply shrunk_archive].
  - done.
Qed.

(** The events of the search index do not matter to the rewards. *)
Record quiet (w w' : world) : Prop := {
  q_files : files (db w') = files (db w);
  q_sessions : sessions (db w') = sessions (db w);
  q_outbox : filter (λ m, is_points m = true) (outbox (db w')) = filter (λ m, is_points m = true) (outbox (db w));
  q_objects : objects w' = objects w;
  q_archive : archive w' = archive w;
  q_backups : backups w' = backups w
}.

Lemma points_filter d u ev ref : PointsEvent u ev ref ∈ outbox d ↔ PointsEvent u ev ref ∈ filter (λ m, is_points m = true) (outbox d).
Proof. rewrite list_elem_of_filter. cbn. tauto. Qed.

Lemma rewards_quiet w w' : quiet w w' → rewards (db w) → rewards (db w').
Proof.
  intros Q R. split.
  - rewrite (q_outbox _ _ Q). apply R.
  - intros k x. rewrite (q_files _ _ Q), points_filter, (q_outbox _ _ Q), <- points_filter. apply R.
  - intros u ev ref. rewrite (q_files _ _ Q), points_filter, (q_outbox _ _ Q), <- points_filter. apply R.
Qed.

Lemma in_order_quiet w w' : quiet w w' → in_order cfg mk w → in_order cfg mk w'.
Proof.
  intros Q [(C & R & W & SS) S]. split; [split_and!|]; rewrite ?(q_files _ _ Q), ?(q_sessions _ _ Q); try done.
  - by apply (rewards_quiet w).
  - apply (store_ok_ext cfg mk _ w); [apply Q..|done].
Qed.

Lemma quiet_enqueue f w : wp (_enqueue_file_change cfg f) (λ _, quiet w) (λ _ _, False) w.
Proof.
  unfold _enqueue_file_change. destruct (search_sync cfg); [|by apply wp_ret]. apply wp_modify. split; try done. cbn.
  rewrite filter_app. cbn. by rewrite app_nil_r.
Qed.

Lemma quiet_trans w1 w2 w3 : quiet w1 w2 → quiet w2 w3 → quiet w1 w3.
Proof. intros [] []. split; by etrans. Qed.

Lemma quiet_announce f code w : wp (announce_change cfg f code) (λ _, quiet w) (λ _ _, False) w.
Proof.
  unfold announce_change. apply wp_bind. eapply wp_mono; [apply quiet_enqueue| |done]. intros [] w1 Q1.
  apply wp_bind, wp_get_state. apply (wp_for_each _ _ (quiet w) (λ _ _, False)); [|done].
  intros g w2 _ Q2. eapply wp_mono; [apply quiet_enqueue| |done]. intros [] w3 Q3. by eapply quiet_trans.
Qed.

(** Rows after a change of status, and after the count. *)
Lemma status_ident (m : gmap uuid LibraryFile) k st why : ident <$> alter (with_status st why) k m = ident <$> m.
Proof.
  apply map_eq. intros l. rewrite !lookup_fmap. destruct (decide (l = k)) as [->|Hk].
  - rewrite lookup_alter_eq. by destruct (m !! k).
  - by rewrite lookup_alter_ne.
Qed.

Lemma status_lookup (m : gmap uuid LibraryFile) k st why l y :
  alter (with_status st why) k m !! l = Some y →
  ∃ x, m !! l = Some x ∧ sha3_hash y = sha3_hash x ∧ uploader_id y = uploader_id x
    ∧ (l = k ∧ status y = st ∨ l ≠ k ∧ y = x).
Proof.
  intros Hy. destruct (decide (l = k)) as [->|Hk].
  - rewrite lookup_alter_eq in Hy. destruct (m !! k) as [x|]; [|done]. injection Hy as <-. exists x. split_and!; [done..|by left].
  - rewrite lookup_alter_ne in Hy by done. exists y. split_and!; [done..|by right].
Qed.

Lemma status_store (m : gmap uuid LibraryFile) k x st why w :
  m !! k = Some x → (st = REJECTED ∨ st = DELETED ∨ st = APPROVED ∧ status x = PENDING) →
  store_ok cfg mk m w → store_ok cfg mk (alter (with_status st why) k m) w.
Proof.
  intros Hx Hst S. apply (store_ok_rows cfg mk m); [|done]. intros l y Hy Hl.
  destruct (status_lookup _ _ _ _ _ _ Hy) as (z & Hz & Hh & _ & [[-> Hs]|[_ ->]]).
  - exists z. split; [done|]. split; [done|]. right. rewrite Hx in Hz. injection Hz as <-.
    destruct Hst as [->|[->|[-> ?]]]; [destruct Hl; congruence..|done].
  - exists z. auto.
Qed.

Lemma synced_store h m w : store_ok cfg mk m w → store_ok cfg mk (synced h m) w.
Proof.
  apply store_ok_rows. intros k y Hy _. destruct (synced_lookup _ _ _ _ Hy) as (x & Hx & Hh & Hs & _). exists x. auto.
Qed.

(** Taking a row out of the library: rejecting a pending one, deleting any. *)
Lemma removed_ok m k x h st why s o a w :
  db_ok (Tables m s o a) → store_ok cfg mk m w → m !! k = Some x → sha3_hash x = Some h →
  (st = REJECTED ∧ status x = PENDING ∨ st = DELETED) →
  let m' := synced h (alter (with_status st why) k m) in
  db_ok (Tables m' s o a) ∧ store_ok cfg mk m' w.
Proof.
  intros (C & R & W & SS) S Hx Hh Hst m'. cbn in *. split; [split_and!; cbn; [| | |done]|].
  - apply (chains_ident m); [|done]. unfold m'. by rewrite synced_ident, status_ident.
  - apply refs_sync. by eapply refs_status.
  - apply (rewards_rows m _ s s a a o W).
    + intros l y Hy Ha. destruct (synced_lookup _ _ _ _ Hy) as (z & Hz & _ & Hs & Hu).
      destruct (status_lookup _ _ _ _ _ _ Hz) as (z0 & Hz0 & _ & Hu0 & [[-> Hs0]|[_ ->]]).
      * exfalso. destruct Hst as [[-> _]| ->]; congruence.
      * exists z0. split_and!; congruence.
    + intros l y Hy Hs. destruct (decide (l = k)) as [->|Hk].
      * rewrite Hx in Hy. injection Hy as <-.
        destruct (synced_lookup_inv h (alter (with_status st why) k m) k (with_status st why x)) as (y' & Hy' & _ & Hs' & Hu').
        { by rewrite lookup_alter_eq, Hx. }
        exists y'. split; [done|]. split; [by rewrite Hu'|]. rewrite Hs'. cbn.
        destruct Hst as [[_ Hp]| ->]; [destruct Hs; congruence|by right].
      * destruct (synced_lookup_inv h (alter (with_status st why) k m) l y) as (y' & Hy' & _ & Hs' & Hu').
        { by rewrite lookup_alter_ne. }
        exists y'. split; [done|]. by rewrite Hs', Hu'.
  - apply synced_store. eapply status_store; [done| |done]. destruct Hst as [[-> _]| ->]; auto.
Qed.
End reclaiming.

Section review.
Context `{Outside, !OutsideLaws} (cfg : settings) (mk : marks).

Lemma hash_nonempty h : hash_like h → h ≠ ""%string.
Proof. by intros Hl ->. Qed.

Lemma shrunk_refl gone w : store_ok cfg mk (files (db w)) w → shrunk gone w w.
Proof. intros S. split; [done|done|apply S|done]. Qed.

Lemma count_zero h w : count_live_by_hash h (db w) = 0%Z → no_live h (files (db w)).
Proof. intros Hc. exact (proj1 (live_count_zero h (files (db w))) Hc). Qed.

(** The end of a rejection or a deletion: the count, and the content if nobody needs it any more. *)
Lemma removed_world f x h st why w :
  in_order cfg mk w → files (db w) !! f = Some x → sha3_hash x = Some h → (st = REJECTED ∧ status x = PENDING ∨ st = DELETED) →
  let w1 := set_files (λ _, synced h (alter (with_status st why) f (files (db w)))) w in
  in_order cfg mk w1 ∧ ∀ gone, shrunk gone w w1.
Proof.
  intros [D S] Hx Hh Hst w1. destruct (db w) as [m s o a] eqn:Hd. cbn in *.
  destruct (removed_ok cfg mk m f x h st why s o a w) as [D1 S1]; [done..|].
  assert (Hd1 : db w1 = Tables (synced h (alter (with_status st why) f m)) s o a).
  { unfold w1, set_files, set_db. cbn. by rewrite Hd. }
  split; [split; rewrite Hd1; [done|by apply (store_ok_ext cfg mk _ w)]|].
  intros gone. split; [done|done|apply S1|done].
Qed.

(** Approving: the row, its backup and the reward. *)
Lemma approved_ok m k x s o a w :
  db_ok (Tables m s o a) → store_ok cfg mk m w → m !! k = Some x → status x = PENDING →
  ∀ m', ident <$> m' = ident <$> m →
  (∀ l y, m' !! l = Some y → ∃ z, m !! l = Some z ∧ sha3_hash y = sha3_hash z ∧ uploader_id y = uploader_id z
     ∧ ref_count y = ref_count z ∧ (l = k ∧ status y = APPROVED ∨ l ≠ k ∧ status y = status z)) →
  let e := PointsEvent (uploader_id x) "file_approved" (file_ref k) in
  db_ok (Tables m' s (o ++ [e]) a) ∧ store_ok cfg mk m' w.
Proof.
  intros (C & R & W & SS) S Hx Hp m' Hid Hm e. cbn in *.
  assert (Hb : ∀ l z, m !! l = Some z → ∃ y, m' !! l = Some y).
  { intros l z Hz. assert (Hl := f_equal (lookup l) Hid). rewrite !lookup_fmap, Hz in Hl.
    destruct (m' !! l) as [y|]; [by exists y|done]. }
  assert (Hfiles : ∀ u ev ref, PointsEvent u ev ref ∈ o → ref ≠ file_ref k).
  { intros u ev ref He ->. destruct (rw_from _ W u ev _ He) as (l & z & Hz & _ & _ & Hr & Hs).
    assert (k = l) as <-. { unfold file_ref in Hr. apply append_inj in Hr as [_ Hr]; [|done]. by apply uuid_str_inj. }
    cbn in Hz. rewrite Hx in Hz. injection Hz as <-. rewrite Hp in Hs. by destruct Hs. }
  split; [split_and!; cbn; [| | |done]|].
  - by apply (chains_ident m).
  - apply (refs_keep m); [done| |].
    + intros l y Hy. destruct (Hm l y Hy) as (z & Hz & ? & _ & ? & _). by exists z.
    + intros g l. split.
      * intros (z & Hz & Hl). destruct (Hb l z Hz) as (y & Hy). exists y. split; [done|].
        destruct (Hm l y Hy) as (z' & Hz' & Hh & _ & _ & Hs). rewrite Hz in Hz'. injection Hz' as <-.
        apply is_live_spec in Hl as [Hg Hl]. apply is_live_spec. split; [congruence|]. destruct Hs as [[_ ->]|[_ ->]]; auto.
      * intros (y & Hy & Hl). destruct (Hm l y Hy) as (z & Hz & Hh & _ & _ & Hs). exists z. split; [done|].
        apply is_live_spec in Hl as [Hg Hl]. apply is_live_spec. split; [congruence|].
        destruct Hs as [[-> _]|[_ <-]]; [|done]. rewrite Hx in Hz. injection Hz as <-. by left.
  - split; cbn.
    + rewrite filter_app. cbn. apply NoDup_app. split_and!; [apply (rw_once _ W)| |apply NoDup_singleton].
      intros mg [_ Hmg]%list_elem_of_filter Hin. apply list_elem_of_singleton in Hin as ->. by apply (Hfiles _ _ _ Hmg).
    + intros l y Hy Ha. apply elem_of_app. destruct (Hm l y Hy) as (z & Hz & _ & -> & _ & Hs). destruct Hs as [[-> _]|[Hl Hs]].
      * right. rewrite Hx in Hz. injection Hz as <-. by left.
      * left. apply (rw_approved _ W l z Hz). congruence.
    + intros u ev ref [He|He]%elem_of_app.
      * destruct (rw_from _ W u ev ref He) as (l & z & Hz & -> & -> & -> & Hs). cbn in *.
        destruct (Hb l z Hz) as (y & Hy). exists l, y. destruct (Hm l y Hy) as (z' & Hz' & _ & -> & _ & Hs').
        rewrite Hz in Hz'. injection Hz' as <-. split_and!; [done..|]. destruct Hs' as [[_ ->]|[_ ->]]; auto.
      * apply list_elem_of_singleton in He as [= -> -> ->]. destruct (Hb k x Hx) as (y & Hy).
        exists k, y. destruct (Hm k y Hy) as (z' & Hz' & _ & -> & _ & Hs'). rewrite Hx in Hz'. injection Hz' as <-.
        split_and!; [done..|]. destruct Hs' as [[_ ->]|[? _]]; [by left|done].
  - apply (store_ok_rows cfg mk m); [|done]. intros l y Hy _. destruct (Hm l y Hy) as (z & Hz & Hh & _ & _ & Hs).
    exists z. split; [done|]. split; [done|]. destruct Hs as [[-> _]|[_ ->]]; [|by left]. right.
    rewrite Hx in Hz. by injection Hz as <-.
Qed.

(** A backup only adds to the backups, and what it adds is right. *)
Lemma backup_spec F key h w :
  (∀ h c, backups w !! h = Some c → sha3_256 c = h) →
  let good w' := db w' = db w ∧ objects w' = objects w ∧ archive w' = archive w
                 ∧ ∀ h c, backups w' !! h = Some c → sha3_256 c = h in
  wp (backup_file cfg F key h) (λ _, good) (λ _, good) w.
Proof.
  intros Hb good. unfold backup_file. destruct (negb _); [by apply wp_ret|]. apply wp_bind, wp_raise_when; [done|]. intros _.
  unfold _copy_verified. apply wp_bind, wp_get_state. destruct (backups w !! h) as [c|] eqn:Hh.
  - by apply wp_raise_when.
  - apply wp_open; [done|]. intros c Hc. apply wp_bind, wp_raise_when; [done|]. intros Hs%bool_decide_eq_false%dec_stable.
    apply wp_modify. split_and!; try done. intros g d. cbn. destruct (decide (g = h)) as [->|Hne].
    + rewrite lookup_insert_eq. congruence.
    + rewrite lookup_insert_ne by done. apply Hb.
Qed.
End review.

Section reviewing.
Context `{Outside, !OutsideLaws} (cfg : settings) (mk : marks).

Lemma store_ok_backups m w w' :
  objects w' = objects w → archive w' = archive w → (∀ h c, backups w' !! h = Some c → sha3_256 c = h) →
  store_ok cfg mk m w → store_ok cfg mk m w'.
Proof. intros Ho Ha Hb S. split; [|rewrite Ha|exact Hb| |unfold available; rewrite Ho, Ha]; rewrite ?Ho; apply S. Qed.

Lemma audit_in_order who f st w : in_order cfg mk w → in_order cfg mk (record_audit who f st w).
Proof.
  intros [(C & R & W & SS) S]. split; [split_and!; try done; by destruct W|by apply (store_ok_ext cfg mk _ w)].
Qed.

(** What the approval does to the row, the backup date included. *)
Lemma approved_rows (m : gmap uuid LibraryFile) k x why t :
  m !! k = Some x → status x = PENDING →
  let m1 := alter (with_status APPROVED why) k m in
  let m' := match t with Some t => alter (with_backup t) k m1 | None => m1 end in
  ident <$> m' = ident <$> m
  ∧ ∀ l y, m' !! l = Some y → ∃ z, m !! l = Some z ∧ sha3_hash y = sha3_hash z ∧ uploader_id y = uploader_id z
      ∧ ref_count y = ref_count z ∧ (l = k ∧ status y = APPROVED ∨ l ≠ k ∧ status y = status z).
Proof.
  intros Hx Hp m1 m'.
  assert (H1 : m1 = <[k := with_status APPROVED why x]> m) by apply (alter_as_insert _ _ _ _ Hx).
  assert (Hm' : ∃ y, m' = <[k := y]> m ∧ ident y = ident x ∧ status y = APPROVED ∧ ref_count y = ref_count x).
  { unfold m'. rewrite H1. destruct t as [t|].
    - rewrite (alter_as_insert _ _ _ (with_status APPROVED why x)) by apply lookup_insert_eq.
      rewrite insert_insert_eq. by eexists.
    - by eexists. }
  destruct Hm' as (y & -> & Hi & Hs & Hr). split.
  - rewrite fmap_insert, Hi. apply insert_id. by rewrite lookup_fmap, Hx.
  - intros l z Hz. destruct (decide (l = k)) as [->|Hne].
    + rewrite lookup_insert_eq in Hz. injection Hz as <-. exists x. injection Hi as -> -> _ _ _ _ _ _.
      split_and!; [done..|by left].
    + rewrite lookup_insert_ne in Hz by done. exists z. split_and!; [done..|by right].
Qed.

Lemma approve_spec F f why x w :
  in_order cfg mk w → files (db w) !! f = Some x → status x = PENDING →
  wp ((match sha3_hash x with
       | Some h =>
           if decide (h = ""%string) then mret tt else
           backup_file cfg F (_build_bucket_key h) h ≫= λ _,
           if backup_dir cfg then modify (λ w, set_files (alter (with_backup (clock w)) f) w) else mret tt
       | None => mret tt
       end) ≫= λ _,
      modify (send (PointsEvent (uploader_id x) "file_approved" (file_ref f))) ≫= λ _,
      announce_change cfg f (document_code x))
     (λ _ w', in_order cfg mk w' ∧ ∀ gone, shrunk gone w w') (λ _ w', ∀ gone, shrunk gone w w')
     (set_files (alter (with_status APPROVED why) f) w).
Proof.
  intros I Hx Hp. pose proof I as [(C & R & W & SS) S]. destruct (ch_hash _ C f x Hx) as (h & Hh & Hl).
  rewrite Hh, decide_False by (by apply hash_nonempty). apply wp_bind, wp_bind.
  eapply wp_mono; [apply backup_spec, S| |].
  2: { intros e w' (_ & Ho & Ha & Hb) gone. by apply (shrunk_same gone w w); [..|apply (shrunk_refl cfg mk)]. }
  intros [] w1 (Hd & Ho & Ha & Hb).
  assert (Hrest : ∀ t, wp (modify (send (PointsEvent (uploader_id x) "file_approved" (file_ref f))) ≫= λ _,
      announce_change cfg f (document_code x))
     (λ _ w', in_order cfg mk w' ∧ ∀ gone, shrunk gone w w') (λ _ w', ∀ gone, shrunk gone w w')
     (match t with Some t => set_files (alter (with_backup t) f) w1 | None => w1 end)).
  { intros t. destruct (approved_rows (files (db w)) f x why t Hx Hp) as [Hid Hm].
    set (m' := match t with Some t => _ | None => _ end) in *.
    apply wp_bind, wp_modify. set (w3 := send _ _).
    assert (D3 : db w3 = Tables m' (sessions (db w)) (outbox (db w) ++ [PointsEvent (uploader_id x) "file_approved" (file_ref f)]) (audit (db w))).
    { unfold w3, m', send, set_files, set_db. destruct t; cbn; rewrite Hd; done. }
    assert (O3 : objects w3 = objects w ∧ archive w3 = archive w ∧ backups w3 = backups w1).
    { unfold w3. destruct t; cbn; by rewrite Ho, Ha. }
    destruct (approved_ok cfg mk (files (db w)) f x (sessions (db w)) (outbox (db w)) (audit (db w)) w) with (m' := m') as [DB ST];
      [by destruct (db w)|exact S|exact Hx|exact Hp|exact Hid|exact Hm|].
    assert (I3 : in_order cfg mk w3).
    { split; rewrite D3; [done|]. destruct O3 as (Ho3 & Ha3 & Hb3).
      apply (store_ok_backups _ w); [done|done|by rewrite Hb3|done]. }
    eapply wp_mono; [apply quiet_announce| |done]. intros [] w4 Q4.
    split; [by apply (in_order_quiet cfg mk w3)|].
    destruct O3 as (Ho3 & Ha3 & Hb3). intros gone. apply (shrunk_same gone w w); [| |intros g c|by apply (shrunk_refl cfg mk)].
    - by rewrite (q_objects _ _ Q4).
    - by rewrite (q_archive _ _ Q4).
    - rewrite (q_backups _ _ Q4), Hb3. apply Hb. }
  destruct (backup_dir cfg).
  - apply wp_modify. apply (Hrest (Some (clock w1))).
  - apply wp_ret. apply (Hrest None).
Qed.

(** What happens to the content of a row that has been taken out. *)
Lemma give_up_spec F h w0 w :
  in_order cfg mk w → shrunk (Some h) w0 w → hash_like h →
  wp (if decide (count_live_by_hash h (db w) = 0)%Z then _delete_content_variants cfg F h else mret tt)
     (λ _ w', in_order cfg mk w' ∧ shrunk (Some h) w0 w') (λ _ w', shrunk (Some h) w0 w') w.
Proof.
  intros [(C & D) S] Sh Hl. destruct (decide _) as [Hz|]; [|by apply wp_ret].
  eapply wp_mono; [apply (variants_spec cfg mk F h w0 w); try done; by apply count_zero| |].
  - intros [] w' (Hd & S' & Sh'). split; [|done]. split; rewrite Hd; done.
  - intros e w' (_ & _ & Sh'). done.
Qed.

Lemma review_reclaims F f target why is_admin who w :
  in_order cfg mk w → reclaims cfg mk f (review_file cfg F f target why is_admin who) w.
Proof.
  intros I. pose proof I as [(C & R & W & SS) S]. assert (Sh : ∀ gone, shrunk gone w w) by (intros gone; by apply (shrunk_refl cfg mk)).
  unfold reclaims, review_file. apply wp_bind, wp_raise_when; [done|]. intros _. apply wp_bind, wp_raise_when; [done|].
  intros Ht%negb_false_iff%bool_decide_eq_true. apply wp_bind, wp_get_state, wp_bind, wp_get_or_raise; [done|]. intros x Hx.
  apply wp_bind, wp_raise_when; [done|]. intros Hp%bool_decide_eq_false%dec_stable.
  unfold set_status. apply wp_bind, wp_modify. destruct (ch_hash _ C f x Hx) as (h & Hh & Hl).
  assert (Hof : hash_of f w = Some h) by (unfold hash_of; by rewrite Hx). rewrite Hof.
  destruct Ht as [->| ->].
  - apply wp_bind, wp_ret. apply wp_bind. eapply wp_mono; [by apply (approve_spec F f why x w)| |by intros e w' Sh'].
    intros [] w' [I' Sh']. apply wp_modify. split; [by apply audit_in_order|]. by apply (shrunk_same _ w w'); [..|apply (sh_backups _ _ _ (Sh' None))|].
  - rewrite Hh. apply wp_bind. rewrite (decide_False (P:=h = ""%string)) by (by apply hash_nonempty).
    unfold sync_ref_count. rewrite (decide_False (P:=h = ""%string)) by (by apply hash_nonempty). apply wp_bind, wp_modify.
    apply wp_bind, wp_get_state.
    destruct (removed_world cfg mk f x h REJECTED why w I Hx Hh) as [I1 Sh1]; [by left|].
    eapply wp_mono; [by apply (give_up_spec F h w _ I1 (Sh1 _))| |done].
    intros [] w' [I' Sh']. apply wp_bind, wp_ret, wp_modify. split; [by apply audit_in_order|].
    by apply (shrunk_same _ w w'); [..|apply (sh_backups _ _ _ Sh')|].
Qed.

Lemma delete_reclaims F f actor is_admin w : in_order cfg mk w → reclaims cfg mk f (delete_file cfg F f actor is_admin) w.
Proof.
  intros I. pose proof I as [(C & R & W & SS) S]. assert (Sh : ∀ gone, shrunk gone w w) by (intros gone; by apply (shrunk_refl cfg mk)).
  unfold reclaims, delete_file. apply wp_bind, wp_get_state, wp_bind, wp_get_or_raise; [done|]. intros x Hx.
  apply wp_bind, wp_raise_when; [done|]. intros _. destruct (decide (status x = DELETED)); [by apply wp_ret|].
  unfold set_status. apply wp_bind, wp_modify. apply wp_bind.
  destruct (ch_hash _ C f x Hx) as (h & Hh & Hl). rewrite Hh, decide_False by (by apply hash_nonempty).
  assert (Hof : hash_of f w = Some h) by (unfold hash_of; by rewrite Hx). rewrite Hof.
  eapply wp_mono; [apply quiet_announce| |done]. intros [] w1 Q1. apply wp_bind, wp_get_state. cbv zeta.
  unfold sync_ref_count. rewrite (decide_False (P:=h = ""%string)) by (by apply hash_nonempty). apply wp_bind, wp_modify.
  set (w2 := set_files _ w1).
  destruct (removed_world cfg mk f x h DELETED (review_comment x) w I Hx Hh) as [I1 Sh1]; [by right|].
  assert (Q2 : quiet (set_files (λ _, synced h (alter (with_status DELETED (review_comment x)) f (files (db w)))) w) w2).
  { destruct Q1 as [Qf Qs Qo Qb Qa Qc]. split; unfold w2; cbn; try done.
    change (synced h (files (db w1)) = synced h (alter (with_status DELETED (review_comment x)) f (files (db w)))).
    by rewrite Qf. }
  assert (I2 : in_order cfg mk w2) by (by eapply in_order_quiet).
  assert (Sh2 : shrunk (Some h) w w2).
  { specialize (Sh1 (Some h)). apply (shrunk_same _ w _ _ (q_objects _ _ Q2) (q_archive _ _ Q2)); [|exact Sh1].
    rewrite (q_backups _ _ Q2). apply (sh_backups _ _ _ Sh1). }
  assert (Hcount : count_live_by_hash h (db w1) = count_live_by_hash h (db w2)).
  { change (live_count h (files (db w1)) = live_count h (synced h (files (db w1)))). unfold synced.
    rewrite live_count_fmap; [done|]. intros y. by destruct (decide _). }
  assert (Hpos : (0 ≤ count_live_by_hash h (db w1))%Z) by (unfold count_live_by_hash; lia).
  destruct (decide (count_live_by_hash h (db w1) ≤ 0)%Z) as [Hz|Hz].
  - pose proof (give_up_spec F h w w2 I2 Sh2 Hl) as Hg. rewrite decide_True in Hg by lia. exact Hg.
  - apply wp_ret. done.
Qed.
End reviewing.

(** ** The jobs, and the requests that only count *)
Section jobs.
Context `{Outside, !OutsideLaws} (cfg : settings) (mk : marks).

(** All that the invariant looks at. *)
Definition core (x : LibraryFile) := (ident x, status x, ref_count x).

Lemma core_lookup (m m' : gmap uuid LibraryFile) k y :
  core <$> m' = core <$> m → m' !! k = Some y →
  ∃ x, m !! k = Some x ∧ ident y = ident x ∧ status y = status x ∧ ref_count y = ref_count x.
Proof.
  intros He Hy. assert (Hk := f_equal (lookup k) He). rewrite !lookup_fmap, Hy in Hk.
  destruct (m !! k) as [x|]; [|done]. cbn in Hk. apply (inj Some) in Hk. exists x. split; [done|].
  unfold core in Hk. split_and!; congruence.
Qed.

Lemma core_ident (m m' : gmap uuid LibraryFile) : core <$> m' = core <$> m → ident <$> m' = ident <$> m.
Proof.
  intros He. apply (f_equal (fmap (λ c, c.1.1))) in He. by rewrite <- !map_fmap_compose in He.
Qed.

Lemma ident_parts x y : ident y = ident x → sha3_hash y = sha3_hash x ∧ uploader_id y = uploader_id x ∧ document_code y = document_code x
  ∧ version y = version x ∧ classification y = classification x ∧ project_id y = project_id x.
Proof. by intros [=]. Qed.

Lemma in_order_core f w : core <$> f (files (db w)) = core <$> files (db w) → in_order cfg mk w → in_order cfg mk (set_files f w).
Proof.
  intros He [(C & R & W & SS) S]. set (m := files (db w)) in *. split; [split_and!|]; cbn; [| | |done|].
  - apply (chains_ident m); [by apply core_ident|done].
  - apply (refs_keep m); [done| |].
    + intros k y Hy. destruct (core_lookup _ _ _ _ He Hy) as (x & Hx & [Hh _]%ident_parts & _ & Hr). by exists x.
    + intros g k. split.
      * intros (x & Hx & Hl). destruct (core_lookup _ _ _ _ (eq_sym He) Hx) as (y & Hy & [Hh _]%ident_parts & Hs & _).
        exists y. split; [done|]. apply is_live_spec in Hl. apply is_live_spec. by rewrite <- Hh, <- Hs.
      * intros (y & Hy & Hl). destruct (core_lookup _ _ _ _ He Hy) as (x & Hx & [Hh _]%ident_parts & Hs & _).
        exists x. split; [done|]. apply is_live_spec in Hl. apply is_live_spec. by rewrite <- Hh, <- Hs.
  - unfold m in He. destruct (db w) as [m0 s o a]. cbn in *. apply (rewards_rows m0 _ s s a a o W).
    + intros k y Hy Ha. destruct (core_lookup _ _ _ _ He Hy) as (x & Hx & Hi & Hs & _). apply ident_parts in Hi as (_ & Hu & _).
      exists x. split_and!; congruence.
    + intros k x Hx Hst. destruct (core_lookup _ _ _ _ (eq_sym He) Hx) as (y & Hy & Hi & Hs & _). apply ident_parts in Hi as (_ & Hu & _).
      exists y. rewrite <- Hs. split_and!; congruence.
  - apply (store_ok_ext cfg mk _ w); [done..|]. apply (store_ok_rows cfg mk m); [|done].
    intros k y Hy _. destruct (core_lookup _ _ _ _ He Hy) as (x & Hx & [Hh _]%ident_parts & Hs & _). exists x. auto.
Qed.

Lemma core_fmap (f : LibraryFile → LibraryFile) (m : gmap uuid LibraryFile) : (∀ x, core (f x) = core x) → core <$> (f <$> m) = core <$> m.
Proof. intros Hf. rewrite <- map_fmap_compose. apply map_fmap_ext. intros k x _. apply Hf. Qed.

Lemma core_alter (f : LibraryFile → LibraryFile) k (m : gmap uuid LibraryFile) : (∀ x, core (f x) = core x) → core <$> alter f k m = core <$> m.
Proof.
  intros Hf. apply map_eq. intros l. rewrite !lookup_fmap. destruct (decide (l = k)) as [->|Hk].
  - rewrite lookup_alter_eq. destruct (m !! k) as [x|]; [|done]. cbn. by rewrite Hf.
  - by rewrite lookup_alter_ne.
Qed.

Lemma counter_spec f d v w : in_order cfg mk w → keeps cfg mk (_increment_counter f d v) w.
Proof.
  intros I. unfold keeps, _increment_counter. pose proof I as [_ S].
  apply wp_bind, wp_get_state, wp_bind, wp_get_or_raise; [done|]. intros x _. apply wp_bind, wp_raise_when; [done|]. intros _.
  apply wp_bind, wp_modify, wp_ret. split; [|by apply (store_ok_ext cfg mk _ w)].
  apply in_order_core; [|done]. by apply core_alter.
Qed.

(** Requests that leave the world alone up to a counter. *)
Lemma wp_keeps_bind {A B} (m : M A) (f : A → M B) w :
  in_order cfg mk w → keeps cfg mk m w → (∀ a w', in_order cfg mk w' → store_ok cfg mk (files (db w)) w' →
    wp (f a) (λ _ w', in_order cfg mk w' ∧ store_ok cfg mk (files (db w)) w') (λ _ w', store_ok cfg mk (files (db w)) w') w') →
  keeps cfg mk (m ≫= f) w.
Proof. intros I Hm Hf. apply wp_bind. eapply wp_mono; [exact Hm| |done]. intros a w' [I' S']. by apply Hf. Qed.

Lemma keeps_still {A} (m : M A) w : in_order cfg mk w → wp m (λ _ w', w' = w) (λ _ w', w' = w) w → keeps cfg mk m w.
Proof. intros I Hm. eapply wp_mono; [exact Hm| |]; intros ? ? ->; [split; [done|apply I]|apply I]. Qed.

Lemma visible_still x viewer w : wp (_require_visible x viewer) (λ _ w', w' = w) (λ _ w', w' = w) w.
Proof. unfold _require_visible. apply wp_bind, wp_get_state. by apply wp_raise_when. Qed.

Lemma get_file_keeps f bump viewer enforce w : in_order cfg mk w → keeps cfg mk (get_file f bump viewer enforce) w.
Proof.
  intros I. pose proof I as [_ S]. unfold keeps, get_file. apply wp_bind, wp_get_state, wp_bind, wp_get_or_raise; [done|]. intros x _.
  apply wp_bind. apply wp_mono with (Q := λ _ w', w' = w) (R := λ _ w', w' = w); [|intros [] ? ->|by intros ? ? ->].
  - destruct enforce; [apply visible_still|by apply wp_ret].
  - destruct bump; [|by apply wp_ret]. apply wp_keeps_bind; [done|by apply counter_spec|]. intros n w' I' S'. by apply wp_ret.
Qed.

Lemma serve_keeps F f how viewer w : in_order cfg mk w → keeps cfg mk (serve_content cfg F f how viewer) w.
Proof.
  intros I. pose proof I as [_ S]. unfold keeps, serve_content. apply wp_bind, wp_get_state, wp_bind, wp_get_or_raise; [done|]. intros x _.
  apply wp_bind. eapply wp_mono; [apply visible_still|intros [] ? ->|by intros ? ? ->].
  apply wp_bind, wp_raise_when; [done|]. intros _. apply wp_bind, wp_get_or_raise; [done|]. intros h _. cbv zeta.
  apply wp_exists; [done|]. apply wp_bind, wp_raise_when; [done|]. intros _.
  destruct how; [|apply wp_bind, wp_ret; by apply wp_ret].
  apply wp_bind, wp_bind. eapply wp_mono; [by apply counter_spec| |done]. intros n w' [I' S']. apply wp_ret. by apply wp_ret.
Qed.

Lemma download_keeps f cur w : in_order cfg mk w → keeps cfg mk (download_url cfg f cur) w.
Proof.
  intros I. pose proof I as [_ S]. unfold keeps, download_url. apply wp_bind, wp_get_state, wp_bind, wp_get_or_raise; [done|]. intros x _.
  apply wp_bind. eapply wp_mono; [apply visible_still|intros [] ? ->|by intros ? ? ->].
  apply wp_bind, wp_raise_when; [done|]. intros _. apply wp_bind, wp_get_or_raise; [done|]. intros h _.
  apply wp_keeps_bind; [done|by apply counter_spec|]. intros n w' I' S'. destruct (_ && _); by apply wp_ret.
Qed.

(** Archiving: the object goes only when the archive has it and every row is approved. *)
Lemma archive_spec F key h w :
  store_ok cfg mk (files (db w)) w → archive_dir cfg = true →
  let good w' := db w' = db w ∧ objects w' = objects w ∧ backups w' = backups w ∧ store_ok cfg mk (files (db w)) w' in
  wp (archive_file cfg F key h) (λ _ w', good w' ∧ is_Some (archive w' !! h)) (λ _, good) w.
Proof.
  intros S Ha good. unfold archive_file. rewrite Ha. cbn [negb]. apply wp_bind, wp_raise_when; [done|]. intros _.
  unfold _copy_verified. apply wp_bind, wp_get_state. destruct (archive w !! h) as [c|] eqn:Hh.
  - apply wp_raise_when; [done|]. intros _. split; [done|]. rewrite Hh. by eexists.
  - apply wp_open; [done|]. intros c Hc. apply wp_bind, wp_raise_when; [done|]. intros Hs%bool_decide_eq_false%dec_stable.
    apply wp_modify. split; [|cbn; rewrite lookup_insert_eq; by eexists]. split_and!; try done.
    destruct S as [S1 S2 S3 S4 S5]. split; cbn; try done.
    + intros g d. destruct (decide (g = h)) as [->|Hne]; [rewrite lookup_insert_eq; congruence|].
      rewrite lookup_insert_ne by done. apply S2.
    + intros k x g Hx Hg Hm Hst. destruct (S5 k x g Hx Hg Hm Hst) as [?|[? Hin]]; [by left|]. right. split; [done|]. cbn.
      destruct (decide (g = h)) as [->|Hne]; [rewrite lookup_insert_eq; by eexists|]. by rewrite lookup_insert_ne.
Qed.

Lemma archive_one_keeps F cutoff h w : archive_dir cfg = true → in_order cfg mk w → keeps cfg mk (archive_one cfg F cutoff h) w.
Proof.
  intros Ha I. pose proof I as [(C & R & W & SS) S]. unfold keeps, archive_one. apply wp_bind, wp_get_state. cbv zeta.
  destruct (_ || _ || negb (forallb _ _)) eqn:Hc; [by apply wp_ret|].
  apply orb_false_iff in Hc as [Hc Hcold]. apply orb_false_iff in Hc as [_ Hne].
  apply negb_false_iff in Hcold. rewrite forallb_forall in Hcold.
  apply wp_exists; [done|]. destruct (negb _); [by apply wp_ret|].
  apply wp_bind. eapply wp_mono; [by apply archive_spec| |by intros ? ? (_ & _ & _ & ?)].
  intros [] w1 [(Hd & Ho & Hb & S1) Har]. apply wp_bind, wp_modify. unfold delete_.
  assert (I1 : in_order cfg mk w1) by (split; rewrite Hd; done).
  set (w2 := set_files _ w1). assert (I2 : in_order cfg mk w2).
  { apply in_order_core; [|done]. apply core_fmap. intros x. by destruct (is_live h x). }
  apply wp_bind, wp_raise_when; [by intros _; apply (store_ok_ext cfg mk _ w1)|]. intros _. apply wp_modify.
  assert (Happroved : ∀ k x, files (db w) !! k = Some x → sha3_hash x = Some h → status x ≠ PENDING).
  { intros k x Hx Hh Hp. assert (Hin : (k, x) ∈ live_rows h (db w)).
    { unfold live_rows. apply list_elem_of_filter. split; [apply is_live_spec; auto|by apply elem_of_map_to_list]. }
    specialize (Hcold _ (proj1 (list_elem_of_In _ _) Hin)). unfold cold_row in Hcold. cbn in Hcold.
    rewrite !andb_true_iff, !bool_decide_eq_true in Hcold. destruct Hcold as [[Hst _] _]. congruence. }
  assert (Hlive : is_Some (archive w1 !! h)) by done.
  assert (Hhash : hash_like h).
  { apply bool_decide_eq_false in Hne. destruct (live_rows h (db w)) as [|[k x] l] eqn:Hl; [done|].
    assert (Hin : (k, x) ∈ live_rows h (db w)) by (rewrite Hl; left). unfold live_rows in Hin.
    apply list_elem_of_filter in Hin as [Hlv Hin]. apply elem_of_map_to_list in Hin. apply is_live_spec in Hlv as [Hh _].
    destruct (ch_hash _ C k x Hin) as (g & Hg & Hlg). cbn in Hh. congruence. }
  assert (Hdel : ∀ m v, store_ok cfg mk m v → is_Some (archive v !! h) → (∀ k x, m !! k = Some x → sha3_hash x = Some h → status x ≠ PENDING) →
    (∀ k x g, m !! k = Some x → sha3_hash x = Some g → hash_like g) → store_ok cfg mk m (set_objects (delete (_build_bucket_key h)) v)).
  { intros m v [V1 V2 V3 V4 V5] Hv Hm Hg. split; cbn; try done.
    - intros g c Hl Hk Hx. apply lookup_delete_Some in Hx as [_ Hx]. by apply V1.
    - intros k x g Hx Hh Hk Hp. rewrite lookup_delete_ne; [by apply (V4 k x)|]. intros He.
      apply key_inj in He as ->; [by destruct (Hm k x Hx Hh)|done|by apply (Hg k x)].
    - intros k x g Hx Hh Hk Hp. destruct (decide (g = h)) as [->|Hgh]; [by right|].
      destruct (V5 k x g Hx Hh Hk Hp) as [?|?]; [|by right]. left. cbn. rewrite lookup_delete_ne; [done|].
      intros He. apply Hgh. symmetry. apply key_inj; [done|by apply (Hg k x)|done]. }
  assert (Hlike : ∀ m, chains m → ∀ k x g, m !! k = Some x → sha3_hash x = Some g → hash_like g).
  { intros m Cm k x g Hx Hh. destruct (ch_hash _ Cm k x Hx) as (g' & Hg' & ?). congruence. }
  destruct I2 as [D2 S2]. split; [split; [exact D2|]|].
  - apply Hdel; [done|done| |by apply Hlike, D2]. intros k y Hy Hh Hp. unfold w2 in Hy. cbn in Hy. rewrite Hd in Hy.
    rewrite lookup_fmap in Hy. destruct (files (db w) !! k) as [x|] eqn:Hx; [|done]. injection Hy as <-.
    destruct (is_live h x); cbn in *; by apply (Happroved k x).
  - apply (store_ok_ext cfg mk _ (set_objects (delete (_build_bucket_key h)) w1)); [done..|].
    apply Hdel; [done|done|done|by apply Hlike].
Qed.

Lemma backup_one_keeps F h w : in_order cfg mk w → keeps cfg mk (backup_one cfg F h) w.
Proof.
  intros I. pose proof I as [(C & R & W & SS) S]. unfold keeps, backup_one. destruct (decide _); [by apply wp_ret|].
  apply wp_exists; [done|]. destruct (negb _); [by apply wp_ret|].
  pose proof (backup_spec cfg F (_build_bucket_key h) h w) as Hb. cbv zeta in Hb. unfold wp in Hb |- *.
  specialize (Hb (st_backups _ _ _ _ S)). destruct (backup_file cfg F _ h w) as [[[]|e] w1]; destruct Hb as (Hd & Ho & Ha & Hb).
  - assert (S1 : store_ok cfg mk (files (db w)) w1) by (by apply (store_ok_backups cfg mk _ w)).
    split; [|by apply (store_ok_ext cfg mk _ w1)]. apply in_order_core; [|by split; rewrite Hd].
    apply core_fmap. intros x. by destruct (decide _).
  - assert (S1 : store_ok cfg mk (files (db w)) w1) by (by apply (store_ok_backups cfg mk _ w)). split; [|done]. by split; rewrite Hd.
Qed.

(** Clearing abandoned uploads. *)
Lemma cleanup_one_keeps F s w :
  in_order cfg mk w → sessions (db w) !! s.1 = Some s.2 ∨ upload_like (storage_key s.2) →
  wp (cleanup_one F s) (λ _ w', in_order cfg mk w' ∧ files (db w') = files (db w)) (λ _ _, False) w.
Proof.
  intros I Hs. pose proof I as [(C & R & W & SS) S]. unfold cleanup_one. destruct (f_delete F _); [by apply wp_ret|].
  apply wp_bind, wp_modify, wp_modify. split; [|done].
  assert (Hk : upload_like (storage_key s.2)).
  { destruct Hs as [Hs|?]; [|done]. destruct (SS _ _ Hs) as [-> ?]. by apply upload_key_like. }
  apply in_order_sessions; [intros u t Ht; left; by apply lookup_delete_Some in Ht as [_ ?]|].
  split; [done|]. apply store_ok_elsewhere; [done| |done]. intros o h Hh. by apply delete_elsewhere.
Qed.
End jobs.

(** ** Requests in sequence *)
Section run.
Context `{Outside, !OutsideLaws} (cfg : settings).

Inductive op :=
  | Create (F : faults) (year : Z) (new uploader : uuid) (info : FileCreate) (content : string)
  | Init (fresh : uuid) (info : FileCreate) (cur : CurrentUser)
  | Confirm (F : faults) (year : Z) (new : uuid) (upload_id : string) (cur : CurrentUser) (overwritten : option string)
  | Notify (F : faults) (year : Z) (new : uuid) (upload_id : string) (overwritten : option string)
  | Review (F : faults) (f : uuid) (target : FileStatus) (why : option string) (is_admin : bool) (reviewer : option uuid)
  | Delete (F : faults) (f actor : uuid) (is_admin : bool)
  | Get (f : uuid) (bump : bool) (viewer : option CurrentUser) (enforce : bool)
  | Serve (F : faults) (f : uuid) (how : disposition) (viewer : option CurrentUser)
  | Download (f : uuid) (cur : CurrentUser)
  | Archive (F : faults) (cutoff : Z) (h : string)      (* one turn of the job *)
  | Backup (F : faults) (h : string)                    (* one turn of the job *)
  | Cleanup (F : faults).

Definition ignore {A} (m : M A) : M () := _ ← m; mret tt.

Definition body (o : op) : M () :=
  match o with
  | Create F y n u i c => ignore (create_file cfg F y n u i c)
  | Init fresh i cur => ignore (upload_init cfg fresh i cur)
  | Confirm F y n u cur c => ignore (confirm_upload cfg F y n u cur c)
  | Notify F y n u c => notify_upload cfg F y n u c
  | Review F f t why a r => review_file cfg F f t why a r
  | Delete F f actor a => delete_file cfg F f actor a
  | Get f b v e => ignore (get_file f b v e)
  | Serve F f how v => ignore (serve_content cfg F f how v)
  | Download f cur => ignore (download_url cfg f cur)
  | Archive F cutoff h => if archive_dir cfg then archive_one cfg F cutoff h else mret tt
  | Backup F h => backup_one cfg F h
  | Cleanup F => cleanup_expired_uploads F
  end.

(** Rejecting and deleting give content up before they commit: the file. *)
Definition gives_up (o : op) : option uuid := match o with Review _ f _ _ _ _ | Delete _ f _ _ => Some f | _ => None end.

(** The hash of the content that a request has given up without taking effect:
    the rejection or deletion failed or was not committed, after the stores had
    been changed. *)
Definition loses (commits : bool) (o : op) (w : world) : gset string :=
  match gives_up o, transaction commits (body o) w with
  | Some f, (Raise _, w') =>
      if decide (objects w' = objects w ∧ archive w' = archive w) then ∅
      else match hash_of f w with Some h => {[ h ]} | None => ∅ end
  | _, _ => ∅
  end.

(** The hash under which a request stores other content. *)
Definition poisons (o : op) (w : world) : gset string :=
  match o with
  | Confirm _ _ _ u _ c | Notify _ _ _ u c => swapped_upload u c w
  | _ => ∅
  end.

(** A request, which commits or not, with the marks that it leaves; and the world
    outside: time, projects, and clients that put objects under their upload
    addresses. *)
Inductive step : world * marks → world * marks → Prop :=
  | step_op o commits w mk :
      step (w, mk) ((transaction commits (body o) w).2, Marks (lost mk ∪ loses commits o w) (poisoned mk ∪ poisons o w))
  | step_put u c w mk : String.length u = 32 → step (w, mk) (set_objects <[upload_key u := c]> w, mk)
  | step_world t p m w mk : (clock w ≤ t)%Z → step (w, mk) (World (db w) (objects w) (archive w) (backups w) p m t, mk).

(** More marks promise less. *)
Lemma in_order_marks mk mk' w : lost mk ⊆ lost mk' → poisoned mk ⊆ poisoned mk' → in_order cfg mk w → in_order cfg mk' w.
Proof.
  intros Hl Hp [D [S1 S2 S3 S4 S5]]. split; [done|]. split; [|done|done| |].
  - intros h c Hh Hm. apply S1; [done|set_solver].
  - intros k x h Hx Hh Hm. apply (S4 k x h); [done..|set_solver].
  - intros k x h Hx Hh Hm. apply (S5 k x h); [done..|set_solver].
Qed.

Lemma keeps_ignore {A} mk (m : M A) w : keeps cfg mk m w → keeps cfg mk (ignore m) w.
Proof. intros Hm. apply wp_bind. eapply wp_mono; [exact Hm| |done]. done. Qed.

(** The loop of the job that clears abandoned uploads. *)
Lemma cleanup_loop_keeps mk fuel F before cursor w :
  in_order cfg mk w →
  wp (cleanup_loop fuel F before cursor) (λ _ w', in_order cfg mk w' ∧ files (db w') = files (db w)) (λ _ _, False) w.
Proof.
  revert cursor w. induction fuel as [|fuel IH]; intros cursor w I; cbn [cleanup_loop]; [by apply wp_ret|].
  apply wp_bind, wp_get_state. cbv zeta. set (l := list_expired before cursor _CLEANUP_BATCH (db w)). destruct (last l); [|by apply wp_ret].
  assert (Hl : ∀ s, s ∈ l → upload_like (storage_key s.2)).
  { intros s Hs. unfold l, list_expired in Hs. apply elem_of_take in Hs as (i & Hs & _). apply list_elem_of_lookup_2 in Hs.
    rewrite merge_sort_Permutation in Hs. apply list_elem_of_filter in Hs as [_ Hs]. destruct s as [u s]. apply elem_of_map_to_list in Hs.
    destruct I as [(_ & _ & _ & SS) _]. cbn [snd]. destruct (SS u s Hs) as [-> ?]. by apply upload_key_like. }
  apply wp_bind. eapply wp_mono.
  - apply (wp_for_each _ _ (λ w', in_order cfg mk w' ∧ files (db w') = files (db w)) (λ _ _, False)); [|done].
    intros s w1 Hs [I1 Hf]. eapply wp_mono; [apply (cleanup_one_keeps cfg mk); [done|right; by apply Hl]| |done].
    intros [] w2 [I2 Hf2]. split; [done|congruence].
  - intros [] w1 [I1 Hf]. eapply wp_mono; [by apply IH| |done]. intros [] w2 [I2 Hf2]. split; [done|congruence].
  - done.
Qed.

Lemma body_keeps mk o w : gives_up o = None → poisons o w ⊆ poisoned mk → in_order cfg mk w → keeps cfg mk (body o) w.
Proof.
  intros Hg Hp I. pose proof I as [_ S]. destruct o; try done; cbn [body].
  - by apply keeps_ignore, create_keeps.
  - by apply keeps_ignore, init_keeps.
  - by apply keeps_ignore, confirm_keeps.
  - by apply notify_keeps.
  - by apply keeps_ignore, get_file_keeps.
  - by apply keeps_ignore, serve_keeps.
  - by apply keeps_ignore, download_keeps.
  - destruct (archive_dir cfg) eqn:Ha; [by apply archive_one_keeps|by apply wp_ret].
  - by apply backup_one_keeps.
  - unfold keeps, cleanup_expired_uploads. apply wp_bind, wp_get_state. eapply wp_mono; [by apply cleanup_loop_keeps| |done].
    intros [] w' [I' Hf]. split; [done|]. rewrite <- Hf. apply I'.
Qed.

Lemma body_reclaims mk o f w : gives_up o = Some f → in_order cfg mk w → reclaims cfg mk f (body o) w.
Proof. intros Hg I. destruct o; try done; injection Hg as ->; [by apply review_reclaims|by apply delete_reclaims]. Qed.

(** After a rollback the old rows meet a store that may have lost content. *)
Lemma rolled_back mk gone gained w v :
  in_order cfg mk w → shrunk gone w v → (objects v = objects w ∧ archive v = archive w ∨ ∀ h, gone = Some h → h ∈ gained) →
  in_order cfg (Marks (lost mk ∪ gained) (poisoned mk)) (set_db (λ _, db w) v).
Proof.
  intros [D [S1 S2 S3 S4 S5]] [So Sa Sb Sn] Hg. split; [done|].
  assert (Hsame : ∀ h, hash_like h → h ∉ gained → objects v !! _build_bucket_key h = objects w !! _build_bucket_key h ∧ archive v !! h = archive w !! h).
  { intros h Hl Hh. destruct Hg as [[-> ->]|Hg]; [done|]. apply Sn; [done|]. intros He. by apply Hh, Hg. }
  pose proof (ch_hash _ (proj1 D)) as Hhash.
  split; cbn [objects archive backups set_db lost poisoned].
  - intros h c Hl Hp Ho. apply (S1 h c Hl Hp). by apply (lookup_weaken (objects v)).
  - intros h c Ho. apply (S2 h c). by apply (lookup_weaken (archive v)).
  - done.
  - intros k x h Hx Hh Hm Hp. destruct (Hhash k x Hx) as (h' & Hh' & Hl). assert (h' = h) as -> by congruence.
    destruct (Hsame h Hl) as [-> _]; [set_solver|]. apply (S4 k x h); [done..|set_solver|done].
  - intros k x h Hx Hh Hm Hp. destruct (Hhash k x Hx) as (h' & Hh' & Hl). assert (h' = h) as -> by congruence.
    unfold available. cbn [objects archive set_db]. destruct (Hsame h Hl) as [-> ->]; [set_solver|]. apply (S5 k x h); [done..|set_solver|done].
Qed.

Lemma step_op_in_order mk commits o w :
  in_order cfg mk w →
  in_order cfg (Marks (lost mk ∪ loses commits o w) (poisoned mk ∪ poisons o w)) (transaction commits (body o) w).2.
Proof.
  intros I. destruct (gives_up o) as [f|] eqn:Hg.
  - assert (Hp : poisons o w = ∅) by (by destruct o). pose proof (body_reclaims mk o f w Hg I) as Hr. unfold reclaims, wp in Hr.
    assert (Hback : ∀ v, shrunk (hash_of f w) w v →
      in_order cfg (Marks (lost mk ∪ (if decide (objects v = objects w ∧ archive v = archive w) then ∅
        else match hash_of f w with Some h => {[ h ]} | None => ∅ end)) (poisoned mk)) (set_db (λ _, db w) v)).
    { intros v Sv. apply (rolled_back mk (hash_of f w)); [done|done|]. destruct (decide _); [by left|right]. intros h ->. set_solver. }
    rewrite Hp, union_empty_r_L. unfold loses, transaction. rewrite Hg. destruct (body o w) as [[x|e] v].
    + destruct commits; [cbn|apply (Hback v), Hr]. rewrite union_empty_r_L. destruct mk. apply Hr.
    + apply (Hback v), Hr.
  - assert (Hl : loses commits o w = ∅) by (unfold loses; by rewrite Hg). rewrite Hl, union_empty_r_L.
    set (mk' := Marks _ _). assert (I' : in_order cfg mk' w) by (apply (in_order_marks mk); [done|set_solver|done]).
    pose proof (body_keeps mk' o w Hg ltac:(set_solver) I') as Hk. unfold keeps, wp in Hk. unfold transaction.
    assert (Hback : ∀ v, store_ok cfg mk' (files (db w)) v → in_order cfg mk' (set_db (λ _, db w) v)).
    { intros v Sv. split; [apply I|]. by apply (store_ok_ext cfg mk' _ v). }
    destruct (body o w) as [[x|e] v]; [destruct commits|]; cbn; [apply Hk|apply Hback, Hk|apply Hback, Hk].
Qed.

Lemma step_in_order s s' : in_order cfg s.2 s.1 → step s s' → in_order cfg s'.2 s'.1.
Proof.
  intros I Hs. revert I. destruct Hs as [o commits w mk|u c w mk Hu|t p m w mk _]; cbn [fst snd]; intros I.
  - apply (step_op_in_order _ _ _ _ I).
  - destruct I as [D S]. split; [done|]. apply store_ok_elsewhere; [apply D| |done].
    intros o h Hh. apply insert_elsewhere; [by apply upload_key_like|done].
  - destruct I as [D S]. split; [done|]. by apply (store_ok_ext cfg mk _ w).
Qed.

Definition no_tables : tables := Tables ∅ ∅ [] [].

(** The library before its first upload; old backups or archives may lie around. *)
Definition starts (w : world) : Prop := db w = no_tables ∧ objects w = ∅ ∧ archive w = ∅ ∧ backups w = ∅.

Definition unmarked : marks := Marks ∅ ∅.

Lemma starts_in_order w : starts w → in_order cfg unmarked w.
Proof.
  intros (Hd & Ho & Ha & Hb). split.
  - rewrite Hd. split_and!; cbn; [split; intros; set_solver| intros k x h Hx; by rewrite lookup_empty in Hx | | intros u s Hs; by rewrite lookup_empty in Hs].
    split; cbn; [constructor|intros; by rewrite lookup_empty in *|intros; set_solver].
  - rewrite Hd. split; cbn; intros; rewrite ?Ho, ?Ha, ?Hb in *; by rewrite lookup_empty in *.
Qed.

Lemma reach_in_order w0 w mk : starts w0 → rtc step (w0, unmarked) (w, mk) → in_order cfg mk w.
Proof.
  intros Hs Hr. apply starts_in_order in Hs.
  assert (Hall : ∀ s s', rtc step s s' → in_order cfg s.2 s.1 → in_order cfg s'.2 s'.1).
  { intros s s' Hss. induction Hss as [|x y z Hxy _ IH]; [done|]. intros I. apply IH. by eapply step_in_order. }
  exact (Hall _ _ Hr Hs).
Qed.
End run.

(** ** Properties *)
Section properties.
Context `{Outside, !OutsideLaws} (cfg : settings).

Lemma serve_attachment F f viewer w x h :
  files (db w) !! f = Some x → visible w x viewer = true → status x = APPROVED → sha3_hash x = Some h → h ≠ ""%string →
  f_exists F = false →
  serve_content cfg F f attachment viewer w =
    let hot := bool_decide (is_Some (objects w !! _build_bucket_key h)) in
    let use := negb hot && archive_dir cfg && bool_decide (is_Some (archive w !! h)) in
    if negb hot && negb use then (Raise NOT_FOUND, w) else (Ok (if use then h else _build_bucket_key h, use), w).
Proof.
  intros Hx Hv Hs Hh Hne HF. unfold serve_content. rewrite run_get_state, run_get_or_raise, Hx.
  unfold _require_visible. rewrite bind_assoc, run_get_state, run_raise_when, Hv. cbn [negb].
  rewrite run_raise_when, bool_decide_false by (intros Hn; by apply Hn). rewrite run_get_or_raise, Hh.
  destruct h as [|a h]; [done|]. unfold exists_. rewrite bind_assoc, run_raise_when, HF, run_gets.
  rewrite run_raise_when. cbn [negb andb]. rewrite andb_true_r. destruct (negb _ && negb _); [done|]. done.
Qed.

(** C22: What the library lists, it has. Through any history of uploads, direct
    or not, reviews, deletions, archiving, backups and clean-ups, with any calls
    of the stores failing and any request rolled back, and with clients writing
    to their upload addresses at any time: the content of every pending row is in
    the object store and that of every approved row there or in the archive,
    unless a rejection or deletion of a file with that content has removed it
    and then failed or was not committed ([lost]: the code gives content up
    before the commit); what is kept under a hash has that hash, unless a direct
    upload with it was replaced by other content between hashing and copying
    ([poisoned]), which never reaches the archive or the backups; the reference
    count of a row is the number of pending and approved rows of its content; and
    the versions of a document are a chain. An approved file that a reader may
    see can be downloaded, and what comes has its hash, with these two
    exceptions. A hash is marked only by such a request. *)
Theorem content_available (w0 w : world) (mk : marks) (Hs : starts w0) (Hr : rtc (step cfg) (w0, unmarked) (w, mk)) :
  (∀ f x, files (db w) !! f = Some x → status x = PENDING ∨ status x = APPROVED →
     ∃ h, sha3_hash x = Some h ∧ ref_count x = count_live_by_hash h (db w)
       ∧ (h ∈ lost mk ∨ is_Some (objects w !! _build_bucket_key h)
          ∨ status x = APPROVED ∧ archive_dir cfg = true ∧ is_Some (archive w !! h)))
  ∧ (∀ h c, String.length h = 64 → objects w !! _build_bucket_key h = Some c → sha3_256 c = h ∨ h ∈ poisoned mk)
  ∧ (∀ h c, archive w !! h = Some c ∨ backups w !! h = Some c → sha3_256 c = h)
  ∧ chains (files (db w))
  ∧ (∀ F f x viewer h, files (db w) !! f = Some x → status x = APPROVED → visible w x viewer = true →
      f_exists F = false → f_open F = false → sha3_hash x = Some h → h ∉ lost mk →
      ∃ source c, serve_content cfg F f attachment viewer w = (Ok source, w) ∧ _serve F source w = (Ok c, w)
        ∧ (sha3_256 c = h ∨ h ∈ poisoned mk))
  ∧ (∀ o commits h, h ∈ loses cfg commits o w →
       ∃ f x e, gives_up o = Some f ∧ files (db w) !! f = Some x ∧ sha3_hash x = Some h ∧ (transaction commits (body cfg o) w).1 = Raise e)
  ∧ ∀ o h, h ∈ poisons o w →
      ∃ key c c', objects w !! key = Some c ∧ sha3_256 c = h ∧ sha3_256 c' ≠ h
        ∧ ∃ F year new u, (∃ cur, o = Confirm F year new u cur (Some c')) ∨ o = Notify F year new u (Some c').
Proof.
  destruct (reach_in_order cfg w0 w mk Hs Hr) as [(C & R & W & SS) S]. split_and!; [| | |done| | |].
  - intros f x Hx Hst. destruct (ch_hash _ C f x Hx) as (h & Hh & Hl). exists h. split_and!; [done|by apply (R f x h)|].
    destruct (decide (h ∈ lost mk)) as [|Hm]; [by left|right]. destruct Hst as [Hp|Ha].
    + left. by apply (st_pending _ _ _ _ S f x h).
    + destruct (st_approved _ _ _ _ S f x h Hx Hh Hm Ha) as [?|[? ?]]; [by left|by right].
  - intros h c Hl Hc. destruct (decide (h ∈ poisoned mk)); [by right|left]. by apply (st_objects _ _ _ _ S).
  - intros h c [Hc|Hc]; [by apply (st_archive _ _ _ _ S)|by apply (st_backups _ _ _ _ S)].
  - intros F f x viewer h Hx Hst Hv HF1 HF2 Hh Hm. destruct (ch_hash _ C f x Hx) as (h' & Hh' & Hl). assert (h' = h) as -> by congruence.
    rewrite (serve_attachment F f viewer w x h Hx Hv Hst Hh (hash_nonempty h Hl) HF1). cbv zeta.
    destruct (objects w !! _build_bucket_key h) as [c|] eqn:Ho.
    + rewrite bool_decide_true by (by eexists). cbn [negb andb]. eexists _, c. split; [done|].
      unfold _serve, open. cbn [fst snd]. rewrite run_raise_when, HF2, run_get_state. unfold get_or_raise. rewrite Ho.
      split; [done|]. destruct (decide (h ∈ poisoned mk)); [by right|left]. by apply (st_objects _ _ _ _ S).
    + rewrite bool_decide_false by (by intros [? ?]). cbn [negb andb].
      destruct (st_approved _ _ _ _ S f x h Hx Hh Hm Hst) as [[c Hc]|[Hd [c Hc]]]; [congruence|].
      rewrite Hd, Hc. rewrite bool_decide_true by (by eexists). cbn [negb andb]. eexists _, c. split; [done|].
      unfold _serve. cbn [fst snd]. rewrite run_get_state. unfold get_or_raise. rewrite Hc.
      split; [done|]. left. by apply (st_archive _ _ _ _ S).
  - intros o commits h Hh. unfold loses in Hh. destruct (gives_up o) as [f|]; [|set_solver].
    destruct (transaction commits (body cfg o) w) as [[r|e] v]; [set_solver|]. destruct (decide _); [set_solver|].
    unfold hash_of in Hh. destruct (files (db w) !! f) as [x|] eqn:Hx; [|set_solver]. cbn in Hh.
    destruct (sha3_hash x) as [g|] eqn:Hg; [|set_solver]. apply elem_of_singleton in Hh as ->. by exists f, x, e.
  - intros o h Hh.
    assert (Hsw : ∀ u ov, h ∈ swapped_upload u ov w → ∃ key c c', ov = Some c' ∧ objects w !! key = Some c ∧ sha3_256 c = h ∧ sha3_256 c' ≠ h).
    { intros u ov. unfold swapped_upload, swapped. destruct (sessions (db w) !! u) as [s|]; [|set_solver].
      destruct (objects w !! storage_key s) as [c|] eqn:Hc; [|set_solver]. destruct ov as [c'|]; [|set_solver].
      destruct (decide _) as [[Hne _]|]; [|set_solver]. intros ->%elem_of_singleton. by exists (storage_key s), c, c'. }
    destruct o; cbn in Hh; try (by apply elem_of_empty in Hh);
      destruct (Hsw _ _ Hh) as (key & c & c' & -> & ? & ? & ?); exists key, c, c'; split_and!; try done; naive_solver.
Qed.

(** Approval is rewarded once. In every reachable state the points events
    of the library are distinct, there is one for every approved file, to its
    uploader, and every one of them is for a file that was approved (and is
    still, or has been deleted since). *)
Theorem approvals_rewarded_once (w0 w : world) (mk : marks) (Hs : starts w0) (Hr : rtc (step cfg) (w0, unmarked) (w, mk)) :
  NoDup (filter (λ m, is_points m = true) (outbox (db w)))
  ∧ (∀ f x, files (db w) !! f = Some x → status x = APPROVED →
       PointsEvent (uploader_id x) "file_approved" (file_ref f) ∈ outbox (db w))
  ∧ ∀ u ev ref, PointsEvent u ev ref ∈ outbox (db w) →
       ∃ f x, files (db w) !! f = Some x ∧ u = uploader_id x ∧ ev = "file_approved"%string ∧ ref = file_ref f
         ∧ (status x = APPROVED ∨ status x = DELETED).
Proof.
  destruct (reach_in_order cfg w0 w mk Hs Hr) as [(_ & _ & W & _) _]. split; [apply W|]. split; [apply W|apply W].
Qed.

(** ** Listing *)
Definition known_classification (x : LibraryFile) : Prop :=
  classification x = "public"%string ∨ classification x = "internal"%string ∨ classification x = "confidential"%string.

Lemma page_visible w viewer x :
  known_classification x →
  _page_conditions w viewer true x = visible w x viewer && (bool_decide (status x ≠ APPROVED) || negb (has_newer_approved (db w) x)).
Proof.
  intros Hk. unfold _page_conditions, visible. rewrite andb_comm. f_equal. cbn [andb].
  destruct viewer as [v|]; [|by rewrite orb_false_r].
  destruct (decide (account_level v = "admin"%string)) as [Ha|Ha].
  { rewrite (bool_decide_false (account_level v ≠ "admin"%string)) by (by intros Hn). by rewrite bool_decide_true. }
  rewrite (bool_decide_true (account_level v ≠ "admin"%string)), (bool_decide_false (account_level v = _)) by done. cbn [orb].
  destruct (bool_decide (uploader_id x = id v)); cbn [orb]; [by rewrite orb_true_r|]. rewrite orb_false_r.
  destruct (bool_decide (status x = APPROVED)); cbn [andb orb]; [|done].
  destruct Hk as [Hc|[Hc|Hc]]; rewrite Hc; cbn; [done|done|]. done.
Qed.

(** The newest approved version of a document. *)
Lemma newest_approved (m : gmap uuid LibraryFile) c k x :
  m !! k = Some x → document_code x = Some c → status x = APPROVED →
  ∃ l y, m !! l = Some y ∧ document_code y = Some c ∧ status y = APPROVED ∧ (version x ≤ version y)%Z
    ∧ ∀ j z, m !! j = Some z → document_code z = Some c → status z = APPROVED → (version z ≤ version y)%Z.
Proof.
  intros Hx Hc Hs.
  set (l := filter (λ kf, document_code kf.2 = Some c ∧ status kf.2 = APPROVED) (map_to_list m)).
  assert (Hin : ∀ j z, (j, z) ∈ l ↔ m !! j = Some z ∧ document_code z = Some c ∧ status z = APPROVED).
  { intros j z. unfold l. rewrite list_elem_of_filter, elem_of_map_to_list. cbn. tauto. }
  assert (Hmax : ∀ l' : list (uuid * LibraryFile), l' ≠ [] → ∃ jz, jz ∈ l' ∧ ∀ jz', jz' ∈ l' → (version jz'.2 ≤ version jz.2)%Z).
  { induction l' as [|a l' IH]; [done|]. intros _. destruct l' as [|b l'].
    - exists a. split; [left|]. intros jz' ->%list_elem_of_singleton. lia.
    - destruct IH as (jz & Hj & Hm); [done|]. destruct (Z_le_gt_dec (version jz.2) (version a.2)) as [Hle|Hgt].
      + exists a. split; [left|]. intros jz' [->|H']%elem_of_cons; [lia|]. specialize (Hm _ H'). lia.
      + exists jz. split; [by right|]. intros jz' [->|H']%elem_of_cons; [lia|by apply Hm]. }
  destruct (Hmax l) as ([j y] & Hj & Hm).
  { intros He. assert (Hk : (k, x) ∈ l) by (by apply Hin). rewrite He in Hk. by apply elem_of_nil in Hk. }
  apply Hin in Hj as (Hy & Hcy & Hsy). exists j, y. split_and!; [done..| |].
  - apply (Hm (k, x)). by apply Hin.
  - intros i z Hz Hcz Hsz. apply (Hm (i, z)). by apply Hin.
Qed.

Lemma no_newer w x c :
  document_code x = Some c →
  (∀ j z, files (db w) !! j = Some z → document_code z = Some c → status z = APPROVED → (version z ≤ version x)%Z) →
  has_newer_approved (db w) x = false.
Proof.
  intros Hc Hm. apply not_true_iff_false. unfold has_newer_approved. rewrite existsb_exists. intros ([j z] & Hj & Hb).
  apply list_elem_of_In, elem_of_map_to_list in Hj. cbn in Hb. rewrite !andb_true_iff, !bool_decide_eq_true in Hb.
  destruct Hb as [[[Hcz _] Hv] Hst]. specialize (Hm j z Hj). rewrite Hcz in Hm. specialize (Hm Hc Hst). lia.
Qed.

Lemma visible_same w x y viewer :
  same_document x y → status x = APPROVED → status y = APPROVED → visible w y viewer = visible w x viewer.
Proof. intros (Hu & Hc & Hp & _) Hx Hy. unfold visible. by rewrite <- Hu, <- Hc, <- Hp, Hx, Hy. Qed.

(** Documents and their listing. In every reachable state the versions of
    a document are numbered from 1 without gaps or duplicates, by one uploader,
    with one classification, project and category, and refer to the first as
    their root. The list shows a reader a row exactly when the reader may open
    it and no newer version is approved; and whenever a reader may open an
    approved file, the list shows its document, in its newest approved version. *)
Theorem listing_correct (w0 w : world) (mk : marks) (Hs : starts w0) (Hr : rtc (step cfg) (w0, unmarked) (w, mk)) :
  chains (files (db w))
  ∧ (∀ viewer f x, files (db w) !! f = Some x → known_classification x →
       (f, x) ∈ rows w viewer true ↔
       visible w x viewer = true ∧ (status x = APPROVED → has_newer_approved (db w) x = false))
  ∧ ∀ viewer f x, files (db w) !! f = Some x → status x = APPROVED → known_classification x → visible w x viewer = true →
       ∃ g y, (g, y) ∈ rows w viewer true ∧ document_code y = document_code x ∧ (version x ≤ version y)%Z ∧ status y = APPROVED.
Proof.
  destruct (reach_in_order cfg w0 w mk Hs Hr) as [(C & _) _]. split; [done|].
  assert (Hrow : ∀ viewer f x, files (db w) !! f = Some x → known_classification x →
     (f, x) ∈ rows w viewer true ↔ visible w x viewer = true ∧ (status x = APPROVED → has_newer_approved (db w) x = false)).
  { intros viewer f x Hx Hk. unfold rows. rewrite merge_sort_Permutation, list_elem_of_filter, elem_of_map_to_list. cbn [snd].
    rewrite page_visible by done. rewrite andb_true_iff, orb_true_iff, negb_true_iff, bool_decide_eq_true.
    destruct (decide (status x = APPROVED)); naive_solver. }
  split; [exact Hrow|]. intros viewer f x Hx Hst Hk Hv. destruct (ch_code _ C f x Hx) as [[c Hc] _].
  destruct (newest_approved (files (db w)) c f x Hx Hc Hst) as (g & y & Hy & Hcy & Hsy & Hle & Hmax).
  exists g, y. split; [|split; [congruence|done]].
  assert (Hsame : same_document x y) by (apply (ch_same _ C f g x y Hx Hy); congruence).
  apply Hrow; [done| |].
  - destruct Hsame as (_ & Hcl & _). unfold known_classification. by rewrite <- Hcl.
  - split; [by rewrite (visible_same w x y)|]. intros _. by apply (no_newer w y c).
Qed.
End properties.

(** ** The clean-up visits everything *)
Section cleanup.
Context (F : faults) (before : Z).

Definition deletable (s : string * UploadSession) : Prop := f_delete F (storage_key s.2) = false.

#[local] Instance deletable_dec s : Decision (deletable s).
Proof. unfold deletable. apply _. Defined.

Definition removed (l : list (string * UploadSession)) : list string := fst <$> filter deletable l.
Definition cleared (l : list (string * UploadSession)) : list string := storage_key ∘ snd <$> filter deletable l.

Lemma removed_app l1 l2 : removed (l1 ++ l2) = removed l1 ++ removed l2.
Proof. unfold removed. by rewrite filter_app, fmap_app. Qed.

Lemma cleared_app l1 l2 : cleared (l1 ++ l2) = cleared l1 ++ cleared l2.
Proof. unfold cleared. by rewrite filter_app, fmap_app. Qed.

(** What clearing the sessions [l] leaves. *)
Definition cleaned (l : list (string * UploadSession)) (w w' : world) : Prop :=
  (∀ u, sessions (db w') !! u = if decide (u ∈ removed l) then None else sessions (db w) !! u)
  ∧ (∀ k, objects w' !! k = if decide (k ∈ cleared l) then None else objects w !! k)
  ∧ files (db w') = files (db w) ∧ clock w' = clock w.

Lemma cleaned_nil w : cleaned [] w w.
Proof. split_and!; try done; intros k; unfold removed, cleared; cbn; by rewrite decide_False by (by intros ?%elem_of_nil). Qed.

Lemma cleaned_app l1 l2 w1 w2 w3 : cleaned l1 w1 w2 → cleaned l2 w2 w3 → cleaned (l1 ++ l2) w1 w3.
Proof.
  intros (S1 & O1 & F1 & C1) (S2 & O2 & F2 & C2). split_and!; [intros u|intros k|congruence..].
  - rewrite (S2 u), (S1 u), removed_app. destruct (decide (u ∈ removed l2)) as [H2|H2].
    + by rewrite decide_True by (apply elem_of_app; by right).
    + apply decide_ext. rewrite elem_of_app. tauto.
  - rewrite (O2 k), (O1 k), cleared_app. destruct (decide (k ∈ cleared l2)) as [H2|H2].
    + by rewrite decide_True by (apply elem_of_app; by right).
    + apply decide_ext. rewrite elem_of_app. tauto.
Qed.

Lemma cleaned_perm l1 l2 w w' : l1 ≡ₚ l2 → cleaned l1 w w' → cleaned l2 w w'.
Proof.
  intros Hp (S1 & O1 & H1). unfold removed, cleared in *. split_and!; [| |apply H1..]; intros k; rewrite ?S1, ?O1;
    repeat case_decide; try done; rewrite Hp in *; done.
Qed.

Lemma cleanup_one_spec s w : wp (cleanup_one F s) (λ _ w', cleaned [s] w w') (λ _ _, False) w.
Proof.
  unfold cleanup_one, cleaned, removed, cleared. destruct (f_delete F (storage_key s.2)) eqn:Hf.
  - apply wp_ret. rewrite filter_cons_False by (unfold deletable; congruence). cbn.
    split_and!; try done; intros k; by rewrite decide_False by (by intros ?%elem_of_nil).
  - apply wp_bind, wp_modify, wp_modify. rewrite filter_cons_True by done. cbn. split_and!; try done; intros k.
    + destruct (decide (k = s.1)) as [->|Hk].
      * rewrite lookup_delete_eq. by rewrite decide_True by (by left).
      * rewrite lookup_delete_ne by done. by rewrite decide_False by (by intros ?%list_elem_of_singleton).
    + destruct (decide (k = storage_key s.2)) as [->|Hk].
      * rewrite lookup_delete_eq. by rewrite decide_True by (by left).
      * rewrite lookup_delete_ne by done. by rewrite decide_False by (by intros ?%list_elem_of_singleton).
Qed.

Lemma cleanup_batch_spec l w : wp (for_each l (cleanup_one F)) (λ _ w', cleaned l w w') (λ _ _, False) w.
Proof.
  revert w. induction l as [|s l IH]; intros w; cbn; [apply wp_ret, cleaned_nil|].
  apply wp_bind. eapply wp_mono; [apply cleanup_one_spec| |done]. intros [] w1 H1. eapply wp_mono; [apply IH| |done].
  intros [] w2 H2. by apply (cleaned_app [s] l w w1 w2).
Qed.

(** The sessions the job has yet to visit. *)
Definition pending_sessions (cursor : option (Z * string)) (w : world) : list (string * UploadSession) :=
  filter (λ s, (s_created s.2 < before)%Z ∧ after_cursor cursor s) (map_to_list (sessions (db w))).

Lemma elem_of_pending_sessions cursor w s :
  s ∈ pending_sessions cursor w ↔ sessions (db w) !! s.1 = Some s.2 ∧ (s_created s.2 < before)%Z ∧ after_cursor cursor s.
Proof. unfold pending_sessions. rewrite list_elem_of_filter. destruct s as [u s]. rewrite elem_of_map_to_list. tauto. Qed.

Lemma NoDup_pending cursor w : NoDup (pending_sessions cursor w).
Proof. apply NoDup_filter, NoDup_map_to_list. Qed.

#[local] Instance older_trans : Transitive older.
Proof.
  intros a b c. unfold older. intros [?|[? Hab]] [?|[? Hbc]]; [left; lia..|]. right. split; [lia|]. by etrans.
Qed.

#[local] Instance older_total : Total older.
Proof.
  intros a b. unfold older. destruct (Z.lt_trichotomy (s_created a.2) (s_created b.2)) as [?|[He|?]]; [left; by left| |right; by left].
  destruct (total String.le a.1 b.1); [left|right]; right; by split.
Qed.

(** The cursor of a session separates what is older from what is not. *)
Lemma after_spec s e : after_cursor (Some (s_created s.2, s.1)) e ↔ ¬ older e s.
Proof.
  unfold after_cursor, older. split.
  - intros [?|[? Hle]] [?|[? ?]]; [lia..|done].
  - intros Hn. destruct (Z.lt_trichotomy (s_created s.2) (s_created e.2)) as [?|[He|?]]; [by left|right|].
    + split; [done|]. intros Hle. apply Hn. right. by split.
    + exfalso. apply Hn. by left.
Qed.

Lemma after_trans cursor s e : after_cursor cursor s → ¬ older e s → after_cursor cursor e.
Proof.
  destruct cursor as [[t u]|]; [|done]. change (Some (t, u)) with (Some (s_created (u, MkSession (uuid_of_N 0) "" (MkCreate "" "" "" "" "" None None) t).2, (u, MkSession (uuid_of_N 0) "" (MkCreate "" "" "" "" "" None None) t).1)).
  rewrite !after_spec. intros Hs He Hle. destruct (total older e s) as [?|Hse]; [done|]. apply Hs. by etrans.
Qed.

(** One batch: it is visited, and the rest is what comes after its last session. *)
Lemma batch_rest cursor w w' l rest s :
  l ++ rest = merge_sort older (pending_sessions cursor w) → last l = Some s → cleaned l w w' →
  pending_sessions (Some (s_created s.2, s.1)) w' ≡ₚ rest.
Proof.
  intros Hl Hs (Hses & _). set (L := merge_sort older (pending_sessions cursor w)) in *.
  assert (HL : ∀ e, e ∈ L ↔ e ∈ pending_sessions cursor w) by (intros e; unfold L; by rewrite merge_sort_Permutation).
  assert (Hnd : NoDup (l ++ rest)) by (rewrite Hl; unfold L; rewrite merge_sort_Permutation; apply NoDup_pending).
  assert (Hsort : StronglySorted older (l ++ rest)) by (rewrite Hl; apply StronglySorted_merge_sort; apply _).
  apply last_Some in Hs as [l0 ->].
  assert (Hs0 : s ∈ L) by (rewrite <- Hl; set_solver).
  assert (Hbefore : ∀ e, e ∈ l0 ++ [s] → older e s).
  { intros e [He|He]%elem_of_app; [|apply list_elem_of_singleton in He as ->; right; by split].
    rewrite <- app_assoc in Hsort. eapply StronglySorted_app_1_elem_of; [exact Hsort|done|]. cbn. by left. }
  assert (Hafter : ∀ e, e ∈ rest → older s e).
  { intros e He. rewrite <- app_assoc in Hsort. apply StronglySorted_app_1_r in Hsort. cbn in Hsort.
    apply StronglySorted_inv in Hsort as [_ Hsort]. rewrite Forall_forall in Hsort. by apply Hsort. }
  apply NoDup_Permutation; [apply NoDup_pending|by apply NoDup_app in Hnd as (_ & _ & ?)|].
  intros e. rewrite elem_of_pending_sessions, after_spec. split.
  - intros (He & Hb & Hn). rewrite Hses in He. case_decide; [done|].
    assert (Hin : e ∈ L). { apply HL, elem_of_pending_sessions. split; [done|]. split; [done|]. apply (after_trans _ s); [|done].
      apply HL, elem_of_pending_sessions in Hs0 as (_ & _ & Ha). exact Ha. }
    rewrite <- Hl in Hin. apply elem_of_app in Hin as [Hin|]; [|done]. by destruct (Hn (Hbefore e Hin)).
  - intros He. assert (Hin : e ∈ L) by (rewrite <- Hl; set_solver). apply HL, elem_of_pending_sessions in Hin as (Hlk & Hb & _).
    assert (Hnl : e ∉ l0 ++ [s]) by (intros Hin; apply NoDup_app in Hnd as (_ & Hd & _); by apply (Hd e)).
    split_and!; [|done|].
    + rewrite Hses. rewrite decide_False; [done|]. intros Hr. unfold removed in Hr.
      apply list_elem_of_fmap in Hr as (e' & Hk & He'). apply list_elem_of_filter in He' as [_ He'].
      assert (He'' : e' ∈ L) by (rewrite <- Hl; set_solver). apply HL, elem_of_pending_sessions in He'' as (Hlk' & _).
      apply Hnl. assert (e = e') as ->; [|done]. destruct e as [k x], e' as [k' x']. cbn in *. subst. congruence.
    + intros Ho. specialize (Hafter e He). apply Hnl. assert (e = s) as ->; [|set_solver].
      apply HL, elem_of_pending_sessions in Hs0 as (Hlk' & _). destruct Ho as [?|[Ht1 Hu1]], Hafter as [?|[Ht2 Hu2]]; [lia..|].
      assert (Hk : e.1 = s.1) by (by apply (anti_symm String.le)). destruct e as [k x], s as [k' x']. cbn in *. subst. congruence.
Qed.

Lemma cleanup_loop_spec fuel cursor w :
  length (pending_sessions cursor w) < fuel →
  wp (cleanup_loop fuel F before cursor) (λ _ w', cleaned (pending_sessions cursor w) w w') (λ _ _, False) w.
Proof.
  revert cursor w. induction fuel as [|fuel IH]; intros cursor w Hf; [lia|]. cbn [cleanup_loop].
  apply wp_bind, wp_get_state. cbv zeta. fold (pending_sessions cursor w). unfold list_expired.
  fold (pending_sessions cursor w). set (L := merge_sort older (pending_sessions cursor w)).
  assert (HL : L ≡ₚ pending_sessions cursor w) by apply merge_sort_Permutation.
  destruct (last (take _CLEANUP_BATCH L)) as [s|] eqn:Hs.
  - apply wp_bind. eapply wp_mono; [apply cleanup_batch_spec| |done]. intros [] w1 H1.
    pose proof (batch_rest cursor w w1 (take _CLEANUP_BATCH L) (drop _CLEANUP_BATCH L) s (take_drop _ _) Hs H1) as Hr.
    assert (Hpos : 0 < length (take _CLEANUP_BATCH L)) by (destruct (take _CLEANUP_BATCH L); [done|cbn; lia]).
    rewrite length_take in Hpos.
    eapply wp_mono; [apply IH| |done].
    + rewrite Hr, length_drop. apply Permutation_length in HL. lia.
    + intros [] w2 H2. apply (cleaned_perm (take _CLEANUP_BATCH L ++ drop _CLEANUP_BATCH L)).
      * by rewrite take_drop.
      * eapply cleaned_app; [exact H1|]. by eapply cleaned_perm.
  - apply wp_ret. apply last_None in Hs. assert (HLn : L = []).
    { destruct L as [|a L']; [done|]. unfold _CLEANUP_BATCH in Hs. change 500 with (S 499) in Hs. discriminate Hs. }
    rewrite HLn in HL. symmetry in HL. apply Permutation_nil_r in HL. rewrite HL. apply cleaned_nil.
Qed.
End cleanup.

(** The clean-up of abandoned uploads visits every session that has passed
    its hour, whatever their number, batch after batch, and ends: those whose
    object can be deleted are gone with their object, those whose deletion fails
    are kept with their object for the next round, and nothing else is touched. *)
Theorem cleanup_complete (F : faults) (w : world) :
  let expired := filter (λ s, (s_created s.2 < clock w - _UPLOAD_TTL)%Z) (map_to_list (sessions (db w))) in
  let deleted := filter (λ s, f_delete F (storage_key s.2) = false) expired in
  ∃ w', cleanup_expired_uploads F w = (Ok tt, w')
    ∧ (∀ u, sessions (db w') !! u = if decide (u ∈ deleted.*1) then None else sessions (db w) !! u)
    ∧ (∀ k, objects w' !! k = if decide (k ∈ storage_key <$> deleted.*2) then None else objects w !! k)
    ∧ files (db w') = files (db w).
Proof.
  cbv zeta. unfold cleanup_expired_uploads. rewrite run_get_state.
  set (before := (clock w - _UPLOAD_TTL)%Z).
  assert (Hp : pending_sessions before None w = filter (λ s, (s_created s.2 < before)%Z) (map_to_list (sessions (db w)))).
  { unfold pending_sessions. apply list_filter_iff. intros s. unfold after_cursor. tauto. }
  pose proof (cleanup_loop_spec F before (S (size (sessions (db w)))) None w) as H. unfold wp in H.
  destruct (cleanup_loop _ _ _ _ w) as [[[]|e] w'].
  - destruct H as (Hs & Ho & Hf & _).
    { rewrite Hp. pose proof (length_filter (λ s : string * UploadSession, (s_created s.2 < before)%Z) (map_to_list (sessions (db w)))) as Hl.
      rewrite length_map_to_list in Hl. lia. }
    exists w'. split; [done|]. rewrite Hp in Hs, Ho. unfold removed, cleared in Hs, Ho. split_and!; [exact Hs| |done].
    intros k. rewrite Ho. by rewrite list_fmap_compose.
  - exfalso. apply H. rewrite Hp. pose proof (length_filter (λ s : string * UploadSession, (s_created s.2 < before)%Z) (map_to_list (sessions (db w)))) as Hl.
    rewrite length_map_to_list in Hl. lia.
Qed.

(** ** A run, with a stand-in for the hash *)
Definition zeros : string := "0000000000000000000000000000000000000000000000000000000000000000".

Definition padding (c : string) : string := String.substring 0 64 (c +:+ zeros).

Definition padded : Outside := {| sha3_256 := padding; process_upload := λ _ _ _, Ok None |}.

#[local] Existing Instance padded.

#[local] Instance padded_laws : OutsideLaws.
Proof.
  split. intros c. change (String.length (String.substring 0 64 (c +:+ zeros)) = 64).
  apply substring_length. rewrite string_length_app. change (String.length zeros) with 64. lia.
Qed.

Definition sample_cfg : settings := Settings true 1000 true true 5 true.
Definition empty_library : world := World no_tables ∅ ∅ ∅ ∅ ∅ 100.
Definition a_file : uuid := uuid_of_N 10.
Definition next_file : uuid := uuid_of_N 11.
Definition an_author : uuid := uuid_of_N 1.
Definition a_paper : FileCreate := MkCreate "paper.txt" "text/plain" "math" "" "public" None None.
Definition its_revision : FileCreate := MkCreate "paper.txt" "text/plain" "" "" "public" None (Some a_file).

Definition run_ops (os : list op) (w : world) : world := fold_left (λ w o, (transaction true (body sample_cfg o) w).2) os w.

Lemma run_ops_app os os' w : run_ops (os ++ os') w = run_ops os' (run_ops os w).
Proof. apply fold_left_app. Qed.

(** The marks of a run. *)
Definition run_marks (os : list op) (w : world) : world * marks :=
  fold_left (λ s o, ((transaction true (body sample_cfg o) s.1).2,
    Marks (lost s.2 ∪ loses sample_cfg true o s.1) (poisoned s.2 ∪ poisons o s.1))) os (w, unmarked).

Lemma run_reaches os w : rtc (step sample_cfg) (w, unmarked) (run_marks os w).
Proof.
  induction os as [|o os IH] using rev_ind; [done|]. unfold run_marks in *. rewrite fold_left_app. cbn. eapply rtc_r; [exact IH|].
  destruct (fold_left _ os (w, unmarked)) as [w1 mk]. cbn. apply step_op.
Qed.

Lemma run_marks_world os w : (run_marks os w).1 = run_ops os w.
Proof.
  induction os as [|o os IH] using rev_ind; [done|]. rewrite run_ops_app. unfold run_marks in *. rewrite fold_left_app. cbn. by rewrite IH.
Qed.

(** A paper is uploaded and approved, a revision too; the content of the first goes to the archive. *)
Definition a_history : list op :=
  [ Create no_faults 2026 a_file an_author a_paper "first";
    Review no_faults a_file APPROVED None true None;
    Create no_faults 2026 next_file an_author its_revision "second";
    Review no_faults next_file APPROVED None true None;
    Archive no_faults 1000 (padding "first") ].

Definition after_history : world := run_ops a_history empty_library.

Lemma history_reaches : rtc (step sample_cfg) (empty_library, unmarked) (after_history, (run_marks a_history empty_library).2).
Proof.
  unfold after_history. rewrite <- run_marks_world. pose proof (run_reaches a_history empty_library) as Hr.
  by destruct (run_marks a_history empty_library).
Qed.

(** Nothing has gone wrong in it. *)
Lemma history_unmarked : elements (lost (run_marks a_history empty_library).2) = [] ∧ elements (poisoned (run_marks a_history empty_library).2) = [].
Proof. split; vm_compute; reflexivity. Qed.

Lemma starts_empty : starts empty_library.
Proof. done. Qed.

Definition state_of (w : world) : list (Z * FileStatus * bool) :=
  (λ kf, (version kf.2, status kf.2, archived kf.2)) <$> map_to_list (files (db w)).

Lemma content_available_witness :
  (∀ f x, files (db after_history) !! f = Some x → status x = PENDING ∨ status x = APPROVED →
     ∃ h, sha3_hash x = Some h ∧ ref_count x = count_live_by_hash h (db after_history)
       ∧ (is_Some (objects after_history !! _build_bucket_key h)
          ∨ status x = APPROVED ∧ archive_dir sample_cfg = true ∧ is_Some (archive after_history !! h)))
  ∧ state_of after_history ≡ₚ [(1%Z, APPROVED, true); (2%Z, APPROVED, false)].
Proof.
  split.
  - pose proof history_reaches as Hr. destruct history_unmarked as [Hl _]. revert Hr Hl.
    generalize (run_marks a_history empty_library).2. intros mk Hr Hl f x Hx Hst.
    pose proof (proj1 (content_available sample_cfg empty_library after_history mk starts_empty Hr) f x Hx Hst) as (h & Hh & Hc & Hav).
    exists h. split; [exact Hh|]. split; [exact Hc|]. destruct Hav as [Hm|Hav]; [|exact Hav].
    exfalso. apply elem_of_elements in Hm. rewrite Hl in Hm. by apply elem_of_nil in Hm.
  - vm_compute. first [reflexivity | apply perm_swap].
Defined.

Lemma approvals_rewarded_once_witness :
  NoDup (filter (λ m, is_points m = true) (outbox (db after_history)))
  ∧ length (filter (λ m, is_points m = true) (outbox (db after_history))) = 2.
Proof.
  split; [exact (proj1 (approvals_rewarded_once sample_cfg empty_library after_history _ starts_empty history_reaches))|].
  vm_compute. reflexivity.
Defined.

Lemma listing_correct_witness :
  chains (files (db after_history))
  ∧ (λ kf, version kf.2) <$> rows after_history None true = [2%Z].
Proof.
  split; [exact (proj1 (listing_correct sample_cfg empty_library after_history _ starts_empty history_reaches))|].
  vm_compute. reflexivity.
Defined.

(** ** What the code does not mean to do *)

(** A deletion whose commit fails leaves the row and loses the content. *)
Lemma failed_deletion_loses_content :
  let w := run_ops [Create no_faults 2026 a_file an_author a_paper "first"; Review no_faults a_file APPROVED None true None] empty_library in
  let w' := (transaction false (body sample_cfg (Delete no_faults a_file an_author true)) w).2 in
  status <$> files (db w') !! a_file = Some APPROVED ∧ objects w' !! _build_bucket_key (padding "first") = None.
Proof. vm_compute. split; reflexivity. Qed.

(** Whoever overwrites a direct upload between its hashing and its copy stores
    under one hash what has another, screened by nobody. *)
Lemma overwritten_upload_poisons :
  let up := uuid_hex (uuid_of_N 5) in
  let cur := Build_CurrentUser an_author "normal" "member" None in
  let w := set_objects <[upload_key up := "first"%string]> (run_ops [Init (uuid_of_N 5) a_paper cur] empty_library) in
  let w' := (transaction true (confirm_upload sample_cfg no_faults 2026 a_file up cur (Some "other"%string)) w).2 in
  sha3_hash <$> files (db w') !! a_file = Some (Some (padding "first"))
  ∧ objects w' !! _build_bucket_key (padding "first") = Some "other"%string.
Proof. vm_compute. split; reflexivity. Qed.

(** A confirmation whose commit fails keeps its session and loses the upload. *)
Lemma failed_confirmation_loses_upload :
  let up := uuid_hex (uuid_of_N 5) in
  let cur := Build_CurrentUser an_author "normal" "member" None in
  let w := set_objects <[upload_key up := "first"%string]> (run_ops [Init (uuid_of_N 5) a_paper cur] empty_library) in
  let w' := (transaction false (confirm_upload sample_cfg no_faults 2026 a_file up cur None) w).2 in
  s_created <$> sessions (db w') !! up = Some 100%Z ∧ objects w' !! upload_key up = None
  ∧ match (transaction true (confirm_upload sample_cfg no_faults 2026 a_file up cur None) w').1 with
    | Raise e => e = UPLOAD_NOT_FOUND
    | Ok _ => False
    end.
Proof. split_and!; vm_compute; reflexivity. Qed.
