(* ===== verification/Boards.v ===== *)
(** * Boards

    Model of the boards in [app/modules/content/service.py] and
    [app/modules/content/repository.py], and of the optimistic lock
    [AsyncRepository.update_cas] of [core/db/repository.py]: creating and
    editing boards, applications and their review, bans. Theorems: no update is
    lost to a client that sends the version it has read; slugs stay unique, and
    an applicant comes back no sooner than a day after a rejection. *)

From S2P Require Import Prelude.

(** ** Tables *)
Record Board := MkBoard {
  slug : string;
  title : string;
  description : string;
  owner_id : option uuid;
  parent_id : option uuid;
  b_status : string;                           (* active | inactive *)
  require_certified : bool;
  daily_post_limit : Z;                        (* 0: no limit *)
  is_public : bool;
  version : Z
}.

Inductive ApplicationStatus := pending | approved | rejected.

#[export] Instance ApplicationStatus_eq_dec : EqDecision ApplicationStatus.
Proof. unfold EqDecision, Decision. decide equality. Defined.

Record BoardApplication := MkApplication {
  applicant_id : uuid;
  a_title : string;
  a_description : string;
  reason : string;
  a_slug : string;
  a_status : ApplicationStatus;
  reviewer_id : option uuid;
  review_note : option string;
  created_at : Z;
  reviewed_at : option Z
}.

Record BoardBan := MkBan {
  ban_board : uuid;
  ban_user_id : uuid;
  created_by : uuid;
  ban_reason : string;
  expires_at : Z
}.

Record tables := Tables {
  boards : gmap uuid Board;
  applications : gmap uuid BoardApplication;
  bans : gmap uuid BoardBan;
  audit : list (uuid * uuid * ApplicationStatus)      (* reviewer, application, decision *)
}.

Record world := World { db : tables; clock : Z }.

Abbreviation M := (prog world err).

(** ** Requests *)
Record BoardCreate := MkCreate {
  c_slug : string;
  c_title : string;
  c_description : string;
  c_parent_id : option uuid;
  c_require_certified : bool;
  c_daily_post_limit : Z;
  c_is_public : bool
}.

(** The fields that were sent; only [parent_id] may be sent as null. *)
Record BoardUpdate := MkUpdate {
  u_title : option string;
  u_description : option string;
  u_parent_id : option (option uuid);
  u_require_certified : option bool;
  u_daily_post_limit : option Z;
  u_is_public : option bool;
  u_version : option Z
}.

Record BoardApplicationCreate := MkApply {
  ap_title : string;
  ap_description : string;
  ap_reason : string;
  ap_slug : string
}.

(** ** Updates *)
Definition set_db (f : tables → tables) (w : world) : world := World (f (db w)) (clock w).
Definition set_boards (f : gmap uuid Board → gmap uuid Board) : world → world :=
  set_db (λ d, Tables (f (boards d)) (applications d) (bans d) (audit d)).
Definition set_applications (f : gmap uuid BoardApplication → gmap uuid BoardApplication) : world → world :=
  set_db (λ d, Tables (boards d) (f (applications d)) (bans d) (audit d)).
Definition set_bans (f : gmap uuid BoardBan → gmap uuid BoardBan) : world → world :=
  set_db (λ d, Tables (boards d) (applications d) (f (bans d)) (audit d)).
Definition record_audit (reviewer a : uuid) (st : ApplicationStatus) : world → world :=
  set_db (λ d, Tables (boards d) (applications d) (bans d) (audit d ++ [(reviewer, a, st)])).

Definition transaction {A} (commits : bool) (m : M A) : M A := λ w,
  match m w with
  | (Ok a, w') => if commits then (Ok a, w') else (Raise RuntimeError, set_db (λ _, db w) w')
  | (Raise e, w') => (Raise e, set_db (λ _, db w) w')
  end.

(** ** [BoardRepository] *)
Definition has_slug (s : string) (b : Board) : bool := bool_decide (slug b = s).

Definition slug_taken (s : string) (d : tables) : bool := existsb (λ kb, has_slug s kb.2) (map_to_list (boards d)).

Definition get_by_slug (s : string) (d : tables) : option uuid :=
  fst <$> List.find (λ kb, has_slug s kb.2) (map_to_list (boards d)).

(** The insertion: 32-bit limit, primary key, unique slug and foreign key. *)
Definition insert_board (new : uuid) (b : Board) : M () :=
  w ← get_state;
  raise_when (negb (int32 (daily_post_limit b))) DataError ≫= λ _,
  raise_when (bool_decide (is_Some (boards (db w) !! new)) || slug_taken (slug b) (db w)
              || match parent_id b with Some p => bool_decide (boards (db w) !! p = None) | None => false end)
    IntegrityError ≫= λ _,
  modify (set_boards <[new := b]>).

Definition create_board_ex (new : uuid) (info : BoardCreate) (owner : option uuid) : M Board :=
  w ← get_state;
  raise_when (slug_taken (c_slug info) (db w)) SLUG_CONFLICT ≫= λ _,
  let b := MkBoard (c_slug info) (c_title info) (c_description info) owner (c_parent_id info) "active"
             (c_require_certified info) (c_daily_post_limit info) (c_is_public info) 1 in
  insert_board new b ≫= λ _,
  mret b.

(** The conflict of two insertions is ignored, and the row read again. *)
Definition ensure_by_slug (new : uuid) (s : string) : M uuid :=
  w ← get_state;
  match get_by_slug s (db w) with
  | Some b => mret b
  | None => insert_board new (MkBoard s s "auto-created for blog publish" None None "active" false 0 true 1) ≫= λ _,
            mret new
  end.

Definition get_board_ex (b : uuid) : M Board :=
  w ← get_state; get_or_raise (boards (db w) !! b) BOARD_NOT_FOUND.

Definition _assert_owner (b : Board) (current : uuid) (is_admin : bool) : M () :=
  raise_when (bool_decide (owner_id b ≠ Some current) && negb is_admin) NOT_BOARD_OWNER.

Definition patched (u : BoardUpdate) (b : Board) : Board :=
  MkBoard (slug b) (default (title b) (u_title u)) (default (description b) (u_description u)) (owner_id b)
    (default (parent_id b) (u_parent_id u)) (b_status b) (default (require_certified b) (u_require_certified u))
    (default (daily_post_limit b) (u_daily_post_limit u)) (default (is_public b) (u_is_public u)) (version b).

Definition with_version (v : Z) (b : Board) : Board :=
  MkBoard (slug b) (title b) (description b) (owner_id b) (parent_id b) (b_status b) (require_certified b)
    (daily_post_limit b) (is_public b) v.

(** [UPDATE ... WHERE id = :id AND version = :expected] *)
Definition update_cas (k : uuid) (expected_version : option Z) (values : Board → Board) : M Board :=
  w ← get_state;
  match boards (db w) !! k with
  | Some b =>
      if decide (expected_version = None ∨ expected_version = Some (version b)) then
        let b' := with_version (version b + 1) (values b) in
        raise_when (negb (int32 (version b + 1) && int32 (daily_post_limit b'))) DataError ≫= λ _,
        raise_when (match parent_id b' with Some p => bool_decide (boards (db w) !! p = None) | None => false end)
          IntegrityError ≫= λ _,
        modify (set_boards <[k := b']>) ≫= λ _,
        mret b'
      else raise VERSION_CONFLICT
  | None => raise VERSION_CONFLICT
  end.

(** Some field other than the version was sent. *)
Definition sends_data (u : BoardUpdate) : bool :=
  bool_decide (is_Some (u_title u)) || bool_decide (is_Some (u_description u)) || bool_decide (is_Some (u_parent_id u))
  || bool_decide (is_Some (u_require_certified u)) || bool_decide (is_Some (u_daily_post_limit u))
  || bool_decide (is_Some (u_is_public u)).

Definition update_board_ex (k owner : uuid) (u : BoardUpdate) (is_admin : bool) : M Board :=
  b ← get_board_ex k;
  _assert_owner b owner is_admin ≫= λ _,
  if bool_decide (is_Some (u_version u)) || sends_data u then update_cas k (u_version u) (patched u) else mret b.

(** ** Applications *)
Definition BOARD_APPLICATION_COOLDOWN : Z := 24 * 3600 * 1000000.

(** [math.ceil(x / y)] *)
Definition ceil_div (x y : Z) : Z := (- (- x / y))%Z.

(** [Some n]: refused, with [Retry-After: n] seconds. *)
Definition _assert_reapply_allowed (reviewed_at : option Z) (now : Z) : option Z :=
  match reviewed_at with
  | None => None
  | Some t =>
      let until := (t + BOARD_APPLICATION_COOLDOWN)%Z in
      if decide (until ≤ now)%Z then None else Some (Z.max 1 (ceil_div (until - now) 1000000))
  end.

Definition holds_slug (s : string) (a : BoardApplication) : bool := bool_decide (a_slug a = s ∧ a_status a ≠ rejected).

Definition application_slug_taken (s : string) (d : tables) : bool :=
  existsb (λ ka, holds_slug s ka.2) (map_to_list (applications d)).

Definition is_pending_of (u : uuid) (s : string) (a : BoardApplication) : bool :=
  bool_decide (applicant_id a = u ∧ a_slug a = s ∧ a_status a = pending).

Definition has_pending (u : uuid) (s : string) (d : tables) : bool :=
  existsb (λ ka, is_pending_of u s ka.2) (map_to_list (applications d)).

(** By [reviewed_at], the latest first. *)
Definition reviewed_later (a b : uuid * BoardApplication) : Prop :=
  (default 0 (reviewed_at b.2) ≤ default 0 (reviewed_at a.2))%Z.

#[export] Instance reviewed_later_dec : RelDecision reviewed_later.
Proof. intros a b. unfold reviewed_later. apply _. Defined.

Definition latest_rejected (u : uuid) (s : string) (d : tables) : option BoardApplication :=
  snd <$> head (merge_sort reviewed_later
    (filter (λ ka, applicant_id ka.2 = u ∧ a_slug ka.2 = s ∧ a_status ka.2 = rejected) (map_to_list (applications d)))).

(** The insertion; the partial unique index speaks of the rows that are not rejected. *)
Definition insert_application (new : uuid) (a : BoardApplication) : M () :=
  w ← get_state;
  raise_when (bool_decide (is_Some (applications (db w) !! new)) || application_slug_taken (a_slug a) (db w))
    SLUG_CONFLICT ≫= λ _,
  modify (set_applications <[new := a]>).

Definition submit_application (new applicant : uuid) (info : BoardApplicationCreate) : M BoardApplication :=
  w ← get_state;
  raise_when (has_pending applicant (ap_slug info) (db w)) APPLICATION_PENDING_EXISTS ≫= λ _,
  raise_when (application_slug_taken (ap_slug info) (db w)) SLUG_CONFLICT ≫= λ _,
  raise_when (slug_taken (ap_slug info) (db w)) SLUG_CONFLICT ≫= λ _,
  raise_when (match latest_rejected applicant (ap_slug info) (db w) with
              | Some a => bool_decide (is_Some (_assert_reapply_allowed (reviewed_at a) (clock w)))
              | None => false
              end) APPLICATION_COOLDOWN ≫= λ _,
  let a := MkApplication applicant (ap_title info) (ap_description info) (ap_reason info) (ap_slug info) pending None None
             (clock w) None in
  insert_application new a ≫= λ _,
  mret a.

(** [id.desc()] *)
Definition later_id (a b : uuid * BoardApplication) : Prop := (uuid_int b.1 ≤ uuid_int a.1)%N.

#[export] Instance later_id_dec : RelDecision later_id.
Proof. intros a b. unfold later_id. apply _. Defined.

Definition list_my_board_applications (applicant : uuid) (d : tables) : list (uuid * BoardApplication) :=
  merge_sort later_id
    (filter (λ ka, applicant_id ka.2 = applicant) (map_to_list (applications d))).

Definition reviewed (by_ : uuid) (approve : bool) (note : option string) (now : Z) (a : BoardApplication) : BoardApplication :=
  MkApplication (applicant_id a) (a_title a) (a_description a) (reason a) (a_slug a)
    (if approve then approved else rejected) (Some by_) note (created_at a) (Some now).

Definition review_board_application (k reviewer : uuid) (approve : bool) (note : option string) (new : uuid) : M BoardApplication :=
  w ← get_state;
  a ← get_or_raise (applications (db w) !! k) APPLICATION_NOT_FOUND;
  raise_when (bool_decide (a_status a ≠ pending)) APPLICATION_ALREADY_REVIEWED ≫= λ _,
  raise_when (approve && slug_taken (a_slug a) (db w)) SLUG_CONFLICT ≫= λ _,
  let a' := reviewed reviewer approve note (clock w) a in
  modify (set_applications <[k := a']>) ≫= λ _,
  (if approve
   then _ ← create_board_ex new (MkCreate (a_slug a) (a_title a) (a_description a) None false 0 true) (Some (applicant_id a));
        mret tt
   else mret tt) ≫= λ _,
  modify (record_audit reviewer k (a_status a')) ≫= λ _,
  mret a'.

(** ** Bans *)
Definition is_active (b u : uuid) (now : Z) (x : BoardBan) : bool :=
  bool_decide (ban_board x = b ∧ ban_user_id x = u ∧ now < expires_at x)%Z.

Definition is_banned (b u : uuid) (w : world) : bool :=
  existsb (λ kx, is_active b u (clock w) kx.2) (map_to_list (bans (db w))).

Definition ban_user (new board actor target : uuid) (why : string) (hours : Z) (is_admin : bool) : M () :=
  b ← get_board_ex board;
  _assert_owner b actor is_admin ≫= λ _,
  w ← get_state;
  raise_when (is_banned board target w) ALREADY_BANNED ≫= λ _,
  raise_when (bool_decide (is_Some (bans (db w) !! new))) IntegrityError ≫= λ _,
  modify (λ w, set_bans <[new := MkBan board target actor why (clock w + hours * 3600 * 1000000)]> w).

Definition unban_user (board actor target : uuid) (is_admin : bool) : M () :=
  b ← get_board_ex board;
  _assert_owner b actor is_admin ≫= λ _,
  modify (set_bans (filter (λ kx, ¬ (ban_board kx.2 = board ∧ ban_user_id kx.2 = target)))).

(** ** The queries *)
Lemma existsb_map {A} (m : gmap uuid A) (p : A → bool) :
  existsb (λ kx, p kx.2) (map_to_list m) = true ↔ ∃ k x, m !! k = Some x ∧ p x = true.
Proof.
  rewrite List.existsb_exists. split.
  - intros ([k x] & Hin & Hp). apply list_elem_of_In, elem_of_map_to_list in Hin. by exists k, x.
  - intros (k & x & Hk & Hp). exists (k, x). split; [|done]. by apply list_elem_of_In, elem_of_map_to_list.
Qed.

Lemma slug_taken_true s d : slug_taken s d = true ↔ ∃ k b, boards d !! k = Some b ∧ slug b = s.
Proof.
  unfold slug_taken. rewrite (existsb_map (boards d) (has_slug s)). unfold has_slug. by setoid_rewrite bool_decide_eq_true.
Qed.

Lemma slug_taken_false s d k b : slug_taken s d = false → boards d !! k = Some b → slug b ≠ s.
Proof. intros H Hk Hs. assert (slug_taken s d = true); [|congruence]. apply slug_taken_true. by exists k, b. Qed.

Lemma application_slug_taken_false s d k a :
  application_slug_taken s d = false → applications d !! k = Some a → a_slug a = s → a_status a = rejected.
Proof.
  intros H Hk Hs. destruct (decide (a_status a = rejected)) as [|Hr]; [done|]. exfalso.
  assert (application_slug_taken s d = true); [|congruence].
  apply (existsb_map (applications d) (holds_slug s)). exists k, a.
  split; [done|]. by apply bool_decide_eq_true.
Qed.

Lemma is_banned_false b u w k x : is_banned b u w = false → bans (db w) !! k = Some x → is_active b u (clock w) x = false.
Proof.
  intros H Hk. destruct (is_active b u (clock w) x) eqn:Hx; [|done]. exfalso.
  assert (is_banned b u w = true); [|congruence]. apply (existsb_map (bans (db w)) (is_active b u (clock w))).
  by exists k, x.
Qed.

#[local] Instance reviewed_later_trans : Transitive reviewed_later.
Proof. intros a b c. unfold reviewed_later. lia. Qed.

#[local] Instance reviewed_later_total : Total reviewed_later.
Proof. intros a b. unfold reviewed_later. lia. Qed.

(** The latest rejection is the latest. *)
Lemma latest_rejected_spec u s d k a :
  applications d !! k = Some a → applicant_id a = u → a_slug a = s → a_status a = rejected →
  ∃ k' a', latest_rejected u s d = Some a' ∧ applications d !! k' = Some a' ∧ a_status a' = rejected
    ∧ (default 0 (reviewed_at a) ≤ default 0 (reviewed_at a'))%Z.
Proof.
  intros Hk Hu Hs Hr. unfold latest_rejected.
  set (l := filter _ _). assert (Hin : (k, a) ∈ l).
  { unfold l. apply list_elem_of_filter. split; [done|]. by apply elem_of_map_to_list. }
  assert (Hl : ∀ e, e ∈ merge_sort reviewed_later l ↔ e ∈ l) by (intros e; by rewrite merge_sort_Permutation).
  pose proof (StronglySorted_merge_sort reviewed_later l) as Hsort.
  destruct (merge_sort reviewed_later l) as [|[k' a'] l'] eqn:Hm.
  { exfalso. apply Hl in Hin. by apply elem_of_nil in Hin. }
  exists k', a'. cbn. split; [done|].
  assert (Hin' : (k', a') ∈ l) by (apply Hl; by left).
  unfold l in Hin'. apply list_elem_of_filter in Hin' as [(_ & _ & ?) Hin']. apply elem_of_map_to_list in Hin'.
  split; [done|]. split; [done|]. apply Hl in Hin. apply elem_of_cons in Hin as [[= -> ->]|Hin]; [done|].
  apply StronglySorted_inv in Hsort as [_ Hall]. rewrite Forall_forall in Hall. apply Hall in Hin. exact Hin.
Qed.

(** Waiting as long as [Retry-After] says is enough, and no shorter wait would be
    said. *)
Lemma ceil_div_spec x y : (0 < y)%Z → (x ≤ ceil_div x y * y < x + y)%Z.
Proof.
  intros Hy. unfold ceil_div. pose proof (Z.div_mod (- x) y ltac:(lia)). pose proof (Z.mod_pos_bound (- x) y Hy). nia.
Qed.

Lemma retry_after_enough t now n :
  _assert_reapply_allowed t now = Some n →
  _assert_reapply_allowed t (now + n * 1000000) = None ∧ (1 ≤ n)%Z
  ∧ is_Some (_assert_reapply_allowed t (now + (n - 1) * 1000000)).
Proof.
  unfold _assert_reapply_allowed. destruct t as [t|]; [|done]. case_decide as Hd; [done|]. intros [= <-].
  pose proof (ceil_div_spec (t + BOARD_APPLICATION_COOLDOWN - now) 1000000 ltac:(lia)).
  set (c := ceil_div _ _) in *. assert (1 ≤ c)%Z by nia. rewrite Z.max_r by done.
  split; [by rewrite decide_True by lia|]. split; [done|]. rewrite decide_False by lia. by eexists.
Qed.

(** ** What the tables keep *)
(** [a] was rejected a day before [b] came. *)
Definition over_before (a b : BoardApplication) : Prop :=
  a_status a = rejected ∧ ∃ t, reviewed_at a = Some t ∧ (t + BOARD_APPLICATION_COOLDOWN ≤ created_at b)%Z.

(** A decision is signed, dated and audited. *)
Definition decided (w : world) (k : uuid) (a : BoardApplication) : Prop :=
  match a_status a with
  | pending => reviewed_at a = None ∧ reviewer_id a = None
  | st => ∃ t r, reviewed_at a = Some t ∧ reviewer_id a = Some r ∧ (created_at a ≤ t ≤ clock w)%Z ∧ (r, k, st) ∈ audit (db w)
  end.

Record consistent (w : world) : Prop := {
  slugs_unique k1 k2 b1 b2 : boards (db w) !! k1 = Some b1 → boards (db w) !! k2 = Some b2 → slug b1 = slug b2 → k1 = k2;
  active_unique k1 k2 a1 a2 : applications (db w) !! k1 = Some a1 → applications (db w) !! k2 = Some a2 →
    a_slug a1 = a_slug a2 → a_status a1 ≠ rejected → a_status a2 ≠ rejected → k1 = k2;
  spaced k1 k2 a1 a2 : applications (db w) !! k1 = Some a1 → applications (db w) !! k2 = Some a2 → k1 ≠ k2 →
    applicant_id a1 = applicant_id a2 → a_slug a1 = a_slug a2 → over_before a1 a2 ∨ over_before a2 a1;
  decisions k a : applications (db w) !! k = Some a → (created_at a ≤ clock w)%Z ∧ decided w k a;
  granted k a : applications (db w) !! k = Some a → a_status a = approved →
    ∃ k' b, boards (db w) !! k' = Some b ∧ slug b = a_slug a ∧ owner_id b = Some (applicant_id a);
  audited_once : NoDup ((λ e, e.1.2) <$> audit (db w));
  audited r k st : (r, k, st) ∈ audit (db w) → ∃ a, applications (db w) !! k = Some a ∧ a_status a = st ∧ st ≠ pending;
  banned_once k1 k2 x1 x2 : bans (db w) !! k1 = Some x1 → bans (db w) !! k2 = Some x2 →
    ban_board x1 = ban_board x2 → ban_user_id x1 = ban_user_id x2 → (clock w < expires_at x1)%Z → (clock w < expires_at x2)%Z → k1 = k2
}.

(** Boards stay, with their slug and owner; every change raises the version. *)
Definition grows (w w' : world) : Prop :=
  ∀ k b, boards (db w) !! k = Some b →
    ∃ b', boards (db w') !! k = Some b' ∧ slug b' = slug b ∧ owner_id b' = owner_id b ∧ (version b ≤ version b')%Z
      ∧ (version b = version b' → b' = b).

#[export] Instance grows_preorder : PreOrder grows.
Proof.
  split.
  - intros w k b Hb. by exists b.
  - intros w1 w2 w3 H12 H23 k b Hb. destruct (H12 k b Hb) as (b2 & Hb2 & Hs2 & Ho2 & Hv2 & He2).
    destruct (H23 k b2 Hb2) as (b3 & Hb3 & Hs3 & Ho3 & Hv3 & He3). exists b3. split_and!; [done|congruence..|lia|].
    intros He. assert (version b = version b2) as E by lia. rewrite <- (He2 E). apply He3. lia.
Qed.

(** What a request leaves. *)
Record well (w w' : world) : Prop := {
  well_clock : clock w' = clock w;
  well_grows : grows w w';
  well_consistent : consistent w → consistent w'
}.

Lemma well_refl w : well w w.
Proof. by split. Qed.

Lemma well_trans w1 w2 w3 : well w1 w2 → well w2 w3 → well w1 w3.
Proof. intros [C1 G1 I1] [C2 G2 I2]. split; [congruence|by etrans|auto]. Qed.

Abbreviation keeps m w := (wp m (λ _ w', well w w') (λ _ w', clock w' = clock w) w).

Lemma insert_board_well new b w :
  boards (db w) !! new = None → slug_taken (slug b) (db w) = false → well w (set_boards <[new := b]> w).
Proof.
  intros Hn Hs. split; [done| |].
  - intros k c Hc. exists c. cbn. rewrite lookup_insert_ne by congruence. done.
  - intros C. destruct C as [S A P D G N U B]. split; cbn; try done.
    + intros k1 k2 b1 b2. rewrite !lookup_insert_Some. intros [[<- <-]|[? H1]] [[<- <-]|[? H2]] He; [done|..|by eapply S].
      * exfalso. by apply (slug_taken_false _ _ _ _ Hs H2).
      * exfalso. by apply (slug_taken_false _ _ _ _ Hs H1).
    + intros k a Ha Hst. destruct (G k a Ha Hst) as (k' & c & Hc & ?). exists k', c.
      rewrite lookup_insert_ne by congruence. done.
Qed.

Lemma update_board_well k b b' w :
  boards (db w) !! k = Some b → slug b' = slug b → owner_id b' = owner_id b → (version b < version b')%Z →
  well w (set_boards <[k := b']> w).
Proof.
  intros Hk Hs Ho Hv. split; [done| |].
  - intros j c Hc. cbn. destruct (decide (j = k)) as [->|Hj].
    + rewrite lookup_insert_eq. exists b'. assert (c = b) as -> by congruence. split_and!; [done..|lia|lia].
    + rewrite lookup_insert_ne by done. by exists c.
  - intros C. destruct C as [S A P D G N U B]. split; cbn; try done.
    + intros k1 k2 b1 b2. rewrite !lookup_insert_Some. intros [[<- <-]|[? H1]] [[<- <-]|[? H2]] He; [done|..|by eapply S].
      * eapply S; [exact Hk|exact H2|congruence].
      * eapply S; [exact H1|exact Hk|congruence].
    + intros j a Ha Hst. destruct (G j a Ha Hst) as (k' & c & Hc & Hsc & Hoc).
      destruct (decide (k' = k)) as [->|Hne].
      * exists k, b'. rewrite lookup_insert_eq. assert (c = b) as -> by congruence. split_and!; [done|congruence..].
      * exists k', c. by rewrite lookup_insert_ne by done.
Qed.

Lemma raises_back e w (P : Prop) : P → wp (raise e : M ()) (λ _ w', well w w') (λ _ w', clock w' = clock w) w.
Proof. intros _. by apply wp_raise. Qed.

Lemma insert_board_keeps new b w : keeps (insert_board new b) w.
Proof.
  unfold insert_board. apply wp_bind, wp_get_state, wp_bind, wp_raise_when; [done|intros _].
  apply wp_bind, wp_raise_when; [done|]. intros [[Hn Hs]%orb_false_iff _]%orb_false_iff. apply wp_modify.
  apply insert_board_well; [|done]. apply bool_decide_eq_false in Hn. by apply eq_None_not_Some.
Qed.

Lemma create_board_keeps new info owner w : keeps (create_board_ex new info owner) w.
Proof.
  unfold create_board_ex. apply wp_bind, wp_get_state, wp_bind, wp_raise_when; [done|intros _]. cbv zeta.
  apply wp_bind. eapply wp_mono; [apply insert_board_keeps| |done]. intros [] w' H. by apply wp_ret.
Qed.

Lemma ensure_keeps new s w : keeps (ensure_by_slug new s) w.
Proof.
  unfold ensure_by_slug. apply wp_bind, wp_get_state. destruct (get_by_slug s (db w)); [apply wp_ret, well_refl|].
  apply wp_bind. eapply wp_mono; [apply insert_board_keeps| |done]. intros [] w' H. by apply wp_ret.
Qed.

Lemma patched_same u b : slug (patched u b) = slug b ∧ owner_id (patched u b) = owner_id b.
Proof. done. Qed.

Lemma update_cas_keeps k v u w : keeps (update_cas k v (patched u)) w.
Proof.
  unfold update_cas. apply wp_bind, wp_get_state. destruct (boards (db w) !! k) as [b|] eqn:Hk; [|by apply wp_raise].
  case_decide; [|by apply wp_raise]. cbv zeta. apply wp_bind, wp_raise_when; [done|intros _].
  apply wp_bind, wp_raise_when; [done|intros _]. apply wp_bind, wp_modify, wp_ret.
  eapply update_board_well; [done..|]. cbn. lia.
Qed.

Lemma get_board_wp k w Q R :
  (∀ b, boards (db w) !! k = Some b → Q b w) → (boards (db w) !! k = None → R BOARD_NOT_FOUND w) → wp (get_board_ex k) Q R w.
Proof. intros HQ HR. unfold get_board_ex. apply wp_bind, wp_get_state, wp_get_or_raise; auto. Qed.

Lemma update_board_keeps k o u a w : keeps (update_board_ex k o u a) w.
Proof.
  unfold update_board_ex. apply wp_bind, get_board_wp; [|done]. intros b _. apply wp_bind, wp_raise_when; [done|intros _].
  destruct (_ || _); [apply update_cas_keeps|apply wp_ret, well_refl].
Qed.

(** A new application. *)
Lemma submit_well new u info w :
  consistent w → applications (db w) !! new = None →
  has_pending u (ap_slug info) (db w) = false →
  application_slug_taken (ap_slug info) (db w) = false →
  (∀ a, latest_rejected u (ap_slug info) (db w) = Some a → _assert_reapply_allowed (reviewed_at a) (clock w) = None) →
  consistent (set_applications <[new := MkApplication u (ap_title info) (ap_description info) (ap_reason info) (ap_slug info)
    pending None None (clock w) None]> w).
Proof.
  intros C Hn Hp Hs Hl. pose proof C as [S A P D G N U B].
  assert (Hspace : ∀ k a, applications (db w) !! k = Some a → applicant_id a = u → a_slug a = ap_slug info →
            a_status a = rejected ∧ ∃ t, reviewed_at a = Some t ∧ (t + BOARD_APPLICATION_COOLDOWN ≤ clock w)%Z).
  { intros k a Ha Hu Hsl. assert (Hr : a_status a = rejected) by (by apply (application_slug_taken_false _ _ _ _ Hs Ha)).
    split; [done|]. destruct (latest_rejected_spec u (ap_slug info) (db w) k a Ha Hu Hsl Hr) as (k' & a' & Hla & Ha' & Hr' & Hle).
    destruct (D k a Ha) as [_ Dk]. destruct (D k' a' Ha') as [_ Dk']. unfold decided in Dk, Dk'. rewrite Hr in Dk. rewrite Hr' in Dk'.
    destruct Dk as (t & r & Ht & _), Dk' as (t' & r' & Ht' & _). exists t. split; [done|].
    specialize (Hl a' Hla). rewrite Ht' in Hl. rewrite Ht, Ht' in Hle. unfold _assert_reapply_allowed in Hl. case_decide; [|done].
    cbn in Hle. lia. }
  split; cbn; try done.
  - intros k1 k2 a1 a2. rewrite !lookup_insert_Some. intros [[<- <-]|[? H1]] [[<- <-]|[? H2]] He Hn1 Hn2; [done|..|by eapply A].
    + exfalso. apply Hn2. by apply (application_slug_taken_false _ _ _ _ Hs H2).
    + exfalso. apply Hn1. by apply (application_slug_taken_false _ _ _ _ Hs H1).
  - intros k1 k2 a1 a2. rewrite !lookup_insert_Some. intros [[<- <-]|[? H1]] [[<- <-]|[? H2]] Hne Hu He; [done|..|by eapply P].
    + right. destruct (Hspace k2 a2 H2) as (? & ?); [done..|]. by split.
    + left. destruct (Hspace k1 a1 H1) as (? & ?); [done..|]. by split.
  - intros k a. rewrite lookup_insert_Some. intros [[<- <-]|[? Ha]]; [|by apply (D k)]. cbn. split; [done|]. done.
  - intros k a. rewrite lookup_insert_Some. intros [[<- <-]|[? Ha]]; [done|by apply (G k)].
  - intros r k st Hin. destruct (U r k st Hin) as (a & Ha & ?). exists a. rewrite lookup_insert_ne by congruence. done.
Qed.

Lemma submit_keeps new u info w : keeps (submit_application new u info) w.
Proof.
  unfold submit_application, insert_application. apply wp_bind, wp_get_state, wp_bind, wp_raise_when; [done|intros Hp].
  apply wp_bind, wp_raise_when; [done|intros Hs]. apply wp_bind, wp_raise_when; [done|intros _].
  apply wp_bind, wp_raise_when; [done|intros Hl]. cbv zeta. apply wp_bind, wp_bind, wp_get_state, wp_bind, wp_raise_when; [done|].
  intros [Hn _]%orb_false_iff. apply bool_decide_eq_false in Hn. apply wp_modify, wp_ret. split; [done|by intros k b Hb; exists b|].
  intros C. apply submit_well; [done|by apply eq_None_not_Some|done..|].
  intros a Ha. rewrite Ha in Hl. apply bool_decide_eq_false in Hl. by apply eq_None_not_Some.
Qed.

(** A decision. *)
Definition decision (approve : bool) : ApplicationStatus := if approve then approved else rejected.

Lemma review_well k a r approve note w w1 :
  consistent w → applications (db w) !! k = Some a → a_status a = pending →
  consistent w1 → clock w1 = clock w → applications (db w1) = applications (db w) → audit (db w1) = audit (db w) →
  (approve = true → ∃ k' b, boards (db w1) !! k' = Some b ∧ slug b = a_slug a ∧ owner_id b = Some (applicant_id a)) →
  consistent (record_audit r k (decision approve) (set_applications <[k := reviewed r approve note (clock w) a]> w1)).
Proof.
  intros C Hk Hst C1 Hc He Hau Hb. destruct C1 as [S A P D G N U B].
  assert (Hk1 : applications (db w1) !! k = Some a) by congruence.
  assert (Hnk : ∀ r' st, (r', k, st) ∈ audit (db w1) → False).
  { intros r' st Hin. destruct (U r' k st Hin) as (a' & Ha' & <- & Hp). congruence. }
  split; cbn; try done.
  - intros k1 k2 a1 a2. rewrite !lookup_insert_Some. intros [[<- <-]|[? H1]] [[<- <-]|[? H2]] Hs Hn1 Hn2; [done|..|by eapply A].
    + eapply A; [exact Hk1|exact H2|done|congruence|done].
    + eapply A; [exact H1|exact Hk1|done|done|congruence].
  - intros k1 k2 a1 a2. rewrite !lookup_insert_Some. intros [[<- <-]|[? H1]] [[<- <-]|[? H2]] Hne Hu Hs; [done|..|by eapply P].
    + destruct (P k k2 a a2 Hk1 H2 Hne Hu Hs) as [[Hr _]|?]; [congruence|by right].
    + destruct (P k1 k a1 a H1 Hk1 Hne Hu Hs) as [?|[Hr _]]; [by left|congruence].
  - intros j x. rewrite lookup_insert_Some. intros [[<- <-]|[Hj Hx]].
    + destruct (D k a Hk1) as [Hcr _]. split; [done|]. unfold decided. cbn.
      destruct approve; cbn; exists (clock w), r; rewrite <- Hc; (split; [done|]); (split; [done|]); (split; [lia|]);
        apply elem_of_app; right; by left.
    + destruct (D j x Hx) as [? Dj]. split; [done|]. unfold decided in *. destruct (a_status x); [done|..];
        destruct Dj as (t & r' & ? & ? & ? & ?); exists t, r'; (split; [done|]); (split; [done|]); (split; [cbn; lia|]);
        apply elem_of_app; by left.
  - intros j x. rewrite lookup_insert_Some. intros [[<- <-]|[Hj Hx]]; [|by apply (G j)]. cbn. destruct approve; [|done]. intros _. by apply Hb.
  - rewrite fmap_app. cbn. apply NoDup_app. split; [done|]. split; [|apply NoDup_singleton].
    intros j Hj Hjk. apply list_elem_of_singleton in Hjk as ->. apply list_elem_of_fmap in Hj as ([[r' j] st] & -> & Hin).
    by apply (Hnk r' st).
  - intros r' j st [Hin|Hin]%elem_of_app.
    + destruct (decide (j = k)) as [->|Hj]; [by destruct (Hnk r' st)|]. destruct (U r' j st Hin) as (x & Hx & ?). exists x.
      by rewrite lookup_insert_ne by congruence.
    + apply list_elem_of_singleton in Hin as [= -> -> ->]. eexists. rewrite lookup_insert_eq. split; [done|].
      destruct approve; done.
Qed.

Lemma create_board_wp new info owner w (R : err → world → Prop) :
  (∀ e, R e w) →
  wp (create_board_ex new info owner) (λ b w', w' = set_boards <[new := b]> w ∧ boards (db w) !! new = None
    ∧ slug b = c_slug info ∧ owner_id b = owner ∧ slug_taken (c_slug info) (db w) = false) R w.
Proof.
  intros HR. unfold create_board_ex. apply wp_bind, wp_get_state, wp_bind, wp_raise_when; [done|intros Hs]. cbv zeta.
  apply wp_bind. unfold insert_board. apply wp_bind, wp_get_state, wp_bind, wp_raise_when; [done|intros _].
  apply wp_bind, wp_raise_when; [done|]. intros [[Hn _]%orb_false_iff _]%orb_false_iff. apply wp_modify, wp_ret.
  apply bool_decide_eq_false in Hn. split_and!; try done. by apply eq_None_not_Some.
Qed.

Lemma review_keeps k r approve note new w : keeps (review_board_application k r approve note new) w.
Proof.
  unfold review_board_application. apply wp_bind, wp_get_state, wp_bind, wp_get_or_raise; [done|intros a Hk].
  apply wp_bind, wp_raise_when; [done|intros Hst]. apply bool_decide_eq_false, dec_stable in Hst.
  apply wp_bind, wp_raise_when; [done|intros Hs]. cbv zeta. apply wp_bind, wp_modify, wp_bind.
  assert (Hg : ∀ f, grows w (set_boards f w) → grows w (record_audit r k (decision approve)
                (set_boards f (set_applications <[k := reviewed r approve note (clock w) a]> w)))) by done.
  destruct approve; cbn in Hs.
  - apply wp_bind. eapply wp_mono; [apply (create_board_wp _ _ _ _ (λ _ w', clock w' = clock w)); done| |done].
    cbn. intros b w1 (-> & Hn & Hsb & Hob & _). apply wp_ret, wp_bind, wp_modify, wp_ret.
    pose proof (insert_board_well new b w Hn ltac:(by rewrite Hsb)) as [Hc Hgr Hcons].
    split; [done|by apply Hg|]. intros C.
    apply (review_well k a r true note w (set_boards <[new := b]> w)); try done; [by apply Hcons|].
    intros _. exists new, b. split; [apply lookup_insert_eq|done].
  - apply wp_ret, wp_bind, wp_modify, wp_ret. split; [done|by intros j b Hb; exists b|]. intros C.
    by apply (review_well k a r false note w w).
Qed.

Lemma ban_keeps new b actor target why hours a w : keeps (ban_user new b actor target why hours a) w.
Proof.
  unfold ban_user. apply wp_bind, get_board_wp; [|done]. intros x _. apply wp_bind, wp_raise_when; [done|intros _].
  apply wp_bind, wp_get_state, wp_bind, wp_raise_when; [done|intros Hb].
  apply wp_bind, wp_raise_when; [done|intros _]. apply wp_modify. split; [done|by intros j y Hy; exists y|].
  intros [S A P D G N U B]. split; cbn; try done.
  intros k1 k2 x1 x2. rewrite !lookup_insert_Some. intros [[<- <-]|[? H1]] [[<- <-]|[? H2]] Hbo Hus He1 He2; [done|exfalso|exfalso|by eapply B].
  - pose proof (is_banned_false _ _ _ _ _ Hb H2) as Hf. apply bool_decide_eq_false in Hf. by apply Hf.
  - pose proof (is_banned_false _ _ _ _ _ Hb H1) as Hf. apply bool_decide_eq_false in Hf. by apply Hf.
Qed.

Lemma unban_keeps b actor target a w : keeps (unban_user b actor target a) w.
Proof.
  unfold unban_user. apply wp_bind, get_board_wp; [|done]. intros x _. apply wp_bind, wp_raise_when; [done|intros _].
  apply wp_modify. split; [done|by intros j y Hy; exists y|].
  intros [S A P D G N U B]. split; cbn; try done.
  intros k1 k2 x1 x2 [H1 _]%map_lookup_filter_Some [H2 _]%map_lookup_filter_Some. by eapply B.
Qed.

(** ** Requests in sequence *)
Inductive op :=
  | Create (new : uuid) (info : BoardCreate)
  | Ensure (new : uuid) (s : string)
  | Update (k owner : uuid) (u : BoardUpdate) (is_admin : bool)
  | Submit (new applicant : uuid) (info : BoardApplicationCreate)
  | Review (k reviewer : uuid) (approve : bool) (note : option string) (new : uuid)
  | Ban (new board actor target : uuid) (why : string) (hours : Z) (is_admin : bool)
  | Unban (board actor target : uuid) (is_admin : bool).

Definition ignore {A} (m : M A) : M () := _ ← m; mret tt.

Definition body (o : op) : M () :=
  match o with
  | Create new info => ignore (create_board_ex new info None)
  | Ensure new s => ignore (ensure_by_slug new s)
  | Update k owner u a => ignore (update_board_ex k owner u a)
  | Submit new u info => ignore (submit_application new u info)
  | Review k r approve note new => ignore (review_board_application k r approve note new)
  | Ban new b actor target why hours a => ban_user new b actor target why hours a
  | Unban b actor target a => unban_user b actor target a
  end.

Inductive step (w : world) : world → Prop :=
  | step_op o commits : step w (transaction commits (body o) w).2
  | step_time t : (clock w ≤ t)%Z → step w (World (db w) t).

Lemma ignore_keeps {A} (m : M A) w : keeps m w → keeps (ignore m) w.
Proof. intros H. apply wp_bind. eapply wp_mono; [exact H| |done]. done. Qed.

Lemma board_body_keeps o w : keeps (body o) w.
Proof.
  destruct o; cbn [body].
  - apply ignore_keeps, create_board_keeps.
  - apply ignore_keeps, ensure_keeps.
  - apply ignore_keeps, update_board_keeps.
  - apply ignore_keeps, submit_keeps.
  - apply ignore_keeps, review_keeps.
  - apply ban_keeps.
  - apply unban_keeps.
Qed.

Lemma transaction_well o commits w : well w (transaction commits (body o) w).2.
Proof.
  pose proof (board_body_keeps o w) as H. unfold wp in H. unfold transaction.
  assert (Hback : ∀ w', clock w' = clock w → well w (set_db (λ _, db w) w')).
  { intros w' Hc. assert (set_db (λ _, db w) w' = w) as -> by (destruct w; unfold set_db; cbn in *; congruence). apply well_refl. }
  destruct (body o w) as [[[]|e] w']; [destruct commits|]; cbn; [done|apply Hback, H|by apply Hback].
Qed.

Lemma step_grows w w' : step w w' → grows w w'.
Proof. intros [o commits|t _]; [apply transaction_well|]. by intros k b Hb; exists b. Qed.

Lemma reach_grows w w' : rtc step w w' → grows w w'.
Proof. induction 1 as [|w1 w2 w3 H12 _ IH]; [done|]. etrans; [by apply step_grows|done]. Qed.

Lemma step_consistent w w' : consistent w → step w w' → consistent w'.
Proof.
  intros C [o commits|t Ht]; [by apply transaction_well|]. destruct C as [S A P D G N U B]. split; cbn; try done.
  - intros k a Ha. destruct (D k a Ha) as [? Dk]. split; [lia|]. unfold decided in *. cbn.
    destruct (a_status a); [done|..]; destruct Dk as (t' & r & ? & ? & ? & ?); exists t', r;
      (split; [done|]); (split; [done|]); (split; [lia|done]).
  - intros k1 k2 x1 x2 H1 H2 Hb Hu He1 He2. eapply B; [done..|lia|lia].
Qed.

Definition no_rows : tables := Tables ∅ ∅ ∅ [].

Lemma consistent_empty w : db w = no_rows → consistent w.
Proof.
  intros Hd. destruct w as [d c]. cbn in Hd. subst d.
  split; cbn; try (intros * H; by rewrite lookup_empty in H); [constructor|].
  intros r k st Hin. by apply elem_of_nil in Hin.
Qed.

(** No update of a board is lost. A client reads a board and sends back its
    version: whatever happened meanwhile, the update is applied only to the board
    as it was read, raising the version by one; if the board was changed, the
    client is told (unless it may not edit the board at all), and a refusal
    changes nothing. *)
Theorem no_lost_update (w0 w : world) (k owner : uuid) (b0 : Board) (u : BoardUpdate) (is_admin : bool)
  (Hread : boards (db w0) !! k = Some b0) (Hrun : rtc step w0 w) (Hv : u_version u = Some (version b0)) :
  match update_board_ex k owner u is_admin w with
  | (Ok b, w') =>
      boards (db w) !! k = Some b0 ∧ (owner_id b0 = Some owner ∨ is_admin = true)
      ∧ b = with_version (version b0 + 1) (patched u b0) ∧ w' = set_boards <[k := b]> w
  | (Raise e, w') =>
      w' = w ∧ (e = NOT_BOARD_OWNER ↔ owner_id b0 ≠ Some owner ∧ is_admin = false)
      ∧ (boards (db w) !! k ≠ Some b0 → e = NOT_BOARD_OWNER ∨ e = VERSION_CONFLICT)
  end.
Proof.
  destruct (reach_grows w0 w Hrun k b0 Hread) as (b & Hb & _ & Ho & Hle & Heq).
  unfold update_board_ex, get_board_ex. autorewrite with run. rewrite Hb. cbv beta iota.
  unfold _assert_owner. rewrite run_raise_when. rewrite Ho.
  destruct (bool_decide (owner_id b0 ≠ Some owner) && negb is_admin) eqn:Hown.
  { apply andb_true_iff in Hown as [Hn%bool_decide_eq_true Ha%negb_true_iff]. split; [done|]. split; [done|]. by left. }
  assert (Hmay : owner_id b0 = Some owner ∨ is_admin = true).
  { apply andb_false_iff in Hown as [Hn%bool_decide_eq_false|Ha%negb_false_iff]; [left; by apply dec_stable|by right]. }
  assert (Hnot : ∀ e, e ≠ NOT_BOARD_OWNER → e = NOT_BOARD_OWNER ↔ owner_id b0 ≠ Some owner ∧ is_admin = false).
  { intros e He. split; [done|]. intros [Hn Ha]. destruct Hmay; congruence. }
  rewrite Hv, (bool_decide_eq_true_2 (is_Some (Some (version b0)))) by (by eexists). cbn [orb].
  unfold update_cas. rewrite run_get_state, Hb. destruct (decide (Some (version b0) = None ∨ Some (version b0) = Some (version b))) as [Hd|Hd].
  - assert (b = b0) as ->. { apply Heq. destruct Hd as [Hd|Hd]; [discriminate|by injection Hd]. }
    cbv zeta. rewrite run_raise_when. destruct (negb (int32 _ && _)); [split; [done|]; split; [by apply Hnot|done]|].
    rewrite run_raise_when. destruct (match parent_id _ with Some _ => _ | None => _ end); [split; [done|]; split; [by apply Hnot|done]|].
    rewrite run_modify. done.
  - split; [done|]. split; [by apply Hnot|]. by right.
Qed.

(** Applications are fair. From the empty tables on: slugs of boards are
    unique and so are those of applications that are not rejected; a user's
    applications for one slug follow each other, each at least a day after the
    rejection of the one before; what is decided is signed, dated, audited once
    and never decided again; an approved applicant owns a board with the slug;
    nobody is banned twice from a board at a time. And [Retry-After] is exactly
    the wait that is needed. *)
Theorem applications_fair (w0 w : world) (Hs : db w0 = no_rows) (Hr : rtc step w0 w) :
  consistent w
  ∧ ∀ t now n, _assert_reapply_allowed t now = Some n →
      _assert_reapply_allowed t (now + n * 1000000) = None ∧ (1 ≤ n)%Z
      ∧ is_Some (_assert_reapply_allowed t (now + (n - 1) * 1000000)).
Proof.
  split; [|exact retry_after_enough].
  apply (invariant_reachable step consistent w0); [by apply consistent_empty|exact step_consistent|exact Hr].
Qed.

(** ** Runs *)
Definition a_board : uuid := uuid_of_N 1.
Definition its_owner : uuid := uuid_of_N 2.
Definition the_board : Board := MkBoard "math" "Mathematics" "" (Some its_owner) None "active" false 0 true 1.
Definition one_board : world := World (Tables {[a_board := the_board]} ∅ ∅ []) 0.
Definition rename (s : string) (v : option Z) : BoardUpdate := MkUpdate (Some s) None None None None None v.
Definition renamed : world := (transaction true (body (Update a_board its_owner (rename "Algebra" None) false)) one_board).2.

Lemma no_lost_update_witness :
  match update_board_ex a_board its_owner (rename "Geometry" (Some 1%Z)) false renamed with
  | (Ok b, w') => False
  | (Raise e, w') => w' = renamed ∧ e = VERSION_CONFLICT
  end.
Proof.
  assert (Hrun : rtc step one_board renamed) by (eapply rtc_l; [apply (step_op one_board (Update a_board its_owner (rename "Algebra" None) false) true)|apply rtc_refl]).
  pose proof (no_lost_update one_board renamed a_board its_owner the_board (rename "Geometry" (Some 1%Z)) false
    ltac:(apply lookup_singleton_eq) Hrun eq_refl) as H.
  destruct (update_board_ex _ _ _ _ renamed) as [[b|e] w'].
  - destruct H as (H & _). vm_compute in H. discriminate H.
  - destruct H as (-> & [Hn _] & Hc). split; [done|].
    destruct Hc as [->|]; [|by destruct (Hn eq_refl) as [Hf _]; exfalso; apply Hf|done].
    intros Hf. vm_compute in Hf. discriminate Hf.
Defined.

Definition a_user : uuid := uuid_of_N 3.
Definition an_admin : uuid := uuid_of_N 4.
Definition an_application : BoardApplicationCreate := MkApply "Logic" "proofs" "why not" "logic".

(** Refused on the first day, refused again an hour later, heard on the third day. *)
Definition a_history : list (op * Z) :=
  [(Submit (uuid_of_N 10) a_user an_application, 0%Z);
   (Review (uuid_of_N 10) an_admin false None (uuid_of_N 20), (86400 * 1000000)%Z);
   (Submit (uuid_of_N 11) a_user an_application, (90000 * 1000000)%Z);
   (Submit (uuid_of_N 12) a_user an_application, (172800 * 1000000)%Z);
   (Review (uuid_of_N 12) an_admin true None (uuid_of_N 21), (172800 * 1000000)%Z)].

Definition run_at (w : world) (o : op * Z) : world := (transaction true (body o.1) (World (db w) o.2)).2.

Definition after_history : world := foldl run_at (World no_rows 0) a_history.

Lemma board_run_reaches os w : Sorted Z.le (clock w :: os.*2) → rtc step w (foldl run_at w os).
Proof.
  revert w. induction os as [|[o t] os IH]; intros w Hs; [apply rtc_refl|]. cbn [foldl].
  apply Sorted_inv in Hs as [Hs Hle]. apply HdRel_inv in Hle. cbn [fmap list_fmap snd] in *.
  eapply rtc_l; [by apply (step_time w t)|]. eapply rtc_l; [apply (step_op (World (db w) t) o true)|].
  change (transaction true (body o) (World (db w) t)).2 with (run_at w (o, t)). apply IH.
  assert (clock (run_at w (o, t)) = t) as -> by (apply (well_clock _ _ (transaction_well o true (World (db w) t)))). done.
Qed.

Lemma applications_fair_witness :
  consistent after_history
  ∧ size (applications (db after_history)) = 2 ∧ size (boards (db after_history)) = 1.
Proof.
  split; [|split; vm_compute; reflexivity].
  apply (applications_fair (World no_rows 0) after_history eq_refl).
  apply board_run_reaches. cbn. repeat constructor; lia.
Defined.
