(* ===== verification/Content.v ===== *)
(** * Content: items, comments, reactions and their counters

    Model of [app/modules/content] (service, counters, repository, read and write
    APIs, events, tasks), of [app/modules/comment], of the favourites and the
    view log of [app/modules/interaction], and of [core/counters.py]: writing and
    deleting items, comments and their floors, likes and favourites, the counters
    derived from them in both modes (written through, or gathered in Redis and
    flushed), and their reconciliation with the detail rows. Theorems: counters
    are exact, or converge; the reconciliation repairs everything and then finds
    nothing to do. *)

From S2P Require Import Prelude Boards Feed Fanout.

(** ** Tables *)
Inductive ContentType := DISCUSSION | ARTICLE | COLUMN_POST | BLOG_POST | QA.
Inductive ContentStatus := DRAFT | PENDING | PUBLISHED | REJECTED.

#[export] Instance ContentType_eq_dec : EqDecision ContentType.
Proof. unfold EqDecision, Decision. decide equality. Defined.
#[export] Instance ContentStatus_eq_dec : EqDecision ContentStatus.
Proof. unfold EqDecision, Decision. decide equality. Defined.

(** What an item says. *)
Record ItemData := MkData {
  content_type : ContentType;
  board_id : uuid;
  author_id : option uuid;
  column_id : option uuid;
  qa_question_id : option uuid;
  slug : option string;
  title : string;
  content : string;
  summary : option string;
  cover : option string;
  status : ContentStatus;
  is_pinned : bool;
  is_featured : bool;
  created_at : Z;
  published_at : option Z
}.

(** The three counters that have detail rows. *)
Inductive field := like_count | comment_count | bookmark_count.

#[export] Instance field_eq_dec : EqDecision field.
Proof. unfold EqDecision, Decision. decide equality. Defined.

#[export] Instance field_countable : Countable field.
Proof.
  apply (inj_countable' (λ f, match f with like_count => 0 | comment_count => 1 | bookmark_count => 2 end)
    (λ n, match n with 0 => like_count | 1 => comment_count | _ => bookmark_count end)). by intros [].
Defined.

Definition COUNTER_FIELDS : list field := [like_count; comment_count; bookmark_count].

Record counts := Counts { n_like : Z; n_comment : Z; n_bookmark : Z }.

#[export] Instance counts_eq_dec : EqDecision counts.
Proof. unfold EqDecision, Decision. decide equality; apply Z.eq_dec. Defined.

Definition get_count (f : field) (c : counts) : Z :=
  match f with like_count => n_like c | comment_count => n_comment c | bookmark_count => n_bookmark c end.

Definition set_count (f : field) (n : Z) (c : counts) : counts :=
  match f with
  | like_count => Counts n (n_comment c) (n_bookmark c)
  | comment_count => Counts (n_like c) n (n_bookmark c)
  | bookmark_count => Counts (n_like c) (n_comment c) n
  end.

Record ContentItem := MkItem {
  data : ItemData;
  view_count : Z;
  forward_count : Z;
  counted : counts;
  counts_reconciled_at : option Z;
  deleted_at : option Z
}.

Record ContentComment := MkComment {
  cm_content_id : uuid;
  cm_user_id : uuid;
  cm_content : string;
  floor_number : Z;
  cm_parent_id : option uuid;
  cm_like_count : Z;
  cm_deleted_at : option Z
}.

Inductive action := published | updated | deleted.

Inductive message :=
  | PointsEvent (u : uuid) (event ref : string)
  | ContentEvent (item : uuid) (a : action).

Record tables := Tables {
  items : gmap uuid ContentItem;
  likes : gset (uuid * uuid);                  (* content_likes: item, user *)
  comments : gmap uuid ContentComment;
  comment_likes : gset (uuid * uuid);          (* comment, user *)
  favorites : gset (uuid * uuid);              (* interaction_favorites: item, user *)
  view_logs : gmap (uuid * uuid) Z;            (* item, user: viewed_at *)
  outbox : list message;
  forum : Boards.tables;
  feed : Feed.tables
}.

Record world := World {
  db : tables;
  pending : gmap (field * uuid) Z;             (* Redis: what is not flushed yet *)
  details : gmap uuid ItemData;                (* Redis: snapshots of items *)
  list_version : Z;                            (* Redis: the version of the collection *)
  levels : gmap uuid string;                   (* the account service: levels *)
  certified : gset uuid;                       (* the exams: certified users *)
  columns : gset uuid;                         (* the columns that exist *)
  last_corrected : gset uuid;                  (* process: [_last_corrected_ids] *)
  repeated_total : nat;                        (* metric: [counts_reconcile_repeated_total] *)
  clock : Z
}.

Abbreviation M := (prog world err).

Record settings := Settings {
  counters_write_through : bool;
  content_events_enabled : bool
}.

(** Which calls of Redis fail during a request; [f_drain]: after how many keys
    the drain breaks off. *)
Record faults := Faults {
  f_incr : bool;
  f_get : bool;
  f_drain : option nat;
  f_cache : bool
}.

Definition no_faults : faults := Faults false false None false.

(** ** Updates *)
Definition set_db (f : tables → tables) (w : world) : world :=
  World (f (db w)) (pending w) (details w) (list_version w) (levels w) (certified w) (columns w) (last_corrected w)
    (repeated_total w) (clock w).
Definition set_items (f : gmap uuid ContentItem → gmap uuid ContentItem) : world → world :=
  set_db (λ d, Tables (f (items d)) (likes d) (comments d) (comment_likes d) (favorites d) (view_logs d) (outbox d) (forum d) (feed d)).
Definition set_likes (f : gset (uuid * uuid) → gset (uuid * uuid)) : world → world :=
  set_db (λ d, Tables (items d) (f (likes d)) (comments d) (comment_likes d) (favorites d) (view_logs d) (outbox d) (forum d) (feed d)).
Definition set_comments (f : gmap uuid ContentComment → gmap uuid ContentComment) : world → world :=
  set_db (λ d, Tables (items d) (likes d) (f (comments d)) (comment_likes d) (favorites d) (view_logs d) (outbox d) (forum d) (feed d)).
Definition set_comment_likes (f : gset (uuid * uuid) → gset (uuid * uuid)) : world → world :=
  set_db (λ d, Tables (items d) (likes d) (comments d) (f (comment_likes d)) (favorites d) (view_logs d) (outbox d) (forum d) (feed d)).
Definition set_favorites (f : gset (uuid * uuid) → gset (uuid * uuid)) : world → world :=
  set_db (λ d, Tables (items d) (likes d) (comments d) (comment_likes d) (f (favorites d)) (view_logs d) (outbox d) (forum d) (feed d)).
Definition set_view_logs (f : gmap (uuid * uuid) Z → gmap (uuid * uuid) Z) : world → world :=
  set_db (λ d, Tables (items d) (likes d) (comments d) (comment_likes d) (favorites d) (f (view_logs d)) (outbox d) (forum d) (feed d)).
Definition send (m : message) : world → world :=
  set_db (λ d, Tables (items d) (likes d) (comments d) (comment_likes d) (favorites d) (view_logs d) (outbox d ++ [m]) (forum d) (feed d)).
Definition set_feed (f : Feed.tables → Feed.tables) : world → world :=
  set_db (λ d, Tables (items d) (likes d) (comments d) (comment_likes d) (favorites d) (view_logs d) (outbox d) (forum d) (f (feed d))).
Definition set_forum (t : Boards.world) : world → world :=
  set_db (λ d, Tables (items d) (likes d) (comments d) (comment_likes d) (favorites d) (view_logs d) (outbox d) (Boards.db t) (feed d)).
Definition set_pending (f : gmap (field * uuid) Z → gmap (field * uuid) Z) (w : world) : world :=
  World (db w) (f (pending w)) (details w) (list_version w) (levels w) (certified w) (columns w) (last_corrected w)
    (repeated_total w) (clock w).
Definition set_details (f : gmap uuid ItemData → gmap uuid ItemData) (w : world) : world :=
  World (db w) (pending w) (f (details w)) (list_version w) (levels w) (certified w) (columns w) (last_corrected w)
    (repeated_total w) (clock w).
Definition bump_list_version (w : world) : world :=
  World (db w) (pending w) (details w) (list_version w + 1) (levels w) (certified w) (columns w) (last_corrected w)
    (repeated_total w) (clock w).
Definition set_corrected (c : gset uuid) (n : nat) (w : world) : world :=
  World (db w) (pending w) (details w) (list_version w) (levels w) (certified w) (columns w) c (repeated_total w + n) (clock w).

Definition with_counts (c : counts) (x : ContentItem) : ContentItem :=
  MkItem (data x) (view_count x) (forward_count x) c (counts_reconciled_at x) (deleted_at x).
Definition with_mark (t : Z) (x : ContentItem) : ContentItem :=
  MkItem (data x) (view_count x) (forward_count x) (counted x) (Some t) (deleted_at x).
Definition with_deleted (t : Z) (x : ContentItem) : ContentItem :=
  MkItem (data x) (view_count x) (forward_count x) (counted x) (counts_reconciled_at x) (Some t).
Definition with_data (i : ItemData) (x : ContentItem) : ContentItem :=
  MkItem i (view_count x) (forward_count x) (counted x) (counts_reconciled_at x) (deleted_at x).
Definition with_views (v f : Z) (x : ContentItem) : ContentItem :=
  MkItem (data x) v f (counted x) (counts_reconciled_at x) (deleted_at x).
Definition with_comment_likes (n : Z) (c : ContentComment) : ContentComment :=
  MkComment (cm_content_id c) (cm_user_id c) (cm_content c) (floor_number c) (cm_parent_id c) n (cm_deleted_at c).
Definition with_comment_deleted (t : Z) (c : ContentComment) : ContentComment :=
  MkComment (cm_content_id c) (cm_user_id c) (cm_content c) (floor_number c) (cm_parent_id c) (cm_like_count c) (Some t).

(** [get_session]: what is in Redis or in the process is not rolled back. *)
Definition transaction {A} (commits : bool) (m : M A) : M A := λ w,
  match m w with
  | (Ok a, w') => if commits then (Ok a, w') else (Raise RuntimeError, set_db (λ _, db w) w')
  | (Raise e, w') => (Raise e, set_db (λ _, db w) w')
  end.

Definition item_ref (i : uuid) : string := "item:" +:+ uuid_str i.
Definition comment_ref (c : uuid) : string := "comment:" +:+ uuid_str c.

Section content.
Context (cfg : settings).

(** ** Counters in Redis ([core/counters.py]) *)
(** [INCRBY]; 2^63 reactions to one item are out of reach. *)
Definition bump_counter (F : faults) (f : field) (i : uuid) (delta : Z) : M bool :=
  w ← get_state;
  let n := (default 0 (pending w !! (f, i)) + delta)%Z in
  if f_incr F then mret false
  else modify (set_pending <[(f, i) := n]>) ≫= λ _, mret true.

Definition pending_delta (F : faults) (f : field) (i : uuid) (w : world) : Z :=
  if f_get F then 0%Z else default 0%Z (pending w !! (f, i)).

(** [SCAN] and [GETDEL], in the order of the server. *)
Definition drain_counters (F : faults) : M (list ((field * uuid) * Z)) :=
  w ← get_state;
  let taken := match f_drain F with None => map_to_list (pending w) | Some n => take n (map_to_list (pending w)) end in
  modify (set_pending (λ m, foldr (λ kv m, delete kv.1 m) m taken)) ≫= λ _,
  mret (filter (λ kv, kv.2 ≠ 0%Z) taken).

(** ** Counters in the database ([content/counters.py]) *)
(** [UPDATE content_items SET f = greatest(f + delta, 0) ... RETURNING f] *)
Definition write_through_bump (i : uuid) (f : field) (delta : Z) : M Z :=
  w ← get_state;
  x ← get_or_raise (items (db w) !! i) CONTENT_NOT_FOUND;
  let n := (get_count f (counted x) + delta)%Z in
  raise_when (negb (int32 n)) DataError ≫= λ _,
  modify (set_items (alter (λ x, with_counts (set_count f (Z.max n 0) (counted x)) x) i)) ≫= λ _,
  mret (Z.max n 0).

Definition bump_content_counter (F : faults) (i : uuid) (f : field) (delta : Z) : M Z :=
  if counters_write_through cfg then write_through_bump i f delta else
  w ← get_state;
  x ← get_or_raise (items (db w) !! i) CONTENT_NOT_FOUND;
  ok ← bump_counter F f i delta;
  if (ok : bool) then w ← get_state; mret (get_count f (counted x) + pending_delta F f i w)%Z
  else write_through_bump i f delta.

Definition read_count (F : faults) (i : uuid) (f : field) : M Z :=
  w ← get_state;
  x ← get_or_raise (items (db w) !! i) CONTENT_NOT_FOUND;
  if counters_write_through cfg then mret (get_count f (counted x))
  else mret (get_count f (counted x) + pending_delta F f i w)%Z.

Definition flush_one (e : (field * uuid) * Z) : M () :=
  let '((f, i), delta) := e in
  w ← get_state;
  match items (db w) !! i with
  | None => mret tt
  | Some x =>
      let n := (get_count f (counted x) + delta)%Z in
      raise_when (negb (int32 n)) DataError ≫= λ _,
      modify (set_items (alter (λ x, with_counts (set_count f (Z.max n 0) (counted x)) x) i))
  end.

Definition flush_counters (F : faults) : M () :=
  drained ← drain_counters F;
  for_each drained flush_one.

(** ** The detail rows *)
Definition size_of {A} `{Countable A} (X : gset A) : Z := Z.of_nat (size X).

Definition likes_of (i : uuid) (d : tables) : gset (uuid * uuid) := filter (λ p, p.1 = i) (likes d).
Definition favorites_of (i : uuid) (d : tables) : gset (uuid * uuid) := filter (λ p, p.1 = i) (favorites d).
Definition comments_of (i : uuid) (d : tables) : gmap uuid ContentComment :=
  filter (λ kc, cm_content_id kc.2 = i ∧ cm_deleted_at kc.2 = None) (comments d).
Definition likes_of_comment (c : uuid) (d : tables) : gset (uuid * uuid) := filter (λ p, p.1 = c) (comment_likes d).

(** What the counters are to be. *)
Definition real_counts (d : tables) (i : uuid) : counts :=
  Counts (size_of (likes_of i d)) (Z.of_nat (size (comments_of i d))) (size_of (favorites_of i d)).

(** ** Reconciliation *)
Definition reconcile_comment_likes (item_ids : list uuid) : M () :=
  w ← get_state;
  modify (set_comments (map_imap (λ k c,
    Some (if decide (cm_content_id c ∈ item_ids) then with_comment_likes (size_of (likes_of_comment k (db w))) c else c)))).

Definition _has_pending_delta (F : faults) (i : uuid) (w : world) : bool :=
  existsb (λ f, bool_decide (pending_delta F f i w ≠ 0%Z)) COUNTER_FIELDS.

Definition lower_id (a b : uuid * ContentItem) : Prop := (uuid_int a.1 ≤ uuid_int b.1)%N.

#[local] Instance lower_id_dec : RelDecision lower_id.
Proof. intros a b. unfold lower_id. apply _. Defined.

(** The rows after [last_id], with what their counters are to be. *)
Definition reconcile_rows (only_unconverged : bool) (last_id : N) (d : tables) : list (uuid * ContentItem) :=
  merge_sort lower_id (filter (λ kx, (last_id < uuid_int kx.1)%N ∧ (only_unconverged = true → counts_reconciled_at kx.2 = None))
    (map_to_list (items d))).

Record progress := Progress { scanned : nat; corrected : gset uuid; converged : gset uuid }.

Definition reconcile_row (F : faults) (d0 : tables) (p : progress) (row : uuid * ContentItem) (w : world) : progress * world :=
  let real := real_counts d0 row.1 in
  if decide (real = counted row.2) then (Progress (scanned p) (corrected p) ({[row.1]} ∪ converged p), w)
  else if _has_pending_delta F row.1 w then (p, w)
  else (Progress (scanned p) ({[row.1]} ∪ corrected p) (converged p),
        set_items (alter (λ x, with_mark (clock w) (with_counts real x)) row.1) w).

Fixpoint reconcile_window (F : faults) (d0 : tables) (rows : list (uuid * ContentItem)) (p : progress) (w : world)
    : progress * world :=
  match rows with
  | [] => (p, w)
  | row :: rows => let '(p, w) := reconcile_row F d0 p row w in reconcile_window F d0 rows p w
  end.

(** One window after another; each reads the rows and their details at once. *)
Fixpoint reconcile_loop (fuel : nat) (F : faults) (batch_size : nat) (only_unconverged : bool) (last_id : N) (p : progress)
    : M progress :=
  match fuel with
  | O => mret p
  | S fuel =>
      w ← get_state;
      let d0 := db w in
      let rows := take batch_size (reconcile_rows only_unconverged last_id d0) in
      match last rows with
      | None => mret p
      | Some final =>
          reconcile_comment_likes (fst <$> rows) ≫= λ _,
          w ← get_state;
          let '(p, w) := reconcile_window F d0 rows p w in
          modify (λ _, w) ≫= λ _,
          reconcile_loop fuel F batch_size only_unconverged (uuid_int final.1)
            (Progress (scanned p + length rows) (corrected p) (converged p))
      end
  end.

Definition _record_oscillation (corrected : gset uuid) : M () :=
  modify (λ w, set_corrected corrected (size (corrected ∩ last_corrected w)) w).

(** Returns what was scanned and what was corrected. *)
Definition reconcile_counts (F : faults) (batch_size : nat) (only_unconverged : bool) : M (nat * nat) :=
  w ← get_state;
  p ← reconcile_loop (S (size (items (db w)))) F batch_size only_unconverged 0 (Progress 0 ∅ ∅);
  modify (λ w, set_items (map_imap (λ k x, Some (if decide (k ∈ converged p) then with_mark (clock w) x else x))) w) ≫= λ _,
  _record_oscillation (corrected p) ≫= λ _,
  mret (scanned p, size (corrected p)).

(** ** Items: likes *)
(** [lock_active]: the row is locked to the end of the transaction. *)
Definition lock_active (i : uuid) : M () :=
  w ← get_state;
  x ← get_or_raise (items (db w) !! i) CONTENT_NOT_FOUND;
  raise_when (bool_decide (is_Some (deleted_at x))) CONTENT_NOT_FOUND.

Definition like_item (F : faults) (i u : uuid) : M Z :=
  lock_active i ≫= λ _,
  w ← get_state;
  if decide ((i, u) ∈ likes (db w)) then read_count F i like_count else
  modify (set_likes (λ X, {[(i, u)]} ∪ X)) ≫= λ _,
  modify (send (PointsEvent u "like" (item_ref i))) ≫= λ _,
  bump_content_counter F i like_count 1.

Definition unlike_item (F : faults) (i u : uuid) : M Z :=
  lock_active i ≫= λ _,
  w ← get_state;
  if decide ((i, u) ∈ likes (db w)) then
    modify (set_likes (λ X, X ∖ {[(i, u)]})) ≫= λ _, bump_content_counter F i like_count (-1)
  else read_count F i like_count.

(** ** Comments ([app/modules/comment]) *)
(** Among the comments that are not deleted. *)
Definition _assert_comment_in_item (i c : uuid) : M ContentComment :=
  w ← get_state;
  x ← get_or_raise (comments (db w) !! c) COMMENT_NOT_FOUND;
  raise_when (bool_decide (is_Some (cm_deleted_at x) ∨ cm_content_id x ≠ i)) COMMENT_NOT_FOUND ≫= λ _,
  mret x.

(** The deleted ones included. *)
Definition max_floor_number (i : uuid) (d : tables) : Z :=
  foldr Z.max 0%Z (floor_number ∘ snd <$> filter (λ kc, cm_content_id kc.2 = i) (map_to_list (comments d))).

Definition bump_comment_count (F : faults) (i : uuid) (delta : Z) : M Z := bump_content_counter F i comment_count delta.

Definition create_comment (F : faults) (new i u : uuid) (parent : option uuid) (text : string) : M ContentComment :=
  lock_active i ≫= λ _,
  (match parent with Some p => _ ← _assert_comment_in_item i p; mret tt | None => mret tt end) ≫= λ _,
  w ← get_state;
  let next_floor := (max_floor_number i (db w) + 1)%Z in
  raise_when (negb (int32 next_floor)) DataError ≫= λ _,
  raise_when (bool_decide (is_Some (comments (db w) !! new))) IntegrityError ≫= λ _,
  let c := MkComment i u text next_floor parent 0 None in
  modify (set_comments <[new := c]>) ≫= λ _,
  _ ← bump_comment_count F i 1;
  modify (send (PointsEvent u "comment" (comment_ref new))) ≫= λ _,
  mret c.

(** [comment/counters.py] *)
Definition bump_like_count (c : uuid) (delta : Z) : M Z :=
  w ← get_state;
  x ← get_or_raise (comments (db w) !! c) COMMENT_NOT_FOUND;
  let n := (cm_like_count x + delta)%Z in
  raise_when (negb (int32 n)) DataError ≫= λ _,
  modify (set_comments (alter (λ x, with_comment_likes (Z.max n 0) x) c)) ≫= λ _,
  mret (Z.max n 0).

Definition like_comment (i c u : uuid) : M Z :=
  lock_active i ≫= λ _,
  x ← _assert_comment_in_item i c;
  w ← get_state;
  if decide ((c, u) ∈ comment_likes (db w)) then mret (cm_like_count x) else
  modify (set_comment_likes (λ X, {[(c, u)]} ∪ X)) ≫= λ _,
  modify (send (PointsEvent u "like" (comment_ref c))) ≫= λ _,
  bump_like_count c 1.

Definition unlike_comment (i c u : uuid) : M Z :=
  lock_active i ≫= λ _,
  x ← _assert_comment_in_item i c;
  w ← get_state;
  if decide ((c, u) ∈ comment_likes (db w)) then
    modify (set_comment_likes (λ X, X ∖ {[(c, u)]})) ≫= λ _, bump_like_count c (-1)
  else mret (cm_like_count x).

(** The two parts of [delete_comment]: it looks, and it writes. *)
Definition write_comment_deletion (F : faults) (i c : uuid) : M () :=
  modify (λ w, set_comments (alter (with_comment_deleted (clock w)) c) w) ≫= λ _,
  _ ← bump_comment_count F i (-1);
  mret tt.

Definition delete_comment (F : faults) (i c : uuid) : M () :=
  _ ← _assert_comment_in_item i c;
  write_comment_deletion F i c.

(** ** Favourites ([app/modules/interaction]) *)
Definition active_item (i : uuid) (w : world) : option ContentItem :=
  x ← items (db w) !! i; if decide (deleted_at x = None) then Some x else None.

Definition _bookmark_count (i : uuid) : M Z :=
  w ← get_state;
  x ← get_or_raise (active_item i w) CONTENT_NOT_FOUND;
  mret (get_count bookmark_count (counted x)).

Definition _current_bookmark_count (F : faults) (i : uuid) : M Z :=
  base ← _bookmark_count i;
  w ← get_state;
  mret (if counters_write_through cfg then Z.max 0 base else Z.max 0 (base + pending_delta F bookmark_count i w)).

(** [read_api.bump_bookmark_count]: only of an item that is not deleted. *)
Definition bump_bookmark_count (i : uuid) (delta : Z) : M Z :=
  w ← get_state;
  x ← get_or_raise (active_item i w) CONTENT_NOT_FOUND;
  write_through_bump i bookmark_count delta.

Definition _bump_bookmark (F : faults) (i : uuid) (delta : Z) : M Z :=
  if counters_write_through cfg then bump_bookmark_count i delta else
  ok ← bump_counter F bookmark_count i delta;
  if (ok : bool) then _current_bookmark_count F i else bump_bookmark_count i delta.

Definition add_favorite (F : faults) (u i : uuid) : M Z :=
  count ← _current_bookmark_count F i;
  w ← get_state;
  if decide ((i, u) ∈ favorites (db w)) then mret count else
  modify (set_favorites (λ X, {[(i, u)]} ∪ X)) ≫= λ _,
  _bump_bookmark F i 1.

Definition remove_favorite (F : faults) (u i : uuid) : M Z :=
  count ← _current_bookmark_count F i;
  w ← get_state;
  if decide ((i, u) ∈ favorites (db w)) then
    modify (set_favorites (λ X, X ∖ {[(i, u)]})) ≫= λ _, _bump_bookmark F i (-1)
  else mret count.

Definition get_content_viewer_state (u : option uuid) (i : uuid) : M (bool * bool * Z * Z) :=
  w ← get_state;
  x ← get_or_raise (active_item i w) CONTENT_NOT_FOUND;
  mret (match u with
        | None => (false, false, get_count like_count (counted x), get_count bookmark_count (counted x))
        | Some u => (bool_decide ((i, u) ∈ likes (db w)), bool_decide ((i, u) ∈ favorites (db w)),
                     get_count like_count (counted x), get_count bookmark_count (counted x))
        end).

(** ** Views and forwards, which have no detail rows *)
Definition record_view (u i : uuid) : M Z :=
  w ← get_state;
  raise_when (bool_decide (active_item i w = None)) CONTENT_NOT_FOUND ≫= λ _,
  modify (set_view_logs <[(i, u) := clock w]>) ≫= λ _,
  mret (clock w).

Definition purge_stale_view_logs (retention_days : Z) : M nat :=
  if decide (retention_days ≤ 0)%Z then mret 0 else
  w ← get_state;
  let cutoff := (clock w - retention_days * 86400 * 1000000)%Z in
  modify (set_view_logs (filter (λ kv, (cutoff ≤ kv.2)%Z))) ≫= λ _,
  mret (size (filter (λ kv, (kv.2 < cutoff)%Z) (view_logs (db w)))).

Definition bump_view_count (i : uuid) : M () :=
  w ← get_state;
  match items (db w) !! i with
  | None => mret tt
  | Some x =>
      raise_when (negb (int32 (view_count x + 1))) DataError ≫= λ _,
      modify (set_items (alter (λ x, with_views (view_count x + 1) (forward_count x) x) i))
  end.

Definition forward_item (i : uuid) : M Z :=
  w ← get_state;
  x ← get_or_raise (active_item i w) CONTENT_NOT_FOUND;
  raise_when (negb (int32 (forward_count x + 1))) DataError ≫= λ _,
  modify (set_items (alter (λ x, with_views (view_count x) (forward_count x + 1) x) i)) ≫= λ _,
  mret (forward_count x + 1)%Z.

(** ** Writing items *)
Definition enqueue_content_event (i : uuid) (x : ItemData) (a : option action) : M () :=
  if negb (content_events_enabled cfg) then mret tt else
  match a with
  | Some a => modify (send (ContentEvent i a))
  | None => if decide (status x = PUBLISHED) then modify (send (ContentEvent i published)) else mret tt
  end.

Definition has_slug (s : string) (x : ContentItem) : bool := bool_decide (slug (data x) = Some s).

(** The deleted ones included. *)
Definition slug_taken (s : string) (d : tables) : bool := existsb (λ kx, has_slug s kx.2) (map_to_list (items d)).

Definition clear_item_detail_cache (F : faults) (i : uuid) : M () :=
  if f_cache F then mret tt else modify (set_details (delete i)).

Definition bump_collection_version (F : faults) : M () :=
  if f_cache F then mret tt else modify bump_list_version.

(** The insertion: primary key and unique slug. *)
Definition insert_item (new : uuid) (x : ItemData) : M () :=
  w ← get_state;
  raise_when (bool_decide (is_Some (items (db w) !! new))
              || match slug x with Some s => slug_taken s (db w) | None => false end) IntegrityError ≫= λ _,
  modify (set_items <[new := MkItem x 0 0 (Counts 0 0 0) None None]>).

Definition on_forum {A} : Boards.M A → M A := zoom (λ w, Boards.World (forum (db w)) (clock w)) set_forum.

Definition today_start (now : Z) : Z := (now - now mod (86400 * 1000000))%Z.

Definition count_daily_discussions (u b : uuid) (since : Z) (d : tables) : Z :=
  Z.of_nat (size (filter (λ kx, author_id (data kx.2) = Some u ∧ board_id (data kx.2) = b
    ∧ content_type (data kx.2) = DISCUSSION ∧ (since ≤ created_at (data kx.2))%Z ∧ deleted_at kx.2 = None) (items d))).

Definition check_post_allowed (b u : uuid) : M () :=
  board ← on_forum (get_board_ex b);
  w ← get_state;
  raise_when (bool_decide (b_status board ≠ "active"%string)) BOARD_INACTIVE ≫= λ _,
  raise_when (negb (is_public board) && negb (bool_decide (levels w !! u ∈ [Some "normal"; Some "admin"]%string)))
    BOARD_NOT_PUBLIC ≫= λ _,
  raise_when (is_banned b u (Boards.World (forum (db w)) (clock w))) BOARD_BANNED ≫= λ _,
  raise_when (require_certified board && negb (bool_decide (u ∈ certified w))) CERTIFICATION_REQUIRED ≫= λ _,
  raise_when (bool_decide (0 < daily_post_limit board)%Z
              && bool_decide (daily_post_limit board ≤ count_daily_discussions u b (today_start (clock w)) (db w))%Z)
    DAILY_POST_LIMIT_REACHED.

(** [ContentItemCreate]; the status is one of three by its schema. *)
Record ContentItemCreate := MkContentCreate {
  i_content_type : string;
  i_board_id : uuid;
  i_title : string;
  i_content : string;
  i_summary : option string;
  i_cover : option string;
  i_slug : option string;
  i_column_id : option uuid;
  i_qa_question_id : option uuid;
  i_status : ContentStatus;
  i_is_pinned : bool;
  i_is_featured : bool
}.

Definition parse_type (s : string) : option ContentType :=
  dict_get s [("discussion", DISCUSSION); ("article", ARTICLE); ("column_post", COLUMN_POST); ("blog_post", BLOG_POST);
              ("qa", QA)]%string.

Definition create_item (F : faults) (new author : uuid) (info : ContentItemCreate) : M ItemData :=
  t ← get_or_raise (parse_type (i_content_type info)) UNSUPPORTED_TYPE;
  (if decide (t ∈ [DISCUSSION; COLUMN_POST; BLOG_POST; QA]) then check_post_allowed (i_board_id info) author else mret tt) ≫= λ _,
  _ ← on_forum (get_board_ex (i_board_id info));
  w ← get_state;
  raise_when (bool_decide (t = COLUMN_POST)
              && match i_column_id info with Some c => negb (bool_decide (c ∈ columns w)) | None => true end)
    COLUMN_NOT_FOUND ≫= λ _,
  raise_when (bool_decide (t = ARTICLE) && match i_slug info with Some s => slug_taken s (db w) | None => false end)
    SLUG_TAKEN ≫= λ _,
  let x := MkData t (i_board_id info) (Some author)
             (if decide (t = COLUMN_POST) then i_column_id info else None)
             (if decide (t = QA) then i_qa_question_id info else None)
             (if decide (t = ARTICLE) then i_slug info else None)
             (i_title info) (i_content info) (i_summary info) (i_cover info)
             (if decide (t = DISCUSSION) then PUBLISHED else i_status info)
             (i_is_pinned info) (i_is_featured info) (clock w) None in
  insert_item new x ≫= λ _,
  enqueue_content_event new x None ≫= λ _,
  modify (send (PointsEvent author "post" (item_ref new))) ≫= λ _,
  bump_collection_version F ≫= λ _,
  mret x.

Definition delete_item (F : faults) (i : uuid) : M (option uuid) :=
  w ← get_state;
  x ← get_or_raise (active_item i w) CONTENT_NOT_FOUND;
  modify (set_items (alter (with_deleted (clock w)) i)) ≫= λ _,
  clear_item_detail_cache F i ≫= λ _,
  enqueue_content_event i (data x) (Some deleted) ≫= λ _,
  modify (set_feed (λ t, (remove_source_item i t).1)) ≫= λ _,
  bump_collection_version F ≫= λ _,
  mret (author_id (data x)).

(** [write_api.publish_qa_item]; the board has a Chinese title and description. *)
Definition _ensure_qa_board (new : uuid) : Boards.M uuid :=
  w ← get_state;
  match Boards.get_by_slug "qa" (Boards.db w) with
  | Some b => mret b
  | None => insert_board new (MkBoard "qa" "Questions" "" None None "active" false 0 true 1) ≫= λ _, mret new
  end.

Definition publish_qa_item (F : faults) (new new_board author question : uuid) (what text : string) : M () :=
  b ← on_forum (_ensure_qa_board new_board);
  w ← get_state;
  let x := MkData QA b (Some author) None (Some question) None what text None None PUBLISHED false false (clock w) None in
  insert_item new x ≫= λ _,
  enqueue_content_event new x None ≫= λ _,
  bump_collection_version F.

Definition item_by_slug (s : string) (w : world) : option (uuid * ContentItem) :=
  List.find (λ kx, has_slug s kx.2 && bool_decide (deleted_at kx.2 = None)) (map_to_list (items (db w))).

(** The same slug: the item is rewritten. *)
Definition republished (b : uuid) (what text : string) (sum cov : option string) (now : Z) (x : ItemData) : ItemData :=
  MkData BLOG_POST b (author_id x) (column_id x) (qa_question_id x) (slug x) what text
    (match sum with Some EmptyString | None => summary x | s => s end)
    (match cov with Some EmptyString | None => cover x | c => c end)
    PUBLISHED (is_pinned x) (is_featured x) (created_at x) (Some (default now (published_at x))).

Definition publish_blog_item (F : faults) (new owner board : uuid) (s : option string) (what text : string)
    (sum cov : option string) : M uuid :=
  w ← get_state;
  let s := match s with Some EmptyString => None | s => s end in
  match (s ≫= λ s, item_by_slug s w) with
  | Some (i, x) =>
      let x' := republished board what text sum cov (clock w) (data x) in
      modify (set_items (alter (with_data x') i)) ≫= λ _,
      clear_item_detail_cache F i ≫= λ _,
      enqueue_content_event i x' None ≫= λ _,
      mret i
  | None =>
      let x := MkData BLOG_POST board (Some owner) None None s what text sum cov PUBLISHED false false (clock w) (Some (clock w)) in
      insert_item new x ≫= λ _,
      enqueue_content_event new x None ≫= λ _,
      modify (send (PointsEvent owner "post" (item_ref new))) ≫= λ _,
      bump_collection_version F ≫= λ _,
      mret new
  end.

(** ** Reading an item *)
(** A snapshot without counters is cached; the counters are read. *)
Definition get_item (F : faults) (i : uuid) (bump_view : bool) : M (ItemData * (Z * Z * counts)) :=
  (if bump_view then bump_view_count i else mret tt) ≫= λ _,
  w ← get_state;
  payload ← match (if f_cache F then None else details w !! i) with
            | Some x => mret x
            | None =>
                x ← get_or_raise (active_item i w) CONTENT_NOT_FOUND;
                (if f_cache F then mret tt else modify (set_details <[i := data x]>)) ≫= λ _,
                mret (data x)
            end;
  w ← get_state;
  x ← get_or_raise (active_item i w) CONTENT_NOT_FOUND;
  mret (payload, (view_count x, forward_count x, counted x)).

Definition get_item_by_slug (F : faults) (s : string) : M (ItemData * (Z * Z * counts)) :=
  w ← get_state;
  kx ← get_or_raise (item_by_slug s w) CONTENT_NOT_FOUND;
  get_item F kx.1 false.

(** ** Lists *)
Definition is_published (b : option uuid) (t : option ContentType) (u : option uuid) (x : ContentItem) : bool :=
  bool_decide (deleted_at x = None) && bool_decide (status (data x) = PUBLISHED)
  && match b with Some b => bool_decide (board_id (data x) = b) | None => true end
  && match t with Some t => bool_decide (content_type (data x) = t) | None => true end
  && match u with Some u => bool_decide (author_id (data x) = Some u) | None => true end.

(** Pinned first, then the newest. *)
Definition listed_before (a b : uuid * ContentItem) : Prop :=
  (is_pinned (data b.2) = true → is_pinned (data a.2) = true)
  ∧ (is_pinned (data a.2) = is_pinned (data b.2) → uuid_int b.1 ≤ uuid_int a.1)%N.

#[local] Instance listed_before_dec : RelDecision listed_before.
Proof. intros a b. unfold listed_before. apply _. Defined.

Definition list_published (b : option uuid) (t : option ContentType) (u : option uuid) (offset limit : nat) (d : tables)
    : list (uuid * ContentItem) :=
  take limit (drop offset (merge_sort listed_before (filter (λ kx, is_published b t u kx.2 = true) (map_to_list (items d))))).

Definition count_published (b : option uuid) (t : option ContentType) (u : option uuid) (d : tables) : nat :=
  size (filter (λ kx, is_published b t u kx.2 = true) (items d)).

(** By floor. *)
Definition by_floor (a b : uuid * ContentComment) : Prop := (floor_number a.2 ≤ floor_number b.2)%Z.

#[local] Instance by_floor_dec : RelDecision by_floor.
Proof. intros a b. unfold by_floor. apply _. Defined.

Definition list_comments (i : uuid) (page limit : nat) : M (list (uuid * ContentComment) * nat) :=
  w ← get_state;
  raise_when (bool_decide (active_item i w = None)) CONTENT_NOT_FOUND ≫= λ _,
  let all := map_to_list (comments_of i (db w)) in
  mret (take limit (drop ((page - 1) * limit) (merge_sort by_floor all)), length all).
End content.

(** ** Counting detail rows *)
Definition one (f : field) (i : uuid) (k : Z) : field → uuid → Z := λ f' i', if decide (f' = f ∧ i' = i) then k else 0%Z.

Lemma one_eq f i k : one f i k f i = k.
Proof. unfold one. by rewrite decide_True by done. Qed.

Lemma one_ne f i k f' i' : ¬ (f' = f ∧ i' = i) → one f i k f' i' = 0%Z.
Proof. intros H. unfold one. by rewrite decide_False by done. Qed.

Lemma size_filter_insert (X : gset (uuid * uuid)) i u j :
  (i, u) ∉ X →
  size_of (filter (λ p, p.1 = j) ({[(i, u)]} ∪ X)) = (size_of (filter (λ p, p.1 = j) X) + if decide (j = i) then 1 else 0)%Z.
Proof.
  intros Hn. unfold size_of. rewrite (filter_union_L (C:=gset (uuid * uuid))) by apply _. destruct (decide (j = i)) as [->|Hj].
  - rewrite (filter_singleton_L (C:=gset (uuid * uuid))) by apply _. case_decide as Hc; [|by destruct Hc]. rewrite size_union, size_singleton by set_solver. lia.
  - rewrite (filter_singleton_L (C:=gset (uuid * uuid))) by apply _. case_decide as Hc; [cbn in Hc; congruence|]. rewrite union_empty_l_L. lia.
Qed.

Lemma size_filter_delete (X : gset (uuid * uuid)) i u j :
  (i, u) ∈ X →
  size_of (filter (λ p, p.1 = j) (X ∖ {[(i, u)]})) = (size_of (filter (λ p, p.1 = j) X) - if decide (j = i) then 1 else 0)%Z.
Proof.
  intros Hi. pose proof (size_filter_insert (X ∖ {[(i, u)]}) i u j ltac:(set_solver)) as H.
  replace ({[(i, u)]} ∪ X ∖ {[(i, u)]}) with X in H; [lia|].
  apply set_eq. intros p. destruct (decide (p = (i, u))); set_solver.
Qed.

(** What [alter] does to the number of rows with a property. *)
Lemma size_filter_map_insert {A} (P : A → Prop) `{!∀ x, Decision (P x)} (m : gmap uuid A) k x :
  Z.of_nat (size (filter (λ kx, P kx.2) (<[k := x]> m)))
  = (Z.of_nat (size (filter (λ kx, P kx.2) m)) + (if decide (P x) then 1 else 0)
     - match m !! k with Some y => if decide (P y) then 1 else 0 | None => 0 end)%Z.
Proof.
  assert (Hnew : ∀ (m : gmap uuid A) x, m !! k = None →
    Z.of_nat (size (filter (λ kx, P kx.2) (<[k := x]> m)))
    = (Z.of_nat (size (filter (λ kx, P kx.2) m)) + (if decide (P x) then 1 else 0))%Z).
  { clear. intros m x Hk. destruct (decide (P x)) as [Hx|Hx].
    - rewrite map_filter_insert_True by done. rewrite map_size_insert_None; [lia|].
      apply map_lookup_filter_None. by left.
    - rewrite map_filter_insert_not'; [lia|done|]. intros y. by rewrite Hk. }
  destruct (m !! k) as [y|] eqn:Hk; [|rewrite Hnew by done; lia].
  rewrite <- (insert_delete_id m k y Hk) at 2. rewrite <- insert_delete_eq.
  rewrite !Hnew by apply lookup_delete_eq. lia.
Qed.

(** The counters of [d'] are those of [d] but for [e]. *)
Definition real_changes (d d' : tables) (e : field → uuid → Z) : Prop :=
  ∀ f j, get_count f (real_counts d' j) = (get_count f (real_counts d j) + e f j)%Z.

Ltac real_cases :=
  let f := fresh "f" in let j := fresh "j" in
  intros f j; destruct f; cbn -[size_of]; unfold likes_of, favorites_of, comments_of.

Lemma real_same d d' : likes d' = likes d → comments d' = comments d → favorites d' = favorites d → real_changes d d' (λ _ _, 0%Z).
Proof. intros E1 E2 E3. real_cases; rewrite ?E1, ?E2, ?E3; lia. Qed.

Lemma real_like d d' i u : (i, u) ∉ likes d →
  likes d' = {[(i, u)]} ∪ likes d → comments d' = comments d → favorites d' = favorites d →
  real_changes d d' (one like_count i 1).
Proof.
  intros Hn E1 E2 E3. real_cases; rewrite ?E1, ?E2, ?E3, ?size_filter_insert by done; unfold one;
    repeat case_decide; naive_solver lia.
Qed.

Lemma real_unlike d d' i u : (i, u) ∈ likes d →
  likes d' = likes d ∖ {[(i, u)]} → comments d' = comments d → favorites d' = favorites d →
  real_changes d d' (one like_count i (-1)).
Proof.
  intros Hn E1 E2 E3. real_cases; rewrite ?E1, ?E2, ?E3, ?size_filter_delete by done; unfold one;
    repeat case_decide; naive_solver lia.
Qed.

Lemma real_favorite d d' i u : (i, u) ∉ favorites d →
  favorites d' = {[(i, u)]} ∪ favorites d → comments d' = comments d → likes d' = likes d →
  real_changes d d' (one bookmark_count i 1).
Proof.
  intros Hn E1 E2 E3. real_cases; rewrite ?E1, ?E2, ?E3, ?size_filter_insert by done; unfold one;
    repeat case_decide; naive_solver lia.
Qed.

Lemma real_unfavorite d d' i u : (i, u) ∈ favorites d →
  favorites d' = favorites d ∖ {[(i, u)]} → comments d' = comments d → likes d' = likes d →
  real_changes d d' (one bookmark_count i (-1)).
Proof.
  intros Hn E1 E2 E3. real_cases; rewrite ?E1, ?E2, ?E3, ?size_filter_delete by done; unfold one;
    repeat case_decide; naive_solver lia.
Qed.

Lemma real_comments d d' k c (e : Z) :
  comments d' = <[k := c]> (comments d) → likes d' = likes d → favorites d' = favorites d →
  e = ((if decide (cm_deleted_at c = None) then 1 else 0)
       - match comments d !! k with Some y => if decide (cm_deleted_at y = None) then 1 else 0 | None => 0 end)%Z →
  (∀ y, comments d !! k = Some y → cm_content_id y = cm_content_id c) →
  real_changes d d' (one comment_count (cm_content_id c) e).
Proof.
  intros E1 E2 E3 He Hsame. real_cases; rewrite ?E1, ?E2, ?E3; [unfold one; case_decide; naive_solver lia| |unfold one; case_decide; naive_solver lia].
  etrans; [exact (size_filter_map_insert (λ c, cm_content_id c = j ∧ cm_deleted_at c = None) (comments d) k c)|].
  destruct (decide (j = cm_content_id c)) as [->|Hj].
  - rewrite one_eq, He. destruct (comments d !! k) as [y|] eqn:Hk.
    + rewrite <- (Hsame y eq_refl). repeat case_decide; naive_solver lia.
    + repeat case_decide; naive_solver lia.
  - rewrite one_ne by naive_solver. destruct (comments d !! k) as [y|] eqn:Hk.
    + pose proof (Hsame y eq_refl). repeat case_decide; naive_solver lia.
    + repeat case_decide; naive_solver lia.
Qed.

(** ** Counters that agree with their rows *)
Definition pend (p : gmap (field * uuid) Z) (f : field) (i : uuid) : Z := default 0%Z (p !! (f, i)).

(** All comments of an item, the deleted ones included. *)
Definition all_comments (i : uuid) (d : tables) : gmap uuid ContentComment :=
  filter (λ kc, cm_content_id kc.2 = i) (comments d).

(** What the detail rows refer to, and the floors of the comments of an item:
    they are numbered from one without gaps. *)
Record rows_ok (d : tables) : Prop := {
  likes_known i u : (i, u) ∈ likes d → is_Some (items d !! i);
  favorites_known i u : (i, u) ∈ favorites d → is_Some (items d !! i);
  comments_known c x : comments d !! c = Some x → is_Some (items d !! cm_content_id x);
  comment_likes_known c u : (c, u) ∈ comment_likes d → is_Some (comments d !! c);
  comment_counts c x : comments d !! c = Some x → cm_like_count x = size_of (likes_of_comment c d);
  parents c x p : comments d !! c = Some x → cm_parent_id x = Some p →
    ∃ y, comments d !! p = Some y ∧ cm_content_id y = cm_content_id x ∧ (floor_number y < floor_number x)%Z;
  floors_range c x : comments d !! c = Some x →
    (1 ≤ floor_number x ≤ Z.of_nat (size (all_comments (cm_content_id x) d)))%Z;
  floors_distinct c1 c2 x1 x2 : comments d !! c1 = Some x1 → comments d !! c2 = Some x2 →
    cm_content_id x1 = cm_content_id x2 → floor_number x1 = floor_number x2 → c1 = c2
}.

Section sound.
Context (cfg : settings).

(** The counter, what Redis holds back, and [e] make up the number of rows. *)
Record sound_but (e : field → uuid → Z) (d : tables) (p : gmap (field * uuid) Z) : Prop := {
  balance i x f : items d !! i = Some x →
    (get_count f (counted x) + pend p f i + e f i = get_count f (real_counts d i))%Z;
  in_range i x f : items d !! i = Some x → (0 ≤ get_count f (counted x) < 2 ^ 31)%Z;
  flat : counters_write_through cfg = true → p = ∅;
  held f i : pend p f i ≠ 0%Z → is_Some (items d !! i);
  rows_sound : rows_ok d
}.

Definition sound : tables → gmap (field * uuid) Z → Prop := sound_but (λ _ _, 0%Z).

Lemma sound_ext e e' d p : (∀ f i, e f i = e' f i) → sound_but e d p → sound_but e' d p.
Proof. intros He [B R F K W]. split; [|done..]. intros i x f Hx. rewrite <- He. by apply B. Qed.

Lemma rows_ok_items d d' :
  likes d' = likes d → favorites d' = favorites d → comments d' = comments d → comment_likes d' = comment_likes d →
  (∀ i, is_Some (items d !! i) → is_Some (items d' !! i)) → rows_ok d → rows_ok d'.
Proof.
  intros E1 E2 E3 E4 Hi [K1 K2 K3 K4 K5 K6 K7 K8].
  split; unfold likes_of_comment, all_comments; rewrite ?E1, ?E2, ?E3, ?E4; eauto.
Qed.

(** The detail rows have changed by [e], the items not. *)
Lemma sound_rows e d d' p :
  sound d p → real_changes d d' e → items d' = items d → rows_ok d' → sound_but e d' p.
Proof.
  intros [B R F K W] Hr Hi W'. split; try done; rewrite Hi; [|done..]. intros i x f Hx. rewrite Hr, <- (B i x f Hx). lia.
Qed.

Lemma get_set_count f n c f' : get_count f' (set_count f n c) = if decide (f' = f) then n else get_count f' c.
Proof. destruct f, f'; done. Qed.

Lemma reals_same d d' : likes d' = likes d → comments d' = comments d → favorites d' = favorites d →
  ∀ i, real_counts d' i = real_counts d i.
Proof. intros E1 E2 E3 i. unfold real_counts, likes_of, comments_of, favorites_of. by rewrite E1, E2, E3. Qed.

(** One counter is set to what is due. *)
Lemma sound_set e d d' p p' i f x n k :
  sound_but e d p → items d !! i = Some x →
  items d' = <[i := with_counts (set_count f n (counted x)) x]> (items d) →
  likes d' = likes d → comments d' = comments d → favorites d' = favorites d → comment_likes d' = comment_likes d →
  (∀ f' i', pend p' f' i' = pend p f' i') → (counters_write_through cfg = true → p' = ∅) →
  n = (get_count f (counted x) + k)%Z → (0 ≤ n < 2 ^ 31)%Z →
  sound_but (λ f' i', e f' i' - one f i k f' i')%Z d' p'.
Proof.
  intros [B R F K W] Hx Hi E1 E2 E3 E4 Hp Hf -> Hn.
  assert (Hdom : ∀ j, is_Some (items d !! j) → is_Some (items d' !! j)).
  { intros j Hj. rewrite Hi. destruct (decide (j = i)) as [->|?]; [rewrite lookup_insert_eq; by eexists|by rewrite lookup_insert_ne]. }
  split; [| |done| |].
  - intros j y f' Hy. rewrite Hp, (reals_same d d') by done. rewrite Hi in Hy. destruct (decide (j = i)) as [->|Hj].
    + rewrite lookup_insert_eq in Hy. injection Hy as <-. cbn. rewrite get_set_count. rewrite <- (B i x f' Hx). case_decide as Hff.
      * subst f'. rewrite one_eq. lia.
      * rewrite one_ne by naive_solver. lia.
    + rewrite lookup_insert_ne in Hy by done. rewrite one_ne by naive_solver. rewrite <- (B j y f' Hy). lia.
  - intros j y f' Hy. rewrite Hi in Hy. apply lookup_insert_Some in Hy as [[<- <-]|[? Hy]]; [|by apply (R j)].
    cbn. rewrite get_set_count. case_decide; [done|by apply (R i)].
  - intros f' j Hj. rewrite Hp in Hj. by apply Hdom, (K f').
  - by apply (rows_ok_items d).
Qed.

Abbreviation calm w := (λ _ w', counters_write_through cfg = true → pending w' = pending w).

Lemma write_through_wp e i f delta w :
  sound_but e (db w) (pending w) →
  (∀ x, items (db w) !! i = Some x → 0 ≤ get_count f (counted x) + delta)%Z →
  wp (write_through_bump i f delta)
    (λ n w', sound_but (λ f' i', e f' i' - one f i delta f' i')%Z (db w') (pending w') ∧ pending w' = pending w
             ∧ ∃ x, items (db w') !! i = Some x ∧ n = get_count f (counted x))
    (calm w) w.
Proof.
  intros S Hpos. unfold write_through_bump. apply wp_bind, wp_get_state, wp_bind, wp_get_or_raise; [done|intros x Hx].
  cbv zeta. apply wp_bind, wp_raise_when; [done|intros Hr%negb_false_iff]. apply int32_spec in Hr.
  apply wp_bind, wp_modify, wp_ret. specialize (Hpos x Hx). rewrite Z.max_l by done. split; [|split; [done|]].
  - eapply (sound_set e (db w)); [exact S|exact Hx| |done..|intros Hw; by apply S|done|lia].
    cbn. rewrite (alter_as_insert _ _ _ x Hx). by rewrite ?Z.max_l by done.
  - cbn. rewrite (alter_as_insert _ _ _ x Hx). eexists. rewrite lookup_insert_eq. split; [done|]. cbn.
    rewrite get_set_count, decide_True by done. lia.
Qed.

(** A request that Redis answers. *)
Definition answered (F : faults) : Prop := f_incr F = false ∧ f_get F = false.

Lemma pend_insert p f i n f' i' : pend (<[(f, i) := n]> p) f' i' = if decide (f' = f ∧ i' = i) then n else pend p f' i'.
Proof.
  unfold pend. case_decide as Hd.
  - destruct Hd as [-> ->]. by rewrite lookup_insert_eq.
  - rewrite lookup_insert_ne by naive_solver. done.
Qed.

Lemma held_back f i delta d p :
  counters_write_through cfg = false → is_Some (items d !! i) →
  sound_but (one f i delta) d p → sound d (<[(f, i) := (pend p f i + delta)%Z]> p).
Proof.
  intros Hwt Hi [B R F K W]. split; [|exact R|by rewrite Hwt| |exact W].
  - intros j y f' Hy. rewrite pend_insert. specialize (B j y f' Hy). unfold one in B. case_decide as Hd; [|lia].
    destruct Hd as [-> ->]. lia.
  - intros f' j. rewrite pend_insert. case_decide as Hd; [by destruct Hd as [-> ->]|apply K].
Qed.

Lemma bump_content_counter_wp F i f delta w :
  counters_write_through cfg = true ∨ answered F → delta = 1%Z ∨ delta = (-1)%Z →
  (0 ≤ get_count f (real_counts (db w) i))%Z →
  sound_but (one f i delta) (db w) (pending w) →
  wp (bump_content_counter cfg F i f delta)
    (λ n w', sound (db w') (pending w') ∧ n = get_count f (real_counts (db w') i))
    (calm w) w.
Proof.
  intros Hrel Hdelta Hreal S. pose proof S as [B R Fl K W].
  assert (Hpost : ∀ n w', sound_but (λ f' i', one f i delta f' i' - one f i delta f' i')%Z (db w') (pending w') ∧ pending w' = pending w
                    ∧ (∃ x, items (db w') !! i = Some x ∧ n = get_count f (counted x)) →
                  (pend (pending w) f i = 0)%Z → sound (db w') (pending w') ∧ n = get_count f (real_counts (db w') i)).
  { intros n w' (S' & Hp & x & Hx & ->) Hz. assert (S0 : sound (db w') (pending w')).
    { eapply sound_ext; [|exact S']. intros; cbn; lia. }
    split; [done|]. rewrite <- (balance _ _ _ S0 i x f Hx), Hp. lia. }
  unfold bump_content_counter. destruct (counters_write_through cfg) eqn:Hwt.
  - specialize (Fl eq_refl). eapply wp_mono; [apply (write_through_wp _ _ _ _ _ S)| |].
    + intros x Hx. specialize (B i x f Hx). rewrite one_eq, Fl in B. unfold pend in B. rewrite lookup_empty in B. cbn in B. lia.
    + intros n w' H'. apply Hpost; [exact H'|]. by rewrite Fl.
    + intros e w' H' _. by apply H'.
  - destruct Hrel as [|[Hi Hg]]; [done|]. apply wp_bind, wp_get_state, wp_bind, wp_get_or_raise; [done|intros x Hx].
    apply wp_bind. unfold bump_counter. apply wp_bind, wp_get_state. cbv zeta. rewrite Hi.
    apply wp_bind, wp_modify, wp_ret, wp_bind, wp_get_state, wp_ret.
    assert (S0 : sound (db w) (<[(f, i) := (pend (pending w) f i + delta)%Z]> (pending w))) by (by apply held_back; [|eexists|]).
    split; [exact S0|]. etrans; [|exact (balance _ _ _ S0 i x f Hx)]. unfold pending_delta, pend. rewrite Hg. cbn. lia.
Qed.
End sound.

(** ** Changes of the detail rows *)
Lemma size_likes_of_comment_insert d d' c u k :
  (c, u) ∉ comment_likes d → comment_likes d' = {[(c, u)]} ∪ comment_likes d →
  size_of (likes_of_comment k d') = (size_of (likes_of_comment k d) + if decide (k = c) then 1 else 0)%Z.
Proof. intros Hn He. unfold likes_of_comment. rewrite He. by apply size_filter_insert. Qed.

Lemma size_likes_of_comment_delete d d' c u k :
  (c, u) ∈ comment_likes d → comment_likes d' = comment_likes d ∖ {[(c, u)]} →
  size_of (likes_of_comment k d') = (size_of (likes_of_comment k d) - if decide (k = c) then 1 else 0)%Z.
Proof. intros Hn He. unfold likes_of_comment. rewrite He. by apply size_filter_delete. Qed.

(** Likes and favourites of an item that exists. *)
Lemma rows_ok_reactions d d' :
  items d' = items d → comments d' = comments d → comment_likes d' = comment_likes d →
  (∀ i u, (i, u) ∈ likes d' → (i, u) ∈ likes d ∨ is_Some (items d !! i)) →
  (∀ i u, (i, u) ∈ favorites d' → (i, u) ∈ favorites d ∨ is_Some (items d !! i)) →
  rows_ok d → rows_ok d'.
Proof.
  intros E1 E2 E3 Hl Hf [K1 K2 K3 K4 K5 K6 K7 K8].
  split; unfold likes_of_comment, all_comments; rewrite ?E1, ?E2, ?E3; try done.
  - intros i u H. destruct (Hl i u H); eauto.
  - intros i u H. destruct (Hf i u H); eauto.
Qed.

(** The floors of an item. *)
Lemma elem_of_floors i d n :
  n ∈ floor_number ∘ snd <$> filter (λ kc, cm_content_id kc.2 = i) (map_to_list (comments d)) ↔
  ∃ c x, comments d !! c = Some x ∧ cm_content_id x = i ∧ floor_number x = n.
Proof.
  rewrite list_elem_of_fmap. split.
  - intros ([c x] & -> & [Hi Hin]%list_elem_of_filter). apply elem_of_map_to_list in Hin. by exists c, x.
  - intros (c & x & Hc & Hi & <-). exists (c, x). split; [done|]. apply list_elem_of_filter. split; [done|].
    by apply elem_of_map_to_list.
Qed.

Lemma NoDup_floors i d : rows_ok d →
  NoDup (floor_number ∘ snd <$> filter (λ kc, cm_content_id kc.2 = i) (map_to_list (comments d))).
Proof.
  intros W. apply NoDup_fmap_2_strong.
  - intros [c1 x1] [c2 x2] [Hi1 H1]%list_elem_of_filter [Hi2 H2]%list_elem_of_filter Hf.
    apply elem_of_map_to_list in H1, H2. cbn in *. assert (c1 = c2) as ->; [|by f_equal; congruence].
    eapply (floors_distinct d W); [exact H1|exact H2|congruence|exact Hf].
  - apply NoDup_filter, NoDup_map_to_list.
Qed.

Lemma length_floors i d :
  length (floor_number ∘ snd <$> filter (λ kc, cm_content_id kc.2 = i) (map_to_list (comments d))) = size (all_comments i d).
Proof.
  rewrite length_fmap, <- length_map_to_list. apply Permutation_length, NoDup_Permutation.
  - apply NoDup_filter, NoDup_map_to_list.
  - apply NoDup_map_to_list.
  - intros [c x]. unfold all_comments. rewrite list_elem_of_filter, !elem_of_map_to_list, map_lookup_filter_Some. tauto.
Qed.

(** The largest floor is the number of comments. *)
Lemma max_floor i d : rows_ok d → max_floor_number i d = Z.of_nat (size (all_comments i d)).
Proof.
  intros W. unfold max_floor_number. pose proof (length_floors i d) as Hlen. set (l := floor_number ∘ snd <$> _) in *.
  assert (Hge : ∀ n, n ∈ l → (1 ≤ n ≤ Z.of_nat (size (all_comments i d)))%Z).
  { intros n (c & x & Hc & <- & <-)%elem_of_floors. by apply (floors_range d W c x). }
  pose proof (NoDup_range_length l (foldr Z.max 0%Z l) (NoDup_floors i d W)) as Hp. rewrite Hlen in Hp.
  assert (0 ≤ foldr Z.max 0 l)%Z by (clear; induction l; cbn; lia).
  assert (Z.of_nat (size (all_comments i d)) ≤ foldr Z.max 0 l)%Z.
  { rewrite Z.max_r in Hp by done. apply Hp. intros n Hn. split; [by apply Hge|by apply max_ge]. }
  destruct (decide (0 < foldr Z.max 0 l)%Z) as [Hpos|]; [|lia].
  pose proof (Hge _ (max_elem l Hpos)). lia.
Qed.

Lemma size_all_comments_insert d d' k c i :
  comments d' = <[k := c]> (comments d) → comments d !! k = None →
  Z.of_nat (size (all_comments i d')) = (Z.of_nat (size (all_comments i d)) + if decide (cm_content_id c = i) then 1 else 0)%Z.
Proof.
  intros E Hk. unfold all_comments. rewrite E.
  etrans; [exact (size_filter_map_insert (λ c, cm_content_id c = i) (comments d) k c)|]. rewrite Hk. lia.
Qed.

(** A new comment, on the next floor. *)
Lemma rows_ok_comment d d' k c :
  items d' = items d → likes d' = likes d → favorites d' = favorites d → comment_likes d' = comment_likes d →
  comments d' = <[k := c]> (comments d) → comments d !! k = None →
  is_Some (items d !! cm_content_id c) → cm_like_count c = 0%Z →
  (∀ p, cm_parent_id c = Some p → ∃ y, comments d !! p = Some y ∧ cm_content_id y = cm_content_id c) →
  floor_number c = (max_floor_number (cm_content_id c) d + 1)%Z →
  rows_ok d → rows_ok d'.
Proof.
  intros E1 E2 E3 E4 E5 Hk Hi Hl Hp Hf W. rewrite (max_floor _ _ W) in Hf. pose proof W as [K1 K2 K3 K4 K5 K6 K7 K8].
  pose proof (λ i, size_all_comments_insert d d' k c i E5 Hk) as Hsz.
  assert (Hno : ∀ j y, comments d !! j = Some y → cm_content_id y = cm_content_id c → floor_number y ≠ floor_number c).
  { intros j y Hy Hs. pose proof (K7 j y Hy) as Hr. rewrite Hs in Hr. lia. }
  split; unfold likes_of_comment; rewrite ?E1, ?E2, ?E3, ?E4, ?E5; try done.
  - intros j y. rewrite lookup_insert_Some. intros [[<- <-]|[? Hy]]; [done|by apply (K3 j)].
  - intros j u Hj. destruct (decide (j = k)) as [->|]; [rewrite lookup_insert_eq; by eexists|]. rewrite lookup_insert_ne by done. by apply (K4 j u).
  - intros j y. rewrite lookup_insert_Some. intros [[<- <-]|[? Hy]]; [|by apply K5]. rewrite Hl.
    assert (filter (λ p : uuid * uuid, p.1 = k) (comment_likes d) = ∅) as ->; [|done].
    apply elem_of_equiv_empty_L. intros [j u] [Hj Hin]%elem_of_filter. cbn in Hj. subst j.
    destruct (K4 k u Hin) as [y Hy]. congruence.
  - intros j y p. rewrite lookup_insert_Some. intros [[<- <-]|[Hj Hy]] Hpar.
    + destruct (Hp p Hpar) as (z & Hz & Hs). exists z. rewrite lookup_insert_ne by congruence. split; [done|]. split; [done|].
      pose proof (K7 p z Hz) as Hr. rewrite Hs in Hr. lia.
    + destruct (K6 j y p Hy Hpar) as (z & Hz & ?). exists z. by rewrite lookup_insert_ne by congruence.
  - intros j y. rewrite lookup_insert_Some. rewrite Hsz. intros [[<- <-]|[Hj Hy]].
    + rewrite decide_True by done. lia.
    + pose proof (K7 j y Hy). case_decide; lia.
  - intros j1 j2 y1 y2. rewrite !lookup_insert_Some. intros [[<- <-]|[? H1]] [[<- <-]|[? H2]] Hs Hfl; [done|..|by eapply K8].
    + by destruct (Hno j2 y2 H2).
    + by destruct (Hno j1 y1 H1).
Qed.

(** A comment changes its counter, or is marked as deleted. *)
Lemma rows_ok_alter d d' k c c' :
  items d' = items d → likes d' = likes d → favorites d' = favorites d →
  comments d !! k = Some c → comments d' = <[k := c']> (comments d) →
  cm_content_id c' = cm_content_id c → cm_parent_id c' = cm_parent_id c → floor_number c' = floor_number c →
  (∀ j u, (j, u) ∈ comment_likes d' → (j, u) ∈ comment_likes d ∨ j = k) →
  (∀ j, j ≠ k → size_of (likes_of_comment j d') = size_of (likes_of_comment j d)) →
  cm_like_count c' = size_of (likes_of_comment k d') →
  rows_ok d → rows_ok d'.
Proof.
  intros E1 E2 E3 Hk E5 Hs1 Hs2 Hs3 Hcl Hsz Hn W. pose proof W as [K1 K2 K3 K4 K5 K6 K7 K8].
  assert (Hall : ∀ i, Z.of_nat (size (all_comments i d')) = Z.of_nat (size (all_comments i d))).
  { intros i. unfold all_comments. rewrite E5.
    etrans; [exact (size_filter_map_insert (λ c, cm_content_id c = i) (comments d) k c')|]. rewrite Hk, Hs1. lia. }
  split; rewrite ?E1, ?E2, ?E3, ?E5; try done.
  - intros j y. rewrite lookup_insert_Some. intros [[<- <-]|[? Hy]]; [rewrite Hs1; by apply (K3 k)|by apply (K3 j)].
  - intros j u Hj. destruct (decide (j = k)) as [->|?]; [rewrite lookup_insert_eq; by eexists|]. rewrite lookup_insert_ne by done.
    destruct (Hcl j u Hj); [by apply (K4 j u)|done].
  - intros j y. rewrite lookup_insert_Some. intros [[<- <-]|[? Hy]]; [done|]. rewrite Hsz by done. by apply K5.
  - intros j y p. rewrite lookup_insert_Some.
    assert (Hfind : ∀ z, comments d !! p = Some z → ∃ z', <[k:=c']> (comments d) !! p = Some z' ∧ cm_content_id z' = cm_content_id z ∧ floor_number z' = floor_number z).
    { intros z Hz. destruct (decide (p = k)) as [->|?]; [exists c'; rewrite lookup_insert_eq; split_and!; congruence|exists z; by rewrite lookup_insert_ne]. }
    intros [[<- <-]|[? Hy]] Hpar.
    + rewrite Hs2 in Hpar. destruct (K6 k c p Hk Hpar) as (z & Hz & ? & ?). destruct (Hfind z Hz) as (z' & ? & ? & ?). exists z'. split_and!; [done|congruence|lia].
    + destruct (K6 j y p Hy Hpar) as (z & Hz & ? & ?). destruct (Hfind z Hz) as (z' & ? & ? & ?). exists z'. split_and!; [done|congruence|lia].
  - intros j y. rewrite lookup_insert_Some. rewrite Hall. intros [[<- <-]|[? Hy]]; [rewrite Hs1, Hs3; by apply (K7 k)|by apply (K7 j)].
  - intros j1 j2 y1 y2. rewrite !lookup_insert_Some. intros [[<- <-]|[? H1]] [[<- <-]|[? H2]] Hs Hfl; [done|..|by eapply K8].
    + eapply (K8 k j2 c y2); congruence.
    + eapply (K8 j1 k y1 c); congruence.
Qed.

(** ** What the requests keep *)
Section requests.
Context (cfg : settings).

Abbreviation Sound w := (sound cfg (db w) (pending w)).
Abbreviation calm w := (λ _ w', counters_write_through cfg = true → pending w' = pending w).
Abbreviation keeps m w := (wp m (λ _ w', Sound w') (calm w) w).

Definition redis_ok (F : faults) : Prop := counters_write_through cfg = true ∨ answered F.

(** A counter is reported as it is. *)
Definition reports (f : field) (i : uuid) (n : Z) (w : world) : Prop := Sound w ∧ n = get_count f (real_counts (db w) i).

Lemma sound_items d d' p :
  likes d' = likes d → favorites d' = favorites d → comments d' = comments d → comment_likes d' = comment_likes d →
  (∀ i x', items d' !! i = Some x' → ∃ x, items d !! i = Some x ∧ counted x' = counted x) →
  (∀ i, is_Some (items d !! i) → is_Some (items d' !! i)) →
  sound cfg d p → sound cfg d' p.
Proof.
  intros E1 E2 E3 E4 Hb Hd [B R F K W]. split; [| |done| |by apply (rows_ok_items d)].
  - intros i x f Hx. rewrite (reals_same d d') by done. destruct (Hb i x Hx) as (y & Hy & ->). by apply B.
  - intros i x f Hx. destruct (Hb i x Hx) as (y & Hy & ->). by apply (R i).
  - intros f i Hp. by apply Hd, (K f).
Qed.

Lemma sound_alter g i d d' p :
  (∀ x, counted (g x) = counted x) → items d' = alter g i (items d) →
  likes d' = likes d → favorites d' = favorites d → comments d' = comments d → comment_likes d' = comment_likes d →
  sound cfg d p → sound cfg d' p.
Proof.
  intros Hg Hi E1 E2 E3 E4. apply sound_items; try done.
  - intros j x'. rewrite Hi. intros Hx. apply lookup_alter_Some in Hx as [(-> & x & Hx & ->)|[? Hx]]; eauto.
  - intros j Hj. rewrite Hi. by apply lookup_alter_is_Some.
Qed.

Lemma no_rows_of d i : rows_ok d → items d !! i = None → real_counts d i = Counts 0 0 0.
Proof.
  intros W Hi. unfold real_counts, likes_of, favorites_of, comments_of.
  assert (filter (λ p : uuid * uuid, p.1 = i) (likes d) = ∅) as ->.
  { apply elem_of_equiv_empty_L. intros [j u] [Hj Hin]%elem_of_filter. cbn in Hj. subst. destruct (likes_known d W i u Hin). congruence. }
  assert (filter (λ p : uuid * uuid, p.1 = i) (favorites d) = ∅) as ->.
  { apply elem_of_equiv_empty_L. intros [j u] [Hj Hin]%elem_of_filter. cbn in Hj. subst. destruct (favorites_known d W i u Hin). congruence. }
  assert (filter (λ kc : uuid * ContentComment, cm_content_id kc.2 = i ∧ cm_deleted_at kc.2 = None) (comments d) = ∅) as ->; [|done].
  apply map_empty. intros c. apply map_lookup_filter_None. right. intros x Hx [Hc _]. cbn in Hc. subst.
  destruct (comments_known d W c x Hx). congruence.
Qed.

Lemma sound_new d d' p new x :
  items d !! new = None → items d' = <[new := x]> (items d) → counted x = Counts 0 0 0 →
  likes d' = likes d → favorites d' = favorites d → comments d' = comments d → comment_likes d' = comment_likes d →
  sound cfg d p → sound cfg d' p.
Proof.
  intros Hn Hi Hc E1 E2 E3 E4 [B R F K W].
  assert (Hdom : ∀ j, is_Some (items d !! j) → is_Some (items d' !! j)).
  { intros j Hj. rewrite Hi. destruct (decide (j = new)) as [->|?]; [rewrite lookup_insert_eq; by eexists|by rewrite lookup_insert_ne]. }
  split; [| |done| |by apply (rows_ok_items d)].
  - intros i y f. rewrite Hi, lookup_insert_Some, (reals_same d d') by done. intros [[<- <-]|[? Hy]]; [|by apply B].
    rewrite Hc, (no_rows_of d new W Hn). assert (pend p f new = 0)%Z as ->; [|destruct f; done].
    destruct (decide (pend p f new = 0)%Z) as [|Hp]; [done|]. destruct (K f new Hp). congruence.
  - intros i y f. rewrite Hi, lookup_insert_Some. intros [[<- <-]|[? Hy]]; [rewrite Hc; destruct f; done|by apply (R i)].
  - intros f i Hp. by apply Hdom, (K f).
Qed.

(** What only touches other tables. *)
Lemma sound_elsewhere d d' p :
  items d' = items d → likes d' = likes d → favorites d' = favorites d → comments d' = comments d →
  comment_likes d' = comment_likes d → sound cfg d p → sound cfg d' p.
Proof. intros E E1 E2 E3 E4. apply sound_items; rewrite ?E; eauto. Qed.

Lemma real_nonneg d i f : (0 ≤ get_count f (real_counts d i))%Z.
Proof. destruct f; cbn; unfold size_of; lia. Qed.

Lemma lock_active_wp i w Q (R : err → world → Prop) :
  (∀ e, R e w) → (∀ x, items (db w) !! i = Some x → deleted_at x = None → Q tt w) → wp (lock_active i) Q R w.
Proof.
  intros HR HQ. unfold lock_active. apply wp_bind, wp_get_state, wp_bind, wp_get_or_raise; [done|intros x Hx].
  apply wp_raise_when; [done|]. intros Hd%bool_decide_eq_false. apply (HQ x); [done|]. by apply eq_None_not_Some.
Qed.

Lemma read_count_wp F i f w :
  redis_ok F → Sound w → wp (read_count cfg F i f) (λ n w', reports f i n w' ∧ w' = w) (calm w) w.
Proof.
  intros Hok S. unfold read_count. apply wp_bind, wp_get_state, wp_bind, wp_get_or_raise; [done|intros x Hx].
  pose proof (balance _ _ _ _ S i x f Hx) as Hb. pose proof (flat _ _ _ _ S) as Hf. unfold redis_ok in Hok.
  destruct (counters_write_through cfg); apply wp_ret; (split; [|done]); (split; [exact S|]); rewrite <- Hb.
  - rewrite Hf by done. unfold pend. rewrite lookup_empty. cbn. lia.
  - destruct Hok as [|[_ Hg]]; [done|]. unfold pending_delta, pend. rewrite Hg. lia.
Qed.

Lemma bump_wp F i f delta w w1 :
  redis_ok F → delta = 1%Z ∨ delta = (-1)%Z → sound_but cfg (one f i delta) (db w1) (pending w1) → pending w1 = pending w →
  wp (bump_content_counter cfg F i f delta) (reports f i) (calm w) w1.
Proof.
  intros Hok Hd S Hp. eapply wp_mono; [apply (bump_content_counter_wp cfg F i f delta w1 Hok Hd (real_nonneg _ _ _) S)|done|].
  intros e w' H Hwt. cbn in H. rewrite <- Hp. by apply H.
Qed.

Lemma like_item_wp F i u w : redis_ok F → Sound w →
  wp (like_item cfg F i u) (λ n w', reports like_count i n w' ∧ (i, u) ∈ likes (db w')) (calm w) w.
Proof.
  intros Hok S. unfold like_item. apply wp_bind, lock_active_wp; [done|intros x Hx _]. apply wp_bind, wp_get_state.
  case_decide as Hin; [eapply wp_mono; [by apply read_count_wp| |done]; by intros n w' [? ->]|].
  apply wp_bind, wp_modify, wp_bind, wp_modify.
  assert (Hl : ∀ w', wp (bump_content_counter cfg F i like_count 1) (λ _ w'', likes (db w'') = likes (db w')) (λ _ _, True) w').
  { intros w'. unfold bump_content_counter, write_through_bump, bump_counter. wp_steps; done. }
  eapply wp_mono; [apply wp_and; [|apply Hl]| |].
  - apply (bump_wp F i like_count 1 w); [done|by left| |done].
    eapply (sound_rows cfg _ (db w)); [exact S|by apply (real_like (db w) _ i u)|done|].
    eapply (rows_ok_reactions (db w)); try done; [|intros j v; by left|apply S].
    intros j v. cbn. intros [[= -> ->]%elem_of_singleton|?]%elem_of_union; [right; by eexists|by left].
  - cbn. intros n w' [H ->]. split; [done|]. cbn. set_solver.
  - by intros e w' [H _].
Qed.

Lemma unlike_item_wp F i u w : redis_ok F → Sound w → wp (unlike_item cfg F i u) (λ n w', reports like_count i n w') (calm w) w.
Proof.
  intros Hok S. unfold unlike_item. apply wp_bind, lock_active_wp; [done|intros x Hx _]. apply wp_bind, wp_get_state.
  case_decide as Hin; [|eapply wp_mono; [by apply read_count_wp| |done]; by intros n w' [? ->]].
  apply wp_bind, wp_modify. apply (bump_wp F i like_count (-1) w); [done|by right| |done].
  eapply (sound_rows cfg _ (db w)); [exact S|by apply (real_unlike (db w) _ i u)|done|].
  eapply (rows_ok_reactions (db w)); try done; [|intros j v; by left|apply S]. intros j v. cbn. set_solver.
Qed.

(** *** Comments *)
Lemma assert_comment_wp i c w Q (R : err → world → Prop) :
  (∀ e, R e w) →
  (∀ x, comments (db w) !! c = Some x → cm_deleted_at x = None → cm_content_id x = i → Q x w) →
  wp (_assert_comment_in_item i c) Q R w.
Proof.
  intros HR HQ. unfold _assert_comment_in_item. apply wp_bind, wp_get_state, wp_bind, wp_get_or_raise; [done|intros x Hx].
  apply wp_bind, wp_raise_when; [done|]. intros Hd%bool_decide_eq_false. apply wp_ret, HQ; [done| |].
  - apply eq_None_not_Some. tauto.
  - destruct (decide (cm_content_id x = i)); [done|tauto].
Qed.

Lemma create_comment_keeps F new i u parent text w : redis_ok F → Sound w → keeps (create_comment cfg F new i u parent text) w.
Proof.
  intros Hok S. unfold create_comment. apply wp_bind, lock_active_wp; [done|intros x Hx _]. apply wp_bind.
  eapply (wp_mono _ (λ _ w', w' = w ∧ ∀ p, parent = Some p → ∃ y, comments (db w) !! p = Some y ∧ cm_content_id y = i) _ (calm w)); [| |done].
  { destruct parent as [p|]; [|by apply wp_ret]. apply wp_bind, assert_comment_wp; [done|]. intros y Hy _ Hi. apply wp_ret.
    split; [done|]. intros q [= <-]. eauto. }
  intros [] w0 [-> Hp]. apply wp_bind, wp_get_state. cbv zeta. apply wp_bind, wp_raise_when; [done|intros _].
  apply wp_bind, wp_raise_when; [done|]. intros Hn%bool_decide_eq_false. apply eq_None_not_Some in Hn.
  apply wp_bind, wp_modify, wp_bind. eapply wp_mono; [apply (bump_wp F i comment_count 1 w); [done|by left| |done]| |done].
  - set (c := MkComment _ _ _ _ _ _ _). eapply (sound_rows cfg _ (db w)); [exact S| |done|].
    + change i with (cm_content_id c). eapply (real_comments (db w) _ new c); try done; by rewrite Hn.
    + eapply (rows_ok_comment (db w) _ new c); try done; try (by eexists); apply S.
  - intros n w' [S' _]. apply wp_bind, wp_modify, wp_ret. by apply (sound_elsewhere (db w')).
Qed.

Lemma bump_like_count_wp c delta w Q (R : err → world → Prop) :
  (∀ e, R e w) →
  (∀ x, comments (db w) !! c = Some x →
     Q (Z.max (cm_like_count x + delta) 0)
       (set_comments <[c := with_comment_likes (Z.max (cm_like_count x + delta) 0) x]> w)) →
  wp (bump_like_count c delta) Q R w.
Proof.
  intros HR HQ. unfold bump_like_count. apply wp_bind, wp_get_state, wp_bind, wp_get_or_raise; [done|intros x Hx]. cbv zeta.
  apply wp_bind, wp_raise_when; [done|intros _]. apply wp_bind, wp_modify, wp_ret.
  specialize (HQ x Hx). unfold set_comments, set_db in *. by rewrite (alter_as_insert _ _ _ x Hx).
Qed.

(** A like of a comment comes or goes, and its counter with it. *)
Lemma sound_comment_likes d d' p c x delta :
  sound cfg d p → comments d !! c = Some x →
  items d' = items d → likes d' = likes d → favorites d' = favorites d →
  (∀ j u, (j, u) ∈ comment_likes d' → (j, u) ∈ comment_likes d ∨ j = c) →
  (∀ k, size_of (likes_of_comment k d') = (size_of (likes_of_comment k d) + if decide (k = c) then delta else 0)%Z) →
  comments d' = <[c := with_comment_likes (Z.max (cm_like_count x + delta) 0) x]> (comments d) →
  sound cfg d' p ∧ Z.max (cm_like_count x + delta) 0 = size_of (likes_of_comment c d').
Proof.
  intros S Hx E1 E2 E3 Hcl Hsz E4.
  assert (Hn : Z.max (cm_like_count x + delta) 0 = size_of (likes_of_comment c d')).
  { rewrite (comment_counts d (rows_sound _ _ _ _ S) c x Hx). specialize (Hsz c). rewrite decide_True in Hsz by done.
    rewrite <- Hsz. unfold size_of. lia. }
  split; [|done]. eapply (sound_ext cfg (one comment_count (cm_content_id x) 0)); [intros f j; unfold one; by case_decide|].
  eapply (sound_rows cfg _ d); [exact S| |done|].
  - eapply (real_comments d d' c (with_comment_likes _ x)); [exact E4|done|done| |].
    + rewrite Hx. cbn. case_decide; lia.
    + intros y Hy. cbn. congruence.
  - eapply (rows_ok_alter d d' c x); [done|done|done|exact Hx|exact E4|done|done|done|exact Hcl| |cbn; exact Hn|apply S].
    intros j Hj. rewrite Hsz, decide_False by done. lia.
Qed.

Lemma like_comment_wp i c u w : Sound w →
  wp (like_comment i c u) (λ n w', Sound w' ∧ n = size_of (likes_of_comment c (db w'))) (calm w) w.
Proof.
  intros S. unfold like_comment. apply wp_bind, lock_active_wp; [done|intros y Hy _]. apply wp_bind, assert_comment_wp; [done|].
  intros x Hx _ _. apply wp_bind, wp_get_state. case_decide as Hin.
  - apply wp_ret. split; [done|]. by apply (comment_counts _ (rows_sound _ _ _ _ S)).
  - apply wp_bind, wp_modify, wp_bind, wp_modify, bump_like_count_wp; [done|]. cbn. intros x' Hx'. assert (x' = x) as -> by congruence.
    eapply (sound_comment_likes (db w)); try done; cbn.
    + intros j v. intros [[= -> ->]%elem_of_singleton|?]%elem_of_union; [by right|by left].
    + intros k. by apply (size_likes_of_comment_insert (db w) _ c u).
Qed.

Lemma unlike_comment_wp i c u w : Sound w →
  wp (unlike_comment i c u) (λ n w', Sound w' ∧ n = size_of (likes_of_comment c (db w'))) (calm w) w.
Proof.
  intros S. unfold unlike_comment. apply wp_bind, lock_active_wp; [done|intros y Hy _]. apply wp_bind, assert_comment_wp; [done|].
  intros x Hx _ _. apply wp_bind, wp_get_state. case_decide as Hin.
  - apply wp_bind, wp_modify, bump_like_count_wp; [done|]. cbn. intros x' Hx'. assert (x' = x) as -> by congruence.
    eapply (sound_comment_likes (db w)); try done; cbn.
    + intros j v. set_solver.
    + intros k. etrans; [by apply (size_likes_of_comment_delete (db w) _ c u)|]. case_decide; lia.
  - apply wp_ret. split; [done|]. by apply (comment_counts _ (rows_sound _ _ _ _ S)).
Qed.

Lemma delete_comment_keeps F i c w : redis_ok F → Sound w → keeps (delete_comment cfg F i c) w.
Proof.
  intros Hok S. unfold delete_comment, write_comment_deletion. apply wp_bind, assert_comment_wp; [done|]. intros x Hx Hd Hi.
  apply wp_bind, wp_modify, wp_bind. eapply wp_mono; [apply (bump_wp F i comment_count (-1) w); [done|by right| |done]| |done].
  - set (x' := with_comment_deleted (clock w) x). eapply (sound_rows cfg _ (db w)); [exact S| |done|].
    + rewrite <- Hi. change (cm_content_id x) with (cm_content_id x').
      eapply (real_comments (db w) _ c x'); cbn; try done; [exact (alter_as_insert (with_comment_deleted (clock w)) _ c x Hx)|by rewrite Hx, Hd|intros y; congruence].
    + eapply (rows_ok_alter (db w) _ c x x'); cbn; try done; [exact (alter_as_insert (with_comment_deleted (clock w)) _ c x Hx)|intros j v; by left| |apply S].
      by apply (comment_counts _ (rows_sound _ _ _ _ S)).
  - intros n w' [S' _]. by apply wp_ret.
Qed.

(** *** What leaves the counters alone *)
Definition quiet (w w' : world) : Prop := pending w' = pending w ∧ (Sound w → Sound w').

#[local] Instance quiet_preorder : PreOrder quiet.
Proof. split; [by intros w|]. intros w1 w2 w3 [E1 S1] [E2 S2]. split; [congruence|auto]. Qed.

Lemma quiet_items f w : (∀ x, counted (f x) = counted x) → ∀ i, quiet w (set_items (alter f i) w).
Proof. intros Hf i. split; [done|]. intros S. by apply (sound_alter f i (db w)). Qed.

Lemma quiet_elsewhere w w' :
  pending w' = pending w → items (db w') = items (db w) → likes (db w') = likes (db w) →
  favorites (db w') = favorites (db w) → comments (db w') = comments (db w) → comment_likes (db w') = comment_likes (db w) →
  quiet w w'.
Proof. intros Hp E E1 E2 E3 E4. split; [done|]. intros S. rewrite Hp. by apply (sound_elsewhere (db w)). Qed.

Hint Resolve quiet_items : respects.
Hint Extern 1 (quiet _ _) => (by apply quiet_elsewhere) : respects.
Hint Extern 2 (respects quiet (modify _)) => apply respects_modify; intros ? : respects.
Hint Extern 3 (quiet _ (set_items (alter _ _) _)) => apply quiet_items; intros ?; done : respects.

Lemma quiet_forum {A} (m : Boards.M A) : respects quiet (on_forum m).
Proof. intros w. unfold on_forum, zoom. destruct (m _) as [o v]. by apply quiet_elsewhere. Qed.

Lemma quiet_insert new x : respects quiet (insert_item new x).
Proof.
  apply respects_state. intros w. unfold raise_when. destruct (_ || _) eqn:Hc; [by split|].
  apply orb_false_iff in Hc as [Hn%bool_decide_eq_false _]. cbn. split; [done|]. intros S.
  eapply (sound_new (db w)); [by apply eq_None_not_Some|done..].
Qed.

Lemma quiet_event i x a : respects quiet (enqueue_content_event cfg i x a).
Proof. unfold enqueue_content_event. respects. Qed.

Lemma quiet_clear F i : respects quiet (clear_item_detail_cache F i).
Proof. unfold clear_item_detail_cache. respects. Qed.

Lemma quiet_bump_version F : respects quiet (bump_collection_version F).
Proof. unfold bump_collection_version. respects. Qed.

Hint Resolve quiet_forum quiet_insert quiet_event quiet_clear quiet_bump_version : respects.

Lemma quiet_check b u : respects quiet (check_post_allowed b u).
Proof. unfold check_post_allowed. respects. Qed.

Hint Resolve quiet_check : respects.

Lemma quiet_create_item F new u info : respects quiet (create_item cfg F new u info).
Proof. unfold create_item. respects. Qed.

Lemma quiet_delete_item F i : respects quiet (delete_item cfg F i).
Proof. unfold delete_item. respects. Qed.

Lemma quiet_publish_qa F new nb u q what text : respects quiet (publish_qa_item cfg F new nb u q what text).
Proof. unfold publish_qa_item. respects. Qed.

Lemma quiet_publish_blog F new u b s what text sum cov : respects quiet (publish_blog_item cfg F new u b s what text sum cov).
Proof. unfold publish_blog_item. respects. Qed.

Lemma quiet_bump_view i : respects quiet (bump_view_count i).
Proof. unfold bump_view_count. respects. Qed.

Hint Resolve quiet_bump_view : respects.

Lemma quiet_get_item F i v : respects quiet (get_item F i v).
Proof. unfold get_item. respects. Qed.

Lemma quiet_record_view u i : respects quiet (record_view u i).
Proof. unfold record_view. respects. Qed.

Lemma quiet_purge n : respects quiet (purge_stale_view_logs n).
Proof. unfold purge_stale_view_logs. respects. Qed.

Lemma quiet_forward i : respects quiet (forward_item i).
Proof. unfold forward_item. respects. Qed.

Lemma respects_keeps {A} (m : M A) w : respects quiet m → Sound w → keeps m w.
Proof. intros H S. specialize (H w) as [Hp HS]. unfold wp. destruct (m w) as [[a|e] w']; cbn in *; auto. Qed.

(** *** Favourites *)
Lemma active_item_Some i w x : active_item i w = Some x ↔ items (db w) !! i = Some x ∧ deleted_at x = None.
Proof.
  unfold active_item. destruct (items (db w) !! i) as [y|]; cbn; [|naive_solver]. case_decide; naive_solver.
Qed.

Lemma current_bookmark_wp F i w (R : err → world → Prop) :
  redis_ok F → Sound w → (∀ e, R e w) →
  wp (_current_bookmark_count cfg F i)
    (λ n w', (reports bookmark_count i n w' ∧ w' = w) ∧ is_Some (active_item i w)) R w.
Proof.
  intros Hok S HR. unfold _current_bookmark_count, _bookmark_count.
  apply wp_bind, wp_bind, wp_get_state, wp_bind, wp_get_or_raise; [done|intros x Ha]. rewrite Ha. apply wp_ret, wp_bind, wp_get_state, wp_ret.
  apply active_item_Some in Ha as [Hx _]. split; [|by eexists]. split; [split; [done|]|done].
  pose proof (balance _ _ _ _ S i x bookmark_count Hx) as Hb. pose proof (flat _ _ _ _ S) as Hf. unfold redis_ok in Hok.
  pose proof (real_nonneg (db w) i bookmark_count) as Hn. rewrite <- Hb. rewrite <- Hb in Hn. destruct (counters_write_through cfg).
  - rewrite Hf in * by done. unfold pend in *. rewrite lookup_empty in *. cbn -[get_count] in *. lia.
  - destruct Hok as [|[_ Hg]]; [done|]. unfold pending_delta, pend in *. rewrite Hg. lia.
Qed.

Lemma bump_bookmark_wp F i delta w w1 :
  redis_ok F → delta = 1%Z ∨ delta = (-1)%Z → is_Some (active_item i w1) →
  sound_but cfg (one bookmark_count i delta) (db w1) (pending w1) → pending w1 = pending w →
  wp (_bump_bookmark cfg F i delta) (reports bookmark_count i) (calm w) w1.
Proof.
  intros Hok Hd [x Hx] S Hp. pose proof (bump_wp F i bookmark_count delta w w1 Hok Hd S Hp) as H.
  unfold _bump_bookmark, bump_content_counter in *. unfold redis_ok in Hok. destruct (counters_write_through cfg) eqn:Hwt.
  { unfold bump_bookmark_count. apply wp_bind, wp_get_state, wp_bind. rewrite Hx. by apply wp_ret. }
  destruct Hok as [|[Hi Hg]]; [done|]. unfold wp in H. apply active_item_Some in Hx as [Hx Hdel].
  rewrite run_get_state, run_get_or_raise, Hx in H. unfold bump_counter in *. rewrite bind_assoc, run_get_state in H. cbv zeta in H.
  rewrite Hi, bind_assoc, run_modify, bind_left_id, run_get_state in H. cbn in H.
  unfold wp. rewrite bind_assoc, run_get_state. cbv zeta. rewrite Hi, bind_assoc, run_modify, bind_left_id.
  refine (wp_mono _ _ _ _ _ _ (current_bookmark_wp F i _ (λ _ _, True) _ (proj1 H) _) _ _); [by right| | |done]; [intros e; done|].
  by intros n w' [[H' ->] _].
Qed.

Lemma add_favorite_wp F i u w : redis_ok F → Sound w →
  wp (add_favorite cfg F u i) (λ n w', reports bookmark_count i n w') (calm w) w.
Proof.
  intros Hok S. unfold add_favorite. apply wp_bind. eapply wp_mono; [by apply (current_bookmark_wp F i w (calm w))| |done].
  intros n w' [[Hn ->] Ha]. apply wp_bind, wp_get_state. case_decide as Hin; [by apply wp_ret|].
  apply wp_bind, wp_modify, bump_bookmark_wp; [done|by left|done| |done]. destruct Ha as [x [Hx _]%active_item_Some].
  eapply (sound_rows cfg _ (db w)); [exact S|by apply (real_favorite (db w) _ i u)|done|].
  eapply (rows_ok_reactions (db w)); try done; [intros j v; by left| |apply S].
  intros j v. cbn. intros [[= -> ->]%elem_of_singleton|?]%elem_of_union; [right; by eexists|by left].
Qed.

Lemma remove_favorite_wp F i u w : redis_ok F → Sound w →
  wp (remove_favorite cfg F u i) (λ n w', reports bookmark_count i n w') (calm w) w.
Proof.
  intros Hok S. unfold remove_favorite. apply wp_bind. eapply wp_mono; [by apply (current_bookmark_wp F i w (calm w))| |done].
  intros n w' [[Hn ->] Ha]. apply wp_bind, wp_get_state. case_decide as Hin; [|by apply wp_ret].
  apply wp_bind, wp_modify, bump_bookmark_wp; [done|by right|done| |done].
  eapply (sound_rows cfg _ (db w)); [exact S|by apply (real_unfavorite (db w) _ i u)|done|].
  eapply (rows_ok_reactions (db w)); try done; [intros j v; by left| |apply S]. intros j v. cbn. set_solver.
Qed.

(** *** Flushing what Redis holds back *)
Abbreviation due l := (λ f i, pend (list_to_map l) f i).

Lemma flush_list_wp l w :
  NoDup l.*1 → (∀ kv, kv ∈ l → pend (pending w) kv.1.1 kv.1.2 = 0%Z) →
  sound_but cfg (due l) (db w) (pending w) →
  wp (for_each l flush_one) (λ _ w', Sound w' ∧ pending w' = pending w) (λ _ _, True) w.
Proof.
  revert w. induction l as [|[[f i] delta] l IH]; intros w Hnd Hz S; cbn [for_each].
  { apply wp_ret. split; [|done]. eapply sound_ext; [|exact S]. intros g j. unfold pend. cbn. by rewrite lookup_empty. }
  rewrite fmap_cons in Hnd. apply NoDup_cons in Hnd as [Hni Hnd]. cbn [fst] in Hni.
  assert (Hdue : ∀ g j, pend (list_to_map (((f, i), delta) :: l)) g j = (pend (list_to_map l) g j + one f i delta g j)%Z).
  { intros g j. cbn [list_to_map foldr fst snd]. rewrite pend_insert. unfold one. case_decide as Hd; [|lia]. destruct Hd as [-> ->].
    unfold pend. by rewrite not_elem_of_list_to_map_1. }
  apply wp_bind. unfold flush_one at 1. apply wp_bind, wp_get_state. destruct (items (db w) !! i) as [x|] eqn:Hx.
  - cbv zeta. apply wp_bind, wp_raise_when; [done|intros Hr%negb_false_iff]. apply int32_spec in Hr. apply wp_modify.
    assert (Hn : (0 ≤ get_count f (counted x) + delta)%Z).
    { pose proof (balance _ _ _ _ S i x f Hx) as Hb. rewrite Hdue, one_eq in Hb. specialize (Hz _ ltac:(by left)). cbn in Hz.
      pose proof (real_nonneg (db w) i f). rewrite Hz in Hb. unfold pend in Hb.
      rewrite not_elem_of_list_to_map_1 in Hb by done. cbn in Hb. lia. }
    rewrite Z.max_l by done.
    eapply wp_mono; [apply IH; [done|intros kv Hkv; apply (Hz kv); by right|]|intros [] w' H'; exact H'|done].
    eapply (sound_ext cfg (λ g j, due (((f, i), delta) :: l) g j - one f i delta g j)%Z); [intros g j; rewrite Hdue; lia|].
    eapply (sound_set cfg _ (db w)); [exact S|exact Hx| |done..|intros Hw; by apply S|done|lia].
    cbn. rewrite (alter_as_insert _ _ _ x Hx). done.
  - apply wp_ret, IH; [done|intros kv Hkv; apply (Hz kv); by right|]. destruct S as [B R Fl K W]. split; [|done..].
    intros j y g Hy. rewrite <- (B j y g Hy), Hdue, one_ne by naive_solver. lia.
Qed.

Definition without (taken : list ((field * uuid) * Z)) (p : gmap (field * uuid) Z) : gmap (field * uuid) Z :=
  foldr (λ kv m, delete kv.1 m) p taken.

Lemma lookup_without taken p k : without taken p !! k = if decide (k ∈ taken.*1) then None else p !! k.
Proof.
  induction taken as [|kv l IH]; [by rewrite decide_False by apply not_elem_of_nil|].
  change (without (kv :: l) p) with (delete kv.1 (without l p)). rewrite fmap_cons.
  destruct (decide (k = kv.1)) as [->|Hne].
  - rewrite lookup_delete_eq, decide_True; [done|by left].
  - rewrite lookup_delete_ne by congruence. rewrite IH. apply decide_ext. rewrite elem_of_cons. naive_solver.
Qed.

(** What is taken out of Redis is what is missing there. *)
Lemma drained_due p taken f i :
  NoDup taken.*1 → (∀ kv, kv ∈ taken → p !! kv.1 = Some kv.2) →
  (pend (without taken p) f i + due (filter (λ kv, kv.2 ≠ 0%Z) taken) f i = pend p f i)%Z.
Proof.
  intros Hnd Hin. unfold pend. rewrite lookup_without.
  assert (Hndf : NoDup (filter (λ kv : field * uuid * Z, kv.2 ≠ 0%Z) taken).*1).
  { eapply sublist_NoDup; [exact Hnd|]. apply fmap_sublist, sublist_filter. }
  case_decide as Hk.
  - apply list_elem_of_fmap in Hk as ([k v] & Hk & Hkv). cbn in Hk. subst k. pose proof (Hin _ Hkv) as Hp. cbn in Hp. rewrite Hp. cbn.
    destruct (decide (v = 0%Z)) as [->|Hv].
    + rewrite not_elem_of_list_to_map_1; [done|]. intros Hk. apply list_elem_of_fmap in Hk as ([k v] & Hk & Hkv').
      cbn in Hk. subst k. apply list_elem_of_filter in Hkv' as [Hv Hkv']. apply Hin in Hkv, Hkv'. cbn in *. congruence.
    + rewrite (elem_of_list_to_map_1 _ (f, i) v); [cbn; lia|done|]. by apply list_elem_of_filter.
  - rewrite (not_elem_of_list_to_map_1 _ (f, i)); [cbn; lia|]. intros H. apply Hk.
    apply list_elem_of_fmap in H as (kv & -> & [_ H]%list_elem_of_filter). by apply list_elem_of_fmap_2.
Qed.

Lemma flush_counters_keeps F w : Sound w → keeps (flush_counters F) w.
Proof.
  intros S. unfold flush_counters, drain_counters. apply wp_bind, wp_bind, wp_get_state. cbv zeta.
  set (taken := match f_drain F with None => _ | Some n => _ end). apply wp_bind, wp_modify, wp_ret.
  assert (Hsub : taken `sublist_of` map_to_list (pending w)).
  { unfold taken. destruct (f_drain F); [apply sublist_take|done]. }
  assert (Hnd : NoDup taken.*1) by (eapply sublist_NoDup; [apply (NoDup_fst_map_to_list (pending w))|by apply fmap_sublist]).
  assert (Hin : ∀ kv, kv ∈ taken → pending w !! kv.1 = Some kv.2).
  { intros [k v] Hkv. apply elem_of_map_to_list. by eapply elem_of_sublist. }
  change (foldr (λ kv m, delete kv.1 m) (pending w) taken) with (without taken (pending w)).
  set (p := without taken (pending w)) in *.
  assert (Hempty : counters_write_through cfg = true → p = pending w).
  { intros Hwt. pose proof (flat _ _ _ _ S Hwt) as He. apply map_eq. intros k. unfold p. rewrite lookup_without, He, lookup_empty. by case_decide. }
  assert (Hdue : ∀ f i, (pend p f i + due (filter (λ kv, kv.2 ≠ 0%Z) taken) f i = pend (pending w) f i)%Z).
  { intros f i. by apply drained_due. }
  pose proof S as [B R Fl K W].
  assert (H : wp (for_each (filter (λ kv, kv.2 ≠ 0%Z) taken) flush_one)
                (λ _ w', Sound w' ∧ pending w' = p) (λ _ _, True) (set_pending (λ _, p) w)).
  { apply flush_list_wp.
    - eapply sublist_NoDup; [exact Hnd|]. apply fmap_sublist, sublist_filter.
    - intros [[f i] v] [_ Hkv]%list_elem_of_filter. cbn. unfold pend, p. rewrite lookup_without, decide_True; [done|].
      by apply (list_elem_of_fmap_2 fst _ ((f, i), v)).
    - split; cbn; [| |intros Hwt; rewrite Hempty by done; by apply Fl| |done].
      + intros i x f Hx. rewrite <- (B i x f Hx), <- (Hdue f i). lia.
      + done.
      + intros f i Hp. apply (K f i). unfold pend, p in Hp. rewrite lookup_without in Hp. case_decide; done. }
  destruct (counters_write_through cfg) eqn:Hwt.
  - assert (Ht : taken = []).
    { pose proof (flat _ _ _ _ S Hwt) as He. unfold taken. rewrite He, map_to_list_empty. destruct (f_drain F); [apply take_nil|done]. }
    unfold p. rewrite Ht in *. cbn. by apply wp_ret.
  - eapply wp_mono; [exact H| |done]. by intros [] w' [? _].
Qed.
End requests.

(** ** The detail rows, whatever Redis does *)
Lemma respects_for_each {A} (R : relation world) `{!PreOrder R} (xs : list A) (b : A → M ()) :
  (∀ x, respects R (b x)) → respects R (for_each xs b).
Proof. intros Hb. induction xs as [|x xs IH]; cbn; respects. Qed.

Section detail_rows.
Context (cfg : settings).

Record same_rows (w w' : world) : Prop := {
  same_likes : likes (db w') = likes (db w);
  same_favorites : favorites (db w') = favorites (db w);
  same_comments : comments (db w') = comments (db w);
  same_comment_likes : comment_likes (db w') = comment_likes (db w);
  same_items i : is_Some (items (db w) !! i) → is_Some (items (db w') !! i)
}.

#[local] Instance same_rows_preorder : PreOrder same_rows.
Proof. split; [by intros w|]. intros w1 w2 w3 [] []. split; [congruence..|auto]. Qed.

Lemma same_rows_ok w w' : same_rows w w' → rows_ok (db w) → rows_ok (db w').
Proof. intros []. by apply rows_ok_items. Qed.

Hint Extern 2 (respects same_rows (modify _)) => apply respects_modify; intros ? : respects.
Hint Extern 1 (same_rows _ _) => (by split) : respects.
Hint Extern 3 (same_rows _ (set_items (alter _ _) _)) => (by split; try done; intros ? ?; apply lookup_alter_is_Some) : respects.

Lemma same_write_through i f delta : respects same_rows (write_through_bump i f delta).
Proof. unfold write_through_bump. respects. Qed.
Hint Resolve same_write_through : respects.

Lemma same_bump F i f delta : respects same_rows (bump_content_counter cfg F i f delta).
Proof. unfold bump_content_counter, bump_counter. respects. Qed.

Lemma same_read F i f : respects same_rows (read_count cfg F i f).
Proof. unfold read_count. respects. Qed.

Lemma same_bookmark F i delta : respects same_rows (_bump_bookmark cfg F i delta).
Proof. unfold _bump_bookmark, bump_bookmark_count, _current_bookmark_count, _bookmark_count, bump_counter. respects. Qed.

Lemma same_current F i : respects same_rows (_current_bookmark_count cfg F i).
Proof. unfold _current_bookmark_count, _bookmark_count. respects. Qed.

Lemma same_forum {A} (m : Boards.M A) : respects same_rows (on_forum m).
Proof. intros w. unfold on_forum, zoom. destruct (m _) as [o v]. by split. Qed.

Lemma same_insert new x : respects same_rows (insert_item new x).
Proof.
  unfold insert_item. respects. split; try done. intros i Hi. cbn.
  destruct (decide (i = new)) as [->|?]; [rewrite lookup_insert_eq; by eexists|by rewrite lookup_insert_ne].
Qed.

Lemma same_flush F : respects same_rows (flush_counters F).
Proof. unfold flush_counters, drain_counters. respects. apply respects_for_each; [apply _|]. intros [[f i] delta]. unfold flush_one. respects. Qed.

Hint Resolve same_bump same_read same_bookmark same_current same_forum same_insert same_flush : respects.

(** What a request that does not touch the detail rows keeps. *)
Lemma same_rows_wp {A} (m : M A) w : respects same_rows m → rows_ok (db w) → wp m (λ _ w', rows_ok (db w')) (λ _ _, True) w.
Proof. intros Hm W. specialize (Hm w). unfold wp. destruct (m w) as [[a|e] w']; [|done]. by apply (same_rows_ok w). Qed.

Abbreviation orderly m w := (wp m (λ _ w', rows_ok (db w')) (λ _ _, True) w).

Lemma orderly_like F i u w : rows_ok (db w) → orderly (like_item cfg F i u) w.
Proof.
  intros W. unfold like_item. apply wp_bind, lock_active_wp; [done|intros x Hx _]. apply wp_bind, wp_get_state.
  case_decide; [by apply same_rows_wp; [apply same_read|]|]. apply wp_bind, wp_modify, wp_bind, wp_modify, same_rows_wp; [apply same_bump|].
  eapply (rows_ok_reactions (db w)); try done; [|intros j v; by left].
  intros j v. cbn. intros [[= -> ->]%elem_of_singleton|?]%elem_of_union; [right; by eexists|by left].
Qed.

Lemma orderly_unlike F i u w : rows_ok (db w) → orderly (unlike_item cfg F i u) w.
Proof.
  intros W. unfold unlike_item. apply wp_bind, lock_active_wp; [done|intros x Hx _]. apply wp_bind, wp_get_state.
  case_decide; [|by apply same_rows_wp; [apply same_read|]]. apply wp_bind, wp_modify, same_rows_wp; [apply same_bump|].
  eapply (rows_ok_reactions (db w)); try done; [|intros j v; by left]. intros j v. cbn. set_solver.
Qed.

Lemma orderly_comment F new i u parent text w : rows_ok (db w) → orderly (create_comment cfg F new i u parent text) w.
Proof.
  intros W. unfold create_comment. apply wp_bind, lock_active_wp; [done|intros x Hx _]. apply wp_bind.
  eapply (wp_mono _ (λ _ w', w' = w ∧ ∀ p, parent = Some p → ∃ y, comments (db w) !! p = Some y ∧ cm_content_id y = i) _ (λ _ _, True)); [| |done].
  { destruct parent as [p|]; [|by apply wp_ret]. apply wp_bind, assert_comment_wp; [done|]. intros y Hy _ Hi. apply wp_ret.
    split; [done|]. intros q [= <-]. eauto. }
  intros [] w0 [-> Hp]. apply wp_bind, wp_get_state. cbv zeta. apply wp_bind, wp_raise_when; [done|intros _].
  apply wp_bind, wp_raise_when; [done|]. intros Hn%bool_decide_eq_false. apply eq_None_not_Some in Hn.
  apply wp_bind, wp_modify. apply same_rows_wp; [unfold bump_comment_count; respects|].
  set (c := MkComment _ _ _ _ _ _ _). eapply (rows_ok_comment (db w) _ new c); try done; by eexists.
Qed.

Lemma rows_ok_comment_likes d d' c x delta :
  rows_ok d → comments d !! c = Some x →
  items d' = items d → likes d' = likes d → favorites d' = favorites d →
  (∀ j u, (j, u) ∈ comment_likes d' → (j, u) ∈ comment_likes d ∨ j = c) →
  (∀ k, size_of (likes_of_comment k d') = (size_of (likes_of_comment k d) + if decide (k = c) then delta else 0)%Z) →
  comments d' = <[c := with_comment_likes (Z.max (cm_like_count x + delta) 0) x]> (comments d) →
  rows_ok d'.
Proof.
  intros W Hx E1 E2 E3 Hcl Hsz E4. eapply (rows_ok_alter d d' c x); try done.
  - intros j Hj. rewrite Hsz, decide_False by done. lia.
  - cbn. rewrite (comment_counts d W c x Hx). specialize (Hsz c). rewrite decide_True in Hsz by done. rewrite <- Hsz. unfold size_of. lia.
Qed.

Lemma orderly_like_comment i c u w : rows_ok (db w) → orderly (like_comment i c u) w.
Proof.
  intros W. unfold like_comment. apply wp_bind, lock_active_wp; [done|intros y Hy _]. apply wp_bind, assert_comment_wp; [done|].
  intros x Hx _ _. apply wp_bind, wp_get_state. case_decide as Hin; [by apply wp_ret|].
  apply wp_bind, wp_modify, wp_bind, wp_modify, bump_like_count_wp; [done|]. cbn. intros x' Hx'. assert (x' = x) as -> by congruence.
  eapply (rows_ok_comment_likes (db w)); try done; cbn.
  - intros j v. intros [[= -> ->]%elem_of_singleton|?]%elem_of_union; [by right|by left].
  - intros k. by apply (size_likes_of_comment_insert (db w) _ c u).
Qed.

Lemma orderly_unlike_comment i c u w : rows_ok (db w) → orderly (unlike_comment i c u) w.
Proof.
  intros W. unfold unlike_comment. apply wp_bind, lock_active_wp; [done|intros y Hy _]. apply wp_bind, assert_comment_wp; [done|].
  intros x Hx _ _. apply wp_bind, wp_get_state. case_decide as Hin; [|by apply wp_ret].
  apply wp_bind, wp_modify, bump_like_count_wp; [done|]. cbn. intros x' Hx'. assert (x' = x) as -> by congruence.
  eapply (rows_ok_comment_likes (db w)); try done; cbn.
  - intros j v. set_solver.
  - intros k. etrans; [by apply (size_likes_of_comment_delete (db w) _ c u)|]. case_decide; lia.
Qed.

Lemma orderly_delete_comment F i c w : rows_ok (db w) → orderly (delete_comment cfg F i c) w.
Proof.
  intros W. unfold delete_comment, write_comment_deletion. apply wp_bind, assert_comment_wp; [done|]. intros x Hx Hd Hi.
  apply wp_bind, wp_modify. apply same_rows_wp; [unfold bump_comment_count; respects|].
  eapply (rows_ok_alter (db w) _ c x (with_comment_deleted (clock w) x)); cbn; try done;
    [exact (alter_as_insert (with_comment_deleted (clock w)) _ c x Hx)|intros j v; by left|by apply (comment_counts _ W)].
Qed.

Lemma orderly_add_favorite F i u w : rows_ok (db w) → orderly (add_favorite cfg F u i) w.
Proof.
  intros W. unfold add_favorite. apply wp_bind. unfold _current_bookmark_count. apply wp_bind, wp_bind, wp_get_state, wp_bind, wp_get_or_raise; [done|].
  intros x [Hx _]%active_item_Some. apply wp_ret. unfold _bookmark_count. apply wp_bind, wp_get_state, wp_ret.
  apply wp_bind, wp_get_state. case_decide; [by apply wp_ret|]. apply wp_bind, wp_modify, same_rows_wp; [apply same_bookmark|].
  eapply (rows_ok_reactions (db w)); try done; [intros j v; by left|].
  intros j v. cbn. intros [[= -> ->]%elem_of_singleton|?]%elem_of_union; [right; by eexists|by left].
Qed.

Lemma orderly_remove_favorite F i u w : rows_ok (db w) → orderly (remove_favorite cfg F u i) w.
Proof.
  intros W. unfold remove_favorite. apply wp_bind. unfold _current_bookmark_count. apply wp_bind, wp_bind, wp_get_state, wp_bind, wp_get_or_raise; [done|].
  intros x _. apply wp_ret. unfold _bookmark_count. apply wp_bind, wp_get_state, wp_ret.
  apply wp_bind, wp_get_state. case_decide; [|by apply wp_ret]. apply wp_bind, wp_modify, same_rows_wp; [apply same_bookmark|].
  eapply (rows_ok_reactions (db w)); try done; [intros j v; by left|]. intros j v. cbn. set_solver.
Qed.

Lemma same_create_item F new u info : respects same_rows (create_item cfg F new u info).
Proof. unfold create_item, check_post_allowed, enqueue_content_event, bump_collection_version. respects. Qed.

Lemma same_delete_item F i : respects same_rows (delete_item cfg F i).
Proof. unfold delete_item, enqueue_content_event, clear_item_detail_cache, bump_collection_version. respects. Qed.

Lemma same_publish_qa F new nb u q what text : respects same_rows (publish_qa_item cfg F new nb u q what text).
Proof. unfold publish_qa_item, enqueue_content_event, clear_item_detail_cache, bump_collection_version. respects. Qed.

Lemma same_publish_blog F new u b s what text sum cov : respects same_rows (publish_blog_item cfg F new u b s what text sum cov).
Proof. unfold publish_blog_item, enqueue_content_event, clear_item_detail_cache, bump_collection_version. respects. Qed.

Lemma same_get_item F i v : respects same_rows (get_item F i v).
Proof. unfold get_item, bump_view_count. respects. Qed.

Lemma same_record_view u i : respects same_rows (record_view u i).
Proof. unfold record_view. respects. Qed.

Lemma same_purge n : respects same_rows (purge_stale_view_logs n).
Proof. unfold purge_stale_view_logs. respects. Qed.

Lemma same_forward i : respects same_rows (forward_item i).
Proof. unfold forward_item. respects. Qed.
End detail_rows.

(** ** The reconciliation in closed form *)
Section reconciliation.
Context (F : faults) (batch_size : nat) (only_unconverged : bool) (w0 : world).

Abbreviation d0 := (db w0).
Abbreviation real := (real_counts d0).

(** What becomes of a row that is visited. *)
Definition fixable (i : uuid) (x : ContentItem) : bool :=
  negb (bool_decide (real i = counted x)) && negb (_has_pending_delta F i w0).

Definition fixed (i : uuid) (x : ContentItem) : ContentItem :=
  if fixable i x then with_mark (clock w0) (with_counts (real i) x) else x.

(** The items of [V] have been visited, and the comments of the items of [U]. *)
Definition mid_items (V : gset uuid) : gmap uuid ContentItem :=
  map_imap (λ k x, Some (if decide (k ∈ V) then fixed k x else x)) (items d0).
Definition mid_comments (U : gset uuid) : gmap uuid ContentComment :=
  map_imap (λ k c, Some (if decide (cm_content_id c ∈ U) then with_comment_likes (size_of (likes_of_comment k d0)) c else c))
    (comments d0).
Definition mid (V U : gset uuid) : world :=
  set_items (λ _, mid_items V) (set_comments (λ _, mid_comments U) w0).

Definition fixes (V : gset uuid) : gset uuid :=
  dom (filter (λ kx, kx.1 ∈ V ∧ fixable kx.1 kx.2 = true) (items d0)).
Definition already (V : gset uuid) : gset uuid :=
  dom (filter (λ kx, kx.1 ∈ V ∧ real kx.1 = counted kx.2) (items d0)).

Lemma elem_of_fixes V j : j ∈ fixes V ↔ j ∈ V ∧ ∃ y, items d0 !! j = Some y ∧ fixable j y = true.
Proof.
  unfold fixes. rewrite elem_of_dom. split.
  - intros [y [Hy [? ?]]%map_lookup_filter_Some]. eauto.
  - intros (? & y & ? & ?). exists y. by apply map_lookup_filter_Some.
Qed.

Lemma elem_of_already V j : j ∈ already V ↔ j ∈ V ∧ ∃ y, items d0 !! j = Some y ∧ real j = counted y.
Proof.
  unfold already. rewrite elem_of_dom. split.
  - intros [y [Hy [? ?]]%map_lookup_filter_Some]. eauto.
  - intros (? & y & ? & ?). exists y. by apply map_lookup_filter_Some.
Qed.

(** The rows there are to visit; the first window starts after the nil id. *)
Definition due_rows : gset uuid :=
  dom (filter (λ kx, (0 < uuid_int kx.1)%N ∧ (only_unconverged = true → counts_reconciled_at kx.2 = None)) (items d0)).

Definition due_after (last_id : N) : gset uuid := filter (λ i, (last_id < uuid_int i)%N) due_rows.
Definition seen (last_id : N) : gset uuid := filter (λ i, (uuid_int i ≤ last_id)%N) due_rows.

Lemma lookup_mid_items V i : mid_items V !! i = (λ x, if decide (i ∈ V) then fixed i x else x) <$> items d0 !! i.
Proof. unfold mid_items. rewrite map_lookup_imap. by destruct (items d0 !! i). Qed.

Lemma lookup_mid_comments U k : mid_comments U !! k =
  (λ c, if decide (cm_content_id c ∈ U) then with_comment_likes (size_of (likes_of_comment k d0)) c else c) <$> comments d0 !! k.
Proof. unfold mid_comments. rewrite map_lookup_imap. by destruct (comments d0 !! k). Qed.

Lemma size_filter_same {A} (P : A → Prop) `{!∀ x, Decision (P x)} (m m' : gmap uuid A) :
  (∀ k, P <$> m' !! k = P <$> m !! k) → size (filter (λ kx, P kx.2) m') = size (filter (λ kx, P kx.2) m).
Proof.
  intros Hs. rewrite <- !size_dom. f_equal. apply set_eq. intros k. rewrite !elem_of_dom. specialize (Hs k).
  destruct (m !! k) as [x|] eqn:Hx, (m' !! k) as [y|] eqn:Hy; try discriminate; cbn in Hs.
  - injection Hs as Hs. split; intros [z [Hz Hp]%map_lookup_filter_Some]; cbn in Hp; simplify_eq.
    + exists x. apply map_lookup_filter_Some. cbn. by rewrite <- Hs.
    + exists y. apply map_lookup_filter_Some. cbn. by rewrite Hs.
  - split; intros [z [Hz _]%map_lookup_filter_Some]; congruence.
Qed.

Lemma real_mid V U i : real_counts (db (mid V U)) i = real i.
Proof.
  unfold real_counts. f_equal. unfold comments_of. f_equal.
  refine (size_filter_same (λ c, cm_content_id c = i ∧ cm_deleted_at c = None) (comments d0) (mid_comments U) _).
  intros k. rewrite lookup_mid_comments. destruct (comments d0 !! k) as [c|]; [|done]. cbn. f_equal. by case_decide.
Qed.

Lemma mid_empty : mid ∅ ∅ = w0.
Proof.
  assert (mid_items ∅ = items d0) as Hi.
  { apply map_eq. intros i. rewrite lookup_mid_items. by destruct (items d0 !! i). }
  assert (mid_comments ∅ = comments d0) as Hc.
  { apply map_eq. intros i. rewrite lookup_mid_comments. by destruct (comments d0 !! i). }
  unfold mid. rewrite Hi, Hc. by destruct w0 as [[]].
Qed.

(** One row. *)
Lemma row_mid V U n R C i x :
  items d0 !! i = Some x → i ∉ V → (∀ j, real_counts R j = real j) →
  reconcile_row F R (Progress n (fixes V) C) (i, x) (mid V U)
  = (Progress n (fixes ({[i]} ∪ V)) (if decide (real i = counted x) then {[i]} ∪ C else C), mid ({[i]} ∪ V) U).
Proof.
  intros Hx Hi HR. unfold reconcile_row. cbn [fst snd scanned corrected converged]. rewrite HR.
  assert (Hpd : _has_pending_delta F i (mid V U) = _has_pending_delta F i w0) by done. rewrite Hpd.
  assert (Hkeep : fixable i x = false → fixes ({[i]} ∪ V) = fixes V ∧ mid ({[i]} ∪ V) U = mid V U).
  { intros Hf. split.
    - apply set_eq. intros j. rewrite !elem_of_fixes. split; [|set_solver].
      intros [[->%elem_of_singleton|Hj]%elem_of_union (y & Hy & Hr)]; [congruence|eauto].
    - unfold mid. assert (mid_items ({[i]} ∪ V) = mid_items V) as ->; [|done]. apply map_eq. intros j.
      rewrite !lookup_mid_items. destruct (items d0 !! j) as [y|] eqn:Hy; [|done].
      cbn. f_equal. destruct (decide (j = i)) as [->|Hj].
      + rewrite (decide_True (P:=i ∈ {[i]} ∪ V)) by set_solver. rewrite (decide_False (P:=i ∈ V)) by done.
        unfold fixed. assert (y = x) as -> by congruence. by rewrite Hf.
      + apply decide_ext. set_solver. }
  unfold fixable in Hkeep. destruct (decide (real i = counted x)) as [He|He].
  { destruct Hkeep as [-> ->]; [by rewrite bool_decide_eq_true_2 by done|done]. }
  rewrite (bool_decide_eq_false_2 _ He) in Hkeep. destruct (_has_pending_delta F i w0) eqn:Hp.
  { by destruct Hkeep as [-> ->]. }
  assert (Hf : fixable i x = true) by (unfold fixable; by rewrite (bool_decide_eq_false_2 _ He), Hp).
  f_equal.
  - f_equal. apply set_eq. intros j. rewrite elem_of_union, elem_of_singleton, !elem_of_fixes. split; [set_solver|].
    intros [[->%elem_of_singleton|Hj]%elem_of_union (y & Hy & Hr)]; [by left|by right; eauto].
  - assert (mid_items ({[i]} ∪ V) = alter (λ x, with_mark (clock w0) (with_counts (real i) x)) i (mid_items V)) as He'; [|by unfold mid; rewrite He'].
    apply map_eq. intros j. rewrite lookup_alter, !lookup_mid_items. destruct (decide (i = j)) as [<-|Hj].
    + rewrite Hx. cbn. f_equal. rewrite (decide_True (P:=i ∈ {[i]} ∪ V)) by set_solver. rewrite (decide_False (P:=i ∈ V)) by done.
      unfold fixed. by rewrite Hf.
    + destruct (items d0 !! j); [|done]. cbn. f_equal. apply decide_ext. set_solver.
Qed.

Lemma already_insert V i x : items d0 !! i = Some x → i ∉ V →
  already ({[i]} ∪ V) = if decide (real i = counted x) then {[i]} ∪ already V else already V.
Proof.
  intros Hx Hi. apply set_eq. intros j. rewrite (elem_of_already ({[i]} ∪ V)), elem_of_union, elem_of_singleton. case_decide as Hd.
  - rewrite elem_of_union, elem_of_singleton, elem_of_already. naive_solver.
  - rewrite elem_of_already. split; [|naive_solver]. intros [[->|Hj] (y & Hy & Hr)]; [congruence|eauto].
Qed.

Lemma window_mid rows V U n R :
  NoDup rows.*1 → (∀ i x, (i, x) ∈ rows → items d0 !! i = Some x ∧ i ∉ V) → (∀ j, real_counts R j = real j) →
  reconcile_window F R rows (Progress n (fixes V) (already V)) (mid V U)
  = (Progress n (fixes (list_to_set rows.*1 ∪ V)) (already (list_to_set rows.*1 ∪ V)), mid (list_to_set rows.*1 ∪ V) U).
Proof.
  revert V. induction rows as [|[i x] rows IH]; intros V Hnd Hin HR; cbn [reconcile_window].
  { rewrite fmap_nil. cbn. by rewrite union_empty_l_L. }
  destruct (Hin i x) as [Hx Hi]; [by left|]. rewrite (row_mid V U n R _ i x) by done.
  rewrite <- (already_insert V i x) by done. rewrite fmap_cons in *. apply NoDup_cons in Hnd as [Hni Hnd].
  rewrite IH; [|done| |done].
  - cbn [list_to_set foldr fst fmap]. assert (list_to_set rows.*1 ∪ ({[i]} ∪ V) = {[i]} ∪ list_to_set rows.*1 ∪ V :> gset uuid) as -> by set_solver.
    done.
  - intros j y Hj. destruct (Hin j y) as [? ?]; [by right|]. split; [done|]. intros [->%elem_of_singleton|?]%elem_of_union; [|done].
    apply Hni. by apply (list_elem_of_fmap_2 fst _ (i, y)).
Qed.

Lemma comment_likes_mid V U ids :
  reconcile_comment_likes ids (mid V U) = (Ok tt, mid V (list_to_set ids ∪ U)).
Proof.
  unfold reconcile_comment_likes. rewrite run_get_state. unfold modify. f_equal.
  assert (mid_comments (list_to_set ids ∪ U) = map_imap (λ k c, Some (if decide (cm_content_id c ∈ ids)
            then with_comment_likes (size_of (likes_of_comment k (db (mid V U)))) c else c)) (mid_comments U)) as He; [|by unfold mid; rewrite He].
  apply map_eq. intros k. rewrite map_lookup_imap, !lookup_mid_comments. destruct (comments d0 !! k) as [c|]; [|done]. cbn. f_equal.
  destruct (decide (cm_content_id c ∈ U)) as [HU|HU]; cbn [cm_content_id with_comment_likes].
  - rewrite decide_True by set_solver. case_decide; done.
  - case_decide as H1; case_decide as H2; try done; set_solver.
Qed.

Lemma elem_of_due i : i ∈ due_rows ↔
  (0 < uuid_int i)%N ∧ ∃ x, items d0 !! i = Some x ∧ (only_unconverged = true → counts_reconciled_at x = None).
Proof.
  unfold due_rows. rewrite elem_of_dom. split.
  - intros [x [Hx [? Ho]]%map_lookup_filter_Some]. eauto.
  - intros (? & x & Hx & Ho). exists x. by apply map_lookup_filter_Some.
Qed.

Lemma elem_of_seen last i : i ∈ seen last ↔ (uuid_int i ≤ last)%N ∧ i ∈ due_rows.
Proof. unfold seen. by rewrite elem_of_filter. Qed.

(** What a window reads. *)
Lemma rows_mid last_id i x :
  (i, x) ∈ reconcile_rows only_unconverged last_id (db (mid (seen last_id) (seen last_id))) ↔
  items d0 !! i = Some x ∧ (last_id < uuid_int i)%N ∧ i ∈ due_rows.
Proof.
  unfold reconcile_rows. rewrite merge_sort_Permutation, list_elem_of_filter, elem_of_map_to_list. cbn [fst snd].
  change (items (db (mid (seen last_id) (seen last_id)))) with (mid_items (seen last_id)). rewrite lookup_mid_items, elem_of_due.
  assert (Hns : (last_id < uuid_int i)%N → i ∉ seen last_id) by (rewrite elem_of_seen; lia).
  split.
  - intros [[Hl Ho] Hx]. destruct (items d0 !! i) as [y|] eqn:Hy; [|done]. cbn in Hx. rewrite decide_False in Hx by auto.
    injection Hx as ->. split; [done|]. split; [done|]. split; [lia|eauto].
  - intros (Hx & Hl & _ & y & Hy & Ho). rewrite Hx. cbn. rewrite decide_False by auto. split; [|done]. split; [done|].
    assert (y = x) as -> by congruence. done.
Qed.

Lemma sorted_take {A} (R : relation A) (l : list A) n x y :
  StronglySorted R l → x ∈ l → last (take n l) = Some y → x ∈ take n l ∨ R y x.
Proof.
  intros Hs Hx Hl. rewrite <- (take_drop n l) in Hx, Hs. apply elem_of_app in Hx as [|Hx]; [by left|]. right.
  apply last_Some in Hl as [l' Hl]. eapply StronglySorted_app_1_elem_of; [exact Hs| |exact Hx]. rewrite Hl. apply elem_of_app. right. by left.
Qed.

Lemma sorted_take_last {A} (R : relation A) (l : list A) n x y :
  (∀ a, R a a) → StronglySorted R l → last (take n l) = Some y → x ∈ take n l → R x y.
Proof.
  intros Hr Hs Hl Hx. rewrite <- (take_drop n l) in Hs. apply StronglySorted_app_1_l in Hs.
  apply last_Some in Hl as [l' Hl]. rewrite Hl in *. apply elem_of_app in Hx as [Hx| ->%list_elem_of_singleton]; [|done].
  eapply StronglySorted_app_1_elem_of; [exact Hs|exact Hx|by left].
Qed.

#[local] Instance lower_id_trans : Transitive lower_id.
Proof. intros [a x] [b y] [c z]. unfold lower_id. cbn. lia. Qed.

#[local] Instance lower_id_total : Total lower_id.
Proof. intros [a x] [b y]. unfold lower_id. cbn. lia. Qed.

(** After a window, exactly what is up to its last row has been visited. *)
Lemma window_seen last_id final :
  let rows := take batch_size (reconcile_rows only_unconverged last_id (db (mid (seen last_id) (seen last_id)))) in
  last rows = Some final →
  NoDup rows.*1 ∧ (∀ i x, (i, x) ∈ rows → items d0 !! i = Some x ∧ i ∉ seen last_id)
  ∧ list_to_set rows.*1 ∪ seen last_id = seen (uuid_int final.1)
  ∧ size (seen last_id) + length rows = size (seen (uuid_int final.1))
  ∧ size (due_after (uuid_int final.1)) < size (due_after last_id).
Proof.
  intros rows Hlast. set (all := reconcile_rows only_unconverged last_id (db (mid (seen last_id) (seen last_id)))) in *.
  assert (Hsort : StronglySorted lower_id all) by (apply StronglySorted_merge_sort; apply _).
  assert (Hsub : rows `sublist_of` all) by apply sublist_take.
  assert (Hin : ∀ i x, (i, x) ∈ rows → items d0 !! i = Some x ∧ (last_id < uuid_int i)%N ∧ i ∈ due_rows).
  { intros i x Hi. apply rows_mid. by eapply elem_of_sublist. }
  assert (Hnd : NoDup rows.*1).
  { eapply sublist_NoDup; [|by apply fmap_sublist]. unfold all, reconcile_rows. rewrite merge_sort_Permutation.
    eapply sublist_NoDup; [apply (NoDup_fst_map_to_list (items (db (mid (seen last_id) (seen last_id)))))|].
    apply fmap_sublist, sublist_filter. }
  assert (Hns : ∀ i, (last_id < uuid_int i)%N → i ∉ seen last_id) by (intros i; rewrite elem_of_seen; lia).
  assert (Hfin : final ∈ rows) by (apply last_Some in Hlast as [l' ->]; apply elem_of_app; right; by left).
  destruct final as [f xf]. destruct (Hin f xf Hfin) as (Hxf & Hlf & Hdf). cbn [fst].
  assert (Hset : list_to_set rows.*1 ∪ seen last_id = seen (uuid_int f)).
  { apply set_eq. intros i. rewrite elem_of_union, elem_of_list_to_set, list_elem_of_fmap, !elem_of_seen. split.
    - intros [([j x] & -> & Hj)|[? ?]]; [|split; [lia|done]]. destruct (Hin j x Hj) as (_ & _ & Hdj). split; [|done].
      exact (sorted_take_last lower_id all batch_size (j, x) (f, xf) (λ a, N.le_refl _) Hsort Hlast Hj).
    - intros [Hle Hd]. destruct (decide (uuid_int i ≤ last_id)%N) as [|Hgt]; [by right|]. left.
      pose proof Hd as (_ & x & Hx & Ho)%elem_of_due.
      assert (Hall : (i, x) ∈ all) by (apply rows_mid; split; [done|split; [lia|done]]).
      destruct (sorted_take lower_id all batch_size (i, x) (f, xf) Hsort Hall Hlast) as [Ht|Hr].
      + by exists (i, x).
      + unfold lower_id in Hr. cbn in Hr. exists (f, xf). split; [|done]. cbn. apply uuid_int_inj. lia. }
  split_and!; [done| |done| |].
  - intros i x Hi. destruct (Hin i x Hi) as (? & ? & ?). auto.
  - rewrite <- Hset, size_union, size_list_to_set, length_fmap; [lia|done|]. intros i Hi Hs.
    apply elem_of_list_to_set, list_elem_of_fmap in Hi as ([j x] & -> & Hj). destruct (Hin j x Hj) as (? & ? & ?). by apply (Hns j).
  - apply subset_size. split.
    + intros i. unfold due_after. rewrite !elem_of_filter. intros [? ?]. split; [lia|done].
    + intros Hc. specialize (Hc f). unfold due_after in Hc. rewrite !elem_of_filter in Hc. destruct Hc; [done|lia].
Qed.

Hypothesis batch_positive : 0 < batch_size.

Lemma loop_mid fuel last_id :
  size (due_after last_id) < fuel →
  reconcile_loop fuel F batch_size only_unconverged last_id
    (Progress (size (seen last_id)) (fixes (seen last_id)) (already (seen last_id))) (mid (seen last_id) (seen last_id))
  = (Ok (Progress (size due_rows) (fixes due_rows) (already due_rows)), mid due_rows due_rows).
Proof.
  revert last_id. induction fuel as [|fuel IH]; intros last_id Hf; [lia|]. cbn [reconcile_loop]. rewrite run_get_state. cbv zeta.
  pose proof (window_seen last_id) as Hw. cbv zeta in Hw.
  set (rows := take batch_size _) in *. destruct (last rows) as [final|] eqn:Hlast.
  - destruct (Hw final eq_refl) as (Hnd & Hin & Hset & Hsize & Hdec).
    rewrite (bind_ok _ _ _ _ _ (comment_likes_mid _ _ _)), run_get_state, Hset.
    rewrite (window_mid rows (seen last_id) _ _ (db (mid (seen last_id) (seen last_id)))); [|done|done|apply real_mid].
    rewrite Hset, run_modify. cbn [scanned corrected converged]. rewrite Hsize. apply IH. lia.
  - apply last_None in Hlast. assert (Hnone : ∀ i, i ∈ due_rows → (uuid_int i ≤ last_id)%N).
    { intros i Hi. destruct (decide (uuid_int i ≤ last_id)%N) as [|Hgt]; [done|]. exfalso. pose proof Hi as (_ & x & Hx & Ho)%elem_of_due.
      assert (Hall : (i, x) ∈ reconcile_rows only_unconverged last_id (db (mid (seen last_id) (seen last_id)))).
      { apply rows_mid. split; [done|split; [lia|done]]. }
      unfold rows in Hlast. destruct (reconcile_rows _ _ _); [by apply elem_of_nil in Hall|]. by destruct batch_size; [lia|]. }
    assert (seen last_id = due_rows) as -> by (apply set_eq; intros i; rewrite elem_of_seen; naive_solver). done.
Qed.

(** The reconciliation at once. *)
Definition reconciled : world :=
  set_corrected (fixes due_rows) (size (fixes due_rows ∩ last_corrected w0))
    (set_items (map_imap (λ k x, Some (if decide (k ∈ already due_rows) then with_mark (clock w0) x else x))) (mid due_rows due_rows)).

Lemma reconcile_run :
  reconcile_counts F batch_size only_unconverged w0 = (Ok (size due_rows, size (fixes due_rows)), reconciled).
Proof.
  unfold reconcile_counts. rewrite run_get_state.
  assert (Hs : seen 0 = ∅).
  { apply set_eq. intros i. rewrite elem_of_seen, elem_of_empty, elem_of_due. split; [|done]. intros [Hle [? _]]. lia. }
  assert (He : fixes ∅ = ∅ ∧ already ∅ = ∅).
  { split; apply set_eq; intros i; rewrite ?elem_of_fixes, ?elem_of_already; set_solver. }
  assert (Hf : size (due_after 0) < S (size (items d0))).
  { apply Nat.lt_succ_r. rewrite <- size_dom. apply subseteq_size. intros i. unfold due_after. rewrite elem_of_filter, elem_of_due, elem_of_dom.
    intros [_ (_ & x & ? & _)]. by eexists. }
  pose proof (loop_mid (S (size (items d0))) 0 Hf) as Hl. rewrite Hs, mid_empty, size_empty in Hl. destruct He as [He1 He2]. rewrite He1, He2 in Hl.
  rewrite (bind_ok _ _ _ _ _ Hl). cbn [scanned corrected converged]. rewrite run_modify. unfold _record_oscillation. rewrite run_modify.
  reflexivity.
Qed.
End reconciliation.

(** ** Requests in sequence *)
Section steps.
Context (cfg : settings).

Inductive op :=
  | Like (i u : uuid)
  | Unlike (i u : uuid)
  | Comment (new i u : uuid) (parent : option uuid) (text : string)
  | LikeComment (i c u : uuid)
  | UnlikeComment (i c u : uuid)
  | DeleteComment (i c : uuid)
  | AddFavorite (u i : uuid)
  | RemoveFavorite (u i : uuid)
  | View (u i : uuid)
  | Purge (retention_days : Z)
  | Forward (i : uuid)
  | Post (new author : uuid) (info : ContentItemCreate)
  | Delete (i : uuid)
  | PublishQa (new new_board author question : uuid) (what text : string)
  | PublishBlog (new owner board : uuid) (s : option string) (what text : string) (sum cov : option string)
  | Read (i : uuid) (bump_view : bool)
  | Moderate (o : Boards.op)
  | Flush
  | Reconcile (only_unconverged : bool).

Definition done_with {A} (m : M A) : M () := _ ← m; mret tt.

Definition body (F : faults) (o : op) : M () :=
  match o with
  | Like i u => done_with (like_item cfg F i u)
  | Unlike i u => done_with (unlike_item cfg F i u)
  | Comment new i u parent text => done_with (create_comment cfg F new i u parent text)
  | LikeComment i c u => done_with (like_comment i c u)
  | UnlikeComment i c u => done_with (unlike_comment i c u)
  | DeleteComment i c => delete_comment cfg F i c
  | AddFavorite u i => done_with (add_favorite cfg F u i)
  | RemoveFavorite u i => done_with (remove_favorite cfg F u i)
  | View u i => done_with (record_view u i)
  | Purge days => done_with (purge_stale_view_logs days)
  | Forward i => done_with (forward_item i)
  | Post new author info => done_with (create_item cfg F new author info)
  | Delete i => done_with (delete_item cfg F i)
  | PublishQa new nb u q what text => publish_qa_item cfg F new nb u q what text
  | PublishBlog new u b s what text sum cov => done_with (publish_blog_item cfg F new u b s what text sum cov)
  | Read i v => done_with (get_item F i v)
  | Moderate o => on_forum (Boards.body o)
  | Flush => flush_counters F
  | Reconcile only => done_with (reconcile_counts F 500 only)
  end.

(** What the other services and the clock do. *)
Definition elsewhere (w w' : world) : Prop :=
  items (db w') = items (db w) ∧ likes (db w') = likes (db w) ∧ favorites (db w') = favorites (db w)
  ∧ comments (db w') = comments (db w) ∧ comment_likes (db w') = comment_likes (db w) ∧ pending w' = pending w.

(** Counters that are written through live in the database alone. Those that are
    held back depend on a Redis that answers, and on a transaction that commits
    once Redis has counted. *)
Definition dependable (F : faults) (commits : bool) (o : op) (w : world) : bool :=
  counters_write_through cfg
  || negb (f_incr F) && negb (f_get F)
     && (bool_decide (pending (body F o w).2 = pending w) || match (body F o w).1 with Ok _ => commits | Raise _ => false end).

(** A request, with any calls of Redis failing and its transaction committing or
    not; and changes elsewhere. The flag says that all requests so far have been
    dependable. *)
Inductive step : world * bool → world * bool → Prop :=
  | step_op F o commits w trusted : step (w, trusted) ((transaction commits (body F o) w).2, trusted && dependable F commits o w)
  | step_elsewhere w w' trusted : elsewhere w w' → step (w, trusted) (w', trusted).

Abbreviation Sound w := (sound cfg (db w) (pending w)).

Lemma not_fixable F w i x : redis_ok cfg F → Sound w → items (db w) !! i = Some x → fixable F w i x = false.
Proof.
  intros Hok S Hx. unfold fixable. case_bool_decide as Hr; [done|]. cbn [negb andb]. apply negb_false_iff.
  assert (∃ f, get_count f (real_counts (db w) i) ≠ get_count f (counted x)) as [f Hf].
  { destruct (real_counts (db w) i) as [a b c], (counted x) as [a' b' c'].
    destruct (decide (a = a')) as [->|]; [|by exists like_count]. destruct (decide (b = b')) as [->|]; [|by exists comment_count].
    destruct (decide (c = c')) as [->|]; [done|by exists bookmark_count]. }
  pose proof (balance _ _ _ _ S i x f Hx) as Hb. cbv beta in Hb. assert (Hp : pend (pending w) f i ≠ 0%Z) by lia.
  unfold _has_pending_delta. apply existsb_exists. exists f. split; [destruct f; cbn; tauto|].
  apply bool_decide_eq_true. destruct Hok as [Hwt|[_ Hg]].
  - rewrite (flat _ _ _ _ S Hwt) in Hp. by unfold pend in Hp; rewrite lookup_empty in Hp.
  - unfold pending_delta. by rewrite Hg.
Qed.

Lemma reconcile_keeps F only w : redis_ok cfg F → Sound w →
  wp (reconcile_counts F 500 only) (λ _ w', Sound w' ∧ pending w' = pending w) (λ _ _, False) w.
Proof.
  intros Hok S. unfold wp. rewrite (reconcile_run F 500 only w) by lia. split; [|done].
  eapply (sound_items cfg (db w)); try exact S; try done; cbn.
  - apply map_eq. intros k. rewrite lookup_mid_comments. destruct (comments (db w) !! k) as [c|] eqn:Hc; [|done]. cbn. f_equal.
    case_decide; [|done]. rewrite <- (comment_counts _ (rows_sound _ _ _ _ S) k c Hc). by destruct c.
  - intros i x'. rewrite map_lookup_imap, lookup_mid_items. destruct (items (db w) !! i) as [x|] eqn:Hx; [|done]. cbn.
    intros [= <-]. exists x. split; [done|]. unfold fixed. rewrite (not_fixable F w i x Hok S Hx). by repeat case_decide.
  - intros i [x Hx]. rewrite map_lookup_imap, lookup_mid_items, Hx. by eexists.
Qed.

Abbreviation keeps m w := (wp m (λ _ w', Sound w') (λ _ w', counters_write_through cfg = true → pending w' = pending w) w).

Lemma done_with_wp {A} (m : M A) (Q : A → world → Prop) w :
  wp m Q (λ _ w', counters_write_through cfg = true → pending w' = pending w) w → (∀ a w', Q a w' → Sound w') → keeps (done_with m) w.
Proof. intros H HQ. apply wp_bind. eapply wp_mono; [exact H| |done]. intros a w' Ha. apply wp_ret. by eapply HQ. Qed.

Lemma quiet_done {A} (m : M A) w : respects (quiet cfg) m → Sound w → keeps (done_with m) w.
Proof. intros Hm S. eapply done_with_wp; [by apply respects_keeps|done]. Qed.

Lemma content_body_keeps F o w : redis_ok cfg F → Sound w → keeps (body F o) w.
Proof.
  intros Hok S. destruct o; cbn [body].
  - eapply done_with_wp; [by apply like_item_wp|]. by intros n w' [[? _] _].
  - eapply done_with_wp; [by apply unlike_item_wp|]. by intros n w' [? _].
  - eapply done_with_wp; [by apply create_comment_keeps|done].
  - eapply done_with_wp; [by apply like_comment_wp|]. by intros n w' [? _].
  - eapply done_with_wp; [by apply unlike_comment_wp|]. by intros n w' [? _].
  - by apply delete_comment_keeps.
  - eapply done_with_wp; [by apply add_favorite_wp|]. by intros n w' [? _].
  - eapply done_with_wp; [by apply remove_favorite_wp|]. by intros n w' [? _].
  - apply quiet_done; [apply quiet_record_view|done].
  - apply quiet_done; [apply quiet_purge|done].
  - apply quiet_done; [apply quiet_forward|done].
  - apply quiet_done; [apply quiet_create_item|done].
  - apply quiet_done; [apply quiet_delete_item|done].
  - apply respects_keeps; [apply quiet_publish_qa|done].
  - apply quiet_done; [apply quiet_publish_blog|done].
  - apply quiet_done; [apply quiet_get_item|done].
  - apply respects_keeps; [apply quiet_forum|done].
  - by apply flush_counters_keeps.
  - eapply done_with_wp; [eapply wp_mono; [by apply reconcile_keeps|intros a w' H'; exact H'|done]|]. by intros a w' [? _].
Qed.

Lemma content_body_orderly F o w : rows_ok (db w) → wp (body F o) (λ _ w', rows_ok (db w')) (λ _ _, True) w.
Proof.
  intros W. assert (Hdone : ∀ A (m : M A), wp m (λ _ w', rows_ok (db w')) (λ _ _, True) w → wp (done_with m) (λ _ w', rows_ok (db w')) (λ _ _, True) w).
  { intros A m Hm. apply wp_bind. eapply wp_mono; [exact Hm| |done]. intros a w' W'. by apply wp_ret. }
  destruct o; cbn [body]; try apply Hdone.
  - by apply orderly_like.
  - by apply orderly_unlike.
  - by apply orderly_comment.
  - by apply orderly_like_comment.
  - by apply orderly_unlike_comment.
  - by apply orderly_delete_comment.
  - by apply orderly_add_favorite.
  - by apply orderly_remove_favorite.
  - by apply same_rows_wp; [apply same_record_view|].
  - by apply same_rows_wp; [apply same_purge|].
  - by apply same_rows_wp; [apply same_forward|].
  - by apply same_rows_wp; [apply same_create_item|].
  - by apply same_rows_wp; [apply same_delete_item|].
  - by apply same_rows_wp; [apply same_publish_qa|].
  - by apply same_rows_wp; [apply same_publish_blog|].
  - by apply same_rows_wp; [apply same_get_item|].
  - by apply same_rows_wp; [apply same_forum|].
  - by apply same_rows_wp; [apply same_flush|].
  - unfold wp. rewrite (reconcile_run F 500 only_unconverged w) by lia. apply (rows_ok_items (db w)); [done|done| |done| |done].
    + apply map_eq. intros k. change (mid_comments w (due_rows only_unconverged w) !! k = comments (db w) !! k). rewrite lookup_mid_comments.
      destruct (comments (db w) !! k) as [c|] eqn:Hc; [|done]. cbn. f_equal. case_decide; [|done].
      rewrite <- (comment_counts _ W k c Hc). by destruct c.
    + intros i [x Hx]. unfold reconciled. cbn. rewrite map_lookup_imap, lookup_mid_items, Hx. by eexists.
Qed.

(** Between requests. *)
Definition steady (s : world * bool) : Prop :=
  rows_ok (db s.1) ∧ (s.2 = true → Sound s.1) ∧ (counters_write_through cfg = true → s.2 = true).

Lemma dependable_sound F o commits w : Sound w → dependable F commits o w = true → Sound (transaction commits (body F o) w).2.
Proof.
  intros S Hd. unfold dependable in Hd. apply orb_true_iff in Hd.
  assert (Hd' : counters_write_through cfg = true ∨ answered F ∧ (pending (body F o w).2 = pending w ∨ commits = true ∧ (body F o w).1 = Ok tt)).
  { destruct Hd as [|[[H1%negb_true_iff H2%negb_true_iff]%andb_true_iff Hd]%andb_true_iff]; [by left|right]. split; [done|].
    apply orb_true_iff in Hd as [Hd%bool_decide_eq_true|Hd]; [by left|right]. by destruct (body F o w).1 as [[]|]. }
  assert (Hok : redis_ok cfg F) by (destruct Hd' as [?|[? _]]; [by left|by right]).
  pose proof (content_body_keeps F o w Hok S) as H. unfold wp in H. unfold transaction.
  destruct (body F o w) as [[[]|e] w1]; cbn in *.
  - destruct commits; [done|]. cbn. assert (pending w1 = pending w) as Hp; [|by rewrite Hp].
    destruct Hd' as [Hwt|[_ [?|[? _]]]]; [|done|done]. rewrite (flat _ _ _ _ S Hwt). by apply H.
  - assert (pending w1 = pending w) as Hp; [|by rewrite Hp]. destruct Hd' as [Hwt|[_ [?|[_ ?]]]]; [by apply H|done|done].
Qed.

Lemma step_steady s s' : steady s → step s s' → steady s'.
Proof.
  intros Hs Hst. revert Hs. destruct Hst as [F o commits w t|w w1 t (E1 & E2 & E3 & E4 & E5 & Hp)]; intros (W & S & T); cbn [fst snd] in *.
  - split_and!; cbn [fst snd].
    + pose proof (content_body_orderly F o w W) as H. unfold wp in H. unfold transaction.
      destruct (body F o w) as [[[]|e] w1]; [destruct commits|]; done.
    + intros [Ht Hd]%andb_true_iff. apply dependable_sound; [by apply S|done].
    + intros Hw. rewrite (T Hw). unfold dependable. by rewrite Hw.
  - split_and!; cbn [fst snd]; [|intros Ht; rewrite Hp; by apply (sound_elsewhere cfg (db w)); [..|apply S]|done].
    apply (rows_ok_items (db w)); [done..| |done]. by rewrite E1.
Qed.

Lemma reach_steady s s' : steady s → rtc step s s' → steady s'.
Proof. intros S Hr. induction Hr as [|w1 w2 w3 H12 _ IH]; [done|]. apply IH. by eapply step_steady. Qed.

(** Nothing posted yet. *)
Definition blank (w : world) : Prop :=
  items (db w) = ∅ ∧ likes (db w) = ∅ ∧ favorites (db w) = ∅ ∧ comments (db w) = ∅ ∧ comment_likes (db w) = ∅ ∧ pending w = ∅.

Lemma blank_steady w : blank w → steady (w, true).
Proof.
  intros Hb. assert (S : Sound w); [revert Hb|by split_and!; [apply S|done|done]].
  intros (E1 & E2 & E3 & E4 & E5 & Hp). split; rewrite ?E1, ?Hp.
  - intros i x f Hx. by rewrite lookup_empty in Hx.
  - intros i x f Hx. by rewrite lookup_empty in Hx.
  - done.
  - intros f i Hpd. by unfold pend in Hpd; rewrite lookup_empty in Hpd.
  - split; rewrite ?E2, ?E3, ?E4, ?E5; try done; intros *; rewrite ?lookup_empty; try done; intros; by rewrite lookup_empty in *.
Qed.
End steps.

(** *** What a request answers *)
Section answers.
Context (cfg : settings).

Abbreviation Sound w := (sound cfg (db w) (pending w)).

(** Only the rows of the items, and Redis, may change. *)
Record rows_kept (w w' : world) : Prop := {
  kept_likes : likes (db w') = likes (db w);
  kept_favorites : favorites (db w') = favorites (db w);
  kept_comments : comments (db w') = comments (db w)
}.

#[local] Instance rows_kept_preorder : PreOrder rows_kept.
Proof. split; [by intros w|]. intros w1 w2 w3 [] []. split; congruence. Qed.

Hint Extern 2 (respects rows_kept (modify _)) => apply respects_modify; by intros ? : respects.

Lemma kept_write_through i f delta : respects rows_kept (write_through_bump i f delta).
Proof. unfold write_through_bump. respects. Qed.
Hint Resolve kept_write_through : respects.

Lemma kept_bump_counter F f i delta : respects rows_kept (bump_counter F f i delta).
Proof. unfold bump_counter. respects. Qed.
Hint Resolve kept_bump_counter : respects.

Lemma kept_bump F i f delta : respects rows_kept (bump_content_counter cfg F i f delta).
Proof. unfold bump_content_counter. respects. Qed.

Lemma kept_read F i f : respects rows_kept (read_count cfg F i f).
Proof. unfold read_count. respects. Qed.

Lemma kept_bookmark F i delta : respects rows_kept (_bump_bookmark cfg F i delta).
Proof. unfold _bump_bookmark, bump_bookmark_count, _current_bookmark_count, _bookmark_count. respects. Qed.

Lemma kept_current F i : respects rows_kept (_current_bookmark_count cfg F i).
Proof. unfold _current_bookmark_count, _bookmark_count. respects. Qed.

(** The errors of a counter. *)
Definition counter_error (i : uuid) (w : world) (e : err) : Prop :=
  e = CONTENT_NOT_FOUND ∧ active_item i w = None ∨ e = DataError ∧ is_Some (active_item i w).

Lemma respects_wp {A} (R : relation world) (m : M A) w : respects R m → wp m (λ _ w', R w w') (λ _ w', R w w') w.
Proof. intros H. specialize (H w). unfold wp. by destruct (m w) as [[]]. Qed.

(** A transaction, by what its body does. *)
Lemma transaction_wp {A} (m : M A) (Q : A → world → Prop) (R : err → world → Prop) w :
  wp m Q R w →
  match transaction true m w with
  | (Ok a, w') => Q a w'
  | (Raise e, w') => ∃ w1, R e w1 ∧ db w' = db w
  end.
Proof. unfold wp, transaction. destruct (m w) as [[a|e] w1]; [done|]. intros H. by exists w1. Qed.

Lemma lock_active_answers i w (Q : () → world → Prop) (R : err → world → Prop) :
  (active_item i w = None → R CONTENT_NOT_FOUND w) → (is_Some (active_item i w) → Q tt w) → wp (lock_active i) Q R w.
Proof.
  intros HR HQ. unfold lock_active. apply wp_bind, wp_get_state, wp_bind. unfold active_item in *.
  apply wp_get_or_raise; [intros Hn|intros x Hx].
  - rewrite Hn in HR. by apply HR.
  - rewrite Hx in HR, HQ. cbn in HR, HQ. apply wp_raise_when.
    + intros [t Ht]%bool_decide_eq_true. rewrite decide_False in HR by congruence. by apply HR.
    + intros Hd%bool_decide_eq_false. rewrite decide_True in HQ by (by apply eq_None_not_Some). apply HQ. by eexists.
Qed.

Lemma data_error_only F i f delta w :
  is_Some (items (db w) !! i) → wp (bump_content_counter cfg F i f delta) (λ _ _, True) (λ e _, e = DataError) w.
Proof.
  intros [x Hx]. unfold bump_content_counter, write_through_bump, bump_counter.
  destruct (counters_write_through cfg).
  { apply wp_bind, wp_get_state. rewrite Hx. apply wp_bind, wp_ret. cbv zeta. apply wp_bind, wp_raise_when; [done|intros _].
    by apply wp_bind, wp_modify, wp_ret. }
  apply wp_bind, wp_get_state. rewrite Hx. apply wp_bind, wp_ret, wp_bind, wp_bind, wp_get_state. cbv zeta.
  destruct (f_incr F); [apply wp_ret|by apply wp_bind, wp_modify, wp_ret, wp_bind, wp_get_state, wp_ret].
  apply wp_bind, wp_get_state. rewrite Hx. apply wp_bind, wp_ret. apply wp_bind, wp_raise_when; [done|intros _].
  by apply wp_bind, wp_modify, wp_ret.
Qed.

Lemma read_no_error F i f w : is_Some (items (db w) !! i) → wp (read_count cfg F i f) (λ _ _, True) (λ e _, False) w.
Proof.
  intros [x Hx]. unfold read_count. apply wp_bind, wp_get_state. rewrite Hx. apply wp_bind, wp_ret. by destruct (counters_write_through cfg).
Qed.

Lemma active_in_table i w : is_Some (active_item i w) → is_Some (items (db w) !! i).
Proof. intros [x [Hx _]%active_item_Some]. by eexists. Qed.

Lemma current_answers F i w :
  wp (_current_bookmark_count cfg F i) (λ _ w', w' = w ∧ is_Some (active_item i w)) (λ e _, counter_error i w e) w.
Proof.
  unfold _current_bookmark_count, _bookmark_count. apply wp_bind, wp_bind, wp_get_state, wp_bind, wp_get_or_raise.
  - intros Hn. by left.
  - intros x Hx. rewrite Hx. by apply wp_ret, wp_bind, wp_get_state, wp_ret.
Qed.

Lemma bookmark_data_error F i delta w :
  is_Some (active_item i w) → wp (_bump_bookmark cfg F i delta) (λ _ _, True) (λ e _, e = DataError) w.
Proof.
  intros [x Hx]. pose proof Hx as [Hi Hd]%active_item_Some.
  unfold _bump_bookmark, bump_bookmark_count, write_through_bump, bump_counter, _current_bookmark_count, _bookmark_count.
  assert (Hb : ∀ delta, wp (w0 ← get_state; _ ← get_or_raise (active_item i w0) CONTENT_NOT_FOUND; write_through_bump i bookmark_count delta)
                          (λ _ _, True) (λ e _, e = DataError) w).
  { intros k. apply wp_bind, wp_get_state. rewrite Hx. apply wp_bind, wp_ret. unfold write_through_bump.
    apply wp_bind, wp_get_state. rewrite Hi. apply wp_bind, wp_ret. cbv zeta. apply wp_bind, wp_raise_when; [done|intros _].
    by apply wp_bind, wp_modify, wp_ret. }
  destruct (counters_write_through cfg); [apply Hb|]. apply wp_bind, wp_bind, wp_get_state. cbv zeta.
  destruct (f_incr F); [apply wp_ret, Hb|]. apply wp_bind, wp_modify, wp_ret, wp_bind, wp_bind, wp_get_state.
  assert (Ha : ∀ g, active_item i (set_pending g w) = Some x) by done. rewrite Ha. by apply wp_bind, wp_ret, wp_ret, wp_bind, wp_get_state, wp_ret.
Qed.

(** What a reaction answers: how many there are, its own among them or not. *)
Definition truthful (rows : tables → gset (uuid * uuid)) (present : bool) (i u : uuid) (w : world) (r : outcome err Z * world) : Prop :=
  match r with
  | (Ok n, w') =>
      is_Some (active_item i w) ∧ n = size_of (filter (λ p, p.1 = i) (rows (db w')))
      ∧ rows (db w') = if present then {[(i, u)]} ∪ rows (db w) else rows (db w) ∖ {[(i, u)]}
  | (Raise e, w') => db w' = db w ∧ counter_error i w e
  end.

Lemma union_absorb (X : gset (uuid * uuid)) p : p ∈ X → {[p]} ∪ X = X.
Proof. set_solver. Qed.

Lemma difference_absorb (X : gset (uuid * uuid)) p : p ∉ X → X ∖ {[p]} = X.
Proof. set_solver. Qed.

Lemma like_rows F i u w : wp (like_item cfg F i u)
  (λ _ w', is_Some (active_item i w) ∧ likes (db w') = {[(i, u)]} ∪ likes (db w)) (λ e _, counter_error i w e) w.
Proof.
  unfold like_item. apply wp_bind, lock_active_answers; [by left|intros Ha]. pose proof (active_in_table _ _ Ha) as Hi.
  apply wp_bind, wp_get_state. case_decide as Hin.
  - eapply wp_mono; [apply wp_and; [apply respects_wp, kept_read|by apply read_no_error]| |by intros e w' [_ []]].
    intros n w' [[-> _ _] _]. by rewrite union_absorb.
  - apply wp_bind, wp_modify, wp_bind, wp_modify.
    eapply wp_mono; [apply wp_and; [apply respects_wp, kept_bump|by apply data_error_only]| |].
    + intros n w' [[-> _ _] _]. done.
    + intros e w' [_ ->]. by right.
Qed.

Lemma unlike_rows F i u w : wp (unlike_item cfg F i u)
  (λ _ w', is_Some (active_item i w) ∧ likes (db w') = likes (db w) ∖ {[(i, u)]}) (λ e _, counter_error i w e) w.
Proof.
  unfold unlike_item. apply wp_bind, lock_active_answers; [by left|intros Ha]. pose proof (active_in_table _ _ Ha) as Hi.
  apply wp_bind, wp_get_state. case_decide as Hin.
  - apply wp_bind, wp_modify.
    eapply wp_mono; [apply wp_and; [apply respects_wp, kept_bump|by apply data_error_only]| |].
    + intros n w' [[-> _ _] _]. done.
    + intros e w' [_ ->]. by right.
  - eapply wp_mono; [apply wp_and; [apply respects_wp, kept_read|by apply read_no_error]| |by intros e w' [_ []]].
    intros n w' [[-> _ _] _]. by rewrite difference_absorb.
Qed.

Lemma favorite_rows F i u w : wp (add_favorite cfg F u i)
  (λ _ w', is_Some (active_item i w) ∧ favorites (db w') = {[(i, u)]} ∪ favorites (db w)) (λ e _, counter_error i w e) w.
Proof.
  unfold add_favorite. apply wp_bind. eapply wp_mono; [apply current_answers| |done]. intros n w' [-> Ha].
  apply wp_bind, wp_get_state. case_decide as Hin; [apply wp_ret; by rewrite union_absorb|]. apply wp_bind, wp_modify.
  eapply wp_mono; [apply wp_and; [apply respects_wp, kept_bookmark|by apply bookmark_data_error]| |].
  - intros m w' [[_ -> _] _]. done.
  - intros e w' [_ ->]. by right.
Qed.

Lemma unfavorite_rows F i u w : wp (remove_favorite cfg F u i)
  (λ _ w', is_Some (active_item i w) ∧ favorites (db w') = favorites (db w) ∖ {[(i, u)]}) (λ e _, counter_error i w e) w.
Proof.
  unfold remove_favorite. apply wp_bind. eapply wp_mono; [apply current_answers| |done]. intros n w' [-> Ha].
  apply wp_bind, wp_get_state. case_decide as Hin; [|apply wp_ret; by rewrite difference_absorb]. apply wp_bind, wp_modify.
  eapply wp_mono; [apply wp_and; [apply respects_wp, kept_bookmark|by apply bookmark_data_error]| |].
  - intros m w' [[_ -> _] _]. done.
  - intros e w' [_ ->]. by right.
Qed.

(** From the numbers and the rows to the answer. *)
Lemma truthful_wp (m : M Z) (rows : tables → gset (uuid * uuid)) (present : bool) i u f w (R : err → world → Prop) :
  (∀ d, get_count f (real_counts d i) = size_of (filter (λ p, p.1 = i) (rows d))) →
  wp m (λ n w', reports cfg f i n w') R w →
  wp m (λ _ w', is_Some (active_item i w) ∧ rows (db w') = if present then {[(i, u)]} ∪ rows (db w) else rows (db w) ∖ {[(i, u)]})
    (λ e _, counter_error i w e) w →
  truthful rows present i u w (transaction true m w).
Proof.
  intros Hf H1 H2. pose proof (transaction_wp _ _ _ _ (wp_and _ _ _ _ _ _ H1 H2)) as Ht. unfold truthful.
  destruct (transaction true m w) as [[n|e] w'].
  - destruct Ht as [[_ ->] [? ?]]. by rewrite <- Hf.
  - destruct Ht as (w1 & [_ ?] & ?). done.
Qed.
End answers.

(** ** Deleted for good *)
Section deletion.
Context (cfg : settings) (i : uuid).

Definition gone (w : world) : Prop := ∃ x, items (db w) !! i = Some x ∧ is_Some (deleted_at x).

Definition stays_gone (w w' : world) : Prop := gone w → gone w'.

#[local] Instance stays_gone_preorder : PreOrder stays_gone.
Proof. split; [by intros w H|]. intros w1 w2 w3 H1 H2 Hg. by apply H2, H1. Qed.

Lemma stays_alter f k w : (∀ x, is_Some (deleted_at x) → is_Some (deleted_at (f x))) → stays_gone w (set_items (alter f k) w).
Proof.
  intros Hf (x & Hx & Hd). unfold gone. cbn. rewrite lookup_alter. destruct (decide (k = i)) as [->|]; [|eauto].
  rewrite Hx. exists (f x). auto.
Qed.

Hint Extern 1 (stays_gone _ _) => (by intros (? & ? & ?); eexists) : respects.
Hint Extern 2 (respects stays_gone (modify _)) => apply respects_modify; intros ? : respects.
Hint Extern 3 (stays_gone _ (set_items (alter _ _) _)) => apply stays_alter; intros ? ?; (done || by eexists) : respects.

Lemma stays_insert new x : respects stays_gone (insert_item new x).
Proof.
  apply respects_state. intros w. unfold raise_when. destruct (_ || _) eqn:Hc; [done|].
  apply orb_false_iff in Hc as [Hn%bool_decide_eq_false _].
  change (stays_gone w (set_items <[new := MkItem x 0 0 (Counts 0 0 0) None None]> w)).
  intros (y & Hy & Hd). exists y. cbn. split; [|done].
  rewrite lookup_insert_ne; [done|]. intros ->. destruct Hn. by eexists.
Qed.

Lemma stays_forum {A} (m : Boards.M A) : respects stays_gone (on_forum m).
Proof. intros w. unfold on_forum, zoom. destruct (m _) as [o v]. by intros Hg. Qed.

Hint Resolve stays_insert stays_forum : respects.

Lemma stays_flush_one e : respects stays_gone (flush_one e).
Proof. destruct e as [[f k] delta]. unfold flush_one. respects. Qed.

Lemma stays_reconcile F only : respects stays_gone (reconcile_counts F 500 only).
Proof.
  intros w. rewrite (reconcile_run F 500 only w) by lia. intros (x & Hx & Hd). unfold gone. cbn.
  rewrite map_lookup_imap, lookup_mid_items, Hx. cbn. eexists. split; [done|]. unfold fixed. repeat case_match; done.
Qed.

Lemma stays_body F o : respects stays_gone (body cfg F o).
Proof.
  destruct o; cbn [body]; unfold done_with.
  all: unfold like_item, unlike_item, create_comment, like_comment, unlike_comment, delete_comment, write_comment_deletion,
    add_favorite, remove_favorite, record_view, purge_stale_view_logs, forward_item, create_item, check_post_allowed, delete_item,
    publish_qa_item, publish_blog_item, get_item, bump_view_count, enqueue_content_event, clear_item_detail_cache,
    bump_collection_version, bump_comment_count, bump_like_count, _bump_bookmark, bump_bookmark_count, _current_bookmark_count,
    _bookmark_count, bump_content_counter, read_count, write_through_bump, bump_counter, lock_active, _assert_comment_in_item,
    flush_counters, drain_counters; respects.
  - apply respects_for_each; [apply _|apply stays_flush_one].
  - apply stays_reconcile.
Qed.

Lemma stays_step s s' : step cfg s s' → stays_gone s.1 s'.1.
Proof.
  intros [F o commits w t|w w1 t (E & _)]; cbn [fst]; [|unfold stays_gone, gone; by rewrite E].
  pose proof (stays_body F o w) as H. unfold transaction. intros Hg. specialize (H Hg).
  destruct (body cfg F o w) as [[[]|e] w1]; [destruct commits|]; done.
Qed.

Lemma stays_reach s s' : rtc (step cfg) s s' → stays_gone s.1 s'.1.
Proof. induction 1 as [|w1 w2 w3 H12 _ IH]; [done|]. etrans; [by apply stays_step|done]. Qed.

Lemma gone_inactive w : gone w → active_item i w = None.
Proof. intros (x & Hx & t & Ht). unfold active_item. rewrite Hx. cbn. by rewrite decide_False by congruence. Qed.
End deletion.

(** ** The theorems *)
(** C24: Counters are exact. Take any state that requests can reach from a forum
    without posts, with any calls of Redis failing, any transactions rolled back
    and reconciliations and flushes in between. Where counters are written through
    (the default), each counter of each item is the number of its detail rows
    (likes, comments that are not deleted, favourites). Where they are held back,
    a counter together with what Redis holds back for it is that number, and it
    is never negative, as long as every request so far was dependable
    ([trusted]): Redis answered its increments and its reads, and once Redis had
    counted, the transaction committed; a deletion of deltas that is rolled back,
    or a count that is, makes counters drift until a reconciliation repairs them.
    The likes of every comment are counted exactly in both modes, whatever fails. *)
Theorem counters_exact (cfg : settings) (w0 w : world) (trusted : bool) (Hb : blank w0) (Hr : rtc (step cfg) (w0, true) (w, trusted)) :
  (counters_write_through cfg = true → ∀ i x, items (db w) !! i = Some x → counted x = real_counts (db w) i)
  ∧ (trusted = true → ∀ i x f, items (db w) !! i = Some x →
     (get_count f (counted x) + default 0 (pending w !! (f, i)) = get_count f (real_counts (db w) i)
      ∧ 0 ≤ get_count f (counted x))%Z)
  ∧ (∀ c x, comments (db w) !! c = Some x → cm_like_count x = size_of (likes_of_comment c (db w)))
  ∧ ∀ F commits o, dependable cfg F commits o w = false →
      counters_write_through cfg = false
      ∧ (f_incr F = true ∨ f_get F = true
         ∨ pending (body cfg F o w).2 ≠ pending w ∧ db (transaction commits (body cfg F o) w).2 = db w).
Proof.
  destruct (reach_steady cfg _ _ (blank_steady cfg w0 Hb) Hr) as (W & HS & HT). cbn [fst snd] in *. split_and!.
  - intros Hw i x Hx. pose proof (HS (HT Hw)) as S. pose proof (flat _ _ _ _ S Hw) as Hp.
    pose proof (λ f, balance _ _ _ _ S i x f Hx) as B. rewrite Hp in B. unfold pend in B. setoid_rewrite lookup_empty in B. cbn in B.
    pose proof (B like_count) as B1. pose proof (B comment_count) as B2. pose proof (B bookmark_count) as B3.
    destruct (counted x) as [a b c], (real_counts (db w) i) as [a' b' c']. cbn in *. f_equal; lia.
  - intros Ht i x f Hx. pose proof (HS Ht) as S. pose proof (balance _ _ _ _ S i x f Hx) as B. pose proof (in_range _ _ _ _ S i x f Hx) as R.
    unfold pend in B. cbn in B. lia.
  - apply W.
  - intros F commits o. unfold dependable. intros [Hw Hd]%orb_false_iff. split; [done|].
    destruct (f_incr F); [by left|]. destruct (f_get F); [by right; left|]. right; right. cbn [negb andb] in Hd.
    apply orb_false_iff in Hd as [Hp%bool_decide_eq_false Hd]. split; [done|]. unfold transaction.
    destruct (body cfg F o w) as [[a|e] w1]; cbn in *; [by rewrite Hd|done].
Qed.

(** The comments of an item, deleted ones included, stand on the floors one,
    two, three and so on, each on its own, none skipped; a reply is to a comment
    of the same item on an earlier floor, so that threads have no cycles. *)
Theorem floors_gapless (cfg : settings) (w0 w : world) (trusted : bool) (Hb : blank w0) (Hr : rtc (step cfg) (w0, true) (w, trusted)) :
  (∀ i n, (1 ≤ n ≤ Z.of_nat (size (all_comments i (db w))))%Z ↔
          ∃ c x, comments (db w) !! c = Some x ∧ cm_content_id x = i ∧ floor_number x = n)
  ∧ (∀ c1 c2 x1 x2, comments (db w) !! c1 = Some x1 → comments (db w) !! c2 = Some x2 →
       cm_content_id x1 = cm_content_id x2 → floor_number x1 = floor_number x2 → c1 = c2)
  ∧ (∀ c x p, comments (db w) !! c = Some x → cm_parent_id x = Some p →
       ∃ y, comments (db w) !! p = Some y ∧ cm_content_id y = cm_content_id x ∧ (floor_number y < floor_number x)%Z).
Proof.
  destruct (reach_steady cfg _ _ (blank_steady cfg w0 Hb) Hr) as (W & _). cbn [fst] in W.
  split; [|split; apply W]. intros i n. rewrite <- elem_of_floors.
  pose proof (NoDup_floors i (db w) W) as Hnd. pose proof (length_floors i (db w)) as Hlen.
  set (l := floor_number ∘ snd <$> _) in *. set (N := size _) in *.
  assert (Hin : ∀ m, m ∈ l → m ∈ seqZ 1 (Z.of_nat N)).
  { intros m (c & x & Hc & <- & <-)%elem_of_floors. apply elem_of_seqZ. pose proof (floors_range _ W c x Hc) as Hf.
    change (size (all_comments (cm_content_id x) (db w))) with N in Hf. lia. }
  assert (Hperm : l ≡ₚ seqZ 1 (Z.of_nat N)).
  { apply submseteq_length_Permutation; [by apply NoDup_submseteq|rewrite length_seqZ; lia]. }
  rewrite Hperm, elem_of_seqZ. lia.
Qed.

(** Reactions answer the truth. To like, unlike, add to or remove from the
    favourites succeeds only on an item that is not deleted, leaves the user's
    row there or not there, whether it was there before or not, and answers the
    number of rows there then are; otherwise the database is as it was, and the
    item is missing or its counter is full. *)
Theorem reactions_truthful (cfg : settings) (F : faults) (w0 w : world) (i u : uuid)
  (Hb : blank w0) (Hr : rtc (step cfg) (w0, true) (w, true)) (Hok : redis_ok cfg F) :
  truthful likes true i u w (transaction true (like_item cfg F i u) w)
  ∧ truthful likes false i u w (transaction true (unlike_item cfg F i u) w)
  ∧ truthful favorites true i u w (transaction true (add_favorite cfg F u i) w)
  ∧ truthful favorites false i u w (transaction true (remove_favorite cfg F u i) w).
Proof.
  destruct (reach_steady cfg _ _ (blank_steady cfg w0 Hb) Hr) as (_ & S & _). specialize (S eq_refl). cbn [fst] in S. split_and!.
  - eapply (truthful_wp cfg _ likes true i u like_count); [done| |apply like_rows].
    eapply wp_mono; [by apply like_item_wp| |intros e w' H; exact H]. by intros n w' [? _].
  - eapply (truthful_wp cfg _ likes false i u like_count); [done|by apply unlike_item_wp|apply unlike_rows].
  - eapply (truthful_wp cfg _ favorites true i u bookmark_count); [done|by apply add_favorite_wp|apply favorite_rows].
  - eapply (truthful_wp cfg _ favorites false i u bookmark_count); [done|by apply remove_favorite_wp|apply unfavorite_rows].
Qed.

(** *** What a full reconciliation leaves *)
#[local] Arguments _has_pending_delta : simpl never.

Lemma due_rows_full w : (∀ i, is_Some (items (db w) !! i) → uuid_int i ≠ 0%N) → due_rows false w = dom (items (db w)).
Proof.
  intros Hn. apply set_eq. intros i. rewrite elem_of_due, elem_of_dom. split; [intros (_ & x & Hx & _); by eexists|].
  intros [x Hx]. assert (uuid_int i ≠ 0%N) by (apply Hn; by eexists). split; [lia|]. by exists x.
Qed.

Lemma lookup_reconciled F only w i :
  items (db (reconciled F only w)) !! i =
  (λ x, if decide (i ∈ due_rows only w)
        then if _has_pending_delta F i w && negb (bool_decide (real_counts (db w) i = counted x)) then x
             else with_mark (clock w) (with_counts (real_counts (db w) i) x)
        else x) <$> items (db w) !! i.
Proof.
  unfold reconciled. cbn. rewrite map_lookup_imap, lookup_mid_items. destruct (items (db w) !! i) as [x|] eqn:Hx; [|done]. cbn. f_equal.
  assert (Ha : i ∈ already w (due_rows only w) ↔ i ∈ due_rows only w ∧ real_counts (db w) i = counted x).
  { rewrite elem_of_already. split; [intros (? & y & Hy & ?); split; congruence|]. intros [? ?]. eauto. }
  unfold fixed, fixable. destruct (decide (i ∈ due_rows only w)) as [Hd|Hd].
  - destruct (decide (real_counts (db w) i = counted x)) as [He|He].
    + rewrite bool_decide_eq_true_2 by done. rewrite decide_True by tauto. cbn [negb andb]. rewrite andb_false_r.
      rewrite He. destruct x; done.
    + rewrite bool_decide_eq_false_2 by done. rewrite decide_False by tauto. cbn [negb andb]. rewrite andb_true_r. by destruct (_has_pending_delta F i w).
  - rewrite decide_False by tauto. done.
Qed.

Lemma real_reconciled F only w i : real_counts (db (reconciled F only w)) i = real_counts (db w) i.
Proof. exact (real_mid F w (due_rows only w) (due_rows only w) i). Qed.

Lemma reconciled_idle F w : fixes F (reconciled F false w) (due_rows false (reconciled F false w)) = ∅.
Proof.
  apply set_eq. intros i. rewrite elem_of_fixes, elem_of_empty, elem_of_due. split; [|done].
  intros ([Hi _] & y & Hy & Hf). rewrite lookup_reconciled in Hy. destruct (items (db w) !! i) as [x|] eqn:Hx; [|done].
  assert (Hd : i ∈ due_rows false w) by (apply elem_of_due; split; [done|by exists x]).
  cbn in Hy. rewrite decide_True in Hy by done. unfold fixable in Hf. rewrite real_reconciled in Hf.
  apply andb_true_iff in Hf as [Hr%negb_true_iff%bool_decide_eq_false Hp%negb_true_iff].
  assert (Hp' : _has_pending_delta F i w = false) by exact Hp. rewrite Hp' in Hy. cbn [negb andb] in Hy. injection Hy as <-. done.
Qed.

(** C25: A full reconciliation repairs everything there is to repair. From any
    state at all, however wrong its counters, it visits every item, in windows of
    whatever size with the same outcome, and ends; every item for which Redis
    holds nothing back then has exactly the counters of its detail rows, and is
    marked; an item that Redis still holds something back for is left to the next
    run if its counters differ; the comments of all items have exactly their
    likes; nothing else has changed; and a second run finds nothing to do. *)
Theorem reconcile_repairs (F : faults) (batch_size : nat) (w : world) (Hbatch : 0 < batch_size)
  (Hnil : ∀ i, is_Some (items (db w) !! i) → uuid_int i ≠ 0%N) :
  let '(r, w1) := reconcile_counts F batch_size false w in
  r = Ok (size (items (db w)), size (filter (λ kx, real_counts (db w) kx.1 ≠ counted kx.2 ∧ _has_pending_delta F kx.1 w = false) (items (db w))))
  ∧ (∀ b, 0 < b → reconcile_counts F b false w = (r, w1))
  ∧ (∀ i, items (db w1) !! i = (λ x,
       if _has_pending_delta F i w && negb (bool_decide (real_counts (db w) i = counted x)) then x
       else with_mark (clock w) (with_counts (real_counts (db w1) i) x)) <$> items (db w) !! i)
  ∧ (∀ k c, comments (db w) !! k = Some c → is_Some (items (db w) !! cm_content_id c) →
       comments (db w1) !! k = Some (with_comment_likes (size_of (likes_of_comment k (db w1))) c))
  ∧ likes (db w1) = likes (db w) ∧ favorites (db w1) = favorites (db w) ∧ comment_likes (db w1) = comment_likes (db w)
  ∧ pending w1 = pending w
  ∧ (∀ b, 0 < b → (reconcile_counts F b false w1).1 = Ok (size (items (db w)), 0)).
Proof.
  rewrite (reconcile_run F batch_size false w Hbatch). pose proof (due_rows_full w Hnil) as Hdue.
  assert (Hitem : ∀ i, is_Some (items (db w) !! i) → i ∈ due_rows false w) by (intros i; by rewrite Hdue, elem_of_dom).
  assert (Hsame : ∀ i, is_Some (items (db (reconciled F false w)) !! i) ↔ is_Some (items (db w) !! i)).
  { intros i. rewrite lookup_reconciled. destruct (items (db w) !! i); cbn; split; intros [? ?]; try done; by eexists. }
  split_and!; try done.
  - do 2 f_equal; [by rewrite Hdue, size_dom|]. rewrite <- size_dom. f_equal. apply set_eq. intros i.
    rewrite elem_of_fixes, elem_of_dom. unfold fixable. split.
    + intros (_ & x & Hx & [Hr%negb_true_iff%bool_decide_eq_false Hp%negb_true_iff]%andb_true_iff). exists x. by apply map_lookup_filter_Some.
    + intros [x [Hx [Hr Hp]]%map_lookup_filter_Some]. cbn in *. split; [apply Hitem; by eexists|]. exists x. split; [done|].
      by rewrite (bool_decide_eq_false_2 _ Hr), Hp.
  - intros b Hb. by rewrite (reconcile_run F b false w Hb).
  - intros i. rewrite lookup_reconciled, real_reconciled. destruct (items (db w) !! i) as [x|] eqn:Hx; [|done]. cbn.
    rewrite decide_True; [done|]. apply Hitem. by eexists.
  - intros k c Hc Hi. cbn. rewrite lookup_mid_comments, Hc. cbn. rewrite decide_True by auto. done.
  - intros b Hb. rewrite (reconcile_run F b false _ Hb), reconciled_idle, size_empty. cbn. do 2 f_equal.
    rewrite due_rows_full.
    + rewrite <- size_dom. f_equal. apply set_eq. intros i. by rewrite !elem_of_dom, Hsame.
    + intros i Hi. by apply Hnil, Hsame.
Qed.

(** What a deletion does. *)
Lemma delete_item_wp cfg F i w :
  wp (delete_item cfg F i)
    (λ author w1,
       (∃ x, active_item i w = Some x ∧ author = author_id (data x)) ∧ gone i w1
       ∧ feed (db w1) = (remove_source_item i (feed (db w))).1
       ∧ (f_cache F = false → details w1 !! i = None)
       ∧ (content_events_enabled cfg = true → outbox (db w1) = outbox (db w) ++ [ContentEvent i deleted])
       ∧ rows_kept w w1 ∧ pending w1 = pending w)
    (λ e w1, e = CONTENT_NOT_FOUND ∧ active_item i w = None ∧ w1 = w) w.
Proof.
  unfold delete_item, clear_item_detail_cache, enqueue_content_event, bump_collection_version.
  apply wp_bind, wp_get_state, wp_bind, wp_get_or_raise; [done|intros x Hx]. pose proof Hx as [Hi _]%active_item_Some.
  assert (Hg : ∀ w', items (db w') = alter (with_deleted (clock w)) i (items (db w)) → gone i w').
  { intros w' E. unfold gone. rewrite E, lookup_alter, decide_True, Hi by done. eexists. split; [done|]. by eexists. }
  apply wp_bind, wp_modify, wp_bind.
  assert (Hd : ∀ w' : world, details (set_details (delete i) w') !! i = None) by (intros w'; apply lookup_delete_eq).
  destruct (f_cache F), (content_events_enabled cfg); cbn [negb];
    repeat first [apply wp_bind | apply wp_modify | apply wp_ret];
    (split; [by exists x|]); (split; [by apply Hg|]); (split; [done|]); (split; [done || (intros _; apply Hd)|]);
    (split; [done|]); (split; [by split|done]).
Qed.

Lemma lock_gone i w : active_item i w = None → lock_active i w = (Raise CONTENT_NOT_FOUND, w).
Proof.
  intros Hg. assert (H : wp (lock_active i) (λ _ _, False) (λ e w', e = CONTENT_NOT_FOUND ∧ w' = w) w).
  { apply lock_active_answers; [done|]. rewrite Hg. by intros [? ?]. }
  unfold wp in H. by destruct (lock_active i w) as [[]]; [|destruct H as [-> ->]].
Qed.

Lemma current_gone cfg F i w : active_item i w = None → _current_bookmark_count cfg F i w = (Raise CONTENT_NOT_FOUND, w).
Proof. intros Hg. unfold _current_bookmark_count, _bookmark_count. by rewrite bind_assoc, run_get_state, Hg. Qed.

Lemma gone_answers cfg F i w u new c parent text :
  active_item i w = None →
  Forall (λ o, (body cfg F o w).1 = Raise CONTENT_NOT_FOUND)
    [Like i u; Unlike i u; Comment new i u parent text; LikeComment i c u; UnlikeComment i c u; AddFavorite u i;
     RemoveFavorite u i; View u i; Forward i; Read i false; Delete i].
Proof.
  intros Hg. pose proof (lock_gone i w Hg) as Hl. pose proof (current_gone cfg F i w Hg) as Hc.
  repeat apply Forall_cons_2; [..|apply Forall_nil_2]; cbn [body]; unfold done_with.
  1: unfold like_item. 2: unfold unlike_item. 3: unfold create_comment. 4: unfold like_comment. 5: unfold unlike_comment.
  6: unfold add_favorite. 7: unfold remove_favorite. 8: unfold record_view. 9: unfold forward_item. 10: unfold get_item.
  11: unfold delete_item.
  all: rewrite ?bind_assoc; try (by rewrite (bind_err _ _ _ _ _ Hl)); try (by rewrite (bind_err _ _ _ _ _ Hc)).
  - by rewrite run_get_state, Hg.
  - by rewrite run_get_state, Hg.
  - autorewrite with run. destruct (f_cache F); [autorewrite with run; by rewrite Hg|].
    destruct (details w !! i); autorewrite with run; by rewrite Hg.
  - by rewrite run_get_state, Hg.
Qed.

(** What is deleted is gone. Deleting an item succeeds exactly if it is
    there; from then on, whatever requests follow, every request to it (reading,
    liking, commenting, forwarding, deleting ...) answers that there is no such
    item, no list contains it; at once no timeline contains it while all other
    entries stay, its snapshot has left the cache if Redis answers, an event
    tells the others, and its likes, comments and favourites are kept. *)
Theorem deletion_final (cfg : settings) (F : faults) (w w2 : world) (i : uuid)
  (trusted trusted2 : bool)
  (Hrun : rtc (step cfg) ((transaction true (delete_item cfg F i) w).2, trusted) (w2, trusted2)) :
  match transaction true (delete_item cfg F i) w with
  | (Ok author, w1) =>
      (∃ x, active_item i w = Some x ∧ author = author_id (data x))
      ∧ (∀ F' u new c parent text,
           Forall (λ o, (body cfg F' o w2).1 = Raise CONTENT_NOT_FOUND)
             [Like i u; Unlike i u; Comment new i u parent text; LikeComment i c u; UnlikeComment i c u; AddFavorite u i;
              RemoveFavorite u i; View u i; Forward i; Read i false; Delete i])
      ∧ (∀ b t u offset limit, i ∉ (list_published b t u offset limit (db w2)).*1)
      ∧ (∀ r, r ∈ Feed.feed_items (feed (db w1)) ↔ r ∈ Feed.feed_items (feed (db w)) ∧ Feed.item_id r.2 ≠ i)
      ∧ (f_cache F = false → details w1 !! i = None)
      ∧ (content_events_enabled cfg = true → outbox (db w1) = outbox (db w) ++ [ContentEvent i deleted])
      ∧ rows_kept w w1 ∧ pending w1 = pending w
  | (Raise e, w1) => e = CONTENT_NOT_FOUND ∧ active_item i w = None ∧ w1 = w
  end.
Proof.
  pose proof (transaction_wp _ _ _ _ (delete_item_wp cfg F i w)) as H.
  pose proof (delete_item_wp cfg F i w) as H'. unfold wp in H'. unfold transaction in *.
  destruct (delete_item cfg F i w) as [[author|e] w1].
  - destruct H as (Hx & Hg & Hf & Hd & He & Hk & Hp). cbn in Hrun. pose proof (stays_reach cfg i _ _ Hrun Hg) as Hg2.
    pose proof (gone_inactive i w2 Hg2) as Ha. split_and!; try done.
    + intros F' u new c parent text. by apply gone_answers.
    + intros b t u offset limit Hin. apply list_elem_of_fmap in Hin as ([j x] & -> & Hin). unfold list_published in Hin.
      apply elem_of_take in Hin as (n & Hn & _). rewrite lookup_drop in Hn. apply list_elem_of_lookup_2 in Hn.
      rewrite merge_sort_Permutation, list_elem_of_filter, elem_of_map_to_list in Hn. destruct Hn as [Hp' Hn]. cbn in Hp', Hn.
      destruct Hg2 as (y & Hy & Hdel). cbn in Hy. assert (y = x) as -> by congruence. unfold is_published in Hp'.
      rewrite bool_decide_eq_false_2 in Hp'; [done|]. by destruct Hdel as [? ->].
    + intros r. rewrite Hf. cbn. rewrite list_elem_of_filter, bool_decide_eq_false. tauto.
  - destruct H' as (-> & ? & ->). split_and!; [done..|]. by destruct w.
Qed.

(** *** Posting *)
Lemma on_forum_board k w (Q : Board → world → Prop) (R : err → world → Prop) :
  (∀ e, R e w) → (∀ b, Boards.boards (forum (db w)) !! k = Some b → Q b w) → wp (on_forum (get_board_ex k)) Q R w.
Proof.
  intros HR HQ. unfold on_forum. apply wp_zoom.
  assert (Hsame : set_forum (Boards.World (forum (db w)) (clock w)) w = w) by (by destruct w as [[]]).
  apply get_board_wp; [intros b Hb|intros Hb]; rewrite Hsame; auto.
Qed.

(** Who may post in a board. *)
Record may_post (b : uuid) (board : Board) (u : uuid) (w : world) : Prop := {
  board_found : Boards.boards (forum (db w)) !! b = Some board;
  board_active : b_status board = "active"%string;
  board_open : is_public board = true ∨ levels w !! u = Some "normal"%string ∨ levels w !! u = Some "admin"%string;
  not_banned k ban : Boards.bans (forum (db w)) !! k = Some ban → ban_board ban = b → ban_user_id ban = u → (expires_at ban ≤ clock w)%Z;
  is_certified : require_certified board = true → u ∈ certified w;
  quota_left : (0 < daily_post_limit board)%Z →
    (count_daily_discussions u b (today_start (clock w)) (db w) < daily_post_limit board)%Z
}.

Lemma check_post_wp b u w (Q : () → world → Prop) (R : err → world → Prop) :
  (∀ e, R e w) → (∀ board, may_post b board u w → Q tt w) → wp (check_post_allowed b u) Q R w.
Proof.
  intros HR HQ. unfold check_post_allowed. apply wp_bind, on_forum_board; [done|intros board Hb].
  apply wp_bind, wp_get_state, wp_bind, wp_raise_when; [done|intros H1%bool_decide_eq_false].
  apply wp_bind, wp_raise_when; [done|intros H2]. apply wp_bind, wp_raise_when; [done|intros H3].
  apply wp_bind, wp_raise_when; [done|intros H4]. apply wp_raise_when; [done|intros H5].
  apply (HQ board). split; [done|by apply dec_stable|..].
  - destruct (is_public board); [by left|]. right. cbn in H2. apply negb_false_iff, bool_decide_eq_true in H2. set_solver.
  - intros k ban Hk Hbb Hbu. pose proof (is_banned_false _ _ _ _ _ H3 Hk) as Hf. unfold is_active in Hf.
    apply bool_decide_eq_false in Hf. cbn in Hf. destruct (decide (expires_at ban ≤ clock w)%Z); [done|]. destruct Hf. split_and!; [done|done|lia].
  - intros Hr. rewrite Hr in H4. cbn in H4. by apply negb_false_iff, bool_decide_eq_true in H4.
  - intros Hl. rewrite bool_decide_eq_true_2 in H5 by done. cbn in H5. apply bool_decide_eq_false in H5. lia.
Qed.

Lemma today_start_le now : (today_start now ≤ now)%Z.
Proof. unfold today_start. pose proof (Z.mod_pos_bound now (86400 * 1000000)). lia. Qed.

Lemma slug_taken_none s d j y : slug_taken s d = false → items d !! j = Some y → slug (data y) ≠ Some s.
Proof.
  unfold slug_taken. intros Ht Hy He. assert (Hf : existsb (λ kx : uuid * ContentItem, has_slug s kx.2) (map_to_list (items d)) = true); [|congruence].
  apply (existsb_map (items d) (has_slug s)). exists j, y. split; [done|]. by apply bool_decide_eq_true.
Qed.

Definition fresh_item (x : ItemData) : ContentItem := MkItem x 0 0 (Counts 0 0 0) None None.

Lemma daily_count_new w d new x u b :
  items (db w) !! new = None → items d = <[new := fresh_item x]> (items (db w)) →
  (count_daily_discussions u b (today_start (clock w)) d ≤ count_daily_discussions u b (today_start (clock w)) (db w) + 1)%Z.
Proof.
  intros Hn Hi. unfold count_daily_discussions. rewrite Hi.
  etrans; [apply Z.eq_le_incl; exact (size_filter_map_insert (λ y, author_id (data y) = Some u ∧ board_id (data y) = b
    ∧ content_type (data y) = DISCUSSION ∧ (today_start (clock w) ≤ created_at (data y))%Z ∧ deleted_at y = None)
    (items (db w)) new (fresh_item x))|].
  rewrite Hn. case_decide; lia.
Qed.

(** A post that was accepted. *)
Definition accepted (cfg : settings) (new author : uuid) (info : ContentItemCreate) (w : world) (x : ItemData) (w1 : world) : Prop :=
  parse_type (i_content_type info) = Some (content_type x)
  ∧ items (db w) !! new = None ∧ items (db w1) = <[new := fresh_item x]> (items (db w))
  ∧ author_id x = Some author ∧ board_id x = i_board_id info ∧ title x = i_title info ∧ content x = i_content info
  ∧ status x = (if decide (content_type x = DISCUSSION) then PUBLISHED else i_status info)
  ∧ (content_type x ≠ ARTICLE → ∃ board, may_post (board_id x) board author w
       ∧ (0 < daily_post_limit board →
          count_daily_discussions author (board_id x) (today_start (clock w)) (db w1) ≤ daily_post_limit board)%Z)
  ∧ (content_type x = COLUMN_POST → ∃ c, column_id x = Some c ∧ c ∈ columns w)
  ∧ (∀ s j y, slug x = Some s → items (db w) !! j = Some y → slug (data y) ≠ Some s)
  ∧ outbox (db w1) = outbox (db w)
      ++ (if content_events_enabled cfg && bool_decide (status x = PUBLISHED) then [ContentEvent new published] else [])
      ++ [PointsEvent author "post" (item_ref new)].

Lemma create_item_wp cfg F new author info w :
  wp (create_item cfg F new author info) (accepted cfg new author info w) (λ _ _, True) w.
Proof.
  unfold create_item, insert_item. apply wp_bind, wp_get_or_raise; [done|intros t Ht]. apply wp_bind.
  eapply (wp_mono _ (λ _ w', w' = w ∧ (t ≠ ARTICLE → ∃ board, may_post (i_board_id info) board author w)) _ (λ _ _, True)); [| |done].
  { destruct (decide (t ∈ [DISCUSSION; COLUMN_POST; BLOG_POST; QA])) as [|Hn].
    - apply check_post_wp; [done|]. intros board Hb. split; [done|]. intros _. by exists board.
    - apply wp_ret. split; [done|]. intros Hna. destruct Hn. destruct t; set_solver. }
  intros [] w' [-> Hmay]. apply wp_bind, on_forum_board; [done|intros b Hb]. apply wp_bind, wp_get_state.
  apply wp_bind, wp_raise_when; [done|intros Hcol]. apply wp_bind, wp_raise_when; [done|intros _]. cbv zeta.
  apply wp_bind, wp_bind, wp_get_state, wp_bind, wp_raise_when; [done|].
  cbn [slug]. intros [Hnew%bool_decide_eq_false%eq_None_not_Some Hslug]%orb_false_iff. apply wp_modify.
  set (x := MkData t _ _ _ _ _ _ _ _ _ _ _ _ _ _).
  unfold enqueue_content_event, bump_collection_version. apply wp_bind.
  assert (Hq : ∀ d, items d = <[new := fresh_item x]> (items (db w)) → t ≠ ARTICLE → ∃ board, may_post (i_board_id info) board author w
     ∧ (0 < daily_post_limit board → count_daily_discussions author (i_board_id info) (today_start (clock w)) d ≤ daily_post_limit board)%Z).
  { intros d Hd Hna. destruct (Hmay Hna) as [board Hp]. exists board. split; [done|]. intros Hl.
    pose proof (quota_left _ _ _ _ Hp Hl). pose proof (daily_count_new w d new x author (i_board_id info) Hnew Hd). lia. }
  assert (Hc : t = COLUMN_POST → ∃ c, column_id x = Some c ∧ c ∈ columns w).
  { intros ->. cbn in Hcol |- *. rewrite bool_decide_eq_true_2 in Hcol by done. cbn in Hcol. destruct (i_column_id info) as [c|]; [|done].
    apply negb_false_iff, bool_decide_eq_true in Hcol. rewrite decide_True by done. by exists c. }
  assert (Hs : ∀ s j y, slug x = Some s → items (db w) !! j = Some y → slug (data y) ≠ Some s).
  { intros s j y Hsx Hy. cbn in Hsx. rewrite Hsx in Hslug. by apply (slug_taken_none s (db w) j). }
  destruct (content_events_enabled cfg) eqn:Hev; cbn [negb]; [destruct (decide (status x = PUBLISHED)) as [Hst|Hst]|];
    destruct (f_cache F); repeat first [apply wp_bind | apply wp_modify | apply wp_ret]; unfold accepted; rewrite Hev; cbn [andb];
    rewrite ?(bool_decide_eq_true_2 _ Hst), ?(bool_decide_eq_false_2 _ Hst); split_and!; try done;
    try (intros Hna; by apply Hq); cbn; by rewrite <- ?app_assoc.
Qed.

(** Only who may posts, and what is posted is what was asked. A post that is
    accepted (articles are submitted elsewhere) is in a board that exists and is
    active; its author may write there, is not banned there by any ban that runs,
    is certified if the board asks for it, and has with it posted no more
    discussions there today than the board allows; a post of a column is in a
    column that exists; slugs stay unique. It is a new item with counters at
    zero, published at once if it is a discussion; its author's points and, if it
    is published, its timelines are told. A post that is refused leaves the
    database as it was. *)
Theorem posts_admitted (cfg : settings) (F : faults) (new author : uuid) (info : ContentItemCreate) (w : world) :
  match transaction true (create_item cfg F new author info) w with
  | (Ok x, w1) => accepted cfg new author info w x w1
  | (Raise e, w1) => db w1 = db w
  end.
Proof.
  pose proof (transaction_wp _ _ _ _ (create_item_wp cfg F new author info w)) as Ht.
  destruct (transaction true _ w) as [[x|e] w1]; [exact Ht|]. by destruct Ht as (? & _ & ?).
Qed.

(** ** Witnesses *)
Definition ada : uuid := uuid_of_N 1.
Definition bob : uuid := uuid_of_N 2.
Definition talk : uuid := uuid_of_N 3.
Definition post_1 : uuid := uuid_of_N 4.
Definition comment_1 : uuid := uuid_of_N 5.
Definition comment_2 : uuid := uuid_of_N 6.

Definition a_forum : Boards.tables :=
  Boards.Tables {[talk := MkBoard "talk" "Talk" "" None None "active" false 3 true 1]} ∅ ∅ [].

Definition no_feed : Feed.tables := Feed.Tables (λ _, []) [] [] [] ∅.

Definition opening : world :=
  World (Tables ∅ ∅ ∅ ∅ ∅ ∅ [] a_forum no_feed) ∅ ∅ 0 ∅ ∅ ∅ ∅ 0 1000.

Lemma opening_blank : blank opening.
Proof. done. Qed.

Definition held_back_cfg : settings := Settings false true.

Definition run (cfg : settings) (w : world) (o : op) : world := (transaction true (body cfg no_faults o) w).2.

Definition smooth (cfg : settings) (w : world) (o : op) : bool :=
  match (body cfg no_faults o w).1 with Ok _ => true | Raise _ => false end.

Fixpoint smooth_all (cfg : settings) (w : world) (os : list op) : bool :=
  match os with [] => true | o :: os => smooth cfg w o && smooth_all cfg (run cfg w o) os end.

Lemma content_run_reaches cfg os w : smooth_all cfg w os = true → rtc (step cfg) (w, true) (foldl (run cfg) w os, true).
Proof.
  revert w. induction os as [|o os IH]; intros w Hs; [done|]. cbn in Hs. apply andb_true_iff in Hs as [Ho Hs].
  eapply rtc_l; [|by apply IH]. assert (Hd : true && dependable cfg no_faults true o w = true).
  { unfold dependable, smooth in *. destruct (body cfg no_faults o w) as [[] ?]; [|done]. cbn. by rewrite !orb_true_r. }
  rewrite <- Hd at 2. apply step_op.
Qed.

Definition a_post : ContentItemCreate :=
  MkContentCreate "discussion" talk "Hello" "world" None None None None None DRAFT false false.

Definition an_afternoon : list op :=
  [Post post_1 ada a_post; Like post_1 bob; Like post_1 ada; Comment comment_1 post_1 bob None "first"; Unlike post_1 ada;
   AddFavorite bob post_1; Comment comment_2 post_1 ada (Some comment_1) "thanks"; LikeComment post_1 comment_1 ada; Flush;
   DeleteComment post_1 comment_2; Like post_1 ada].

Definition evening : world := foldl (run held_back_cfg) opening an_afternoon.

Lemma evening_reached : rtc (step held_back_cfg) (opening, true) (evening, true).
Proof. apply content_run_reaches. vm_compute. reflexivity. Qed.

Lemma counters_exact_witness :
  counted <$> items (db evening) !! post_1 = Some (Counts 1 2 1)
  ∧ pend (pending evening) like_count post_1 = 1%Z ∧ pend (pending evening) comment_count post_1 = (-1)%Z
  ∧ real_counts (db evening) post_1 = Counts 2 1 1.
Proof.
  assert (Hx : counted <$> items (db evening) !! post_1 = Some (Counts 1 2 1)) by (vm_compute; reflexivity).
  split; [exact Hx|]. split; [vm_compute; reflexivity|]. split; [vm_compute; reflexivity|].
  pose proof (proj1 (proj2 (counters_exact held_back_cfg opening evening true opening_blank evening_reached)) eq_refl) as Hc.
  destruct (items (db evening) !! post_1) as [x|] eqn:Hi; [|discriminate]. injection Hx as Hx.
  pose proof (proj1 (Hc post_1 x like_count Hi)) as H1. pose proof (proj1 (Hc post_1 x comment_count Hi)) as H2.
  pose proof (proj1 (Hc post_1 x bookmark_count Hi)) as H3. rewrite Hx in H1, H2, H3.
  assert (pending evening !! (like_count, post_1) = Some 1%Z) as E1 by (vm_compute; reflexivity).
  assert (pending evening !! (comment_count, post_1) = Some (-1)%Z) as E2 by (vm_compute; reflexivity).
  assert (pending evening !! (bookmark_count, post_1) = None) as E3 by (vm_compute; reflexivity).
  rewrite E1 in H1. rewrite E2 in H2. rewrite E3 in H3. cbn [default get_count n_like n_comment n_bookmark] in H1, H2, H3.
  destruct (real_counts (db evening) post_1) as [a b c]. cbn in H1, H2, H3. f_equal; lia.
Defined.

Lemma floors_gapless_witness :
  ∃ c x, comments (db evening) !! c = Some x ∧ cm_content_id x = post_1 ∧ floor_number x = 2%Z.
Proof.
  apply (proj1 (floors_gapless held_back_cfg opening evening true opening_blank evening_reached) post_1 2%Z). vm_compute. by split.
Defined.

Lemma reactions_truthful_witness :
  truthful likes true post_1 ada evening (transaction true (like_item held_back_cfg no_faults post_1 ada) evening)
  ∧ (transaction true (like_item held_back_cfg no_faults post_1 ada) evening).1 = Ok 2%Z.
Proof.
  split; [|vm_compute; reflexivity].
  apply (proj1 (reactions_truthful held_back_cfg no_faults opening evening post_1 ada opening_blank evening_reached (or_intror (conj eq_refl eq_refl)))).
Defined.

(** Counters that were spoilt, and are repaired. *)
Definition spoilt : world :=
  set_pending (λ _, ∅) (set_items (alter (with_counts (Counts 40 0 7)) post_1) evening).

Lemma reconcile_repairs_witness :
  (reconcile_counts no_faults 500 false spoilt).1 = Ok (1, 1)
  ∧ (reconcile_counts no_faults 500 false (reconcile_counts no_faults 1 false spoilt).2).1 = Ok (1, 0).
Proof.
  assert (Hn : ∀ i, is_Some (items (db spoilt) !! i) → uuid_int i ≠ 0%N).
  { assert (Hd : forallb (λ kx, bool_decide (uuid_int kx.1 ≠ 0%N)) (map_to_list (items (db spoilt))) = true) by (vm_compute; reflexivity).
    intros i [x Hx]. rewrite List.forallb_forall in Hd. apply elem_of_map_to_list, list_elem_of_In, Hd in Hx.
    by apply bool_decide_eq_true in Hx. }
  split; [vm_compute; reflexivity|].
  pose proof (reconcile_repairs no_faults 1 spoilt ltac:(lia) Hn) as H.
  destruct (reconcile_counts no_faults 1 false spoilt) as [r w1]. cbn [snd].
  destruct H as (_ & _ & _ & _ & _ & _ & _ & _ & H). rewrite (H 500) by lia. vm_compute. reflexivity.
Defined.

Lemma evening_deletes :
  match (transaction true (delete_item held_back_cfg no_faults post_1) evening).1 with Ok _ => true | Raise _ => false end = true.
Proof. vm_compute. reflexivity. Qed.

#[local] Opaque evening.

Lemma deletion_final_witness :
  (body held_back_cfg no_faults (Like post_1 bob) (transaction true (delete_item held_back_cfg no_faults post_1) evening).2).1
  = Raise CONTENT_NOT_FOUND.
Proof.
  pose proof (deletion_final held_back_cfg no_faults evening _ post_1 true true (rtc_refl _ _)) as H.
  pose proof evening_deletes as Hok.
  destruct (transaction true (delete_item held_back_cfg no_faults post_1) evening) as [r w1]. cbn [fst snd] in *. destruct r as [a|]; [|done].
  destruct H as (_ & H & _). specialize (H no_faults bob comment_1 comment_1 None ""%string). by apply Forall_cons in H as [H _].
Defined.

#[local] Transparent evening.

(** *** What goes wrong *)
Definition direct : settings := Settings true true.
Definition like_of (w : world) : option (Z * Z) :=
  (λ x, (n_like (counted x), n_like (real_counts (db w) post_1))) <$> items (db w) !! post_1.
Definition comments_counted (w : world) : option (Z * Z) :=
  (λ x, (n_comment (counted x), n_comment (real_counts (db w) post_1))) <$> items (db w) !! post_1.

(** Before the deletion; nothing is held back. *)
Definition noon : world := foldl (run held_back_cfg) opening (take 9 an_afternoon).

(** Two deletions of a comment may both have found it: its item then counts one
    comment too few, until it is reconciled. *)
Lemma deleted_twice :
  let twice := (w ← (write_comment_deletion direct no_faults post_1 comment_1); write_comment_deletion direct no_faults post_1 comment_1) in
  comments_counted noon = Some (2, 2)%Z ∧ smooth direct noon (DeleteComment post_1 comment_1) = true
  ∧ comments_counted (twice noon).2 = Some (0, 1)%Z.
Proof. vm_compute. done. Qed.

(** The reconciliation writes what it has read: a like in between is lost to the
    counter, and the item is marked as right. *)
Lemma stale_repair :
  let read := set_items (alter (with_counts (Counts 9 2 1)) post_1) noon in
  let liked := run direct read (Like post_1 ada) in
  let repaired := (reconcile_window no_faults (db read) (reconcile_rows false 0 (db read)) (Progress 0 ∅ ∅) liked).2 in
  like_of read = Some (9, 1)%Z ∧ like_of repaired = Some (1, 2)%Z ∧ like_of (run direct repaired (Reconcile true)) = Some (1, 2)%Z.
Proof. vm_compute. done. Qed.

(** A Redis that does not answer holds nothing back: the item is repaired, and what
    was held back is counted again. *)
Lemma counted_again :
  let repaired := (reconcile_counts (Faults false true None false) 500 false evening).2 in
  like_of evening = Some (1, 2)%Z ∧ like_of repaired = Some (2, 2)%Z ∧ like_of (run held_back_cfg repaired Flush) = Some (3, 2)%Z.
Proof. vm_compute. done. Qed.

(** A blog post with the slug of an item of somebody else rewrites that item,
    under its author's name. *)
Definition an_article : ContentItemCreate :=
  MkContentCreate "article" talk "Groups" "An introduction" None None (Some "groups"%string) None None PUBLISHED false false.
Definition overwriting : op := PublishBlog post_1 bob talk (Some "groups"%string) "Spam" "Buy this" None None.

Lemma blog_overwrites :
  let w1 := run direct opening (Post comment_1 ada an_article) in
  let w2 := run direct w1 overwriting in
  (λ x, (content (data x), bool_decide (author_id (data x) = Some ada))) <$> items (db w1) !! comment_1 = Some ("An introduction"%string, true)
  ∧ (λ x, (content (data x), bool_decide (author_id (data x) = Some ada))) <$> items (db w2) !! comment_1 = Some ("Buy this"%string, true).
Proof. vm_compute. done. Qed.

(** The slug of a deleted item cannot be used again. *)
Lemma slug_blocked :
  let w1 := run direct (run direct opening (Post comment_1 ada an_article)) (Delete comment_1) in
  smooth direct opening overwriting = true ∧ (body direct no_faults overwriting w1).1 = Raise IntegrityError.
Proof. vm_compute. done. Qed.
