(* ===== verification/Follow.v ===== *)
(** * Following

    Model of the following of users and boards in [app/modules/interaction]
    (service and repository): the rows with their tombstones, the cached lists,
    and what following and unfollowing write into and take out of the timelines
    of Fanout. Redis may answer any call or not. Theorems: a timeline holds only
    what its reader follows, each entry once; what following fills in and
    unfollowing takes away. *)

From S2P Require Import Prelude Feed Fanout.

(** ** Tables *)
(** A row of [user_follows] or [board_follows] by its pair: [deleted_at]. *)
Abbreviation rows := (gmap (uuid * uuid) (option Z)).

Record tables := Tables {
  user_rows : rows;                             (* follower, followed user *)
  board_rows : rows;                            (* follower, board *)
  titles : gmap uuid string;                    (* the boards *)
  published : string → list FeedItem;
  entries : list (uuid * FeedItem);             (* feed_items *)
  marks : gmap string (Z * option uuid)         (* fanout_state *)
}.

Record world := World {
  db : tables;
  users : gmap uuid (string * option string);   (* the account service: display name, avatar *)
  following : gmap uuid (list uuid);            (* Redis: whom a user follows *)
  followed_boards : gmap uuid (list uuid);      (* Redis: which boards *)
  clock : Z
}.

Abbreviation M := (prog world err).

Record settings := Settings { fanout : Feed.settings; feed_backfill_limit : nat }.

Definition set_db (f : tables → tables) (w : world) : world :=
  World (f (db w)) (users w) (following w) (followed_boards w) (clock w).
Definition set_user_rows (f : rows → rows) : world → world :=
  set_db (λ d, Tables (f (user_rows d)) (board_rows d) (titles d) (published d) (entries d) (marks d)).
Definition set_board_rows (f : rows → rows) : world → world :=
  set_db (λ d, Tables (user_rows d) (f (board_rows d)) (titles d) (published d) (entries d) (marks d)).
Definition set_caches (f g : gmap uuid (list uuid) → gmap uuid (list uuid)) (w : world) : world :=
  World (db w) (users w) (f (following w)) (g (followed_boards w)) (clock w).

(** [get_session]; caches are not rolled back. *)
Definition transaction {A} (commits : bool) (m : M A) : M A := λ w,
  match m w with
  | (Ok a, w') => if commits then (Ok a, w') else (Raise RuntimeError, set_db (λ _, db w) w')
  | (Raise e, w') => (Raise e, set_db (λ _, db w) w')
  end.

(** The rows that are not deleted. *)
Definition active (m : rows) : list (uuid * uuid) := (map_to_list (filter (λ kv, kv.2 = None) m)).*1.

(** What the timelines read. *)
Definition timeline (d : tables) : Feed.tables :=
  Feed.Tables (published d) (active (user_rows d)) (active (board_rows d)) (entries d) (marks d).

Definition on_timeline (f : Feed.tables → Feed.tables) : world → world :=
  set_db (λ d, let t := f (timeline d) in
    Tables (user_rows d) (board_rows d) (titles d) (published d) (Feed.feed_items t) (Feed.fanout_state t)).

Section follow.
Context (cfg : settings).

(** ** Repositories *)
(** Is the relation new, or alive again? *)
Definition repo_follow (k : uuid * uuid) (m : rows) : bool * rows :=
  match m !! k with
  | None => (true, <[k := None]> m)
  | Some (Some _) => (true, <[k := None]> m)
  | Some None => (false, m)
  end.

Definition repo_unfollow (now : Z) (k : uuid * uuid) (m : rows) : bool * rows :=
  match m !! k with
  | Some None => (true, <[k := Some now]> m)
  | _ => (false, m)
  end.

Definition targets_of (u : uuid) (m : rows) : list uuid := snd <$> filter (λ k, k.1 = u) (active m).

(** At most [limit] of them. *)
Definition followers_of (target : uuid) (limit : option nat) (m : rows) : list uuid :=
  let all := fst <$> filter (λ k, k.2 = target) (active m) in
  match limit with Some n => take n all | None => all end.

Definition is_following_user (follower target : uuid) (w : world) : bool :=
  bool_decide (user_rows (db w) !! (follower, target) = Some None).

(** ** The cached lists; [down]: Redis does not answer *)
Definition _invalidate_follow_cache (down : bool) (u : uuid) : M () :=
  if down then mret tt else modify (set_caches (delete u) (delete u)).

Definition get_following_ids (down : bool) (u : uuid) : M (list uuid) :=
  w ← get_state;
  let ids := targets_of u (user_rows (db w)) in
  if down then mret ids else
  match following w !! u with
  | Some ids => mret ids
  | None => modify (set_caches <[u := ids]> id) ≫= λ _, mret ids
  end.

Definition get_followed_board_ids (down : bool) (u : uuid) : M (list uuid) :=
  w ← get_state;
  let ids := targets_of u (board_rows (db w)) in
  if down then mret ids else
  match followed_boards w !! u with
  | Some ids => mret ids
  | None => modify (set_caches id <[u := ids]>) ≫= λ _, mret ids
  end.

(** ** Following and unfollowing

    Each call of Redis is answered or not on its own: [down] for the reading of a
    list, [lost] for its invalidation. *)
Definition follow_user (lost : bool) (follower target : uuid) : M () :=
  raise_when (bool_decide (follower = target)) CANNOT_FOLLOW_SELF ≫= λ _,
  w ← get_state;
  raise_when (bool_decide (users w !! target = None)) TARGET_NOT_FOUND ≫= λ _,
  let '(created, m) := repo_follow (follower, target) (user_rows (db w)) in
  modify (set_user_rows (λ _, m)) ≫= λ _,
  (if created && bool_decide (0 < feed_backfill_limit cfg) then
     modify (on_timeline (λ t, (backfill_author (fanout cfg) follower target (feed_backfill_limit cfg) t).1))
   else mret tt) ≫= λ _,
  _invalidate_follow_cache lost follower.

Definition unfollow_user (down lost : bool) (follower target : uuid) : M () :=
  raise_when (bool_decide (follower = target)) CANNOT_FOLLOW_SELF ≫= λ _,
  w ← get_state;
  let '(changed, m) := repo_unfollow (clock w) (follower, target) (user_rows (db w)) in
  modify (set_user_rows (λ _, m)) ≫= λ _,
  if changed then
    keep ← get_followed_board_ids down follower;
    modify (on_timeline (λ t, (remove_author_items follower target (list_to_set keep) t).1)) ≫= λ _,
    _invalidate_follow_cache lost follower
  else mret tt.

Definition follow_board (lost : bool) (follower board : uuid) : M () :=
  w ← get_state;
  raise_when (bool_decide (titles (db w) !! board = None)) TARGET_NOT_FOUND ≫= λ _,
  let '(created, m) := repo_follow (follower, board) (board_rows (db w)) in
  modify (set_board_rows (λ _, m)) ≫= λ _,
  (if created && bool_decide (0 < feed_backfill_limit cfg) then
     modify (on_timeline (λ t, (backfill_board follower board (feed_backfill_limit cfg) t).1))
   else mret tt) ≫= λ _,
  _invalidate_follow_cache lost follower.

Definition unfollow_board (down lost : bool) (follower board : uuid) : M () :=
  w ← get_state;
  let '(changed, m) := repo_unfollow (clock w) (follower, board) (board_rows (db w)) in
  modify (set_board_rows (λ _, m)) ≫= λ _,
  if changed then
    keep ← get_following_ids down follower;
    modify (on_timeline (λ t, (remove_board_items follower board (list_to_set keep) t).1)) ≫= λ _,
    _invalidate_follow_cache lost follower
  else mret tt.

(** ** Lists *)
Definition list_following_users (down : bool) (u : uuid) : M (list (uuid * string * option string)) :=
  ids ← get_following_ids down u;
  w ← get_state;
  mret ((λ i, match users w !! i with Some (n, a) => (i, n, a) | None => (i, uuid_str i, None) end) <$> ids).

Definition list_followed_boards (down : bool) (u : uuid) : M (list (uuid * string)) :=
  ids ← get_followed_board_ids down u;
  w ← get_state;
  mret ((λ i, (i, default ""%string (titles (db w) !! i))) <$> ids).

(** ** Requests in sequence *)
Inductive op :=
  | FollowUser (follower target : uuid)
  | UnfollowUser (follower target : uuid)
  | FollowBoard (follower board : uuid)
  | UnfollowBoard (follower board : uuid)
  | ListUsers (u : uuid)
  | ListBoards (u : uuid)
  | Fanout (limit : nat)
  | SourceDeleted (i : uuid).

Definition done_with {A} (m : M A) : M () := _ ← m; mret tt.

Definition body (down lost : bool) (o : op) : M () :=
  match o with
  | FollowUser u t => follow_user lost u t
  | UnfollowUser u t => unfollow_user down lost u t
  | FollowBoard u b => follow_board lost u b
  | UnfollowBoard u b => unfollow_board down lost u b
  | ListUsers u => done_with (list_following_users down u)
  | ListBoards u => done_with (list_followed_boards down u)
  | Fanout limit => modify (λ w, on_timeline (λ t, (fanout_batch (fanout cfg) (clock w) limit t).1) w)
  | SourceDeleted i => modify (on_timeline (λ t, (remove_source_item i t).1))
  end.

(** Users with a list in Redis that may be out of date, because an invalidation
    was not answered; and users from whose timeline too little may have been taken
    out, because such a list said what they still follow. *)
Record doubts := Doubts { stale : gset uuid; tainted : gset uuid }.

Definition hurt (lost : bool) (u : uuid) (S : gset uuid) : gset uuid := if lost then {[ u ]} ∪ S else S.

Definition doubts_after (down lost : bool) (o : op) (D : doubts) : doubts :=
  match o with
  | FollowUser u _ | FollowBoard u _ => Doubts (hurt lost u (stale D)) (tainted D)
  | UnfollowUser u _ | UnfollowBoard u _ =>
      Doubts (hurt lost u (stale D)) (hurt (negb down && bool_decide (u ∈ stale D)) u (tainted D))
  | _ => D
  end.

(** What is published, who exists, and what Redis forgets. *)
Definition elsewhere (w w' : world) : Prop :=
  user_rows (db w') = user_rows (db w) ∧ board_rows (db w') = board_rows (db w) ∧ entries (db w') = entries (db w)
  ∧ following w' ⊆ following w ∧ followed_boards w' ⊆ followed_boards w.

(** A request, with Redis answering or not and its transaction committing or not;
    changes elsewhere; and the lists of a user that run out in Redis. *)
Inductive step : world * doubts → world * doubts → Prop :=
  | step_op down lost o commits w D :
      step (w, D) ((transaction commits (body down lost o) w).2, doubts_after down lost o D)
  | step_elsewhere w w' D : elsewhere w w' → step (w, D) (w', D)
  | step_expire u w D : step (w, D) (set_caches (delete u) (delete u) w, Doubts (stale D ∖ {[ u ]}) (tainted D)).
End follow.

(** ** Rows and lists *)
Lemma elem_of_active m k : k ∈ active m ↔ m !! k = Some None.
Proof.
  unfold active. rewrite list_elem_of_fmap. split.
  - intros ([k' v] & -> & Hin). apply elem_of_map_to_list, map_lookup_filter_Some in Hin as [Hk Hv]. cbn in *. by subst.
  - intros Hk. exists (k, None). split; [done|]. by apply elem_of_map_to_list, map_lookup_filter_Some.
Qed.

Lemma elem_of_targets u m t : t ∈ targets_of u m ↔ m !! (u, t) = Some None.
Proof.
  unfold targets_of. rewrite list_elem_of_fmap, <- elem_of_active. split.
  - intros ([a b] & -> & [Ha Hin]%list_elem_of_filter). cbn in *. by subst.
  - intros Hin. exists (u, t). split; [done|]. by apply list_elem_of_filter.
Qed.

Lemma repo_follow_spec k m : let '(created, m') := repo_follow k m in
  (created = true ↔ m !! k ≠ Some None) ∧ m' !! k = Some None ∧ (∀ j, j ≠ k → m' !! j = m !! j) ∧ (created = false → m' = m).
Proof.
  unfold repo_follow. destruct (m !! k) as [[t|]|] eqn:Hk; (split; [by split; [intros; congruence|]|]);
    (split; [by rewrite ?lookup_insert_eq|]); (split; [|done]); intros j Hj; by rewrite ?lookup_insert_ne by done.
Qed.

Lemma repo_unfollow_spec now k m : let '(changed, m') := repo_unfollow now k m in
  (changed = true ↔ m !! k = Some None) ∧ m' !! k ≠ Some None ∧ (∀ j, j ≠ k → m' !! j = m !! j) ∧ (changed = false → m' = m).
Proof.
  unfold repo_unfollow. destruct (m !! k) as [[t|]|] eqn:Hk; (split; [by split; [intros; congruence|]|]);
    (split; [rewrite ?lookup_insert_eq; congruence|]); (split; [|done]); intros j Hj; by rewrite ?lookup_insert_ne by done.
Qed.

(** ** What the timelines gain and lose *)
Definition key (r : uuid * FeedItem) : uuid * (string * uuid) := (r.1, item_key r.2).

Definition keyed (l : list (uuid * FeedItem)) : Prop := NoDup (key <$> l).

Lemma key_same r r' : same_row r r' ↔ key r = key r'.
Proof. unfold same_row, key. split; [by intros [-> ->]|]. intros He. exact (conj (f_equal fst He) (f_equal snd He)). Qed.

(** Entries are only added, and only such as [P]. *)
Record gains (P : uuid * FeedItem → Prop) (t t' : Feed.tables) : Prop := {
  gains_published : Feed.published t' = Feed.published t;
  gains_users : user_follows t' = user_follows t;
  gains_boards : board_follows t' = board_follows t;
  gains_kept r : r ∈ feed_items t → r ∈ feed_items t';
  gains_only r : r ∈ feed_items t' → r ∈ feed_items t ∨ P r;
  gains_keyed : keyed (feed_items t) → keyed (feed_items t')
}.

#[export] Instance gains_preorder P : PreOrder (gains P).
Proof.
  split; [by intros t; split; auto|]. intros t1 t2 t3 [P1 U1 B1 K1 O1 N1] [P2 U2 B2 K2 O2 N2].
  split; [congruence..|auto| |auto]. intros r Hr. destruct (O2 r Hr); auto.
Qed.

Lemma gains_insert (P : uuid * FeedItem → Prop) values t : (∀ r, r ∈ values → P r) → gains P t (insert_values values t).
Proof.
  intros HP. destruct (insert_rows_spec values (feed_items t)) as (K & O & _). split; try done.
  - intros r Hr. destruct (O r Hr); auto.
  - clear. cbn. revert t. induction values as [|v values IH]; intros t Hk; cbn; [done|].
    apply (IH (set_rows (λ rows, insert_row rows v) t)). cbn. unfold insert_row. destruct (decide _) as [|Hn]; [done|].
    unfold keyed. rewrite fmap_app. apply NoDup_app. split; [done|]. split; [|apply NoDup_singleton].
    intros k Hk1 Hk2. apply list_elem_of_singleton in Hk2 as ->. apply Hn, Exists_exists.
    apply list_elem_of_fmap in Hk1 as (r & Hr & Hin). exists r. split; [done|]. by apply key_same.
Qed.

(** Whose entry it may be. *)
Definition followed (t : Feed.tables) (r : uuid * FeedItem) : Prop :=
  (∃ a, author_id r.2 = Some a ∧ (r.1, a) ∈ user_follows t) ∨ (∃ b, board_id r.2 = Some b ∧ (r.1, b) ∈ board_follows t).

Lemma gains_fanout_item cfg t0 it t :
  user_follows t = user_follows t0 → board_follows t = board_follows t0 → gains (followed t0) t (_fanout_item cfg it t).
Proof.
  intros Hu Hb. unfold _fanout_item. destruct (author_id it) as [a|] eqn:Ha, (board_id it) as [b|] eqn:Hbo; cbn [_audience]; [| | |done].
  all: apply gains_insert; intros r Hr; apply list_elem_of_fmap in Hr as (u & -> & Hin); unfold followed; cbn [fst snd];
    rewrite merge_sort_Permutation, elem_of_elements, elem_of_union, !elem_of_list_to_set in Hin;
    rewrite ?capped_audience, ?Hu, ?Hb in Hin; rewrite Ha, Hbo.
  - destruct Hin as [[? _]|[? _]]; [left|right]; eauto.
  - destruct Hin as [[? _]|Hin]; [left; eauto|]. destruct (decide _); by apply elem_of_nil in Hin.
  - destruct Hin as [Hin|[? _]]; [|right; eauto]. destruct (decide _); by apply elem_of_nil in Hin.
Qed.

Lemma gains_fanout_items cfg t0 its t :
  user_follows t = user_follows t0 → board_follows t = board_follows t0 → gains (followed t0) t (foldl (flip (_fanout_item cfg)) t its).
Proof.
  revert t. induction its as [|it its IH]; intros t Hu Hb; cbn [foldl]; [done|].
  pose proof (gains_fanout_item cfg t0 it t Hu Hb) as G. etrans; [exact G|].
  apply IH; [etrans; [apply (gains_users _ _ _ G)|done]|etrans; [apply (gains_boards _ _ _ G)|done]].
Qed.

Lemma gains_batch cfg now limit t : gains (followed t) t (fanout_batch cfg now limit t).1.
Proof.
  unfold fanout_batch. assert (H : ∀ names acc, gains (followed t) t acc.1 →
    gains (followed t) t (foldl (λ acc name, let '(d, n) := fanout_source cfg now limit name acc.1 in (d, acc.2 + n)) acc names).1); [|by apply H].
  induction names as [|name names IH]; intros [t1 n] G; cbn [foldl]; [done|]. apply IH. cbn [fst snd] in *.
  unfold fanout_source. set (t2 := set_state _ _ t1). assert (G2 : gains (followed t) t t2) by (etrans; [exact G|split; try done; by left]).
  destruct (last _) as [lst|]; cbn [fst]; [|done].
  etrans; [exact G2|]. etrans; [apply (gains_fanout_items cfg t); [apply (gains_users _ _ _ G2)|apply (gains_boards _ _ _ G2)]|split; try done; by left].
Qed.

Lemma gains_backfill_author cfg u a limit t :
  gains (λ r, r.1 = u ∧ author_id r.2 = Some a) t (backfill_author cfg u a limit t).1.
Proof.
  unfold backfill_author. destruct (decide _); [done|]. apply gains_insert. intros r Hr.
  apply list_elem_of_bind in Hr as (name & Hr & Hname). apply list_elem_of_fmap in Hr as (it & -> & Hit). cbn. split; [done|].
  unfold fetch_source in Hit. apply elem_of_take in Hit as (pos & Hn & _). apply list_elem_of_lookup_2 in Hn.
  unfold newest_first in Hn. rewrite merge_sort_Permutation, list_elem_of_filter in Hn. destruct Hn as [Hc _].
  apply Is_true_true, andb_true_iff in Hc as [Hc _]. unfold audience_conditions in Hc.
  destruct (decide (name = "article"%string)) as [->|]; [vm_compute in Hname; set_solver|].
  assert (Ha : is_author {[a]} it = true).
  { destruct (decide (name = "discussion"%string)); [|done]. apply orb_true_iff in Hc as [|Hc]; [done|].
    unfold on_board in Hc. destruct (board_id it); [|done]. by apply bool_decide_eq_true in Hc. }
  unfold is_author in Ha. destruct (author_id it) as [x|]; [|done]. apply bool_decide_eq_true, elem_of_singleton in Ha as ->. done.
Qed.

Lemma gains_backfill_board u b limit t : gains (λ r, r.1 = u ∧ board_id r.2 = Some b) t (backfill_board u b limit t).1.
Proof.
  unfold backfill_board. apply gains_insert. intros r Hr. apply list_elem_of_fmap in Hr as (it & -> & Hit). cbn. split; [done|].
  unfold fetch_source in Hit. apply elem_of_take in Hit as (pos & Hn & _). apply list_elem_of_lookup_2 in Hn.
  unfold newest_first in Hn. rewrite merge_sort_Permutation, list_elem_of_filter in Hn. destruct Hn as [Hc _].
  apply Is_true_true, andb_true_iff in Hc as [Hc _]. unfold audience_conditions in Hc. cbn in Hc.
  apply orb_true_iff in Hc as [Hc|Hc]; [unfold is_author in Hc; by destruct (author_id it); [apply bool_decide_eq_true in Hc|]|].
  unfold on_board in Hc. destruct (board_id it) as [x|]; [|done]. apply bool_decide_eq_true, elem_of_singleton in Hc as ->. done.
Qed.

(** ** What holds between requests *)
Definition wants (d : tables) (u : uuid) (it : FeedItem) : Prop :=
  (∃ a, author_id it = Some a ∧ user_rows d !! (u, a) = Some None) ∨ (∃ b, board_id it = Some b ∧ board_rows d !! (u, b) = Some None).

Record tidy (X : gset uuid) (d : tables) : Prop := {
  wanted r : r ∈ entries d → r.1 ∉ X → wants d r.1 r.2;
  once : keyed (entries d);
  no_self u t x : user_rows d !! (u, t) = Some x → u ≠ t
}.

(** The cached lists are those of [d], but for the users in [S]. *)
Record fresh (S : gset uuid) (d : tables) (w : world) : Prop := {
  fresh_users u l : u ∉ S → following w !! u = Some l → ∀ t, t ∈ l ↔ user_rows d !! (u, t) = Some None;
  fresh_boards u l : u ∉ S → followed_boards w !! u = Some l → ∀ t, t ∈ l ↔ board_rows d !! (u, t) = Some None
}.

Lemma followed_wants d r : followed (timeline d) r ↔ wants d r.1 r.2.
Proof. unfold followed, wants. cbn. by setoid_rewrite elem_of_active. Qed.

Lemma fresh_same S d d' w : user_rows d' = user_rows d → board_rows d' = board_rows d → fresh S d w → fresh S d' w.
Proof. intros E1 E2 [F1 F2]. split; rewrite ?E1, ?E2; done. Qed.

Lemma fresh_hurt lost u S d w : fresh S d w → fresh (hurt lost u S) d w.
Proof. intros [F1 F2]. unfold hurt. destruct lost; split; intros v l Hv; (apply F1 || apply F2); set_solver. Qed.

Lemma tidy_hurt c u X d : tidy X d → tidy (hurt c u X) d.
Proof. intros [W O N]. split; [|done..]. intros r Hr Hx. apply W; [done|]. unfold hurt in Hx. destruct c; set_solver. Qed.

(** Forgetting a user, whose rows alone have changed, or failing to. *)
Definition forgotten (lost : bool) (u : uuid) (w : world) : world := if lost then w else set_caches (delete u) (delete u) w.

Lemma fresh_forget lost S d d' u w :
  (∀ v t, v ≠ u → user_rows d' !! (v, t) = user_rows d !! (v, t)) →
  (∀ v t, v ≠ u → board_rows d' !! (v, t) = board_rows d !! (v, t)) →
  fresh S d w → fresh (hurt lost u S) d' (forgotten lost u w).
Proof.
  intros E1 E2 [F1 F2]. unfold hurt, forgotten. destruct lost; split; cbn; intros v l Hs Hl t.
  - rewrite E1 by set_solver. apply (F1 v); [set_solver|done].
  - rewrite E2 by set_solver. apply (F2 v); [set_solver|done].
  - apply lookup_delete_Some in Hl as [Hne Hv]. rewrite E1 by done. by apply (F1 v).
  - apply lookup_delete_Some in Hl as [Hne Hv]. rewrite E2 by done. by apply (F2 v).
Qed.

Lemma fresh_db S d f w : fresh S d (set_db f w) ↔ fresh S d w.
Proof. split; intros [F1 F2]; by split. Qed.

Lemma forgotten_db lost u w : db (forgotten lost u w) = db w.
Proof. by destruct lost. Qed.

(** Entries after a gain or a loss. *)
Lemma tidy_gains X d d' P t0 t' :
  tidy X d → feed_items t0 = entries d → (∀ u it, wants d u it → wants d' u it) → (∀ u t x, user_rows d' !! (u, t) = Some x → u ≠ t) →
  gains P t0 t' → (∀ r, P r → wants d' r.1 r.2) → entries d' = feed_items t' → tidy X d'.
Proof.
  intros [W O N] E Hw Hn [_ _ _ _ Ho Hk] HP He. rewrite E in *. split; [|rewrite He; by apply Hk|done].
  intros r Hr Hx. rewrite He in Hr. destruct (Ho r Hr) as [Hold|Hnew]; [by apply Hw, W|by apply HP].
Qed.

Lemma keyed_filter p l : keyed l → keyed (filter (λ r, p r = false) l).
Proof. intros Hk. eapply sublist_NoDup; [exact Hk|]. apply fmap_sublist, sublist_filter. Qed.

Section requests.
Context (cfg : settings).

Lemma invalidate_wp lost u w (Q : () → world → Prop) (R : err → world → Prop) :
  Q tt (forgotten lost u w) → wp (_invalidate_follow_cache lost u) Q R w.
Proof. by destruct lost. Qed.

(** A list that is read is right, unless it is an old one. *)
Definition exact (down : bool) (S : gset uuid) (u : uuid) : Prop := down = true ∨ u ∉ S.

Lemma boards_wp down u w S d (Q : list uuid → world → Prop) (R : err → world → Prop) :
  fresh S d w → board_rows d = board_rows (db w) →
  (∀ ids w', (exact down S u → ∀ t, t ∈ ids ↔ board_rows (db w) !! (u, t) = Some None) → db w' = db w → users w' = users w →
     clock w' = clock w → fresh S d w' → Q ids w') →
  wp (get_followed_board_ids down u) Q R w.
Proof.
  intros F Hd HQ. unfold get_followed_board_ids. apply wp_bind, wp_get_state. cbv zeta.
  assert (Hids : ∀ t, t ∈ targets_of u (board_rows (db w)) ↔ board_rows (db w) !! (u, t) = Some None) by (intros; apply elem_of_targets).
  destruct down; [apply wp_ret; by apply HQ|]. destruct (followed_boards w !! u) as [l|] eqn:Hl.
  - apply wp_ret. apply HQ; try done. intros [|Hs]; [done|]. intros t. rewrite <- Hd. by apply (fresh_boards _ _ _ F u).
  - apply wp_bind, wp_modify, wp_ret. apply HQ; try done. destruct F as [F1 F2]. split; cbn; [done|].
    intros v l' Hs. rewrite lookup_insert_Some. intros [[<- <-]|[? Hv]]; [rewrite Hd; apply elem_of_targets|by apply F2].
Qed.

Lemma following_wp down u w S d (Q : list uuid → world → Prop) (R : err → world → Prop) :
  fresh S d w → user_rows d = user_rows (db w) →
  (∀ ids w', (exact down S u → ∀ t, t ∈ ids ↔ user_rows (db w) !! (u, t) = Some None) → db w' = db w → users w' = users w →
     clock w' = clock w → fresh S d w' → Q ids w') →
  wp (get_following_ids down u) Q R w.
Proof.
  intros F Hd HQ. unfold get_following_ids. apply wp_bind, wp_get_state. cbv zeta.
  assert (Hids : ∀ t, t ∈ targets_of u (user_rows (db w)) ↔ user_rows (db w) !! (u, t) = Some None) by (intros; apply elem_of_targets).
  destruct down; [apply wp_ret; by apply HQ|]. destruct (following w !! u) as [l|] eqn:Hl.
  - apply wp_ret. apply HQ; try done. intros [|Hs]; [done|]. intros t. rewrite <- Hd. by apply (fresh_users _ _ _ F u).
  - apply wp_bind, wp_modify, wp_ret. apply HQ; try done. destruct F as [F1 F2]. split; cbn; [|done].
    intros v l' Hs. rewrite lookup_insert_Some. intros [[<- <-]|[? Hv]]; [rewrite Hd; apply elem_of_targets|by apply F1].
Qed.

(** What each request leaves: for the theorems below. *)
Definition followed_user (u t : uuid) (d d' : tables) : Prop :=
  user_rows d' !! (u, t) = Some None ∧ (∀ k, k ≠ (u, t) → user_rows d' !! k = user_rows d !! k) ∧ board_rows d' = board_rows d
  ∧ (user_rows d !! (u, t) = Some None → entries d' = entries d)
  ∧ (user_rows d !! (u, t) ≠ Some None →
       entries d' = if decide (0 < feed_backfill_limit cfg)
                    then feed_items (backfill_author (fanout cfg) u t (feed_backfill_limit cfg)
                           (Feed.Tables (published d) (active (user_rows d')) (active (board_rows d)) (entries d) (marks d))).1
                    else entries d).

Lemma follow_user_wp lost S u t w : fresh S (db w) w →
  wp (follow_user cfg lost u t)
    (λ _ w', u ≠ t ∧ is_Some (users w !! t) ∧ followed_user u t (db w) (db w') ∧ fresh (hurt lost u S) (db w') w' ∧ fresh (hurt lost u S) (db w) w'
             ∧ published (db w') = published (db w))
    (λ e w', w' = w ∧ (e = CANNOT_FOLLOW_SELF ∧ u = t ∨ e = TARGET_NOT_FOUND ∧ u ≠ t ∧ users w !! t = None)) w.
Proof.
  intros F. unfold follow_user. apply wp_bind, wp_raise_when.
  { intros He%bool_decide_eq_true. split; [done|by left]. }
  intros Hne%bool_decide_eq_false. apply wp_bind, wp_get_state, wp_bind, wp_raise_when.
  { intros He%bool_decide_eq_true. split; [done|by right]. }
  intros Ht%bool_decide_eq_false. pose proof (repo_follow_spec (u, t) (user_rows (db w))) as Hs.
  destruct (repo_follow (u, t) (user_rows (db w))) as [created m]. destruct Hs as (Hc & Hm & Ho & Hsame).
  apply wp_bind, wp_modify, wp_bind.
  assert (Hfu : ∀ d', user_rows d' = m → ∀ v x, v ≠ u → user_rows d' !! (v, x) = user_rows (db w) !! (v, x)).
  { intros d' -> v x Hv. apply Ho. congruence. }
  assert (Hend : ∀ d', user_rows d' = m → board_rows d' = board_rows (db w) → published d' = published (db w) →
            (created = false → entries d' = entries (db w)) →
            (created = true → entries d' = if decide (0 < feed_backfill_limit cfg)
                    then feed_items (backfill_author (fanout cfg) u t (feed_backfill_limit cfg)
                           (Feed.Tables (published (db w)) (active (user_rows d')) (active (board_rows (db w))) (entries (db w)) (marks (db w)))).1
                    else entries (db w)) →
            wp (_invalidate_follow_cache lost u) (λ _ w', u ≠ t ∧ is_Some (users w !! t) ∧ followed_user u t (db w) (db w') ∧ fresh (hurt lost u S) (db w') w' ∧ fresh (hurt lost u S) (db w) w'
             ∧ published (db w') = published (db w)) (λ e w', w' = w ∧ (e = CANNOT_FOLLOW_SELF ∧ u = t ∨ e = TARGET_NOT_FOUND ∧ u ≠ t ∧ users w !! t = None))
             (set_db (λ _, d') w)).
  { intros d' E1 E2 E3 E4 E5. apply invalidate_wp. rewrite forgotten_db. cbn. split; [done|]. split; [by apply not_eq_None_Some|]. split; [|split_and!; [| |done]].
    - split; [by rewrite E1|]. split; [intros k Hk; rewrite E1; by apply Ho|]. split; [done|]. split.
      + intros Hd. apply E4. destruct created; [|done]. by destruct (proj1 Hc eq_refl).
      + intros Hd. apply E5. by apply Hc.
    - apply (fresh_forget lost S (db w)); [by apply Hfu|by intros; rewrite E2|by apply fresh_db].
    - apply (fresh_forget lost S (db w)); [done|done|by apply fresh_db]. }
  destruct created; cbn [andb]; [case_bool_decide as Hl|].
  - apply wp_modify. apply Hend; try done; cbn. intros _. by rewrite decide_True.
  - apply wp_ret. apply Hend; try done; cbn. intros _. by rewrite decide_False.
  - apply wp_ret. by apply Hend.
Qed.

Definition unfollowed_user (sure : Prop) (u t : uuid) (d d' : tables) : Prop :=
  user_rows d' !! (u, t) ≠ Some None ∧ (∀ k, k ≠ (u, t) → user_rows d' !! k = user_rows d !! k) ∧ board_rows d' = board_rows d
  ∧ (user_rows d !! (u, t) ≠ Some None → entries d' = entries d)
  ∧ (user_rows d !! (u, t) = Some None → entries d' `sublist_of` entries d ∧ (sure → ∀ r, r ∈ entries d' ↔
       r ∈ entries d ∧ (r.1 = u → author_id r.2 = Some t → ∃ b, board_id r.2 = Some b ∧ board_rows d !! (u, b) = Some None))).

Lemma not_kept_spec (keep : gset uuid) x : not_kept keep x = false ↔ ∃ b, x = Some b ∧ b ∈ keep.
Proof.
  unfold not_kept. destruct x as [b|]; [rewrite bool_decide_eq_false|]; split; try done.
  - intros Hn. exists b. split; [done|]. by apply dec_stable.
  - intros (b' & [= <-] & Hb). tauto.
  - by intros (? & ? & _).
Qed.

Lemma unfollow_user_wp down lost S u t w : fresh S (db w) w →
  wp (unfollow_user down lost u t)
    (λ _ w', u ≠ t ∧ unfollowed_user (exact down S u) u t (db w) (db w') ∧ fresh (hurt lost u S) (db w') w' ∧ fresh (hurt lost u S) (db w) w' ∧ published (db w') = published (db w))
    (λ e w', w' = w ∧ e = CANNOT_FOLLOW_SELF ∧ u = t) w.
Proof.
  intros F. unfold unfollow_user. apply wp_bind, wp_raise_when.
  { by intros He%bool_decide_eq_true. }
  intros Hne%bool_decide_eq_false. apply wp_bind, wp_get_state. pose proof (repo_unfollow_spec (clock w) (u, t) (user_rows (db w))) as Hs.
  destruct (repo_unfollow (clock w) (u, t) (user_rows (db w))) as [changed m]. destruct Hs as (Hc & Hm & Ho & Hsame).
  apply wp_bind, wp_modify. destruct changed.
  - apply wp_bind, (boards_wp down u _ S (db w)); [by apply fresh_db|done|].
    intros ids w1 Hids Hdb _ _ F1. apply wp_bind, wp_modify, invalidate_wp. rewrite forgotten_db. cbn. rewrite Hdb. cbn.
    split; [done|]. split; [|split_and!; [| |done]].
    + split; [done|]. split; [intros k Hk; by apply Ho|]. split; [done|]. split; [intros Hn; by destruct Hn; apply Hc|].
      intros _. split; [apply sublist_filter|]. intros Hex r. specialize (Hids Hex). cbn -[andb by_author in_board not_kept]. rewrite list_elem_of_filter, !andb_false_iff, bool_decide_eq_false.
      unfold by_author. rewrite bool_decide_eq_false, not_kept_spec. setoid_rewrite elem_of_list_to_set. setoid_rewrite Hids.
      split; [intros [[[?|?]|?] ?]; naive_solver|]. intros [Hr Himp]. split; [|done].
      destruct (decide (r.1 = u)) as [Hu|]; [|by left; left]. destruct (decide (author_id r.2 = Some t)); [|by left; right]. right. by apply Himp.
    + apply (fresh_forget lost S (db w)); [intros v x Hv; cbn; apply Ho; congruence|done|by apply fresh_db].
    + apply (fresh_forget lost S (db w)); [done|done|by apply fresh_db].
  - apply wp_ret. split; [done|]. assert (m = user_rows (db w)) as -> by auto. split; [|split_and!; [| |done]].
    + split; [done|]. by split_and!.
    + by apply fresh_hurt, fresh_db, (fresh_same S (db w)).
    + by apply fresh_hurt, fresh_db.
Qed.

Definition followed_board (u b : uuid) (d d' : tables) : Prop :=
  board_rows d' !! (u, b) = Some None ∧ (∀ k, k ≠ (u, b) → board_rows d' !! k = board_rows d !! k) ∧ user_rows d' = user_rows d
  ∧ (board_rows d !! (u, b) = Some None → entries d' = entries d)
  ∧ (board_rows d !! (u, b) ≠ Some None →
       entries d' = if decide (0 < feed_backfill_limit cfg)
                    then feed_items (backfill_board u b (feed_backfill_limit cfg)
                           (Feed.Tables (published d) (active (user_rows d)) (active (board_rows d')) (entries d) (marks d))).1
                    else entries d).

Lemma follow_board_wp lost S u b w : fresh S (db w) w →
  wp (follow_board cfg lost u b)
    (λ _ w', is_Some (titles (db w) !! b) ∧ followed_board u b (db w) (db w') ∧ fresh (hurt lost u S) (db w') w' ∧ fresh (hurt lost u S) (db w) w'
             ∧ published (db w') = published (db w))
    (λ e w', w' = w ∧ e = TARGET_NOT_FOUND ∧ titles (db w) !! b = None) w.
Proof.
  intros F. unfold follow_board. apply wp_bind, wp_get_state, wp_bind, wp_raise_when.
  { by intros He%bool_decide_eq_true. }
  intros Ht%bool_decide_eq_false. pose proof (repo_follow_spec (u, b) (board_rows (db w))) as Hs.
  destruct (repo_follow (u, b) (board_rows (db w))) as [created m]. destruct Hs as (Hc & Hm & Ho & Hsame).
  apply wp_bind, wp_modify, wp_bind.
  assert (Hfu : ∀ d', board_rows d' = m → ∀ v x, v ≠ u → board_rows d' !! (v, x) = board_rows (db w) !! (v, x)).
  { intros d' -> v x Hv. apply Ho. congruence. }
  assert (Hend : ∀ d', board_rows d' = m → user_rows d' = user_rows (db w) → published d' = published (db w) →
            (created = false → entries d' = entries (db w)) →
            (created = true → entries d' = if decide (0 < feed_backfill_limit cfg)
                    then feed_items (backfill_board u b (feed_backfill_limit cfg)
                           (Feed.Tables (published (db w)) (active (user_rows (db w))) (active (board_rows d')) (entries (db w)) (marks (db w)))).1
                    else entries (db w)) →
            wp (_invalidate_follow_cache lost u) (λ _ w', is_Some (titles (db w) !! b) ∧ followed_board u b (db w) (db w') ∧ fresh (hurt lost u S) (db w') w'
             ∧ fresh (hurt lost u S) (db w) w' ∧ published (db w') = published (db w)) (λ e w', w' = w ∧ e = TARGET_NOT_FOUND ∧ titles (db w) !! b = None)
             (set_db (λ _, d') w)).
  { intros d' E1 E2 E3 E4 E5. apply invalidate_wp. rewrite forgotten_db. cbn. split; [by apply not_eq_None_Some|]. split; [|split_and!; [| |done]].
    - split; [by rewrite E1|]. split; [intros k Hk; rewrite E1; by apply Ho|]. split; [done|]. split.
      + intros Hd. apply E4. destruct created; [|done]. by destruct (proj1 Hc eq_refl).
      + intros Hd. apply E5. by apply Hc.
    - apply (fresh_forget lost S (db w)); [by intros; rewrite E2|by apply Hfu|by apply fresh_db].
    - apply (fresh_forget lost S (db w)); [done|done|by apply fresh_db]. }
  destruct created; cbn [andb]; [case_bool_decide as Hl|].
  - apply wp_modify. apply Hend; try done; cbn. intros _. by rewrite decide_True.
  - apply wp_ret. apply Hend; try done; cbn. intros _. by rewrite decide_False.
  - apply wp_ret. by apply Hend.
Qed.

Definition unfollowed_board (sure : Prop) (u b : uuid) (d d' : tables) : Prop :=
  board_rows d' !! (u, b) ≠ Some None ∧ (∀ k, k ≠ (u, b) → board_rows d' !! k = board_rows d !! k) ∧ user_rows d' = user_rows d
  ∧ (board_rows d !! (u, b) ≠ Some None → entries d' = entries d)
  ∧ (board_rows d !! (u, b) = Some None → entries d' `sublist_of` entries d ∧ (sure → ∀ r, r ∈ entries d' ↔
       r ∈ entries d ∧ (r.1 = u → board_id r.2 = Some b → ∃ a, author_id r.2 = Some a ∧ user_rows d !! (u, a) = Some None))).

Lemma unfollow_board_wp down lost S u b w (R : err → world → Prop) : fresh S (db w) w →
  wp (unfollow_board down lost u b)
    (λ _ w', unfollowed_board (exact down S u) u b (db w) (db w') ∧ fresh (hurt lost u S) (db w') w' ∧ fresh (hurt lost u S) (db w) w' ∧ published (db w') = published (db w)) R w.
Proof.
  intros F. unfold unfollow_board. apply wp_bind, wp_get_state. pose proof (repo_unfollow_spec (clock w) (u, b) (board_rows (db w))) as Hs.
  destruct (repo_unfollow (clock w) (u, b) (board_rows (db w))) as [changed m]. destruct Hs as (Hc & Hm & Ho & Hsame).
  apply wp_bind, wp_modify. destruct changed.
  - apply wp_bind, (following_wp down u _ S (db w)); [by apply fresh_db|done|].
    intros ids w1 Hids Hdb _ _ F1. apply wp_bind, wp_modify, invalidate_wp. rewrite forgotten_db. cbn. rewrite Hdb. cbn.
    split; [|split_and!; [| |done]].
    + split; [done|]. split; [intros k Hk; by apply Ho|]. split; [done|]. split; [intros Hn; by destruct Hn; apply Hc|].
      intros _. split; [apply sublist_filter|]. intros Hex r. specialize (Hids Hex). cbn -[andb by_author in_board not_kept]. rewrite list_elem_of_filter, !andb_false_iff, bool_decide_eq_false.
      unfold in_board. rewrite bool_decide_eq_false, not_kept_spec. setoid_rewrite elem_of_list_to_set. setoid_rewrite Hids.
      split; [intros [[[?|?]|?] ?]; naive_solver|]. intros [Hr Himp]. split; [|done].
      destruct (decide (r.1 = u)) as [Hu|]; [|by left; left]. destruct (decide (board_id r.2 = Some b)); [|by left; right]. right. by apply Himp.
    + apply (fresh_forget lost S (db w)); [done|intros v x Hv; cbn; apply Ho; congruence|by apply fresh_db].
    + apply (fresh_forget lost S (db w)); [done|done|by apply fresh_db].
  - apply wp_ret. assert (m = board_rows (db w)) as -> by auto. split; [|split_and!; [| |done]].
    + split; [done|]. by split_and!.
    + by apply fresh_hurt, fresh_db, (fresh_same S (db w)).
    + by apply fresh_hurt, fresh_db.
Qed.
End requests.

Section invariant.
Context (cfg : settings).

Lemma tidy_loss X X' d d' :
  tidy X d → X ⊆ X' → (∀ r, r ∈ entries d' → r.1 ∉ X' → wants d r.1 r.2 → wants d' r.1 r.2) → (∀ u t x, user_rows d' !! (u, t) = Some x → u ≠ t) →
  entries d' `sublist_of` entries d → tidy X' d'.
Proof.
  intros [W O N] HX Hw Hn Hs. split; [|eapply sublist_NoDup; [exact O|by apply fmap_sublist]|done].
  intros r Hr Hx. apply Hw; [done..|]. apply W; [by eapply elem_of_sublist|set_solver].
Qed.

Lemma tidy_follow_user X u t d d' : u ≠ t → followed_user cfg u t d d' → tidy X d → tidy X d'.
Proof.
  intros Hne (Hm & Ho & Hb & Hold & Hnew) T.
  assert (Hw : ∀ v it, wants d v it → wants d' v it).
  { intros v it [(a & Ha & Hr)|(b & Hbo & Hr)]; [left|right; rewrite Hb; eauto]. exists a. split; [done|].
    destruct (decide ((v, a) = (u, t))) as [->|Hk]; [done|]. by rewrite Ho. }
  assert (Hn : ∀ v x y, user_rows d' !! (v, x) = Some y → v ≠ x).
  { intros v x y Hy. destruct (decide ((v, x) = (u, t))) as [[= -> ->]|Hk]; [done|]. rewrite Ho in Hy by done. by apply (no_self _ _ T) in Hy. }
  destruct (decide (user_rows d !! (u, t) = Some None)) as [Hf|Hf].
  { apply (tidy_gains X d d' (λ _, False) (timeline d) (timeline d)); try done. by apply Hold. }
  specialize (Hnew Hf). case_decide; [|by apply (tidy_gains X d d' (λ _, False) (timeline d) (timeline d))].
  eapply (tidy_gains X d d'); [done| |done|done|apply gains_backfill_author| |exact Hnew]; [done|].
  intros r [-> Ha]. left. eauto.
Qed.

Lemma tidy_follow_board X u b d d' : followed_board cfg u b d d' → tidy X d → tidy X d'.
Proof.
  intros (Hm & Ho & Hu & Hold & Hnew) T.
  assert (Hw : ∀ v it, wants d v it → wants d' v it).
  { intros v it [(a & Ha & Hr)|(x & Hbo & Hr)]; [left; rewrite Hu; eauto|right]. exists x. split; [done|].
    destruct (decide ((v, x) = (u, b))) as [->|Hk]; [done|]. by rewrite Ho. }
  assert (Hn : ∀ v x y, user_rows d' !! (v, x) = Some y → v ≠ x) by (rewrite Hu; apply T).
  destruct (decide (board_rows d !! (u, b) = Some None)) as [Hf|Hf].
  { apply (tidy_gains X d d' (λ _, False) (timeline d) (timeline d)); try done. by apply Hold. }
  specialize (Hnew Hf). case_decide; [|by apply (tidy_gains X d d' (λ _, False) (timeline d) (timeline d))].
  eapply (tidy_gains X d d'); [done| |done|done|apply gains_backfill_board| |exact Hnew]; [done|].
  intros r [-> Ha]. right. eauto.
Qed.

Lemma tidy_unfollow_user (sure : Prop) X X' u t d d' :
  u ≠ t → unfollowed_user sure u t d d' → X ⊆ X' → (sure ∨ u ∈ X') → tidy X d → tidy X' d'.
Proof.
  intros Hne (Hm & Ho & Hb & Hold & Hnew) HX Hsure T.
  assert (Hn : ∀ v x y, user_rows d' !! (v, x) = Some y → v ≠ x).
  { intros v x y Hy. destruct (decide ((v, x) = (u, t))) as [[= -> ->]|Hk]; [done|]. rewrite Ho in Hy by done. by apply (no_self _ _ T) in Hy. }
  assert (Hw : ∀ v it, (v = u → author_id it ≠ Some t) → wants d v it → wants d' v it).
  { intros v it Hv [(a & Ha & Hr)|(b & Hbo & Hr)]; [left|right; rewrite Hb; eauto]. exists a. split; [done|].
    rewrite Ho; [done|]. intros [= -> ->]. by apply Hv. }
  destruct (decide (user_rows d !! (u, t) = Some None)) as [Hf|Hf].
  - destruct (Hnew Hf) as [Hsub Hiff]. apply (tidy_loss X X' d d'); try done. intros r Hr0 Hrx Hwr.
    destruct (decide (r.1 = u ∧ author_id r.2 = Some t)) as [[Hu Ha]|Hno]; [|apply Hw; [naive_solver|done]].
    destruct Hsure as [Hsure|?]; [|congruence]. apply (Hiff Hsure) in Hr0 as [Hr Hk].
    destruct (Hk Hu Ha) as (b & Hbo & Hrow). right. exists b. by rewrite Hb, Hu.
  - apply (tidy_loss X X' d d'); try done; [|by rewrite (Hold Hf)]. intros r _ _ [(a & Ha & Hr)|(b & Hbo & Hr)]; [left|right; rewrite Hb; eauto].
    exists a. split; [done|]. rewrite Ho; [done|]. intros [= E1 E2]. rewrite E1, E2 in Hr. done.
Qed.

Lemma tidy_unfollow_board (sure : Prop) X X' u b d d' :
  unfollowed_board sure u b d d' → X ⊆ X' → (sure ∨ u ∈ X') → tidy X d → tidy X' d'.
Proof.
  intros (Hm & Ho & Hu & Hold & Hnew) HX Hsure T.
  assert (Hn : ∀ v x y, user_rows d' !! (v, x) = Some y → v ≠ x) by (rewrite Hu; apply T).
  assert (Hw : ∀ v it, (v = u → board_id it ≠ Some b) → wants d v it → wants d' v it).
  { intros v it Hv [(a & Ha & Hr)|(x & Hbo & Hr)]; [left; rewrite Hu; eauto|right]. exists x. split; [done|].
    rewrite Ho; [done|]. intros [= -> ->]. by apply Hv. }
  destruct (decide (board_rows d !! (u, b) = Some None)) as [Hf|Hf].
  - destruct (Hnew Hf) as [Hsub Hiff]. apply (tidy_loss X X' d d'); try done. intros r Hr0 Hrx Hwr.
    destruct (decide (r.1 = u ∧ board_id r.2 = Some b)) as [[Hv Ha]|Hno]; [|apply Hw; [naive_solver|done]].
    destruct Hsure as [Hsure|?]; [|congruence]. apply (Hiff Hsure) in Hr0 as [Hr Hk].
    destruct (Hk Hv Ha) as (a & Hau & Hrow). left. exists a. by rewrite Hu, Hv.
  - apply (tidy_loss X X' d d'); try done; [|by rewrite (Hold Hf)]. intros r _ _ [(a & Ha & Hr)|(x & Hbo & Hr)]; [left; rewrite Hu; eauto|right].
    exists x. split; [done|]. rewrite Ho; [done|]. intros [= E1 E2]. rewrite E1, E2 in Hr. done.
Qed.

Lemma body_tidy down lost o D w :
  tidy (tainted D) (db w) → fresh (stale D) (db w) w →
  let D' := doubts_after down lost o D in
  wp (body cfg down lost o) (λ _ w', tidy (tainted D') (db w') ∧ fresh (stale D') (db w') w' ∧ fresh (stale D') (db w) w')
    (λ _ w', fresh (stale D') (db w) w') w.
Proof.
  intros T F D'. assert (Hsure : ∀ u, exact down (stale D) u ∨ u ∈ hurt (negb down && bool_decide (u ∈ stale D)) u (tainted D)).
  { intros u. destruct down; [left; by left|]. destruct (decide (u ∈ stale D)) as [Hu|Hu]; [right|left; by right].
    unfold hurt. rewrite bool_decide_true by done. cbn. set_solver. }
  assert (Hsub : ∀ c u X, X ⊆ hurt c u X) by (intros [] u X; unfold hurt; set_solver).
  destruct o as [u t|u t|u b|u b|u|u|limit|i]; cbn [body doubts_after] in *; subst D'; cbn [stale tainted].
  - eapply wp_mono; [by apply (follow_user_wp cfg lost (stale D))| |by intros e w' [-> _]; apply fresh_hurt].
    intros [] w' (Hne & _ & Hf & ? & ? & _). split; [by eapply tidy_follow_user|done].
  - eapply wp_mono; [by apply (unfollow_user_wp down lost (stale D))| |by intros e w' [-> _]; apply fresh_hurt].
    intros [] w' (Hne & Hf & ? & ? & _). split; [by apply (tidy_unfollow_user (exact down (stale D) u) (tainted D) _ u t (db w))|done].
  - eapply wp_mono; [by apply (follow_board_wp cfg lost (stale D))| |by intros e w' [-> _]; apply fresh_hurt].
    intros [] w' (_ & Hf & ? & ? & _). split; [by eapply tidy_follow_board|done].
  - eapply wp_mono; [by apply (unfollow_board_wp down lost (stale D) u b w (λ _ w', fresh (hurt lost u (stale D)) (db w) w'))| |done].
    intros [] w' (Hf & ? & ? & _). split; [by apply (tidy_unfollow_board (exact down (stale D) u) (tainted D) _ u b (db w))|done].
  - unfold done_with, list_following_users. apply wp_bind, wp_bind, (following_wp down u w (stale D) (db w)); [done..|].
    intros ids w' _ Hdb _ _ F'. apply wp_bind, wp_get_state, wp_ret, wp_ret. by rewrite Hdb.
  - unfold done_with, list_followed_boards. apply wp_bind, wp_bind, (boards_wp down u w (stale D) (db w)); [done..|].
    intros ids w' _ Hdb _ _ F'. apply wp_bind, wp_get_state, wp_ret, wp_ret. by rewrite Hdb.
  - apply wp_modify. split; [|split; [by apply fresh_db, (fresh_same _ (db w))|by apply fresh_db]].
    eapply (tidy_gains _ (db w)); [done| |done|apply T|apply (gains_batch (fanout cfg) (clock w) limit (timeline (db w)))| |done]; [done|].
    intros r Hr. by apply followed_wants in Hr.
  - apply wp_modify. split; [|split; [by apply fresh_db, (fresh_same _ (db w))|by apply fresh_db]].
    apply (tidy_loss (tainted D) _ (db w)); [done|done|done|apply T|apply sublist_filter].
Qed.

(** Between requests. *)
Definition settled (s : world * doubts) : Prop := tidy (tainted s.2) (db s.1) ∧ fresh (stale s.2) (db s.1) s.1.

Lemma step_tidy s s' : settled s → step cfg s s' → settled s'.
Proof.
  intros Hs Hst. revert Hs. destruct Hst as [down lost o commits w D|w w1 D (E1 & E2 & E3 & S1 & S2)|u w D]; intros [T F]; cbn [fst snd] in *.
  - pose proof (body_tidy down lost o D w T F) as H. cbv zeta in H. unfold wp in H. unfold transaction, settled.
    assert (T' : tidy (tainted (doubts_after down lost o D)) (db w)) by (destruct o; cbn; by try apply tidy_hurt).
    destruct (body cfg down lost o w) as [[[]|e] w1]; [destruct commits|]; cbn; [tauto|..]; (split; [done|]); apply fresh_db; tauto.
  - destruct T as [W O N], F as [F1 F2]. split; cbn [fst snd].
    + split; rewrite ?E1, ?E3; try done. intros r Hr. unfold wants. rewrite E1, E2. by apply W.
    + split; rewrite ?E1, ?E2; intros u l Hu Hl; [eapply F1|eapply F2]; [done|by eapply lookup_weaken|done|by eapply lookup_weaken].
  - split; [done|]. destruct F as [F1 F2]. split; cbn; intros v l Hv [Hne Hl]%lookup_delete_Some; (apply F1 || apply F2); set_solver.
Qed.

Lemma reach_tidy s s' : settled s → rtc (step cfg) s s' → settled s'.
Proof. intros H Hr. induction Hr as [|w1 w2 w3 H12 _ IH]; [done|]. apply IH. by eapply step_tidy. Qed.

Definition no_doubts : doubts := Doubts ∅ ∅.

(** Nobody follows anything. *)
Definition blank (w : world) : Prop :=
  user_rows (db w) = ∅ ∧ board_rows (db w) = ∅ ∧ entries (db w) = [] ∧ following w = ∅ ∧ followed_boards w = ∅.

Lemma blank_tidy w : blank w → settled (w, no_doubts).
Proof.
  intros (E1 & E2 & E3 & E4 & E5). split; split; cbn [fst]; rewrite ?E1, ?E3, ?E4, ?E5.
  - intros r Hr. by apply elem_of_nil in Hr.
  - constructor.
  - intros u t x Hx. by rewrite lookup_empty in Hx.
  - intros u l _ Hl. by rewrite lookup_empty in Hl.
  - intros u l _ Hl. by rewrite lookup_empty in Hl.
Qed.
End invariant.

(** C23: A timeline holds what its reader follows. In every state that requests,
    one after the other, can reach from a world where nobody follows anything
    (committing or not, with Redis answering any call or not, while the fan-out
    runs, contents come and go and Redis forgets): no entry is twice in a written
    timeline, nobody follows themselves, and every entry of a user's timeline is by
    somebody the user follows now, or in a board the user follows now; the lists of
    whom and what a user follows are right. Two kinds of users are excepted, both
    because an invalidation that Redis does not answer is silently skipped: the
    lists that Redis still holds for a user after such a request ([stale]) are out
    of date until they expire, and when that user unfollows something meanwhile,
    the old list decides what is taken out of the timeline ([tainted]). Without an
    answer of Redis the lists are right for everybody; and where every invalidation
    has been answered, nobody is excepted. *)
Theorem timeline_follows (cfg : settings) (w0 w : world) (D : doubts) (Hb : blank w0) (Hr : rtc (step cfg) (w0, no_doubts) (w, D)) :
  (∀ r, r ∈ entries (db w) → r.1 ∉ tainted D → wants (db w) r.1 r.2)
  ∧ NoDup (key <$> entries (db w))
  ∧ (∀ u, is_following_user u u w = false)
  ∧ (∀ down u, down = true ∨ u ∉ stale D → let '(r, w') := get_following_ids down u w in
       db w' = db w ∧ ∃ ids, r = Ok ids ∧ ∀ t, t ∈ ids ↔ is_following_user u t w = true)
  ∧ (∀ down u, down = true ∨ u ∉ stale D → let '(r, w') := get_followed_board_ids down u w in
       db w' = db w ∧ ∃ ids, r = Ok ids ∧ ∀ b, b ∈ ids ↔ board_rows (db w) !! (u, b) = Some None)
  ∧ ∀ down o, stale D = ∅ → tainted D = ∅ → doubts_after down false o D = D.
Proof.
  destruct (reach_tidy cfg _ _ (blank_tidy w0 Hb) Hr) as [T F]. cbn [fst snd] in *. split_and!; [apply T|apply T|..].
  - intros u. apply bool_decide_eq_false. intros Hu. by apply (no_self _ _ T) in Hu.
  - intros down u Hx. pose proof (following_wp down u w (stale D) (db w)
      (λ ids w', db w' = db w ∧ ∀ t, t ∈ ids ↔ is_following_user u t w = true) (λ _ _, False) F eq_refl) as H.
    assert (HQ : ∀ (ids : list uuid) w', (exact down (stale D) u → ∀ t, t ∈ ids ↔ user_rows (db w) !! (u, t) = Some None) → db w' = db w → users w' = users w →
      clock w' = clock w → fresh (stale D) (db w) w' → db w' = db w ∧ ∀ t, t ∈ ids ↔ is_following_user u t w = true).
    { intros ids w1 Hids Hdb _ _ _. split; [done|]. intros t. unfold is_following_user. rewrite bool_decide_eq_true. by apply Hids. }
    specialize (H HQ). unfold wp in H. destruct (get_following_ids down u w) as [[ids|e] w']; [|done].
    destruct H as [Hdb Hids]. split; [done|eauto].
  - intros down u Hx. pose proof (boards_wp down u w (stale D) (db w)
      (λ ids w', db w' = db w ∧ ∀ t, t ∈ ids ↔ board_rows (db w) !! (u, t) = Some None) (λ _ _, False) F eq_refl) as H.
    assert (HQ : ∀ (ids : list uuid) w', (exact down (stale D) u → ∀ t, t ∈ ids ↔ board_rows (db w) !! (u, t) = Some None) → db w' = db w → users w' = users w →
      clock w' = clock w → fresh (stale D) (db w) w' → db w' = db w ∧ ∀ t, t ∈ ids ↔ board_rows (db w) !! (u, t) = Some None).
    { intros ids w1 Hids Hdb _ _ _. split; [done|]. by apply Hids. }
    specialize (H HQ). unfold wp in H. destruct (get_followed_board_ids down u w) as [[ids|e] w']; [|done].
    destruct H as [Hdb Hids]. split; [done|eauto].
  - intros down o Hs Ht. destruct D as [S X]. cbn in *. subst. destruct o; cbn; try done; by rewrite andb_false_r.
Qed.

(** The newest rows of an author in a source. *)
Definition newest_by (t : uuid) (n : nat) (name : string) (d : tables) : list FeedItem :=
  take n (newest_first (filter (λ it, author_id it = Some t) (published d name))).

Lemma fetch_by_author T t n name : name ∈ FOLLOW_SOURCES →
  fetch_source T name (Some {[t]}) (Some ∅) None n
  = take n (newest_first (filter (λ it, author_id it = Some t) (Feed.published T name))).
Proof.
  intros Hname. unfold fetch_source. do 2 f_equal. apply list_filter_iff. intros it. rewrite Is_true_true, andb_true_iff.
  assert (Hb : before None it = true) by done. rewrite Hb. unfold audience_conditions.
  destruct (decide (name = "article"%string)) as [->|_]; [vm_compute in Hname; set_solver|].
  assert (Ha : is_author {[t]} it = true ↔ author_id it = Some t).
  { unfold is_author. destruct (author_id it) as [a|]; [|done]. rewrite bool_decide_eq_true, elem_of_singleton. naive_solver. }
  assert (Ho : on_board (Some ∅) it = false).
  { unfold on_board. destruct (board_id it); [by apply bool_decide_eq_false|done]. }
  destruct (decide (name = "discussion"%string)); rewrite ?orb_true_iff, ?Ho, Ha; intuition discriminate.
Qed.

Lemma backfill_covers cfg u t n T name it :
  t ∉ bigv_authors (cfg) T → name ∈ FOLLOW_SOURCES →
  it ∈ take n (newest_first (filter (λ it, author_id it = Some t) (Feed.published T name))) →
  ∃ r, r ∈ feed_items (backfill_author cfg u t n T).1 ∧ key r = key (u, it).
Proof.
  intros Hbig Hname Hit. unfold backfill_author. rewrite decide_False by done. cbn [fst].
  set (values := FOLLOW_SOURCES ≫= _). destruct (insert_rows_spec values (feed_items T)) as (_ & _ & C).
  set (it' := MkItem (item_type it) (item_id it) (Some (default t (author_id it))) (board_id it) (title it) (content_preview it) (created_at it) (url it)).
  assert (Hv : (u, it') ∈ values).
  { apply list_elem_of_bind. exists name. split; [|done]. apply list_elem_of_fmap. exists it. split; [done|]. by rewrite fetch_by_author. }
  apply C, Exists_exists in Hv as (r & Hr & Hs). exists r. split; [done|]. apply key_same in Hs. by rewrite <- Hs.
Qed.

(** Following and unfollowing do what they say. Following a user succeeds on
    exactly the others who exist; then the user follows them, everybody else's
    relations are as they were, no entry is lost, the new entries are the
    follower's and by the followed, and the newest contents of each source are
    among them (unless the author's followers exceed the cap, whose contents are
    read live). Following again changes nothing. Unfollowing takes away exactly
    the follower's entries by that user, except those in a board the follower
    still follows; unfollowing again changes nothing. *)
Theorem following_correct (cfg : settings) (w0 w : world) (D : doubts) (u t : uuid) (Hb : blank w0)
    (Hr : rtc (step cfg) (w0, no_doubts) (w, D)) (Hus : u ∉ stale D) (Hut : u ∉ tainted D) :
  (match transaction true (follow_user cfg false u t) w with
   | (Ok _, w') =>
       u ≠ t ∧ is_Some (users w !! t) ∧ is_following_user u t w' = true
       ∧ (∀ k, k ≠ (u, t) → user_rows (db w') !! k = user_rows (db w) !! k) ∧ board_rows (db w') = board_rows (db w)
       ∧ (is_following_user u t w = true → entries (db w') = entries (db w))
       ∧ (∀ r, r ∈ entries (db w) → r ∈ entries (db w'))
       ∧ (∀ r, r ∈ entries (db w') → r ∈ entries (db w) ∨ r.1 = u ∧ author_id r.2 = Some t)
       ∧ (is_following_user u t w = false → t ∉ bigv_authors (fanout cfg) (timeline (db w')) →
          ∀ name it, name ∈ FOLLOW_SOURCES → it ∈ newest_by t (feed_backfill_limit cfg) name (db w) →
            ∃ r, r ∈ entries (db w') ∧ key r = key (u, it))
   | (Raise e, w') => w' = w ∧ (e = CANNOT_FOLLOW_SELF ∧ u = t ∨ e = TARGET_NOT_FOUND ∧ u ≠ t ∧ users w !! t = None)
   end)
  ∧ (match transaction true (unfollow_user false false u t) w with
     | (Ok _, w') =>
         u ≠ t ∧ is_following_user u t w' = false
         ∧ (∀ k, k ≠ (u, t) → user_rows (db w') !! k = user_rows (db w) !! k) ∧ board_rows (db w') = board_rows (db w)
         ∧ (is_following_user u t w = false → entries (db w') = entries (db w))
         ∧ (∀ r, r ∈ entries (db w') ↔ r ∈ entries (db w)
              ∧ (r.1 = u → author_id r.2 = Some t → ∃ b, board_id r.2 = Some b ∧ board_rows (db w) !! (u, b) = Some None))
     | (Raise e, w') => w' = w ∧ e = CANNOT_FOLLOW_SELF ∧ u = t
     end).
Proof.
  destruct (reach_tidy cfg _ _ (blank_tidy w0 Hb) Hr) as [T F]. cbn [fst snd] in *.
  assert (Hself : ∀ w', w' = w → set_db (λ _, db w) w' = w) by (intros w' ->; by destruct w).
  split.
  - pose proof (follow_user_wp cfg false (stale D) u t w F) as H. unfold wp in H. unfold transaction.
    destruct (follow_user cfg false u t w) as [[[]|e] w']; [|destruct H as [-> ?]; by rewrite Hself].
    destruct H as (Hne & Ht & (Hm & Ho & Hbo & Hold & Hnew) & _ & _ & Hpub). unfold is_following_user.
    rewrite !bool_decide_eq_true, bool_decide_eq_false.
    assert (G : gains (λ r, r.1 = u ∧ author_id r.2 = Some t)
                  (Feed.Tables (published (db w)) (active (user_rows (db w'))) (active (board_rows (db w))) (entries (db w)) (marks (db w)))
                  (Feed.Tables (published (db w)) (active (user_rows (db w'))) (active (board_rows (db w))) (entries (db w')) (marks (db w)))).
    { destruct (decide (user_rows (db w) !! (u, t) = Some None)) as [Hf|Hf]; [by rewrite (Hold Hf)|]. rewrite (Hnew Hf).
      case_decide; [|done]. pose proof (gains_backfill_author (fanout cfg) u t (feed_backfill_limit cfg)
        (Feed.Tables (published (db w)) (active (user_rows (db w'))) (active (board_rows (db w))) (entries (db w)) (marks (db w)))) as [].
      by split. }
    split_and!; try done; [apply (gains_kept _ _ _ G)|apply (gains_only _ _ _ G)|].
    intros Hf Hbig name it Hname Hit. rewrite (Hnew Hf). unfold newest_by in Hit. case_decide as Hl.
    + apply (backfill_covers _ _ _ _ _ name); [|done|done]. intros Hin. apply Hbig. exact Hin.
    + assert (feed_backfill_limit cfg = 0) as Hz by lia. rewrite Hz in Hit. by apply elem_of_nil in Hit.
  - pose proof (unfollow_user_wp false false (stale D) u t w F) as H. unfold wp in H. unfold transaction.
    destruct (unfollow_user false false u t w) as [[[]|e] w']; [|destruct H as (-> & ?); by rewrite Hself].
    destruct H as (Hne & (Hm & Ho & Hbo & Hold & Hnew) & _ & _ & _). unfold is_following_user. rewrite !bool_decide_eq_false.
    split_and!; try done.
    destruct (decide (user_rows (db w) !! (u, t) = Some None)) as [Hf|Hf]; [by apply (Hnew Hf); right|].
    rewrite (Hold Hf). intros r. split; [|by intros [? _]]. intros Hr'. split; [done|]. intros Hu Ha.
    destruct (wanted _ _ T r Hr' ltac:(by rewrite Hu)) as [(a & Hau & Hrow)|(b & Hbi & Hrow)]; rewrite Hu in Hrow; [congruence|eauto].
Qed.

(** ** Witnesses *)
Definition fan : uuid := uuid_of_N 5.
Definition writer : uuid := uuid_of_N 9.
Definition room : uuid := uuid_of_N 7.

Definition an_essay : FeedItem := MkItem "discussion" (uuid_of_N 20) (Some writer) (Some room) "Essay" "..." 100 "/discussion/20".
Definition a_note : FeedItem := MkItem "discussion" (uuid_of_N 21) (Some writer) None "Note" "..." 200 "/discussion/21".

Definition a_day : world :=
  World (Tables ∅ ∅ {[room := "Room"%string]} (λ name, if decide (name = "discussion"%string) then [an_essay; a_note] else []) [] ∅)
    {[fan := ("Fan"%string, None); writer := ("Writer"%string, None)]} ∅ ∅ 1000.

Definition a_policy : settings := Settings {| feed_fanout_max_followers := 5 |} 10.

Definition run (w : world) (o : op) : world := (transaction true (body a_policy false false o) w).2.

Lemma run_steps os w : rtc (step a_policy) (w, no_doubts) (foldl run w os, no_doubts).
Proof.
  revert w. induction os as [|o os IH]; intros w; [done|]. cbn. eapply rtc_l; [|apply IH].
  assert (Hd : doubts_after false false o no_doubts = no_doubts) by (destruct o; cbn; try done; by rewrite bool_decide_false by set_solver).
  rewrite <- Hd at 2. apply step_op.
Qed.

Definition following_both : world := foldl run a_day [FollowUser fan writer; FollowBoard fan room].

#[local] Instance FeedItem_eq_dec : EqDecision FeedItem.
Proof. solve_decision. Defined.

Lemma fan_reads r : bool_decide (r ∈ entries (db following_both)) = true → r ∈ entries (db following_both).
Proof. by intros H%bool_decide_eq_true. Qed.

Lemma timeline_follows_witness : wants (db following_both) fan an_essay ∧ length (entries (db following_both)) = 2.
Proof.
  split; [|vm_compute; reflexivity]. assert (Hb : blank a_day) by done.
  apply (proj1 (timeline_follows a_policy a_day following_both no_doubts Hb (run_steps _ _)) (fan, an_essay)); [|cbn; set_solver].
  apply fan_reads. vm_compute. reflexivity.
Defined.

Lemma following_correct_witness :
  bool_decide ((fan, a_note) ∈ entries (db (transaction true (unfollow_user false false fan writer) following_both).2)) = false
  ∧ (fan, an_essay) ∈ entries (db (transaction true (unfollow_user false false fan writer) following_both).2).
Proof.
  assert (Hb : blank a_day) by done. split; [vm_compute; reflexivity|].
  assert (Hok : match (transaction true (unfollow_user false false fan writer) following_both).1 with Ok _ => true | Raise _ => false end = true)
    by (vm_compute; reflexivity).
  assert (Hin : (fan, an_essay) ∈ entries (db following_both)) by (apply fan_reads; vm_compute; reflexivity).
  assert (Hroom : bool_decide (board_rows (db following_both) !! (fan, room) = Some None) = true) by (vm_compute; reflexivity).
  apply bool_decide_eq_true in Hroom. pose proof (run_steps [FollowUser fan writer; FollowBoard fan room] a_day) as Hr.
  change (foldl run a_day [FollowUser fan writer; FollowBoard fan room]) with following_both in Hr.
  revert Hok Hin Hroom Hr. generalize following_both. intros w Hok Hin Hroom Hr.
  pose proof (proj2 (following_correct a_policy a_day w no_doubts fan writer Hb Hr ltac:(cbn; set_solver) ltac:(cbn; set_solver))) as H.
  destruct (transaction true (unfollow_user false false fan writer) w) as [[u|e] w']; [|done]. cbn [snd].
  destruct H as (_ & _ & _ & _ & _ & H). apply H. split; [exact Hin|]. intros _ _. exists room. by split.
Defined.

(** The cache is told before the transaction commits: a list that is read in
    between is kept, and what is unfollowed next stays in the timeline for good. *)
Lemma stale_after_commit :
  let uncommitted := (unfollow_board false false fan room following_both).2 in
  let reader := (get_followed_board_ids false fan (set_db (λ _, db following_both) uncommitted)).2 in
  let committed := set_db (λ _, db uncommitted) reader in
  let later := run (run committed (UnfollowUser fan writer)) (ListBoards fan) in
  bool_decide ((fan, an_essay) ∈ entries (db later)) = true
  ∧ bool_decide (user_rows (db later) !! (fan, writer) = Some None) = false ∧ bool_decide (board_rows (db later) !! (fan, room) = Some None) = false.
Proof. vm_compute. done. Qed.
