(* ===== verification/Blog.v ===== *)
(** * Blog: series, stars, comments and files

    Model of [app/modules/blog] (service, repository, git_svc): series and the
    bare repositories that belong to them, stars, trees of comments, files and
    their versions, the file tree, frontmatter, and publishing a file as an item
    of Content. Theorems: every living comment is listed once, below its parent;
    deleting takes away a whole branch; the file tree shows the files; versions
    tell texts apart. Repositories and pushes are in BlogGit. *)

From S2P Require Import Prelude Content.

(** ** Strings *)
Fixpoint lstrip_slash (s : string) : string :=
  match s with String "/" s' => lstrip_slash s' | _ => s end.

Fixpoint rev_string (s acc : string) : string :=
  match s with EmptyString => acc | String c s' => rev_string s' (String c acc) end.

Definition rstrip_slash (s : string) : string := rev_string (lstrip_slash (rev_string s "")) "".

Definition strip_slash (s : string) : string := rstrip_slash (lstrip_slash s).

(** [s.split(sep)] *)
Fixpoint split_at (sep : ascii) (s : string) : list string :=
  match s with
  | EmptyString => [EmptyString]
  | String c s' =>
      if decide (c = sep) then EmptyString :: split_at sep s' else
      match split_at sep s' with
      | p :: ps => String c p :: ps
      | [] => [String c EmptyString]
      end
  end.

Fixpoint join (sep : string) (l : list string) : string :=
  match l with [] => "" | [p] => p | p :: ps => p +:+ sep +:+ join sep ps end.

(** [str.removesuffix] *)
Definition removesuffix (suffix s : string) : string :=
  if String.prefix (rev_string suffix "") (rev_string s "") then String.substring 0 (String.length s - String.length suffix) s else s.

(** [s.replace("# ", "")] *)
Fixpoint without_marks (s : string) : string :=
  match s with
  | EmptyString => EmptyString
  | String c s' =>
      match s' with
      | String d s'' => if decide (c = "#"%char ∧ d = " "%char) then without_marks s'' else String c (without_marks s')
      | EmptyString => s
      end
  end.

(** [str.splitlines] on ASCII *)
Definition line_break (c : ascii) : bool :=
  let n := nat_of_ascii c in bool_decide (n = 10 ∨ n = 11 ∨ n = 12 ∨ n = 13 ∨ n = 28 ∨ n = 29 ∨ n = 30).

Fixpoint lines_from (cur : string) (s : string) : list string :=
  match s with
  | EmptyString => if decide (cur = EmptyString) then [] else [rev_string cur ""]
  | String c s' =>
      if line_break c then
        rev_string cur "" ::
        match s' with
        | String d s'' =>
            if bool_decide (nat_of_ascii c = 13 ∧ nat_of_ascii d = 10) then lines_from EmptyString s'' else lines_from EmptyString s'
        | EmptyString => []
        end
      else lines_from (String c cur) s'
  end.

Definition splitlines (s : string) : list string := lines_from EmptyString s.

(** ** Tables *)
Inductive BlogSeriesStatus := ACTIVE | ARCHIVED.

Record BlogSeries := MkSeries {
  s_owner : uuid;
  s_title : string;
  s_description : option string;
  s_cover : option string;
  repo_name : string;
  s_status : BlogSeriesStatus;
  s_updated_at : Z
}.

Record BlogComment := MkComment {
  c_user : uuid;
  c_series : uuid;
  c_content : string;
  c_parent : option uuid;
  c_created_at : Z;
  c_deleted_at : option Z
}.

Record BlogContent := MkContent {
  text : string;
  sha3 : string;
  version : Z;
  updated_at : Z
}.

Record tables := Tables {
  series_rows : gmap uuid BlogSeries;
  stars : gset (uuid * uuid);                  (* series, user *)
  comments : gmap uuid BlogComment;
  contents : gmap (uuid * string) BlogContent; (* series, path *)
  quarantine : gmap string Z                   (* repo_name: quarantined_at *)
}.

(** What git keeps in a bare repository, and what the calls of git answer. *)
Class Git (G : Type) := {
  init_bare : G;
  rev_parse_head : G → option string;
  diff_tree : string → string → G → string;    (* diff-tree --name-only -r *)
  ls_tree : string → G → string;               (* ls-tree -r --name-only *)
  show_head : string → G → option string       (* show HEAD:path *)
}.

Record world (G : Type) := World {
  db : tables;
  site : Content.world;
  disk : gmap string G                         (* [blog_repo_dir]: repo_name.git *)
}.
Arguments World {G} _ _ _.
Arguments db {G} _.
Arguments site {G} _.
Arguments disk {G} _.

(** ** Lists ([core/common.py]) *)
Definition paginate_offset (page page_size : Z) : Z := (Z.max (page - 1) 0 * Z.max page_size 0)%Z.

Definition paginate_pages (total page_size : Z) : Z :=
  if decide (page_size <= 0)%Z then (if decide (total = 0)%Z then 0 else 1)%Z else ((total + page_size - 1) / page_size)%Z.

Definition newer_id : relation (uuid * BlogSeries) := λ a b, (uuid_int b.1 <= uuid_int a.1)%N.
#[global] Instance newer_id_dec : RelDecision newer_id.
Proof. intros a b. unfold newer_id. apply _. Defined.

Record page_data (A : Type) := PageData { p_items : list A; p_total : Z; p_page : Z; p_pages : Z }.
Arguments PageData {A} _ _ _ _.
Arguments p_items {A} _.
Arguments p_total {A} _.
Arguments p_page {A} _.
Arguments p_pages {A} _.

Section blog.
Context {G : Type} `{Git G}.
Abbreviation W := (world G).
Abbreviation M := (prog W err).

Definition now (w : W) : Z := Content.clock (site w).

Definition set_db (f : tables → tables) (w : W) : W := World (f (db w)) (site w) (disk w).
Definition set_series (f : gmap uuid BlogSeries → gmap uuid BlogSeries) : W → W :=
  set_db (λ d, Tables (f (series_rows d)) (stars d) (comments d) (contents d) (quarantine d)).
Definition set_stars (f : gset (uuid * uuid) → gset (uuid * uuid)) : W → W :=
  set_db (λ d, Tables (series_rows d) (f (stars d)) (comments d) (contents d) (quarantine d)).
Definition set_comments (f : gmap uuid BlogComment → gmap uuid BlogComment) : W → W :=
  set_db (λ d, Tables (series_rows d) (stars d) (f (comments d)) (contents d) (quarantine d)).
Definition set_contents (f : gmap (uuid * string) BlogContent → gmap (uuid * string) BlogContent) : W → W :=
  set_db (λ d, Tables (series_rows d) (stars d) (comments d) (f (contents d)) (quarantine d)).
Definition set_quarantine (f : gmap string Z → gmap string Z) : W → W :=
  set_db (λ d, Tables (series_rows d) (stars d) (comments d) (contents d) (f (quarantine d))).
Definition set_disk (f : gmap string G → gmap string G) (w : W) : W := World (db w) (site w) (f (disk w)).

(** [get_session]: neither Redis nor the disk is rolled back. *)
Definition transaction {A} (commits : bool) (m : M A) : M A := λ w,
  let rolled_back w' := World (db w) (Content.set_db (λ _, Content.db (site w)) (site w')) (disk w') in
  match m w with
  | (Ok a, w') => if commits then (Ok a, w') else (Raise RuntimeError, rolled_back w')
  | (Raise e, w') => (Raise e, rolled_back w')
  end.

(** ** Repositories ([git_svc]) *)
Definition alphanumeric (c : ascii) : bool :=
  let n := nat_of_ascii c in bool_decide (48 ≤ n ≤ 57 ∨ 65 ≤ n ≤ 90 ∨ 97 ≤ n ≤ 122).

Fixpoint word (s : string) : bool :=
  match s with
  | EmptyString => true
  | String c s' =>
      (alphanumeric c || bool_decide (c = "."%char ∨ c = "_"%char ∨ c = "-"%char)) && word s'
      || bool_decide (s = String "010" EmptyString)
  end.

(** [^[A-Za-z0-9][A-Za-z0-9._-]*$]; the dollar also matches before a last line feed. *)
Definition _SAFE_REPO_NAME (s : string) : bool :=
  match s with String c s' => alphanumeric c && word s' | EmptyString => false end.

Fixpoint has_dots (s : string) : bool :=
  match s with
  | String "." (String "." _) => true
  | String _ s' => has_dots s'
  | EmptyString => false
  end.

Definition safe_name (s : string) : bool := _SAFE_REPO_NAME s && negb (has_dots s).

(** [fails]: git itself does not run to its end, and what it made is removed. *)
Definition init_bare_repo (fails : bool) (name : string) : M () :=
  raise_when (negb (safe_name name)) INVALID_INPUT ≫= λ _,
  w ← get_state;
  raise_when (bool_decide (is_Some (disk w !! name))) GIT_ERROR ≫= λ _,
  raise_when fails GIT_ERROR ≫= λ _,
  modify (set_disk <[name := init_bare]>).

(** [rmtree] removes everything, or fails with something left. *)
Definition delete_repo (remains : option G) (name : string) : M () :=
  raise_when (negb (safe_name name)) INVALID_INPUT ≫= λ _,
  w ← get_state;
  if decide (is_Some (disk w !! name)) then
    match remains with
    | None => modify (set_disk (delete name))
    | Some g => modify (set_disk <[name := g]>) ≫= λ _, raise RuntimeError
    end
  else mret tt.

(** ** Series *)
Definition series_named (name : string) (d : tables) : option (uuid * BlogSeries) :=
  List.find (λ kx, bool_decide (repo_name kx.2 = name)) (map_to_list (series_rows d)).

Record BlogSeriesCreate := MkSeriesCreate {
  n_title : string; n_description : option string; n_cover_url : option string; n_repo_name : string }.

(** The answers carry the number of stars and whether the reader gave one. *)
Definition create_series (git_fails : bool) (new u : uuid) (info : BlogSeriesCreate) : M BlogSeries :=
  w ← get_state;
  raise_when (bool_decide (is_Some (series_named (n_repo_name info) (db w)))) INVALID_INPUT ≫= λ _,
  init_bare_repo git_fails (n_repo_name info) ≫= λ _,
  let x := MkSeries u (n_title info) (n_description info) (n_cover_url info) (n_repo_name info) ACTIVE (now w) in
  w ← get_state;
  raise_when (bool_decide (is_Some (series_rows (db w) !! new))) IntegrityError ≫= λ _,
  raise_when (bool_decide (is_Some (series_named (repo_name x) (db w)))) REPO_NAME_TAKEN ≫= λ _,
  modify (set_series <[new := x]>) ≫= λ _,
  mret x.

Record BlogSeriesUpdate := MkSeriesUpdate {
  e_title : option string; e_description : option string; e_cover_url : option string; e_status : option BlogSeriesStatus }.

Definition patched (info : BlogSeriesUpdate) (t : Z) (x : BlogSeries) : BlogSeries :=
  MkSeries (s_owner x) (default (s_title x) (e_title info))
    (match e_description info with Some d => Some d | None => s_description x end)
    (match e_cover_url info with Some c => Some c | None => s_cover x end)
    (repo_name x) (default (s_status x) (e_status info)) t.

Definition update_series (s u : uuid) (info : BlogSeriesUpdate) : M BlogSeries :=
  w ← get_state;
  x ← get_or_raise (series_rows (db w) !! s) SERIES_NOT_FOUND;
  raise_when (bool_decide (s_owner x ≠ u)) FORBIDDEN ≫= λ _,
  let x' := patched info (now w) x in
  modify (set_series <[s := x']>) ≫= λ _,
  mret x'.

(** The row goes with all that belongs to it. *)
Definition cascade (s : uuid) (d : tables) : tables :=
  Tables (delete s (series_rows d)) (filter (λ k, k.1 ≠ s) (stars d)) (filter (λ kc, c_series kc.2 ≠ s) (comments d))
    (filter (λ kx, kx.1.1 ≠ s) (contents d)) (quarantine d).

Definition delete_series (remains : option G) (s u : uuid) (as_admin : bool) : M uuid :=
  w ← get_state;
  x ← get_or_raise (series_rows (db w) !! s) SERIES_NOT_FOUND;
  raise_when (negb as_admin && bool_decide (s_owner x ≠ u)) FORBIDDEN ≫= λ _,
  modify (set_quarantine (delete (repo_name x))) ≫= λ _,
  modify (set_db (cascade s)) ≫= λ _,
  delete_repo remains (repo_name x) ≫= λ _,
  mret (s_owner x).

Definition star_count (s : uuid) (d : tables) : nat := size (filter (λ k, k.1 = s) (stars d)).

Definition toggle_star (s u : uuid) : M (bool * nat) :=
  w ← get_state;
  _ ← get_or_raise (series_rows (db w) !! s) SERIES_NOT_FOUND;
  if decide ((s, u) ∈ stars (db w)) then
    modify (set_stars (.∖ {[(s, u)]})) ≫= λ _, gets (λ w, (false, star_count s (db w)))
  else modify (set_stars (.∪ {[(s, u)]})) ≫= λ _, gets (λ w, (true, star_count s (db w))).

(** ** Lists; without a limit everything is one page *)
Definition list_page (offset limit : option Z) (d : tables) : list (uuid * BlogSeries) :=
  let all := merge_sort newer_id (map_to_list (series_rows d)) in
  let rest := match offset with Some o => drop (Z.to_nat o) all | None => all end in
  match limit with Some l => take (Z.to_nat l) rest | None => rest end.

Definition list_series (reader : option uuid) (page : Z) (limit : option Z) : M (page_data (uuid * BlogSeries * nat * bool)) :=
  w ← get_state;
  let total := Z.of_nat (size (series_rows (db w))) in
  let items := list_page (paginate_offset page <$> limit) limit (db w) in
  mret (PageData
    ((λ kx, (kx, star_count kx.1 (db w),
             match reader with Some u => bool_decide ((kx.1, u) ∈ stars (db w)) | None => false end)) <$> items)
    total page
    (match limit with
     | Some l => if decide (l = 0)%Z then (if decide (total = 0)%Z then 0 else 1)%Z else paginate_pages total l
     | None => if decide (total = 0)%Z then 0 else 1
     end)%Z).

(** ** Comments *)
Definition create_comment (new s u : uuid) (what : string) (parent : option uuid) : M BlogComment :=
  w ← get_state;
  _ ← get_or_raise (series_rows (db w) !! s) SERIES_NOT_FOUND;
  match parent with
  | None => mret tt
  | Some p =>
      c ← get_or_raise (c ← comments (db w) !! p; guard (c_deleted_at c = None);; Some c) INVALID_INPUT;
      raise_when (bool_decide (c_series c ≠ s)) INVALID_INPUT
  end ≫= λ _,
  let c := MkComment u s what parent (now w) None in
  raise_when (bool_decide (is_Some (comments (db w) !! new))) IntegrityError ≫= λ _,
  modify (set_comments <[new := c]>) ≫= λ _,
  mret c.

Definition earlier : relation (uuid * BlogComment) := λ a b, (c_created_at a.2 ≤ c_created_at b.2)%Z.
#[global] Instance earlier_dec : RelDecision earlier.
Proof. intros a b. unfold earlier. apply _. Defined.

Definition live_in (s : uuid) (d : tables) : gmap uuid BlogComment :=
  filter (λ kc, c_series kc.2 = s ∧ c_deleted_at kc.2 = None) (comments d).

Definition list_in_series (s : uuid) (d : tables) : list (uuid * BlogComment) := merge_sort earlier (map_to_list (live_in s d)).

(** The answer: [BlogCommentInfo]. *)
Inductive info := Info (id : uuid) (c : BlogComment) (replies : list info).

(** One round of the second loop, on the lists of replies and the roots. *)
Definition attach (present : gset uuid) (acc : gmap uuid (list uuid) * list uuid) (kc : uuid * BlogComment)
    : gmap uuid (list uuid) * list uuid :=
  match c_parent kc.2 with
  | Some p => if decide (p ∈ present) then (<[p := default [] (acc.1 !! p) ++ [kc.1]]> acc.1, acc.2) else (acc.1, acc.2 ++ [kc.1])
  | None => (acc.1, acc.2 ++ [kc.1])
  end.

(** What the infos look like in the end, followed down to a depth. *)
Fixpoint render (depth : nat) (infos : gmap uuid BlogComment) (replies : gmap uuid (list uuid)) (i : uuid) : option info :=
  match depth with
  | O => None
  | S depth => c ← infos !! i; rs ← mapM (render depth infos replies) (default [] (replies !! i)); Some (Info i c rs)
  end.

(** [None]: the answer has no end. *)
Definition list_comments (s : uuid) : M (option (list info)) :=
  w ← get_state;
  _ ← get_or_raise (series_rows (db w) !! s) SERIES_NOT_FOUND;
  let cs := list_in_series s (db w) in
  let '(replies, roots) := foldl (attach (list_to_set cs.*1)) (∅, []) cs in
  mret (mapM (render (S (length cs)) (list_to_map cs) replies) roots).

(** The recursive query: [None] when it does not come to an end within the fuel. *)
Definition answers_to (m : gmap uuid BlogComment) (i : uuid) : list uuid :=
  (map_to_list (filter (λ kc, c_parent kc.2 = Some i) m)).*1.

Fixpoint comment_tree (fuel : nat) (m : gmap uuid BlogComment) (work : list uuid) : option (list uuid) :=
  match work, fuel with
  | [], _ => Some []
  | _, O => None
  | _, S fuel => (work ++.) <$> comment_tree fuel m (work ≫= answers_to m)
  end.

Definition tree_of (root : uuid) (m : gmap uuid BlogComment) : option (list uuid) :=
  comment_tree (S (size m)) m (if decide (is_Some (m !! root)) then [root] else []).

Definition with_deleted (t : Z) (c : BlogComment) : BlogComment :=
  MkComment (c_user c) (c_series c) (c_content c) (c_parent c) (c_created_at c) (Some t).

Definition marked (t : Z) (ids : list uuid) (m : gmap uuid BlogComment) : gmap uuid BlogComment :=
  map_imap (λ i c, Some (if decide (i ∈ ids ∧ c_deleted_at c = None) then with_deleted t c else c)) m.

Definition soft_delete_subtree (root : uuid) : M () :=
  w ← get_state;
  ids ← get_or_raise (tree_of root (comments (db w))) RuntimeError;
  modify (set_comments (marked (now w) ids)).

Definition delete_comment (s i u : uuid) (as_admin : bool) : M uuid :=
  w ← get_state;
  c ← get_or_raise (c ← comments (db w) !! i; guard (c_series c = s);; Some c) COMMENT_NOT_FOUND;
  raise_when (negb as_admin && bool_decide (c_user c ≠ u)) FORBIDDEN ≫= λ _,
  soft_delete_subtree i ≫= λ _,
  mret (c_user c).

(** ** Files *)
Context (sha3_256 : string → string).

(** [filepath.lstrip("/") or filepath] *)
Definition clean (path : string) : string := let p := lstrip_slash path in if decide (p = EmptyString) then path else p.

Definition get_file_content (s : uuid) (path : string) : M (string * string) :=
  w ← get_state;
  _ ← get_or_raise (series_rows (db w) !! s) SERIES_NOT_FOUND;
  r ← get_or_raise (contents (db w) !! (s, clean path)) FILE_NOT_FOUND;
  mret (clean path, text r).

(** The columns: 500 characters of path, 32 bits of version. *)
Definition insert_content (s : uuid) (path what : string) : M () :=
  raise_when (bool_decide (500 < String.length path)) DataError ≫= λ _,
  modify (λ w, set_contents <[(s, path) := MkContent what (sha3_256 what) 1 (now w)]> w).

Definition rewrite_content (s : uuid) (path what : string) (r : BlogContent) : M () :=
  raise_when (negb (int32 (version r + 1))) DataError ≫= λ _,
  modify (λ w, set_contents <[(s, path) := MkContent what (sha3_256 what) (version r + 1) (now w)]> w).

Definition touched (t : Z) (x : BlogSeries) : BlogSeries :=
  MkSeries (s_owner x) (s_title x) (s_description x) (s_cover x) (repo_name x) (s_status x) t.

Definition write_series_file (s u : uuid) (path what : string) : M () :=
  w ← get_state;
  x ← get_or_raise (series_rows (db w) !! s) SERIES_NOT_FOUND;
  raise_when (bool_decide (s_owner x ≠ u)) FORBIDDEN ≫= λ _,
  match contents (db w) !! (s, clean path) with
  | None => insert_content s (clean path) what
  | Some r => if decide (sha3 r = sha3_256 what) then mret tt else rewrite_content s (clean path) what r
  end ≫= λ _,
  modify (set_series <[s := touched (now w) x]>).

(** ** The file tree *)
Inductive node := Blob | Tree (children : list (string * node)).

(** [node[name] = value] *)
Fixpoint put (name : string) (v : node) (d : list (string * node)) : list (string * node) :=
  match d with
  | [] => [(name, v)]
  | (k, x) :: d' => if decide (k = name) then (k, v) :: d' else (k, x) :: put name v d'
  end.

Fixpoint _ensure (parts : list string) (d : list (string * node)) : list (string * node) :=
  match parts with
  | [] => d
  | name :: rest =>
      let cur := match dict_get name d with Some (Tree c) => c | _ => [] end in
      put name (match rest with [] => Blob | _ => Tree (_ensure rest cur) end) d
  end.

Inductive entry := File (name : string) | Dir (name : string) (children : list entry).
Definition entry_name (e : entry) : string := match e with File n => n | Dir n _ => n end.

Definition by_name : relation entry := λ a b, String.le (entry_name a) (entry_name b).
#[global] Instance by_name_dec : RelDecision by_name.
Proof. intros a b. unfold by_name. apply _. Defined.

(** [sorted(node)]: the names are different. *)
Fixpoint to_entry (name : string) (v : node) : entry :=
  match v with
  | Blob => File name
  | Tree d => Dir name (merge_sort by_name ((λ kv, to_entry kv.1 kv.2) <$> d))
  end.
Definition _to_list (d : list (string * node)) : list entry := merge_sort by_name ((λ kv, to_entry kv.1 kv.2) <$> d).

Definition parts_of (path : string) : list string := split_at "/" (strip_slash path).

Definition _paths_to_file_tree (paths : list string) : list entry := _to_list (foldl (λ d p, _ensure (parts_of p) d) [] paths).

(** No series at all has no tree, rather than an empty one. *)
Definition list_paths (s : uuid) (d : tables) : list string :=
  (λ kx, kx.1.2) <$> map_to_list (filter (λ kx, kx.1.1 = s) (contents d)).

Definition get_series (s : uuid) (reader : option uuid) : M (BlogSeries * nat * bool * option (list entry)) :=
  w ← get_state;
  x ← get_or_raise (series_rows (db w) !! s) SERIES_NOT_FOUND;
  let starred := match reader with Some u => bool_decide ((s, u) ∈ stars (db w)) | None => false end in
  let paths := list_paths s (db w) in
  mret (x, star_count s (db w), starred, match paths with [] => None | _ => Some (_paths_to_file_tree paths) end).

(** ** Publishing *)
(** A value of the frontmatter or of the request: a string, or anything else,
    with its truth and its [str()]. *)
Inductive value := VStr (s : string) | VOther (truthy : bool) (repr : string).
Definition truth (v : value) : bool := match v with VStr s => bool_decide (s ≠ EmptyString) | VOther b _ => b end.
Definition py_str (v : value) : string := match v with VStr s => s | VOther _ r => r end.

(** [a or b] *)
Definition py_or (a b : option value) : option value :=
  match a with Some v => if truth v then a else b | None => b end.

Abbreviation dict := (list (string * value)).

(** [yaml.safe_load]: what is no mapping or fails to parse is [None]. *)
Context (safe_load : string → option dict).

Definition is_rule (l : string) : bool := bool_decide (strip l = "---"%string).

Fixpoint until_rule (ls : list string) : option (list string) :=
  match ls with
  | [] => None
  | l :: ls => if is_rule l then Some [] else (l ::.) <$> until_rule ls
  end.

Definition parse_frontmatter (content : string) : dict :=
  match splitlines content with
  | l :: ls =>
      if is_rule l then
        match until_rule ls with Some body => default [] (safe_load (join (String "010" "") body)) | None => [] end
      else []
  | [] => []
  end.

Definition file_name (path : string) : string := default "" (last (split_at "/" path)).

Definition slug_of (override fm : dict) (path : string) : string :=
  let raw := default (VStr (file_name path)) (py_or (dict_get "slug" override) (
    match dict_get "slug" fm with Some v => if truth v then Some v else None | None => None end)) in
  removesuffix ".md" (removesuffix ".mdx" (py_str raw)).

Definition first_line (content : string) : string := strip (without_marks (default "" (head (split_at "010" content)))).

Definition title_of (override fm : dict) (content slug : string) : string :=
  match py_or (dict_get "title" override) (dict_get "title" fm) with
  | Some v => if truth v then py_str v else if decide (first_line content = EmptyString) then slug else first_line content
  | None => if decide (first_line content = EmptyString) then slug else first_line content
  end.

Definition category_of (override fm : dict) : string :=
  match py_or (dict_get "category" override) (dict_get "category" fm) with
  | Some v => if truth v then py_str v else "blog" | None => "blog" end.

Definition description_of (override fm : dict) : option string :=
  py_str <$> py_or (dict_get "description" override) (dict_get "description" fm).

Context (cfg : Content.settings).

Definition on_site {A} : Content.M A → M A := zoom site (λ s w, World (db w) s (disk w)).

Definition publish_series_file (F : Content.faults) (new_item new_board s u : uuid) (path : string) (override : dict) : M uuid :=
  w ← get_state;
  x ← get_or_raise (series_rows (db w) !! s) SERIES_NOT_FOUND;
  raise_when (bool_decide (s_owner x ≠ u)) FORBIDDEN ≫= λ _,
  r ← get_or_raise (contents (db w) !! (s, clean path)) FILE_NOT_FOUND;
  let fm := parse_frontmatter (text r) in
  let slug := slug_of override fm (clean path) in
  b ← on_site (Content.on_forum (Boards.ensure_by_slug new_board (category_of override fm)));
  on_site (Content.publish_blog_item cfg F new_item u b (Some slug) (title_of override fm (text r) slug) (text r)
             (description_of override fm) None).

(** ** Requests in sequence *)
Inductive request :=
  | CreateSeries (git_fails : bool) (new u : uuid) (info : BlogSeriesCreate)
  | UpdateSeries (s u : uuid) (info : BlogSeriesUpdate)
  | DeleteSeries (remains : option G) (s u : uuid) (as_admin : bool)
  | ToggleStar (s u : uuid)
  | CreateComment (new s u : uuid) (what : string) (parent : option uuid)
  | DeleteComment (s i u : uuid) (as_admin : bool)
  | WriteFile (s u : uuid) (path what : string)
  | Publish (F : Content.faults) (new_item new_board s u : uuid) (path : string) (override : dict).

Definition done_with {A} (m : M A) : M () := _ ← m; mret tt.

Definition body (r : request) : M () :=
  match r with
  | CreateSeries fails new u info => done_with (create_series fails new u info)
  | UpdateSeries s u info => done_with (update_series s u info)
  | DeleteSeries remains s u adm => done_with (delete_series remains s u adm)
  | ToggleStar s u => done_with (toggle_star s u)
  | CreateComment new s u what parent => done_with (create_comment new s u what parent)
  | DeleteComment s i u adm => done_with (delete_comment s i u adm)
  | WriteFile s u path what => write_series_file s u path what
  | Publish F ni nb s u path override => done_with (publish_series_file F ni nb s u path override)
  end.

(** What pushes, the weekly job and the rest of the site do: series and comments
    are left alone. *)
Definition elsewhere (w w' : W) : Prop :=
  series_rows (db w') = series_rows (db w) ∧ stars (db w') = stars (db w) ∧ comments (db w') = comments (db w).

Inductive step (w : W) : W → Prop :=
  | step_request r commits : step w (transaction commits (body r) w).2
  | step_elsewhere w' : elsewhere w w' → step w w'.
End blog.

Arguments request : clear implicits.

(** ** The tree of answers *)
Definition answers (m : gmap uuid BlogComment) (i j : uuid) : Prop := ∃ c, m !! j = Some c ∧ c_parent c = Some i.

(** [j] is in the branch that starts with [i]. *)
Abbreviation below m := (rtc (answers m)).

Definition ranked (m : gmap uuid BlogComment) (rank : uuid → nat) : Prop :=
  ∀ i j, answers m i j → is_Some (m !! i) ∧ rank i < rank j.

Lemma elem_of_answers m i j : j ∈ answers_to m i ↔ answers m i j.
Proof.
  unfold answers_to, answers. rewrite list_elem_of_fmap. split.
  - intros ([j' c] & -> & Hin). apply elem_of_map_to_list, map_lookup_filter_Some in Hin as [??]. eauto.
  - intros (c & Hj & Hp). exists (j, c). split; [done|]. by apply elem_of_map_to_list, map_lookup_filter_Some.
Qed.

Lemma answers_unique m i i' j : answers m i j → answers m i' j → i = i'.
Proof. intros (c & Hc & Hp) (c' & Hc' & Hp'). congruence. Qed.

(** Of two branches that meet one contains the other. *)
Lemma below_linear m a b x : below m a x → below m b x → below m a b ∨ below m b a.
Proof.
  intros Ha Hb. revert x Ha Hb. refine (rtc_ind_r _ a _ _); [by right|]. intros x y Hax Hxy IH Hb.
  apply rtc_inv_r in Hb as [->|(z & Hz & Hzy)]; [left; by eapply rtc_r|].
  rewrite (answers_unique _ _ _ _ Hzy Hxy) in Hz. by apply IH.
Qed.

Lemma below_rank m rank i j : ranked m rank → below m i j → i = j ∨ rank i < rank j.
Proof.
  intros Hr. induction 1 as [|i k j Hik _ IH]; [by left|]. right. destruct (Hr _ _ Hik) as [_ ?]. destruct IH as [->|?]; lia.
Qed.

Lemma below_exists m i j : is_Some (m !! i) → below m i j → is_Some (m !! j).
Proof. intros Hi Hb. apply rtc_inv_r in Hb as [->|(z & _ & c & Hc & _)]; [done|]. by rewrite Hc. Qed.

(** A chain without repetition is no longer than the table. *)
Lemma chain_short {A} (m : gmap uuid A) (l : list uuid) : NoDup l → (∀ y, y ∈ l → is_Some (m !! y)) → length l ≤ size m.
Proof.
  intros Hnd Hl. rewrite <- (size_dom m), <- (size_list_to_set (C:=gset uuid) l Hnd). apply subseteq_size.
  intros y Hy%elem_of_list_to_set. by apply elem_of_dom, Hl.
Qed.

(** Those above [x], as many as a search has gone down. *)
Definition above {A} (m : gmap uuid A) (rank : uuid → nat) (x : uuid) (n : nat) : Prop :=
  ∃ l, NoDup l ∧ (∀ y, y ∈ l → is_Some (m !! y) ∧ rank y < rank x) ∧ size m < length l + n.

Lemma above_start {A} (m : gmap uuid A) rank x n : size m < n → above m rank x n.
Proof. intros Hn. exists []. split; [constructor|]. split; [by intros y ?%elem_of_nil|done]. Qed.

Lemma above_down {A} (m : gmap uuid A) rank x y n :
  is_Some (m !! x) → rank x < rank y → above m rank x (S n) → above m rank y n.
Proof.
  intros Hx Hr (l & Hnd & Hl & Hsz). exists (x :: l). split_and!.
  - constructor; [|done]. intros Hin. apply Hl in Hin as [_ ?]. lia.
  - intros z [->|Hz]%elem_of_cons; [done|]. apply Hl in Hz as [? ?]. split; [done|lia].
  - cbn. lia.
Qed.

Lemma above_not_zero {A} (m : gmap uuid A) rank x : ¬ above m rank x 0.
Proof. intros (l & Hnd & Hl & Hsz). pose proof (chain_short m l Hnd (λ y Hy, proj1 (Hl y Hy))). lia. Qed.

Lemma comment_tree_spec m n work ids :
  comment_tree n m work = Some ids → ∀ j, j ∈ ids ↔ ∃ i, i ∈ work ∧ below m i j.
Proof.
  revert work ids. induction n as [|n IH]; intros work ids Ht j.
  - destruct work; [|done]. inversion Ht. subst. split; [by intros ?%elem_of_nil|]. by intros (i & ?%elem_of_nil & _).
  - destruct work as [|x work]; [inversion Ht; subst; split; [by intros ?%elem_of_nil|by intros (i & ?%elem_of_nil & _)]|].
    cbn [comment_tree] in Ht. apply fmap_Some in Ht as (rest & Hrest & ->). rewrite elem_of_app, (IH _ _ Hrest j). split.
    + intros [Hj|(k & Hk & Hb)]; [by exists j|]. apply list_elem_of_bind in Hk as (i & Hk & Hi). exists i. split; [done|].
      eapply rtc_l; [by apply elem_of_answers|done].
    + intros (i & Hi & Hb). apply rtc_inv in Hb as [->|(k & Hk & Hb)]; [by left|]. right. exists k. split; [|done].
      apply list_elem_of_bind. exists i. split; [by apply elem_of_answers|done].
Qed.

Lemma comment_tree_ends m rank n work :
  ranked m rank → (∀ x, x ∈ work → is_Some (m !! x) ∧ above m rank x n) → is_Some (comment_tree n m work).
Proof.
  intros Hr. revert work. induction n as [|n IH]; intros work Hw.
  - destruct work as [|x work]; [done|]. destruct (Hw x) as [_ Ha]; [by left|]. by apply above_not_zero in Ha.
  - destruct work as [|x work]; [done|]. cbn [comment_tree]. destruct (IH ((x :: work) ≫= answers_to m)) as [rest ->]; [|done].
    intros y Hy. apply list_elem_of_bind in Hy as (i & Hy%elem_of_answers & Hi). destruct (Hw i Hi) as [Hm Ha].
    destruct Hy as (c & Hc & Hp). split; [by rewrite Hc|]. apply (above_down m rank i); [done| |done]. eapply Hr. by exists c.
Qed.

Lemma tree_of_spec m rank root : ranked m rank → is_Some (m !! root) →
  ∃ ids, tree_of root m = Some ids ∧ ∀ j, j ∈ ids ↔ below m root j.
Proof.
  intros Hr Hm. unfold tree_of. rewrite decide_True by done.
  destruct (comment_tree_ends m rank (S (size m)) [root] Hr) as [ids Hids].
  { intros x ->%list_elem_of_singleton. split; [done|]. apply above_start. lia. }
  exists ids. split; [done|]. intros j. rewrite (comment_tree_spec _ _ _ _ Hids). split.
  - by intros (i & ->%list_elem_of_singleton & Hb).
  - intros Hb. exists root. split; [by apply list_elem_of_singleton|done].
Qed.

(** ** The list of comments *)
Section forest.
Context (cs : list (uuid * BlogComment)) (Hnd : NoDup cs.*1).
Abbreviation infos := (list_to_map cs : gmap uuid BlogComment).
Abbreviation present := (list_to_set cs.*1 : gset uuid).

Definition child_ids (p : uuid) (l : list (uuid * BlogComment)) : list uuid := (filter (λ kc, c_parent kc.2 = Some p) l).*1.
Definition is_root (kc : uuid * BlogComment) : Prop := match c_parent kc.2 with Some p => p ∉ present | None => True end.
#[global] Instance is_root_dec kc : Decision (is_root kc).
Proof. unfold is_root. destruct (c_parent kc.2); apply _. Defined.

Lemma elem_of_infos i c : infos !! i = Some c ↔ (i, c) ∈ cs.
Proof. symmetry. by apply elem_of_list_to_map. Qed.

Lemma elem_of_present i : i ∈ present ↔ is_Some (infos !! i).
Proof.
  rewrite elem_of_list_to_set, list_elem_of_fmap. split.
  - intros ([i' c] & -> & Hin). exists c. by apply elem_of_infos.
  - intros [c Hc%elem_of_infos]. by exists (i, c).
Qed.

Lemma child_ids_cons p i c l :
  child_ids p ((i, c) :: l) = (if decide (c_parent c = Some p) then [i] else []) ++ child_ids p l.
Proof. unfold child_ids. rewrite filter_cons. cbn [snd]. by case_decide. Qed.

Lemma attach_spec l acc : let '(replies, roots) := foldl (attach present) acc l in
  roots = acc.2 ++ (filter is_root l).*1
  ∧ ∀ p, default [] (replies !! p) = default [] (acc.1 !! p) ++ (if decide (p ∈ present) then child_ids p l else []).
Proof.
  revert acc. induction l as [|[i c] l IH]; intros [r o]; cbn [foldl].
  - cbn. split; [by rewrite app_nil_r|]. intros p. unfold child_ids. case_decide; cbn; by rewrite app_nil_r.
  - specialize (IH (attach present (r, o) (i, c))). destruct (foldl _ _ l) as [replies roots]. destruct IH as [-> IH].
    unfold attach in *. rewrite filter_cons. cbn [fst snd] in *. destruct (c_parent c) as [q|] eqn:Hq.
    + destruct (decide (q ∈ present)) as [Hin|Hin].
      * rewrite (decide_False (P := is_root (i, c))) by (unfold is_root; cbn; rewrite Hq; tauto). split; [done|].
        intros p. rewrite IH, child_ids_cons, Hq. cbn [fst]. destruct (decide (p = q)) as [->|Hne].
        -- rewrite lookup_insert_eq, !decide_True by done. cbn. by rewrite <- app_assoc.
        -- rewrite lookup_insert_ne by done. f_equal. case_decide; [|done]. by rewrite decide_False by congruence.
      * rewrite (decide_True (P := is_root (i, c))) by (unfold is_root; cbn; by rewrite Hq). cbn [snd fmap list_fmap fst].
        split; [by rewrite <- app_assoc|]. intros p. rewrite IH, child_ids_cons, Hq. cbn [fst]. f_equal. case_decide; [|done].
        rewrite decide_False; [done|]. intros [= He]. subst. exact (Hin H).
    + rewrite (decide_True (P := is_root (i, c))) by (unfold is_root; cbn; by rewrite Hq). cbn [snd fmap list_fmap fst].
      split; [by rewrite <- app_assoc|]. intros p. rewrite IH, child_ids_cons, Hq. cbn [fst]. done.
Qed.

Fixpoint flatten (x : info) : list (uuid * BlogComment) :=
  match x with Info i c rs => (i, c) :: concat (flatten <$> rs) end.

Definition info_id (x : info) : uuid := match x with Info i _ _ => i end.
Definition info_comment (x : info) : BlogComment := match x with Info _ c _ => c end.

(** Every reply stands below its parent, the older ones first. *)
Definition chronological (l : list info) : Prop :=
  Sorted (λ a b, (c_created_at (info_comment a) ≤ c_created_at (info_comment b))%Z) l.

Fixpoint threaded (parent : option uuid) (x : info) : Prop :=
  match x with
  | Info i c rs => c_parent c = parent ∧ chronological rs ∧ foldr (λ r P, threaded (Some i) r ∧ P) True rs
  end.

Context (rank : uuid → nat) (Hrank : ranked infos rank).
Context (replies : gmap uuid (list uuid)).
Context (Hreplies : ∀ p, is_Some (infos !! p) → default [] (replies !! p) = child_ids p cs).

Lemma elem_of_child_ids p j : j ∈ child_ids p cs ↔ answers infos p j.
Proof.
  unfold child_ids, answers. rewrite list_elem_of_fmap. split.
  - intros ([j' c] & -> & [Hp Hin]%list_elem_of_filter). exists c. split; [by apply elem_of_infos|done].
  - intros (c & Hc%elem_of_infos & Hp). exists (j, c). split; [done|]. by apply list_elem_of_filter.
Qed.

Lemma render_ends n i : is_Some (infos !! i) → above infos rank i n → is_Some (render n infos replies i).
Proof.
  revert i. induction n as [|n IH]; intros i Hi Ha; [by apply above_not_zero in Ha|].
  cbn [render]. destruct (infos !! i) as [c|] eqn:Hc; [|by destruct Hi]. cbn. rewrite (Hreplies i) by (by rewrite Hc).
  destruct (mapM (render n infos replies) (child_ids i cs)) as [rs|] eqn:Hrs; [done|]. exfalso.
  apply mapM_None_1 in Hrs. apply Exists_exists in Hrs as (j & Hj & Hnone). apply elem_of_child_ids in Hj.
  destruct (IH j) as [x Hx]; [|by eapply above_down; [rewrite Hc|eapply Hrank|]|congruence].
  destruct Hj as (cj & -> & _). done.
Qed.

(** What a rendering shows. *)
Definition shows (i : uuid) (x : info) : Prop :=
  ∃ c, infos !! i = Some c ∧ info_id x = i ∧ info_comment x = c ∧ threaded (c_parent c) x
  ∧ NoDup (flatten x).*1 ∧ (∀ j cj, (j, cj) ∈ flatten x ↔ infos !! j = Some cj ∧ below infos i j).

(** Branches none of which contains another, side by side. *)
Lemma side_by_side l rs : Forall2 shows l rs → NoDup l → (∀ k k', k ∈ l → k' ∈ l → below infos k k' → k = k') →
  NoDup (concat (flatten <$> rs)).*1
  ∧ ∀ j cj, (j, cj) ∈ concat (flatten <$> rs) ↔ infos !! j = Some cj ∧ ∃ k, k ∈ l ∧ below infos k j.
Proof.
  intros Hs. induction Hs as [|k x l rs (c & _ & _ & _ & _ & Hx & Hfx) _ IH]; intros Hl Hap.
  - split; [constructor|]. intros j cj. cbn. split; [by intros ?%elem_of_nil|]. by intros (_ & k & ?%elem_of_nil & _).
  - apply NoDup_cons in Hl as [Hk Hl]. destruct IH as [Hnd' Hel]; [done|intros; apply Hap; [by right..|done]|].
    cbn. rewrite fmap_app. split.
    + apply NoDup_app. split_and!; [done| |done]. intros j Hj Hj'.
      apply list_elem_of_fmap in Hj as ([j1 c1] & -> & Hj). apply list_elem_of_fmap in Hj' as ([j2 c2] & Heq & Hj'). cbn in Heq. subst j2.
      apply Hfx in Hj as [_ Hb]. apply Hel in Hj' as [_ (k' & Hk' & Hb')]. destruct (below_linear _ _ _ _ Hb Hb') as [Hkk|Hkk].
      * rewrite (Hap k k') in Hk; [done|by left|by right|done].
      * rewrite <- (Hap k' k) in Hk; [done|by right|by left|done].
    + intros j cj. rewrite elem_of_app, Hfx, Hel. split.
      * intros [[? ?]|[? (k' & ? & ?)]]; (split; [done|]); [exists k|exists k']; (split; [|done]); [by left|by right].
      * intros [? (k' & [->|?]%elem_of_cons & ?)]; [by left|right]. split; [done|]. by exists k'.
Qed.

Lemma shows_chronological l rs : StronglySorted earlier l → (∀ kc, kc ∈ l → kc ∈ cs) → Forall2 shows l.*1 rs → chronological rs.
Proof.
  intros Hs Hin Hf. assert (Hc : info_comment <$> rs = l.*2).
  { clear Hs. revert rs Hf. induction l as [|[i c] l IH]; intros rs Hf; inversion Hf as [|? x ? rs' Hx Hf']; subst; [done|]. cbn. f_equal.
    - destruct Hx as (c' & Hc' & _ & -> & _). apply elem_of_infos in Hc'.
      assert (Hic : (i, c) ∈ cs) by (apply Hin; by left). apply elem_of_infos in Hc', Hic. congruence.
    - apply IH; [intros; apply Hin; by right|done]. }
  clear Hin Hf. apply StronglySorted_Sorted. revert rs Hc.
  induction Hs as [|a l _ IH Ha]; intros [|x rs] Hc; try done; [constructor|]. cbn in Hc. injection Hc as Hx Hc.
  constructor; [by apply IH|]. apply Forall_forall. intros y Hy. rewrite Hx.
  apply (list_elem_of_fmap_2 info_comment) in Hy. rewrite Hc in Hy. apply list_elem_of_fmap in Hy as (b & -> & Hb).
  rewrite Forall_forall in Ha. exact (Ha b Hb).
Qed.

Lemma siblings_apart i k k' : answers infos i k → answers infos i k' → below infos k k' → k = k'.
Proof.
  intros Hk Hk' Hb. apply rtc_inv_r in Hb as [|(y & Hy & Hyk')]; [done|]. exfalso.
  rewrite (answers_unique _ _ _ _ Hyk' Hk') in Hy. destruct (Hrank _ _ Hk) as [_ ?].
  destruct (below_rank _ _ _ _ Hrank Hy) as [->|?]; lia.
Qed.

Context (Hsorted : StronglySorted earlier cs).

Lemma StronglySorted_filter (P : uuid * BlogComment → Prop) `{∀ x, Decision (P x)} l :
  StronglySorted earlier l → StronglySorted earlier (filter P l).
Proof.
  induction 1 as [|a l _ IH Ha]; [constructor|]. rewrite filter_cons. case_decide; [|done]. constructor; [done|].
  apply Forall_forall. intros b [_ Hb]%list_elem_of_filter. rewrite Forall_forall in Ha. by apply Ha.
Qed.

Lemma render_shows n i x : render n infos replies i = Some x → shows i x.
Proof.
  revert i x. induction n as [|n IH]; intros i x; [done|]. cbn [render].
  destruct (infos !! i) as [c|] eqn:Hc; [|done]. cbn. rewrite (Hreplies i) by (by rewrite Hc).
  destruct (mapM (render n infos replies) (child_ids i cs)) as [rs|] eqn:Hrs; [|done]. intros [= <-].
  assert (Hf : Forall2 shows (child_ids i cs) rs).
  { apply mapM_Some in Hrs. eapply Forall2_impl; [exact Hrs|]. intros j y Hj. by apply IH. }
  destruct (side_by_side _ _ Hf) as [Hnd' Hel].
  { eapply sublist_NoDup; [exact Hnd|]. apply fmap_sublist, sublist_filter. }
  { intros k k' Hk%elem_of_child_ids Hk'%elem_of_child_ids. by apply (siblings_apart i). }
  exists c. do 3 (split; [done|]). split; [|split].
  - cbn. split; [done|]. split.
    + eapply (shows_chronological (filter (λ kc, c_parent kc.2 = Some i) cs)); [by apply StronglySorted_filter| |exact Hf].
      by intros kc [_ ?]%list_elem_of_filter.
    + assert (Hp : ∀ j, j ∈ child_ids i cs → answers infos i j) by (intros j; apply elem_of_child_ids).
      clear -Hf Hp. induction Hf as [|j y l rs (cj & Hj & _ & _ & Ht & _) _ IHf]; [done|]. cbn. split; [|apply IHf; intros; apply Hp; by right].
      destruct (Hp j) as (c' & Hc' & Hpar); [by left|]. rewrite Hj in Hc'. injection Hc' as <-. by rewrite <- Hpar.
  - cbn. apply NoDup_cons. split; [|done]. intros Hin. apply list_elem_of_fmap in Hin as ([j cj] & -> & Hj). cbn in *.
    apply Hel in Hj as [_ (k & Hk%elem_of_child_ids & Hb)]. destruct (Hrank _ _ Hk) as [_ ?].
    destruct (below_rank _ _ _ _ Hrank Hb) as [->|?]; lia.
  - intros j cj. cbn. rewrite elem_of_cons, Hel. split.
    + intros [[= -> ->]|(Hj & k & Hk%elem_of_child_ids & Hb)]; [done|]. split; [done|]. by eapply rtc_l.
    + intros [Hj Hb]. apply rtc_inv in Hb as [->|(k & Hk & Hb)]; [left; congruence|]. right. split; [done|]. exists k.
      split; [by apply elem_of_child_ids|done].
Qed.
End forest.

(** ** The comments are trees *)
Record comments_ok (d : tables) : Prop := {
  comment_series i c : comments d !! i = Some c → is_Some (series_rows d !! c_series c);
  comment_parent i c p : comments d !! i = Some c → c_parent c = Some p →
    ∃ cp, comments d !! p = Some cp ∧ c_series cp = c_series c ∧ (c_deleted_at c = None → c_deleted_at cp = None);
  comment_ranks : ∃ rank, ranked (comments d) rank
}.

Lemma lookup_live_in s d i c : live_in s d !! i = Some c ↔ comments d !! i = Some c ∧ c_series c = s ∧ c_deleted_at c = None.
Proof. unfold live_in. by rewrite map_lookup_filter_Some. Qed.

Lemma live_answers s d i j : answers (live_in s d) i j → answers (comments d) i j.
Proof. intros (c & [Hc _]%lookup_live_in & Hp). by exists c. Qed.

Lemma live_ranked s d rank : comments_ok d → ranked (comments d) rank → ranked (live_in s d) rank.
Proof.
  intros Hok Hr i j Hij. destruct (Hr i j (live_answers _ _ _ _ Hij)) as [_ Hlt]. split; [|done].
  destruct Hij as (c & (Hc & Hs & Hl)%lookup_live_in & Hp). destruct (comment_parent _ Hok _ _ _ Hc Hp) as (cp & Hcp & Hsp & Hlp).
  exists cp. apply lookup_live_in. split; [done|]. split; [congruence|]. by apply Hlp.
Qed.

#[local] Instance earlier_trans : Transitive earlier.
Proof. intros a b c. unfold earlier. lia. Qed.
#[local] Instance earlier_total : Total earlier.
Proof. intros a b. unfold earlier. lia. Qed.

(** Every comment stands below some root. *)
Lemma below_root s d rank i : comments_ok d → ranked (live_in s d) rank → is_Some (live_in s d !! i) →
  ∃ r c, live_in s d !! r = Some c ∧ c_parent c = None ∧ below (live_in s d) r i.
Proof.
  intros Hok Hr. remember (rank i) as n eqn:Hn. revert i Hn. induction (lt_wf n) as [n _ IH]. intros i -> [c Hc].
  destruct (c_parent c) as [p|] eqn:Hp; [|by exists i, c]. assert (Ha : answers (live_in s d) p i) by (by exists c).
  destruct (Hr _ _ Ha) as [Hi Hlt]. destruct (IH _ Hlt p eq_refl Hi) as (r & cr & Hcr & Hnone & Hb).
  exists r, cr. split_and!; [done..|]. by eapply rtc_r.
Qed.

Section listing.
Context {G : Type} `{Git G}.

Lemma list_comments_spec s (w : world G) : comments_ok (db w) → is_Some (series_rows (db w) !! s) →
  ∃ forest, list_comments s w = (Ok (Some forest), w)
  ∧ concat (flatten <$> forest) ≡ₚ map_to_list (live_in s (db w))
  ∧ Forall (threaded None) forest ∧ chronological forest.
Proof.
  intros Hok [x Hx]. destruct (comment_ranks _ Hok) as [rank Hrank0]. pose proof (live_ranked s _ _ Hok Hrank0) as Hrank.
  unfold list_comments. rewrite run_get_state, Hx, run_get_or_raise. set (cs := list_in_series s (db w)).
  assert (Hperm : cs ≡ₚ map_to_list (live_in s (db w))) by apply merge_sort_Permutation.
  assert (Hnd : NoDup cs.*1) by (rewrite Hperm; apply NoDup_fst_map_to_list).
  assert (Hmap : (list_to_map cs : gmap uuid BlogComment) = live_in s (db w)).
  { rewrite <- (list_to_map_to_list (live_in s (db w))). by apply list_to_map_proper. }
  pose proof (StronglySorted_merge_sort earlier (map_to_list (live_in s (db w)))) as Hsorted. fold (list_in_series s (db w)) in Hsorted. fold cs in Hsorted.
  pose proof (attach_spec cs cs (∅, [])) as Hat. destruct (foldl _ _ cs) as [replies roots0]. destruct Hat as [Hr0 Hreplies].
  cbn [snd app] in Hr0. subst roots0.
  cbn [fst snd] in Hreplies. setoid_rewrite lookup_empty in Hreplies.
  assert (Hrep : ∀ p, is_Some ((list_to_map cs : gmap uuid BlogComment) !! p) → default [] (replies !! p) = child_ids p cs).
  { intros p Hp. rewrite Hreplies, decide_True; [done|]. by apply (elem_of_present cs Hnd). }
  rewrite <- Hmap in Hrank. set (roots := filter (is_root cs) cs). unfold mret, prog_ret.
  assert (Hroot : ∀ i c, (i, c) ∈ roots ↔ live_in s (db w) !! i = Some c ∧ c_parent c = None).
  { intros i c. unfold roots. rewrite list_elem_of_filter, <- (elem_of_infos cs Hnd), Hmap. unfold is_root. cbn.
    split; [|by intros [? ->]]. intros [Hp Hc]. split; [done|]. destruct (c_parent c) as [p|] eqn:Hpar; [|done]. destruct Hp.
    apply (elem_of_present cs Hnd). rewrite <- Hmap in Hc. eapply (Hrank p i). by exists c. }
  assert (Hf : ∃ forest, mapM (render (S (length cs)) (list_to_map cs) replies) roots.*1 = Some forest).
  { destruct (mapM _ roots.*1) as [f|] eqn:Hn; [by exists f|]. exfalso. apply mapM_None_1, Exists_exists in Hn as (i & Hi & Hn).
    apply list_elem_of_fmap in Hi as ([i' c] & -> & Hi). apply Hroot in Hi as [Hi _].
    destruct (render_ends cs Hnd rank Hrank replies Hrep (S (length cs)) i') as [y Hy]; [by rewrite Hmap, Hi| |cbn in Hn, Hy; cbn in Hy; rewrite Hn in Hy; done].
    apply above_start. rewrite Hmap, <- length_map_to_list, <- Hperm. lia. }
  destruct Hf as [forest Hf]. exists forest. split; [by rewrite Hf|].
  assert (Hs : Forall2 (shows cs) roots.*1 forest).
  { apply mapM_Some in Hf. eapply Forall2_impl; [exact Hf|]. intros i y Hy. apply (render_shows cs Hnd rank Hrank replies Hrep Hsorted (S (length cs))), Hy. }
  destruct (side_by_side cs _ _ Hs) as [Hnd' Hel].
  { eapply sublist_NoDup; [exact Hnd|]. apply fmap_sublist, sublist_filter. }
  { intros k k' Hk Hk' Hb. apply rtc_inv_r in Hb as [|(y & _ & c & Hc & Hp)]; [done|]. exfalso.
    apply list_elem_of_fmap in Hk' as ([k2 c'] & -> & [Hk' Hn]%Hroot). rewrite Hmap in Hc. cbn in *. congruence. }
  split_and!.
  - apply NoDup_Permutation; [by eapply NoDup_fmap_1|apply NoDup_map_to_list|]. intros [j cj].
    rewrite Hel, elem_of_map_to_list, Hmap. split; [by intros [? _]|]. intros Hj. split; [done|].
    destruct (below_root s (db w) rank j Hok) as (r & cr & Hr & Hn & Hb); [by rewrite <- Hmap|by rewrite Hj|]. exists r. split; [|done].
    apply list_elem_of_fmap. exists (r, cr). split; [done|]. by apply Hroot.
  - clear -Hs Hroot Hmap. assert (Hr : ∀ i c, (i, c) ∈ roots → c_parent c = None ∧ (list_to_map cs : gmap _ _) !! i = Some c).
    { intros i c [Hi Hp]%Hroot. by rewrite Hmap. } clear Hroot. revert forest Hs. induction roots as [|[i c] l IH]; intros forest Hs;
      inversion Hs as [|? y ? f' Hy Hs']; subst; [constructor|]. constructor; [|apply IH; [intros; apply Hr; by right|done]].
    destruct (Hr i c) as [Hn Hi]; [by left|]. destruct Hy as (c' & Hc' & _ & _ & Ht & _). cbn in Hc'. rewrite Hi in Hc'. injection Hc' as <-. by rewrite <- Hn.
  - apply (shows_chronological cs Hnd roots); [by apply StronglySorted_filter| |done]. by intros kc [_ ?]%list_elem_of_filter.
Qed.
End listing.

Section kept.
Context {G : Type} `{Git G} (sha3_256 : string → string) (safe_load : string → option (list (string * value))) (cfg : Content.settings).
Abbreviation W := (world G).

(** Comments stay, and so do the series. *)
Definition grows (w w' : W) : Prop :=
  comments (db w') = comments (db w) ∧ ∀ s, is_Some (series_rows (db w) !! s) → is_Some (series_rows (db w') !! s).

#[local] Instance grows_preorder : PreOrder grows.
Proof. split; [by intros w|]. intros w1 w2 w3 [E1 S1] [E2 S2]. split; [congruence|auto]. Qed.

Lemma grows_ok w w' : grows w w' → comments_ok (db w) → comments_ok (db w').
Proof.
  intros [E S] Hok. split; rewrite E; [|apply Hok..]. intros i c Hc. apply S. by eapply comment_series.
Qed.

Lemma grows_series s x (w : W) : grows w (set_series <[s := x]> w).
Proof.
  split; [done|]. intros s' Hs. cbn. destruct (decide (s' = s)) as [->|]; [by rewrite lookup_insert_eq|by rewrite lookup_insert_ne].
Qed.

Lemma grows_same (w w' : W) : comments (db w') = comments (db w) → series_rows (db w') = series_rows (db w) → grows w w'.
Proof. intros E S. split; [done|]. by rewrite S. Qed.

#[local] Hint Resolve grows_series : respects.
#[local] Hint Extern 1 (respects grows (modify _)) => apply respects_modify; intros; first [apply grows_series|by apply grows_same] : respects.

Lemma grows_site {A} (m : Content.M A) : respects grows (on_site m).
Proof. intros w. unfold on_site, zoom. destruct (m _). by apply grows_same. Qed.
#[local] Hint Resolve grows_site : respects.

Definition grows_only (r : request G) : bool :=
  match r with DeleteSeries _ _ _ _ | CreateComment _ _ _ _ _ | DeleteComment _ _ _ _ => false | _ => true end.

Lemma request_grows r : grows_only r = true → respects grows (body sha3_256 safe_load cfg r).
Proof.
  destruct r; intros Hr; try done; cbn [body]; unfold done_with, create_series, init_bare_repo, update_series, toggle_star,
    write_series_file, insert_content, rewrite_content, publish_series_file; respects.
Qed.

Lemma cascade_ok s d : comments_ok d → comments_ok (cascade s d).
Proof.
  intros Hok. split; unfold cascade; cbn.
  - intros i c [Hc Hs]%map_lookup_filter_Some. cbn in Hs. rewrite lookup_delete_ne by done. by eapply comment_series.
  - intros i c p [Hc Hs]%map_lookup_filter_Some Hp. destruct (comment_parent _ Hok _ _ _ Hc Hp) as (cp & Hcp & Hsp & Hlp).
    exists cp. rewrite map_lookup_filter_Some. cbn in *. by rewrite Hsp.
  - destruct (comment_ranks _ Hok) as [rank Hr]. exists rank. intros i j (c & [Hc Hs]%map_lookup_filter_Some & Hp).
    destruct (Hr i j) as [_ ?]; [by exists c|]. split; [|done]. destruct (comment_parent _ Hok _ _ _ Hc Hp) as (cp & Hcp & Hsp & _).
    exists cp. apply map_lookup_filter_Some. cbn in *. by rewrite Hsp.
Qed.

Lemma new_comment_ok new c d : comments_ok d → comments d !! new = None → is_Some (series_rows d !! c_series c) → c_deleted_at c = None →
  (∀ p, c_parent c = Some p → ∃ cp, comments d !! p = Some cp ∧ c_series cp = c_series c ∧ c_deleted_at cp = None) →
  comments_ok (Tables (series_rows d) (stars d) (<[new := c]> (comments d)) (contents d) (quarantine d)).
Proof.
  intros Hok Hnew Hs Hl Hp. assert (Hold : ∀ p cp, comments d !! p = Some cp → <[new := c]> (comments d) !! p = Some cp).
  { intros p cp Hcp. rewrite lookup_insert_ne; [done|]. intros ->. congruence. } split; cbn.
  - intros i x [[-> ->]|[_ Hx]]%lookup_insert_Some; [done|]. by eapply comment_series.
  - intros i x p [[<- <-]|[_ Hx]]%lookup_insert_Some Hpx.
    + destruct (Hp _ Hpx) as (cp & Hcp & ? & ?). exists cp. auto.
    + destruct (comment_parent _ Hok _ _ _ Hx Hpx) as (cp & Hcp & ? & ?). exists cp. auto.
  - destruct (comment_ranks _ Hok) as [rank Hr].
    exists (λ i, if decide (i = new) then S (match c_parent c with Some p => rank p | None => 0 end) else rank i).
    intros i j (x & [[<- <-]|[Hne Hx]]%lookup_insert_Some & Hpx).
    + destruct (Hp _ Hpx) as (cp & Hcp & _). assert (i ≠ new) by (intros ->; congruence).
      rewrite (Hold _ _ Hcp), Hpx, (decide_False (P := i = new)), decide_True by done. split; [done|lia].
    + destruct (Hr i j) as [[y Hy] ?]; [by exists x|]. assert (i ≠ new) by (intros ->; congruence).
      rewrite (Hold _ _ Hy), !decide_False by done. done.
Qed.

Lemma lookup_marked t ids m i :
  marked t ids m !! i = (λ c, if decide (i ∈ ids ∧ c_deleted_at c = None) then with_deleted t c else c) <$> m !! i.
Proof. unfold marked. rewrite map_lookup_imap. by destruct (m !! i). Qed.

Lemma marked_answers t ids m i j : answers (marked t ids m) i j ↔ answers m i j.
Proof.
  unfold answers. rewrite lookup_marked. split.
  - intros (c & (c0 & Hc & ->)%fmap_Some & Hp). exists c0. split; [done|]. by case_decide.
  - intros (c & -> & Hp). eexists. split; [done|]. by case_decide.
Qed.

(** A branch is marked as a whole. *)
Lemma marked_ok t ids d : comments_ok d → (∀ i j, i ∈ ids → answers (comments d) i j → j ∈ ids) →
  comments_ok (Tables (series_rows d) (stars d) (marked t ids (comments d)) (contents d) (quarantine d)).
Proof.
  intros Hok Hcl. split; cbn.
  - intros i c. rewrite lookup_marked. intros (c0 & Hc & ->)%fmap_Some. pose proof (comment_series _ Hok _ _ Hc). by case_decide.
  - intros i c p. rewrite lookup_marked. intros (c0 & Hc & ->)%fmap_Some Hp. assert (Hp0 : c_parent c0 = Some p) by (by revert Hp; case_decide).
    destruct (comment_parent _ Hok _ _ _ Hc Hp0) as (cp & Hcp & Hsp & Hlp). rewrite lookup_marked, Hcp. eexists. split; [done|].
    split; [by repeat case_decide|]. case_decide as Hi; [done|]. intros Hl. rewrite decide_False; [by apply Hlp|].
    intros [Hin _]. apply Hi. split; [|done]. eapply Hcl; [exact Hin|]. by exists c0.
  - destruct (comment_ranks _ Hok) as [rank Hr]. exists rank. intros i j Ha%marked_answers. destruct (Hr _ _ Ha) as [[y Hy] ?].
    rewrite lookup_marked, Hy. by split; [eexists|].
Qed.

(** What deleting a comment marks: the branch that starts with it. *)
Definition pruned (i : uuid) (t : Z) (d d' : tables) : Prop :=
  ∃ ids, (∀ j, j ∈ ids ↔ below (comments d) i j)
  ∧ d' = Tables (series_rows d) (stars d) (marked t ids (comments d)) (contents d) (quarantine d).

Lemma delete_comment_wp s i u adm (w : W) : comments_ok (db w) →
  wp (delete_comment s i u adm)
     (λ a w', ∃ c, comments (db w) !! i = Some c ∧ c_series c = s ∧ c_user c = a ∧ (adm = true ∨ a = u)
              ∧ pruned i (now w) (db w) (db w') ∧ site w' = site w ∧ disk w' = disk w)
     (λ e w', w' = w ∧ (e = COMMENT_NOT_FOUND ∧ (∀ c, comments (db w) !! i = Some c → c_series c ≠ s)
              ∨ e = FORBIDDEN ∧ adm = false ∧ ∃ c, comments (db w) !! i = Some c ∧ c_series c = s ∧ c_user c ≠ u)) w.
Proof.
  intros Hok. unfold delete_comment, soft_delete_subtree. wp_step. wp_step. wp_step. wp_step.
  - rename H0 into Hn. split; [done|]. left. split; [done|]. intros c Hc Hs. rewrite Hc in Hn. cbn in Hn. by rewrite option_guard_True in Hn.
  - rename H0 into Hg. apply bind_Some in Hg as (c & Hc & Hg). case_guard as Hs; [|done]. injection Hg as <-.
    wp_step. wp_step.
    + apply andb_true_iff in H0 as [Ha%negb_true_iff Hu%bool_decide_eq_true]. split; [done|]. right. split; [done|]. split; [done|]. by exists c.
    + wp_step. wp_step. wp_step. wp_step. destruct (comment_ranks _ Hok) as [rank Hr].
      destruct (tree_of_spec _ rank i Hr (mk_is_Some _ _ Hc)) as (ids & Hids & Hb). rewrite Hids.
      wp_step; [done|]. simplify_eq. wp_step. wp_step. exists c. split_and!; [done..| |by exists a|done|done].
      apply andb_false_iff in H0 as [Ha%negb_false_iff|Hu%bool_decide_eq_false]; [by left|right]. by destruct (decide (c_user c = u)).
Qed.

Lemma transaction_db {A} (P : tables → Prop) (m : prog W err A) commits w :
  P (db w) → wp m (λ _ w', P (db w')) (λ _ _, True) w → P (db (transaction commits m w).2).
Proof. intros Hw Hm. unfold wp in Hm. unfold transaction. destruct (m w) as [[a|e] w']; [destruct commits; [exact Hm|exact Hw]|exact Hw]. Qed.

Lemma create_comment_wp new s u what parent (w : W) : comments_ok (db w) →
  wp (create_comment new s u what parent) (λ _ w', comments_ok (db w')) (λ _ _, True) w.
Proof.
  intros Hok. unfold create_comment. wp_step. wp_step. wp_step. wp_step; [done|]. wp_step.
  set (Q := λ (_ : ()) w', w' = w ∧ ∀ p, parent = Some p →
    ∃ cp, comments (db w) !! p = Some cp ∧ c_series cp = s ∧ c_deleted_at cp = None).
  apply (wp_mono _ Q _ (λ _ _, True)); [| |done].
  2: { intros [] w' [-> Hp]. wp_step. wp_step; [done|]. wp_step. wp_step. wp_step.
       apply new_comment_ok; [done|apply eq_None_not_Some; by apply bool_decide_eq_false in H1|by exists a|done|done]. }
  destruct parent as [p|]; [|wp_step; split; [done|by intros ?]]. wp_step. wp_step; [done|]. wp_step; [done|].
  apply bind_Some in H1 as (c & Hc & Hg). case_guard as Hl; [|done]. injection Hg as ->. split; [done|]. intros p' [= <-]. exists a0.
  apply bool_decide_eq_false in H2. split; [done|]. split; [by destruct (decide (c_series a0 = s))|done].
Qed.

Lemma request_ok r (w : W) : comments_ok (db w) → wp (body sha3_256 safe_load cfg r) (λ _ w', comments_ok (db w')) (λ _ _, True) w.
Proof.
  intros Hok. destruct (grows_only r) eqn:Hg.
  - pose proof (request_grows r Hg w) as Hw. unfold wp. destruct (body _ _ _ r w) as [[]]; [|done]. by eapply grows_ok.
  - destruct r; try done; cbn [body]; unfold done_with; wp_step.
    + unfold delete_series, delete_repo. wp_steps; try done. all: apply cascade_ok; split; apply Hok.
    + eapply wp_mono; [by apply create_comment_wp| |done]. intros ? w' ?. by wp_step.
    + eapply wp_mono; [by apply delete_comment_wp| |done]. intros a w' (c & _ & _ & _ & _ & (ids & Hids & Hd) & _). wp_step. rewrite Hd.
      apply marked_ok; [done|]. intros j k Hj Hjk. apply Hids. apply Hids in Hj. by eapply rtc_r.
Qed.

Lemma step_ok (w w' : W) : comments_ok (db w) → step sha3_256 safe_load cfg w w' → comments_ok (db w').
Proof.
  intros Hok [r commits|w2 (Hs & _ & Hc)]; [apply transaction_db; [done|by apply request_ok]|].
  split; rewrite ?Hc, ?Hs; apply Hok.
Qed.

Lemma reach_ok (w0 w : W) : comments (db w0) = ∅ → rtc (step sha3_256 safe_load cfg) w0 w → comments_ok (db w).
Proof.
  intros H0 Hr. assert (Hok : comments_ok (db w0)).
  { split; rewrite H0; [done|done|]. exists (λ _, 0). intros i j (c & Hc & _). by rewrite lookup_empty in Hc. }
  clear H0. induction Hr as [|w0 w1 w Hs _ IH]; [done|]. by eapply IH, step_ok.
Qed.
End kept.

(** A series' comments are shown as what they are: trees. In every state
    that requests can reach (with whatever commits and fails, and whatever pushes
    and jobs do meanwhile) from a site without comments, the list of a series
    that exists has an end, and shows each of its comments that are not deleted
    exactly once and no other; each reply stands below the comment it answers,
    what answers nothing is at the top, and on every level the older come first. *)
Theorem comments_listed {G} `{Git G} sha safe_load cfg (w0 w : world G) (s : uuid)
    (H0 : comments (db w0) = ∅) (Hr : rtc (step sha safe_load cfg) w0 w) (Hs : is_Some (series_rows (db w) !! s)) :
  ∃ forest, list_comments s w = (Ok (Some forest), w)
  ∧ concat (flatten <$> forest) ≡ₚ map_to_list (live_in s (db w))
  ∧ Forall (threaded None) forest ∧ chronological forest.
Proof. apply list_comments_spec; [by eapply reach_ok|done]. Qed.

(** Deleting a comment deletes its branch. In every reachable state the
    request succeeds exactly for a comment of the series when its author or an
    administrator asks (whether it is deleted already or not), always comes to an
    end, and then exactly the comments below it are gone: of the others, of the
    series, the stars and the files nothing changes; otherwise it is refused and
    nothing has happened. *)
Theorem deletion_prunes {G} `{Git G} sha safe_load cfg (w0 w : world G) (s i u : uuid) (as_admin : bool)
    (H0 : comments (db w0) = ∅) (Hr : rtc (step sha safe_load cfg) w0 w) :
  match transaction true (delete_comment s i u as_admin) w with
  | (Ok a, w') =>
      (∃ c, comments (db w) !! i = Some c ∧ c_series c = s ∧ c_user c = a ∧ (as_admin = true ∨ a = u))
      ∧ (∀ j c, comments (db w') !! j = Some c ∧ c_deleted_at c = None ↔
           comments (db w) !! j = Some c ∧ c_deleted_at c = None ∧ ¬ below (comments (db w)) i j)
      ∧ dom (comments (db w')) = dom (comments (db w))
      ∧ (∀ k j, answers (comments (db w')) k j ↔ answers (comments (db w)) k j)
      ∧ series_rows (db w') = series_rows (db w) ∧ stars (db w') = stars (db w) ∧ contents (db w') = contents (db w)
      ∧ site w' = site w ∧ disk w' = disk w
  | (Raise e, w') => db w' = db w ∧ disk w' = disk w
      ∧ (e = COMMENT_NOT_FOUND ∧ (∀ c, comments (db w) !! i = Some c → c_series c ≠ s)
         ∨ e = FORBIDDEN ∧ as_admin = false ∧ ∃ c, comments (db w) !! i = Some c ∧ c_series c = s ∧ c_user c ≠ u)
  end.
Proof.
  pose proof (delete_comment_wp s i u as_admin w (reach_ok _ _ _ _ _ H0 Hr)) as Hd. unfold wp in Hd. unfold transaction.
  destruct (delete_comment s i u as_admin w) as [[a|e] w']; [|destruct Hd as [-> Hd]; by split_and!].
  destruct Hd as (c & Hc & Hs & Ha & Hu & (ids & Hids & Hd) & Hsite & Hdisk). rewrite Hd. cbn.
  split_and!; try done; [by exists c| | |intros; apply marked_answers].
  - intros j x. rewrite lookup_marked. split.
    + intros [(x0 & Hx & ->)%fmap_Some Hl]. case_decide as Hj; [done|]. split; [done|]. split; [done|]. intros Hb. apply Hj. by rewrite Hids.
    + intros (Hx & Hl & Hb). rewrite Hx. cbn. rewrite decide_False; [done|]. by intros [Hj%Hids _].
  - apply set_eq. intros j. rewrite !elem_of_dom, lookup_marked. apply fmap_is_Some.
Qed.

(** ** The file tree *)
Lemma node_ind' (P : node → Prop) : P Blob → (∀ d, Forall (λ kv, P kv.2) d → P (Tree d)) → ∀ v, P v.
Proof.
  intros HB HT. fix IH 1. intros [|d]; [exact HB|]. apply HT. induction d as [|[k v] d IHd]; constructor; [apply IH|exact IHd].
Qed.

(** The files of a node, by the names that lead to them. *)
Fixpoint node_files (v : node) : list (list string) :=
  match v with Blob => [[]] | Tree d => concat ((λ kv, (kv.1 ::.) <$> node_files kv.2) <$> d) end.
Definition dict_files (d : list (string * node)) : list (list string) := concat ((λ kv, (kv.1 ::.) <$> node_files kv.2) <$> d).

Fixpoint leaves (e : entry) : list (list string) :=
  match e with File n => [[n]] | Dir n l => (n ::.) <$> concat (leaves <$> l) end.

(** A level: different names, in order; and the levels below. *)
Fixpoint well_listed (e : entry) : Prop :=
  match e with
  | File _ => True
  | Dir _ l => NoDup (entry_name <$> l) ∧ Sorted by_name l ∧ foldr (λ e P, well_listed e ∧ P) True l
  end.

Fixpoint unique_names (v : node) : Prop :=
  match v with Blob => True | Tree d => NoDup d.*1 ∧ foldr (λ kv P, unique_names kv.2 ∧ P) True d end.

Lemma foldr_and {A} (P : A → Prop) l : foldr (λ a Q, P a ∧ Q) True l ↔ Forall P l.
Proof. induction l as [|a l IH]; cbn; [split; constructor|]. by rewrite Forall_cons, IH. Qed.

Lemma put_new name v d : dict_get name d = None → put name v d = d ++ [(name, v)].
Proof.
  induction d as [|[k x] d IH]; cbn; [done|]. unfold dict_get. cbn. case_decide as Hk; [by rewrite bool_decide_true by done|].
  rewrite bool_decide_false by done. intros Hd. f_equal. by apply IH.
Qed.

Lemma put_old name v v0 d : dict_get name d = Some v0 →
  ∃ d1 d2, d = d1 ++ (name, v0) :: d2 ∧ put name v d = d1 ++ (name, v) :: d2.
Proof.
  induction d as [|[k x] d IH]; [done|]. unfold dict_get. cbn. case_decide as Hk.
  - subst k. rewrite bool_decide_true by done. intros [= ->]. by exists [], d.
  - rewrite bool_decide_false by done. intros Hd. destruct (IH Hd) as (d1 & d2 & -> & ->). by exists ((k, x) :: d1), d2.
Qed.

Lemma dict_files_app d1 d2 : dict_files (d1 ++ d2) = dict_files d1 ++ dict_files d2.
Proof. unfold dict_files. by rewrite fmap_app, concat_app. Qed.

Lemma dict_files_one name v : dict_files [(name, v)] = (name ::.) <$> node_files v.
Proof. unfold dict_files. cbn. by rewrite app_nil_r. Qed.

(** A file that neither is nor contains nor lies below a file is added. *)
Lemma ensure_files p d : p ≠ [] → (∀ q, q ∈ dict_files d → ¬ q `prefix_of` p ∧ ¬ p `prefix_of` q) →
  dict_files (_ensure p d) ≡ₚ p :: dict_files d.
Proof.
  revert d. induction p as [|name rest IH]; intros d Hne Hfree; [done|]. clear Hne. cbn [_ensure].
  set (v := match rest with [] => Blob | _ => Tree (_ensure rest _) end).
  destruct (dict_get name d) as [v0|] eqn:Hd.
  - destruct (put_old name v v0 d Hd) as (d1 & d2 & -> & ->). rewrite !dict_files_app in *.
    change (dict_files ((name, v) :: d2)) with (dict_files ([(name, v)] ++ d2)).
    change (dict_files ((name, v0) :: d2)) with (dict_files ([(name, v0)] ++ d2)) in *.
    rewrite !dict_files_app, !dict_files_one in *. rewrite Permutation_middle. f_equiv. rewrite app_comm_cons. f_equiv.
    assert (Hq : ∀ q, q ∈ node_files v0 → ¬ q `prefix_of` rest ∧ ¬ rest `prefix_of` q).
    { intros q Hq. destruct (Hfree (name :: q)) as [H1 H2].
      - rewrite !elem_of_app. right. left. by apply list_elem_of_fmap_2.
      - split; intros Hp; [apply H1|apply H2]; by apply prefix_cons. }
    destruct v0 as [|c]; [destruct (Hq []) as [[] _]; [by left|apply prefix_nil]|]. subst v.
    destruct rest as [|r rest].
    2: { cbn [node_files]. fold (dict_files c) (dict_files (_ensure (r :: rest) c)). by rewrite IH. }
    cbn [node_files]. fold (dict_files c). destruct (dict_files c) as [|q l] eqn:Hc; [done|]. destruct (Hq q) as [_ []].
    + cbn. fold (dict_files c). rewrite Hc. by left.
    + apply prefix_nil.
  - assert (Hv : node_files v ≡ₚ [rest]).
    { subst v. destruct rest as [|r rest]; [done|]. cbn [node_files]. fold (dict_files (_ensure (r :: rest) [])).
      rewrite IH; [done|done|]. by intros q ?%elem_of_nil. }
    rewrite put_new, dict_files_app, dict_files_one, Hv by done. by rewrite Permutation_app_comm.
Qed.

Lemma put_keys name v d : NoDup d.*1 → NoDup (put name v d).*1.
Proof.
  intros Hnd. destruct (dict_get name d) as [v0|] eqn:Hd.
  - destruct (put_old name v v0 d Hd) as (d1 & d2 & -> & ->). rewrite fmap_app in Hnd. rewrite fmap_app. exact Hnd.
  - rewrite put_new, fmap_app by done. apply NoDup_app. split; [done|]. split; [|apply NoDup_singleton].
    intros k Hk Hn%list_elem_of_singleton. cbn in Hn. subst k. apply list_elem_of_fmap in Hk as ([k v0] & Hk & Hin). cbn in Hk. subst k. unfold dict_get in Hd.
    destruct (List.find _ d) as [|] eqn:Hf; [done|]. pose proof (List.find_none _ _ Hf (name, v0)) as Hn. cbn in Hn.
    apply list_elem_of_In in Hin. specialize (Hn Hin). by apply bool_decide_eq_false in Hn.
Qed.

Lemma put_unique name v d : unique_names (Tree d) → unique_names v → unique_names (Tree (put name v d)).
Proof.
  intros [Hnd Hu] Hv. split; [by apply put_keys|]. rewrite foldr_and in *. destruct (dict_get name d) as [v0|] eqn:Hd.
  - destruct (put_old name v v0 d Hd) as (d1 & d2 & -> & ->). rewrite Forall_app, Forall_cons in *. naive_solver.
  - rewrite put_new, Forall_app, Forall_singleton by done. done.
Qed.

Lemma ensure_unique p d : unique_names (Tree d) → unique_names (Tree (_ensure p d)).
Proof.
  revert d. induction p as [|name rest IH]; intros d Hd; [done|]. cbn [_ensure]. apply put_unique; [done|].
  destruct rest as [|r rest]; [done|]. apply IH. destruct (dict_get name d) as [[|c]|] eqn:Hg; [by split; [constructor|]| |by split; [constructor|]].
  apply dict_get_elem in Hg. destruct Hd as [_ Hd]. rewrite foldr_and, Forall_forall in Hd. exact (Hd _ Hg).
Qed.

#[local] Instance by_name_trans : Transitive by_name.
Proof. intros a b c. unfold by_name. apply transitivity. Qed.
#[local] Instance by_name_total : Total by_name.
Proof. intros a b. unfold by_name. apply (total String.le). Qed.

Lemma concat_Permutation {A} (l k : list (list A)) : l ≡ₚ k → concat l ≡ₚ concat k.
Proof.
  induction 1 as [|x l k _ IH|x y l|l k m _ IH1 _ IH2]; cbn; [done|by rewrite IH| |by rewrite IH1].
  rewrite !app_assoc. f_equiv. apply Permutation_app_comm.
Qed.

Lemma to_entry_name n v : entry_name (to_entry n v) = n.
Proof. by destruct v. Qed.

Lemma to_entry_leaves v n : leaves (to_entry n v) ≡ₚ (n ::.) <$> node_files v.
Proof.
  revert n. induction v as [|d IH] using node_ind'; intros n; [done|]. cbn [to_entry leaves node_files]. f_equiv.
  rewrite (concat_Permutation _ (leaves <$> ((λ kv, to_entry kv.1 kv.2) <$> d))); [|apply fmap_Permutation, merge_sort_Permutation].
  clear n. induction IH as [|[k v] d Hv _ IHd]; [done|]. cbn. by rewrite Hv, IHd.
Qed.

Lemma level_listed d : NoDup d.*1 → let l := merge_sort by_name ((λ kv, to_entry kv.1 kv.2) <$> d) in
  NoDup (entry_name <$> l) ∧ Sorted by_name l.
Proof.
  intros Hnd l. split; [|apply Sorted_merge_sort; apply _]. subst l. rewrite (fmap_Permutation entry_name _ _ (merge_sort_Permutation by_name _)).
  rewrite <- list_fmap_compose. erewrite list_fmap_ext; [exact Hnd|]. intros i [k v] _. apply to_entry_name.
Qed.

Lemma to_entry_listed v n : unique_names v → well_listed (to_entry n v).
Proof.
  revert n. induction v as [|d IH] using node_ind'; intros n Hu; [done|]. destruct Hu as [Hnd Hu]. rewrite foldr_and in Hu.
  cbn [to_entry well_listed]. rewrite foldr_and. destruct (level_listed d Hnd) as [H1 H2]. split_and!; [done..|].
  rewrite merge_sort_Permutation. apply Forall_fmap. rewrite Forall_forall in *. intros kv Hkv. apply IH; [done|by apply Hu].
Qed.

Lemma split_at_cons c s : ∃ p ps, split_at c s = p :: ps.
Proof. induction s as [|d s [p [ps IH]]]; cbn; [by exists "", []|]. rewrite IH. case_decide; by eexists _, _. Qed.

Lemma join_split s : join "/" (split_at "/" s) = s.
Proof.
  induction s as [|d s IH]; [done|]. cbn [split_at]. destruct (split_at_cons "/" s) as (p & ps & Hs). rewrite Hs in *.
  case_decide as Hd; [subst d; change (join "/" ("" :: p :: ps)) with ("" +:+ "/" +:+ join "/" (p :: ps)); by rewrite IH|].
  rewrite <- IH. by destruct ps.
Qed.

(** No file stands where another has a directory, or is the same file. *)
Definition no_conflict (paths : list string) : Prop :=
  NoDup paths ∧ ∀ p q, p ∈ paths → q ∈ paths → p ≠ q → ¬ parts_of p `prefix_of` parts_of q.

Lemma tree_files paths : no_conflict paths →
  dict_files (foldl (λ d p, _ensure (parts_of p) d) [] paths) ≡ₚ parts_of <$> paths
  ∧ unique_names (Tree (foldl (λ d p, _ensure (parts_of p) d) [] paths)).
Proof.
  induction paths as [|p paths IH] using rev_ind; intros [Hnd Hc]; [repeat constructor|].
  apply NoDup_app in Hnd as (Hnd & Hp & _). destruct IH as [Hf Hu].
  { split; [done|]. intros; apply Hc; [apply elem_of_app; by left..|done]. }
  rewrite foldl_app, fmap_app. cbn [foldl]. split; [|by apply ensure_unique].
  assert (Hpp : p ∈ paths ++ [p]) by (apply elem_of_app; right; by left).
  rewrite ensure_files, Hf; [by rewrite Permutation_app_comm|unfold parts_of; by destruct (split_at_cons "/" (strip_slash p)) as (? & ? & ->)|].
  intros q Hq. rewrite Hf in Hq. apply list_elem_of_fmap in Hq as (q' & -> & Hq').
  assert (p ≠ q') by (intros <-; eapply Hp; [done|by left]). split; apply Hc; try done; apply elem_of_app; by left.
Qed.

Definition shown (l : list entry) : list string := join "/" <$> concat (leaves <$> l).

Lemma file_tree_shown paths : no_conflict paths →
  shown (_paths_to_file_tree paths) ≡ₚ strip_slash <$> paths ∧ well_listed (Dir "" (_paths_to_file_tree paths)).
Proof.
  intros Hc. destruct (tree_files paths Hc) as [Hf Hu]. pose proof (to_entry_leaves (Tree (foldl (λ d p, _ensure (parts_of p) d) [] paths)) "") as Hl.
  cbn [to_entry leaves node_files] in Hl. split; [|exact (to_entry_listed _ "" Hu)].
  unfold shown, _paths_to_file_tree, _to_list. apply (fmap_Permutation tail) in Hl. rewrite <- !list_fmap_compose in Hl.
  rewrite !(list_fmap_ext (tail ∘ cons "") id) in Hl by done. rewrite !list_fmap_id in Hl. rewrite Hl.
  fold (dict_files (foldl (λ d p, _ensure (parts_of p) d) [] paths)). rewrite Hf, <- list_fmap_compose.
  apply reflexive_eq, list_fmap_ext. intros i p _. apply join_split.
Qed.

(** The file tree of a series shows its files. When no file of the series
    stands where another has a directory (and no two differ only by slashes around
    them), the tree that the series is answered with has exactly the series' files
    as its leaves, each once, under the path it is stored with (less slashes
    around it); on every level the names are different and in order. A series
    without files has no tree. *)
Theorem file_tree_roundtrip {G} `{Git G} (w : world G) (s : uuid) (reader : option uuid)
    (Hs : is_Some (series_rows (db w) !! s)) (Hc : no_conflict (list_paths s (db w))) :
  ∃ x n starred tree, get_series s reader w = (Ok (x, n, starred, tree), w)
  ∧ (∀ path, path ∈ list_paths s (db w) ↔ is_Some (contents (db w) !! (s, path)))
  ∧ match tree with
    | None => list_paths s (db w) = []
    | Some l => shown l ≡ₚ strip_slash <$> list_paths s (db w) ∧ well_listed (Dir "" l)
    end.
Proof.
  destruct Hs as [x Hx]. unfold get_series. rewrite run_get_state, Hx, run_get_or_raise. eexists _, _, _, _. split; [done|].
  split; [|destruct (list_paths s (db w)) as [|p l] eqn:Hl; [done|by apply file_tree_shown]].
  intros path. unfold list_paths. rewrite list_elem_of_fmap. split.
  - intros ([[s' p] r] & -> & Hin). apply elem_of_map_to_list, map_lookup_filter_Some in Hin as [Hin Hs']. cbn in *. subst s'. by exists r.
  - intros [r Hr]. exists ((s, path), r). split; [done|]. by apply elem_of_map_to_list, map_lookup_filter_Some.
Qed.

(** ** Publishing *)
Section publishing.
Context {G : Type} `{Git G} (sha3_256 : string → string) (safe_load : string → option (list (string * value))) (cfg : Content.settings).

Lemma ensure_items new slug (w : Content.world) :
  wp (Content.on_forum (Boards.ensure_by_slug new slug)) (λ _ w', Content.items (Content.db w') = Content.items (Content.db w))
     (λ _ _, True) w.
Proof. unfold wp, Content.on_forum, zoom. by destruct (Boards.ensure_by_slug _ _ _) as [[] ?]. Qed.

(** The item [i] shows the file: it is new, or it had the same slug before. *)
Definition presents (new_item s u : uuid) (path : string) (override : list (string * value)) (w : world G) (i : uuid) (w' : world G) : Prop :=
  ∃ x r k y, series_rows (db w) !! s = Some x ∧ s_owner x = u ∧ contents (db w) !! (s, clean path) = Some r
  ∧ slug_of override (parse_frontmatter safe_load (text r)) (clean path) = k
  ∧ db w' = db w ∧ disk w' = disk w
  ∧ Content.items (Content.db (site w')) !! i = Some y ∧ Content.content (Content.data y) = text r
  ∧ Content.content_type (Content.data y) = Content.BLOG_POST ∧ Content.status (Content.data y) = Content.PUBLISHED
  ∧ Content.deleted_at y = None
  ∧ (i = new_item ∧ Content.author_id (Content.data y) = Some u
     ∨ ∃ y0, Content.items (Content.db (site w)) !! i = Some y0 ∧ Content.slug (Content.data y0) = Some k
             ∧ Content.author_id (Content.data y) = Content.author_id (Content.data y0)).

(** Publishing a file shows its text; an item that is rewritten keeps its author. *)
Lemma publishing_shows F new_item new_board s u path override (w : world G) :
  wp (publish_series_file safe_load cfg F new_item new_board s u path override) (presents new_item s u path override w) (λ _ _, True) w.
Proof.
  unfold publish_series_file. wp_step. wp_step. wp_step. wp_step; [done|]. rename a into x, H0 into Hx.
  wp_step. wp_step; [done|]. apply bool_decide_eq_false in H0. wp_step. wp_step; [done|]. rename a into r, H1 into Hr. cbv zeta.
  wp_step. apply wp_zoom. eapply wp_mono; [apply ensure_items| |done]. intros b c Hitems. apply wp_zoom.
  unfold Content.publish_blog_item. wp_step. wp_step. cbv zeta. set (k := slug_of _ _ _). cbn [site].
  destruct (match k with EmptyString => None | String _ _ => Some k end ≫= λ s0, Content.item_by_slug s0 c) as [[i y]|] eqn:Hslug; cbv beta iota.
  - apply bind_Some in Hslug as (k' & Hk & Hfind). unfold Content.item_by_slug in Hfind. apply find_Some_elem in Hfind as [Hin Hb].
    apply andb_true_iff in Hb as [Hb Hd]. unfold Content.has_slug in Hb. rewrite !bool_decide_eq_true in *.
    apply elem_of_map_to_list in Hin. assert (k' = k) as -> by (by destruct k; inversion Hk).
    unfold Content.clear_item_detail_cache, Content.enqueue_content_event. wp_steps.
    all: unfold presents; eexists x, r, k, _; cbn; rewrite ?lookup_alter_eq, ?Hin; split_and!; try done.
    all: cbn in *; first [by destruct (decide (s_owner x = u))|right; exists y; by rewrite <- Hitems].
  - unfold Content.insert_item, Content.bump_collection_version, Content.enqueue_content_event. wp_steps; try done.
    all: unfold presents; eexists x, r, k, _; cbn; rewrite lookup_insert_eq; split_and!; try done. all: first [by destruct (decide (s_owner x = u))|by left].
Qed.
End publishing.

(** ** Pages *)
Lemma pages_of {A} (l : list A) (n k : nat) : concat ((λ i, take n (drop (i * n) l)) <$> seq 0 k) = take (k * n) l.
Proof.
  induction k as [|k IH]; [done|]. rewrite seq_S, fmap_app, concat_app, IH. cbn. rewrite app_nil_r.
  rewrite <- (firstn_skipn (k * n) l) at 3. rewrite Nat.add_comm, <- take_take_drop. by rewrite firstn_skipn.
Qed.

Lemma fmap_concat {A B} (f : A → B) (l : list (list A)) : f <$> concat l = concat ((λ k : list A, f <$> k) <$> l).
Proof. induction l as [|x l IH]; [done|]. cbn. by rewrite fmap_app, IH. Qed.

(** The pages of a list of series, one after the other, are the list: every
    series once, the newest first; there are as many as the answer says. *)
Lemma list_series_pages {G} (w : world G) (reader : option uuid) (size_ : Z) (Hpos : (0 < size_)%Z) :
  let page p := match (list_series reader p (Some size_) w).1 with Ok d => p_items d | Raise _ => [] end in
  ∀ n, (list_series reader 1 (Some size_) w).1 = Ok n →
  concat (page <$> ((λ i, Z.of_nat (S i)) <$> seq 0 (Z.to_nat (p_pages n))))
  = match (list_series reader 1 None w).1 with Ok d => p_items d | Raise _ => [] end.
Proof.
  intros page n Hn. unfold list_series in Hn. rewrite run_get_state in Hn. injection Hn as <-. cbn [p_pages].
  set (all := merge_sort newer_id (map_to_list (series_rows (db w)))).
  set (f := λ kx : uuid * BlogSeries, (kx, star_count kx.1 (db w), match reader with Some u => bool_decide ((kx.1, u) ∈ stars (db w)) | None => false end)).
  change (match (list_series reader 1 None w).1 with Ok d => p_items d | Raise _ => [] end) with (f <$> all).
  assert (Hlen : length all = size (series_rows (db w))).
  { unfold all. rewrite merge_sort_Permutation. apply length_map_to_list. }
  assert (Hpage : ∀ i, page (Z.of_nat (S i)) = f <$> take (Z.to_nat size_) (drop (i * Z.to_nat size_) all)).
  { intros i. subst page. unfold list_series. rewrite run_get_state. cbn. unfold list_page, paginate_offset. cbn. do 3 f_equal. lia. }
  rewrite <- list_fmap_compose. set (chunk := λ i, take (Z.to_nat size_) (drop (i * Z.to_nat size_) all)).
  rewrite (list_fmap_ext _ ((λ k : list _, f <$> k) ∘ chunk)) by (intros ? i _; apply Hpage).
  rewrite (list_fmap_compose chunk (λ k : list _, f <$> k)), <- fmap_concat. unfold chunk. rewrite pages_of. f_equal.
  apply take_ge. rewrite decide_False by lia. unfold paginate_pages. rewrite decide_False by lia.
  pose proof (Z.div_mod (Z.of_nat (size (series_rows (db w))) + size_ - 1) size_ ltac:(lia)) as Hdiv.
  pose proof (Z.mod_pos_bound (Z.of_nat (size (series_rows (db w))) + size_ - 1) size_ Hpos) as Hmod. nia.
Qed.

(** ** Witnesses *)
(** A repository as the list of its commits, the last one first: all the files
    of each. *)
#[export] Instance commits : Git (list (list (string * string))) := {|
  init_bare := [];
  rev_parse_head g := match g with [] => None | _ => Some (join "" ((λ _, "a") <$> g)) end;
  diff_tree _ _ g := match g with [] => "" | c :: _ => join (String "010" "") c.*1 end;
  ls_tree _ g := match g with [] => "" | c :: _ => join (String "010" "") c.*1 end;
  show_head p g := match g with [] => None | c :: _ => dict_get p c end
|}%string.

Definition ada : uuid := uuid_of_N 1.
Definition bob : uuid := uuid_of_N 2.
Definition notebook : uuid := uuid_of_N 10.
Definition root_1 : uuid := uuid_of_N 21.
Definition reply_1 : uuid := uuid_of_N 22.
Definition reply_2 : uuid := uuid_of_N 23.
Definition root_2 : uuid := uuid_of_N 24.

Definition a_site : Content.world :=
  Content.World (Content.Tables ∅ ∅ ∅ ∅ ∅ ∅ [] (Boards.Tables ∅ ∅ ∅ []) (Feed.Tables (λ _, []) [] [] [] ∅)) ∅ ∅ 0 ∅ ∅ ∅ ∅ 0 1000.
Definition empty_blog : world (list (list (string * string))) := World (Tables ∅ ∅ ∅ ∅ ∅) a_site ∅.
Definition a_setting : Content.settings := Content.Settings true true.

Definition run (w : world (list (list (string * string)))) (r : request (list (list (string * string)))) :=
  (transaction true (body id (λ _, None) a_setting r) w).2.

Lemma run_requests rs w : rtc (step id (λ _, None) a_setting) w (foldl run w rs).
Proof.
  revert w. induction rs as [|r rs IH]; intros w; [done|]. cbn. eapply rtc_l; [|apply IH]. apply step_request.
Qed.

Definition a_talk := foldl run empty_blog [
  CreateSeries false notebook ada (MkSeriesCreate "Notes" None None "notes");
  CreateComment root_1 notebook bob "First!" None; CreateComment reply_1 notebook ada "Thanks" (Some root_1);
  CreateComment reply_2 notebook bob "You are welcome" (Some reply_1); CreateComment root_2 notebook ada "News" None;
  WriteFile notebook ada "/intro.md" "# Hello"; WriteFile notebook ada "part/one.md" "One" ].

Lemma series_there s w : bool_decide (is_Some (series_rows (db w) !! s)) = true → is_Some (series_rows (db (G:=list (list (string * string))) w) !! s).
Proof. by intros H%bool_decide_eq_true. Qed.

Lemma comments_listed_witness :
  (∃ forest, list_comments notebook a_talk = (Ok (Some forest), a_talk)
   ∧ concat (flatten <$> forest) ≡ₚ map_to_list (live_in notebook (db a_talk)) ∧ Forall (threaded None) forest ∧ chronological forest)
  ∧ bool_decide (size (live_in notebook (db a_talk)) = 4) = true.
Proof.
  split; [|vm_compute; reflexivity]. apply (comments_listed id (λ _, None) a_setting empty_blog a_talk notebook); [reflexivity|apply run_requests|].
  apply series_there. vm_compute. reflexivity.
Defined.

Lemma deletion_prunes_witness :
  let w' := (transaction true (delete_comment notebook reply_1 ada false) a_talk).2 in
  dom (comments (db w')) = dom (comments (db a_talk))
  ∧ bool_decide (size (live_in notebook (db w')) = 2) = true.
Proof.
  split; [|vm_compute; reflexivity].
  assert (Hok : match (transaction true (delete_comment notebook reply_1 ada false) a_talk).1 with Ok _ => true | Raise _ => false end = true)
    by (vm_compute; reflexivity).
  assert (Hr : rtc (step id (λ _, None) a_setting) empty_blog a_talk) by apply run_requests.
  revert Hok Hr. generalize a_talk. intros w Hok Hr.
  pose proof (deletion_prunes id (λ _, None) a_setting empty_blog w notebook reply_1 ada false eq_refl Hr) as H.
  destruct (transaction true (delete_comment notebook reply_1 ada false) w) as [[a|e] w']; [|done]. cbn [snd]. apply H.
Defined.

Lemma no_conflict_dec paths : bool_decide (NoDup paths) = true →
  forallb (λ p, forallb (λ q, bool_decide (p = q) || negb (bool_decide (parts_of p `prefix_of` parts_of q))) paths) paths = true →
  no_conflict paths.
Proof.
  intros Hnd%bool_decide_eq_true Hf. split; [done|]. intros p q Hp%list_elem_of_In Hq%list_elem_of_In Hne Hpre.
  rewrite forallb_forall in Hf. specialize (Hf p Hp). rewrite forallb_forall in Hf. specialize (Hf q Hq).
  rewrite bool_decide_false, bool_decide_true in Hf by done. done.
Qed.

Lemma file_tree_roundtrip_witness :
  (∃ x n starred tree, get_series notebook (Some bob) a_talk = (Ok (x, n, starred, tree), a_talk)
   ∧ (∀ path, path ∈ list_paths notebook (db a_talk) ↔ is_Some (contents (db a_talk) !! (notebook, path)))
   ∧ match tree with
     | None => list_paths notebook (db a_talk) = []
     | Some l => shown l ≡ₚ strip_slash <$> list_paths notebook (db a_talk) ∧ well_listed (Dir "" l)
     end)
  ∧ length (_paths_to_file_tree (list_paths notebook (db a_talk))) = 2.
Proof.
  split; [|vm_compute; reflexivity]. apply (file_tree_roundtrip a_talk notebook (Some bob)).
  - apply series_there. vm_compute. reflexivity.
  - apply no_conflict_dec; vm_compute; reflexivity.
Defined.

(** ** What the model shows *)
Abbreviation lf := (String "010" "").

(** A file with frontmatter but no title in it is titled by the rule that opens
    the frontmatter, not by its heading or its slug. *)
Lemma titled_by_rule :
  let text := ("---" +:+ lf +:+ "category: talk" +:+ lf +:+ "---" +:+ lf +:+ "# Groups")%string in
  let fm := parse_frontmatter (λ _, Some [("category", VStr "talk")]%string) text in
  category_of [] fm = "talk"%string ∧ title_of [] fm text (slug_of [] fm "groups.md") = "---"%string.
Proof. vm_compute. done. Qed.

(** A file may be written below another file; the tree then shows one of them. *)
Lemma tree_hides :
  let w := foldl run a_talk [WriteFile notebook ada "part" "All of it"] in
  bool_decide (size (contents (db w)) = 3) = true ∧ length (concat (leaves <$> _paths_to_file_tree (list_paths notebook (db w)))) = 2.
Proof. vm_compute. done. Qed.

(** The pattern for the names of repositories lets a line feed end them. *)
Lemma name_with_line_feed : safe_name ("notes" +:+ lf)%string = true.
Proof. done. Qed.

Definition diary : uuid := uuid_of_N 11.
Definition item_1 : uuid := uuid_of_N 31.
Definition item_2 : uuid := uuid_of_N 32.
Definition board_1 : uuid := uuid_of_N 41.
Definition board_2 : uuid := uuid_of_N 42.

(** The slug of a file without one is its name: the second README that anybody
    publishes takes the place of the first, under the name of its author. *)
Lemma readme_overwritten :
  let w := foldl run a_talk [
    CreateSeries false diary bob (MkSeriesCreate "Diary" None None "diary");
    WriteFile notebook ada "README.md" "About Ada"; Publish Content.no_faults item_1 board_1 notebook ada "README.md" [];
    WriteFile diary bob "README.md" "About Bob"; Publish Content.no_faults item_2 board_2 diary bob "README.md" []] in
  (λ x, (Content.content (Content.data x), bool_decide (Content.author_id (Content.data x) = Some ada)))
    <$> Content.items (Content.db (site w)) !! item_1 = Some ("About Bob"%string, true)
  ∧ bool_decide (size (Content.items (Content.db (site w))) = 1) = true.
Proof. vm_compute. done. Qed.
