(* ===== verification/BlogGit.v ===== *)
(** * Blog: repositories, pushes and their reconciliation

    Model of the rest of [app/modules/blog] (git_svc, git_http, backfill, tasks)
    on the tables of Blog: what a push may do and how the files follow it, and
    the weekly job that finds repositories without a series, keeps them a week
    and removes them. Theorems: every series keeps its repository, whatever fails
    and whatever runs beside the job, unless its deletion fails to commit; the job's ledger is exact, and no repository is left behind;
    only the owner pushes; versions of files tell their texts apart. *)

From S2P Require Import Prelude Blog.

Section git.
Context {G : Type} `{Git G}.
Abbreviation W := (world G).
Abbreviation M := (prog W err).
Context (sha3_256 : string → string) (safe_load : string → option (list (string * value))) (cfg : Content.settings).

(** ** git_svc; [down]: git does not run, or not to its end *)
Definition repository (down : bool) (name : string) : M G :=
  w ← get_state;
  raise_when (negb (safe_name name)) INVALID_INPUT ≫= λ _,
  raise_when down GIT_ERROR ≫= λ _,
  get_or_raise (disk w !! name) GIT_ERROR.

Definition revparse_or_none (down : bool) (name : string) : M (option string) :=
  if safe_name name then g ← repository down name; mret (rev_parse_head g) else mret None.

Definition diff_tree_names (down : bool) (name : string) (old : option string) (new : string) : M (list string) :=
  g ← repository down name;
  let out := match old with Some o => diff_tree o new g | None => ls_tree new g end in
  mret (filter (λ l, l ≠ EmptyString) (strip <$> splitlines out)).

(** [None]: refused, or git has no such file. *)
Definition read_file (down : bool) (name path : string) : M (option string) :=
  w ← get_state;
  let p := lstrip_slash path in
  mret (if bool_decide (".." ∈ split_at "/" p)%string || down || negb (safe_name name) then None else disk w !! name ≫= show_head p).

(** ** Following a push *)
(** The files that were there when the loop began are rewritten unless they
    are as new as the push; the others are inserted. *)
Definition backfill_one (down : bool) (s : uuid) (name : string) (push_at : Z) (known : gset string) (path : string) : M () :=
  content ← read_file down name path;
  match content with
  | None => mret tt
  | Some what =>
      w ← get_state;
      match contents (db w) !! (s, path) with
      | Some r =>
          raise_when (bool_decide (path ∉ known)) IntegrityError ≫= λ _,
          if decide (updated_at r < push_at)%Z then rewrite_content sha3_256 s path what r else mret tt
      | None => insert_content sha3_256 s path what
      end
  end.

Definition backfill_series_from_git (down : bool) (name : string) (s : uuid) (old : option string) (push_at : Z) : M () :=
  w ← get_state;
  _ ← get_or_raise (series_rows (db w) !! s) SERIES_NOT_FOUND;
  new ← revparse_or_none down name;
  match new with
  | None => mret tt
  | Some new =>
      changed ← diff_tree_names down name old new;
      w ← get_state;
      let known := list_to_set (filter (λ p, is_Some (contents (db w) !! (s, p))) changed) in
      for_each changed (backfill_one down s name push_at known)
  end.

(** In a session of its own; what fails is only logged. *)
Definition maybe_backfill_after_push (down commits : bool) (name : string) (old : option string) : M () := λ w,
  (Ok tt, (transaction commits
    (match series_named name (db w) with
     | None => mret tt
     | Some kx => backfill_series_from_git down name kx.1 old (now w)
     end) w).2).

(** ** git over HTTP *)
(** The account service on a name and a password; no answer is no user. *)
Context (verify_password : string → string → option (uuid * string)).
(** [git http-backend] on a method, a path, the user and a body: the repository
    afterwards and the status. *)
Context {body : Type}.
Context (http_backend : string → string → option string → body → G → G * nat).

Record http_request := HttpRequest {
  method : string;
  rest : string;                               (* after repo_name.git/ *)
  credentials : option (string * string);      (* of Basic authentication, decoded *)
  payload : body
}.

Fixpoint contains (needle s : string) : bool :=
  String.prefix needle s || match s with EmptyString => false | String _ s' => contains needle s' end.

Definition path_info (name : string) (q : http_request) : string := ("/" +:+ name +:+ ".git/" +:+ rest q)%string.

(** The path of the request begins with that of the router. *)
Definition _is_receive_pack (name : string) (q : http_request) : bool :=
  bool_decide (method q = "POST"%string) && contains "git-receive-pack" ("/blog/git" +:+ path_info name q).

Definition _authenticate_credentials (c : string * string) : option (uuid * string) := verify_password c.1 c.2.

Definition _require_owner_for_push (name : string) (q : http_request) : M string :=
  c ← get_or_raise (credentials q) UNAUTHORIZED;
  identity ← get_or_raise (_authenticate_credentials c) UNAUTHORIZED;
  w ← get_state;
  kx ← get_or_raise (series_named name (db w)) FORBIDDEN;
  raise_when (bool_decide (s_owner kx.2 ≠ identity.1)) FORBIDDEN ≫= λ _,
  mret identity.2.

Record git_faults := GitFaults { g_down : bool; g_killed : bool; g_commits : bool }.

Definition git_http_backend (F : git_faults) (name : string) (q : http_request) : M nat :=
  w ← get_state;
  g ← get_or_raise (disk w !! name) NOT_FOUND;
  let is_push := _is_receive_pack name q in
  remote ← (if is_push then u ← _require_owner_for_push name q; mret (Some u)
            else mret (snd <$> (credentials q ≫= _authenticate_credentials)));
  old ← (if is_push then revparse_or_none (g_down F) name else mret None);
  let '(g', status) := http_backend (method q) (path_info name q) remote (payload q) g in
  modify (set_disk <[name := g']>) ≫= λ _,
  raise_when (g_killed F) TIMEOUT ≫= λ _,
  (if is_push && bool_decide (status < 400) then
     new ← revparse_or_none (g_down F) name;
     if decide (new ≠ None ∧ new ≠ old) then maybe_backfill_after_push (g_down F) (g_commits F) name old else mret tt
   else mret tt) ≫= λ _,
  mret status.

(** ** The weekly job *)
Definition _QUARANTINE_DAYS : Z := 7.
Definition quarantine_time : Z := (_QUARANTINE_DAYS * 86400 * 1000000)%Z.

Definition live_names (d : tables) : gset string := list_to_set ((λ kx, repo_name kx.2) <$> map_to_list (series_rows d)).

(** The requests that are served while the job waits, each in a transaction of
    its own, which commits or not. *)
Definition serve (rs : list (request G * bool)) (w : W) : W :=
  foldl (λ w r, (transaction r.2 (Blog.body sha3_256 safe_load cfg r.1) w).2) w rs.

(** [remains]: what [rmtree] leaves of a repository; [meanwhile]: the requests
    served at each of the three waits for a repository. *)
Definition reconcile_one (live : gset string) (quarantined : gmap string Z) (started : Z) (remains : string → option G)
    (meanwhile : nat → string → list (request G * bool)) (name : string) : M () :=
  modify (serve (meanwhile 0 name)) ≫= λ _,
  if decide (name ∈ live) then
    if decide (is_Some (quarantined !! name)) then modify (set_quarantine (delete name)) else mret tt
  else
    match quarantined !! name with
    | None => modify (set_quarantine <[name := started]>)
    | Some at_ =>
        if decide (quarantine_time < started - at_)%Z then
          w ← get_state;
          if decide (is_Some (series_named name (db w))) then mret tt else
          modify (serve (meanwhile 1 name)) ≫= λ _,
          modify (set_disk (match remains name with None => delete name | Some g => <[name := g]> end)) ≫= λ _,
          modify (serve (meanwhile 2 name)) ≫= λ _,
          w ← get_state;
          if decide (is_Some (disk w !! name)) then mret tt else modify (set_quarantine (delete name))
        else mret tt
    end.

(** [turn]: no other instance runs the job. *)
Definition reconcile_blog_repos (turn : bool) (remains : string → option G) (meanwhile : nat → string → list (request G * bool)) : M () :=
  if negb turn then mret tt else
  w ← get_state;
  let live := live_names (db w) in
  let quarantined := quarantine (db w) in
  let seen := elements (dom (disk w)) in
  for_each seen (reconcile_one live quarantined (now w) remains meanwhile) ≫= λ _,
  modify (set_quarantine (λ m, foldr delete m (filter (λ n, n ∉ seen) (map_to_list quarantined).*1))).
End git.
Arguments http_request : clear implicits.
Arguments HttpRequest {body} _ _ _ _.

(** ** Every series has its repository *)
(** [bereft]: series whose repository may have gone. *)
Record housed {G} (bereft : uuid → Prop) (w : world G) : Prop := {
  names_unique s1 s2 x1 x2 : series_rows (db w) !! s1 = Some x1 → series_rows (db w) !! s2 = Some x2 → repo_name x1 = repo_name x2 → s1 = s2;
  repo_stored s x : series_rows (db w) !! s = Some x → ¬ bereft s → is_Some (disk w !! repo_name x);
  names_safe s x : series_rows (db w) !! s = Some x → safe_name (repo_name x) = true
}.

Definition live {G} (w : world G) (name : string) : Prop := ∃ s x, series_rows (db w) !! s = Some x ∧ repo_name x = name.

Lemma series_named_Some name d s x : series_named name d = Some (s, x) → series_rows d !! s = Some x ∧ repo_name x = name.
Proof. unfold series_named. intros [Hin Hb%bool_decide_eq_true]%find_Some_elem. by apply elem_of_map_to_list in Hin. Qed.

Lemma series_named_live {G} name (w : world G) : is_Some (series_named name (db w)) ↔ live w name.
Proof.
  split; [intros [[s x] Hn]; exists s, x; by apply series_named_Some|]. intros (s & x & Hx & Hn).
  destruct (series_named name (db w)) eqn:Hf; [done|]. unfold series_named in Hf.
  pose proof (find_None_elem _ _ (s, x) Hf) as Hnone. apply elem_of_map_to_list in Hx. specialize (Hnone Hx).
  cbn in Hnone. by apply bool_decide_eq_false in Hnone.
Qed.

Lemma elem_of_live_names {G} name (w : world G) : name ∈ live_names (db w) ↔ live w name.
Proof.
  unfold live_names. rewrite elem_of_list_to_set, list_elem_of_fmap. split.
  - intros ([s x] & -> & Hin). exists s, x. by apply elem_of_map_to_list in Hin.
  - intros (s & x & Hx & <-). exists (s, x). split; [done|]. by apply elem_of_map_to_list.
Qed.

Section housing.
Context {G : Type} `{Git G} (sha3_256 : string → string) (safe_load : string → option (list (string * value))) (cfg : Content.settings).
Abbreviation W := (world G).
Abbreviation body := (Blog.body sha3_256 safe_load cfg).
Context (bereft : uuid → Prop).
Abbreviation housed := (housed bereft).

(** Directories stay. *)
Definition dirs_stay (w w' : W) : Prop := ∀ n, is_Some (disk w !! n) → is_Some (disk w' !! n).

#[local] Instance dirs_stay_preorder : PreOrder dirs_stay.
Proof. split; [by intros w n|]. intros w1 w2 w3 H1 H2 n Hn. by apply H2, H1. Qed.

Lemma dirs_stay_insert name g (w : W) : dirs_stay w (set_disk <[name := g]> w).
Proof. intros n Hn. cbn. destruct (decide (n = name)) as [->|]; [by rewrite lookup_insert_eq|by rewrite lookup_insert_ne]. Qed.

Lemma dirs_stay_same (w w' : W) : disk w' = disk w → dirs_stay w w'.
Proof. intros E n. by rewrite E. Qed.

#[local] Hint Extern 1 (respects dirs_stay (modify _)) => apply respects_modify; intros; first [apply dirs_stay_insert|by apply dirs_stay_same] : respects.

Lemma dirs_stay_site {A} (m : Content.M A) : respects dirs_stay (on_site m).
Proof. intros w. unfold on_site, zoom. destruct (m _). by apply dirs_stay_same. Qed.
#[local] Hint Resolve dirs_stay_site : respects.

Definition deletes (r : request G) : bool := match r with DeleteSeries _ _ _ _ => true | _ => false end.

Lemma request_dirs r : deletes r = false → respects dirs_stay (body r).
Proof.
  destruct r; intros Hr; try done; cbn [Blog.body]; unfold done_with, create_series, init_bare_repo, update_series, toggle_star,
    create_comment, delete_comment, soft_delete_subtree, write_series_file, insert_content, rewrite_content, publish_series_file; respects.
Qed.

(** Series only change what does not name their repository. *)
Definition names_stay (w w' : W) : Prop :=
  ∀ s x', series_rows (db w') !! s = Some x' → ∃ x, series_rows (db w) !! s = Some x ∧ repo_name x' = repo_name x.

#[local] Instance names_stay_preorder : PreOrder names_stay.
Proof.
  split; [by intros w s x; exists x|]. intros w1 w2 w3 H1 H2 s x3 Hx3. destruct (H2 _ _ Hx3) as (x2 & Hx2 & ->).
  destruct (H1 _ _ Hx2) as (x1 & Hx1 & ->). eauto.
Qed.

Lemma names_stay_same (w w' : W) : series_rows (db w') = series_rows (db w) → names_stay w w'.
Proof. intros E s x. rewrite E. eauto. Qed.

Lemma names_stay_alter s x x' (w : W) : series_rows (db w) !! s = Some x → repo_name x' = repo_name x → names_stay w (set_series <[s := x']> w).
Proof. intros Hx Hn t y Hy. cbn in Hy. apply lookup_insert_Some in Hy as [[<- <-]|[_ Hy]]; eauto. Qed.

Lemma housed_stays w w' : housed w → names_stay w w' → dirs_stay w w' → housed w'.
Proof.
  intros Hh Hn Hd. split.
  - intros s1 s2 x1 x2 (y1 & Hy1 & E1)%Hn (y2 & Hy2 & E2)%Hn He. eapply (names_unique _ _ Hh); [done..|congruence].
  - intros s x (y & Hy & ->)%Hn Hb. by eapply Hd, repo_stored.
  - intros s x (y & Hy & ->)%Hn. by eapply names_safe.
Qed.

#[local] Hint Extern 1 (respects names_stay (modify _)) => apply respects_modify; intros; by apply names_stay_same : respects.

Lemma names_stay_site {A} (m : Content.M A) : respects names_stay (on_site m).
Proof. intros w. unfold on_site, zoom. destruct (m _). by apply names_stay_same. Qed.
#[local] Hint Resolve names_stay_site : respects.

Definition names_only (r : request G) : bool :=
  match r with ToggleStar _ _ | CreateComment _ _ _ _ _ | DeleteComment _ _ _ _ | Publish _ _ _ _ _ _ _ => true | _ => false end.

Lemma request_names r : names_only r = true → respects names_stay (body r).
Proof.
  destruct r; intros Hr; try done; cbn [Blog.body]; unfold done_with, toggle_star,
    create_comment, delete_comment, soft_delete_subtree, publish_series_file; respects.
Qed.

Lemma update_names s u info (w : W) : wp (update_series s u info) (λ _ w', names_stay w w') (λ _ _, True) w.
Proof. unfold update_series. wp_steps; try done. by eapply names_stay_alter. Qed.

Lemma write_names s u path what (w : W) : wp (write_series_file sha3_256 s u path what) (λ _ w', names_stay w w') (λ _ _, True) w.
Proof.
  unfold write_series_file. wp_step. wp_step. wp_step. wp_step; [done|]. wp_step. wp_step; [done|]. wp_step.
  apply (wp_mono _ (λ _ w', series_rows (db w') = series_rows (db w)) _ (λ _ _, True)); [| |done].
  - unfold insert_content, rewrite_content. by wp_steps.
  - intros [] w' E. wp_step. etrans; [by apply names_stay_same|]. eapply names_stay_alter; [by rewrite E|done].
Qed.

Lemma create_housed fails new u info (w : W) : housed w → wp (create_series fails new u info) (λ _ w', housed w') (λ _ _, True) w.
Proof.
  intros Hh. unfold create_series, init_bare_repo. wp_steps; try done. cbn in *.
  match goal with Hn : bool_decide (is_Some (series_named (n_repo_name info) (db w))) = false |- _ => rename Hn into Hfree end.
  assert (Hno : ∀ s x, series_rows (db w) !! s = Some x → repo_name x ≠ n_repo_name info).
  { intros s x Hx Hn. apply bool_decide_eq_false in Hfree. apply Hfree, series_named_live. by exists s, x. }
  match goal with Hn : negb (safe_name _) = false |- _ => apply negb_false_iff in Hn; rename Hn into Hsafe end.
  split; cbn.
  - intros s1 s2 x1 x2 [[<- <-]|[_ H1']]%lookup_insert_Some [[<- <-]|[_ H2']]%lookup_insert_Some He; cbn in *; try done.
    + by destruct (Hno _ _ H2').
    + by destruct (Hno _ _ H1').
    + by eapply names_unique.
  - intros s x [[<- <-]|[_ Hx]]%lookup_insert_Some Hb; [by rewrite lookup_insert_eq|].
    rewrite lookup_insert_ne by (intros He; by destruct (Hno _ _ Hx)). by eapply repo_stored.
  - intros s x [[<- <-]|[_ Hx]]%lookup_insert_Some; [done|by eapply names_safe].
Qed.

Lemma delete_housed remains s u adm (w : W) : housed w →
  wp (delete_series remains s u adm)
    (λ _ w', housed w' ∧ ∀ s2 x, s2 ≠ s → series_rows (db w) !! s2 = Some x → ¬ bereft s2 → is_Some (disk w' !! repo_name x))
    (λ _ w', dirs_stay w w') w.
Proof.
  intros Hh. unfold delete_series, delete_repo. wp_steps; try done; try (by apply dirs_stay_same); cbn in *.
  - intros n Hn. cbn. destruct (decide (n = repo_name a)) as [->|]; [by rewrite lookup_insert_eq|by rewrite lookup_insert_ne].
  - assert (Hkept : ∀ s2 x, s2 ≠ s → series_rows (db w) !! s2 = Some x → ¬ bereft s2 → is_Some (delete (repo_name a) (disk w) !! repo_name x)).
    { intros s2 x Hne Hx Hb. rewrite lookup_delete_ne; [by eapply repo_stored|]. intros He. apply Hne. by eapply names_unique. }
    split; [split; cbn|done].
    + intros s1 s2 x1 x2 [_ H1']%lookup_delete_Some [_ H2']%lookup_delete_Some. by eapply names_unique.
    + intros s2 x [Hne Hx]%lookup_delete_Some. by apply Hkept.
    + intros s2 x [_ Hx]%lookup_delete_Some. by eapply names_safe.
  - split; [split; cbn|intros s2 x _; by apply repo_stored].
    + intros s1 s2 x1 x2 [_ H1']%lookup_delete_Some [_ H2']%lookup_delete_Some. by eapply names_unique.
    + intros s2 x [_ Hx]%lookup_delete_Some. by eapply repo_stored.
    + intros s2 x [_ Hx]%lookup_delete_Some. by eapply names_safe.
Qed.

(** The series of which a deletion is asked for and does not commit. *)
Definition deletes_series (s : uuid) (r : request G) : Prop := match r with DeleteSeries _ t _ _ => s = t | _ => False end.
Definition unlucky (s : uuid) (r : request G * bool) : Prop := r.2 = false ∧ deletes_series s r.1.

Lemma rolled_back_housed (w w' : W) st : housed w →
  (∀ s x, series_rows (db w) !! s = Some x → ¬ bereft s → is_Some (disk w' !! repo_name x)) → housed (World (db w) st (disk w')).
Proof. intros Hh Hd. split; cbn; [apply Hh|exact Hd|apply Hh]. Qed.

Lemma dirs_stay_housed (w w' : W) st : housed w → dirs_stay w w' → housed (World (db w) st (disk w')).
Proof. intros Hh Hd. apply rolled_back_housed; [done|]. intros s x Hx Hb. by eapply Hd, repo_stored. Qed.

(** A deletion has removed the repository when it commits. *)
Lemma request_housed r commits (w : W) : housed w → (∀ s, unlucky s (r, commits) → bereft s) → housed (transaction commits (body r) w).2.
Proof.
  intros Hh Hc. destruct (deletes r) eqn:Hr.
  - destruct r as [| |remains s u adm| | | | |]; try done. unfold transaction. cbn [Blog.body]. unfold done_with.
    pose proof (delete_housed remains s u adm w Hh) as Hw. unfold wp in Hw.
    unfold mbind, prog_bind. destruct (delete_series _ _ _ _ w) as [[a|e] w']; [|by apply dirs_stay_housed].
    destruct Hw as [Hw Hkept]. destruct commits; [exact Hw|]. apply rolled_back_housed; [done|].
    intros s2 x Hx Hb. apply (Hkept s2 x); [|done..]. intros ->. by apply Hb, Hc.
  - assert (Hw : wp (body r) (λ _ w', housed w') (λ _ _, True) w).
    { destruct (names_only r) eqn:Hn.
      - pose proof (request_names r Hn w) as H1. pose proof (request_dirs r Hr w) as H2. unfold wp. destruct (body r w) as [[] w']; [|done].
        by eapply housed_stays.
      - destruct r; try done; cbn [Blog.body]; unfold done_with; try wp_step.
        + eapply wp_mono; [by apply create_housed| |done]. intros ? w' ?. by wp_step.
        + pose proof (request_dirs (UpdateSeries s u info) eq_refl w) as Hd. cbn [Blog.body] in Hd. unfold done_with in Hd.
          pose proof (update_names s u info w) as Hn'. unfold wp in *. unfold mbind, prog_bind in Hd.
          destruct (update_series s u info w) as [[] w']; [|done]. by eapply housed_stays.
        + pose proof (request_dirs (WriteFile s u path what) eq_refl w) as Hd. cbn [Blog.body] in Hd.
          pose proof (write_names s u path what w) as Hn'. unfold wp in *. destruct (write_series_file _ _ _ _ _ w) as [[] w']; [|done].
          by eapply housed_stays. }
    pose proof (request_dirs r Hr w) as Hd. unfold wp in Hw. unfold transaction.
    destruct (body r w) as [[a|e] w']; [destruct commits; [exact Hw|]|]; by apply dirs_stay_housed.
Qed.

Lemma serve_housed rs (w : W) : housed w → (∀ s r, r ∈ rs → unlucky s r → bereft s) → housed (serve sha3_256 safe_load cfg rs w).
Proof.
  revert w. induction rs as [|[r c] rs IH]; intros w Hw Hc; [done|]. apply IH; [|intros s r' Hin; apply Hc; by right].
  apply request_housed; [done|]. intros s. apply Hc. by left.
Qed.

(** A repository without a series keeps being one while requests are served. *)
Definition orphan (w : W) (name : string) : Prop := is_Some (disk w !! name) ∧ ¬ live w name.

Lemma live_names_stay (w w' : W) name : names_stay w w' → live w' name → live w name.
Proof. intros Hn (s & x' & Hx' & <-). destruct (Hn _ _ Hx') as (x & Hx & ->). by exists s, x. Qed.

Lemma create_orphan fails new u info (w : W) name : orphan w name →
  wp (create_series fails new u info) (λ _ w', orphan w' name) (λ _ _, True) w.
Proof.
  intros [Hd Hl]. unfold create_series, init_bare_repo. wp_steps; try done. cbn in *.
  match goal with Hn : bool_decide (is_Some (disk w !! _)) = false |- _ => apply bool_decide_eq_false in Hn; rename Hn into Hfree end.
  assert (name ≠ n_repo_name info) by (intros ->; done). split; cbn; [by rewrite lookup_insert_ne|].
  intros (s & x & Hx & Hn). cbn in Hx. apply lookup_insert_Some in Hx as [[_ <-]|[_ Hx]]; [done|]. apply Hl. by exists s, x.
Qed.

Lemma delete_orphan remains s u adm (w : W) name : orphan w name →
  wp (delete_series remains s u adm) (λ _ w', orphan w' name) (λ _ w', dirs_stay w w') w.
Proof.
  intros [Hd Hl]. unfold delete_series, delete_repo. wp_steps; try done; try (by apply dirs_stay_same); cbn in *.
  - intros n Hn. cbn. destruct (decide (n = repo_name a)) as [->|]; [by rewrite lookup_insert_eq|by rewrite lookup_insert_ne].
  - split; cbn.
    + rewrite lookup_delete_ne; [done|]. intros He. apply Hl. by exists s, a.
    + intros (s2 & x & Hx & Hn). cbn in Hx. apply lookup_delete_Some in Hx as [_ Hx]. apply Hl. by exists s2, x.
  - split; [done|]. intros (s2 & x & Hx & Hn). cbn in Hx. apply lookup_delete_Some in Hx as [_ Hx]. apply Hl. by exists s2, x.
Qed.

Lemma request_orphan r commits (w : W) name : orphan w name → orphan (transaction commits (body r) w).2 name.
Proof.
  intros Ho. assert (Hdb : ∀ w' : W, dirs_stay w w' → ∀ st, orphan (World (db w) st (disk w')) name).
  { intros w' Hd st. split; cbn; [by apply Hd, Ho|]. exact (proj2 Ho). }
  assert (Hw : wp (body r) (λ _ w', orphan w' name) (λ _ w', dirs_stay w w') w).
  { destruct (deletes r) eqn:Hr.
    - destruct r as [| |remains s u adm| | | | |]; try done. cbn [Blog.body]. unfold done_with. wp_step.
      eapply wp_mono; [by apply delete_orphan| |done]. intros a w' ?. by wp_step.
    - pose proof (request_dirs r Hr w) as Hd. unfold wp. destruct (body r w) as [[a|e] w'] eqn:Hrun; [|done]. cbn in Hd.
      destruct (names_only r) eqn:Hn.
      + pose proof (request_names r Hn w) as H1. rewrite Hrun in H1. split; [by apply Hd, Ho|]. intros Hl. by apply Ho, (live_names_stay w w').
      + assert (Hns : names_stay w w' ∨ orphan w' name).
        { destruct r; try done; cbn [Blog.body] in Hrun; unfold done_with in Hrun.
          - right. pose proof (create_orphan git_fails new u info w name Ho) as H1. unfold wp, mbind, prog_bind in *.
            destruct (create_series _ _ _ _ w) as [[] ?]; [|done]. by injection Hrun as _ <-.
          - left. pose proof (update_names s u info w) as H1. unfold wp, mbind, prog_bind in *.
            destruct (update_series _ _ _ w) as [[] ?]; [|done]. by injection Hrun as _ <-.
          - left. pose proof (write_names s u path what w) as H1. unfold wp in *. by rewrite Hrun in H1. }
        destruct Hns as [Hns|]; [|done]. split; [by apply Hd, Ho|]. intros Hl. by apply Ho, (live_names_stay w w'). }
  unfold wp in Hw. unfold transaction. destruct (body r w) as [[a|e] w']; [destruct commits; [exact Hw|]|by apply Hdb].
  split; [apply Hw|apply Ho].
Qed.

Lemma serve_orphan rs (w : W) name : orphan w name → orphan (serve sha3_256 safe_load cfg rs w) name.
Proof. revert w. induction rs as [|[r c] rs IH]; intros w Hw; [done|]. by apply IH, request_orphan. Qed.

(** ** The job beside requests *)
Abbreviation one := (reconcile_one sha3_256 safe_load cfg).
Abbreviation job := (reconcile_blog_repos sha3_256 safe_load cfg).

(** What is still to be looked at either had a series when the job began, or is
    an orphan and stays one. *)
Definition to_do (present : gset string) (names : list string) (w : W) : Prop :=
  housed w ∧ ∀ n, n ∈ names → n ∈ present ∨ orphan w n.

Lemma to_do_quarantine present names f (w : W) : to_do present names w → to_do present names (set_quarantine f w).
Proof. intros [Hh Ho]. split; [split; apply Hh|]. intros n Hn. destruct (Ho n Hn) as [|Hor]; [by left|right; exact Hor]. Qed.

Lemma to_do_serve present names rs (w : W) : to_do present names w → (∀ s r, r ∈ rs → unlucky s r → bereft s) →
  to_do present names (serve sha3_256 safe_load cfg rs w).
Proof. intros [Hh Ho] Hc. split; [by apply serve_housed|]. intros n Hn. destruct (Ho n Hn); [by left|right; by apply serve_orphan]. Qed.

Lemma to_do_disk present names name (o : option G) (w : W) : name ∉ names → ¬ live w name → to_do present names w →
  to_do present names (set_disk (match o with None => delete name | Some g => <[name := g]> end) w).
Proof.
  intros Hn Hl [Hh Ho]. assert (Hd : ∀ n, n ≠ name → disk (set_disk (match o with None => delete name | Some g => <[name := g]> end) w) !! n = disk w !! n).
  { intros n Hne. cbn. destruct o; [by rewrite lookup_insert_ne|by rewrite lookup_delete_ne]. } split.
  - split; [apply Hh| |apply Hh]. intros s x Hx Hb. rewrite Hd; [by eapply repo_stored|]. intros <-. apply Hl. by exists s, x.
  - intros n Hin. destruct (Ho n Hin) as [|[Hs Hnl]]; [by left|right]. split; [|done]. rewrite Hd; [done|by intros ->].
Qed.

Lemma to_do_next present name names (w : W) : to_do present (name :: names) w → to_do present names w.
Proof. intros [Hh Ho]. split; [done|]. intros n Hn. apply Ho. by right. Qed.

Lemma one_to_do present quarantined started remains meanwhile name names (w : W) :
  name ∉ names → (∀ k s r, r ∈ meanwhile k name → unlucky s r → bereft s) → to_do present (name :: names) w →
  wp (one present quarantined started remains meanwhile name) (λ _ w', to_do present names w') (λ _ _, False) w.
Proof.
  intros Hnew Hc Hw. unfold reconcile_one. wp_step. wp_step. apply (to_do_serve _ _ (meanwhile 0 name)) in Hw; [|apply Hc]. set (w1 := serve _ _ _ (meanwhile 0 name) w) in *.
  pose proof (to_do_next _ _ _ _ Hw) as Hw'. destruct (decide (name ∈ present)) as [Hin|Hout].
  - case_decide; wp_steps; [by apply to_do_quarantine|done].
  - destruct (quarantined !! name) as [at_|]; [|wp_steps; by apply to_do_quarantine]. case_decide; [|by wp_step].
    wp_step. wp_step. case_decide; [by wp_step|]. rewrite series_named_live in *.
    assert (Ho : orphan w1 name) by (destruct (proj2 Hw name) as [|]; [by left|done|done]).
    wp_step. wp_step. apply (serve_orphan (meanwhile 1 name)) in Ho. apply (to_do_serve _ _ (meanwhile 1 name)) in Hw'; [|apply Hc].
    wp_step. wp_step. apply (to_do_disk _ _ name (remains name)) in Hw'; [|done|by apply Ho].
    wp_step. wp_step. apply (to_do_serve _ _ (meanwhile 2 name)) in Hw'; [|apply Hc]. wp_step. wp_step. case_decide; wp_steps; [done|by apply to_do_quarantine].
Qed.

Lemma loop_to_do present quarantined started remains meanwhile names (w : W) :
  (∀ k n s r, r ∈ meanwhile k n → unlucky s r → bereft s) → NoDup names → to_do present names w →
  wp (for_each names (one present quarantined started remains meanwhile)) (λ _ w', housed w') (λ _ _, False) w.
Proof.
  intros Hc Hnd. revert w. induction Hnd as [|name names Hn _ IH]; intros w Hw; cbn [for_each]; [wp_step; apply Hw|].
  wp_step. eapply wp_mono; [apply one_to_do; [done|intros k; apply Hc|done]| |done]. intros [] w' Hw'. by apply IH.
Qed.

Lemma job_housed turn remains meanwhile (w : W) : housed w → (∀ k n s r, r ∈ meanwhile k n → unlucky s r → bereft s) →
  wp (job turn remains meanwhile) (λ _ w', housed w') (λ _ _, False) w.
Proof.
  intros Hh Hc. unfold reconcile_blog_repos. destruct (negb turn); [by wp_step|]. wp_step. wp_step. cbv zeta. wp_step.
  eapply wp_mono; [apply loop_to_do; [done|apply NoDup_elements|]| |done].
  - split; [done|]. intros n Hn%elem_of_elements%elem_of_dom. destruct (decide (n ∈ live_names (db w))) as [|Hl]; [by left|right].
    split; [done|]. by rewrite <- elem_of_live_names.
  - intros [] w' Hw'. wp_step. split; apply Hw'.
Qed.

(** ** The job alone *)
Definition quiet : nat → string → list (request G * bool) := λ _ _, [].

(** What the job makes of a repository: its row of the ledger, and what is on
    the disk. *)
Definition verdict (has_series : bool) (q : option Z) (started : Z) (left_over : option G) (g : G) : option Z * option G :=
  if has_series then (None, Some g) else
  match q with
  | None => (Some started, Some g)
  | Some t =>
      if decide (quarantine_time < started - t)%Z then
        match left_over with None => (None, None) | Some g' => (Some t, Some g') end
      else (Some t, Some g)
  end.

(** Only the ledger and the disk have changed. *)
Definition only_repositories (w w' : W) : Prop :=
  site w' = site w ∧ ∃ q, db w' = Tables (series_rows (db w)) (stars (db w)) (comments (db w)) (contents (db w)) q.

#[global] Instance only_preorder : PreOrder only_repositories.
Proof.
  split; [intros w; split; [done|exists (quarantine (db w))]; by destruct (db w)|].
  intros w1 w2 w3 [S1 [q1 E1]] [S2 [q2 E2]]. split; [congruence|]. exists q2. by rewrite E2, E1.
Qed.

Lemma only_quarantine f (w : W) : only_repositories w (set_quarantine f w).
Proof. split; [done|]. eexists. reflexivity. Qed.

Lemma only_disk f (w : W) : only_repositories w (set_disk f w).
Proof. split; [done|]. exists (quarantine (db w)). cbn. by destruct (db w). Qed.

Definition entry_of (w : W) (name : string) : option Z * option G := (quarantine (db w) !! name, disk w !! name).

Definition touches_only (name : string) (w w' : W) : Prop := only_repositories w w' ∧ ∀ n, n ≠ name → entry_of w' n = entry_of w n.

Lemma touches_quarantine_delete name (w : W) : touches_only name w (set_quarantine (delete name) w).
Proof. split; [apply only_quarantine|]. intros n Hn. unfold entry_of. cbn. by rewrite lookup_delete_ne. Qed.
Lemma touches_quarantine_insert name t (w : W) : touches_only name w (set_quarantine <[name := t]> w).
Proof. split; [apply only_quarantine|]. intros n Hn. unfold entry_of. cbn. by rewrite lookup_insert_ne. Qed.
Lemma touches_disk name (o : option G) (w : W) :
  touches_only name w (set_disk (match o with None => delete name | Some g => <[name := g]> end) w).
Proof.
  split; [apply only_disk|]. intros n Hn. unfold entry_of. cbn. destruct o; [by rewrite lookup_insert_ne|by rewrite lookup_delete_ne].
Qed.
#[local] Instance touches_preorder name : PreOrder (touches_only name).
Proof.
  split; [by intros w; split|]. intros w1 w2 w3 [O1 E1] [O2 E2]. split; [by etrans|]. intros n Hn. by rewrite E2, E1.
Qed.

Lemma one_quiet present quarantined started remains name g (w : W) :
  (name ∈ present ↔ live w name) → quarantine (db w) !! name = quarantined !! name → disk w !! name = Some g →
  wp (one present quarantined started remains quiet name)
    (λ _ w', touches_only name w w'
             ∧ entry_of w' name = verdict (bool_decide (name ∈ present)) (quarantined !! name) started (remains name) g)
    (λ _ _, False) w.
Proof.
  intros Hp Hq Hg. unfold reconcile_one. wp_step. wp_step. cbn [serve quiet foldl]. unfold entry_of, verdict. case_decide as Hin.
  - rewrite bool_decide_true by done. case_decide as Hs; wp_steps; cbn.
    + split; [apply touches_quarantine_delete|]. by rewrite lookup_delete_eq, Hg.
    + split; [done|]. apply eq_None_not_Some in Hs. by rewrite Hq, Hs, Hg.
  - rewrite bool_decide_false by done. destruct (quarantined !! name) as [t|] eqn:Hqn.
    + case_decide; [|wp_step; split; [done|]; cbn; by rewrite Hq, Hg].
      wp_step. wp_step. case_decide as Hs; [by apply series_named_live, Hp in Hs|]. wp_step. wp_step. wp_step. wp_step. wp_step. wp_step.
      wp_step. wp_step. cbn [serve quiet foldl]. destruct (remains name) as [g'|] eqn:Hrem; cbn.
      * rewrite lookup_insert_eq, decide_True by done. wp_step. split; [exact (touches_disk name (Some g') w)|]. cbn. by rewrite Hq, lookup_insert_eq.
      * rewrite lookup_delete_eq, decide_False by (by intros []). wp_step. split; [|cbn; by rewrite !lookup_delete_eq].
        etrans; [exact (touches_disk name None w)|apply touches_quarantine_delete].
    + wp_steps. split; [apply touches_quarantine_insert|]. cbn. by rewrite lookup_insert_eq, Hg.
Qed.

Lemma loop_quiet present quarantined started remains names (w : W) :
  (∀ n, n ∈ present ↔ live w n) → NoDup names →
  (∀ n, n ∈ names → quarantine (db w) !! n = quarantined !! n ∧ is_Some (disk w !! n)) →
  wp (for_each names (one present quarantined started remains quiet))
    (λ _ w', only_repositories w w' ∧ ∀ n, entry_of w' n =
       (if decide (n ∈ names) then match disk w !! n with
          | Some g => verdict (bool_decide (n ∈ present)) (quarantined !! n) started (remains n) g | None => entry_of w n end
        else entry_of w n))
    (λ _ _, False) w.
Proof.
  intros Hp Hnd. revert w Hp. induction Hnd as [|name names Hn _ IH]; intros w Hp Hw; cbn [for_each].
  - wp_step. split; [done|]. intros n. by rewrite decide_False by apply not_elem_of_nil.
  - destruct (Hw name) as [Hq [g Hg]]; [by left|]. wp_step. eapply wp_mono; [by apply (one_quiet _ _ _ _ _ g)| |done].
    intros [] w1 [[O1 E1] Hv]. assert (Hl : ∀ n, live w1 n ↔ live w n).
    { intros n. unfold live. destruct O1 as [_ [q ->]]. done. }
    eapply wp_mono; [apply IH| |done].
    + intros n. by rewrite Hl.
    + intros n Hin. assert (n ≠ name) by (by intros ->). specialize (E1 n ltac:(done)). unfold entry_of in E1.
      injection E1 as -> ->. apply Hw. by right.
    + intros [] w2 [O2 E2]. split; [by etrans|]. intros n. rewrite E2. destruct (decide (n = name)) as [->|Hne].
      * rewrite decide_False, decide_True by (done || by left). by rewrite Hg.
      * specialize (E1 n Hne). unfold entry_of in E1 |- *. injection E1 as E1q E1d. rewrite E1q, E1d.
        destruct (decide (n ∈ names)) as [Hin|Hin]; [rewrite decide_True by (by right)|rewrite decide_False by (by rewrite not_elem_of_cons)]; done.
Qed.

Lemma lookup_delete_all {A} (l : list string) (m : gmap string A) n :
  foldr delete m l !! n = if decide (n ∈ l) then None else m !! n.
Proof.
  induction l as [|k l IH]; cbn; [by rewrite decide_False by apply not_elem_of_nil|]. destruct (decide (n = k)) as [->|Hne].
  - by rewrite lookup_delete_eq, decide_True by (by left).
  - rewrite lookup_delete_ne, IH by done. destruct (decide (n ∈ l)); [by rewrite decide_True by (by right)|].
    by rewrite decide_False by (by rewrite not_elem_of_cons).
Qed.

Definition has_series (w : W) (name : string) : bool := bool_decide (name ∈ live_names (db w)).

Lemma job_quiet remains (w : W) :
  wp (job true remains quiet)
    (λ _ w', only_repositories w w' ∧ ∀ n, entry_of w' n =
       match disk w !! n with
       | Some g => verdict (has_series w n) (quarantine (db w) !! n) (now w) (remains n) g
       | None => (None, None)
       end) (λ _ _, False) w.
Proof.
  unfold reconcile_blog_repos. cbn [negb]. wp_step. wp_step. cbv zeta. wp_step.
  eapply wp_mono; [apply loop_quiet; [intros n; apply elem_of_live_names|apply NoDup_elements|]| |done].
  - intros n Hn%elem_of_elements%elem_of_dom. done.
  - intros [] w' [O E]. wp_step. split; [etrans; [exact O|apply only_quarantine]|]. intros n. specialize (E n). unfold entry_of in E |- *. cbn.
    rewrite lookup_delete_all. destruct (disk w !! n) as [g|] eqn:Hg.
    + rewrite (decide_True (P := n ∈ elements _)) in E by (by apply elem_of_elements, elem_of_dom; exists g).
      rewrite decide_False; [exact E|]. rewrite list_elem_of_filter. intros [Hnot _]. apply Hnot. by apply elem_of_elements, elem_of_dom; exists g.
    + assert (Hnot : n ∉ elements (dom (disk w))) by (by rewrite elem_of_elements, elem_of_dom, Hg; intros []).
      rewrite decide_False in E by done. injection E as Eq ->. f_equal. case_decide as Hf; [done|].
      rewrite Eq. destruct (quarantine (db w) !! n) as [t|] eqn:Ht; [|done]. destruct Hf. apply list_elem_of_filter. split; [done|].
      apply list_elem_of_fmap. exists (n, t). split; [done|]. by apply elem_of_map_to_list.
Qed.

(** ** All that happens *)
Context (verify_password : string → string → option (uuid * string)) {payload_type : Type}.
Context (http_backend : string → string → option string → payload_type → G → G * nat).

(** What happens: a request, a request for a repository, a run of the job; and
    [Elapse]: time passes, items change. *)
Inductive event :=
  | Request (r : request G) (commits : bool)
  | GitRequest (F : git_faults) (name : string) (q : http_request payload_type)
  | Job (turn : bool) (remains : string → option G) (meanwhile : nat → string → list (request G * bool)) (commits : bool)
  | Elapse (s : Content.world).

(** The requests that were served during the job have their own transactions:
    when its own does not commit, only the ledger is what it was. *)
Definition after (w : W) (e : event) : W :=
  match e with
  | Request r commits => (transaction commits (body r) w).2
  | GitRequest F name q => (git_http_backend sha3_256 verify_password http_backend F name q w).2
  | Job turn remains meanwhile commits =>
      match job turn remains meanwhile w with
      | (Ok _, w') => if commits then w' else set_quarantine (λ _, quarantine (db w)) w'
      | (Raise _, w') => set_quarantine (λ _, quarantine (db w)) w'
      end
  | Elapse s => World (db w) s (disk w)
  end.

Inductive step (w : W) : W → Prop :=
  | step_event e : step w (after w e).

(** A deletion of the series was asked for, and its transaction did not commit. *)
Definition bereaves (s : uuid) (e : event) : Prop :=
  match e with
  | Request r commits => unlucky s (r, commits)
  | Job _ _ meanwhile _ => ∃ k n r, r ∈ meanwhile k n ∧ unlucky s r
  | _ => False
  end.

Lemma verdict_live q t left_over g : verdict true q t left_over g = (None, Some g).
Proof. done. Qed.

Lemma job_event_housed turn remains meanwhile commits (w : W) : housed w → (∀ k n s r, r ∈ meanwhile k n → unlucky s r → bereft s) →
  housed (after w (Job turn remains meanwhile commits)).
Proof.
  intros Hh Hc. pose proof (job_housed turn remains meanwhile w Hh Hc) as Hj. unfold wp in Hj. cbn [after].
  destruct (job turn remains meanwhile w) as [[[]|e] w']; [|done]. destruct commits; [exact Hj|]. split; apply Hj.
Qed.

Lemma respects_each {A} (R : W → W → Prop) `{!PreOrder R} (l : list A) (f : A → prog W err ()) :
  (∀ a, respects R (f a)) → respects R (for_each l f).
Proof. intros Hf. induction l as [|a l IH]; cbn [for_each]; [apply respects_ret; apply _|]. by apply respects_bind; [apply _|apply Hf|]. Qed.

Lemma respects_rollback {A} (R : W → W → Prop) `{!PreOrder R} commits (m : prog W err A) w :
  (∀ w' s, R w w' → R w (World (db w) s (disk w'))) → respects R m → R w (transaction commits m w).2.
Proof.
  intros Hrb Hm. specialize (Hm w). unfold transaction. destruct (m w) as [[a|e] w']; [destruct commits; [exact Hm|]|]; cbn; by apply Hrb.
Qed.

(** Of the tables a push only writes files. *)
Definition files_only (w w' : W) : Prop :=
  site w' = site w ∧ disk w' = disk w
  ∧ ∃ c, db w' = Tables (series_rows (db w)) (stars (db w)) (comments (db w)) c (quarantine (db w)).

#[local] Instance files_only_preorder : PreOrder files_only.
Proof.
  split; [intros w; split; [done|]; split; [done|]; exists (contents (db w)); by destruct (db w)|].
  intros w1 w2 w3 (S1 & D1 & q1 & E1) (S2 & D2 & q2 & E2). split; [congruence|]. split; [congruence|]. exists q2. by rewrite E2, E1.
Qed.

Lemma files_contents f (w : W) : files_only w (set_contents f w).
Proof. split; [done|]. split; [done|]. eexists. reflexivity. Qed.

#[local] Hint Extern 1 (respects files_only (modify _)) => apply respects_modify; intros; apply files_contents : respects.

Lemma backfill_one_files down s name push_at known path : respects files_only (backfill_one sha3_256 down s name push_at known path).
Proof. unfold backfill_one, read_file, rewrite_content, insert_content. respects. Qed.

Lemma backfill_files down name s old push_at : respects files_only (backfill_series_from_git sha3_256 down name s old push_at).
Proof.
  unfold backfill_series_from_git, revparse_or_none, diff_tree_names, repository.
  respects. apply respects_each; [apply _|]. intros p. apply backfill_one_files.
Qed.

Lemma maybe_backfill_files down commits name old (w : W) :
  let w' := (maybe_backfill_after_push sha3_256 down commits name old w).2 in
  Content.set_db (λ _, Content.db (site w)) (site w') = site w ∧ disk w' = disk w
  ∧ ∃ c, db w' = Tables (series_rows (db w)) (stars (db w)) (comments (db w)) c (quarantine (db w)).
Proof.
  unfold maybe_backfill_after_push. cbv zeta. cbn [snd]. set (m := match _ with None => _ | _ => _ end).
  assert (Hm : respects files_only m) by (subst m; destruct (series_named name (db w)) as [kx|]; [apply backfill_files|apply respects_ret; apply _]).
  specialize (Hm w). unfold transaction. assert (Hs : Content.set_db (λ _, Content.db (site w)) (site w) = site w) by (by destruct (site w)).
  assert (Hd : ∃ c, db w = Tables (series_rows (db w)) (stars (db w)) (comments (db w)) c (quarantine (db w))) by (exists (contents (db w)); by destruct (db w)).
  destruct (m w) as [[a|e] w']; destruct Hm as (S1 & D1 & Hc); cbn in S1, D1, Hc; [destruct commits|]; cbn; rewrite ?S1, ?D1; by split_and!.
Qed.

(** A request for a repository: its directory, and files. *)
Definition of_repository (name : string) (w w' : W) : Prop :=
  (∃ c, db w' = Tables (series_rows (db w)) (stars (db w)) (comments (db w)) c (quarantine (db w)))
  ∧ (∀ n, n ≠ name → disk w' !! n = disk w !! n) ∧ (is_Some (disk w !! name) → is_Some (disk w' !! name)).

#[local] Instance of_repository_preorder name : PreOrder (of_repository name).
Proof.
  split.
  - intros w. split; [exists (contents (db w)); by destruct (db w)|done].
  - intros w1 w2 w3 ([q1 E1] & D1 & N1) ([q2 E2] & D2 & N2). split; [exists q2; by rewrite E2, E1|]. split; [|auto].
    intros n Hn. by rewrite D2, D1.
Qed.

Lemma of_repository_disk name g (w : W) : of_repository name w (set_disk <[name := g]> w).
Proof.
  split; [exists (contents (db w)); cbn; by destruct (db w)|]. cbn. rewrite lookup_insert_eq. split; [|done].
  intros n Hn. by rewrite lookup_insert_ne.
Qed.

#[local] Hint Extern 1 (respects (of_repository _) (modify _)) => apply respects_modify; intros; apply of_repository_disk : respects.

Lemma of_repository_backfill down commits name old : respects (of_repository name) (maybe_backfill_after_push sha3_256 down commits name old).
Proof. intros w. destruct (maybe_backfill_files down commits name old w) as (_ & D & Hc). split; [done|]. by rewrite D. Qed.
#[local] Hint Resolve of_repository_backfill : respects.

Lemma git_of_repository F name q : respects (of_repository name) (git_http_backend sha3_256 verify_password http_backend F name q).
Proof. unfold git_http_backend, _require_owner_for_push, revparse_or_none, repository. respects. Qed.

Lemma of_repository_housed name w w' : housed w → of_repository name w w' → housed w'.
Proof.
  intros Hh ([c E] & D & N). apply (housed_stays w); [done| |].
  - apply names_stay_same. by rewrite E.
  - intros n Hn. destruct (decide (n = name)) as [->|Hne]; [by apply N|by rewrite D].
Qed.

Lemma event_housed e (w : W) : housed w → (∀ s, bereaves s e → bereft s) → housed (after w e).
Proof.
  intros Hh Hb. destruct e as [r commits|F name q|turn remains meanwhile commits|s]; [by apply request_housed| | |split; apply Hh].
  - cbn [after]. eapply of_repository_housed; [done|apply git_of_repository].
  - apply job_event_housed; [done|]. intros k n s r Hin Hu. apply Hb. by exists k, n, r.
Qed.

Lemma events_housed es (w : W) : housed w → (∀ s e, e ∈ es → bereaves s e → bereft s) → housed (foldl after w es).
Proof.
  revert w. induction es as [|e es IH]; intros w Hh Hb; [done|]. apply IH; [|intros s e' Hin; apply Hb; by right].
  apply event_housed; [done|]. intros s. apply Hb. by left.
Qed.
End housing.

(** C26: Repositories are kept as long as they are needed, and no longer. After
    any list of requests, pushes and runs of the weekly job on a site without
    series, with whatever fails (git, the removal of a directory, the commit of
    any request and of the job itself; and with requests of all kinds served,
    committed or not, at every wait of the job): the names of the repositories
    are safe and no two series share one, and every series has its repository
    on the disk, except those of which a deletion has failed to commit (it has
    removed the repository by then). The job decides on each repository alone:
    one with a series is left as it is; one without is put on the ledger when it
    is first seen, is removed by the first run more than seven days after that,
    and stays on the ledger if it could not be removed; the ledger then lists
    exactly the repositories without a series. Two runs more than seven days
    apart, if nothing else happens, directories can be removed and the ledger has
    no dates to come, leave no repository without a series. *)
Theorem repositories_reconciled {G} `{Git G} sha safe_load cfg verify {P} (backend : string → string → option string → P → G → G * nat)
    (w0 : world G) (es : list event) (H0 : series_rows (db w0) = ∅) :
  let w := foldl (after sha safe_load cfg verify backend) w0 es in
  housed (λ s, ∃ e, e ∈ es ∧ bereaves s e) w
  ∧ (∀ remains, ∃ w', reconcile_blog_repos sha safe_load cfg true remains quiet w = (Ok tt, w') ∧ only_repositories w w'
     ∧ (∀ n g, disk w !! n = Some g →
          entry_of w' n = verdict (has_series w n) (quarantine (db w) !! n) (now w) (remains n) g)
     ∧ (∀ n, is_Some (quarantine (db w') !! n) ↔ is_Some (disk w' !! n) ∧ ¬ live w' n))
  ∧ (∀ w1 s w2, (∀ n t, quarantine (db w) !! n = Some t → t ≤ now w)%Z →
       reconcile_blog_repos sha safe_load cfg true (λ _, None) quiet w = (Ok tt, w1) →
       (now w + quarantine_time < Content.clock s)%Z →
       reconcile_blog_repos sha safe_load cfg true (λ _, None) quiet (World (db w1) s (disk w1)) = (Ok tt, w2) →
       ∀ n, is_Some (disk w2 !! n) → live w2 n).
Proof.
  intros w. split; [apply events_housed; [split; intros *; by rewrite H0|by eauto]|]. clearbody w.
  assert (Hrun : ∀ remains (w : world G), ∃ w', reconcile_blog_repos sha safe_load cfg true remains quiet w = (Ok tt, w') ∧ only_repositories w w'
    ∧ ∀ n, entry_of w' n = match disk w !! n with
       | Some g => verdict (has_series w n) (quarantine (db w) !! n) (now w) (remains n) g | None => (None, None) end).
  { intros remains w2. pose proof (job_quiet sha safe_load cfg remains w2) as Hj. unfold wp in Hj.
    destruct (reconcile_blog_repos _ _ _ true remains quiet w2) as [[[]|e] w']; [|done]. by exists w'. }
  assert (Hlive : ∀ (w w' : world G) n, only_repositories w w' → (live w' n ↔ has_series w n = true)).
  { intros v v' n [_ [q E]]. unfold has_series. rewrite bool_decide_eq_true, elem_of_live_names. unfold live. by rewrite E. }
  split.
  - intros remains. destruct (Hrun remains w) as (w' & Hw' & O & E). exists w'. split_and!; [done|done| |].
    + intros n g Hg. by rewrite E, Hg.
    + intros n. rewrite (Hlive w w' n O), not_true_iff_false. specialize (E n). unfold entry_of in E.
      destruct (disk w !! n) as [g|]; [|injection E as -> ->; by split; [intros []|intros [[] _]]]. unfold verdict in E.
      destruct (has_series w n); [injection E as -> ->; naive_solver|].
      destruct (quarantine (db w) !! n) as [t|]; [destruct (decide (quarantine_time < now w - t)%Z); [destruct (remains n)|]|]; injection E as -> ->; naive_solver.
  - intros w1 s w2 Hpast H1 Hlater H2 n Hn. destruct (Hrun (λ _, None) w) as (w1' & H1' & O1 & E1). rewrite H1 in H1'. injection H1' as <-.
    destruct (Hrun (λ _, None) (World (db w1) s (disk w1))) as (w2' & H2' & O2 & E2). rewrite H2 in H2'. injection H2' as <-.
    apply (Hlive _ _ n O2). specialize (E1 n). specialize (E2 n). unfold entry_of in E1, E2. cbn [db disk] in E2. pose proof (f_equal fst E1) as E1q. pose proof (f_equal snd E1) as E1d. cbn [fst snd] in E1q, E1d. clear E1.
    set (w1s := World (db w1) s (disk w1)) in *. destruct (has_series w1s n) eqn:Hs; [done|]. exfalso.
    assert (Hs0 : has_series w n = false).
    { destruct (has_series w n) eqn:Hh0; [|done]. apply (Hlive w w1 n O1) in Hh0. apply (Hlive w1s w1s n) in Hh0; [congruence|reflexivity]. }
    rewrite E1q, E1d, Hs0 in E2. destruct (disk w !! n) as [g|] eqn:Hg; cbn in E2; [|injection E2 as _ E2; by rewrite E2 in Hn; destruct Hn].
    destruct (quarantine (db w) !! n) as [t|] eqn:Hq; cbn in E2.
    + specialize (Hpast n t Hq). unfold now in *. cbn in E2.
      destruct (decide (quarantine_time < Content.clock (site w) - t)%Z); cbn in E2; [injection E2 as _ E2; by rewrite E2 in Hn; destruct Hn|].
      rewrite decide_True in E2 by lia. injection E2 as _ E2. rewrite E2 in Hn. by destruct Hn.
    + unfold now in *. cbn in E2. rewrite decide_True in E2 by lia. injection E2 as _ E2. rewrite E2 in Hn. by destruct Hn.
Qed.

(** ** Who may push *)
Definition endswith (suffix s : string) : Prop := ∃ a, s = (a +:+ suffix)%string.

Lemma contains_app needle a b : contains needle (a +:+ needle +:+ b)%string = true.
Proof.
  induction a as [|c a IH].
  - change ("" +:+ needle +:+ b)%string with (needle +:+ b)%string. pose proof (prefix_app needle b) as Hp.
    destruct (needle +:+ b)%string; cbn [contains]; by rewrite Hp.
  - rewrite append_cons. cbn [contains]. by rewrite IH, orb_true_r.
Qed.

Lemma app_nil_string s : (s +:+ "")%string = s.
Proof. induction s as [|c s IH]; [done|]. rewrite append_cons. by rewrite IH. Qed.

Section pushing.
Context {G : Type} `{Git G} (sha3_256 : string → string) (verify_password : string → string → option (uuid * string)).
Context {P : Type} (http_backend : string → string → option string → P → G → G * nat).
Abbreviation W := (world G).

(** [git http-backend] writes a repository only when it receives a pack. *)
Definition receives_only : Prop := ∀ m p u b g, m ≠ "POST"%string ∨ ¬ endswith "/git-receive-pack" p → (http_backend m p u b g).1 = g.

Lemma not_receiving name (q : http_request P) u g : receives_only → _is_receive_pack name q = false →
  (http_backend (method q) (path_info name q) u (payload q) g).1 = g.
Proof.
  intros Hb Hp. apply Hb. unfold _is_receive_pack in Hp. destruct (decide (method q = "POST"%string)) as [Hm|]; [right|by left].
  rewrite bool_decide_true in Hp by done. intros [a Ha]. rewrite Ha in Hp. cbn [andb] in Hp.
  pose proof (contains_app "git-receive-pack" ("/blog/git" +:+ a +:+ "/")%string "") as Hc. rewrite app_nil_string in Hc.
  rewrite <- !string_app_assoc in Hc.
  change ("/" +:+ "git-receive-pack")%string with "/git-receive-pack"%string in Hc. by rewrite Hc in Hp.
Qed.

(** The credentials of the request are those of the owner of the series. *)
Definition by_owner (name : string) (q : http_request P) (d : tables) : Prop :=
  ∃ c s x u, credentials q = Some c ∧ series_named name d = Some (s, x) ∧ verify_password c.1 c.2 = Some (s_owner x, u).

Lemma owner_wp name q (w : W) :
  wp (_require_owner_for_push verify_password name q) (λ _ w', w' = w ∧ by_owner name q (db w)) (λ e w', w' = w ∧ e ∈ [UNAUTHORIZED; FORBIDDEN]) w.
Proof.
  unfold _require_owner_for_push, _authenticate_credentials. wp_steps; try (split; [done|]; set_solver).
  split; [done|]. apply bool_decide_eq_false in H3. destruct a1 as [s x], a0 as [o u]. cbn in *. exists a, s, x, u.
  split; [done|]. split; [done|]. by destruct (decide (s_owner x = o)) as [->|].
Qed.

Lemma git_unauthorized F name q (w : W) : receives_only → ¬ by_owner name q (db w) →
  (git_http_backend sha3_256 verify_password http_backend F name q w).2 = w.
Proof.
  intros Hb Ho. assert (Hw : wp (git_http_backend sha3_256 verify_password http_backend F name q) (λ _ w', w' = w) (λ _ w', w' = w) w).
  { unfold git_http_backend. wp_step. wp_step. wp_step. wp_step; [done|]. cbv zeta. destruct (_is_receive_pack name q) eqn:Hp.
    - wp_step. wp_step. eapply wp_mono; [apply owner_wp| |]; [intros u w' [-> Hby]; done|by intros e w' [-> _]].
    - wp_step. wp_step. wp_step. wp_step. pose proof (not_receiving name q (snd <$> (credentials q ≫= _authenticate_credentials verify_password)) a Hb Hp) as Hg.
      destruct (http_backend _ _ _ _ a) as [g' status]. cbn in Hg. subst g'.
      assert (Hid : set_disk <[name := a]> w = w) by (destruct w as [d st dk]; unfold set_disk; cbn in *; by rewrite insert_id).
      wp_step. wp_step. rewrite Hid. wp_step. wp_step; [done|]. cbn [andb]. wp_steps. done. }
  unfold wp in Hw. by destruct (git_http_backend _ _ _ _ _ _ w) as [[] ?].
Qed.

(** Only files of this series. *)
Definition files_of (s : option uuid) (w w' : W) : Prop := ∀ k, Some k.1 ≠ s → contents (db w') !! k = contents (db w) !! k.

#[local] Instance files_of_preorder s : PreOrder (files_of s).
Proof. split; [by intros w k|]. intros w1 w2 w3 E1 E2 k Hk. by rewrite E2, E1. Qed.

Lemma files_of_insert s path r (w : W) : files_of (Some s) w (set_contents <[(s, path) := r]> w).
Proof. intros [s' p] Hk. cbn in *. by rewrite lookup_insert_ne by congruence. Qed.

#[local] Hint Extern 1 (respects (files_of _) (modify _)) => apply respects_modify; intros; first [apply files_of_insert|done] : respects.

Lemma backfill_files_of down name s old push_at : respects (files_of (Some s)) (backfill_series_from_git sha3_256 down name s old push_at).
Proof.
  unfold backfill_series_from_git, revparse_or_none, diff_tree_names, repository.
  respects. apply respects_each; [apply _|]. intros p. unfold backfill_one, read_file, rewrite_content, insert_content. respects.
Qed.

Lemma maybe_files_of down commits name old (w : W) :
  files_of (fst <$> series_named name (db w)) w (maybe_backfill_after_push sha3_256 down commits name old w).2.
Proof.
  unfold maybe_backfill_after_push. cbn [snd]. apply (respects_rollback (files_of (fst <$> series_named name (db w)))); [done|].
  destruct (series_named name (db w)) as [[s x]|]; [apply backfill_files_of|apply respects_ret; apply _].
Qed.

Lemma git_files_of F name q (w : W) :
  wp (git_http_backend sha3_256 verify_password http_backend F name q)
    (λ _ w', files_of (fst <$> series_named name (db w)) w w') (λ _ w', files_of (fst <$> series_named name (db w)) w w') w.
Proof.
  unfold git_http_backend. wp_step. wp_step. wp_step. wp_step; [done|]. cbv zeta. wp_step.
  apply (wp_mono _ (λ _ w', w' = w) _ (λ _ w', w' = w)); [| |by intros e w' ->].
  - destruct (_is_receive_pack name q); [|by wp_step]. wp_step. eapply wp_mono; [apply owner_wp| |by intros e w' [-> _]].
    intros u w' [-> _]. by wp_step.
  - intros u w' ->. wp_step. apply (wp_mono _ (λ _ w', w' = w) _ (λ _ w', w' = w)); [| |by intros e w' ->].
    { destruct (_is_receive_pack name q); [|by wp_step]. unfold revparse_or_none, repository. by wp_steps. }
    intros old w' ->. destruct (http_backend _ _ _ _ a) as [g' status]. wp_step. wp_step. wp_step. wp_step; [done|]. wp_step.
    set (w1 := set_disk _ w).
    apply (wp_mono _ (λ _ w', files_of (fst <$> series_named name (db w)) w w') _ (λ _ w', files_of (fst <$> series_named name (db w)) w w'));
      [|intros ? ? ?; by wp_step|done].
    destruct (_ && _); [|by wp_step]. wp_step. apply (wp_mono _ (λ _ w', w' = w1) _ (λ _ w', w' = w1)); [| |by intros e w' ->].
    { unfold revparse_or_none, repository. by wp_steps. }
    intros new w' ->. case_decide; [|by wp_step]. exact (maybe_files_of (g_down F) (g_commits F) name old w1).
Qed.
End pushing.

(** C27: Only the owner pushes. When git writes a repository only on receiving a
    pack, a request for a repository changes nothing at all (no repository, no
    file, nothing else) unless it carries the name and password of the owner of
    the repository's series; and then it changes at most this repository and
    files of this series. *)
Theorem push_needs_owner {G} `{Git G} sha verify {P} (backend : string → string → option string → P → G → G * nat)
    (F : git_faults) (name : string) (q : http_request P) (w : world G) (Hb : receives_only backend) :
  let w' := (git_http_backend sha verify backend F name q w).2 in
  (w' = w ∨ by_owner verify name q (db w))
  ∧ (∀ n, n ≠ name → disk w' !! n = disk w !! n)
  ∧ (∀ s path, contents (db w') !! (s, path) ≠ contents (db w) !! (s, path) → ∃ x, series_named name (db w) = Some (s, x))
  ∧ series_rows (db w') = series_rows (db w) ∧ stars (db w') = stars (db w) ∧ comments (db w') = comments (db w)
  ∧ quarantine (db w') = quarantine (db w).
Proof.
  intros w'. destruct (git_of_repository sha verify backend F name q w) as ([c E] & D & _). fold w' in E, D. split; [|split; [done|split]].
  - destruct (credentials q) as [cr|] eqn:Hc; [|left; apply git_unauthorized; [done|]; intros (c' & s & x & u & Hc' & _); congruence].
    destruct (series_named name (db w)) as [[s x]|] eqn:Hs; [|left; apply git_unauthorized; [done|]; intros (c' & s & x & u & _ & Hs' & _); congruence].
    destruct (verify cr.1 cr.2) as [[o u]|] eqn:Hv; [|left; apply git_unauthorized; [done|]; intros (c' & s' & x' & u & Hc' & _ & Hv'); congruence].
    destruct (decide (o = s_owner x)) as [->|Hne]; [right; by exists cr, s, x, u|].
    left. apply git_unauthorized; [done|]. intros (c' & s' & x' & u' & Hc' & Hs' & Hv'). congruence.
  - intros s path Hne. pose proof (git_files_of sha verify backend F name q w) as Hf. unfold wp in Hf.
    assert (Hf' : files_of (fst <$> series_named name (db w)) w w').
    { subst w'. by destruct (git_http_backend _ _ _ _ _ _ w) as [[] ?]. }
    destruct (series_named name (db w)) as [[t x]|] eqn:Hs; cbn in Hf'.
    + destruct (decide (s = t)) as [->|]; [by exists x|]. destruct Hne. apply Hf'. cbn. congruence.
    + destruct Hne. by apply Hf'.
  - by rewrite E.
Qed.

(** ** Files and their versions *)
Section versions.
Context {G : Type} `{Git G} (sha3_256 : string → string) (safe_load : string → option (list (string * value))) (cfg : Content.settings).
Context (verify_password : string → string → option (uuid * string)) {P : Type}.
Context (http_backend : string → string → option string → P → G → G * nat).
Abbreviation W := (world G).
Abbreviation body := (Blog.body sha3_256 safe_load cfg).

(** Files of the series stay, and their versions grow when they change. *)
Definition newer (s : uuid) (w w' : W) : Prop :=
  ∀ path r, contents (db w) !! (s, path) = Some r → ∃ r', contents (db w') !! (s, path) = Some r' ∧ (r' = r ∨ version r < version r')%Z.

#[local] Instance newer_preorder s : PreOrder (newer s).
Proof.
  split; [intros w p r Hr; exists r; auto|]. intros w1 w2 w3 N1 N2 p r1 H1. destruct (N1 _ _ H1) as (r2 & H2 & E2).
  destruct (N2 _ _ H2) as (r3 & H3 & E3). exists r3. split; [done|]. destruct E2 as [->|?], E3 as [->|?]; auto. right. lia.
Qed.

Lemma newer_same s (w w' : W) : contents (db w') = contents (db w) → newer s w w'.
Proof. intros E p r. rewrite E. eauto. Qed.

(** Every row carries the digest of its text. *)
Definition digested (w : W) : Prop := ∀ k r, contents (db w) !! k = Some r → sha3 r = sha3_256 (text r).
Definition keeps_digests (w w' : W) : Prop := digested w → digested w'.

#[local] Instance keeps_digests_preorder : PreOrder keeps_digests.
Proof. split; [by intros w Hw|]. intros w1 w2 w3 K1 K2 Hw. by apply K2, K1. Qed.

Lemma digests_same (w w' : W) : contents (db w') = contents (db w) → keeps_digests w w'.
Proof. intros E Hw k r. rewrite E. apply Hw. Qed.

Lemma digests_insert k what v t (w : W) : keeps_digests w (set_contents <[k := MkContent what (sha3_256 what) v t]> w).
Proof. intros Hw k' r Hr. cbn in Hr. apply lookup_insert_Some in Hr as [[<- <-]|[_ Hr]]; [done|by eapply Hw]. Qed.

(** Both at once. *)
Definition edits (s : uuid) (w w' : W) : Prop := newer s w w' ∧ keeps_digests w w'.

#[local] Instance edits_preorder s : PreOrder (edits s).
Proof. split; [by split|]. intros w1 w2 w3 [N1 K1] [N2 K2]. split; by etrans. Qed.

Lemma edits_same s (w w' : W) : contents (db w') = contents (db w) → edits s w w'.
Proof. intros E. split; [by apply newer_same|by apply digests_same]. Qed.

#[local] Hint Extern 1 (respects (edits _) (modify _)) => apply respects_modify; intros; by apply edits_same : respects.

Lemma edits_site {A} s (m : Content.M A) : respects (edits s) (on_site m).
Proof. intros w. unfold on_site, zoom. destruct (m _). by apply edits_same. Qed.
#[local] Hint Resolve edits_site : respects.

Lemma insert_edits s t path what (w : W) : contents (db w) !! (t, path) = None → edits s w (insert_content sha3_256 t path what w).2.
Proof.
  intros Hn. unfold insert_content. rewrite run_raise_when. destruct (bool_decide _); [done|]. cbn. split; [|apply digests_insert].
  intros p r Hr. cbn. exists r. rewrite lookup_insert_ne by (intros [= -> ->]; congruence). auto.
Qed.

Lemma rewrite_edits s t path what r (w : W) : contents (db w) !! (t, path) = Some r → edits s w (rewrite_content sha3_256 t path what r w).2.
Proof.
  intros Hn. unfold rewrite_content. rewrite run_raise_when. destruct (negb _); [done|]. cbn. split; [|apply digests_insert].
  intros p r0 Hr. cbn. destruct (decide ((t, path) = (s, p))) as [[= -> ->]|Hne].
  - rewrite lookup_insert_eq. eexists. split; [done|]. right. rewrite Hn in Hr. injection Hr as ->. cbn. lia.
  - rewrite lookup_insert_ne by done. eauto.
Qed.

Lemma write_edits s t u path what : respects (edits s) (write_series_file sha3_256 t u path what).
Proof.
  unfold write_series_file. apply respects_state. intros w.
  destruct (series_rows (db w) !! t) as [x|] eqn:Hx; rewrite run_get_or_raise; [|done]. rewrite run_raise_when. destruct (bool_decide _); [done|].
  set (m := match contents (db w) !! _ with None => _ | Some _ => _ end).
  assert (Hm : edits s w (m w).2).
  { subst m. destruct (contents (db w) !! (t, clean path)) as [r|] eqn:Hr; [|by apply insert_edits]. case_decide; [done|by apply rewrite_edits]. }
  unfold mbind, prog_bind. destruct (m w) as [[[]|e] w1]; [|exact Hm]. etrans; [exact Hm|]. by apply edits_same.
Qed.

Lemma cascade_edits s t (w : W) : s ≠ t → edits s w (set_db (cascade t) w).
Proof.
  intros Hne. split.
  - intros p r Hr. exists r. split; [|by left]. cbn. by rewrite map_lookup_filter_Some.
  - intros Hw k r Hr. cbn in Hr. apply map_lookup_filter_Some in Hr as [Hr _]. by eapply Hw.
Qed.

Lemma request_edits s r : ¬ deletes_series s r → respects (edits s) (body r).
Proof.
  destruct r; intros Hr; cbn [Blog.body]; unfold done_with; try (apply respects_bind; [apply _| |intros ?; apply respects_ret; apply _]);
    try apply write_edits; try (unfold create_series, init_bare_repo, update_series, toggle_star,
    create_comment, delete_comment, soft_delete_subtree, publish_series_file; respects).
  unfold delete_series, delete_repo. respects. apply respects_modify. intros w. by apply cascade_edits.
Qed.

Lemma backfill_edits t down s name old push_at : respects (edits t) (backfill_series_from_git sha3_256 down s name old push_at).
Proof.
  unfold backfill_series_from_git, revparse_or_none, diff_tree_names, repository.
  respects. apply respects_each; [apply _|]. intros p. unfold backfill_one. apply respects_bind; [apply _|unfold read_file; respects|].
  intros [what|]; [|respects]. apply respects_state. intros w.
  destruct (contents (db w) !! _) as [r|] eqn:Hr; [|by apply insert_edits]. rewrite run_raise_when. destruct (bool_decide _); [done|].
  case_decide; [by apply rewrite_edits|done].
Qed.

Lemma transaction_edits {A} s commits (m : prog W err A) (w : W) : respects (edits s) m → edits s w (transaction commits m w).2.
Proof.
  intros Hm. specialize (Hm w). unfold transaction. destruct (m w) as [[a|e] w']; [destruct commits; [exact Hm|]|]; cbn; by apply edits_same.
Qed.

Lemma git_edits s F name q : respects (edits s) (git_http_backend sha3_256 verify_password http_backend F name q).
Proof.
  assert (Hb : ∀ down commits n old, respects (edits s) (maybe_backfill_after_push sha3_256 down commits n old)).
  { intros down commits n old w. unfold maybe_backfill_after_push. cbn [snd]. apply transaction_edits.
    destruct (series_named n (db w)) as [kx|]; [apply backfill_edits|apply respects_ret; apply _]. }
  unfold git_http_backend, _require_owner_for_push, revparse_or_none, repository. respects.
Qed.

(** The digests survive everything. *)
Lemma request_digests r commits (w : W) : digested w → digested (transaction commits (body r) w).2.
Proof.
  intros Hw. destruct r as [| |remains s u adm| | | | |] eqn:Hr; rewrite <- Hr.
  3: { unfold transaction. subst r. cbn [Blog.body]. unfold done_with.
       assert (Hd : wp (_ ← delete_series remains s u adm; mret ()) (λ _ w', digested w') (λ _ _, True) w).
       { unfold delete_series, delete_repo. wp_steps; try done. all: intros k r Hk; cbn in Hk; apply map_lookup_filter_Some in Hk as [Hk _]; by eapply Hw. }
       unfold wp in Hd. destruct ((_ ← delete_series remains s u adm; mret ()) w) as [[a|e] w']; [destruct commits|]; done. }
  all: refine (proj2 (transaction_edits (uuid_of_N 0) commits (body r) w _) Hw); apply request_edits; subst r; by intros [].
Qed.

Lemma serve_digests rs (w : W) : digested w → digested (serve sha3_256 safe_load cfg rs w).
Proof. revert w. induction rs as [|[r c] rs IH]; intros w Hw; [done|]. by apply IH, request_digests. Qed.

#[local] Hint Extern 1 (respects keeps_digests (modify _)) =>
  apply respects_modify; intros; first [by apply digests_same|intros ?; by apply serve_digests] : respects.

Lemma job_digests turn remains meanwhile : respects keeps_digests (reconcile_blog_repos sha3_256 safe_load cfg turn remains meanwhile).
Proof. unfold reconcile_blog_repos. respects. apply respects_each; [apply _|]. intros n. unfold reconcile_one. respects. Qed.

Abbreviation step := (step sha3_256 safe_load cfg verify_password http_backend).

Lemma step_digests (w w' : W) : digested w → step w w' → digested w'.
Proof.
  intros Hw [e]. destruct e as [r commits|F name q|turn remains meanwhile commits|s]; cbn [after]; [| | |exact Hw].
  - by apply request_digests.
  - by apply (git_edits (uuid_of_N 0) F name q w).
  - pose proof (job_digests turn remains meanwhile w Hw) as Hj.
    destruct (reconcile_blog_repos _ _ _ _ _ _ w) as [[a|e] v]; [destruct commits|]; exact Hj.
Qed.

Lemma reach_digests (w0 w : W) : contents (db w0) = ∅ → rtc step w0 w → digested w.
Proof.
  intros H0 Hr. assert (Hd : digested w0) by (intros k r; rewrite H0; done). clear H0.
  induction Hr as [|w0 w1 w Hs _ IH]; [done|]. by eapply IH, step_digests.
Qed.

(** What happens while a series is not deleted. *)
Inductive edit (s : uuid) (w : W) : W → Prop :=
  | edit_request r commits : ¬ deletes_series s r → edit s w (transaction commits (body r) w).2
  | edit_push F name q : edit s w (git_http_backend sha3_256 verify_password http_backend F name q w).2
  | edit_elsewhere w' : contents (db w') = contents (db w) → edit s w w'.

Lemma edit_newer s (w w' : W) : rtc (edit s) w w' → newer s w w'.
Proof.
  intros Hr. induction Hr as [|v v1 v2 Hs _ IH]; [done|]. etrans; [|exact IH]. destruct Hs as [r commits Hr|F name q|v' E].
  - apply (transaction_edits s). by apply request_edits.
  - apply (git_edits s F name q v).
  - by apply newer_same.
Qed.

Lemma write_wp s u path what (w : W) : digested w →
  wp (write_series_file sha3_256 s u path what)
    (λ _ w', is_Some (series_rows (db w') !! s) ∧ ∃ r, contents (db w') !! (s, clean path) = Some r ∧ sha3 r = sha3_256 what ∧ digested w'
       ∧ (∀ k, k ≠ (s, clean path) → contents (db w') !! k = contents (db w) !! k)
       ∧ match contents (db w) !! (s, clean path) with
         | None => version r = 1%Z
         | Some r0 => (version r = version r0 + (if decide (sha3 r0 = sha3_256 what) then 0 else 1))%Z
         end) (λ _ _, True) w.
Proof.
  intros Hd. unfold write_series_file. wp_step. wp_step. wp_step. wp_step; [done|]. wp_step. wp_step; [done|]. wp_step.
  set (Q := λ (_ : ()) (w' : W), series_rows (db w') = series_rows (db w) ∧
    ∃ r, contents (db w') !! (s, clean path) = Some r ∧ sha3 r = sha3_256 what ∧ digested w'
       ∧ (∀ k, k ≠ (s, clean path) → contents (db w') !! k = contents (db w) !! k)
       ∧ match contents (db w) !! (s, clean path) with
         | None => version r = 1%Z
         | Some r0 => (version r = version r0 + (if decide (sha3 r0 = sha3_256 what) then 0 else 1))%Z
         end).
  apply (wp_mono _ Q _ (λ _ _, True)); [| |done].
  - destruct (contents (db w) !! (s, clean path)) as [r0|] eqn:Hr0.
    + destruct (decide (sha3 r0 = sha3_256 what)) as [He|He].
      * wp_step. split; [done|]. exists r0. rewrite Hr0. split_and!; try done. lia.
      * unfold rewrite_content. wp_step. wp_step; [done|]. wp_step. split; [done|]. exists (MkContent what (sha3_256 what) (version r0 + 1) (now w)). cbn [set_contents set_db db contents].
        rewrite lookup_insert_eq. split_and!; try done; [by apply digests_insert|]. intros k Hk. by rewrite lookup_insert_ne.
    + unfold insert_content. wp_step. wp_step; [done|]. wp_step. split; [done|]. exists (MkContent what (sha3_256 what) 1 (now w)). cbn [set_contents set_db db contents]. rewrite lookup_insert_eq.
      split_and!; try done; [by apply digests_insert|]. intros k Hk. by rewrite lookup_insert_ne.
  - intros [] w' [Es Hr]. wp_step. cbn. split; [by rewrite lookup_insert_eq|]. exact Hr.
Qed.

(** What a push makes of the files it has changed. *)
Definition followed (s : uuid) (push_at : Z) (g : G) (paths : list string) (w w' : W) : Prop :=
  series_rows (db w') = series_rows (db w) ∧ site w' = site w ∧ disk w' = disk w
  ∧ ∀ p, contents (db w') !! (s, p) = contents (db w) !! (s, p) ∧ (p ∉ paths ∨ (∃ r, contents (db w) !! (s, p) = Some r ∧ (push_at ≤ updated_at r)%Z)
                                  ∨ ".." ∈ split_at "/" (lstrip_slash p) ∨ show_head (lstrip_slash p) g = None)%string
       ∨ p ∈ paths ∧ ∃ what, show_head (lstrip_slash p) g = Some what
         ∧ ∃ r', contents (db w') !! (s, p) = Some r' ∧ text r' = what ∧ sha3 r' = sha3_256 what
         ∧ ∀ r, contents (db w) !! (s, p) = Some r → (updated_at r < push_at ∧ version r' = version r + 1)%Z.

Lemma backfill_one_followed s name push_at known path g (w : W) : safe_name name = true → disk w !! name = Some g →
  (path ∈ known ↔ is_Some (contents (db w) !! (s, path))) →
  wp (backfill_one sha3_256 false s name push_at known path)
    (λ _ w', followed s push_at g [path] w w' ∧ ∀ k, k ≠ (s, path) → contents (db w') !! k = contents (db w) !! k) (λ _ _, True) w.
Proof.
  intros Hsafe Hg Hk.
  unfold backfill_one. wp_step. unfold read_file. wp_step. wp_step. cbv zeta. wp_step.
  rewrite Hsafe, Hg. cbn [negb orb mbind option_bind]. rewrite !orb_false_r.
  destruct (bool_decide (".." ∈ split_at "/" (lstrip_slash path))%string) eqn:Hdots.
  - apply bool_decide_eq_true in Hdots. wp_step. split; [|done]. split; [done|]. split; [done|]. split; [done|]. intros p. left. split; [done|].
    destruct (decide (p = path)) as [->|]; [right; right; by left|left; by rewrite list_elem_of_singleton].
  - destruct (show_head (lstrip_slash path) g) as [what|] eqn:Hshow; cbn [option_bind].
    2: { wp_step. split; [|done]. split; [done|]. split; [done|]. split; [done|]. intros p. left. split; [done|].
         destruct (decide (p = path)) as [->|]; [right; right; by right|left; by rewrite list_elem_of_singleton]. }
    wp_step. wp_step. destruct (contents (db w) !! (s, path)) as [r|] eqn:Hr; cbv iota.
    + wp_step. wp_step; [done|].
    destruct (decide (updated_at r < push_at)%Z) as [Hlt|Hlt].
      * unfold rewrite_content. wp_step. wp_step; [done|]. wp_step. split; [|intros k Hne; cbn; by rewrite lookup_insert_ne].
        split; [done|]. split; [done|]. split; [done|]. intros p. cbn. destruct (decide (p = path)) as [->|Hne].
        -- right. split; [by left|]. exists what. split; [done|]. eexists. rewrite lookup_insert_eq. split; [done|]. split; [done|]. split; [done|].
           intros r' Hr'. rewrite Hr in Hr'. by injection Hr' as <-.
        -- left. rewrite lookup_insert_ne by congruence. split; [done|]. left. by rewrite list_elem_of_singleton.
      * wp_step. split; [|done]. split; [done|]. split; [done|]. split; [done|]. intros p. left. split; [done|].
        destruct (decide (p = path)) as [->|]; [right; left; exists r; split; [done|lia]|left; by rewrite list_elem_of_singleton].
    + unfold insert_content. wp_step. wp_step; [done|]. wp_step. split; [|intros k Hne; cbn; by rewrite lookup_insert_ne].
      split; [done|]. split; [done|]. split; [done|]. intros p. cbn. destruct (decide (p = path)) as [->|Hne].
      * right. split; [by left|]. exists what. split; [done|]. eexists. rewrite lookup_insert_eq. split; [done|]. split; [done|]. split; [done|].
        intros r' Hr'. congruence.
      * left. rewrite lookup_insert_ne by congruence. split; [done|]. left. by rewrite list_elem_of_singleton.
Qed.

Lemma backfill_loop_followed s name push_at known paths g (w : W) : safe_name name = true → disk w !! name = Some g → NoDup paths →
  (∀ p, p ∈ paths → p ∈ known ↔ is_Some (contents (db w) !! (s, p))) →
  wp (for_each paths (backfill_one sha3_256 false s name push_at known)) (λ _ w', followed s push_at g paths w w') (λ _ _, True) w.
Proof.
  intros Hsafe Hg Hnd. revert w Hg. induction Hnd as [|path paths Hn _ IH]; intros w Hg Hk; cbn [for_each].
  - wp_step. split; [done|]. split; [done|]. split; [done|]. intros p. left. split; [done|]. left. by apply not_elem_of_nil.
  - wp_step. eapply wp_mono; [apply backfill_one_followed; [done|done|apply Hk; by left]| |done].
    intros [] w1 [(Es & Est & Ed & Hp) Hother]. eapply wp_mono; [apply IH| |done].
    + by rewrite Ed.
    + intros p Hin. rewrite Hother by (intros [= ->]; done). apply Hk. by right.
    + intros [] w2 (Es2 & Est2 & Ed2 & Hp2). split; [congruence|]. split; [congruence|]. split; [congruence|]. intros p.
      destruct (decide (p = path)) as [->|Hne].
      * destruct (Hp2 path) as [[-> _]|[? _]]; [|done]. destruct (Hp path) as [[-> Hwhy]|[_ Hnew]].
        -- left. split; [done|]. destruct Hwhy as [Hnot|]; [destruct Hnot; by left|by right].
        -- right. split; [by left|done].
      * specialize (Hp2 p). rewrite (Hother (s, p)) in Hp2 by congruence. destruct Hp2 as [[-> Hwhy]|[Hin Hnew]].
        -- left. split; [done|]. destruct Hwhy as [Hnot|]; [left; by rewrite not_elem_of_cons|by right].
        -- right. split; [by right|done].
Qed.

(** The paths that git reports between two commits. *)
Definition changed_paths (old : option string) (new : string) (g : G) : list string :=
  filter (λ l, l ≠ EmptyString) (strip <$> splitlines (match old with Some o => diff_tree o new g | None => ls_tree new g end)).

Lemma repository_run name g (w : W) : safe_name name = true → disk w !! name = Some g → repository false name w = (Ok g, w).
Proof. intros Hs Hg. unfold repository. by rewrite run_get_state, Hs, run_raise_when, run_raise_when, Hg. Qed.

Lemma backfill_followed s x name old push_at g new (w : W) : series_rows (db w) !! s = Some x → safe_name name = true →
  disk w !! name = Some g → rev_parse_head g = Some new → NoDup (changed_paths old new g) →
  wp (backfill_series_from_git sha3_256 false name s old push_at) (λ _ w', followed s push_at g (changed_paths old new g) w w') (λ _ _, True) w.
Proof.
  intros Hx Hsafe Hg Hnew Hnd. unfold wp, backfill_series_from_git. rewrite run_get_state, Hx, run_get_or_raise.
  rewrite (bind_ok (revparse_or_none false name) _ w (Some new) w).
  2: { unfold revparse_or_none. rewrite Hsafe, (bind_ok _ _ w g w) by (by apply repository_run). by rewrite Hnew. }
  rewrite (bind_ok (diff_tree_names false name old new) _ w (changed_paths old new g) w).
  2: { unfold diff_tree_names. by rewrite (bind_ok _ _ w g w) by (by apply repository_run). }
  rewrite run_get_state. apply (backfill_loop_followed s name push_at _ _ g w); [done..|].
  intros p Hp. rewrite elem_of_list_to_set, list_elem_of_filter. tauto.
Qed.
End versions.

(** Versions of files tell their texts apart, and writing and pushing do
    what they say. From any reachable state: as long as a series is not deleted,
    its files stay, and no version of a file comes again with another text,
    whatever is written and pushed; writing a file makes reading it return the
    text, raises its version exactly if the text is another (the digest being
    injective), and leaves the others alone; following a push takes over each
    file that the push has changed, unless the file was written at or after the
    time of the push or git cannot show it, and nothing else. *)
Theorem files_versioned {G} `{Git G} sha safe_load cfg verify {P} (backend : string → string → option string → P → G → G * nat)
    (w0 w : world G) (s : uuid) (Hinj : Inj (=) (=) sha)
    (H0 : contents (db w0) = ∅) (Hr : rtc (step sha safe_load cfg verify backend) w0 w) :
  (∀ w' path r, rtc (edit sha safe_load cfg verify backend s) w w' → contents (db w) !! (s, path) = Some r →
     ∃ r', contents (db w') !! (s, path) = Some r' ∧ (version r ≤ version r')%Z ∧ (version r' = version r → r' = r))
  ∧ (∀ u path what, match transaction true (write_series_file sha s u path what) w with
     | (Ok _, w') =>
         get_file_content s path w' = (Ok (clean path, what), w')
         ∧ (∀ k, k ≠ (s, clean path) → contents (db w') !! k = contents (db w) !! k)
         ∧ version <$> contents (db w') !! (s, clean path)
           = Some (match contents (db w) !! (s, clean path) with
                   | None => 1 | Some r => version r + (if decide (text r = what) then 0 else 1) end)%Z
     | (Raise _, w') => db w' = db w
     end)
  ∧ (∀ x name old push_at g new, series_rows (db w) !! s = Some x → safe_name name = true → disk w !! name = Some g →
       rev_parse_head g = Some new → NoDup (changed_paths old new g) →
       match transaction true (backfill_series_from_git sha false name s old push_at) w with
       | (Ok _, w') => followed sha s push_at g (changed_paths old new g) w w'
       | (Raise _, w') => db w' = db w
       end).
Proof.
  pose proof (reach_digests _ _ _ _ _ _ _ H0 Hr) as Hd. split_and!.
  - intros w' path r He Hpr. destruct (edit_newer _ _ _ _ _ _ _ _ He path r Hpr) as (r' & Hr' & Hv). exists r'. split; [done|].
    destruct Hv as [->|Hv]; [by split|]. split; lia.
  - intros u path what. pose proof (write_wp sha s u path what w Hd) as Hw. unfold wp in Hw. unfold transaction.
    destruct (write_series_file sha s u path what w) as [[[]|e] w']; [|done].
    destruct Hw as ([x Hx] & r & Hpr & Hsha & Hd' & Hothers & Hv). split_and!; [|done|].
    + unfold get_file_content. rewrite run_get_state, Hx, run_get_or_raise, Hpr, run_get_or_raise. unfold mret, prog_ret.
      rewrite (Hd' _ _ Hpr) in Hsha. by apply Hinj in Hsha as ->.
    + rewrite Hpr. cbn. f_equal. destruct (contents (db w) !! (s, clean path)) as [r0|] eqn:Hr0; [|done]. rewrite Hv. f_equal.
      rewrite (Hd _ _ Hr0). destruct (decide (text r0 = what)) as [->|Hne]; [by rewrite decide_True|].
      rewrite decide_False; [done|]. by intros ?%Hinj.
  - intros x name old push_at g new Hx Hsafe Hg Hnew Hnd. assert (Hb : wp (backfill_series_from_git sha false name s old push_at) (λ _ w', followed sha s push_at g (changed_paths old new g) w w') (λ _ _, True) w)
      by (by eapply backfill_followed).
    unfold wp in Hb. unfold transaction. destruct (backfill_series_from_git _ _ _ _ _ _ w) as [[a|e] w']; done.
Qed.

(** ** Witnesses *)
Abbreviation repo := (list (list (string * string))).

(** A push adds its files as a commit. *)
Definition a_backend (m p : string) (_ : option string) (files : list (string * string)) (g : repo) : repo * nat :=
  if bool_decide (m = "POST"%string) && String.prefix (rev_string "/git-receive-pack" "") (rev_string p "") then (files :: g, 200) else (g, 200).

Lemma rev_string_app s a b : rev_string s (a +:+ b)%string = (rev_string s a +:+ b)%string.
Proof. revert a. induction s as [|c s IH]; intros a; cbn [rev_string]; [done|]. rewrite <- append_cons. apply IH. Qed.

Lemma rev_string_rev s acc t : rev_string (rev_string s acc) t = rev_string acc (s +:+ t)%string.
Proof. revert acc t. induction s as [|c s IH]; intros acc t; cbn [rev_string]; [done|]. rewrite IH. cbn [rev_string]. by rewrite append_cons. Qed.

Lemma a_backend_receives : receives_only a_backend.
Proof.
  intros m p u b g Hne. unfold a_backend. destruct (bool_decide (m = "POST"%string)) eqn:Hm; [|done].
  destruct (String.prefix _ (rev_string p "")) eqn:Hp; [|done]. cbn. apply bool_decide_eq_true in Hm. exfalso. destruct Hne as [|Hne]; [done|].
  apply Hne. apply prefix_app_inv in Hp as [t Ht]. exists (rev_string t "").
  pose proof (rev_string_rev p "" "") as Hrr. cbn [rev_string] in Hrr. rewrite app_nil_string in Hrr. rewrite <- Hrr, Ht.
  clear. generalize "/git-receive-pack"%string. intros s. revert t. intros t.
  rewrite <- (rev_string_app t "" _). change ("" +:+ s)%string with s.
  assert (Hg : ∀ x y z, rev_string (x +:+ y)%string z = rev_string y (rev_string x z)).
  { intros x. induction x as [|c x IH]; intros y z; [done|]. rewrite append_cons. cbn [rev_string]. apply IH. }
  rewrite Hg, rev_string_rev. cbn [rev_string]. by rewrite app_nil_string.
Qed.

Definition a_verifier (name password : string) : option (uuid * string) :=
  if bool_decide (name = "ada" ∧ password = "secret")%string then Some (ada, "ada"%string) else None.

Abbreviation an_event := (@event repo (list (string * string))).
Definition happen (w : world repo) (e : an_event) : world repo := after id (λ _, None) a_setting a_verifier a_backend w e.
Abbreviation a_step := (step id (λ _, None) a_setting a_verifier a_backend).

Lemma happen_steps es w : rtc a_step w (foldl happen w es).
Proof. revert w. induction es as [|e es IH]; intros w; [done|]. cbn. eapply rtc_l; [by apply step_event|apply IH]. Qed.

Definition wait_until (t : Z) : an_event := Elapse (Content.World (Content.db (site empty_blog)) ∅ ∅ 0 ∅ ∅ ∅ ∅ 0 t).
Definition later (t : Z) (w : world repo) : world repo := happen w (wait_until t).

Definition a_push (files : list (string * string)) : http_request (list (string * string)) :=
  HttpRequest "POST" "git-receive-pack" (Some ("ada", "secret")%string) files.
Definition no_fault : git_faults := GitFaults false false true.
Definition alone : an_event := Job true (λ _, None) quiet true.

(** A series with a push; a series whose creation did not commit; and the job. *)
Definition a_month : list an_event := [
  Request (CreateSeries false notebook ada (MkSeriesCreate "Notes" None None "notes")) true;
  GitRequest no_fault "notes" (a_push [("intro.md", "Hello"); ("more.md", "More")]%string);
  Request (CreateSeries false (uuid_of_N 12) bob (MkSeriesCreate "Lost" None None "lost")) false;
  alone ].

Definition after_a_month : world repo := foldl happen empty_blog a_month.

Lemma a_month_reached : rtc a_step empty_blog after_a_month.
Proof. apply happen_steps. Qed.

(** Then a series whose deletion does not commit. *)
Definition to_next_week : list an_event := a_month ++ [
  Request (CreateSeries false (uuid_of_N 13) bob (MkSeriesCreate "Gone" None None "gone")) true;
  Request (DeleteSeries None (uuid_of_N 13) bob false) false;
  wait_until (1000 + quarantine_time + 1) ].
Definition next_week : world repo := foldl happen empty_blog to_next_week.

Lemma repositories_reconciled_witness :
  housed (λ s, ∃ e, e ∈ to_next_week ∧ bereaves s e) next_week
  ∧ bool_decide (is_Some (series_rows (db next_week) !! uuid_of_N 13)) = true
  ∧ bool_decide (dom (disk next_week) = {["notes"; "lost"]}%string) = true
  ∧ bool_decide (dom (disk (happen next_week alone)) = {["notes"]}%string) = true.
Proof.
  split_and!; [|vm_compute; reflexivity..]. assert (H0 : series_rows (db empty_blog) = ∅) by reflexivity.
  exact (proj1 (repositories_reconciled id (λ _, None) a_setting a_verifier a_backend empty_blog to_next_week H0)).
Defined.

Definition thief : http_request (list (string * string)) := HttpRequest "POST" "git-receive-pack" (Some ("ada", "guess")%string) [("intro.md", "Mine")]%string.

Lemma push_needs_owner_witness :
  (let w' := (git_http_backend id a_verifier a_backend no_fault "notes" thief after_a_month).2 in
   w' = after_a_month ∨ by_owner a_verifier "notes" thief (db after_a_month))
  ∧ bool_decide (size (contents (db after_a_month)) = 2) = true.
Proof.
  split; [|vm_compute; reflexivity]. apply (push_needs_owner id a_verifier a_backend no_fault "notes" thief after_a_month a_backend_receives).
Defined.

Lemma files_versioned_witness :
  match transaction true (write_series_file id notebook ada "intro.md" "Good morning") after_a_month with
  | (Ok _, w') => get_file_content notebook "intro.md" w' = (Ok ("intro.md", "Good morning")%string, w')
  | _ => False
  end.
Proof.
  assert (Hok : match (transaction true (write_series_file id notebook ada "intro.md" "Good morning") after_a_month).1 with Ok _ => true | Raise _ => false end = true)
    by (vm_compute; reflexivity).
  assert (Hi : Inj (=) (=) (id : string → string)) by (intros ?? E; exact E). assert (H0 : contents (db empty_blog) = ∅) by reflexivity.
  pose proof a_month_reached as Hr. revert Hok Hr. generalize after_a_month. intros w Hok Hr.
  pose proof (proj1 (proj2 (files_versioned id (λ _, None) a_setting a_verifier a_backend empty_blog w notebook Hi H0 Hr)) ada "intro.md"%string "Good morning"%string) as Hw.
  destruct (transaction true _ w) as [[u|e] w']; [|done]. exact (proj1 Hw).
Defined.

(** ** What the model shows *)
(** A deletion removes the repository before its transaction commits: when the
    commit fails the series is left without its repository. *)
Lemma removed_before_commit :
  let w := happen after_a_month (Request (DeleteSeries None notebook ada false) false) in
  bool_decide (is_Some (series_rows (db w) !! notebook)) = true ∧ bool_decide (is_Some (disk w !! "notes"%string)) = false.
Proof. vm_compute. done. Qed.

(** The time of a push is when the files begin to follow it, which is after any
    edit that is stored: the database never wins. *)
Lemma push_always_wins {G} `{Git G} sha (w : world G) s x name old g new p r what :
  series_rows (db w) !! s = Some x → safe_name name = true → disk w !! name = Some g → rev_parse_head g = Some new →
  NoDup (changed_paths old new g) → p ∈ changed_paths old new g → (".." ∉ split_at "/" (lstrip_slash p))%string →
  show_head (lstrip_slash p) g = Some what → contents (db w) !! (s, p) = Some r → (updated_at r < now w)%Z →
  wp (backfill_series_from_git sha false name s old (now w)) (λ _ w', text <$> contents (db w') !! (s, p) = Some what) (λ _ _, True) w.
Proof.
  intros Hx Hsafe Hg Hnew Hnd Hp Hdots Hshow Hr Hlt.
  eapply wp_mono; [by eapply (backfill_followed sha (λ _, None) (λ _ _, None) (λ _ _ _ (_ : ()) g, (g, 0)))| |done].
  intros [] w' (_ & _ & _ & Hf). destruct (Hf p) as [[_ Hwhy]|(_ & what' & Hshow' & r' & -> & <- & _)].
  - exfalso. destruct Hwhy as [Hn|[(r' & Hr' & Hle)|[?|?]]]; [done| |done|congruence]. rewrite Hr in Hr'. injection Hr' as <-. lia.
  - cbn. congruence.
Qed.

(** An edit on the site, then a push of what was committed before it. *)
Lemma edit_overwritten :
  let edited := happen (later 2000 after_a_month) (Request (WriteFile notebook ada "intro.md" "A better text") true) in
  let pushed := happen (later 3000 edited) (GitRequest no_fault "notes" (a_push [("intro.md", "Hello, typo fixed")]%string)) in
  text <$> contents (db edited) !! (notebook, "intro.md"%string) = Some "A better text"%string
  ∧ text <$> contents (db pushed) !! (notebook, "intro.md"%string) = Some "Hello, typo fixed"%string.
Proof. vm_compute. done. Qed.

(** A request for a repository whose name contains [git-receive-pack] is taken
    for a push: nobody but its owner can fetch it. *)
Definition a_fetch : http_request (list (string * string)) := HttpRequest "POST" "git-upload-pack" None [].

Lemma fetch_refused :
  let w := happen empty_blog (Request (CreateSeries false notebook ada (MkSeriesCreate "Notes" None None "on-git-receive-pack")) true) in
  (git_http_backend id a_verifier a_backend no_fault "on-git-receive-pack" a_fetch w).1 = Raise UNAUTHORIZED
  ∧ (git_http_backend id a_verifier a_backend no_fault "notes" a_fetch after_a_month).1 = Ok 200.
Proof. vm_compute. done. Qed.
