(* ===== verification/Bloom.v ===== *)
(** * The Bloom filter of user ids

    Model of [core/bloom.py] (a bitmap in Redis and a mark that says it is
    complete), of [auth/bloom_seed.py] (the nightly scan that fills it) and of
    the places that create users. The digest of a key ([hashlib.blake2b]) and the
    two formulas with logarithms are parameters. Times are seconds.

    The filter is asked to refuse ids, so that a mistake locks a user out. What
    is proved: while the mark is valid an id is refused only if it was never
    added, and the users that are refused although they exist are those whose
    [add] did not reach Redis, or that Redis lost while a scan was running. *)

From S2P Require Import Prelude.

(** How a pipeline that was sent ends: executed, or an exception after some of
    its commands ran ([transaction=False]). *)
Inductive pipe := Executed | Failed (n : nat).

(** The bits that are set, and the deadline of the mark. *)
Record store := Store { bits : gset Z; seeded : option Z }.

Definition empty_store : store := Store ∅ None.

Record settings := Settings {
  bloom_filter_enabled : bool;
  bloom_filter_capacity : Z;
  bloom_filter_error_rate : Z;   (* in units of 1e-9 *)
  bloom_filter_seed_ttl_s : Z
}.

Definition _ADD_CHUNK : nat := 1000.
Definition _PAGE : nat := 1000.

(** [keys[start : start + n] for start in range(0, len(keys), n)] *)
Fixpoint slices {A} (fuel n : nat) (l : list A) : list (list A) :=
  match fuel, l with
  | S fuel, _ :: _ => take n l :: slices fuel n (drop n l)
  | _, _ => []
  end.

Lemma concat_slices {A} fuel n (l : list A) : 0 < n → length l ≤ fuel → mjoin (slices fuel n l) = l.
Proof.
  intros Hn. revert l. induction fuel as [|fuel IH]; intros [|x l] Hl; simpl in *; try done; [lia|].
  rewrite (IH (drop n (x :: l))); [apply take_drop|]. rewrite length_drop. simpl. lia.
Qed.

(** The order of [uuid] columns. *)
Definition uuid_le (a b : uuid) : Prop := (uuid_int a ≤ uuid_int b)%N.
#[export] Instance uuid_le_dec : RelDecision uuid_le.
Proof. intros a b. unfold uuid_le. apply _. Defined.
#[export] Instance uuid_le_total : Total uuid_le.
Proof. intros a b. unfold uuid_le. lia. Qed.
#[export] Instance uuid_le_trans : Transitive uuid_le.
Proof. intros a b c. unfold uuid_le. lia. Qed.

Section bloom.
(** [blake2b(key, digest_size=16)] as a big-endian number; [ln_bits n p] is
    [int(-(n * log(p)) / log(2) ** 2)], [rounds m n] is [round(m / n * log(2))]. *)
Context (digest : string → Z) (ln_bits rounds : Z → Z → Z).
Context (cfg : settings).

(** ** The filter *)

Definition _params (capacity error_rate : Z) : Z * Z :=
  let n := Z.max 1 capacity in
  let p := Z.min (Z.max error_rate 1) 999999000 in
  let m := Z.max 1 (ln_bits n p + 1) in
  let k := Z.max 1 (rounds m n) in
  (m, k).

Definition _positions (key : string) (m k : Z) : list Z :=
  let h1 := (digest key / 2 ^ 64)%Z in
  let h2 := Z.lor (digest key mod 2 ^ 64) 1 in
  (λ i, ((h1 + i * h2) mod m)%Z) <$> seqZ 0 k.

(** The positions under the settings in force. *)
Definition positions (key : string) : list Z :=
  let '(m, k) := _params (bloom_filter_capacity cfg) (bloom_filter_error_rate cfg) in _positions key m k.

(** [setbit] for each position, in one pipeline. *)
Definition setbits (e : pipe) (l : list Z) (s : store) : bool * store :=
  match e with
  | Executed => (true, Store (bits s ∪ list_to_set l) (seeded s))
  | Failed n => (false, Store (bits s ∪ list_to_set (take n l)) (seeded s))
  end.

(** [client]: [get_redis] answered with a client. *)
Definition add (client : bool) (e : pipe) (key : string) (s : store) : bool * store :=
  if negb (bloom_filter_enabled cfg) then (false, s) else
  if negb client then (false, s) else
  setbits e (positions key) s.

(** The chunks of [add_many]; [es] are the ends of their pipelines, [Executed]
    when the list is exhausted. *)
Fixpoint add_chunks (es : list pipe) (chunks : list (list string)) (written : Z) (s : store) : Z * store :=
  match chunks with
  | [] => (written, s)
  | chunk :: chunks =>
      let '(ok, s) := setbits (default Executed (head es)) (mjoin (positions <$> chunk)) s in
      if ok then add_chunks (tail es) chunks (written + Z.of_nat (length chunk))%Z s else (written, s)
  end.

Definition add_many (client : bool) (es : list pipe) (keys : list string) (s : store) : Z * store :=
  if bool_decide (keys = []) || negb (bloom_filter_enabled cfg) then (0%Z, s) else
  if negb client then (0%Z, s) else
  add_chunks es (slices (length keys) _ADD_CHUNK keys) 0 s.

Definition getbit (s : store) (p : Z) : bool := bool_decide (p ∈ bits s).

Definition might_contain (client : bool) (e : pipe) (key : string) (s : store) : bool :=
  if negb (bloom_filter_enabled cfg) then true else
  if negb client then true else
  match e with
  | Failed _ => true
  | Executed => forallb (λ bit, bit) (getbit s <$> positions key)
  end.

(** [SET seeded "1" EX ttl]; an exception may come after the command ran. *)
Definition mark_seeded (client : bool) (e : pipe) (now : Z) (s : store) : bool * store :=
  if negb (bloom_filter_enabled cfg) then (false, s) else
  if negb client then (false, s) else
  let marked := Store (bits s) (Some (now + Z.max 1 (bloom_filter_seed_ttl_s cfg))%Z) in
  match e with
  | Executed => (true, marked)
  | Failed O => (false, s)
  | Failed (S _) => (false, marked)
  end.

Definition unmark_seeded (client : bool) (e : pipe) (s : store) : bool * store :=
  if negb client then (false, s) else
  match e with
  | Executed => (true, Store (bits s) None)
  | Failed O => (false, s)
  | Failed (S _) => (false, Store (bits s) None)
  end.

Definition is_seeded (now : Z) (s : store) : bool :=
  match seeded s with Some deadline => bool_decide (now < deadline)%Z | None => false end.

(** The answers come back as one list, [k] of them for each key. *)
Definition definitely_absent_many (client : bool) (e : pipe) (now : Z) (keys : list string) (s : store) : gset string :=
  if bool_decide (keys = []) || negb (bloom_filter_enabled cfg) then ∅ else
  if negb client then ∅ else
  match e with
  | Failed _ => ∅
  | Executed =>
      let '(m, k) := _params (bloom_filter_capacity cfg) (bloom_filter_error_rate cfg) in
      if negb (is_seeded now s) then ∅ else
      let res := mjoin ((λ key, getbit s <$> _positions key m k) <$> keys) in
      list_to_set (mjoin (imap (λ i key,
        let k := Z.to_nat k in
        if existsb negb (take k (drop (i * k) res)) then [key] else []) keys))
  end.

Definition definitely_absent (client : bool) (e : pipe) (now : Z) (key : string) (s : store) : bool :=
  negb (bool_decide (definitely_absent_many client e now [key] s = ∅)).

(** ** The scan *)

(** [select(User.id).where(User.id > cursor).order_by(User.id).limit(_PAGE)] *)
Definition after (cursor : option uuid) (u : uuid) : bool :=
  match cursor with Some c => bool_decide (uuid_int c < uuid_int u)%N | None => true end.

Definition scan_page (users : gset uuid) (cursor : option uuid) : list uuid :=
  take _PAGE (filter (λ u, after cursor u = true) (merge_sort uuid_le (elements users))).

(** What is left of a scan. *)
Inductive phase := Idle | Paging (cursor : option uuid) (total : Z) | Marking (total : Z).

(** One turn of the loop on the users there are; a page that is not written
    completely ends the scan. *)
Definition scan_step (client : bool) (es : list pipe) (users : gset uuid) (cursor : option uuid) (total : Z) (s : store) :
    phase * store :=
  match scan_page users cursor with
  | [] => (Marking total, s)
  | rows =>
      let '(written, s) := add_many client es (uuid_str <$> rows) s in
      if bool_decide (written ≠ Z.of_nat (length rows)) then (Idle, s) else
      let total := (total + Z.of_nat (length rows))%Z in
      (if decide (length rows < _PAGE) then Marking total else Paging (last rows) total, s)
  end.

(** After the loop. *)
Definition scan_mark (client : bool) (e : pipe) (now total : Z) (s : store) : store :=
  if bool_decide (total = 0%Z) then s else (mark_seeded client e now s).2.

(** The whole scan on a table that does not change; one pair of a client and of
    ends per page. [None] is out of fuel. The number returned is the code's. *)
Fixpoint scan_loop (fuel : nat) (pages : list (bool * list pipe)) (users : gset uuid) (cursor : option uuid) (total : Z)
    (s : store) : option (bool * Z * store) :=
  match fuel with
  | O => None
  | S fuel =>
      let '(client, es) := default (true, []) (head pages) in
      match scan_step client es users cursor total s with
      | (Paging cursor total, s) => scan_loop fuel (tail pages) users cursor total s
      | (Marking total, s) => Some (true, total, s)
      | (Idle, s) => Some (false, total, s)
      end
  end.

Definition backfill_user_ids (fuel : nat) (pages : list (bool * list pipe)) (client : bool) (e : pipe) (now : Z)
    (users : gset uuid) (s : store) : option (Z * store) :=
  match scan_loop fuel pages users None 0 s with
  | None => None
  | Some (false, total, s) => Some (total, s)
  | Some (true, total, s) => Some (total, scan_mark client e now total s)
  end.


(** ** What the bitmap says *)

Definition covered (key : string) (s : store) : Prop := ∀ p, p ∈ positions key → p ∈ bits s.

#[local] Instance covered_dec key s : Decision (covered key s).
Proof.
  refine (cast_if (decide (Forall (λ p, p ∈ bits s) (positions key)))); unfold covered; by rewrite <- Forall_forall.
Defined.

(** The bitmap only grows but for a restart. *)
Definition grows : relation store := λ s s', bits s ⊆ bits s'.

#[local] Instance grows_preorder : PreOrder grows.
Proof. unfold grows. split; [by intros s|]. intros s1 s2 s3. apply transitivity. Qed.

Lemma covered_grows key s s' : grows s s' → covered key s → covered key s'.
Proof. intros Hg Hc p Hp. by apply Hg, Hc. Qed.

Lemma params_pos capacity rate m k : _params capacity rate = (m, k) → (1 ≤ m ∧ 1 ≤ k)%Z.
Proof. unfold _params. intros [= <- <-]. lia. Qed.

Lemma positions_length key m k : (0 ≤ k)%Z → length (_positions key m k) = Z.to_nat k.
Proof. intros Hk. unfold _positions. by rewrite length_fmap, length_seqZ. Qed.

Lemma positions_range key p :
  p ∈ positions key → (0 ≤ p < (_params (bloom_filter_capacity cfg) (bloom_filter_error_rate cfg)).1)%Z.
Proof.
  unfold positions. destruct (_params _ _) as [m k] eqn:Hp. apply params_pos in Hp as [Hm _]. unfold _positions.
  intros (i & -> & _)%list_elem_of_fmap. simpl. apply Z.mod_pos_bound. lia.
Qed.

Lemma setbits_grows e l s : grows s (setbits e l s).2.
Proof. destruct e; unfold grows; simpl; set_solver. Qed.

Lemma setbits_ok e l s s' : setbits e l s = (true, s') → ∀ p, p ∈ l → p ∈ bits s'.
Proof. destruct e; intros [=<-]; simpl; set_solver. Qed.

Lemma setbits_seeded e l s : seeded (setbits e l s).2 = seeded s.
Proof. by destruct e. Qed.

Lemma add_grows client e key s : grows s (add client e key s).2.
Proof. unfold add. destruct (negb _), client; simpl; try apply setbits_grows; unfold grows; done. Qed.

Lemma add_seeded client e key s : seeded (add client e key s).2 = seeded s.
Proof. unfold add. destruct (negb _), client; simpl; try apply setbits_seeded; done. Qed.

Lemma add_ok client e key s s' : add client e key s = (true, s') → covered key s'.
Proof. unfold add. destruct (negb _), client; simpl; try done. intros H p. by apply (setbits_ok _ _ _ _ H). Qed.

Lemma add_chunks_spec es chunks w s :
  let '(w', s') := add_chunks es chunks w s in
  grows s s' ∧ seeded s' = seeded s ∧ (w ≤ w' ≤ w + Z.of_nat (length (mjoin chunks)))%Z
  ∧ (w' = w + Z.of_nat (length (mjoin chunks)) → Forall (λ c : list string, c ≠ []) chunks →
     ∀ key, key ∈ mjoin chunks → covered key s')%Z.
Proof.
  revert es w s. induction chunks as [|c chunks IH]; intros es w s; simpl.
  { split_and!; [by unfold grows|done|lia|lia|]. intros _ _ key []%not_elem_of_nil. }
  destruct (setbits _ _ s) as [ok s1] eqn:Hs.
  pose proof (setbits_grows (default Executed (head es)) (mjoin (positions <$> c)) s) as Hg.
  pose proof (setbits_seeded (default Executed (head es)) (mjoin (positions <$> c)) s) as Hm.
  rewrite Hs in Hg, Hm. simpl in Hg, Hm. rewrite length_app. destruct ok.
  - specialize (IH (tail es) (w + Z.of_nat (length c))%Z s1). destruct (add_chunks _ _ _ _) as [w' s'].
    destruct IH as (Hg' & Hm' & Hw & Hc). split_and!; [by etrans|congruence|lia|lia|].
    intros Hall [_ Hne]%Forall_cons key [Hk|Hk]%elem_of_app; [|apply Hc; [lia|done|done]].
    apply (covered_grows key s1); [done|]. intros p Hp. apply (setbits_ok _ _ _ _ Hs). apply list_elem_of_join.
    exists (positions key). split; [done|]. by apply list_elem_of_fmap_2.
  - split_and!; [done|done|lia|lia|]. intros Hall [Hne _]%Forall_cons. destruct c; [done|]. simpl in Hall. lia.
Qed.

Lemma slices_nonempty {A} fuel n (l : list A) : 0 < n → Forall (λ c, c ≠ []) (slices fuel n l).
Proof.
  intros Hn. revert l. induction fuel as [|fuel IH]; intros [|x l]; simpl; try constructor; [|apply IH].
  by destruct n; [lia|].
Qed.

Lemma add_many_grows client es keys s : grows s (add_many client es keys s).2.
Proof.
  unfold add_many. destruct (_ || _); [by unfold grows|]. destruct (negb client); [by unfold grows|].
  pose proof (add_chunks_spec es (slices (length keys) _ADD_CHUNK keys) 0 s) as H.
  destruct (add_chunks _ _ _ _). apply H.
Qed.

Lemma add_many_seeded client es keys s : seeded (add_many client es keys s).2 = seeded s.
Proof.
  unfold add_many. destruct (_ || _); [done|]. destruct (negb client); [done|].
  pose proof (add_chunks_spec es (slices (length keys) _ADD_CHUNK keys) 0 s) as H.
  destruct (add_chunks _ _ _ _). apply H.
Qed.

(** Everything is covered if the number that comes back is the number of keys. *)
Lemma add_many_ok client es keys s s' key :
  add_many client es keys s = (Z.of_nat (length keys), s') → key ∈ keys → covered key s'.
Proof.
  intros H Hk. unfold add_many in H. destruct (bool_decide (keys = []) || _) eqn:Hb.
  { injection H as Hl _. destruct keys; [by apply not_elem_of_nil in Hk|done]. }
  destruct (negb client). { injection H as Hl _. destruct keys; [by apply not_elem_of_nil in Hk|done]. }
  pose proof (add_chunks_spec es (slices (length keys) _ADD_CHUNK keys) 0 s) as Hs. rewrite H in Hs.
  destruct Hs as (_ & _ & _ & Hs). rewrite concat_slices in Hs by (done || unfold _ADD_CHUNK; lia).
  apply Hs; [lia|apply slices_nonempty; unfold _ADD_CHUNK; lia|done].
Qed.

Lemma slice_join {A} (k : nat) (ls : list (list A)) i l :
  Forall (λ l, length l = k) ls → ls !! i = Some l → take k (drop (i * k) (mjoin ls)) = l.
Proof.
  intros Hls. revert i. induction Hls as [|l0 ls Hl0 _ IH]; intros [|i] Hi; try done.
  - injection Hi as ->. cbn. rewrite drop_0, take_app_le by lia. by rewrite take_ge by lia.
  - rewrite <- (IH i Hi). f_equal. cbn [mjoin list_join]. rewrite drop_app_ge by lia. f_equal. lia.
Qed.

Lemma missing_bit key s : existsb negb (getbit s <$> positions key) = true ↔ ¬ covered key s.
Proof.
  rewrite existsb_exists. unfold covered. split.
  - intros (b & Hb & Hn) Hc. apply list_elem_of_In, list_elem_of_fmap in Hb as (p & -> & Hp).
    unfold getbit in Hn. by rewrite bool_decide_eq_true_2 in Hn by auto.
  - intros Hc. assert (¬ Forall (λ p, p ∈ bits s) (positions key)) as Hf by (by rewrite Forall_forall).
    apply not_Forall_Exists in Hf; [|apply _]. apply Exists_exists in Hf as (p & Hp & Hn). simpl in Hn.
    exists (getbit s p). split; [by apply list_elem_of_In, list_elem_of_fmap_2|].
    unfold getbit. by rewrite bool_decide_eq_false_2 by done.
Qed.

Lemma absent_spec client e now keys s key :
  key ∈ definitely_absent_many client e now keys s ↔
  bloom_filter_enabled cfg = true ∧ client = true ∧ e = Executed ∧ is_seeded now s = true ∧ key ∈ keys
  ∧ ¬ covered key s.
Proof.
  unfold definitely_absent_many.
  destruct (_params _ _) as [m k] eqn:Hp. pose proof (params_pos _ _ _ _ Hp) as [Hm Hkp].
  destruct (bool_decide (keys = [])) eqn:Hk; simpl.
  { apply bool_decide_eq_true in Hk as ->. split; [set_solver|]. intros (_ & _ & _ & _ & []%not_elem_of_nil & _). }
  destruct (bloom_filter_enabled cfg); simpl; [|set_solver].
  destruct client; simpl; [|set_solver]. destruct e as [|n]; [|set_solver].
  destruct (is_seeded now s); simpl; [|set_solver].
  rewrite elem_of_list_to_set, list_elem_of_join.
  set (ls := (λ key, getbit s <$> _positions key m k) <$> keys).
  assert (Hls : Forall (λ l, length l = Z.to_nat k) ls).
  { apply Forall_fmap, Forall_forall. intros x _. simpl. rewrite length_fmap. apply positions_length. lia. }
  assert (Hslice : ∀ i x, keys !! i = Some x →
    existsb negb (take (Z.to_nat k) (drop (i * Z.to_nat k) (mjoin ls))) = true ↔ ¬ covered x s).
  { intros i x Hi. rewrite (slice_join _ ls i (getbit s <$> _positions x m k)).
    - rewrite <- missing_bit. unfold positions. by rewrite Hp.
    - done.
    - unfold ls. by rewrite list_lookup_fmap, Hi. }
  split.
  - intros (l & Hl & Hin). apply elem_of_lookup_imap in Hin as (i & x & -> & Hi).
    destruct (existsb _ _) eqn:Hex; [|by apply not_elem_of_nil in Hl].
    apply list_elem_of_singleton in Hl as ->. split_and!; try done; [by apply (list_elem_of_lookup_2 _ i)|].
    by apply (Hslice i).
  - intros (_ & _ & _ & _ & Hin & Hc). apply list_elem_of_lookup in Hin as (i & Hi).
    eexists [key]. split; [by apply list_elem_of_singleton|]. apply elem_of_lookup_imap. exists i, key. split; [|done].
    apply (Hslice i key Hi) in Hc. by rewrite Hc.
Qed.

Lemma absent_one client e now key s :
  definitely_absent client e now key s = true ↔
  bloom_filter_enabled cfg = true ∧ client = true ∧ e = Executed ∧ is_seeded now s = true ∧ ¬ covered key s.
Proof.
  unfold definitely_absent. rewrite negb_true_iff, bool_decide_eq_false. split.
  - intros Hne. apply set_choose_L in Hne as [x Hx]. apply absent_spec in Hx as (? & ? & ? & ? & Hx & ?).
    apply list_elem_of_singleton in Hx as ->. done.
  - intros (? & ? & ? & ? & ?) He. assert (key ∈ definitely_absent_many client e now [key] s) as Hin.
    { apply absent_spec. by rewrite list_elem_of_singleton. }
    rewrite He in Hin. set_solver.
Qed.

Lemma might_contain_spec client e key s :
  might_contain client e key s = false ↔
  bloom_filter_enabled cfg = true ∧ client = true ∧ e = Executed ∧ ¬ covered key s.
Proof.
  unfold might_contain. destruct (bloom_filter_enabled cfg), client, e as [|n]; simpl; try naive_solver.
  rewrite <- missing_bit.
  assert (∀ l, forallb (λ b, b) l = false ↔ existsb negb l = true) as H.
  { induction l as [|[] l IH]; simpl; naive_solver. }
  rewrite H. naive_solver.
Qed.

(** ** The pages of a scan *)

Definition uuid_lt (a b : uuid) : Prop := (uuid_int a < uuid_int b)%N.

(** The users behind a cursor, in order. *)
Definition remaining (users : gset uuid) (cursor : option uuid) : list uuid :=
  filter (λ u, after cursor u = true) (merge_sort uuid_le (elements users)).

Lemma strictly_sorted (users : gset uuid) : StronglySorted uuid_lt (merge_sort uuid_le (elements users)).
Proof.
  assert (Hs : StronglySorted uuid_le (merge_sort uuid_le (elements users))).
  { apply Sorted_StronglySorted; [apply _|]. apply Sorted_merge_sort. apply _. }
  assert (Hd : NoDup (merge_sort uuid_le (elements users))).
  { rewrite merge_sort_Permutation. apply NoDup_elements. }
  induction Hs as [|u l Hs IH Hall]; [constructor|]. apply NoDup_cons in Hd as [Hu Hd]. constructor; [by apply IH|].
  rewrite Forall_forall in Hall |- *. intros v Hv. specialize (Hall v Hv). unfold uuid_le, uuid_lt in *.
  assert (uuid_int u ≠ uuid_int v) by (intros Heq%uuid_int_inj; by subst). lia.
Qed.

Lemma elem_of_remaining users cursor u : u ∈ remaining users cursor ↔ after cursor u = true ∧ u ∈ users.
Proof. unfold remaining. by rewrite list_elem_of_filter, merge_sort_Permutation, elem_of_elements. Qed.

Lemma remaining_sorted users cursor : StronglySorted uuid_lt (remaining users cursor).
Proof.
  unfold remaining. induction (strictly_sorted users) as [|u l Hs IH Hall]; [constructor|].
  rewrite filter_cons. case_decide; [|done]. constructor; [done|]. apply Forall_forall. intros v Hv.
  apply list_elem_of_filter in Hv as [_ Hv]. rewrite Forall_forall in Hall. by apply Hall.
Qed.

Lemma sorted_after l1 c l2 :
  StronglySorted uuid_lt (l1 ++ c :: l2) → filter (λ u, after (Some c) u = true) (l1 ++ c :: l2) = l2.
Proof.
  induction l1 as [|u l1 IH]; simpl; intros Hs; apply StronglySorted_inv in Hs as [Hs Hall].
  - rewrite filter_cons, decide_False by (rewrite bool_decide_eq_true; lia). rewrite Forall_forall in Hall.
    induction l2 as [|v l2 IH]; [done|]. rewrite filter_cons.
    rewrite decide_True by (apply bool_decide_eq_true, Hall; left). f_equal. apply IH; [by apply StronglySorted_inv in Hs as []|].
    intros w Hw. apply Hall. by right.
  - rewrite filter_cons, decide_False; [by apply IH|]. rewrite bool_decide_eq_true.
    rewrite Forall_forall in Hall. specialize (Hall c). unfold uuid_lt in Hall. rewrite elem_of_app in Hall.
    specialize (Hall (or_intror (list_elem_of_here _ _))). lia.
Qed.

(** The next page starts where this one ended. *)
Lemma remaining_next users cursor l c l2 :
  remaining users cursor = l ++ c :: l2 → remaining users (Some c) = l2.
Proof.
  intros Hr. rewrite <- (sorted_after l c l2); rewrite <- Hr; [|apply remaining_sorted].
  assert (Hc : after cursor c = true) by (apply (elem_of_remaining users); rewrite Hr; set_solver).
  unfold remaining. rewrite list_filter_filter. apply list_filter_iff. intros u. simpl. rewrite bool_decide_eq_true.
  split; [|tauto]. intros Hu. split; [done|]. destruct cursor as [c0|]; [|done]. simpl in *.
  rewrite bool_decide_eq_true in Hc |- *. lia.
Qed.

Lemma scan_page_eq users cursor : scan_page users cursor = take _PAGE (remaining users cursor).
Proof. done. Qed.

Lemma last_page {A} (l : list A) : l ≠ [] → ∃ init c, l = init ++ [c] ∧ last l = Some c.
Proof. induction l as [|c init _] using rev_ind; [done|]. intros _. exists init, c. by rewrite last_snoc. Qed.

(** One turn of the loop: what is left, and what is in the bitmap now. *)
Lemma scan_step_spec client es users cursor total s :
  let '(ph, s') := scan_step client es users cursor total s in
  grows s s' ∧ seeded s' = seeded s ∧
  let page := scan_page users cursor in
  match ph with
  | Idle => True
  | Paging cursor' total' =>
      page ≠ [] ∧ remaining users cursor = page ++ remaining users cursor'
      ∧ total' = (total + Z.of_nat (length page))%Z ∧ (∀ u, u ∈ page → covered (uuid_str u) s')
  | Marking total' =>
      remaining users cursor = page ∧ total' = (total + Z.of_nat (length page))%Z
      ∧ (∀ u, u ∈ page → covered (uuid_str u) s')
  end.
Proof.
  unfold scan_step. rewrite scan_page_eq. pose proof (take_drop _PAGE (remaining users cursor)) as Hsplit.
  destruct (take _PAGE (remaining users cursor)) as [|u0 rows0] eqn:Hp.
  { assert (remaining users cursor = []) as ->.
    { destruct (remaining users cursor); [done|]. unfold _PAGE in Hp. done. }
    split_and!; [by unfold grows|done|done|simpl; lia|]. intros u []%not_elem_of_nil. }
  assert (Hne : u0 :: rows0 ≠ []) by done. revert Hp Hsplit Hne. generalize (u0 :: rows0). intros rows Hp Hsplit Hne.
  destruct (add_many client es (uuid_str <$> rows) s) as [w s'] eqn:Ha.
  pose proof (add_many_grows client es (uuid_str <$> rows) s) as Hg.
  pose proof (add_many_seeded client es (uuid_str <$> rows) s) as Hm. rewrite Ha in Hg, Hm. simpl in Hg, Hm.
  case_bool_decide as Hw; [done|].
  assert (Hcov : ∀ u, u ∈ rows → covered (uuid_str u) s').
  { intros u Hu. apply (add_many_ok client es (uuid_str <$> rows) s s'); [by rewrite length_fmap, <- Hw|].
    by apply list_elem_of_fmap_2. }
  split_and!; [done|done|]. destruct (decide (length rows < _PAGE)) as [Hl|Hl].
  - assert (drop _PAGE (remaining users cursor) = []) as Hd.
    { apply drop_ge. rewrite <- Hp, length_take in Hl. lia. }
    by rewrite Hd, app_nil_r in Hsplit.
  - destruct (last_page rows Hne) as (init & c & Hrows & Hlast). rewrite Hlast.
    assert (Hr : remaining users cursor = init ++ c :: drop _PAGE (remaining users cursor)).
    { rewrite <- Hsplit at 1. rewrite Hrows. by rewrite <- (assoc_L (++)). }
    split_and!; try done. by rewrite (remaining_next _ _ _ _ _ Hr).
Qed.

(** With fuel for the users that are left the loop ends. *)
Lemma scan_loop_spec fuel pages users cursor total s :
  length (remaining users cursor) < fuel →
  ∃ b total' s', scan_loop fuel pages users cursor total s = Some (b, total', s')
    ∧ grows s s' ∧ seeded s' = seeded s
    ∧ (b = true → total' = (total + Z.of_nat (length (remaining users cursor)))%Z
        ∧ ∀ u, u ∈ remaining users cursor → covered (uuid_str u) s').
Proof.
  revert pages cursor total s. induction fuel as [|fuel IH]; intros pages cursor total s Hf; [lia|]. cbn [scan_loop].
  destruct (default (true, []) (head pages)) as [client es].
  pose proof (scan_step_spec client es users cursor total s) as Hstep.
  destruct (scan_step client es users cursor total s) as [[|cursor' total'|total'] s1];
    destruct Hstep as (Hg & Hm & Hstep).
  - by eexists _, _, _.
  - destruct Hstep as (Hne & Hr & -> & Hcov). rewrite Hr, length_app in Hf.
    assert (0 < length (scan_page users cursor)) by (destruct (scan_page users cursor); [done|simpl; lia]).
    destruct (IH (tail pages) cursor' (total + Z.of_nat (length (scan_page users cursor)))%Z s1) as (b & t & s' & -> & Hg' & Hm' & Hb); [lia|].
    eexists _, _, _. split; [done|]. split_and!; [by etrans|congruence|]. intros Ht. destruct (Hb Ht) as [-> Hc].
    rewrite Hr, length_app. split; [lia|]. intros u [Hu|Hu]%elem_of_app; [|by apply Hc].
    apply (covered_grows _ s1); [done|]. by apply Hcov.
  - destruct Hstep as (Hr & -> & Hcov). eexists _, _, _. by rewrite Hr.
Qed.

(** While Redis answers no page fails. *)
Lemma add_chunks_all chunks w s : (add_chunks [] chunks w s).1 = (w + Z.of_nat (length (mjoin chunks)))%Z.
Proof.
  revert w s. induction chunks as [|c chunks IH]; intros w s; simpl; [lia|]. rewrite IH, length_app. lia.
Qed.

Lemma scan_step_all users cursor total s :
  bloom_filter_enabled cfg = true → (scan_step true [] users cursor total s).1 ≠ Idle.
Proof.
  intros Hen. unfold scan_step. destruct (scan_page users cursor) as [|u rows]; [done|].
  unfold add_many. rewrite Hen. simpl (negb _). rewrite orb_false_r, bool_decide_eq_false_2 by done.
  pose proof (add_chunks_all (slices (length (uuid_str <$> u :: rows)) _ADD_CHUNK (uuid_str <$> u :: rows)) 0 s) as H.
  rewrite concat_slices in H by (done || unfold _ADD_CHUNK; lia).
  destruct (add_chunks _ _ _ _) as [w s']. rewrite length_fmap in H. cbn [fst] in H. rewrite H, Z.add_0_l. rewrite bool_decide_eq_false_2 by tauto.
  by destruct (decide _).
Qed.

Lemma scan_loop_all fuel users cursor total s t s' :
  bloom_filter_enabled cfg = true → scan_loop fuel [] users cursor total s ≠ Some (false, t, s').
Proof.
  intros Hen. revert cursor total s. induction fuel as [|fuel IH]; intros cursor total s; [done|]. cbn.
  pose proof (scan_step_all users cursor total s Hen).
  destruct (scan_step true [] users cursor total s) as [[| |] s1]; naive_solver.
Qed.

Lemma remaining_all users : length (remaining users None) = size users.
Proof.
  unfold remaining. replace (filter _ _) with (merge_sort uuid_le (elements users)); [by rewrite merge_sort_Permutation|].
  symmetry. induction (merge_sort uuid_le (elements users)) as [|u l IH]; [done|]. rewrite filter_cons, decide_True by done. by f_equal.
Qed.

(** ** The system: transactions that create users, the scan, Redis

    [opened] holds the ids whose insertion is flushed and not yet committed.
    The last two fields are history, not state of the program: [missed] are the
    ids whose [add] did not reach the bitmap or was lost again, [before] those
    that were there before the bitmap, or before Redis lost it between scans. *)
Record sys := Sys {
  db : gset uuid;
  opened : gset uuid;
  redis : store;
  clock : Z;
  scan : phase;
  missed : gset uuid;
  before : gset uuid
}.

(** [create_user_with_profile] up to the end of its body: the row is flushed,
    then [bloom.add]. *)
Definition create_user (client : bool) (e : pipe) (u : uuid) (s : sys) : sys :=
  let '(ok, r) := add client e (uuid_str u) (redis s) in
  Sys (db s) (opened s ∪ {[u]}) r (clock s) (scan s) (if ok then missed s else missed s ∪ {[u]}) (before s).

Definition commit_user (u : uuid) (s : sys) : sys :=
  Sys (db s ∪ {[u]}) (opened s ∖ {[u]}) (redis s) (clock s) (scan s) (missed s) (before s).

Definition abort_user (u : uuid) (s : sys) : sys :=
  Sys (db s) (opened s ∖ {[u]}) (redis s) (clock s) (scan s) (missed s) (before s).

(** [ensure_demo_user] and the scripts for administrators: commit, then [add]. *)
Definition script_commit (u : uuid) (s : sys) : sys :=
  Sys (db s ∪ {[u]}) (opened s) (redis s) (clock s) (scan s) (missed s ∪ {[u]}) (before s).

Definition script_add (client : bool) (e : pipe) (u : uuid) (s : sys) : sys :=
  let '(ok, r) := add client e (uuid_str u) (redis s) in
  Sys (db s) (opened s) r (clock s) (scan s) (if ok then missed s ∖ {[u]} else missed s) (before s).

Definition delete_user (u : uuid) (s : sys) : sys :=
  Sys (db s ∖ {[u]}) (opened s) (redis s) (clock s) (scan s) (missed s) (before s).

Definition start_scan (s : sys) : sys :=
  Sys (db s) (opened s) (redis s) (clock s) (Paging None 0) (missed s) (before s).

(** A page that was written takes its users out of the history. *)
Definition run_page (client : bool) (es : list pipe) (cursor : option uuid) (total : Z) (s : sys) : sys :=
  let '(ph, r) := scan_step client es (db s) cursor total (redis s) in
  let done_ : gset uuid := match ph with Idle => ∅ | _ => list_to_set (scan_page (db s) cursor) end in
  Sys (db s) (opened s) r (clock s) ph (missed s ∖ done_) (before s).

Definition run_mark (client : bool) (e : pipe) (total : Z) (s : sys) : sys :=
  Sys (db s) (opened s) (scan_mark client e (clock s) total (redis s)) (clock s) Idle (missed s) (before s).

Definition run_unmark (client : bool) (e : pipe) (s : sys) : sys :=
  Sys (db s) (opened s) (unmark_seeded client e (redis s)).2 (clock s) (scan s) (missed s) (before s).

Definition pass (dt : Z) (s : sys) : sys :=
  Sys (db s) (opened s) (redis s) (clock s + dt) (scan s) (missed s) (before s).

(** Redis restarts without persistence. *)
Definition restart (s : sys) : sys :=
  match scan s with
  | Idle => Sys (db s) (opened s) empty_store (clock s) Idle (missed s ∪ opened s) (db s)
  | ph => Sys (db s) (opened s) empty_store (clock s) ph (missed s ∪ opened s ∪ db s) (before s)
  end.

Inductive step : sys → sys → Prop :=
  | Step_create client e u s : u ∉ db s → u ∉ opened s → step s (create_user client e u s)
  | Step_commit u s : u ∈ opened s → step s (commit_user u s)
  | Step_abort u s : u ∈ opened s → step s (abort_user u s)
  | Step_script_commit u s : u ∉ db s → u ∉ opened s → step s (script_commit u s)
  | Step_script_add client e u s : step s (script_add client e u s)
  | Step_delete u s : step s (delete_user u s)
  | Step_start s : scan s = Idle → step s (start_scan s)
  | Step_page client es cursor total s : scan s = Paging cursor total → step s (run_page client es cursor total s)
  | Step_mark client e total s : scan s = Marking total → step s (run_mark client e total s)
  | Step_unmark client e s : step s (run_unmark client e s)
  | Step_pass dt s : (0 ≤ dt)%Z → step s (pass dt s)
  | Step_restart s : step s (restart s).

(** The first deployment of the filter on the users there are. *)
Definition initial (users : gset uuid) (now : Z) : sys := Sys users ∅ empty_store now Idle ∅ users.

(** The scan under way, or the next one, has [u] before it. *)
Definition ahead (ph : phase) (u : uuid) : bool :=
  match ph with Idle => true | Paging cursor _ => after cursor u | Marking _ => false end.

Definition accounted (s : sys) (u : uuid) : Prop :=
  covered (uuid_str u) (redis s) ∨ u ∈ missed s
  ∨ u ∈ db s ∧ u ∈ before s ∧ ahead (scan s) u = true ∧ seeded (redis s) = None.

Definition complete (s : sys) : Prop := ∀ u, u ∈ db s ∪ opened s → accounted s u.

Lemma initial_complete users now : complete (initial users now).
Proof. intros u Hu. right. right. simpl in *. set_solver. Qed.

Lemma unmark_bits client e s : bits (unmark_seeded client e s).2 = bits s.
Proof. unfold unmark_seeded. by destruct client, e as [|[|n]]. Qed.

Lemma unmark_none client e s : seeded s = None → seeded (unmark_seeded client e s).2 = None.
Proof. unfold unmark_seeded. by destruct client, e as [|[|n]]. Qed.

Lemma scan_mark_bits client e now total s : bits (scan_mark client e now total s) = bits s.
Proof.
  unfold scan_mark, mark_seeded. destruct (bool_decide _), (bloom_filter_enabled cfg), client, e as [|[|n]]; done.
Qed.

Lemma covered_bits key s s' : bits s = bits s' → covered key s → covered key s'.
Proof. unfold covered. by intros ->. Qed.

Lemma page_complete client es cursor total s :
  scan s = Paging cursor total → complete s → complete (run_page client es cursor total s).
Proof.
  intros Hs Hc u Hu. unfold run_page in *.
  pose proof (scan_step_spec client es (db s) cursor total (redis s)) as Hstep.
  destruct (scan_step client es (db s) cursor total (redis s)) as [ph r].
  destruct Hstep as (Hg & Hm & Hstep). cbv zeta in Hstep. simpl in Hu. unfold accounted. simpl.
  assert (Hpage : ph ≠ Idle → u ∈ scan_page (db s) cursor → covered (uuid_str u) r).
  { intros Hph. destruct ph as [|c' t'|t']; [done|apply Hstep|apply Hstep]. }
  destruct (Hc u Hu) as [Hcov|[Hmiss|(Hdb & Hbef & Hah & Hseed)]].
  - left. by apply (covered_grows _ (redis s)).
  - destruct ph as [|c' t'|t']; [set_solver| |].
    all: destruct (decide (u ∈ scan_page (db s) cursor)); [left; by apply Hpage|right; left; set_solver].
  - rewrite Hs in Hah. simpl in Hah.
    assert (Hrem : u ∈ remaining (db s) cursor) by by apply elem_of_remaining.
    destruct ph as [|c' t'|t'].
    + right; right. by rewrite Hm.
    + destruct Hstep as (_ & Hr & _ & Hcov). rewrite Hr in Hrem. apply elem_of_app in Hrem as [Hrem|Hrem]; [left; auto|].
      right; right. apply elem_of_remaining in Hrem as [? _]. by rewrite Hm.
    + destruct Hstep as (Hr & _ & Hcov). rewrite Hr in Hrem. left. auto.
Qed.

(** An open insertion is not yet a user. *)
Lemma step_disjoint s s' : step s s' → db s ## opened s → db s' ## opened s'.
Proof.
  destruct 1 as [client e u s Hu Ho|u s Ho|u s Ho|u s Hu Ho|client e u s|u s|s Hs|client es cursor total s Hs
    |client e total s Hs|client e s|dt s Hdt|s]; simpl; try set_solver.
  - unfold create_user. destruct (add _ _ _ _). simpl. set_solver.
  - unfold script_add. destruct (add _ _ _ _). simpl. set_solver.
  - unfold run_page. destruct (scan_step _ _ _ _ _ _). done.
  - unfold restart. by destruct (scan s).
Qed.

Lemma step_complete s s' : step s s' → db s ## opened s → complete s → complete s'.
Proof.
  destruct 1 as [client e u s Hu Ho|u s Ho|u s Ho|u s Hu Ho|client e u s|u s|s Hs|client es cursor total s Hs
    |client e total s Hs|client e s|dt s Hdt|s]; intros Hdis Hc v Hv; unfold accounted.
  - unfold create_user in *. pose proof (add_grows client e (uuid_str u) (redis s)) as Hg.
    pose proof (add_seeded client e (uuid_str u) (redis s)) as Hm.
    destruct (add client e (uuid_str u) (redis s)) as [ok r] eqn:Ha. simpl in *.
    destruct (decide (v = u)) as [->|Hne].
    { destruct ok; [left; by apply (add_ok _ _ _ _ _ Ha)|right; left; set_solver]. }
    destruct (Hc v) as [?|[?|(?&?&?&?)]]; [set_solver|left; by apply (covered_grows _ (redis s))| |].
    + right; left. destruct ok; set_solver.
    + right; right. by rewrite Hm.
  - simpl in *. destruct (Hc v) as [?|[?|(?&?&?&?)]]; [set_solver|by left|by right; left|]. right; right. set_solver.
  - simpl in *. destruct (Hc v) as [?|[?|(?&?&?&?)]]; [set_solver|by left|by right; left|]. by right; right.
  - simpl in *. destruct (decide (v = u)) as [->|Hne]; [right; left; set_solver|].
    destruct (Hc v) as [?|[?|(?&?&?&?)]]; [set_solver|by left|right; left; set_solver|]. right; right. set_solver.
  - unfold script_add in *. pose proof (add_grows client e (uuid_str u) (redis s)) as Hg.
    pose proof (add_seeded client e (uuid_str u) (redis s)) as Hm.
    destruct (add client e (uuid_str u) (redis s)) as [ok r] eqn:Ha. simpl in *.
    destruct (decide (v = u ∧ ok = true)) as [[-> ->]|Hne]; [left; by apply (add_ok _ _ _ _ _ Ha)|].
    destruct (Hc v) as [?|[?|(?&?&?&?)]]; [set_solver|left; by apply (covered_grows _ (redis s))| |].
    + right; left. destruct ok; [|done]. set_solver.
    + right; right. by rewrite Hm.
  - simpl in *. destruct (Hc v) as [?|[?|(Hd&?&?&?)]]; [set_solver|by left|by right; left|].
    right; right. set_solver.
  - simpl in *. destruct (Hc v Hv) as [?|[?|(?&?&?&?)]]; [by left|by right; left|]. by right; right.
  - by apply (page_complete client es cursor total s Hs Hc).
  - simpl in *. destruct (Hc v Hv) as [?|[?|(?&?&Ha&?)]]; [|by right; left|by rewrite Hs in Ha].
    left. apply (covered_bits _ (redis s)); [|done]. by rewrite scan_mark_bits.
  - simpl in *. destruct (Hc v Hv) as [?|[?|(?&?&?&?)]]; [|by right; left|].
    + left. apply (covered_bits _ (redis s)); [|done]. by rewrite unmark_bits.
    + right; right. split_and!; try done. by apply unmark_none.
  - simpl in *. destruct (Hc v Hv) as [?|[?|(?&?&?&?)]]; [by left|by right; left|by right; right].
  - unfold restart in *. destruct (scan s); simpl in *; [|right; left; set_solver|right; left; set_solver].
    destruct (decide (v ∈ opened s)); [right; left; set_solver|]. right; right. set_solver.
Qed.

Lemma reachable_complete users now s : rtc step (initial users now) s → db s ## opened s ∧ complete s.
Proof.
  intros Hr. apply (invariant_reachable step (λ s, db s ## opened s ∧ complete s) (initial users now)); [| |done].
  - split; [simpl; set_solver|apply initial_complete].
  - intros s1 s2 [Hd Hc] Hs. split; [by eapply step_disjoint|by eapply step_complete].
Qed.

(** A creation that reaches Redis is not missed; one that fails leaves the rest alone. *)
Lemma create_missed client e u s :
  missed (create_user client e u s) = missed s
  ∨ missed (create_user client e u s) = missed s ∪ {[u]}
    ∧ (bloom_filter_enabled cfg = false ∨ client = false ∨ ∃ n, e = Failed n).
Proof.
  unfold create_user, add. destruct (bloom_filter_enabled cfg); simpl; [|auto].
  destruct client; simpl; [|auto]. destruct e as [|n]; simpl; [auto|]. right. eauto.
Qed.
End bloom.

(** ** Properties *)

(** C34: In every reachable state of the system — transactions that create users and
    commit or abort, scripts that commit first, deletions, the nightly scan page
    by page, the mark and its expiry, restarts of Redis, all in any order and
    with any failures — the filter refuses a user, or a creation under way, only
    if its [add] did not reach the bitmap or Redis lost the bitmap at that
    moment. In particular the users of the first deployment are never refused
    before a scan has covered them. *)
Theorem refusals_accounted (digest : string → Z) (ln_bits rounds : Z → Z → Z) (cfg : settings)
    (users : gset uuid) (now : Z) (s : sys) (u : uuid) (client : bool) (e : pipe) :
  rtc (step digest ln_bits rounds cfg) (initial users now) s →
  u ∈ db s ∪ opened s →
  definitely_absent digest ln_bits rounds cfg client e (clock s) (uuid_str u) (redis s) = true →
  u ∈ missed s ∧ might_contain digest ln_bits rounds cfg client e (uuid_str u) (redis s) = false.
Proof.
  intros Hr Hu Ha. apply absent_one in Ha as (Hen & Hcl & He & Hs & Hn).
  split; [|by apply might_contain_spec]. apply reachable_complete in Hr as [_ Hc].
  destruct (Hc u Hu) as [?|[?|(_ & _ & _ & Hm)]]; [done|done|]. unfold is_seeded in Hs. by rewrite Hm in Hs.
Qed.

(** The nightly scan ends, whatever fails on the way, within a number of pages
    bounded by the number of users. It touches the mark only if every user of
    the table is in the bitmap, and it is not empty; when Redis answers it does
    set the mark, for the configured time, and returns the number of users. *)
Theorem backfill_correct (digest : string → Z) (ln_bits rounds : Z → Z → Z) (cfg : settings) (fuel : nat)
    (pages : list (bool * list pipe)) (client : bool) (e : pipe) (now : Z) (users : gset uuid) (s : store) :
  size users < fuel →
  ∃ total s', backfill_user_ids digest ln_bits rounds cfg fuel pages client e now users s = Some (total, s')
    ∧ bits s ⊆ bits s'
    ∧ (seeded s' ≠ seeded s →
        total = Z.of_nat (size users) ∧ users ≠ ∅ ∧ seeded s' = Some (now + Z.max 1 (bloom_filter_seed_ttl_s cfg))%Z
        ∧ ∀ u, u ∈ users → covered digest ln_bits rounds cfg (uuid_str u) s')
    ∧ (bloom_filter_enabled cfg = true → pages = [] → client = true → e = Executed → users ≠ ∅ →
        total = Z.of_nat (size users) ∧ seeded s' = Some (now + Z.max 1 (bloom_filter_seed_ttl_s cfg))%Z).
Proof.
  intros Hf. destruct (scan_loop_spec digest ln_bits rounds cfg fuel pages users None 0 s) as (b & t & s1 & Hl & Hg & Hm & Hb).
  { by rewrite remaining_all. }
  rewrite remaining_all, Z.add_0_l in Hb. unfold backfill_user_ids. rewrite Hl. destruct b.
  - destruct (Hb eq_refl) as [-> Hcov]. eexists _, _. split; [done|].
    assert (Hall : ∀ u, u ∈ users → covered digest ln_bits rounds cfg (uuid_str u) s1).
    { intros u Hu. by apply Hcov, elem_of_remaining. }
    pose proof (scan_mark_bits cfg client e now (Z.of_nat (size users)) s1) as Hbits.
    split; [by rewrite Hbits|]. unfold scan_mark, mark_seeded in *. case_bool_decide as Hz.
    { split; [congruence|]. intros _ _ _ _ Hne. assert (size users = 0) as Hs by lia.
      apply size_empty_inv in Hs. set_solver. }
    assert (users ≠ ∅) by (intros ->; by rewrite size_empty in Hz).
    destruct (bloom_filter_enabled cfg) eqn:Hen; simpl in *; [|naive_solver].
    destruct client; simpl in *; [|naive_solver]. destruct e as [|[|n]]; naive_solver.
  - eexists _, _. split; [done|]. split_and!; [done|congruence|]. intros Hen ->. by apply scan_loop_all in Hl.
Qed.

(** Asking for many ids in one exchange is asking for each of them: the answers
    of Redis come back as one list and are cut into the right pieces. And what
    the filter refuses is what its bitmap does not contain: never an id that was
    added, however the bitmap grew since. *)
Theorem batch_answers_each (digest : string → Z) (ln_bits rounds : Z → Z → Z) (cfg : settings) (client : bool) (e : pipe)
    (now : Z) (keys : list string) (s : store) (key : string) :
  (key ∈ definitely_absent_many digest ln_bits rounds cfg client e now keys s ↔
    key ∈ keys ∧ definitely_absent digest ln_bits rounds cfg client e now key s = true)
  ∧ ∀ client' e' s0 s1, add digest ln_bits rounds cfg client' e' key s0 = (true, s1) →
      (bits s1 ⊆ bits s) →
      (key ∉ definitely_absent_many digest ln_bits rounds cfg client e now keys s)
      ∧ might_contain digest ln_bits rounds cfg client e key s = true.
Proof.
  split; [rewrite absent_spec, absent_one; naive_solver|].
  intros client' e' s0 s1 Ha Hg. apply add_ok in Ha. apply (covered_grows _ _ _ _ _ _ s) in Ha; [|done]. split.
  - rewrite absent_spec. naive_solver.
  - apply not_false_is_true. rewrite might_contain_spec. naive_solver.
Qed.

(** ** Concrete runs *)
Definition demo_digest (key : string) : Z :=
  foldr (λ c z, ((z * 131 + Z.of_N (N_of_ascii c)) mod 2 ^ 128)%Z) 7%Z (String.list_ascii_of_string key).
Definition demo_cfg : settings := Settings true 100 1000000 604800.
Definition demo_bits (n p : Z) : Z := (n * 14)%Z.
Definition demo_rounds (m n : Z) : Z := 3.
Definition demo_user (n : N) : uuid := uuid_of_N n.

Definition demo_absent (u : uuid) (s : sys) : bool :=
  definitely_absent demo_digest demo_bits demo_rounds demo_cfg true Executed (clock s) (uuid_str u) (redis s).

(** A creation whose [add] fails, after a scan. *)
Definition demo_run : sys :=
  let u := demo_user 1 in let v := demo_user 2 in
  let s := start_scan (initial {[u]} 1000) in
  let s := run_page demo_digest demo_bits demo_rounds demo_cfg true [] None 0 s in
  let s := run_mark demo_cfg true Executed 1 s in
  commit_user v (create_user demo_digest demo_bits demo_rounds demo_cfg true (Failed 0) v s).

Lemma bloom_reachable : rtc (step demo_digest demo_bits demo_rounds demo_cfg) (initial {[demo_user 1]} 1000) demo_run.
Proof.
  eapply rtc_l; [by apply Step_start|]. eapply rtc_l.
  { apply (Step_page _ _ _ _ true [] None 0). done. }
  eapply rtc_l. { apply (Step_mark _ _ _ _ true Executed 1). by vm_compute. }
  eapply rtc_l. { apply (Step_create _ _ _ _ true (Failed 0) (demo_user 2)); by apply (bool_decide_unpack _); vm_compute. }
  apply rtc_once, Step_commit. by apply (bool_decide_unpack _); vm_compute.
Qed.

(** The user is committed and refused, with the mark in force: the caller
    ignores that [add] failed, and nothing but the next scan repairs it. *)
Lemma failed_add_refuses_user :
  rtc (step demo_digest demo_bits demo_rounds demo_cfg) (initial {[demo_user 1]} 1000) demo_run
  ∧ demo_user 2 ∈ db demo_run ∧ demo_absent (demo_user 2) demo_run = true ∧ demo_absent (demo_user 1) demo_run = false.
Proof. split_and!; [apply bloom_reachable|by apply (bool_decide_unpack _); vm_compute|by vm_compute|by vm_compute]. Qed.

(** A restart of Redis between the last page and the mark: the mark certifies an
    empty bitmap, and every user is refused. *)
Definition demo_restarted : sys :=
  run_mark demo_cfg true Executed 1
    (restart (run_page demo_digest demo_bits demo_rounds demo_cfg true [] None 0 (start_scan (initial {[demo_user 1]} 1000)))).

Lemma restart_during_scan_refuses_users :
  demo_user 1 ∈ db demo_restarted ∧ demo_absent (demo_user 1) demo_restarted = true.
Proof. split; [by apply (bool_decide_unpack _); vm_compute|by vm_compute]. Qed.

(** The bitmap's key does not depend on the parameters: another capacity reads
    the same bits at other positions, and users who were added are refused. *)
Lemma resizing_refuses_users :
  let s := (add demo_digest demo_bits demo_rounds demo_cfg true Executed (uuid_str (demo_user 1)) (Store ∅ (Some 5000%Z))).2 in
  definitely_absent demo_digest demo_bits demo_rounds demo_cfg true Executed 1000 (uuid_str (demo_user 1)) s = false
  ∧ definitely_absent demo_digest demo_bits demo_rounds (Settings true 200 1000000 604800) true Executed 1000
      (uuid_str (demo_user 1)) s = true.
Proof. split; by vm_compute. Qed.

Lemma refusals_accounted_witness :
  demo_user 2 ∈ missed demo_run
  ∧ might_contain demo_digest demo_bits demo_rounds demo_cfg true Executed (uuid_str (demo_user 2)) (redis demo_run) = false.
Proof.
  apply (refusals_accounted demo_digest demo_bits demo_rounds demo_cfg {[demo_user 1]} 1000).
  - apply bloom_reachable.
  - apply elem_of_union_l. by apply (bool_decide_unpack _); vm_compute.
  - by vm_compute.
Defined.

Lemma backfill_correct_witness :
  ∃ total s', backfill_user_ids demo_digest demo_bits demo_rounds demo_cfg 3 [] true Executed 1000
      {[demo_user 1; demo_user 2]} empty_store = Some (total, s')
    ∧ bits empty_store ⊆ bits s'
    ∧ (seeded s' ≠ seeded empty_store →
        total = Z.of_nat (size (C:=gset uuid) {[demo_user 1; demo_user 2]}) ∧ {[demo_user 1; demo_user 2]} ≠@{gset uuid} ∅
        ∧ seeded s' = Some (1000 + Z.max 1 604800)%Z
        ∧ ∀ u, u ∈@{gset uuid} {[demo_user 1; demo_user 2]} →
            covered demo_digest demo_bits demo_rounds demo_cfg (uuid_str u) s')
    ∧ (bloom_filter_enabled demo_cfg = true → [] =@{list (bool * list pipe)} [] → true = true → Executed = Executed →
        {[demo_user 1; demo_user 2]} ≠@{gset uuid} ∅ →
        total = Z.of_nat (size (C:=gset uuid) {[demo_user 1; demo_user 2]}) ∧ seeded s' = Some (1000 + Z.max 1 604800)%Z).
Proof.
  apply (backfill_correct demo_digest demo_bits demo_rounds demo_cfg 3 [] true Executed 1000
    {[demo_user 1; demo_user 2]} empty_store).
  by apply (bool_decide_unpack _); vm_compute.
Defined.
