(* ===== verification/Articles.v ===== *)
(** * Official articles

    Model of [app/modules/content/articles] (service and repository): categories,
    articles with the optimistic lock, their tags, likes, comments, the review.
    Theorems: the library stays consistent under any sequence of requests (slugs,
    categories, counters, branches of comments, dates of publication), an update
    changes what was sent and nothing else, tags are replaced.

    The dates of creation and modification of the rows are left out but for the
    one that orders comments. The caches are a log of what is invalidated. *)

From S2P Require Import Prelude.

(** ** Tables *)
Record ArticleCategory := MkCategory { c_slug : string; c_title : string; c_sort : Z }.

Record Article := MkArticle {
  slug : string;
  title : string;
  description : option string;
  cover : option string;
  category_id : uuid;
  status : string;                   (* draft | pending | published | rejected *)
  content : string;
  publisher : option string;
  department : option string;
  keywords : option string;
  published : option Z;
  views : Z;
  likes : Z;
  n_comments : Z;
  bookmarks : Z;
  version : Z
}.

Record ArticleComment := MkComment {
  k_article : uuid;
  k_user : uuid;
  k_content : string;
  k_parent : option uuid;
  k_created : Z;
  k_deleted : option Z
}.

Record tables := Tables {
  categories : gmap uuid ArticleCategory;
  articles : gmap uuid Article;
  comments : gmap uuid ArticleComment;
  like_rows : gset (uuid * uuid);              (* article, user *)
  tags : gmap string uuid;                     (* unique name: id *)
  article_tag : gset (uuid * uuid);            (* article, tag *)
  outbox : list (uuid * string * uuid)         (* points events: user, event, article *)
}.

(** What is dropped from the cache. *)
Inductive dropped := Lists | BySlug (s : string) | Categories.

Record world := World { db : tables; clock : Z; cache_log : list dropped }.

Abbreviation M := (prog world err).

Definition set_db (f : tables → tables) (w : world) : world := World (f (db w)) (clock w) (cache_log w).
Definition set_categories (f : gmap uuid ArticleCategory → gmap uuid ArticleCategory) : world → world :=
  set_db (λ d, Tables (f (categories d)) (articles d) (comments d) (like_rows d) (tags d) (article_tag d) (outbox d)).
Definition set_articles (f : gmap uuid Article → gmap uuid Article) : world → world :=
  set_db (λ d, Tables (categories d) (f (articles d)) (comments d) (like_rows d) (tags d) (article_tag d) (outbox d)).
Definition set_comments (f : gmap uuid ArticleComment → gmap uuid ArticleComment) : world → world :=
  set_db (λ d, Tables (categories d) (articles d) (f (comments d)) (like_rows d) (tags d) (article_tag d) (outbox d)).
Definition set_likes (f : gset (uuid * uuid) → gset (uuid * uuid)) : world → world :=
  set_db (λ d, Tables (categories d) (articles d) (comments d) (f (like_rows d)) (tags d) (article_tag d) (outbox d)).
Definition set_tags (f : gmap string uuid → gmap string uuid) : world → world :=
  set_db (λ d, Tables (categories d) (articles d) (comments d) (like_rows d) (f (tags d)) (article_tag d) (outbox d)).
Definition set_article_tag (f : gset (uuid * uuid) → gset (uuid * uuid)) : world → world :=
  set_db (λ d, Tables (categories d) (articles d) (comments d) (like_rows d) (tags d) (f (article_tag d)) (outbox d)).
Definition enqueue_event (u : uuid) (event : string) (a : uuid) : world → world :=
  set_db (λ d, Tables (categories d) (articles d) (comments d) (like_rows d) (tags d) (article_tag d)
    (outbox d ++ [(u, event, a)])).
Definition drop_cached (l : list dropped) (w : world) : world := World (db w) (clock w) (cache_log w ++ l).

(** [get_session]; what was dropped from the cache stays dropped. *)
Definition transaction {A} (commits : bool) (m : M A) : M A := λ w,
  match m w with
  | (Ok a, w') => if commits then (Ok a, w') else (Raise RuntimeError, set_db (λ _, db w) w')
  | (Raise e, w') => (Raise e, set_db (λ _, db w) w')
  end.

(** ** Rows *)
Definition with_counts (l k : Z) (a : Article) : Article :=
  MkArticle (slug a) (title a) (description a) (cover a) (category_id a) (status a) (content a) (publisher a)
    (department a) (keywords a) (published a) (views a) l k (bookmarks a) (version a).

Definition with_status (s : string) (p : option Z) (a : Article) : Article :=
  MkArticle (slug a) (title a) (description a) (cover a) (category_id a) s (content a) (publisher a)
    (department a) (keywords a) p (views a) (likes a) (n_comments a) (bookmarks a) (version a).

Definition article_by_slug (s : string) (d : tables) : option (uuid * Article) :=
  List.find (λ ka, bool_decide (slug ka.2 = s)) (map_to_list (articles d)).

Definition slug_taken (s : string) (d : tables) : bool := bool_decide (is_Some (article_by_slug s d)).

Definition category_by_slug (s : string) (d : tables) : option uuid :=
  fst <$> List.find (λ kc, bool_decide (c_slug kc.2 = s)) (map_to_list (categories d)).

Definition category_slug_taken (s : string) (exclude_id : option uuid) (d : tables) : bool :=
  existsb (λ kc, bool_decide (c_slug kc.2 = s ∧ Some kc.1 ≠ exclude_id)) (map_to_list (categories d)).

Definition _get_article (s : string) : M (uuid * Article) :=
  w ← get_state; get_or_raise (article_by_slug s (db w)) NOT_FOUND.

Definition _resolve_category_id (s : string) : M uuid :=
  w ← get_state; get_or_raise (category_by_slug s (db w)) CATEGORY_NOT_FOUND.

Definition _require_category (c : uuid) : M () :=
  w ← get_state; raise_when (bool_decide (categories (db w) !! c = None)) CATEGORY_NOT_FOUND.

Definition _invalidate_article_cache (s : string) : M () := modify (drop_cached [Lists; BySlug s; Categories]).
Definition _invalidate_categories_cache : M () := modify (drop_cached [Categories]).

(** [db.add(article)] and the flush: primary key, unique slug, foreign key. *)
Definition insert_article (new : uuid) (a : Article) : M () :=
  w ← get_state;
  raise_when (bool_decide (is_Some (articles (db w) !! new)) || slug_taken (slug a) (db w)
              || bool_decide (categories (db w) !! category_id a = None)) IntegrityError ≫= λ _,
  modify (set_articles <[new := a]>).

(** [SET column = column + delta], in a 32-bit column. *)
Definition bump_likes (a : uuid) (delta : Z) : M () :=
  w ← get_state;
  match articles (db w) !! a with
  | None => mret tt
  | Some x =>
      raise_when (negb (int32 (likes x + delta))) DataError ≫= λ _,
      modify (set_articles <[a := with_counts (likes x + delta) (n_comments x) x]>)
  end.

Definition bump_comments (a : uuid) (delta : Z) : M () :=
  w ← get_state;
  match articles (db w) !! a with
  | None => mret tt
  | Some x =>
      raise_when (negb (int32 (n_comments x + delta))) DataError ≫= λ _,
      modify (set_articles <[a := with_counts (likes x) (n_comments x + delta) x]>)
  end.

(** ** Tags *)

(** [tag_names_sequence] of [core/common.py] *)
Fixpoint tag_names_from (seen : gset string) (names : list string) : list string :=
  match names with
  | [] => []
  | n :: names =>
      if bool_decide (n ≠ ""%string ∧ n ∉ seen) then n :: tag_names_from (seen ∪ {[n]}) names
      else tag_names_from seen names
  end.

Definition tag_names_sequence (names : list string) : list string := tag_names_from ∅ names.

(** [pg_upsert] of the missing names, with the ids drawn for them: conflicts of
    names are skipped, those of ids are not. *)
Fixpoint upsert_tags (names : list string) (ids : list uuid) : M () :=
  match names, ids with
  | n :: names, i :: ids =>
      w ← get_state;
      raise_when (bool_decide (50 < String.length n)) DataError ≫= λ _,
      match tags (db w) !! n with
      | Some _ => upsert_tags names ids
      | None =>
          raise_when (existsb (λ t, bool_decide (t.2 = i)) (map_to_list (tags (db w)))) IntegrityError ≫= λ _,
          modify (set_tags <[n := i]>) ≫= λ _, upsert_tags names ids
      end
  | _, _ => mret tt
  end.

(** [name_to_id[n] for n in ordered], with a [KeyError] for a name without id. *)
Fixpoint ids_of (m : gmap string uuid) (names : list string) : option (list uuid) :=
  match names with
  | [] => Some []
  | n :: names => i ← m !! n; l ← ids_of m names; Some (i :: l)
  end.

(** The links of one article are replaced; an empty list changes nothing. *)
Definition sync_for_article (ids : list uuid) (a : uuid) (names : list string) : M () :=
  let ordered := tag_names_sequence names in
  if bool_decide (ordered = []) then mret tt else
  w ← get_state;
  let missing := filter (λ n, tags (db w) !! n = None) ordered in
  upsert_tags missing ids ≫= λ _,
  w ← get_state;
  tag_ids ← get_or_raise (ids_of (tags (db w)) ordered) RuntimeError;
  modify (set_article_tag (λ l,
    filter (λ p, p.1 ≠ a ∨ p.2 ∈ tag_ids) (l ∪ list_to_set ((λ t, (a, t)) <$> tag_ids)))).

Definition tags_of (a : uuid) (d : tables) : list string :=
  (filter (λ t, (a, t.2) ∈ article_tag d) (map_to_list (tags d))).*1.

(** ** Articles *)

(** [create_article]: the entry of scripts, by slug of the category. *)
Definition create_article (new : uuid) (ids : list uuid) (s t category c : string) (publish_at : option Z)
    (desc : option string) (names : option (list string)) : M uuid :=
  w ← get_state;
  match article_by_slug s (db w) with
  | Some (k, a) =>
      cat ← _resolve_category_id category;
      w ← get_state;
      modify (set_articles <[k := MkArticle (slug a) t (match desc with Some x => Some x | None => description a end)
        (cover a) cat (status a) c (publisher a) (department a) (keywords a) (published a) (views a) (likes a)
        (n_comments a) (bookmarks a) (version a)]>) ≫= λ _,
      sync_for_article ids k (default [] names) ≫= λ _,
      _invalidate_article_cache s ≫= λ _, mret k
  | None =>
      cat ← _resolve_category_id category;
      insert_article new (MkArticle s t desc None cat "draft" c None None None
        (Some (default (clock w) publish_at)) 0 0 0 0 1) ≫= λ _,
      (match names with Some (n :: l) => sync_for_article ids new (n :: l) | _ => mret tt end) ≫= λ _,
      _invalidate_article_cache s ≫= λ _, mret new
  end.

Record ArticleCreate := MkCreate {
  n_slug : string; n_title : string; n_description : option string; n_cover : option string; n_content : string;
  n_category_id : uuid; n_keywords : list string; n_department : option string; n_publisher : option string;
  n_status : string; n_tags : list string
}.

(** [",".join(k.strip() for k in keywords if k.strip())] *)
Fixpoint join_comma (l : list string) : string :=
  match l with [] => "" | [s] => s | s :: l => (s +:+ "," +:+ join_comma l)%string end.

Definition joined (l : list string) : string := join_comma (filter (λ k, k ≠ ""%string) (strip <$> l)).

Definition create_article_ex (new : uuid) (ids : list uuid) (info : ArticleCreate) : M uuid :=
  w ← get_state;
  raise_when (slug_taken (n_slug info) (db w)) SLUG_CONFLICT ≫= λ _,
  _require_category (n_category_id info) ≫= λ _,
  insert_article new (MkArticle (n_slug info) (n_title info) (n_description info) (n_cover info) (n_category_id info)
    (n_status info) (n_content info) (n_publisher info) (n_department info) (Some (joined (n_keywords info)))
    (if bool_decide (n_status info = "published"%string) then Some (clock w) else None) 0 0 0 0 1) ≫= λ _,
  sync_for_article ids new (n_tags info) ≫= λ _,
  _invalidate_article_cache (n_slug info) ≫= λ _, mret new.

(** The fields that were sent; those that may be null are optional twice. *)
Record ArticleUpdate := MkUpdate {
  u_title : option string; u_description : option (option string); u_cover : option (option string);
  u_content : option string; u_category_id : option uuid; u_keyword_str : option (option string);
  u_status : option (option string); u_tags : option (list string); u_version : option Z
}.

(** [str(x)] *)
Definition str_of (o : option string) : string := default "None"%string o.

Definition sends_data (u : ArticleUpdate) : bool :=
  bool_decide (is_Some (u_title u)) || bool_decide (is_Some (u_description u)) || bool_decide (is_Some (u_cover u))
  || bool_decide (is_Some (u_content u)) || bool_decide (is_Some (u_category_id u))
  || bool_decide (is_Some (u_keyword_str u)) || bool_decide (is_Some (u_status u)).

Definition patched (u : ArticleUpdate) (now : Z) (a : Article) : Article :=
  MkArticle (slug a) (default (title a) (u_title u)) (default (description a) (u_description u))
    (default (cover a) (u_cover u)) (default (category_id a) (u_category_id u))
    (match u_status u with Some s => str_of s | None => status a end)
    (default (content a) (u_content u)) (publisher a) (department a)
    (match u_keyword_str u with Some k => Some (str_of k) | None => keywords a end)
    (if bool_decide (u_status u = Some (Some "published"%string) ∧ published a = None) then Some now else published a)
    (views a) (likes a) (n_comments a) (bookmarks a) (version a).

Definition with_version (v : Z) (a : Article) : Article :=
  MkArticle (slug a) (title a) (description a) (cover a) (category_id a) (status a) (content a) (publisher a)
    (department a) (keywords a) (published a) (views a) (likes a) (n_comments a) (bookmarks a) v.

(** [AsyncRepository.update_cas] on this table. *)
Definition update_cas (k : uuid) (expected_version : option Z) (values : Article → Article) : M () :=
  w ← get_state;
  match articles (db w) !! k with
  | None => raise VERSION_CONFLICT
  | Some a =>
      if decide (expected_version = None ∨ expected_version = Some (version a)) then
        raise_when (negb (int32 (version a + 1))) DataError ≫= λ _,
        raise_when (bool_decide (categories (db w) !! category_id (values a) = None)) IntegrityError ≫= λ _,
        modify (set_articles <[k := with_version (version a + 1) (values a)]>)
      else raise VERSION_CONFLICT
  end.

Definition update_article_ex (ids : list uuid) (s : string) (u : ArticleUpdate) : M uuid :=
  '(k, a) ← _get_article s;
  (match u_category_id u with Some c => _require_category c | None => mret tt end) ≫= λ _,
  w ← get_state;
  (if bool_decide (is_Some (u_version u)) || sends_data u || bool_decide (is_Some (u_tags u))
   then update_cas k (u_version u) (patched u (clock w)) else mret tt) ≫= λ _,
  (match u_tags u with Some l => sync_for_article ids k l | None => mret tt end) ≫= λ _,
  _invalidate_article_cache s ≫= λ _, mret k.

Definition soft_delete_article (s : string) : M () :=
  '(k, a) ← _get_article s;
  modify (set_articles <[k := with_status "rejected" None a]>) ≫= λ _,
  _invalidate_article_cache s.

(** The row, and by cascade its comments, likes and links. *)
Definition remove_article (k : uuid) (d : tables) : tables :=
  Tables (categories d) (delete k (articles d)) (filter (λ kc, k_article kc.2 ≠ k) (comments d))
    (filter (λ p, p.1 ≠ k) (like_rows d)) (tags d) (filter (λ p, p.1 ≠ k) (article_tag d)) (outbox d).

Definition hard_delete_article (s : string) : M () :=
  '(k, a) ← _get_article s;
  raise_when (bool_decide (status a = "published"%string ∨ status a = "pending"%string)) CANNOT_HARD_DELETE_PUBLISHED ≫= λ _,
  modify (set_db (remove_article k)) ≫= λ _,
  _invalidate_article_cache s.

Definition review_article (s : string) (approve : bool) : M () :=
  '(k, a) ← _get_article s;
  raise_when (bool_decide (status a ≠ "pending"%string)) INVALID_STATUS_TRANSITION ≫= λ _,
  w ← get_state;
  modify (set_articles <[k := if approve then with_status "published" (Some (clock w)) a
                              else with_status "rejected" (published a) a]>) ≫= λ _,
  _invalidate_article_cache s.

(** ** Likes *)

(** [existing] is what the request has read before; the two statements decide
    by themselves whether a row came or went. *)
Definition toggle_like_from (existing : bool) (k : uuid) (s : string) (u : uuid) : M (bool * nat) :=
  w ← get_state;
  (if existing then
     if bool_decide ((k, u) ∈ like_rows (db w)) then
       modify (set_likes (λ l, l ∖ {[(k, u)]})) ≫= λ _, bump_likes k (-1)
     else mret tt
   else
     if bool_decide ((k, u) ∈ like_rows (db w)) then mret tt else
     raise_when (bool_decide (articles (db w) !! k = None)) IntegrityError ≫= λ _,
     modify (set_likes (λ l, l ∪ {[(k, u)]})) ≫= λ _,
     bump_likes k 1 ≫= λ _,
     modify (enqueue_event u "like" k)) ≫= λ _,
  _invalidate_article_cache s ≫= λ _,
  w ← get_state;
  mret (negb existing, size (filter (λ p, p.1 = k) (like_rows (db w)))).

Definition toggle_article_like (s : string) (u : uuid) : M (bool * nat) :=
  '(k, a) ← _get_article s;
  w ← get_state;
  toggle_like_from (bool_decide ((k, u) ∈ like_rows (db w))) k s u.

(** ** Comments *)
Definition create_article_comment (new : uuid) (s : string) (u : uuid) (text : string) (parent : option uuid) : M uuid :=
  '(k, a) ← _get_article s;
  w ← get_state;
  (match parent with
   | None => mret tt
   | Some p =>
       c ← get_or_raise (comments (db w) !! p) COMMENT_NOT_FOUND;
       raise_when (bool_decide (k_article c ≠ k)) COMMENT_PARENT_MISMATCH
   end) ≫= λ _,
  raise_when (bool_decide (is_Some (comments (db w) !! new))) IntegrityError ≫= λ _,
  modify (set_comments <[new := MkComment k u text parent (clock w) None]>) ≫= λ _,
  bump_comments k 1 ≫= λ _,
  _invalidate_article_cache s ≫= λ _, mret new.

Definition answers_one (ids : gset uuid) (c : ArticleComment) : bool :=
  match k_parent c with Some p => bool_decide (p ∈ ids) | None => false end.

(** One turn of the recursive query: the answers to what it has so far. *)
Definition answers_of (m : gmap uuid ArticleComment) (ids : gset uuid) : gset uuid :=
  dom (filter (λ kc, answers_one ids kc.2 = true) m).

Fixpoint comment_tree (fuel : nat) (m : gmap uuid ArticleComment) (ids : gset uuid) : gset uuid :=
  match fuel with O => ids | S fuel => comment_tree fuel m (ids ∪ answers_of m ids) end.

Definition article_comment_tree (m : gmap uuid ArticleComment) (root : uuid) : gset uuid :=
  comment_tree (size m) m ({[root]} ∩ dom m).

Definition alive (m : gmap uuid ArticleComment) : gset uuid := dom (filter (λ kc, k_deleted kc.2 = None) m).

(** [SET deleted_at = now] on the rows of [ids] that have none. *)
Definition marked (now : Z) (ids : gset uuid) (m : gmap uuid ArticleComment) : gmap uuid ArticleComment :=
  map_imap (λ k c, Some (if bool_decide (k ∈ ids ∧ k_deleted c = None)
    then MkComment (k_article c) (k_user c) (k_content c) (k_parent c) (k_created c) (Some now) else c)) m.

Definition soft_delete_subtree (root : uuid) : M nat :=
  w ← get_state;
  let ids := article_comment_tree (comments (db w)) root in
  modify (set_comments (marked (clock w) ids)) ≫= λ _,
  mret (size (ids ∩ alive (comments (db w)))).

Definition delete_article_comment (i u : uuid) (as_admin : bool) : M uuid :=
  w ← get_state;
  c ← get_or_raise (comments (db w) !! i) COMMENT_NOT_FOUND;
  raise_when (negb as_admin && bool_decide (k_user c ≠ u)) FORBIDDEN ≫= λ _,
  removed ← soft_delete_subtree i;
  bump_comments (k_article c) (- Z.of_nat removed) ≫= λ _,
  w ← get_state;
  (match articles (db w) !! k_article c with
   | Some a => _invalidate_article_cache (slug a)
   | None => mret tt
   end) ≫= λ _,
  mret (k_user c).

Definition older (a b : uuid * ArticleComment) : Prop := (k_created a.2 ≤ k_created b.2)%Z.
#[export] Instance older_dec : RelDecision older.
Proof. intros a b. unfold older. apply _. Defined.

(** The profiles of the authors are left out of the answer. *)
Definition list_article_comments (s : string) : M (list (uuid * ArticleComment)) :=
  '(k, a) ← _get_article s;
  w ← get_state;
  mret (merge_sort older (filter (λ kc, k_article kc.2 = k ∧ k_deleted kc.2 = None) (map_to_list (comments (db w))))).

(** ** Categories *)
Record CategoryCreate := MkCategoryCreate { g_slug : string; g_title : string; g_sort : Z }.

Definition create_category_ex (new : uuid) (info : CategoryCreate) : M uuid :=
  w ← get_state;
  raise_when (category_slug_taken (g_slug info) None (db w)) SLUG_CONFLICT ≫= λ _,
  raise_when (negb (int32 (g_sort info))) DataError ≫= λ _,
  raise_when (bool_decide (is_Some (categories (db w) !! new))) IntegrityError ≫= λ _,
  modify (set_categories <[new := MkCategory (g_slug info) (g_title info) (g_sort info)]>) ≫= λ _,
  _invalidate_categories_cache ≫= λ _, mret new.

Definition update_category_ex (c : uuid) (patch : CategoryCreate) : M () :=
  w ← get_state;
  _ ← get_or_raise (categories (db w) !! c) CATEGORY_NOT_FOUND;
  raise_when (category_slug_taken (g_slug patch) (Some c) (db w)) SLUG_CONFLICT ≫= λ _,
  raise_when (negb (int32 (g_sort patch))) DataError ≫= λ _,
  modify (set_categories <[c := MkCategory (g_slug patch) (g_title patch) (g_sort patch)]>) ≫= λ _,
  _invalidate_categories_cache.

Definition in_category (c : uuid) (d : tables) : gmap uuid Article := filter (λ ka, category_id ka.2 = c) (articles d).

Definition delete_category_ex (c : uuid) : M () :=
  w ← get_state;
  _ ← get_or_raise (categories (db w) !! c) CATEGORY_NOT_FOUND;
  raise_when (bool_decide (size (in_category c (db w)) ≠ 0)) INVALID_INPUT ≫= λ _,
  modify (set_categories (delete c)) ≫= λ _,
  _invalidate_categories_cache.

(** ** Reads *)

(** [round(text_length / READING_SPEED_CPS)]: halves go to the even number. *)
Definition READING_SPEED_CPS : Z := 300.

Definition round_half_even (x y : Z) : Z :=
  let q := (x / y)%Z in let r := (x mod y)%Z in
  if decide (2 * r < y)%Z then q else if decide (y < 2 * r)%Z then (q + 1)%Z else
  if Z.even q then q else (q + 1)%Z.

Definition estimate_reading_time (text : string) : Z :=
  let text_length := Z.of_nat (String.length text) in
  if decide (text_length = 0)%Z then 0 else Z.max 1 (round_half_even text_length READING_SPEED_CPS).

Record ArticleDetail := MkDetail { d_article : Article; d_category_title : string; d_tags : list string; d_reading : Z }.

Definition _load_category_title (c : uuid) (d : tables) : string :=
  match categories d !! c with Some x => c_title x | None => "" end.

Definition get_article (s : string) : M ArticleDetail :=
  '(k, a) ← _get_article s;
  w ← get_state;
  mret (MkDetail a (_load_category_title (category_id a) (db w)) (tags_of k (db w)) (estimate_reading_time (content a))).

(** [published DESC NULLS LAST, id DESC] *)
Definition newer (a b : uuid * Article) : Prop :=
  match published a.2, published b.2 with
  | Some x, Some y => (y < x)%Z ∨ x = y ∧ (uuid_int b.1 ≤ uuid_int a.1)%N
  | Some _, None => True
  | None, Some _ => False
  | None, None => (uuid_int b.1 ≤ uuid_int a.1)%N
  end.
#[export] Instance newer_dec : RelDecision newer.
Proof. intros a b. unfold newer. destruct (published a.2), (published b.2); apply _. Defined.

Definition list_page (offset limit : nat) (d : tables) : list (uuid * Article) :=
  take limit (drop offset (merge_sort newer (map_to_list (articles d)))).

(** [list_articles] with [page >= 1]: the items and the total. *)
Definition list_articles (page limit : nat) (d : tables) : list (uuid * Article) * nat :=
  (list_page ((page - 1) * limit) limit d, size (articles d)).

Definition list_categories (d : tables) : list (ArticleCategory * nat) :=
  (λ kc, (kc.2, size (in_category kc.1 d))) <$> map_to_list (categories d).

Definition list_tags (d : tables) : list (string * nat) :=
  filter (λ t, t.2 ≠ 0) ((λ t, (t.1, size (filter (λ p, p.2 = t.2) (article_tag d)))) <$> map_to_list (tags d)).

(** ** Requests *)
Inductive request :=
  | Create (new : uuid) (ids : list uuid) (info : ArticleCreate)
  | Script (new : uuid) (ids : list uuid) (s t category c : string) (publish_at : option Z) (desc : option string)
      (names : option (list string))
  | Update (ids : list uuid) (s : string) (u : ArticleUpdate)
  | SoftDelete (s : string)
  | HardDelete (s : string)
  | Review (s : string) (approve : bool)
  | Like (s : string) (u : uuid)
  | LikeFrom (existing : bool) (k : uuid) (s : string) (u : uuid)
  | Comment (new : uuid) (s : string) (u : uuid) (text : string) (parent : option uuid)
  | DeleteComment (i u : uuid) (as_admin : bool)
  | CreateCategory (new : uuid) (info : CategoryCreate)
  | UpdateCategory (c : uuid) (patch : CategoryCreate)
  | DeleteCategory (c : uuid).

Definition ignore {A} (m : M A) : M () := _ ← m; mret tt.

Definition body (r : request) : M () :=
  match r with
  | Create new ids info => ignore (create_article_ex new ids info)
  | Script new ids s t category c publish_at desc names =>
      ignore (create_article new ids s t category c publish_at desc names)
  | Update ids s u => ignore (update_article_ex ids s u)
  | SoftDelete s => soft_delete_article s
  | HardDelete s => hard_delete_article s
  | Review s approve => review_article s approve
  | Like s u => ignore (toggle_article_like s u)
  | LikeFrom existing k s u => ignore (toggle_like_from existing k s u)
  | Comment new s u text parent => ignore (create_article_comment new s u text parent)
  | DeleteComment i u as_admin => ignore (delete_article_comment i u as_admin)
  | CreateCategory new info => ignore (create_category_ex new info)
  | UpdateCategory c patch => update_category_ex c patch
  | DeleteCategory c => delete_category_ex c
  end.

(** A request with its transaction, or time that passes. *)
Inductive step (w : world) : world → Prop :=
  | step_request r commits : step w (transaction commits (body r) w).2
  | step_time t : (clock w ≤ t)%Z → step w (World (db w) t (cache_log w)).

(** ** Consistency *)
Definition living (k : uuid) (d : tables) : gset uuid :=
  dom (filter (λ kc, k_article kc.2 = k ∧ k_deleted kc.2 = None) (comments d)).

Definition liked_by (k : uuid) (d : tables) : gset (uuid * uuid) := filter (λ p, p.1 = k) (like_rows d).

Record wf (d : tables) : Prop := MkWf {
  wf_category k a : articles d !! k = Some a → is_Some (categories d !! category_id a);
  wf_slug k1 a1 k2 a2 : articles d !! k1 = Some a1 → articles d !! k2 = Some a2 → slug a1 = slug a2 → k1 = k2;
  wf_category_slug k1 c1 k2 c2 :
    categories d !! k1 = Some c1 → categories d !! k2 = Some c2 → c_slug c1 = c_slug c2 → k1 = k2;
  wf_likes k u : (k, u) ∈ like_rows d → is_Some (articles d !! k);
  wf_like_count k a : articles d !! k = Some a → likes a = Z.of_nat (size (liked_by k d));
  wf_comment i c : comments d !! i = Some c → is_Some (articles d !! k_article c);
  wf_parent i c p : comments d !! i = Some c → k_parent c = Some p →
    ∃ c', comments d !! p = Some c' ∧ k_article c' = k_article c;
  wf_comment_count k a : articles d !! k = Some a → n_comments a = Z.of_nat (size (living k d));
  wf_link k t : (k, t) ∈ article_tag d → is_Some (articles d !! k) ∧ ∃ n, tags d !! n = Some t;
  wf_tag n1 n2 t : tags d !! n1 = Some t → tags d !! n2 = Some t → n1 = n2;
  wf_published k a : articles d !! k = Some a → status a = "published"%string → is_Some (published a)
}.

Lemma article_by_slug_Some s d k a : article_by_slug s d = Some (k, a) → articles d !! k = Some a ∧ slug a = s.
Proof. intros [Hin Hs]%find_Some_elem. apply elem_of_map_to_list in Hin. by apply bool_decide_eq_true in Hs. Qed.

Lemma slug_free s d : slug_taken s d = false → ∀ k a, articles d !! k = Some a → slug a ≠ s.
Proof.
  unfold slug_taken, article_by_slug. intros Hn%bool_decide_eq_false k a Hk Hs. apply Hn.
  destruct (List.find _ _) eqn:Hf; [done|]. exfalso.
  assert (bool_decide (slug (k, a).2 = s) = false) as H by (by apply (find_None_elem _ _ _ Hf), elem_of_map_to_list).
  by rewrite bool_decide_eq_true_2 in H.
Qed.

Lemma category_slug_free s ex d :
  category_slug_taken s ex d = false → ∀ k c, categories d !! k = Some c → c_slug c = s → Some k = ex.
Proof.
  unfold category_slug_taken. intros Hn k c Hk Hs. apply dec_stable. intros Hex.
  assert (existsb (λ kc : uuid * ArticleCategory, bool_decide (c_slug kc.2 = s ∧ Some kc.1 ≠ ex)) (map_to_list (categories d)) = true) as Ht.
  { apply existsb_exists. exists (k, c). split; [by apply list_elem_of_In, elem_of_map_to_list|].
    by apply bool_decide_eq_true. }
  congruence.
Qed.

(** The rows of an article are edited: what the other tables see stays. *)
Lemma wf_edit d k a a' :
  wf d → articles d !! k = Some a → slug a' = slug a → likes a' = likes a → n_comments a' = n_comments a →
  is_Some (categories d !! category_id a') → (status a' = "published"%string → is_Some (published a')) →
  wf (Tables (categories d) (<[k := a']> (articles d)) (comments d) (like_rows d) (tags d) (article_tag d) (outbox d)).
Proof.
  intros [] Hk Hs Hl Hc Hcat Hp. split; simpl; try done.
  - intros k' x [[<- <-]|[? ?]]%lookup_insert_Some; eauto.
  - intros k1 a1 k2 a2 [[<- <-]|[? ?]]%lookup_insert_Some [[<- <-]|[? ?]]%lookup_insert_Some; try done;
      rewrite ?Hs; intros Heq; [by apply (wf_slug0 k a k2 a2)|by apply (wf_slug0 k1 a1 k a)|by apply (wf_slug0 k1 a1 k2 a2)].
  - intros k' u Hin. destruct (decide (k' = k)) as [->|]; [rewrite lookup_insert_eq; eauto|]. rewrite lookup_insert_ne by done. eauto.
  - intros k' x [[<- <-]|[? ?]]%lookup_insert_Some; [rewrite Hl; eauto|eauto].
  - intros i c Hi. destruct (decide (k_article c = k)) as [->|]; [rewrite lookup_insert_eq; eauto|].
    rewrite lookup_insert_ne by done. eauto.
  - intros k' x [[<- <-]|[? ?]]%lookup_insert_Some; [rewrite Hc; eauto|eauto].
  - intros k' t Hin. destruct (wf_link0 k' t Hin) as [? ?]. split; [|done].
    destruct (decide (k' = k)) as [->|]; [rewrite lookup_insert_eq; eauto|]. by rewrite lookup_insert_ne by done.
  - intros k' x [[<- <-]|[? ?]]%lookup_insert_Some; eauto.
Qed.

Lemma wf_insert d k a :
  wf d → articles d !! k = None → slug_taken (slug a) d = false → likes a = 0%Z → n_comments a = 0%Z →
  is_Some (categories d !! category_id a) → (status a = "published"%string → is_Some (published a)) →
  wf (Tables (categories d) (<[k := a]> (articles d)) (comments d) (like_rows d) (tags d) (article_tag d) (outbox d)).
Proof.
  intros [] Hk Hs Hl Hc Hcat Hp. pose proof (slug_free _ _ Hs) as Hfree.
  assert (Hex : ∀ k', is_Some (articles d !! k') → is_Some (<[k:=a]> (articles d) !! k')).
  { intros k' H. destruct (decide (k' = k)) as [->|]; [rewrite lookup_insert_eq; eauto|]. by rewrite lookup_insert_ne. }
  split; simpl; try done; eauto.
  - intros k' x [[<- <-]|[? ?]]%lookup_insert_Some; eauto.
  - intros k1 a1 k2 a2 [[<- <-]|[? ?]]%lookup_insert_Some [[<- <-]|[? ?]]%lookup_insert_Some Heq; try done.
    + by destruct (Hfree k2 a2).
    + by destruct (Hfree k1 a1).
    + by apply (wf_slug0 k1 a1 k2 a2).
  - intros k' x [[<- <-]|[? ?]]%lookup_insert_Some; [|eauto]. rewrite Hl. unfold liked_by. simpl.
    replace (filter _ _) with (∅ : gset (uuid * uuid)); [by rewrite size_empty|]. symmetry. apply set_eq. intros [k' u].
    rewrite elem_of_filter. simpl. split; [|set_solver]. intros [-> Hin]. apply wf_likes0 in Hin. rewrite Hk in Hin.
    by destruct Hin.
  - intros k' x [[<- <-]|[? ?]]%lookup_insert_Some; [|eauto]. rewrite Hc. unfold living. simpl.
    replace (filter _ _) with (∅ : gmap uuid ArticleComment); [by rewrite dom_empty_L, size_empty|].
    symmetry. apply map_empty. intros i. apply map_lookup_filter_None. right. intros c Hi [Ha _]. simpl in Ha.
    apply wf_comment0 in Hi. rewrite Ha, Hk in Hi. by destruct Hi.
  - intros k' t Hin. destruct (wf_link0 k' t Hin). eauto.
  - intros k' x [[<- <-]|[? ?]]%lookup_insert_Some; eauto.
Qed.

Lemma wf_remove d k : wf d → wf (remove_article k d).
Proof.
  intros []. unfold remove_article. split; simpl; try done.
  - intros k' a [? ?]%lookup_delete_Some. eauto.
  - intros k1 a1 k2 a2 [? ?]%lookup_delete_Some [? ?]%lookup_delete_Some. eauto.
  - intros k' u [Hne Hin]%elem_of_filter. simpl in Hne. rewrite lookup_delete_ne by done. eauto.
  - intros k' a [Hne Hk]%lookup_delete_Some. rewrite (wf_like_count0 k' a Hk). do 2 f_equal. unfold liked_by. simpl.
    apply set_eq. intros [k2 u]. rewrite !elem_of_filter. simpl. naive_solver.
  - intros i c [Hi Hne]%map_lookup_filter_Some. simpl in Hne. rewrite lookup_delete_ne by done. eauto.
  - intros i c p [Hi Hne]%map_lookup_filter_Some Hp. destruct (wf_parent0 i c p Hi Hp) as (c' & Hc' & Ha).
    exists c'. split; [|done]. apply map_lookup_filter_Some. split; [done|]. simpl in *. congruence.
  - intros k' a [Hne Hk]%lookup_delete_Some. rewrite (wf_comment_count0 k' a Hk). do 2 f_equal. unfold living. simpl.
    f_equal. apply map_eq. intros i. apply option_eq. intros c. rewrite !map_lookup_filter_Some. simpl. naive_solver.
  - intros k' t [Hne Hin]%elem_of_filter. simpl in Hne. rewrite lookup_delete_ne by done. eauto.
  - intros k' a [? ?]%lookup_delete_Some. eauto.
Qed.

Lemma wf_like_rows d k x l n :
  wf d → articles d !! k = Some x → (∀ p, p.1 ≠ k → p ∈ l ↔ p ∈ like_rows d) →
  n = Z.of_nat (size (filter (λ p : uuid * uuid, p.1 = k) l)) →
  wf (Tables (categories d) (<[k := with_counts n (n_comments x) x]> (articles d)) (comments d) l (tags d) (article_tag d)
    (outbox d)).
Proof.
  intros Hwf Hk Hl Hn.
  assert (Hex : ∀ k', is_Some (articles d !! k') → is_Some (<[k:=with_counts n (n_comments x) x]> (articles d) !! k')).
  { intros k' H. destruct (decide (k' = k)) as [->|]; [rewrite lookup_insert_eq; eauto|]. by rewrite lookup_insert_ne. }
  pose proof Hwf as []. split; simpl; try done; eauto.
  - intros k' a [[<- <-]|[? ?]]%lookup_insert_Some; simpl; eauto.
  - intros k1 a1 k2 a2 [[<- <-]|[? ?]]%lookup_insert_Some [[<- <-]|[? ?]]%lookup_insert_Some; simpl; try done; intros Heq;
      [by apply (wf_slug0 k x k2 a2)|by apply (wf_slug0 k1 a1 k x)|by apply (wf_slug0 k1 a1 k2 a2)].
  - intros k' u Hin. destruct (decide (k' = k)) as [->|Hne]; [rewrite lookup_insert_eq; eauto|].
    apply Hex, (wf_likes0 k' u). by apply Hl.
  - intros k' a [[<- <-]|[Hne Hk']]%lookup_insert_Some; [done|]. rewrite (wf_like_count0 k' a Hk'). do 2 f_equal.
    unfold liked_by. simpl. apply set_eq. intros p. rewrite !elem_of_filter. split; intros [Hp Hin]; (split; [done|]).
    + apply Hl; [congruence|done].
    + apply Hl; [congruence|done].
  - intros k' a [[<- <-]|[? ?]]%lookup_insert_Some; simpl; eauto.
  - intros k' t Hin. destruct (wf_link0 k' t Hin). eauto.
  - intros k' a [[<- <-]|[? ?]]%lookup_insert_Some; simpl; eauto.
Qed.

Lemma wf_comment_rows d k x cs n :
  wf d → articles d !! k = Some x →
  (∀ i c, cs !! i = Some c → is_Some (articles d !! k_article c)) →
  (∀ i c p, cs !! i = Some c → k_parent c = Some p → ∃ c', cs !! p = Some c' ∧ k_article c' = k_article c) →
  (∀ i c, k_article c ≠ k → cs !! i = Some c ↔ comments d !! i = Some c) →
  n = Z.of_nat (size (dom (filter (λ kc : uuid * ArticleComment, k_article kc.2 = k ∧ k_deleted kc.2 = None) cs) : gset uuid)) →
  wf (Tables (categories d) (<[k := with_counts (likes x) n x]> (articles d)) cs (like_rows d) (tags d) (article_tag d)
    (outbox d)).
Proof.
  intros Hwf Hk Hart Hpar Hothers Hn.
  assert (Hex : ∀ k', is_Some (articles d !! k') → is_Some (<[k:=with_counts (likes x) n x]> (articles d) !! k')).
  { intros k' H. destruct (decide (k' = k)) as [->|]; [rewrite lookup_insert_eq; eauto|]. by rewrite lookup_insert_ne. }
  pose proof Hwf as []. split; simpl; try done; eauto.
  - intros k' a [[<- <-]|[? ?]]%lookup_insert_Some; simpl; eauto.
  - intros k1 a1 k2 a2 [[<- <-]|[? ?]]%lookup_insert_Some [[<- <-]|[? ?]]%lookup_insert_Some; simpl; try done; intros Heq;
      [by apply (wf_slug0 k x k2 a2)|by apply (wf_slug0 k1 a1 k x)|by apply (wf_slug0 k1 a1 k2 a2)].
  - intros k' a [[<- <-]|[? ?]]%lookup_insert_Some; simpl; eauto.
  - intros k' a [[<- <-]|[Hne Hk']]%lookup_insert_Some; [done|]. rewrite (wf_comment_count0 k' a Hk'). do 2 f_equal.
    unfold living. simpl. f_equal. apply map_eq. intros i. apply option_eq. intros c. rewrite !map_lookup_filter_Some. simpl.
    split; intros (Hi & Ha & Hd); (split; [|done]); apply Hothers; congruence.
  - intros k' t Hin. destruct (wf_link0 k' t Hin). eauto.
  - intros k' a [[<- <-]|[? ?]]%lookup_insert_Some; simpl; eauto.
Qed.

(** ** The branch below a comment *)
Definition answers (m : gmap uuid ArticleComment) (i j : uuid) : Prop := ∃ c, m !! j = Some c ∧ k_parent c = Some i.

Lemma elem_of_answers_of m ids j : j ∈ answers_of m ids ↔ ∃ i, i ∈ ids ∧ answers m i j.
Proof.
  unfold answers_of, answers. rewrite elem_of_dom. split.
  - intros [c Hc]. apply map_lookup_filter_Some in Hc as [Hj Ha]. simpl in Ha. unfold answers_one in Ha.
    destruct (k_parent c) as [p|] eqn:Hp; [|done]. apply bool_decide_eq_true in Ha. eauto.
  - intros (i & Hi & c & Hj & Hp). exists c. apply map_lookup_filter_Some. split; [done|]. simpl. unfold answers_one.
    rewrite Hp. by apply bool_decide_eq_true.
Qed.

Lemma tree_sound m n ids j : j ∈ comment_tree n m ids → ∃ i, i ∈ ids ∧ rtc (answers m) i j.
Proof.
  revert ids. induction n as [|n IH]; intros ids Hj; simpl in Hj; [by exists j|].
  apply IH in Hj as (i & [Hi|Hi]%elem_of_union & Hr); [by exists i|].
  apply elem_of_answers_of in Hi as (i' & Hi' & Ha). exists i'. split; [done|]. by eapply rtc_l.
Qed.

Lemma tree_grows m n ids : ids ⊆ comment_tree n m ids.
Proof. revert ids. induction n as [|n IH]; intros ids; simpl; [done|]. etrans; [|apply IH]. set_solver. Qed.

(** After as many turns as there are rows nothing new is found. *)
Lemma tree_closed m n ids :
  ids ⊆ dom m → size m < n + size ids + 1 → answers_of m (comment_tree n m ids) ⊆ comment_tree n m ids.
Proof.
  revert ids. induction n as [|n IH]; intros ids Hids Hsz; simpl.
  - assert (ids = dom m) as ->. { apply set_subseteq_size_eq; [done|]. rewrite size_dom. lia. }
    intros j (i & _ & c & Hj & _)%elem_of_answers_of. apply elem_of_dom. eauto.
  - destruct (decide (answers_of m ids ⊆ ids)) as [Hc|Hc].
    + replace (ids ∪ answers_of m ids) with ids by set_solver. revert Hc. clear. intros Hc.
      assert (comment_tree n m ids = ids) as ->; [|done].
      induction n as [|n IH]; [done|]. simpl. by replace (ids ∪ answers_of m ids) with ids by set_solver.
    + apply IH.
      * intros j [Hj|(i & _ & c & Hj & _)%elem_of_answers_of]%elem_of_union; [by apply Hids|]. apply elem_of_dom. eauto.
      * assert (size ids < size (ids ∪ answers_of m ids)); [|lia]. apply subset_size. set_solver.
Qed.

Lemma elem_of_tree m root j :
  is_Some (m !! root) → j ∈ article_comment_tree m root ↔ rtc (answers m) root j.
Proof.
  intros Hroot. assert (Hr : {[root]} ∩ dom m = {[root]}) by (apply elem_of_dom in Hroot; set_solver).
  unfold article_comment_tree. rewrite Hr. split.
  - intros (i & ->%elem_of_singleton & Hj)%tree_sound. done.
  - intros Hj. revert j Hj. refine (rtc_ind_r _ root _ _).
    + apply tree_grows. by apply elem_of_singleton.
    + intros y z _ Hyz Hy. apply (tree_closed m (size m) {[root]}); [|rewrite size_singleton; lia|].
      * intros y' ->%elem_of_singleton. by apply elem_of_dom.
      * apply elem_of_answers_of. eauto.
Qed.

Lemma tree_in_dom m root j : j ∈ article_comment_tree m root → is_Some (m !! j).
Proof.
  intros (i & Hi & Hr)%tree_sound. apply rtc_inv_r in Hr as [->|(y & _ & c & Hc & _)]; [|by rewrite Hc].
  apply elem_of_dom. set_solver.
Qed.

(** A branch lies in one article. *)
Lemma tree_article d root c j c' :
  wf d → comments d !! root = Some c → rtc (answers (comments d)) root j → comments d !! j = Some c' →
  k_article c' = k_article c.
Proof.
  intros Hwf Hc Hr. revert c'. revert j Hr. refine (rtc_ind_r _ root _ _); [congruence|].
  intros y z _ (cz & Hz & Hp) IH c' Hc'. destruct (wf_parent d Hwf z cz y Hz Hp) as (cy & Hy & Ha).
  rewrite <- (IH cy Hy). congruence.
Qed.

Lemma lookup_branch_marked now ids m i c' :
  marked now ids m !! i = Some c' ↔ ∃ c, m !! i = Some c ∧
    c' = (if bool_decide (i ∈ ids ∧ k_deleted c = None)
          then MkComment (k_article c) (k_user c) (k_content c) (k_parent c) (k_created c) (Some now) else c).
Proof.
  unfold marked. rewrite map_lookup_imap. destruct (m !! i) as [c|]; simpl; [|naive_solver].
  split; [intros [=<-]; eauto|intros (? & [=<-] & ->); done].
Qed.

Lemma marked_living d now ids k :
  dom (filter (λ kc, k_article kc.2 = k ∧ k_deleted kc.2 = None) (marked now ids (comments d))) = living k d ∖ ids.
Proof.
  apply set_eq. intros i. rewrite elem_of_difference. unfold living. rewrite !elem_of_dom. split.
  - intros [c' Hc']. apply map_lookup_filter_Some in Hc' as [Hm [Ha Hd]]. apply lookup_branch_marked in Hm as (c & Hc & ->). simpl in *.
    case_bool_decide as Hb; [done|]. split; [|naive_solver]. exists c. by apply map_lookup_filter_Some.
  - intros [[c Hc] Hn]. apply map_lookup_filter_Some in Hc as [Hc [Ha Hd]]. exists c. apply map_lookup_filter_Some.
    split; [|done]. apply lookup_branch_marked. exists c. split; [done|]. by rewrite bool_decide_eq_false_2 by naive_solver.
Qed.

(** ** Tags *)
Definition injective (m : gmap string uuid) : Prop := ∀ n1 n2 t, m !! n1 = Some t → m !! n2 = Some t → n1 = n2.

Lemma elem_of_tag_names seen names n : n ∈ tag_names_from seen names ↔ n ∈ names ∧ n ≠ ""%string ∧ n ∉ seen.
Proof.
  revert seen. induction names as [|x names IH]; intros seen; simpl; [set_solver|].
  case_bool_decide as Hx; rewrite ?elem_of_cons, IH; [|set_solver].
  destruct (decide (n = x)) as [->|]; set_solver.
Qed.

Lemma NoDup_tag_names seen names : NoDup (tag_names_from seen names).
Proof.
  revert seen. induction names as [|x names IH]; intros seen; simpl; [constructor|].
  case_bool_decide; [|apply IH]. constructor; [|apply IH]. rewrite elem_of_tag_names. set_solver.
Qed.

Lemma wp_upsert names ids w :
  injective (tags (db w)) →
  wp (upsert_tags names ids)
    (λ _ w', ∃ m, w' = set_tags (λ _, m) w ∧ tags (db w) ⊆ m ∧ injective m) (λ _ _, True) w.
Proof.
  revert ids w. induction names as [|n names IH]; intros ids w Hinj.
  { simpl. apply wp_ret. exists (tags (db w)). split; [by destruct w as [[]]|done]. }
  destruct ids as [|i ids].
  { simpl. apply wp_ret. exists (tags (db w)). split; [by destruct w as [[]]|done]. }
  simpl. wp_step. wp_step. wp_step. wp_step; [done|]. destruct (tags (db w) !! n) as [t|] eqn:Hn; [by apply IH|].
  wp_step. wp_step; [done|]. wp_step. wp_step. eapply wp_mono; [apply IH| |done].
  - simpl. assert (Hfresh : ∀ n', tags (db w) !! n' ≠ Some i).
    { intros n' Hn'. match goal with H : existsb _ _ = false |- _ => apply not_true_iff_false in H; apply H end.
      apply existsb_exists. exists (n', i). split; [|by apply bool_decide_eq_true].
      by apply list_elem_of_In, elem_of_map_to_list. }
    intros n1 n2 t' H1%lookup_insert_Some H2%lookup_insert_Some.
    destruct H1 as [[Hn1 Ht1]|[_ H1]], H2 as [[Hn2 Ht2]|[_ H2]]; [congruence| | |by apply (Hinj n1 n2 t')].
    + rewrite <- Ht1 in H2. by apply Hfresh in H2.
    + rewrite <- Ht2 in H1. by apply Hfresh in H1.
  - simpl. intros _ w' (m & -> & Hsub & Hm). exists m. split_and!; [done| |done].
    etrans; [|exact Hsub]. by apply insert_subseteq.
Qed.

(** Fresh ids, as many as there are names, are enough. *)
Lemma upsert_runs names ids w :
  (∀ n, n ∈ names → String.length n ≤ 50) → length names ≤ length ids → NoDup ids →
  (∀ n t, tags (db w) !! n = Some t → t ∉ ids) →
  ∃ m, upsert_tags names ids w = (Ok tt, set_tags (λ _, m) w) ∧ tags (db w) ⊆ m ∧ ∀ n, n ∈ names → is_Some (m !! n).
Proof.
  revert ids w. induction names as [|n names IH]; intros ids w Hlen Hids Hnd Hfresh.
  { exists (tags (db w)). split_and!; [by destruct w as [[]]|done|]. by intros n ?%elem_of_nil. }
  destruct ids as [|i ids]; [simpl in Hids; lia|]. apply NoDup_cons in Hnd as [Hi Hnd]. simpl in Hids.
  cbn [upsert_tags]. autorewrite with run.
  rewrite bool_decide_eq_false_2 by (specialize (Hlen n ltac:(left)); lia).
  destruct (tags (db w) !! n) as [t|] eqn:Hn.
  - destruct (IH ids w) as (m & Hw' & Hsub & Hall); [set_solver|lia|done|set_solver|]. exists m. split_and!; [done|done|].
    intros n' [->|Hn']%elem_of_cons; [|by apply Hall]. exists t. by apply (lookup_weaken _ _ _ _ Hn).
  - assert (existsb (λ t : string * uuid, bool_decide (t.2 = i)) (map_to_list (tags (db w))) = false) as Hno.
    { apply not_true_iff_false. rewrite existsb_exists. intros ([n' t] & Hin & Ht). apply bool_decide_eq_true in Ht.
      simpl in Ht. subst t. apply list_elem_of_In, elem_of_map_to_list in Hin. apply Hfresh in Hin. set_solver. }
    autorewrite with run. rewrite Hno. autorewrite with run.
    destruct (IH ids (set_tags <[n:=i]> w)) as (m & Hw' & Hsub & Hall); [set_solver|lia|done| |].
    { simpl. intros n' t [[<- <-]|[? Hn']]%lookup_insert_Some; [done|]. apply Hfresh in Hn'. set_solver. }
    exists m. rewrite Hw'. simpl in Hsub. split_and!; [done| |].
    + etrans; [|exact Hsub]. by apply insert_subseteq.
    + intros n' [->|Hn']%elem_of_cons; [|by apply Hall]. exists i. eapply lookup_weaken; [|exact Hsub].
      by rewrite lookup_insert_eq.
Qed.

Lemma ids_of_spec m names l t : ids_of m names = Some l → t ∈ l ↔ ∃ n, n ∈ names ∧ m !! n = Some t.
Proof.
  revert l. induction names as [|n names IH]; intros l H; simpl in H; [injection H as <-; set_solver|].
  destruct (m !! n) as [i|] eqn:Hn; [|done]. simpl in H. destruct (ids_of m names) as [l'|]; [|done]. injection H as <-.
  rewrite elem_of_cons, (IH l' eq_refl). split; [|set_solver]. intros [->|(n' & ? & ?)]; set_solver.
Qed.

Lemma ids_of_some m names : (∀ n, n ∈ names → is_Some (m !! n)) → is_Some (ids_of m names).
Proof.
  induction names as [|n names IH]; intros H; simpl; [eauto|]. destruct (H n ltac:(left)) as [i ->]. simpl.
  destruct IH as [l ->]; [set_solver|]. simpl. eauto.
Qed.

Lemma wf_tag_rows d m l :
  wf d → injective m → (∀ k t, (k, t) ∈ l → is_Some (articles d !! k) ∧ ∃ n, m !! n = Some t) →
  wf (Tables (categories d) (articles d) (comments d) (like_rows d) m l (outbox d)).
Proof. intros [] Hm Hl. by split. Qed.

Lemma wp_sync ids a names w :
  wf (db w) → is_Some (articles (db w) !! a) → wp (sync_for_article ids a names) (λ _ w', wf (db w')) (λ _ _, True) w.
Proof.
  intros Hwf Ha. unfold sync_for_article. destruct (bool_decide _); [by wp_step|].
  wp_step. wp_step. wp_step. eapply wp_mono; [apply wp_upsert; exact (wf_tag _ Hwf)| |done]. simpl.
  intros _ w' (m & -> & Hsub & Hm). wp_step. wp_step. wp_step. wp_step; [done|]. wp_step. simpl.
  apply (wf_tag_rows (db w)); [done|done|]. intros k t [Hk Hin]%elem_of_filter. simpl in Hk.
  apply elem_of_union in Hin as [Hin|Hin].
  - destruct (wf_link _ Hwf k t Hin) as [? [n Hn]]. split; [done|]. exists n. by apply (lookup_weaken _ _ _ _ Hn).
  - apply elem_of_list_to_set, list_elem_of_fmap in Hin as (t' & [= -> ->] & Ht). split; [done|].
    match goal with H : ids_of _ _ = Some _ |- _ => apply (ids_of_spec _ _ _ _ H) in Ht as (n & _ & ?) end. eauto.
Qed.

Lemma filter_union_one (k u : uuid) (l : gset (uuid * uuid)) :
  filter (λ p : uuid * uuid, p.1 = k) (l ∪ {[(k, u)]}) = {[(k, u)]} ∪ filter (λ p : uuid * uuid, p.1 = k) l.
Proof. apply set_eq. intros p. rewrite !elem_of_union, !elem_of_filter, elem_of_union, !elem_of_singleton. naive_solver. Qed.

Lemma wf_outbox d o : wf d → wf (Tables (categories d) (articles d) (comments d) (like_rows d) (tags d) (article_tag d) o).
Proof. intros []. by split. Qed.

Lemma wp_toggle existing k s u w : wf (db w) → wp (toggle_like_from existing k s u) (λ _ w', wf (db w')) (λ _ _, True) w.
Proof.
  intros Hwf. unfold toggle_like_from, _invalidate_article_cache. wp_step. wp_step. wp_step.
  assert (Hend : ∀ w', wf (db w') → wp ((modify (drop_cached [Lists; BySlug s; Categories]) : M ()) ≫= λ _,
    w ← get_state; mret (negb existing, size (filter (λ p, p.1 = k) (like_rows (db w))))) (λ _ w', wf (db w')) (λ _ _, True) w').
  { intros w' Hw'. by repeat (wp_step; simpl). }
  destruct existing; case_bool_decide as Hin.
  - unfold bump_likes. wp_step. wp_step. wp_step. wp_step. simpl.
    pose proof (wf_likes _ Hwf k u Hin) as [x Hx]. rewrite Hx. wp_step. wp_step; [done|]. wp_step. apply Hend. simpl.
    apply (wf_like_rows (db w) k x); [done|done| |].
    + intros [k' u'] Hne. simpl in Hne. set_solver.
    + rewrite (wf_like_count _ Hwf k x Hx). unfold liked_by.
      replace (filter (λ p : uuid * uuid, p.1 = k) (like_rows (db w) ∖ {[(k, u)]}))
        with (filter (λ p : uuid * uuid, p.1 = k) (like_rows (db w)) ∖ {[(k, u)]}) by set_solver.
      assert ({[(k, u)]} ⊆ filter (λ p : uuid * uuid, p.1 = k) (like_rows (db w))) as Hsub by set_solver.
      rewrite size_difference by done. pose proof (subseteq_size _ _ Hsub) as Hle. rewrite size_singleton in *. lia.
  - wp_step. by apply Hend.
  - wp_step. by apply Hend.
  - wp_step. wp_step; [done|]. wp_step. wp_step. unfold bump_likes. wp_step. wp_step. wp_step. simpl.
    match goal with H : bool_decide (articles _ !! k = None) = false |- _ => apply bool_decide_eq_false in H end.
    destruct (articles (db w) !! k) as [x|] eqn:Hx; [|done]. wp_step. wp_step; [done|]. wp_step. wp_step. apply Hend. simpl.
    match goal with H : Some x ≠ None |- _ => clear H end.
    refine (wf_outbox _ _ (wf_like_rows (db w) k x (like_rows (db w) ∪ {[(k, u)]}) _ Hwf Hx _ _)).
    + intros [k' u'] Hne. simpl in Hne. rewrite elem_of_union, elem_of_singleton. naive_solver.
    + rewrite (wf_like_count _ Hwf k x Hx). unfold liked_by.
      rewrite filter_union_one, size_union, size_singleton; [lia|]. intros p ->%elem_of_singleton [_ ?]%elem_of_filter. done.
Qed.

Lemma wf_new_comment d k x new c :
  wf d → articles d !! k = Some x → comments d !! new = None → k_article c = k → k_deleted c = None →
  (∀ p, k_parent c = Some p → ∃ c', comments d !! p = Some c' ∧ k_article c' = k) →
  wf (Tables (categories d) (<[k := with_counts (likes x) (n_comments x + 1) x]> (articles d)) (<[new := c]> (comments d))
    (like_rows d) (tags d) (article_tag d) (outbox d)).
Proof.
  intros Hwf Hx Hnew Hk Hd Hp.
  assert (Hkeep : ∀ p c', comments d !! p = Some c' → <[new:=c]> (comments d) !! p = Some c').
  { intros p c' Hc'. rewrite lookup_insert_ne; [done|]. by intros ->; rewrite Hnew in Hc'. }
  apply wf_comment_rows; [done|done| | | |].
  - intros i c' [[<- <-]|[? Hi]]%lookup_insert_Some; [rewrite Hk; eauto|]. by apply (wf_comment _ Hwf i c').
  - intros i c' p [[<- <-]|[? Hi]]%lookup_insert_Some Hpar.
    + destruct (Hp p Hpar) as (c' & ? & ?). exists c'. split; [by apply Hkeep|congruence].
    + destruct (wf_parent _ Hwf i c' p Hi Hpar) as (c'' & ? & ?). exists c''. split; [by apply Hkeep|done].
  - intros i c' Hne. rewrite lookup_insert_Some. naive_solver.
  - rewrite (wf_comment_count _ Hwf k x Hx). unfold living. rewrite map_filter_insert_True by done.
    rewrite dom_insert_L, size_union, size_singleton; [lia|]. intros i Hi%elem_of_singleton Hin. subst i.
    apply elem_of_dom in Hin as [c' Hc']. apply map_lookup_filter_Some in Hc' as [Hc' _]. congruence.
Qed.

Lemma wf_mark d root c x now :
  wf d → comments d !! root = Some c → articles d !! k_article c = Some x →
  let ids := article_comment_tree (comments d) root in
  wf (Tables (categories d)
    (<[k_article c := with_counts (likes x) (n_comments x + - Z.of_nat (size (ids ∩ alive (comments d)))) x]> (articles d))
    (marked now ids (comments d)) (like_rows d) (tags d) (article_tag d) (outbox d)).
Proof.
  intros Hwf Hc Hx ids.
  assert (Hids : ∀ i c', i ∈ ids → comments d !! i = Some c' → k_article c' = k_article c).
  { intros i c' Hi Hc'. apply elem_of_tree in Hi; [|by rewrite Hc]. by apply (tree_article d root c i c'). }
  assert (Hart : ∀ i c', marked now ids (comments d) !! i = Some c' →
    ∃ c0, comments d !! i = Some c0 ∧ k_article c' = k_article c0 ∧ k_parent c' = k_parent c0).
  { intros i c' (c0 & Hc0 & ->)%lookup_branch_marked. exists c0. by case_bool_decide. }
  assert (Hback : ∀ i c0, comments d !! i = Some c0 → ∃ c', marked now ids (comments d) !! i = Some c' ∧ k_article c' = k_article c0).
  { intros i c0 Hc0. eexists. split; [apply lookup_branch_marked; eauto|]. by case_bool_decide. }
  apply wf_comment_rows; [done|done| | | |].
  - intros i c' Hi. destruct (Hart i c' Hi) as (c0 & Hc0 & -> & _). by apply (wf_comment _ Hwf i c0).
  - intros i c' p Hi Hp. destruct (Hart i c' Hi) as (c0 & Hc0 & -> & Hpar). rewrite Hpar in Hp.
    destruct (wf_parent _ Hwf i c0 p Hc0 Hp) as (cp & Hcp & <-). by apply Hback.
  - intros i c' Hne. rewrite lookup_branch_marked. split.
    + intros (c0 & Hc0 & ->). case_bool_decide as Hb; [|done]. destruct Hb as [Hi _]. simpl in Hne. by destruct (Hids i c0).
    + intros Hi. exists c'. split; [done|]. rewrite bool_decide_eq_false_2; [done|]. intros [Hin _]. by destruct (Hids i c').
  - rewrite marked_living, (wf_comment_count _ Hwf _ _ Hx).
    assert (living (k_article c) d ∖ ids = living (k_article c) d ∖ (ids ∩ alive (comments d))) as ->.
    { apply set_eq. intros i. rewrite !elem_of_difference, elem_of_intersection. split; [naive_solver|]. intros [Hi Hn]. split; [done|].
      intros Hin. apply Hn. split; [done|]. unfold living, alive in *. apply elem_of_dom in Hi as [c' Hi].
      apply map_lookup_filter_Some in Hi as [Hi [_ Hd]]. apply elem_of_dom. exists c'. by apply map_lookup_filter_Some. }
    assert (Hsub : ids ∩ alive (comments d) ⊆ living (k_article c) d).
    { intros i [Hi Ha]%elem_of_intersection. unfold living, alive in *. apply elem_of_dom in Ha as [c' Ha].
      apply map_lookup_filter_Some in Ha as [Ha Hd]. apply elem_of_dom. exists c'. apply map_lookup_filter_Some.
      split; [done|]. split; [by apply (Hids i c')|done]. }
    clearbody ids. revert Hsub. generalize (living (k_article c) d), (ids ∩ alive (comments d)). intros X Y Hsub.
    rewrite size_difference by done. pose proof (subseteq_size _ _ Hsub). lia.
Qed.

Lemma wf_categories d cs :
  wf d → (∀ k a, articles d !! k = Some a → is_Some (cs !! category_id a)) →
  (∀ k1 c1 k2 c2, cs !! k1 = Some c1 → cs !! k2 = Some c2 → c_slug c1 = c_slug c2 → k1 = k2) →
  wf (Tables cs (articles d) (comments d) (like_rows d) (tags d) (article_tag d) (outbox d)).
Proof. intros []. by split. Qed.

Lemma category_slugs_insert d k c ex :
  wf d → category_slug_taken (c_slug c) ex d = false → (ex = None ∧ categories d !! k = None ∨ ex = Some k) →
  ∀ k1 c1 k2 c2, <[k:=c]> (categories d) !! k1 = Some c1 → <[k:=c]> (categories d) !! k2 = Some c2 →
    c_slug c1 = c_slug c2 → k1 = k2.
Proof.
  intros Hwf Hfree Hex k1 c1 k2 c2. pose proof (category_slug_free _ _ _ Hfree) as Hf.
  intros [[<- <-]|[Hn1 H1]]%lookup_insert_Some [[<- <-]|[Hn2 H2]]%lookup_insert_Some Heq; try done.
  - apply Hf in H2; [|done]. naive_solver.
  - apply Hf in H1; [|done]. naive_solver.
  - by apply (wf_category_slug _ Hwf k1 c1 k2 c2).
Qed.

#[local] Hint Extern 0 (wp (modify _) _ _ _) => wp_step : core.

Ltac slug_row := match goal with H : article_by_slug _ _ = Some (_, _) |- _ => apply article_by_slug_Some in H as [? ?] end.

Lemma wp_create_article_ex new ids info w :
  wf (db w) → wp (create_article_ex new ids info) (λ _ w', wf (db w')) (λ _ _, True) w.
Proof.
  intros Hwf. unfold create_article_ex, _require_category, insert_article, _invalidate_article_cache.
  wp_step. wp_step. wp_step. wp_step; [done|]. wp_step. wp_step. wp_step. wp_step; [done|].
  wp_step. wp_step. wp_step. wp_step. wp_step; [done|]. wp_step. wp_step.
  apply orb_false_iff in H1 as [H1 Hcat]. apply orb_false_iff in H1 as [Hnew Hslug].
  apply bool_decide_eq_false in Hcat, Hnew. apply eq_None_not_Some in Hnew. apply not_eq_None_Some in Hcat.
  eapply wp_mono; [apply wp_sync|intros ? ? ?; by repeat (wp_step; simpl)|done]; simpl.
  - apply wf_insert; try done. simpl. intros ->. by rewrite bool_decide_eq_true_2.
  - rewrite lookup_insert_eq. eauto.
Qed.

Lemma wp_create_article new ids s t category c publish_at desc names w :
  wf (db w) → wp (create_article new ids s t category c publish_at desc names) (λ _ w', wf (db w')) (λ _ _, True) w.
Proof.
  intros Hwf. unfold create_article, _resolve_category_id, insert_article, _invalidate_article_cache.
  wp_step. wp_step. destruct (article_by_slug s (db w)) as [[k a]|] eqn:Ha.
  - slug_row. wp_step. wp_step. wp_step. wp_step; [done|]. wp_step. wp_step. wp_step. wp_step. wp_step.
    eapply wp_mono; [apply wp_sync|intros ? ? ?; by repeat (wp_step; simpl)|done]; simpl.
    + apply (wf_edit (db w) k a); try done; simpl.
      * match goal with H : category_by_slug _ _ = Some _ |- _ => unfold category_by_slug in H end.
        apply fmap_Some in H1 as ([k' x] & Hf & ->). apply find_Some_elem in Hf as [Hf _].
        apply elem_of_map_to_list in Hf. simpl. by rewrite Hf.
      * by apply (wf_published _ Hwf k).
    + rewrite lookup_insert_eq. eauto.
  - wp_step. wp_step. wp_step. wp_step; [done|]. wp_step. wp_step. wp_step. wp_step. wp_step; [done|]. wp_step.
    wp_step. apply orb_false_iff in H0 as [H0 Hcat]. apply orb_false_iff in H0 as [Hnew Hslug].
    apply bool_decide_eq_false in Hcat, Hnew. apply eq_None_not_Some in Hnew. apply not_eq_None_Some in Hcat.
    assert (Hins : wf (db (set_articles <[new := MkArticle s t desc None a "draft" c None None None
      (Some (default (clock w) publish_at)) 0 0 0 0 1]> w))) by (simpl; by apply wf_insert).
    destruct names as [[|n l]|]; [wp_step; by repeat (wp_step; simpl)| |wp_step; by repeat (wp_step; simpl)].
    eapply wp_mono; [apply wp_sync|intros ? ? ?; by repeat (wp_step; simpl)|done]; [done|]. simpl.
    rewrite lookup_insert_eq. eauto.
Qed.

Lemma wp_update_cas k v values w :
  wf (db w) → (∀ a, articles (db w) !! k = Some a →
    slug (values a) = slug a ∧ likes (values a) = likes a ∧ n_comments (values a) = n_comments a
    ∧ (status (values a) = "published"%string → is_Some (published (values a)))) →
  wp (update_cas k v values) (λ _ w', wf (db w') ∧ is_Some (articles (db w') !! k)) (λ _ _, True) w.
Proof.
  intros Hwf Hv. unfold update_cas. wp_step. wp_step. destruct (articles (db w) !! k) as [a|] eqn:Ha; [|by wp_step].
  destruct (decide _); [|by wp_step]. destruct (Hv a eq_refl) as (Hs & Hl & Hc & Hp).
  wp_step. wp_step; [done|]. wp_step. wp_step; [done|]. wp_step. simpl.
  match goal with H : bool_decide (_ = None) = false |- _ => apply bool_decide_eq_false, not_eq_None_Some in H end.
  split; [|rewrite lookup_insert_eq; eauto]. by apply (wf_edit (db w) k a).
Qed.

Lemma wp_update ids s u w : wf (db w) → wp (update_article_ex ids s u) (λ _ w', wf (db w')) (λ _ _, True) w.
Proof.
  intros Hwf. unfold update_article_ex, _get_article, _invalidate_article_cache, _require_category.
  wp_step. wp_step. wp_step. wp_step; [done|]. destruct a as [k a]. slug_row.
  assert (Hrest : wp (w ← get_state;
    (if bool_decide (is_Some (u_version u)) || sends_data u || bool_decide (is_Some (u_tags u))
     then update_cas k (u_version u) (patched u (clock w)) else mret tt) ≫= λ _,
    (match u_tags u with Some l => sync_for_article ids k l | None => mret tt end) ≫= λ _,
    modify (drop_cached [Lists; BySlug s; Categories]) ≫= λ _, (mret k : M uuid))
    (λ _ w', wf (db w')) (λ _ _, True) w).
  { wp_step. wp_step. wp_step.
    assert (Hend : ∀ w', wf (db w') ∧ is_Some (articles (db w') !! k) → wp
      ((match u_tags u with Some l => sync_for_article ids k l | None => mret tt end) ≫= λ _,
       modify (drop_cached [Lists; BySlug s; Categories]) ≫= λ _, (mret k : M uuid)) (λ _ w', wf (db w')) (λ _ _, True) w').
    { intros w' [Hw' Hk]. wp_step. destruct (u_tags u); [|wp_step; by repeat (wp_step; simpl)].
      eapply wp_mono; [by apply wp_sync|intros ? ? ?; by repeat (wp_step; simpl)|done]. }
    destruct (_ || _); [|wp_step; apply Hend; eauto].
    eapply wp_mono; [apply wp_update_cas; [done|]|intros ? ? ?; by apply Hend|done].
    intros a' Ha'. split_and!; [done..|]. unfold patched. simpl. intros Hst.
    destruct (u_status u) as [st|]; simpl in Hst.
    - destruct (published a') eqn:Hp; [by rewrite bool_decide_eq_false_2 by naive_solver|].
      destruct st as [st|]; simpl in Hst; [|done]. subst st. by rewrite bool_decide_eq_true_2.
    - rewrite bool_decide_eq_false_2 by naive_solver. by apply (wf_published _ Hwf k). }
  wp_step. destruct (u_category_id u); [|wp_step; exact Hrest].
  wp_step. wp_step. wp_step; [done|]. exact Hrest.
Qed.

Lemma wp_body r w : wf (db w) → wp (body r) (λ _ w', wf (db w')) (λ _ _, True) w.
Proof.
  intros Hwf.
  assert (Hign : ∀ A (m : M A), wp m (λ _ w', wf (db w')) (λ _ _, True) w → wp (ignore m) (λ _ w', wf (db w')) (λ _ _, True) w).
  { intros A m Hm. unfold ignore. wp_step. eapply wp_mono; [done| |done]. intros ? ? ?. by wp_step. }
  destruct r; simpl.
  - by apply Hign, wp_create_article_ex.
  - by apply Hign, wp_create_article.
  - by apply Hign, wp_update.
  - unfold soft_delete_article, _get_article, _invalidate_article_cache. wp_step. wp_step. wp_step. wp_step; [done|].
    destruct a as [k a]. slug_row. wp_step. wp_step. wp_step. simpl.
    apply (wf_edit (db w) k a); try done; simpl. by apply (wf_category _ Hwf k).
  - unfold hard_delete_article, _get_article, _invalidate_article_cache. wp_step. wp_step. wp_step. wp_step; [done|].
    destruct a as [k a]. slug_row. wp_step. wp_step; [done|]. wp_step. wp_step. wp_step. simpl. by apply wf_remove.
  - unfold review_article, _get_article, _invalidate_article_cache. wp_step. wp_step. wp_step. wp_step; [done|].
    destruct a as [k a]. slug_row. wp_step. wp_step; [done|]. wp_step. wp_step. wp_step. wp_step. wp_step. simpl.
    apply (wf_edit (db w) k a); try done; destruct approve; simpl; try done; eauto; by apply (wf_category _ Hwf k).
  - apply Hign. unfold toggle_article_like, _get_article. wp_step. wp_step. wp_step. wp_step; [done|]. destruct a as [k a].
    wp_step. wp_step. by apply wp_toggle.
  - by apply Hign, wp_toggle.
  - apply Hign. unfold create_article_comment, _get_article, bump_comments, _invalidate_article_cache.
    wp_step. wp_step. wp_step. wp_step; [done|]. destruct a as [k x]. slug_row. wp_step. wp_step.
    assert (Hrest : (∀ p, parent = Some p → ∃ c', comments (db w) !! p = Some c' ∧ k_article c' = k) →
      wp (raise_when (bool_decide (is_Some (comments (db w) !! new))) IntegrityError ≫= λ _,
        modify (set_comments <[new := MkComment k u text parent (clock w) None]>) ≫= λ _,
        bump_comments k 1 ≫= λ _, modify (drop_cached [Lists; BySlug s; Categories]) ≫= λ _, (mret new : M uuid))
      (λ _ w', wf (db w')) (λ _ _, True) w).
    { intros Hp. wp_step. wp_step; [done|]. wp_step. wp_step. unfold bump_comments. wp_step. wp_step. wp_step. simpl.
      match goal with H : articles (db w) !! k = Some x |- _ => rewrite H end. wp_step. wp_step; [done|]. wp_step. wp_step.
      wp_step. wp_step. simpl. apply (wf_new_comment (db w) k x); try done.
      match goal with H : bool_decide (is_Some _) = false |- _ => apply bool_decide_eq_false, eq_None_not_Some in H end. done. }
    wp_step. destruct parent as [p|]; [|wp_step; by apply Hrest].
    wp_step. wp_step; [done|]. wp_step; [done|]. apply Hrest. intros p' [= <-].
    match goal with H : bool_decide (_ ≠ k) = false |- _ => apply bool_decide_eq_false, dec_stable in H end. eauto.
  - apply Hign. unfold delete_article_comment, soft_delete_subtree, bump_comments, _invalidate_article_cache.
    wp_step. wp_step. wp_step. wp_step; [done|]. wp_step. wp_step; [done|]. wp_step. wp_step. wp_step. wp_step. wp_step.
    wp_step. wp_step. wp_step. wp_step. simpl.
    match goal with H : comments (db w) !! i = Some ?c |- _ => destruct (wf_comment _ Hwf i c H) as [x Hx] end.
    rewrite Hx. wp_step. wp_step; [done|]. wp_step. wp_step. wp_step. wp_step. simpl. rewrite lookup_insert_eq.
    wp_step. wp_step. simpl. by apply wf_mark.
  - apply Hign. unfold create_category_ex, _invalidate_categories_cache. wp_step. wp_step. wp_step. wp_step; [done|].
    wp_step. wp_step; [done|]. wp_step. wp_step; [done|]. wp_step. wp_step. wp_step. wp_step. wp_step. simpl.
    match goal with H : bool_decide (is_Some _) = false |- _ => apply bool_decide_eq_false, eq_None_not_Some in H end.
    apply wf_categories; [done| |].
    + intros k a Hk. destruct (decide (category_id a = new)) as [->|]; [rewrite lookup_insert_eq; eauto|].
      rewrite lookup_insert_ne by done. by apply (wf_category _ Hwf k).
    + apply (category_slugs_insert _ _ _ None); auto.
  - unfold update_category_ex, _invalidate_categories_cache. wp_step. wp_step. wp_step. wp_step; [done|]. wp_step.
    wp_step; [done|]. wp_step. wp_step; [done|]. wp_step. wp_step. wp_step. simpl. apply wf_categories; [done| |].
    + intros k a' Hk. destruct (decide (category_id a' = c)) as [->|]; [rewrite lookup_insert_eq; eauto|].
      rewrite lookup_insert_ne by done. by apply (wf_category _ Hwf k).
    + by apply (category_slugs_insert _ _ _ (Some c)); auto.
  - unfold delete_category_ex, _invalidate_categories_cache. wp_step. wp_step. wp_step. wp_step; [done|]. wp_step.
    wp_step; [done|]. wp_step. wp_step. wp_step. simpl.
    match goal with H : bool_decide (size _ ≠ 0) = false |- _ => apply bool_decide_eq_false, dec_stable, map_size_empty_inv in H end.
    apply wf_categories; [done| |].
    + intros k a' Hk. destruct (decide (category_id a' = c)) as [Heq|]; [|rewrite lookup_delete_ne by done; by apply (wf_category _ Hwf k)].
      exfalso. assert (in_category c (db w) !! k = Some a') as Hin by (by apply map_lookup_filter_Some).
      match goal with H : in_category c _ = ∅ |- _ => rewrite H in Hin end. done.
    + intros k1 c1 k2 c2 [? ?]%lookup_delete_Some [? ?]%lookup_delete_Some. by apply (wf_category_slug _ Hwf).
Qed.

Lemma step_wf w w' : step w w' → wf (db w) → wf (db w').
Proof.
  intros [r commits|t Ht] Hwf; [|done]. pose proof (wp_body r w Hwf) as Hwp. unfold wp, transaction in *.
  destruct (body r w) as [[[]|e] w1]; [|done]. by destruct commits.
Qed.

(** ** Nothing that is shown or waits for review disappears *)
Definition stays (w w' : world) : Prop := ∀ k, is_Some (articles (db w) !! k) → is_Some (articles (db w') !! k).

#[local] Instance stays_preorder : PreOrder stays.
Proof. split; [by intros w k|]. intros w1 w2 w3 H1 H2 k Hk. by apply H2, H1. Qed.

Lemma stays_same f w : articles (db (f w)) = articles (db w) → stays w (f w).
Proof. intros H k. by rewrite H. Qed.

Lemma shown_insert i a w : stays w (set_articles <[i:=a]> w).
Proof.
  intros k Hk. simpl. destruct (decide (k = i)) as [->|]; [rewrite lookup_insert_eq; eauto|]. by rewrite lookup_insert_ne.
Qed.

#[local] Hint Extern 1 (respects stays (modify _)) =>
  apply respects_modify; intros; first [apply shown_insert|by apply stays_same] : respects.

Lemma stays_upsert names ids : respects stays (upsert_tags names ids).
Proof.
  revert ids. induction names as [|n names IH]; intros [|i ids]; simpl; respects.
Qed.
#[local] Hint Resolve stays_upsert : respects.

Lemma stays_sync ids a names : respects stays (sync_for_article ids a names).
Proof. unfold sync_for_article. respects. Qed.
#[local] Hint Resolve stays_sync : respects.

Lemma stays_bump_likes k n : respects stays (bump_likes k n).
Proof. unfold bump_likes. respects. Qed.

Lemma stays_bump_comments k n : respects stays (bump_comments k n).
Proof. unfold bump_comments. respects. Qed.
#[local] Hint Resolve stays_bump_likes stays_bump_comments : respects.

Lemma shown_body r : (∀ s, r ≠ HardDelete s) → respects stays (body r).
Proof.
  intros Hr. destruct r; simpl; unfold ignore; try (by destruct (Hr s)).
  - unfold create_article_ex, _require_category, insert_article, _invalidate_article_cache. respects.
  - unfold create_article, _resolve_category_id, insert_article, _invalidate_article_cache. respects.
  - unfold update_article_ex, _get_article, _require_category, update_cas, _invalidate_article_cache. respects.
  - unfold soft_delete_article, _get_article, _invalidate_article_cache. respects.
  - unfold review_article, _get_article, _invalidate_article_cache. respects.
  - unfold toggle_article_like, toggle_like_from, _get_article, _invalidate_article_cache. respects.
  - unfold toggle_like_from, _invalidate_article_cache. respects.
  - unfold create_article_comment, _get_article, _invalidate_article_cache. respects.
  - unfold delete_article_comment, soft_delete_subtree, _invalidate_article_cache. respects.
  - unfold create_category_ex, _invalidate_categories_cache. respects.
  - unfold update_category_ex, _invalidate_categories_cache. respects.
  - unfold delete_category_ex, _invalidate_categories_cache. respects.
Qed.

Lemma transaction_stays {A} commits (m : M A) w : respects stays m → stays w (transaction commits m w).2.
Proof.
  intros Hm. specialize (Hm w). unfold transaction. destruct (m w) as [[a|e] w']; simpl in *; [|by intros k].
  destruct commits; [done|by intros k].
Qed.

Definition empty_library (now : Z) : world := World (Tables ∅ ∅ ∅ ∅ ∅ ∅ []) now [].

Lemma empty_wf now : wf (db (empty_library now)).
Proof. split; simpl; try done; set_solver. Qed.

Lemma reachable_wf now w : rtc step (empty_library now) w → wf (db w).
Proof.
  intros Hr. apply (invariant_reachable step (λ w, wf (db w)) _ w (empty_wf now)); [|done].
  intros a b Ha Hs. by apply (step_wf a b).
Qed.

(** ** Properties *)

(** C35: The library stays consistent under any sequence of requests, committed or
    not, with any failures and with likes decided on readings that are out of
    date: slugs of articles and of categories are unique, every article has its
    category, the numbers of likes and of comments are those of the rows, a
    comment answers one of the same article, likes, comments and links belong to
    articles there are, a tag has one name, what is published has its date. *)
Theorem library_consistent (now : Z) (w : world) :
  rtc step (empty_library now) w → wf (db w).
Proof. apply reachable_wf. Qed.

(** An article that is published or under review cannot vanish: whatever request
    is made, and however it ends, it is there afterwards. *)
Theorem shown_articles_stay (w w' : world) (k : uuid) (a : Article) :
  wf (db w) → step w w' → articles (db w) !! k = Some a → (status a = "published" ∨ status a = "pending")%string →
  is_Some (articles (db w') !! k).
Proof.
  intros Hwf Hs Hk Hst. assert (Hex : is_Some (articles (db w) !! k)) by eauto.
  destruct Hs as [r commits|t Ht]; [|done].
  assert (Hcase : (∃ s, r = HardDelete s) ∨ ∀ s, r ≠ HardDelete s) by (destruct r; eauto; right; done).
  destruct Hcase as [[s ->]|Hn]; [|by apply (transaction_stays commits (body r) w); [apply shown_body|] ].
  unfold transaction. simpl. unfold hard_delete_article, _get_article, _invalidate_article_cache. autorewrite with run.
  destruct (article_by_slug s (db w)) as [[k' a']|] eqn:Hs; [|done]. simpl. autorewrite with run.
  case_bool_decide as Hg; [done|]. apply article_by_slug_Some in Hs as [Hk' _].
  assert (k ≠ k') as Hne by (intros ->; rewrite Hk in Hk'; injection Hk' as ->; tauto).
  simpl. destruct commits; simpl; [by rewrite lookup_delete_ne|done].
Qed.

Lemma update_cas_runs k v values w a :
  articles (db w) !! k = Some a → int32 (version a + 1) = true → is_Some (categories (db w) !! category_id (values a)) →
  update_cas k v values w =
    if decide (v = None ∨ v = Some (version a))
    then (Ok tt, set_articles <[k := with_version (version a + 1) (values a)]> w) else (Raise VERSION_CONFLICT, w).
Proof.
  intros Hk Hint Hc. unfold update_cas. autorewrite with run. rewrite Hk. destruct (decide _); [|done].
  autorewrite with run. rewrite Hint. simpl. autorewrite with run.
  by rewrite bool_decide_eq_false_2 by (by apply not_eq_None_Some).
Qed.

(** An update without tags succeeds exactly if its category exists and its
    version, when it sends one, is the current one; then the fields it sent have
    their new values, the others, the counters and every other row are what they
    were, the version has grown by one (unless nothing at all was sent), and the
    first publication is dated. Otherwise nothing has happened. *)
Theorem update_article_correct (ids : list uuid) (s : string) (u : ArticleUpdate) (w : world) (k : uuid) (a : Article) :
  wf (db w) → article_by_slug s (db w) = Some (k, a) → u_tags u = None → int32 (version a + 1) = true →
  match update_article_ex ids s u w with
  | (Ok k', w') =>
      k' = k ∧ (∀ v, u_version u = Some v → v = version a)
      ∧ (∀ c, u_category_id u = Some c → is_Some (categories (db w) !! c))
      ∧ db w' = (if bool_decide (is_Some (u_version u)) || sends_data u
                 then db (set_articles <[k := with_version (version a + 1) (patched u (clock w) a)]> w) else db w)
      ∧ cache_log w' = cache_log w ++ [Lists; BySlug s; Categories]
  | (Raise e, w') =>
      w' = w ∧ (e = CATEGORY_NOT_FOUND ∧ (∃ c, u_category_id u = Some c ∧ categories (db w) !! c = None)
                ∨ e = VERSION_CONFLICT ∧ ∃ v, u_version u = Some v ∧ v ≠ version a)
  end.
Proof.
  intros Hwf Hs Ht Hint. pose proof (article_by_slug_Some _ _ _ _ Hs) as [Hk _].
  assert (Hrest : is_Some (categories (db w) !! category_id (patched u (clock w) a)) →
    let '(o, w') := ((if bool_decide (is_Some (u_version u)) || sends_data u || bool_decide (is_Some (u_tags u))
      then update_cas k (u_version u) (patched u (clock w)) else (mret tt : M ())) ≫= λ _,
      (match u_tags u with Some l => sync_for_article ids k l | None => mret tt end) ≫= λ _,
      modify (drop_cached [Lists; BySlug s; Categories]) ≫= λ _, (mret k : M uuid)) w in
    match o with
    | Ok k' => k' = k ∧ (∀ v, u_version u = Some v → v = version a)
        ∧ db w' = (if bool_decide (is_Some (u_version u)) || sends_data u
                   then db (set_articles <[k := with_version (version a + 1) (patched u (clock w) a)]> w) else db w)
        ∧ cache_log w' = cache_log w ++ [Lists; BySlug s; Categories]
    | Raise e => w' = w ∧ e = VERSION_CONFLICT ∧ ∃ v, u_version u = Some v ∧ v ≠ version a
    end).
  { intros Hc. rewrite Ht, orb_false_r. destruct (bool_decide (is_Some (u_version u)) || sends_data u) eqn:Hb.
    - unfold mbind, prog_bind. rewrite (update_cas_runs k _ _ w a) by done. destruct (decide _) as [Hv|Hv]; simpl.
      + split_and!; [done|naive_solver|done|done].
      + split; [done|]. split; [done|]. destruct (u_version u) as [v|]; [|tauto]. exists v. naive_solver.
    - simpl. split_and!; [done| |done|done]. intros v Hv. rewrite Hv in Hb. done. }
  unfold update_article_ex, _get_article, _invalidate_article_cache, _require_category.
  rewrite bind_assoc, run_get_state, run_get_or_raise, Hs. cbv beta iota.
  destruct (u_category_id u) as [c|] eqn:Hc.
  - rewrite bind_assoc, run_get_state, run_raise_when. destruct (bool_decide (categories (db w) !! c = None)) eqn:Hcc.
    { apply bool_decide_eq_true in Hcc. split; [done|]. left. eauto. }
    apply bool_decide_eq_false, not_eq_None_Some in Hcc. rewrite run_get_state. assert (Hcat : is_Some (categories (db w) !! category_id (patched u (clock w) a))).
    { unfold patched. simpl. rewrite Hc. exact Hcc. }
    specialize (Hrest Hcat).
    revert Hrest. match goal with |- match ?x with _ => _ end → _ => generalize x end. intros [[k'|e] w']; naive_solver.
  - rewrite bind_left_id, run_get_state. assert (Hcat : is_Some (categories (db w) !! category_id (patched u (clock w) a))).
    { unfold patched. simpl. rewrite Hc. by apply (wf_category _ Hwf k). }
    specialize (Hrest Hcat).
    revert Hrest. match goal with |- match ?x with _ => _ end → _ => generalize x end. intros [[k'|e] w']; naive_solver.
Qed.

Lemma elem_of_tags_of k d n : n ∈ tags_of k d ↔ ∃ t, tags d !! n = Some t ∧ (k, t) ∈ article_tag d.
Proof.
  unfold tags_of. rewrite list_elem_of_fmap. split.
  - intros ([n' t] & -> & Hin). apply list_elem_of_filter in Hin as [Ha Hin]. apply elem_of_map_to_list in Hin. eauto.
  - intros (t & Hn & Ha). exists (n, t). split; [done|]. apply list_elem_of_filter. split; [done|]. by apply elem_of_map_to_list.
Qed.

(** Tags are replaced: with a list that has at least one name that is not empty,
    short names and fresh ids for the new ones, the tags of the article are
    afterwards the names of the list, those of the other articles are what they
    were, and no tag has been renamed. *)
Theorem tags_replaced (ids : list uuid) (k : uuid) (names : list string) (w : world) :
  wf (db w) → (∃ n, n ∈ names ∧ n ≠ ""%string) →
  (∀ n, n ∈ names → String.length n ≤ 50) → length names ≤ length ids → NoDup ids →
  (∀ n t, tags (db w) !! n = Some t → t ∉ ids) →
  ∃ w', sync_for_article ids k names w = (Ok tt, w')
    ∧ (∀ n, n ∈ tags_of k (db w') ↔ n ∈ names ∧ n ≠ ""%string)
    ∧ (∀ k' n, k' ≠ k → n ∈ tags_of k' (db w') ↔ n ∈ tags_of k' (db w))
    ∧ (∀ n t, tags (db w) !! n = Some t → tags (db w') !! n = Some t)
    ∧ articles (db w') = articles (db w).
Proof.
  intros Hwf Hne Hlen Hids Hnd Hfresh. unfold sync_for_article. set (ordered := tag_names_sequence names).
  assert (Hord : ∀ n, n ∈ ordered ↔ n ∈ names ∧ n ≠ ""%string).
  { intros n. unfold ordered, tag_names_sequence. rewrite elem_of_tag_names. set_solver. }
  rewrite bool_decide_eq_false_2; [|destruct Hne as [n Hn]; apply Hord in Hn; intros He; rewrite He in Hn; by apply elem_of_nil in Hn].
  set (missing := filter (λ n, tags (db w) !! n = None) ordered).
  assert (Hmlen : length missing ≤ length ids).
  { etrans; [|exact Hids]. apply submseteq_length, NoDup_submseteq.
    - apply NoDup_filter, NoDup_tag_names.
    - intros n [_ Hn]%list_elem_of_filter. by apply Hord in Hn as [? _]. }
  destruct (upsert_runs missing ids w) as (m & Hup & Hsub & Hall); [|done|done|done|].
  { intros n [_ Hn]%list_elem_of_filter. apply Hlen. by apply Hord in Hn as [? _]. }
  assert (Hinj : injective m).
  { pose proof (wp_upsert missing ids w (wf_tag _ Hwf)) as Hwp. unfold wp in Hwp. rewrite Hup in Hwp.
    destruct Hwp as (m' & Heq & _ & Hinj). apply (f_equal (λ w, tags (db w))) in Heq. simpl in Heq. by rewrite Heq. }
  assert (Hsome : ∀ n, n ∈ ordered → is_Some (m !! n)).
  { intros n Hn. destruct (tags (db w) !! n) as [t|] eqn:Ht; [exists t; by apply (lookup_weaken _ _ _ _ Ht)|].
    apply Hall, list_elem_of_filter. done. }
  destruct (ids_of_some m ordered Hsome) as [l Hl].
  rewrite run_get_state. rewrite (bind_ok _ _ _ _ _ Hup), run_get_state, run_get_or_raise. simpl (tags _). rewrite Hl.
  pose proof (λ t, ids_of_spec m ordered l t Hl) as Hspec. eexists. split; [reflexivity|].
  set (l' := filter (λ p : uuid * uuid, p.1 ≠ k ∨ p.2 ∈ l) (article_tag (db w) ∪ list_to_set ((λ t, (k, t)) <$> l))).
  change (set_article_tag _ _) with (set_article_tag (λ _, l') (set_tags (λ _, m) w)).
  assert (Hlink : ∀ k' t, (k', t) ∈ l' ↔ if decide (k' = k) then t ∈ l else (k', t) ∈ article_tag (db w)).
  { intros k' t. unfold l'. rewrite elem_of_filter, elem_of_union, elem_of_list_to_set, list_elem_of_fmap. simpl.
    destruct (decide (k' = k)) as [->|]; naive_solver. }
  split_and!; [| |intros n t Ht; simpl; by apply (lookup_weaken _ _ _ _ Ht)|done].
  - intros n. rewrite elem_of_tags_of. simpl. rewrite <- Hord. split.
    + intros (t & Ht & Hin). apply Hlink in Hin. rewrite decide_True in Hin by done.
      apply Hspec in Hin as (n' & Hn' & Ht'). by rewrite (Hinj n n' t Ht Ht').
    + intros Hn. destruct (Hsome n Hn) as [t Ht]. exists t. split; [done|]. apply Hlink. rewrite decide_True by done.
      apply Hspec. eauto.
  - intros k' n Hk. rewrite !elem_of_tags_of. simpl. split.
    + intros (t & Ht & Hin). apply Hlink in Hin. rewrite decide_False in Hin by done.
      destruct (wf_link _ Hwf k' t Hin) as (_ & n' & Hn'). exists t. split; [|done].
      rewrite (Hinj n n' t Ht); [done|]. by apply (lookup_weaken _ _ _ _ Hn').
    + intros (t & Ht & Hin). exists t. split; [by apply (lookup_weaken _ _ _ _ Ht)|]. apply Hlink. by rewrite decide_False.
Qed.

(** Deleting a comment takes away its whole branch and nothing else: the living
    comments of every article are afterwards those there were, without the
    comment and all the answers below it; it is refused to all but its author,
    and to nobody who may. *)
Theorem branch_deleted (i u : uuid) (as_admin : bool) (w : world) (c : ArticleComment) (x : Article) :
  wf (db w) → comments (db w) !! i = Some c → articles (db w) !! k_article c = Some x →
  int32 (n_comments x) = true →
  (as_admin = false → k_user c ≠ u → delete_article_comment i u as_admin w = (Raise FORBIDDEN, w))
  ∧ (as_admin = true ∨ k_user c = u →
      ∃ w', delete_article_comment i u as_admin w = (Ok (k_user c), w')
        ∧ (∀ k, living k (db w') = living k (db w) ∖ article_comment_tree (comments (db w)) i)
        ∧ (∀ j, j ∈ article_comment_tree (comments (db w)) i ↔ rtc (answers (comments (db w))) i j)
        ∧ ∀ k, k ≠ k_article c → articles (db w') !! k = articles (db w) !! k).
Proof.
  intros Hwf Hc Hx Hint. pose proof (wf_mark (db w) i c x (clock w) Hwf Hc Hx) as Hm. cbv zeta in Hm.
  pose proof (wf_comment_count _ Hm (k_article c)) as Hcount. simpl in Hcount. rewrite lookup_insert_eq in Hcount.
  specialize (Hcount _ eq_refl). simpl in Hcount. pose proof (wf_comment_count _ Hwf _ _ Hx) as Hold.
  unfold delete_article_comment, soft_delete_subtree, bump_comments, _invalidate_article_cache.
  autorewrite with run. rewrite Hc. split.
  - intros -> Hu. autorewrite with run. cbn [negb andb]. by rewrite bool_decide_eq_true_2.
  - intros Hu. autorewrite with run.
    assert (negb as_admin && bool_decide (k_user c ≠ u) = false) as ->.
    { destruct as_admin; [done|]. apply bool_decide_eq_false. naive_solver. }
    autorewrite with run. simpl. rewrite Hx. autorewrite with run.
    match goal with |- context [int32 ?z] => assert (int32 z = true) as -> end.
    { apply int32_spec. apply int32_spec in Hint. lia. }
    simpl. rewrite lookup_insert_eq. autorewrite with run. eexists. split; [reflexivity|]. simpl. split_and!.
    + intros k. unfold living at 1. simpl. apply marked_living.
    + intros j. apply elem_of_tree. by rewrite Hc.
    + intros k Hk. by rewrite lookup_insert_ne.
Qed.

(** ** A concrete library *)
Definition demo_id (n : N) : uuid := uuid_of_N n.
Definition demo_news : CategoryCreate := MkCategoryCreate "news" "News" 0.
Definition demo_article : ArticleCreate :=
  MkCreate "welcome" "Welcome" None None "Hello" (demo_id 1) [" a "; ""] None None "published" ["x"; "y"; "x"].

Definition do_request (r : request) (w : world) : world := (transaction true (body r) w).2.

Definition demo : world :=
  do_request (Comment (demo_id 7) "welcome" (demo_id 31) "reply" (Some (demo_id 6)))
  (do_request (Comment (demo_id 6) "welcome" (demo_id 30) "first" None)
  (do_request (Like "welcome" (demo_id 30))
  (do_request (Create (demo_id 2) [demo_id 3; demo_id 4] demo_article)
  (do_request (CreateCategory (demo_id 1) demo_news) (empty_library 100))))).

Lemma library_reachable : rtc step (empty_library 100) demo.
Proof. do 5 (eapply rtc_r; [|apply step_request]). reflexivity. Qed.

Definition no_update : ArticleUpdate := MkUpdate None None None None None None None None None.

(** A status that is sent as null is stored as the text of Python's [None]. *)
Definition null_status : ArticleUpdate := MkUpdate None None None None None None (Some None) None None.

Lemma null_status_stored :
  (snd <$> article_by_slug "welcome" (db (do_request (Update [] "welcome" null_status) demo))) ≫= (λ a, Some (status a))
  = Some "None"%string.
Proof. by vm_compute. Qed.

(** An update that takes all tags away keeps them all. *)
Definition no_tags : ArticleUpdate := MkUpdate None None None None None None None (Some []) None.

Lemma empty_tags_kept :
  tags_of (demo_id 2) (db (do_request (Update [] "welcome" no_tags) demo)) = tags_of (demo_id 2) (db demo)
  ∧ tags_of (demo_id 2) (db demo) ≠ [].
Proof. split; by vm_compute. Qed.

(** A review does not move the version: an update with the version from before
    the review succeeds and takes the publication back. *)
Definition demo_pending : world :=
  do_request (Update [] "welcome" (MkUpdate None None None None None None (Some (Some "pending"%string)) None None)) demo.

Definition stale_update : ArticleUpdate :=
  MkUpdate None None None None None None (Some (Some "pending"%string)) None (Some 2%Z).

Lemma review_goes_unnoticed :
  let status_of w := (snd <$> article_by_slug "welcome" (db w)) ≫= (λ a, Some (status a, version a)) in
  let reviewed := do_request (Review "welcome" true) demo_pending in
  status_of demo_pending = Some ("pending"%string, 2%Z)
  ∧ status_of reviewed = Some ("published"%string, 2%Z)
  ∧ status_of (do_request (Update [] "welcome" stale_update) reviewed) = Some ("pending"%string, 3%Z).
Proof. by vm_compute. Qed.

(** An answer to a comment that is deleted is accepted, counted and listed. *)
Lemma reply_to_deleted :
  let w := do_request (Comment (demo_id 8) "welcome" (demo_id 31) "late" (Some (demo_id 6)))
             (do_request (DeleteComment (demo_id 6) (demo_id 30) false) demo) in
  match list_article_comments "welcome" w with
  | (Ok l, _) => bool_decide (l.*1 = [demo_id 8]) = true
  | _ => False
  end.
Proof. by vm_compute. Qed.

(** What was taken back is still shown to everybody. *)
Lemma taken_back_is_shown :
  match get_article "welcome" (do_request (SoftDelete "welcome") demo) with
  | (Ok d, _) => status (d_article d) = "rejected"%string
  | _ => False
  end
  ∧ (list_articles 1 50 (db (do_request (SoftDelete "welcome") demo))).2 = 1.
Proof. split; by vm_compute. Qed.

Lemma library_consistent_witness : wf (db demo).
Proof. apply (library_consistent 100 demo), library_reachable. Defined.

Lemma shown_articles_stay_witness : is_Some (articles (db (do_request (HardDelete "welcome") demo)) !! demo_id 2).
Proof.
  eapply (shown_articles_stay demo _ (demo_id 2)); [apply (reachable_wf 100), library_reachable|apply step_request| |].
  - by vm_compute.
  - left. by vm_compute.
Defined.

Lemma update_article_correct_witness :
  match article_by_slug "welcome" (db demo) with
  | Some (k, a) =>
      match update_article_ex [] "welcome" null_status demo with
      | (Ok k', w') =>
          k' = k ∧ (∀ v, u_version null_status = Some v → v = version a)
          ∧ (∀ c, u_category_id null_status = Some c → is_Some (categories (db demo) !! c))
          ∧ db w' = (if bool_decide (is_Some (u_version null_status)) || sends_data null_status
                     then db (set_articles <[k := with_version (version a + 1) (patched null_status (clock demo) a)]> demo)
                     else db demo)
          ∧ cache_log w' = cache_log demo ++ [Lists; BySlug "welcome"; Categories]
      | (Raise e, w') =>
          w' = demo ∧ (e = CATEGORY_NOT_FOUND ∧ (∃ c, u_category_id null_status = Some c ∧ categories (db demo) !! c = None)
                       ∨ e = VERSION_CONFLICT ∧ ∃ v, u_version null_status = Some v ∧ v ≠ version a)
      end
  | None => False
  end.
Proof.
  assert (Hint : match article_by_slug "welcome" (db demo) with Some (k, a) => int32 (version a + 1) | None => false end = true)
    by by vm_compute.
  destruct (article_by_slug "welcome" (db demo)) as [[k a]|] eqn:Hs; [|done].
  apply (update_article_correct [] "welcome" null_status demo k a); [apply (reachable_wf 100), library_reachable|done..].
Defined.

Lemma tags_replaced_witness :
  ∃ w', sync_for_article [demo_id 40; demo_id 41] (demo_id 2) ["y"; "z"] demo = (Ok tt, w')
    ∧ (∀ n, n ∈ tags_of (demo_id 2) (db w') ↔ n ∈ ["y"; "z"] ∧ n ≠ ""%string)
    ∧ (∀ k' n, k' ≠ demo_id 2 → n ∈ tags_of k' (db w') ↔ n ∈ tags_of k' (db demo))
    ∧ (∀ n t, tags (db demo) !! n = Some t → tags (db w') !! n = Some t)
    ∧ articles (db w') = articles (db demo).
Proof.
  apply (tags_replaced [demo_id 40; demo_id 41] (demo_id 2) ["y"; "z"] demo).
  - apply (reachable_wf 100), library_reachable.
  - exists "y"%string. split; [set_solver|done].
  - apply (Forall_forall (λ n, String.length n ≤ 50)). repeat constructor; simpl; lia.
  - simpl. lia.
  - apply (bool_decide_unpack _). by vm_compute.
  - assert (Hf : map_Forall (λ _ t, t ∉ [demo_id 40; demo_id 41]) (tags (db demo))).
    { apply (bool_decide_unpack _). by vm_compute. }
    apply Hf.
Defined.

Lemma branch_deleted_witness :
  match comments (db demo) !! demo_id 6 with
  | Some c =>
      ∃ w', delete_article_comment (demo_id 6) (demo_id 30) false demo = (Ok (k_user c), w')
        ∧ (∀ k, living k (db w') = living k (db demo) ∖ article_comment_tree (comments (db demo)) (demo_id 6))
        ∧ (∀ j, j ∈ article_comment_tree (comments (db demo)) (demo_id 6) ↔ rtc (answers (comments (db demo))) (demo_id 6) j)
        ∧ ∀ k, k ≠ k_article c → articles (db w') !! k = articles (db demo) !! k
  | None => False
  end.
Proof.
  assert (H : match comments (db demo) !! demo_id 6 with
    | Some c => match articles (db demo) !! k_article c with
                | Some x => int32 (n_comments x) && bool_decide (k_user c = demo_id 30)
                | None => false end
    | None => false end = true) by by vm_compute.
  destruct (comments (db demo) !! demo_id 6) as [c|] eqn:Hc; [|done].
  destruct (articles (db demo) !! k_article c) as [x|] eqn:Hx; [|done]. apply andb_true_iff in H as [Hi Hu].
  apply (branch_deleted (demo_id 6) (demo_id 30) false demo c x); [apply (reachable_wf 100), library_reachable|done..|].
  right. by apply bool_decide_eq_true in Hu.
Defined.
