(* ===== verification/Treehole.v ===== *)
(** * The treehole: anonymous letters, bottles, wishes and conversations

    Model of [app/modules/treehole/services]. A visitor is the digest of a
    cookie ([deps.py]); ids of rows are strings drawn by the code and arguments
    here. Times are microseconds, and the conversions from and to milliseconds
    are exact. Theorems: the tables stay consistent, no visitor writes more than
    three letters, bottles or wishes that are kept within a minute, a blocked
    conversation is silent, and a reader sees what is public now and what is his.

    Two rows whose order only the time of creation decides are taken in the
    order of their ids. *)

From S2P Require Import Prelude.

(** ** Tables *)
Record Letter := MkLetter {
  l_owner : string; l_content : string; l_category : string; l_privacy : string; l_codename : string;
  l_moods : list string; l_tags : list string; l_sticker : string; l_paper : string;
  scheduled_at : option Z; seal_until : option Z; l_created : Z; l_updated : Z
}.

Record Conversation := MkConversation {
  cv_letter : string; author : string; replier : string; replier_codename : string;
  author_blocked : bool; replier_blocked : bool; author_hidden : bool; replier_hidden : bool;
  author_cleared_at : option Z; replier_cleared_at : option Z; cv_created : Z; cv_updated : Z
}.

Record Message := MkMessage { m_conv : string; m_sender : string; m_text : string; m_recalled : bool; m_created : Z }.

Record Bottle := MkBottle {
  b_owner : string; b_text : string; b_created : Z; picked_by : option string; b_reply : option string; replied_at : option Z
}.

Record Wish := MkWish { w_owner : string; w_text : string; w_lights : Z; w_created : Z }.

Record Report := MkReport { r_reason : string; r_detail : string; r_created : Z }.

Record tables := Tables {
  letters : gmap string Letter;
  reactions : gset (string * string * string);     (* owner, letter, kind *)
  convs : gmap string Conversation;
  messages : gmap string Message;
  bottles : gmap string Bottle;
  wishes : gmap string Wish;
  lights : gset (string * string);                 (* wish, owner *)
  reports : gmap (string * string * string) Report; (* reporter, type, target *)
  queue : list (string * string * string * string)  (* for the administration: type, target, title, reason *)
}.

Record world := World { db : tables; clock : Z }.

Abbreviation M := (prog world err).

Definition set_db (f : tables → tables) (w : world) : world := World (f (db w)) (clock w).
Definition set_letters (f : gmap string Letter → gmap string Letter) : world → world := set_db (λ d,
  Tables (f (letters d)) (reactions d) (convs d) (messages d) (bottles d) (wishes d) (lights d) (reports d) (queue d)).
Definition set_reactions (f : gset (string * string * string) → gset (string * string * string)) : world → world := set_db (λ d,
  Tables (letters d) (f (reactions d)) (convs d) (messages d) (bottles d) (wishes d) (lights d) (reports d) (queue d)).
Definition set_convs (f : gmap string Conversation → gmap string Conversation) : world → world := set_db (λ d,
  Tables (letters d) (reactions d) (f (convs d)) (messages d) (bottles d) (wishes d) (lights d) (reports d) (queue d)).
Definition set_messages (f : gmap string Message → gmap string Message) : world → world := set_db (λ d,
  Tables (letters d) (reactions d) (convs d) (f (messages d)) (bottles d) (wishes d) (lights d) (reports d) (queue d)).
Definition set_bottles (f : gmap string Bottle → gmap string Bottle) : world → world := set_db (λ d,
  Tables (letters d) (reactions d) (convs d) (messages d) (f (bottles d)) (wishes d) (lights d) (reports d) (queue d)).
Definition set_wishes (f : gmap string Wish → gmap string Wish) : world → world := set_db (λ d,
  Tables (letters d) (reactions d) (convs d) (messages d) (bottles d) (f (wishes d)) (lights d) (reports d) (queue d)).
Definition set_lights (f : gset (string * string) → gset (string * string)) : world → world := set_db (λ d,
  Tables (letters d) (reactions d) (convs d) (messages d) (bottles d) (wishes d) (f (lights d)) (reports d) (queue d)).
Definition file_report (k : string * string * string) (r : Report) (q : string * string * string * string) : world → world :=
  set_db (λ d, Tables (letters d) (reactions d) (convs d) (messages d) (bottles d) (wishes d) (lights d)
    (<[k := r]> (reports d)) (queue d ++ [q])).

Definition transaction {A} (commits : bool) (m : M A) : M A := λ w,
  match m w with
  | (Ok a, w') => if commits then (Ok a, w') else (Raise RuntimeError, set_db (λ _, db w) w')
  | (Raise e, w') => (Raise e, set_db (λ _, db w) w')
  end.

(** ** [common.py] *)
Definition _ms (t : option Z) : option Z := (λ t, (t / 1000)%Z) <$> t.

(** The years 1 to 9999. *)
Definition _dt (v : option Z) : M (option Z) :=
  match v with
  | None => mret None
  | Some ms =>
      raise_when (negb (bool_decide (-62135596800000 ≤ ms < 253402300800000)%Z)) INVALID_INPUT ≫= λ _,
      mret (Some (ms * 1000)%Z)
  end.

Definition is_visible (l : Letter) (now : Z) : bool :=
  match scheduled_at l with Some t => bool_decide (t ≤ now)%Z | None => true end
  && match seal_until l with Some t => bool_decide (now < t)%Z | None => true end.

Record LetterData := MkData {
  d_id : string; d_letter : Letter; d_status : string; d_published : option Z; d_likes : nat; d_favorites : nat;
  d_liked : bool; d_favorited : bool; d_mine : bool
}.

Definition reacted (i kind : string) (d : tables) : gset (string * string * string) :=
  filter (λ r, r.1.2 = i ∧ r.2 = kind) (reactions d).

Definition _letter_data (i : string) (l : Letter) (owner : option string) (now : Z) (d : tables) : LetterData :=
  let visible := is_visible l now in
  let mine kind := match owner with Some o => bool_decide ((o, i, kind) ∈ reactions d) | None => false end in
  MkData i l
    (if match seal_until l with Some t => bool_decide (t ≤ now)%Z | None => false end then "sealed"
     else if negb visible then "scheduled" else "published")
    (if visible then _ms (Some (default (l_created l) (scheduled_at l))) else None)
    (size (reacted i "like" d)) (size (reacted i "favorite" d)) (mine "like"%string) (mine "favorite"%string)
    (bool_decide (owner = Some (l_owner l))).

Definition _get_letter (i : string) : M Letter := w ← get_state; get_or_raise (letters (db w) !! i) NOT_FOUND.

Definition minute : Z := 60 * 1000000.

(** How many of these rows are the owner's and younger than a minute. *)
Definition recent {A} (owner_of : A → string) (created : A → Z) (owner : string) (now : Z) (m : gmap string A) : nat :=
  size (filter (λ kv, owner_of kv.2 = owner ∧ (now - minute < created kv.2)%Z) m).

Definition _rate_limit (count limit : nat) : M () := raise_when (bool_decide (limit ≤ count)) BAD_REQUEST.

(** ** [letters.py] *)
Record LetterInput := MkLetterInput {
  i_content : string; i_category : string; i_privacy : string; i_codename : string; i_moods : list string;
  i_tags : list string; i_sticker : string; i_paper : string; i_scheduled : option Z; i_seal : option Z
}.

Definition newest {A} (created : A → Z) (a b : string * A) : Prop :=
  (created b.2 < created a.2)%Z ∨ created b.2 = created a.2 ∧ String.le a.1 b.1.
#[export] Instance newest_dec {A} (created : A → Z) : RelDecision (newest created).
Proof. intros a b. unfold newest. apply _. Defined.

(** [ORDER BY created DESC OFFSET (page - 1) * limit LIMIT limit] *)
Definition page_of {A} (created : A → Z) (page limit : nat) (rows : list (string * A)) : list (string * A) :=
  take limit (drop ((page - 1) * limit) (merge_sort (newest created) rows)).

Definition in_scope (scope : string) (owner : option string) (now : Z) (l : Letter) : bool :=
  if bool_decide (scope = "mine"%string) then bool_decide (owner = Some (l_owner l)) else
  bool_decide (l_privacy l = if decide (scope = "public"%string) then "public"%string else "random"%string)
  && is_visible l now.

Definition list_letters (scope : string) (page limit : nat) (owner : option string) : M (list LetterData) :=
  w ← get_state;
  raise_when (bool_decide (scope = "mine"%string ∧ owner = None)) UNAUTHORIZED ≫= λ _,
  mret ((λ il, _letter_data il.1 il.2 owner (clock w) (db w)) <$>
    page_of l_created page limit (filter (λ il, in_scope scope owner (clock w) il.2 = true) (map_to_list (letters (db w))))).

Definition create_letter (new : string) (body : LetterInput) (owner : string) : M LetterData :=
  w ← get_state;
  _rate_limit (recent l_owner l_created owner (clock w) (letters (db w))) 3 ≫= λ _,
  scheduled ← _dt (i_scheduled body);
  seal ← _dt (i_seal body);
  raise_when (match scheduled with Some t => bool_decide (t ≤ clock w)%Z | None => false end) INVALID_INPUT ≫= λ _,
  raise_when (match seal with Some t => bool_decide (t ≤ default (clock w) scheduled)%Z | None => false end)
    INVALID_INPUT ≫= λ _,
  let l := MkLetter owner (strip (i_content body)) (i_category body) (i_privacy body) (i_codename body) (i_moods body)
    (i_tags body) (i_sticker body) (i_paper body) scheduled seal (clock w) (clock w) in
  raise_when (bool_decide (l_content l = ""%string)) INVALID_INPUT ≫= λ _,
  raise_when (bool_decide (is_Some (letters (db w) !! new))) IntegrityError ≫= λ _,
  modify (set_letters <[new := l]>) ≫= λ _,
  w ← get_state;
  mret (_letter_data new l (Some owner) (clock w) (db w)).

Definition edit_letter (i : string) (body : LetterInput) (owner : string) : M LetterData :=
  l ← _get_letter i;
  w ← get_state;
  raise_when (bool_decide (l_owner l ≠ owner)) FORBIDDEN ≫= λ _,
  raise_when (bool_decide (strip (i_content body) = ""%string)) INVALID_INPUT ≫= λ _,
  scheduled ← _dt (i_scheduled body);
  seal ← _dt (i_seal body);
  raise_when (match seal with Some t => bool_decide (t ≤ default (clock w) scheduled)%Z | None => false end)
    INVALID_INPUT ≫= λ _,
  let l' := MkLetter (l_owner l) (strip (i_content body)) (i_category body) (i_privacy body) (i_codename body)
    (i_moods body) (i_tags body) (i_sticker body) (i_paper body) scheduled seal (l_created l) (clock w) in
  modify (set_letters <[i := l']>) ≫= λ _,
  w ← get_state;
  mret (_letter_data i l' (Some owner) (clock w) (db w)).

Definition of_letter (i : string) (d : tables) : gset string := dom (filter (λ kc, cv_letter kc.2 = i) (convs d)).

Definition purge_letter (i : string) (d : tables) : tables :=
  Tables (delete i (letters d)) (filter (λ r, r.1.2 ≠ i) (reactions d)) (filter (λ kc, cv_letter kc.2 ≠ i) (convs d))
    (filter (λ km, m_conv km.2 ∉ of_letter i d) (messages d)) (bottles d) (wishes d) (lights d) (reports d) (queue d).

Definition remove_letter (i owner : string) : M () :=
  l ← _get_letter i;
  raise_when (bool_decide (l_owner l ≠ owner)) FORBIDDEN ≫= λ _,
  modify (set_db (purge_letter i)).

Definition toggle_reaction (i kind owner : string) : M (bool * LetterData) :=
  raise_when (negb (bool_decide (kind = "like"%string ∨ kind = "favorite"%string))) INVALID_INPUT ≫= λ _,
  l ← _get_letter i;
  w ← get_state;
  raise_when (bool_decide (l_privacy l ≠ "public"%string) || negb (is_visible l (clock w))) NOT_FOUND ≫= λ _,
  let active := bool_decide ((owner, i, kind) ∉ reactions (db w)) in
  modify (set_reactions (λ r, if active then r ∪ {[(owner, i, kind)]} else r ∖ {[(owner, i, kind)]})) ≫= λ _,
  w ← get_state;
  mret (active, _letter_data i l (Some owner) (clock w) (db w)).

(** ** [wishes.py] *)
Record WishData := MkWishData { wd_id : string; wd_text : string; wd_lights : Z; wd_created : Z; wd_mine : bool }.

Definition list_wishes (page : nat) (owner : option string) (d : tables) : list WishData :=
  (λ iw, MkWishData iw.1 (w_text iw.2) (w_lights iw.2) (w_created iw.2 / 1000)
           (bool_decide (owner = Some (w_owner iw.2)))) <$> page_of w_created page 100 (map_to_list (wishes d)).

Definition create_wish (new text owner : string) : M string :=
  w ← get_state;
  _rate_limit (recent w_owner w_created owner (clock w) (wishes (db w))) 3 ≫= λ _,
  raise_when (bool_decide (strip text = ""%string)) INVALID_INPUT ≫= λ _,
  raise_when (bool_decide (is_Some (wishes (db w) !! new))) IntegrityError ≫= λ _,
  modify (set_wishes <[new := MkWish owner (strip text) 0 (clock w)]>) ≫= λ _,
  mret new.

Definition own_wish (i owner : string) : M Wish :=
  w ← get_state;
  x ← get_or_raise (wishes (db w) !! i) NOT_FOUND;
  raise_when (bool_decide (w_owner x ≠ owner)) NOT_FOUND ≫= λ _, mret x.

Definition edit_wish (i text owner : string) : M () :=
  x ← own_wish i owner;
  raise_when (bool_decide (strip text = ""%string)) INVALID_INPUT ≫= λ _,
  modify (set_wishes <[i := MkWish (w_owner x) (strip text) (w_lights x) (w_created x)]>).

Definition remove_wish (i owner : string) : M () :=
  _ ← own_wish i owner;
  modify (set_lights (filter (λ l, l.1 ≠ i))) ≫= λ _,
  modify (set_wishes (delete i)).

Definition light_wish (i owner : string) : M Z :=
  w ← get_state;
  x ← get_or_raise (wishes (db w) !! i) NOT_FOUND;
  if bool_decide ((i, owner) ∈ lights (db w)) then mret (w_lights x) else
  raise_when (negb (int32 (w_lights x + 1))) DataError ≫= λ _,
  modify (set_lights (λ l, l ∪ {[(i, owner)]})) ≫= λ _,
  modify (set_wishes <[i := MkWish (w_owner x) (w_text x) (w_lights x + 1) (w_created x)]>) ≫= λ _,
  mret (w_lights x + 1)%Z.

(** ** [bottles.py] *)
Record BottleData := MkBottleData {
  bd_id : string; bd_text : string; bd_created : option Z; bd_mine : bool; bd_picked : bool; bd_reply : option string;
  bd_replied : option Z
}.

Definition bottle_data (owner i : string) (b : Bottle) : BottleData :=
  let mine := bool_decide (b_owner b = owner) in
  MkBottleData i (b_text b) (_ms (Some (b_created b))) mine (bool_decide (is_Some (picked_by b)))
    (if mine then b_reply b else None) (if mine then _ms (replied_at b) else None).

Definition afloat (owner : string) (b : Bottle) : bool := bool_decide (picked_by b = None ∨ b_owner b = owner).

Definition list_bottles (page : nat) (owner : string) (d : tables) : list BottleData :=
  (λ ib, bottle_data owner ib.1 ib.2) <$>
    page_of b_created page 100 (filter (λ ib, afloat owner ib.2 = true) (map_to_list (bottles d))).

Definition create_bottle (new text owner : string) : M string :=
  w ← get_state;
  _rate_limit (recent b_owner b_created owner (clock w) (bottles (db w))) 3 ≫= λ _,
  raise_when (bool_decide (strip text = ""%string)) INVALID_INPUT ≫= λ _,
  raise_when (bool_decide (is_Some (bottles (db w) !! new))) IntegrityError ≫= λ _,
  modify (set_bottles <[new := MkBottle owner (strip text) (clock w) None None None]>) ≫= λ _,
  mret new.

Definition reply_bottle (i text owner : string) : M () :=
  w ← get_state;
  b ← get_or_raise (bottles (db w) !! i) NOT_FOUND;
  raise_when (bool_decide (is_Some (picked_by b)) || bool_decide (b_owner b = owner)) NOT_FOUND ≫= λ _,
  raise_when (bool_decide (strip text = ""%string)) INVALID_INPUT ≫= λ _,
  modify (set_bottles <[i := MkBottle (b_owner b) (b_text b) (b_created b) (Some owner) (Some (strip text))
    (Some (clock w))]>).

(** ** [conversations.py] *)
Inductive side := Author | Replier.
#[export] Instance side_dec : EqDecision side.
Proof. solve_decision. Defined.

Definition _participant (c : Conversation) (owner : string) : option side :=
  if bool_decide (author c = owner) then Some Author else if bool_decide (replier c = owner) then Some Replier else None.

Definition _conversation (i owner : string) : M (Conversation * side) :=
  w ← get_state;
  c ← get_or_raise (convs (db w) !! i) NOT_FOUND;
  s ← get_or_raise (_participant c owner) NOT_FOUND;
  mret (c, s).

Definition blocked (c : Conversation) : bool := author_blocked c || replier_blocked c.

Definition blocks (s : side) (c : Conversation) : Conversation :=
  MkConversation (cv_letter c) (author c) (replier c) (replier_codename c)
    (bool_decide (s = Author) || author_blocked c) (bool_decide (s = Replier) || replier_blocked c)
    (author_hidden c) (replier_hidden c) (author_cleared_at c) (replier_cleared_at c) (cv_created c) (cv_updated c).

Definition clears (s : side) (now : Z) (c : Conversation) : Conversation :=
  MkConversation (cv_letter c) (author c) (replier c) (replier_codename c) (author_blocked c) (replier_blocked c)
    (author_hidden c) (replier_hidden c) (if decide (s = Author) then Some now else author_cleared_at c)
    (if decide (s = Replier) then Some now else replier_cleared_at c) (cv_created c) (cv_updated c).

Definition hides (s : side) (c : Conversation) : Conversation :=
  MkConversation (cv_letter c) (author c) (replier c) (replier_codename c) (author_blocked c) (replier_blocked c)
    (bool_decide (s = Author) || author_hidden c) (bool_decide (s = Replier) || replier_hidden c)
    (author_cleared_at c) (replier_cleared_at c) (cv_created c) (cv_updated c).

Definition reopened (now : Z) (c : Conversation) : Conversation :=
  MkConversation (cv_letter c) (author c) (replier c) (replier_codename c) (author_blocked c) (replier_blocked c)
    false false (author_cleared_at c) (replier_cleared_at c) (cv_created c) now.

Record MessageData := MkMessageData { md_id : string; md_text : string; md_recalled : bool; md_mine : bool; md_at : Z }.

Record ConversationData := MkConvData {
  cd_id : string; my_letter : string; peer_letter : string; peer_codename : string; my_codename : string;
  cd_blocked : bool; cd_updated : Z; cd_messages : list MessageData
}.

Definition cleared_at (s : side) (c : Conversation) : option Z :=
  if decide (s = Author) then author_cleared_at c else replier_cleared_at c.

Definition listed_for (owner : string) (c : Conversation) : bool :=
  (bool_decide (author c = owner) && negb (author_hidden c)) || (bool_decide (replier c = owner) && negb (replier_hidden c)).

Definition after (cutoff : option Z) (m : Message) : bool :=
  match cutoff with Some t => bool_decide (t < m_created m)%Z | None => true end.

(** The 200 last messages after the cutoff, oldest first. *)
Definition thread (i : string) (cutoff : option Z) (d : tables) : list (string * Message) :=
  reverse (page_of m_created 1 200
    (filter (λ km, bool_decide (m_conv km.2 = i) && after cutoff km.2 = true) (map_to_list (messages d)))).

Definition anonymous : string := "anonymous".

Definition conversation_data (owner i : string) (c : Conversation) (s : side) (d : tables) : ConversationData :=
  let letter_name := default anonymous (l_codename <$> letters d !! cv_letter c) in
  MkConvData i (if decide (s = Author) then cv_letter c else ""%string) (cv_letter c)
    (if decide (s = Author) then replier_codename c else letter_name)
    (if decide (s = Author) then letter_name else replier_codename c)
    (blocked c) (cv_updated c / 1000)
    ((λ km, MkMessageData km.1 (if m_recalled km.2 then "recalled"%string else m_text km.2) (m_recalled km.2)
              (bool_decide (m_sender km.2 = owner)) (m_created km.2 / 1000)) <$> thread i (cleared_at s c) d).

Definition conversations (page : nat) (owner : string) (d : tables) : list ConversationData :=
  omap (λ ic, s ← _participant ic.2 owner; Some (conversation_data owner ic.1 ic.2 s d))
    (page_of cv_updated page 100 (filter (λ ic, listed_for owner ic.2 = true) (map_to_list (convs d)))).

Definition conversation_on (i owner : string) (d : tables) : option (string * Conversation) :=
  head (filter (λ kc, cv_letter kc.2 = i ∧ replier kc.2 = owner) (map_to_list (convs d))).

(** One new message in a conversation that is neither new nor blocked. *)
Definition say (new conv text owner : string) (c : Conversation) : M () :=
  w ← get_state;
  modify (set_convs <[conv := reopened (clock w) c]>) ≫= λ _,
  raise_when (bool_decide (is_Some (messages (db w) !! new))) IntegrityError ≫= λ _,
  modify (set_messages <[new := MkMessage conv owner (strip text) false (clock w)]>).

Definition start_reply (new_conv new codename i text owner : string) : M string :=
  l ← _get_letter i;
  w ← get_state;
  raise_when (bool_decide (l_owner l = owner) || negb (bool_decide (l_privacy l = "public"%string ∨ l_privacy l = "random"%string))
              || negb (is_visible l (clock w))) NOT_FOUND ≫= λ _,
  raise_when (bool_decide (strip text = ""%string)) INVALID_INPUT ≫= λ _,
  match conversation_on i owner (db w) with
  | Some (k, c) =>
      raise_when (blocked c) FORBIDDEN ≫= λ _,
      say new k text owner c ≫= λ _, mret k
  | None =>
      raise_when (bool_decide (is_Some (convs (db w) !! new_conv))) IntegrityError ≫= λ _,
      say new new_conv text owner (MkConversation i (l_owner l) owner codename false false false false None None
        (clock w) (clock w)) ≫= λ _,
      mret new_conv
  end.

Definition send_message (new i text owner : string) : M () :=
  cs ← _conversation i owner;
  raise_when (blocked cs.1) FORBIDDEN ≫= λ _,
  raise_when (bool_decide (strip text = ""%string)) INVALID_INPUT ≫= λ _,
  say new i text owner cs.1.

Definition recall_window : Z := 2 * minute.

Definition recall (i m owner : string) : M () :=
  _ ← _conversation i owner;
  w ← get_state;
  x ← get_or_raise (messages (db w) !! m) NOT_FOUND;
  raise_when (bool_decide (m_conv x ≠ i) || bool_decide (m_sender x ≠ owner)) NOT_FOUND ≫= λ _,
  raise_when (bool_decide (recall_window < clock w - m_created x)%Z) FORBIDDEN ≫= λ _,
  modify (set_messages <[m := MkMessage (m_conv x) (m_sender x) "" true (m_created x)]>).

Definition block (i owner : string) : M () :=
  cs ← _conversation i owner;
  modify (set_convs <[i := blocks cs.2 cs.1]>).

Definition clear (i owner : string) : M () :=
  cs ← _conversation i owner;
  w ← get_state;
  modify (set_convs <[i := clears cs.2 (clock w) cs.1]>).

Definition hide_conversation (i owner : string) : M () :=
  cs ← _conversation i owner;
  w ← get_state;
  modify (set_convs <[i := clears cs.2 (clock w) (hides cs.2 cs.1)]>).

(** ** [reports.py] *)
Inductive target := TLetter | TBottle | TWish.

Definition target_name (t : target) : string :=
  match t with TLetter => "letter" | TBottle => "bottle" | TWish => "wish" end.

Definition target_text (t : target) (i : string) (d : tables) : option string :=
  match t with
  | TLetter => l_content <$> letters d !! i
  | TBottle => b_text <$> bottles d !! i
  | TWish => w_text <$> wishes d !! i
  end.

(** The queue of the administration takes an anonymous report without looking
    for an earlier one. *)
Definition report (t : target) (i reason detail owner : string) : M () :=
  w ← get_state;
  title ← get_or_raise (target_text t i (db w)) NOT_FOUND;
  let k := (owner, target_name t, i) in
  if bool_decide (is_Some (reports (db w) !! k)) then mret tt else
  modify (file_report k (MkReport reason detail (clock w))
    (("treehole_" +:+ target_name t)%string, i, String.substring 0 200 title,
     String.substring 0 500 (reason +:+ ": " +:+ detail)%string)).

(** ** Requests *)
Inductive request :=
| CreateLetter (new : string) (b : LetterInput) | EditLetter (i : string) (b : LetterInput) | RemoveLetter (i : string)
| React (i kind : string)
| CreateBottle (new text : string) | ReplyBottle (i text : string)
| CreateWish (new text : string) | EditWish (i text : string) | RemoveWish (i : string) | LightWish (i : string)
| StartReply (new_conv new codename i text : string) | SendMessage (new i text : string) | Recall (i m : string)
| Block (i : string) | Clear (i : string) | Hide (i : string)
| ReportTo (t : target) (i reason detail : string).

Definition ignore {A} (m : M A) : M () := _ ← m; mret tt.

Definition body (owner : string) (r : request) : M () :=
  match r with
  | CreateLetter new b => ignore (create_letter new b owner)
  | EditLetter i b => ignore (edit_letter i b owner)
  | RemoveLetter i => remove_letter i owner
  | React i kind => ignore (toggle_reaction i kind owner)
  | CreateBottle new text => ignore (create_bottle new text owner)
  | ReplyBottle i text => reply_bottle i text owner
  | CreateWish new text => ignore (create_wish new text owner)
  | EditWish i text => edit_wish i text owner
  | RemoveWish i => remove_wish i owner
  | LightWish i => ignore (light_wish i owner)
  | StartReply new_conv new codename i text => ignore (start_reply new_conv new codename i text owner)
  | SendMessage new i text => send_message new i text owner
  | Recall i m => recall i m owner
  | Block i => block i owner
  | Clear i => clear i owner
  | Hide i => hide_conversation i owner
  | ReportTo t i reason detail => report t i reason detail owner
  end.

Inductive step (w : world) : world → Prop :=
| step_request commits owner r : step w (transaction commits (body owner r) w).2
| step_time t : (clock w ≤ t)%Z → step w (World (db w) t).

(** ** What stays true *)
Record talk_ok (d : tables) : Prop := MkTalk {
  conv_letter : ∀ k c, convs d !! k = Some c → ∃ l, letters d !! cv_letter c = Some l ∧ author c = l_owner l;
  conv_strangers : ∀ k c, convs d !! k = Some c → replier c ≠ author c;
  conv_one : ∀ k1 k2 c1 c2, convs d !! k1 = Some c1 → convs d !! k2 = Some c2 →
    cv_letter c1 = cv_letter c2 → replier c1 = replier c2 → k1 = k2;
  message_conv : ∀ m x, messages d !! m = Some x → ∃ c s, convs d !! m_conv x = Some c ∧ _participant c (m_sender x) = Some s;
  message_text : ∀ m x, messages d !! m = Some x → (m_text x = ""%string ↔ m_recalled x = true);
  reaction_letter : ∀ o i k, (o, i, k) ∈ reactions d → is_Some (letters d !! i) ∧ (k = "like"%string ∨ k = "favorite"%string);
  letter_content : ∀ i l, letters d !! i = Some l → l_content l ≠ ""%string
}.

Definition bottle_ok (b : Bottle) : Prop :=
  (is_Some (picked_by b) ↔ is_Some (b_reply b)) ∧ (is_Some (picked_by b) ↔ is_Some (replied_at b)) ∧
  picked_by b ≠ Some (b_owner b).

Record wishes_ok (d : tables) : Prop := MkWishesOk {
  wish_lights : ∀ i x, wishes d !! i = Some x → w_lights x = Z.of_nat (size (filter (λ p, p.1 = i) (lights d)));
  light_wish_of : ∀ i o, (i, o) ∈ lights d → is_Some (wishes d !! i)
}.

(** At most three rows of an owner in any minute, and none from the future. *)
Definition in_minute (o : string) (t : Z) (m : gmap string (string * Z)) : nat :=
  size (filter (λ ks, ks.2.1 = o ∧ (t - minute < ks.2.2 ≤ t)%Z) m).

Definition paced (now : Z) (m : gmap string (string * Z)) : Prop :=
  (∀ k s, m !! k = Some s → (s.2 ≤ now)%Z) ∧ ∀ o t, in_minute o t m ≤ 3.

Definition letter_stamps (d : tables) : gmap string (string * Z) := (λ l, (l_owner l, l_created l)) <$> letters d.
Definition bottle_stamps (d : tables) : gmap string (string * Z) := (λ b, (b_owner b, b_created b)) <$> bottles d.
Definition wish_stamps (d : tables) : gmap string (string * Z) := (λ x, (w_owner x, w_created x)) <$> wishes d.

Record wf (w : world) : Prop := MkWf {
  wf_talk : talk_ok (db w);
  wf_bottles : map_Forall (λ _, bottle_ok) (bottles (db w));
  wf_wishes : wishes_ok (db w);
  wf_letter_pace : paced (clock w) (letter_stamps (db w));
  wf_bottle_pace : paced (clock w) (bottle_stamps (db w));
  wf_wish_pace : paced (clock w) (wish_stamps (db w))
}.

(** ** Writing too fast *)
Lemma in_minute_subseteq o t m1 m2 : m1 ⊆ m2 → in_minute o t m1 ≤ in_minute o t m2.
Proof. intros Hs. apply map_subseteq_size, map_filter_subseteq_mono, Hs. Qed.

Lemma in_minute_insert o t m k s :
  m !! k = None → in_minute o t (<[k := s]> m) = in_minute o t m + (if decide (s.1 = o ∧ (t - minute < s.2 ≤ t)%Z) then 1 else 0).
Proof.
  intros Hk. unfold in_minute. rewrite map_filter_insert. simpl. case_decide.
  - rewrite map_size_insert_None; [lia|]. apply map_lookup_filter_None. by left.
  - rewrite delete_id by done. lia.
Qed.

Lemma paced_subseteq now m1 m2 : m1 ⊆ m2 → paced now m2 → paced now m1.
Proof.
  intros Hs [Hn Hp]. split; [intros k s Hk; apply (Hn k), (lookup_weaken m1); done|].
  intros o t. etrans; [by apply in_minute_subseteq|apply Hp].
Qed.

Lemma paced_later now t m : (now ≤ t)%Z → paced now m → paced t m.
Proof. intros Ht [Hn Hp]. split; [intros k s Hk; specialize (Hn k s Hk); lia|done]. Qed.

Lemma paced_insert now m k o :
  m !! k = None → paced now m → in_minute o now m < 3 → paced now (<[k := (o, now)]> m).
Proof.
  intros Hk [Hn Hp] Hr. split.
  - intros j s [[<- <-]|[Hj Hs]]%lookup_insert_Some; [simpl; lia|by apply (Hn j)].
  - intros o' t. rewrite in_minute_insert by done. simpl. case_decide as Hd; [|specialize (Hp o' t); lia].
    destruct Hd as [<- Ht]. enough (in_minute o t m ≤ in_minute o now m) by lia.
    apply map_subseteq_size, map_filter_subseteq_ext. simpl. intros j s Hj [-> Hw]. specialize (Hn j s Hj). split; [done|lia].
Qed.

Lemma recent_in_minute {A} (owner_of : A → string) (created : A → Z) o now (m : gmap string A) :
  (∀ k s, ((λ r, (owner_of r, created r)) <$> m) !! k = Some s → (s.2 ≤ now)%Z) →
  recent owner_of created o now m = in_minute o now ((λ r, (owner_of r, created r)) <$> m).
Proof.
  intros Hn. unfold recent, in_minute. rewrite map_filter_fmap, map_size_fmap. f_equal. apply map_filter_ext. simpl.
  intros k r Hr. specialize (Hn k (owner_of r, created r)). rewrite lookup_fmap, Hr in Hn. specialize (Hn eq_refl). simpl in Hn.
  split; intros [-> ?]; (split; [done|lia]).
Qed.

Lemma paced_new {A} (owner_of : A → string) (created : A → Z) now (m : gmap string A) k r :
  m !! k = None → paced now ((λ r, (owner_of r, created r)) <$> m) → created r = now →
  recent owner_of created (owner_of r) now m < 3 → paced now ((λ r, (owner_of r, created r)) <$> <[k := r]> m).
Proof.
  intros Hk Hp Hr Hlt. rewrite fmap_insert, Hr. apply paced_insert; [by rewrite lookup_fmap, Hk|done|].
  rewrite recent_in_minute in Hlt by apply Hp. done.
Qed.

Lemma stamps_edit {A} (owner_of : A → string) (created : A → Z) (m : gmap string A) k r r' :
  m !! k = Some r → owner_of r' = owner_of r → created r' = created r →
  (λ r, (owner_of r, created r)) <$> <[k := r']> m = (λ r, (owner_of r, created r)) <$> m.
Proof. intros Hk Ho Hc. rewrite fmap_insert. apply insert_id. by rewrite lookup_fmap, Hk, Ho, Hc. Qed.

Lemma paced_delete {A} (f : A → string * Z) now (m : gmap string A) k : paced now (f <$> m) → paced now (f <$> delete k m).
Proof. apply paced_subseteq, map_fmap_mono, delete_subseteq. Qed.

(** ** Changes of the tables *)
Lemma talk_same d d' :
  letters d' = letters d → reactions d' = reactions d → convs d' = convs d → messages d' = messages d →
  talk_ok d → talk_ok d'.
Proof. intros E1 E2 E3 E4 []. split; rewrite ?E1, ?E2, ?E3, ?E4; done. Qed.

Lemma talk_letter d i l :
  (∀ l0, letters d !! i = Some l0 → l_owner l = l_owner l0) → l_content l ≠ ""%string → talk_ok d →
  talk_ok (Tables (<[i := l]> (letters d)) (reactions d) (convs d) (messages d) (bottles d) (wishes d) (lights d) (reports d) (queue d)).
Proof.
  intros Ho Hc [H1 H2 H3 H4 H4' H5 H6]. split; simpl; [| |done|done|done| |]; [|done| |].
  - intros k c Hk. destruct (H1 k c Hk) as (l0 & Hl & Ha). destruct (decide (i = cv_letter c)) as [->|Hi].
    + exists l. rewrite lookup_insert_eq. split; [done|]. rewrite (Ho l0 Hl). done.
    + exists l0. by rewrite lookup_insert_ne by done.
  - intros o j k Hr. destruct (H5 o j k Hr) as [? ?]. split; [by apply lookup_insert_is_Some'; right|done].
  - intros j l' [[<- <-]|[? ?]]%lookup_insert_Some; [done|by apply (H6 j)].
Qed.

Lemma talk_purge d i : talk_ok d → talk_ok (purge_letter i d).
Proof.
  intros [H1 H2 H3 H4 H4' H5 H6]. split; simpl.
  - intros k c [Hk Hc]%map_lookup_filter_Some. destruct (H1 k c Hk) as (l & Hl & Ha). exists l.
    by rewrite lookup_delete_ne by done.
  - intros k c [Hk Hc]%map_lookup_filter_Some. by apply (H2 k).
  - intros k1 k2 c1 c2 [? ?]%map_lookup_filter_Some [? ?]%map_lookup_filter_Some. by apply H3.
  - intros m x [Hm Hx]%map_lookup_filter_Some. destruct (H4 m x Hm) as (c & s & Hc & Hs). exists c, s. split; [|done].
    apply map_lookup_filter_Some. split; [done|]. simpl. intros Hl. apply Hx. apply elem_of_dom. exists c.
    by apply map_lookup_filter_Some.
  - intros m x [Hm Hx]%map_lookup_filter_Some. by apply (H4' m).
  - intros o j k [Hr Hj]%elem_of_filter. simpl in Hr. destruct (H5 o j k Hj). split; [|done]. by rewrite lookup_delete_ne by done.
  - intros j l [? Hl]%lookup_delete_Some. by apply (H6 j).
Qed.

Lemma talk_reactions d R :
  (∀ o i k, (o, i, k) ∈ R → (o, i, k) ∈ reactions d ∨ is_Some (letters d !! i) ∧ (k = "like"%string ∨ k = "favorite"%string)) →
  talk_ok d → talk_ok (Tables (letters d) R (convs d) (messages d) (bottles d) (wishes d) (lights d) (reports d) (queue d)).
Proof. intros HR [H1 H2 H3 H4 H4' H5 H6]. split; simpl; [done..| |done]. intros o i k [?|?]%HR; [by apply (H5 o)|done]. Qed.

Lemma talk_conv d i c :
  (∃ l, letters d !! cv_letter c = Some l ∧ author c = l_owner l) → replier c ≠ author c →
  (∀ k c', convs d !! k = Some c' → cv_letter c' = cv_letter c → replier c' = replier c → k = i) →
  (∀ c0, convs d !! i = Some c0 → author c = author c0 ∧ replier c = replier c0) → talk_ok d →
  talk_ok (Tables (letters d) (reactions d) (<[i := c]> (convs d)) (messages d) (bottles d) (wishes d) (lights d) (reports d) (queue d)).
Proof.
  intros Hl Hs Hu Ho [H1 H2 H3 H4 H4' H5 H6]. split; simpl; [| | | |done..].
  - intros k c' [[<- <-]|[? ?]]%lookup_insert_Some; [done|by apply (H1 k)].
  - intros k c' [[<- <-]|[? ?]]%lookup_insert_Some; [done|by apply (H2 k)].
  - intros k1 k2 c1 c2 [[<- <-]|[? Hk1]]%lookup_insert_Some [[<- <-]|[? Hk2]]%lookup_insert_Some ? ?; [done|..].
    + symmetry. by apply (Hu k2 c2).
    + by apply (Hu k1 c1).
    + by apply (H3 k1 k2 c1 c2).
  - intros m x Hm. destruct (H4 m x Hm) as (c0 & s & Hc & Hp). destruct (decide (i = m_conv x)) as [->|?].
    + exists c, s. rewrite lookup_insert_eq. split; [done|]. unfold _participant in *. by destruct (Ho c0 Hc) as [-> ->].
    + exists c0, s. by rewrite lookup_insert_ne by done.
Qed.

(** A change of a conversation that leaves its letter and its two sides. *)
Lemma talk_conv_edit d i c c' :
  convs d !! i = Some c → cv_letter c' = cv_letter c → author c' = author c → replier c' = replier c → talk_ok d →
  talk_ok (Tables (letters d) (reactions d) (<[i := c']> (convs d)) (messages d) (bottles d) (wishes d) (lights d) (reports d) (queue d)).
Proof.
  intros Hc El Ea Er H. apply talk_conv; [| | | |done].
  - rewrite El, Ea. by apply (conv_letter _ H i).
  - rewrite Er, Ea. by apply (conv_strangers _ H i).
  - rewrite El, Er. intros k c0 Hk ? ?. by apply (conv_one _ H k i c0 c).
  - intros c0 Hc0. by simplify_eq.
Qed.

Lemma talk_message d i x c s :
  convs d !! m_conv x = Some c → _participant c (m_sender x) = Some s → (m_text x = ""%string ↔ m_recalled x = true) → talk_ok d →
  talk_ok (Tables (letters d) (reactions d) (convs d) (<[i := x]> (messages d)) (bottles d) (wishes d) (lights d) (reports d) (queue d)).
Proof.
  intros Hc Hp Ht [H1 H2 H3 H4 H4' H5 H6]. split; simpl; [done|done|done| | |done|done].
  - intros m y [[<- <-]|[? ?]]%lookup_insert_Some; [by exists c, s|by apply (H4 m)].
  - intros m y [[<- <-]|[? ?]]%lookup_insert_Some; [done|by apply (H4' m)].
Qed.

Lemma wishes_same d d' : wishes d' = wishes d → lights d' = lights d → wishes_ok d → wishes_ok d'.
Proof. intros E1 E2 []. split; rewrite ?E1, ?E2; done. Qed.

Lemma filter_union_light (i o : string) (l : gset (string * string)) :
  filter (λ p, p.1 = i) (l ∪ {[(i, o)]}) = filter (λ p, p.1 = i) l ∪ {[(i, o)]}.
Proof. apply set_eq. intros [j p]. rewrite elem_of_union, !elem_of_filter, elem_of_union, !elem_of_singleton. naive_solver. Qed.

Lemma wishes_lit d i x o :
  wishes d !! i = Some x → (i, o) ∉ lights d → wishes_ok d →
  wishes_ok (Tables (letters d) (reactions d) (convs d) (messages d) (bottles d)
    (<[i := MkWish (w_owner x) (w_text x) (w_lights x + 1) (w_created x)]> (wishes d)) (lights d ∪ {[(i, o)]}) (reports d) (queue d)).
Proof.
  intros Hx Ho [H1 H2]. split; simpl.
  - intros j y [[<- <-]|[Hj Hy]]%lookup_insert_Some.
    + simpl. rewrite filter_union_light, size_union, size_singleton, (H1 i x) by (done || (rewrite disjoint_singleton_r, elem_of_filter; naive_solver)).
      lia.
    + rewrite (H1 j y) by done. do 2 f_equal. apply set_eq. intros [k p]. rewrite !elem_of_filter, elem_of_union, elem_of_singleton.
      naive_solver.
  - intros j p [?|[= -> ->]%elem_of_singleton]%elem_of_union; apply lookup_insert_is_Some'; [right; by apply (H2 j p)|by left].
Qed.

Lemma wishes_edit d i x x' :
  wishes d !! i = Some x → w_lights x' = w_lights x → wishes_ok d →
  wishes_ok (Tables (letters d) (reactions d) (convs d) (messages d) (bottles d) (<[i := x']> (wishes d)) (lights d) (reports d) (queue d)).
Proof.
  intros Hx Hl [H1 H2]. split; simpl.
  - intros j y [[<- <-]|[Hj Hy]]%lookup_insert_Some; [rewrite Hl; by apply H1|by apply H1].
  - intros j p ?. apply lookup_insert_is_Some'. right. by apply (H2 j p).
Qed.

Lemma wishes_new d i x :
  wishes d !! i = None → w_lights x = 0%Z → wishes_ok d →
  wishes_ok (Tables (letters d) (reactions d) (convs d) (messages d) (bottles d) (<[i := x]> (wishes d)) (lights d) (reports d) (queue d)).
Proof.
  intros Hi Hx [H1 H2]. split; simpl.
  - intros j y [[<- <-]|[Hj Hy]]%lookup_insert_Some; [|by apply H1]. rewrite Hx.
    enough (filter (λ p, p.1 = i) (lights d) = ∅) as -> by by rewrite size_empty.
    apply set_eq. intros [k p]. rewrite elem_of_filter. split; [|set_solver]. simpl. intros [-> Hp].
    destruct (H2 i p Hp). congruence.
  - intros j p ?. apply lookup_insert_is_Some'. right. by apply (H2 j p).
Qed.

Lemma wishes_gone d i :
  wishes_ok d →
  wishes_ok (Tables (letters d) (reactions d) (convs d) (messages d) (bottles d) (delete i (wishes d)) (filter (λ l, l.1 ≠ i) (lights d))
    (reports d) (queue d)).
Proof.
  intros [H1 H2]. split; simpl.
  - intros j y [Hj Hy]%lookup_delete_Some. rewrite (H1 j y) by done. do 2 f_equal. apply set_eq. intros [k p].
    rewrite !elem_of_filter. naive_solver.
  - intros j p [Hj Hp]%elem_of_filter. simpl in Hj. rewrite lookup_delete_ne by done. by apply (H2 j p).
Qed.

(** ** The requests keep the tables consistent *)
Lemma wf_talk_only w d :
  wf w → talk_ok d → letter_stamps d = letter_stamps (db w) → bottles d = bottles (db w) → wishes d = wishes (db w) →
  lights d = lights (db w) → wf (World d (clock w)).
Proof.
  intros [? ? ? ? ? ?] Ht El Eb Ew Es. split; simpl; [done|by rewrite Eb|by eapply wishes_same|by rewrite El| |].
  - unfold bottle_stamps. by rewrite Eb.
  - unfold wish_stamps. by rewrite Ew.
Qed.

Lemma wf_bottles_only w d :
  wf w → letters d = letters (db w) → reactions d = reactions (db w) → convs d = convs (db w) → messages d = messages (db w) →
  wishes d = wishes (db w) → lights d = lights (db w) →
  map_Forall (λ _, bottle_ok) (bottles d) → paced (clock w) (bottle_stamps d) → wf (World d (clock w)).
Proof.
  intros [? ? ? ? ? ?] El Er Ec Em Ew Es ? ?. split; simpl; [by eapply talk_same|done|by eapply wishes_same| |done|].
  - unfold letter_stamps. by rewrite El.
  - unfold wish_stamps. by rewrite Ew.
Qed.

Lemma wf_wishes_only w d :
  wf w → letters d = letters (db w) → reactions d = reactions (db w) → convs d = convs (db w) → messages d = messages (db w) →
  bottles d = bottles (db w) → wishes_ok d → paced (clock w) (wish_stamps d) → wf (World d (clock w)).
Proof.
  intros [? ? ? ? ? ?] El Er Ec Em Eb ? ?. split; simpl; [by eapply talk_same|by rewrite Eb|done| | |done].
  - unfold letter_stamps. by rewrite El.
  - unfold bottle_stamps. by rewrite Eb.
Qed.

Abbreviation keeps m w := (wp m (λ _ w', wf w') (λ _ _, True) w).

(** The next guard, whose condition fails, as [H]. *)
Ltac passes H := cbv beta; try (apply wp_bind; cbv beta); apply wp_raise_when; intros H; [done|cbv beta];
  try (apply bool_decide_eq_false in H).
(** The next row that must exist, as [x] with [H]. *)
Ltac finds x H := cbv beta; try (apply wp_bind; cbv beta); apply wp_get_or_raise; [done|intros x H; cbv beta].

#[local] Hint Extern 0 (wp (modify _) _ _ _) => wp_step : core.

Lemma wp_dt v (Q : option Z → world → Prop) w : (∀ o, Q o w) → wp (_dt v) Q (λ _ _, True) w.
Proof. intros HQ. unfold _dt. destruct v as [z|]; [|wp_step; apply HQ]. passes Hz. wp_step. apply HQ. Qed.

Lemma wp_create_letter new b owner w : wf w → keeps (create_letter new b owner) w.
Proof.
  intros Hw. unfold create_letter, _rate_limit. wp_step. wp_step. passes Hr.
  wp_step. apply wp_dt. intros sch. wp_step. apply wp_dt. intros seal. passes H1. passes H2. passes Ht. passes Hn.
  wp_step. wp_step. wp_step. wp_step. wp_step. apply eq_None_not_Some in Hn. simpl in Ht.
  pose proof (talk_letter (db w) new (MkLetter owner (strip (i_content b)) (i_category b) (i_privacy b) (i_codename b) (i_moods b)
    (i_tags b) (i_sticker b) (i_paper b) sch seal (clock w) (clock w))) as Htl.
  destruct Hw as [G1 G2 G3 G4 G5 G6]. split; simpl; [apply Htl; [naive_solver|done|done]|done|by apply (wishes_same (db w))| |done|done].
  apply paced_new; simpl; [done|done|done|lia].
Qed.

Lemma wp_edit_letter i b owner w : wf w → keeps (edit_letter i b owner) w.
Proof.
  intros Hw. unfold edit_letter, _get_letter. wp_step. wp_step. wp_step. finds l Hl.
  wp_step. wp_step. passes Ho. passes Ht. wp_step. apply wp_dt. intros sch. wp_step. apply wp_dt. intros seal. passes H1.
  wp_step. wp_step. wp_step. wp_step. wp_step. apply wf_talk_only; simpl; [done| |by eapply stamps_edit|done..].
  apply talk_letter; [|done|apply Hw]. intros l0 Hl0. by simplify_eq.
Qed.

Lemma wp_remove_letter i owner w : wf w → keeps (remove_letter i owner) w.
Proof.
  intros Hw. unfold remove_letter, _get_letter. wp_step. wp_step. wp_step. finds l Hl. passes Ho. wp_step.
  destruct Hw as [G1 G2 G3 G4 G5 G6]. split; simpl; [by apply talk_purge|done|by apply (wishes_same (db w))| |done|done].
  by apply paced_delete.
Qed.

Lemma hole_wp_toggle i kind owner w : wf w → keeps (toggle_reaction i kind owner) w.
Proof.
  intros Hw. unfold toggle_reaction, _get_letter. passes Hk. wp_step. wp_step. wp_step. finds l Hl. wp_step. wp_step. passes Hv.
  wp_step. wp_step. wp_step. wp_step. wp_step. apply wf_talk_only; [done| |done..]. apply talk_reactions; [|apply Hw].
  apply negb_false_iff, bool_decide_eq_true in Hk. intros o j k. destruct (bool_decide (_ ∉ _)).
  - intros [?|[= -> -> ->]%elem_of_singleton]%elem_of_union; [by left|right; by split].
  - intros [? ?]%elem_of_difference. by left.
Qed.

Lemma wp_create_bottle new text owner w : wf w → keeps (create_bottle new text owner) w.
Proof.
  intros Hw. unfold create_bottle, _rate_limit. wp_step. wp_step. passes Hr. passes Ht. passes Hn. wp_step. wp_step. wp_step.
  apply eq_None_not_Some in Hn. apply wf_bottles_only; simpl; [done..| |].
  - apply map_Forall_insert_2; [|apply Hw]. split_and!; simpl; [split; intros [? [=]]..|done].
  - apply paced_new; simpl; [done|apply Hw|done|lia].
Qed.

Lemma wp_reply_bottle i text owner w : wf w → keeps (reply_bottle i text owner) w.
Proof.
  intros Hw. unfold reply_bottle. wp_step. wp_step. finds b Hb. passes Hp. passes Ht. wp_step.
  apply orb_false_iff in Hp as [Hp Ho]. apply bool_decide_eq_false in Hp, Ho. apply wf_bottles_only; simpl; [done..| |].
  - apply map_Forall_insert_2; [|apply Hw]. split_and!; simpl; [done..|congruence].
  - unfold bottle_stamps, wish_stamps; simpl; erewrite stamps_edit by done. apply Hw.
Qed.

Lemma wp_create_wish new text owner w : wf w → keeps (create_wish new text owner) w.
Proof.
  intros Hw. unfold create_wish, _rate_limit. wp_step. wp_step. passes Hr. passes Ht. passes Hn. wp_step. wp_step. wp_step.
  apply eq_None_not_Some in Hn. apply (wf_wishes_only w); simpl; try done.
  - apply wishes_new; [done..|apply Hw].
  - apply paced_new; simpl; [done|apply Hw|done|lia].
Qed.

Lemma wp_own_wish i owner (Q : Wish → world → Prop) w :
  (∀ x, wishes (db w) !! i = Some x → w_owner x = owner → Q x w) → wp (own_wish i owner) Q (λ _ _, True) w.
Proof.
  intros HQ. unfold own_wish. wp_step. wp_step. finds x Hx. passes Ho. wp_step. apply HQ; [done|by apply dec_stable].
Qed.

Lemma wp_edit_wish i text owner w : wf w → keeps (edit_wish i text owner) w.
Proof.
  intros Hw. unfold edit_wish. wp_step. apply wp_own_wish. intros x Hx Ho. passes Ht. wp_step. apply (wf_wishes_only w); simpl; try done.
  - apply (wishes_edit _ _ x); [done|done|apply Hw].
  - unfold bottle_stamps, wish_stamps; simpl; erewrite stamps_edit by done. apply Hw.
Qed.

Lemma wp_remove_wish i owner w : wf w → keeps (remove_wish i owner) w.
Proof.
  intros Hw. unfold remove_wish. wp_step. apply wp_own_wish. intros x Hx Ho. wp_step. wp_step. wp_step. apply (wf_wishes_only w); simpl; try done.
  - apply wishes_gone, Hw.
  - apply paced_delete, Hw.
Qed.

Lemma wp_light_wish i owner w : wf w → keeps (light_wish i owner) w.
Proof.
  intros Hw. unfold light_wish. wp_step. wp_step. finds x Hx. wp_step; [by wp_step|]. apply bool_decide_eq_false in Heqb. passes Hi.
  wp_step. wp_step. wp_step. wp_step. wp_step. apply (wf_wishes_only w); simpl; try done.
  - apply wishes_lit; [done|done|apply Hw].
  - unfold bottle_stamps, wish_stamps; simpl; erewrite stamps_edit by done. apply Hw.
Qed.

Lemma wp_conversation i owner (Q : Conversation * side → world → Prop) w :
  (∀ c s, convs (db w) !! i = Some c → _participant c owner = Some s → Q (c, s) w) →
  wp (_conversation i owner) Q (λ _ _, True) w.
Proof. intros HQ. unfold _conversation. wp_step. wp_step. finds c Hc. finds s Hs. wp_step. by apply HQ. Qed.

Lemma wf_conv_edit w i c c' :
  wf w → convs (db w) !! i = Some c → cv_letter c' = cv_letter c → author c' = author c → replier c' = replier c →
  wf (set_convs <[i := c']> w).
Proof. intros Hw Hc El Ea Er. apply wf_talk_only; [done| |done..]. by apply (talk_conv_edit _ i c), Hw. Qed.

Lemma wp_say new conv text owner c s w :
  wf (set_convs <[conv := reopened (clock w) c]> w) → _participant c owner = Some s → strip text ≠ ""%string →
  keeps (say new conv text owner c) w.
Proof.
  intros Hw Hp Ht. unfold say. wp_step. wp_step. wp_step. wp_step. passes Hn. wp_step.
  apply (wf_talk_only (set_convs <[conv := reopened (clock w) c]> w)); [done| |done..].
  apply (talk_message _ _ _ (reopened (clock w) c) s); simpl; [by rewrite lookup_insert_eq|done| |apply Hw].
  split; [done|discriminate].
Qed.

Lemma participant_author c owner : author c = owner → _participant c owner = Some Author.
Proof. intros <-. unfold _participant. by rewrite bool_decide_eq_true_2. Qed.

Lemma participant_replier c owner : author c ≠ owner → replier c = owner → _participant c owner = Some Replier.
Proof. intros ? <-. unfold _participant. by rewrite bool_decide_eq_false_2, bool_decide_eq_true_2. Qed.

Lemma participant_side c owner s : _participant c owner = Some s → owner = (if decide (s = Author) then author c else replier c).
Proof. unfold _participant. repeat case_bool_decide; intros [= <-]; by subst. Qed.

Lemma conversation_on_Some i owner d k c :
  conversation_on i owner d = Some (k, c) → convs d !! k = Some c ∧ cv_letter c = i ∧ replier c = owner.
Proof.
  unfold conversation_on. intros Hh. assert (Hin : (k, c) ∈ filter (λ kc, cv_letter kc.2 = i ∧ replier kc.2 = owner) (map_to_list (convs d))).
  { destruct (filter _ _); [done|]. simpl in Hh. simplify_eq. left. }
  apply list_elem_of_filter in Hin as [[? ?] ?%elem_of_map_to_list]. done.
Qed.

Lemma conversation_on_None i owner d k c :
  conversation_on i owner d = None → convs d !! k = Some c → cv_letter c = i → replier c = owner → False.
Proof.
  unfold conversation_on. intros Hh Hk Hi Ho.
  assert (Hin : (k, c) ∈ filter (λ kc, cv_letter kc.2 = i ∧ replier kc.2 = owner) (map_to_list (convs d))).
  { apply list_elem_of_filter. split; [done|]. by apply elem_of_map_to_list. }
  destruct (filter _ _); [by apply elem_of_nil in Hin|done].
Qed.

Lemma wp_start_reply new_conv new codename i text owner w : wf w → keeps (start_reply new_conv new codename i text owner) w.
Proof.
  intros Hw. unfold start_reply, _get_letter. wp_step. wp_step. wp_step. finds l Hl. wp_step. wp_step. passes Hv. passes Ht.
  apply orb_false_iff in Hv as [[Ho Hp]%orb_false_iff Hv]. apply bool_decide_eq_false in Ho.
  destruct (conversation_on i owner (db w)) as [[k c]|] eqn:Hc.
  - apply conversation_on_Some in Hc as (Hk & Hi & Hr). passes Hb. wp_step.
    eapply wp_mono; [eapply (wp_say _ _ _ _ c Replier)|..]; [by eapply wf_conv_edit| |done|..].
    + apply participant_replier; [|done]. pose proof (conv_strangers _ (wf_talk _ Hw) k c Hk). congruence.
    + intros [] w' ?. by wp_step.
    + done.
  - passes Hn. apply eq_None_not_Some in Hn. wp_step.
    eapply wp_mono; [eapply (wp_say _ _ _ _ _ Replier)|..]; [| |done|..].
    + apply wf_talk_only; [done| |done..]. apply talk_conv; simpl; [by exists l|done| |by rewrite Hn|apply Hw].
      intros k c Hk Ei Er. by destruct (conversation_on_None i owner (db w) k c).
    + by apply participant_replier.
    + intros [] w' ?. by wp_step.
    + done.
Qed.

Lemma wp_send_message new i text owner w : wf w → keeps (send_message new i text owner) w.
Proof.
  intros Hw. unfold send_message. wp_step. apply wp_conversation. intros c s Hc Hs. passes Hb. passes Ht.
  apply (wp_say _ _ _ _ _ s); [by eapply wf_conv_edit|done|done].
Qed.

Lemma wp_recall i m owner w : wf w → keeps (recall i m owner) w.
Proof.
  intros Hw. unfold recall. wp_step. apply wp_conversation. intros c s Hc Hs. wp_step. wp_step. finds x Hx. passes Hp. passes Ht. wp_step.
  apply wf_talk_only; [done| |done..]. destruct (message_conv _ (wf_talk _ Hw) m x Hx) as (c' & s' & Hc' & Hs').
  by apply (talk_message _ _ _ c' s'); [..|apply Hw].
Qed.

Lemma hole_wp_body owner r w : wf w → keeps (body owner r) w.
Proof.
  assert (Hi : ∀ A (m : M A), keeps m w → keeps (ignore m) w).
  { intros A m Hm. unfold ignore. wp_step. eapply wp_mono; [exact Hm| |done]. intros a w' ?. by wp_step. }
  intros Hw. destruct r; simpl; try (apply Hi).
  - by apply wp_create_letter.
  - by apply wp_edit_letter.
  - by apply wp_remove_letter.
  - by apply hole_wp_toggle.
  - by apply wp_create_bottle.
  - by apply wp_reply_bottle.
  - by apply wp_create_wish.
  - by apply wp_edit_wish.
  - by apply wp_remove_wish.
  - by apply wp_light_wish.
  - by apply wp_start_reply.
  - by apply wp_send_message.
  - by apply wp_recall.
  - unfold block. wp_step. apply wp_conversation. intros c s Hc Hs. wp_step. by eapply wf_conv_edit.
  - unfold clear. wp_step. apply wp_conversation. intros c s Hc Hs. wp_step. wp_step. wp_step. by eapply wf_conv_edit.
  - unfold hide_conversation. wp_step. apply wp_conversation. intros c s Hc Hs. wp_step. wp_step. wp_step. by eapply wf_conv_edit.
  - unfold report. wp_step. wp_step. finds title Ht. wp_step; [by wp_step|]. wp_step.
    apply wf_talk_only; [done| |done..]. eapply (talk_same (db w)); [done..|apply Hw].
Qed.

(** ** Steps *)
Definition same_clock (w w' : world) : Prop := clock w' = clock w.

#[local] Instance same_clock_preorder : PreOrder same_clock.
Proof. split; [done|]. intros ??? H1 H2. unfold same_clock in *. congruence. Qed.

#[local] Hint Extern 1 (respects same_clock (modify _)) => apply respects_modify; intros; reflexivity : respects.

Lemma clock_dt v : respects same_clock (_dt v).
Proof. unfold _dt. destruct v; respects. Qed.
Lemma clock_get i : respects same_clock (_get_letter i).
Proof. unfold _get_letter. respects. Qed.
Lemma clock_conversation i owner : respects same_clock (_conversation i owner).
Proof. unfold _conversation. respects. Qed.
Lemma clock_say new conv text owner c : respects same_clock (say new conv text owner c).
Proof. unfold say. respects. Qed.
Lemma clock_own i owner : respects same_clock (own_wish i owner).
Proof. unfold own_wish. respects. Qed.
#[local] Hint Resolve clock_dt clock_get clock_conversation clock_say clock_own : respects.

Lemma hole_clock_body owner r : respects same_clock (body owner r).
Proof.
  destruct r; simpl;
    unfold ignore, create_letter, edit_letter, remove_letter, toggle_reaction, create_bottle, reply_bottle, create_wish,
      edit_wish, remove_wish, light_wish, start_reply, send_message, recall, block, clear, hide_conversation, report, _rate_limit;
    respects.
Qed.

Lemma hole_transaction_keeps commits owner r w : wf w → wf (transaction commits (body owner r) w).2.
Proof.
  intros Hw. pose proof (hole_wp_body owner r w Hw) as Hp. pose proof (hole_clock_body owner r w) as Hc. unfold transaction, wp in *.
  assert (Hb : ∀ w', clock w' = clock w → wf (set_db (λ _, db w) w')).
  { intros w' Hw'. unfold set_db. rewrite Hw'. by destruct w. }
  destruct (body owner r w) as [[[]|e] w']; simpl in *; [destruct commits; simpl; [done|by apply Hb]|by apply Hb].
Qed.

Lemma hole_step_wf w w' : step w w' → wf w → wf w'.
Proof.
  intros [commits owner r|t Ht] Hw; [by apply hole_transaction_keeps|].
  destruct Hw. split; simpl; [done..|by eapply paced_later|by eapply paced_later|by eapply paced_later].
Qed.

Definition empty_treehole (now : Z) : world := World (Tables ∅ ∅ ∅ ∅ ∅ ∅ ∅ ∅ []) now.

Lemma hole_empty_wf now : wf (empty_treehole now).
Proof.
  assert (Hp : paced now ∅) by (split; [done|]; intros o t; unfold in_minute; rewrite map_filter_empty, map_size_empty; lia).
  split; unfold letter_stamps, bottle_stamps, wish_stamps; simpl; rewrite ?fmap_empty; try done.
Qed.

Lemma hole_reachable_wf now w : rtc step (empty_treehole now) w → wf w.
Proof.
  intros Hr. apply (invariant_reachable step wf _ w (hole_empty_wf now)); [|done]. intros a b Ha Hs. by apply (hole_step_wf a b).
Qed.

(** ** A bottle is answered once *)
Definition answers_stay (w w' : world) : Prop :=
  ∀ i b, bottles (db w) !! i = Some b → is_Some (picked_by b) → bottles (db w') !! i = Some b.

#[local] Instance answers_stay_preorder : PreOrder answers_stay.
Proof. split; [by intros w i b|]. intros w1 w2 w3 H1 H2 i b Hb Hp. by apply H2; [apply H1|]. Qed.

Lemma answers_same f w : bottles (db (f w)) = bottles (db w) → answers_stay w (f w).
Proof. intros E i b Hb _. by rewrite E. Qed.

Lemma answers_insert w i b :
  (∀ b0, bottles (db w) !! i = Some b0 → picked_by b0 = None) → answers_stay w (set_bottles <[i := b]> w).
Proof.
  intros Hi j b' Hj [p Hp]. simpl. destruct (decide (i = j)) as [->|?]; [|by rewrite lookup_insert_ne].
  rewrite (Hi b' Hj) in Hp. done.
Qed.

(** ** A blocked conversation *)
Definition unsaid (w w' : world) : Prop := convs (db w') = convs (db w) ∧ messages (db w') = messages (db w).

#[local] Instance unsaid_preorder : PreOrder unsaid.
Proof. split; [done|]. intros w1 w2 w3 [E1 E2] [E3 E4]. split; congruence. Qed.

Definition withdrawn (x : Message) : Message := MkMessage (m_conv x) (m_sender x) "" true (m_created x).

(** What a blocked conversation [i] may still become: its messages may be
    recalled, both sides may clear, hide and block it, and it goes with its
    letter. *)
Definition silent (i : string) (w w' : world) : Prop :=
  ∀ c, convs (db w) !! i = Some c → blocked c = true →
    (∀ m x', messages (db w') !! m = Some x' → m_conv x' = i →
       ∃ x, messages (db w) !! m = Some x ∧ m_conv x = i ∧ (x' = x ∨ x' = withdrawn x)) ∧
    match convs (db w') !! i with
    | Some c' => blocked c' = true ∧ cv_letter c' = cv_letter c ∧ author c' = author c ∧ replier c' = replier c ∧
                 cv_updated c' = cv_updated c
    | None => ∀ m x', messages (db w') !! m = Some x' → m_conv x' ≠ i
    end.

#[local] Hint Extern 1 (respects unsaid (modify _)) => apply respects_modify; intros; split; reflexivity : respects.

Lemma unsaid_dt v : respects unsaid (_dt v).
Proof. unfold _dt. destruct v; respects. Qed.
Lemma unsaid_get i : respects unsaid (_get_letter i).
Proof. unfold _get_letter. respects. Qed.
Lemma unsaid_own i owner : respects unsaid (own_wish i owner).
Proof. unfold own_wish. respects. Qed.
Lemma unsaid_conversation i owner : respects unsaid (_conversation i owner).
Proof. unfold _conversation. respects. Qed.
#[local] Hint Resolve unsaid_dt unsaid_get unsaid_own unsaid_conversation : respects.

Definition talks (r : request) : bool :=
  match r with
  | RemoveLetter _ | StartReply _ _ _ _ _ | SendMessage _ _ _ | Recall _ _ | Block _ | Clear _ | Hide _ => true
  | _ => false
  end.

Lemma unsaid_body owner r : talks r = false → respects unsaid (body owner r).
Proof.
  intros Hr. destruct r; try discriminate Hr; simpl;
    unfold ignore, create_letter, edit_letter, toggle_reaction, create_bottle, reply_bottle, create_wish,
      edit_wish, remove_wish, light_wish, report, _rate_limit;
    respects.
Qed.

Lemma silent_unsaid i w w' : unsaid w w' → silent i w w'.
Proof.
  intros [Ec Em] c Hc Hb. rewrite Ec, Em, Hc. split; [|done]. intros m x Hm Hi. exists x. auto.
Qed.

(** A change of a conversation's row that keeps its sides and its block. *)
Lemma silent_conv i k c c' w :
  convs (db w) !! k = Some c → (blocked c = true → blocked c' = true) → cv_letter c' = cv_letter c → author c' = author c →
  replier c' = replier c → cv_updated c' = cv_updated c → silent i w (set_convs <[k := c']> w).
Proof.
  intros Hk Hb El Ea Er Eu c0 Hc0 Hb0. simpl. split; [intros m x Hm Hi; exists x; auto|].
  destruct (decide (k = i)) as [->|Hki].
  - rewrite lookup_insert_eq. simplify_eq. auto.
  - rewrite lookup_insert_ne, Hc0 by done. auto.
Qed.

(** Words said in another conversation. *)
Lemma silent_say i w new k text owner c :
  (∀ c0, convs (db w) !! i = Some c0 → blocked c0 = true → k ≠ i) →
  wp (say new k text owner c) (λ _ w', silent i w w') (λ _ _, True) w.
Proof.
  intros Hk. unfold say. wp_step. wp_step. wp_step. wp_step. passes Hn. wp_step. apply eq_None_not_Some in Hn.
  intros c0 Hc0 Hb0. specialize (Hk c0 Hc0 Hb0). simpl. rewrite lookup_insert_ne, Hc0 by done. split; [|done].
  intros m x [[<- <-]|[? ?]]%lookup_insert_Some Hi; [done|]. exists x. auto.
Qed.

Lemma blocked_blocks s c : blocked (blocks s c) = true.
Proof. unfold blocked, blocks. destruct s, (author_blocked c), (replier_blocked c); done. Qed.

Lemma silent_body i owner r w : wp (body owner r) (λ _ w', silent i w w') (λ _ _, True) w.
Proof.
  destruct (talks r) eqn:Hr.
  2:{ unfold wp. pose proof (unsaid_body owner r Hr w) as Hu. destruct (body owner r w) as [[?|?] w']; [by apply silent_unsaid|done]. }
  destruct r; try discriminate Hr; simpl.
  - unfold remove_letter, _get_letter. wp_step. wp_step. wp_step. finds l Hl. passes Ho. wp_step. intros c Hc Hb. simpl.
    split; [intros m x [Hm ?]%map_lookup_filter_Some Hi; exists x; auto|].
    destruct (filter _ (convs _) !! i) as [c'|] eqn:Hf.
    + apply map_lookup_filter_Some in Hf as [? ?]. by simplify_eq.
    + intros m x [Hm Hx]%map_lookup_filter_Some Hi. simpl in Hx. apply Hx, elem_of_dom. rewrite Hi. exists c. apply map_lookup_filter_Some.
      split; [done|]. simpl. apply dec_stable. intros Hne. apply map_lookup_filter_None in Hf as [?|Hf]; [congruence|].
      by apply (Hf c).
  - unfold ignore, start_reply, _get_letter. wp_step. wp_step. wp_step. wp_step. finds l Hl. wp_step. wp_step. passes Hv. passes Ht.
    destruct (conversation_on i0 owner (db w)) as [[k c]|] eqn:Hc.
    + apply conversation_on_Some in Hc as (Hk & _). passes Hb. wp_step. eapply wp_mono; [apply (silent_say i); congruence| |done].
      intros [] w' ?. by do 2 wp_step.
    + passes Hn. apply eq_None_not_Some in Hn. wp_step. eapply wp_mono; [apply (silent_say i); congruence| |done].
      intros [] w' ?. by do 2 wp_step.
  - unfold send_message. wp_step. apply wp_conversation. intros c s Hc Hs. passes Hb. passes Ht. simpl.
    apply silent_say. simpl in Hb. congruence.
  - unfold recall. wp_step. apply wp_conversation. intros c s Hc Hs. wp_step. wp_step. finds x Hx. passes Hp. passes Ht. wp_step.
    intros c0 Hc0 Hb0. simpl. rewrite Hc0. split; [|done].
    intros m' x' [[<- <-]|[? ?]]%lookup_insert_Some Hi; [exists x; auto|exists x'; auto].
  - unfold block. wp_step. apply wp_conversation. intros c s Hc Hs. wp_step. apply (silent_conv _ _ c); [done|by rewrite blocked_blocks|done..].
  - unfold clear. wp_step. apply wp_conversation. intros c s Hc Hs. wp_step. wp_step. wp_step. by apply (silent_conv _ _ c).
  - unfold hide_conversation. wp_step. apply wp_conversation. intros c s Hc Hs. wp_step. wp_step. wp_step. by apply (silent_conv _ _ c).
Qed.

#[local] Hint Extern 1 (respects answers_stay (modify _)) => apply respects_modify; intros; apply answers_same; reflexivity : respects.

Lemma answers_dt v : respects answers_stay (_dt v).
Proof. unfold _dt. destruct v; respects. Qed.
Lemma answers_get i : respects answers_stay (_get_letter i).
Proof. unfold _get_letter. respects. Qed.
Lemma answers_own i owner : respects answers_stay (own_wish i owner).
Proof. unfold own_wish. respects. Qed.
Lemma answers_conversation i owner : respects answers_stay (_conversation i owner).
Proof. unfold _conversation. respects. Qed.
Lemma answers_say new conv text owner c : respects answers_stay (say new conv text owner c).
Proof. unfold say. respects. Qed.
#[local] Hint Resolve answers_dt answers_get answers_own answers_conversation answers_say : respects.

Lemma answers_body owner r w : wp (body owner r) (λ _ w', answers_stay w w') (λ _ _, True) w.
Proof.
  assert (Ha : respects answers_stay (body owner r) → wp (body owner r) (λ _ w', answers_stay w w') (λ _ _, True) w).
  { intros Hr. specialize (Hr w). unfold wp. by destruct (body owner r w) as [[?|?] w']. }
  destruct r; try (solve [apply Ha; simpl;
    unfold ignore, create_letter, edit_letter, remove_letter, toggle_reaction, create_wish,
      edit_wish, remove_wish, light_wish, start_reply, send_message, recall, block, clear, hide_conversation, report, _rate_limit;
    respects]); clear Ha; simpl.
  - unfold ignore, create_bottle, _rate_limit. do 3 wp_step. passes Hr. passes Ht. passes Hn. do 4 wp_step.
    apply eq_None_not_Some in Hn. apply answers_insert. congruence.
  - unfold reply_bottle. wp_step. wp_step. finds b Hb. passes Hp. passes Ht. wp_step. apply answers_insert. intros b0 Hb0.
    apply orb_false_iff in Hp as [Hp _]. apply bool_decide_eq_false, eq_None_not_Some in Hp. congruence.
Qed.

Lemma transaction_related (R : world → world → Prop) commits owner r w :
  (∀ w', clock w' = clock w → R w (set_db (λ _, db w) w')) → wp (body owner r) (λ _ w', R w w') (λ _ _, True) w →
  R w (transaction commits (body owner r) w).2.
Proof.
  intros Hb Hp. pose proof (hole_clock_body owner r w) as Hc. unfold transaction, wp in *.
  destruct (body owner r w) as [[[]|e] w']; simpl in *; [destruct commits; simpl; [done|by apply Hb]|by apply Hb].
Qed.

(** ** Pages *)
Lemma page_of_all {A} (created : A → Z) limit (rows : list (string * A)) x :
  0 < limit → x ∈ rows ↔ ∃ page, 1 ≤ page ∧ x ∈ page_of created page limit rows.
Proof.
  intros Hl. unfold page_of. split.
  - intros Hx. rewrite <- (merge_sort_Permutation (newest created)) in Hx. apply list_elem_of_lookup in Hx as [k Hk].
    exists (S (k / limit)). split; [lia|]. apply list_elem_of_lookup. exists (k mod limit).
    pose proof (Nat.mod_upper_bound k limit) as Hm. rewrite lookup_take_lt by lia. rewrite lookup_drop. rewrite <- Hk. f_equal.
    pose proof (Nat.div_mod_eq k limit). nia.
  - intros (page & _ & [k Hk]%list_elem_of_lookup). apply lookup_take_Some in Hk as [Hk _]. rewrite lookup_drop in Hk.
    apply list_elem_of_lookup_2 in Hk. by rewrite merge_sort_Permutation in Hk.
Qed.

Lemma page_of_length {A} (created : A → Z) page limit (rows : list (string * A)) : length (page_of created page limit rows) ≤ limit.
Proof. unfold page_of. rewrite length_take. lia. Qed.

(** ** Properties *)

(** C36: The treehole stays consistent: in every state that requests and time reach,
    a conversation belongs to a letter that exists, its author is the letter's
    owner and its replier somebody else, a letter has one conversation with a
    replier, a message is by one of the two sides of its conversation, a wish
    counts its lights, an answered bottle has a reply that is not by its owner,
    and in any minute at most three of the letters, bottles and wishes that are
    kept are by the same visitor. *)
Theorem treehole_consistent (now : Z) (w : world) :
  rtc step (empty_treehole now) w →
  (∀ k c, convs (db w) !! k = Some c →
     (∃ l, letters (db w) !! cv_letter c = Some l ∧ l_owner l = author c ∧ replier c ≠ author c) ∧
     ∀ k' c', convs (db w) !! k' = Some c' → cv_letter c' = cv_letter c → replier c' = replier c → k' = k) ∧
  (∀ m x, messages (db w) !! m = Some x → ∃ c, convs (db w) !! m_conv x = Some c ∧ (m_sender x = author c ∨ m_sender x = replier c)) ∧
  (∀ i x, wishes (db w) !! i = Some x → w_lights x = Z.of_nat (size (filter (λ p, p.1 = i) (lights (db w))))) ∧
  (∀ i b p, bottles (db w) !! i = Some b → picked_by b = Some p → p ≠ b_owner b ∧ is_Some (b_reply b)) ∧
  ∀ o t, in_minute o t (letter_stamps (db w)) ≤ 3 ∧ in_minute o t (bottle_stamps (db w)) ≤ 3 ∧ in_minute o t (wish_stamps (db w)) ≤ 3.
Proof.
  intros [Ht Hb Hw [_ P1] [_ P2] [_ P3]]%hole_reachable_wf. split_and!; [| | | |done].
  - intros k c Hk. split; [|intros k' c' Hk' El Er; by apply (conv_one _ Ht k' k c' c)].
    destruct (conv_letter _ Ht k c Hk) as (l & Hl & Ha). exists l. split_and!; [done|done|by apply (conv_strangers _ Ht k)].
  - intros m x Hm. destruct (message_conv _ Ht m x Hm) as (c & s & Hc & Hs). exists c. split; [done|].
    apply participant_side in Hs as ->. destruct (decide _); auto.
  - apply Hw.
  - intros i b p Hi Hp. destruct (Hb i b Hi) as (H1 & H2 & H3). rewrite Hp in H1, H3. split; [congruence|]. by apply H1.
Qed.

(** A blocked conversation is silent: as long as it exists it stays blocked
    between the same two sides, nothing new is said in it, and its messages can
    only be recalled. *)
Theorem blocked_conversation_silent (i : string) (w w' : world) (c : Conversation) :
  rtc (λ a b, step a b ∧ is_Some (convs (db b) !! i)) w w' → convs (db w) !! i = Some c → blocked c = true →
  (∃ c', convs (db w') !! i = Some c' ∧ blocked c' = true ∧ author c' = author c ∧ replier c' = replier c ∧
     cv_updated c' = cv_updated c) ∧
  ∀ m x', messages (db w') !! m = Some x' → m_conv x' = i →
    ∃ x, messages (db w) !! m = Some x ∧ m_conv x = i ∧ (x' = x ∨ x' = withdrawn x).
Proof.
  intros Hr. revert c. induction Hr as [w|w1 w2 w3 [Hs [c2 Hc2]] _ IH]; intros c Hc Hb.
  { split; [by exists c|]. intros m x Hm Hi. exists x. auto. }
  assert (Hsil : silent i w1 w2).
  { destruct Hs as [commits owner r|t Ht].
    - apply transaction_related; [|apply silent_body]. intros w' _. by apply silent_unsaid.
    - by apply silent_unsaid. }
  destruct (Hsil c Hc Hb) as [Hm Hi]. rewrite Hc2 in Hi. destruct Hi as (Hb2 & _ & Ha & Hrp & Hu).
  destruct (IH c2 Hc2 Hb2) as [(c3 & Hc3 & Hb3 & Ha3 & Hr3 & Hu3) Hm3]. split; [exists c3; split_and!; congruence|].
  intros m x3 Hx3 Hi3. destruct (Hm3 m x3 Hx3 Hi3) as (x2 & Hx2 & Hi2 & E2).
  destruct (Hm m x2 Hx2 Hi2) as (x1 & Hx1 & Hi1 & E1). exists x1. split_and!; [done|done|].
  destruct E1 as [->| ->], E2 as [->| ->]; auto.
Qed.

(** A bottle is answered once: whoever answers first, the bottle, its answer
    and who picked it up stay as they are. *)
Theorem bottle_answered_once (w w' : world) (i : string) (b : Bottle) :
  rtc step w w' → bottles (db w) !! i = Some b → is_Some (picked_by b) → bottles (db w') !! i = Some b.
Proof.
  intros Hr Hi Hp. enough (Ha : answers_stay w w') by (by apply Ha). clear Hi Hp.
  induction Hr as [w|w1 w2 w3 Hs _ IH]; [done|].
  assert (Ha : answers_stay w1 w2).
  { destruct Hs as [commits owner r|t Ht]; [|by intros ? ?].
    apply transaction_related; [by intros w' _ ? ?|apply answers_body]. }
  by etrans.
Qed.

(** A reader sees what is his and what is public now: every letter of a page
    is stored, and it is the reader's, or a public or random one that is visible
    at this moment and says when it was published; a page holds at most [limit]
    letters, and every letter of the scope is on some page. *)
Theorem list_letters_shows (scope : string) (limit : nat) (owner : option string) (w : world) :
  0 < limit → (scope = "mine"%string → is_Some owner) →
  (∀ page, ∃ rows, list_letters scope page limit owner w = (Ok rows, w) ∧ length rows ≤ limit ∧
     ∀ x, x ∈ rows → letters (db w) !! d_id x = Some (d_letter x) ∧
       (d_mine x = true ∨ l_privacy (d_letter x) ∈ ["public"; "random"]%string ∧ is_visible (d_letter x) (clock w) = true ∧
        is_Some (d_published x))) ∧
  ∀ i l, letters (db w) !! i = Some l → in_scope scope owner (clock w) l = true →
    ∃ page rows, 1 ≤ page ∧ list_letters scope page limit owner w = (Ok rows, w) ∧
      _letter_data i l owner (clock w) (db w) ∈ rows.
Proof.
  intros Hl Hm. set (sel := filter (λ il, in_scope scope owner (clock w) il.2 = true) (map_to_list (letters (db w)))).
  assert (Hrun : ∀ page, list_letters scope page limit owner w =
    (Ok ((λ il, _letter_data il.1 il.2 owner (clock w) (db w)) <$> page_of l_created page limit sel), w)).
  { intros page. unfold list_letters. rewrite run_get_state, run_raise_when, bool_decide_eq_false_2; [done|].
    intros [Hs ->]. by destruct (Hm Hs). }
  assert (Hsel : ∀ il, il ∈ sel ↔ letters (db w) !! il.1 = Some il.2 ∧ in_scope scope owner (clock w) il.2 = true).
  { intros [i l]. unfold sel. rewrite list_elem_of_filter, elem_of_map_to_list. simpl. tauto. }
  split.
  - intros page. eexists. split; [apply Hrun|]. split; [rewrite length_fmap; apply page_of_length|].
    intros x ([i l] & -> & Hx)%list_elem_of_fmap. simpl.
    assert (Hin : (i, l) ∈ sel) by (destruct (decide (1 ≤ page)); [by apply (page_of_all l_created limit); [|exists page]|
      unfold page_of in Hx; apply list_elem_of_lookup in Hx as [k Hk]; apply lookup_take_Some in Hk as [Hk _];
      rewrite lookup_drop in Hk; apply list_elem_of_lookup_2 in Hk; by rewrite merge_sort_Permutation in Hk]).
    apply Hsel in Hin as [Hi Hs]. simpl in *. split; [done|]. unfold in_scope in Hs. case_bool_decide.
    + left. done.
    + right. apply andb_true_iff in Hs as [Hp Hv]. apply bool_decide_eq_true in Hp. rewrite Hv. split_and!; [|done|by eexists].
      rewrite Hp. case_decide; set_solver.
  - intros i l Hi Hs. assert (Hin : (i, l) ∈ sel) by by apply Hsel.
    apply (page_of_all l_created limit) in Hin as (page & Hp & Hin); [|done].
    exists page. eexists. split; [done|]. split; [apply Hrun|]. apply list_elem_of_fmap. by exists (i, l).
Qed.

(** ** A worked treehole *)
Definition request_of (r : string * request) (w : world) : world := (transaction true (body r.1 r.2) w).2.

Definition runs (rs : list (string * request)) (w : world) : world := foldl (λ w r, request_of r w) w rs.

Lemma runs_reachable rs w : rtc step w (runs rs w).
Proof.
  revert w. induction rs as [|[o r] rs IH]; intros w; [constructor|]. eapply rtc_l; [apply (step_request w true o r)|apply IH].
Qed.

Definition letter_by (text : string) : LetterInput :=
  MkLetterInput text "mood" "public" "Nobody" [] [] "" "paper" None None.

Definition demo_treehole : world :=
  runs [("alice", CreateLetter "l1" (letter_by "hello")); ("bob", StartReply "c1" "m1" "Visitor" "l1" "hi");
        ("alice", SendMessage "m2" "c1" "leave me"); ("carol", React "l1" "like");
        ("alice", CreateBottle "b1" "who is there"); ("bob", ReplyBottle "b1" "me");
        ("alice", CreateWish "w1" "rain"); ("bob", LightWish "w1"); ("bob", LightWish "w1"); ("alice", Block "c1");
        ("bob", ReportTo TLetter "l1" "rude" "")]%string (empty_treehole 1000000).

Definition demo_conversation : Conversation :=
  MkConversation "l1" "alice" "bob" "Visitor" true false false false None None 1000000 1000000.

Lemma treehole_consistent_witness : rtc step (empty_treehole 1000000) demo_treehole ∧
  ∀ x, wishes (db demo_treehole) !! "w1"%string = Some x → w_lights x = Z.of_nat (size (filter (λ p, p.1 = "w1"%string) (lights (db demo_treehole)))).
Proof.
  split; [apply runs_reachable|]. apply (treehole_consistent 1000000). apply runs_reachable.
Defined.

(** Bob speaks to the author who has blocked him, and recalls what he said. *)
Definition demo_pestered : world :=
  runs [("bob", SendMessage "m3" "c1" "please"); ("bob", StartReply "c2" "m4" "Visitor" "l1" "please");
        ("bob", Recall "c1" "m1")]%string demo_treehole.

Lemma blocked_conversation_silent_witness :
  (convs (db demo_treehole) !! "c1"%string = Some demo_conversation ∧ blocked demo_conversation = true ∧
   messages (db demo_pestered) !! "m3"%string = None ∧ messages (db demo_pestered) !! "m4"%string = None) ∧
  ∃ c', convs (db demo_pestered) !! "c1"%string = Some c' ∧ blocked c' = true ∧ author c' = author demo_conversation ∧
    replier c' = replier demo_conversation ∧ cv_updated c' = cv_updated demo_conversation.
Proof.
  split; [split_and!; by vm_compute|].
  apply (blocked_conversation_silent "c1" demo_treehole demo_pestered demo_conversation); [|by vm_compute|done].
  eapply rtc_l; [split; [apply (step_request _ true "bob" (SendMessage "m3" "c1" "please"))|eexists; by vm_compute]|].
  eapply rtc_l; [split; [apply (step_request _ true "bob" (StartReply "c2" "m4" "Visitor" "l1" "please"))|eexists; by vm_compute]|].
  eapply rtc_l; [split; [apply (step_request _ true "bob" (Recall "c1" "m1"))|eexists; by vm_compute]|].
  constructor.
Defined.

Definition demo_bottle : Bottle :=
  MkBottle "alice" "who is there" 1000000 (Some "bob"%string) (Some "me"%string) (Some 1000000%Z).

Lemma bottle_answered_once_witness :
  bottles (db (runs [("carol", ReplyBottle "b1" "no, me")]%string demo_treehole)) !! "b1"%string = Some demo_bottle.
Proof.
  apply (bottle_answered_once demo_treehole _ "b1" demo_bottle); [apply runs_reachable|by vm_compute|by eexists].
Defined.

Lemma list_letters_shows_witness :
  ∃ page rows, 1 ≤ page ∧ list_letters "public" page 10 (Some "bob"%string) demo_treehole = (Ok rows, demo_treehole) ∧
    _letter_data "l1" (MkLetter "alice" "hello" "mood" "public" "Nobody" [] [] "" "paper" None None 1000000 1000000)
      (Some "bob"%string) 1000000 (db demo_treehole) ∈ rows.
Proof.
  apply (list_letters_shows "public" 10 (Some "bob"%string) demo_treehole); [lia|discriminate|by vm_compute|by vm_compute].
Defined.

(** The limit counts the rows that are still there: whoever deletes his
    letters writes as many as he wants. *)
Lemma deleting_resets_the_limit :
  let w := runs [("alice", CreateLetter "l1" (letter_by "1")); ("alice", CreateLetter "l2" (letter_by "2"));
                 ("alice", CreateLetter "l3" (letter_by "3"))]%string (empty_treehole 1000000) in
  (create_letter "l4" (letter_by "4") "alice" w).1 = Raise BAD_REQUEST ∧
  is_Some (letters (db (runs [("alice", RemoveLetter "l1"); ("alice", CreateLetter "l4" (letter_by "4"))]%string w)) !! "l4"%string).
Proof. split; [by vm_compute|]. eexists. by vm_compute. Qed.

(** A letter may be edited to be published in the past, which a new letter may
    not. *)
Lemma edited_into_the_past :
  let past := MkLetterInput "hello" "mood" "public" "Nobody" [] [] "" "paper" (Some 1%Z) None in
  (create_letter "l2" past "alice" demo_treehole).1 = Raise INVALID_INPUT ∧
  (λ l, scheduled_at l) <$> (letters (db (request_of ("alice"%string, EditLetter "l1" past) demo_treehole)) !! "l1"%string) = Some (Some 1000%Z).
Proof. split; by vm_compute. Qed.
