(* ===== verification/Starhope.v ===== *)
(** * Starhope: synchronising the question bank of a user

    Model of [app/modules/starhope]: the merge of a client's changes
    ([StarHopeRepository.push]) and what a client gets back ([pull_entity]).
    Times are microseconds; a time a client sends may lack its offset, and such a
    time is kept as it is in the object of the session until it is flushed.
    What a row holds besides its times is a map of columns to their texts; the
    schemas always send all of them, so an update replaces the map. Reading JSON
    into a schema is outside; an entry of a batch is what the schema made of it,
    or [None] when it refused.

    Theorems: whatever the order in which devices push, the newest change of a
    row wins, for batches that are [fair] and changes that can be told apart
    ([clean]); a push changes rows of its user only; a pull is exact. The last
    lemmas show what happens otherwise: an id of another user or a second change
    after one without offset refuses the batch, a change of the row's own time is
    dated by the server, a deletion of an unknown row is forgotten. *)

From S2P Require Import Prelude.

(** ** Tables *)
Record stamp := MkStamp { at_ : Z; naive : bool }.
#[export] Instance stamp_dec : EqDecision stamp.
Proof. solve_decision. Defined.

Inductive entity := Questions | Folders | PracticeSessions | Agents.
#[export] Instance entity_dec : EqDecision entity.
Proof. solve_decision. Defined.

Abbreviation columns := (gmap string string).

Record Row := MkRow {
  r_user : uuid; r_values : columns; r_created : Z; r_updated : stamp; r_deleted : option Z
}.
#[export] Instance row_dec : EqDecision Row.
Proof. solve_decision. Defined.

Record world := World { table : entity → gmap string Row; clock : Z }.

Abbreviation M := (prog world err).

Definition set_table (e : entity) (t : gmap string Row) (w : world) : world :=
  World (λ e', if decide (e' = e) then t else table w e') (clock w).

(** ** [service.py] *)
Definition _lookup (s : string) : option entity :=
  if bool_decide (s = "questions"%string) then Some Questions else
  if bool_decide (s = "folders"%string) then Some Folders else
  if bool_decide (s = "sessions"%string) then Some PracticeSessions else
  if bool_decide (s = "agents"%string) then Some Agents else None.

Definition _MAX_PUSH_BATCH : nat := 500.

Definition valid_id (s : string) : bool := negb (bool_decide (s = ""%string)) && bool_decide (String.length s ≤ 36).

Record Upsert := MkUpsert { u_id : string; u_values : columns; u_at : stamp }.
Record Tombstone := MkTombstone { t_id : string; t_at : Z }.

(** ** [repository.py] *)

(** The objects of the session: the rows read and the rows added. *)
Abbreviation memory := (gmap string Row).

(** Python refuses to compare a time without an offset with one that has it. *)
Definition le_stamp (s : stamp) (t : Z) : outcome err bool :=
  if naive s then Raise TypeError else Ok (bool_decide (at_ s ≤ t)%Z).

Definition lt_stamp (s : stamp) (t : Z) : outcome err bool :=
  if naive s then Raise TypeError else Ok (bool_decide (at_ s < t)%Z).

(** Deleted after the change was made. *)
Definition buried (t : Z) (x : Row) : bool := match r_deleted x with Some d => bool_decide (t < d)%Z | None => false end.

(** The time compared is the time sent, taken as UTC; the time written is the
    time as it was sent. *)
Definition push_upsert (user : uuid) (now : Z) (u : Upsert) (sm : nat * memory) : outcome err (nat * memory) :=
  match sm.2 !! u_id u with
  | None => Ok (S sm.1, <[u_id u := MkRow user (u_values u) now (u_at u) None]> sm.2)
  | Some x =>
      if buried (at_ (u_at u)) x then Ok sm else
      newer ← le_stamp (r_updated x) (at_ (u_at u));
      if (newer : bool) then Ok (S sm.1, <[u_id u := MkRow (r_user x) (u_values u) (r_created x) (u_at u) None]> sm.2)
      else Ok sm
  end.

Definition push_delete (t : Tombstone) (sm : nat * memory) : outcome err (nat * memory) :=
  match sm.2 !! t_id t with
  | None => Ok sm
  | Some x =>
      newer ← match r_deleted x with Some d => Ok (bool_decide (d < t_at t)%Z) | None => lt_stamp (r_updated x) (t_at t) end;
      if (newer : bool) then
        Ok (S sm.1, <[t_id t := MkRow (r_user x) (r_values x) (r_created x) (MkStamp (t_at t) false) (Some (t_at t))]> sm.2)
      else Ok sm
  end.

Fixpoint through {A S} (f : A → S → outcome err S) (l : list A) (s : S) : outcome err S :=
  match l with [] => Ok s | a :: l => s' ← f a s; through f l s' end.

(** [existing_map]: the user's own rows with an id of the batch, deleted or not. *)
Definition existing_map (user : uuid) (ids : gset string) (t : gmap string Row) : memory :=
  filter (λ kx, kx.1 ∈ ids ∧ r_user kx.2 = user) t.

(** A row that has changed is updated, and [onupdate] dates it when its own time
    has not; a naive time is bound as UTC. *)
Definition aware (s : stamp) : stamp := MkStamp (at_ s) false.

Definition flush_row (now : Z) (old : option Row) (x : Row) : Row :=
  match old with
  | None => MkRow (r_user x) (r_values x) (r_created x) (aware (r_updated x)) (r_deleted x)
  | Some o =>
      if bool_decide (x = o) then o else
      MkRow (r_user x) (r_values x) (r_created x)
        (if bool_decide (r_updated x = r_updated o) then MkStamp now false else aware (r_updated x)) (r_deleted x)
  end.

(** An added row whose id another user has cannot be inserted. *)
Definition collides (m : memory) (existing : memory) (t : gmap string Row) : bool :=
  bool_decide (¬ map_Forall (λ k _, is_Some (existing !! k) ∨ t !! k = None) m).

Definition flushed (now : Z) (m existing t : gmap string Row) : gmap string Row :=
  map_imap (λ k x, Some (flush_row now (existing !! k) x)) m ∪ t.

Definition repo_push (e : entity) (user : uuid) (upserts : list Upsert) (deletes : list Tombstone) : M nat := λ w,
  let existing := existing_map user (list_to_set (u_id <$> upserts) ∪ list_to_set (t_id <$> deletes)) (table w e) in
  match (sm ← through (push_upsert user (clock w)) upserts (0, existing); through push_delete deletes sm) with
  | Raise x => (Raise x, w)
  | Ok sm =>
      if collides sm.2 existing (table w e) then (Raise IntegrityError, w) else
      (Ok sm.1, set_table e (flushed (clock w) sm.2 existing (table w e)) w)
  end.

(** [push_entity]; the deletes come parsed and in UTC. *)
Definition push_entity (name : string) (user : uuid) (upserts : list (option Upsert)) (deletes : list Tombstone) : M nat :=
  e ← get_or_raise (_lookup name) INVALID_ENTITY;
  raise_when (bool_decide (_MAX_PUSH_BATCH < length upserts) || bool_decide (_MAX_PUSH_BATCH < length deletes)) INVALID_INPUT ≫= λ _,
  parsed ← get_or_raise (mapM id upserts) INVALID_INPUT;
  raise_when (negb (forallb (λ u, valid_id (u_id u)) parsed) || negb (forallb (λ t, valid_id (t_id t)) deletes)) INVALID_INPUT ≫= λ _,
  repo_push e user parsed deletes.

(** A request is one transaction; a commit that fails, like any refusal of the
    database, leaves the tables as they were. *)
Definition transaction {A} (commits : bool) (m : M A) : M A := λ w,
  match m w with
  | (Ok a, w') => if commits then (Ok a, w') else (Raise RuntimeError, World (table w) (clock w'))
  | (Raise e, w') => (Raise e, World (table w) (clock w'))
  end.

(** ** Pulling *)
Definition changed_since (since : option Z) (t : Z) : bool :=
  match since with Some s => bool_decide (s < t)%Z | None => true end.

Definition list_changed (user : uuid) (since : option Z) (t : gmap string Row) : list (string * Row) :=
  filter (λ kx, bool_decide (r_user kx.2 = user) && bool_decide (r_deleted kx.2 = None)
                && changed_since since (at_ (r_updated kx.2)) = true) (map_to_list t).

Definition list_tombstones (user : uuid) (since : option Z) (t : gmap string Row) : list (string * Z) :=
  omap (λ kx, d ← r_deleted kx.2;
              if bool_decide (r_user kx.2 = user) && changed_since since d then Some (kx.1, d) else None) (map_to_list t).

Definition pull_entity (name : string) (user : uuid) (since : option Z) : M (list (string * Row) * list (string * Z) * Z) :=
  e ← get_or_raise (_lookup name) INVALID_ENTITY;
  w ← get_state;
  mret (list_changed user since (table w e), list_tombstones user since (table w e), clock w).

(** ** Steps *)
Record batch := MkBatch { upserts : list (option Upsert); deletes : list Tombstone }.

Definition sync (name : string) (user : uuid) (b : batch) : M nat := transaction true (push_entity name user (upserts b) (deletes b)).

Inductive step (w : world) : world → Prop :=
| step_push commits name user ups dels : step w (transaction commits (push_entity name user ups dels) w).2
| step_time t : (clock w ≤ t)%Z → step w (World (table w) t).

(** ** What the rows look like *)
Definition dated (x : Row) : Prop := ∀ d, r_deleted x = Some d → r_updated x = MkStamp d false.
Definition stored_ok (x : Row) : Prop := naive (r_updated x) = false ∧ dated x.
Definition rows_ok (w : world) : Prop := ∀ e k x, table w e !! k = Some x → stored_ok x.

Definition tm (x : Row) : Z := at_ (r_updated x).

(** How a row may look after some changes of a batch. *)
Definition advanced (o x : Row) : Prop :=
  r_user x = r_user o ∧ (x = o ∨ (tm o < tm x)%Z ∨ r_deleted x = None ∧ tm o = tm x).

Lemma advanced_refl x : advanced x x.
Proof. split; auto. Qed.

Lemma advanced_live o x x' : advanced o x → r_user x' = r_user x → r_deleted x' = None → (tm x ≤ tm x')%Z → advanced o x'.
Proof. intros [Eu H] Ex Hd Ht. split; [congruence|]. right. destruct H as [->|[?|[_ ?]]]; destruct (decide (tm o = tm x')); auto; left; lia. Qed.

Lemma advanced_later o x x' : advanced o x → r_user x' = r_user x → (tm x < tm x')%Z → advanced o x'.
Proof. intros [Eu H] Ex Ht. split; [congruence|]. right; left. destruct H as [->|[?|[_ ?]]]; lia. Qed.

(** Changes of the session's objects: what was read only advances, what was
    added is the user's. *)
Definition memory_ok (user : uuid) (existing m : memory) : Prop :=
  (∀ k x, m !! k = Some x → dated x ∧ r_user x = user) ∧
  ∀ k o, existing !! k = Some o → ∃ x, m !! k = Some x ∧ advanced o x.

Lemma memory_insert user existing m k x x' :
  memory_ok user existing m → m !! k = Some x → dated x' → r_user x' = r_user x →
  (∀ o, advanced o x → advanced o x') → memory_ok user existing (<[k := x']> m).
Proof.
  intros [H1 H2] Hk Hd Hu Ha. split.
  - intros j y [[<- <-]|[? ?]]%lookup_insert_Some; [|by apply (H1 j)]. split; [done|]. rewrite Hu. by apply (H1 k).
  - intros j o Ho. destruct (H2 j o Ho) as (y & Hy & Hoy). destruct (decide (k = j)) as [->|?].
    + rewrite Hk in Hy. simplify_eq. exists x'. rewrite lookup_insert_eq. auto.
    + exists y. by rewrite lookup_insert_ne.
Qed.

Lemma push_upsert_ok user now existing u n m s' :
  memory_ok user existing m → push_upsert user now u (n, m) = Ok s' → memory_ok user existing s'.2.
Proof.
  intros Hm. unfold push_upsert. simpl. destruct (m !! u_id u) as [x|] eqn:Hx.
  - destruct (buried _ x); [by intros [= <-]|]. unfold le_stamp. destruct (naive (r_updated x)); [done|].
    simpl. case_bool_decide as Ht; intros [= <-]; [|done]. simpl. eapply memory_insert; [done|done|done|done|].
    intros o Ho. by eapply advanced_live.
  - intros [= <-]. simpl. destruct Hm as [H1 H2]. split.
    + intros j y [[<- <-]|[? ?]]%lookup_insert_Some; [done|by apply (H1 j)].
    + intros j o Ho. destruct (H2 j o Ho) as (y & Hy & ?). exists y. rewrite lookup_insert_ne; [done|]. congruence.
Qed.

Lemma push_delete_ok user existing t n m s' :
  memory_ok user existing m → push_delete t (n, m) = Ok s' → memory_ok user existing s'.2.
Proof.
  intros Hm. unfold push_delete. simpl. destruct (m !! t_id t) as [x|] eqn:Hx; [|by intros [= <-]].
  set (x' := MkRow (r_user x) (r_values x) (r_created x) (MkStamp (t_at t) false) (Some (t_at t))).
  assert (Hi : (tm x < t_at t)%Z → memory_ok user existing (<[t_id t := x']> m)).
  { intros Ht. eapply memory_insert; [done|done|by intros d [= <-]|done|]. intros o Ho. by eapply advanced_later. }
  destruct (r_deleted x) as [d|] eqn:Hd; simpl.
  - case_bool_decide; intros [= <-]; [|done]. apply Hi. destruct (proj1 Hm _ _ Hx) as [Hdx _]. unfold tm. by rewrite (Hdx d Hd).
  - unfold lt_stamp. destruct (naive (r_updated x)); [done|]. simpl. case_bool_decide; intros [= <-]; [by apply Hi|done].
Qed.

Lemma through_inv {A S} (f : A → S → outcome err S) (I : S → Prop) l s s' :
  (∀ a s s', a ∈ l → I s → f a s = Ok s' → I s') → I s → through f l s = Ok s' → I s'.
Proof.
  revert s. induction l as [|a l IH]; simpl; intros s Hf Hs; [by intros [= <-]|].
  destruct (f a s) as [s1|] eqn:E; [|done]. simpl. apply IH.
  - intros b s2 s3 Hb. apply Hf. by right.
  - apply (Hf a s); [left|done|done].
Qed.

Lemma existing_ok user ids t : (∀ k x, t !! k = Some x → stored_ok x) → memory_ok user (existing_map user ids t) (existing_map user ids t).
Proof.
  intros Ht. split.
  - intros k x [Hk [_ Hu]]%map_lookup_filter_Some. split; [by apply (Ht k)|done].
  - intros k o Ho. exists o. split; [done|apply advanced_refl].
Qed.

Lemma flush_row_ok now existing user m k x :
  memory_ok user existing m → (∀ j o, existing !! j = Some o → stored_ok o) → m !! k = Some x → stored_ok (flush_row now (existing !! k) x).
Proof.
  intros [H1 H2] He Hx. destruct (H1 k x Hx) as [Hd _]. unfold flush_row. destruct (existing !! k) as [o|] eqn:Ho.
  - case_bool_decide; [by apply (He k)|]. destruct (H2 k o Ho) as (x' & Hx' & _ & Ha). simplify_eq. split; simpl.
    + by case_bool_decide.
    + intros d Hxd. simpl in *. case_bool_decide as E; [|by rewrite (Hd d Hxd)]. exfalso.
      destruct Ha as [->|[Hlt|[? ?]]]; [done| |congruence]. unfold tm in Hlt. rewrite E in Hlt. lia.
  - split; [done|]. intros d Hxd. simpl in *. by rewrite (Hd d Hxd).
Qed.

Lemma lookup_flushed now m existing t k :
  flushed now m existing t !! k = match m !! k with Some x => Some (flush_row now (existing !! k) x) | None => t !! k end.
Proof.
  unfold flushed. rewrite lookup_union, map_lookup_imap. destruct (m !! k); simpl; [by rewrite union_Some_l|].
  by destruct (t !! k).
Qed.

(** What a push that succeeds leaves of a table. *)
Lemma repo_push_ok e user ups dels w n w' :
  rows_ok w → repo_push e user ups dels w = (Ok n, w') →
  ∃ m, let existing := existing_map user (list_to_set (u_id <$> ups) ∪ list_to_set (t_id <$> dels)) (table w e) in
    memory_ok user existing m ∧ collides m existing (table w e) = false ∧
    w' = set_table e (flushed (clock w) m existing (table w e)) w.
Proof.
  intros Hw. unfold repo_push. set (existing := existing_map _ _ _).
  destruct (through (push_upsert _ _) _ _) as [[n1 m1]|] eqn:E1; simpl; [|done].
  destruct (through push_delete _ _) as [[n2 m2]|] eqn:E2; simpl; [|done].
  destruct (collides m2 existing (table w e)) eqn:Hc; [done|]. intros [= <- <-]. exists m2. split_and!; [|done|done].
  apply (through_inv push_delete (λ s, memory_ok user existing s.2)) in E2; [done|intros t [? ?] s' _; apply push_delete_ok|].
  apply (through_inv (push_upsert user (clock w)) (λ s, memory_ok user existing s.2)) in E1; [done|intros u [? ?] s' _; apply push_upsert_ok|].
  apply existing_ok. apply Hw.
Qed.

Lemma repo_push_rows e user ups dels w : rows_ok w → rows_ok (repo_push e user ups dels w).2.
Proof.
  intros Hw. destruct (repo_push e user ups dels w) as [[n|x] w'] eqn:E; simpl.
  - apply repo_push_ok in E as (m & Hm & _ & ->); [|done]. intros e' k x. simpl. case_decide as He; [subst e'|apply Hw].
    rewrite lookup_flushed. destruct (m !! k) as [y|] eqn:Hy; [|apply Hw]. intros [= <-].
    eapply flush_row_ok; [done| |done]. intros j o [Hj _]%map_lookup_filter_Some. by apply (Hw e j).
  - revert E. unfold repo_push. destruct (through _ _ _ ≫= _) as [sm|]; [destruct (collides _ _ _)|]; intros [= _ <-]; done.
Qed.

(** A push is refused before the repository is called, or is its call. *)
Lemma push_entity_cases name user ups dels w :
  (∃ x, push_entity name user ups dels w = (Raise x, w)) ∨
  (∃ e us, _lookup name = Some e ∧ mapM id ups = Some us ∧ push_entity name user ups dels w = repo_push e user us dels w).
Proof.
  unfold push_entity. rewrite run_get_or_raise. destruct (_lookup name) as [e|] eqn:He; [|by left; eexists].
  rewrite run_raise_when. case_match; [by left; eexists|]. rewrite run_get_or_raise. destruct (mapM id ups) as [us|] eqn:Hu; [|by left; eexists].
  rewrite run_raise_when. case_match; [by left; eexists|]. right. by exists e, us.
Qed.

Lemma step_rows w w' : step w w' → rows_ok w → rows_ok w'.
Proof.
  intros [commits name user ups dels|t Ht] Hw; [|done]. unfold transaction.
  destruct (push_entity_cases name user ups dels w) as [[x ->]|(e & us & _ & _ & ->)]; [done|].
  pose proof (repo_push_rows e user us dels w Hw) as Hr. destruct (repo_push e user us dels w) as [[n|x] w2]; simpl in *; [by destruct commits|done].
Qed.

(** ** The newest change wins *)
Inductive change := Live (t : Z) (v : columns) | Gone (t : Z).

Definition time (c : change) : Z := match c with Live t _ | Gone t => t end.

Definition deletes_row (c : change) : bool := match c with Gone _ => true | Live _ _ => false end.

(** What a row says to a client. *)
Definition shows (x : Row) : change := match r_deleted x with Some d => Gone d | None => Live (tm x) (r_values x) end.

(** The reference: of two changes the later one; nothing is older than any. *)
Definition later (o : option change) (d : change) : option change :=
  match o with Some c => if decide (time c < time d)%Z then Some d else Some c | None => Some d end.
Definition newest (o : option change) (l : list change) : option change := foldl later o l.

Definition lives (k : string) (us : list Upsert) : list change :=
  (λ u, Live (at_ (u_at u)) (u_values u)) <$> filter (λ u, u_id u = k) us.
Definition goes (k : string) (ts : list Tombstone) : list change := (λ t, Gone (t_at t)) <$> filter (λ t, t_id t = k) ts.

Lemma newest_app o l1 l2 : newest o (l1 ++ l2) = newest (newest o l1) l2.
Proof. apply foldl_app. Qed.

Lemma newest_is_Some o l : is_Some o → is_Some (newest o l).
Proof. revert o. induction l as [|d l IH]; intros o [c ->]; simpl; [done|]. apply IH. case_decide; by eexists. Qed.

Lemma newest_None o l : newest o l = None → o = None ∧ l = [].
Proof.
  destruct l as [|d l]; [done|]. intros E. exfalso. destruct (newest_is_Some (later o d) l) as [n En]; [|unfold newest in *; simpl in *; congruence].
  destruct o; simpl; [case_decide|]; by eexists.
Qed.

Lemma later_elem o c d : later o d = Some c → c = d ∨ o = Some c.
Proof. destruct o as [b|]; simpl; [case_decide|]; intros [= <-]; auto. Qed.

Lemma newest_elem o l c : newest o l = Some c → c ∈ option_list o ++ l.
Proof.
  revert o. induction l as [|d l IH]; intros o; simpl; [intros ->; left|]. intros H%IH.
  apply elem_of_app in H as [H|H]; [|apply elem_of_app; right; by right].
  destruct (later o d) as [b|] eqn:E; simpl in H; [apply list_elem_of_singleton in H as ->|by apply elem_of_nil in H].
  apply later_elem in E as [-> | ->]; apply elem_of_app; [right|left]; left.
Qed.

Lemma newest_max o l d : d ∈ option_list o ++ l → ∃ n, newest o l = Some n ∧ (time d ≤ time n)%Z.
Proof.
  revert o d. induction l as [|b l IH]; intros o d; simpl.
  { rewrite app_nil_r. destruct o as [c|]; simpl; [intros ->%list_elem_of_singleton; by exists c|intros []%elem_of_nil]. }
  intros Hd. assert (H : ∃ x, x ∈ option_list (later o b) ++ l ∧ (time d ≤ time x)%Z).
  { apply elem_of_app in Hd as [Hd|Hd]; [|apply elem_of_cons in Hd as [->|Hd]].
    - destruct o as [c|]; simpl in Hd; [apply list_elem_of_singleton in Hd as ->|by apply elem_of_nil in Hd].
      simpl. case_decide; [exists b|exists c]; (split; [left|lia]).
    - destruct o as [c|]; simpl; [case_decide; [exists b|exists c]|exists b]; (split; [left|lia]).
    - exists d. split; [apply elem_of_app; by right|done]. }
  destruct H as (x & Hx & Hle). destruct (IH _ _ Hx) as (n & Hn & ?). exists n. split; [exact Hn|lia].
Qed.

Lemma newest_perm o l l' : NoDup (time <$> option_list o ++ l) → l ≡ₚ l' → newest o l = newest o l'.
Proof.
  intros Hn Hp. destruct (newest o l) as [c|] eqn:E.
  - pose proof (newest_elem _ _ _ E) as Hin. assert (Hin' : c ∈ option_list o ++ l') by (by rewrite <- Hp).
    destruct (newest_max o l' c Hin') as (c' & E' & Hle). rewrite E'. pose proof (newest_elem _ _ _ E') as Hc'. rewrite <- Hp in Hc'.
    destruct (newest_max o l c' Hc') as (c2 & E2 & Hle'). simplify_eq.
    apply list_elem_of_lookup in Hin as [i Hi]. apply list_elem_of_lookup in Hc' as [j Hj].
    assert (i = j) as ->; [|congruence].
    apply (NoDup_lookup _ i j (time c) Hn); rewrite list_lookup_fmap; [by rewrite Hi|rewrite Hj; simpl; f_equal; lia].
  - apply newest_None in E as [-> ->]. apply Permutation_nil_l in Hp. by subst.
Qed.

(** Fair batches: no longer than allowed, with well-formed ids that nobody else
    uses, where a change whose time lacks its offset is the last of its row. *)
Definition lone (us : list Upsert) (ts : list Tombstone) : Prop :=
  ∀ u l, (u :: l) `suffix_of` us → naive (u_at u) = true → u_id u ∉ (u_id <$> l) ++ (t_id <$> ts).

Definition fair (user : uuid) (t : gmap string Row) (us : list Upsert) (ts : list Tombstone) : Prop :=
  length us ≤ _MAX_PUSH_BATCH ∧ length ts ≤ _MAX_PUSH_BATCH ∧
  (∀ u, u ∈ us → valid_id (u_id u) = true ∧ ∀ y, t !! u_id u = Some y → r_user y = user) ∧
  (∀ d, d ∈ ts → valid_id (t_id d) = true) ∧ lone us ts.

(** One change of the row [k], newer or older but not as old as the row. *)
Definition follows (x y : Row) : Prop := y = x ∨ (tm x < tm y)%Z.

Lemma follows_trans x y z : follows x y → follows y z → follows x z.
Proof. unfold follows. intros [->|?] [->|?]; auto; right; lia. Qed.

(** Changes that can be told apart: of pairwise distinct times, other than the
    row's, and without deletions of a row that is not there yet. *)
Definition clean (o : option Row) (l : list change) : Prop :=
  NoDup (time <$> option_list (shows <$> o) ++ l) ∧ (o = None → ∀ c, c ∈ l → deletes_row c = false).

(** The row shows the newest after the changes. *)
Definition evolves (o o' : option Row) (l : list change) : Prop :=
  (∀ x, o = Some x → ∃ y, o' = Some y ∧ follows x y) ∧ shows <$> o' = newest (shows <$> o) l.

Lemma newest_refl o : evolves o o [].
Proof. split; [|done]. intros x ->. exists x. split; [done|by left]. Qed.

Lemma clean_app_l o l1 l2 : clean o (l1 ++ l2) → clean o l1.
Proof.
  intros [Hn Hd]. split.
  - rewrite app_assoc, fmap_app in Hn. by apply NoDup_app in Hn as [? _].
  - intros Ho c Hc. apply Hd; [done|]. apply elem_of_app. by left.
Qed.

Lemma clean_after o o1 l1 l2 : clean o (l1 ++ l2) → shows <$> o1 = newest (shows <$> o) l1 → clean o1 l2.
Proof.
  intros [Hn Hd] He. rewrite app_assoc, fmap_app, NoDup_app in Hn. destruct Hn as (_ & Hx & Hn). split.
  - rewrite He. destruct (newest (shows <$> o) l1) as [c|] eqn:E; [|done]. simpl. apply NoDup_cons. split; [|done].
    apply Hx, list_elem_of_fmap_2. by apply newest_elem.
  - intros ->. symmetry in He. apply newest_None in He as [Ho ->]. apply fmap_None in Ho. by apply Hd.
Qed.

Lemma newest_trans o o1 o2 l1 l2 : evolves o o1 l1 → evolves o1 o2 l2 → evolves o o2 (l1 ++ l2).
Proof.
  intros [F1 E1] [F2 E2]. split; [|by rewrite E2, E1, newest_app].
  intros x Hx. destruct (F1 x Hx) as (y & Hy & ?). destruct (F2 y Hy) as (z & Hz & ?). exists z. split; [done|by eapply follows_trans].
Qed.

(** Objects of the session: those still to be changed have times with offset. *)
Definition ready (ids : list string) (m : memory) : Prop :=
  ∀ k x, m !! k = Some x → dated x ∧ (k ∈ ids → naive (r_updated x) = false).

Lemma ready_weaken ids ids' m : ids' ⊆ ids → ready ids m → ready ids' m.
Proof. intros Hs Hm k x Hx. destruct (Hm k x Hx). split; auto. Qed.

Lemma ready_insert ids m i x : ready ids m → dated x → (i ∈ ids → naive (r_updated x) = false) → ready ids (<[i := x]> m).
Proof. intros Hm Hd Hn k y [[<- <-]|[? ?]]%lookup_insert_Some; [done|by apply Hm]. Qed.

Lemma shows_time x : dated x → time (shows x) = tm x.
Proof. unfold shows, tm. intros Hd. destruct (r_deleted x) as [d|] eqn:E; [by rewrite (Hd d E)|done]. Qed.

(** On stored rows a change is written exactly if it is not older. *)
Lemma push_upsert_stored user now u n (m : memory) x :
  m !! u_id u = Some x → stored_ok x →
  push_upsert user now u (n, m) =
    Ok (if bool_decide (tm x ≤ at_ (u_at u))%Z
        then (S n, <[u_id u := MkRow (r_user x) (u_values u) (r_created x) (u_at u) None]> m) else (n, m)).
Proof.
  intros Hx [Hn Hd]. unfold push_upsert, le_stamp. simpl. rewrite Hx, Hn. unfold buried. destruct (r_deleted x) as [d|] eqn:E; simpl.
  - assert (Ht : tm x = d) by (unfold tm; by rewrite (Hd d E)). rewrite <- Ht.
    case_bool_decide; [rewrite bool_decide_eq_false_2 by lia; done|]. unfold tm in *. simpl. by case_bool_decide.
  - unfold tm. by case_bool_decide.
Qed.

Lemma push_delete_stored t n (m : memory) x :
  m !! t_id t = Some x → stored_ok x →
  push_delete t (n, m) =
    Ok (if bool_decide (tm x < t_at t)%Z
        then (S n, <[t_id t := MkRow (r_user x) (r_values x) (r_created x) (MkStamp (t_at t) false) (Some (t_at t))]> m) else (n, m)).
Proof.
  intros Hx [Hn Hd]. unfold push_delete, lt_stamp. simpl. rewrite Hx, Hn. unfold tm. destruct (r_deleted x) as [d|] eqn:E; simpl.
  - rewrite (Hd d E). simpl. by case_bool_decide.
  - by case_bool_decide.
Qed.

(** A change [c] of the row [i] alone. *)
Definition only (k i : string) (c : change) : list change := if decide (k = i) then [c] else [].

Lemma only_ne k i c : k ≠ i → only k i c = [].
Proof. unfold only. by intros; rewrite decide_False. Qed.

Lemma one_new (m : memory) i x c :
  m !! i = None → shows x = c → ∀ k, evolves (m !! k) (<[i := x]> m !! k) (only k i c).
Proof.
  intros Hi Hx k. destruct (decide (k = i)) as [->|Hk].
  - rewrite lookup_insert_eq, Hi. unfold only. rewrite decide_True by done. split; [done|]. simpl. by rewrite Hx.
  - rewrite lookup_insert_ne, only_ne by done. apply newest_refl.
Qed.

(** Written as [x'] if the row is not newer, it is a step to the newest. *)
Lemma one_change (m : memory) i x x' c (p : bool) :
  m !! i = Some x → dated x → dated x' → shows x' = c → (time (shows x) ≠ time c → p = bool_decide (tm x < time c)%Z) →
  ∀ k, clean (m !! k) (only k i c) → evolves (m !! k) ((if p then <[i := x']> m else m) !! k) (only k i c).
Proof.
  intros Hi Hx Hx' Hc Hp k [Hn _]. destruct (decide (k = i)) as [->|Hk].
  - unfold only in *. rewrite decide_True in * by done. rewrite Hi in *. simpl in Hn. apply NoDup_cons in Hn as [Hn _].
    rewrite Hp by (intros E; apply Hn; rewrite E; left). pose proof (shows_time x Hx) as Ht. pose proof (shows_time x' Hx') as Ht'.
    split.
    + intros y [= <-]. case_bool_decide; [exists x'; rewrite lookup_insert_eq|exists x]; (split; [done|]); [right; rewrite Hc in Ht'; lia|by left].
    + simpl. rewrite Ht. case_bool_decide.
      * rewrite lookup_insert_eq, decide_True by done. simpl. by rewrite Hc.
      * rewrite Hi, decide_False by done. done.
  - rewrite only_ne by done. destruct p; [rewrite lookup_insert_ne by done|]; apply newest_refl.
Qed.

Lemma lives_one k u : lives k [u] = only k (u_id u) (Live (at_ (u_at u)) (u_values u)).
Proof. unfold lives, only. case_decide; [rewrite filter_cons_True by done|rewrite filter_cons_False by done]; done. Qed.

Lemma goes_one k t : goes k [t] = only k (t_id t) (Gone (t_at t)).
Proof. unfold goes, only. case_decide; [rewrite filter_cons_True by done|rewrite filter_cons_False by done]; done. Qed.

Lemma upsert_evolves user now u n m ids :
  ready (u_id u :: ids) m → (naive (u_at u) = true → u_id u ∉ ids) →
  ∃ n' m', push_upsert user now u (n, m) = Ok (n', m') ∧ ready ids m' ∧
    ∀ k, clean (m !! k) (lives k [u]) → evolves (m !! k) (m' !! k) (lives k [u]).
Proof.
  intros Hm Hu. assert (Hm' : ready ids m) by (eapply ready_weaken; [|exact Hm]; set_solver).
  assert (Hr : ∀ us cr, ready ids (<[u_id u := MkRow us (u_values u) cr (u_at u) None]> m)).
  { intros us cr. apply ready_insert; [done|by intros ? [=]|]. intros Hin. simpl. destruct (naive (u_at u)); [|done]. by destruct (Hu eq_refl). }
  setoid_rewrite lives_one. destruct (m !! u_id u) as [x|] eqn:Hx.
  - destruct (Hm _ _ Hx) as [Hd Hn]. rewrite (push_upsert_stored user now u n m x) by (done || (split; [apply Hn; left|done])).
    pose proof (one_change m (u_id u) x (MkRow (r_user x) (u_values u) (r_created x) (u_at u) None) (Live (at_ (u_at u)) (u_values u))
      (bool_decide (tm x ≤ at_ (u_at u))%Z) Hx Hd) as H2.
    destruct (bool_decide (tm x ≤ at_ (u_at u))%Z) eqn:E; do 2 eexists; (split; [done|]); (split; [done|]); apply H2; [by intros ? [=]|done| |by intros ? [=]|done|];
      rewrite shows_time, <- E by done; simpl; intros Hne; apply bool_decide_ext; lia.
  - unfold push_upsert. simpl. rewrite Hx. do 2 eexists. split; [done|]. split; [apply Hr|]. intros k _. by apply one_new.
Qed.

Lemma delete_evolves t n m ids :
  ready (t_id t :: ids) m →
  ∃ n' m', push_delete t (n, m) = Ok (n', m') ∧ ready ids m' ∧
    ∀ k, clean (m !! k) (goes k [t]) → evolves (m !! k) (m' !! k) (goes k [t]).
Proof.
  intros Hm. assert (Hm' : ready ids m) by (eapply ready_weaken; [|exact Hm]; set_solver).
  setoid_rewrite goes_one. destruct (m !! t_id t) as [x|] eqn:Hx.
  - destruct (Hm _ _ Hx) as [Hd Hn]. rewrite (push_delete_stored t n m x) by (done || (split; [apply Hn; left|done])).
    pose proof (one_change m (t_id t) x (MkRow (r_user x) (r_values x) (r_created x) (MkStamp (t_at t) false) (Some (t_at t)))
      (Gone (t_at t)) (bool_decide (tm x < t_at t)%Z) Hx Hd) as H2.
    destruct (bool_decide (tm x < t_at t)%Z) eqn:E; do 2 eexists; (split; [done|]);
      (split; [first [done|by apply ready_insert; [done|intros ? [= <-]|]]|]); apply H2; try done; try (by intros ? [= <-]); by rewrite E.
  - unfold push_delete. simpl. rewrite Hx. do 2 eexists. split; [done|]. split; [done|]. intros k [_ Hd].
    unfold only in *. case_decide as Hk; [|apply newest_refl]. subst k. specialize (Hd Hx (Gone (t_at t)) ltac:(left)). done.
Qed.

(** A list of changes, one after the other, is a step to the newest of them. *)
Lemma through_evolves {A} (f : A → nat * memory → outcome err (nat * memory)) (key : A → string) (chg : string → list A → list change)
    (rest : list string) l n m :
  (∀ k, chg k [] = []) → (∀ k a l, chg k (a :: l) = chg k [a] ++ chg k l) →
  (∀ a l' n m, (a :: l') `suffix_of` l → ready (key a :: (key <$> l') ++ rest) m →
     ∃ n' m', f a (n, m) = Ok (n', m') ∧ ready ((key <$> l') ++ rest) m' ∧
     ∀ k, clean (m !! k) (chg k [a]) → evolves (m !! k) (m' !! k) (chg k [a])) →
  ready ((key <$> l) ++ rest) m →
  ∃ n' m', through f l (n, m) = Ok (n', m') ∧ ready rest m' ∧
    ∀ k, clean (m !! k) (chg k l) → evolves (m !! k) (m' !! k) (chg k l).
Proof.
  intros H0 Hc. revert n m. induction l as [|a l IH]; intros n m Hf Hm.
  { exists n, m. split_and!; [done|done|]. intros k _. rewrite H0. apply newest_refl. }
  destruct (Hf a l n m) as (n1 & m1 & E1 & Hm1 & Hs1); [done|done|].
  destruct (IH n1 m1) as (n2 & m2 & E2 & Hm2 & Hs2); [intros b l' n' m' Hb; apply Hf; by apply suffix_cons_r|done|].
  exists n2, m2. cbn [through]. rewrite E1. split_and!; [exact E2|done|]. intros k Hn. rewrite Hc in Hn |- *.
  pose proof (Hs1 k (clean_app_l _ _ _ Hn)) as He. eapply newest_trans; [exact He|]. apply Hs2. eapply clean_after; [exact Hn|apply He].
Qed.

Definition edits (k : string) (us : list Upsert) (ts : list Tombstone) : list change := lives k us ++ goes k ts.

Lemma filter_one {A} (P : A → Prop) `{!∀ a, Decision (P a)} a l : filter P (a :: l) = filter P [a] ++ filter P l.
Proof. exact (filter_app P [a] l). Qed.

Lemma through_both user now us ts m :
  ready ((u_id <$> us) ++ (t_id <$> ts)) m → lone us ts →
  ∃ n' m', (sm ← through (push_upsert user now) us (0, m); through push_delete ts sm) = Ok (n', m') ∧ ready [] m' ∧
    ∀ k, clean (m !! k) (edits k us ts) → evolves (m !! k) (m' !! k) (edits k us ts).
Proof.
  intros Hm Ha.
  destruct (through_evolves (push_upsert user now) u_id lives (t_id <$> ts) us 0 m) as (n1 & m1 & E1 & Hm1 & H1); [done| | |done|].
  { intros k u l. unfold lives. by rewrite filter_one, fmap_app. }
  { intros u l n m0 Hu Hm0. by apply upsert_evolves; [|apply Ha]. }
  destruct (through_evolves push_delete t_id goes [] ts n1 m1) as (n2 & m2 & E2 & Hm2 & H2); [done| | |by rewrite app_nil_r|].
  { intros k u l. unfold goes. by rewrite filter_one, fmap_app. }
  { intros u l n m0 _ Hm0. by apply delete_evolves. }
  exists n2, m2. rewrite E1. split_and!; [exact E2|done|]. intros k Hn. unfold edits in *.
  pose proof (H1 k (clean_app_l _ _ _ Hn)) as He. eapply newest_trans; [exact He|]. apply H2. eapply clean_after; [exact Hn|apply He].
Qed.

Lemma flush_shows now o x : follows o x → shows (flush_row now (Some o) x) = shows x.
Proof.
  intros [->|Hlt]; unfold flush_row; [by rewrite bool_decide_eq_true_2|].
  rewrite bool_decide_eq_false_2 by (intros ->; lia). rewrite bool_decide_eq_false_2; [|intros E; unfold tm in Hlt; rewrite E in Hlt; lia].
  unfold shows, tm. simpl. by destruct (r_deleted x).
Qed.

(** Ids nobody else uses do not collide. *)
Lemma fair_collides user now us ts t n m :
  fair user t us ts → let existing := existing_map user (list_to_set (u_id <$> us) ∪ list_to_set (t_id <$> ts)) t in
  (sm ← through (push_upsert user now) us (0, existing); through push_delete ts sm) = Ok (n, m) → collides m existing t = false.
Proof.
  intros (_ & _ & Hu & _) existing. unfold collides. intros E. apply bool_decide_eq_false_2. intros Hc. apply Hc.
  destruct (through _ _ _) as [[n1 m1]|] eqn:E1; simpl in E; [|done].
  set (I := λ s : nat * memory, map_Forall (λ k _, is_Some (existing !! k) ∨ t !! k = None) s.2).
  apply (through_inv push_delete I) in E; [done| |].
  - intros d [n0 m0] s' _ HI. unfold push_delete. simpl. destruct (m0 !! t_id d) as [x|] eqn:Hx; [|by intros [= <-]].
    destruct (match r_deleted x with Some d0 => _ | None => _ end) as [b|]; [|done]. simpl. destruct b; intros [= <-]; [|done].
    apply map_Forall_insert_2; [|done]. by apply (HI (t_id d) x).
  - apply (through_inv (push_upsert user now) I) in E1; [done| |].
    + intros u [n0 m0] s' Hin HI Hp. assert (Hi : is_Some (existing !! u_id u) ∨ t !! u_id u = None).
      { destruct (t !! u_id u) as [y|] eqn:Hy; [left|by right]. exists y. apply map_lookup_filter_Some. split; [done|]. simpl.
        split; [|by apply (Hu u)]. apply elem_of_union_l, elem_of_list_to_set, list_elem_of_fmap. by exists u. }
      revert Hp. unfold push_upsert. simpl. destruct (m0 !! u_id u) as [x|] eqn:Hx.
      * destruct (buried _ x); [by intros [= <-]|]. destruct (le_stamp _ _) as [b|]; [|done]. simpl. destruct b; intros [= <-]; [|done].
        by apply map_Forall_insert_2.
      * intros [= <-]. by apply map_Forall_insert_2.
    + intros k x Hk. left. by exists x.
Qed.

Lemma rows_ready w e user ids l : rows_ok w → ready l (existing_map user ids (table w e)).
Proof. intros Hw k x [Hk _]%map_lookup_filter_Some. by destruct (Hw e k x Hk). Qed.

Lemma mapM_all {A} (l : list A) : mapM (M:=option) id (Some <$> l) = Some l.
Proof. induction l as [|a l IH]; [done|]. rewrite fmap_cons. cbn [mapM]. by rewrite IH. Qed.

Lemma sync_fair name user us ts w e :
  _lookup name = Some e → fair user (table w e) us ts →
  sync name user (MkBatch (Some <$> us) ts) w = transaction true (repo_push e user us ts) w.
Proof.
  intros He (Hl1 & Hl2 & Hu & Ht & _). unfold sync, transaction. simpl. unfold push_entity.
  rewrite He, run_get_or_raise, run_raise_when, length_fmap, !bool_decide_eq_false_2 by lia. cbn [orb].
  rewrite run_get_or_raise, mapM_all, run_raise_when.
  assert (forallb (λ u, valid_id (u_id u)) us = true) as ->.
  { apply forallb_forall. intros u Hin. apply Hu. by apply list_elem_of_In. }
  assert (forallb (λ t, valid_id (t_id t)) ts = true) as ->.
  { apply forallb_forall. intros u Hin. apply Ht. by apply list_elem_of_In. }
  done.
Qed.

Lemma filter_none {A} (P : A → Prop) `{!∀ a, Decision (P a)} l : (∀ a, a ∈ l → ¬ P a) → filter P l = [].
Proof.
  intros Hl. induction l as [|a l IH]; [done|]. rewrite filter_cons_False by (apply Hl; left). apply IH. intros b Hb. apply Hl. by right.
Qed.

(** A batch says nothing of the rows whose ids it does not name. *)
Lemma edits_unnamed k us ts : k ∉ u_id <$> us → k ∉ t_id <$> ts → edits k us ts = [].
Proof.
  intros Hu Ht. unfold edits, lives, goes.
  assert (filter (λ u, u_id u = k) us = []) as ->.
  { apply filter_none. intros u Hin E. apply Hu, list_elem_of_fmap. by exists u. }
  assert (filter (λ t, t_id t = k) ts = []) as ->; [|done].
  apply filter_none. intros t Hin E. apply Ht, list_elem_of_fmap. by exists t.
Qed.

(** What the session's objects show is what the table shows after the flush. *)
Lemma flushed_shows now m ex (t : gmap string Row) k l :
  evolves (ex !! k) (m !! k) l → t !! k = ex !! k → shows <$> flushed now m ex t !! k = newest (shows <$> t !! k) l.
Proof.
  intros [Hf He] Ht. rewrite lookup_flushed, Ht, <- He. destruct (m !! k) as [y|] eqn:Hy.
  - simpl. f_equal. destruct (ex !! k) as [x|].
    + destruct (Hf x eq_refl) as (y' & [= <-] & Hxy). by apply flush_shows.
    + unfold flush_row, shows. simpl. by destruct (r_deleted y).
  - destruct (ex !! k) as [x|]; [|done]. by destruct (Hf x eq_refl) as (? & [=] & _).
Qed.

(** One fair push: it succeeds, each row of the user then shows the newest
    change, and what it leaves is fair to the next one. *)
Lemma sync_newest name user us ts w e :
  rows_ok w → _lookup name = Some e → fair user (table w e) us ts →
  ∃ n w', sync name user (MkBatch (Some <$> us) ts) w = (Ok n, w') ∧ rows_ok w' ∧
    (∀ k y, table w' e !! k = Some y → r_user y = user ∨ table w e !! k = Some y) ∧
    ∀ k, (∀ x, table w e !! k = Some x → r_user x = user) → clean (table w e !! k) (edits k us ts) →
      shows <$> table w' e !! k = newest (shows <$> table w e !! k) (edits k us ts).
Proof.
  intros Hw He Hf. rewrite (sync_fair name user us ts w e) by done. unfold transaction.
  destruct (repo_push e user us ts w) as [r w'] eqn:E. pose proof (repo_push_rows e user us ts w Hw) as Hrows. rewrite E in Hrows. simpl in Hrows.
  revert E. unfold repo_push. set (ids := list_to_set (u_id <$> us) ∪ list_to_set (t_id <$> ts) : gset string).
  set (ex := existing_map user ids (table w e)).
  destruct (through_both user (clock w) us ts ex) as (n & m & E & Hm & Hn); [by apply rows_ready|apply Hf|].
  pose proof (fair_collides user (clock w) us ts _ n m Hf E) as Hcol. fold ids ex in Hcol. rewrite E. simpl. rewrite Hcol. intros [= <- <-].
  exists n. eexists. split; [done|]. split; [done|]. simpl. rewrite decide_True by done. split.
  - intros k y Hy. destruct (repo_push_ok e user us ts w n (set_table e (flushed (clock w) m ex (table w e)) w) Hw) as (m' & Hm' & _ & Heq).
    { unfold repo_push. fold ids ex. rewrite E. simpl. by rewrite Hcol. }
    apply (f_equal (λ v, table v e !! k)) in Heq. simpl in Heq. rewrite !decide_True in Heq by done. rewrite Heq in Hy. clear Heq.
    fold ids ex in Hm', Hy. rewrite lookup_flushed in Hy. destruct (m' !! k) as [x|] eqn:Hx; [|by right]. simplify_eq. left.
    destruct (proj1 Hm' k x Hx) as [_ Hu]. unfold flush_row. destruct (ex !! k) as [o|] eqn:Ho; [|done]. case_bool_decide; [|done].
    by apply map_lookup_filter_Some in Ho as [_ [_ ?]].
  - intros k Hown Hc. destruct (decide (k ∈ ids)) as [Hin|Hin].
    + assert (Hxk : table w e !! k = ex !! k).
      { unfold ex, existing_map. rewrite map_lookup_filter. destruct (table w e !! k) as [x|] eqn:Hx; [|done]. simpl.
        rewrite option_guard_True; [done|]. split; [done|by apply Hown]. }
      apply flushed_shows; [|done]. rewrite <- Hxk. rewrite Hxk at 1. apply Hn. by rewrite <- Hxk.
    + unfold ids in Hin. rewrite not_elem_of_union, !elem_of_list_to_set in Hin. destruct Hin as [H1 H2].
      assert (Hxk : ex !! k = None) by (apply map_lookup_filter_None; right; intros x _ [Hi _]; set_solver).
      rewrite edits_unnamed by done. specialize (Hn k). rewrite edits_unnamed, Hxk in Hn by done.
      destruct Hn as [_ Hmk]; [split; [constructor|by intros _ c ?%elem_of_nil]|]. simpl in Hmk. apply fmap_None in Hmk.
      by rewrite lookup_flushed, Hmk.
Qed.

(** Pushes of several devices of a user, one after the other. *)
Definition push_all (name : string) (user : uuid) (bs : list (list Upsert * list Tombstone)) : M () :=
  for_each bs (λ b, _ ← sync name user (MkBatch (Some <$> b.1) b.2); mret tt).

Definition all_edits (k : string) (bs : list (list Upsert * list Tombstone)) : list change := b ← bs; edits k b.1 b.2.

Lemma push_all_newest name user e bs w :
  rows_ok w → _lookup name = Some e → (∀ b, b ∈ bs → fair user (table w e) b.1 b.2) →
  ∃ w', push_all name user bs w = (Ok tt, w') ∧
    ∀ k, (∀ x, table w e !! k = Some x → r_user x = user) → clean (table w e !! k) (all_edits k bs) →
      shows <$> table w' e !! k = newest (shows <$> table w e !! k) (all_edits k bs).
Proof.
  intros Hw He. revert w Hw. induction bs as [|[us ts] bs IH]; intros w Hw Hf; [by exists w|].
  destruct (sync_newest name user us ts w e) as (n & w1 & E & Hw1 & Hown & Hn); [done|done|apply (Hf (us, ts)); left|].
  destruct (IH w1 Hw1) as (w2 & E2 & Hn2).
  { intros b Hb. destruct (Hf b) as (F1 & F2 & F3 & F4); [by right|]. split_and!; [done|done| |apply F4..].
    intros u Hu. destruct (F3 u Hu) as (G2 & G3). split; [done|]. intros y [?|?]%Hown; [done|by apply G3]. }
  exists w2. split.
  { unfold push_all in *. cbn [for_each]. rewrite (bind_ok _ _ w tt w1); [exact E2|]. by rewrite (bind_ok _ _ w n w1). }
  intros k Hu Hc. change (all_edits k ((us, ts) :: bs)) with (edits k us ts ++ all_edits k bs) in *.
  specialize (Hn k Hu (clean_app_l _ _ _ Hc)). rewrite newest_app, <- Hn. apply Hn2; [|by eapply clean_after].
  intros y [?|?]%Hown; [done|by apply Hu].
Qed.

Definition empty_starhope (now : Z) : world := World (λ _, ∅) now.

Lemma starhope_rows now w : rtc step (empty_starhope now) w → rows_ok w.
Proof.
  intros Hr. apply (invariant_reachable step rows_ok (empty_starhope now)); [done| |done]. intros a b Ha Hs. by apply (step_rows a b).
Qed.

(** ** Properties *)

(** C37: Pushes converge: when the devices of a user push batches one after the
    other and each commit succeeds, then whatever their order all pushes succeed,
    and a row, the user's or one that is not there yet, shows the newest of what
    it was and of all changes made to it. This holds of batches within the limit
    whose well-formed ids no other user has and where a change whose time lacks
    its offset is the last one its batch makes to its row, and of a row whose
    changes have pairwise distinct times, other than its own, and among which is
    no deletion if it is not there yet. *)
Theorem sync_converges (now : Z) (w : world) (name : string) (e : entity) (user : uuid) (k : string)
    (bs bs' : list (list Upsert * list Tombstone)) :
  rtc step (empty_starhope now) w → _lookup name = Some e → (∀ x, table w e !! k = Some x → r_user x = user) →
  (∀ b, b ∈ bs → fair user (table w e) b.1 b.2) → clean (table w e !! k) (all_edits k bs) → bs' ≡ₚ bs →
  ∃ w', push_all name user bs' w = (Ok tt, w') ∧
    shows <$> table w' e !! k = newest (shows <$> table w e !! k) (all_edits k bs) ∧
    ∀ c, c ∈ option_list (shows <$> table w e !! k) ++ all_edits k bs →
      ∃ d, shows <$> table w' e !! k = Some d ∧ (time c ≤ time d)%Z.
Proof.
  intros Hr He Hu Hf Hc Hp.
  assert (Hpe : all_edits k bs' ≡ₚ all_edits k bs) by (unfold all_edits; by rewrite Hp).
  destruct (push_all_newest name user e bs' w) as (w' & E & Hw'); [by eapply starhope_rows|done| |].
  { intros b Hb. apply Hf. by rewrite <- Hp. }
  assert (Hs : shows <$> table w' e !! k = newest (shows <$> table w e !! k) (all_edits k bs)).
  { rewrite Hw'; [|done|].
    - symmetry. apply newest_perm; [apply Hc|done].
    - destruct Hc as [Hn Hd]. split; [by rewrite Hpe|]. intros Ho c. rewrite Hpe. by apply Hd. }
  exists w'. split_and!; [done|done|]. intros c Hin. rewrite Hs. by apply newest_max.
Qed.

(** A push changes rows of its user only: whatever it holds, and whether it
    succeeds or not, the rows of all others and the other tables stay. *)
Theorem push_touches_own (now : Z) (w : world) (commits : bool) (name : string) (user : uuid)
    (ups : list (option Upsert)) (dels : list Tombstone) (e : entity) (k : string) (x : Row) :
  rtc step (empty_starhope now) w → table w e !! k = Some x → r_user x ≠ user ∨ _lookup name ≠ Some e →
  table (transaction commits (push_entity name user ups dels) w).2 e !! k = Some x.
Proof.
  intros Hr Hk Hor. unfold transaction.
  destruct (push_entity_cases name user ups dels w) as [[err ->]|(e' & us & He & _ & ->)]; [done|].
  destruct (repo_push e' user us dels w) as [[n|err] w'] eqn:E; [|done]. destruct commits; [|done]. simpl.
  apply repo_push_ok in E as (m & Hm & Hc & ->); [|by eapply starhope_rows]. simpl. case_decide; [subst e'|done].
  rewrite lookup_flushed. destruct (m !! k) as [y|] eqn:Hy; [|done]. exfalso. destruct Hor as [Hu|Hne]; [|done].
  unfold collides in Hc. apply bool_decide_eq_false in Hc. apply dec_stable in Hc. destruct (Hc k y Hy) as [[o Ho]|?]; [|congruence].
  apply map_lookup_filter_Some in Ho as [? [_ ?]]. simpl in *. congruence.
Qed.

(** A pull is exact: it gives the live rows of the user whose time is after the
    cursor and the deletions after it, each once, nothing else, and the time of
    the server as the next cursor. *)
Theorem pull_exact (w : world) (name : string) (e : entity) (user : uuid) (since : option Z) :
  _lookup name = Some e →
  ∃ items tombs, pull_entity name user since w = (Ok (items, tombs, clock w), w) ∧ NoDup items.*1 ∧ NoDup tombs.*1 ∧
    (∀ k x, (k, x) ∈ items ↔ table w e !! k = Some x ∧ r_user x = user ∧ r_deleted x = None ∧ changed_since since (tm x) = true) ∧
    ∀ k d, (k, d) ∈ tombs ↔ ∃ x, table w e !! k = Some x ∧ r_user x = user ∧ r_deleted x = Some d ∧ changed_since since d = true.
Proof.
  intros He. unfold pull_entity. rewrite He, run_get_or_raise, run_get_state. eexists _, _. split; [done|]. split_and!.
  - apply NoDup_fmap_fst; [|apply NoDup_filter, NoDup_map_to_list].
    intros k x1 x2 [_ H1%elem_of_map_to_list]%list_elem_of_filter [_ H2%elem_of_map_to_list]%list_elem_of_filter. congruence.
  - unfold list_tombstones. pose proof (NoDup_fst_map_to_list (table w e)) as Hn. revert Hn.
    induction (map_to_list (table w e)) as [|[k x] l IH]; [intros _; constructor|]. simpl. intros [Hk Hn]%NoDup_cons.
    destruct (r_deleted x) as [d|]; simpl; [|by apply IH]. destruct (_ && _); [|by apply IH]. simpl. apply NoDup_cons. split; [|by apply IH].
    intros ([k' d'] & E & ([k2 x2] & Hin & Hsome)%list_elem_of_omap)%list_elem_of_fmap. simpl in *. apply Hk, list_elem_of_fmap. exists (k2, x2).
    split; [|done]. simpl in Hsome. destruct (r_deleted x2); [|done]. simpl in Hsome. destruct (_ && _); simplify_eq. done.
  - intros k x. unfold list_changed. rewrite list_elem_of_filter, elem_of_map_to_list. simpl. rewrite !andb_true_iff, !bool_decide_eq_true. tauto.
  - intros k d. unfold list_tombstones. rewrite list_elem_of_omap. split.
    + intros ([k' x] & Hin%elem_of_map_to_list & Hs). simpl in Hs. destruct (r_deleted x) as [d'|] eqn:Hd; [|done]. simpl in Hs.
      destruct (bool_decide _ && _) eqn:Hb; simplify_eq. apply andb_true_iff in Hb as [?%bool_decide_eq_true ?]. by exists x.
    + intros (x & Hx & Hu & Hd & Hs). exists (k, x). rewrite elem_of_map_to_list. split; [done|]. simpl. rewrite Hd. simpl.
      by rewrite bool_decide_eq_true_2, Hs.
Qed.

(** ** Worked synchronisations *)
Definition demo_user : uuid := uuid_of_N 1.
Definition other_user : uuid := uuid_of_N 2.
Definition text (s : string) : columns := {["name"%string := s]}.
Definition write (k s : string) (t : Z) : Upsert := MkUpsert k (text s) (MkStamp t false).
Definition write_naive (k s : string) (t : Z) : Upsert := MkUpsert k (text s) (MkStamp t true).

Definition after_push (user : uuid) (us : list Upsert) (ts : list Tombstone) (w : world) : world :=
  (sync "folders" user (MkBatch (Some <$> us) ts) w).2.

Lemma after_push_step user us ts w : step w (after_push user us ts w).
Proof. apply step_push. Qed.

Definition demo_starhope : world := after_push demo_user [write "f1" "Maths" 100] [] (empty_starhope 1000).
Definition demo_row : Row := MkRow demo_user (text "Maths") 1000 (MkStamp 100 false) None.

Definition demo_batches : list (list Upsert * list Tombstone) :=
  [([write "f1" "Algebra" 300], []); ([], [MkTombstone "f1" 200]); ([write "f2" "New" 120; write_naive "f1" "Physics" 150], [])].

Lemma demo_fair b : b ∈ demo_batches → fair demo_user (table demo_starhope Folders) b.1 b.2.
Proof.
  assert (Hall : ∀ k y, table demo_starhope Folders !! k = Some y → r_user y = demo_user).
  { assert (table demo_starhope Folders = {["f1"%string := demo_row]}) as -> by (by apply (bool_decide_unpack _); vm_compute).
    by intros k y [<- <-]%lookup_singleton_Some. }
  assert (H0 : ∀ A (P : A → Prop) a, a ∈ [] → P a) by (intros A P a []%elem_of_nil).
  assert (Hw : ∀ us, Forall (λ u, valid_id (u_id u) = true) us →
    ∀ u, u ∈ us → valid_id (u_id u) = true ∧ ∀ y, table demo_starhope Folders !! u_id u = Some y → r_user y = demo_user).
  { intros us Hv u Hu. rewrite Forall_forall in Hv. split; [by apply Hv|apply Hall]. }
  assert (Hl : ∀ us ts, Forall (λ u, naive (u_at u) = false) us → lone us ts).
  { intros us ts Hv u l [l' ->] Hu. rewrite Forall_app, Forall_cons in Hv. destruct Hv as (_ & Hv & _). congruence. }
  unfold demo_batches, fair, _MAX_PUSH_BATCH. rewrite !elem_of_cons, elem_of_nil. intros [->|[->|[->|[]]]]; simpl.
  - split_and!; [lia|lia|by apply Hw; repeat constructor|apply H0|by apply Hl; repeat constructor].
  - split_and!; [lia|lia|apply H0| |by apply Hl; repeat constructor]. by intros d ->%list_elem_of_singleton.
  - split_and!; [lia|lia|by apply Hw; repeat constructor|apply H0|].
    intros u l Hs Hu. apply suffix_cons_inv in Hs as [[= -> ->]|Hs]; [done|]. apply suffix_cons_inv in Hs as [[= -> ->]|Hs].
    + apply not_elem_of_nil.
    + by apply suffix_nil_inv in Hs.
Qed.

Lemma sync_converges_witness :
  (table demo_starhope Folders !! "f1"%string = Some demo_row) ∧
  ∃ w', push_all "folders" demo_user (reverse demo_batches) demo_starhope = (Ok tt, w') ∧
    shows <$> table w' Folders !! "f1"%string = newest (shows <$> table demo_starhope Folders !! "f1"%string) (all_edits "f1" demo_batches) ∧
    ∀ c, c ∈ option_list (shows <$> table demo_starhope Folders !! "f1"%string) ++ all_edits "f1" demo_batches →
      ∃ d, shows <$> table w' Folders !! "f1"%string = Some d ∧ (time c ≤ time d)%Z.
Proof.
  assert (Hrow : table demo_starhope Folders !! "f1"%string = Some demo_row) by by vm_compute. split; [done|].
  apply (sync_converges 1000 demo_starhope "folders" Folders demo_user "f1" demo_batches (reverse demo_batches)).
  - apply rtc_once, after_push_step.
  - done.
  - intros x. rewrite Hrow. by intros [= <-].
  - exact demo_fair.
  - rewrite Hrow. split; [|done]. apply (bool_decide_unpack _). by vm_compute.
  - apply reverse_Permutation.
Defined.

Lemma push_touches_own_witness :
  table (transaction true (push_entity "folders" other_user [Some (write "f1" "Mine" 500)] []) demo_starhope).2 Folders !! "f1"%string
  = Some demo_row.
Proof.
  apply (push_touches_own 1000); [apply rtc_once, after_push_step|by vm_compute|left; by apply (bool_decide_unpack _); vm_compute].
Defined.

Lemma pull_exact_witness :
  ∃ items tombs, pull_entity "folders" demo_user None demo_starhope = (Ok (items, tombs, clock demo_starhope), demo_starhope) ∧
    NoDup items.*1 ∧ NoDup tombs.*1 ∧
    (∀ k x, (k, x) ∈ items ↔ table demo_starhope Folders !! k = Some x ∧ r_user x = demo_user ∧ r_deleted x = None ∧ changed_since None (tm x) = true) ∧
    ∀ k d, (k, d) ∈ tombs ↔ ∃ x, table demo_starhope Folders !! k = Some x ∧ r_user x = demo_user ∧ r_deleted x = Some d ∧ changed_since None d = true.
Proof. by apply (pull_exact demo_starhope "folders" Folders). Defined.

(** A change made before another device's pull and pushed after it is not in
    that device's next pull. *)
Lemma late_change_not_pulled :
  let cursor := clock demo_starhope in
  let w := after_push demo_user [write "f1" "Offline" 900] [] demo_starhope in
  (λ r, shows r) <$> (table w Folders !! "f1"%string) = Some (Live 900 (text "Offline")) ∧
  (pull_entity "folders" demo_user (Some cursor) w).1 = Ok ([], [], cursor).
Proof. split; by vm_compute. Qed.

(** An id that another user has refuses the whole batch. *)
Lemma foreign_id_refused :
  (sync "folders" other_user (MkBatch [Some (write "f2" "Good" 500); Some (write "f1" "Mine" 500)] []) demo_starhope).1 = Raise IntegrityError.
Proof. by vm_compute. Qed.

(** The deletion of a row the server does not know yet is forgotten: the order
    in which two devices push decides. *)
Lemma unknown_deletion_forgotten :
  let w := empty_starhope 1000 in
  (λ r, shows r) <$> (table (after_push demo_user [write "f1" "Old" 100] [] (after_push demo_user [] [MkTombstone "f1" 200] w)) Folders !! "f1"%string)
    = Some (Live 100 (text "Old")) ∧
  (λ r, shows r) <$> (table (after_push demo_user [] [MkTombstone "f1" 200] (after_push demo_user [write "f1" "Old" 100] [] w)) Folders !! "f1"%string)
    = Some (Gone 200).
Proof. split; by vm_compute. Qed.

(** Two changes of one new row in a batch fail if the times lack their offset. *)
Lemma naive_times_fail :
  (sync "folders" demo_user (MkBatch [Some (write_naive "f1" "a" 100); Some (write_naive "f1" "b" 200)] []) (empty_starhope 1000)).1
  = Raise TypeError.
Proof. by vm_compute. Qed.

(** A change of the same time as the row is dated with the time of the server,
    and a later change of the client before that time is lost. *)
Lemma tie_takes_server_time :
  let w := after_push demo_user [write "f1" "Sums" 100] [] demo_starhope in
  (λ r, shows r) <$> (table w Folders !! "f1"%string) = Some (Live 1000 (text "Sums")) ∧
  (λ r, shows r) <$> (table (after_push demo_user [write "f1" "Series" 200] [] w) Folders !! "f1"%string) = Some (Live 1000 (text "Sums")).
Proof. split; by vm_compute. Qed.
