(* ===== verification/Columns.v ===== *)
(** * Columns: applications, their review, serialised posts, the public pages

    Model of [app/modules/columns]: applying for a column with one pending
    application and a day after a rejection, the review that creates the column,
    posts, the pages with their cache and the public GraphQL reads. Times are
    microseconds. A column's pictures, counters and labels keep their defaults
    and are left out. Cached pages are those of the current and of earlier
    collection versions; their expiry is the step that drops one.

    Theorems: what the tables hold in every reachable state, that the pages show
    everything exactly once, and when a cached page is the page of the database. *)

From S2P Require Import Prelude.
From S2P Require Boards Blog.

(** ** Tables *)
Inductive ApplicationStatus := PENDING | APPROVED | REJECTED.
#[export] Instance application_status_dec : EqDecision ApplicationStatus.
Proof. solve_decision. Defined.

Inductive ColumnStatus := ACTIVE | ARCHIVED.
#[export] Instance column_status_dec : EqDecision ColumnStatus.
Proof. solve_decision. Defined.

Inductive ColumnPostStatus := DRAFT | PUBLISHED | POST_ARCHIVED.
#[export] Instance post_status_dec : EqDecision ColumnPostStatus.
Proof. solve_decision. Defined.

Record ColumnApplication := MkApplication {
  user_id : uuid; a_title : string; a_description : string; a_reason : string; a_status : ApplicationStatus;
  reviewer_id : option uuid; review_note : option string; a_created : Z; reviewed_at : option Z
}.

Record Column := MkColumn {
  owner_id : uuid; application_id : option uuid; c_title : string; c_description : string; c_slug : option string;
  c_status : ColumnStatus; c_created : Z
}.

Record ColumnPost := MkPost {
  column_id : uuid; author_id : uuid; p_title : string; p_summary : option string; p_content : string;
  p_status : ColumnPostStatus; published_at : option Z
}.

Record tables := Tables {
  applications : gmap uuid ColumnApplication;
  columns : gmap uuid Column;
  posts : gmap uuid ColumnPost;
  audit : list (uuid * uuid * ApplicationStatus)     (* reviewer, application, decision *)
}.

Record PageData (A : Type) := MkPage { items : list (uuid * A); total : Z; page : Z; pages : Z }.
Arguments MkPage {A}. Arguments items {A}. Arguments total {A}. Arguments page {A}. Arguments pages {A}.

(** The collection version of the columns and the cached pages, by version,
    page and limit, are in Redis. *)
Record world := World {
  db : tables; version : Z; cached : gmap (Z * Z * option Z) (PageData Column); clock : Z
}.

Abbreviation M := (prog world err).

Definition set_db (f : tables → tables) (w : world) : world := World (f (db w)) (version w) (cached w) (clock w).
Definition set_applications (f : gmap uuid ColumnApplication → gmap uuid ColumnApplication) : world → world :=
  set_db (λ d, Tables (f (applications d)) (columns d) (posts d) (audit d)).
Definition set_columns (f : gmap uuid Column → gmap uuid Column) : world → world :=
  set_db (λ d, Tables (applications d) (f (columns d)) (posts d) (audit d)).
Definition set_posts (f : gmap uuid ColumnPost → gmap uuid ColumnPost) : world → world :=
  set_db (λ d, Tables (applications d) (columns d) (f (posts d)) (audit d)).
Definition record_audit (reviewer k : uuid) (s : ApplicationStatus) : world → world :=
  set_db (λ d, Tables (applications d) (columns d) (posts d) (audit d ++ [(reviewer, k, s)])).
Definition bump_collection_version (w : world) : world := World (db w) (version w + 1) (cached w) (clock w).
Definition set_cached (f : gmap (Z * Z * option Z) (PageData Column) → gmap (Z * Z * option Z) (PageData Column)) (w : world) : world :=
  World (db w) (version w) (f (cached w)) (clock w).

(** ** [repository.py] *)
Definition newest_id {A} (a b : uuid * A) : Prop := (uuid_int b.1 ≤ uuid_int a.1)%N.
#[export] Instance newest_id_dec {A} : RelDecision (newest_id (A:=A)).
Proof. intros a b. unfold newest_id. apply _. Defined.

(** [ORDER BY id DESC OFFSET o LIMIT l] *)
Definition rows_page {A} (offset limit : option Z) (rows : list (uuid * A)) : list (uuid * A) :=
  let sorted := drop (Z.to_nat (default 0%Z offset)) (merge_sort newest_id rows) in
  match limit with Some l => take (Z.to_nat l) sorted | None => sorted end.

Definition has_pending (u : uuid) (d : tables) : bool :=
  existsb (λ ka, bool_decide (user_id ka.2 = u ∧ a_status ka.2 = PENDING)) (map_to_list (applications d)).

Definition reviewed_later (a b : uuid * ColumnApplication) : Prop :=
  (default 0 (reviewed_at b.2) ≤ default 0 (reviewed_at a.2))%Z.
#[export] Instance reviewed_later_dec : RelDecision reviewed_later.
Proof. intros a b. unfold reviewed_later. apply _. Defined.

Definition latest_rejected (u : uuid) (d : tables) : option ColumnApplication :=
  snd <$> head (merge_sort reviewed_later
    (filter (λ ka, user_id ka.2 = u ∧ a_status ka.2 = REJECTED) (map_to_list (applications d)))).

Definition get_by_application (k : uuid) (d : tables) : option (uuid * Column) :=
  head (filter (λ kc, application_id kc.2 = Some k) (map_to_list (columns d))).

(** ** [service.py] *)
Record ColumnApplicationCreate := MkCreate { i_title : string; i_description : string; i_reason : string }.
Record ColumnPostCreate := MkPostCreate { i_post_title : string; i_summary : option string; i_content : string }.

(** As for boards: [Some n] is a refusal with [Retry-After: n]. *)
Definition APPLICATION_COOLDOWN_TIME : Z := 24 * 3600 * 1000000.

Definition _assert_reapply_allowed (reviewed : option Z) (now : Z) : option Z :=
  match reviewed with
  | None => None
  | Some t =>
      let until := (t + APPLICATION_COOLDOWN_TIME)%Z in
      if decide (until ≤ now)%Z then None else Some (Z.max 1 (Boards.ceil_div (until - now) 1000000))
  end.

Definition create_application (new u : uuid) (info : ColumnApplicationCreate) : M uuid :=
  w ← get_state;
  raise_when (has_pending u (db w)) APPLICATION_PENDING_EXISTS ≫= λ _,
  raise_when (match latest_rejected u (db w) with
              | Some a => bool_decide (is_Some (_assert_reapply_allowed (reviewed_at a) (clock w)))
              | None => false
              end) APPLICATION_COOLDOWN ≫= λ _,
  raise_when (bool_decide (is_Some (applications (db w) !! new))) APPLICATION_PENDING_EXISTS ≫= λ _,
  modify (set_applications <[new := MkApplication u (i_title info) (i_description info) (i_reason info) PENDING None None
    (clock w) None]>) ≫= λ _,
  mret new.

Definition reviewed (by_ : uuid) (s : ApplicationStatus) (note : option string) (now : Z) (a : ColumnApplication) : ColumnApplication :=
  MkApplication (user_id a) (a_title a) (a_description a) (a_reason a) s (Some by_) note (a_created a) (Some now).

Definition _ensure_column_for_application (new k : uuid) (a : ColumnApplication) : M uuid :=
  w ← get_state;
  match get_by_application k (db w) with
  | Some (c, _) => mret c
  | None =>
      raise_when (bool_decide (is_Some (columns (db w) !! new))) IntegrityError ≫= λ _,
      modify (set_columns <[new := MkColumn (user_id a) (Some k) (a_title a) (a_description a) None ACTIVE (clock w)]>) ≫= λ _,
      modify bump_collection_version ≫= λ _,
      mret new
  end.

(** The body's schema admits [APPROVED] and [REJECTED] only. *)
Definition review_application (k : uuid) (approve : bool) (note : option string) (reviewer new : uuid) : M (option uuid) :=
  w ← get_state;
  a ← get_or_raise (applications (db w) !! k) APPLICATION_NOT_FOUND;
  raise_when (bool_decide (a_status a ≠ PENDING)) APPLICATION_ALREADY_REVIEWED ≫= λ _,
  let s := if approve then APPROVED else REJECTED in
  let a' := reviewed reviewer s note (clock w) a in
  modify (set_applications <[k := a']>) ≫= λ _,
  c ← (if approve then c ← _ensure_column_for_application new k a'; mret (Some c) else mret None);
  modify (record_audit reviewer k s) ≫= λ _,
  mret c.

Definition get_application (k : uuid) : M ColumnApplication :=
  w ← get_state; get_or_raise (applications (db w) !! k) APPLICATION_NOT_FOUND.

Definition get_column (k : uuid) : M Column := w ← get_state; get_or_raise (columns (db w) !! k) COLUMN_NOT_FOUND.

Definition get_column_by_slug (s : string) : M (uuid * Column) :=
  w ← get_state;
  get_or_raise (head (filter (λ kc, c_slug kc.2 = Some s) (map_to_list (columns (db w))))) COLUMN_NOT_FOUND.

Definition create_post (new k : uuid) (info : ColumnPostCreate) (author : uuid) : M uuid :=
  _ ← get_column k;
  w ← get_state;
  raise_when (bool_decide (is_Some (posts (db w) !! new))) IntegrityError ≫= λ _,
  modify (set_posts <[new := MkPost k author (i_post_title info) (i_summary info) (i_content info) PUBLISHED (Some (clock w))]>) ≫= λ _,
  mret new.

(** [PageData] of the rows, with the page as it was asked for. *)
Definition page_data {A} (pg : Z) (limit : option Z) (rows : list (uuid * A)) : PageData A :=
  let n := Z.of_nat (length rows) in
  MkPage (rows_page (Blog.paginate_offset pg <$> limit) limit rows) n pg
    (match limit with
     | Some l => if bool_decide (l = 0)%Z then (if bool_decide (n = 0)%Z then 0 else 1)%Z else Blog.paginate_pages n l
     | None => if bool_decide (n = 0)%Z then 0%Z else 1%Z
     end).

Definition list_applications (pg : Z) (limit : option Z) (d : tables) : PageData ColumnApplication :=
  page_data pg limit (map_to_list (applications d)).

Definition list_my_column_applications (u : uuid) (d : tables) : list (uuid * ColumnApplication) :=
  rows_page None None (filter (λ ka, user_id ka.2 = u) (map_to_list (applications d))).

Definition load_columns (pg : Z) (limit : option Z) (d : tables) : PageData Column :=
  page_data pg limit (map_to_list (columns d)).

Definition list_columns (pg : Z) (limit : option Z) : M (PageData Column) :=
  w ← get_state;
  match cached w !! (version w, pg, limit) with
  | Some p => mret p
  | None =>
      let p := load_columns pg limit (db w) in
      modify (set_cached <[(version w, pg, limit) := p]>) ≫= λ _, mret p
  end.

Definition list_posts (k : uuid) (pg : Z) (limit : option Z) : M (PageData ColumnPost) :=
  _ ← get_column k;
  w ← get_state;
  mret (page_data pg limit (filter (λ kp, column_id kp.2 = k) (map_to_list (posts (db w))))).

Definition get_post (i : uuid) (k : option uuid) : M ColumnPost :=
  w ← get_state;
  p ← get_or_raise (posts (db w) !! i) POST_NOT_FOUND;
  raise_when (match k with Some k => bool_decide (column_id p ≠ k) | None => false end) POST_NOT_FOUND ≫= λ _, mret p.

(** ** [router.py]: who may *)
Definition get_application_detail (cur k : uuid) (manages : bool) : M ColumnApplication :=
  w ← get_state;
  a ← get_or_raise (applications (db w) !! k) FORBIDDEN;
  raise_when (bool_decide (user_id a ≠ cur) && negb manages) FORBIDDEN ≫= λ _, get_application k.

Definition review_column_application (cur : uuid) (may_review : bool) (k : uuid) (approve : bool) (note : option string) (new : uuid)
    : M (option uuid) :=
  raise_when (negb may_review) FORBIDDEN ≫= λ _,
  a ← get_application k;
  raise_when (bool_decide (user_id a = cur)) FORBIDDEN ≫= λ _,
  review_application k approve note cur new.

Definition publish_column_post (cur : uuid) (manages : bool) (new k : uuid) (info : ColumnPostCreate) : M uuid :=
  c ← get_column k;
  raise_when (bool_decide (owner_id c ≠ cur) && negb manages) FORBIDDEN ≫= λ _,
  create_post new k info cur.

(** ** [read_api.py] *)
Definition pending_column_applications (d : tables) : nat * option Z :=
  let rows := filter (λ ka, a_status ka.2 = PENDING) (map_to_list (applications d)) in
  (length rows, foldr (λ ka m, Some (match m with Some t => Z.min (a_created ka.2) t | None => a_created ka.2 end)) None rows).

Definition column_titles (ks : gset uuid) (d : tables) : gmap uuid string := c_title <$> filter (λ kc, kc.1 ∈ ks) (columns d).
Definition column_exists (k : uuid) (d : tables) : bool := bool_decide (is_Some (columns d !! k)).
Definition column_owner_id (k : uuid) (d : tables) : option uuid := owner_id <$> columns d !! k.

(** ** [graphql.py] *)
Definition _visible_col (c : Column) : bool := bool_decide (c_status c = ACTIVE).
Definition _visible_post (p : ColumnPost) : bool := bool_decide (p_status p = PUBLISHED).

Definition _GRAPHQL_PAGE_SIZE : Z := 20.
Definition _GRAPHQL_PAGE_MAX : Z := 100.
Definition _bounded_page_size (page_size : option Z) : Z :=
  match page_size with None => _GRAPHQL_PAGE_SIZE | Some n => Z.max 1 (Z.min n _GRAPHQL_PAGE_MAX) end.

Definition visible_page {A} (visible : A → bool) (p : PageData A) : PageData A :=
  MkPage (filter (λ ka, visible ka.2 = true) (items p)) (total p) (page p) (pages p).

Definition graph_columns (pg : Z) (size : option Z) : M (PageData Column) :=
  p ← list_columns pg (Some (_bounded_page_size size)); mret (visible_page _visible_col p).

(** Not found is an answer, [None] or an empty page. *)
Definition found {A} (m : M A) : M (option A) := λ w,
  match m w with
  | (Ok a, w') => (Ok (Some a), w')
  | (Raise e, w') => if bool_decide (e = COLUMN_NOT_FOUND) then (Ok None, w') else (Raise e, w')
  end.

Definition graph_column (k : uuid) : M (option Column) :=
  o ← found (get_column k); mret (c ← o; if _visible_col c then Some c else None).

Definition graph_column_by_slug (s : string) : M (option (uuid * Column)) :=
  o ← found (get_column_by_slug s); mret (kc ← o; if _visible_col kc.2 then Some kc else None).

Definition graph_posts (k : uuid) (pg : Z) (size : option Z) : M (PageData ColumnPost) :=
  o ← found (list_posts k pg (Some (_bounded_page_size size)));
  mret (match o with Some p => visible_page _visible_post p | None => MkPage [] 0 pg 0 end).

(** ** Requests

    The statements of a request see the database as the request has left it; a
    read of the list that another request makes before the commit sees the
    committed one, and the version and the cached pages as they are now. *)
Definition reads (l : list (Z * option Z)) (w : world) : world := foldl (λ w q, (list_columns q.1 q.2 w).2) w l.

Definition transaction {A} (commits : bool) (between : list (Z * option Z)) (m : M A) : M A := λ w,
  let '(o, w') := m w in
  let w2 := reads between (set_db (λ _, db w) w') in
  match o with
  | Ok a => if commits then (Ok a, set_db (λ _, db w') w2) else (Raise RuntimeError, w2)
  | Raise e => (Raise e, w2)
  end.

Inductive request :=
| Apply (new u : uuid) (info : ColumnApplicationCreate)
| Review (cur : uuid) (may_review : bool) (k : uuid) (approve : bool) (note : option string) (new : uuid)
| Publish (cur : uuid) (manages : bool) (new k : uuid) (info : ColumnPostCreate)
| ListColumns (pg : Z) (limit : option Z).

Definition ignore {A} (m : M A) : M () := _ ← m; mret tt.

Definition body (r : request) : M () :=
  match r with
  | Apply new u info => ignore (create_application new u info)
  | Review cur may k approve note new => ignore (review_column_application cur may k approve note new)
  | Publish cur manages new k info => ignore (publish_column_post cur manages new k info)
  | ListColumns pg limit => ignore (list_columns pg limit)
  end.

(** With [overlap], the list may be read while a request is under way. *)
Inductive step (overlap : bool) (w : world) : world → Prop :=
| step_request commits between r :
    (overlap = false → between = []) → step overlap w (transaction commits between (body r) w).2
| step_expire k : step overlap w (set_cached (delete k) w)
| step_time t : (clock w ≤ t)%Z → step overlap w (World (db w) (version w) (cached w) t).

(** ** What stays true *)
Definition decided (now : Z) (a : ColumnApplication) : Prop :=
  (a_created a ≤ now)%Z ∧
  match a_status a with
  | PENDING => reviewer_id a = None ∧ reviewed_at a = None
  | _ => ∃ r t, reviewer_id a = Some r ∧ reviewed_at a = Some t ∧ r ≠ user_id a ∧ (a_created a ≤ t ≤ now)%Z
  end.

(** [a] was over, and a day over if rejected, when [b] was made. *)
Definition over_before (a b : ColumnApplication) : Prop :=
  ∃ t, reviewed_at a = Some t ∧ (t ≤ a_created b)%Z ∧ (a_status a = REJECTED → t + APPLICATION_COOLDOWN_TIME ≤ a_created b)%Z.

Record wf (now : Z) (d : tables) : Prop := MkWf {
  wf_decided : ∀ k a, applications d !! k = Some a → decided now a;
  wf_spaced : ∀ k1 k2 a1 a2, applications d !! k1 = Some a1 → applications d !! k2 = Some a2 → user_id a1 = user_id a2 →
    k1 = k2 ∨ over_before a1 a2 ∨ over_before a2 a1;
  wf_audit_once : NoDup ((λ e, e.1.2) <$> audit d);
  wf_audit : ∀ r k s, (r, k, s) ∈ audit d ↔ ∃ a, applications d !! k = Some a ∧ a_status a = s ∧ s ≠ PENDING ∧ reviewer_id a = Some r;
  wf_column : ∀ c x, columns d !! c = Some x → ∃ k a, application_id x = Some k ∧ applications d !! k = Some a ∧
    a_status a = APPROVED ∧ owner_id x = user_id a ∧ c_title x = a_title a;
  wf_column_one : ∀ c1 c2 x1 x2, columns d !! c1 = Some x1 → columns d !! c2 = Some x2 → application_id x1 = application_id x2 → c1 = c2;
  wf_approved : ∀ k a, applications d !! k = Some a → a_status a = APPROVED → ∃ c x, columns d !! c = Some x ∧ application_id x = Some k;
  wf_post : ∀ i p, posts d !! i = Some p → is_Some (columns d !! column_id p)
}.

Lemma decided_later now t a : (now ≤ t)%Z → decided now a → decided t a.
Proof. intros Ht [? H]. split; [lia|]. destruct (a_status a); [done|..]; destruct H as (r & t' & ? & ? & ? & ?); exists r, t'; split_and!; (done || lia). Qed.

Lemma wf_later now t d : (now ≤ t)%Z → wf now d → wf t d.
Proof. intros Ht []. split; [|done..]. intros k a Hk. by eapply decided_later; eauto. Qed.

Lemma has_pending_false u d k a : has_pending u d = false → applications d !! k = Some a → user_id a = u → a_status a ≠ PENDING.
Proof.
  unfold has_pending. intros Hf Hk Hu Hs. assert (Hex : existsb (λ ka, bool_decide (user_id ka.2 = u ∧ a_status ka.2 = PENDING)) (map_to_list (applications d)) = true).
  { apply existsb_exists. exists (k, a). split; [by apply list_elem_of_In, elem_of_map_to_list|]. by apply bool_decide_eq_true. }
  congruence.
Qed.

Lemma reviewed_later_total : Total reviewed_later.
Proof. intros a b. unfold reviewed_later. lia. Qed.
Lemma reviewed_later_trans : Transitive reviewed_later.
Proof. intros a b c. unfold reviewed_later. lia. Qed.

(** The latest rejection is not older than any other. *)
Lemma column_latest_rejected_spec u d k a :
  applications d !! k = Some a → user_id a = u → a_status a = REJECTED →
  ∃ k' a', latest_rejected u d = Some a' ∧ applications d !! k' = Some a' ∧ a_status a' = REJECTED ∧
    (default 0 (reviewed_at a) ≤ default 0 (reviewed_at a'))%Z.
Proof.
  intros Hk Hu Hs. unfold latest_rejected. set (l := filter _ _).
  assert (Hin : (k, a) ∈ merge_sort reviewed_later l).
  { rewrite merge_sort_Permutation. apply list_elem_of_filter. split; [done|]. by apply elem_of_map_to_list. }
  pose proof (@StronglySorted_merge_sort _ reviewed_later _ reviewed_later_trans reviewed_later_total l) as Hsort.
  assert (Hl : ∀ x, x ∈ merge_sort reviewed_later l → applications d !! x.1 = Some x.2 ∧ a_status x.2 = REJECTED).
  { intros x. rewrite merge_sort_Permutation. unfold l. intros [[_ ?] ?]%list_elem_of_filter. destruct x. split; [|done]. by apply elem_of_map_to_list. }
  destruct (merge_sort reviewed_later l) as [|x l'] eqn:E; [by apply elem_of_nil in Hin|].
  exists x.1, x.2. destruct (Hl x) as [? ?]; [left|]. split_and!; [done|done|done|].
  apply elem_of_cons in Hin as [<-|Hin]; [done|]. apply StronglySorted_inv in Hsort as [_ Hf]. rewrite Forall_forall in Hf.
  by apply (Hf (k, a)).
Qed.

Lemma get_by_application_Some k d c x : get_by_application k d = Some (c, x) → columns d !! c = Some x ∧ application_id x = Some k.
Proof.
  unfold get_by_application. intros Hh. assert (Hin : (c, x) ∈ filter (λ kc, application_id kc.2 = Some k) (map_to_list (columns d))).
  { destruct (filter _ _); [done|]. simpl in Hh. simplify_eq. left. }
  apply list_elem_of_filter in Hin as [? ?%elem_of_map_to_list]. done.
Qed.

Lemma get_by_application_None k d c x : get_by_application k d = None → columns d !! c = Some x → application_id x ≠ Some k.
Proof.
  unfold get_by_application. intros Hh Hc Hk. assert (Hin : (c, x) ∈ filter (λ kc, application_id kc.2 = Some k) (map_to_list (columns d))).
  { apply list_elem_of_filter. split; [done|]. by apply elem_of_map_to_list. }
  destruct (filter _ _); [by apply elem_of_nil in Hin|done].
Qed.

(** ** Changes of the tables *)
Lemma wf_apply now d new u info :
  wf now d → applications d !! new = None → has_pending u d = false →
  (∀ a, latest_rejected u d = Some a → _assert_reapply_allowed (reviewed_at a) now = None) →
  wf now (Tables (<[new := MkApplication u (i_title info) (i_description info) (i_reason info) PENDING None None now None]> (applications d))
    (columns d) (posts d) (audit d)).
Proof.
  intros W Hn Hp Hl. pose proof W as [H1 H2 H3 H4 H5 H6 H7 H8].
  assert (Hold : ∀ k a, applications d !! k = Some a → user_id a = u →
    over_before a (MkApplication u (i_title info) (i_description info) (i_reason info) PENDING None None now None)).
  { intros k a Hk Hu. pose proof (has_pending_false u d k a Hp Hk Hu) as Hne. destruct (H1 k a Hk) as [_ Hd].
    destruct (a_status a) eqn:Hs; [done|..]; destruct Hd as (r & t & _ & Ht & _ & Hle); exists t; simpl.
    - split_and!; [done|lia|intros ?; congruence].
    - destruct (column_latest_rejected_spec u d k a Hk Hu Hs) as (k' & a' & Hla & Hk' & Hs' & Hle'). specialize (Hl a' Hla).
      destruct (H1 k' a' Hk') as [_ Hd']. rewrite Hs' in Hd'. destruct Hd' as (r' & t' & _ & Ht' & _ & _). rewrite Ht, Ht' in Hle'. simpl in Hle'.
      unfold _assert_reapply_allowed in Hl. rewrite Ht' in Hl. case_decide; [|done]. split_and!; [done|lia|intros _; lia]. }
  assert (Hkeep : ∀ k a, applications d !! k = Some a → k ≠ new) by (intros k a Hk ->; congruence).
  split; simpl; [| |done| | |done| |done].
  - intros k a [[<- <-]|[? Ha]]%lookup_insert_Some; [by split|by apply (H1 k)].
  - intros k1 k2 a1 a2 [[<- <-]|[? Ha1]]%lookup_insert_Some [[<- <-]|[? Ha2]]%lookup_insert_Some Hu; [by left|..|by apply H2].
    + right; right. by apply (Hold k2).
    + right; left. by apply (Hold k1).
  - intros r k s. rewrite H4. split; intros (a & Ha & ?).
    + exists a. rewrite lookup_insert_ne; [done|]. symmetry. by apply (Hkeep k a).
    + exists a. apply lookup_insert_Some in Ha as [[-> <-]|[? Ha]]; [naive_solver|done].
  - intros c x Hc. destruct (H5 c x Hc) as (k & a & ? & Ha & ?). exists k, a. split; [done|]. rewrite lookup_insert_ne; [done|].
    symmetry. by apply (Hkeep k a).
  - intros k a [[<- <-]|[? Ha]]%lookup_insert_Some Hs; [done|by apply (H7 k a)].
Qed.

(** A decision, with the column that an approval has made sure of. *)
Lemma wf_review now d k a r (approve : bool) note (cs : gmap uuid Column) :
  wf now d → applications d !! k = Some a → a_status a = PENDING → r ≠ user_id a →
  (if approve
   then (∃ c x, cs !! c = Some x ∧ application_id x = Some k) ∧
        (∀ c x, cs !! c = Some x → columns d !! c = Some x ∨ columns d !! c = None ∧ application_id x = Some k ∧ owner_id x = user_id a ∧ c_title x = a_title a) ∧
        (∀ c1 c2 x1 x2, cs !! c1 = Some x1 → cs !! c2 = Some x2 → application_id x1 = application_id x2 → c1 = c2) ∧
        (∀ c x, columns d !! c = Some x → cs !! c = Some x)
   else cs = columns d) →
  let s := if approve then APPROVED else REJECTED in
  wf now (Tables (<[k := reviewed r s note now a]> (applications d)) cs (posts d) (audit d ++ [(r, k, s)])).
Proof.
  intros W Hk Hs Hr Hcs s. pose proof W as [H1 H2 H3 H4 H5 H6 H7 H8].
  assert (Hsp : s ≠ PENDING) by (unfold s; by destruct approve).
  assert (Hcols : ∀ c x, columns d !! c = Some x → cs !! c = Some x).
  { destruct approve; [apply Hcs|by subst]. }
  assert (Hka : ∀ c x, columns d !! c = Some x → application_id x ≠ Some k).
  { intros c x Hc Ex. destruct (H5 c x Hc) as (k' & a' & Ek & Ha' & Hs' & _). congruence. }
  split; simpl.
  - intros j b [[<- <-]|[? Hb]]%lookup_insert_Some; [|by apply (H1 j)]. destruct (H1 k a Hk) as [Hc _]. split; [done|]. simpl.
    unfold s. destruct approve; simpl; exists r, now; split_and!; (done || lia).
  - assert (Hov : ∀ b, over_before b a → over_before b (reviewed r s note now a)) by done.
    assert (Hno : ∀ b, over_before a b → False).
    { intros b (t & Ht & _). destruct (H1 k a Hk) as [_ Hd]. rewrite Hs in Hd. destruct Hd; congruence. }
    intros k1 k2 a1 a2 [[<- <-]|[? Ha1]]%lookup_insert_Some [[<- <-]|[? Ha2]]%lookup_insert_Some Hu; [by left|..|by apply H2].
    + destruct (H2 k k2 a a2 Hk Ha2 Hu) as [?|[Ho|?]]; [by left|by destruct (Hno a2)|right; right; by apply Hov].
    + destruct (H2 k1 k a1 a Ha1 Hk Hu) as [?|[?|Ho]]; [by left|right; left; by apply Hov|by destruct (Hno a1)].
  - rewrite fmap_app. apply NoDup_app. split_and!; [done| |apply NoDup_singleton]. intros j Hj ->%list_elem_of_singleton.
    apply list_elem_of_fmap in Hj as ([[r' k'] s'] & E & Hin). simpl in E. subst k'. apply H4 in Hin as (a' & ? & ? & ? & _). congruence.
  - intros r' j s'. rewrite elem_of_app, list_elem_of_singleton, H4. split.
    + intros [(b & Hb & ?)|[= -> -> ->]].
      * exists b. rewrite lookup_insert_ne; [done|]. intros <-. naive_solver.
      * exists (reviewed r s note now a). by rewrite lookup_insert_eq.
    + intros (b & [[<- <-]|[? Hb]]%lookup_insert_Some & <- & Hne & Er); simpl in *; [right|left; by exists b]. congruence.
  - intros c x Hc.
    assert (Hold : columns d !! c = Some x → ∃ k0 a0, application_id x = Some k0 ∧ <[k:=reviewed r s note now a]> (applications d) !! k0 = Some a0 ∧
      a_status a0 = APPROVED ∧ owner_id x = user_id a0 ∧ c_title x = a_title a0).
    { intros Ho. destruct (H5 c x Ho) as (k' & a' & ? & Ha' & ?). exists k', a'. split; [done|]. rewrite lookup_insert_ne; [done|].
      intros <-. by destruct (Hka c x Ho). }
    destruct approve; [|subst; by apply Hold]. destruct Hcs as (_ & Hn & _). destruct (Hn c x Hc) as [?|(_ & ? & ? & ?)]; [by apply Hold|].
    exists k, (reviewed r s note now a). by rewrite lookup_insert_eq.
  - destruct approve; [apply Hcs|subst; done].
  - intros j b [[<- <-]|[? Hb]]%lookup_insert_Some Hst.
    + simpl in Hst. unfold s in Hst. destruct approve; [apply Hcs|done].
    + destruct (H7 j b Hb Hst) as (c & x & Hc & ?). exists c, x. split; [by apply Hcols|done].
  - intros i p Hi. destruct (H8 i p Hi) as [x Hx]. exists x. by apply Hcols.
Qed.

(** ** Requests *)

(** The next guard, whose condition fails, as [H]; the next row that must exist,
    as [x] with [H]. *)
Ltac passes H := cbv beta; try (apply wp_bind; cbv beta); apply wp_raise_when; intros H; [done|cbv beta];
  try (apply bool_decide_eq_false in H).
Ltac finds x H := cbv beta; try (apply wp_bind; cbv beta); apply wp_get_or_raise; [done|intros x H; cbv beta].

Definition keeps (m : M ()) (w : world) : Prop :=
  wf (clock w) (db w) → wp m (λ _ w', wf (clock w) (db w')) (λ _ _, True) w.

Lemma apply_keeps new u info w : keeps (body (Apply new u info)) w.
Proof.
  intros W. simpl. unfold ignore, create_application. wp_step. wp_step. wp_step. passes Hp. passes Hl. passes Hn. wp_step. wp_step. wp_step. wp_step.
  apply eq_None_not_Some in Hn. simpl. apply wf_apply; [done..|]. intros a Ha. rewrite Ha in Hl.
  by apply bool_decide_eq_false, eq_None_not_Some in Hl.
Qed.

Lemma wp_ensure new k a now w (Q : uuid → world → Prop) :
  (∀ c x, get_by_application k (db w) = Some (c, x) → Q c w) →
  (get_by_application k (db w) = None → columns (db w) !! new = None →
     Q new (bump_collection_version (set_columns <[new := MkColumn (user_id a) (Some k) (a_title a) (a_description a) None ACTIVE now]> w))) →
  clock w = now → wp (_ensure_column_for_application new k a) Q (λ _ _, True) w.
Proof.
  intros H1 H2 <-. unfold _ensure_column_for_application. wp_step. wp_step. destruct (get_by_application k (db w)) as [[c x]|] eqn:E.
  - wp_step. by eapply H1.
  - passes Hn. wp_step. wp_step. wp_step. wp_step. wp_step. apply H2; [done|]. by apply eq_None_not_Some.
Qed.

Lemma column_review_keeps cur may k approve note new w : keeps (body (Review cur may k approve note new)) w.
Proof.
  intros W. simpl. unfold ignore, review_column_application, get_application. wp_step. passes Hm. wp_step. wp_step. wp_step. finds a Hk.
  passes Hu. unfold review_application. wp_step. wp_step. finds a' Hk'. simplify_eq. passes Hs. apply dec_stable in Hs. wp_step. wp_step. wp_step.
  set (w1 := set_applications _ w).
  pose proof (λ cs, wf_review (clock w) (db w) k a cur approve note cs W Hk Hs) as Hrev.
  destruct approve; simpl in *.
  - wp_step. apply (wp_ensure _ _ _ (clock w)); [| |done].
    + intros c x Hg. wp_step. wp_step. wp_step. wp_step. wp_step. apply (Hrev (columns (db w))); [congruence|].
      apply get_by_application_Some in Hg as [Hc Hx]. simpl in Hc. split_and!; [by exists c, x|by left|apply W|done].
    + intros Hg Hc. wp_step. wp_step. wp_step. wp_step. wp_step. simpl in *. apply Hrev; [congruence|].
      assert (Hno : ∀ c x, columns (db w) !! c = Some x → application_id x ≠ Some k) by (intros c x; by apply (get_by_application_None k (db w1))).
      split_and!.
      * eexists new, _. by rewrite lookup_insert_eq.
      * intros c x [[<- <-]|[? ?]]%lookup_insert_Some; [by right|by left].
      * intros c1 c2 x1 x2 [[<- <-]|[? Hx1]]%lookup_insert_Some [[<- <-]|[? Hx2]]%lookup_insert_Some Heq; [done|..].
        -- by destruct (Hno c2 x2 Hx2).
        -- by destruct (Hno c1 x1 Hx1).
        -- by apply (wf_column_one _ _ W c1 c2 x1 x2).
      * intros c x Hx. rewrite lookup_insert_ne; [done|]. congruence.
  - wp_step. wp_step. wp_step. wp_step. wp_step. by apply (Hrev (columns (db w))); [congruence|].
Qed.

Lemma publish_keeps cur manages new k info w : keeps (body (Publish cur manages new k info)) w.
Proof.
  intros W. simpl. unfold ignore, publish_column_post, create_post, get_column. wp_step. wp_step. wp_step. wp_step. finds c Hc. passes Ho.
  wp_step. wp_step. wp_step. finds c' Hc'. wp_step. wp_step. passes Hn. wp_step. wp_step. wp_step. wp_step. simpl.
  destruct W as [H1 H2 H3 H4 H5 H6 H7 H8]. split; simpl; try done.
  intros i p [[<- <-]|[? ?]]%lookup_insert_Some; [by exists c|by apply (H8 i)].
Qed.

Lemma list_columns_db pg limit w : db (list_columns pg limit w).2 = db w ∧ clock (list_columns pg limit w).2 = clock w.
Proof. unfold list_columns. rewrite run_get_state. by case_match. Qed.

Lemma list_keeps pg limit w : keeps (body (ListColumns pg limit)) w.
Proof.
  intros W. simpl. unfold ignore. wp_step. pose proof (list_columns_db pg limit w) as [E _]. unfold wp.
  destruct (list_columns pg limit w) as [[p|e] w'] eqn:El; [|done]. simpl in *. by rewrite E.
Qed.

Lemma column_body_keeps r w : keeps (body r) w.
Proof. destruct r; [apply apply_keeps|apply column_review_keeps|apply publish_keeps|apply list_keeps]. Qed.

(** ** The cache and the version *)
Definition unmoved (w w' : world) : Prop :=
  columns (db w') = columns (db w) ∧ version w' = version w ∧ cached w' = cached w ∧ clock w' = clock w.

#[local] Instance unmoved_preorder : PreOrder unmoved.
Proof. split; [by intros w|]. intros w1 w2 w3 (?&?&?&?) (?&?&?&?). split_and!; congruence. Qed.

(** Either nothing the list depends on changed, or the version did. *)
Definition moved (w w' : world) : Prop :=
  clock w' = clock w ∧ ((columns (db w') = columns (db w) ∧ version w' = version w ∧ cached w' = cached w) ∨
                        (version w' = version w + 1 ∧ cached w' = cached w)%Z).

Lemma unmoved_moved w w' : unmoved w w' → moved w w'.
Proof. intros (?&?&?&?). split; [done|]. left. auto. Qed.

#[local] Hint Extern 1 (respects unmoved (modify _)) => apply respects_modify; intros; repeat split : respects.

Definition lists (r : request) : bool := match r with ListColumns _ _ => true | _ => false end.

Lemma body_moved r w : lists r = false → moved w (body r w).2.
Proof.
  intros Hr. assert (Hun : respects unmoved (body r) → moved w (body r w).2) by (intros H; apply unmoved_moved, H).
  destruct r; try discriminate Hr; simpl body in *.
  - apply Hun. unfold ignore, create_application. respects.
  - clear Hun. enough (Hwp : wp (ignore (review_column_application cur may_review k approve note new)) (λ _, moved w) (λ _, moved w) w).
    { unfold wp in Hwp. by destruct (ignore _ w) as [[?|?] ?]. }
    unfold ignore, review_column_application, get_application, review_application, _ensure_column_for_application.
    assert (Hr' : moved w w) by (apply unmoved_moved; done).
    repeat (wp_step || destruct approve); try done; by (split; [done|]; (left + right)).
  - apply Hun. unfold ignore, publish_column_post, create_post, get_column. respects.
Qed.

Definition coherent (w : world) : Prop :=
  (∀ v pg l p, cached w !! (v, pg, l) = Some p → (v ≤ version w)%Z) ∧
  ∀ pg l p, cached w !! (version w, pg, l) = Some p → p = load_columns pg l (db w).

Lemma coherent_columns w w' :
  columns (db w') = columns (db w) → version w' = version w → cached w' = cached w → coherent w → coherent w'.
Proof. intros Ec Ev Eh [H1 H2]. unfold coherent, load_columns. rewrite Ec, Ev, Eh. done. Qed.

Lemma coherent_bump w w' : (version w' = version w + 1)%Z → cached w' = cached w → coherent w → coherent w'.
Proof.
  intros Ev Eh [H1 H2]. split; rewrite Eh, Ev.
  - intros v pg l p Hp. specialize (H1 v pg l p Hp). lia.
  - intros pg l p Hp. specialize (H1 _ _ _ _ Hp). lia.
Qed.

Lemma coherent_list pg limit w : coherent w → coherent (list_columns pg limit w).2.
Proof.
  intros [H1 H2]. unfold list_columns. rewrite run_get_state. destruct (cached w !! _) as [p|] eqn:E; [done|]. simpl. split; simpl.
  - intros v g l p [[[= <- <- <-] _]|[_ Hp]]%lookup_insert_Some; [done|by eapply H1].
  - intros g l p [[[= <- <-] <-]|[_ Hp]]%lookup_insert_Some; [done|by apply H2].
Qed.

Lemma list_columns_run pg limit w :
  ∃ p, (list_columns pg limit w).1 = Ok p ∧ (coherent w → p = load_columns pg limit (db w)).
Proof.
  unfold list_columns. rewrite run_get_state. destruct (cached w !! _) as [p|] eqn:E.
  - exists p. split; [done|]. intros [_ H]. by apply H.
  - exists (load_columns pg limit (db w)). done.
Qed.

Lemma reads_db l w : db (reads l w) = db w ∧ clock (reads l w) = clock w.
Proof.
  revert w. induction l as [|[pg limit] l IH]; intros w; [done|]. simpl. destruct (IH (list_columns pg limit w).2) as [-> ->].
  apply list_columns_db.
Qed.

Lemma body_clock r w : clock (body r w).2 = clock w.
Proof.
  destruct (lists r) eqn:Hr; [|by apply body_moved]. destruct r; try discriminate Hr. simpl. unfold ignore, mbind, prog_bind.
  pose proof (list_columns_db pg limit w) as [_ Hc]. by destruct (list_columns pg limit w) as [[p|e] w'].
Qed.

Lemma column_transaction_keeps commits between r w : wf (clock w) (db w) →
  wf (clock (transaction commits between (body r) w).2) (db (transaction commits between (body r) w).2).
Proof.
  intros W. pose proof (column_body_keeps r w W) as Hb. pose proof (body_clock r w) as Hc. unfold transaction, wp in *.
  destruct (body r w) as [[[]|e] w']; simpl in *.
  - pose proof (reads_db between (set_db (λ _, db w) w')) as [Ed Ec]. destruct commits; simpl; rewrite ?Ed, ?Ec; simpl; by rewrite Hc.
  - pose proof (reads_db between (set_db (λ _, db w) w')) as [Ed Ec]. rewrite Ed, Ec. simpl. by rewrite Hc.
Qed.

Lemma column_step_wf o w w' : step o w w' → wf (clock w) (db w) → wf (clock w') (db w').
Proof. intros [commits between r _|k|t Ht] W; [by apply column_transaction_keeps|done|by eapply wf_later]. Qed.

Lemma list_body pg limit w : ∃ x, body (ListColumns pg limit) w = (Ok tt, x) ∧ x = (list_columns pg limit w).2.
Proof.
  destruct (list_columns_run pg limit w) as (p & Hp & _). simpl. unfold ignore, mbind, prog_bind.
  destruct (list_columns pg limit w) as [o w']. simpl in Hp. subst o. by exists w'.
Qed.

Lemma step_coherent w w' : step false w w' → coherent w → coherent w'.
Proof.
  intros [commits between r Hb|k|t Ht] C; [|split; intros; simpl in *; match goal with H : delete _ _ !! _ = Some _ |- _ => apply lookup_delete_Some in H as [_ H] end; by (eapply C || apply C)|done].
  rewrite (Hb eq_refl). unfold transaction, reads. simpl. destruct (lists r) eqn:Hr.
  - destruct r; try discriminate Hr. destruct (list_body pg limit w) as (x & -> & ->). pose proof (list_columns_db pg limit w) as [Ed _].
    pose proof (coherent_list pg limit w C) as Cl. destruct commits; simpl; eapply coherent_columns; [..|exact Cl| | | |exact Cl]; simpl; by rewrite ?Ed.
  - pose proof (body_moved r w Hr) as [_ Hm]. destruct (body r w) as [[[]|e] w1]; simpl in *;
      [destruct commits; simpl|]; (destruct Hm as [(Ec & Ev & Eh)|[Ev Eh]]; [by apply (coherent_columns w)|by apply (coherent_bump w)]).
Qed.

Definition no_columns (now : Z) : world := World (Tables ∅ ∅ ∅ []) 0 ∅ now.

Lemma no_columns_wf now : wf now (db (no_columns now)).
Proof. split; simpl; try done. - constructor. - intros r k s. split; [by intros ?%elem_of_nil|by intros (? & ? & _)]. Qed.

Lemma columns_wf o now w : rtc (step o) (no_columns now) w → wf (clock w) (db w).
Proof.
  intros Hr. apply (invariant_reachable (step o) (λ w, wf (clock w) (db w)) (no_columns now) w (no_columns_wf now)); [|done].
  intros a b Ha Hs. by apply (column_step_wf o a b).
Qed.

(** ** Pages *)
Lemma newest_id_total {A} : Total (newest_id (A:=A)).
Proof. intros a b. unfold newest_id. lia. Qed.

(** ** Properties *)

(** C38: Columns are earned: in every reachable state, even when lists are read
    while requests are under way, a user has one pending application, his
    applications follow each other with a day after each rejection, each
    decision is by somebody else, dated and audited exactly once, and columns
    correspond one to one to approved applications and belong to the applicant. *)
Theorem columns_earned (overlap : bool) (now : Z) (w : world) :
  rtc (step overlap) (no_columns now) w →
  (∀ k1 k2 a1 a2, applications (db w) !! k1 = Some a1 → applications (db w) !! k2 = Some a2 → user_id a1 = user_id a2 →
     (a_status a1 = PENDING → a_status a2 = PENDING → k1 = k2) ∧
     (a_status a1 = REJECTED → (a_created a1 < a_created a2)%Z →
      ∃ t, reviewed_at a1 = Some t ∧ (t + APPLICATION_COOLDOWN_TIME ≤ a_created a2)%Z)) ∧
  (∀ k a, applications (db w) !! k = Some a → a_status a ≠ PENDING →
     ∃ r, r ≠ user_id a ∧ is_Some (reviewed_at a) ∧ ∀ e, (e ∈ audit (db w) ∧ e.1.2 = k) ↔ e = (r, k, a_status a)) ∧
  (∀ k a, applications (db w) !! k = Some a →
     (a_status a = APPROVED ↔ ∃ c x, columns (db w) !! c = Some x ∧ application_id x = Some k ∧ owner_id x = user_id a)) ∧
  (∀ c x, columns (db w) !! c = Some x → ∃ k a, application_id x = Some k ∧ applications (db w) !! k = Some a ∧
     a_status a = APPROVED ∧ owner_id x = user_id a ∧
     ∀ c' x', columns (db w) !! c' = Some x' → application_id x' = Some k → c' = c) ∧
  ∀ i p, posts (db w) !! i = Some p → is_Some (columns (db w) !! column_id p).
Proof.
  intros W%columns_wf. destruct W as [H1 H2 H3 H4 H5 H6 H7 H8]. split_and!; [| | | |done].
  - intros k1 k2 a1 a2 Ha1 Ha2 Hu. destruct (H1 k1 a1 Ha1) as [_ D1], (H1 k2 a2 Ha2) as [_ D2]. split.
    + intros S1 S2. rewrite S1 in D1. rewrite S2 in D2. destruct (H2 k1 k2 a1 a2 Ha1 Ha2 Hu) as [?|[(t & ? & _)|(t & ? & _)]]; [done|..]; naive_solver.
    + intros S1 Hlt. rewrite S1 in D1. destruct D1 as (r & t & _ & Ht & _ & ?). exists t. split; [done|].
      destruct (H2 k1 k2 a1 a2 Ha1 Ha2 Hu) as [->|[(t' & Ht' & _ & Hc)|(t' & Ht' & Hle & _)]].
      * simplify_eq. lia.
      * rewrite Ht in Ht'. simplify_eq. by apply Hc.
      * exfalso. destruct (a_status a2); [naive_solver|..]; destruct D2 as (r2 & t2 & _ & Ht2 & _ & ?); simplify_eq; lia.
  - intros k a Ha Hs. destruct (H1 k a Ha) as [_ D]. assert (∃ r t, reviewer_id a = Some r ∧ reviewed_at a = Some t ∧ r ≠ user_id a) as (r & t & Hr & Ht & Hne).
    { destruct (a_status a); [done|..]; destruct D as (r & t & ? & ? & ? & _); by exists r, t. }
    exists r. split_and!; [done|by exists t|]. intros [[r' k'] s']. split.
    + simpl. intros [Hin <-]. apply H4 in Hin as (a' & Ha' & ? & ? & ?). simplify_eq. congruence.
    + intros [= -> -> ->]. split; [|done]. apply H4. by exists a.
  - intros k a Ha. split.
    + intros Hs. destruct (H7 k a Ha Hs) as (c & x & Hc & Hx). exists c, x. split_and!; [done|done|].
      destruct (H5 c x Hc) as (k' & a' & ? & ? & ? & ? & _). simplify_eq. congruence.
    + intros (c & x & Hc & Hx & _). destruct (H5 c x Hc) as (k' & a' & ? & ? & ? & _). simplify_eq. congruence.
  - intros c x Hc. destruct (H5 c x Hc) as (k & a & Hk & Ha & Hs & Ho & _). exists k, a. split_and!; [done..|].
    intros c' x' Hc' Hx'. apply (H6 c' c x' x); [done|done|congruence].
Qed.

(** The list is fresh: as long as nobody reads it while a review is under way,
    whatever is cached, expires or fails, a page of it is the page of the
    database. *)
Theorem list_fresh (now : Z) (w : world) (pg : Z) (limit : option Z) :
  rtc (step false) (no_columns now) w → (list_columns pg limit w).1 = Ok (load_columns pg limit (db w)).
Proof.
  intros Hr. destruct (list_columns_run pg limit w) as (p & -> & Hp). rewrite Hp; [done|].
  apply (invariant_reachable (step false) coherent (no_columns now)); [by split| |done]. intros a b Ha Hs. by apply (step_coherent a b).
Qed.

(** The pages show every row exactly once, the newest first: with a positive
    limit the rows of page after page, taken together, are all rows in the order
    of their ids, descending, and there are as many pages as announced. *)
Theorem pages_complete {A} (l : Z) (rows : list (uuid * A)) :
  (0 < l)%Z →
  mjoin ((λ n, items (page_data (Z.of_nat n) (Some l) rows)) <$> seq 1 (Z.to_nat (pages (page_data 1 (Some l) rows)))) = merge_sort newest_id rows ∧
  merge_sort newest_id rows ≡ₚ rows ∧ Sorted newest_id (merge_sort newest_id rows).
Proof.
  intros Hl. split; [|split; [apply merge_sort_Permutation|apply (@Sorted_merge_sort _ newest_id _ newest_id_total)]].
  assert (Hgen : ∀ n k, mjoin ((λ i, items (page_data (Z.of_nat i) (Some l) rows)) <$> seq (S k) n)
    = take (n * Z.to_nat l) (drop (k * Z.to_nat l) (merge_sort newest_id rows))).
  { induction n as [|n IH]; intros k; [done|]. simpl. rewrite IH. unfold page_data, rows_page, Blog.paginate_offset. simpl.
    rewrite !Z.max_l by lia. replace (Z.to_nat ((Z.of_nat (S k) - 1) * l)) with (k * Z.to_nat l) by nia.
    set (s := merge_sort newest_id rows). rewrite <- take_take_drop, drop_drop. do 3 f_equal. lia. }
  rewrite Hgen. simpl. rewrite drop_0. apply take_ge. unfold page_data. simpl. rewrite bool_decide_eq_false_2 by lia.
  unfold Blog.paginate_pages. rewrite decide_False by lia. rewrite merge_sort_Permutation.
  pose proof (Z.div_mod (Z.of_nat (length rows) + l - 1) l). pose proof (Z.mod_pos_bound (Z.of_nat (length rows) + l - 1) l).
  pose proof (Z.div_pos (Z.of_nat (length rows) + l - 1) l). nia.
Qed.

(** ** Worked requests *)
Definition the_id (n : N) : uuid := uuid_of_N n.
Definition do_request (between : list (Z * option Z)) (r : request) (w : world) : world := (transaction true between (body r) w).2.
Definition an_application : ColumnApplicationCreate := MkCreate "Proofs" "A column on proofs" "I like them".

(** User 1 applies, user 9 approves, user 1 publishes. *)
Definition demo_applied : world := do_request [] (Apply (the_id 10) (the_id 1) an_application) (no_columns 1000).
Definition demo_approved : world := do_request [] (Review (the_id 9) true (the_id 10) true None (the_id 20)) demo_applied.
Definition demo_published : world :=
  do_request [] (Publish (the_id 1) false (the_id 30) (the_id 20) (MkPostCreate "First" None "text")) demo_approved.

Lemma demo_calm : rtc (step false) (no_columns 1000) demo_published.
Proof. do 3 (eapply rtc_l; [by apply (step_request false _ true [])|]). constructor. Qed.

Lemma columns_earned_witness :
  (columns (db demo_published) !! the_id 20 = Some (MkColumn (the_id 1) (Some (the_id 10)) "Proofs" "A column on proofs" None ACTIVE 1000)) ∧
  ∀ i p, posts (db demo_published) !! i = Some p → is_Some (columns (db demo_published) !! column_id p).
Proof. split; [by vm_compute|]. apply (columns_earned false 1000), demo_calm. Defined.

Lemma list_fresh_witness :
  (length (items (load_columns 1 (Some 20%Z) (db demo_published))) = 1) ∧
  (list_columns 1 (Some 20%Z) demo_published).1 = Ok (load_columns 1 (Some 20%Z) (db demo_published)).
Proof. split; [by vm_compute|]. apply (list_fresh 1000), demo_calm. Defined.

Lemma pages_complete_witness :
  mjoin ((λ n, items (page_data (Z.of_nat n) (Some 2%Z) [(the_id 1, 1); (the_id 3, 3); (the_id 2, 2)])) <$>
     seq 1 (Z.to_nat (pages (page_data 1 (Some 2%Z) [(the_id 1, 1); (the_id 3, 3); (the_id 2, 2)]))))
  = merge_sort newest_id [(the_id 1, 1); (the_id 3, 3); (the_id 2, 2)].
Proof. apply (pages_complete 2). lia. Defined.

(** The version moves before the commit: a list read in between is cached under
    the new version, without the new column. *)
Lemma stale_list_after_approval :
  let w := do_request [(1, Some 20)%Z] (Review (the_id 9) true (the_id 10) true None (the_id 20)) demo_applied in
  length (items (load_columns 1 (Some 20%Z) (db w))) = 1 ∧ (λ p, length (items p)) <$> cached w !! (version w, 1%Z, Some 20%Z) = Some 0.
Proof. split; by vm_compute. Qed.

(** Without a limit everything is on every page. *)
Lemma page_echoed :
  let p := list_applications 3 None (db demo_published) in page p = 3%Z ∧ pages p = 1%Z ∧ length (items p) = 1.
Proof. split_and!; by vm_compute. Qed.

(** The public list filters a page after it has been cut: it may be empty
    although the total says otherwise. *)
Lemma archived_counts :
  let d := set_columns (λ cs, <[the_id 21 := MkColumn (the_id 1) None "Old" "Old" None ARCHIVED 1]> cs) demo_published in
  (λ o, match o with Ok p => Some (length (items p), total p, pages p) | Raise _ => None end) (graph_columns 1 (Some 1%Z) d).1 = Some (0, 2%Z, 2%Z).
Proof. by vm_compute. Qed.
