(* ===== verification/Notification.v ===== *)
(** * Notifications: from business events to the inbox, preferences, pushing

    Model of [app/modules/notification] and of the publishing half of
    [app/ws/broker.py]: the handler of the bus that turns a points event into
    notifications, their aggregation, reading and marking, preferences, push
    tokens, the daily digest of [app/modules/admin/review_digest.py], and the
    names of the channels a message is published to. What the handler reads of
    other components comes through the class [Ports], implemented at the end of
    the file on the tables of [Content] and [Qa]. Times are microseconds.

    [uuid.UUID] is that of [Cursor]. Calls to Redis may fail and change nothing
    then; the advisory lock makes the handler's transaction one step.

    Theorems: exactly those an event concerns ([concerns], the specification) are
    notified, muting only stops the push, marking is exact and one's own, the
    inbox stays consistent, and channels are read back. *)

From stdpp Require Import pretty.
From S2P Require Import Prelude.
From S2P Require Cursor Content Qa.

(** ** [ws/broker.py] *)
Definition CHANNELS : list string := ["upload"; "notify"]%string.

Definition ws_channel (u : uuid) (channel : string) : string := ("ws:" +:+ uuid_str u +:+ ":" +:+ channel)%string.

(** [channel.split(":", 2)] must give three parts. *)
Definition parse_channel (s : string) : option (uuid * string) :=
  match split_colon s with
  | (p, Some rest) =>
      match split_colon rest with
      | (raw, Some name) =>
          if bool_decide (p ≠ "ws"%string) then None else
          u ← Cursor.UUID raw;
          if bool_decide (name ∈ CHANNELS) then Some (u, name) else None
      | (_, None) => None
      end
  | (_, None) => None
  end.

(** ** Tables *)
Inductive NotificationType := CONTENT_LIKED | CONTENT_COMMENTED | COMMENT_REPLIED | QA_ANSWER_ACCEPTED | REVIEW_DIGEST.

Definition value_of (t : NotificationType) : string :=
  match t with
  | CONTENT_LIKED => "content_liked" | CONTENT_COMMENTED => "content_commented" | COMMENT_REPLIED => "comment_replied"
  | QA_ANSWER_ACCEPTED => "qa_answer_accepted" | REVIEW_DIGEST => "review_digest"
  end.

Definition NOTIFICATION_TYPES : list string :=
  value_of <$> [CONTENT_LIKED; CONTENT_COMMENTED; COMMENT_REPLIED; QA_ANSWER_ACCEPTED; REVIEW_DIGEST].

(** A value of a payload. *)
Inductive json := JStr (s : string) | JInt (z : Z) | JMap (m : list (string * Z)).
#[export] Instance json_dec : EqDecision json.
Proof. solve_decision. Defined.

Abbreviation payload_t := (gmap string json).

Record Notification := MkNotification {
  user_id : uuid; n_type : string; actor_id : option uuid; target_id : option uuid; n_payload : payload_t;
  read_at : option Z; created_at : Z
}.

Record Token := MkToken { t_id : uuid; platform : string; t_created : Z }.

Record tables := Tables {
  notifications : gmap uuid Notification;
  preferences : gmap (uuid * string) (bool * Z);   (* enabled, updated_at *)
  tokens : gmap (uuid * string) Token
}.

(** A message as it is published: to whom, its key, the notification. *)
Record Push := MkPush { pu_channel : string; pu_event_id : string; pu_version : N; pu_type : string; pu_payload : payload_t }.

(** What the handler reads of the other components. *)
Record ItemBrief := MkItemBrief { ib_title : string; ib_author : option uuid }.
Record CommentBrief := MkCommentBrief { cb_content : uuid; cb_user : uuid; cb_parent : option uuid }.
Record QaAnswerBrief := MkAnswerBrief { ab_question : uuid; ab_author : uuid }.
Record QaQuestionBrief := MkQuestionBrief { qb_title : string; qb_points : Z }.

Class Ports (S : Type) := {
  item_brief : S → uuid → option ItemBrief;
  comment_brief : S → uuid → option CommentBrief;
  qa_answer_brief : S → uuid → option QaAnswerBrief;
  qa_question_brief : S → uuid → option QaQuestionBrief
}.

Section notification.
Context {S : Type} `{!Ports S}.

Record world := World { db : tables; business : S; pushed : list Push; clock : Z }.

Abbreviation M := (prog world err).

Definition set_db (f : tables → tables) (w : world) : world := World (f (db w)) (business w) (pushed w) (clock w).
Definition set_notifications (f : gmap uuid Notification → gmap uuid Notification) : world → world :=
  set_db (λ d, Tables (f (notifications d)) (preferences d) (tokens d)).
Definition set_preferences_table (f : gmap (uuid * string) (bool * Z) → gmap (uuid * string) (bool * Z)) : world → world :=
  set_db (λ d, Tables (notifications d) (f (preferences d)) (tokens d)).
Definition set_tokens (f : gmap (uuid * string) Token → gmap (uuid * string) Token) : world → world :=
  set_db (λ d, Tables (notifications d) (preferences d) (f (tokens d))).
Definition push (p : Push) (w : world) : world := World (db w) (business w) (pushed w ++ [p]) (clock w).

(** ** [repository.py] *)
Definition same_key (u : uuid) (ty : string) (actor target : uuid) (n : Notification) : bool :=
  bool_decide (user_id n = u ∧ n_type n = ty ∧ actor_id n = Some actor ∧ target_id n = Some target).

(** [created_at.desc(), id.desc()] *)
Definition newest_first (a b : uuid * Notification) : Prop :=
  (created_at b.2 < created_at a.2)%Z ∨ created_at b.2 = created_at a.2 ∧ (uuid_int b.1 ≤ uuid_int a.1)%N.
#[local] Instance newest_first_dec : RelDecision newest_first.
Proof. intros a b. unfold newest_first. apply _. Defined.

Definition find_recent_unread (u : uuid) (ty : string) (actor target : uuid) (since : Z) (d : tables) : option (uuid * Notification) :=
  head (merge_sort newest_first
    (filter (λ kn, same_key u ty actor target kn.2 && bool_decide (read_at kn.2 = None) && bool_decide (since ≤ created_at kn.2)%Z = true)
      (map_to_list (notifications d)))).

(** ** [service.py] *)
Definition count_of (p : payload_t) : Z := match p !! "count"%string with Some (JInt n) => n | _ => 1 end.

Definition merged (p : payload_t) (old : payload_t) : payload_t := <["count"%string := JInt (count_of old + 1)]> (p ∪ old).

Definition add_notification (new : uuid) (n : Notification) : M (uuid * Notification) :=
  w ← get_state;
  raise_when (bool_decide (is_Some (notifications (db w) !! new))) IntegrityError ≫= λ _,
  modify (set_notifications <[new := n]>) ≫= λ _, mret (new, n).

Definition create_notification (window : Z) (new u : uuid) (ty : string) (actor target : option uuid) (p : payload_t)
    : M (uuid * Notification) :=
  w ← get_state;
  let fresh := MkNotification u ty actor target p None (clock w) in
  match actor, target with
  | Some a, Some t =>
      if bool_decide (0 < window)%Z then
        match find_recent_unread u ty a t (clock w - window) (db w) with
        | Some (k, n) =>
            let n' := MkNotification (user_id n) (n_type n) (actor_id n) (target_id n) (merged p (n_payload n)) (read_at n) (clock w) in
            modify (set_notifications <[k := n']>) ≫= λ _, mret (k, n')
        | None => add_notification new fresh
        end
      else add_notification new fresh
  | _, _ => add_notification new fresh
  end.

Definition mine (u : uuid) (unread_only : bool) (n : Notification) : bool :=
  bool_decide (user_id n = u) && (negb unread_only || bool_decide (read_at n = None)).

(** The page, and how many there are. *)
Definition list_notifications (u : uuid) (page limit : nat) (unread_only : bool) (d : tables) : list (uuid * Notification) * nat :=
  let rows := filter (λ kn, mine u unread_only kn.2 = true) (map_to_list (notifications d)) in
  (take limit (drop ((page - 1) * limit) (merge_sort newest_first rows)), length rows).

Definition unread_count (u : uuid) (d : tables) : nat := size (filter (λ kn, mine u true kn.2 = true) (notifications d)).

Definition with_read (t : Z) (n : Notification) : Notification :=
  MkNotification (user_id n) (n_type n) (actor_id n) (target_id n) (n_payload n) (Some t) (created_at n).

Definition hit (u : uuid) (ids : gset uuid) (all_ : bool) (k : uuid) (n : Notification) : bool :=
  mine u true n && (all_ || bool_decide (k ∈ ids)).

Definition mark_read (u : uuid) (ids : gset uuid) (all_ : bool) : M nat :=
  w ← get_state;
  if negb all_ && bool_decide (ids = ∅) then mret 0 else
  modify (set_notifications (map_imap (λ k n, Some (if hit u ids all_ k n then with_read (clock w) n else n)))) ≫= λ _,
  mret (size (filter (λ kn, hit u ids all_ kn.1 kn.2 = true) (notifications (db w)))).

Definition is_type_enabled (u : uuid) (ty : string) (d : tables) : bool :=
  match preferences d !! (u, ty) with Some (e, _) => e | None => true end.

Definition list_preferences (u : uuid) (d : tables) : list (string * bool) :=
  (λ ty, (ty, is_type_enabled u ty d)) <$> NOTIFICATION_TYPES.

Definition set_preferences (u : uuid) (items : list (string * bool)) : M (list (string * bool)) :=
  w ← get_state;
  raise_when (existsb (λ i, negb (bool_decide (i.1 ∈ NOTIFICATION_TYPES))) items) INVALID_TYPE ≫= λ _,
  modify (set_preferences_table (λ m, foldl (λ m i, <[(u, i.1) := (i.2, clock w)]> m) m items)) ≫= λ _,
  w ← get_state;
  mret (list_preferences u (db w)).

Definition register_token (new u : uuid) (token plat : string) : M Token :=
  w ← get_state;
  let t := match tokens (db w) !! (u, token) with
           | Some t => MkToken (t_id t) plat (t_created t)
           | None => MkToken new plat (clock w)
           end in
  modify (set_tokens <[(u, token) := t]>) ≫= λ _, mret t.

Definition delete_token (u : uuid) (token : string) : M nat :=
  w ← get_state;
  modify (set_tokens (delete (u, token))) ≫= λ _,
  mret (if bool_decide (is_Some (tokens (db w) !! (u, token))) then 1 else 0).

(** ** [tasks.py] *)
Record _Target := MkTarget { owner_id : uuid; kind : NotificationType; tg_target : uuid; tg_payload : payload_t }.

Definition _split_ref (ref_id : string) : option (string * uuid) :=
  match split_colon ref_id with
  | (prefix, Some raw) => (λ u, (prefix, u)) <$> Cursor.UUID raw
  | (_, None) => None
  end.

Definition entry (k v : string) : string * json := (k, JStr v).

Definition post_url (i : uuid) : string := ("/content/posts/" +:+ uuid_str i)%string.

Definition like_targets (b : S) (ref : uuid) : list _Target :=
  match item_brief b ref with
  | Some it =>
      match ib_author it with
      | Some author => [MkTarget author CONTENT_LIKED ref (list_to_map [entry "title" (ib_title it); entry "url" (post_url ref)])]
      | None => []
      end
  | None => []
  end.

Definition comment_targets (b : S) (ref : uuid) : list _Target :=
  match comment_brief b ref with
  | Some c =>
      match item_brief b (cb_content c) with
      | Some it =>
          let i := cb_content c in
          let base : payload_t :=
            list_to_map [entry "title" (ib_title it); entry "url" (post_url i); entry "comment_id" (uuid_str ref)] in
          match ib_author it with Some author => [MkTarget author CONTENT_COMMENTED i base] | None => [] end ++
          match cb_parent c ≫= comment_brief b with Some parent => [MkTarget (cb_user parent) COMMENT_REPLIED i base] | None => [] end
      | None => []
      end
  | None => []
  end.

Definition accept_targets (b : S) (ref : uuid) : list _Target :=
  match qa_answer_brief b ref with
  | Some a =>
      match qa_question_brief b (ab_question a) with
      | Some q =>
          [MkTarget (ab_author a) QA_ANSWER_ACCEPTED (ab_question a)
             (list_to_map [entry "title" (qb_title q); entry "url" ("/qa/" +:+ uuid_str (ab_question a))%string;
                           ("points"%string, JInt (qb_points q))])]
      | None => []
      end
  | None => []
  end.

Definition _resolve_targets (b : S) (event ref_id : string) : list _Target :=
  match _split_ref ref_id with
  | None => []
  | Some (prefix, ref) =>
      if bool_decide (event = "like" ∧ prefix = "item")%string then like_targets b ref else
      if bool_decide (event = "comment" ∧ prefix = "comment")%string then comment_targets b ref else
      if bool_decide (event = "qa_accept_notice" ∧ prefix = "answer")%string then accept_targets b ref else []
  end.

(** The targets of an event that are not its actor. *)
Definition recipients (actor : uuid) (b : S) (event ref_id : string) : list _Target :=
  filter (λ t, owner_id t ≠ actor) (_resolve_targets b event ref_id).

Definition full_payload (actor : uuid) (actor_name : string) (p : payload_t) : payload_t :=
  <["actor_name"%string := JStr actor_name]> (<["actor_id"%string := JStr (uuid_str actor)]> p).

Definition _pending : Type := uuid * uuid * string * payload_t * bool.

(** One target: its row, and what may be pushed later. *)
Definition notify_one (window : Z) (actor : uuid) (actor_name : string) (new : uuid) (t : _Target) : M _pending :=
  w ← get_state;
  let enabled := is_type_enabled (owner_id t) (value_of (kind t)) (db w) in
  kn ← create_notification window new (owner_id t) (value_of (kind t)) (Some actor) (Some (tg_target t))
         (full_payload actor actor_name (tg_payload t));
  mret (user_id kn.2, kn.1, n_type kn.2, n_payload kn.2, enabled).

Fixpoint notify_each (window : Z) (actor : uuid) (actor_name : string) (news : list uuid) (ts : list _Target) : M (list _pending) :=
  match ts, news with
  | t :: ts, new :: news =>
      p ← notify_one window actor actor_name new t;
      ps ← notify_each window actor actor_name news ts;
      mret (p :: ps)
  | _, _ => mret []
  end.

Definition dec_str (z : Z) : string := pretty (Z.to_N z).

Definition event_key (nid : uuid) (count : Z) : string :=
  if bool_decide (count ≤ 1)%Z then ("notification:" +:+ uuid_str nid)%string
  else ("notification:" +:+ uuid_str nid +:+ ":" +:+ dec_str count)%string.

(** Publishing is best effort: [reached] says whether Redis took the message. *)
Definition publish_one (reached : bool) (p : _pending) : M () :=
  let '(u, nid, ty, payload, enabled) := p in
  if (enabled && reached : bool)
  then modify (push (MkPush (ws_channel u "notify") (event_key nid (count_of payload)) (uuid_int nid) ty payload))
  else mret tt.

(** The rows are committed before anything is pushed; a commit that fails
    leaves the tables as they were and the event is delivered again. *)
Definition notify_from_point_event (window : Z) (commits reached : bool) (news : list uuid) (actor_name : string) (actor : uuid)
    (event ref_id : string) : M () := λ w,
  match notify_each window actor actor_name news (recipients actor (business w) event ref_id) w with
  | (Ok ps, w') =>
      if commits then for_each ps (publish_one reached) w' else (Raise RuntimeError, set_db (λ _, db w) w')
  | (Raise e, w') => (Raise e, set_db (λ _, db w) w')
  end.

(** ** [admin/review_digest.py] *)
Record queue_count := MkQueue { q_key : string; q_label : string; q_count : Z }.

Definition total_pending (qs : list queue_count) : Z := sumZ q_count qs.

Fixpoint digest_each (window : Z) (title : string) (p : payload_t) (news admins : list uuid) : M () :=
  match admins, news with
  | a :: admins, new :: news =>
      _ ← create_notification window new a (value_of REVIEW_DIGEST) None None p;
      digest_each window title p news admins
  | _, _ => mret tt
  end.

Definition send_daily_digest (window : Z) (title : string) (qs : list queue_count) (news admins : list uuid) : M nat :=
  if bool_decide (total_pending qs = 0)%Z then mret 0 else
  if bool_decide (admins = []) then mret 0 else
  digest_each window title
    (list_to_map [entry "title" title; entry "url" "/admin"; ("total_pending"%string, JInt (total_pending qs));
                  ("counts"%string, JMap ((λ q, (q_key q, q_count q)) <$> qs))]) news admins ≫= λ _,
  mret (length admins).

(** ** Steps *)
Definition transaction {A} (commits : bool) (m : M A) : M A := λ w,
  match m w with
  | (Ok a, w') => if commits then (Ok a, w') else (Raise RuntimeError, set_db (λ _, db w) w')
  | (Raise e, w') => (Raise e, set_db (λ _, db w) w')
  end.

Inductive request :=
| Mark (u : uuid) (ids : gset uuid) (all_ : bool)
| Prefer (u : uuid) (items : list (string * bool))
| Register (new u : uuid) (token plat : string)
| Unregister (u : uuid) (token : string)
| Digest (title : string) (qs : list queue_count) (news admins : list uuid).

Definition ignore {A} (m : M A) : M () := _ ← m; mret tt.

Definition body (window : Z) (r : request) : M () :=
  match r with
  | Mark u ids all_ => ignore (mark_read u ids all_)
  | Prefer u items => ignore (set_preferences u items)
  | Register new u token plat => ignore (register_token new u token plat)
  | Unregister u token => ignore (delete_token u token)
  | Digest title qs news admins => ignore (send_daily_digest window title qs news admins)
  end.

(** The other components change by themselves. *)
Inductive step (window : Z) (w : world) : world → Prop :=
| step_request commits r : step window w (transaction commits (body window r) w).2
| step_event commits reached news actor_name actor event ref_id :
    step window w (notify_from_point_event window commits reached news actor_name actor event ref_id w).2
| step_business b : step window w (World (db w) b (pushed w) (clock w))
| step_time t : (clock w ≤ t)%Z → step window w (World (db w) (business w) (pushed w) t).

(** ** Reading back what was written *)
Lemma no_colon_chars s : no_colon s = Cursor.all_chars (λ c, bool_decide (c ≠ ":"%char)) s.
Proof. induction s as [|c s IH]; [done|]. simpl. by rewrite IH. Qed.

Lemma no_colon_uuid u : no_colon (uuid_str u) = true.
Proof. rewrite no_colon_chars. by apply Cursor.uuid_str_chars. Qed.

Lemma split_colon_app a b : no_colon a = true → split_colon (a +:+ ":" +:+ b) = (a, Some b).
Proof.
  induction a as [|c a IH]; [done|]. simpl. intros [Hc%bool_decide_eq_true Ha]%andb_true_iff. rewrite decide_False by done. by rewrite (IH Ha).
Qed.

(** ** What [create_notification] does *)
Lemma newest_first_total : Total newest_first.
Proof. intros a b. unfold newest_first. lia. Qed.
Lemma newest_first_trans : Transitive newest_first.
Proof. intros a b c. unfold newest_first. lia. Qed.

Lemma elem_of_recent u ty a t since d k n :
  (k, n) ∈ filter (λ kn, same_key u ty a t kn.2 && bool_decide (read_at kn.2 = None) && bool_decide (since ≤ created_at kn.2)%Z = true)
      (map_to_list (notifications d)) ↔
  notifications d !! k = Some n ∧ same_key u ty a t n = true ∧ read_at n = None ∧ (since ≤ created_at n)%Z.
Proof. rewrite list_elem_of_filter, elem_of_map_to_list. simpl. rewrite !andb_true_iff, !bool_decide_eq_true. tauto. Qed.

Lemma find_recent_Some u ty a t since d k n :
  find_recent_unread u ty a t since d = Some (k, n) →
  notifications d !! k = Some n ∧ same_key u ty a t n = true ∧ read_at n = None ∧ (since ≤ created_at n)%Z ∧
  ∀ k' n', notifications d !! k' = Some n' → same_key u ty a t n' = true → read_at n' = None → (since ≤ created_at n')%Z →
    (created_at n' ≤ created_at n)%Z.
Proof.
  unfold find_recent_unread. intros Hh. pose proof (elem_of_recent u ty a t since d) as Hin. set (l := filter _ _) in *.
  pose proof (@StronglySorted_merge_sort _ newest_first _ newest_first_trans newest_first_total l) as Hs.
  assert (Hm : ∀ x, x ∈ merge_sort newest_first l ↔ x ∈ l) by (intros x; by rewrite merge_sort_Permutation).
  destruct (merge_sort newest_first l) as [|x l']; [done|]. simpl in Hh. simplify_eq.
  assert (Hx : (k, n) ∈ l) by (apply Hm; left). apply Hin in Hx as (? & ? & ? & ?). split_and!; [done..|].
  intros k' n' ? ? ? ?. assert (Hx' : (k', n') ∈ (k, n) :: l') by (by apply Hm, Hin). apply StronglySorted_inv in Hs as [_ Hs].
  apply elem_of_cons in Hx' as [[= -> ->]|Hx']; [done|]. rewrite Forall_forall in Hs. specialize (Hs _ Hx'). unfold newest_first in Hs. simpl in Hs. lia.
Qed.

Lemma find_recent_None u ty a t since d k n :
  find_recent_unread u ty a t since d = None → notifications d !! k = Some n → same_key u ty a t n = true → read_at n = None →
  (created_at n < since)%Z.
Proof.
  unfold find_recent_unread. intros Hh Hk Hs Hr. pose proof (elem_of_recent u ty a t since d k n) as Hin. set (l := filter _ _) in *.
  destruct (decide (since ≤ created_at n)%Z); [|lia]. exfalso. assert (Hx : (k, n) ∈ l) by (by apply Hin).
  rewrite <- (merge_sort_Permutation newest_first) in Hx. destruct (merge_sort newest_first l); [by apply elem_of_nil in Hx|done].
Qed.

(** The row a creation leaves, and what it was before. *)
Definition made (u : uuid) (ty : string) (actor target : option uuid) (p : payload_t) (now : Z) (before : option Notification) (n : Notification) : Prop :=
  user_id n = u ∧ n_type n = ty ∧ actor_id n = actor ∧ target_id n = target ∧ read_at n = None ∧ created_at n = now ∧
  match before with
  | None => n_payload n = p
  | Some o => user_id o = u ∧ n_type o = ty ∧ actor_id o = actor ∧ target_id o = target ∧ read_at o = None ∧ n_payload n = merged p (n_payload o)
  end.

Lemma create_runs window new u ty actor target p w :
  notifications (db w) !! new = None →
  ∃ k n, create_notification window new u ty actor target p w = (Ok (k, n), set_notifications <[k := n]> w) ∧
    made u ty actor target p (clock w) (notifications (db w) !! k) n ∧ (k = new ∨ is_Some (notifications (db w) !! k)).
Proof.
  intros Hn.
  assert (Hadd : ∃ k n, add_notification new (MkNotification u ty actor target p None (clock w)) w = (Ok (k, n), set_notifications <[k := n]> w) ∧
    made u ty actor target p (clock w) (notifications (db w) !! k) n ∧ (k = new ∨ is_Some (notifications (db w) !! k))).
  { exists new, (MkNotification u ty actor target p None (clock w)). unfold add_notification.
    rewrite run_get_state, run_raise_when, Hn, bool_decide_eq_false_2, run_modify by (by intros [? ?]). split; [done|].
    split; [unfold made; simpl; tauto|by left]. }
  unfold create_notification. rewrite run_get_state. destruct actor as [a|], target as [t|]; try done.
  case_bool_decide; [|done]. destruct (find_recent_unread _ _ _ _ _ _) as [[k n]|] eqn:E; [|done].
  apply find_recent_Some in E as (Hk & Hs & Hr & _ & _). unfold same_key in Hs. apply bool_decide_eq_true in Hs as (E1 & E2 & E3 & E4).
  eexists k, _. rewrite run_modify. split; [done|]. rewrite Hk. split; [unfold made; simpl; tauto|right; by exists n].
Qed.

Lemma count_merged p o : count_of (merged p o) = (count_of o + 1)%Z.
Proof. unfold merged. unfold count_of at 1. by rewrite lookup_insert_eq. Qed.

(** ** Whom an event concerns *)

(** The specification, by the kinds of events: the one concerned, the type of the
    notification, what it is about and the fields it shows. *)
Inductive concerns (b : S) (event ref_id : string) : uuid → NotificationType → uuid → payload_t → Prop :=
| concerns_liked raw i it author :
    event = "like"%string → ref_id = ("item:" +:+ raw)%string → Cursor.UUID raw = Some i →
    item_brief b i = Some it → ib_author it = Some author →
    concerns b event ref_id author CONTENT_LIKED i
      (<["title"%string := JStr (ib_title it)]> {["url"%string := JStr ("/content/posts/" +:+ uuid_str i)%string]})
| concerns_commented raw j c it author :
    event = "comment"%string → ref_id = ("comment:" +:+ raw)%string → Cursor.UUID raw = Some j →
    comment_brief b j = Some c → item_brief b (cb_content c) = Some it → ib_author it = Some author →
    concerns b event ref_id author CONTENT_COMMENTED (cb_content c)
      (<["title"%string := JStr (ib_title it)]> (<["url"%string := JStr ("/content/posts/" +:+ uuid_str (cb_content c))%string]>
        {["comment_id"%string := JStr (uuid_str j)]}))
| concerns_replied raw j c it j' parent :
    event = "comment"%string → ref_id = ("comment:" +:+ raw)%string → Cursor.UUID raw = Some j →
    comment_brief b j = Some c → item_brief b (cb_content c) = Some it →
    cb_parent c = Some j' → comment_brief b j' = Some parent →
    concerns b event ref_id (cb_user parent) COMMENT_REPLIED (cb_content c)
      (<["title"%string := JStr (ib_title it)]> (<["url"%string := JStr ("/content/posts/" +:+ uuid_str (cb_content c))%string]>
        {["comment_id"%string := JStr (uuid_str j)]}))
| concerns_accepted raw j a q :
    event = "qa_accept_notice"%string → ref_id = ("answer:" +:+ raw)%string → Cursor.UUID raw = Some j →
    qa_answer_brief b j = Some a → qa_question_brief b (ab_question a) = Some q →
    concerns b event ref_id (ab_author a) QA_ANSWER_ACCEPTED (ab_question a)
      (<["title"%string := JStr (qb_title q)]> (<["url"%string := JStr ("/qa/" +:+ uuid_str (ab_question a))%string]>
        {["points"%string := JInt (qb_points q)]})).

(** He switched the type off. *)
Definition muted (d : tables) (u : uuid) (ty : NotificationType) : Prop := ∃ t, preferences d !! (u, value_of ty) = Some (false, t).

Lemma split_colon_Some s a b : split_colon s = (a, Some b) → s = (a +:+ ":" +:+ b)%string.
Proof.
  revert a. induction s as [|c s IH]; intros a; [done|]. simpl. case_decide as Hc; [intros [= <- <-]; by rewrite Hc|].
  destruct (split_colon s) as [a' [r|]]; simpl; [|done]. intros [= <- <-]. by rewrite (IH a').
Qed.

Lemma split_ref_Some ref_id prefix i :
  _split_ref ref_id = Some (prefix, i) → ∃ raw, ref_id = (prefix +:+ ":" +:+ raw)%string ∧ Cursor.UUID raw = Some i.
Proof.
  unfold _split_ref. destruct (split_colon ref_id) as [p [raw|]] eqn:E; [|done]. intros (u & Hu & [= -> ->])%fmap_Some.
  exists raw. split; [by apply split_colon_Some|done].
Qed.

Lemma split_ref_app prefix raw i :
  no_colon prefix = true → Cursor.UUID raw = Some i → _split_ref (prefix +:+ ":" +:+ raw) = Some (prefix, i).
Proof. intros Hp Hi. unfold _split_ref. by rewrite split_colon_app, Hi. Qed.

Lemma targets_concerned b event ref_id t :
  t ∈ _resolve_targets b event ref_id ↔ concerns b event ref_id (owner_id t) (kind t) (tg_target t) (tg_payload t).
Proof.
  split.
  - unfold _resolve_targets. destruct (_split_ref ref_id) as [[prefix i]|] eqn:E; [|by intros ?%elem_of_nil].
    apply split_ref_Some in E as (raw & -> & Hi).
    case_bool_decide as H1; [destruct H1 as [-> ->]|case_bool_decide as H2; [destruct H2 as [-> ->]|case_bool_decide as H3; [destruct H3 as [-> ->]|]]];
      [| | |by intros ?%elem_of_nil].
    + unfold like_targets. destruct (item_brief b i) as [it|] eqn:Hit; [|by intros ?%elem_of_nil].
      destruct (ib_author it) as [author|] eqn:Ha; [|by intros ?%elem_of_nil]. intros ->%list_elem_of_singleton. by eapply concerns_liked.
    + unfold comment_targets. destruct (comment_brief b i) as [c|] eqn:Hc; [|by intros ?%elem_of_nil].
      destruct (item_brief b (cb_content c)) as [it|] eqn:Hit; [|by intros ?%elem_of_nil]. intros [Ht|Ht]%elem_of_app.
      * destruct (ib_author it) as [author|] eqn:Ha; [|by apply elem_of_nil in Ht]. apply list_elem_of_singleton in Ht as ->. by eapply concerns_commented.
      * destruct (cb_parent c) as [j'|] eqn:Hp; simpl in Ht; [|by apply elem_of_nil in Ht].
        destruct (comment_brief b j') as [parent|] eqn:Hq; [|by apply elem_of_nil in Ht].
        apply list_elem_of_singleton in Ht as ->. by eapply concerns_replied.
    + unfold accept_targets. destruct (qa_answer_brief b i) as [a|] eqn:Ha; [|by intros ?%elem_of_nil].
      destruct (qa_question_brief b (ab_question a)) as [q|] eqn:Hq; [|by intros ?%elem_of_nil].
      intros ->%list_elem_of_singleton. by eapply concerns_accepted.
  - destruct t as [u ty i p]. simpl. unfold _resolve_targets.
    intros [raw j it author -> -> Hi Hit Ha|raw j c it author -> -> Hi Hc Hit Ha|raw j c it j' parent -> -> Hi Hc Hit Hp Hq|raw j a q -> -> Hi Ha Hq].
    + change ("item:" +:+ raw)%string with ("item" +:+ ":" +:+ raw)%string. rewrite (split_ref_app "item" raw j) by done. simpl.
      unfold like_targets. rewrite Hit, Ha. left.
    + change ("comment:" +:+ raw)%string with ("comment" +:+ ":" +:+ raw)%string. rewrite (split_ref_app "comment" raw j) by done. simpl.
      unfold comment_targets. rewrite Hc, Hit, Ha. left.
    + change ("comment:" +:+ raw)%string with ("comment" +:+ ":" +:+ raw)%string. rewrite (split_ref_app "comment" raw j) by done. simpl.
      unfold comment_targets. rewrite Hc, Hit, Hp. simpl. rewrite Hq. apply elem_of_app. right. left.
    + change ("answer:" +:+ raw)%string with ("answer" +:+ ":" +:+ raw)%string. rewrite (split_ref_app "answer" raw j) by done. simpl.
      unfold accept_targets. rewrite Ha, Hq. left.
Qed.

(** ** What the handler does *)

(** What a run may do to the rows when it notifies the targets [ts]: every row
    stays what it is or takes up an event of its own key, and every other row is
    for a target. *)
Definition for_target (actor : uuid) (t : _Target) (n : Notification) : Prop :=
  user_id n = owner_id t ∧ n_type n = value_of (kind t) ∧ actor_id n = Some actor ∧ target_id n = Some (tg_target t).

Definition row_grows (o n : Notification) : Prop :=
  n = o ∨ user_id n = user_id o ∧ n_type n = n_type o ∧ actor_id n = actor_id o ∧ target_id n = target_id o ∧
          read_at o = None ∧ read_at n = None ∧ (created_at o ≤ created_at n)%Z ∧ (count_of (n_payload o) < count_of (n_payload n))%Z.

(** A row of this run for the target, with what the event says. *)
Definition says (actor : uuid) (actor_name : string) (now : Z) (t : _Target) (n : Notification) : Prop :=
  for_target actor t n ∧ read_at n = None ∧ created_at n = now ∧
  ∀ f v, f ≠ "count"%string → full_payload actor actor_name (tg_payload t) !! f = Some v → n_payload n !! f = Some v.

Record notified (actor : uuid) (actor_name : string) (now : Z) (ts : list _Target) (m m' : gmap uuid Notification) : Prop := MkNotified {
  nt_old : ∀ k o, m !! k = Some o → ∃ n, m' !! k = Some n ∧ row_grows o n ∧ (n = o ∨ ∃ t, t ∈ ts ∧ says actor actor_name now t n);
  nt_new : ∀ k n, m' !! k = Some n → m !! k = None → ∃ t, t ∈ ts ∧ says actor actor_name now t n
}.

Lemma row_grows_trans a b c : row_grows a b → row_grows b c → row_grows a c.
Proof.
  unfold row_grows. intros [->|(E1 & E2 & E3 & E4 & E5 & E6 & E7 & E8)] [->|(F1 & F2 & F3 & F4 & F5 & F6 & F7 & F8)]; [tauto..|].
  right. split_and!; try congruence; lia.
Qed.

Lemma for_target_grows actor t a b : row_grows a b → for_target actor t a → for_target actor t b.
Proof. intros [->|(E1 & E2 & E3 & E4 & _)] (H1 & H2 & H3 & H4); [done|]. split_and!; congruence. Qed.

Lemma notified_nil actor actor_name now m : notified actor actor_name now [] m m.
Proof. split; [|congruence]. intros k o Hk. exists o. split_and!; [done|by left|by left]. Qed.

Lemma notified_cons actor actor_name now t ts m1 m2 m3 :
  notified actor actor_name now [t] m1 m2 → notified actor actor_name now ts m2 m3 → notified actor actor_name now (t :: ts) m1 m3.
Proof.
  intros [O1 N1] [O2 N2]. split.
  - intros k o Hk. destruct (O1 k o Hk) as (x & Hx & G1 & F1). destruct (O2 k x Hx) as (n & Hn & G2 & F2). exists n.
    split_and!; [done|by eapply row_grows_trans|]. destruct F2 as [->|(t' & ? & ?)]; [|right; exists t'; split; [by right|done]].
    destruct F1 as [->|(t' & ->%list_elem_of_singleton & ?)]; [by left|right; exists t; split; [left|done]].
  - intros k n Hk Hnone. destruct (m2 !! k) as [x|] eqn:Hx.
    + destruct (N1 k x Hx Hnone) as (t' & ->%list_elem_of_singleton & Hf). destruct (O2 k x Hx) as (n' & Hn' & _ & F2). simplify_eq.
      destruct F2 as [->|(t2 & ? & ?)]; [exists t; split; [left|done]|exists t2; split; [by right|done]].
    + destruct (N2 k n Hk Hx) as (t' & ? & ?). exists t'. split; [by right|done].
Qed.

(** What is returned for pushing, of the row that was written. *)
Definition pends (actor : uuid) (actor_name : string) (now : Z) (d : tables) (m : gmap uuid Notification) (t : _Target) (p : _pending) : Prop :=
  ∃ k n, p = (owner_id t, k, value_of (kind t), n_payload n, is_type_enabled (owner_id t) (value_of (kind t)) d) ∧
    m !! k = Some n ∧ says actor actor_name now t n.

Lemma notify_one_runs window actor actor_name new t w :
  notifications (db w) !! new = None → (∀ k n, notifications (db w) !! k = Some n → created_at n ≤ clock w)%Z →
  ∃ p k n, notify_one window actor actor_name new t w = (Ok p, set_notifications <[k := n]> w) ∧
    (k = new ∨ is_Some (notifications (db w) !! k)) ∧
    p = (owner_id t, k, value_of (kind t), n_payload n, is_type_enabled (owner_id t) (value_of (kind t)) (db w)) ∧
    says actor actor_name (clock w) t n ∧
    notified actor actor_name (clock w) [t] (notifications (db w)) (<[k := n]> (notifications (db w))).
Proof.
  intros Hn Hc. destruct (create_runs window new (owner_id t) (value_of (kind t)) (Some actor) (Some (tg_target t))
    (full_payload actor actor_name (tg_payload t)) w Hn) as (k & n & E & (E1 & E2 & E3 & E4 & E5 & E6 & Hb) & Hk).
  unfold notify_one. rewrite run_get_state. rewrite (bind_ok _ _ w (k, n) _ E).
  eexists _, k, n. split; [done|]. split; [done|]. split; [simpl; by rewrite E1, E2|].
  assert (Hs : says actor actor_name (clock w) t n).
  { split_and!; [done|done|done|]. intros f v Hf Hv. destruct (notifications (db w) !! k) as [o|]; [|by rewrite Hb].
    destruct Hb as (_ & _ & _ & _ & _ & ->). unfold merged. rewrite lookup_insert_ne by done. by apply lookup_union_Some_l. }
  split; [done|]. split.
  - intros j o Hj. destruct (decide (k = j)) as [->|Hne].
    + exists n. rewrite lookup_insert_eq. split; [done|]. rewrite Hj in Hb. destruct Hb as (H1 & H2 & H3 & H4 & H5 & H6).
      split; [right; split_and!; try congruence|right; exists t; split; [left|done]].
      * rewrite E6. by eapply Hc.
      * rewrite H6, count_merged. lia.
    + exists o. rewrite lookup_insert_ne by done. split_and!; [done|by left|by left].
  - intros j x [[<- <-]|[? Hj]]%lookup_insert_Some Hnone; [|congruence]. exists t. split; [left|done].
Qed.

Lemma value_of_inj a b : value_of a = value_of b → a = b.
Proof. destruct a, b; try done. Qed.

Lemma notify_each_runs window actor actor_name ts : ∀ news w,
  length ts ≤ length news → NoDup news → (∀ x, x ∈ news → notifications (db w) !! x = None) → NoDup (kind <$> ts) →
  (∀ k n, notifications (db w) !! k = Some n → created_at n ≤ clock w)%Z →
  ∃ ps m, notify_each window actor actor_name news ts w = (Ok ps, set_notifications (λ _, m) w) ∧
    Forall2 (pends actor actor_name (clock w) (db w) m) ts ps ∧ notified actor actor_name (clock w) ts (notifications (db w)) m.
Proof.
  induction ts as [|t ts IH]; intros news w Hl Hnd Hfresh Hkinds Hc.
  { exists [], (notifications (db w)). split; [by destruct news, w as [[] ? ? ?]|]. split; [constructor|apply notified_nil]. }
  destruct news as [|new news]; [simpl in Hl; lia|]. apply NoDup_cons in Hnd as [Hni Hnd]. rewrite fmap_cons, NoDup_cons in Hkinds.
  destruct Hkinds as [Hkind Hkinds].
  destruct (notify_one_runs window actor actor_name new t w) as (p & k & n & E & Hk & -> & Hs & Hno); [apply Hfresh; left|done|].
  set (w1 := set_notifications <[k := n]> w) in *.
  destruct (IH news w1) as (ps & m & E2 & Hps & Hm); [simpl in Hl; lia|done| |done| |].
  { intros x Hx. simpl. destruct Hk as [->|[o Ho]]; (rewrite lookup_insert_ne; [apply Hfresh; by right|]).
    - intros ->. done.
    - intros ->. rewrite Hfresh in Ho; [done|by right]. }
  { intros j x Hj. simpl in Hj. apply lookup_insert_Some in Hj as [[<- <-]|[? Hj]]; [|by eapply Hc]. simpl. destruct Hs as (_ & _ & -> & _). done. }
  eexists (_ :: ps), m. split.
  { cbn [notify_each]. rewrite (bind_ok _ _ w _ w1 E), (bind_ok _ _ w1 ps _ E2). by destruct w as [[] ? ? ?]. }
  split; [|by eapply notified_cons]. constructor; [|done]. exists k, n. split; [done|]. split; [|done].
  destruct Hm as [Hold _]. destruct (Hold k n) as (n' & Hn' & G & [->|(t2 & Ht2 & F2 & _)]); [simpl; by rewrite lookup_insert_eq|done|].
  exfalso. apply Hkind, list_elem_of_fmap. exists t2. split; [|done]. apply value_of_inj.
  assert (Hg : for_target actor t n') by (eapply for_target_grows; [done|apply Hs]). destruct Hg as (_ & <- & _), F2 as (_ & <- & _). done.
Qed.

(** ** What stays true *)
Definition apart (window : Z) (n1 n2 : Notification) : Prop :=
  (created_at n1 + window < created_at n2)%Z ∨ (created_at n2 + window < created_at n1)%Z.

Record inbox_ok (window now : Z) (m : gmap uuid Notification) : Prop := MkInbox {
  ib_other : ∀ k n a, m !! k = Some n → actor_id n = Some a → user_id n ≠ a;
  ib_type : ∀ k n, m !! k = Some n → n_type n ∈ NOTIFICATION_TYPES;
  ib_dated : ∀ k n, m !! k = Some n → (created_at n ≤ now)%Z;
  ib_spaced : (0 < window)%Z → ∀ k1 k2 n1 n2 u ty a t, m !! k1 = Some n1 → m !! k2 = Some n2 → k1 ≠ k2 →
    same_key u ty a t n1 = true → same_key u ty a t n2 = true → read_at n1 = None → read_at n2 = None → apart window n1 n2
}.

Definition prefs_ok (p : gmap (uuid * string) (bool * Z)) : Prop := ∀ u ty x, p !! (u, ty) = Some x → ty ∈ NOTIFICATION_TYPES.

Definition wf (window : Z) (w : world) : Prop := inbox_ok window (clock w) (notifications (db w)) ∧ prefs_ok (preferences (db w)).

(** Writing the row [k], new or taken up, at the time [now]. *)
Lemma inbox_insert window now m k n :
  inbox_ok window now m → created_at n = now → n_type n ∈ NOTIFICATION_TYPES → (∀ a, actor_id n = Some a → user_id n ≠ a) →
  ((0 < window)%Z → ∀ u ty a t, same_key u ty a t n = true → read_at n = None → ∀ k' n', m !! k' = Some n' → k' ≠ k → same_key u ty a t n' = true → read_at n' = None →
     (created_at n' + window < now)%Z) →
  inbox_ok window now (<[k := n]> m).
Proof.
  intros [H1 H2 H3 H4] Hc Ht Ho Hs. split.
  - intros j x a [[<- <-]|[? ?]]%lookup_insert_Some; [apply Ho|by apply (H1 j)].
  - intros j x [[<- <-]|[? ?]]%lookup_insert_Some; [done|by apply (H2 j)].
  - intros j x [[<- <-]|[? ?]]%lookup_insert_Some; [lia|by apply (H3 j)].
  - intros Hw k1 k2 n1 n2 u ty a t [[<- <-]|[? Hk1]]%lookup_insert_Some [[<- <-]|[? Hk2]]%lookup_insert_Some Hne S1 S2 R1 R2; [done|..].
    + right. rewrite Hc. by apply (Hs Hw u ty a t S1 R1 k2 n2).
    + left. rewrite Hc. by apply (Hs Hw u ty a t S2 R2 k1 n1).
    + by apply (H4 Hw k1 k2 n1 n2 u ty a t).
Qed.

Lemma same_key_unique u ty a t u' ty' a' t' n :
  same_key u ty a t n = true → same_key u' ty' a' t' n = true → u = u' ∧ ty = ty' ∧ a = a' ∧ t = t'.
Proof. unfold same_key. rewrite !bool_decide_eq_true. intros (?&?&?&?) (?&?&?&?). split_and!; congruence. Qed.

Definition rest_same (w w' : world) : Prop :=
  preferences (db w') = preferences (db w) ∧ clock w' = clock w ∧ pushed w' = pushed w ∧ business w' = business w.

Lemma wp_create window new u ty actor target p w :
  wf window w → ty ∈ NOTIFICATION_TYPES → (∀ a, actor = Some a → u ≠ a) →
  wp (create_notification window new u ty actor target p) (λ _ w', wf window w' ∧ rest_same w w') (λ _ _, True) w.
Proof.
  intros [Hi Hp] Ht Ho. unfold create_notification. wp_step. wp_step.
  assert (Hadd : (∀ a t, actor = Some a → target = Some t → (0 < window)%Z → ∀ k' n', notifications (db w) !! k' = Some n' →
      same_key u ty a t n' = true → read_at n' = None → (created_at n' + window < clock w)%Z) →
    wp (add_notification new (MkNotification u ty actor target p None (clock w))) (λ _ w', wf window w' ∧ rest_same w w') (λ _ _, True) w).
  { intros Hs. unfold add_notification. wp_step. wp_step. wp_step. apply wp_raise_when; [done|]. intros Hn. apply bool_decide_eq_false, eq_None_not_Some in Hn.
    wp_step. wp_step. wp_step. split; [|done]. split; [|done]. apply inbox_insert; [done|done|done|done|].
    intros Hw u' ty' a t Hk _ k' n' Hk' _ Hk2 Hr. unfold same_key in Hk. simpl in Hk. apply bool_decide_eq_true in Hk as (-> & -> & Ea & Et).
    by apply (Hs a t Ea Et Hw k' n'). }
  destruct actor as [a|]; [|by apply Hadd]. destruct target as [t|]; [|by apply Hadd].
  case_bool_decide as Hw; [|apply Hadd; intros; lia].
  destruct (find_recent_unread _ _ _ _ _ _) as [[k n]|] eqn:E.
  - apply find_recent_Some in E as (Hk & Hs & Hr & Hge & Hmax). wp_step. wp_step. wp_step. split; [|done]. split; [|done]. destruct Hi as [H1 H2 H3 H4].
    apply inbox_insert; [done|done|by apply (H2 k n)|intros a'; by apply (H1 k n)|].
    intros _ u' ty' a' t' Hs' _ k' n' Hk' Hne Hs2 Hr2. assert (Hs'' : same_key u' ty' a' t' n = true) by done.
    destruct (same_key_unique _ _ _ _ _ _ _ _ _ Hs Hs'') as (<- & <- & <- & <-).
    simpl. destruct (decide (clock w - window ≤ created_at n')%Z); [|lia]. specialize (Hmax k' n' Hk' Hs2 Hr2 ltac:(done)).
    destruct (H4 Hw k' k n' n _ _ _ _ Hk' Hk Hne Hs2 Hs Hr2 Hr); [pose proof (H3 k n Hk); lia|lia].
  - apply Hadd. intros a' t' [= <-] [= <-] _ k' n' Hk' Hs Hr; simpl. pose proof (find_recent_None _ _ _ _ _ _ _ _ E Hk' Hs Hr). lia.
Qed.

Lemma rest_trans w1 w2 w3 : rest_same w1 w2 → rest_same w2 w3 → rest_same w1 w3.
Proof. intros (?&?&?&?) (?&?&?&?). split_and!; congruence. Qed.

Lemma value_known t : value_of t ∈ NOTIFICATION_TYPES.
Proof. destruct t; by apply (bool_decide_unpack _); vm_compute. Qed.

Lemma wp_notify_each window actor actor_name ts : ∀ news w,
  wf window w → (∀ t, t ∈ ts → owner_id t ≠ actor) →
  wp (notify_each window actor actor_name news ts) (λ _ w', wf window w' ∧ rest_same w w') (λ _ _, True) w.
Proof.
  induction ts as [|t ts IH]; intros news w Hw Ho; [by destruct news; cbn [notify_each]; wp_step|].
  destruct news as [|new news]; cbn [notify_each]; [by wp_step|]. wp_step. unfold notify_one. do 3 wp_step.
  eapply wp_mono; [apply wp_create; [done|apply value_known|intros a [= <-]; apply Ho; left]| |done].
  intros kn w1 [Hw1 Hr1]. wp_step. wp_step. eapply wp_mono; [apply (IH news w1 Hw1); intros t' Ht'; apply Ho; by right| |done].
  intros ps w2 [Hw2 Hr2]. wp_step. split; [done|by eapply rest_trans].
Qed.

Lemma wp_digest window title p admins : ∀ news w,
  wf window w → wp (digest_each window title p news admins) (λ _ w', wf window w' ∧ rest_same w w') (λ _ _, True) w.
Proof.
  induction admins as [|a admins IH]; intros news w Hw; [by destruct news; cbn [digest_each]; wp_step|].
  destruct news as [|new news]; cbn [digest_each]; [by wp_step|]. wp_step.
  eapply wp_mono; [apply wp_create; [done|apply value_known|done]| |done]. intros kn w1 [Hw1 Hr1].
  eapply wp_mono; [apply (IH news w1 Hw1)| |done]. intros [] w2 [Hw2 Hr2]. split; [done|by eapply rest_trans].
Qed.

(** Marking. *)
Lemma inbox_lookup_marked u ids all_ now (m : gmap uuid Notification) k :
  map_imap (λ k n, Some (if hit u ids all_ k n then with_read now n else n)) m !! k
  = (λ n, if hit u ids all_ k n then with_read now n else n) <$> m !! k.
Proof. rewrite map_lookup_imap. by destruct (m !! k). Qed.

Lemma inbox_marked window now m u ids all_ :
  inbox_ok window now m → inbox_ok window now (map_imap (λ k n, Some (if hit u ids all_ k n then with_read now n else n)) m).
Proof.
  intros [H1 H2 H3 H4].
  assert (Hl : ∀ k n, map_imap (λ k n, Some (if hit u ids all_ k n then with_read now n else n)) m !! k = Some n →
    ∃ o, m !! k = Some o ∧ user_id n = user_id o ∧ n_type n = n_type o ∧ actor_id n = actor_id o ∧ target_id n = target_id o ∧
      created_at n = created_at o ∧ (read_at n = None → read_at o = None)).
  { intros k n. rewrite inbox_lookup_marked. intros (o & -> & ->)%fmap_Some. exists o. split; [done|]. destruct (hit u ids all_ k o); simpl; split_and!; done. }
  split.
  - intros k n a (o & Ho & -> & _ & -> & _)%Hl. by apply (H1 k o).
  - intros k n (o & Ho & _ & -> & _)%Hl. by apply (H2 k o).
  - intros k n (o & Ho & _ & _ & _ & _ & -> & _)%Hl. by apply (H3 k o).
  - intros Hw k1 k2 n1 n2 u' ty a t (o1 & Ho1 & E1 & E2 & E3 & E4 & E5 & E6)%Hl (o2 & Ho2 & F1 & F2 & F3 & F4 & F5 & F6)%Hl Hne S1 S2 R1 R2.
    unfold apart. rewrite E5, F5. apply (H4 Hw k1 k2 o1 o2 u' ty a t); try done; [..|by apply E6|by apply F6].
    + unfold same_key in *. by rewrite <- E1, <- E2, <- E3, <- E4.
    + unfold same_key in *. by rewrite <- F1, <- F2, <- F3, <- F4.
Qed.

Lemma prefs_insert (u : uuid) (items : list (string * bool)) (now : Z) (m : gmap (uuid * string) (bool * Z)) :
  existsb (λ i, negb (bool_decide (i.1 ∈ NOTIFICATION_TYPES))) items = false → prefs_ok m →
  prefs_ok (foldl (λ m i, <[(u, i.1) := (i.2, now)]> m) m items).
Proof.
  revert m. induction items as [|[ty e] items IH]; intros m; [done|]. cbn [existsb foldl]. intros [Hty Hr]%orb_false_iff Hm. apply IH; [done|].
  intros u' ty' x [[[= <- <-] _]|[_ Hk]]%lookup_insert_Some; [|by eapply Hm]. apply negb_false_iff, bool_decide_eq_true in Hty. done.
Qed.

Lemma inbox_wp_body window r w : wf window w → wp (body window r) (λ _ w', wf window w' ∧ clock w' = clock w) (λ _ _, True) w.
Proof.
  intros [Hi Hp]. destruct r; simpl; unfold ignore.
  - unfold mark_read. wp_step. wp_step. wp_step. destruct (negb all_ && _); [by repeat wp_step|]. wp_step. wp_step. wp_step. wp_step.
    split; [|done]. split; [|done]. by apply inbox_marked.
  - unfold set_preferences. do 4 wp_step. apply wp_raise_when; [done|]. intros Hx. wp_step. wp_step. wp_step. wp_step. wp_step. wp_step.
    split; [|done]. split; [done|]. simpl. by apply prefs_insert.
  - unfold register_token. repeat wp_step; done.
  - unfold delete_token. repeat wp_step; done.
  - unfold send_daily_digest. wp_step. destruct (bool_decide _); [by do 2 wp_step|]. destruct (bool_decide _); [by do 2 wp_step|]. wp_step.
    eapply wp_mono; [by apply wp_digest|intros [] w' [Hw' (_ & ? & _)]; by do 2 wp_step|done].
Qed.

Definition pushed_as (p : _pending) : Push :=
  MkPush (ws_channel p.1.1.1.1 "notify") (event_key p.1.1.1.2 (count_of p.1.2)) (uuid_int p.1.1.1.2) p.1.1.2 p.1.2.

Definition pushes (reached : bool) (ps : list _pending) : list Push :=
  if reached then pushed_as <$> filter (λ p : _pending, p.2 = true) ps else [].

Lemma publish_one_run reached p w :
  publish_one reached p w = (Ok tt, World (db w) (business w) (pushed w ++ pushes reached [p]) (clock w)).
Proof.
  destruct p as [[[[u nid] ty] payload] enabled]. unfold publish_one, pushes. destruct enabled, reached; simpl; rewrite ?app_nil_r; by destruct w.
Qed.

Lemma publish_all reached ps w :
  for_each ps (publish_one reached) w = (Ok tt, World (db w) (business w) (pushed w ++ pushes reached ps) (clock w)).
Proof.
  revert w. induction ps as [|p ps IH]; intros w.
  { cbn. destruct w. unfold pushes. destruct reached; by rewrite app_nil_r. }
  cbn [for_each]. rewrite (bind_ok _ _ w tt _ (publish_one_run reached p w)), IH. simpl. rewrite <- app_assoc. do 4 f_equal.
  unfold pushes. destruct reached; [|done]. rewrite <- fmap_app, <- filter_app. done.
Qed.

Lemma recipients_others actor b event ref_id t : t ∈ recipients actor b event ref_id → owner_id t ≠ actor.
Proof. unfold recipients. by intros [? _]%list_elem_of_filter. Qed.

Lemma back_to w w' : clock w' = clock w → ∀ window, wf window w → wf window (set_db (λ _, db w) w').
Proof. intros Hc window [Hi Hp]. split; simpl; [by rewrite Hc|done]. Qed.

Definition same_clock (w w' : world) : Prop := clock w' = clock w.
#[local] Instance same_clock_preorder : PreOrder same_clock.
Proof. split; [done|]. intros ??? H1 H2. unfold same_clock in *. congruence. Qed.
#[local] Hint Extern 1 (respects same_clock (modify _)) => apply respects_modify; intros; reflexivity : respects.

Lemma clock_create window new u ty actor target p : respects same_clock (create_notification window new u ty actor target p).
Proof. unfold create_notification, add_notification. respects. Qed.
#[local] Hint Resolve clock_create : respects.

Lemma clock_digest window title p news admins : respects same_clock (digest_each window title p news admins).
Proof. revert news. induction admins as [|a admins IH]; intros [|new news]; cbn [digest_each]; respects. Qed.

Lemma clock_notify window actor name news ts : respects same_clock (notify_each window actor name news ts).
Proof. revert news. induction ts as [|t ts IH]; intros [|new news]; cbn [notify_each]; unfold notify_one; respects. Qed.
#[local] Hint Resolve clock_digest : respects.

Lemma inbox_clock_body window r : respects same_clock (body window r).
Proof.
  destruct r; simpl; unfold ignore, mark_read, set_preferences, register_token, delete_token, send_daily_digest; respects.
Qed.

Lemma inbox_step_wf window w w' : step window w w' → wf window w → wf window w'.
Proof.
  intros [commits r|commits reached news actor_name actor event ref_id|b|t Ht] Hw.
  - pose proof (inbox_wp_body window r w Hw) as Hb. pose proof (inbox_clock_body window r w) as Hc. unfold transaction, wp in *.
    destruct (body window r w) as [[[]|e] x]; simpl in *; [destruct commits; simpl; [apply Hb|by apply back_to]|by apply back_to].
  - unfold notify_from_point_event.
    pose proof (wp_notify_each window actor actor_name (recipients actor (business w) event ref_id) news w Hw) as Hb.
    pose proof (clock_notify window actor actor_name news (recipients actor (business w) event ref_id) w) as Hc.
    specialize (Hb (λ t, recipients_others _ _ _ _ t)). unfold wp in Hb.
    destruct (notify_each _ _ _ _ _ w) as [[ps|e] x]; simpl in *; [|by apply back_to].
    destruct commits; [|by apply back_to]. rewrite publish_all. simpl. apply Hb.
  - done.
  - destruct Hw as [[H1 H2 H3 H4] Hp]. split; [|done]. split; simpl; try done. intros k n Hk. specialize (H3 k n Hk). lia.
Qed.

Lemma NoDup_kinds (P : _Target → Prop) `{!∀ t, Decision (P t)} l : NoDup (kind <$> l) → NoDup (kind <$> filter P l).
Proof.
  induction l as [|t l IH]; [done|]. rewrite fmap_cons. intros [Ht Hn]%NoDup_cons. rewrite filter_cons. case_decide; [|by apply IH].
  rewrite fmap_cons. apply NoDup_cons. split; [|by apply IH]. intros (x & Hx & [_ Hin]%list_elem_of_filter)%list_elem_of_fmap. apply Ht, list_elem_of_fmap. by exists x.
Qed.

Lemma recipients_kinds actor b event ref_id : NoDup (kind <$> recipients actor b event ref_id).
Proof.
  unfold recipients. apply NoDup_kinds. unfold _resolve_targets. destruct (_split_ref ref_id) as [[prefix ref]|]; [|constructor].
  assert (H1 : ∀ t : _Target, NoDup (kind <$> [t])) by (intros t; apply NoDup_singleton).
  destruct (bool_decide _); [|destruct (bool_decide _); [|destruct (bool_decide _); [|constructor]]].
  - unfold like_targets. destruct (item_brief b ref) as [it|]; [|constructor]. destruct (ib_author it); [apply H1|constructor].
  - unfold comment_targets. destruct (comment_brief b ref) as [c|]; [|constructor]. destruct (item_brief b (cb_content c)) as [it|]; [|constructor].
    destruct (ib_author it), (cb_parent c ≫= comment_brief b); simpl; [|apply NoDup_singleton|apply NoDup_singleton|constructor].
    apply NoDup_cons. split; [|apply NoDup_singleton]. by intros ?%list_elem_of_singleton.
  - unfold accept_targets. destruct (qa_answer_brief b ref) as [a|]; [|constructor]. destruct (qa_question_brief b (ab_question a)); [apply H1|constructor].
Qed.

Lemma enabled_unmuted u ty d : is_type_enabled u (value_of ty) d = true ↔ ¬ muted d u ty.
Proof.
  unfold is_type_enabled, muted. destruct (preferences d !! (u, value_of ty)) as [[[] t]|]; split; try done; naive_solver.
Qed.

(** The message of a row. *)
Definition carries (k : uuid) (n : Notification) (q : Push) : Prop :=
  q = MkPush (ws_channel (user_id n) "notify") (event_key k (count_of (n_payload n))) (uuid_int k) (n_type n) (n_payload n).

Lemma pushes_one actor actor_name now d m t p :
  pends actor actor_name now d m t p →
  if is_type_enabled (owner_id t) (value_of (kind t)) d
  then ∃ q k n, pushes true [p] = [q] ∧ m !! k = Some n ∧ says actor actor_name now t n ∧ carries k n q
  else pushes true [p] = [].
Proof.
  intros (k & n & -> & Hk & Hs). pose proof Hs as [(E1 & E2 & _) _]. unfold pushes. simpl.
  destruct (is_type_enabled _ _ d); simpl.
  - do 3 eexists. split; [done|]. split; [done|]. split; [done|]. unfold carries, pushed_as. simpl. by rewrite E1, E2.
  - done.
Qed.

(** Exactly the rows of the targets who did not mute the type are pushed. *)
Lemma pushes_rows actor actor_name now d m ts ps :
  Forall2 (pends actor actor_name now d m) ts ps → NoDup (kind <$> ts) →
  NoDup (pu_type <$> pushes true ps) ∧
  (∀ q, q ∈ pushes true ps → ∃ t k n, t ∈ ts ∧ ¬ muted d (owner_id t) (kind t) ∧ m !! k = Some n ∧ says actor actor_name now t n ∧ carries k n q) ∧
  ∀ t, t ∈ ts → ¬ muted d (owner_id t) (kind t) → ∃ q k n, q ∈ pushes true ps ∧ m !! k = Some n ∧ says actor actor_name now t n ∧ carries k n q.
Proof.
  induction 1 as [|t p ts ps Hp _ IH]; [intros _; split_and!; [constructor|intros q []%elem_of_nil|intros t []%elem_of_nil]|].
  rewrite fmap_cons, NoDup_cons. intros [Hk Hn]. destruct (IH Hn) as (I1 & I2 & I3).
  assert (Hc : pushes true (p :: ps) = pushes true [p] ++ pushes true ps) by (unfold pushes; by rewrite <- fmap_app, <- filter_app).
  rewrite Hc. apply pushes_one in Hp. pose proof (enabled_unmuted (owner_id t) (kind t) d) as Hmu.
  destruct (is_type_enabled _ _ d).
  - destruct Hp as (q & k & n & -> & Hr & Hs & Hq). split_and!.
    + simpl. apply NoDup_cons. split; [|done]. intros (q' & Et & (t' & k' & n' & Ht' & _ & _ & [(_ & E' & _) _] & ->)%I2)%list_elem_of_fmap.
      apply Hk, list_elem_of_fmap. exists t'. split; [|done]. apply value_of_inj. destruct Hs as [(_ & E & _) _].
      rewrite Hq in Et. simpl in Et. congruence.
    + intros q' [->|Hq']%elem_of_cons; [exists t, k, n; split_and!; [left|by apply Hmu|done..]|].
      destruct (I2 q' Hq') as (t' & k' & n' & ? & ?). exists t', k', n'. split; [by right|done].
    + intros t' [->|Ht']%elem_of_cons Hm'; [exists q, k, n; split; [left|done]|].
      destruct (I3 t' Ht' Hm') as (q' & k' & n' & ? & ?). exists q', k', n'. split; [by right|done].
  - rewrite Hp. split_and!; [done| |].
    + intros q' Hq'. destruct (I2 q' Hq') as (t' & k' & n' & ? & ?). exists t', k', n'. split; [by right|done].
    + intros t' [->|Ht']%elem_of_cons Hm'; [by apply Hmu in Hm'|by apply I3].
Qed.

(** An unread row of now that tells the one concerned what happened. *)
Definition tells (actor : uuid) (actor_name : string) (now : Z) (u : uuid) (ty : NotificationType) (i : uuid) (p : payload_t)
    (n : Notification) : Prop :=
  user_id n = u ∧ n_type n = value_of ty ∧ actor_id n = Some actor ∧ target_id n = Some i ∧ read_at n = None ∧ created_at n = now ∧
  n_payload n !! "actor_id"%string = Some (JStr (uuid_str actor)) ∧ n_payload n !! "actor_name"%string = Some (JStr actor_name) ∧
  p ⊆ n_payload n.

Lemma concerns_fields b event ref_id u ty i p f :
  concerns b event ref_id u ty i p → f ∈ ["count"; "actor_id"; "actor_name"]%string → p !! f = None.
Proof.
  intros Hc Hf. rewrite !elem_of_cons, elem_of_nil in Hf.
  destruct Hc; destruct Hf as [->|[->|[->|[]]]]; repeat (rewrite lookup_insert_ne by done); by rewrite lookup_singleton_ne.
Qed.

Lemma says_tells b event ref_id actor actor_name now t n :
  t ∈ _resolve_targets b event ref_id → says actor actor_name now t n →
  tells actor actor_name now (owner_id t) (kind t) (tg_target t) (tg_payload t) n.
Proof.
  intros Ht%targets_concerned ((E1 & E2 & E3 & E4) & E5 & E6 & Hf).
  assert (Hn : ∀ f, f ∈ ["count"; "actor_id"; "actor_name"]%string → tg_payload t !! f = None) by (intros f; by apply (concerns_fields _ _ _ _ _ _ _ _ Ht)).
  split_and!; try done.
  - apply Hf; [done|]. unfold full_payload. by rewrite lookup_insert_ne, lookup_insert_eq.
  - apply Hf; [done|]. unfold full_payload. by rewrite lookup_insert_eq.
  - apply map_subseteq_spec. intros f v Hv. apply Hf; [intros ->; by rewrite Hn in Hv by set_solver|]. unfold full_payload.
    rewrite lookup_insert_ne by (intros <-; by rewrite Hn in Hv by set_solver).
    by rewrite lookup_insert_ne by (intros <-; by rewrite Hn in Hv by set_solver).
Qed.

(** An event has two targets at most. *)
Lemma recipients_two actor b event ref_id : length (recipients actor b event ref_id) ≤ 2.
Proof.
  unfold recipients. rewrite length_filter. unfold _resolve_targets, like_targets, comment_targets, accept_targets.
  repeat (case_match; simpl; try lia).
Qed.

Definition empty_inbox (b : S) (now : Z) : world := World (Tables ∅ ∅ ∅) b [] now.

Lemma empty_inbox_wf window b now : wf window (empty_inbox b now).
Proof. split; [|by intros u ty x Hx]. split; simpl; done. Qed.

Lemma inbox_wf window b now w : rtc (step window) (empty_inbox b now) w → wf window w.
Proof.
  intros Hr. apply (invariant_reachable (step window) (wf window) (empty_inbox b now) w (empty_inbox_wf window b now)); [|done].
  intros x y Hx Hs. by apply (inbox_step_wf window x y).
Qed.

(** ** Properties *)

(** C40: The inbox stays consistent: in every state that requests, events, the digest
    and time reach, nobody is notified of what he did himself, types are known
    ones, no row is from the future, preferences speak of known types only, and
    two unread rows of the same user, type, actor and target are more than the
    aggregation window apart. *)
Theorem inbox_consistent (window : Z) (b : S) (now : Z) (w : world) :
  rtc (step window) (empty_inbox b now) w →
  (∀ k n, notifications (db w) !! k = Some n →
     actor_id n ≠ Some (user_id n) ∧ n_type n ∈ NOTIFICATION_TYPES ∧ (created_at n ≤ clock w)%Z) ∧
  (∀ u ty x, preferences (db w) !! (u, ty) = Some x → ty ∈ NOTIFICATION_TYPES) ∧
  ((0 < window)%Z → ∀ k1 k2 n1 n2 a t, notifications (db w) !! k1 = Some n1 → notifications (db w) !! k2 = Some n2 →
     actor_id n1 = Some a → target_id n1 = Some t →
     user_id n2 = user_id n1 → n_type n2 = n_type n1 → actor_id n2 = Some a → target_id n2 = Some t → read_at n1 = None → read_at n2 = None →
     k1 = k2 ∨ (window < Z.abs (created_at n1 - created_at n2))%Z).
Proof.
  intros [[H1 H2 H3 H4] Hp]%inbox_wf. split_and!; [|done|].
  - intros k n Hk. split_and!; [|by apply (H2 k)|by apply (H3 k)]. intros Ha. by apply (H1 k n (user_id n)).
  - intros Hw k1 k2 n1 n2 a t Hk1 Hk2 A1 T1 Eu Et A2 T2 R1 R2. destruct (decide (k1 = k2)) as [|Hne]; [by left|right].
    assert (S1 : same_key (user_id n1) (n_type n1) a t n1 = true) by (by apply bool_decide_eq_true).
    assert (S2 : same_key (user_id n1) (n_type n1) a t n2 = true) by (by apply bool_decide_eq_true).
    destruct (H4 Hw k1 k2 n1 n2 _ _ _ _ Hk1 Hk2 Hne S1 S2 R1 R2); lia.
Qed.

(** C39: An event notifies exactly those it concerns: the author of the item that
    was liked or commented on, the author of the comment that was answered, the
    author of the answer that was accepted, if it is not the actor himself. With
    two fresh identifiers and a commit that succeeds, each of them has an unread
    row of now that tells who did what to what, also if he muted the type; every
    other row stays as it was, and no row is lost; if Redis is there, the rows of
    those who did not switch the type off are pushed, each once and to the
    channel of its user, and nothing else is. A commit that fails changes
    nothing. *)
Theorem event_notifies (window : Z) (b : S) (now : Z) (w : world) (reached : bool) (news : list uuid) (actor_name : string)
    (actor : uuid) (event ref_id : string) :
  rtc (step window) (empty_inbox b now) w →
  2 ≤ length news → NoDup news → (∀ x, x ∈ news → notifications (db w) !! x = None) →
  let told u ty i p := concerns (business w) event ref_id u ty i p ∧ u ≠ actor in
  let tells := tells actor actor_name (clock w) in
  (∃ w' l, notify_from_point_event window true reached news actor_name actor event ref_id w = (Ok tt, w') ∧
    (∀ u ty i p, told u ty i p → ∃ k n, notifications (db w') !! k = Some n ∧ tells u ty i p n) ∧
    (∀ k n, notifications (db w') !! k = Some n →
       notifications (db w) !! k = Some n ∨ ∃ u ty i p, told u ty i p ∧ tells u ty i p n) ∧
    (∀ k o, notifications (db w) !! k = Some o → ∃ n, notifications (db w') !! k = Some n ∧ row_grows o n) ∧
    pushed w' = pushed w ++ l ∧ NoDup (pu_type <$> l) ∧
    (∀ q, q ∈ l → ∃ u ty i p k n, told u ty i p ∧ ¬ muted (db w) u ty ∧ notifications (db w') !! k = Some n ∧ tells u ty i p n ∧ carries k n q) ∧
    (if reached
     then ∀ u ty i p, told u ty i p → ¬ muted (db w) u ty →
       ∃ q k n, q ∈ l ∧ notifications (db w') !! k = Some n ∧ tells u ty i p n ∧ carries k n q
     else l = []) ∧
    preferences (db w') = preferences (db w)) ∧
  ∃ w', notify_from_point_event window false reached news actor_name actor event ref_id w = (Raise RuntimeError, w') ∧
    db w' = db w ∧ pushed w' = pushed w.
Proof.
  intros [[_ _ Hd _] _]%inbox_wf Hl Hnd Hfresh told tells'. set (ts := recipients actor (business w) event ref_id).
  assert (Hts : ∀ t, t ∈ ts → told (owner_id t) (kind t) (tg_target t) (tg_payload t)).
  { intros t [? Ht]%list_elem_of_filter. split; [by apply targets_concerned|done]. }
  assert (Hst : ∀ t n, t ∈ ts → says actor actor_name (clock w) t n → tells' (owner_id t) (kind t) (tg_target t) (tg_payload t) n).
  { intros t n [_ Ht]%list_elem_of_filter. by eapply says_tells. }
  assert (Htold : ∀ u ty i p, told u ty i p → MkTarget u ty i p ∈ ts).
  { intros u ty i p [Hc Hu]. apply list_elem_of_filter. split; [done|]. by apply targets_concerned. }
  pose proof (recipients_two actor (business w) event ref_id) as H2.
  destruct (notify_each_runs window actor actor_name ts news w) as (ps & m & E & Hps & Hno);
    [unfold ts; lia|done|done|apply recipients_kinds|done|].
  destruct (pushes_rows _ _ _ _ _ _ _ Hps (recipients_kinds _ _ _ _)) as (P1 & P2 & P3).
  unfold notify_from_point_event. fold ts. rewrite E. split; [|by eexists].
  rewrite publish_all. exists (set_notifications (λ _, m) (World (db w) (business w) (pushed w ++ pushes reached ps) (clock w))), (pushes reached ps).
  split; [done|]. simpl. split_and!.
  - intros u ty i p Ht%Htold. pose proof Ht as [j Hj]%list_elem_of_lookup_1.
    destruct (Forall2_lookup_l _ _ _ _ _ Hps Hj) as (q & _ & k & n & _ & Hk & Hs). exists k, n. split; [done|]. by apply (Hst _ _ Ht).
  - intros k n Hk. destruct (notifications (db w) !! k) as [o|] eqn:Ho.
    + destruct (nt_old _ _ _ _ _ _ Hno k o Ho) as (n' & Hn' & _ & [->|(t & Ht & Hs)]); simplify_eq; [by left|right]. do 4 eexists. split; [by apply Hts|by apply Hst].
    + right. destruct (nt_new _ _ _ _ _ _ Hno k n Hk Ho) as (t & Ht & Hs). do 4 eexists. split; [by apply Hts|by apply Hst].
  - intros k o Ho. destruct (nt_old _ _ _ _ _ _ Hno k o Ho) as (n & ? & ? & _). by exists n.
  - done.
  - destruct reached; [done|constructor].
  - intros q Hq. destruct reached; [|by apply elem_of_nil in Hq]. destruct (P2 q Hq) as (t & k & n & Ht & Hmu & Hk & Hs & Hc).
    do 4 eexists. exists k, n. split_and!; [by apply Hts|done|done|by apply Hst|done].
  - destruct reached; [|done]. intros u ty i p Ht%Htold Hmu. destruct (P3 _ Ht Hmu) as (q & k & n & ? & ? & Hs & ?).
    exists q, k, n. split_and!; [done|done|by apply (Hst _ _ Ht)|done].
  - done.
Qed.

(** Marking is exact and one's own: it marks as read exactly the unread rows of
    the user that were asked for, says how many, and the number of unread rows
    falls by as many; nobody else's rows change. *)
Theorem mark_read_correct (u : uuid) (ids : gset uuid) (all_ : bool) (w : world) :
  ∃ n w', mark_read u ids all_ w = (Ok n, w') ∧
    (∀ k x, notifications (db w) !! k = Some x → notifications (db w') !! k =
       Some (if bool_decide (user_id x = u ∧ read_at x = None) && (all_ || bool_decide (k ∈ ids)) then with_read (clock w) x else x)) ∧
    (∀ k, notifications (db w) !! k = None → notifications (db w') !! k = None) ∧
    unread_count u (db w') + n = unread_count u (db w) ∧
    ∀ v, v ≠ u → unread_count v (db w') = unread_count v (db w).
Proof.
  assert (Hhit : ∀ k x, hit u ids all_ k x = bool_decide (user_id x = u ∧ read_at x = None) && (all_ || bool_decide (k ∈ ids))).
  { intros k x. unfold hit, mine. simpl. f_equal. rewrite bool_decide_and. done. }
  unfold mark_read. rewrite run_get_state. destruct (negb all_ && bool_decide (ids = ∅)) eqn:Hnone.
  { apply andb_true_iff in Hnone as [->%negb_true_iff ->%bool_decide_eq_true]. exists 0, w. split_and!; [done| |done|lia|done].
    intros k x Hk. rewrite (bool_decide_eq_false_2 (k ∈ ∅)) by set_solver. by rewrite andb_false_r. }
  rewrite run_modify. do 2 eexists. split; [done|]. simpl. split_and!.
  - intros k x Hk. by rewrite inbox_lookup_marked, Hk, <- Hhit.
  - intros k Hk. by rewrite inbox_lookup_marked, Hk.
  - unfold unread_count. simpl. set (m := notifications (db w)).
    assert (filter (λ kn, mine u true kn.2 = true) (map_imap (λ k n, Some (if hit u ids all_ k n then with_read (clock w) n else n)) m)
            = filter (λ kn, ¬ hit u ids all_ kn.1 kn.2 = true) (filter (λ kn, mine u true kn.2 = true) m)) as ->.
    { apply map_eq. intros k. apply option_eq. intros x. rewrite !map_lookup_filter_Some, inbox_lookup_marked, fmap_Some. simpl. split.
      - intros ((o & Ho & ->) & Hmi). destruct (hit u ids all_ k o) eqn:Hh; [|by rewrite Hh].
        unfold mine in Hmi. simpl in Hmi. by rewrite andb_false_r in Hmi.
      - intros ((Hx & Hmi) & Hh). split; [|done]. exists x. destruct (hit u ids all_ k x); done. }
    rewrite <- (map_filter_union_complement (λ kn, hit u ids all_ kn.1 kn.2 = true) (filter (λ kn, mine u true kn.2 = true) m)) at 2.
    rewrite map_size_disj_union by apply map_disjoint_filter_complement. rewrite (Nat.add_comm (size _)). f_equal.
    assert (filter (λ kn, hit u ids all_ kn.1 kn.2 = true) (filter (λ kn, mine u true kn.2 = true) m) = filter (λ kn, hit u ids all_ kn.1 kn.2 = true) m) as ->; [|done].
    apply map_eq. intros k. apply option_eq. intros x. rewrite !map_lookup_filter_Some. simpl. unfold hit. rewrite andb_true_iff. tauto.
  - intros v Hv. unfold unread_count. simpl. f_equal. set (m := notifications (db w)).
    assert (Hsame : ∀ k x, mine v true x = true → hit u ids all_ k x = false).
    { intros k x Hx. rewrite Hhit. unfold mine in Hx. simpl in Hx. apply andb_true_iff in Hx as [Hx%bool_decide_eq_true _].
      rewrite bool_decide_eq_false_2 by naive_solver. done. }
    apply map_eq. intros k. apply option_eq. intros x. rewrite !map_lookup_filter_Some, inbox_lookup_marked, fmap_Some. simpl. split.
    + intros ((o & Ho & ->) & Hmi). destruct (hit u ids all_ k o) eqn:Hh; [|done].
      exfalso. assert (Hmo : mine v true o = true); [|by rewrite (Hsame k o Hmo) in Hh].
      unfold mine in Hmi |- *. simpl in Hmi. by rewrite andb_false_r in Hmi.
    + intros (Hx & Hmi). split; [|done]. exists x. by rewrite (Hsame k x Hmi).
Qed.

(** Preferences are set as a whole: one unknown type refuses all; otherwise
    afterwards each type has its last setting, or the one it had, nobody else's
    changes, and the answer lists every known type. *)
Theorem preferences_whole (u : uuid) (items : list (string * bool)) (w : world) :
  if forallb (λ i, bool_decide (i.1 ∈ NOTIFICATION_TYPES)) items
  then ∃ w', set_preferences u items w = (Ok (list_preferences u (db w')), w') ∧
         (∀ ty, is_type_enabled u ty (db w') =
            default (is_type_enabled u ty (db w)) (snd <$> last (filter (λ i, i.1 = ty) items))) ∧
         (∀ v ty, v ≠ u → is_type_enabled v ty (db w') = is_type_enabled v ty (db w)) ∧
         (list_preferences u (db w')).*1 = NOTIFICATION_TYPES ∧ notifications (db w') = notifications (db w)
  else set_preferences u items w = (Raise INVALID_TYPE, w).
Proof.
  assert (Hex : existsb (λ i : string * bool, negb (bool_decide (i.1 ∈ NOTIFICATION_TYPES))) items
                = negb (forallb (λ i, bool_decide (i.1 ∈ NOTIFICATION_TYPES)) items)).
  { induction items as [|i items IH]; [done|]. simpl. by rewrite IH, negb_andb. }
  unfold set_preferences. rewrite run_get_state, run_raise_when, Hex. destruct (forallb _ _); [|done]. simpl negb. rewrite run_modify, run_get_state.
  eexists. split; [done|].
  assert (Hfold : ∀ now (m : gmap (uuid * string) (bool * Z)) v ty, fst <$> foldl (λ m i, <[(u, i.1) := (i.2, now)]> m) m items !! (v, ty)
    = if decide (v = u) then match snd <$> last (filter (λ i, i.1 = ty) items) with Some e => Some e | None => fst <$> m !! (v, ty) end else fst <$> m !! (v, ty)).
  { clear. intros now m v ty. induction items as [|[ty' e] items IH] using rev_ind; [by case_decide|].
    rewrite foldl_app. simpl. rewrite filter_app. destruct (decide ((u, ty') = (v, ty))) as [[= -> ->]|Hne].
    - rewrite lookup_insert_eq, decide_True by done. rewrite filter_cons_True, filter_nil, last_snoc by done. done.
    - rewrite lookup_insert_ne by done. rewrite IH. case_decide as Hv; [|done]. rewrite filter_cons_False, filter_nil, app_nil_r by (simpl; congruence). done. }
  assert (Hen : ∀ v ty d, is_type_enabled v ty d = default true (fst <$> preferences d !! (v, ty))).
  { intros v ty d. unfold is_type_enabled. by destruct (preferences d !! (v, ty)) as [[]|]. }
  split_and!; [| | |done].
  - intros ty. rewrite !Hen. simpl. rewrite Hfold, decide_True by done. by destruct (snd <$> last _).
  - intros v ty Hv. rewrite !Hen. simpl. by rewrite Hfold, decide_False.
  - reflexivity.
Qed.

(** A channel is read back as the user and the kind of message it was made for,
    so two users never share one. *)
Theorem channel_roundtrip (u : uuid) (name : string) :
  name ∈ CHANNELS → parse_channel (ws_channel u name) = Some (u, name).
Proof.
  intros Hn. unfold parse_channel, ws_channel.
  change ("ws:" +:+ uuid_str u +:+ ":" +:+ name)%string with ("ws" +:+ ":" +:+ (uuid_str u +:+ ":" +:+ name))%string.
  rewrite split_colon_app by done. rewrite split_colon_app by apply no_colon_uuid.
  rewrite bool_decide_eq_false_2 by tauto. rewrite Cursor.UUID_str. simpl. by rewrite bool_decide_eq_true_2.
Qed.

End notification.

(** ** The other components, as the handler reads them *)
Record business_tables := Business { content : Content.tables; questions : gmap uuid Qa.QAQuestion; answers : gmap uuid Qa.QAAnswer }.

(** [content/read_api.py], [comment/read_api.py], [qa/read_api.py]: items and
    comments that are not deleted. *)
#[export] Instance business_ports : Ports business_tables := {|
  item_brief b i :=
    it ← Content.items (content b) !! i;
    match Content.deleted_at it with
    | None => Some (MkItemBrief (Content.title (Content.data it)) (Content.author_id (Content.data it)))
    | Some _ => None
    end;
  comment_brief b i :=
    c ← Content.comments (content b) !! i;
    match Content.cm_deleted_at c with
    | None => Some (MkCommentBrief (Content.cm_content_id c) (Content.cm_user_id c) (Content.cm_parent_id c))
    | Some _ => None
    end;
  qa_answer_brief b i := (λ a, MkAnswerBrief (Qa.question_id a) (Qa.answer_author a)) <$> answers b !! i;
  qa_question_brief b i := (λ q, MkQuestionBrief (Qa.title q) (Qa.bounty_per_person q)) <$> questions b !! i
|}.

(** ** Worked events *)
Definition person (n : N) : uuid := uuid_of_N n.

Definition a_post : Content.ContentItem :=
  Content.MkItem (Content.MkData Content.DISCUSSION (person 90) (Some (person 1)) None None None "Hello" "text" None None Content.PUBLISHED
    false false 5 None) 0 0 (Content.Counts 0 0 0) None None.
Definition a_comment (author : uuid) (parent : option uuid) : Content.ContentComment :=
  Content.MkComment (person 50) author "hm" 1 parent 0 None.

(** A post by 1, a comment on it by 2 and an answer to that by 3. *)
Definition demo_business : business_tables :=
  Business (Content.Tables {[person 50 := a_post]} ∅
    (<[person 60 := a_comment (person 2) None]> {[person 61 := a_comment (person 3) (Some (person 60))]}) ∅ ∅ ∅ []
    (Boards.Tables ∅ ∅ ∅ []) (Feed.Tables (λ _, []) [] [] [] ∅)) ∅ ∅.

Definition hour : Z := 3600 * 1000000.
Definition demo_inbox : world := empty_inbox demo_business 1000.

(** 2 mutes comments on his posts and answers to his comments. *)
Definition demo_muted : world :=
  (transaction true (body hour (Prefer (person 2) [("comment_replied"%string, false)])) demo_inbox).2.

Definition an_event (news : list uuid) (actor : uuid) (event ref_id : string) (w : world) : world :=
  (notify_from_point_event hour true true news "Name" actor event ref_id w).2.

Definition ref_61 : string := "comment:" +:+ uuid_str (person 61).
Definition demo_notified : world := an_event [person 70; person 71] (person 3) "comment" ref_61 demo_muted.

Lemma demo_steps : rtc (step hour) demo_inbox demo_notified.
Proof.
  eapply rtc_l; [apply (step_request hour demo_inbox true (Prefer (person 2) [("comment_replied"%string, false)]))|].
  eapply rtc_l; [apply (step_event hour demo_muted true true [person 70; person 71] "Name" (person 3) "comment" ref_61)|]. constructor.
Qed.

Lemma inbox_consistent_witness :
  (size (notifications (db demo_notified)) = 2) ∧
  ∀ u ty x, preferences (db demo_notified) !! (u, ty) = Some x → ty ∈ NOTIFICATION_TYPES.
Proof. split; [by vm_compute|]. apply (inbox_consistent hour demo_business 1000), demo_steps. Defined.

Lemma event_notifies_witness :
  (length (recipients (person 3) (business demo_muted) "comment" ref_61) = 2 ∧ (pu_type <$> pushed demo_notified) = ["content_commented"%string]) ∧
  ∃ w', notify_from_point_event hour false true [person 70; person 71] "Name" (person 3) "comment" ref_61 demo_muted = (Raise RuntimeError, w') ∧
    db w' = db demo_muted ∧ pushed w' = pushed demo_muted.
Proof.
  split; [split; by vm_compute|].
  apply (event_notifies hour demo_business 1000 demo_muted true [person 70; person 71] "Name" (person 3) "comment" ref_61).
  - apply rtc_once. apply (step_request hour demo_inbox true (Prefer (person 2) [("comment_replied"%string, false)])).
  - done.
  - by apply (bool_decide_unpack _); vm_compute.
  - intros x _. apply lookup_empty.
Defined.

Lemma channel_roundtrip_witness : parse_channel (ws_channel (person 7) "notify") = Some (person 7, "notify"%string).
Proof. apply channel_roundtrip. by apply (bool_decide_unpack _); vm_compute. Defined.

(** The handler is not idempotent: an event that is delivered again, because the
    worker died before it noted the event as processed, counts twice. *)
Lemma redelivery_counts_twice :
  let w := an_event [person 72] (person 2) "like" ("item:" +:+ uuid_str (person 50)) demo_inbox in
  let w' := an_event [person 73] (person 2) "like" ("item:" +:+ uuid_str (person 50)) w in
  (λ n, count_of (n_payload n)) <$> notifications (db w) !! person 72 = Some 1%Z ∧
  (λ n, count_of (n_payload n)) <$> notifications (db w') !! person 72 = Some 2%Z ∧ length (pushed w') = 2.
Proof. split_and!; by vm_compute. Qed.
