(* ===== verification/Credentials.v ===== *)
(** * Credentials: codes, links, temporary tokens, the second factor

    Model of what else than a password an account is entered with:
    verification codes ([auth/service_verify.py], [auth/channels.py]), magic links
    ([auth/service_auth.py]), temporary tokens, recovery codes and the whole of
    [auth/service_2fa.py] with [auth/router_2fa.py], on the accounts of [Accounts]
    and the sessions of [Sessions] and [Login].

    Parameters: HMAC and SHA-256, the signature of a temporary token, and those of
    [Login]. Fresh random values are arguments.

    Theorems: what is used up stays used up whatever happens next; what a
    verification code and the second factor admit; and that no failure is ever
    counted. *)

From S2P Require Import Prelude Roles Permissions Limiter.
From S2P Require Accounts Sessions Login.

(** ** Tables *)
Inductive channel := EMAIL | PHONE.
#[export] Instance channel_dec : EqDecision channel.
Proof. solve_decision. Defined.

(** [EmailVerification] and [PhoneVerification]; the channel tells the table. *)
Record Verification := MkCode {
  v_channel : channel; v_contact : string; v_code_hash : string; v_purpose : string; v_nonce : string;
  v_expires : Z; v_used : bool; v_failed : Z; v_created : Z
}.

Record MagicLink := MkLink { l_email : string; l_purpose : string; l_expires : Z; l_used : bool }.

Record RecoveryCode := MkRecoveryCode { rc_user : uuid; rc_hash : string; rc_used : bool; rc_failed : Z }.

Record TempTokenUsage := MkUsage { tu_user : uuid; tu_purpose : string; tu_txn : option string; tu_consumed : bool }.

Record SetupTransaction := MkSetup { st_user : uuid; st_consumed : bool; st_expires : Z }.

Record RecoveryTransaction := MkRecovery {
  r_user : uuid; r_contact : string; contact_verified : bool; totp_verified : bool; r_consumed : bool; r_state : string;
  r_expires : Z; completed_at : option Z
}.

(** The tables beside those of [Accounts]; unique columns are keys. *)
Record tables := Tables {
  codes : gmap uuid Verification;
  links : gmap string MagicLink;                    (* by token_hash *)
  recovery_codes : gmap uuid RecoveryCode;
  usages : gmap string TempTokenUsage;              (* by token_hash *)
  setups : gmap string SetupTransaction;            (* by token_hash *)
  recoveries : gmap string RecoveryTransaction;     (* by txn_id *)
  confirmed_saved : gset uuid                       (* TOTP.confirmed_saved *)
}.

Record world := World { acc : Accounts.world; ext : tables }.

Abbreviation M := (prog world err).

Definition set_acc (a : Accounts.world) (w : world) : world := World a (ext w).
Definition set_ext (f : tables → tables) (w : world) : world := World (acc w) (f (ext w)).

Definition set_codes (f : gmap uuid Verification → gmap uuid Verification) : world → world :=
  set_ext (λ d, Tables (f (codes d)) (links d) (recovery_codes d) (usages d) (setups d) (recoveries d) (confirmed_saved d)).
Definition set_links (f : gmap string MagicLink → gmap string MagicLink) : world → world :=
  set_ext (λ d, Tables (codes d) (f (links d)) (recovery_codes d) (usages d) (setups d) (recoveries d) (confirmed_saved d)).
Definition set_recovery_codes (f : gmap uuid RecoveryCode → gmap uuid RecoveryCode) : world → world :=
  set_ext (λ d, Tables (codes d) (links d) (f (recovery_codes d)) (usages d) (setups d) (recoveries d) (confirmed_saved d)).
Definition set_usages (f : gmap string TempTokenUsage → gmap string TempTokenUsage) : world → world :=
  set_ext (λ d, Tables (codes d) (links d) (recovery_codes d) (f (usages d)) (setups d) (recoveries d) (confirmed_saved d)).
Definition set_setups (f : gmap string SetupTransaction → gmap string SetupTransaction) : world → world :=
  set_ext (λ d, Tables (codes d) (links d) (recovery_codes d) (usages d) (f (setups d)) (recoveries d) (confirmed_saved d)).
Definition set_recoveries (f : gmap string RecoveryTransaction → gmap string RecoveryTransaction) : world → world :=
  set_ext (λ d, Tables (codes d) (links d) (recovery_codes d) (usages d) (setups d) (f (recoveries d)) (confirmed_saved d)).
Definition set_confirmed (f : gset uuid → gset uuid) : world → world :=
  set_ext (λ d, Tables (codes d) (links d) (recovery_codes d) (usages d) (setups d) (recoveries d) (f (confirmed_saved d))).

Definition now_of (w : world) : Z := Accounts.clock (acc w).
Definition user_in (u : uuid) (w : world) : option Accounts.User := Accounts.user_of u (acc w).

(** An operation on the accounts. *)
Definition auth {A} (m : Accounts.M A) : M A := zoom acc set_acc m.

(** [get_auth_session], over all the tables. *)
Definition transaction {A} (m : M A) : M A := λ w,
  match m w with
  | (Ok a, w') => (Ok a, w')
  | (Raise e, w') => (Raise e, World (Accounts.set_db (λ _, Accounts.db (acc w)) (acc w')) (ext w))
  end.

(** ** Channels *)
Fixpoint has_at (s : string) : bool :=
  match s with EmptyString => false | String c r => Ascii.eqb "@"%char c || has_at r end.

Definition detect (contact : string) : outcome err channel :=
  if decide (strip contact = ""%string) then Raise INVALID_INPUT else Ok (if has_at contact then EMAIL else PHONE).

Definition channel_name (c : channel) : string := match c with EMAIL => "email" | PHONE => "phone" end.

(** [CHANNELS.get(field)] *)
Definition CHANNELS (field : string) : option channel :=
  dict_get field [("email"%string, EMAIL); ("phone"%string, PHONE)].

Definition normalize (value : string) : string := strip value.

Definition contact_of (c : channel) (x : Accounts.User) : option string :=
  match c with EMAIL => Accounts.email x | PHONE => Accounts.phone x end.

Definition find_user (c : channel) (value : string) (w : world) : option (uuid * Accounts.User) :=
  List.find (λ ux, bool_decide (contact_of c ux.2 = Some value)) (map_to_list (Accounts.users (Accounts.db (acc w)))).

Definition lift {A} (o : outcome err A) : M A := λ w, (o, w).

Definition channel_for (contact : string) : M channel := lift (detect contact).

Section codes.
Context (hmac : string → string).

(** ** Verification codes *)
Definition _CODE_EXPIRE_MINUTES : Z := 10.
Definition _MAX_FAILED_ATTEMPTS : Z := 3.

(** [f"{n:06d}"] of a random number below a million. *)
Definition generate_code (n : N) : string := dec 6 n.

Definition hash_code (raw purpose contact nonce : string) : string :=
  hmac (raw +:+ ":" +:+ purpose +:+ ":" +:+ contact +:+ ":" +:+ nonce)%string.

Definition _create_verification (c : channel) (contact purpose : string) (n : N) (nonce : string) (new : uuid) : M string :=
  w ← get_state;
  let code := generate_code n in
  raise_when (bool_decide (is_Some (codes (ext w) !! new))) IntegrityError ≫= λ _,
  modify (set_codes <[new := MkCode c contact (hash_code code purpose contact nonce) purpose nonce
    (now_of w + _CODE_EXPIRE_MINUTES * Accounts.minutes) false 0 (now_of w)]>) ≫= λ _,
  mret code.

Definition newer (a b : uuid * Verification) : Prop := (v_created b.2 ≤ v_created a.2)%Z.
#[export] Instance newer_dec : RelDecision newer.
Proof. intros a b. unfold newer. apply _. Defined.

(** Of several created in the same instant, any may be returned. *)
Definition _latest_verification (c : channel) (contact purpose : string) (w : world) : option (uuid * Verification) :=
  head (merge_sort newer
    (filter (λ kv, v_channel kv.2 = c ∧ v_contact kv.2 = contact ∧ v_purpose kv.2 = purpose ∧ v_used kv.2 = false)
       (map_to_list (codes (ext w))))).

Definition use_code (v : Verification) : Verification :=
  MkCode (v_channel v) (v_contact v) (v_code_hash v) (v_purpose v) (v_nonce v) (v_expires v) true (v_failed v) (v_created v).

Definition fail_code (v : Verification) : Verification :=
  MkCode (v_channel v) (v_contact v) (v_code_hash v) (v_purpose v) (v_nonce v) (v_expires v) (v_used v) (v_failed v + 1) (v_created v).

(** The failure is counted in a savepoint of the caller's transaction. *)
Definition _consume (record : option (uuid * Verification)) (code : string) : M () :=
  '(k, v) ← get_or_raise record VERIFICATION_CODE_INVALID;
  w ← get_state;
  raise_when (bool_decide (v_expires v ≤ now_of w)%Z) VERIFICATION_CODE_EXPIRED ≫= λ _,
  raise_when (bool_decide (_MAX_FAILED_ATTEMPTS ≤ v_failed v)%Z) VERIFICATION_CODE_INVALID ≫= λ _,
  if negb (bool_decide (v_code_hash v = hash_code code (v_purpose v) (v_contact v) (v_nonce v))) then
    modify (set_codes (alter fail_code k)) ≫= λ _, raise VERIFICATION_CODE_INVALID
  else
    w ← get_state;
    match codes (ext w) !! k with
    | Some v =>
        if v_used v || bool_decide (_MAX_FAILED_ATTEMPTS ≤ v_failed v)%Z || bool_decide (v_expires v ≤ now_of w)%Z
        then raise VERIFICATION_CODE_INVALID
        else modify (set_codes (alter use_code k))
    | None => raise VERIFICATION_CODE_INVALID
    end.

(** [consume_email_code] and [consume_phone_code] *)
Definition consume_code (c : channel) (contact code purpose : string) : M () :=
  found ← gets (_latest_verification c contact purpose);
  _consume found code.
End codes.

(** ** Temporary tokens

    What [security.create_temp_token] signs. *)
Record TempClaims := MkTemp { t_user : uuid; t_type : string; t_purpose : string; t_txn : option string; t_exp : Z }.

Definition _TEMP_TYPE : string := "temp".
Definition _TEMP_EXPIRE_SECONDS : Z := 60.

(** The settings and the answers of the cryptography. [temp_decode now] checks
    the signature, the audience and the expiry. *)
Record Keys := MkKeys {
  hmac : string → string;
  sha256 : string → string;
  temp_encode : TempClaims → string;
  temp_decode : Z → string → option TempClaims
}.

Section credentials.
Context {T : Type} (jwt_encode : Sessions.Claims → T) (ks : Keys) (st : Sessions.Settings) (ls : LoginSettings)
  (fs : Login.Factors).

Definition create_temp_token (u : uuid) (purpose : string) (txn : option string) (now : Z) : string :=
  temp_encode ks (MkTemp u _TEMP_TYPE purpose
    (match txn with Some EmptyString => None | o => o end) (Sessions.seconds_of now + _TEMP_EXPIRE_SECONDS)).

Definition decode_temp_token (now : Z) (token : string) : outcome err TempClaims :=
  match temp_decode ks now token with
  | Some c => if decide (t_type c = _TEMP_TYPE) then Ok c else Raise TOKEN_INVALID
  | None => Raise TOKEN_INVALID
  end.

(** [_decode_temp_token] *)
Definition _decode_temp_token (token : string) : M TempClaims :=
  w ← get_state; lift (decode_temp_token (now_of w) token).

(** The insertion is unique by the hash; a second one is refused. *)
Definition _check_and_consume_temp_token (token : string) (u : uuid) (txn : option string) : M TempClaims :=
  payload ← _decode_temp_token token;
  w ← get_state;
  let h := sha256 ks token in
  raise_when (bool_decide (is_Some (usages (ext w) !! h))) TOKEN_INVALID ≫= λ _,
  modify (set_usages <[h := MkUsage u (t_purpose payload) txn true]>) ≫= λ _,
  mret payload.

(** ** Recovery codes *)
Definition _RECOVERY_MAX_FAILED : Z := 3.

Definition hash_recovery_code (plain : string) : string := hmac ks plain.
Definition legacy_hash_recovery_code (plain : string) : string := sha256 ks plain.

Definition _recovery_candidate_hashes (plain : string) : list string :=
  let h := hash_recovery_code plain in
  let legacy := legacy_hash_recovery_code plain in
  if decide (legacy ≠ h) then [h; legacy] else [h].

Definition unused_of (u : uuid) (c : RecoveryCode) : bool := bool_decide (rc_user c = u) && negb (rc_used c).

(** [max_unused_failed_attempts]; no row gives [None], read as 0. *)
Definition max_unused_failed_attempts (u : uuid) (w : world) : Z :=
  foldr Z.max 0%Z (rc_failed ∘ snd <$> filter (λ kc, unused_of u kc.2) (map_to_list (recovery_codes (ext w)))).

Definition _check_recovery_locked (u : uuid) : M () :=
  w ← get_state;
  raise_when (bool_decide (_RECOVERY_MAX_FAILED ≤ max_unused_failed_attempts u w)%Z) RECOVERY_CODE_INVALID.

Definition set_rc_failed (n : Z) (c : RecoveryCode) : RecoveryCode := MkRecoveryCode (rc_user c) (rc_hash c) (rc_used c) n.
Definition use_rc (c : RecoveryCode) : RecoveryCode := MkRecoveryCode (rc_user c) (rc_hash c) true 0.

(** An [UPDATE] of the rows that satisfy [p]. *)
Definition update_codes (p : RecoveryCode → bool) (f : RecoveryCode → RecoveryCode) : M () :=
  modify (set_recovery_codes (fmap (λ c, if p c then f c else c))).

Definition consumable_code (u : uuid) (hashes : list string) (c : RecoveryCode) : bool :=
  unused_of u c && bool_decide (rc_hash c ∈ hashes).

(** [consume_once]: all matching rows are updated; exactly one is success. *)
Definition consume_recovery_rows (u : uuid) (hashes : list string) : M bool :=
  w ← get_state;
  let n := length (filter (λ kc, consumable_code u hashes kc.2) (map_to_list (recovery_codes (ext w)))) in
  update_codes (consumable_code u hashes) use_rc ≫= λ _,
  mret (bool_decide (n = 1)).

Definition consume_recovery_code (u : uuid) (plain : string) : M () :=
  raise_when (bool_decide (plain = ""%string)) RECOVERY_CODE_INVALID ≫= λ _,
  _check_recovery_locked u ≫= λ _,
  ok ← consume_recovery_rows u (_recovery_candidate_hashes plain);
  if negb ok then
    update_codes (unused_of u) (λ c, set_rc_failed (rc_failed c + 1) c) ≫= λ _, raise RECOVERY_CODE_INVALID
  else update_codes (unused_of u) (set_rc_failed 0).

(** ** The second factor *)
Definition totp_of (u : uuid) (w : world) : option Accounts.TOTP := Accounts.totp (Accounts.db (acc w)) !! u.

Definition get_enabled_totp (u : uuid) (w : world) : option Accounts.TOTP := Login.get_enabled_totp u (acc w).

Definition truthy (s : option string) : option string := match s with Some EmptyString => None | o => o end.

(** [verify_second_factor], with either. *)
Definition verify_second_factor (u : uuid) (code recovery_code : option string) : M () :=
  match truthy recovery_code with
  | Some plain => consume_recovery_code u plain
  | None => auth (Login.verify_second_factor fs u (default ""%string (truthy code)))
  end.

Definition set_counter (n : Z) (t : Accounts.TOTP) : Accounts.TOTP :=
  Accounts.MkTotp (Accounts.secret t) (Accounts.enabled t) (Accounts.failed_attempts t) (Some n).

(** [replay_conditions] *)
Definition fresh_counter (n : Z) (t : Accounts.TOTP) : bool :=
  match Accounts.last_counter t with None => true | Some m => bool_decide (m < n)%Z end.

Definition consume_counter (u : uuid) (n : Z) : M () :=
  w ← get_state;
  match totp_of u w with
  | Some t => if fresh_counter n t then auth (Login.update_totp u (set_counter n)) else raise TOTP_CODE_INVALID
  | None => raise TOTP_CODE_INVALID
  end.

Definition check_totp (u : uuid) (code : string) : M () :=
  found ← gets (get_enabled_totp u);
  t ← get_or_raise found TOTP_NOT_ENABLED;
  counter ← auth (Login._verify_totp_guarded fs u t code);
  consume_counter u counter.

Definition _ALLOWED_PURPOSES : list string := ["2fa"%string; "recovery"%string].

(** The answer of [verify_2fa]. *)
Inductive Verified :=
  | ForRecovery (u : uuid)
  | Session (u : uuid) (access : T) (refresh : string) (trust_device : bool).

Definition verify_2fa (token : string) (code recovery_code : option string) (trust_device : bool) (req : Login.Request)
  : M Verified :=
  payload ← _decode_temp_token token;
  raise_when (negb (bool_decide (t_purpose payload ∈ _ALLOWED_PURPOSES))) TOKEN_INVALID ≫= λ _,
  let u := t_user payload in
  found ← gets (user_in u);
  x ← get_or_raise found USER_NOT_FOUND;
  let trust := if decide (Accounts.account_level x = "admin"%string) then false else trust_device in
  (match truthy recovery_code, truthy code with
   | Some plain, _ => consume_recovery_code u plain
   | None, Some code => check_totp u code
   | None, None => raise TOTP_CODE_INVALID
   end) ≫= λ _,
  _ ← _check_and_consume_temp_token token u (t_txn payload);
  if decide (t_purpose payload = "recovery"%string) then mret (ForRecovery u) else
  '(access, raw) ← auth (Sessions.issue_session_tokens jwt_encode (sha256 ks) st u trust true None None None
      (Login.fresh_token req) (Login.fresh_jti req));
  mret (Session u access raw trust).

(** [router_2fa.verify_2fa]: the bucket is the user the token claims. *)
Definition verify_2fa_route (token : string) (code recovery_code : option string) (trust_device : bool) (req : Login.Request)
  : M Verified :=
  w ← get_state;
  let who := match decode_temp_token (now_of w) token with Ok c => uuid_str (t_user c) | Raise _ => "0"%string end in
  auth (Login.check_code_rate_limit ls req ("2fa:verify:user:" +:+ who)%string 10 (3600 * Accounts.second)) ≫= λ _,
  verify_2fa token code recovery_code trust_device req.

(** ** Setting the second factor up *)
Definition put_totp (u : uuid) (t : Accounts.TOTP) : M () := auth (modify (Accounts.set_totp <[u := t]>)).

(** [stored]: the new secret, as it is stored. *)
Definition setup_2fa_begin (u : uuid) (stored : string) : M () :=
  found ← gets (user_in u);
  x ← get_or_raise found USER_NOT_FOUND;
  raise_when (bool_decide (Accounts.account_level x = "local"%string)) ACCOUNT_LEVEL_INSUFFICIENT ≫= λ _,
  t ← gets (totp_of u);
  raise_when (match t with Some t => Accounts.enabled t | None => false end) TOTP_ALREADY_ENABLED ≫= λ _,
  put_totp u (Accounts.MkTotp stored false 0 (match t with Some t => Accounts.last_counter t | None => None end)) ≫= λ _,
  modify (set_confirmed (λ c, c ∖ {[ u ]})).

Definition add_recovery_code (u : uuid) (kp : uuid * string) : M () :=
  w ← get_state;
  raise_when (bool_decide (is_Some (recovery_codes (ext w) !! kp.1))) IntegrityError ≫= λ _,
  modify (set_recovery_codes <[kp.1 := MkRecoveryCode u (hash_recovery_code kp.2) false 0]>).

Definition enable (t : Accounts.TOTP) : Accounts.TOTP :=
  Accounts.MkTotp (Accounts.secret t) true (Accounts.failed_attempts t) (Accounts.last_counter t).

(** [plains]: the ten new recovery codes with their identifiers. *)
Definition setup_2fa_complete (u : uuid) (code : string) (plains : list (uuid * string)) : M (list string) :=
  found ← gets (totp_of u);
  t ← get_or_raise found TOTP_NOT_ENABLED;
  raise_when (Accounts.enabled t) TOTP_NOT_ENABLED ≫= λ _,
  _ ← auth (Login._verify_totp_guarded fs u t code);
  auth (Login.update_totp u enable) ≫= λ _,
  modify (set_confirmed (λ c, c ∖ {[ u ]})) ≫= λ _,
  for_each plains (add_recovery_code u) ≫= λ _,
  auth (Accounts.log_audit u "2fa_enabled") ≫= λ _,
  mret (snd <$> plains).

Definition confirm_recovery_codes_saved (u : uuid) : M () :=
  t ← gets (totp_of u);
  raise_when (match t with Some t => negb (Accounts.enabled t) | None => true end) TOTP_NOT_ENABLED ≫= λ _,
  modify (set_confirmed (λ c, {[ u ]} ∪ c)) ≫= λ _,
  auth (Accounts.log_audit u "recovery_codes_confirmed").

Definition disable_2fa (u : uuid) (code recovery_code : option string) : M () :=
  t ← gets (totp_of u);
  raise_when (match t with Some t => negb (Accounts.enabled t) | None => true end) TOTP_NOT_ENABLED ≫= λ _,
  verify_second_factor u code recovery_code ≫= λ _,
  auth (Login.update_totp u (λ _, Accounts.MkTotp "" false 0 None)) ≫= λ _,
  modify (set_confirmed (λ c, c ∖ {[ u ]})) ≫= λ _,
  modify (set_recovery_codes (filter (λ kc, rc_user kc.2 ≠ u))) ≫= λ _,
  found ← gets (user_in u);
  auth (Accounts.log_audit u "2fa_disabled") ≫= λ _,
  match found with
  | Some x =>
      if decide (Accounts.account_level x = "admin"%string)
      then auth (Accounts.update_user u (Accounts.set_level "normal")) ≫= λ _, auth (Accounts.log_audit u "level_change")
      else mret tt
  | None => mret tt
  end.

(** [_decode_setup_temp_token] *)
Definition _decode_setup_temp_token (token : string) : M uuid :=
  payload ← _decode_temp_token token;
  raise_when (negb (bool_decide (t_purpose payload = "setup"%string))) TOKEN_INVALID ≫= λ _,
  mret (t_user payload).

Definition setup_2fa_temp (token stored : string) : M () :=
  u ← _decode_setup_temp_token token;
  w ← get_state;
  let h := sha256 ks token in
  raise_when (bool_decide (is_Some (setups (ext w) !! h))) TOKEN_INVALID ≫= λ _,
  modify (set_setups <[h := MkSetup u false (now_of w + 10 * Accounts.minutes)]>) ≫= λ _,
  setup_2fa_begin u stored.

Definition consume_setup_row (t : SetupTransaction) : SetupTransaction := MkSetup (st_user t) true (st_expires t).

Definition consume_setup (h : string) : M SetupTransaction :=
  w ← get_state;
  t ← get_or_raise (setups (ext w) !! h) TOKEN_INVALID;
  raise_when (st_consumed t || bool_decide (st_expires t ≤ now_of w)%Z) TOKEN_INVALID ≫= λ _,
  modify (set_setups (alter consume_setup_row h)) ≫= λ _,
  mret t.

Definition setup_2fa_complete_temp (token code : string) (plains : list (uuid * string)) (req : Login.Request)
  : M (list string * option (T * string)) :=
  u ← _decode_setup_temp_token token;
  t ← consume_setup (sha256 ks token);
  raise_when (bool_decide (st_user t ≠ u)) TOKEN_INVALID ≫= λ _,
  plain ← setup_2fa_complete u code plains;
  found ← gets (user_in u);
  match found with
  | Some _ =>
      tokens ← auth (Sessions.issue_session_tokens jwt_encode (sha256 ks) st u false true None None None
                       (Login.fresh_token req) (Login.fresh_jti req));
      mret (plain, Some tokens)
  | None => mret (plain, None)
  end.

(** ** Magic links *)
Definition request_magic_link (email purpose raw : string) (req : Login.Request) : M () :=
  auth (Login.check_code_rate_limit ls req ("magiclink:" +:+ normalize email +:+ ":" +:+ purpose)%string 5
          (3600 * Accounts.second)) ≫= λ _,
  w ← get_state;
  match find_user EMAIL email w with
  | None => mret tt
  | Some (_, x) =>
      if decide (Accounts.account_level x = "local"%string) then mret tt else
      raise_when (bool_decide (is_Some (links (ext w) !! sha256 ks raw))) IntegrityError ≫= λ _,
      modify (set_links <[sha256 ks raw := MkLink email purpose (now_of w + 15 * Accounts.minutes) false]>)
  end.

Definition use_link (l : MagicLink) : MagicLink := MkLink (l_email l) (l_purpose l) (l_expires l) true.

(** [consume_once], and why it failed. *)
Definition consume_link (h purpose : string) : M MagicLink :=
  w ← get_state;
  l ← get_or_raise (links (ext w) !! h) TOKEN_INVALID;
  raise_when (negb (bool_decide (l_purpose l = purpose))) TOKEN_INVALID ≫= λ _,
  raise_when (l_used l) TOKEN_INVALID ≫= λ _,
  raise_when (bool_decide (l_expires l ≤ now_of w)%Z) TOKEN_EXPIRED ≫= λ _,
  modify (set_links (alter use_link h)) ≫= λ _,
  mret l.

(** The answer for [purpose = "reset"] is the user, otherwise a session. *)
Definition verify_magic_link (token purpose : string) (req : Login.Request) : M (uuid + Login.AuthResponse (T:=T)) :=
  l ← consume_link (sha256 ks token) purpose;
  found ← gets (find_user EMAIL (l_email l));
  '(u, x) ← get_or_raise found USER_NOT_FOUND;
  raise_when (bool_decide (Accounts.account_level x = "local"%string)) ACCOUNT_LEVEL_INSUFFICIENT ≫= λ _,
  w ← get_state;
  raise_when (bool_decide (Accounts.account_level x = "admin"%string) && negb (Login.totp_enabled u (acc w)))
    TOTP_SETUP_REQUIRED ≫= λ _,
  if decide (purpose = "reset"%string) then mret (inl u) else
  r ← auth (Login._create_auth_response jwt_encode (sha256 ks) st u req);
  mret (inr r).

Definition magic_link_verify_route (token : string) (req : Login.Request) : M (uuid + Login.AuthResponse (T:=T)) :=
  auth (Login.check_code_rate_limit ls req "magic-link:verify:global" 10 (3600 * Accounts.second)) ≫= λ _,
  verify_magic_link token "login" req.

(** ** Logging in by a code *)
Definition login_code_request (contact : string) (n : N) (nonce : string) (new : uuid) (req : Login.Request)
  : M (option string) :=
  auth (Login.check_code_rate_limit ls req ("login:code:" +:+ contact)%string 5 (3600 * Accounts.second)) ≫= λ _,
  c ← channel_for contact;
  found ← gets (find_user c contact);
  match found with
  | None => mret None
  | Some (_, x) =>
      if decide (Accounts.account_level x = "local"%string) then mret None else
      code ← _create_verification (hmac ks) c contact "login" n nonce new;
      mret (Some code)
  end.

Definition login_code (contact code : string) (req : Login.Request) : M (Login.AuthResponse (T:=T)) :=
  c ← channel_for contact;
  consume_code (hmac ks) c contact code "login" ≫= λ _,
  found ← gets (find_user c (normalize contact));
  '(u, x) ← get_or_raise found USER_NOT_FOUND;
  raise_when (bool_decide (Accounts.account_level x = "local"%string)) ACCOUNT_LEVEL_INSUFFICIENT ≫= λ _,
  (if Accounts.is_locked x
   then auth (Accounts._check_account_locked u) ≫= λ _, auth (Accounts.emit (Accounts.UserUpdated u))
   else mret tt) ≫= λ _,
  auth (Accounts.assert_admission_allowed x) ≫= λ _,
  auth (Login.finalize_auth_response jwt_encode (sha256 ks) st u req).

Definition login_code_route (contact code : string) (req : Login.Request) : M (Login.AuthResponse (T:=T)) :=
  auth (Login.check_code_rate_limit ls req ("login:code:verify:" +:+ contact)%string 5 (3600 * Accounts.second)) ≫= λ _,
  login_code contact code req.
End credentials.

(** ** What never goes back

    Rows stay, keep their terms, and what is used, consumed or verified stays so. *)
Definition evolves {K A} `{Countable K} (R : A → A → Prop) (m m' : gmap K A) : Prop :=
  ∀ k a, m !! k = Some a → ∃ a', m' !! k = Some a' ∧ R a a'.

Lemma evolves_refl {K A} `{Countable K} (R : A → A → Prop) `{!Reflexive R} (m : gmap K A) : evolves R m m.
Proof. intros k a Hk. by exists a. Qed.

Lemma evolves_trans {K A} `{Countable K} (R : A → A → Prop) `{!Transitive R} (m1 m2 m3 : gmap K A) :
  evolves R m1 m2 → evolves R m2 m3 → evolves R m1 m3.
Proof.
  intros H12 H23 k a Hk. destruct (H12 k a Hk) as (b & Hb & H1). destruct (H23 k b Hb) as (c & Hc & H2).
  exists c. split; [done|]. by etrans.
Qed.

Lemma evolves_insert {K A} `{Countable K} (R : A → A → Prop) `{!Reflexive R} (m : gmap K A) k a :
  m !! k = None → evolves R m (<[k := a]> m).
Proof. intros Hn j b Hj. exists b. rewrite lookup_insert_ne by congruence. done. Qed.

Lemma evolves_alter {K A} `{Countable K} (R : A → A → Prop) `{!Reflexive R} (m : gmap K A) k f :
  (∀ a, R a (f a)) → evolves R m (alter f k m).
Proof.
  intros Hf j b Hj. destruct (decide (j = k)) as [->|Hne].
  - exists (f b). by rewrite lookup_alter_eq, Hj.
  - exists b. by rewrite lookup_alter_ne.
Qed.

Definition code_later (v v' : Verification) : Prop :=
  (v_channel v', v_contact v', v_code_hash v', v_purpose v', v_nonce v', v_expires v', v_created v')
  = (v_channel v, v_contact v, v_code_hash v, v_purpose v, v_nonce v, v_expires v, v_created v)
  ∧ (v_used v = true → v_used v' = true).

Definition link_later (l l' : MagicLink) : Prop :=
  (l_email l', l_purpose l', l_expires l') = (l_email l, l_purpose l, l_expires l) ∧ (l_used l = true → l_used l' = true).

Definition setup_later (t t' : SetupTransaction) : Prop :=
  (st_user t', st_expires t') = (st_user t, st_expires t) ∧ (st_consumed t = true → st_consumed t' = true).

Definition recovery_later (r r' : RecoveryTransaction) : Prop :=
  (r_user r', r_contact r', r_expires r') = (r_user r, r_contact r, r_expires r)
  ∧ (contact_verified r = true → contact_verified r' = true) ∧ (totp_verified r = true → totp_verified r' = true)
  ∧ (r_consumed r = true → r_consumed r' = true).

Ltac later_preorder :=
  unfold code_later, link_later, setup_later, recovery_later; split;
  [intros ?; simpl; split_and!; auto|intros [] [] []; simpl; intros; destruct_and!; simplify_eq; split_and!; auto].

#[export] Instance code_later_preorder : PreOrder code_later.
Proof. later_preorder. Qed.
#[export] Instance link_later_preorder : PreOrder link_later.
Proof. later_preorder. Qed.
#[export] Instance setup_later_preorder : PreOrder setup_later.
Proof. later_preorder. Qed.
#[export] Instance recovery_later_preorder : PreOrder recovery_later.
Proof. later_preorder. Qed.

#[local] Existing Instance Accounts.later_preorder.

Record grows (w w' : world) : Prop := {
  g_acc : Accounts.later (acc w) (acc w');
  g_codes : evolves code_later (codes (ext w)) (codes (ext w'));
  g_links : evolves link_later (links (ext w)) (links (ext w'));
  g_usages : evolves eq (usages (ext w)) (usages (ext w'));
  g_setups : evolves setup_later (setups (ext w)) (setups (ext w'));
  g_recoveries : evolves recovery_later (recoveries (ext w)) (recoveries (ext w'))
}.

#[export] Instance grows_preorder : PreOrder grows.
Proof.
  split.
  - intros w. split; [done|apply evolves_refl; apply _..].
  - intros a b c [] []. split; [by etrans|by eapply evolves_trans; [apply _| |]..].
Qed.

(** A step that changes one table. *)
Lemma grows_ext f (w : world) :
  evolves code_later (codes (ext w)) (codes (f (ext w))) →
  evolves link_later (links (ext w)) (links (f (ext w))) →
  evolves eq (usages (ext w)) (usages (f (ext w))) →
  evolves setup_later (setups (ext w)) (setups (f (ext w))) →
  evolves recovery_later (recoveries (ext w)) (recoveries (f (ext w))) →
  grows w (set_ext f w).
Proof. intros. by split. Qed.

Ltac grows_one :=
  apply grows_ext; simpl; first [ by apply evolves_refl; apply _ | idtac ].

Lemma grows_code_alter f k w : (∀ v, code_later v (f v)) → grows w (set_codes (alter f k) w).
Proof. intros Hf. grows_one. apply evolves_alter; [apply _|done]. Qed.

Lemma grows_link_alter f k w : (∀ v, link_later v (f v)) → grows w (set_links (alter f k) w).
Proof. intros Hf. grows_one. apply evolves_alter; [apply _|done]. Qed.

Lemma grows_setup_alter f k w : (∀ v, setup_later v (f v)) → grows w (set_setups (alter f k) w).
Proof. intros Hf. grows_one. apply evolves_alter; [apply _|done]. Qed.

Lemma grows_recovery_alter f k w : (∀ v, recovery_later v (f v)) → grows w (set_recoveries (alter f k) w).
Proof. intros Hf. grows_one. apply evolves_alter; [apply _|done]. Qed.

Lemma grows_code_new k v w : codes (ext w) !! k = None → grows w (set_codes <[k := v]> w).
Proof. intros Hn. grows_one. apply evolves_insert; [apply _|done]. Qed.

Lemma grows_link_new k v w : links (ext w) !! k = None → grows w (set_links <[k := v]> w).
Proof. intros Hn. grows_one. apply evolves_insert; [apply _|done]. Qed.

Lemma grows_usage_new k v w : usages (ext w) !! k = None → grows w (set_usages <[k := v]> w).
Proof. intros Hn. grows_one. apply evolves_insert; [apply _|done]. Qed.

Lemma grows_setup_new k v w : setups (ext w) !! k = None → grows w (set_setups <[k := v]> w).
Proof. intros Hn. grows_one. apply evolves_insert; [apply _|done]. Qed.

Lemma grows_recovery_new k v w : recoveries (ext w) !! k = None → grows w (set_recoveries <[k := v]> w).
Proof. intros Hn. grows_one. apply evolves_insert; [apply _|done]. Qed.

Lemma grows_rest f w : codes (f (ext w)) = codes (ext w) → links (f (ext w)) = links (ext w) → usages (f (ext w)) = usages (ext w) →
  setups (f (ext w)) = setups (ext w) → recoveries (f (ext w)) = recoveries (ext w) → grows w (set_ext f w).
Proof. intros H1 H2 H3 H4 H5. apply grows_ext; rewrite ?H1, ?H2, ?H3, ?H4, ?H5; apply evolves_refl; apply _. Qed.

Lemma respects_auth {A} (m : Accounts.M A) : respects Accounts.later m → respects grows (auth m).
Proof.
  intros Hm w. unfold auth, zoom. specialize (Hm (acc w)). destruct (m (acc w)) as [o a]. simpl in *.
  split; [done|apply evolves_refl; apply _..].
Qed.

Lemma grows_lift {A} (o : outcome err A) : respects grows (lift o).
Proof. by intros w. Qed.

Lemma grows_transaction {A} (m : M A) : respects grows m → respects grows (transaction m).
Proof.
  intros Hm w. specialize (Hm w). unfold transaction. destruct (m w) as [[a|e] w'] eqn:He; simpl in *; [done|].
  split; [|apply evolves_refl; apply _..]. destruct Hm as [[Hc _ _] _ _ _ _ _].
  split; [done|eauto with lia|]. intros h t Ht. exists t. by repeat split.
Qed.

(** Running a step that is refused when its row exists. *)
Ltac grows_new H := apply respects_state; intros ?; cbv zeta; rewrite ?bind_assoc, run_raise_when;
  case_bool_decide as H; [done|]; apply eq_None_not_Some in H; rewrite ?run_modify.

#[local] Hint Extern 2 (respects grows (auth _)) => apply respects_auth : respects.
#[local] Hint Resolve grows_lift grows_transaction : respects.
#[local] Hint Resolve Accounts.respects_emit Accounts.respects_audit Accounts.respects_set_role Accounts.respects_bump
  Accounts.respects_check_locked Accounts.respects_admission Accounts.respects_revoke_refresh Login.respects_rate
  Login.respects_update_totp Sessions.respects_issue Sessions.respects_reset : respects.
#[local] Hint Extern 2 (respects Accounts.later (Accounts.update_user _ _)) =>
  apply Accounts.respects_update_user; intros ?; simpl; lia : respects.

Section growing.
Context {T : Type} (jwt_encode : Sessions.Claims → T) (ks : Keys) (st : Sessions.Settings) (ls : LoginSettings)
  (fs : Login.Factors).

Lemma respects_guarded u t code : respects Accounts.later (Login._verify_totp_guarded fs u t code).
Proof. unfold Login._verify_totp_guarded. respects. Qed.
#[local] Hint Resolve respects_guarded : respects.

Lemma respects_factor u code : respects Accounts.later (Login.verify_second_factor fs u code).
Proof. unfold Login.verify_second_factor. respects. Qed.

Lemma respects_response u req : respects Accounts.later (Login._create_auth_response jwt_encode (sha256 ks) st u req).
Proof. unfold Login._create_auth_response. respects. Qed.
#[local] Hint Resolve respects_factor respects_response : respects.

Lemma respects_finalize u req : respects Accounts.later (Login.finalize_auth_response jwt_encode (sha256 ks) st u req).
Proof. unfold Login.finalize_auth_response. respects. Qed.
#[local] Hint Resolve respects_finalize : respects.

Lemma grows_create c contact p n nonce new : respects grows (_create_verification (hmac ks) c contact p n nonce new).
Proof. unfold _create_verification. grows_new Hn. by apply grows_code_new. Qed.

Lemma grows_consume c contact code p : respects grows (consume_code (hmac ks) c contact code p).
Proof.
  assert (Hf : respects grows (A:=()) (raise VERIFICATION_CODE_INVALID)) by (apply respects_raise; apply _).
  unfold consume_code, _consume. respects.
  all: apply respects_modify; intros w; apply grows_code_alter; intros ?; by split.
Qed.

Lemma grows_temp_token token : respects grows (_decode_temp_token ks token).
Proof. unfold _decode_temp_token. respects. Qed.
#[local] Hint Resolve grows_create grows_consume grows_temp_token : respects.

Lemma grows_check_and_consume token u txn : respects grows (_check_and_consume_temp_token ks token u txn).
Proof. unfold _check_and_consume_temp_token. respects_step; [auto with respects|]. grows_new Hn. by apply grows_usage_new. Qed.

Lemma grows_recovery_rows p f : respects grows (update_codes p f).
Proof. apply respects_modify. intros w. by apply grows_rest. Qed.
#[local] Hint Resolve grows_check_and_consume grows_recovery_rows : respects.

Lemma grows_recovery_code u plain : respects grows (consume_recovery_code ks u plain).
Proof. unfold consume_recovery_code, _check_recovery_locked, consume_recovery_rows. respects. Qed.

Lemma grows_check_totp u code : respects grows (check_totp fs u code).
Proof. unfold check_totp, consume_counter. respects. Qed.
#[local] Hint Resolve grows_recovery_code grows_check_totp : respects.

Lemma grows_second_factor u code rc : respects grows (verify_second_factor ks fs u code rc).
Proof. unfold verify_second_factor. respects. Qed.
#[local] Hint Resolve grows_second_factor : respects.

Lemma grows_verify_2fa token code rc trust req : respects grows (verify_2fa jwt_encode ks st fs token code rc trust req).
Proof. unfold verify_2fa. respects. Qed.
#[local] Hint Resolve grows_verify_2fa : respects.

Lemma grows_verify_2fa_route token code rc trust req : respects grows (verify_2fa_route jwt_encode ks st ls fs token code rc trust req).
Proof. unfold verify_2fa_route. respects. Qed.

Lemma grows_confirmed f : respects (E:=err) grows (modify (set_confirmed f)).
Proof. apply respects_modify. intros w. by apply grows_rest. Qed.

Lemma grows_put u t : respects grows (put_totp u t).
Proof. unfold put_totp. apply respects_auth, respects_modify. intros w. by apply Accounts.later_same. Qed.
#[local] Hint Resolve grows_confirmed grows_put : respects.

Lemma grows_setup_begin u s : respects grows (setup_2fa_begin u s).
Proof. unfold setup_2fa_begin. respects. Qed.

Lemma grows_add_code u kp : respects grows (add_recovery_code ks u kp).
Proof. unfold add_recovery_code. grows_new Hn. by apply grows_rest. Qed.

Lemma grows_for_each {A} (l : list A) (body : A → M ()) : (∀ a, respects grows (body a)) → respects grows (for_each l body).
Proof. intros Hb. induction l as [|a l IH]; simpl; respects. Qed.
#[local] Hint Resolve grows_setup_begin grows_add_code grows_for_each : respects.

Lemma grows_setup_complete u code plains : respects grows (setup_2fa_complete ks fs u code plains).
Proof. unfold setup_2fa_complete. respects. Qed.
#[local] Hint Resolve grows_setup_complete : respects.

Lemma grows_confirm u : respects grows (confirm_recovery_codes_saved u).
Proof. unfold confirm_recovery_codes_saved. respects. Qed.

Lemma grows_disable u code rc : respects grows (disable_2fa ks fs u code rc).
Proof. unfold disable_2fa. respects. apply respects_modify. intros w. by apply grows_rest. Qed.

Lemma grows_setup_token token : respects grows (_decode_setup_temp_token ks token).
Proof. unfold _decode_setup_temp_token. respects. Qed.
#[local] Hint Resolve grows_setup_token : respects.

Lemma grows_setup_temp token s : respects grows (setup_2fa_temp ks token s).
Proof.
  unfold setup_2fa_temp. respects_step; [auto with respects|]. grows_new Hn.
  etrans; [by apply grows_setup_new|]. apply grows_setup_begin.
Qed.

Lemma grows_consume_setup h : respects grows (consume_setup h).
Proof. unfold consume_setup. respects. apply respects_modify. intros w. apply grows_setup_alter. intros v. by split. Qed.
#[local] Hint Resolve grows_consume_setup : respects.

Lemma grows_setup_complete_temp token code plains req :
  respects grows (setup_2fa_complete_temp jwt_encode ks st fs token code plains req).
Proof. unfold setup_2fa_complete_temp. respects. Qed.

Lemma grows_request_link email p raw req : respects grows (request_magic_link ks ls email p raw req).
Proof.
  unfold request_magic_link. respects_step; [auto with respects|]. apply respects_state. intros w.
  destruct (find_user EMAIL email w) as [[u x]|]; [|done]. case_decide; [done|]. rewrite run_raise_when.
  case_bool_decide as Hn; [done|]. apply eq_None_not_Some in Hn. by apply grows_link_new.
Qed.

Lemma grows_consume_link h p : respects grows (consume_link h p).
Proof. unfold consume_link. respects. apply respects_modify. intros w. apply grows_link_alter. intros v. by split. Qed.
#[local] Hint Resolve grows_consume_link : respects.

Lemma grows_verify_link token p req : respects grows (verify_magic_link jwt_encode ks st token p req).
Proof. unfold verify_magic_link. respects. Qed.
#[local] Hint Resolve grows_verify_link : respects.

Lemma grows_verify_link_route token req : respects grows (magic_link_verify_route jwt_encode ks st ls token req).
Proof. unfold magic_link_verify_route. respects. Qed.

Lemma grows_login_request contact n nonce new req : respects grows (login_code_request ks ls contact n nonce new req).
Proof. unfold login_code_request, channel_for. respects. Qed.

Lemma grows_login_code contact code req : respects grows (login_code jwt_encode ks st contact code req).
Proof. unfold login_code, channel_for. respects. Qed.
#[local] Hint Resolve grows_login_code : respects.

Lemma grows_login_code_route contact code req : respects grows (login_code_route jwt_encode ks st ls contact code req).
Proof. unfold login_code_route. respects. Qed.
End growing.

(** ** Verification codes *)
Definition at_time (t : Z) (w : world) : world := set_acc (Login.at_time t (acc w)) w.

Lemma head_merge_newest l k v : head (merge_sort newer l) = Some (k, v) →
  (k, v) ∈ l ∧ ∀ k' v', (k', v') ∈ l → (v_created v' ≤ v_created v)%Z.
Proof.
  assert (Ht : Transitive newer) by (intros ???; unfold newer; lia).
  assert (Hl : ∀ a b, newer a b ∨ newer b a) by (intros; unfold newer; lia).
  pose proof (@StronglySorted_merge_sort _ newer _ Ht Hl l) as Hs. pose proof (merge_sort_Permutation newer l) as Hp.
  destruct (merge_sort newer l) as [|[k0 v0] r]; [done|]. intros [= -> ->]. split.
  - rewrite <- Hp. by left.
  - intros k' v' Hin. rewrite <- Hp in Hin. apply elem_of_cons in Hin as [[= -> ->]|Hin]; [done|].
    inversion Hs as [|?? _ Hf]. rewrite Forall_forall in Hf. by apply (Hf (k', v')).
Qed.

Definition open_code (c : channel) (contact p : string) (v : Verification) : Prop :=
  v_channel v = c ∧ v_contact v = contact ∧ v_purpose v = p ∧ v_used v = false.

(** The record that counts: unused, and none of its kind is younger. *)
Lemma latest_some c contact p w k v : _latest_verification c contact p w = Some (k, v) →
  codes (ext w) !! k = Some v ∧ open_code c contact p v
  ∧ ∀ k' v', codes (ext w) !! k' = Some v' → open_code c contact p v' → (v_created v' ≤ v_created v)%Z.
Proof.
  unfold _latest_verification. intros H. apply head_merge_newest in H as [Hin Hnew].
  apply list_elem_of_filter in Hin as [Ho Hin]. apply elem_of_map_to_list in Hin. split_and!; [done..|].
  intros k' v' Hk Ho'. apply (Hnew k'). apply list_elem_of_filter. split; [done|]. by apply elem_of_map_to_list.
Qed.

Lemma latest_none c contact p w : _latest_verification c contact p w = None →
  ∀ k v, codes (ext w) !! k = Some v → ¬ open_code c contact p v.
Proof.
  unfold _latest_verification. intros H k v Hk Ho.
  set (l := filter _ _) in H. pose proof (merge_sort_Permutation newer l) as Hp.
  destruct (merge_sort newer l); [|done]. apply Permutation_nil in Hp.
  assert (Hin : (k, v) ∈ l) by (apply list_elem_of_filter; split; [done|by apply elem_of_map_to_list]).
  rewrite Hp in Hin. by apply elem_of_nil in Hin.
Qed.

(** What stands in the way of a code. *)
Definition code_refusal (hmac : string → string) (code : string) (now : Z) (found : option (uuid * Verification)) : option err :=
  match found with
  | None => Some VERIFICATION_CODE_INVALID
  | Some (_, v) =>
      if decide (v_expires v ≤ now)%Z then Some VERIFICATION_CODE_EXPIRED else
      if decide (_MAX_FAILED_ATTEMPTS ≤ v_failed v)%Z then Some VERIFICATION_CODE_INVALID else
      if decide (v_code_hash v = hash_code hmac code (v_purpose v) (v_contact v) (v_nonce v)) then None
      else Some VERIFICATION_CODE_INVALID
  end.

Lemma set_db_same (a : Accounts.world) : Accounts.set_db (λ _, Accounts.db a) a = a.
Proof. by destruct a. Qed.

Lemma consume_run hmac c contact code p w :
  let found := _latest_verification c contact p w in
  match code_refusal hmac code (now_of w) found with
  | Some e => transaction (consume_code hmac c contact code p) w = (Raise e, w)
  | None => ∃ k v, found = Some (k, v) ∧ consume_code hmac c contact code p w = (Ok tt, set_codes (alter use_code k) w)
  end.
Proof.
  cbv zeta. unfold transaction, consume_code, _consume. rewrite run_gets. destruct (_latest_verification c contact p w) as [[k v]|] eqn:Hl.
  2: { unfold code_refusal. rewrite run_get_or_raise, set_db_same. by destruct w. }
  apply latest_some in Hl as (Hk & (_ & _ & _ & Hu) & _).
  rewrite !run_get_or_raise, !run_get_state, !run_raise_when. unfold code_refusal. rewrite (bool_decide_decide (v_expires v ≤ now_of w)%Z).
  destruct (decide (v_expires v ≤ now_of w)%Z) as [He|He]. { rewrite set_db_same. by destruct w. }
  rewrite (bool_decide_decide (_MAX_FAILED_ATTEMPTS ≤ v_failed v)%Z).
  destruct (decide (_MAX_FAILED_ATTEMPTS ≤ v_failed v)%Z) as [Hf|Hf]. { rewrite set_db_same. by destruct w. }
  rewrite bool_decide_decide. destruct (decide (v_code_hash v = _)) as [Hh|Hh]; simpl.
  - exists k, v. split; [done|]. rewrite run_get_state, Hk, Hu, (bool_decide_eq_false_2 _ He), (bool_decide_eq_false_2 _ Hf). done.
  - rewrite set_db_same. by destruct w.
Qed.

Lemma hash_code_inj hmac (Hinj : ∀ a b, hmac a = hmac b → a = b) a b p contact nonce :
  hash_code hmac a p contact nonce = hash_code hmac b p contact nonce → a = b.
Proof.
  intros H%Hinj. enough (Hc : ∀ s t u : string, (s +:+ u = t +:+ u)%string → s = t) by (by eapply Hc).
  intros s t u Hst. apply (append_inj s u t u); [|exact Hst].
  apply (f_equal String.length) in Hst. rewrite !string_length_app in Hst. lia.
Qed.

(** The last code sent is the one that counts. *)
Lemma sent_latest hmac c contact p n nonce new w sent w1 t :
  _create_verification hmac c contact p n nonce new w = (Ok sent, w1) →
  (∀ k v, codes (ext w) !! k = Some v → (v_created v < now_of w)%Z) →
  ∃ v, _latest_verification c contact p (at_time t w1) = Some (new, v) ∧ sent = generate_code n
    ∧ v_failed v = 0%Z ∧ v_expires v = (now_of w + _CODE_EXPIRE_MINUTES * Accounts.minutes)%Z
    ∧ ∀ g, v_code_hash v = hash_code hmac g (v_purpose v) (v_contact v) (v_nonce v)
        ↔ hash_code hmac sent p contact nonce = hash_code hmac g p contact nonce.
Proof.
  unfold _create_verification. cbv zeta. rewrite run_get_state. rewrite run_raise_when. case_bool_decide as Hn; [done|].
  rewrite run_modify. intros [= <- <-] Hold. set (v := MkCode _ _ _ _ _ _ _ _ _). exists v.
  split_and!; [|done..]. apply eq_None_not_Some in Hn.
  destruct (_latest_verification c contact p _) as [[k v']|] eqn:Hl.
  - apply latest_some in Hl as (Hk & Ho & Hnew). cbn in Hk. destruct (decide (k = new)) as [->|Hne].
    { rewrite lookup_insert_eq in Hk. by injection Hk as <-. }
    rewrite lookup_insert_ne in Hk by done. apply Hold in Hk.
    assert (Hv : (v_created v ≤ v_created v')%Z).
    { apply (Hnew new); [cbn; by rewrite lookup_insert_eq|done]. }
    simpl in Hv. lia.
  - exfalso. apply (latest_none _ _ _ _ Hl new v); [cbn; by rewrite lookup_insert_eq|done].
Qed.

(** C32: Sent codes: until it expires, the last code sent to an address is accepted
    and used up, any other is refused; and however many wrong codes are tried
    before, each in a request of its own, nothing is counted and the right one is
    still accepted. *)
Theorem sent_code_accepted hmac (Hinj : ∀ a b, hmac a = hmac b → a = b) c contact p n nonce new w sent w1 t guesses
    (Hsent : _create_verification hmac c contact p n nonce new w = (Ok sent, w1))
    (Hlast : ∀ k v, codes (ext w) !! k = Some v → (v_created v < now_of w)%Z)
    (Htime : (t < now_of w + _CODE_EXPIRE_MINUTES * Accounts.minutes)%Z)
    (Hwrong : ∀ g, g ∈ guesses → g ≠ sent) :
  let w2 := at_time t w1 in
  let try g := transaction (consume_code hmac c contact g p) in
  (∀ g, g ∈ guesses → try g w2 = (Raise VERIFICATION_CODE_INVALID, w2))
  ∧ foldl (λ w g, (try g w).2) w2 guesses = w2
  ∧ ∃ v, codes (ext w2) !! new = Some v ∧ v_used v = false
      ∧ try sent w2 = (Ok tt, set_codes <[new := use_code v]> w2).
Proof.
  cbv zeta. destruct (sent_latest hmac c contact p n nonce new w sent w1 t Hsent Hlast) as (v & Hl & _ & Hf & He & Hh).
  assert (Hnow : now_of (at_time t w1) = t) by done.
  assert (Href : ∀ g, code_refusal hmac g t (Some (new, v)) = if decide (g = sent) then None else Some VERIFICATION_CODE_INVALID).
  { intros g. unfold code_refusal. rewrite He, Hf. rewrite decide_False by lia. rewrite decide_False by (unfold _MAX_FAILED_ATTEMPTS; lia).
    apply decide_ext. rewrite Hh. split; [|by intros ->]. intros H. symmetry. by eapply hash_code_inj. }
  assert (Hg : ∀ g, g ∈ guesses → transaction (consume_code hmac c contact g p) (at_time t w1) = (Raise VERIFICATION_CODE_INVALID, at_time t w1)).
  { intros g Hin. pose proof (consume_run hmac c contact g p (at_time t w1)) as H. cbv zeta in H.
    rewrite Hl, Hnow, Href, decide_False in H by auto. done. }
  split_and!; [done| |].
  - clear Hwrong. revert Hg. induction guesses as [|g gs IH]; simpl; [done|]. intros Hg.
    rewrite Hg by set_solver. apply IH. set_solver.
  - pose proof (latest_some _ _ _ _ _ _ Hl) as (Hk & (_ & _ & _ & Hu) & _). exists v. split_and!; [done..|].
    pose proof (consume_run hmac c contact sent p (at_time t w1)) as H. cbv zeta in H.
    rewrite Hl, Hnow, Href, decide_True in H by done. destruct H as (k & v' & [= <- <-] & H).
    unfold transaction. rewrite H. unfold set_codes, set_ext. by rewrite (alter_as_insert use_code _ _ v Hk).
Qed.

(** ** What leaves the second factors alone *)
Definition same_totp (a a' : Accounts.world) : Prop :=
  Accounts.totp (Accounts.db a') = Accounts.totp (Accounts.db a) ∧ Accounts.clock a' = Accounts.clock a.

#[export] Instance same_totp_preorder : PreOrder same_totp.
Proof. split; [by intros a|]. intros a b c [H1 C1] [H2 C2]. split; congruence. Qed.

#[local] Hint Extern 1 (respects same_totp (modify _)) => apply respects_modify; intros; split; reflexivity : respects.
#[local] Hint Extern 1 (respects same_totp (Accounts.log_audit _ _)) => apply respects_modify; intros; split; reflexivity : respects.
#[local] Hint Extern 1 (respects same_totp (Accounts.emit _)) => apply respects_modify; intros; split; reflexivity : respects.
#[local] Hint Extern 1 (respects same_totp (Accounts.update_user _ _)) => apply respects_modify; intros; split; reflexivity : respects.

Section same_totp.
Context {T : Type} (jwt_encode : Sessions.Claims → T) (ks : Keys) (st : Sessions.Settings) (ls : LoginSettings)
  (fs : Login.Factors).

Lemma same_totp_clear u : respects same_totp (Accounts.clear_expired_lock u).
Proof. unfold Accounts.clear_expired_lock. respects. Qed.
#[local] Hint Resolve same_totp_clear : respects.

Lemma same_totp_locked u : respects same_totp (Accounts._check_account_locked u).
Proof. unfold Accounts._check_account_locked. respects. Qed.

Lemma same_totp_admission x : respects same_totp (Accounts.assert_admission_allowed x).
Proof. unfold Accounts.assert_admission_allowed. respects. Qed.
#[local] Hint Resolve same_totp_locked same_totp_admission : respects.

Lemma same_totp_rate req k n wd : respects same_totp (Login.check_code_rate_limit ls req k n wd).
Proof.
  unfold Login.check_code_rate_limit. case_decide; [by respects|]. apply respects_bind; [apply _|by respects|]. intros w.
  apply respects_bind; [apply _| |intros ?; by respects]. intros v. unfold zoom. by destruct (Limiter.check _ _ _ _ _ _ _ _).
Qed.

Lemma same_totp_issue u td m a s e raw j : respects same_totp (Sessions.issue_session_tokens jwt_encode (sha256 ks) st u td m a s e raw j).
Proof. unfold Sessions.issue_session_tokens, Sessions.session_roles, Sessions.store_refresh_token. cbv zeta. respects. Qed.
#[local] Hint Resolve same_totp_issue : respects.

Lemma same_totp_finalize u req : respects same_totp (Login.finalize_auth_response jwt_encode (sha256 ks) st u req).
Proof. unfold Login.finalize_auth_response, Login._create_auth_response. respects. Qed.

Lemma same_totp_response u req : respects same_totp (Login._create_auth_response jwt_encode (sha256 ks) st u req).
Proof. unfold Login._create_auth_response. respects. Qed.

Lemma same_totp_reset u h c : respects same_totp (Sessions._reset_password u h c).
Proof.
  unfold Sessions._reset_password, Accounts.revoke_all_refresh_tokens, Accounts.revoke_all_for_user, Accounts.bump_token_version,
    Accounts.set_token_version. respects.
  all: destruct c; by respects.
Qed.
End same_totp.

(** An operation on the accounts that leaves the second factors alone. *)
Lemma wp_auth_same {A} (m : Accounts.M A) (Q : A → world → Prop) R w :
  respects same_totp m →
  (∀ o a', m (acc w) = (o, a') → same_totp (acc w) a' →
     match o with Ok a => Q a (set_acc a' w) | Raise e => R e (set_acc a' w) end) →
  wp (auth m) Q R w.
Proof.
  intros Hm H. unfold wp, auth, zoom. pose proof (Hm (acc w)) as Hs. destruct (m (acc w)) as [o a'] eqn:He. simpl in Hs.
  specialize (H o a' eq_refl Hs). by destruct o.
Qed.

(** ** The second factor *)
Section factor.
Context {T : Type} (jwt_encode : Sessions.Claims → T) (ks : Keys) (st : Sessions.Settings) (ls : LoginSettings)
  (fs : Login.Factors).

(** A recovery code: the only row it fits, unused, and now used. *)
Definition code_proved (u : uuid) (plain : string) (w w' : world) : Prop :=
  ∃ k c, recovery_codes (ext w) !! k = Some c ∧ consumable_code u (_recovery_candidate_hashes ks plain) c = true
    ∧ (∀ k' c', recovery_codes (ext w) !! k' = Some c' → consumable_code u (_recovery_candidate_hashes ks plain) c' = true → k' = k)
    ∧ (max_unused_failed_attempts u w < _RECOVERY_MAX_FAILED)%Z
    ∧ ∃ c', recovery_codes (ext w') !! k = Some c' ∧ rc_user c' = u ∧ rc_used c' = true.

(** A time-based code: of an enabled factor, of a step later than any before. *)
Definition totp_proved (u : uuid) (code : string) (w w' : world) : Prop :=
  ∃ t n, totp_of u w = Some t ∧ Accounts.enabled t = true ∧ (Accounts.failed_attempts t < Login._TOTP_MAX_FAILED)%Z
    ∧ Login.verify_totp fs (now_of w) (Accounts.secret t) code = Some n ∧ fresh_counter n t = true
    ∧ ∃ t', totp_of u w' = Some t' ∧ Accounts.secret t' = Accounts.secret t ∧ Accounts.enabled t' = true
      ∧ Accounts.last_counter t' = Some n.

Lemma one_row (p : RecoveryCode → bool) (m : gmap uuid RecoveryCode) :
  length (filter (λ kc, p kc.2) (map_to_list m)) = 1 →
  ∃ k c, m !! k = Some c ∧ p c = true ∧ ∀ k' c', m !! k' = Some c' → p c' = true → k' = k.
Proof.
  intros Hl. destruct (filter _ _) as [|[k c] [|]] eqn:Hf; [done| |done].
  assert (Hin : ∀ k' c', m !! k' = Some c' → p c' = true → (k', c') ∈ [(k, c)]).
  { intros k' c' Hk Hp. rewrite <- Hf. apply list_elem_of_filter. simpl. rewrite Hp. split; [done|]. by apply elem_of_map_to_list. }
  assert (Hk : (k, c) ∈ [(k, c)]) by set_solver. rewrite <- Hf in Hk. apply list_elem_of_filter in Hk as [Hp Hk].
  apply elem_of_map_to_list in Hk. exists k, c. split_and!; [done|by apply Is_true_true|]. intros k' c' H1 H2.
  specialize (Hin k' c' H1 H2). set_solver.
Qed.

Lemma wp_recovery_code u plain w :
  wp (consume_recovery_code ks u plain) (λ _ w', code_proved u plain w w' ∧ acc w' = acc w
    ∧ usages (ext w') = usages (ext w) ∧ recoveries (ext w') = recoveries (ext w)) (λ _ _, True) w.
Proof.
  unfold consume_recovery_code, _check_recovery_locked. wp_step. wp_step; [done|]. wp_step. wp_step. wp_step. wp_step; [done|].
  apply bool_decide_eq_false in H0. wp_step. unfold consume_recovery_rows, update_codes.
  wp_step. wp_step. cbv zeta. wp_step. wp_step. wp_step.
  destruct (decide (length (filter (λ kc, consumable_code u (_recovery_candidate_hashes ks plain) kc.2)
    (map_to_list (recovery_codes (ext w)))) = 1)) as [Hone|Hone]; rewrite bool_decide_decide; [rewrite (decide_True _ _ Hone)|rewrite (decide_False _ _ Hone)]; simpl.
  2: { by wp_steps. }
  wp_step. split_and!; [|done..]. destruct (one_row _ _ Hone) as (k & c & Hk & Hp & Hu). exists k, c. split_and!; [done..|lia|].
  unfold set_recovery_codes, set_ext. cbn. rewrite !lookup_fmap, Hk. simpl. rewrite Hp.
  unfold consumable_code, unused_of in Hp. apply andb_true_iff in Hp as [[Hp%bool_decide_eq_true _]%andb_true_iff _].
  assert (unused_of u (use_rc c) = false) as -> by (unfold unused_of; simpl; apply andb_false_r). by eexists.
Qed.

Lemma wp_check_totp u code w :
  wp (check_totp fs u code) (λ _ w', totp_proved u code w w' ∧ ext w' = ext w ∧ now_of w' = now_of w)
    (λ _ _, True) w.
Proof.
  unfold check_totp. wp_step. wp_step. wp_step. wp_step; [done|]. rename a into t.
  unfold get_enabled_totp, Login.get_enabled_totp in H. destruct (Accounts.totp (Accounts.db (acc w)) !! u) as [t'|] eqn:Ht; simpl in H; [|done].
  destruct (Accounts.enabled t') eqn:He; [|done]. injection H as ->.
  wp_step. unfold auth at 1. apply wp_zoom. unfold Login._verify_totp_guarded. wp_step. wp_step; [done|].
  apply bool_decide_eq_false in H. wp_step. wp_step. destruct (Login.verify_totp _ _ _ _) as [n|] eqn:Hv.
  2: { unfold Login.update_totp. by wp_steps. }
  assert (Hfin : ∀ t1 a, Accounts.secret t1 = Accounts.secret t → Accounts.enabled t1 = true →
    Accounts.last_counter t1 = Accounts.last_counter t → Accounts.totp (Accounts.db a) !! u = Some t1 →
    Accounts.clock a = now_of w →
    wp (consume_counter u n) (λ _ w', totp_proved u code w w' ∧ ext w' = ext w ∧ now_of w' = now_of w) (λ _ _, True) (set_acc a w)).
  { intros t1 a Hs He1 Hlc Ht1 Hck. unfold consume_counter. wp_step. wp_step. unfold totp_of. cbn. rewrite Ht1.
    destruct (fresh_counter n t1) eqn:Hfr; [|done]. unfold auth, Login.update_totp. apply wp_zoom. wp_step. split; [|done].
    exists t, n. split_and!; [done|done|lia|done|by rewrite <- Hfr; unfold fresh_counter; rewrite Hlc|].
    exists (set_counter n t1). unfold totp_of. cbn. by rewrite lookup_alter_eq, Ht1. }
  wp_step. case_decide as Hd.
  - unfold Login.update_totp. wp_step. wp_step. eapply (Hfin (Login.set_failures 0 t)); [done..| |done]. cbn. by rewrite lookup_alter_eq, Ht.
  - wp_step. wp_step. by apply (Hfin t).
Qed.

(** What was proved stays so while the second factors and the codes are left alone. *)
Definition factor_proved (u : uuid) (code recovery_code : option string) (w w' : world) : Prop :=
  match truthy recovery_code, truthy code with
  | Some plain, _ => code_proved u plain w w'
  | None, Some code => totp_proved u code w w'
  | None, None => False
  end.

Lemma factor_proved_kept u code rc w w1 w2 :
  factor_proved u code rc w w1 → recovery_codes (ext w2) = recovery_codes (ext w1) → same_totp (acc w1) (acc w2) →
  factor_proved u code rc w w2.
Proof.
  intros H Hr [Ht _]. unfold factor_proved in *. destruct (truthy rc); [|destruct (truthy code); [|done]].
  - unfold code_proved in *. by rewrite Hr.
  - unfold totp_proved in *. unfold totp_of at 2. rewrite Ht. done.
Qed.

Lemma wp_factor u code rc w :
  wp (match truthy rc, truthy code with
      | Some plain, _ => consume_recovery_code ks u plain
      | None, Some code => check_totp fs u code
      | None, None => raise TOTP_CODE_INVALID
      end)
     (λ _ w', factor_proved u code rc w w' ∧ usages (ext w') = usages (ext w) ∧ recoveries (ext w') = recoveries (ext w)
        ∧ now_of w' = now_of w)
     (λ _ _, True) w.
Proof.
  unfold factor_proved. destruct (truthy rc) as [plain|].
  - eapply wp_mono; [apply wp_recovery_code| |done]. simpl. intros _ w' (H & Ha & Hu & Hr).
    split_and!; [done..|]. unfold now_of. by rewrite Ha.
  - destruct (truthy code) as [c|]; [|by wp_step]. eapply wp_mono; [apply wp_check_totp| |done]. simpl.
    intros _ w' (H & -> & Hn). done.
Qed.

(** The usage of a token is recorded once. *)
Lemma wp_consume_token token u txn w :
  wp (_check_and_consume_temp_token ks token u txn)
     (λ c w', decode_temp_token ks (now_of w) token = Ok c ∧ usages (ext w) !! sha256 ks token = None
        ∧ w' = set_usages <[sha256 ks token := MkUsage u (t_purpose c) txn true]> w) (λ _ _, True) w.
Proof.
  unfold _check_and_consume_temp_token, _decode_temp_token. wp_step. wp_step. wp_step. unfold wp at 1, lift.
  destruct (decode_temp_token ks (now_of w) token) as [c|e] eqn:Hd; [|done]. wp_step. wp_step. cbv zeta. wp_step. wp_step; [done|].
  wp_step. wp_step. wp_step. apply bool_decide_eq_false, eq_None_not_Some in H. done.
Qed.

(** What a verification leaves: the token recorded, and the factor proved. *)
Definition verified (token : string) (code rc : option string) (r : Verified (T:=T)) (w w' : world) : Prop :=
  ∃ c x, decode_temp_token ks (now_of w) token = Ok c ∧ t_purpose c ∈ _ALLOWED_PURPOSES ∧ user_in (t_user c) w = Some x
    ∧ factor_proved (t_user c) code rc w w'
    ∧ usages (ext w) !! sha256 ks token = None
    ∧ usages (ext w') = <[sha256 ks token := MkUsage (t_user c) (t_purpose c) (t_txn c) true]> (usages (ext w))
    ∧ recoveries (ext w') = recoveries (ext w)
    ∧ match r with
      | ForRecovery u => u = t_user c ∧ t_purpose c = "recovery"%string
      | Session u _ _ trusted => u = t_user c ∧ t_purpose c = "2fa"%string
          ∧ (Accounts.account_level x = "admin"%string → trusted = false)
      end.

Lemma wp_verify_2fa token code rc trust req w :
  wp (verify_2fa jwt_encode ks st fs token code rc trust req) (λ r w', verified token code rc r w w') (λ _ _, True) w.
Proof.
  unfold verify_2fa, _decode_temp_token at 1. wp_step. wp_step. wp_step. unfold wp at 1, lift.
  destruct (decode_temp_token ks (now_of w) token) as [c|e] eqn:Hd; [|done]. wp_step. wp_step; [done|].
  apply negb_false_iff, bool_decide_eq_true in H. cbv zeta. wp_step. wp_step. wp_step. wp_step; [done|]. rename a into x, H0 into Hx.
  wp_step. eapply wp_mono; [apply wp_factor| |done]. simpl. intros _ w1 (Hf & Hu1 & Hr1 & Hn1).
  wp_step. eapply wp_mono; [apply wp_consume_token| |done]. simpl. intros c' w2 (Hd' & Hnone & ->).
  assert (c' = c) as -> by congruence. rewrite Hu1 in Hnone.
  set (w2 := set_usages _ w1). assert (H2 : usages (ext w2) = <[sha256 ks token := MkUsage (t_user c) (t_purpose c) (t_txn c) true]> (usages (ext w))).
  { cbn. by rewrite Hu1. }
  assert (Hf2 : factor_proved (t_user c) code rc w w2) by (by eapply factor_proved_kept).
  case_decide as Hp.
  - wp_step. exists c, x. by split_and!.
  - wp_step. apply wp_auth_same; [apply same_totp_issue|]. intros o a' _ Hs. destruct o as [[access raw]|e]; [|done].
    wp_step. exists c, x. split_and!; try done.
    + by eapply factor_proved_kept.
    + unfold _ALLOWED_PURPOSES in H. by apply elem_of_cons in H as [|[|[]%elem_of_nil]%elem_of_cons].
    + intros Ha. by rewrite decide_True.
Qed.

(** C31: Second factor: a temporary token is accepted only with a recovery code of
    the user that fits exactly one unused row, which is then used, or with a
    time-based code of an enabled factor whose time step is later than any accepted
    before, which is then recorded; it is of one of the two purposes, an
    administrator's device is not trusted, and the same token is refused ever
    after. *)
Theorem second_factor_once token code rc trust req w r w'
    (Hok : verify_2fa jwt_encode ks st fs token code rc trust req w = (Ok r, w')) :
  verified token code rc r w w'
  ∧ ∀ w2 code2 rc2 trust2 req2, grows w' w2 → ∃ e, (verify_2fa jwt_encode ks st fs token code2 rc2 trust2 req2 w2).1 = Raise e.
Proof.
  pose proof (wp_run _ _ _ _ _ _ (wp_verify_2fa token code rc trust req w) Hok) as H. split; [done|].
  intros w2 code2 rc2 trust2 req2 Hg. destruct H as (c & x & _ & _ & _ & _ & _ & Hu & _).
  assert (Hin : usages (ext w2) !! sha256 ks token = Some (MkUsage (t_user c) (t_purpose c) (t_txn c) true)).
  { destruct (g_usages _ _ Hg (sha256 ks token) (MkUsage (t_user c) (t_purpose c) (t_txn c) true)) as (? & ? & <-);
      [by rewrite Hu, lookup_insert_eq|done]. }
  pose proof (wp_verify_2fa token code2 rc2 trust2 req2 w2) as H2. unfold wp in H2.
  destruct (verify_2fa jwt_encode ks st fs token code2 rc2 trust2 req2 w2) as [[r2|e] w3]; [|by exists e].
  destruct H2 as (c2 & _ & _ & _ & _ & _ & Hnone & _). congruence.
Qed.
End factor.

(** ** Witnesses *)
Definition ada : uuid := uuid_of_N 7.

Definition ada_row : Accounts.User :=
  Accounts.MkUser "ada" (Some "ada@example.org"%string) None "old hash" "normal" false None 0 3 "active" None None None 0.

Definition one_factor : Login.Factors := Login.MkFactors (λ p h, bool_decide (p = h)) (λ _ _, Some "654321"%string).

(** Tokens that carry their claims, for one user. *)
Definition plain_keys : Keys :=
  MkKeys (λ s, s) (λ s, s) (λ c, default ""%string (t_txn c)) (λ _ token, Some (MkTemp ada "temp" "recovery" (Some token) 60)).

Definition with_factor : world :=
  World (Accounts.World (Accounts.Tables {[ ada := ada_row ]} {[ ada := "member"%string ]} ∅
           {[ ada := Accounts.MkTotp "s" true 0 None ]} ∅ ∅ []) [] ∅ ∅ ∅ 0) (Tables ∅ ∅ ∅ ∅ ∅ ∅ ∅).

(** Two guesses, then the code. *)
Lemma sent_code_accepted_witness :
  let sent := _create_verification (λ s, s) EMAIL "ada@example.org" "login" 42 "n" (uuid_of_N 1) with_factor in
  (foldl (λ w g, (transaction (consume_code (λ s, s) EMAIL "ada@example.org" g "login") w).2) (at_time 5 sent.2) ["000000"%string; "111111"%string])
  = at_time 5 sent.2
  ∧ (transaction (consume_code (λ s, s) EMAIL "ada@example.org" "000042" "login") (at_time 5 sent.2)).1 = Ok tt.
Proof.
  cbv zeta.
  destruct (sent_code_accepted (λ s, s) (λ a b H, H) EMAIL "ada@example.org" "login" 42 "n" (uuid_of_N 1) with_factor "000042"
    (_create_verification (λ s, s) EMAIL "ada@example.org" "login" 42 "n" (uuid_of_N 1) with_factor).2 5
    ["000000"%string; "111111"%string]) as (_ & H & v & _ & _ & Hok).
  - apply Login.with_result. vm_compute. reflexivity.
  - intros k v. simpl. by rewrite lookup_empty.
  - vm_compute. reflexivity.
  - intros g [->|[->|[]%elem_of_nil]%elem_of_cons]%elem_of_cons; discriminate.
  - split; [exact H|]. by rewrite Hok.
Defined.

(** The token of a recovery, presented twice. *)
Lemma second_factor_once_witness :
  let first := verify_2fa (λ c, c) plain_keys Sessions.plain_settings one_factor "t1" (Some "654321"%string) None false
                 Login.some_request with_factor in
  match first.1 with
  | Ok r => verified (T:=Sessions.Claims) plain_keys one_factor "t1" (Some "654321"%string) None r with_factor first.2
  | Raise _ => False
  end.
Proof.
  cbv zeta. set (first := verify_2fa _ _ _ _ _ _ _ _ _ with_factor).
  destruct first.1 as [r|e] eqn:Hf; [|vm_compute in Hf; discriminate].
  apply (second_factor_once (λ c, c) plain_keys Sessions.plain_settings one_factor "t1" (Some "654321"%string) None false
    Login.some_request with_factor r first.2). by apply Login.with_result.
Defined.
