(* ===== verification/Recovery.v ===== *)
(** * Recovering a password

    Model of [auth/service_recovery.py] and [auth/router_recovery.py]: resetting
    the password by a code, by a magic link or, when the account has a second
    factor or belongs to an administrator, in a recovery transaction of several
    steps. The second half puts the operations of [Credentials], of [Login] and of
    this file together, each as a request with its transaction, and follows them
    through any sequence.

    Theorems: a recovery transaction is completed only after its contact and its
    second factor have been proved, once, and what it leaves; what is used up
    stays used up; whoever has recovery codes has a second factor; and no failure
    is ever counted. *)

From S2P Require Import Prelude Limiter.
From S2P Require Accounts Sessions Login.
From S2P Require Import Credentials.

Section recovery.
Context {T : Type} (jwt_encode : Sessions.Claims → T) (ks : Keys) (st : Sessions.Settings) (ls : LoginSettings)
  (fs : Login.Factors).

(** The answer of the first steps: done, or a transaction and a temporary token. *)
Inductive Answer := Reset | Requires2FA (txn token : string).

(** The state of the account, not of its contact. *)
Definition find_user_by_contact (c : channel) (value : string) : M (uuid * Accounts.User) :=
  found ← gets (find_user c value);
  '(u, x) ← get_or_raise found USER_NOT_FOUND;
  raise_when (bool_decide (Accounts.account_level x = "local"%string)) RECOVERY_NOT_SUPPORTED ≫= λ _,
  raise_when (bool_decide (Accounts.account_level x = "admin"%string)) RECOVERY_METHOD_UNAVAILABLE ≫= λ _,
  mret (u, x).

Definition _user_requires_mfa (u : uuid) (x : Accounts.User) (w : world) : bool :=
  bool_decide (Accounts.account_level x = "admin"%string) || bool_decide (is_Some (get_enabled_totp u w)).

Definition _RECOVERY_MINUTES : Z := 15.

Definition create_recovery (txn : string) (r : RecoveryTransaction) : M () :=
  w ← get_state;
  raise_when (bool_decide (is_Some (recoveries (ext w) !! txn))) IntegrityError ≫= λ _,
  modify (set_recoveries <[txn := r]>).

(** [user.email or user.phone or ""] *)
Definition contact_or_empty (x : Accounts.User) : string :=
  match truthy (Accounts.email x) with
  | Some e => e
  | None => default ""%string (truthy (Accounts.phone x))
  end.

Definition _start_user_recovery_txn (u : uuid) (x : Accounts.User) (txn : string) : M Answer :=
  w ← get_state;
  create_recovery txn (MkRecovery u (contact_or_empty x) true false false "second_factor_pending"
    (now_of w + _RECOVERY_MINUTES * Accounts.minutes) None) ≫= λ _,
  mret (Requires2FA txn (create_temp_token ks u "recovery" (Some txn) (now_of w))).

(** The password is hashed before it is stored: [hashed] is what [hashpwd] gave. *)
Definition _reset_password (u : uuid) (hashed : string) (cache : option Z) : M () :=
  auth (Sessions._reset_password u hashed cache).

(** The end of both ways of starting; [new_password] is the password and its hash. *)
Definition finish_or_start (u : uuid) (x : Accounts.User) (new_password : option (string * string)) (txn : string)
    (cache : option Z) : M Answer :=
  w ← get_state;
  if _user_requires_mfa u x w then _start_user_recovery_txn u x txn else
  match new_password with
  | None | Some (EmptyString, _) => raise INVALID_INPUT
  | Some (_, hashed) => _reset_password u hashed cache ≫= λ _, mret Reset
  end.

Definition recover_by_contact (contact code : string) (new_password : option (string * string)) (txn : string)
    (cache : option Z) : M Answer :=
  c ← channel_for contact;
  consume_code (hmac ks) c contact code "reset" ≫= λ _,
  '(u, x) ← find_user_by_contact c contact;
  finish_or_start u x new_password txn cache.

(** [links] is asked again for the address. *)
Definition recover_by_magic_link (token : string) (new_password : option (string * string)) (txn : string)
    (cache : option Z) (req : Login.Request) : M Answer :=
  _ ← verify_magic_link jwt_encode ks st token "reset" req;
  w ← get_state;
  l ← get_or_raise (links (ext w) !! sha256 ks token) TOKEN_INVALID;
  '(u, x) ← get_or_raise (find_user EMAIL (l_email l) w) USER_NOT_FOUND;
  raise_when (bool_decide (Accounts.account_level x = "admin"%string)) RECOVERY_METHOD_UNAVAILABLE ≫= λ _,
  finish_or_start u x new_password txn cache.

(** [find_by_email_or_phone] *)
Definition find_by_email_or_phone (contact : string) (w : world) : option (uuid * Accounts.User) :=
  if decide (contact = ""%string) then None else
  List.find (λ ux, bool_decide (Accounts.email ux.2 = Some contact) || bool_decide (Accounts.phone ux.2 = Some contact))
    (map_to_list (Accounts.users (Accounts.db (acc w)))).

Definition RECOVER_ADMIN_BEGIN_MAX : Z := 3.
Definition RECOVER_ADMIN_VERIFY_MAX : Z := 3.

(** The answer is the transaction, or a bait that is stored nowhere. *)
Definition recover_admin_begin (contact txn : string) (n : N) (nonce : string) (new : uuid) (req : Login.Request) : M string :=
  w ← get_state;
  let limited := auth (Login.check_code_rate_limit ls req ("recover:admin:" +:+ contact)%string RECOVER_ADMIN_BEGIN_MAX
                         (3600 * Accounts.second)) in
  match find_by_email_or_phone contact w with
  | Some (u, x) =>
      if decide (Accounts.account_level x = "admin"%string) then
        create_recovery txn (MkRecovery u contact false false false "contact_pending"
          (now_of w + _RECOVERY_MINUTES * Accounts.minutes) None) ≫= λ _,
        c ← channel_for contact;
        limited ≫= λ _,
        _ ← _create_verification (hmac ks) c contact "reset" n nonce new;
        mret txn
      else limited ≫= λ _, mret txn
  | None => limited ≫= λ _, mret txn
  end.

Definition _get_recovery_txn (txn : string) : M RecoveryTransaction :=
  w ← get_state;
  r ← get_or_raise (recoveries (ext w) !! txn) TOKEN_INVALID;
  raise_when (r_consumed r) TOKEN_INVALID ≫= λ _,
  raise_when (bool_decide (r_expires r ≤ now_of w)%Z) TOKEN_EXPIRED ≫= λ _,
  mret r.

Definition verify_contact (r : RecoveryTransaction) : RecoveryTransaction :=
  MkRecovery (r_user r) (r_contact r) true (totp_verified r) (r_consumed r) (r_state r) (r_expires r) (completed_at r).

Definition verify_factor (r : RecoveryTransaction) : RecoveryTransaction :=
  MkRecovery (r_user r) (r_contact r) (contact_verified r) true (r_consumed r) (r_state r) (r_expires r) (completed_at r).

Definition complete (now : Z) (r : RecoveryTransaction) : RecoveryTransaction :=
  MkRecovery (r_user r) (r_contact r) (contact_verified r) (totp_verified r) true (r_state r) (r_expires r) (Some now).

Definition recover_admin_verify_contact (txn code : string) : M string :=
  r ← _get_recovery_txn txn;
  c ← channel_for (r_contact r);
  consume_code (hmac ks) c (r_contact r) code "reset" ≫= λ _,
  modify (set_recoveries (alter verify_contact txn)) ≫= λ _,
  w ← get_state;
  mret (create_temp_token ks (r_user r) "recovery" (Some txn) (now_of w)).

(** [find_recovery_usage] *)
Definition recovery_usage (h : string) (u : uuid) (txn : string) (w : world) : bool :=
  match usages (ext w) !! h with
  | Some us => bool_decide (tu_user us = u) && bool_decide (tu_purpose us = "recovery"%string)
               && bool_decide (tu_txn us = Some txn) && tu_consumed us
  | None => false
  end.

Definition recover_admin_verify_totp (txn token : string) : M () :=
  r ← _get_recovery_txn txn;
  raise_when (negb (contact_verified r)) RECOVERY_METHOD_UNAVAILABLE ≫= λ _,
  payload ← _decode_temp_token ks token;
  raise_when (bool_decide (t_user payload ≠ r_user r)) TOKEN_INVALID ≫= λ _,
  raise_when (bool_decide (t_purpose payload ≠ "recovery"%string)) TOKEN_INVALID ≫= λ _,
  raise_when (bool_decide (t_txn payload ≠ Some txn)) TOKEN_INVALID ≫= λ _,
  w ← get_state;
  raise_when (negb (recovery_usage (sha256 ks token) (t_user payload) txn w)) TOKEN_INVALID ≫= λ _,
  modify (set_recoveries (alter verify_factor txn)).

(** [consume_conditions] *)
Definition completable (now : Z) (r : RecoveryTransaction) : bool :=
  negb (r_consumed r) && contact_verified r && totp_verified r && bool_decide (now < r_expires r)%Z.

Definition _consume_recovery_txn (txn : string) : M (uuid * Accounts.User) :=
  w ← get_state;
  r ← get_or_raise (recoveries (ext w) !! txn) TOKEN_INVALID;
  raise_when (negb (completable (now_of w) r)) TOKEN_INVALID ≫= λ _,
  modify (set_recoveries (alter (complete (now_of w)) txn)) ≫= λ _,
  x ← get_or_raise (user_in (r_user r) w) USER_NOT_FOUND;
  mret (r_user r, x).

(** [admin]: which of the two ends. *)
Definition recover_complete (admin : bool) (txn hashed : string) (cache : option Z) : M () :=
  '(u, x) ← _consume_recovery_txn txn;
  let is_admin := bool_decide (Accounts.account_level x = "admin"%string) in
  raise_when (if admin then negb is_admin else is_admin)
    (if admin then ACCOUNT_LEVEL_INSUFFICIENT else RECOVERY_METHOD_UNAVAILABLE) ≫= λ _,
  _reset_password u hashed cache.

(** ** The routes *)
Definition limited {A} (key : string) (n : Z) (window : Z) (req : Login.Request) (m : M A) : M A :=
  auth (Login.check_code_rate_limit ls req key n window) ≫= λ _, m.

Definition hour : Z := 3600 * Accounts.second.

(** [recover_phone] and [recover_email] *)
Definition recover_send (c : channel) (contact : string) (n : N) (nonce : string) (new : uuid) (req : Login.Request) : M string :=
  limited ("recover:" +:+ channel_name c +:+ ":" +:+ contact)%string 5 hour req
    (_create_verification (hmac ks) c contact "reset" n nonce new).

Definition recover_verify_route (c : channel) (contact code : string) (new_password : option (string * string)) (txn : string)
    (cache : option Z) (req : Login.Request) : M Answer :=
  limited ("recover:" +:+ channel_name c +:+ ":verify:" +:+ contact)%string 5 hour req
    (recover_by_contact contact code new_password txn cache).

Definition recover_magic_link_verify_route (token : string) (new_password : option (string * string)) (txn : string)
    (cache : option Z) (req : Login.Request) : M Answer :=
  limited ("recover:magic-link:verify:ip:" +:+ Login.ip_address req)%string 10 hour req
    (recover_by_magic_link token new_password txn cache req).

(** [action] names the bucket of the step. *)
Definition recover_verify_totp_route (action txn token : string) (req : Login.Request) : M () :=
  limited ("recover:" +:+ action +:+ ":ip:" +:+ Login.ip_address req)%string 10 hour req (recover_admin_verify_totp txn token).

Definition recover_complete_route (admin : bool) (txn hashed : string) (cache : option Z) (req : Login.Request) : M () :=
  limited ("recover:" +:+ (if admin then "admin-complete" else "user-complete") +:+ ":ip:" +:+ Login.ip_address req)%string 10 hour
    req (recover_complete admin txn hashed cache).

Definition recover_admin_verify_contact_route (txn code : string) (req : Login.Request) : M string :=
  limited ("recover:admin:verify-contact:" +:+ txn)%string RECOVER_ADMIN_VERIFY_MAX (600 * Accounts.second) req
    (recover_admin_verify_contact txn code).
End recovery.

(** ** All operations, each a request *)
Section requests.
Context {T : Type} (jwt_encode : Sessions.Claims → T) (jwt_decode : string → Z → T → option Sessions.Claims) (ks : Keys)
  (st : Sessions.Settings) (ls : LoginSettings) (fs : Login.Factors).

Inductive op :=
  | OnAccount (o : Login.op (T:=T))
  | SendCode (c : channel) (contact : string) (n : N) (nonce : string) (new : uuid) (req : Login.Request)
  | LoginCodeRequest (contact : string) (n : N) (nonce : string) (new : uuid) (req : Login.Request)
  | LoginCode (contact code : string) (req : Login.Request)
  | RequestLink (email purpose raw : string) (req : Login.Request)
  | LoginLink (token : string) (req : Login.Request)
  | Verify2fa (token : string) (code recovery_code : option string) (trust_device : bool) (req : Login.Request)
  | SetupBegin (u : uuid) (stored : string)
  | SetupTemp (token stored : string)
  | SetupComplete (u : uuid) (code : string) (plains : list (uuid * string))
  | SetupCompleteTemp (token code : string) (plains : list (uuid * string)) (req : Login.Request)
  | SetupConfirm (u : uuid)
  | Disable2fa (u : uuid) (code recovery_code : option string)
  | RecoverVerify (c : channel) (contact code : string) (pw : option (string * string)) (txn : string) (cache : option Z)
      (req : Login.Request)
  | RecoverLink (token : string) (pw : option (string * string)) (txn : string) (cache : option Z) (req : Login.Request)
  | AdminBegin (contact txn : string) (n : N) (nonce : string) (new : uuid) (req : Login.Request)
  | AdminVerifyContact (txn code : string) (req : Login.Request)
  | VerifyTotp (action txn token : string) (req : Login.Request)
  | Complete (admin : bool) (txn hashed : string) (cache : option Z) (req : Login.Request).

Definition ignore {A} (m : M A) : M () := _ ← m; mret tt.

Definition body (o : op) : M () :=
  match o with
  | OnAccount o => auth (Login.run_op jwt_encode jwt_decode (sha256 ks) st ls fs o)
  | SendCode c contact n nonce new req => ignore (recover_send ks ls c contact n nonce new req)
  | LoginCodeRequest contact n nonce new req => ignore (login_code_request ks ls contact n nonce new req)
  | LoginCode contact code req => ignore (login_code_route jwt_encode ks st ls contact code req)
  | RequestLink email p raw req => request_magic_link ks ls email p raw req
  | LoginLink token req => ignore (magic_link_verify_route jwt_encode ks st ls token req)
  | Verify2fa token code rc trust req => ignore (verify_2fa_route jwt_encode ks st ls fs token code rc trust req)
  | SetupBegin u stored => setup_2fa_begin u stored
  | SetupTemp token stored => setup_2fa_temp ks token stored
  | SetupComplete u code plains => ignore (setup_2fa_complete ks fs u code plains)
  | SetupCompleteTemp token code plains req => ignore (setup_2fa_complete_temp jwt_encode ks st fs token code plains req)
  | SetupConfirm u => confirm_recovery_codes_saved u
  | Disable2fa u code rc => disable_2fa ks fs u code rc
  | RecoverVerify c contact code pw txn cache req => ignore (recover_verify_route ks ls c contact code pw txn cache req)
  | RecoverLink token pw txn cache req => ignore (recover_magic_link_verify_route jwt_encode ks st ls token pw txn cache req)
  | AdminBegin contact txn n nonce new req => ignore (recover_admin_begin ks ls contact txn n nonce new req)
  | AdminVerifyContact txn code req => ignore (recover_admin_verify_contact_route ks ls txn code req)
  | VerifyTotp action txn token req => recover_verify_totp_route ks ls action txn token req
  | Complete admin txn hashed cache req => recover_complete_route ls admin txn hashed cache req
  end.

Definition run_op (o : op) : M () := transaction (body o).

(** The worlds that follow [w0], with the requests that succeeded. *)
Inductive reach (w0 : world) : world → list op → Prop :=
  | reach_start : reach w0 w0 []
  | reach_done w tr o w' : reach w0 w tr → run_op o w = (Ok tt, w') → reach w0 w' (tr ++ [o])
  | reach_refused w tr o e w' : reach w0 w tr → run_op o w = (Raise e, w') → reach w0 w' tr
  | reach_time w tr t : reach w0 w tr → (now_of w ≤ t)%Z → reach w0 (at_time t w) tr.
End requests.

(** ** What is used up stays used up *)
#[local] Hint Extern 2 (respects grows (auth _)) => apply respects_auth : respects.
#[local] Hint Resolve grows_lift grows_transaction grows_create grows_consume grows_temp_token grows_verify_link
  grows_request_link grows_login_request grows_login_code_route grows_verify_link_route grows_verify_2fa_route grows_setup_begin
  grows_setup_temp grows_setup_complete grows_setup_complete_temp grows_confirm grows_disable
  Login.respects_rate Sessions.respects_reset : respects.

Section spent.
Context {T : Type} (jwt_encode : Sessions.Claims → T) (jwt_decode : string → Z → T → option Sessions.Claims) (ks : Keys)
  (st : Sessions.Settings) (ls : LoginSettings) (fs : Login.Factors).

Abbreviation run := (run_op jwt_encode jwt_decode ks st ls fs).
Abbreviation reachable := (reach jwt_encode jwt_decode ks st ls fs).

Lemma grows_ignore {A} (m : M A) : respects grows m → respects grows (ignore m).
Proof. intros H. unfold ignore. by respects. Qed.
#[local] Hint Resolve grows_ignore : respects.

Lemma grows_limited {A} key n wd req (m : M A) : respects grows m → respects grows (limited ls key n wd req m).
Proof. intros H. unfold limited. respects. Qed.
#[local] Hint Resolve grows_limited : respects.

Lemma grows_create_recovery txn r : respects grows (create_recovery txn r).
Proof. unfold create_recovery. grows_new Hn. by apply grows_recovery_new. Qed.

Lemma grows_alter_recovery f txn : (∀ r, recovery_later r (f r)) → respects (E:=err) grows (modify (set_recoveries (alter f txn))).
Proof. intros Hf. apply respects_modify. intros w. by apply grows_recovery_alter. Qed.
#[local] Hint Resolve grows_create_recovery : respects.
#[local] Hint Extern 2 (respects grows (modify (set_recoveries (alter _ _)))) =>
  apply grows_alter_recovery; intros []; by repeat split : respects.

Lemma grows_finish u x pw txn c : respects grows (finish_or_start ks u x pw txn c).
Proof. unfold finish_or_start, _start_user_recovery_txn, _reset_password. respects. Qed.
#[local] Hint Resolve grows_finish : respects.

Lemma grows_by_contact contact code pw txn c : respects grows (recover_by_contact ks contact code pw txn c).
Proof. unfold recover_by_contact, channel_for, find_user_by_contact. respects. Qed.

Lemma grows_by_link token pw txn c req : respects grows (recover_by_magic_link jwt_encode ks st token pw txn c req).
Proof. unfold recover_by_magic_link. respects. Qed.

Lemma grows_admin_begin contact txn n nonce new req : respects grows (recover_admin_begin ks ls contact txn n nonce new req).
Proof. unfold recover_admin_begin, channel_for. cbv zeta. respects. Qed.

Lemma grows_admin_contact txn code : respects grows (recover_admin_verify_contact ks txn code).
Proof. unfold recover_admin_verify_contact, _get_recovery_txn, channel_for. respects. Qed.

Lemma grows_verify_totp txn token : respects grows (recover_admin_verify_totp ks txn token).
Proof. unfold recover_admin_verify_totp, _get_recovery_txn. respects. Qed.

Lemma grows_complete admin txn h c : respects grows (recover_complete admin txn h c).
Proof. unfold recover_complete, _consume_recovery_txn, _reset_password. respects. Qed.
#[local] Hint Resolve grows_by_contact grows_by_link grows_admin_begin grows_admin_contact grows_verify_totp grows_complete : respects.

Lemma grows_account o : respects grows (auth (Login.run_op jwt_encode jwt_decode (sha256 ks) st ls fs o)).
Proof.
  apply respects_auth. intros a.
  exact (Login.step_later jwt_encode jwt_decode (sha256 ks) st ls fs a _ (Login.step_op _ _ _ _ _ _ a o)).
Qed.
#[local] Hint Resolve grows_account : respects.

Lemma grows_run o : respects grows (run o).
Proof.
  apply grows_transaction. destruct o; simpl; unfold recover_send, recover_verify_route, recover_magic_link_verify_route,
    recover_admin_verify_contact_route, recover_verify_totp_route, recover_complete_route; auto with respects.
Qed.

Lemma grows_time t w : (now_of w ≤ t)%Z → grows w (at_time t w).
Proof.
  intros Ht. split; [|apply evolves_refl; apply _..]. split; [done|eauto with lia|]. intros h x Hx. exists x. by repeat split.
Qed.

Lemma reach_evolves w0 w tr : reachable w0 w tr → grows w0 w.
Proof.
  induction 1 as [|w tr o w' _ IH Hr|w tr o e w' _ IH Hr|w tr t _ IH Ht]; [done|etrans; [done|]..].
  - by eapply (respects_run grows); [apply grows_run|].
  - by eapply (respects_run grows); [apply grows_run|].
  - by apply grows_time.
Qed.
End spent.

(** ** Second factors and failures *)
Definition enabled_in (u : uuid) (a : Accounts.world) : Prop :=
  ∃ t, Accounts.totp (Accounts.db a) !! u = Some t ∧ Accounts.enabled t = true.

(** Recovery codes, and the note that they are saved, belong to an enabled second
    factor; and no code has a failure counted. *)
Record sound (w : world) : Prop := {
  s_codes k c : recovery_codes (ext w) !! k = Some c → enabled_in (rc_user c) (acc w);
  s_saved u : u ∈ confirmed_saved (ext w) → enabled_in u (acc w);
  s_failed k c : recovery_codes (ext w) !! k = Some c → rc_failed c = 0%Z;
  s_uncounted k v : codes (ext w) !! k = Some v → v_failed v = 0%Z
}.

Definition same_enabled (a a' : Accounts.world) : Prop :=
  ∀ u, Accounts.enabled <$> Accounts.totp (Accounts.db a') !! u = Accounts.enabled <$> Accounts.totp (Accounts.db a) !! u.

#[export] Instance same_enabled_preorder : PreOrder same_enabled.
Proof. split; [by intros a u|]. intros a b c H1 H2 u. by rewrite H2. Qed.

Lemma same_totp_enabled {A} (m : Accounts.M A) : respects same_totp m → respects same_enabled m.
Proof. intros H w u. destruct (H w) as [-> _]. done. Qed.

Lemma same_enabled_in u a a' : same_enabled a a' → enabled_in u a → enabled_in u a'.
Proof.
  intros H (t & Ht & He). specialize (H u). rewrite Ht in H. simpl in H. apply fmap_Some in H as (t' & Ht' & Hb).
  exists t'. split; congruence.
Qed.

Lemma sound_acc a w : same_enabled (acc w) a → sound w → sound (set_acc a w).
Proof.
  intros Ha [H1 H2 H3 H4]. split; [|by intros; eapply same_enabled_in, H2|done..].
  intros k c Hk. by eapply same_enabled_in, (H1 k).
Qed.

(** A program that keeps this when it succeeds. *)
Definition keeps {A} (m : M A) : Prop := ∀ w, sound w → wp m (λ _ w', sound w') (λ _ _, True) w.

Lemma sound_bind {A B} (m : M A) (f : A → M B) : keeps m → (∀ a, keeps (f a)) → keeps (m ≫= f).
Proof. intros Hm Hf w Hw. apply wp_bind. eapply wp_mono; [by apply Hm| |done]. intros a w' Hw'. by apply Hf. Qed.

(** What raises in the end may do anything before. *)
Lemma keeps_refusal {A B} (m : M A) e : keeps (A:=B) (m ≫= λ _, raise e).
Proof. intros w _. unfold wp, mbind, prog_bind. by destruct (m w) as [[]]. Qed.

Lemma sound_ret {A} (a : A) : keeps (mret a).
Proof. by intros w Hw. Qed.
Lemma sound_raise {A} e : keeps (A:=A) (raise e).
Proof. by intros w Hw. Qed.
Lemma sound_gets {A} (f : world → A) : keeps (gets f).
Proof. by intros w Hw. Qed.
Lemma keeps_state : keeps get_state.
Proof. by intros w Hw. Qed.
Lemma keeps_raise_when c e : keeps (raise_when c e).
Proof. intros w Hw. by apply wp_raise_when. Qed.
Lemma sound_get_or_raise {A} (o : option A) e : keeps (get_or_raise o e).
Proof. intros w Hw. by apply wp_get_or_raise. Qed.
Lemma keeps_lift {A} (o : outcome err A) : keeps (lift o).
Proof. intros w Hw. unfold wp, lift. by destruct o. Qed.
Lemma sound_modify f : (∀ w, sound w → sound (f w)) → keeps (modify f).
Proof. intros H w Hw. apply wp_modify. by apply H. Qed.

Lemma keeps_auth {A} (m : Accounts.M A) : respects same_enabled m → keeps (auth m).
Proof.
  intros Hm w Hw. unfold wp, auth, zoom. specialize (Hm (acc w)). destruct (m (acc w)) as [[a|e] a'] eqn:He; [|done].
  simpl in Hm. by apply sound_acc.
Qed.

Create HintDb keeps.
Ltac keeps_step :=
  cbv beta;
  lazymatch goal with
  | |- keeps (mbind (λ _, raise _) _) => apply keeps_refusal
  | |- keeps (mbind _ _) => apply sound_bind; [|intros ?]
  | |- keeps (mret _) => apply sound_ret
  | |- keeps (raise _) => apply sound_raise
  | |- keeps (gets _) => apply sound_gets
  | |- keeps get_state => apply keeps_state
  | |- keeps (raise_when _ _) => apply keeps_raise_when
  | |- keeps (get_or_raise _ _) => apply sound_get_or_raise
  | |- keeps (lift _) => apply keeps_lift
  | |- keeps (match ?x with _ => _ end) => destruct x
  end.
Ltac keeps := repeat (keeps_step || (solve [auto with keeps])).

(** The accounts. *)
#[local] Hint Extern 1 (respects same_enabled (modify _)) => apply respects_modify; intros ? ?; reflexivity : respects.
#[local] Hint Extern 1 (respects same_enabled (Accounts.log_audit _ _)) => apply respects_modify; intros ? ?; reflexivity : respects.
#[local] Hint Extern 1 (respects same_enabled (Accounts.emit _)) => apply respects_modify; intros ? ?; reflexivity : respects.
#[local] Hint Extern 1 (respects same_enabled (Accounts.update_user _ _)) => apply respects_modify; intros ? ?; reflexivity : respects.
#[local] Hint Extern 1 (respects same_enabled (Accounts.set_role _ _)) => apply respects_modify; intros ? ?; reflexivity : respects.

Section enabled.
Context {T : Type} (jwt_encode : Sessions.Claims → T) (jwt_decode : string → Z → T → option Sessions.Claims) (ks : Keys)
  (st : Sessions.Settings) (ls : LoginSettings) (fs : Login.Factors).

Lemma enabled_update u f : (∀ t, Accounts.enabled (f t) = Accounts.enabled t) → respects same_enabled (Login.update_totp u f).
Proof.
  intros Hf. apply respects_modify. intros w v. cbn. destruct (decide (v = u)) as [->|Hne].
  - rewrite lookup_alter_eq. destruct (Accounts.totp _ !! u); simpl; [by rewrite Hf|done].
  - by rewrite lookup_alter_ne.
Qed.
#[local] Hint Extern 1 (respects same_enabled (Login.update_totp _ _)) => apply enabled_update; intros ?; reflexivity : respects.

Lemma enabled_guarded u t code : respects same_enabled (Login._verify_totp_guarded fs u t code).
Proof. unfold Login._verify_totp_guarded. respects. Qed.
#[local] Hint Resolve enabled_guarded same_totp_enabled same_totp_locked same_totp_admission same_totp_rate same_totp_issue
  same_totp_finalize same_totp_response same_totp_reset : respects.

Lemma enabled_factor u code : respects same_enabled (Login.verify_second_factor fs u code).
Proof. unfold Login.verify_second_factor. respects. Qed.

Lemma enabled_failed u : respects same_enabled (Accounts._record_failed_attempt u).
Proof. unfold Accounts._record_failed_attempt. respects. Qed.
#[local] Hint Resolve enabled_factor enabled_failed : respects.

Lemma enabled_throttle req : respects same_enabled (Login.throttle ls req).
Proof.
  unfold Login.throttle. case_decide; [by respects|]. apply respects_state. intros w. unfold zoom.
  by destruct (check_password_login_rate_limit _ _ _ _ _ _ _ _ _).
Qed.
#[local] Hint Resolve enabled_throttle : respects.

Lemma enabled_login a p req : respects same_enabled (Login.login_password jwt_encode (sha256 ks) st ls fs a p req).
Proof. unfold Login.login_password, Login.refuse_password. respects. Qed.

Lemma enabled_revoke u c : respects same_enabled (Accounts.revoke_all_refresh_tokens u c).
Proof.
  unfold Accounts.revoke_all_refresh_tokens, Accounts.revoke_all_for_user, Accounts.bump_token_version, Accounts.set_token_version.
  destruct c; respects.
Qed.

Lemma enabled_bump u c : respects same_enabled (Accounts.bump_token_version u c).
Proof. unfold Accounts.bump_token_version, Accounts.set_token_version. destruct c; respects. Qed.

Lemma enabled_revoke_user u : respects same_enabled (Accounts.revoke_all_for_user u).
Proof. unfold Accounts.revoke_all_for_user. respects. Qed.
#[local] Hint Resolve enabled_login enabled_revoke enabled_bump enabled_revoke_user : respects.

Lemma enabled_logout u t c1 c2 : respects same_enabled (Sessions.logout_route jwt_decode u t c1 c2).
Proof.
  unfold Sessions.logout_route. respects. unfold Sessions.block_jti. destruct (Sessions.jti _); [by respects|]. destruct c2; by respects.
Qed.

Lemma enabled_decide u r a why c : respects same_enabled (Accounts.decide_admission u r a why c).
Proof. unfold Accounts.decide_admission. respects. Qed.

Lemma enabled_finish SSD u l r why c : respects same_enabled (Accounts.finish_upgrade SSD u l r why c).
Proof. unfold Accounts.finish_upgrade, Accounts.lift_outcome. respects. by intros w. Qed.
#[local] Hint Resolve enabled_finish : respects.

Lemma enabled_account o : respects same_enabled (Login.run_op jwt_encode jwt_decode (sha256 ks) st ls fs o).
Proof.
  assert (H : respects same_enabled (match o with
    | Login.LoginPassword a p req => Login.ignore (Login.login_password jwt_encode (sha256 ks) st ls fs a p req)
    | Login.StepUp cur code req => Login.ignore (Login.step_up_2fa jwt_encode (sha256 ks) st ls fs cur code req)
    | Login.Refresh raw req => Login.ignore (Login.refresh_access_token_route jwt_encode (sha256 ks) st ls raw req)
    | Login.Logout u t c1 c2 => Sessions.logout_route jwt_decode u t c1 c2
    | Login.ResetPassword u h c => Sessions._reset_password u h c
    | Login.DecideAdmission u r a why c => Accounts.decide_admission u r a why c
    | Login.GrantExamUnlock u l r c => Login.ignore (Accounts.grant_exam_unlock (Sessions.SSD st) u l r c)
    | Login.GrantIncubation u c => Login.ignore (Accounts.grant_incubation (Sessions.SSD st) u c)
    end)).
  { destruct o; unfold Login.ignore, Login.step_up_2fa, Login.refresh_access_token_route, Sessions.refresh_access_token,
      Sessions.consume_refresh, Accounts.grant_exam_unlock, Accounts._apply_upgrades, Accounts.grant_incubation;
      auto using enabled_logout, enabled_decide with respects; respects. }
  intros w. specialize (H w). unfold Login.run_op, Accounts.transaction. destruct (_ w) as [[[]|e] w'] eqn:He; simpl in *; [done|].
  by intros u.
Qed.
End enabled.

#[local] Hint Extern 2 (keeps (auth _)) => apply keeps_auth : keeps.
#[local] Hint Resolve keeps_lift same_totp_enabled same_totp_locked same_totp_admission same_totp_rate same_totp_issue
  same_totp_finalize same_totp_response same_totp_reset enabled_factor enabled_guarded enabled_account : keeps.
#[local] Hint Extern 1 (respects same_enabled (Accounts.log_audit _ _)) => apply respects_modify; intros ? ?; reflexivity : keeps.
#[local] Hint Extern 1 (respects same_enabled (Accounts.emit _)) => apply respects_modify; intros ? ?; reflexivity : keeps.
#[local] Hint Extern 1 (respects same_enabled (Accounts.update_user _ _)) => apply respects_modify; intros ? ?; reflexivity : keeps.
#[local] Hint Extern 1 (respects same_enabled (Login.update_totp _ (set_counter _))) => apply enabled_update; intros ?; reflexivity : keeps.

(** The tables that matter to [sound]. *)
Lemma sound_tables f w :
  (∀ k c, recovery_codes (f (ext w)) !! k = Some c → rc_failed c = 0%Z ∧ enabled_in (rc_user c) (acc w)) →
  (∀ u, u ∈ confirmed_saved (f (ext w)) → enabled_in u (acc w)) →
  (∀ k v, codes (f (ext w)) !! k = Some v → v_failed v = 0%Z) →
  sound (set_ext f w).
Proof. intros H1 H2 H3. split; simpl; [by intros k c [_ ?]%H1|done|by intros k c [? _]%H1|done]. Qed.

Ltac sound_rest Hw := destruct Hw as [?Hc ?Hs ?Hf ?Hu]; apply sound_tables; simpl; [intros ? ? ?; split; eauto|eauto|eauto].

Section keeping.
Context {T : Type} (jwt_encode : Sessions.Claims → T) (jwt_decode : string → Z → T → option Sessions.Claims) (ks : Keys)
  (st : Sessions.Settings) (ls : LoginSettings) (fs : Login.Factors).

Lemma keeps_create c contact p n nonce new : keeps (_create_verification (hmac ks) c contact p n nonce new).
Proof.
  unfold _create_verification. keeps. apply sound_modify. intros w Hw. sound_rest Hw. intros k v.
  destruct (decide (k = new)) as [->|]; [rewrite lookup_insert_eq; by intros [= <-]|rewrite lookup_insert_ne by done; eauto].
Qed.

Lemma keeps_consume c contact code p : keeps (consume_code (hmac ks) c contact code p).
Proof.
  unfold consume_code, _consume. keeps. apply sound_modify. intros w Hw. sound_rest Hw. intros j v'.
  rewrite lookup_alter_Some. naive_solver.
Qed.
#[local] Hint Resolve keeps_create keeps_consume : keeps.

Lemma keeps_temp_token token : keeps (_decode_temp_token ks token).
Proof. unfold _decode_temp_token. keeps. Qed.
#[local] Hint Resolve keeps_temp_token : keeps.

Lemma keeps_check_and_consume token u txn : keeps (_check_and_consume_temp_token ks token u txn).
Proof. unfold _check_and_consume_temp_token. keeps. apply sound_modify. intros w Hw. sound_rest Hw. Qed.

(** An update of recovery codes that leaves nothing counted. *)
Lemma keeps_update p f : (∀ c, rc_user (f c) = rc_user c) → (∀ c, rc_failed c = 0%Z → rc_failed (f c) = 0%Z) → keeps (update_codes p f).
Proof.
  intros Hu Hf. apply sound_modify. intros w Hw. destruct Hw as [H1 H2 H3 H4]. apply sound_tables; simpl; [|done..].
  intros k c Hk. rewrite lookup_fmap in Hk. apply fmap_Some in Hk as (c' & Hk & ->). destruct (p c'); [|by eauto].
  rewrite Hu. eauto.
Qed.

Lemma keeps_recovery_code u plain : keeps (consume_recovery_code ks u plain).
Proof. unfold consume_recovery_code, _check_recovery_locked, consume_recovery_rows. keeps; by apply keeps_update. Qed.

Lemma keeps_check_totp u code : keeps (check_totp fs u code).
Proof. unfold check_totp, consume_counter. keeps. Qed.
#[local] Hint Resolve keeps_check_and_consume keeps_recovery_code keeps_check_totp : keeps.

Lemma keeps_second_factor u code rc : keeps (verify_second_factor ks fs u code rc).
Proof. unfold verify_second_factor. keeps. Qed.

Lemma keeps_verify_2fa token code rc trust req : keeps (verify_2fa jwt_encode ks st fs token code rc trust req).
Proof. unfold verify_2fa. keeps. Qed.
#[local] Hint Resolve keeps_second_factor keeps_verify_2fa : keeps.

Lemma keeps_verify_2fa_route token code rc trust req : keeps (verify_2fa_route jwt_encode ks st ls fs token code rc trust req).
Proof. unfold verify_2fa_route. keeps. Qed.

(** Replacing a factor that is not enabled takes nothing away. *)
Lemma keeps_put u t w : sound w → ¬ enabled_in u (acc w) → sound (set_acc (Accounts.set_totp <[u := t]> (acc w)) w).
Proof.
  intros [H1 H2 H3 H4] Hn.
  assert (Hk : ∀ v, enabled_in v (acc w) → enabled_in v (Accounts.set_totp <[u := t]> (acc w))).
  { intros v (x & Hx & He). exists x. split; [|done]. cbn. rewrite lookup_insert_ne; [done|]. intros ->. apply Hn. by exists x. }
  split; simpl; [by intros k c Hc; apply Hk, (H1 k)|by intros v Hv; apply Hk, H2|done..].
Qed.

Lemma keeps_unsave u : keeps (modify (set_confirmed (λ c, c ∖ {[ u ]}))).
Proof. apply sound_modify. intros w Hw. sound_rest Hw. intros v Hv. apply Hs. set_solver. Qed.
#[local] Hint Resolve keeps_unsave : keeps.

Lemma keeps_setup_begin u s : keeps (setup_2fa_begin u s).
Proof.
  intros w Hw. unfold setup_2fa_begin. wp_step. wp_step. wp_step. wp_step; [done|]. wp_step. wp_step; [done|]. wp_step. wp_step.
  wp_step. wp_step; [done|]. wp_step. unfold put_totp, auth. wp_step. wp_step. apply keeps_unsave, keeps_put; [done|].
  intros (t & Ht & He). unfold totp_of in *. rewrite Ht in H1. congruence.
Qed.
#[local] Hint Resolve keeps_setup_begin : keeps.

Lemma sound_for_each {A} (l : list A) (body : A → M ()) (I : world → Prop) w :
  (∀ a w, sound w → I w → wp (body a) (λ _ w', sound w' ∧ I w') (λ _ _, True) w) → sound w → I w →
  wp (for_each l body) (λ _ w', sound w' ∧ I w') (λ _ _, True) w.
Proof. intros Hb Hw Hi. apply (wp_for_each l body (λ w, sound w ∧ I w)); [|done]. intros a w1 _ [H1 H2]. by apply Hb. Qed.

Lemma keeps_setup_complete u code plains : keeps (setup_2fa_complete ks fs u code plains).
Proof.
  intros w Hw. unfold setup_2fa_complete. wp_step. wp_step. wp_step. wp_step; [done|]. wp_step. wp_step; [done|]. wp_step.
  assert (Hg : wp (auth (Login._verify_totp_guarded fs u a code)) (λ _ w', is_Some (totp_of u w')) (λ _ _, True) w).
  { unfold auth. apply wp_zoom. unfold Login._verify_totp_guarded. wp_step. wp_step; [done|]. wp_step. wp_step.
    destruct (Login.verify_totp _ _ _ _); unfold Login.update_totp; [|by wp_steps]. wp_step. unfold totp_of in *.
    case_decide; wp_steps; cbn; rewrite ?lookup_alter_eq, H; eauto. }
  eapply wp_mono; [exact (wp_and _ _ _ _ _ _ (keeps_auth _ (enabled_guarded fs u a code) w Hw) Hg)| |done]. simpl.
  intros _ w1 [Hw1 [t Ht]]. wp_step. unfold auth at 1, Login.update_totp. wp_step. wp_step.
  assert (He : sound (set_acc (Accounts.set_totp (alter enable u) (acc w1)) w1)
    ∧ enabled_in u (Accounts.set_totp (alter enable u) (acc w1))).
  { assert (Hk : ∀ v, enabled_in v (acc w1) → enabled_in v (Accounts.set_totp (alter enable u) (acc w1))).
    { intros v (x & Hx & Hb). unfold enabled_in. cbn. destruct (decide (v = u)) as [->|].
      - rewrite lookup_alter_eq, Hx. eauto.
      - rewrite lookup_alter_ne by done. eauto. }
    destruct Hw1 as [H1 H2 H3 H4]. split.
    - split; simpl; [by intros k c Hc; apply Hk, (H1 k)|by intros v Hv; apply Hk, H2|done..].
    - unfold enabled_in. cbn. rewrite lookup_alter_eq. unfold totp_of in Ht. rewrite Ht. simpl. eauto. }
  destruct He as [Hs He]. set (w2 := set_acc _ w1) in *. wp_step. wp_step.
  wp_step. eapply wp_mono; [apply (sound_for_each _ _ (λ w, enabled_in u (acc w)))| |done].
  - intros [k plain] w3 Hw3 H3. unfold add_recovery_code. wp_step. wp_step. wp_step. wp_step; [done|]. wp_step. split; [|done].
    destruct Hw3 as [G1 G2 G3 G4]. apply sound_tables; simpl; [|done..]. intros j c.
    destruct (decide (j = k)) as [->|]; [rewrite lookup_insert_eq; by intros [= <-]|rewrite lookup_insert_ne by done; eauto].
  - by apply keeps_unsave.
  - done.
  - simpl. intros _ w3 [Hw3 _]. wp_step. apply (keeps_auth (Accounts.log_audit u "2fa_enabled")); [auto with keeps|].
    done.
Qed.
#[local] Hint Resolve keeps_setup_complete : keeps.

Lemma keeps_confirm u : keeps (confirm_recovery_codes_saved u).
Proof.
  intros w Hw. unfold confirm_recovery_codes_saved. wp_step. wp_step. wp_step. wp_step; [done|]. wp_step. wp_step.
  apply keeps_auth; [auto with keeps|]. sound_rest Hw. intros v [->%elem_of_singleton|Hv]%elem_of_union; [|by eauto].
  unfold totp_of in H. destruct (Accounts.totp (Accounts.db (acc w)) !! u) as [t|] eqn:Ht; [|done]. exists t. split; [done|].
  by apply negb_false_iff.
Qed.

Lemma keeps_disable u code rc : keeps (disable_2fa ks fs u code rc).
Proof.
  unfold disable_2fa. keeps_step; [keeps|]. keeps_step; [keeps|]. keeps_step; [keeps|]. intros w Hw.
  wp_step. unfold auth at 1, Login.update_totp. wp_step. wp_step. wp_step. wp_step. wp_step. wp_step. wp_step. wp_step. simpl.
  match goal with |- wp _ _ _ ?w2 => assert (Hs : sound w2) end.
  { destruct Hw as [H1 H2 H3 H4].
    assert (Hk : ∀ v, v ≠ u → enabled_in v (acc w) → enabled_in v (Accounts.set_totp (alter (λ _, Accounts.MkTotp "" false 0 None) u) (acc w))).
    { intros v Hv (t & Ht & He). exists t. split; [|done]. cbn. by rewrite lookup_alter_ne. }
    split; simpl.
    - intros k c [Hc Hu]%map_lookup_filter_Some. apply Hk; [done|by apply (H1 k)].
    - intros v Hv. apply Hk; [set_solver|apply H2; set_solver].
    - intros k c [Hc _]%map_lookup_filter_Some. by eauto.
    - done. }
  revert Hs. apply (sound_bind (auth (Accounts.log_audit u "2fa_disabled"))); [auto with keeps|]. intros _. keeps.
Qed.

Lemma keeps_setup_token token : keeps (_decode_setup_temp_token ks token).
Proof. unfold _decode_setup_temp_token. keeps. Qed.

Lemma keeps_setups f : keeps (modify (set_setups f)).
Proof. apply sound_modify. intros w Hw. sound_rest Hw. Qed.

Lemma keeps_links f : keeps (modify (set_links f)).
Proof. apply sound_modify. intros w Hw. sound_rest Hw. Qed.

Lemma keeps_recoveries f : keeps (modify (set_recoveries f)).
Proof. apply sound_modify. intros w Hw. sound_rest Hw. Qed.
#[local] Hint Resolve keeps_setup_token keeps_setups keeps_links keeps_recoveries : keeps.

Lemma keeps_setup_temp token s : keeps (setup_2fa_temp ks token s).
Proof. unfold setup_2fa_temp. keeps. Qed.

Lemma keeps_setup_complete_temp token code plains req : keeps (setup_2fa_complete_temp jwt_encode ks st fs token code plains req).
Proof. unfold setup_2fa_complete_temp, consume_setup. keeps. Qed.

Lemma keeps_request_link email p raw req : keeps (request_magic_link ks ls email p raw req).
Proof. unfold request_magic_link. keeps. Qed.

Lemma keeps_verify_link token p req : keeps (verify_magic_link jwt_encode ks st token p req).
Proof. unfold verify_magic_link, consume_link. keeps. Qed.
#[local] Hint Resolve keeps_setup_temp keeps_setup_complete_temp keeps_request_link keeps_verify_link keeps_verify_2fa_route
  keeps_confirm keeps_disable : keeps.

Lemma keeps_verify_link_route token req : keeps (magic_link_verify_route jwt_encode ks st ls token req).
Proof. unfold magic_link_verify_route. keeps. Qed.

Lemma keeps_login_request contact n nonce new req : keeps (login_code_request ks ls contact n nonce new req).
Proof. unfold login_code_request, channel_for. keeps. Qed.

Lemma keeps_login_code_route contact code req : keeps (login_code_route jwt_encode ks st ls contact code req).
Proof. unfold login_code_route, login_code, channel_for. keeps. Qed.

Lemma keeps_limited {A} key n wd req (m : M A) : keeps m → keeps (limited ls key n wd req m).
Proof. intros H. unfold limited. keeps. Qed.

Lemma sound_ignore {A} (m : M A) : keeps m → keeps (ignore m).
Proof. intros H. unfold ignore. keeps. Qed.

Lemma keeps_finish u x pw txn c : keeps (finish_or_start ks u x pw txn c).
Proof. unfold finish_or_start, _start_user_recovery_txn, create_recovery, _reset_password. keeps. Qed.
#[local] Hint Resolve keeps_verify_link_route keeps_login_request keeps_login_code_route keeps_limited sound_ignore keeps_finish : keeps.

Lemma keeps_run o w : sound w → sound (run_op jwt_encode jwt_decode ks st ls fs o w).2.
Proof.
  intros Hw. assert (Hb : keeps (body jwt_encode jwt_decode ks st ls fs o)).
  { destruct o; simpl; unfold recover_send, recover_verify_route, recover_magic_link_verify_route, recover_by_contact,
      recover_by_magic_link, find_user_by_contact, recover_admin_begin, create_recovery, recover_admin_verify_contact_route,
      recover_admin_verify_contact, recover_verify_totp_route, recover_admin_verify_totp, _get_recovery_txn, recover_complete_route,
      recover_complete, _consume_recovery_txn, _reset_password, channel_for; cbv zeta; auto with keeps;
      repeat first [apply sound_ignore | apply keeps_limited]; keeps. }
  specialize (Hb w Hw). unfold wp, run_op, transaction in *. destruct (body _ _ _ _ _ _ o w) as [[a|e] w']; simpl; [done|].
  destruct Hw. by split.
Qed.
End keeping.

(** ** What a recovery leaves *)
Lemma reset_password_run u h c (a : Accounts.world) x :
  Accounts.user_of u a = Some x →
  match Sessions._reset_password u h c a with
  | (Ok _, a') =>
      Accounts.user_of u a' = Some (Accounts.touch (Accounts.clock a) (Accounts.set_version (Accounts.token_version x + 1)
        (Accounts.touch (Accounts.clock a) (Accounts.set_lock false None 0 (Accounts.set_password h x)))))
      ∧ (∀ v, v ≠ u → Accounts.user_of v a' = Accounts.user_of v a)
      ∧ Login.dead u a a'
  | (Raise _, _) => True
  end.
Proof.
  intros Hx. unfold Sessions._reset_password, Accounts.update_user. rewrite run_modify.
  set (a1 := Accounts.set_users _ a).
  set (y := Accounts.touch (Accounts.clock a) (Accounts.set_lock false None 0 (Accounts.set_password h x))).
  assert (Hy : Accounts.user_of u a1 = Some y).
  { unfold a1, y, Accounts.user_of in *. cbn. by rewrite lookup_alter_eq, Hx. }
  destruct (Accounts.revoke_all_refresh_tokens u c a1) as [[[]|e] a2] eqn:Hr.
  2: { by rewrite (bind_err _ _ _ _ _ Hr). }
  rewrite (bind_ok _ _ _ _ _ Hr). simpl.
  assert (Hd : Login.dead u a a2).
  { apply (Login.dead_before u a a1); [|by apply (Login.revoke_all_dead u c)]. apply Accounts.later_update. intros z. simpl. lia. }
  unfold Accounts.revoke_all_refresh_tokens, Accounts.revoke_all_for_user in Hr. rewrite run_modify in Hr.
  set (a1' := Accounts.set_refresh _ a1) in Hr. assert (Hy' : Accounts.user_of u a1' = Some y) by exact Hy. destruct (int32 (Accounts.token_version y + 1)) eqn:Hi.
  - destruct (Accounts.bump_run u c a1' y Hy Hi) as (a3 & Hb & Hself & Hother & _ & _ & _ & _).
    rewrite (bind_ok _ _ _ _ _ Hb) in Hr. injection Hr as <-. split_and!.
    + exact Hself.
    + intros v Hv. transitivity (Accounts.user_of v a1'); [by apply Hother|]. unfold a1', a1, Accounts.user_of. cbn. by rewrite lookup_alter_ne.
    + destruct Hd as [D1 D2]. by split.
  - unfold Accounts.bump_token_version in Hr. rewrite bind_assoc in Hr. rewrite run_gets, Hy' in Hr. rewrite bind_assoc in Hr.
    by rewrite run_raise_when, Hi in Hr.
Qed.

Section earned.
Context {T : Type} (jwt_encode : Sessions.Claims → T) (jwt_decode : string → Z → T → option Sessions.Claims) (ks : Keys)
  (st : Sessions.Settings) (ls : LoginSettings) (fs : Login.Factors).

Abbreviation run := (run_op jwt_encode jwt_decode ks st ls fs).
Abbreviation reachable := (reach jwt_encode jwt_decode ks st ls fs).
Abbreviation op := (op (T:=T)).

(** A code that was sent to [contact] for resetting: it was open and unexpired,
    its hash is that of what was entered, and now it is used. *)
Definition code_fits (c : channel) (contact code : string) (w : world) (k : uuid) (v : Verification) : Prop :=
  codes (ext w) !! k = Some v ∧ open_code c contact "reset" v ∧ (now_of w < v_expires v)%Z
  ∧ v_code_hash v = hash_code (hmac ks) code "reset" contact (v_nonce v).

Definition code_accepted (contact code : string) (w w' : world) : Prop :=
  ∃ c k v, detect contact = Ok c ∧ code_fits c contact code w k v ∧ ∃ v', codes (ext w') !! k = Some v' ∧ v_used v' = true.

(** The three requests that prove the contact of [u] for the transaction [t]: by a
    code for an address of [u], *)
Definition by_code (u : uuid) (t : string) (o : op) (w w' : world) : Prop :=
  ∃ c ch contact code pw cache req x, o = RecoverVerify c contact code pw t cache req
    ∧ detect contact = Ok ch ∧ find_user ch contact w = Some (u, x) ∧ code_accepted contact code w w'.

(** by a link for an address of [u], unused and unexpired, which is now used, *)
Definition by_link (u : uuid) (t : string) (o : op) (w w' : world) : Prop :=
  ∃ token pw cache req l x, o = RecoverLink token pw t cache req
    ∧ links (ext w) !! sha256 ks token = Some l ∧ l_purpose l = "reset"%string ∧ l_used l = false ∧ (now_of w < l_expires l)%Z
    ∧ find_user EMAIL (l_email l) w = Some (u, x)
    ∧ ∃ l', links (ext w') !! sha256 ks token = Some l' ∧ l_used l' = true.

(** and by a code for the contact with which an administrator began. *)
Definition by_admin_code (u : uuid) (t contact : string) (o : op) (w w' : world) : Prop :=
  ∃ code req r, o = AdminVerifyContact t code req ∧ recoveries (ext w) !! t = Some r ∧ r_user r = u ∧ r_contact r = contact
    ∧ code_accepted contact code w w'.

Definition begins (u : uuid) (t contact : string) (o : op) (w : world) : Prop :=
  ∃ n nonce new req x, o = AdminBegin contact t n nonce new req ∧ find_by_email_or_phone contact w = Some (u, x)
    ∧ Accounts.account_level x = "admin"%string.

(** The second factor of [u], with a token that was issued for [t]: a recovery code
    or a time-based one, used up by this request. *)
Definition proves_factor (u : uuid) (t : string) (o : op) (w w' : world) : Prop :=
  ∃ token code rc trust req c, o = Verify2fa token code rc trust req ∧ decode_temp_token ks (now_of w) token = Ok c
    ∧ t_user c = u ∧ t_purpose c = "recovery"%string ∧ t_txn c = Some t ∧ factor_proved ks fs u code rc w w'.

(** What one request may bring forward: for the contact of a user, for the second
    factor, for a beginning with a contact. *)
Record evidence := Evidence {
  for_contact : uuid → string → Prop; for_factor : uuid → string → Prop; for_begin : uuid → string → string → Prop
}.

Definition contact_by (u : uuid) (t : string) (o : op) (w w' : world) : Prop :=
  by_code u t o w w' ∨ by_link u t o w w' ∨ ∃ contact, by_admin_code u t contact o w w'.

Definition brings (o : op) (w w' : world) : evidence :=
  Evidence (λ u t, contact_by u t o w w') (λ u t, proves_factor u t o w w') (λ u t contact, begins u t contact o w).

Definition nothing : evidence := Evidence (λ _ _, False) (λ _ _, False) (λ _ _ _, False).

Definition quiet (w w' : world) : Prop := recoveries (ext w') = recoveries (ext w) ∧ usages (ext w') = usages (ext w).

#[local] Instance quiet_preorder : PreOrder quiet.
Proof. split; [by intros w|]. intros a b c [] []. split; congruence. Qed.

Lemma quiet_auth {A} (m : Accounts.M A) : respects quiet (auth m).
Proof. intros w. unfold auth, zoom. by destruct (m (acc w)). Qed.

Lemma quiet_lift {A} (o : outcome err A) : respects quiet (lift o).
Proof. by intros w. Qed.

Lemma quiet_for_each {A} (l : list A) (body : A → M ()) : (∀ a, respects quiet (body a)) → respects quiet (for_each l body).
Proof. intros Hb. induction l as [|a l IH]; simpl; respects. Qed.
#[local] Hint Resolve quiet_auth quiet_lift quiet_for_each : respects.
#[local] Hint Extern 1 (respects quiet (modify _)) => apply respects_modify; intros; split; reflexivity : respects.

(** What one request may change about recoveries and used tokens, given what it
    brings forward. *)
Definition delta (E : evidence) (w w' : world) : Prop :=
  (∀ t r', recoveries (ext w') !! t = Some r' →
     (∃ r, recoveries (ext w) !! t = Some r ∧ r_user r' = r_user r ∧ r_contact r' = r_contact r
        ∧ (contact_verified r = true → contact_verified r' = true)
        ∧ (contact_verified r' = true → contact_verified r = true ∨ for_contact E (r_user r) t)
        ∧ (totp_verified r' = true → totp_verified r = true ∨
             ∃ h us, usages (ext w) !! h = Some us ∧ tu_user us = r_user r ∧ tu_purpose us = "recovery"%string ∧ tu_txn us = Some t))
     ∨ totp_verified r' = false
       ∧ (if contact_verified r' then for_contact E (r_user r') t else for_begin E (r_user r') t (r_contact r')))
  ∧ (∀ h us, usages (ext w') !! h = Some us → usages (ext w) !! h = Some us ∨
       (tu_purpose us = "recovery"%string → ∀ t, tu_txn us = Some t → for_factor E (tu_user us) t)).

Lemma delta_mono (E E' : evidence) w w' : delta E w w' →
  (∀ u t, for_contact E u t → for_contact E' u t) → (∀ u t, for_factor E u t → for_factor E' u t) →
  (∀ u t c, for_begin E u t c → for_begin E' u t c) → delta E' w w'.
Proof.
  intros [D1 D2] HC HF HB. split.
  - intros t r' Hr. destruct (D1 t r' Hr) as [(r & ? & ? & ? & ? & H1 & ?)|[? H1]]; [left|right].
    + exists r. split_and!; try done. intros Hv. destruct (H1 Hv); auto.
    + split; [done|]. destruct (contact_verified r'); auto.
  - intros h us Hh. destruct (D2 h us Hh) as [|H]; [by left|right]. auto.
Qed.

Lemma delta_quiet E w w' : quiet w w' → delta E w w'.
Proof.
  intros [Hr Hu]. split; [|rewrite Hu; auto]. rewrite Hr. intros t r Hk. left. exists r. auto 10.
Qed.

(** A quiet program before or after changes nothing. *)
Lemma wp_quiet {A} (m : M A) w : respects quiet m → wp m (λ _ w', quiet w w') (λ _ _, True) w.
Proof. intros Hm. unfold wp. specialize (Hm w). destruct (m w) as [[a|e] w']; done. Qed.

Lemma wp_grows {A} (m : M A) w : respects grows m → wp m (λ _ w', grows w w') (λ _ _, True) w.
Proof. intros Hm. unfold wp. specialize (Hm w). destruct (m w) as [[a|e] w']; done. Qed.

Lemma delta_trans_l E w w1 w2 : quiet w w1 → delta E w1 w2 → delta E w w2.
Proof. intros [Hr Hu] [H1 H2]. unfold delta. rewrite <- Hr, <- Hu. by split. Qed.

Lemma delta_trans_r E w w1 w2 : delta E w w1 → quiet w1 w2 → delta E w w2.
Proof. intros [H1 H2] [Hr Hu]. unfold delta. rewrite Hr, Hu. by split. Qed.

(** A rate limit shows in no table. *)
Definition same_view (w w1 : world) : Prop :=
  ext w1 = ext w ∧ Accounts.db (acc w1) = Accounts.db (acc w) ∧ now_of w1 = now_of w.

Lemma same_view_quiet w w1 : same_view w w1 → quiet w w1.
Proof. intros (E & _). split; by rewrite E. Qed.

Lemma wp_rate key n wd req w : wp (auth (Login.check_code_rate_limit ls req key n wd)) (λ _ w', same_view w w') (λ _ _, True) w.
Proof.
  unfold wp, auth, zoom. destruct (Login.check_code_rate_limit ls req key n wd (acc w)) as [[[]|e] a] eqn:Hr; [|done].
  apply Login.rate_limit_db in Hr as [Hdb Hck]. by split_and!.
Qed.

Lemma wp_limited {A} key n wd req (m : M A) (Q : A → world → Prop) w :
  (∀ w1, same_view w w1 → wp m Q (λ _ _, True) w1) → wp (limited ls key n wd req m) Q (λ _ _, True) w.
Proof. intros H. unfold limited. wp_step. eapply wp_mono; [apply wp_rate| |done]. intros ? w1 Hq. by apply H. Qed.

Lemma view_find c contact w w1 : same_view w w1 → find_user c contact w1 = find_user c contact w.
Proof. intros (_ & E & _). unfold find_user. by rewrite E. Qed.

Lemma view_factor u code rc w w1 w' : same_view w w1 → factor_proved ks fs u code rc w1 w' → factor_proved ks fs u code rc w w'.
Proof.
  intros (E & D & N). unfold factor_proved, code_proved, totp_proved, max_unused_failed_attempts, totp_of. by rewrite E, D, N.
Qed.

(** Consuming a code, and what it shows in the end. *)
Lemma wp_consume_code c contact code w :
  wp (consume_code (hmac ks) c contact code "reset")
    (λ _ w', ∃ k v, code_fits c contact code w k v ∧ w' = set_codes (alter use_code k) w) (λ _ _, True) w.
Proof.
  pose proof (consume_run (hmac ks) c contact code "reset" w) as H. cbv zeta in H. unfold wp.
  destruct (code_refusal _ _ _ _) as [e|] eqn:Hc.
  - unfold transaction in H. by destruct (consume_code _ _ _ _ _ w) as [[[]|e'] w'].
  - destruct H as (k & v & Hl & ->). rewrite Hl in Hc. apply latest_some in Hl as (Hk & Ho & _). exists k, v. split; [|done].
    unfold code_refusal in Hc. destruct (decide (v_expires v ≤ now_of w)%Z) as [|He]; [done|]. destruct (decide (_ ≤ v_failed v)%Z); [done|].
    destruct (decide (v_code_hash v = _)) as [Hh|]; [|done]. split_and!; [done|done|lia|]. destruct Ho as (_ & Hcon & Hp & _).
    by rewrite Hcon, Hp in Hh.
Qed.

Lemma accepted_later c contact code w w1 k v w' : same_view w w1 → detect contact = Ok c → code_fits c contact code w1 k v →
  grows (set_codes (alter use_code k) w1) w' → code_accepted contact code w w'.
Proof.
  intros (E & _ & N) Hc (Hk & Ho & He & Hh) Hg. exists c, k, v. split; [done|]. split; [unfold code_fits; by rewrite <- E, <- N|].
  assert (Hk' : codes (ext (set_codes (alter use_code k) w1)) !! k = Some (use_code v)) by (cbn; by rewrite lookup_alter_eq, Hk).
  destruct (g_codes _ _ Hg _ _ Hk') as (v' & Hv' & _ & Hu). exists v'. split; [done|]. by apply Hu.
Qed.

Lemma wp_channel contact (Q : channel → world → Prop) w :
  (∀ c, detect contact = Ok c → Q c w) → wp (channel_for contact) Q (λ _ _, True) w.
Proof. intros H. unfold wp, channel_for, lift. destruct (detect contact) as [c|e]; [by apply H|done]. Qed.

(** A new transaction. *)
Lemma delta_new E t r w :
  totp_verified r = false → (if contact_verified r then for_contact E (r_user r) t else for_begin E (r_user r) t (r_contact r)) →
  delta E w (set_recoveries <[t := r]> w).
Proof.
  intros Hf Hc. split; [|auto]. simpl. intros k r' Hk. destruct (decide (k = t)) as [->|Hne].
  - rewrite lookup_insert_eq in Hk. injection Hk as <-. by right.
  - rewrite lookup_insert_ne in Hk by done. left. exists r'. auto 10.
Qed.

(** A step of an old one. *)
Lemma delta_alter E t f w r :
  recoveries (ext w) !! t = Some r → r_user (f r) = r_user r → r_contact (f r) = r_contact r →
  (contact_verified r = true → contact_verified (f r) = true) →
  (contact_verified (f r) = true → contact_verified r = true ∨ for_contact E (r_user r) t) →
  (totp_verified (f r) = true → totp_verified r = true ∨
     ∃ h us, usages (ext w) !! h = Some us ∧ tu_user us = r_user r ∧ tu_purpose us = "recovery"%string ∧ tu_txn us = Some t) →
  delta E w (set_recoveries (alter f t) w).
Proof.
  intros Ht Hu Hc H0 H1 H2. split; [|auto]. simpl. intros k r' Hk. left. destruct (decide (k = t)) as [->|Hne].
  - rewrite lookup_alter_eq, Ht in Hk. injection Hk as <-. exists r. by split_and!.
  - rewrite lookup_alter_ne in Hk by done. exists r'. auto 10.
Qed.

(** The transaction that is started is of [u]. *)
Definition of_user (u : uuid) (t : string) : evidence := Evidence (λ u' t', u' = u ∧ t' = t) (λ _ _, False) (λ _ _ _, False).

Lemma wp_finish u x pw t c w :
  wp (finish_or_start ks u x pw t c) (λ _ w', delta (of_user u t) w w') (λ _ _, True) w.
Proof.
  unfold finish_or_start. wp_step. wp_step. destruct (_user_requires_mfa u x w).
  - unfold _start_user_recovery_txn, create_recovery. wp_step. wp_step. wp_step. wp_step. wp_step. wp_step. wp_step; [done|].
    wp_step. wp_step. by apply delta_new.
  - destruct pw as [[[|] hashed]|]; [done| |done]. unfold _reset_password. wp_step.
    eapply wp_mono; [apply wp_quiet, quiet_auth| |done]. intros ? w1 Hq. wp_step. by apply delta_quiet.
Qed.

Lemma quiet_consume c contact code p : respects quiet (consume_code (hmac ks) c contact code p).
Proof. unfold consume_code, _consume. respects. Qed.

Lemma quiet_create c contact p n nonce new : respects quiet (_create_verification (hmac ks) c contact p n nonce new).
Proof. unfold _create_verification. respects. Qed.

Lemma quiet_temp_token token : respects quiet (_decode_temp_token ks token).
Proof. unfold _decode_temp_token. respects. Qed.

Lemma quiet_link token p req : respects quiet (verify_magic_link jwt_encode ks st token p req).
Proof. unfold verify_magic_link, consume_link. respects. Qed.
#[local] Hint Resolve quiet_consume quiet_create quiet_temp_token quiet_link : respects.

(** Going on after a quiet step. *)
Lemma wp_after_quiet {A B} (m : M A) (f : A → M B) E w :
  respects quiet m → (∀ a w1, quiet w w1 → wp (f a) (λ _ w', delta E w1 w') (λ _ _, True) w1) →
  wp (m ≫= f) (λ _ w', delta E w w') (λ _ _, True) w.
Proof.
  intros Hm Hf. wp_step. eapply wp_mono; [by apply wp_quiet| |done]. simpl. intros a w1 Hq.
  eapply wp_mono; [by apply Hf| |done]. simpl. intros b w2. by apply delta_trans_l.
Qed.

Ltac after_quiet w1 Hq := apply wp_after_quiet; [respects|intros ? w1 Hq].

Lemma wp_contact_route c contact code pw t cache req w :
  wp (recover_verify_route ks ls c contact code pw t cache req)
    (λ _ w', delta (brings (RecoverVerify c contact code pw t cache req) w w') w w') (λ _ _, True) w.
Proof.
  unfold recover_verify_route. apply wp_limited. intros w1 V1. unfold recover_by_contact. wp_step. apply wp_channel. intros ch Hch.
  wp_step. eapply wp_mono; [apply wp_consume_code| |done]. intros [] w2 (k & v & Hfits & ->). set (w2 := set_codes _ w1).
  assert (Hm : wp ('(u, x) ← find_user_by_contact ch contact; finish_or_start ks u x pw t cache)
    (λ _ w', ∃ u x, find_user ch contact w = Some (u, x) ∧ delta (of_user u t) w2 w') (λ _ _, True) w2).
  { wp_step. unfold find_user_by_contact. wp_step. wp_step. wp_step. wp_step; [done|]. destruct a as [u x].
    wp_step. wp_step; [done|]. wp_step. wp_step; [done|]. wp_step. eapply wp_mono; [apply wp_finish| |done].
    intros ? w' Hd. exists u, x. split; [|done]. by rewrite <- (view_find ch contact w w1). }
  assert (Hg : respects grows ('(u, x) ← find_user_by_contact ch contact; finish_or_start ks u x pw t cache)).
  { unfold find_user_by_contact. respects. apply grows_finish. }
  eapply wp_mono; [exact (wp_and _ _ _ _ _ _ Hm (wp_grows _ _ Hg))| |done]. intros a w' [(u & x & Hu & Hd) Hgrow].
  apply (delta_trans_l _ w w2); [destruct V1 as (E1 & _); split; cbn; by rewrite E1|]. eapply delta_mono; [exact Hd| |done|done].
  intros u' t' [-> ->]. left. exists c, ch, contact, code, pw, cache, req, x. split_and!; [done..|]. by eapply accepted_later.
Qed.

Lemma wp_verify_link token req w :
  wp (verify_magic_link jwt_encode ks st token "reset" req)
    (λ _ w', ∃ l, links (ext w) !! sha256 ks token = Some l ∧ l_purpose l = "reset"%string ∧ l_used l = false ∧ (now_of w < l_expires l)%Z
       ∧ w' = set_links (alter use_link (sha256 ks token)) w) (λ _ _, True) w.
Proof.
  unfold verify_magic_link, consume_link. wp_step. wp_step. wp_step. wp_step. wp_step; [done|]. wp_step. wp_step; [done|].
  wp_step. wp_step; [done|]. wp_step. wp_step; [done|]. wp_step. wp_step. wp_step. wp_step. wp_step. wp_step. wp_step; [done|].
  destruct a0 as [u x]. wp_step. wp_step; [done|]. wp_step. wp_step. wp_step. wp_step; [done|]. rewrite decide_True by done. wp_step.
  exists a. apply negb_false_iff in H0. apply bool_decide_eq_true in H0. apply bool_decide_eq_false in H2. split_and!; [done..|lia|done].
Qed.

Lemma wp_link_route token pw t cache req w :
  wp (recover_magic_link_verify_route jwt_encode ks st ls token pw t cache req)
    (λ _ w', delta (brings (RecoverLink token pw t cache req) w w') w w') (λ _ _, True) w.
Proof.
  unfold recover_magic_link_verify_route. apply wp_limited. intros w1 V1. unfold recover_by_magic_link. wp_step.
  eapply wp_mono; [apply wp_verify_link| |done]. intros r w2 (l & Hl & Hp & Hu & He & ->). set (w2 := set_links _ w1).
  assert (Hl2 : links (ext w2) !! sha256 ks token = Some (use_link l)) by (cbn; by rewrite lookup_alter_eq, Hl).
  match goal with |- wp ?m _ _ _ => set (rest := m) end.
  assert (Hm : wp rest (λ _ w', ∃ u x, find_user EMAIL (l_email l) w = Some (u, x) ∧ delta (of_user u t) w2 w') (λ _ _, True) w2).
  { subst rest. wp_step. wp_step. wp_step. wp_step; [done|]. rewrite Hl2 in H. injection H as <-. wp_step. wp_step; [done|].
    destruct a as [u x]. wp_step. wp_step; [done|]. eapply wp_mono; [apply wp_finish| |done].
    intros ? w' Hd. exists u, x. split; [|done]. by rewrite <- (view_find EMAIL (l_email l) w w1). }
  assert (Hg : respects grows rest).
  { subst rest. respects. apply grows_finish. }
  eapply wp_mono; [exact (wp_and _ _ _ _ _ _ Hm (wp_grows _ _ Hg))| |done]. intros a w' [(u & x & Hux & Hd) Hgrow].
  pose proof V1 as (E1 & _ & N1).
  apply (delta_trans_l _ w w2); [split; cbn; by rewrite E1|]. eapply delta_mono; [exact Hd| |done|done].
  intros u' t' [-> ->]. right; left. destruct (g_links _ _ Hgrow _ _ Hl2) as (l' & Hl' & _ & Hused).
  exists token, pw, cache, req, l, x. rewrite <- E1, <- N1. split_and!; [done..|]. exists l'. split; [done|by apply Hused].
Qed.

Lemma wp_admin_begin contact t n nonce new req w :
  wp (recover_admin_begin ks ls contact t n nonce new req)
    (λ _ w', delta (brings (AdminBegin contact t n nonce new req) w w') w w') (λ _ _, True) w.
Proof.
  unfold recover_admin_begin. wp_step. wp_step. cbv zeta.
  assert (Hrest : ∀ E w, wp (auth (Login.check_code_rate_limit ls req ("recover:admin:" +:+ contact)%string RECOVER_ADMIN_BEGIN_MAX (3600 * Accounts.second)) ≫= λ _, mret t)
    (λ _ w', delta (E w') w w') (λ _ _, True) w).
  { intros E v. wp_step. eapply wp_mono; [apply wp_rate| |done]. intros [] v1 Hv. wp_step. by apply delta_quiet, same_view_quiet. }
  destruct (find_by_email_or_phone contact w) as [[u x]|] eqn:Hf; [|apply Hrest]. case_decide as Ha; [|apply Hrest].
  unfold create_recovery. wp_step. wp_step. wp_step. wp_step. wp_step; [done|]. wp_step.
  match goal with |- wp ?m _ _ ?v => assert (Hq : respects quiet m) by (unfold channel_for; respects) end.
  eapply wp_mono; [by apply wp_quiet| |done]. simpl. intros _ w2 H2. eapply delta_trans_r; [|done]. apply delta_new; [done|].
  simpl. by exists n, nonce, new, req, x.
Qed.

Lemma wp_get_recovery t w (Q : RecoveryTransaction → world → Prop) :
  (∀ r, recoveries (ext w) !! t = Some r → Q r w) → wp (_get_recovery_txn t) Q (λ _ _, True) w.
Proof.
  intros HQ. unfold _get_recovery_txn. wp_step. wp_step. wp_step. wp_step; [done|]. wp_step. wp_step; [done|]. wp_step. wp_step; [done|].
  wp_step. by apply HQ.
Qed.

Lemma wp_admin_contact t code req w :
  wp (recover_admin_verify_contact_route ks ls t code req)
    (λ _ w', delta (brings (AdminVerifyContact t code req) w w') w w') (λ _ _, True) w.
Proof.
  unfold recover_admin_verify_contact_route. apply wp_limited. intros w1 V1. unfold recover_admin_verify_contact.
  wp_step. apply wp_get_recovery. intros r Hr. wp_step. apply wp_channel. intros ch Hch.
  wp_step. eapply wp_mono; [apply wp_consume_code| |done]. intros [] w2 (k & v & Hfits & ->). set (w2 := set_codes _ w1).
  wp_step. wp_step. wp_step. wp_step. wp_step. pose proof V1 as (E1 & _).
  apply (delta_trans_l _ w w2); [split; cbn; by rewrite E1|].
  apply (delta_alter _ t verify_contact w2 r); [done|done|done|done| |by left].
  right. right; right. exists (r_contact r), code, req, r. rewrite <- E1. split_and!; [done..|].
  eapply accepted_later; [done..|]. by apply grows_recovery_alter.
Qed.

Lemma wp_verify_totp action t token req w :
  wp (recover_verify_totp_route ks ls action t token req) (λ _ w', delta nothing w w') (λ _ _, True) w.
Proof.
  unfold recover_verify_totp_route, limited, recover_admin_verify_totp. after_quiet w1 H1.
  wp_step. apply wp_get_recovery. intros r Hr. after_quiet w2 H2. after_quiet w3 H3.
  wp_step. wp_step; [done|]. apply bool_decide_eq_false, dec_stable in H. wp_step. wp_step; [done|]. wp_step. wp_step; [done|].
  wp_step. wp_step. wp_step. wp_step; [done|]. wp_step.
  assert (Hr3 : recoveries (ext w3) !! t = Some r) by (destruct H2 as [H2 _], H3 as [H3 _]; congruence).
  apply (delta_alter _ t verify_factor w3 r); [done|done|done|done|by left|]. intros _. right.
  apply negb_false_iff in H5. unfold recovery_usage in H5. destruct (usages (ext w3) !! sha256 ks token) as [us|] eqn:Hus; [|done].
  apply andb_true_iff in H5 as [[[Ha%bool_decide_eq_true Hb%bool_decide_eq_true]%andb_true_iff Hc%bool_decide_eq_true]%andb_true_iff _].
  exists (sha256 ks token), us. split_and!; [done|congruence|done|done].
Qed.

Lemma wp_complete_route admin t hashed cache req w :
  wp (recover_complete_route ls admin t hashed cache req) (λ _ w', delta nothing w w') (λ _ _, True) w.
Proof.
  unfold recover_complete_route, limited, recover_complete, _consume_recovery_txn. after_quiet w1 H1. wp_step. wp_step. wp_step.
  wp_step. wp_step; [done|]. rename a0 into r. wp_step. wp_step; [done|]. wp_step. wp_step. wp_step. wp_step; [done|].
  wp_step. cbv zeta. wp_step. wp_step; [done|].
  eapply wp_mono; [apply wp_quiet; apply quiet_auth| |done]. simpl. intros _ w2 Hq. eapply delta_trans_r; [|done].
  by apply (delta_alter _ t (complete (now_of w1)) w1 r); [| | | |left|left].
Qed.

Lemma wp_verify_route token code rc trust req w :
  wp (verify_2fa_route jwt_encode ks st ls fs token code rc trust req)
    (λ _ w', delta (brings (Verify2fa token code rc trust req) w w') w w') (λ _ _, True) w.
Proof.
  unfold verify_2fa_route. wp_step. wp_step. cbv zeta. wp_step. eapply wp_mono; [apply wp_rate| |done]. intros [] w1 V1.
  eapply wp_mono; [apply wp_verify_2fa| |done]. intros r w3 (c & x & Hd & _ & _ & Hf & _ & Hu & Hr & _).
  apply (delta_trans_l _ w w1); [by apply same_view_quiet|]. split.
  - rewrite Hr. intros t r' Ht. left. exists r'. auto 10.
  - rewrite Hu. intros h us Hh. destruct (decide (h = sha256 ks token)) as [->|Hne].
    + rewrite lookup_insert_eq in Hh. injection Hh as <-. right. simpl. intros Hp t Ht. exists token, code, rc, trust, req, c.
      destruct V1 as (E1 & D1 & N1). rewrite <- N1. split_and!; [done..|]. by apply (view_factor _ _ _ w w1).
    + rewrite lookup_insert_ne in Hh by done. by left.
Qed.

Lemma wp_delta o w : wp (body jwt_encode jwt_decode ks st ls fs o) (λ _ w', delta (brings o w w') w w') (λ _ _, True) w.
Proof.
  assert (Hig : ∀ A (m : M A), wp m (λ _ w', delta (brings o w w') w w') (λ _ _, True) w →
    wp (ignore m) (λ _ w', delta (brings o w w') w w') (λ _ _, True) w).
  { intros A m H. unfold ignore. wp_step. eapply wp_mono; [exact H| |done]. simpl. intros a w' Hd. by wp_step. }
  assert (Hno : ∀ A (m : M A), wp m (λ _ w', delta nothing w w') (λ _ _, True) w → wp m (λ _ w', delta (brings o w w') w w') (λ _ _, True) w).
  { intros A m H. eapply wp_mono; [exact H| |done]. simpl. intros a w' Hd. by eapply delta_mono. }
  assert (Hq : respects quiet (body jwt_encode jwt_decode ks st ls fs o) →
    wp (body jwt_encode jwt_decode ks st ls fs o) (λ _ w', delta (brings o w w') w w') (λ _ _, True) w).
  { intros H. eapply wp_mono; [by apply wp_quiet| |done]. intros ? w' Hq. by apply delta_quiet. }
  destruct o; simpl in *;
    first [ solve [apply Hig; auto using wp_contact_route, wp_link_route, wp_admin_begin, wp_admin_contact, wp_verify_route]
          | solve [apply Hno; auto using wp_verify_totp, wp_complete_route] | apply Hq]; clear Hig Hno Hq; unfold ignore, recover_send, limited, login_code_request, login_code_route,
    login_code, channel_for, request_magic_link, magic_link_verify_route, setup_2fa_temp, setup_2fa_complete_temp, setup_2fa_complete,
    setup_2fa_begin, put_totp, confirm_recovery_codes_saved, disable_2fa, verify_second_factor, consume_recovery_code,
    _check_recovery_locked, consume_recovery_rows, update_codes, add_recovery_code, _decode_setup_temp_token, consume_setup; respects.
  all: apply quiet_for_each; intros kp; by respects.
Qed.

(** The request [o] succeeded among those of [tr], from [w1] to [w1']. *)
Definition happened (w0 : world) (tr : list op) (o : op) (w1 w1' : world) : Prop :=
  ∃ before, reachable w0 w1 before ∧ run o w1 = (Ok tt, w1') ∧ (before ++ [o]) `prefix_of` tr.

Definition factor_shown (w0 : world) (tr : list op) (u : uuid) (t : string) : Prop :=
  ∃ o w1 w1', happened w0 tr o w1 w1' ∧ proves_factor u t o w1 w1'.

Definition begun (w0 : world) (tr : list op) (u : uuid) (t contact : string) : Prop :=
  ∃ o w1 w1', happened w0 tr o w1 w1' ∧ begins u t contact o w1.

Definition contact_shown (w0 : world) (tr : list op) (u : uuid) (t : string) : Prop :=
  ∃ o w1 w1', happened w0 tr o w1 w1'
    ∧ (by_code u t o w1 w1' ∨ by_link u t o w1 w1' ∨ ∃ contact, by_admin_code u t contact o w1 w1' ∧ begun w0 tr u t contact).

Lemma happened_app w0 tr o2 o w1 w1' : happened w0 tr o w1 w1' → happened w0 (tr ++ [o2]) o w1 w1'.
Proof. intros (b & Hb & Hr & Hp). exists b. split_and!; [done..|]. by apply prefix_app_r. Qed.

Lemma shown_app {w0 tr} o {u t} :
  (factor_shown w0 tr u t → factor_shown w0 (tr ++ [o]) u t)
  ∧ (∀ contact, begun w0 tr u t contact → begun w0 (tr ++ [o]) u t contact)
  ∧ (contact_shown w0 tr u t → contact_shown w0 (tr ++ [o]) u t).
Proof.
  assert (Hb : ∀ contact, begun w0 tr u t contact → begun w0 (tr ++ [o]) u t contact).
  { intros contact (o1 & w1 & w2 & Hh & H). exists o1, w1, w2. split; [by apply happened_app|done]. }
  split_and!; [|exact Hb|].
  - intros (o1 & w1 & w2 & Hh & H). exists o1, w1, w2. split; [by apply happened_app|done].
  - intros (o1 & w1 & w2 & Hh & H). exists o1, w1, w2. split; [by apply happened_app|]. destruct H as [|[|(c & H & Hc)]]; [by left|by right; left|].
    right; right. exists c. auto.
Qed.

(** What the requests so far justify. *)
Record justified (w0 w : world) (tr : list op) : Prop := {
  j_contact t r : recoveries (ext w) !! t = Some r → contact_verified r = true → contact_shown w0 tr (r_user r) t;
  j_begun t r : recoveries (ext w) !! t = Some r → contact_verified r = false → begun w0 tr (r_user r) t (r_contact r);
  j_factor t r : recoveries (ext w) !! t = Some r → totp_verified r = true → factor_shown w0 tr (r_user r) t;
  j_usage h us t : usages (ext w) !! h = Some us → tu_purpose us = "recovery"%string → tu_txn us = Some t →
    factor_shown w0 tr (tu_user us) t;
  j_complete admin t h c req : Complete admin t h c req ∈ tr → ∃ r, recoveries (ext w) !! t = Some r ∧ r_consumed r = true
}.

Lemma justified_done w0 w tr o w' : justified w0 w tr → happened w0 (tr ++ [o]) o w w' → delta (brings o w w') w w' → grows w w' →
  (∀ admin t h c req, o = Complete admin t h c req → ∃ r, recoveries (ext w') !! t = Some r ∧ r_consumed r = true) →
  justified w0 w' (tr ++ [o]).
Proof.
  intros [J1 J0 J2 J3 J4] Hh [D1 D2] Hg Hc. split.
  - intros t r' Ht Hv. assert (Hby : ∀ u, contact_by u t o w w' → contact_shown w0 (tr ++ [o]) u t).
    { intros u H. destruct H as [H|[H|(contact & H)]]; [exists o, w, w'; by auto..|].
      pose proof H as (code & req & r2 & _ & Hr2 & <- & <- & _). destruct (contact_verified r2) eqn:Hcv; [by apply shown_app, J1|].
      exists o, w, w'. split; [done|]. right; right. exists (r_contact r2). split; [done|]. by apply shown_app, J0. }
    destruct (D1 t r' Ht) as [(r & Hr & -> & _ & _ & H1 & _)|[_ H1]].
    + destruct (H1 Hv) as [|H]; [by apply shown_app, J1|by apply Hby].
    + rewrite Hv in H1. by apply Hby.
  - intros t r' Ht Hv. destruct (D1 t r' Ht) as [(r & Hr & Hu & Hcon & H0 & _)|[_ H1]].
    + rewrite Hu, Hcon. apply shown_app, J0; [done|]. destruct (contact_verified r); [|done]. by rewrite H0 in Hv.
    + rewrite Hv in H1. by exists o, w, w'.
  - intros t r' Ht Hv. destruct (D1 t r' Ht) as [(r & Hr & Hu & _ & _ & _ & H2)|[H2 _]]; [|congruence]. rewrite Hu.
    destruct (H2 Hv) as [H|(h & us & Hus & <- & Hp & Hx)]; [by apply shown_app, J2|by eapply shown_app, J3].
  - intros h us t Hus Hp Hx. destruct (D2 h us Hus) as [H|H]; [by eapply shown_app, J3|]. exists o, w, w'. split; [done|]. by apply H.
  - intros admin t h c req [Hin|Hin]%elem_of_app.
    + destruct (J4 _ _ _ _ _ Hin) as (r & Hr & Hcons). destruct (g_recoveries _ _ Hg t r Hr) as (r' & Hr' & _ & _ & _ & H).
      exists r'. auto.
    + apply list_elem_of_singleton in Hin. by eapply Hc.
Qed.

Lemma justified_same w0 w w' tr : justified w0 w tr → ext w' = ext w → justified w0 w' tr.
Proof. intros [J1 J0 J2 J3 J4] He. split; rewrite He; auto. Qed.

Lemma complete_consumes admin t hashed cache req w :
  wp (recover_complete_route ls admin t hashed cache req)
    (λ _ w', ∃ r x, recoveries (ext w) !! t = Some r ∧ completable (now_of w) r = true ∧ user_in (r_user r) w = Some x
       ∧ (Accounts.account_level x = "admin"%string ↔ admin = true)
       ∧ recoveries (ext w') = <[t := complete (now_of w) r]> (recoveries (ext w))
       ∧ (∃ x', user_in (r_user r) w' = Some x' ∧ Accounts.hashed_password x' = hashed ∧ Accounts.is_locked x' = false
            ∧ Accounts.failed_login_attempts x' = 0%Z ∧ Accounts.token_version x' = (Accounts.token_version x + 1)%Z)
       ∧ (∀ v, v ≠ r_user r → user_in v w' = user_in v w)
       ∧ Login.dead (r_user r) (acc w) (acc w')) (λ _ _, True) w.
Proof.
  unfold recover_complete_route, limited, recover_complete, _consume_recovery_txn, _reset_password.
  wp_step. unfold auth at 1, wp at 1, zoom at 1.
  destruct (Login.check_code_rate_limit _ _ _ _ _ (acc w)) as [[[]|e] a1] eqn:Hrate; [|done].
  apply Login.rate_limit_db in Hrate as [Hdb Hck].
  set (w1 := set_acc a1 w). assert (Hn : now_of w1 = now_of w) by done.
  assert (Hui : ∀ v, user_in v w1 = user_in v w) by (intros v; unfold user_in, Accounts.user_of; cbn; by rewrite Hdb).
  wp_step. wp_step. wp_step. wp_step. wp_step; [done|]. rename a into r, H into Hr. wp_step. wp_step; [done|].
  apply negb_false_iff in H. wp_step. wp_step. wp_step. wp_step; [done|]. rename a into x, H0 into Hx. wp_step. cbv zeta.
  wp_step. wp_step; [done|]. set (w2 := set_recoveries _ w1).
  assert (Hlevel : Accounts.account_level x = "admin"%string ↔ admin = true).
  { destruct admin; case_bool_decide; naive_solver. }
  unfold auth, wp, zoom. rewrite Hui in Hx.
  assert (Hx2 : Accounts.user_of (r_user r) (acc w2) = Some x) by (rewrite <- Hx; apply Hui).
  pose proof (reset_password_run (r_user r) hashed cache (acc w2) x Hx2) as Hreset.
  destruct (Sessions._reset_password _ _ _ (acc w2)) as [[[]|e] a3]; [|done]. destruct Hreset as (Hself & Hother & Hdead).
  exists r, x. rewrite <- Hn. split_and!; [exact Hr|exact H|exact Hx|exact Hlevel| | | |].
  - simpl. by apply alter_as_insert.
  - eexists. split; [exact Hself|done].
  - intros v Hv. rewrite <- Hui. exact (Hother v Hv).
  - destruct Hdead as [D1 D2]. split.
    + intros h t' Hh Hu. apply (D1 h t'); [|done]. cbn. by rewrite Hdb.
    + intros x0 Hx0. apply D2. rewrite <- Hx0. apply Hui.
Qed.

Lemma reach_justified w0 w tr : recoveries (ext w0) = ∅ → usages (ext w0) = ∅ → reachable w0 w tr → justified w0 w tr.
Proof.
  intros Hr0 Hu0. induction 1 as [|w tr o w' Hreach IH Hrun|w tr o e w' Hreach IH Hrun|w tr t Hreach IH Ht].
  - split; intros *; rewrite ?Hr0, ?Hu0, ?lookup_empty; try done. by intros ?%elem_of_nil.
  - assert (Hg : grows w w') by (by eapply (respects_run grows); [apply (grows_run jwt_encode jwt_decode ks st ls fs)|]).
    unfold run_op, transaction in Hrun. pose proof (wp_delta o w) as Hd. unfold wp in Hd.
    destruct (body _ _ _ _ _ _ o w) as [[[]|e] w1] eqn:Hb; [|done]. injection Hrun as <-.
    apply (justified_done w0 w tr o); [done| |done|done|].
    { exists tr. split_and!; [done| |done]. unfold run_op, transaction. by rewrite Hb. } intros admin t h c req ->. simpl in Hb.
    pose proof (complete_consumes admin t h c req w) as Hc. unfold wp in Hc. rewrite Hb in Hc.
    destruct Hc as (r & x & _ & _ & _ & _ & -> & _). exists (complete (now_of w) r). by rewrite lookup_insert_eq.
  - unfold run_op, transaction in Hrun. destruct (body _ _ _ _ _ _ o w) as [[[]|e'] w1]; [done|]. injection Hrun as _ <-.
    by eapply justified_same.
  - by eapply justified_same.
Qed.
End earned.

(** C28: Recovering a password: in any sequence of requests, a recovery transaction
    is completed only while it is unexpired, only once, and only at the end that
    suits the level of the account. Before that, a request has proved the contact
    of its user: in the world of that request a code for resetting that had been
    stored for the contact was open, unexpired and the one that was entered, or a
    link for resetting was unused and unexpired; it was used up by that request;
    and the contact is the address or number of the user, or the one with which an
    administrator began the transaction. And a request has proved the second factor
    of the user with a token issued for this very transaction: in its world a
    recovery code or a time-based one was good, and is used up. The user then has
    the new password, no lock and no failures, all sessions of the user are dead,
    and nobody else changes. *)
Theorem recovery_earned {T} (jwt_encode : Sessions.Claims → T) (jwt_decode : string → Z → T → option Sessions.Claims) (ks : Keys)
    (st : Sessions.Settings) (ls : LoginSettings) (fs : Login.Factors) w0 w tr admin t hashed cache req w'
    (Hr0 : recoveries (ext w0) = ∅) (Hu0 : usages (ext w0) = ∅)
    (Hreach : reach jwt_encode jwt_decode ks st ls fs w0 w tr)
    (Hrun : run_op jwt_encode jwt_decode ks st ls fs (Complete admin t hashed cache req) w = (Ok tt, w')) :
  ∃ r x, recoveries (ext w) !! t = Some r ∧ (now_of w < r_expires r)%Z ∧ user_in (r_user r) w = Some x
    ∧ (Accounts.account_level x = "admin"%string ↔ admin = true)
    ∧ contact_shown jwt_encode jwt_decode ks st ls fs w0 tr (r_user r) t
    ∧ factor_shown jwt_encode jwt_decode ks st ls fs w0 tr (r_user r) t
    ∧ (∀ admin2 h c rq, Complete admin2 t h c rq ∉ tr)
    ∧ (∃ x', user_in (r_user r) w' = Some x' ∧ Accounts.hashed_password x' = hashed ∧ Accounts.is_locked x' = false
         ∧ Accounts.failed_login_attempts x' = 0%Z ∧ Accounts.token_version x' = (Accounts.token_version x + 1)%Z)
    ∧ (∀ v, v ≠ r_user r → user_in v w' = user_in v w)
    ∧ Login.dead (r_user r) (acc w) (acc w').
Proof.
  destruct (reach_justified jwt_encode jwt_decode ks st ls fs w0 w tr Hr0 Hu0 Hreach) as [J1 _ J2 _ J4].
  unfold run_op, transaction in Hrun. simpl in Hrun. pose proof (complete_consumes jwt_decode ls admin t hashed cache req w) as H.
  unfold wp in H. destruct (recover_complete_route ls admin t hashed cache req w) as [[[]|e] w1]; [|done]. injection Hrun as <-.
  destruct H as (r & x & Hr & Hc & Hx & Hl & _ & Hnew & Hother & Hdead). unfold completable in Hc.
  apply andb_true_iff in Hc as [[[Hcons%negb_true_iff Hct]%andb_true_iff Htv]%andb_true_iff He%bool_decide_eq_true].
  exists r, x. split_and!; try done.
  - by eapply J1.
  - by eapply J2.
  - intros admin2 h c rq Hin. destruct (J4 _ _ _ _ _ Hin) as (r' & Hr' & Hcons'). congruence.
Qed.

(** C30: Second factors and failures: in every reachable world, whoever has recovery
    codes, or has confirmed to have saved them, has an enabled second factor; and
    no failure of a verification code or a recovery code is ever counted, since the
    request that fails is rolled back. *)
Theorem second_factors_sound {T} (jwt_encode : Sessions.Claims → T) (jwt_decode : string → Z → T → option Sessions.Claims) (ks : Keys)
    (st : Sessions.Settings) (ls : LoginSettings) (fs : Login.Factors) w0 w tr
    (Hstart : sound w0) (Hreach : reach jwt_encode jwt_decode ks st ls fs w0 w tr) :
  sound w.
Proof.
  induction Hreach as [|w tr o w' _ IH Hrun|w tr o e w' _ IH Hrun|w tr t _ IH Ht]; [done|..].
  - pose proof (keeps_run jwt_encode jwt_decode ks st ls fs o w IH) as H. by rewrite Hrun in H.
  - pose proof (keeps_run jwt_encode jwt_decode ks st ls fs o w IH) as H. by rewrite Hrun in H.
  - by apply sound_acc.
Qed.

(** Used up for good: a magic link that was used, a temporary token that was
    accepted, a set-up token that was consumed and a recovery transaction that was
    completed are refused in whatever follows, and a verification code that was used
    is never the one that counts again. *)
Theorem spent_stays_spent {T} (jwt_encode : Sessions.Claims → T) (jwt_decode : string → Z → T → option Sessions.Claims) (ks : Keys)
    (st : Sessions.Settings) (ls : LoginSettings) (fs : Login.Factors) w0 w tr
    (Hreach : reach jwt_encode jwt_decode ks st ls fs w0 w tr) :
  (∀ token l purpose req, links (ext w0) !! sha256 ks token = Some l → l_used l = true →
     verify_magic_link jwt_encode ks st token purpose req w = (Raise TOKEN_INVALID, w))
  ∧ (∀ token us code rc trust req, usages (ext w0) !! sha256 ks token = Some us →
       ∃ e, (verify_2fa jwt_encode ks st fs token code rc trust req w).1 = Raise e)
  ∧ (∀ token s code plains req, setups (ext w0) !! sha256 ks token = Some s → st_consumed s = true →
       setup_2fa_complete_temp jwt_encode ks st fs token code plains req w = (Raise TOKEN_INVALID, w))
  ∧ (∀ t r admin hashed cache code token, recoveries (ext w0) !! t = Some r → r_consumed r = true →
       recover_complete admin t hashed cache w = (Raise TOKEN_INVALID, w)
       ∧ recover_admin_verify_contact ks t code w = (Raise TOKEN_INVALID, w)
       ∧ recover_admin_verify_totp ks t token w = (Raise TOKEN_INVALID, w))
  ∧ (∀ k v, codes (ext w0) !! k = Some v → v_used v = true →
       ∀ c contact p v', _latest_verification c contact p w ≠ Some (k, v')).
Proof.
  apply reach_evolves in Hreach as [_ Gc Gl Gu Gs Gr]. split_and!.
  - intros token l purpose req Hl Hu. destruct (Gl _ _ Hl) as (l' & Hl' & _ & H). unfold verify_magic_link, consume_link.
    rewrite bind_assoc. rewrite run_get_state. rewrite bind_assoc. rewrite run_get_or_raise, Hl'. rewrite bind_assoc, run_raise_when.
    destruct (negb _); [done|]. rewrite bind_assoc, run_raise_when, H by done. done.
  - intros token us code rc trust req Hus. destruct (Gu _ _ Hus) as (us' & Hus' & _).
    pose proof (wp_verify_2fa jwt_encode ks st fs token code rc trust req w) as H. unfold wp in H.
    destruct (verify_2fa jwt_encode ks st fs token code rc trust req w) as [[r|e] w1]; [|by exists e].
    destruct H as (c & _ & _ & _ & _ & _ & Hn & _). congruence.
  - intros token s code plains req Hs Hc. destruct (Gs _ _ Hs) as (s' & Hs' & _ & H).
    unfold setup_2fa_complete_temp, _decode_setup_temp_token, _decode_temp_token. rewrite !bind_assoc. rewrite run_get_state.
    unfold lift, mbind at 1, prog_bind at 1. unfold decode_temp_token. destruct (temp_decode ks _ token) as [c|]; [|done].
    case_decide; [|done]. rewrite bind_assoc, run_raise_when. case_bool_decide; simpl negb; cbv iota; [|done].
    unfold consume_setup. rewrite bind_left_id. rewrite bind_assoc, run_get_state, bind_assoc, run_get_or_raise, Hs'.
    rewrite bind_assoc, run_raise_when, H by done. done.
  - intros t r admin hashed cache code token Hr Hc. destruct (Gr _ _ Hr) as (r' & Hr' & _ & _ & _ & H). specialize (H Hc). split_and!.
    + unfold recover_complete, _consume_recovery_txn. rewrite bind_assoc, run_get_state, bind_assoc, run_get_or_raise, Hr'.
      rewrite bind_assoc, run_raise_when. unfold completable. by rewrite H.
    + unfold recover_admin_verify_contact, _get_recovery_txn.
      by rewrite bind_assoc, run_get_state, bind_assoc, run_get_or_raise, Hr', bind_assoc, run_raise_when, H.
    + unfold recover_admin_verify_totp, _get_recovery_txn.
      by rewrite bind_assoc, run_get_state, bind_assoc, run_get_or_raise, Hr', bind_assoc, run_raise_when, H.
  - intros k v Hk Hu c contact p v' Hl. destruct (Gc _ _ Hk) as (v2 & Hk2 & _ & H).
    apply latest_some in Hl as (Hk3 & (_ & _ & _ & Hf) & _). simplify_eq. rewrite H in Hf by done. done.
Qed.

(** ** Witnesses *)
Definition plain_run (o : op (T:=Sessions.Claims)) (w : world) : outcome err () * world :=
  run_op (λ c, c) Sessions.plain_decode plain_keys Sessions.plain_settings Login.no_redis one_factor o w.

Definition recovery_trace : list (op (T:=Sessions.Claims)) :=
  [SendCode EMAIL "ada@example.org" 123456 "n" (uuid_of_N 1) Login.some_request;
   RecoverVerify EMAIL "ada@example.org" "123456" None "t1" None Login.some_request;
   Verify2fa "t1" (Some "654321"%string) None false Login.some_request;
   VerifyTotp "user-verify-totp" "t1" "t1" Login.some_request].

Definition play (os : list (op (T:=Sessions.Claims))) (w : world) : world := foldl (λ w o, (plain_run o w).2) w os.

Definition succeeds (o : op (T:=Sessions.Claims)) (w : world) : bool :=
  match (plain_run o w).1 with Ok _ => true | Raise _ => false end.

Fixpoint all_succeed (os : list (op (T:=Sessions.Claims))) (w : world) : bool :=
  match os with [] => true | o :: os => succeeds o w && all_succeed os (plain_run o w).2 end.

Lemma play_reach os w0 w tr :
  all_succeed os w = true → reach (λ c, c) Sessions.plain_decode plain_keys Sessions.plain_settings Login.no_redis one_factor w0 w tr →
  reach (λ c, c) Sessions.plain_decode plain_keys Sessions.plain_settings Login.no_redis one_factor w0 (play os w) (tr ++ os).
Proof.
  revert w tr. induction os as [|o os IH]; intros w tr Ha Hr; simpl; [by rewrite app_nil_r|].
  simpl in Ha. apply andb_true_iff in Ha as [Ho Ha]. unfold succeeds in Ho.
  destruct (plain_run o w) as [[[]|e] w'] eqn:He; [|done]. simpl in *.
  replace (tr ++ o :: os) with ((tr ++ [o]) ++ os) by (by rewrite <- app_assoc). apply IH; [done|].
  by eapply reach_done.
Qed.

Lemma recovery_reached : all_succeed recovery_trace with_factor = true.
Proof. vm_compute. reflexivity. Qed.

Definition last_step : op (T:=Sessions.Claims) := Complete false "t1" "new hash" None Login.some_request.

Lemma recovery_earned_witness :
  ∃ x', user_in ada (plain_run last_step (play recovery_trace with_factor)).2 = Some x'
    ∧ Accounts.hashed_password x' = "new hash"%string.
Proof.
  destruct (recovery_earned (λ c, c) Sessions.plain_decode plain_keys Sessions.plain_settings Login.no_redis one_factor with_factor
    (play recovery_trace with_factor) recovery_trace false "t1" "new hash" None Login.some_request
    (plain_run last_step (play recovery_trace with_factor)).2) as (r & x & Hr & _ & _ & _ & _ & _ & _ & (x' & Hx' & Hh & _) & _).
  - reflexivity.
  - reflexivity.
  - apply (play_reach recovery_trace with_factor with_factor []); [exact recovery_reached|apply reach_start].
  - apply Login.with_result. vm_compute. reflexivity.
  - exists x'. split; [|exact Hh]. rewrite <- Hx'. f_equal.
    assert (Hu : (uuid_int ∘ r_user <$> recoveries (ext (play recovery_trace with_factor)) !! "t1"%string) = Some 7%N) by (vm_compute; reflexivity).
    rewrite Hr in Hu. injection Hu as Hu. symmetry. by apply uuid_int_inj.
Defined.

Lemma sound_with_factor : sound with_factor.
Proof. split; intros *; simpl; rewrite ?lookup_empty; set_solver. Qed.

Lemma second_factors_sound_witness : sound (play recovery_trace with_factor).
Proof.
  apply (second_factors_sound (λ c, c) Sessions.plain_decode plain_keys Sessions.plain_settings Login.no_redis one_factor with_factor
    (play recovery_trace with_factor) recovery_trace).
  - exact sound_with_factor.
  - apply (play_reach recovery_trace with_factor with_factor []); [exact recovery_reached|apply reach_start].
Defined.

(** The token of the second factor, tried again after the trace. *)
Lemma spent_stays_spent_witness :
  ∃ e, (verify_2fa (λ c, c) plain_keys Sessions.plain_settings one_factor "t1" (Some "654321"%string) None false Login.some_request
          (play [VerifyTotp "user-verify-totp" "t1" "t1" Login.some_request] (play (take 3 recovery_trace) with_factor))).1 = Raise e.
Proof.
  destruct (spent_stays_spent (λ c, c) Sessions.plain_decode plain_keys Sessions.plain_settings Login.no_redis one_factor
    (play (take 3 recovery_trace) with_factor)
    (play [VerifyTotp "user-verify-totp" "t1" "t1" Login.some_request] (play (take 3 recovery_trace) with_factor))
    [VerifyTotp "user-verify-totp" "t1" "t1" Login.some_request]) as (_ & H & _).
  - apply (play_reach _ _ _ []); [vm_compute; reflexivity|apply reach_start].
  - destruct (usages (ext (play (take 3 recovery_trace) with_factor)) !! "t1"%string) as [us|] eqn:Hus; [by apply (H _ us)|].
    assert (Hsome : bool_decide (is_Some (usages (ext (play (take 3 recovery_trace) with_factor)) !! "t1"%string)) = true)
      by (vm_compute; reflexivity).
    rewrite Hus in Hsome. discriminate.
Defined.
