(* ===== verification/AdminSessions.v ===== *)
(** * Sessions of administrators, and choosing roles

    Model of [auth/admin_router.py] and [auth/admin_session.py], the cookie
    sessions of the back office: logging in, renewing, logging out, proving the
    second factor, choosing the active roles; of [activate_roles] of
    [auth/router.py], which does the last for the sessions of everybody; and of
    [verify_credentials] of [auth/service_auth.py], which checks a password for
    another service. The cookies are arguments. A handler that answers a refusal
    without raising commits what it did: [Denied]. The routes that assign roles to
    users are in [AuthRoles]; who may call them is left out.

    Lemmas: every session that is issued here is of an administrator without a
    lock, whose admission nobody asks about. *)

From S2P Require Import Prelude Roles Permissions Limiter Accounts Sessions Login.

Section admin.
Context {T : Type} (jwt_encode : Claims → T) (jwt_decode : string → Z → T → option Claims)
  (sha256 : string → string) (st : Settings) (ls : LoginSettings) (fs : Factors) (admin_access_cookie_minutes : Z).

Definition _ADMIN_AUD : string := "lkm:admin".
Definition _ADMIN_TYPE : string := "admin".

Definition create_admin_access_token (now : Z) (u : uuid) (x : User) (mfa_verified : bool) (mfa_time : option Z)
    (roles : option (list string)) (session_end : option Z) (jti_hex refresh_hash : string) : T :=
  let iat := seconds_of now in
  let exp := (iat + admin_access_cookie_minutes * 60)%Z in
  jwt_encode (MkClaims u (Accounts.account_level x) "" false _ADMIN_TYPE (token_version x) jti_hex mfa_verified
    (if mfa_verified then Some (default iat mfa_time) else None) _ADMIN_AUD iat
    (match session_end with Some e => Z.min exp (seconds_of e) | None => exp end) roles refresh_hash).

(** The answer: a refusal, or the cookies. *)
Inductive Answer := Denied | Cookies (access : T) (refresh : option string).

Definition decode_admin (now : Z) (access : option T) : option Claims := access ≫= jwt_decode _ADMIN_AUD now.

(** [up]: Redis answers. *)
Definition _require_admin_from_cookie (up : bool) (access : option T) : M (uuid * User) :=
  w ← get_state;
  payload ← get_or_raise (decode_admin (clock w) access) FORBIDDEN;
  raise_when (bool_decide (c_type payload ≠ _ADMIN_TYPE)) FORBIDDEN ≫= λ _,
  raise_when (is_jti_blocked up (jti payload) w
              || bool_decide (jti payload ≠ ""%string) && bool_decide (is_Some (revoked_jtis (db w) !! jti payload))) FORBIDDEN ≫= λ _,
  x ← get_or_raise (user_of (c_user payload) w) USER_NOT_FOUND;
  raise_when (lock_is_active (clock w) x) FORBIDDEN ≫= λ _,
  raise_when (bool_decide (c_token_version payload ≠ token_version x)) FORBIDDEN ≫= λ _,
  raise_when (bool_decide (tolerance < updated_at x - iat payload * second)%Z) FORBIDDEN ≫= λ _,
  raise_when (bool_decide (Accounts.account_level x ≠ "admin"%string)) FORBIDDEN ≫= λ _,
  mret (c_user payload, x).

Definition _active_cookie_roles (access : option T) (u : uuid) (x : User) : M (list string) :=
  w ← get_state;
  payload ← get_or_raise (decode_admin (clock w) access) FORBIDDEN;
  match current_roles st u (Accounts.account_level x) (profile_role u w) (c_active_roles payload) w with
  | Ok rs => mret rs
  | Raise _ => raise FORBIDDEN
  end.

(** The row of a session that goes on: of this user and kind, not revoked, not over. *)
Definition live_session (k : string) (u : uuid) (now : Z) (t : RefreshToken) : bool :=
  bool_decide (rt_user t = u) && bool_decide (kind t = k) && bool_decide (revoked_at t = None) && bool_decide (now < expires_at t)%Z.

Definition session_row (k : string) (u : uuid) (h : string) : M RefreshToken :=
  w ← get_state;
  t ← get_or_raise (refresh_tokens (db w) !! h) FORBIDDEN;
  raise_when (negb (live_session k u (clock w) t)) FORBIDDEN ≫= λ _,
  mret t.

Definition choose_roles (rs : list string) (t : RefreshToken) : RefreshToken :=
  MkRefresh (rt_user t) (kind t) (rt_mfa_verified t) (rt_mfa_at t) (roles_json (Some rs)) (expires_at t) (revoked_at t).

Definition prove_mfa (now : Z) (rs : list string) (t : RefreshToken) : RefreshToken :=
  MkRefresh (rt_user t) (kind t) true (Some now) (roles_json (Some rs)) (expires_at t) (revoked_at t).

(** [activated_roles], or the refusal. *)
Definition chosen_roles (u : uuid) (level role : string) (sel : option (list string)) (e : err) : M (list string) :=
  extra ← gets (list_roles u);
  match activated_roles (SSD st) (DSD st) level role extra sel with Ok rs => mret rs | Raise _ => raise e end.

Definition refresh_cookie (refresh : option string) : M string :=
  raw ← get_or_raise refresh FORBIDDEN;
  raise_when (negb (valid_refresh_token raw)) FORBIDDEN ≫= λ _,
  mret raw.

Definition activate_admin_roles (up : bool) (access : option T) (refresh : option string) (roles : list string) (jti_hex : string)
  : M Answer :=
  '(u, x) ← _require_admin_from_cookie up access;
  raw ← refresh_cookie refresh;
  w ← get_state;
  old ← get_or_raise (decode_admin (clock w) access) FORBIDDEN;
  raise_when (bool_decide (rt_hash old ≠ sha256 raw)) FORBIDDEN ≫= λ _,
  stored ← session_row "admin" u (sha256 raw);
  rs ← chosen_roles u (Accounts.account_level x) (profile_role u w) (Some roles) INVALID_INPUT;
  modify (set_refresh (alter (choose_roles rs) (sha256 raw))) ≫= λ _,
  mret (Cookies (create_admin_access_token (clock w) u x (mfa old) (mfa_at old) (Some rs) (Some (expires_at stored)) jti_hex (sha256 raw)) None).

(** [activate_roles] of [auth/router.py]; the caller is already [cur]. *)
Definition activate_roles (cur : CurrentUser) (token : T) (raw : string) (roles : list string) (jti_hex : string) : M T :=
  w ← get_state;
  old ← lift_outcome (decode_access_token jwt_decode (clock w) token);
  raise_when (bool_decide (rt_hash old ≠ sha256 raw)) FORBIDDEN ≫= λ _,
  stored ← session_row "web" (id cur) (sha256 raw);
  rs ← chosen_roles (id cur) (Permissions.account_level cur) (role cur) (Some roles) INVALID_INPUT;
  modify (set_refresh (alter (choose_roles rs) (sha256 raw))) ≫= λ _,
  mret (create_access_token jwt_encode st (clock w) (id cur) (Permissions.account_level cur) (role cur) (c_trust_device old)
    (c_token_version old) (mfa old) (mfa_at old) (Some rs) (Some (seconds_of (expires_at stored))) jti_hex (sha256 raw)).

Definition by_username (name : string) (w : world) : option (uuid * User) :=
  List.find (λ e, bool_decide (username e.2 = name)) (map_to_list (users (db w))).

Definition add_session (h : string) (t : RefreshToken) : M () :=
  w ← get_state;
  raise_when (bool_decide (is_Some (refresh_tokens (db w) !! h))) IntegrityError ≫= λ _,
  modify (set_refresh <[h := t]>).

Definition admin_login (name password : string) (req1 req2 : Request) : M Answer :=
  check_code_rate_limit ls req1 ("admin:login:user:" +:+ ip_address req1 +:+ ":" +:+ name)%string 5 (300 * second) ≫= λ _,
  check_code_rate_limit ls req2 ("admin:login:ip:" +:+ ip_address req1)%string 20 (300 * second) ≫= λ _,
  w ← get_state;
  match by_username name w with
  | None => mret Denied
  | Some (u, x) =>
      if negb (verifypwd fs password (hashed_password x)) then mret Denied else
      if bool_decide (Accounts.account_level x ≠ "admin"%string) then mret Denied else
      if lock_is_active (clock w) x then mret Denied else
      let h := sha256 (fresh_token req1) in
      add_session h (MkRefresh u "admin" false None JNull (clock w + refresh_token_expire_days st * day)%Z None) ≫= λ _,
      mret (Cookies (create_admin_access_token (clock w) u x false None None None (fresh_jti req1) h) (Some (fresh_token req1)))
  end.

(** [consume_once] on the rows of this kind. *)
Definition consume_admin (h : string) : M bool :=
  w ← get_state;
  match refresh_tokens (db w) !! h with
  | Some t =>
      if bool_decide (revoked_at t = None) && bool_decide (kind t = "admin"%string)
      then modify (set_refresh (alter (revoke_now (clock w)) h)) ≫= λ _, mret true
      else mret false
  | None => mret false
  end.

Definition admin_refresh (refresh : option string) (req : Request) : M Answer :=
  check_code_rate_limit ls req ("admin:token:refresh:ip:" +:+ ip_address req)%string 30 (60 * second) ≫= λ _,
  match refresh with
  | None | Some EmptyString => mret Denied
  | Some raw =>
      if negb (valid_refresh_token raw) then mret Denied else
      consumed ← consume_admin (sha256 raw);
      if negb consumed then mret Denied else
      w ← get_state;
      stored ← get_or_raise (refresh_tokens (db w) !! sha256 raw) TOKEN_INVALID;
      if bool_decide (expires_at stored ≤ clock w)%Z then mret Denied else
      x ← get_or_raise (user_of (rt_user stored) w) USER_NOT_FOUND;
      if bool_decide (Accounts.account_level x ≠ "admin"%string) then mret Denied else
      if lock_is_active (clock w) x then mret Denied else
      let mfa_ok := rt_mfa_verified stored && bool_decide (is_Some (rt_mfa_at stored)) in
      match session_roles_claim (rt_active_roles stored) with
      | Raise _ => raise FORBIDDEN
      | Ok selection =>
          selection ← match selection with
            | None => mret None
            | Some sel => rs ← chosen_roles (rt_user stored) "admin" (profile_role (rt_user stored) w) (Some sel) FORBIDDEN; mret (Some rs)
            end;
          let h := sha256 (fresh_token req) in
          add_session h (MkRefresh (rt_user stored) "admin" mfa_ok (rt_mfa_at stored) (roles_json selection) (expires_at stored) None) ≫= λ _,
          mret (Cookies (create_admin_access_token (clock w) (rt_user stored) x mfa_ok (seconds_of <$> rt_mfa_at stored) selection
            (Some (expires_at stored)) (fresh_jti req) h) (Some (fresh_token req)))
      end
  end.

(** [RevokedAccessTokenRepository.revoke]: the first one stays. *)
Definition revoke_jti (j : string) (until : Z) : M () :=
  modify (set_db (λ d, Tables (users d) (profiles d) (user_roles d) (totp d) (refresh_tokens d)
    (match revoked_jtis d !! j with Some _ => revoked_jtis d | None => <[j := until]> (revoked_jtis d) end) (audit d))).

Definition admin_logout (access : option T) (refresh : option string) (cache : option Z) : M () :=
  w ← get_state;
  (match refresh with
   | Some raw =>
       if valid_refresh_token raw then
         match refresh_tokens (db w) !! sha256 raw with
         | Some t =>
             if bool_decide (kind t = "admin"%string) && bool_decide (revoked_at t = None)
             then modify (set_refresh (alter (revoke_now (clock w)) (sha256 raw))) else mret tt
         | None => mret tt
         end
       else mret tt
   | None => mret tt
   end) ≫= λ _,
  match decode_admin (clock w) access with
  | None => mret tt
  | Some payload =>
      _ ← block_jti (jti payload) cache;
      if decide (jti payload = ""%string) then mret tt else revoke_jti (jti payload) (exp payload * second)%Z
  end.

(** [verify_user_totp] *)
Definition verify_user_totp (u : uuid) (code : string) : M () :=
  found ← gets (get_enabled_totp u);
  t ← get_or_raise found TOTP_NOT_ENABLED;
  _ ← _verify_totp_guarded fs u t code;
  mret tt.

Definition admin_verify_2fa (up : bool) (access : option T) (refresh : option string) (code jti_hex : string) : M Answer :=
  '(u, x) ← _require_admin_from_cookie up access;
  raw ← refresh_cookie refresh;
  w ← get_state;
  old ← get_or_raise (decode_admin (clock w) access) FORBIDDEN;
  raise_when (bool_decide (rt_hash old ≠ sha256 raw)) FORBIDDEN ≫= λ _,
  stored ← session_row "admin" u (sha256 raw);
  verify_user_totp u code ≫= λ _,
  let proved := seconds_of (clock w) in
  rs ← _active_cookie_roles access u x;
  modify (set_refresh (alter (prove_mfa (proved * second) rs) (sha256 raw))) ≫= λ _,
  mret (Cookies (create_admin_access_token (clock w) u x true (Some proved) (Some rs) (Some (expires_at stored)) jti_hex (sha256 raw)) None).

(** [verify_credentials]: as [login_password], but nothing is issued. *)
Definition verify_credentials (account password : string) (ip : string) : M uuid :=
  found ← gets (find_by_identity (strip account));
  '(u, x) ← get_or_raise found INVALID_CREDENTIALS;
  _check_account_locked u ≫= λ _,
  if negb (verifypwd fs password (hashed_password x)) then
    refuse_password u ip ≫= λ _, raise INVALID_CREDENTIALS
  else
    assert_admission_allowed x ≫= λ _,
    update_user u reset_login_failures_stmt ≫= λ _,
    log_audit u "login_password_delegated" ≫= λ _,
    mret u.

(** ** The requests *)
Inductive op :=
  | AdminLogin (name password : string) (req1 req2 : Request)
  | AdminRefresh (refresh : option string) (req : Request)
  | AdminLogout (access : option T) (refresh : option string) (cache : option Z)
  | AdminVerify2fa (up : bool) (access : option T) (refresh : option string) (code jti_hex : string)
  | ActivateAdminRoles (up : bool) (access : option T) (refresh : option string) (roles : list string) (jti_hex : string)
  | ActivateRoles (cur : CurrentUser) (token : T) (raw : string) (roles : list string) (jti_hex : string)
  | VerifyCredentials (account password ip : string).

Definition body (o : op) : M () :=
  match o with
  | AdminLogin name password req1 req2 => ignore (admin_login name password req1 req2)
  | AdminRefresh refresh req => ignore (admin_refresh refresh req)
  | AdminLogout access refresh cache => admin_logout access refresh cache
  | AdminVerify2fa up access refresh code jti_hex => ignore (admin_verify_2fa up access refresh code jti_hex)
  | ActivateAdminRoles up access refresh roles jti_hex => ignore (activate_admin_roles up access refresh roles jti_hex)
  | ActivateRoles cur token raw roles jti_hex => ignore (activate_roles cur token raw roles jti_hex)
  | VerifyCredentials account password ip => ignore (verify_credentials account password ip)
  end.
End admin.
Arguments Answer : clear implicits.
Arguments op : clear implicits.

(** ** Whose sessions are issued *)
Section entering.
Context {T : Type} (jwt_encode : Claims → T) (jwt_decode : string → Z → T → option Claims)
  (sha256 : string → string) (st : Settings) (ls : LoginSettings) (fs : Factors) (cookie_minutes : Z).

(** An administrator who is not locked. *)
Definition unlocked_admin (u : uuid) (a : world) : Prop :=
  ∃ x, user_of u a = Some x ∧ lock_is_active (clock a) x = false ∧ Accounts.account_level x = "admin"%string.

(** Accounts stay as they are, and each new session is a session of the back office
    of such an administrator. *)
Record entered (a a' : world) : Prop := {
  en_clock : clock a' = clock a;
  en_users : users (db a') = users (db a);
  en_new h t : refresh_tokens (db a') !! h = Some t →
    (∃ t0, refresh_tokens (db a) !! h = Some t0 ∧ rt_user t0 = rt_user t ∧ kind t0 = kind t)
    ∨ kind t = "admin"%string ∧ unlocked_admin (rt_user t) a'
}.

#[local] Instance entered_preorder : PreOrder entered.
Proof.
  split; [intros a; split; [done|done|]; intros h t Ht; left; by exists t|]. intros a b c [C1 U1 N1] [C2 U2 N2].
  split; [congruence|congruence|]. intros h t Ht. destruct (N2 h t Ht) as [(t1 & Ht1 & E1 & K1)|]; [|by right].
  destruct (N1 h t1 Ht1) as [(t0 & Ht0 & E0 & K0)|[Hk (x & Hx & Hl & Ha)]]; [left; exists t0; split_and!; congruence|].
  right. split; [congruence|]. exists x. unfold user_of in *. by rewrite U2, C2, <- E1.
Qed.

Lemma entered_same a a' : clock a' = clock a → db a' = db a → entered a a'.
Proof. intros Hc Hd. split; [done|by rewrite Hd|]. rewrite Hd. intros h t Ht. left. by exists t. Qed.

Lemma entered_rate req k n wd : leads entered (check_code_rate_limit ls req k n wd).
Proof.
  intros a. unfold wp. destruct (check_code_rate_limit ls req k n wd a) as [[[]|e] a'] eqn:Hr; [|done].
  apply rate_limit_db in Hr as [Hd Hc]. by apply entered_same.
Qed.

Lemma entered_consume h : leads entered (consume_admin h).
Proof.
  unfold consume_admin. leads. apply leads_modify. intros a0. split; [done|done|]. intros k t. cbn.
  intros [(-> & t0 & Ht0 & ->)|[_ Ht]]%lookup_alter_Some; left; [by exists t0|by exists t].
Qed.

(** The one place where these sessions are stored. *)
Lemma add_session_wp h t w : kind t = "admin"%string → unlocked_admin (rt_user t) w →
  wp (add_session h t) (λ _ w', entered w w') (λ _ _, True) w.
Proof.
  intros Hk (x & Hx & Hl & Ha). unfold add_session. wp_step. wp_step. wp_step. wp_step; [done|]. wp_step.
  split; [done|done|]. intros k t'. cbn. intros [[-> <-]|[_ Ht]]%lookup_insert_Some; [|left; by exists t'].
  right. split; [done|]. by exists x.
Qed.

Lemma by_username_found name w u x : by_username name w = Some (u, x) → user_of u w = Some x.
Proof. intros [Hin _]%List.find_some. by apply elem_of_map_to_list, list_elem_of_In. Qed.

Lemma entered_login name password req1 req2 :
  leads entered (admin_login jwt_encode sha256 st ls fs cookie_minutes name password req1 req2).
Proof.
  unfold admin_login. leads_step; [apply entered_rate|]. leads_step; [apply entered_rate|]. intros w. wp_step. wp_step.
  destruct (by_username name w) as [[u x]|] eqn:Hf; [|by wp_step]. apply by_username_found in Hf.
  destruct (negb _); [by wp_step|]. destruct (bool_decide _) eqn:Ha; [by wp_step|]. apply bool_decide_eq_false, dec_stable in Ha.
  destruct (lock_is_active (clock w) x) eqn:Hl; [by wp_step|]. cbv zeta. wp_step.
  eapply wp_mono; [apply add_session_wp; [done|by exists x]| |done]. intros [] w' He. by wp_step.
Qed.

Lemma entered_roles u level role sel e : leads entered (chosen_roles st u level role sel e).
Proof. unfold chosen_roles. leads. Qed.

Lemma chosen_roles_pure u level role sel e w (Q : list string → world → Prop) :
  (∀ rs, Q rs w) → wp (chosen_roles st u level role sel e) Q (λ _ _, True) w.
Proof. intros HQ. unfold chosen_roles. wp_step. wp_step. destruct (activated_roles _ _ _ _ _ _); wp_step; [apply HQ|done]. Qed.

Lemma entered_refresh refresh req : leads entered (admin_refresh jwt_encode sha256 st ls cookie_minutes refresh req).
Proof.
  unfold admin_refresh. leads_step; [apply entered_rate|]. destruct refresh as [[|c r]|]; [leads| |leads].
  destruct (negb _); [leads|]. leads_step; [apply entered_consume|]. destruct (negb _); [leads|].
  intros w. wp_step. wp_step. wp_step. wp_step; [done|]. destruct (bool_decide _); [by wp_step|]. wp_step. wp_step; [done|].
  destruct (bool_decide _) eqn:Ha; [by wp_step|]. apply bool_decide_eq_false, dec_stable in Ha.
  destruct (lock_is_active (clock w) _) eqn:Hl; [by wp_step|]. cbv zeta. destruct (session_roles_claim _) as [sel|]; [|by wp_step].
  wp_step. destruct sel as [sel|].
  - wp_step. apply chosen_roles_pure. intros rs. wp_step. wp_step.
    eapply wp_mono; [apply add_session_wp; [done|by eexists]| |done]. intros [] w' He. by wp_step.
  - wp_step. wp_step. eapply wp_mono; [apply add_session_wp; [done|by eexists]| |done]. intros [] w' He. by wp_step.
Qed.

(** The requests that issue a session of the back office. *)
Definition enters (o : op T) : bool := match o with AdminLogin _ _ _ _ | AdminRefresh _ _ => true | _ => false end.

Lemma entered_body o : enters o = true → leads entered (body jwt_encode jwt_decode sha256 st ls fs cookie_minutes o).
Proof.
  destruct o; try done; intros _; cbn [body]; unfold ignore; (leads_step; [|leads]); [apply entered_login|apply entered_refresh].
Qed.
End entering.
