(* ===== verification/Registration.v ===== *)
(** * Registration, OAuth, passkeys and settings

    Model of how accounts come to be and of the remaining ways to enter them: the
    registrations of [auth/service_auth.py] and [auth/router.py], OAuth
    ([auth/service_oauth.py], [auth/router_oauth.py]), passkeys
    ([auth/service_passkey.py]) and the bound addresses ([auth/router_settings.py]),
    on [Credentials], [Recovery] and [AdminSessions]. The reason of an application
    and its time, which are only shown, are left out; the filter of user
    identifiers that a new account is added to is in [Bloom].

    [request] lists the requests of the account service that issue or end a
    session, create an account or change what belongs to it. Not among them, since
    they do neither: texts and pictures of profiles, onboarding, the audit sink, the
    assignment of additional roles ([AuthRoles]), tickets for the bot, codes that
    are handed out in development, what only
    reads; and what is not a request: scripts that seed accounts, and purging
    revoked tokens.

    Parameters: what the OAuth provider and the WebAuthn library answer, and those
    of [Credentials].

    Theorems: a free user name is always found; names, addresses and bindings stay
    unique; whatever the entrance, only an unlocked account gets a session, and
    only an admitted one but for the back office; and what a registration does. *)

From stdpp Require Import pretty.
From S2P Require Import Prelude Limiter.
From S2P Require Roles Accounts Sessions Login.
From S2P Require Import Credentials.
From S2P Require Recovery AdminSessions.

(** ** Tables *)
Record PendingRegistration := MkPending {
  p_username : string; p_hashed : string; p_email : option string; p_phone : option string; p_consumed : bool; p_expires : Z
}.

Record OAuthState := MkState { o_purpose : string; o_user : option uuid; o_consumed : bool; o_expires : Z }.

Record UserOAuth := MkOAuth { ou_user : uuid; ou_email : option string }.

Record PasskeyChallenge := MkChallenge { ch_challenge : string; ch_consumed : bool; ch_expires : Z }.

Record PasskeyCredential := MkPasskey {
  pk_user : uuid; credential_id : string; public_key : string; sign_count : Z; device_name : string
}.

Record rows := Rows {
  pending : gmap string PendingRegistration;            (* by txn_id *)
  oauth_states : gmap string OAuthState;                (* by state *)
  user_oauths : gmap (string * string) UserOAuth;       (* by provider and provider_user_id *)
  challenges : gmap string PasskeyChallenge;            (* by challenge_id *)
  passkeys : gmap uuid PasskeyCredential
}.

Record site := Site { cred : Credentials.world; reg : rows }.

Abbreviation P := (prog site err).

Definition set_cred (c : Credentials.world) (w : site) : site := Site c (reg w).
Definition set_reg (f : rows → rows) (w : site) : site := Site (cred w) (f (reg w)).
Definition set_pending (f : gmap string PendingRegistration → gmap string PendingRegistration) : site → site :=
  set_reg (λ d, Rows (f (pending d)) (oauth_states d) (user_oauths d) (challenges d) (passkeys d)).
Definition set_states (f : gmap string OAuthState → gmap string OAuthState) : site → site :=
  set_reg (λ d, Rows (pending d) (f (oauth_states d)) (user_oauths d) (challenges d) (passkeys d)).
Definition set_oauths (f : gmap (string * string) UserOAuth → gmap (string * string) UserOAuth) : site → site :=
  set_reg (λ d, Rows (pending d) (oauth_states d) (f (user_oauths d)) (challenges d) (passkeys d)).
Definition set_challenges (f : gmap string PasskeyChallenge → gmap string PasskeyChallenge) : site → site :=
  set_reg (λ d, Rows (pending d) (oauth_states d) (user_oauths d) (f (challenges d)) (passkeys d)).
Definition set_passkeys (f : gmap uuid PasskeyCredential → gmap uuid PasskeyCredential) : site → site :=
  set_reg (λ d, Rows (pending d) (oauth_states d) (user_oauths d) (challenges d) (f (passkeys d))).

Definition account (w : site) : Accounts.world := acc (cred w).
Definition users_of (w : site) : gmap uuid Accounts.User := Accounts.users (Accounts.db (account w)).
Definition time (w : site) : Z := Accounts.clock (account w).

(** An operation of [Credentials], and one of [Accounts]. *)
Definition with_cred {A} (m : Credentials.M A) : P A := zoom cred set_cred m.
Definition with_acc {A} (m : Accounts.M A) : P A := with_cred (auth m).

Definition transaction {A} (m : P A) : P A := λ w,
  match m w with
  | (Ok a, w') => (Ok a, w')
  | (Raise e, w') =>
      (Raise e, Site (Credentials.World (Accounts.set_db (λ _, Accounts.db (account w)) (account w')) (ext (cred w))) (reg w))
  end.

(** ** User names *)
Definition username_taken (name : string) (us : gmap uuid Accounts.User) : bool :=
  existsb (λ ux, bool_decide (Accounts.username ux.2 = name)) (map_to_list us).

(** [f"{base}{suffix}"] *)
Definition candidate (base : string) (suffix : N) : string := (base +:+ pretty suffix)%string.

Fixpoint free_suffix (fuel : nat) (base : string) (suffix : N) (us : gmap uuid Accounts.User) : option string :=
  match fuel with
  | 0 => None
  | S fuel =>
      if username_taken (candidate base suffix) us then free_suffix fuel base (suffix + 1)%N us else Some (candidate base suffix)
  end.

(** The loop; its fuel is the number of accounts and one. *)
Definition ensure_unique_username (base : string) (us : gmap uuid Accounts.User) : option string :=
  if username_taken base us then free_suffix (S (size us)) base 1 us else Some base.

(** [_email_username_from] and [_phone_username_from] *)
Fixpoint before_at (s : string) : string :=
  match s with
  | EmptyString => EmptyString
  | String c r => if Ascii.eqb "@"%char c then EmptyString else String c (before_at r)
  end.

Definition last6 (s : string) : string := String.substring (String.length s - 6) 6 s.

Definition username_from (c : channel) (value : string) : string :=
  match c with EMAIL => before_at value | PHONE => ("user_" +:+ last6 value)%string end.

(** What the OAuth provider and the WebAuthn library answer. [verify_registration]
    takes the credential and the challenge; [verify_authentication] also the stored
    key and count. *)
Record OAuthUserInfo := MkInfo { provider_user_id : string; provider_email : option string; oauth_username : string }.

Record Services := MkServices {
  hashpwd : string → string → string;                                   (* salt, password *)
  admission_apply : bool;                                               (* settings.admission_mode == "apply" *)
  fetch : string → string → outcome err OAuthUserInfo;                  (* provider, code *)
  providers : list string;
  verify_registration : string → string → option (string * string * Z);
  verify_authentication : string → string → string → Z → option Z;
  admin_access_cookie_minutes : Z                                       (* of the settings *)
}.

Section registration.
Context {T : Type} (jwt_encode : Sessions.Claims → T) (ks : Keys) (st : Sessions.Settings) (ls : LoginSettings)
  (fs : Login.Factors) (sv : Services).

Definition verifypwd (raw stored : string) : bool := Login.verifypwd fs raw stored.

(** ** Creating an account *)
Definition conflicts (name : string) (email phone : option string) (x : Accounts.User) : bool :=
  bool_decide (Accounts.username x = name)
  || bool_decide (is_Some email ∧ Accounts.email x = email)
  || bool_decide (is_Some phone ∧ Accounts.phone x = phone).

Definition new_user (name : string) (email phone : option string) (hashed level : string) (now : Z) : Accounts.User :=
  Accounts.MkUser name email phone hashed level false None 0 0
    (if admission_apply sv then Accounts.PENDING else Accounts.ACTIVE) None None None now.

Definition create_user_with_profile (new : uuid) (name : string) (email phone : option string) (hashed level : string) : P uuid :=
  w ← get_state;
  raise_when (existsb (λ ux, conflicts name email phone ux.2) (map_to_list (users_of w))
              || bool_decide (is_Some (users_of w !! new))) ALREADY_REGISTERED ≫= λ _,
  with_acc (modify (Accounts.set_users <[new := new_user name email phone hashed level (time w)]>)) ≫= λ _,
  with_acc (modify (Accounts.set_profiles <[new := "member"%string]>)) ≫= λ _,
  mret new.

(** What a registration answers. *)
Inductive Registered :=
  | Waiting (u : uuid) (status : string)              (* no tokens before the admission *)
  | Entered (r : Login.AuthResponse (T:=T)).

Definition _create_auth_response (u : uuid) (req : Login.Request) : P (Login.AuthResponse (T:=T)) :=
  with_acc (Login._create_auth_response jwt_encode (sha256 ks) st u req).

Definition build_registration_response (u : uuid) (req : Login.Request) : P Registered :=
  w ← get_state;
  x ← get_or_raise (users_of w !! u) USER_NOT_FOUND;
  if negb (Accounts.admission_is_active x) then mret (Waiting u (Accounts.admission_status_of x)) else
  r ← _create_auth_response u req;
  mret (Entered r).

Definition upgrade_to_normal (u : uuid) : P () :=
  w ← get_state;
  match users_of w !! u with
  | Some x =>
      if decide (Accounts.account_level x = "local"%string)
      then with_acc (Accounts.update_user u (Accounts.set_level "normal")) ≫= λ _,
           with_acc (Accounts.log_audit u "level_change") ≫= λ _,
           with_acc (Accounts.emit (Accounts.UserUpdated u))
      else mret tt
  | None => mret tt
  end.

(** [_login_or_error], as its one caller uses it: without addresses. *)
Definition _login_or_error (u : uuid) (password : string) : P () :=
  with_acc (Accounts._check_account_locked u) ≫= λ _,
  w ← get_state;
  x ← get_or_raise (users_of w !! u) USER_NOT_FOUND;
  if bool_decide (Accounts.hashed_password x = ""%string) || negb (verifypwd password (Accounts.hashed_password x)) then
    locked ← with_acc (Accounts._record_failed_attempt u);
    (if (locked : bool)
     then with_acc (Accounts.log_audit u "account_locked") ≫= λ _, with_acc (Accounts.emit (Accounts.UserBanned u))
     else mret tt) ≫= λ _,
    raise ALREADY_REGISTERED
  else upgrade_to_normal u.

Definition get_by_username (name : string) (us : gmap uuid Accounts.User) : option (uuid * Accounts.User) :=
  List.find (λ ux, bool_decide (Accounts.username ux.2 = name)) (map_to_list us).

Definition register_local (new : uuid) (username password salt : string) (req : Login.Request) : P Registered :=
  let name := strip username in
  w ← get_state;
  match get_by_username name (users_of w) with
  | Some (u, _) =>
      _login_or_error u password ≫= λ _,
      r ← _create_auth_response u req;
      mret (Entered r)
  | None =>
      u ← create_user_with_profile new name None None (hashpwd sv salt password) "local";
      build_registration_response u req
  end.

Definition unique_username (base : string) : P string :=
  w ← get_state; get_or_raise (ensure_unique_username base (users_of w)) RuntimeError.

Definition address (c c' : channel) (v : string) : option string := if decide (c = c') then Some v else None.

Definition register_by_verify (new : uuid) (c : channel) (value : string) (req : Login.Request) : P Registered :=
  let v := normalize value in
  w ← get_state;
  match find_user c v (cred w) with
  | Some (u, _) =>
      with_acc (Accounts._check_account_locked u) ≫= λ _,
      upgrade_to_normal u ≫= λ _,
      with_acc (Accounts.log_audit u "register_code") ≫= λ _,
      r ← _create_auth_response u req;
      mret (Entered r)
  | None =>
      name ← unique_username (username_from c value);
      u ← create_user_with_profile new name (address c EMAIL v) (address c PHONE v) "" "normal";
      with_acc (Accounts.log_audit u "register_code") ≫= λ _,
      build_registration_response u req
  end.

(** ** Registering with a password and an address *)
Definition store_pending_normal_registration (txn username password salt : string) (email phone : option string) : P string :=
  w ← get_state;
  raise_when (bool_decide (is_Some (pending (reg w) !! txn))) IntegrityError ≫= λ _,
  modify (set_pending <[txn := MkPending (strip username) (hashpwd sv salt password)
    (strip <$> truthy email) phone false (time w + 15 * Accounts.minutes)]>) ≫= λ _,
  mret txn.

Definition consume_pending_row (p : PendingRegistration) : PendingRegistration :=
  MkPending (p_username p) (p_hashed p) (p_email p) (p_phone p) true (p_expires p).

(** [or_(username ==, email ==, phone ==)] of the given ones. *)
Definition identity (name : string) (email phone : option string) (x : Accounts.User) : bool :=
  bool_decide (Accounts.username x = name)
  || match truthy email with Some e => bool_decide (Accounts.email x = Some e) | None => false end
  || match truthy phone with Some e => bool_decide (Accounts.phone x = Some e) | None => false end.

Definition find_identity (name : string) (email phone : option string) (us : gmap uuid Accounts.User)
  : option (uuid * Accounts.User) :=
  List.find (λ ux, identity name email phone ux.2) (map_to_list us).

(** [if pending.email: assert email_code is not None; consume] *)
Definition consume_for (c : channel) (contact code : option string) : P () :=
  match truthy contact with
  | Some v => code ← get_or_raise code AssertionError; with_cred (consume_code (hmac ks) c v code "register")
  | None => mret tt
  end.

Definition set_addresses (email phone : option string) (x : Accounts.User) : Accounts.User :=
  Accounts.MkUser (Accounts.username x)
    (match truthy email, truthy (Accounts.email x) with Some e, None => Some e | _, _ => Accounts.email x end)
    (match truthy phone, truthy (Accounts.phone x) with Some e, None => Some e | _, _ => Accounts.phone x end)
    (Accounts.hashed_password x) (Accounts.account_level x) (Accounts.is_locked x) (Accounts.locked_until x)
    (Accounts.failed_login_attempts x) (Accounts.token_version x) (Accounts.admission_status x) (Accounts.reviewed x)
    (Accounts.reject_reason x) (Accounts.last_rejected_at x) (Accounts.updated_at x).

(** Another account has one of the addresses: the unique columns refuse. *)
Definition address_held (u : uuid) (x : Accounts.User) (us : gmap uuid Accounts.User) : bool :=
  existsb (λ vy, bool_decide (vy.1 ≠ u)
                 && (bool_decide (is_Some (Accounts.email x) ∧ Accounts.email vy.2 = Accounts.email x)
                     || bool_decide (is_Some (Accounts.phone x) ∧ Accounts.phone vy.2 = Accounts.phone x)))
    (map_to_list us).

Definition consume_pending_normal_registration (new : uuid) (txn : string) (email_code phone_code : option string)
    (req : Login.Request) : P Registered :=
  w ← get_state;
  p ← get_or_raise (pending (reg w) !! txn) TOKEN_INVALID;
  raise_when (p_consumed p) TOKEN_INVALID ≫= λ _,
  raise_when (bool_decide (p_expires p ≤ time w)%Z) TOKEN_EXPIRED ≫= λ _,
  consume_for EMAIL (p_email p) email_code ≫= λ _,
  consume_for PHONE (p_phone p) phone_code ≫= λ _,
  modify (set_pending (alter consume_pending_row txn)) ≫= λ _,
  w ← get_state;
  match find_identity (p_username p) (p_email p) (p_phone p) (users_of w) with
  | Some (u, x) =>
      raise_when (bool_decide (Accounts.hashed_password x = ""%string) || negb (verifypwd (p_hashed p) (Accounts.hashed_password x)))
        ALREADY_REGISTERED ≫= λ _,
      let x' := set_addresses (p_email p) (p_phone p) x in
      raise_when (address_held u x' (users_of w)) IntegrityError ≫= λ _,
      (if decide (Accounts.email x' = Accounts.email x ∧ Accounts.phone x' = Accounts.phone x) then mret tt
       else with_acc (Accounts.update_user u (set_addresses (p_email p) (p_phone p)))) ≫= λ _,
      upgrade_to_normal u ≫= λ _,
      with_acc (Accounts.log_audit u "register_normal") ≫= λ _,
      r ← _create_auth_response u req;
      mret (Entered r)
  | None =>
      u ← create_user_with_profile new (p_username p) (truthy (p_email p)) (truthy (p_phone p)) (p_hashed p) "normal";
      with_acc (Accounts.log_audit u "register_normal") ≫= λ _,
      build_registration_response u req
  end.

(** [_send_reg_code] and [_complete_reg_verify] *)
Definition limited {A} (key : string) (n window : Z) (req : Login.Request) (m : P A) : P A :=
  with_acc (Login.check_code_rate_limit ls req key n window) ≫= λ _, m.

Definition hour : Z := 3600 * Accounts.second.

Definition _send_reg_code (c : channel) (contact : string) (n : N) (nonce : string) (new : uuid) (req : Login.Request) : P string :=
  limited ("reg:" +:+ channel_name c +:+ ":" +:+ contact)%string 5 hour req
    (with_cred (_create_verification (hmac ks) c contact "register" n nonce new)).

Definition _complete_reg_verify (new : uuid) (c : channel) (contact code : string) (req : Login.Request) : P Registered :=
  limited ("reg:" +:+ channel_name c +:+ ":verify:" +:+ contact)%string 5 hour req
    (with_cred (consume_code (hmac ks) c contact code "register") ≫= λ _, register_by_verify new c contact req).

(** One random number, nonce and identifier for each of the two codes. *)
Definition register_normal_with_password_route (username password salt txn : string) (email phone : option string)
    (fresh1 fresh2 : N * string * uuid) (req1 req2 : Login.Request) : P string :=
  raise_when (bool_decide (truthy email = None ∧ truthy phone = None)) INVALID_INPUT ≫= λ _,
  txn ← store_pending_normal_registration txn username password salt email phone;
  (match truthy email, fresh1 with
   | Some e, (n, nonce, k) => _ ← _send_reg_code EMAIL e n nonce k req1; mret tt
   | None, _ => mret tt
   end) ≫= λ _,
  (match truthy phone, fresh2 with
   | Some e, (n, nonce, k) => _ ← _send_reg_code PHONE e n nonce k req2; mret tt
   | None, _ => mret tt
   end) ≫= λ _,
  mret txn.

(** ** OAuth *)
Definition get_provider (name : string) : P string := raise_when (negb (bool_decide (name ∈ providers sv))) INVALID_INPUT ≫= λ _, mret name.

Definition generate_oauth_state (state purpose : string) (u : option uuid) : P string :=
  w ← get_state;
  raise_when (bool_decide (is_Some (oauth_states (reg w) !! state))) IntegrityError ≫= λ _,
  modify (set_states <[state := MkState purpose u false (time w + 10 * Accounts.minutes)]>) ≫= λ _,
  mret state.

Definition use_state (s : OAuthState) : OAuthState := MkState (o_purpose s) (o_user s) true (o_expires s).

Definition consume_oauth_state (state purpose : string) : P OAuthState :=
  w ← get_state;
  s ← get_or_raise (oauth_states (reg w) !! state) OAUTH_PROVIDER_ERROR;
  raise_when (o_consumed s || negb (bool_decide (o_purpose s = purpose)) || bool_decide (o_expires s ≤ time w)%Z)
    OAUTH_PROVIDER_ERROR ≫= λ _,
  modify (set_states (alter use_state state)) ≫= λ _,
  mret s.

(** [exchange_code] and [fetch_user] *)
Definition fetch_user (provider code : string) : P OAuthUserInfo := λ w, (fetch sv provider code, w).

(** [_guard_oauth_query] *)
Definition _guard_oauth_query (code state error : option string) : P (string * string) :=
  match truthy error with
  | Some e => raise (if decide (e = "access_denied"%string) then OAUTH_CANCELED else OAUTH_PROVIDER_ERROR)
  | None =>
      match truthy code, truthy state with
      | Some c, Some s => mret (c, s)
      | _, _ => raise OAUTH_PROVIDER_ERROR
      end
  end.

Definition add_oauth (u : uuid) (provider : string) (info : OAuthUserInfo) (e : err) : P () :=
  w ← get_state;
  let k := (provider, provider_user_id info) in
  raise_when (bool_decide (is_Some (user_oauths (reg w) !! k))) e ≫= λ _,
  modify (set_oauths <[k := MkOAuth u (provider_email info)]>).

Definition handle_oauth_callback (provider code state : string) (new : uuid) (req : Login.Request) : P Registered :=
  provider ← get_provider provider;
  _ ← consume_oauth_state state "login";
  info ← fetch_user provider code;
  w ← get_state;
  match user_oauths (reg w) !! (provider, provider_user_id info) with
  | Some b =>
      _ ← get_or_raise (users_of w !! ou_user b) USER_NOT_FOUND;
      with_acc (Accounts.log_audit (ou_user b) "oauth_login") ≫= λ _,
      with_acc (Accounts._check_account_locked (ou_user b)) ≫= λ _,
      r ← with_acc (Login.finalize_auth_response jwt_encode (sha256 ks) st (ou_user b) req);
      mret (Entered r)
  | None =>
      raise_when (match truthy (provider_email info) with
                  | Some e => bool_decide (is_Some (find_user EMAIL e (cred w)))
                  | None => false
                  end) OAUTH_EMAIL_ALREADY_REGISTERED ≫= λ _,
      name ← unique_username (oauth_username info);
      u ← create_user_with_profile new name (provider_email info) None "" "normal";
      add_oauth u provider info IntegrityError ≫= λ _,
      with_acc (Accounts.log_audit u "oauth_login") ≫= λ _,
      build_registration_response u req
  end.

Definition bind_oauth (provider code state : string) : P () :=
  provider ← get_provider provider;
  s ← consume_oauth_state state "bind";
  u ← get_or_raise (o_user s) OAUTH_PROVIDER_ERROR;
  info ← fetch_user provider code;
  w ← get_state;
  raise_when (bool_decide (is_Some (user_oauths (reg w) !! (provider, provider_user_id info)))) OAUTH_EMAIL_TAKEN ≫= λ _,
  _ ← get_or_raise (users_of w !! u) USER_NOT_FOUND;
  add_oauth u provider info OAUTH_EMAIL_TAKEN ≫= λ _,
  upgrade_to_normal u.

Definition github_callback (code state error : option string) (new : uuid) (req : Login.Request) : P Registered :=
  '(c, s) ← _guard_oauth_query code state error; handle_oauth_callback "github" c s new req.

Definition github_bind_callback (code state error : option string) : P () :=
  '(c, s) ← _guard_oauth_query code state error; bind_oauth "github" c s.

(** ** Passkeys *)
Definition _CHALLENGE_TTL_MINUTES : Z := 5.

Definition _store_challenge (k challenge : string) : P string :=
  w ← get_state;
  raise_when (bool_decide (is_Some (challenges (reg w) !! k))) IntegrityError ≫= λ _,
  modify (set_challenges <[k := MkChallenge challenge false (time w + _CHALLENGE_TTL_MINUTES * Accounts.minutes)]>) ≫= λ _,
  mret k.

Definition use_challenge (c : PasskeyChallenge) : PasskeyChallenge := MkChallenge (ch_challenge c) true (ch_expires c).

(** The empty challenge stands for none. *)
Definition _consume_challenge (k : string) : P string :=
  w ← get_state;
  match challenges (reg w) !! k with
  | Some c =>
      if ch_consumed c || bool_decide (ch_expires c ≤ time w)%Z then mret ""%string
      else modify (set_challenges (alter use_challenge k)) ≫= λ _, mret (ch_challenge c)
  | None => mret ""%string
  end.

Definition delete_expired_or_consumed (now : Z) : P () :=
  modify (set_challenges (filter (λ kc, ch_consumed kc.2 = false ∧ (now < ch_expires kc.2)%Z))).

Definition begin_passkey_registration (u : uuid) (k challenge : string) : P (string * list string) :=
  w ← get_state;
  _ ← get_or_raise (users_of w !! u) USER_NOT_FOUND;
  _ ← _store_challenge k challenge;
  mret (k, credential_id ∘ snd <$> filter (λ kp, pk_user kp.2 = u) (map_to_list (passkeys (reg w)))).

Definition find_by_credential_id (c : string) (w : site) : option (uuid * PasskeyCredential) :=
  List.find (λ kp, bool_decide (credential_id kp.2 = c)) (map_to_list (passkeys (reg w))).

Definition complete_passkey_registration (u : uuid) (raw_id k credential name : string) (new : uuid) : P () :=
  raise_when (bool_decide (raw_id = ""%string ∨ k = ""%string)) PASSKEY_REGISTRATION_FAILED ≫= λ _,
  challenge ← _consume_challenge k;
  raise_when (bool_decide (challenge = ""%string)) PASSKEY_REGISTRATION_FAILED ≫= λ _,
  '(c, key, count) ← get_or_raise (verify_registration sv credential challenge) PASSKEY_REGISTRATION_FAILED;
  w ← get_state;
  raise_when (bool_decide (is_Some (find_by_credential_id c w))) PASSKEY_REGISTRATION_FAILED ≫= λ _,
  raise_when (negb (int32 count)) DataError ≫= λ _,
  raise_when (bool_decide (is_Some (passkeys (reg w) !! new))) IntegrityError ≫= λ _,
  modify (set_passkeys <[new := MkPasskey u c key count (if decide (name = ""%string) then "Unknown device" else name)]>).

Definition with_count (n : Z) (p : PasskeyCredential) : PasskeyCredential :=
  MkPasskey (pk_user p) (credential_id p) (public_key p) n (device_name p).

Definition complete_passkey_login (raw_id k credential : string) (req : Login.Request) : P (Login.AuthResponse (T:=T)) :=
  raise_when (bool_decide (raw_id = ""%string ∨ k = ""%string)) PASSKEY_VERIFICATION_FAILED ≫= λ _,
  challenge ← _consume_challenge k;
  raise_when (bool_decide (challenge = ""%string)) PASSKEY_VERIFICATION_FAILED ≫= λ _,
  w ← get_state;
  '(i, p) ← get_or_raise (find_by_credential_id raw_id w) PASSKEY_VERIFICATION_FAILED;
  n ← get_or_raise (verify_authentication sv credential challenge (public_key p) (sign_count p)) PASSKEY_VERIFICATION_FAILED;
  raise_when (negb (int32 n)) DataError ≫= λ _,
  modify (set_passkeys (alter (with_count n) i)) ≫= λ _,
  x ← get_or_raise (users_of w !! pk_user p) USER_NOT_FOUND;
  raise_when (bool_decide (Accounts.account_level x = "local"%string)) ACCOUNT_LEVEL_INSUFFICIENT ≫= λ _,
  with_acc (Login.finalize_auth_response jwt_encode (sha256 ks) st (pk_user p) req).

Definition list_credentials (u : uuid) (w : site) : list (uuid * PasskeyCredential) :=
  filter (λ kp, pk_user kp.2 = u) (map_to_list (passkeys (reg w))).

Definition delete_credential (u k : uuid) : P () :=
  w ← get_state;
  p ← get_or_raise (passkeys (reg w) !! k) PASSKEY_VERIFICATION_FAILED;
  raise_when (bool_decide (pk_user p ≠ u)) PASSKEY_VERIFICATION_FAILED ≫= λ _,
  modify (set_passkeys (delete k)).

Definition passkey_begin_login (k challenge : string) (req : Login.Request) : P string :=
  limited ("passkey:login:begin:" +:+ Login.ip_address req)%string 20 (60 * Accounts.second) req (_store_challenge k challenge).

Definition passkey_complete_login (raw_id k credential : string) (req : Login.Request) : P (Login.AuthResponse (T:=T)) :=
  limited ("passkey:login:complete:" +:+ Login.ip_address req)%string 10 (60 * Accounts.second) req
    (complete_passkey_login raw_id k credential req).

(** ** Settings: binding an address, and taking a binding back *)
Definition _BIND_PURPOSE : string := "bind".

Definition bind_request (c : channel) (contact : string) (n : N) (nonce : string) (new : uuid) (req : Login.Request) : P string :=
  w ← get_state;
  raise_when (bool_decide (is_Some (find_user c contact (cred w)))) ALREADY_REGISTERED ≫= λ _,
  limited ("bind_" +:+ channel_name c +:+ ":" +:+ contact)%string 5 hour req
    (with_cred (_create_verification (hmac ks) c contact _BIND_PURPOSE n nonce new)).

Definition set_contact (c : channel) (v : option string) (x : Accounts.User) : Accounts.User :=
  Accounts.MkUser (Accounts.username x)
    (match c with EMAIL => v | PHONE => Accounts.email x end) (match c with EMAIL => Accounts.phone x | PHONE => v end)
    (Accounts.hashed_password x) (Accounts.account_level x) (Accounts.is_locked x) (Accounts.locked_until x)
    (Accounts.failed_login_attempts x) (Accounts.token_version x) (Accounts.admission_status x) (Accounts.reviewed x)
    (Accounts.reject_reason x) (Accounts.last_rejected_at x) (Accounts.updated_at x).

(** [bind_email_verify] and [bind_phone_verify]; the caller is already [u]. *)
Definition bind_verify (u : uuid) (c : channel) (contact code : string) : P () :=
  with_cred (consume_code (hmac ks) c contact code _BIND_PURPOSE) ≫= λ _,
  w ← get_state;
  raise_when (bool_decide (is_Some (find_user c contact (cred w)))) ALREADY_REGISTERED ≫= λ _,
  _ ← get_or_raise (users_of w !! u) USER_NOT_FOUND;
  with_acc (Accounts.update_user u (set_contact c (Some contact))) ≫= λ _,
  upgrade_to_normal u.

Definition bound_accounts (u : uuid) (w : site) : list ((string * string) * UserOAuth) :=
  filter (λ kb, ou_user kb.2 = u) (map_to_list (user_oauths (reg w))).

Definition _count_login_ways (u : uuid) (x : Accounts.User) (w : site) : Z :=
  (if decide (is_Some (truthy (Accounts.email x))) then 1 else 0)
  + (if decide (is_Some (truthy (Accounts.phone x))) then 1 else 0)
  + (if decide (bound_accounts u w = []) then 0 else 1).

Definition of_github (u : uuid) (kb : (string * string) * UserOAuth) : Prop := ou_user kb.2 = u ∧ kb.1.1 = "github"%string.
#[local] Instance of_github_dec u kb : Decision (of_github u kb).
Proof. unfold of_github. apply _. Defined.

Definition unbind (u : uuid) (binding_type : string) (code recovery_code : option string) : P () :=
  raise_when (bool_decide (binding_type ∉ ["email"; "phone"; "github"]%string)) INVALID_INPUT ≫= λ _,
  w ← get_state;
  x ← get_or_raise (users_of w !! u) USER_NOT_FOUND;
  (if decide (is_Some (get_enabled_totp u (cred w))) then
     raise_when (bool_decide (truthy code = None ∧ truthy recovery_code = None)) TOTP_CODE_INVALID ≫= λ _,
     with_cred (verify_second_factor ks fs u code recovery_code)
   else mret tt) ≫= λ _,
  raise_when (bool_decide (_count_login_ways u x w ≤ 1)%Z) INVALID_INPUT ≫= λ _,
  if decide (binding_type = "email"%string) then
    raise_when (bool_decide (truthy (Accounts.email x) = None)) INVALID_INPUT ≫= λ _,
    with_acc (Accounts.update_user u (set_contact EMAIL None))
  else if decide (binding_type = "phone"%string) then
    raise_when (bool_decide (truthy (Accounts.phone x) = None)) INVALID_INPUT ≫= λ _,
    with_acc (Accounts.update_user u (set_contact PHONE None))
  else
    raise_when (bool_decide (filter (of_github u) (map_to_list (user_oauths (reg w))) = [])) INVALID_INPUT ≫= λ _,
    modify (set_oauths (λ m, filter (λ kb, ¬ of_github u kb) m)).
End registration.

(** ** Who gets a session

    An account in good standing: neither locked nor waiting nor rejected. *)
Definition good (u : uuid) (a : Accounts.world) : Prop :=
  ∃ x, Accounts.user_of u a = Some x ∧ Accounts.lock_is_active (Accounts.clock a) x = false ∧ Accounts.admitted x.

(** No two accounts share a name, an address or a number. *)
Definition same_identity (x y : Accounts.User) : Prop :=
  Accounts.username x = Accounts.username y
  ∨ (is_Some (Accounts.email x) ∧ Accounts.email x = Accounts.email y)
  ∨ (is_Some (Accounts.phone x) ∧ Accounts.phone x = Accounts.phone y).

Definition unique_identities (us : gmap uuid Accounts.User) : Prop :=
  ∀ u v x y, us !! u = Some x → us !! v = Some y → same_identity x y → u = v.

Definition identifiers (x : Accounts.User) : string * option string * option string :=
  (Accounts.username x, Accounts.email x, Accounts.phone x).

Lemma unique_same us us' :
  (∀ u, identifiers <$> us' !! u = identifiers <$> us !! u) → unique_identities us → unique_identities us'.
Proof.
  intros Hs Hu u v x y Hx Hy Hxy. pose proof (Hs u) as Ex. pose proof (Hs v) as Ey. rewrite Hx in Ex. rewrite Hy in Ey.
  symmetry in Ex, Ey. simpl in Ex, Ey. apply fmap_Some in Ex as (x0 & Hx0 & [= E1 E2 E3]).
  apply fmap_Some in Ey as (y0 & Hy0 & [= F1 F2 F3]). apply (Hu u v x0 y0 Hx0 Hy0). unfold same_identity in *.
  by rewrite <- E1, <- E2, <- E3, <- F1, <- F2, <- F3.
Qed.

Lemma unique_alter us u f : (∀ x, identifiers (f x) = identifiers x) → unique_identities us → unique_identities (alter f u us).
Proof.
  intros Hf. apply unique_same. intros v. destruct (decide (v = u)) as [->|].
  - rewrite lookup_alter_eq. destruct (us !! u); [|done]. simpl. by rewrite Hf.
  - by rewrite lookup_alter_ne.
Qed.

(** Names stay unique, nobody loses that standing, and every new session belongs to somebody who has
    it. *)
Record guarded (a a' : Accounts.world) : Prop := {
  gd_clock : Accounts.clock a' = Accounts.clock a;
  gd_good u : good u a → good u a';
  gd_unique : unique_identities (Accounts.users (Accounts.db a)) → unique_identities (Accounts.users (Accounts.db a'));
  gd_new h t : Accounts.refresh_tokens (Accounts.db a') !! h = Some t →
    (∃ t0, Accounts.refresh_tokens (Accounts.db a) !! h = Some t0 ∧ Accounts.rt_user t0 = Accounts.rt_user t)
    ∨ good (Accounts.rt_user t) a'
}.

#[export] Instance guarded_preorder : PreOrder guarded.
Proof.
  split.
  - intros a. split; [done|done|done|]. intros h t Ht. left. by exists t.
  - intros a b c [C1 G1 U1 N1] [C2 G2 U2 N2]. split; [congruence|auto|auto|].
    intros h t Ht. destruct (N2 h t Ht) as [(t1 & Ht1 & E1)|]; [|by right].
    destruct (N1 h t1 Ht1) as [(t0 & Ht0 & E0)|Hg]; [left; exists t0; split; [done|congruence]|right].
    rewrite <- E1. auto.
Qed.

(** What leaves users and refresh tokens alone. *)
Lemma guarded_same a a' :
  Accounts.clock a' = Accounts.clock a → Accounts.users (Accounts.db a') = Accounts.users (Accounts.db a) →
  Accounts.refresh_tokens (Accounts.db a') = Accounts.refresh_tokens (Accounts.db a) → guarded a a'.
Proof.
  intros Hc Hu Ht. split; [done| |by rewrite Hu|].
  - intros u (x & Hx & H). exists x. unfold Accounts.user_of in *. rewrite Hu, Hc. done.
  - intros h t. rewrite Ht. intros H. left. by exists t.
Qed.

(** A change of a row that does not cost its standing. *)
Lemma guarded_update u (f : Accounts.User → Accounts.User) a :
  (∀ x, Accounts.lock_is_active (Accounts.clock a) x = false → Accounts.lock_is_active (Accounts.clock a) (f x) = false) →
  (∀ x, Accounts.admitted x → Accounts.admitted (f x)) →
  (∀ x, identifiers (f x) = identifiers x) →
  guarded a (Accounts.set_users (alter f u) a).
Proof.
  intros Hl Ha Hi. split; [done| |by apply unique_alter|intros h t Ht; left; by exists t].
  intros v (x & Hx & H1 & H2). unfold good, Accounts.user_of in *. cbn. destruct (decide (v = u)) as [->|].
  - exists (f x). rewrite lookup_alter_eq, Hx. auto.
  - exists x. by rewrite lookup_alter_ne.
Qed.

Lemma guarded_update_user u f :
  (∀ now x, Accounts.lock_is_active now x = false → Accounts.lock_is_active now (f x) = false) →
  (∀ x, Accounts.admitted x → Accounts.admitted (f x)) →
  (∀ x, identifiers (f x) = identifiers x) →
  leads guarded (Accounts.update_user u f).
Proof.
  intros Hl Ha Hi. apply leads_modify; intros a. apply guarded_update; [intros x Hx|intros x; apply Ha|intros x; apply Hi].
  unfold Accounts.lock_is_active in *. exact (Hl (Accounts.clock a) x Hx).
Qed.

Lemma guarded_tokens f a : (∀ t, Accounts.rt_user (f t) = Accounts.rt_user t) → guarded a (Accounts.set_refresh (fmap f) a).
Proof.
  intros Hf. split; [done|by intros u (x & Hx & H); exists x|done|]. intros h t. cbn. rewrite lookup_fmap.
  intros (t0 & Ht0 & ->)%fmap_Some. left. exists t0. by rewrite Hf.
Qed.

Lemma guarded_alter_token f k a : (∀ t, Accounts.rt_user (f t) = Accounts.rt_user t) → guarded a (Accounts.set_refresh (alter f k) a).
Proof.
  intros Hf. split; [done|by intros u (x & Hx & H); exists x|done|]. intros h t. cbn.
  intros [(-> & t0 & Ht0 & ->)|[_ Ht]]%lookup_alter_Some; left; [exists t0; by rewrite Hf|by exists t].
Qed.

#[local] Hint Extern 1 (leads guarded (modify _)) => apply leads_modify; intros ?; apply guarded_same; reflexivity : leads.
#[local] Hint Extern 1 (leads guarded (Accounts.log_audit _ _)) => apply leads_modify; intros ?; apply guarded_same; reflexivity : leads.
#[local] Hint Extern 1 (leads guarded (Accounts.emit _)) => apply leads_modify; intros ?; apply guarded_same; reflexivity : leads.
#[local] Hint Extern 1 (leads guarded (Accounts.set_role _ _)) => apply leads_modify; intros ?; apply guarded_same; reflexivity : leads.
#[local] Hint Extern 1 (leads guarded (Login.update_totp _ _)) => apply leads_modify; intros ?; apply guarded_same; reflexivity : leads.
#[local] Hint Extern 1 (leads guarded (Accounts.update_user _ (Accounts.set_lock false None 0))) =>
  apply guarded_update_user; intros; done : leads.
#[local] Hint Extern 1 (leads guarded (Accounts.update_user _ Accounts.reset_login_failures_stmt)) =>
  apply guarded_update_user; intros; done : leads.
#[local] Hint Extern 2 (leads guarded (Accounts.update_user _ _)) =>
  apply guarded_update_user; intros; first [assumption | reflexivity] : leads.

Lemma guarded_admission x : leads guarded (Accounts.assert_admission_allowed x).
Proof. unfold Accounts.assert_admission_allowed. leads. Qed.

Lemma guarded_clear u : leads guarded (Accounts.clear_expired_lock u).
Proof. unfold Accounts.clear_expired_lock. leads. Qed.
#[local] Hint Resolve guarded_admission guarded_clear : leads.

Lemma guarded_locked u : leads guarded (Accounts._check_account_locked u).
Proof. unfold Accounts._check_account_locked. leads. Qed.

Lemma guarded_tv u v c : leads guarded (Accounts.set_token_version u v c).
Proof. unfold Accounts.set_token_version. destruct c; leads. Qed.

Lemma guarded_revoke_user u : leads guarded (Accounts.revoke_all_for_user u).
Proof.
  apply leads_modify. intros a. apply guarded_tokens. intros t. unfold Accounts.revoke_token. by case_decide.
Qed.
#[local] Hint Resolve guarded_locked guarded_tv guarded_revoke_user : leads.

Lemma guarded_bump u c : leads guarded (Accounts.bump_token_version u c).
Proof. unfold Accounts.bump_token_version. leads. Qed.
#[local] Hint Resolve guarded_bump : leads.

Lemma guarded_revoke u c : leads guarded (Accounts.revoke_all_refresh_tokens u c).
Proof. unfold Accounts.revoke_all_refresh_tokens. leads. Qed.
#[local] Hint Resolve guarded_revoke : leads.

Lemma guarded_finish SSD u l r why c : leads guarded (Accounts.finish_upgrade SSD u l r why c).
Proof. unfold Accounts.finish_upgrade. leads. unfold Accounts.lift_outcome. intros w0. unfold wp. by destruct (Roles.satisfies_constraints _ _). Qed.
#[local] Hint Resolve guarded_finish : leads.

Section guarded.
Context {T : Type} (jwt_encode : Sessions.Claims → T) (jwt_decode : string → Z → T → option Sessions.Claims)
  (sha256 : string → string) (st : Sessions.Settings) (ls : LoginSettings) (fs : Login.Factors).

(** The one place where sessions are issued. *)
Lemma guarded_issue u td m s e ma raw j : leads guarded (Sessions.issue_session_tokens jwt_encode sha256 st u td m ma s e raw j).
Proof.
  intros w0. unfold Sessions.issue_session_tokens. wp_step. unfold wp at 1.
  destruct (Accounts._check_account_locked u w0) as [[[]|er] a1] eqn:Hl; [|done].
  assert (H1 : guarded w0 a1) by (eapply (leads_run guarded); [apply guarded_locked|exact Hl]).
  assert (Hu : ∀ x, Accounts.user_of u a1 = Some x → Accounts.lock_is_active (Accounts.clock a1) x = false).
  { intros x Hx. pose proof (gd_clock _ _ H1) as Hc. unfold Accounts._check_account_locked in Hl. rewrite run_get_state in Hl.
    rewrite run_get_or_raise in Hl. destruct (Accounts.user_of u w0) as [y|] eqn:Hy; [|done].
    pose proof (Accounts.check_locked_run u w0 y Hy) as Hrun. unfold Accounts._check_account_locked in Hrun. rewrite run_get_state in Hrun.
    rewrite run_get_or_raise, Hy in Hrun. rewrite Hl in Hrun. destruct (Accounts.lock_is_active (Accounts.clock w0) y); [done|].
    injection Hrun as ->. rewrite (Accounts.unlocked_self u w0 y Hy) in Hx. injection Hx as <-.
    unfold Accounts.lock_is_active. by rewrite Accounts.unlocked_unlocked. }
  wp_step. wp_step. wp_step. wp_step; [done|]. rename a into x. specialize (Hu x H).
  unfold Accounts.assert_admission_allowed. wp_step. wp_step. wp_step; [done|]. apply bool_decide_eq_false in H0.
  wp_step; [done|]. apply bool_decide_eq_false in H2.
  cbv zeta. wp_step. eapply wp_mono.
  { assert (Hr : respects eq (Sessions.session_roles st u (Accounts.account_level x) (Accounts.profile_role u a1) s)).
    { unfold Sessions.session_roles. respects. }
    apply (leads_respects eq _ Hr). }
  2: done.
  simpl. intros rs a2 <-. wp_step. unfold Sessions.store_refresh_token. wp_step. wp_step. cbv zeta. wp_step. wp_step; [done|].
  wp_step. wp_step. etrans; [exact H1|]. split; [done|by intros v (y & Hy & Hg); exists y|done|].
  intros h t. cbn. intros [[-> <-]|[_ Ht]]%lookup_insert_Some; [|left; by exists t]. right. simpl. exists x. by split_and!.
Qed.
#[local] Hint Resolve guarded_issue : leads.

Lemma guarded_response u req : leads guarded (Login._create_auth_response jwt_encode sha256 st u req).
Proof. unfold Login._create_auth_response. leads. Qed.
#[local] Hint Resolve guarded_response : leads.

Lemma guarded_finalize u req : leads guarded (Login.finalize_auth_response jwt_encode sha256 st u req).
Proof. unfold Login.finalize_auth_response. leads. Qed.

Lemma guarded_limiter (m : buckets → outcome err bool * buckets) : leads guarded (zoom Accounts.limiter Accounts.set_limiter m).
Proof. intros a. unfold wp, zoom. destruct (m _) as [[] bs]; [|done]. by apply guarded_same. Qed.

Lemma guarded_limit {A} (m : prog buckets err A) : leads guarded (zoom Accounts.limiter Accounts.set_limiter m).
Proof. intros a. unfold wp, zoom. destruct (m _) as [[] bs]; [|done]. by apply guarded_same. Qed.
#[local] Hint Resolve guarded_finalize guarded_limit : leads.

Lemma guarded_rate req k n wd : leads guarded (Login.check_code_rate_limit ls req k n wd).
Proof. unfold Login.check_code_rate_limit. leads. Qed.

Lemma guarded_throttle req : leads guarded (Login.throttle ls req).
Proof. unfold Login.throttle. leads. Qed.
#[local] Hint Resolve guarded_rate guarded_throttle : leads.

Lemma guarded_login acct p req : leads guarded (Login.login_password jwt_encode sha256 st ls fs acct p req).
Proof. unfold Login.login_password. leads. Qed.

Lemma guarded_code u t code : leads guarded (Login._verify_totp_guarded fs u t code).
Proof. unfold Login._verify_totp_guarded. leads. Qed.
#[local] Hint Resolve guarded_code : leads.

Lemma guarded_factor u code : leads guarded (Login.verify_second_factor fs u code).
Proof. unfold Login.verify_second_factor. leads. Qed.
#[local] Hint Resolve guarded_factor : leads.

Lemma guarded_step_up cur code req : leads guarded (Login.step_up_2fa jwt_encode sha256 st ls fs cur code req).
Proof. unfold Login.step_up_2fa. leads. Qed.

Lemma guarded_consume h : leads guarded (Sessions.consume_refresh h).
Proof. unfold Sessions.consume_refresh. leads. apply leads_modify. intros ?. by apply guarded_alter_token. Qed.
#[local] Hint Resolve guarded_consume : leads.

Lemma guarded_refresh raw req : leads guarded (Login.refresh_access_token_route jwt_encode sha256 st ls raw req).
Proof. unfold Login.refresh_access_token_route, Sessions.refresh_access_token. leads. Qed.

Lemma guarded_block j c : leads guarded (Sessions.block_jti j c).
Proof. unfold Sessions.block_jti. leads. Qed.
#[local] Hint Resolve guarded_block : leads.

Lemma guarded_logout u t c1 c2 : leads guarded (Sessions.logout_route jwt_decode u t c1 c2).
Proof. unfold Sessions.logout_route. leads. Qed.

Lemma guarded_reset u h c : leads guarded (Sessions._reset_password u h c).
Proof. unfold Sessions._reset_password. leads. Qed.

(** Only who waits is decided on. *)
Lemma guarded_waiting u a a' :
  ¬ good u a → Accounts.clock a' = Accounts.clock a → (∀ v, v ≠ u → Accounts.user_of v a' = Accounts.user_of v a) →
  (identifiers <$> Accounts.user_of u a' = identifiers <$> Accounts.user_of u a) →
  Accounts.refresh_tokens (Accounts.db a') = Accounts.refresh_tokens (Accounts.db a) → guarded a a'.
Proof.
  intros Hn Hc Hu Hi Ht. split; [done| | |].
  - intros v Hg. assert (Hne : v ≠ u) by (intros ->; done). destruct Hg as (x & Hx & Hok). exists x. by rewrite Hu, Hc.
  - apply unique_same. intros v. destruct (decide (v = u)) as [->|Hne]; [exact Hi|]. f_equal. exact (Hu v Hne).
  - intros h t. rewrite Ht. intros H. left. by exists t.
Qed.

Lemma guarded_decide u r act why c : leads guarded (Accounts.decide_admission u r act why c).
Proof.
  intros a. unfold Accounts.decide_admission. wp_step. wp_step. wp_step. wp_step; [done|]. rename a0 into x. wp_step. wp_step; [done|].
  apply bool_decide_eq_false, dec_stable in H0. cbv zeta.
  assert (Hn : ¬ good u a). { intros (y & Hy & _ & Ha & _). assert (y = x) as -> by congruence. done. }
  wp_step. unfold Accounts.update_user at 1. wp_step. wp_step.
  assert (Hlog : ∀ a1 what, guarded a a1 → wp (Accounts.log_audit u what) (λ _ a2, guarded a a2) (λ _ _, True) a1).
  { intros a1 what H1. unfold Accounts.log_audit. wp_step. etrans; [exact H1|]. by apply guarded_same. }
  destruct act.
  - unfold Accounts.update_user. wp_step. apply Hlog. apply (guarded_waiting u); [done|done| | |done].
    + intros v Hv. unfold Accounts.user_of. cbn. by rewrite !lookup_alter_ne.
    + unfold Accounts.user_of in *. cbn. by rewrite !lookup_alter_eq, H.
  - wp_step. unfold Accounts.update_user. wp_step. set (a2 := Accounts.set_users _ _).
    assert (H2 : guarded a a2).
    { apply (guarded_waiting u); [done|done| | |done].
      - intros v Hv. unfold Accounts.user_of. cbn. by rewrite !lookup_alter_ne.
      - unfold Accounts.user_of in *. cbn. by rewrite !lookup_alter_eq, H. }
    wp_step. eapply wp_mono; [apply (guarded_bump u c)| |done]. simpl. intros n a3 H3.
    eapply wp_mono; [apply (guarded_revoke_user u)| |done]. simpl. intros ? a4 H4. apply Hlog. by etrans; [|etrans].
Qed.
#[local] Hint Resolve guarded_login guarded_step_up guarded_refresh guarded_logout guarded_reset guarded_decide : leads.

Lemma guarded_account o : leads guarded (Login.run_op jwt_encode jwt_decode sha256 st ls fs o).
Proof.
  assert (H : leads guarded (match o with
    | Login.LoginPassword a p req => Login.ignore (Login.login_password jwt_encode sha256 st ls fs a p req)
    | Login.StepUp cur code req => Login.ignore (Login.step_up_2fa jwt_encode sha256 st ls fs cur code req)
    | Login.Refresh raw req => Login.ignore (Login.refresh_access_token_route jwt_encode sha256 st ls raw req)
    | Login.Logout u t c1 c2 => Sessions.logout_route jwt_decode u t c1 c2
    | Login.ResetPassword u h c => Sessions._reset_password u h c
    | Login.DecideAdmission u r a why c => Accounts.decide_admission u r a why c
    | Login.GrantExamUnlock u l r c => Login.ignore (Accounts.grant_exam_unlock (Sessions.SSD st) u l r c)
    | Login.GrantIncubation u c => Login.ignore (Accounts.grant_incubation (Sessions.SSD st) u c)
    end)).
  { destruct o; unfold Login.ignore, Accounts.grant_exam_unlock, Accounts._apply_upgrades, Accounts.grant_incubation;
      auto with leads; leads. }
  intros w. specialize (H w). unfold Login.run_op, Accounts.transaction, wp in *. by destruct (_ w) as [[[]|e] w'] eqn:He.
Qed.
End guarded.

(** The same for the worlds around the accounts. *)
Definition guards (w w' : Credentials.world) : Prop := guarded (acc w) (acc w').
#[export] Instance guards_preorder : PreOrder guards.
Proof. split; [intros w; unfold guards; reflexivity|]. intros a b c H1 H2. unfold guards in *. by etrans. Qed.

#[local] Hint Extern 1 (leads guards (modify _)) => apply leads_modify; intros ?; unfold guards; reflexivity : leads.
#[local] Hint Extern 1 (leads guarded (modify (Accounts.set_totp _))) => apply leads_modify; intros ?; apply guarded_same; reflexivity : leads.
#[local] Hint Extern 1 (leads guarded (Accounts.log_audit _ _)) => apply leads_modify; intros ?; apply guarded_same; reflexivity : leads.
#[local] Hint Extern 1 (leads guarded (Accounts.emit _)) => apply leads_modify; intros ?; apply guarded_same; reflexivity : leads.
#[local] Hint Extern 1 (leads guarded (Login.update_totp _ _)) => apply leads_modify; intros ?; apply guarded_same; reflexivity : leads.
#[local] Hint Extern 2 (leads guarded (Accounts.update_user _ _)) =>
  apply guarded_update_user; intros; first [assumption | reflexivity] : leads.
#[local] Hint Resolve guarded_admission guarded_locked guarded_issue guarded_response guarded_finalize guarded_rate guarded_code
  guarded_factor guarded_reset guarded_account : leads.

Lemma guards_auth {A} (m : Accounts.M A) : leads guarded m → leads guards (auth m).
Proof. intros H. by eapply leads_zoom. Qed.

Lemma guards_lift {A} (o : outcome err A) : leads guards (lift o).
Proof. intros w. unfold wp, lift. by destruct o. Qed.
#[local] Hint Resolve guards_lift : leads.
#[local] Hint Extern 2 (leads guards (auth _)) => apply guards_auth : leads.

Section guards.
Context {T : Type} (jwt_encode : Sessions.Claims → T) (jwt_decode : string → Z → T → option Sessions.Claims) (ks : Keys)
  (st : Sessions.Settings) (ls : LoginSettings) (fs : Login.Factors).

Lemma guards_create c contact p n nonce new : leads guards (_create_verification (hmac ks) c contact p n nonce new).
Proof. unfold _create_verification. leads. Qed.

Lemma guards_consume c contact code p : leads guards (consume_code (hmac ks) c contact code p).
Proof. unfold consume_code, _consume. leads. Qed.

Lemma guards_token token : leads guards (_decode_temp_token ks token).
Proof. unfold _decode_temp_token. leads. Qed.
#[local] Hint Resolve guards_create guards_consume guards_token : leads.

Lemma guards_used token u txn : leads guards (_check_and_consume_temp_token ks token u txn).
Proof. unfold _check_and_consume_temp_token. leads. Qed.

Lemma guards_recovery u plain : leads guards (consume_recovery_code ks u plain).
Proof. unfold consume_recovery_code, _check_recovery_locked, consume_recovery_rows, update_codes. leads. Qed.
#[local] Hint Resolve guards_used guards_recovery : leads.

Lemma guards_totp u code : leads guards (check_totp fs u code).
Proof. unfold check_totp, consume_counter. leads. Qed.
#[local] Hint Resolve guards_totp : leads.

Lemma guards_setup u code plains : leads guards (setup_2fa_complete ks fs u code plains).
Proof. unfold setup_2fa_complete, add_recovery_code. leads. Qed.

Lemma guards_begin u s : leads guards (setup_2fa_begin u s).
Proof. unfold setup_2fa_begin, put_totp. leads. Qed.

Lemma guards_link token p req : leads guards (verify_magic_link jwt_encode ks st token p req).
Proof. unfold verify_magic_link, consume_link. leads. Qed.

Lemma guards_setup_token token : leads guards (_decode_setup_temp_token ks token).
Proof. unfold _decode_setup_temp_token. leads. Qed.
#[local] Hint Resolve guards_setup guards_begin guards_link guards_setup_token : leads.

Lemma guards_finish u x pw txn c : leads guards (Recovery.finish_or_start ks u x pw txn c).
Proof. unfold Recovery.finish_or_start, Recovery._start_user_recovery_txn, Recovery.create_recovery, Recovery._reset_password. leads. Qed.

Lemma guards_get txn : leads guards (Recovery._get_recovery_txn txn).
Proof. unfold Recovery._get_recovery_txn. leads. Qed.
#[local] Hint Resolve guards_finish guards_get : leads.

Lemma guards_body o : leads guards (Recovery.body jwt_encode jwt_decode ks st ls fs o).
Proof.
  destruct o; simpl; unfold Recovery.ignore, Recovery.recover_send, login_code_request, login_code_route, login_code,
    channel_for, request_magic_link, magic_link_verify_route, verify_2fa_route, verify_2fa, setup_2fa_temp, setup_2fa_complete_temp,
    consume_setup, confirm_recovery_codes_saved, disable_2fa, verify_second_factor, Recovery.recover_verify_route,
    Recovery.recover_by_contact, Recovery.find_user_by_contact, Recovery.recover_magic_link_verify_route, Recovery.recover_by_magic_link,
    Recovery.recover_admin_begin, Recovery.create_recovery, Recovery.recover_admin_verify_contact_route,
    Recovery.recover_admin_verify_contact, Recovery.recover_verify_totp_route, Recovery.recover_admin_verify_totp,
    Recovery.recover_complete_route, Recovery.recover_complete, Recovery._consume_recovery_txn, Recovery._reset_password, Recovery.limited, channel_for;
    cbv zeta; leads.
Qed.

Lemma guards_run o : leads guards (Recovery.run_op jwt_encode jwt_decode ks st ls fs o).
Proof.
  intros w. pose proof (guards_body o w) as H. unfold Recovery.run_op, Credentials.transaction, wp in *.
  by destruct (Recovery.body _ _ _ _ _ _ o w) as [[[]|e] w'].
Qed.
End guards.

(** The sessions of the back office that go on, and what issues none. *)
Section back_office.
Context {T : Type} (jwt_encode : Sessions.Claims → T) (jwt_decode : string → Z → T → option Sessions.Claims)
  (sha256 : string → string) (st : Sessions.Settings) (ls : LoginSettings) (fs : Login.Factors) (cookie_minutes : Z).

Lemma guarded_lift {A} (o : outcome err A) : leads guarded (Accounts.lift_outcome o).
Proof. intros w. unfold wp, Accounts.lift_outcome. by destruct o. Qed.

Lemma guarded_alter_session f h : (∀ t, Accounts.rt_user (f t) = Accounts.rt_user t) →
  leads (E:=err) guarded (modify (Accounts.set_refresh (alter f h))).
Proof. intros Hf. apply leads_modify. intros a. by apply guarded_alter_token. Qed.
#[local] Hint Resolve guarded_lift guarded_block : leads.
#[local] Hint Extern 1 (leads guarded (modify (Accounts.set_refresh (alter _ _)))) => apply guarded_alter_session; intros ?; reflexivity : leads.
#[local] Hint Extern 2 (leads guarded (modify _)) => apply leads_modify; intros ?; apply guarded_same; reflexivity : leads.

Lemma guarded_back_office o : AdminSessions.enters o = false →
  leads guarded (AdminSessions.body jwt_encode jwt_decode sha256 st ls fs cookie_minutes o).
Proof.
  destruct o; try done; intros _; cbn [AdminSessions.body]; unfold Login.ignore, AdminSessions.admin_logout, AdminSessions.admin_verify_2fa,
    AdminSessions.verify_user_totp, AdminSessions.activate_admin_roles, AdminSessions.activate_roles, AdminSessions.verify_credentials,
    AdminSessions._require_admin_from_cookie, AdminSessions.refresh_cookie, AdminSessions.session_row, AdminSessions.chosen_roles,
    AdminSessions._active_cookie_roles, AdminSessions.revoke_jti; cbv zeta; leads.
Qed.
End back_office.

(** ** The requests of the account service

    All that issue or end a session, or create an account or change its name, its
    addresses, its password, its factors or its standing. *)
Section requests.
Context {T : Type} (jwt_encode : Sessions.Claims → T) (jwt_decode : string → Z → T → option Sessions.Claims) (ks : Keys)
  (st : Sessions.Settings) (ls : LoginSettings) (fs : Login.Factors) (sv : Services).

Inductive request :=
  | OnCredentials (o : Recovery.op (T:=T))
  | RegisterLocal (new : uuid) (username password salt : string) (req : Login.Request)
  | SendRegCode (c : channel) (contact : string) (n : N) (nonce : string) (new : uuid) (req : Login.Request)
  | CompleteReg (new : uuid) (c : channel) (contact code : string) (req : Login.Request)
  | RegisterNormal (username password salt txn : string) (email phone : option string) (fresh1 fresh2 : N * string * uuid)
      (req1 req2 : Login.Request)
  | RegisterNormalVerify (new : uuid) (txn : string) (email_code phone_code : option string) (req : Login.Request)
  | OAuthStart (state purpose : string) (u : option uuid)
  | OAuthCallback (code state error : option string) (new : uuid) (req : Login.Request)
  | OAuthBind (code state error : option string)
  | PasskeyRegister (u : uuid) (k challenge : string)
  | PasskeyRegistered (u : uuid) (raw_id k credential name : string) (new : uuid)
  | PasskeyBegin (k challenge : string) (req : Login.Request)
  | PasskeyLogin (raw_id k credential : string) (req : Login.Request)
  | PasskeyDelete (u k : uuid)
  | PasskeyCleanup
  | BindRequest (c : channel) (contact : string) (n : N) (nonce : string) (new : uuid) (req : Login.Request)
  | BindVerify (u : uuid) (c : channel) (contact code : string)
  | Unbind (u : uuid) (binding_type : string) (code recovery_code : option string)
  | BackOffice (o : AdminSessions.op T).

Definition done_with {A} (m : P A) : P () := _ ← m; mret tt.

Definition handle (r : request) : P () :=
  match r with
  | OnCredentials o => with_cred (Recovery.run_op jwt_encode jwt_decode ks st ls fs o)
  | RegisterLocal new name password salt req => done_with (register_local jwt_encode ks st fs sv new name password salt req)
  | SendRegCode c contact n nonce new req => done_with (_send_reg_code ks ls c contact n nonce new req)
  | CompleteReg new c contact code req => done_with (_complete_reg_verify jwt_encode ks st ls sv new c contact code req)
  | RegisterNormal name password salt txn email phone f1 f2 req1 req2 =>
      done_with (register_normal_with_password_route ks ls sv name password salt txn email phone f1 f2 req1 req2)
  | RegisterNormalVerify new txn ec pc req =>
      done_with (consume_pending_normal_registration jwt_encode ks st fs sv new txn ec pc req)
  | OAuthStart state purpose u => done_with (generate_oauth_state state purpose u)
  | OAuthCallback code state error new req => done_with (github_callback jwt_encode ks st sv code state error new req)
  | OAuthBind code state error => github_bind_callback sv code state error
  | PasskeyRegister u k challenge => done_with (begin_passkey_registration u k challenge)
  | PasskeyRegistered u raw_id k credential name new => complete_passkey_registration sv u raw_id k credential name new
  | PasskeyBegin k challenge req => done_with (passkey_begin_login ls k challenge req)
  | PasskeyLogin raw_id k credential req => done_with (passkey_complete_login jwt_encode ks st ls sv raw_id k credential req)
  | PasskeyDelete u k => delete_credential u k
  | PasskeyCleanup => w ← get_state; delete_expired_or_consumed (time w)
  | BindRequest c contact n nonce new req => done_with (bind_request ks ls c contact n nonce new req)
  | BindVerify u c contact code => bind_verify ks u c contact code
  | Unbind u binding_type code rc => unbind ks fs u binding_type code rc
  | BackOffice o => with_acc (AdminSessions.body jwt_encode jwt_decode (sha256 ks) st ls fs (admin_access_cookie_minutes sv) o)
  end.

(** The requests that issue a session of the back office. *)
Definition back_office (r : request) : bool := match r with BackOffice o => AdminSessions.enters o | _ => false end.

Definition serve (r : request) : P () := transaction (handle r).

Definition at_instant (t : Z) (w : site) : site := set_cred (Credentials.at_time t (cred w)) w.

Inductive serves (w : site) : site → Prop :=
  | serves_request r : serves w (serve r w).2
  | serves_time t : (time w ≤ t)%Z → serves w (at_instant t w).
End requests.

(** ** Every entrance is guarded *)
Definition safe (w w' : site) : Prop := guarded (account w) (account w').
#[export] Instance safe_preorder : PreOrder safe.
Proof. split; [intros w; unfold safe; reflexivity|]. intros a b c H1 H2. unfold safe in *. by etrans. Qed.

#[local] Hint Extern 1 (leads safe (modify _)) => apply leads_modify; intros ?; unfold safe; reflexivity : leads.

Lemma safe_cred {A} (m : Credentials.M A) : leads guards m → leads safe (with_cred m).
Proof. intros H. by eapply leads_zoom. Qed.

Lemma safe_acc {A} (m : Accounts.M A) : leads guarded m → leads safe (with_acc m).
Proof. intros H. by apply safe_cred, guards_auth. Qed.
#[local] Hint Extern 2 (leads safe (with_cred _)) => apply safe_cred : leads.
#[local] Hint Extern 2 (leads safe (with_acc _)) => apply safe_acc : leads.

(** A new account shares nothing with an old one when no old one conflicts. *)
Lemma conflicts_false (us : gmap uuid Accounts.User) name email phone i z (y : Accounts.User) :
  existsb (λ ux, conflicts name email phone ux.2) (map_to_list us) = false → us !! i = Some z →
  identifiers y = (name, email, phone) → ¬ same_identity z y.
Proof.
  intros He Hz [= Hn Hm Hp] Hs. assert (Hc : conflicts name email phone z = false).
  { apply not_true_is_false. intros Hc. apply not_true_iff_false in He. apply He, existsb_exists. exists (i, z).
    split; [|done]. by apply list_elem_of_In, elem_of_map_to_list. }
  unfold conflicts in Hc. rewrite !orb_false_iff, !bool_decide_eq_false in Hc. destruct Hc as [[H1 H2] H3].
  destruct Hs as [Hs|[[[e Hs1] Hs2]|[[e Hs1] Hs2]]]; [congruence| |].
  - apply H2. split; [exists e; congruence|congruence].
  - apply H3. split; [exists e; congruence|congruence].
Qed.

Lemma same_identity_sym x y : same_identity x y → same_identity y x.
Proof. intros [H|[[H1 H2]|[H1 H2]]]; [left|right; left; rewrite <- H2|right; right; rewrite <- H2]; done. Qed.

Lemma unique_insert (us : gmap uuid Accounts.User) u x :
  unique_identities (delete u us) → (∀ i z, i ≠ u → us !! i = Some z → ¬ same_identity z x) → unique_identities (<[u := x]> us).
Proof.
  intros Hu Hx i j y z. rewrite !lookup_insert_Some. intros [[<- <-]|[Hi Hy]] [[<- <-]|[Hj Hz]] Hs; [done| | |].
  - exfalso. eapply (Hx j z); [done|exact Hz|by apply same_identity_sym].
  - exfalso. eapply (Hx i y); done.
  - apply (Hu i j y z); [| |done]; by rewrite lookup_delete_ne.
Qed.

Lemma unique_delete (us : gmap uuid Accounts.User) u : unique_identities us → unique_identities (delete u us).
Proof. intros Hu i j x y [_ Hx]%lookup_delete_Some [_ Hy]%lookup_delete_Some. by apply Hu. Qed.

(** A new row, under an identifier nobody has. *)
Lemma safe_create sv new name email phone hashed level : leads safe (create_user_with_profile sv new name email phone hashed level).
Proof.
  intros w. unfold create_user_with_profile. wp_step. wp_step. wp_step. wp_step; [done|]. apply orb_false_iff in H as [Hc Hn].
  apply bool_decide_eq_false, eq_None_not_Some in Hn. unfold with_acc, with_cred, auth. wp_step. wp_step. wp_step. wp_step.
  wp_step. wp_step. wp_step. wp_step. wp_step. split; [done| | |intros h t Ht; left; by exists t].
  - intros u (x & Hx & H). exists x. split; [|done]. unfold Accounts.user_of in *. cbn. rewrite lookup_insert_ne; [done|].
    intros ->. unfold users_of, account in *. congruence.
  - cbn. intros Hu. apply unique_insert; [by apply unique_delete|]. intros i z _ Hz. by eapply conflicts_false.
Qed.
#[local] Hint Resolve safe_create : leads.

Section safe.
Context {T : Type} (jwt_encode : Sessions.Claims → T) (jwt_decode : string → Z → T → option Sessions.Claims) (ks : Keys)
  (st : Sessions.Settings) (ls : LoginSettings) (fs : Login.Factors) (sv : Services).

#[local] Hint Resolve guards_create guards_consume guards_recovery guards_run : leads.

Lemma safe_response u req : leads safe (_create_auth_response jwt_encode ks st u req).
Proof. unfold _create_auth_response. leads. Qed.
#[local] Hint Resolve safe_response : leads.

Lemma safe_build u req : leads safe (build_registration_response jwt_encode ks st u req).
Proof. unfold build_registration_response. leads. Qed.

Lemma safe_upgrade u : leads safe (upgrade_to_normal u).
Proof. unfold upgrade_to_normal. leads. Qed.
#[local] Hint Resolve safe_build safe_upgrade : leads.

Lemma safe_refused {A B C} (m : P A) (f : A → P B) e : leads (A:=C) safe (m ≫= λ a, f a ≫= λ _, raise e).
Proof. intros w. unfold wp, mbind, prog_bind. destruct (m w) as [[a|] w1]; [|done]. by destruct (f a w1) as [[]]. Qed.

Lemma safe_login_or_error u password : leads safe (_login_or_error fs u password).
Proof.
  unfold _login_or_error. leads_step; [auto with leads|]. leads_step; [leads|]. leads_step; [leads|].
  destruct (_ || _); [apply safe_refused|auto with leads].
Qed.

Lemma safe_send c contact n nonce new req : leads safe (_send_reg_code ks ls c contact n nonce new req).
Proof. unfold _send_reg_code, limited. leads. Qed.

Lemma safe_unique base : leads safe (unique_username base).
Proof. unfold unique_username. leads. Qed.

Lemma safe_consume_for c contact code : leads safe (consume_for ks c contact code).
Proof. unfold consume_for. leads. Qed.

Lemma safe_state state purpose : leads safe (consume_oauth_state state purpose).
Proof. unfold consume_oauth_state. leads. Qed.

Lemma safe_fetch provider code : leads safe (fetch_user sv provider code).
Proof. intros w. unfold wp, fetch_user. by destruct (fetch sv provider code). Qed.

Lemma safe_add u provider info e : leads safe (add_oauth u provider info e).
Proof. unfold add_oauth. leads. Qed.

Lemma safe_challenge k : leads safe (_consume_challenge k).
Proof. unfold _consume_challenge. leads. Qed.
#[local] Hint Resolve safe_login_or_error safe_send safe_unique safe_consume_for safe_state safe_fetch safe_add safe_challenge : leads.

(** Addresses are only added where nobody else has them. *)
Lemma safe_set_addresses u x email phone w :
  users_of w !! u = Some x → address_held u (set_addresses email phone x) (users_of w) = false →
  guarded (account w) (Accounts.set_users (alter (λ x, Accounts.touch (time w) (set_addresses email phone x)) u) (account w)).
Proof.
  intros Hx Hf. split; [done| | |intros h t Ht; left; by exists t].
  - intros v (y & Hy & H). unfold Accounts.user_of in *. destruct (decide (v = u)) as [->|].
    + eexists. unfold Accounts.user_of. cbn. rewrite lookup_alter_eq, Hy. by split.
    + exists y. unfold Accounts.user_of. cbn. by rewrite lookup_alter_ne.
  - cbn. intros Hu. set (f := λ x, _).
    replace (alter f u (Accounts.users (Accounts.db (account w)))) with (<[u := f x]> (Accounts.users (Accounts.db (account w)))).
    2: { apply map_eq. intros i. destruct (decide (i = u)) as [->|]; [|by rewrite lookup_insert_ne, lookup_alter_ne].
         rewrite lookup_insert_eq, lookup_alter_eq. unfold users_of in Hx. by rewrite Hx. }
    apply unique_insert; [by apply unique_delete|]. intros i z Hi Hz Hs.
    apply not_true_iff_false in Hf. apply Hf, existsb_exists. exists (i, z). split; [by apply list_elem_of_In, elem_of_map_to_list|].
    destruct Hs as [Hs|Hs].
    { exfalso. apply Hi. apply (Hu i u z x Hz Hx). by left. }
    apply andb_true_iff. split; [by apply bool_decide_eq_true|]. apply orb_true_iff.
    unfold f, Accounts.touch in Hs. simpl in Hs.
    destruct Hs as [[Hs1 Hs2]|[Hs1 Hs2]]; [left|right]; apply bool_decide_eq_true; (split; [rewrite Hs2 in Hs1; exact Hs1|exact Hs2]).
Qed.

Lemma safe_pending new txn ec pc req : leads safe (consume_pending_normal_registration jwt_encode ks st fs sv new txn ec pc req).
Proof.
  unfold consume_pending_normal_registration. leads_step; [leads|]. leads_step; [leads|]. rename a0 into p. do 5 (leads_step; [leads|]).
  intros w. wp_step. wp_step. destruct (find_identity _ _ _ _) as [[u x]|] eqn:Hf; [|refine ((_ : leads safe _) w); leads].
  apply List.find_some in Hf as [Hx%list_elem_of_In%elem_of_map_to_list _].
  wp_step. wp_step; [done|]. cbv zeta. wp_step. wp_step; [done|]. destruct (decide _); [refine ((_ : leads safe _) w); leads|].
  wp_step. unfold with_acc at 1, with_cred at 1, auth at 1, Accounts.update_user. do 3 wp_step.
  eapply wp_mono; [refine ((_ : leads safe _) _); leads| |done]. simpl. intros r w' Hw. etrans; [|exact Hw].
  by apply (safe_set_addresses u x).
Qed.
#[local] Hint Resolve safe_pending : leads.

(** A change of one row by which it comes to share nothing with another. *)
Lemma guarded_contact u x (f : Accounts.User → Accounts.User) (a : Accounts.world) :
  Accounts.user_of u a = Some x →
  (∀ y, Accounts.lock_is_active (Accounts.clock a) (f y) = Accounts.lock_is_active (Accounts.clock a) y
        ∧ (Accounts.admitted y → Accounts.admitted (f y))) →
  (∀ i z, i ≠ u → Accounts.user_of i a = Some z → same_identity z (f x) → same_identity z x) →
  guarded a (Accounts.set_users (alter f u) a).
Proof.
  intros Hx Hf Hs. unfold Accounts.user_of in *. split; [done| | |intros h t Ht; left; by exists t].
  - intros v (y & Hy & Hl & Ha). unfold good, Accounts.user_of in *. cbn. destruct (decide (v = u)) as [->|].
    + exists (f y). rewrite lookup_alter_eq, Hy. destruct (Hf y) as [-> ?]. auto.
    + exists y. by rewrite lookup_alter_ne.
  - cbn. intros Hu. rewrite (alter_as_insert f _ u x Hx). apply unique_insert; [by apply unique_delete|].
    intros i z Hi Hz Hsame. apply Hi. apply (Hu i u z x Hz Hx). by eapply Hs.
Qed.

Lemma safe_update_contact u x c v w : users_of w !! u = Some x →
  (∀ i z, i ≠ u → users_of w !! i = Some z → is_Some v → contact_of c z ≠ v) →
  wp (with_acc (Accounts.update_user u (set_contact c v))) (λ _ w', safe w w') (λ _ _, True) w.
Proof.
  intros Hx Hv. unfold with_acc, with_cred, auth, Accounts.update_user. do 3 wp_step.
  apply (guarded_contact u x (λ y, Accounts.touch (Accounts.clock (account w)) (set_contact c v y))); [done|by intros y|].
  intros i z Hi Hz Hs. unfold same_identity, set_contact, Accounts.touch in *. simpl in Hs.
  specialize (Hv i z Hi Hz). destruct Hs as [|[[Hsome He]|[Hsome He]]]; [by left| |]; destruct c; simpl in *; try (by right; left); try (by right; right);
    exfalso; apply Hv; congruence.
Qed.

Lemma find_user_none c v cw i z : find_user c v cw = None → Accounts.users (Accounts.db (acc cw)) !! i = Some z → contact_of c z ≠ Some v.
Proof.
  intros Hn Hz Hc. assert (Hin : In (i, z) (map_to_list (Accounts.users (Accounts.db (acc cw))))) by (by apply list_elem_of_In, elem_of_map_to_list).
  pose proof (List.find_none _ _ Hn _ Hin) as Hb. simpl in Hb. by apply bool_decide_eq_false in Hb.
Qed.

Lemma safe_bind u c contact code : leads safe (bind_verify ks u c contact code).
Proof.
  unfold bind_verify. leads_step; [leads|]. intros w. wp_step. wp_step. wp_step. wp_step; [done|].
  apply bool_decide_eq_false, eq_None_not_Some in H. wp_step. wp_step; [done|]. wp_step.
  eapply wp_mono; [eapply safe_update_contact; [done|]| |done].
  - intros i z _ Hz _. by eapply find_user_none.
  - intros [] w1 H1. eapply wp_mono; [apply safe_upgrade| |done]. intros [] w2 H2. by etrans.
Qed.

Lemma guards_second_factor u code rc : leads guards (verify_second_factor ks fs u code rc).
Proof. unfold verify_second_factor. leads. Qed.

Lemma safe_clear_contact u c : leads safe (with_acc (Accounts.update_user u (set_contact c None))).
Proof.
  intros w. destruct (users_of w !! u) as [x|] eqn:Hx.
  - eapply safe_update_contact; [done|]. intros i z _ _ [? [=]].
  - unfold with_acc, with_cred, auth, Accounts.update_user. do 3 wp_step. apply guarded_same; [done| |done]. cbn.
    apply map_eq. intros i. destruct (decide (i = u)) as [->|]; [|by rewrite lookup_alter_ne]. rewrite lookup_alter_eq.
    unfold users_of, account in *. by rewrite Hx.
Qed.
#[local] Hint Resolve safe_bind guards_second_factor safe_clear_contact : leads.

Lemma safe_unbind u binding_type code rc : leads safe (unbind ks fs u binding_type code rc).
Proof. unfold unbind. leads. Qed.

#[local] Hint Resolve safe_unbind guarded_back_office : leads.

Lemma safe_handle r : back_office r = false → leads safe (handle jwt_encode jwt_decode ks st ls fs sv r).
Proof.
  intros Hr. destruct r; simpl in *; unfold done_with, register_local, _complete_reg_verify, register_by_verify,
    register_normal_with_password_route, store_pending_normal_registration, generate_oauth_state,
    github_callback, github_bind_callback, _guard_oauth_query, handle_oauth_callback, bind_oauth, get_provider, begin_passkey_registration, _store_challenge,
    complete_passkey_registration, passkey_begin_login, _store_challenge, passkey_complete_login, complete_passkey_login, delete_credential,
    delete_expired_or_consumed, bind_request, limited; cbv zeta; leads.
Qed.

(** The other ones: nobody's standing changes, and the sessions are those of the
    back office. *)
Lemma handle_entered r w : back_office r = true →
  wp (handle jwt_encode jwt_decode ks st ls fs sv r) (λ _ w', AdminSessions.entered (account w) (account w')) (λ _ _, True) w.
Proof.
  intros Hr. destruct r; try done. simpl in *. unfold with_acc, with_cred, auth. do 2 apply wp_zoom.
  exact (AdminSessions.entered_body jwt_encode jwt_decode (sha256 ks) st ls fs (admin_access_cookie_minutes sv) o Hr (account w)).
Qed.
End safe.

Lemma unique_served {T} (jwt_encode : Sessions.Claims → T) (jwt_decode : string → Z → T → option Sessions.Claims) ks st ls fs sv w0 w :
  rtc (serves jwt_encode jwt_decode ks st ls fs sv) w0 w → unique_identities (users_of w0) → unique_identities (users_of w).
Proof.
  induction 1 as [|w0 w1 w2 Hs _ IH]; [done|]. intros Hu. apply IH. destruct Hs as [r|t]; [|exact Hu]. unfold serve, transaction.
  destruct (back_office r) eqn:Hb.
  - pose proof (handle_entered jwt_encode jwt_decode ks st ls fs sv r w0 Hb) as H. unfold wp in H.
    destruct (handle _ _ _ _ _ _ _ r w0) as [[[]|e] w']; [|exact Hu]. destruct H as [_ He _]. unfold users_of. simpl. by rewrite He.
  - pose proof (safe_handle jwt_encode jwt_decode ks st ls fs sv r Hb w0) as H. unfold wp in H.
    destruct (handle _ _ _ _ _ _ _ r w0) as [[[]|e] w']; [|exact Hu]. by apply H.
Qed.

(** C29: Every entrance is guarded: after any requests to an account service that
    started with distinct accounts, with the clock running between them, no two
    accounts share a name, an email address or a phone number; and whatever request
    comes next, with a password, a code, a link, a second factor, a passkey, an OAuth
    account, a refresh token, a cookie of the back office, by registering or by
    changing the bound addresses, a session that is new afterwards belongs to an
    account that is not locked, and that is neither waiting for its admission nor
    rejected, with one exception: logging in to the back office, and renewing that
    session, look at the level and the lock of an administrator but not at the
    admission. No request that succeeds locks an account out or takes its admission
    away. *)
Theorem every_entrance_guarded {T} (jwt_encode : Sessions.Claims → T) (jwt_decode : string → Z → T → option Sessions.Claims) (ks : Keys)
    (st : Sessions.Settings) (ls : LoginSettings) (fs : Login.Factors) (sv : Services) (r : request (T:=T)) (w0 w : site) :
  unique_identities (users_of w0) → rtc (serves jwt_encode jwt_decode ks st ls fs sv) w0 w →
  let w' := (serve jwt_encode jwt_decode ks st ls fs sv r w).2 in
  unique_identities (users_of w)
  ∧ (∀ h t, Accounts.refresh_tokens (Accounts.db (account w')) !! h = Some t →
     Accounts.refresh_tokens (Accounts.db (account w)) !! h = None →
     ∃ x, users_of w' !! Accounts.rt_user t = Some x ∧ Accounts.lock_is_active (time w') x = false
       ∧ if back_office r then Accounts.kind t = "admin"%string ∧ Accounts.account_level x = "admin"%string else Accounts.admitted x)
  ∧ (∀ u, good u (account w) → (serve jwt_encode jwt_decode ks st ls fs sv r w).1 = Ok tt → good u (account w')).
Proof.
  intros Hu Hw. split; [by eapply unique_served|]. cbv zeta. unfold serve, transaction. destruct (back_office r) eqn:Hb.
  - pose proof (handle_entered jwt_encode jwt_decode ks st ls fs sv r w Hb) as H. unfold wp in H.
    destruct (handle _ _ _ _ _ _ _ r w) as [[[]|e] w'] eqn:He; simpl in *; [destruct H as [Hc Hus Hn]|]; split.
    + intros h t Ht Hnone. destruct (Hn h t Ht) as [(t0 & Ht0 & _)|[Hk (x & Hx & Hl & Ha)]]; [congruence|by exists x].
    + intros u (x & Hx & Hg) _. exists x. unfold Accounts.user_of in *. by rewrite Hus, Hc.
    + intros h t Ht Hnone. unfold account in *. simpl in Ht. congruence.
    + done.
  - pose proof (safe_handle jwt_encode jwt_decode ks st ls fs sv r Hb w) as H. unfold wp in H.
    destruct (handle _ _ _ _ _ _ _ r w) as [[[]|e] w'] eqn:He; simpl in *; [destruct H as [Hc Hg Hq Hn]|]; split.
    + intros h t Ht Hnone. destruct (Hn h t Ht) as [(t0 & Ht0 & _)|Hgood]; [congruence|exact Hgood].
    + intros u Hg' _. by apply Hg.
    + intros h t Ht Hnone. unfold account in *. simpl in Ht. congruence.
    + done.
Qed.

(** ** A free name is found *)
Lemma candidate_inj base i j : candidate base i = candidate base j → i = j.
Proof. unfold candidate. intros H. apply (inj pretty). by apply (inj (String.app base)). Qed.

Lemma taken_spec name us : username_taken name us = true ↔ ∃ u x, us !! u = Some x ∧ Accounts.username x = name.
Proof.
  unfold username_taken. rewrite existsb_exists. split.
  - intros ([u x] & Hx%list_elem_of_In%elem_of_map_to_list & Hn%bool_decide_eq_true). by exists u, x.
  - intros (u & x & Hx & Hn). exists (u, x). split; [by apply list_elem_of_In, elem_of_map_to_list|by apply bool_decide_eq_true].
Qed.

(** The names in use, as a list no longer than the table. *)
Lemma free_suffix_finds fuel base us k :
  (∃ i, (i < fuel)%nat ∧ username_taken (candidate base (k + N.of_nat i)) us = false) →
  ∃ i, (i < fuel)%nat ∧ free_suffix fuel base k us = Some (candidate base (k + N.of_nat i))
    ∧ username_taken (candidate base (k + N.of_nat i)) us = false
    ∧ ∀ j, (j < i)%nat → username_taken (candidate base (k + N.of_nat j)) us = true.
Proof.
  revert k. induction fuel as [|fuel IH]; intros k (i & Hi & Hf); [lia|]. simpl.
  destruct (username_taken (candidate base k) us) eqn:Hk.
  - destruct i as [|i]; [rewrite N.add_0_r in Hf; congruence|].
    destruct (IH (k + 1)%N) as (j & Hj & Hr & Hfree & Hall).
    { exists i. split; [lia|]. by replace (k + 1 + N.of_nat i)%N with (k + N.of_nat (S i))%N by lia. }
    exists (S j). replace (k + N.of_nat (S j))%N with (k + 1 + N.of_nat j)%N by lia. split_and!; [lia|done|done|].
    intros [|m] Hm; [by rewrite N.add_0_r|]. replace (k + N.of_nat (S m))%N with (k + 1 + N.of_nat m)%N by lia. apply Hall. lia.
  - exists 0%nat. rewrite N.add_0_r. split_and!; [lia|done|done|lia].
Qed.

Lemma some_suffix_free base us k :
  ∃ i, (i < S (size us))%nat ∧ username_taken (candidate base (k + N.of_nat i)) us = false.
Proof.
  destruct (decide (Exists (λ i, username_taken (candidate base (k + N.of_nat i)) us = false) (seq 0 (S (size us))))) as [He|Hn].
  { apply Exists_exists in He as (i & Hi%elem_of_seq & Hf). exists i. split; [lia|done]. }
  exfalso. assert (Hlen : (length ((λ i, candidate base (k + N.of_nat i)) <$> seq 0 (S (size us)))
                           ≤ length ((λ ux, Accounts.username ux.2) <$> map_to_list us))%nat).
  { apply submseteq_length, NoDup_submseteq.
    - apply NoDup_fmap_2_strong; [|apply NoDup_seq]. intros i j _ _ Hij%candidate_inj. lia.
    - intros name (i & -> & Hi)%list_elem_of_fmap. assert (Ht : username_taken (candidate base (k + N.of_nat i)) us = true).
      { destruct (username_taken _ us) eqn:Hf; [done|]. exfalso. apply Hn, Exists_exists. by exists i. }
      apply taken_spec in Ht as (u & x & Hx & <-). apply list_elem_of_fmap. exists (u, x). split; [done|].
      by apply elem_of_map_to_list. }
  rewrite !length_fmap, length_seq, length_map_to_list in Hlen. lia.
Qed.

(** C33: The search for a user name ends: with as many tries as there are accounts,
    and one, it always answers, the base name if nobody has it and otherwise the base
    name with the smallest number from 1 on that makes it free. *)
Theorem unique_username_found (base : string) (us : gmap uuid Accounts.User) :
  ∃ name, ensure_unique_username base us = Some name
    ∧ (∀ u x, us !! u = Some x → Accounts.username x ≠ name)
    ∧ (name = base ∨
       ∃ i, (1 ≤ i ≤ N.of_nat (size us) + 1)%N ∧ name = candidate base i
         ∧ ∀ n, (n = base ∨ ∃ j, (1 ≤ j < i)%N ∧ n = candidate base j) → ∃ u x, us !! u = Some x ∧ Accounts.username x = n).
Proof.
  unfold ensure_unique_username. assert (Hfree : ∀ n, username_taken n us = false → ∀ u x, us !! u = Some x → Accounts.username x ≠ n).
  { intros n Hn u x Hx E. apply not_true_iff_false in Hn. apply Hn, taken_spec. by exists u, x. }
  destruct (username_taken base us) eqn:Hb; [|exists base; split_and!; [done|by apply Hfree|by left]].
  destruct (free_suffix_finds (S (size us)) base us 1 (some_suffix_free base us 1)) as (i & Hi & Hr & Hf & Hall).
  exists (candidate base (1 + N.of_nat i)). split_and!; [exact Hr|by apply Hfree|right]. exists (1 + N.of_nat i)%N.
  split_and!; [lia|lia|done|]. intros n [->|(j & Hj & ->)]; apply taken_spec; [done|].
  replace j with (1 + N.of_nat (N.to_nat (j - 1)))%N by lia. apply Hall. lia.
Qed.

(** ** Witnesses

    Ada, who registers a passkey and then enters with it. *)
Definition no_rows : rows := Rows ∅ ∅ ∅ ∅ ∅.

Definition with_ada : site :=
  Site (Credentials.World (Accounts.World (Accounts.Tables {[ Credentials.ada := Credentials.ada_row ]}
         {[ Credentials.ada := "member"%string ]} ∅ ∅ ∅ ∅ []) [] ∅ ∅ ∅ 0) (Tables ∅ ∅ ∅ ∅ ∅ ∅ ∅)) no_rows.

Definition some_services : Services :=
  MkServices (λ _ p, p) false (λ _ _, Raise OAUTH_PROVIDER_ERROR) ["github"%string]
    (λ c ch, if decide (ch = "ch1"%string) then Some (c, "key"%string, 0%Z) else None)
    (λ c ch key n, if decide (ch = "ch2"%string) then Some (n + 1)%Z else None) 15.

Definition plain_serve (r : request (T:=Sessions.Claims)) (w : site) : outcome err () * site :=
  serve (λ c, c) Sessions.plain_decode plain_keys Sessions.plain_settings Login.no_redis one_factor some_services r w.

Definition visits : list (request (T:=Sessions.Claims)) :=
  [PasskeyRegister ada "k1" "ch1"; PasskeyRegistered ada "cred" "k1" "cred" "" (uuid_of_N 1); PasskeyBegin "k2" "ch2" Login.some_request].

Definition entry : request (T:=Sessions.Claims) := PasskeyLogin "cred" "k2" "cred" Login.some_request.

Definition visited : site := foldl (λ w r, (plain_serve r w).2) with_ada visits.

Lemma visited_served :
  rtc (serves (λ c, c) Sessions.plain_decode plain_keys Sessions.plain_settings Login.no_redis one_factor some_services) with_ada visited.
Proof.
  unfold visited. generalize with_ada. induction visits as [|r rs IH]; intros w; [apply rtc_refl|].
  eapply rtc_l; [apply (serves_request _ _ _ _ _ _ _ w r)|apply IH].
Qed.

Lemma with_ada_distinct : unique_identities (users_of with_ada).
Proof. intros u v x y. cbn. intros [<- <-]%lookup_singleton_Some [<- <-]%lookup_singleton_Some. done. Qed.

Lemma every_entrance_guarded_witness :
  ∃ h t x, Accounts.refresh_tokens (Accounts.db (account (plain_serve entry visited).2)) !! h = Some t
    ∧ Accounts.refresh_tokens (Accounts.db (account visited)) !! h = None
    ∧ users_of (plain_serve entry visited).2 !! Accounts.rt_user t = Some x ∧ Accounts.admitted x.
Proof.
  destruct (every_entrance_guarded (λ c, c) Sessions.plain_decode plain_keys Sessions.plain_settings Login.no_redis one_factor some_services
    entry with_ada visited with_ada_distinct visited_served) as (_ & Hn & _).
  destruct (Accounts.refresh_tokens (Accounts.db (account (plain_serve entry visited).2)) !! "r1"%string) as [t|] eqn:Ht.
  - assert (Ho : Accounts.refresh_tokens (Accounts.db (account visited)) !! "r1"%string = None) by (vm_compute; reflexivity).
    destruct (Hn _ t Ht Ho) as (x & Hx & _ & Ha). by exists "r1"%string, t, x.
  - exfalso. assert (Hs : bool_decide (is_Some (Accounts.refresh_tokens (Accounts.db (account (plain_serve entry visited).2)) !! "r1"%string)) = true)
      by (vm_compute; reflexivity).
    apply bool_decide_eq_true in Hs. rewrite Ht in Hs. by destruct Hs.
Defined.

(** ** What modelling showed

    Registering a local account again, with its password, makes it a normal one that
    no address is known of. *)
Definition bob : uuid := uuid_of_N 8.

Definition with_bob (level hashed : string) (totp : gmap uuid Accounts.TOTP) : site :=
  Site (Credentials.World (Accounts.World (Accounts.Tables
         {[ bob := Accounts.MkUser "bob" None None hashed level false None 0 3 "active" None None None 0 ]}
         {[ bob := "member"%string ]} ∅ totp ∅ ∅ []) [] ∅ ∅ ∅ 0) (Tables ∅ ∅ ∅ ∅ ∅ ∅ ∅)) no_rows.

Definition level_of (u : uuid) (w : site) : option (string * bool) :=
  (λ x, (Accounts.account_level x, bool_decide (Accounts.email x = None ∧ Accounts.phone x = None))) <$> users_of w !! u.

Lemma registering_again_upgrades :
  let w := with_bob "local" "secret" ∅ in
  level_of bob w = Some ("local"%string, true)
  ∧ level_of bob (plain_serve (RegisterLocal (uuid_of_N 9) "bob" "secret" "salt" Login.some_request) w).2 = Some ("normal"%string, true).
Proof. split; vm_compute; reflexivity. Qed.

(** The stored hash of a waiting registration is verified as if it were a password:
    with a hash that is not its own password, the right password is refused. *)
Definition salted : Login.Factors := Login.MkFactors (λ p h, bool_decide (h = ("#" +:+ p)%string)) (λ _ _, None).
Definition salted_services : Services :=
  MkServices (λ _ p, ("#" +:+ p)%string) false (λ _ _, Raise OAUTH_PROVIDER_ERROR) [] (λ _ _, None) (λ _ _ _ _, None) 15.

Definition salted_run (r : request (T:=Sessions.Claims)) (w : site) : outcome err () * site :=
  serve (λ c, c) Sessions.plain_decode plain_keys Sessions.plain_settings Login.no_redis salted salted_services r w.

Lemma right_password_refused :
  let w := with_bob "local" "#secret" ∅ in
  let r := RegisterNormal "bob" "secret" "salt" "t1" (Some "bob@example.org"%string) None (123456%N, "n"%string, uuid_of_N 1)
             (0%N, ""%string, uuid_of_N 2) Login.some_request Login.some_request in
  verifypwd salted "secret" "#secret" = true
  ∧ (salted_run r w).1 = Ok tt
  ∧ (salted_run (RegisterNormalVerify (uuid_of_N 9) "t1" (Some "123456"%string) None Login.some_request) (salted_run r w).2).1
    = Raise ALREADY_REGISTERED.
Proof. cbv zeta. split_and!; vm_compute; reflexivity. Qed.

(** Switching the second factor off takes the level of an administrator, and tells
    nobody. *)
Lemma downgrade_is_silent :
  let w := with_bob "admin" "secret" {[ bob := Accounts.MkTotp "s" true 0 None ]} in
  let r := OnCredentials (Recovery.Disable2fa bob (Some "654321"%string) None) in
  level_of bob (plain_serve r w).2 = Some ("normal"%string, true)
  ∧ length (Accounts.sent (account (plain_serve r w).2)) = length (Accounts.sent (account w)).
Proof. cbv zeta. split; vm_compute; reflexivity. Qed.

(** The login of the back office does not ask for the admission. *)
Definition waiting_admin : site :=
  Site (Credentials.World (Accounts.World (Accounts.Tables
         {[ bob := Accounts.MkUser "bob" None None "secret" "admin" false None 0 3 "pending" None None None 0 ]}
         {[ bob := "admin"%string ]} ∅ ∅ ∅ ∅ []) [] ∅ ∅ ∅ 0) (Tables ∅ ∅ ∅ ∅ ∅ ∅ ∅)) no_rows.

Lemma back_office_ignores_admission :
  let enter := BackOffice (AdminSessions.AdminLogin "bob" "secret" Login.some_request Login.some_request) in
  let ask := OnCredentials (Recovery.OnAccount (Login.LoginPassword "bob" "secret" Login.some_request)) in
  (plain_serve ask waiting_admin).1 = Raise ADMISSION_PENDING
  ∧ Accounts.kind <$> Accounts.refresh_tokens (Accounts.db (account (plain_serve enter waiting_admin).2)) !! "r1"%string = Some "admin"%string.
Proof. cbv zeta. split; vm_compute; reflexivity. Qed.
